(* ===== verification/_CoqProject ===== *)
-Q . S2P
Prelude.v
Error.v
Libc.v
Base64.v
Hash.v
Hashtable.v
Dlist.v
Mempool.v
Str.v
StrPool.v
Wildcard.v
Table.v
StrTable.v
Fsm.v
Process.v
CronPattern.v
Cron.v
Ullc.v
Lib.v
Conffile.v
Log.v
Time.v
Stopwatch.v
Timerwheel.v
Timer.v
Ipc.v
File.v
FileCursor.v
Dir.v
Compression.v
Net.v
Cpu.v
Cio.v
Test.v
Crc.v
Bench.v
UllcSem.v
Double.v
Ljit.v
SysTime.v
ListTable.v
LibExit.v
MemAlloc.v
Lifetimes.v
TimeText.v
