(* ===== verification/Prelude.v ===== *)
(** * INAOS Common C Library (libinac): verification development

    libinac is a C library with the containers, strings, memory pools and
    system services on which server programs are built.  The sources are under
    [src/src] (C files) and [src/include/libinac] (headers); file names below
    are relative to these directories.  This development models the library's
    own algorithms and state machines as executable definitions that keep the
    names of the C functions, and proves what makes them correct.

    ** Parts and how they interact

    Every function reports through a return code of error.h.  The hash table
    uses the hash functions and allocates from memory pools; lists allocate
    their nodes from memory pools; a process context and a cron context keep
    their objects in hash tables; a process is a state machine of fsm.h whose
    actions call the operating system; the scheduler of cron.c parses patterns,
    starts processes and calls the client; the ring buffer of ullc.c connects
    threads and processes through shared memory.  A program starts with
    [ina_app_init] of lib.c, which reads its options; a log context declares a
    configuration of conffile.c, whose callbacks give it its targets.

    A timer keeps its events in a timing wheel.  Flags and counters live in the
    shared memory of memory.c, and who waits for a flag looks at it in the rhythm
    of a timer.  A file context keeps its open files in a hash table; cursors read
    these files through a buffer or through a window that mmap.c maps.  The
    remaining parts stand next to each other: directories, compression, sockets,
    the processor, and the console, which cuts its lines with the functions of
    string.c.  Two frameworks stand above them: the tests of test.c with their
    reports, and the benchmarks of bench.c, which read stopwatches and write files.

    ** Files

    - Prelude.v: machine integers ([wrap], [u8] ... [u64], operators with the
      width as index), C arrays as lists ([nthZ], [write_at], [read_at]), the
      type [result] of fallible functions, tactics and hints.
    - Error.v (error.h, error.c): codes, subjects and flags as inductive types
      with their numbers, packing and accessors, the thread's return code, the
      words of a message and their numbers.
    - Libc.v: what the other files use of the C library for texts (numbers,
      prefixes, comparison without case), with its standard behaviour.
    - Base64.v (util.c): encoder and decoder as loops over the bytes.
    - Hash.v (hash.c): CRC, the 32 and 64 bit hashes written in the library,
      block loops and tails as in the code, the streaming MurmurHash3.
    - Hashtable.v (hashtable.c): buckets of nodes, each operation with the
      events it pushes, iterators, identifiers.
    - Dlist.v (list.c): nodes in a heap, all list operations and the merge
      sort by pointers.
    - Mempool.v (memory.c): chains of chunks and their blocks, allocation from
      the bottom and from the top, reallocation, reset, clear, shrink, merge.
    - Str.v (string.c): buffers with header, every operation that copies,
      cuts, compares, splits or converts.
    - Wildcard.v (string.c: [ina_str_wildcard_match]): the matcher as a step
      function on two pointers and their bookmarks.
    - Table.v: what the hash table promises to its clients, as the classes
      [TableOps] and [TableLaws], with Hashtable.v as the instance.
    - StrTable.v (hashtable.h: [ina_hashtable_set_str], [ina_hashtable_get_str]):
      structures under names of which the table keeps 16 bytes, on Hashtable.v, and
      when a lookup tells names apart.
    - Fsm.v (fsm.h): status word, transition table, firing of events, generic
      in the client's memory (class [HasStatus]); the signal light of
      tests/test_fsm.c.
    - Process.v (process.c, POSIX): the process machine on Fsm.v with the
      system calls as a class [OS], the client operations, and the recycling of
      processes in a context on the interface of Table.v.
    - CronPattern.v (cron.c: [__ina_parse_field], [ina_cron_parse_pattern]).
    - Cron.v (cron.c): events, scheduler, pull and last execution on the
      interfaces of Table.v and Process.v.
    - Ullc.v (ullc.c): set-up of a ring, the operations, and their parallel
      execution as a step function of labels.
    - Lib.v (lib.c): the options a program registers, the parsing of its
      arguments, the queries, and the dispatch of signals.
    - Conffile.v (conffile.c, lconffile.lua): declared sections and keys, the
      functions a script calls with its blocks, import, callbacks, lookup, on the
      tables of StrTable.v.
    - Log.v (log.c): targets, levels and lines, buffers and files, rules, and the
      configuration by Conffile.v from which a context is made.
    - Time.v (time.c, POSIX): time stamps of both backends and what they mean,
      over a class of floating point arithmetic.
    - Stopwatch.v (stopwatch.c): start, stamps, stop and reading, and threads
      that stamp one stopwatch at once.
    - Timerwheel.v (contribs/timerwheel/timeout.c, the one vendored library the
      library's own logic leans on): wheels, bit fields and the lists of timeouts.
    - Timer.v (timer.c): timers and their events on Timerwheel.v and Time.v.
    - Ipc.v (ipc.c, the segments of memory.c): flags, counters, the lock, waiting,
      and the names of shared segments.
    - File.v (file.c): files and contexts, on the classes [Posix] and [TableOps].
    - FileCursor.v (mmap.c, file_cursor.c): windows and cursors, on File.v and the
      class [Mappings].
    - Dir.v (dir.c): walkers, whose names are C strings in a pool (Mempool.v,
      StrPool.v).
    - Compression.v (compression.c): chunks, deflation and inflation, on the
      classes [Lz4] and [Miniz].
    - Net.v (net.c): sockets, on the class [Sockets].
    - Cpu.v (cpu.c): what Linux and the instruction cpuid tell.
    - Cio.v (cio.c): colours, the cursor and the input of lines.
    - Test.v (test.c): assertions and their messages, filters, helpers, and the
      runner with its three formats.
    - Crc.v (hash.c): the functions that take the CRC instruction (class [CrcInsn])
      and those of other libraries, on Hash.v.
    - Bench.v (bench.c): the runner of benchmarks and its report.
    - UllcSem.v (ullc.c): the semaphores of a ring over a class for those of the
      system, and the ring information, beside Ullc.v.
    - Double.v (util.c): comparisons of floating point numbers with the
      specification of IEEE 754.
    - StrPool.v (string.c): strings in the memory of a pool, on Str.v and Mempool.v,
      and formatted strings.
    - Ljit.v (ljit.c): calls of Lua functions, over the class [Lua].
    - SysTime.v (time_os.c): the clock of the system.
    - ListTable.v (list.c): lists made from hash tables, on Dlist.v and Table.v.
    - LibExit.v (lib.c): start of the parts, usage, and the end, on Lib.v.
    - MemAlloc.v (memory.c, memory.h): blocks of memory and their addresses.
    - Lifetimes.v (process.c, cron.c): contexts, descriptors and events from
      creation to release, on Process.v and Cron.v.
    - TimeText.v (time.c): times as texts in the strings of Str.v, and sleeping.

    A state is a record of the fields of the C struct, an operation a function
    from state and arguments to the new state and the result.  In the files
    with pointers ([Dlist], [Mempool], [Str], [Wildcard], [CronPattern],
    [Ullc], [Lib], [Log], [Stopwatch], [Timerwheel], [Ipc], [FileCursor], [Dir],
    [Compression], [Net], [Cpu], [Test], [Bench], [StrPool], [Ljit], [ListTable],
    [MemAlloc], [Lifetimes], [TimeText]) a result [None] is behaviour that C does not
    define: an access outside an array or to memory that was not allocated, a
    failed assertion, or an overflow of a signed integer where the code has to
    avoid it; in a loop that waits for others (a key, a flag, a peer) it is also
    the end of the input or of the turns.  A theorem that an operation gives [Some] therefore states memory safety too.

    ** What the theorems show

    - Refinement: the hash table implements a finite map
      ([hashtable_refines_map]), the list a sequence
      ([list_refines_sequence]), string buffers implement texts
      ([strings_refine_text]), a process follows a three state machine and
      creates and terminates children exactly where the machine does
      ([process_lifecycle]), a transition table runs as the automaton it
      describes ([fsm_refines_automaton]), a command line sets the options its
      settings name ([command_line_refines_settings]), the wheels a schedule of
      expiry times ([timerwheel_refines_schedule]) and the events on them
      metronomes ([events_beat_as_metronomes]), strings of a pool texts that do not
      overlap ([pooled_strings_hold_text]).
    - Memory: pool allocations never overlap ([pool_allocations_are_disjoint]),
      reallocation keeps contents ([ralloc_keeps_content]), aligned
      allocations stay in their block ([alloc_aligned_in_block]), a pattern
      field is parsed within its array ([parse_field_safe]).  Shared segments are
      there as long as someone holds them ([segments_live_with_handles]), a block of
      memory that is moved keeps its content ([mem_realloc_keeps]), and the messages of
      a test stay in their buffer ([messages_stay_in_buffer]).
    - Concurrency: in every interleaving of a producer and its consumers the
      items are read in order, the cursors keep their bounds, and what is
      committed is delivered ([consumers_read_in_order], [ring_invariant],
      [committed_items_are_delivered]); set-up leads to the initial states of
      these executions ([setup_gives_new_ring]).  Threads that stamp a stopwatch
      at once never share a record ([parallel_stamps_are_separate]).  The bits of
      shared flags count their references ([flags_count_references]); the lock of
      the flags leaves calls that follow one another as they are and does not
      exclude threads from each other ([lock_orders_only_the_ordered]);
      and waiting ends with the flags or with the time
      ([wait_ends_with_flags_or_time]).
    - Scheduling: every minute is examined once whatever the calls
      ([cron_examines_each_minute_once]); a pattern means its schedule
      ([parse_pattern_schedule], [parse_field_grammar]); [last_exec_is_latest],
      [try_pull_takes_first].
    - Configuration and output: a configuration has the values its file gives
      and an invalid one changes nothing, for names that the tables can tell apart
      ([configuration_has_given_values]), and as long as the messages find room in
      their buffers none is lost, doubled or reordered on its way to files and
      streams ([log_delivers_messages]).  A prompt gives the line that
      was typed ([lines_are_what_is_typed]), and colours are written only where
      they are meant to be ([printing_in_colours]).
    - Files: what was written is read back ([written_is_read_back]), cursors give
      the chunks and the lines of the file ([window_chunks_are_the_file],
      [buffered_chunks_are_the_file], [window_lines_are_the_file]), a context
      closes what it opened ([context_closes_its_files]), and a walker visits each
      entry once and in order ([walker_visits_directory]).
    - Frameworks: a run of tests gives each its turn and reports it
      ([test_run_reports_each_test]), a run of benchmarks writes the table of what was
      measured ([benchmark_writes_its_table]), and a call of a Lua function converts
      what it is given and gives ([call_marshals]).
    - Network and machine: a connection is there or nothing is left of the attempt, unless
      the system refuses an option ([connections_or_nothing]), what is sent is a prefix
      of the buffer and the result tells when it is not all ([writing_sends_all]),
      and the processor is what its registers tell
      ([processor_is_as_cpuid_says]).
    - Start: an unknown option is refused ([unknown_option_is_rejected]) and
      arguments are read within the buffer ([parse_args_safe]).  The end frees nothing
      twice ([exit_frees_short_options]), and a context of events frees those of its
      table ([ctx_free_frees]).
    - Time: [tsc_time_is_normal], [stopwatch_measures], [filetime_is_unix_time],
      [tsc_strftime_writes_time].
    - Algorithms against reference definitions: [crc32_correct], [crc_hw_is_crc],
      [murmur3_streaming], [match_is_sound], [match_without_stars_exact],
      [split_spec], [tok_spec], [sort_sorts], [cmp_is_lexicographic].
    - Round trips: [base64_roundtrip], [deflate_round_trip],
      [chunk_round_trip], [rc_pack_fields], [assign_release],
      [fsm_status_fields].
    - Theorems whose names end in [_defects] (and [broken_list_operations],
      [node_free_overflows], [revived_key_is_not_counted],
      [keys_outside_the_contract], [identifiers_leak], [merge_behaviour],
      [rc_error_loses_top_bit], [empty_chunk_fails], [last_piece_is_cut],
      [too_many_entries], [socket_leaks], [no_long_timeouts],
      [hyperthreading_on_vm], [moving_the_column_moves_the_row],
      [echo_stays_off], [data_is_taken_for_a_list], [start_is_tried_once],
      [descriptor_is_written], [events_outlive_their_context], [names_are_cut],
      [names_run_on], [match_reads_behind], [calls_in_parallel_lose_counts]) show where
      the code leaves its contract; they delimit the hypotheses of the other theorems.

    The conditions under which a theorem speaks of the code are in its comment.  The
    main ones: the keys of a hash table have one size, and names in it are told apart by
    their first 16 bytes; fewer than 256 removed nodes of a list wait to be used
    again; strings in a pool have room in a pool that does not grow; there is a record
    for each thread that stamps; cursors work on whole pages; a directory has at
    most 1024 entries and its names do not run on; a benchmark has one series or one
    repetition.  Where the condition is sharp, the same theorem or the one named
    above shows what happens without it.

    ** Fuel and bounds

    Loops without a structural argument take a number of turns, chosen from
    the data so that it is never used up, and the theorems state that a result
    is given: the merge sort and the walks of Dlist.v get the size of the heap,
    the chains of Mempool.v the number of pools, the splitter the length of
    the text, the wildcard matcher a bound from both lengths
    ([match_terminates]), the pattern parser the length of the field and the
    1024 turns of the code's own failsafe, the scheduler the minutes of the
    interval, the cells of a ring their number, the lists of a wheel 65 turns (64
    slots and one more), a read of a whole file more than the bytes that are left,
    the search for the end of a line more than the length of the line, a walk one
    more than the entries, sending one turn for a byte, the readers of Cpu.v and
    Cio.v the length of what they read.  Accepting a connection and taking a lock
    retry as often as the environment makes them; there the fuel exceeds the
    number of disturbances, which is a hypothesis.

    Integers have the width of an LP64 platform with little endian order;
    [size_t] is 64 bits wide.  Where a counter is taken as unbounded (64 bit
    positions of a ring, times in seconds) the file says so.

    ** Parameters

    Allocation ([malloc] succeeding or not and the content of fresh memory in
    Mempool.v and Str.v), the operating system ([OS]), [localtime], callbacks
    and compare functions of the client, the clock of the statistics and the
    hash function of a table are arguments; their hypotheses are stated where
    a theorem needs them and each such theorem has a witness with a concrete
    instance.  So are the environment, the conversions between numbers and
    texts, and the order in which tables are visited, in the files on options,
    configurations and logging.  In the files on the system its calls are classes:
    [Posix] with [PosixLaws] for files, [Mappings] for memory maps, [Sockets] with
    [SocketLaws]; the codecs are [Lz4] and [Miniz] with their laws, the
    semaphores [SemOs] with [SemLaws], the interpreter [Lua], the CRC instruction
    [CrcInsn].  Hash functions of other libraries, the arithmetic and the printing of
    the numbers of a benchmark, the jumps out of a test, [qsort], the
    instruction cpuid, the files of the system, the answers of a terminal and the
    keys that are pressed are arguments.

    ** Not modelled

    The vendored libraries (LuaJIT, miniz, lz4, hash libraries, cpu-topology)
    except the timing wheel: they are third party code, and where the library
    calls them they are arguments with their documented behaviour.  What portable.c
    gives to Windows and, in the modelled files, the Windows variants.  A
    configuration script is the sequence of its blocks, whatever the interpreter
    did to get there, and the making and closing of interpreters is left out, as are
    tests that are written in Lua, core dumps, process statistics (a query of the
    system), the assertions on floating point numbers, the memory caches a benchmark clears,
    hash tables made from a configuration and the consumer of their statistics
    (both composed of parts that are modelled), the default log context, and
    opening the stopwatch of another process.  These are calls to the system without a logic
    of their own. *)
From Stdlib Require Import ZArith Lia Bool String Ascii.
From stdpp Require Import base list numbers option strings.

Declare Scope inac_scope.
Delimit Scope inac_scope with inac.
#[global] Open Scope Z_scope.

(** ** Tactics *)

(** Open every existential and conjunction of the context. *)
Ltac deex :=
  repeat match goal with
  | H : exists _, _ |- _ => let x := fresh "w" in destruct H as [x H]
  | H : _ /\ _ |- _ => destruct H
  end.

(** Case analysis on the boolean tests of an [if] or [match], turning
    comparisons on integers into hypotheses. *)
Ltac case_bool :=
  match goal with
  | |- context [Z.eqb ?a ?b] => destruct (Z.eqb_spec a b)
  | |- context [Z.ltb ?a ?b] => destruct (Z.ltb_spec a b)
  | |- context [Z.leb ?a ?b] => destruct (Z.leb_spec a b)
  | H : context [Z.eqb ?a ?b] |- _ => destruct (Z.eqb_spec a b)
  | H : context [Z.ltb ?a ?b] |- _ => destruct (Z.ltb_spec a b)
  | H : context [Z.leb ?a ?b] |- _ => destruct (Z.leb_spec a b)
  | |- context [if ?b then _ else _] => destruct b eqn:?
  | H : context [if ?b then _ else _] |- _ => destruct b eqn:?
  end.

(** [lia] with division and modulo expanded. *)
Ltac dlia := Z.div_mod_to_equations; lia.

(** ** Machine integers

    An integer of width [w] is a [Z] in [0, 2^w); every operation of the code
    that may overflow goes through [wrap]. *)
Definition wrap (w x : Z) : Z := x mod 2 ^ w.

Abbreviation u8 := (wrap 8).
Abbreviation u16 := (wrap 16).
Abbreviation u32 := (wrap 32).
Abbreviation u64 := (wrap 64).

(** Left shift in a type of width [w]: the bits shifted out are lost. *)
Definition shl (w x n : Z) : Z := wrap w (Z.shiftl x n).

Notation "x +₃₂ y" := (wrap 32 (x + y)) (at level 50, left associativity) : inac_scope.
Notation "x -₃₂ y" := (wrap 32 (x - y)) (at level 50, left associativity) : inac_scope.
Notation "x *₃₂ y" := (wrap 32 (x * y)) (at level 40, left associativity) : inac_scope.
Notation "x +₆₄ y" := (wrap 64 (x + y)) (at level 50, left associativity) : inac_scope.
Notation "x -₆₄ y" := (wrap 64 (x - y)) (at level 50, left associativity) : inac_scope.
Notation "x *₆₄ y" := (wrap 64 (x * y)) (at level 40, left associativity) : inac_scope.

(** [x] is a value of an unsigned type of width [w]. *)
Definition in_width (w x : Z) : Prop := 0 <= x < 2 ^ w.

Abbreviation is_byte := (in_width 8).

#[export] Instance in_width_dec w x : Decision (in_width w x).
Proof. unfold in_width. apply _. Defined.

Create HintDb word.

Lemma wrap_in_width w x : 0 <= w -> in_width w (wrap w x).
Proof. intros. apply Z.mod_pos_bound. lia. Qed.

Lemma wrap_small w x : in_width w x -> wrap w x = x.
Proof. intros. by apply Z.mod_small. Qed.

Lemma wrap_wrap w x : wrap w (wrap w x) = wrap w x.
Proof. apply Zmod_mod. Qed.

Lemma wrap_add_l w x y : wrap w (wrap w x + y) = wrap w (x + y).
Proof. apply Zplus_mod_idemp_l. Qed.

Lemma wrap_add_r w x y : wrap w (x + wrap w y) = wrap w (x + y).
Proof. apply Zplus_mod_idemp_r. Qed.

Lemma wrap_mul_l w x y : wrap w (wrap w x * y) = wrap w (x * y).
Proof. apply Zmult_mod_idemp_l. Qed.

Lemma wrap_mul_r w x y : wrap w (x * wrap w y) = wrap w (x * y).
Proof. apply Zmult_mod_idemp_r. Qed.

Lemma wrap_sub_l w x y : wrap w (wrap w x - y) = wrap w (x - y).
Proof. apply Zminus_mod_idemp_l. Qed.

Lemma wrap_sub_r w x y : wrap w (x - wrap w y) = wrap w (x - y).
Proof. apply Zminus_mod_idemp_r. Qed.

(** Wrapping keeps exactly the low bits. *)
Lemma wrap_testbit w x i :
  0 <= w -> 0 <= i -> Z.testbit (wrap w x) i = (i <? w) && Z.testbit x i.
Proof.
  intros. unfold wrap. destruct (Z.ltb_spec i w).
  - by rewrite Z.mod_pow2_bits_low.
  - rewrite Z.mod_pow2_bits_high by lia. done.
Qed.

Lemma in_width_testbit w x :
  0 <= w -> (forall i, w <= i -> Z.testbit x i = false) -> in_width w x.
Proof.
  intros Hw H. assert (x = wrap w x) as ->; [|by apply wrap_in_width].
  apply Z.bits_inj'. intros i Hi. rewrite wrap_testbit by lia.
  destruct (Z.ltb_spec i w); [done|]. by rewrite H.
Qed.

Lemma in_width_high_bits w x i :
  in_width w x -> w <= i -> Z.testbit x i = false.
Proof.
  intros [? ?] ?.
  destruct (decide (0 <= i)).
  - rewrite <- (Z.mod_small x (2 ^ w)) by lia.
    destruct (decide (0 <= w)); [apply Z.mod_pow2_bits_high; lia|].
    rewrite Z.pow_neg_r in * by lia. lia.
  - by apply Z.testbit_neg_r; lia.
Qed.

Lemma lxor_in_width w x y :
  0 <= w -> in_width w x -> in_width w y -> in_width w (Z.lxor x y).
Proof.
  intros. apply in_width_testbit; [done|]. intros i Hi.
  rewrite Z.lxor_spec, !(in_width_high_bits w) by done. done.
Qed.

Lemma lor_in_width w x y :
  0 <= w -> in_width w x -> in_width w y -> in_width w (Z.lor x y).
Proof.
  intros. apply in_width_testbit; [done|]. intros i Hi.
  rewrite Z.lor_spec, !(in_width_high_bits w) by done. done.
Qed.

Lemma land_in_width_l w x y :
  0 <= w -> in_width w x -> in_width w (Z.land x y).
Proof.
  intros. apply in_width_testbit; [done|]. intros i Hi.
  rewrite Z.land_spec, (in_width_high_bits w x) by done. done.
Qed.

Lemma land_in_width_r w x y :
  0 <= w -> in_width w y -> in_width w (Z.land x y).
Proof. intros. rewrite Z.land_comm. by apply land_in_width_l. Qed.

Lemma shiftr_in_width w x n :
  0 <= w -> 0 <= n -> in_width w x -> in_width w (Z.shiftr x n).
Proof.
  intros. apply in_width_testbit; [done|]. intros i Hi.
  rewrite Z.shiftr_spec by lia. apply (in_width_high_bits w); [done|lia].
Qed.

Lemma in_width_mono v w x : 0 <= v <= w -> in_width v x -> in_width w x.
Proof.
  intros ? [? ?]. split; [done|].
  eapply Z.lt_le_trans; [done|]. apply Z.pow_le_mono_r; lia.
Qed.

Lemma shl_in_width w x n : 0 <= w -> in_width w (shl w x n).
Proof. apply wrap_in_width. Qed.

(** A single bit of a 64 bit word. *)
Lemma shl_1 (k : Z) : 0 <= k < 64 -> shl 64 1 k = 2 ^ k.
Proof.
  intros Hk. unfold shl. rewrite Z.shiftl_1_l. apply wrap_small. split; [by apply Z.pow_nonneg|].
  apply Z.pow_lt_mono_r; lia.
Qed.

#[export] Hint Resolve wrap_in_width shl_in_width lxor_in_width lor_in_width land_in_width_l
  land_in_width_r shiftr_in_width : word.
#[export] Hint Extern 1 (0 <= _) => lia : word.
Create Rewrite HintDb word_rw.
#[export] Hint Rewrite wrap_wrap wrap_add_l wrap_add_r wrap_mul_l wrap_mul_r
  wrap_sub_l wrap_sub_r : word_rw.

(** Bitwise equality of integers: reduce to the bits and split on which of
    the ranges the bit index falls in. *)
Lemma Z_bits_ext x y :
  (forall i, 0 <= i -> Z.testbit x i = Z.testbit y i) -> x = y.
Proof. intros. by apply Z.bits_inj'. Qed.

Lemma ones_testbit n i : 0 <= n -> 0 <= i -> Z.testbit (Z.ones n) i = (i <? n).
Proof. intros. rewrite Z.testbit_ones by done. by destruct (Z.leb_spec 0 i); [|lia]. Qed.

Lemma pow2_testbit n i : 0 <= n -> Z.testbit (2 ^ n) i = (i =? n).
Proof. intros. rewrite Z.pow2_bits_eqb by done. apply Z.eqb_sym. Qed.

Lemma shl_testbit w x n i :
  0 <= w -> 0 <= i -> Z.testbit (shl w x n) i = (i <? w) && Z.testbit x (i - n).
Proof. intros. unfold shl. by rewrite wrap_testbit, Z.shiftl_spec. Qed.

Create Rewrite HintDb bits.
#[export] Hint Rewrite Z.land_spec Z.lor_spec Z.lxor_spec Z.bits_0 : bits.
#[export] Hint Rewrite Z.shiftr_spec Z.shiftl_spec wrap_testbit ones_testbit
  pow2_testbit shl_testbit Z.lnot_spec using lia : bits.

(** Prove an equality of integers bit by bit. *)
Ltac bit_cases :=
  repeat match goal with
  | |- context [Z.ltb ?a ?b] => destruct (Z.ltb_spec a b)
  | |- context [Z.eqb ?a ?b] => destruct (Z.eqb_spec a b)
  end.
Ltac bitwise :=
  apply Z_bits_ext; let i := fresh "i" in intros i ?;
  autorewrite with bits; bit_cases; simpl;
  rewrite ?andb_true_r, ?andb_false_r, ?orb_false_r, ?orb_true_r, ?xorb_false_r;
  try lia; try done.

(** The disjoint [or] of a low part and a shifted high part is their sum. *)
Lemma lor_shiftl_add n lo hi :
  0 <= n -> in_width n lo -> Z.lor (Z.shiftl hi n) lo = hi * 2 ^ n + lo.
Proof.
  intros Hn Hlo. rewrite Z.shiftl_mul_pow2 by done. symmetry.
  assert (Z.land (hi * 2 ^ n) lo = 0) as Hd.
  { apply Z_bits_ext. intros i Hi. rewrite Z.land_spec, Z.bits_0.
    destruct (decide (i < n)).
    - rewrite Z.mul_pow2_bits_low by lia. done.
    - rewrite (in_width_high_bits n lo) by (done || lia). apply andb_false_r. }
  rewrite <- Z.lxor_lor by done. by apply Z.add_nocarry_lxor.
Qed.

(** Testing one bit with a mask. *)
Lemma land_pow2_eqb x k : 0 <= k -> (Z.land x (2 ^ k) =? 0) = negb (Z.testbit x k).
Proof.
  intros Hk. assert (Z.testbit (Z.land x (2 ^ k)) k = Z.testbit x k) as Hb.
  { autorewrite with bits. rewrite Z.eqb_refl. apply andb_true_r. }
  destruct (Z.eqb_spec (Z.land x (2 ^ k)) 0) as [H|H]; simpl.
  - by rewrite <- Hb, H, Z.bits_0.
  - destruct (Z.testbit x k) eqn:Hr; [done|]. destruct H. bitwise. by subst.
Qed.

Lemma testbit_small x k : 0 <= k -> 0 <= x < 2 ^ k -> Z.testbit x k = false.
Proof. intros. by apply (in_width_high_bits k). Qed.

Lemma testbit_top x k : 0 <= k -> 2 ^ k <= x < 2 * 2 ^ k -> Z.testbit x k = true.
Proof.
  intros. apply Z.b2z_inj. rewrite Z.testbit_spec' by done. simpl.
  replace (x / 2 ^ k) with 1; [done|]. apply Z.div_unique with (x - 2 ^ k); lia.
Qed.

(** ** Results

    [Err x] stands for [return INA_ERROR(x)]; the 64 bit return code built
    from [x] is [Error.INA_ERROR]. *)
Inductive result (A : Type) : Type :=
  | Ok (a : A)
  | Err (x : Z).
Arguments Ok {A} _.
Arguments Err {A} _.

Definition rbind {A B} (m : result A) (k : A -> result B) : result B :=
  match m with Ok a => k a | Err x => Err x end.

Notation "x <-! m ; k" := (rbind m (fun x => k))
  (at level 100, m at next level, right associativity) : inac_scope.

Lemma rbind_ok {A B} (m : result A) (k : A -> result B) b :
  rbind m k = Ok b <-> exists a, m = Ok a /\ k a = Ok b.
Proof. destruct m; naive_solver. Qed.

Lemma rbind_assoc {A B C} (m : result A) (f : A -> result B) (g : B -> result C) :
  rbind (rbind m f) g = rbind m (fun a => rbind (f a) g).
Proof. by destruct m. Qed.

(** ** Bytes and strings

    C strings are lists of bytes; [bytes_of_string] embeds the literals of the
    source. *)
Definition byte_of_ascii (c : ascii) : Z := Z.of_N (N_of_ascii c).

Definition bytes_of_string (s : string) : list Z :=
  map byte_of_ascii (list_ascii_of_string s).

Lemma byte_of_ascii_range c : is_byte (byte_of_ascii c).
Proof.
  unfold byte_of_ascii, in_width. pose proof (N_ascii_bounded c) as H.
  change (2 ^ 8) with 256. lia.
Qed.

(** ** Lists indexed by integers *)

(** [nthZ d l i] is [l[i]], with a default that is only reached outside the
    array. *)
Definition nthZ {A} (d : A) (l : list A) (i : Z) : A := List.nth (Z.to_nat i) l d.

(** ** Memory as a list

    A store of [bs] at [off] and a load of [n] elements at [off]; [None] is an
    access outside the list. *)
Definition write_at {A} (l : list A) (off : Z) (bs : list A) : option (list A) :=
  if (0 <=? off) && (off + Z.of_nat (length bs) <=? Z.of_nat (length l)) then
    Some (take (Z.to_nat off) l ++ bs ++ drop (Z.to_nat (off + Z.of_nat (length bs))) l)
  else None.

Definition read_at {A} (l : list A) (off n : Z) : option (list A) :=
  if (0 <=? off) && (0 <=? n) && (off + n <=? Z.of_nat (length l)) then
    Some (take (Z.to_nat n) (drop (Z.to_nat off) l))
  else None.

Lemma splice_below {A} (b bs : list A) o q n :
  (q + n <= o)%nat -> (o <= length b)%nat ->
  take n (drop q (take o b ++ bs)) = take n (drop q b).
Proof.
  intros Hq Ho. rewrite drop_app_le by (rewrite length_take; lia).
  rewrite take_app_le by (rewrite length_drop, length_take; lia).
  rewrite skipn_firstn_comm, take_take. f_equal. lia.
Qed.

Lemma splice_above {A} (b bs : list A) o q :
  (o + length bs <= q)%nat -> (o <= length b)%nat ->
  drop q (take o b ++ bs ++ drop (o + length bs) b) = drop q b.
Proof.
  intros Hq Ho. rewrite (app_assoc (take o b)).
  assert (length (take o b ++ bs) = o + length bs)%nat as Hl by (rewrite length_app, length_take; lia).
  rewrite drop_app_ge by (rewrite Hl; lia). rewrite Hl, drop_drop. f_equal. lia.
Qed.

Lemma write_at_some {A} (l : list A) off bs :
  0 <= off -> off + Z.of_nat (length bs) <= Z.of_nat (length l) ->
  write_at l off bs = Some (take (Z.to_nat off) l ++ bs ++ drop (Z.to_nat off + length bs) l).
Proof.
  intros H1 H2. unfold write_at. destruct (Z.leb_spec 0 off); [|lia].
  destruct (Z.leb_spec (off + Z.of_nat (length bs)) (Z.of_nat (length l))); [|lia]. cbn [andb].
  by replace (Z.to_nat (off + Z.of_nat (length bs))) with (Z.to_nat off + length bs)%nat by lia.
Qed.

Lemma length_write_at {A} (l l' : list A) off bs : write_at l off bs = Some l' -> length l' = length l.
Proof.
  unfold write_at. destruct (Z.leb_spec 0 off); [|done].
  destruct (Z.leb_spec (off + Z.of_nat (length bs)) (Z.of_nat (length l))); [|done]. intros [= <-].
  rewrite !length_app, length_take, length_drop. lia.
Qed.

Lemma read_at_some {A} (l : list A) off n :
  0 <= off -> 0 <= n -> off + n <= Z.of_nat (length l) ->
  read_at l off n = Some (take (Z.to_nat n) (drop (Z.to_nat off) l)).
Proof.
  intros H1 H2 H3. unfold read_at. destruct (Z.leb_spec 0 off); [|lia]. destruct (Z.leb_spec 0 n); [|lia].
  by destruct (Z.leb_spec (off + n) (Z.of_nat (length l))); [|lia].
Qed.

Lemma fold_left_invariant {A B} (P : A -> Prop) (Q : B -> Prop) (f : A -> B -> A) l a :
  P a -> Forall Q l -> (forall a b, P a -> Q b -> P (f a b)) -> P (fold_left f l a).
Proof. intros Ha Hl Hf. revert a Ha. induction Hl; simpl; auto. Qed.

(** Induction on the length of a list. *)
Lemma length_ind {A} (P : list A -> Prop) :
  (forall l, (forall k, (length k < length l)%nat -> P k) -> P l) -> forall l, P l.
Proof.
  intros H l. enough (forall n l, (length l <= n)%nat -> P l) as Hn by by apply (Hn (length l)).
  clear -H. induction n as [|n IH]; intros l Hl; apply H; intros k Hk; [lia|]. apply IH. lia.
Qed.


(** Induction on lists three elements at a time. *)
Lemma list_ind3 {A} (P : list A -> Prop) :
  P [] -> (forall a, P [a]) -> (forall a b, P [a; b]) ->
  (forall a b c l, P l -> P (a :: b :: c :: l)) -> forall l, P l.
Proof.
  intros H0 H1 H2 H3 l.
  enough (forall n l, (length l <= n)%nat -> P l) by eauto.
  clear l. induction n as [|n IH]; intros [|a [|b [|c l]]]; simpl; auto; try lia.
  intros. apply H3, IH. lia.
Qed.

(** Turn shifts and masks by constants into division and modulo. *)
Ltac arith_shift :=
  repeat match goal with
  | |- context [Z.land ?x 63] => change (Z.land x 63) with (Z.land x (Z.ones 6))
  | |- context [Z.land ?x 255] => change (Z.land x 255) with (Z.land x (Z.ones 8))
  end;
  rewrite ?Z.land_ones, ?Z.shiftr_div_pow2, ?Z.shiftl_mul_pow2 by lia;
  unfold wrap, in_width in *;
  repeat match goal with
  | |- context [2 ^ ?n] => let v := eval compute in (2 ^ n) in change (2 ^ n) with v
  | H : context [2 ^ ?n] |- _ => let v := eval compute in (2 ^ n) in change (2 ^ n) with v in H
  end.
