(* ===== verification/Error.v ===== *)
(** * Return codes (error.h, error.c)

    A return code is a 64 bit integer that packs an error flag, the version
    and revision of the library, a native error number, user bits, a code
    (adjective), a negation flag and a subject.  The file models the bit
    layout, the accessor macros, the packing macros, the operations on the
    global return code and the formatting of messages. *)
From Stdlib Require Import ZArith Lia Bool String Ascii.
From stdpp Require Import base list numbers option strings pretty.
From S2P Require Import Prelude.

Module Error.

(** The code part of a return code, in the order of error.h. *)
Inductive ina_err : Set :=
  | E_A | E_ACK | E_ACTIVE | E_ALIGNED | E_ALLOWED | E_ASSIGNED
  | E_ATTACHED | E_ATTEMPTED | E_AUTHORIZED | E_AVAILABLE | E_BAD
  | E_BLOCKED | E_BROKEN | E_BUILT | E_BUSY | E_CLOSED | E_COLLIDED
  | E_COMPILED | E_COMPLETE | E_CONFLICTED | E_CONNECTED | E_CONSTRUCTED
  | E_CREATED | E_DEFINED | E_DENIED | E_DEPARTED | E_DESTRUCTED
  | E_DETACHED | E_DETECTED | E_DISABLED | E_DOWN | E_DOWNLOADED | E_EMPTY
  | E_ENABLED | E_ENHANCED | E_ENOUGH | E_EXCEEDED | E_EXCHANGED
  | E_EXECUTABLE | E_EXISTS | E_EXPIRED | E_EXTENDED | E_FAILED | E_FALSE
  | E_FATAL | E_FORBIDDEN | E_FORMATTED | E_FOUND | E_FULL | E_GONE
  | E_GOOD | E_HALTED | E_HIDDEN | E_HOLD | E_IDLE | E_ILLEGAL
  | E_IMPLEMENTED | E_IN_PROGRESS | E_IN_USE | E_INITIALIZED | E_INSERTED
  | E_INSTALLED | E_INTERRUPTED | E_JOINED | E_KNOWN | E_LINKED | E_LOADED
  | E_LOCAL | E_LOCKED | E_LOOPED | E_LOST | E_MERGED | E_MISSING
  | E_MOUNTED | E_NEEDED | E_NO | E_NO_SUCH | E_OFF | E_ON | E_ONLINE
  | E_OPEN | E_ORDERED | E_OUT_OF | E_OUT_OF_RANGE | E_OVERFLOW | E_PADDED
  | E_PARTED | E_PERMITTED | E_POPPED | E_PRELOADED | E_PROCESSABLE
  | E_PROVIDED | E_PUSHED | E_REACHABLE | E_READABLE | E_RECEIVED
  | E_REFUSED | E_REGISTERED | E_REJECTED | E_RELEASED | E_REMOTE
  | E_REMOVED | E_RENDERABLE | E_RESERVED | E_RESET | E_RESPONDING
  | E_RETRIED | E_RIGHT | E_RUNNING | E_SENT | E_SHARED | E_SORTED
  | E_SPECIFIED | E_SPLITTED | E_STALLED | E_STOPPED | E_SUCEEDED
  | E_SUITABLE | E_SUPPORTED | E_SYNCHRONIZED | E_TERMINATED | E_THROWN
  | E_TIMED_OUT | E_TOO_COMPLEX | E_TOO_FEW | E_TOO_LARGE | E_TOO_LONG
  | E_TOO_MANY | E_TOO_MUCH | E_TOO_SIMPLE | E_TOO_SMALL | E_TRIGGERED
  | E_TRUE | E_UNBLOCKED | E_UNDERFLOW | E_UNINITIALIZED | E_UNINSTALLED
  | E_UNIQUE | E_UNLOADED | E_UNLOCKED | E_UNSORTED | E_UP | E_UPDATED
  | E_UPGRADED | E_UPLOADED | E_USED | E_VALID | E_VISIBLE | E_WORKING
  | E_WRITABLE | E_WRONG | E_END_OF | E_RESOLVED | E_MATCH | E_TRY_AGAIN
  | E_PARSED | E_CHANGED.

(** The number each code has before it is shifted to [INA_RC_BIT_C]. *)
Definition ina_err_number (e : ina_err) : Z :=
  match e with
  | E_A => 1 | E_ACK => 2 | E_ACTIVE => 3 | E_ALIGNED => 4 | E_ALLOWED => 5
  | E_ASSIGNED => 6 | E_ATTACHED => 7 | E_ATTEMPTED => 8
  | E_AUTHORIZED => 9 | E_AVAILABLE => 10 | E_BAD => 11 | E_BLOCKED => 12
  | E_BROKEN => 13 | E_BUILT => 14 | E_BUSY => 15 | E_CLOSED => 16
  | E_COLLIDED => 17 | E_COMPILED => 18 | E_COMPLETE => 19
  | E_CONFLICTED => 20 | E_CONNECTED => 21 | E_CONSTRUCTED => 22
  | E_CREATED => 23 | E_DEFINED => 24 | E_DENIED => 25 | E_DEPARTED => 26
  | E_DESTRUCTED => 27 | E_DETACHED => 28 | E_DETECTED => 29
  | E_DISABLED => 30 | E_DOWN => 31 | E_DOWNLOADED => 32 | E_EMPTY => 33
  | E_ENABLED => 34 | E_ENHANCED => 35 | E_ENOUGH => 36 | E_EXCEEDED => 37
  | E_EXCHANGED => 38 | E_EXECUTABLE => 39 | E_EXISTS => 40
  | E_EXPIRED => 41 | E_EXTENDED => 42 | E_FAILED => 43 | E_FALSE => 44
  | E_FATAL => 45 | E_FORBIDDEN => 46 | E_FORMATTED => 47 | E_FOUND => 48
  | E_FULL => 49 | E_GONE => 50 | E_GOOD => 51 | E_HALTED => 52
  | E_HIDDEN => 53 | E_HOLD => 54 | E_IDLE => 55 | E_ILLEGAL => 56
  | E_IMPLEMENTED => 57 | E_IN_PROGRESS => 58 | E_IN_USE => 59
  | E_INITIALIZED => 60 | E_INSERTED => 61 | E_INSTALLED => 62
  | E_INTERRUPTED => 63 | E_JOINED => 64 | E_KNOWN => 65 | E_LINKED => 66
  | E_LOADED => 67 | E_LOCAL => 68 | E_LOCKED => 69 | E_LOOPED => 70
  | E_LOST => 71 | E_MERGED => 72 | E_MISSING => 73 | E_MOUNTED => 74
  | E_NEEDED => 75 | E_NO => 76 | E_NO_SUCH => 77 | E_OFF => 78
  | E_ON => 79 | E_ONLINE => 80 | E_OPEN => 81 | E_ORDERED => 82
  | E_OUT_OF => 83 | E_OUT_OF_RANGE => 84 | E_OVERFLOW => 85
  | E_PADDED => 86 | E_PARTED => 87 | E_PERMITTED => 88 | E_POPPED => 89
  | E_PRELOADED => 90 | E_PROCESSABLE => 91 | E_PROVIDED => 92
  | E_PUSHED => 93 | E_REACHABLE => 94 | E_READABLE => 95
  | E_RECEIVED => 96 | E_REFUSED => 97 | E_REGISTERED => 98
  | E_REJECTED => 99 | E_RELEASED => 100 | E_REMOTE => 101
  | E_REMOVED => 102 | E_RENDERABLE => 103 | E_RESERVED => 104
  | E_RESET => 105 | E_RESPONDING => 106 | E_RETRIED => 107
  | E_RIGHT => 108 | E_RUNNING => 109 | E_SENT => 110 | E_SHARED => 111
  | E_SORTED => 112 | E_SPECIFIED => 113 | E_SPLITTED => 114
  | E_STALLED => 115 | E_STOPPED => 116 | E_SUCEEDED => 117
  | E_SUITABLE => 118 | E_SUPPORTED => 119 | E_SYNCHRONIZED => 120
  | E_TERMINATED => 121 | E_THROWN => 122 | E_TIMED_OUT => 123
  | E_TOO_COMPLEX => 124 | E_TOO_FEW => 125 | E_TOO_LARGE => 126
  | E_TOO_LONG => 127 | E_TOO_MANY => 128 | E_TOO_MUCH => 129
  | E_TOO_SIMPLE => 130 | E_TOO_SMALL => 131 | E_TRIGGERED => 132
  | E_TRUE => 133 | E_UNBLOCKED => 134 | E_UNDERFLOW => 135
  | E_UNINITIALIZED => 136 | E_UNINSTALLED => 137 | E_UNIQUE => 138
  | E_UNLOADED => 139 | E_UNLOCKED => 140 | E_UNSORTED => 141 | E_UP => 142
  | E_UPDATED => 143 | E_UPGRADED => 144 | E_UPLOADED => 145
  | E_USED => 146 | E_VALID => 147 | E_VISIBLE => 148 | E_WORKING => 149
  | E_WRITABLE => 150 | E_WRONG => 151 | E_END_OF => 152
  | E_RESOLVED => 153 | E_MATCH => 154 | E_TRY_AGAIN => 155
  | E_PARSED => 156 | E_CHANGED => 157
  end.

(** The subjects of error.h. *)
Inductive ina_es : Set :=
  | S_NONE | S_ACCESS | S_ARGUMENT | S_COMPRESSION | S_DECOMPRESSION
  | S_DESCRIPTOR | S_DEVICE | S_DIRECTORY | S_FILE | S_FUNCTION | S_HANDLE
  | S_INPUT | S_IO | S_LIMIT | S_MEMORY | S_OBJECT | S_POOL | S_POSITION
  | S_SCRIPT | S_SIZE | S_SOCKET | S_STRING | S_TYPE | S_VERSION | S_STATE
  | S_CONFIGURATION | S_SECTION | S_KEY | S_ENUMERATION | S_READ | S_WRITE
  | S_OPTION | S_BUFFER | S_ADDRESS | S_MAC | S_PROCESS | S_PATTERN
  | S_SEMAPHORE | S_OPERATION | S_TIME | S_HOST | S_TEXT | S_API.

Definition ina_es_number (s : ina_es) : Z :=
  match s with
  | S_NONE => 0 | S_ACCESS => 1 | S_ARGUMENT => 2 | S_COMPRESSION => 3
  | S_DECOMPRESSION => 5 | S_DESCRIPTOR => 4 | S_DEVICE => 6
  | S_DIRECTORY => 7 | S_FILE => 8 | S_FUNCTION => 9 | S_HANDLE => 10
  | S_INPUT => 11 | S_IO => 12 | S_LIMIT => 13 | S_MEMORY => 14
  | S_OBJECT => 15 | S_POOL => 16 | S_POSITION => 17 | S_SCRIPT => 18
  | S_SIZE => 19 | S_SOCKET => 20 | S_STRING => 21 | S_TYPE => 22
  | S_VERSION => 23 | S_STATE => 24 | S_CONFIGURATION => 25
  | S_SECTION => 26 | S_KEY => 27 | S_ENUMERATION => 28 | S_READ => 29
  | S_WRITE => 30 | S_OPTION => 31 | S_BUFFER => 32 | S_ADDRESS => 33
  | S_MAC => 34 | S_PROCESS => 35 | S_PATTERN => 36 | S_SEMAPHORE => 37
  | S_OPERATION => 38 | S_TIME => 39 | S_HOST => 40 | S_TEXT => 41
  | S_API => 42
  end.

Definition all_errs : list ina_err :=
  [E_A; E_ACK; E_ACTIVE; E_ALIGNED; E_ALLOWED; E_ASSIGNED; E_ATTACHED;
   E_ATTEMPTED; E_AUTHORIZED; E_AVAILABLE; E_BAD; E_BLOCKED; E_BROKEN;
   E_BUILT; E_BUSY; E_CLOSED; E_COLLIDED; E_COMPILED; E_COMPLETE;
   E_CONFLICTED; E_CONNECTED; E_CONSTRUCTED; E_CREATED; E_DEFINED;
   E_DENIED; E_DEPARTED; E_DESTRUCTED; E_DETACHED; E_DETECTED; E_DISABLED;
   E_DOWN; E_DOWNLOADED; E_EMPTY; E_ENABLED; E_ENHANCED; E_ENOUGH;
   E_EXCEEDED; E_EXCHANGED; E_EXECUTABLE; E_EXISTS; E_EXPIRED; E_EXTENDED;
   E_FAILED; E_FALSE; E_FATAL; E_FORBIDDEN; E_FORMATTED; E_FOUND; E_FULL;
   E_GONE; E_GOOD; E_HALTED; E_HIDDEN; E_HOLD; E_IDLE; E_ILLEGAL;
   E_IMPLEMENTED; E_IN_PROGRESS; E_IN_USE; E_INITIALIZED; E_INSERTED;
   E_INSTALLED; E_INTERRUPTED; E_JOINED; E_KNOWN; E_LINKED; E_LOADED;
   E_LOCAL; E_LOCKED; E_LOOPED; E_LOST; E_MERGED; E_MISSING; E_MOUNTED;
   E_NEEDED; E_NO; E_NO_SUCH; E_OFF; E_ON; E_ONLINE; E_OPEN; E_ORDERED;
   E_OUT_OF; E_OUT_OF_RANGE; E_OVERFLOW; E_PADDED; E_PARTED; E_PERMITTED;
   E_POPPED; E_PRELOADED; E_PROCESSABLE; E_PROVIDED; E_PUSHED; E_REACHABLE;
   E_READABLE; E_RECEIVED; E_REFUSED; E_REGISTERED; E_REJECTED; E_RELEASED;
   E_REMOTE; E_REMOVED; E_RENDERABLE; E_RESERVED; E_RESET; E_RESPONDING;
   E_RETRIED; E_RIGHT; E_RUNNING; E_SENT; E_SHARED; E_SORTED; E_SPECIFIED;
   E_SPLITTED; E_STALLED; E_STOPPED; E_SUCEEDED; E_SUITABLE; E_SUPPORTED;
   E_SYNCHRONIZED; E_TERMINATED; E_THROWN; E_TIMED_OUT; E_TOO_COMPLEX;
   E_TOO_FEW; E_TOO_LARGE; E_TOO_LONG; E_TOO_MANY; E_TOO_MUCH;
   E_TOO_SIMPLE; E_TOO_SMALL; E_TRIGGERED; E_TRUE; E_UNBLOCKED;
   E_UNDERFLOW; E_UNINITIALIZED; E_UNINSTALLED; E_UNIQUE; E_UNLOADED;
   E_UNLOCKED; E_UNSORTED; E_UP; E_UPDATED; E_UPGRADED; E_UPLOADED; E_USED;
   E_VALID; E_VISIBLE; E_WORKING; E_WRITABLE; E_WRONG; E_END_OF;
   E_RESOLVED; E_MATCH; E_TRY_AGAIN; E_PARSED; E_CHANGED].

Definition all_subjects : list ina_es :=
  [S_NONE; S_ACCESS; S_ARGUMENT; S_COMPRESSION; S_DECOMPRESSION;
   S_DESCRIPTOR; S_DEVICE; S_DIRECTORY; S_FILE; S_FUNCTION; S_HANDLE;
   S_INPUT; S_IO; S_LIMIT; S_MEMORY; S_OBJECT; S_POOL; S_POSITION;
   S_SCRIPT; S_SIZE; S_SOCKET; S_STRING; S_TYPE; S_VERSION; S_STATE;
   S_CONFIGURATION; S_SECTION; S_KEY; S_ENUMERATION; S_READ; S_WRITE;
   S_OPTION; S_BUFFER; S_ADDRESS; S_MAC; S_PROCESS; S_PATTERN; S_SEMAPHORE;
   S_OPERATION; S_TIME; S_HOST; S_TEXT; S_API].

(** The numbers index the enumerations, so they decide equality. *)
Lemma all_errs_lookup e : all_errs !! Z.to_nat (ina_err_number e - 1) = Some e.
Proof. by destruct e. Qed.

Lemma ina_err_number_inj e e' : ina_err_number e = ina_err_number e' -> e = e'.
Proof.
  intros H. apply (inj Some). by rewrite <- !all_errs_lookup, H.
Qed.

#[export] Instance ina_err_eq_dec : EqDecision ina_err.
Proof.
  refine (fun e e' => cast_if (decide (ina_err_number e = ina_err_number e'))).
  - by apply ina_err_number_inj.
  - congruence.
Defined.

Lemma all_subjects_complete s : s ∈ all_subjects.
Proof.
  destruct s; apply list_elem_of_In; simpl; tauto.
Qed.

#[export] Instance ina_es_eq_dec : EqDecision ina_es.
Proof. solve_decision. Defined.

(** The cases of the [switch] of [ina_err_strerror], in order. *)
Definition adj_cases : list (ina_err * string) :=
  [(E_A, "A"); (E_ACK, "ACK"); (E_ACTIVE, "ACTIVE");
   (E_ALIGNED, "ALIGNED"); (E_ALLOWED, "ALLOWED");
   (E_ASSIGNED, "ASSIGNED"); (E_ATTACHED, "ATTACHED");
   (E_ATTEMPTED, "ATTEMPTED"); (E_AUTHORIZED, "AUTHORIZED");
   (E_AVAILABLE, "AVAILABLE"); (E_BAD, "BAD"); (E_BLOCKED, "BLOCKED");
   (E_BROKEN, "BROKEN"); (E_BUILT, "BUILT"); (E_BUSY, "BUSY");
   (E_CLOSED, "CLOSED"); (E_COMPILED, "COMPILED");
   (E_COMPLETE, "COMPLETE"); (E_CONFLICTED, "CONFLICTED");
   (E_CONNECTED, "CONNECTED"); (E_CONSTRUCTED, "CONSTRUCTED");
   (E_CREATED, "CREATED"); (E_DEFINED, "DEFINED"); (E_DENIED, "DENIED");
   (E_DESTRUCTED, "DESTRUCTED"); (E_DETACHED, "DETACHED");
   (E_DETECTED, "DETECTED"); (E_DOWN, "DOWN");
   (E_DOWNLOADED, "DOWNLOADED"); (E_EMPTY, "EMPTY");
   (E_ENHANCED, "ENHANCED"); (E_ENOUGH, "ENOUGH");
   (E_EXCEEDED, "EXCEEDED"); (E_EXCHANGED, "EXCHANGED");
   (E_EXECUTABLE, "EXECUTABLE"); (E_EXISTS, "EXISTS");
   (E_EXPIRED, "EXPIRED"); (E_EXTENDED, "EXTENDED"); (E_FAILED, "FAILED");
   (E_FALSE, "FALSE"); (E_FATAL, "FATAL"); (E_FORBIDDEN, "FORBIDDEN");
   (E_FORMATTED, "FORMATTED"); (E_FOUND, "FOUND"); (E_FULL, "FULL");
   (E_GONE, "GONE"); (E_GOOD, "GOOD"); (E_HALTED, "HALTED");
   (E_HOLD, "HOLD"); (E_IDLE, "IDLE"); (E_ILLEGAL, "ILLEGAL");
   (E_IMPLEMENTED, "IMPLEMENTED"); (E_IN_PROGRESS, "IN PROGRESS");
   (E_IN_USE, "IN USE"); (E_INITIALIZED, "INITIALIZED");
   (E_INSTALLED, "INSTALLED"); (E_INTERRUPTED, "INTERRUPTED");
   (E_KNOWN, "KNOWN"); (E_LINKED, "LINKED"); (E_LOADED, "LOADED");
   (E_LOCAL, "LOCAL"); (E_LOCKED, "LOCKED"); (E_LOOPED, "LOOPED");
   (E_LOST, "LOST"); (E_MISSING, "MISSING"); (E_MOUNTED, "MOUNTED");
   (E_NEEDED, "NEEDED"); (E_NO, "NO"); (E_NO_SUCH, "NO SUCH");
   (E_OFF, "OFF"); (E_ON, "ON"); (E_ONLINE, "ONLINE"); (E_OPEN, "OPEN");
   (E_ORDERED, "ORDERED"); (E_OUT_OF, "OUT OF");
   (E_OUT_OF_RANGE, "OUT OF RANGE"); (E_OVERFLOW, "OVERFLOW");
   (E_PADDED, "PADDED"); (E_PERMITTED, "PERMITTED");
   (E_PROCESSABLE, "PROCESSABLE"); (E_PROVIDED, "PROVIDED");
   (E_REACHABLE, "REACHABLE"); (E_READABLE, "READABLE");
   (E_RECEIVED, "RECEIVED"); (E_REFUSED, "REFUSED");
   (E_REGISTERED, "REGISTERED"); (E_REJECTED, "REJECTED");
   (E_RELEASED, "RELEASED"); (E_REMOTE, "REMOTE");
   (E_RENDERABLE, "RENDERABLE"); (E_RESERVED, "RESERVED");
   (E_RESET, "RESET"); (E_RESPONDING, "RESPONDING");
   (E_RETRIED, "RETRIED"); (E_RIGHT, "RIGHT"); (E_RUNNING, "RUNNING");
   (E_SENT, "SENT"); (E_SPECIFIED, "SPECIFIED"); (E_STALLED, "STALLED");
   (E_STOPPED, "STOPPED"); (E_SUCEEDED, "SUCCEEDED");
   (E_SUITABLE, "SUITABLE"); (E_SUPPORTED, "SUPPORTED");
   (E_SYNCHRONIZED, "SYNCHRONIZED"); (E_TERMINATED, "TERMINATED");
   (E_THROWN, "THROWN"); (E_TIMED_OUT, "TIMED OUT");
   (E_TOO_COMPLEX, "TOO COMPLEX"); (E_TOO_FEW, "TOO FEW");
   (E_TOO_LARGE, "TOO LARGE"); (E_TOO_LONG, "TOO LONG");
   (E_TOO_MANY, "TOO MANY"); (E_TOO_MUCH, "TOO MUCH");
   (E_TOO_SIMPLE, "TOO SIMPLE"); (E_TOO_SMALL, "TOO SMALL");
   (E_TRIGGERED, "TRIGGERED"); (E_TRUE, "TRUE"); (E_UNIQUE, "UNIQUE");
   (E_UP, "UP"); (E_UPDATED, "UPDATED"); (E_UPGRADED, "UPGRADED");
   (E_UPLOADED, "UPLOADED"); (E_USED, "USED"); (E_VALID, "VALID");
   (E_WORKING, "WORKING"); (E_WRITABLE, "WRITABLE"); (E_WRONG, "WRONG");
   (E_END_OF, "END OF"); (E_RESOLVED, "RESOLVED"); (E_MATCH, "MATCH");
   (E_TRY_AGAIN, "TRY AGAIN"); (E_PARSED, "PARSED"); (E_CHANGED, "CHANGED")]%string.

(** The cases of the [switch] of [__ina_get_subject], in order. *)
Definition subject_cases : list (ina_es * string) :=
  [(S_NONE, EmptyString); (S_ACCESS, "ACCESS"); (S_ARGUMENT, "ARGUMENT");
   (S_COMPRESSION, "COMPRESSION"); (S_DECOMPRESSION, "DECOMPRESSION");
   (S_DESCRIPTOR, "DESCRIPTOR"); (S_DEVICE, "DEVICE");
   (S_DIRECTORY, "DIRECTORY"); (S_FILE, "FILE"); (S_FUNCTION, "FUNCTION");
   (S_HANDLE, "HANDLE"); (S_INPUT, "INPUT"); (S_IO, "IO");
   (S_LIMIT, "LIMIT"); (S_MEMORY, "MEMORY"); (S_OBJECT, "OBJECT");
   (S_POSITION, "POSITION"); (S_POOL, "POOL"); (S_SCRIPT, "SCRIPT");
   (S_SIZE, "SIZE"); (S_STRING, "STRING"); (S_TYPE, "TYPE");
   (S_VERSION, "VERSION"); (S_STATE, "STATE");
   (S_CONFIGURATION, "CONFIGURATION"); (S_SECTION, "SECTION");
   (S_KEY, "KEY"); (S_ENUMERATION, "ENUMERATION"); (S_READ, "READ");
   (S_WRITE, "WRITE"); (S_OPTION, "OPTION"); (S_BUFFER, "BUFFER");
   (S_ADDRESS, "ADDRESS"); (S_MAC, "MAC"); (S_PROCESS, "PROCESS");
   (S_PATTERN, "PATTERN"); (S_SEMAPHORE, "SEMAPHORE");
   (S_OPERATION, "OPERATION"); (S_TIME, "TIME"); (S_HOST, "HOST");
   (S_TEXT, "TEXT"); (S_API, "API")]%string.
(** ** Bit layout *)
Definition INA_SUCCESS : Z := 0.

Definition INA_RC_BIT_E : Z := 63.
Definition INA_RC_BIT_V : Z := 56.
Definition INA_RC_BIT_R : Z := 48.
Definition INA_RC_BIT_O : Z := 32.
Definition INA_RC_BIT_U : Z := 24.
Definition INA_RC_BIT_C : Z := 16.
Definition INA_RC_BIT_N : Z := 15.
Definition INA_RC_BIT_S : Z := 0.

(** [INA_MID_BITS(number,k,p)] of lib.h. *)
Definition INA_MID_BITS (number k p : Z) : Z :=
  Z.land (Z.shiftl 1 k - 1) (Z.shiftr number (p - 1)).

Definition INA_RC_EFLAG (rc : Z) : Z := u32 (Z.land (Z.shiftr rc INA_RC_BIT_E) 0x1).
Definition INA_RC_VER (rc : Z) : Z := u32 (Z.land (Z.shiftr rc INA_RC_BIT_V) 0x7).
Definition INA_RC_REV (rc : Z) : Z := u32 (Z.land (Z.shiftr rc INA_RC_BIT_R) 0xFF).
Definition INA_RC_ERRNO (rc : Z) : Z := u32 (Z.land (Z.shiftr rc INA_RC_BIT_O) 0xFFFF).
Definition INA_RC_UBITS (rc : Z) : Z := u32 (Z.land (Z.shiftr rc INA_RC_BIT_U) 0xFF).
Definition INA_RC_NFLAG (rc : Z) : Z := u32 (Z.land (Z.shiftr rc INA_RC_BIT_N) 0x1).
Definition INA_RC_CODE (rc : Z) : Z := u32 (Z.land rc (Z.shiftl 0xFF INA_RC_BIT_C)).
Definition INA_RC_ADJ (rc : Z) : Z := u32 (Z.land (Z.shiftr rc INA_RC_BIT_C) 0xFF).
Definition INA_RC_SUBJECT (rc : Z) : Z := u32 (Z.land (Z.shiftr rc INA_RC_BIT_S) 0x7FFF).
Definition INA_RC_ERROR (rc : Z) : Z :=
  u32 (Z.shiftl (INA_MID_BITS rc (INA_RC_BIT_U - INA_RC_BIT_N) INA_RC_BIT_N) (INA_RC_BIT_N - 1)).
Definition INA_RC_ERRMSG (rc : Z) : Z := u32 (Z.land rc 0xFFFFFF).

Definition INA_ERR_ERROR : Z := Z.shiftl 1 INA_RC_BIT_E.
Definition INA_ERR_NOT : Z := Z.shiftl 1 INA_RC_BIT_N.

(** [INA_ERR_<e>], [INA_ERR_NOT_<e>] and [INA_ES_<s>] of the header. *)
Definition INA_ERR (e : ina_err) : Z := Z.shiftl (ina_err_number e) INA_RC_BIT_C.
Definition INA_ERR_NOT_ (e : ina_err) : Z := Z.lor INA_ERR_NOT (INA_ERR e).
Definition INA_ES (s : ina_es) : Z := ina_es_number s.

(** The aliases and the composed messages the library uses. *)
Definition INA_ERR_INVALID : Z := INA_ERR_NOT_ E_VALID.
Definition INA_ERR_NOT_MATCH : Z := INA_ERR_NOT_ E_MATCH.
Definition INA_ERR_INVALID_ARGUMENT : Z := Z.lor INA_ERR_INVALID (INA_ES S_ARGUMENT).
Definition INA_ERR_OUT_OF_MEMORY : Z := Z.lor (INA_ERR E_OUT_OF) (INA_ES S_MEMORY).
Definition INA_ERR_INVALID_PATTERN : Z := Z.lor INA_ERR_INVALID (INA_ES S_PATTERN).
Definition INA_ERR_POOL_FULL : Z := Z.lor (INA_ERR E_FULL) (INA_ES S_POOL).
Definition INA_ERR_OPERATION_INVALID : Z := Z.lor (INA_ES S_OPERATION) INA_ERR_INVALID.
Definition INA_ERR_OPERATION_FAILED : Z := Z.lor (INA_ES S_OPERATION) (INA_ERR E_FAILED).

(** ** Packing

    The version numbers are substituted by the build; they are arguments. *)
Definition INA_VERSION_HEX (major minor patch : Z) : Z :=
  Z.lor (Z.lor (shl 64 major 16) (shl 64 minor 8)) (shl 64 patch 0).

(** [INA_RC_PACK(x, e)] as the library itself is compiled ([INA_LIB]). *)
Definition INA_RC_PACK (version_hex x e : Z) : Z :=
  Z.lor (Z.lor (Z.lor INA_ERR_ERROR (shl 64 (u64 version_hex) INA_RC_BIT_R))
               (shl 64 (u64 e) INA_RC_BIT_O)) x.

Definition INA_FAILED (rc : Z) : bool := negb (Z.land rc INA_ERR_ERROR =? 0).
Definition INA_SUCCEED (rc : Z) : bool := negb (INA_FAILED rc).

(** ** The global return code

    [__rc] is thread local state; the operations take it and give its new
    value, which is also what they return. *)
Definition ina_err_set_rc (rc : Z) (__rc : Z) : Z := rc.
Definition ina_err_get_rc (__rc : Z) : Z := __rc.
Definition ina_err_clear_rc (rc : Z) : Z := Z.land rc (u64 (Z.lnot INA_ERR_ERROR)).
Definition ina_err_reset (__rc : Z) : Z := ina_err_clear_rc __rc.
Definition ina_err_set_ubits (ubits __rc : Z) : Z :=
  Z.lor (Z.land __rc (u64 (Z.lnot (Z.shiftl (Z.shiftl 1 8 - 1) INA_RC_BIT_U))))
        (Z.shiftl ubits INA_RC_BIT_U).
Definition ina_err_get_ubits (rc : Z) : Z := u8 (INA_RC_UBITS rc).
Definition INA_ERROR (version_hex x __rc : Z) : Z :=
  ina_err_set_rc (INA_RC_PACK version_hex x 0) __rc.
Definition INA_OS_ERROR (version_hex x errno __rc : Z) : Z :=
  ina_err_set_rc (INA_RC_PACK version_hex x errno) __rc.

(** ** Messages *)

(** [__ina_get_subject]: the registered dictionary is asked only for ids the
    [switch] does not know. *)
Definition ina_get_subject (dict_cb : option (Z -> string)) (id : Z) : string :=
  match find (fun c => ina_es_number (fst c) =? id) subject_cases with
  | Some (_, s) => s
  | None => match dict_cb with Some cb => cb id | None => "??"%string end
  end.

(** The [switch] on the code, with its empty default. *)
Definition ina_get_adj (rc : Z) : string :=
  match find (fun c => INA_ERR (fst c) =? Z.land rc (Z.shiftl 0xFF INA_RC_BIT_C)) adj_cases with
  | Some (_, s) => s
  | None => EmptyString
  end.

(** The three words of a message in the order they are printed. *)
Definition strerror_words (dict_cb : option (Z -> string)) (rc : Z) : string * string * string :=
  let noun := ina_get_subject dict_cb (INA_RC_SUBJECT rc) in
  let neg := if Z.land rc (Z.shiftl 1 INA_RC_BIT_N) =? 0 then EmptyString else "NOT"%string in
  let adj := ina_get_adj rc in
  let type := Z.land rc (Z.shiftl 0x1FF INA_RC_BIT_C) in
  if (type =? INA_ERR E_A) || (type =? INA_ERR_NOT_ E_A) || (type =? INA_ERR E_NO)
     || (type =? INA_ERR E_NO_SUCH) || (type =? INA_ERR E_ENOUGH) || (type =? INA_ERR_NOT_ E_ENOUGH)
  then (neg, adj, noun) else (noun, neg, adj).

Fixpoint hex_digits (fuel : nat) (n : Z) (acc : string) : string :=
  match fuel with
  | O => acc
  | S k =>
      let d := String.substring (Z.to_nat (n mod 16)) 1 "0123456789abcdef" in
      let acc := (d ++ acc)%string in
      if n / 16 =? 0 then acc else hex_digits k (n / 16) acc
  end.

(** [%x]: 16 digits are enough for 64 bits. *)
Definition fmt_x (n : Z) : string := hex_digits 16 n EmptyString.
Definition fmt_u (n : Z) : string := pretty (Z.to_N n).

Definition space_after (w : string) : string :=
  match w with EmptyString => EmptyString | _ => " "%string end.

Definition ina_err_strerror (dict_cb : option (Z -> string)) (rc : Z) : string :=
  if INA_SUCCEED rc then EmptyString else
  let '(w0, w1, w2) := strerror_words dict_cb rc in
  (w0 ++ space_after w0 ++ w1 ++ space_after w1 ++ w2
   ++ " - 0x" ++ fmt_x rc
   ++ " - error=" ++ fmt_u (INA_RC_EFLAG rc) ++ ",ver=" ++ fmt_u (INA_RC_VER rc)
   ++ ",rev=" ++ fmt_u (INA_RC_REV rc) ++ ",os=" ++ fmt_u (INA_RC_ERRNO rc)
   ++ ",neg=" ++ fmt_u (INA_RC_NFLAG rc) ++ ",adj=" ++ fmt_u (INA_RC_ADJ rc)
   ++ ",subject=" ++ fmt_u (INA_RC_SUBJECT rc) ++ ",code=" ++ fmt_u (INA_RC_CODE rc)
   ++ ",ubits=0x" ++ fmt_x (INA_RC_UBITS rc))%string.

(** 1.0.29, NOT FOUND *)
Example strerror_not_found :
  ina_err_strerror None (INA_ERROR (INA_VERSION_HEX 1 0 29) (INA_ERR_NOT_ E_FOUND) 0)
  = "NOT FOUND - 0x801d000000308000 - error=1,ver=0,rev=29,os=0,neg=1,adj=48,subject=0,code=3145728,ubits=0x0"%string.
Proof. vm_compute. reflexivity. Qed.

(** ** Fields *)

(** The [m] bits of [x] from bit [k] on. *)
Definition field (k m x : Z) : Z := Z.land (Z.shiftr x k) (Z.ones m).

Lemma field_testbit k m x i :
  0 <= k -> 0 <= m -> 0 <= i -> Z.testbit (field k m x) i = (i <? m) && Z.testbit x (i + k).
Proof. intros. unfold field. autorewrite with bits. apply andb_comm. Qed.
#[local] Hint Rewrite field_testbit using lia : bits.

Lemma field_in_width k m x : 0 <= k -> 0 <= m -> in_width m (field k m x).
Proof.
  intros. apply in_width_testbit; [done|]. intros i Hi.
  rewrite field_testbit by lia. by destruct (Z.ltb_spec i m); [lia|].
Qed.

Lemma u32_field k m x : 0 <= k -> 0 <= m <= 32 -> u32 (field k m x) = field k m x.
Proof.
  intros. apply wrap_small, (in_width_mono m); [lia|]. apply field_in_width; lia.
Qed.

(** The accessors are fields. *)
Lemma accessors_fields rc :
  INA_RC_EFLAG rc = field 63 1 rc /\ INA_RC_VER rc = field 56 3 rc /\
  INA_RC_REV rc = field 48 8 rc /\ INA_RC_ERRNO rc = field 32 16 rc /\
  INA_RC_UBITS rc = field 24 8 rc /\ INA_RC_NFLAG rc = field 15 1 rc /\
  INA_RC_ADJ rc = field 16 8 rc /\ INA_RC_SUBJECT rc = field 0 15 rc /\
  INA_RC_ERRMSG rc = field 0 24 rc.
Proof.
  repeat split.
  all: match goal with |- _ = field ?k ?m ?x => exact (u32_field k m x ltac:(lia) ltac:(lia)) end.
Qed.

Lemma field_lor k m x y : field k m (Z.lor x y) = Z.lor (field k m x) (field k m y).
Proof. unfold field. by rewrite Z.shiftr_lor, Z.land_lor_distr_l. Qed.

(** A field that does not meet the bits of a shifted value is zero, one that
    lies inside it is a field of the value. *)
Lemma field_shl_out k m x n :
  0 <= k -> 0 <= m -> k + m <= n -> field k m (shl 64 x n) = 0.
Proof.
  intros. bitwise. apply Z.testbit_neg_r. lia.
Qed.

Lemma field_shl_in k m x n :
  0 <= n <= k -> 0 <= m -> k + m <= 64 -> field k m (shl 64 x n) = field (k - n) m x.
Proof. intros. bitwise. f_equal; lia. Qed.

Lemma field_shl_narrow k m x n w :
  0 <= n -> 0 <= m -> 0 <= w -> in_width w x -> n + w <= k -> field k m (shl 64 x n) = 0.
Proof.
  intros. bitwise. apply (in_width_high_bits w); [done|lia].
Qed.

Lemma field_narrow k m x w :
  0 <= k -> 0 <= m -> 0 <= w -> in_width w x -> w <= k -> field k m x = 0.
Proof. intros. bitwise. apply (in_width_high_bits w); [done|lia]. Qed.

Lemma field_all m x : 0 <= m -> in_width m x -> field 0 m x = x.
Proof.
  intros. bitwise. by rewrite Z.add_0_r.
  symmetry. apply (in_width_high_bits m); [done|lia].
Qed.

Lemma field_mod m x : 0 <= m -> field 0 m x = x mod 2 ^ m.
Proof. intros. unfold field. by rewrite Z.shiftr_0_r, Z.land_ones. Qed.

Lemma INA_ERR_ERROR_shl : INA_ERR_ERROR = shl 64 1 63.
Proof. reflexivity. Qed.

Lemma field_u64 k m x : 0 <= k -> 0 <= m -> k + m <= 64 -> field k m (u64 x) = field k m x.
Proof. intros. bitwise. Qed.

(** A message: a code, possibly negated, and a subject. *)
Definition message (neg : bool) (e : ina_err) (s : ina_es) : Z :=
  Z.lor (Z.lor (if neg then INA_ERR_NOT else 0) (INA_ERR e)) (INA_ES s).

Lemma all_errs_complete e : e ∈ all_errs.
Proof. eapply list_elem_of_lookup_2, all_errs_lookup. Qed.

(** Check a property of every message by computation. *)
Definition for_all_messages (P : bool -> ina_err -> ina_es -> bool) : bool :=
  forallb (fun e => forallb (fun s => P true e s && P false e s) all_subjects) all_errs.

Lemma for_all_messages_spec P neg e s : for_all_messages P = true -> P neg e s = true.
Proof.
  unfold for_all_messages. rewrite forallb_forall. intros H.
  specialize (H e (proj1 (list_elem_of_In _ _) (all_errs_complete e))).
  rewrite forallb_forall in H.
  specialize (H s (proj1 (list_elem_of_In _ _) (all_subjects_complete s))).
  apply andb_true_iff in H as [??]. by destruct neg.
Qed.

Ltac by_messages neg e s :=
  match goal with
  | |- ?a = ?b => apply Z.eqb_eq;
      let P := eval pattern neg, e, s in (a =? b) in
      match P with ?f _ _ _ => apply (for_all_messages_spec f); vm_compute; reflexivity end
  end.

Lemma message_subject neg e s : INA_RC_SUBJECT (message neg e s) = ina_es_number s.
Proof. by_messages neg e s. Qed.

Lemma message_neg neg e s :
  Z.land (message neg e s) (Z.shiftl 1 INA_RC_BIT_N) = if neg then INA_ERR_NOT else 0.
Proof. by_messages neg e s. Qed.

Lemma message_code neg e s :
  Z.land (message neg e s) (Z.shiftl 0xFF INA_RC_BIT_C) = INA_ERR e.
Proof. by_messages neg e s. Qed.

Lemma message_type neg e s :
  Z.land (message neg e s) (Z.shiftl 0x1FF INA_RC_BIT_C) = INA_ERR e.
Proof. by_messages neg e s. Qed.

Lemma message_in_width neg e s : in_width 24 (message neg e s).
Proof.
  pose proof (for_all_messages_spec
    (fun neg e s => bool_decide (in_width 24 (message neg e s))) neg e s) as H.
  apply (bool_decide_eq_true_1 _), H. vm_compute. reflexivity.
Qed.

(** The low 32 bits of a packed code are the message. *)
Lemma pack_land hexv x e m :
  in_width 32 m -> Z.land (INA_RC_PACK hexv x e) m = Z.land x m.
Proof.
  intros Hm. unfold INA_RC_PACK, INA_RC_BIT_R, INA_RC_BIT_O.
  apply Z_bits_ext. intros i Hi. rewrite INA_ERR_ERROR_shl. autorewrite with bits.
  destruct (decide (i < 32)).
  - rewrite !(Z.testbit_neg_r _ (i - _)) by lia. by rewrite !andb_false_r.
  - rewrite (in_width_high_bits 32 m) by (done || lia). by rewrite !andb_false_r.
Qed.

Lemma pack_field hexv x e k m :
  0 <= k -> 0 <= m -> k + m <= 32 -> field k m (INA_RC_PACK hexv x e) = field k m x.
Proof.
  intros. apply Z_bits_ext. intros i Hi. rewrite !field_testbit by lia.
  destruct (Z.ltb_spec i m); [|done]. simpl.
  pose proof (pack_land hexv x e (2 ^ (i + k))) as Hl.
  assert (in_width 32 (2 ^ (i + k))) as Hw.
  { split; [lia|]. apply Z.pow_lt_mono_r; lia. }
  apply Hl, (f_equal (fun z => Z.testbit z (i + k))) in Hw.
  autorewrite with bits in Hw. by rewrite Z.eqb_refl, !andb_true_r in Hw.
Qed.

(** The words of a packed message only depend on the message. *)
Lemma strerror_words_low d hexv x e :
  strerror_words d (INA_RC_PACK hexv x e) = strerror_words d x.
Proof.
  unfold strerror_words, ina_get_adj.
  destruct (accessors_fields x) as (_&_&_&_&_&_&_&Hs&_).
  destruct (accessors_fields (INA_RC_PACK hexv x e)) as (_&_&_&_&_&_&_&Hs'&_).
  rewrite Hs, Hs', pack_field by lia.
  rewrite !pack_land by (by apply (bool_decide_eq_true_1 _)). done.
Qed.

Definition special (e : ina_err) : bool :=
  bool_decide (e = E_A \/ e = E_NO \/ e = E_NO_SUCH \/ e = E_ENOUGH).

Lemma find_adj e t :
  (e, t) ∈ adj_cases -> find (fun c => INA_ERR (fst c) =? INA_ERR e) adj_cases = Some (e, t).
Proof.
  assert (Forall (fun c =>
    find (fun c' => INA_ERR (fst c') =? INA_ERR (fst c)) adj_cases = Some c) adj_cases) as HF.
  { apply (bool_decide_eq_true_1 _). vm_compute. reflexivity. }
  rewrite Forall_forall in HF. intros H. exact (HF _ H).
Qed.

Lemma find_subject s n :
  (s, n) ∈ subject_cases ->
  find (fun c => ina_es_number (fst c) =? ina_es_number s) subject_cases = Some (s, n).
Proof.
  assert (Forall (fun c =>
    find (fun c' => ina_es_number (fst c') =? ina_es_number (fst c)) subject_cases = Some c)
    subject_cases) as HF.
  { apply (bool_decide_eq_true_1 _). vm_compute. reflexivity. }
  rewrite Forall_forall in HF. intros H. exact (HF _ H).
Qed.

Lemma special_codes e :
  (INA_ERR e =? INA_ERR E_A) || (INA_ERR e =? INA_ERR_NOT_ E_A) || (INA_ERR e =? INA_ERR E_NO)
  || (INA_ERR e =? INA_ERR E_NO_SUCH) || (INA_ERR e =? INA_ERR E_ENOUGH)
  || (INA_ERR e =? INA_ERR_NOT_ E_ENOUGH) = special e.
Proof. destruct e; reflexivity. Qed.

Lemma pack_reject hexv x e k m :
  in_width 32 x -> 32 <= k -> 0 <= m -> k + m <= 64 -> k + m <= 63 ->
  field k m (INA_RC_PACK hexv x e)
  = Z.lor (field k m (shl 64 (u64 hexv) 48)) (field k m (shl 64 (u64 e) 32)).
Proof.
  intros. unfold INA_RC_PACK, INA_RC_BIT_R, INA_RC_BIT_O.
  rewrite INA_ERR_ERROR_shl, !field_lor.
  rewrite (field_shl_out k m 1) by lia.
  rewrite (field_narrow k m x 32) by (done || lia).
  by rewrite Z.lor_0_r, Z.lor_0_l.
Qed.

Lemma INA_FAILED_testbit rc : INA_FAILED rc = Z.testbit rc 63.
Proof.
  unfold INA_FAILED, INA_ERR_ERROR, INA_RC_BIT_E.
  by rewrite Z.shiftl_1_l, land_pow2_eqb, negb_involutive.
Qed.

Lemma clear_rc_mod rc : in_width 64 rc -> ina_err_clear_rc rc = rc mod 2 ^ 63.
Proof.
  intros Hrc. unfold ina_err_clear_rc. rewrite <- Z.land_ones by lia.
  assert (u64 (Z.lnot INA_ERR_ERROR) = Z.ones 63) as -> by reflexivity. done.
Qed.

(** ** Properties *)

(** Packing a message [x] with a native error number [e] gives a failed
    return code from which every accessor macro recovers what was packed: the
    error number, the revision and version bytes of the library (the version
    modulo 8, the width of the accessor's mask), and the user bits, negation
    flag, code, subject and message of [x]. *)
Theorem rc_pack_fields hexv x e
  (Hx : in_width 32 x) (He : in_width 16 e) (Hv : in_width 64 hexv) :
  let rc := INA_RC_PACK hexv x e in
  INA_FAILED rc = true /\ INA_RC_EFLAG rc = 1 /\
  INA_RC_ERRNO rc = e /\ INA_RC_REV rc = hexv mod 256 /\ INA_RC_VER rc = hexv / 256 mod 8 /\
  INA_RC_UBITS rc = INA_RC_UBITS x /\ INA_RC_NFLAG rc = INA_RC_NFLAG x /\
  INA_RC_ADJ rc = INA_RC_ADJ x /\ INA_RC_SUBJECT rc = INA_RC_SUBJECT x /\
  INA_RC_ERRMSG rc = x mod 2 ^ 24.
Proof.
  intros rc.
  destruct (accessors_fields rc) as (->&->&->&->&->&->&->&->&->).
  destruct (accessors_fields x) as (_&_&_&_&->&->&->&->&_).
  unfold rc.
  assert (Z.testbit (INA_RC_PACK hexv x e) 63 = true) as Hb.
  { unfold INA_RC_PACK, INA_RC_BIT_O, INA_RC_BIT_R. by autorewrite with bits. }
  split_and!; try (by apply pack_field).
  - by rewrite INA_FAILED_testbit.
  - unfold field. rewrite Z.land_ones, Z.shiftr_div_pow2 by lia.
    change (2 ^ 1) with 2. by rewrite <- Z.testbit_spec', Hb by lia.
  - rewrite pack_reject by (done || lia).
    rewrite (field_shl_out 32 16 _ 48), (field_shl_in 32 16 _ 32) by lia.
    rewrite field_u64 by lia. by rewrite Z.lor_0_l, field_all.
  - rewrite pack_reject by (done || lia).
    rewrite (field_shl_in 48 8 _ 48), (field_shl_narrow 48 8 _ 32 16), field_u64; try lia.
    + rewrite Z.lor_0_r. by apply field_mod.
    + rewrite wrap_small; [done|]. by apply (in_width_mono 16); [lia|].
  - rewrite pack_reject by (done || lia).
    rewrite (field_shl_in 56 3 _ 48), (field_shl_narrow 56 3 _ 32 16), field_u64; try lia.
    + rewrite Z.lor_0_r. unfold field. rewrite Z.land_ones, Z.shiftr_div_pow2 by lia. done.
    + rewrite wrap_small; [done|]. by apply (in_width_mono 16); [lia|].
  - rewrite pack_field by lia. by apply field_mod.
Qed.

Lemma rc_pack_fields_witness :
  INA_RC_REV (INA_RC_PACK (INA_VERSION_HEX 1 0 29) (INA_ERR_NOT_ E_FOUND) 2) = 29.
Proof.
  apply (rc_pack_fields (INA_VERSION_HEX 1 0 29) (INA_ERR_NOT_ E_FOUND) 2);
    vm_compute; split; congruence.
Defined.

(** The message of a packed error reads back as the words of its parts:
    for every code and subject that [ina_err_strerror] knows, whatever the
    version, the native error number and the dictionary, the noun, the
    negation and the adjective printed are those packed, the negation and
    adjective first for the four codes that read better that way. *)
Theorem strerror_words_pack d hexv errno (neg : bool) e t s n
  (He : (e, t) ∈ adj_cases) (Hs : (s, n) ∈ subject_cases) :
  let neg_word : string := if neg then "NOT"%string else EmptyString in
  strerror_words d (INA_RC_PACK hexv (message neg e s) errno)
  = if special e then (neg_word, t, n) else (n, neg_word, t).
Proof.
  intros neg_word. rewrite strerror_words_low. unfold strerror_words, ina_get_adj, ina_get_subject.
  rewrite message_subject, message_code, message_type, message_neg, special_codes.
  rewrite (find_adj e t He), (find_subject s n Hs).
  by destruct neg, (special e).
Qed.

Lemma strerror_words_pack_witness :
  strerror_words None (INA_RC_PACK 0 (message true E_VALID S_ARGUMENT) 0)
  = ("ARGUMENT"%string, "NOT"%string, "VALID"%string).
Proof.
  apply (strerror_words_pack None 0 0 true E_VALID "VALID"%string S_ARGUMENT "ARGUMENT"%string);
    apply (bool_decide_eq_true_1 _); vm_compute; reflexivity.
Defined.

(** [INA_RC_ERROR] recovers the code and its negation exactly for the codes
    below 128: the macro selects bits 14 to 22, so the top bit of the code is
    dropped ([INA_ERR_TRY_AGAIN], [INA_ERR_INVALID] and every code from
    [INA_ERR_TOO_MANY] on). *)
Theorem rc_error_loses_top_bit hexv errno (neg : bool) e s :
  INA_RC_ERROR (INA_RC_PACK hexv (message neg e s) errno)
  = Z.lor (if neg then INA_ERR_NOT else 0) (INA_ERR e)
  <-> ina_err_number e < 128.
Proof.
  assert (INA_RC_ERROR (INA_RC_PACK hexv (message neg e s) errno) = INA_RC_ERROR (message neg e s))
    as ->.
  { unfold INA_RC_ERROR, INA_MID_BITS, INA_RC_BIT_U, INA_RC_BIT_N.
    change (Z.shiftl 1 (24 - 15) - 1) with (Z.ones 9). rewrite !(Z.land_comm (Z.ones 9)).
    pose proof (pack_field hexv (message neg e s) errno 14 9) as Hf. unfold field in Hf.
    change (15 - 1) with 14. by rewrite Hf by lia. }
  assert ((INA_RC_ERROR (message neg e s) =? Z.lor (if neg then INA_ERR_NOT else 0) (INA_ERR e))
          = (ina_err_number e <? 128)) as Hb.
  { pose proof (for_all_messages_spec (fun neg e s => Bool.eqb
      (INA_RC_ERROR (message neg e s) =? Z.lor (if neg then INA_ERR_NOT else 0) (INA_ERR e))
      (ina_err_number e <? 128)) neg e s) as H.
    apply eqb_prop, H. vm_compute. reflexivity. }
  rewrite <- Z.eqb_eq, Hb. apply Z.ltb_lt.
Qed.

(** Marking a return code as handled makes it successful and keeps all its
    other bits; doing it twice changes nothing.  In particular resetting the
    global code after an error does not make it [INA_SUCCESS]. *)
Theorem clear_rc_keeps_fields rc (Hrc : in_width 64 rc) :
  INA_SUCCEED (ina_err_clear_rc rc) = true /\
  ina_err_clear_rc rc = rc mod 2 ^ 63 /\
  ina_err_clear_rc (ina_err_clear_rc rc) = ina_err_clear_rc rc /\
  (ina_err_reset rc = INA_SUCCESS <-> rc = 0 \/ rc = INA_ERR_ERROR).
Proof.
  pose proof (clear_rc_mod rc Hrc) as Hc.
  assert (in_width 63 (rc mod 2 ^ 63)) as Hw by (by apply wrap_in_width).
  unfold INA_SUCCEED, ina_err_reset. rewrite INA_FAILED_testbit, !Hc. split_and!.
  - by rewrite (in_width_high_bits 63).
  - done.
  - rewrite clear_rc_mod; [apply Zmod_mod|]. by apply (in_width_mono 63).
  - unfold INA_SUCCESS, INA_ERR_ERROR, INA_RC_BIT_E, in_width in *. clear Hc Hw.
    change (Z.shiftl 1 63) with 9223372036854775808.
    change (2 ^ 63) with 9223372036854775808.
    change (2 ^ 64) with 18446744073709551616 in *. dlia.
Qed.

Lemma clear_rc_keeps_fields_witness :
  INA_SUCCEED (ina_err_clear_rc (INA_RC_PACK 0 (INA_ERR E_FULL) 0)) = true.
Proof.
  apply (clear_rc_keeps_fields (INA_RC_PACK 0 (INA_ERR E_FULL) 0)).
  vm_compute; split; congruence.
Defined.
End Error.
