(* ===== verification/Libc.v ===== *)
(** * Functions of the C library

    The functions of the C standard library that the modelled code relies on,
    as far as it uses them: C strings are lists of character codes, read as 0
    behind their end. *)
From Stdlib Require Import ZArith Lia Bool.
From stdpp Require Import base numbers option list.
From S2P Require Import Prelude.

Module Libc.

Abbreviation text := (list Z).

(** ** strtol and strncmp *)

Definition is_space (c : Z) : bool := (c =? 32) || (9 <=? c) && (c <=? 13).
Definition is_digit (c : Z) : bool := (48 <=? c) && (c <=? 57).
Definition chr (p : text) : Z := hd 0 p.

Fixpoint skip_space (p : text) : text :=
  match p with c :: p' => if is_space c then skip_space p' else p | [] => [] end.

(** The value of the digits at the start of a text, and the rest. *)
Fixpoint digits (acc : Z) (p : text) : Z * text :=
  match p with
  | c :: p' => if is_digit c then digits (acc * 10 + (c - 48)) p' else (acc, p)
  | [] => (acc, [])
  end.

Definition clamp_long (x : Z) : Z := Z.max (- 2 ^ 63) (Z.min x (2 ^ 63 - 1)).

(** [strtol(p, &end, 10)]: the value and [end], which is [p] without digits. *)
Definition strtol (p : text) : Z * text :=
  let q := skip_space p in
  let '(neg, q) := if chr q =? 45 then (true, tail q) else if chr q =? 43 then (false, tail q) else (false, q) in
  if is_digit (chr q) then
    let '(x, r) := digits 0 q in (clamp_long (if neg : bool then - x else x), r)
  else (0, p).

(** [strncmp(p, name, strlen(name)) == 0] *)
Fixpoint has_prefix (p name : text) {struct name} : bool :=
  match name with
  | [] => true
  | n :: name => match p with c :: p => (c =? n) && has_prefix p name | [] => false end
  end.

(** ** Machine integers: [int] *)
Definition int_op (x : Z) : option Z := if (- 2 ^ 31 <=? x) && (x <? 2 ^ 31) then Some x else None.
Definition to_int (x : Z) : Z := (x + 2 ^ 31) mod 2 ^ 32 - 2 ^ 31.

(** [atoi] *)
Definition atoi (p : text) : Z := to_int (fst (strtol p)).

(** [tolower] in the C locale, and equality without regard to case. *)
Definition to_lower (c : Z) : Z := if (65 <=? c) && (c <=? 90) then c + 32 else c.
Definition casecmp_eq (p q : text) : bool := bool_decide (map to_lower p = map to_lower q).

(** ** Numerals *)

Definition numeral (ds : text) : bool := negb (length ds =? 0)%nat && forallb is_digit ds.
Definition value (ds : text) : Z := fst (digits 0 ds).
Definition stops (p : text) : Prop := is_digit (chr p) = false.

Lemma digits_app acc ds rest : forallb is_digit ds = true -> stops rest ->
  digits acc (ds ++ rest) = (fst (digits acc ds), rest).
Proof.
  intros Hd Hr. revert acc Hd. induction ds as [|d ds IH]; intros acc Hd.
  - destruct rest as [|c rest]; [done|]. unfold stops in Hr. cbn in Hr |- *. by rewrite Hr.
  - cbn [forallb] in Hd. apply andb_true_iff in Hd as [Hd Hds]. cbn [app digits]. rewrite Hd. by apply IH.
Qed.

Lemma digits_nonneg acc ds : 0 <= acc -> 0 <= fst (digits acc ds).
Proof.
  revert acc. induction ds as [|d ds IH]; intros acc Ha; cbn [digits]; [done|].
  destruct (is_digit d) eqn:Hd; [|done]. apply IH. unfold is_digit in Hd.
  apply andb_true_iff in Hd as [?%Z.leb_le ?%Z.leb_le]. lia.
Qed.

Lemma digit_facts c : is_digit c = true -> is_space c = false /\ (c =? 45) = false /\ (c =? 43) = false /\ (c =? 42) = false.
Proof. unfold is_digit, is_space. intros [?%Z.leb_le ?%Z.leb_le]%andb_true_iff. lia. Qed.

Lemma to_int_id x : 0 <= x < 2 ^ 31 -> to_int x = x.
Proof. intros. unfold to_int. rewrite Z.mod_small by lia. lia. Qed.

Lemma strtol_numeral ds rest : numeral ds = true -> value ds < 2 ^ 31 -> stops rest ->
  strtol (ds ++ rest) = (value ds, rest) /\ 0 <= value ds /\ is_digit (chr (ds ++ rest)) = true.
Proof.
  unfold numeral. intros [Hl Hd]%andb_true_iff Hv Hr. destruct ds as [|d ds]; [done|].
  pose proof Hd as Hd'. cbn [forallb] in Hd. apply andb_true_iff in Hd as [Hd Hds].
  pose proof (digits_nonneg 0 (d :: ds) ltac:(lia)) as Hnn. destruct (digit_facts d Hd) as (H1 & H2 & H3 & _).
  split; [|done]. unfold strtol. cbn [app skip_space]. rewrite H1. cbn [chr hd]. rewrite H2, H3. cbn [chr hd]. rewrite Hd.
  change (d :: ds ++ rest) with ((d :: ds) ++ rest). rewrite digits_app by done.
  unfold clamp_long. fold (value (d :: ds)). f_equal. unfold value in *. lia.
Qed.

Lemma strtol_end ds : numeral ds = true -> value ds < 2 ^ 31 -> strtol ds = (value ds, []).
Proof.
  intros Hd Hv. destruct (strtol_numeral ds [] Hd Hv eq_refl) as [H _]. by rewrite app_nil_r in H.
Qed.

Lemma atoi_numeral ds : numeral ds = true -> value ds < 2 ^ 31 -> atoi ds = value ds.
Proof.
  intros Hd Hv. unfold atoi. rewrite strtol_end by done. apply to_int_id. split; [|done].
  by apply digits_nonneg.
Qed.

(** ** Prefixes *)

Lemma has_prefix_app n rest : has_prefix (n ++ rest) n = true.
Proof. induction n as [|c n IH]; cbn; [done|]. by rewrite Z.eqb_refl. Qed.

Lemma has_prefix_same_length n n' rest :
  length n = length n' -> has_prefix (n ++ rest) n' = true -> n = n'.
Proof.
  revert n'. induction n as [|c n IH]; intros [|c' n'] Hl; try done. cbn in *.
  intros [->%Z.eqb_eq H]%andb_true_iff. f_equal. by apply IH; [lia|].
Qed.

End Libc.
