(* ===== verification/Base64.v ===== *)
(** * Base64 (util.c)

    Encoding and decoding of chunks, with the size checks of the buffers. *)
From Stdlib Require Import ZArith Lia Bool String Ascii.
From stdpp Require Import base numbers option list.
From S2P Require Import Prelude Error.
Import Error.

Module Base64.

Definition TOO_SMALL : Z := Z.lor (INA_ES S_BUFFER) (INA_ERR E_TOO_SMALL).
Definition BUFFER_OVERFLOW : Z := Z.lor (INA_ES S_BUFFER) (INA_ERR E_OVERFLOW).
Definition INPUT_INVALID : Z := Z.lor (INA_ES S_INPUT) INA_ERR_INVALID.

Definition base64_decode_tab : list Z :=
  [66;66;66;66;66;66;66;66;66;64;66;66;66;66;66;66;66;66;66;66;66;66;66;66;
   66;66;66;66;66;66;66;66;66;66;66;66;66;66;66;66;66;66;66;62;66;66;66;63;
   52;53;54;55;56;57;58;59;60;61;66;66;66;65;66;66;66;0;1;2;3;4;5;6;7;8;9;
   10;11;12;13;14;15;16;17;18;19;20;21;22;23;24;25;66;66;66;66;66;66;26;27;
   28;29;30;31;32;33;34;35;36;37;38;39;40;41;42;43;44;45;46;47;48;49;50;51;
   66;66;66;66;66;66;66;66;66;66;66;66;66;66;66;66;66;66;66;66;66;66;66;66;
   66;66;66;66;66;66;66;66;66;66;66;66;66;66;66;66;66;66;66;66;66;66;66;66;
   66;66;66;66;66;66;66;66;66;66;66;66;66;66;66;66;66;66;66;66;66;66;66;66;
   66;66;66;66;66;66;66;66;66;66;66;66;66;66;66;66;66;66;66;66;66;66;66;66;
   66;66;66;66;66;66;66;66;66;66;66;66;66;66;66;66;66;66;66;66;66;66;66;66;
   66;66;66;66;66;66;66;66;66;66;66;66;66].

Definition base64chars : list Z :=
  bytes_of_string "ABCDEFGHIJKLMNOPQRSTUVWXYZabcdefghijklmnopqrstuvwxyz0123456789+/".

(** [ina_util_base64_encode_length]; [size_t] is 64 bits. *)
Definition ina_util_base64_encode_length (in_length line_length : Z) (out_length_null : bool)
  : result Z :=
  if line_length =? 0 then Err INA_ERR_INVALID_ARGUMENT
  else if out_length_null then Err INA_ERR_INVALID_ARGUMENT
  else
    let adjustment := if in_length mod 3 =? 0 then 0 else 3 - in_length mod 3 in
    let code_padded_size := u64 (u64 (in_length + adjustment) / 3 * 4) in
    let newline_size := if 0 <? line_length then u64 (code_padded_size / line_length * 2) else 0 in
    Ok (u64 (code_padded_size + newline_size + 1)).

(** [result[resultIndex++] = c] after the check of the space left. *)
Definition put (resultSize : Z) (c : Z) (out : list Z) : result (list Z) :=
  if resultSize <=? Z.of_nat (length out) then Err TOO_SMALL else Ok (out ++ [c]).

Local Open Scope inac_scope.

Fixpoint encode_loop (resultSize : Z) (data : list Z) (out : list Z) : result (list Z) :=
  match data with
  | [] => Ok out
  | d0 :: rest =>
      let n := u32 (Z.shiftl d0 16) in
      let n := match rest with d1 :: _ => u32 (n + Z.shiftl d1 8) | [] => n end in
      let n := match rest with _ :: d2 :: _ => u32 (n + d2) | _ => n end in
      let n0 := Z.land (u8 (Z.shiftr n 18)) 63 in
      let n1 := Z.land (u8 (Z.shiftr n 12)) 63 in
      let n2 := Z.land (u8 (Z.shiftr n 6)) 63 in
      let n3 := Z.land (u8 n) 63 in
      out <-! put resultSize (nthZ 0 base64chars n0) out;
      out <-! put resultSize (nthZ 0 base64chars n1) out;
      match rest with
      | [] => Ok out
      | _ :: rest =>
          out <-! put resultSize (nthZ 0 base64chars n2) out;
          match rest with
          | [] => Ok out
          | _ :: rest =>
              out <-! put resultSize (nthZ 0 base64chars n3) out;
              encode_loop resultSize rest out
          end
      end
  end.

(** [for (; padCount < 3; padCount++)] *)
Fixpoint pad_loop (resultSize : Z) (k : nat) (out : list Z) : result (list Z) :=
  match k with
  | O => Ok out
  | S k => out <-! put resultSize 61 out; pad_loop resultSize k out
  end.

(** [ina_util_base64_encode_chunk]: the bytes written to [result], with the
    terminating zero. *)
Definition ina_util_base64_encode_chunk (data_buf : option (list Z)) (result_null : bool)
  (resultSize : Z) : result (list Z) :=
  match data_buf with
  | None => Err INA_ERR_INVALID_ARGUMENT
  | Some data =>
      if result_null then Err INA_ERR_INVALID_ARGUMENT else
      let padCount := Z.of_nat (length data) mod 3 in
      out <-! encode_loop resultSize data [];
      out <-! (if 0 <? padCount then pad_loop resultSize (Z.to_nat (3 - padCount)) out else Ok out);
      put resultSize 0 out
  end.

(** The table is indexed by a signed [char]: an input byte of 128 or more
    reads in front of it, which is undefined; [None] stands for that. *)
Fixpoint decode_loop (max_out : Z) (input : list Z) (buf : Z) (out : list Z)
  : option (result (Z * list Z)) :=
  match input with
  | [] => Some (Ok (buf, out))
  | ch :: rest =>
      if 128 <=? ch then None else
      let c := nthZ 66 base64_decode_tab ch in
      if c =? 64 then decode_loop max_out rest buf out
      else if c =? 66 then Some (Err INPUT_INVALID)
      else if c =? 65 then Some (Ok (buf, out))
      else
        let buf := Z.lor (shl 64 buf 6) c in
        if Z.land buf 0x1000000 =? 0 then decode_loop max_out rest buf out
        else if max_out <? Z.of_nat (length out) + 3 then Some (Err BUFFER_OVERFLOW)
        else decode_loop max_out rest 1
               (out ++ [u8 (Z.shiftr buf 16); u8 (Z.shiftr buf 8); u8 buf])
  end.

Definition decode_tail (max_out buf : Z) (out : list Z) : result (list Z) :=
  if negb (Z.land buf 0x40000 =? 0) then
    if max_out <? Z.of_nat (length out) + 2 then Err BUFFER_OVERFLOW
    else Ok (out ++ [u8 (Z.shiftr buf 10); u8 (Z.shiftr buf 2)])
  else if negb (Z.land buf 0x1000 =? 0) then
    if max_out <? Z.of_nat (length out) + 1 then Err BUFFER_OVERFLOW
    else Ok (out ++ [u8 (Z.shiftr buf 4)])
  else Ok out.

(** [ina_util_base64_decode_chunk]: the bytes written to [out]; [*out_len] is
    their number. *)
Definition ina_util_base64_decode_chunk (input : option (list Z)) (out_null : bool)
  (max_out : Z) (out_len_null : bool) : option (result (list Z)) :=
  match input with
  | None => Some (Err INA_ERR_INVALID_ARGUMENT)
  | Some input =>
      if out_null || out_len_null then Some (Err INA_ERR_INVALID_ARGUMENT) else
      match decode_loop max_out input 1 [] with
      | None => None
      | Some r => Some (rbind r (fun p => decode_tail max_out (fst p) (snd p)))
      end
  end.

Example encode_hello :
  ina_util_base64_encode_chunk (Some (bytes_of_string "Hello")) false 9
  = Ok (bytes_of_string "SGVsbG8=" ++ [0]).
Proof. reflexivity. Qed.

Example decode_hello :
  ina_util_base64_decode_chunk (Some (bytes_of_string "SGVsbG8=")) false 5 false
  = Some (Ok (bytes_of_string "Hello")).
Proof. reflexivity. Qed.

(** ** Specification (RFC 4648) *)

Definition char (n : Z) : Z := nthZ 0 base64chars n.

(** The characters of whole groups and of a partial last group, without
    padding. *)
Fixpoint base64_body (data : list Z) : list Z :=
  match data with
  | [] => []
  | [a] => [char (a / 4); char (a mod 4 * 16)]
  | [a; b] => [char (a / 4); char (a mod 4 * 16 + b / 16); char (b mod 16 * 4)]
  | a :: b :: c :: rest =>
      [char (a / 4); char (a mod 4 * 16 + b / 16); char (b mod 16 * 4 + c / 64); char (c mod 64)]
      ++ base64_body rest
  end.

Definition base64_pad (data : list Z) : list Z :=
  match (length data mod 3)%nat with 1%nat => [61; 61] | 2%nat => [61] | _ => [] end.

Definition base64 (data : list Z) : list Z := base64_body data ++ base64_pad data.

(** Length of the padded encoding of [n] bytes. *)
Definition base64_length (n : Z) : Z := (n + 2) / 3 * 4.

(** ** The encoder meets the specification *)

Fixpoint puts (size : Z) (cs out : list Z) : result (list Z) :=
  match cs with [] => Ok out | c :: cs => out <-! put size c out; puts size cs out end.

Lemma puts_spec size cs out :
  puts size cs out =
    if Z.of_nat (length out + length cs) <=? Z.max size (Z.of_nat (length out))
    then Ok (out ++ cs) else Err TOO_SMALL.
Proof.
  revert out. induction cs as [|c cs IH]; intros out; simpl.
  - rewrite app_nil_r. by case_bool; [|lia].
  - unfold put. destruct (Z.leb_spec size (Z.of_nat (length out))); simpl.
    + case_bool; [lia|done].
    + rewrite IH, length_app, <- app_assoc. simpl.
      repeat case_bool; done || lia.
Qed.

Lemma puts_app size cs cs' out :
  puts size (cs ++ cs') out = rbind (puts size cs out) (puts size cs').
Proof.
  revert out. induction cs as [|c cs IH]; intros out; simpl; [done|].
  rewrite rbind_assoc. destruct (put size c out); simpl; auto.
Qed.

Lemma pad_loop_puts size k out : pad_loop size k out = puts size (repeat 61 k) out.
Proof. revert out. induction k; intros; simpl; [done|]. destruct put; simpl; auto. Qed.

Definition group1 (a : Z) : Z := u32 (Z.shiftl a 16).
Definition group2 (a b : Z) : Z := u32 (group1 a + Z.shiftl b 8).
Definition group3 (a b c : Z) : Z := u32 (group2 a b + c).

Lemma group1_value a : is_byte a -> group1 a = a * 65536.
Proof. intros. unfold group1. arith_shift. dlia. Qed.
Lemma group2_value a b : is_byte a -> is_byte b -> group2 a b = a * 65536 + b * 256.
Proof. intros. unfold group2. rewrite group1_value by done. arith_shift. dlia. Qed.
Lemma group3_value a b c :
  is_byte a -> is_byte b -> is_byte c -> group3 a b c = a * 65536 + b * 256 + c.
Proof. intros. unfold group3. rewrite group2_value by done. arith_shift. dlia. Qed.

Definition sextet (n k : Z) : Z := Z.land (u8 (Z.shiftr n k)) 63.

Lemma sextets_of_bytes a b c :
  is_byte a -> is_byte b -> is_byte c ->
  let n := a * 65536 + b * 256 + c in
  sextet n 18 = a / 4 /\ sextet n 12 = a mod 4 * 16 + b / 16 /\
  sextet n 6 = b mod 16 * 4 + c / 64 /\ sextet n 0 = c mod 64.
Proof.
  intros Ha Hb Hc n. unfold sextet, n. clear n.
  split_and!; arith_shift; dlia.
Qed.

Lemma zero_is_byte : is_byte 0.
Proof. unfold in_width. lia. Qed.

Lemma encode_loop_puts size data out :
  Forall is_byte data -> encode_loop size data out = puts size (base64_body data) out.
Proof.
  intros Hd. revert out. induction data as [|a|a b|a b c data IH] using list_ind3;
    intros out; simpl; [done|..].
  - inversion Hd as [|?? Ha]; subst. fold (group1 a). rewrite group1_value by done.
    destruct (sextets_of_bytes a 0 0 Ha zero_is_byte zero_is_byte) as (E0&E1&_&_).
    unfold sextet in E0, E1. rewrite Z.mul_0_l, !Z.add_0_r in E0, E1.
    change (0 / 16) with 0 in E1. rewrite Z.add_0_r in E1. rewrite E0, E1. fold (char (a / 4)).
    fold (char (a mod 4 * 16)).
    destruct (put size (char (a / 4)) out); simpl; [|done].
    by destruct put.
  - inversion Hd as [|?? Ha Hd']; subst. inversion Hd' as [|?? Hb]; subst.
    fold (group1 a) (group2 a b). rewrite group2_value by done.
    destruct (sextets_of_bytes a b 0 Ha Hb zero_is_byte) as (E0&E1&E2&_).
    unfold sextet in E0, E1, E2. rewrite !Z.add_0_r in E0, E1, E2.
    change (0 / 64) with 0 in E2. rewrite Z.add_0_r in E2. rewrite E0, E1, E2.
    fold (char (a / 4)) (char (a mod 4 * 16 + b / 16)) (char (b mod 16 * 4)).
    destruct (put size (char (a / 4)) out); simpl; [|done].
    destruct put; simpl; [|done]. by destruct put.
  - inversion Hd as [|?? Ha Hd']; subst. inversion Hd' as [|?? Hb Hd'']; subst.
    inversion Hd'' as [|?? Hc Hd3]; subst.
    fold (group1 a) (group2 a b) (group3 a b c). rewrite group3_value by done.
    destruct (sextets_of_bytes a b c Ha Hb Hc) as (E0&E1&E2&E3).
    unfold sextet in E0, E1, E2, E3. rewrite Z.shiftr_0_r in E3. rewrite E0, E1, E2, E3.
    fold (char (a / 4)) (char (a mod 4 * 16 + b / 16)) (char (b mod 16 * 4 + c / 64)) (char (c mod 64)).
    destruct (put size (char (a / 4)) out); simpl; [|done].
    destruct put; simpl; [|done]. destruct put; simpl; [|done]. destruct put; simpl; [|done].
    by apply IH.
Qed.

Lemma base64_lengths data :
  Z.of_nat (length (base64 data)) = base64_length (Z.of_nat (length data)).
Proof.
  unfold base64, base64_length. rewrite length_app.
  induction data as [|a|a b|a b c data IH] using list_ind3; try reflexivity.
  assert (base64_pad (a :: b :: c :: data) = base64_pad data) as ->.
  { unfold base64_pad. simpl length.
    replace (S (S (S (length data)))) with (length data + 1 * 3)%nat by lia.
    by rewrite Nat.Div0.mod_add. }
  simpl length. rewrite !Nat2Z.inj_succ, Nat2Z.inj_add in *. rewrite !Nat2Z.inj_succ.
  dlia.
Qed.

Lemma pad_is_base64_pad data :
  repeat 61 (Z.to_nat (3 - Z.of_nat (length data) mod 3))
  = if 0 <? Z.of_nat (length data) mod 3 then base64_pad data else repeat 61 3.
Proof.
  unfold base64_pad. change 3 with (Z.of_nat 3). rewrite <- Nat2Z.inj_mod.
  pose proof (Nat.mod_upper_bound (length data) 3 ltac:(lia)).
  destruct (length data mod 3)%nat as [|[|[|]]]; try reflexivity. lia.
Qed.

(** ** Decoding an encoding *)

Lemma char_decodes n :
  0 <= n < 64 -> 0 <= char n < 128 /\ nthZ 66 base64_decode_tab (char n) = n.
Proof.
  intros Hn.
  assert (forallb (fun n => (0 <=? char n) && (char n <? 128)
            && (nthZ 66 base64_decode_tab (char n) =? n)) (seqZ 0 64) = true) as H by reflexivity.
  rewrite forallb_forall in H. specialize (H n). rewrite <- list_elem_of_In, elem_of_seqZ in H.
  specialize (H ltac:(lia)). lia.
Qed.

Lemma decode_char_step max n rest buf out :
  0 <= n < 64 -> 0 <= buf < 2 ^ 24 ->
  decode_loop max (char n :: rest) buf out =
    let buf := buf * 64 + n in
    if Z.testbit buf 24 then
      if max <? Z.of_nat (length out) + 3 then Some (Err BUFFER_OVERFLOW)
      else decode_loop max rest 1 (out ++ [u8 (Z.shiftr buf 16); u8 (Z.shiftr buf 8); u8 buf])
    else decode_loop max rest buf out.
Proof.
  intros Hn Hbuf. destruct (char_decodes n Hn) as [[? ?] Htab].
  assert (Z.lor (shl 64 buf 6) n = buf * 64 + n) as Hlor.
  { unfold shl. rewrite wrap_small.
    - by rewrite lor_shiftl_add.
    - unfold in_width. rewrite Z.shiftl_mul_pow2 by lia. lia. }
  cbn [decode_loop]. rewrite Htab, Hlor.
  change 0x1000000 with (2 ^ 24). rewrite land_pow2_eqb by lia.
  repeat (case_bool; try lia); done.
Qed.

(** The accumulator holds a leading one followed by the sextets read. *)
Ltac testbit_by_range :=
  match goal with
  | |- context [Z.testbit ?x ?k] =>
      first [ rewrite (testbit_small x k) by lia | rewrite (testbit_top x k) by lia ]
  end.

Lemma decode_group max a b c rest out :
  is_byte a -> is_byte b -> is_byte c -> Z.of_nat (length out) + 3 <= max ->
  decode_loop max (base64_body [a; b; c] ++ rest) 1 out = decode_loop max rest 1 (out ++ [a; b; c]).
Proof.
  intros Ha Hb Hc Hmax. unfold in_width in *. cbn [base64_body app].
  assert (0 <= a / 4 < 64 /\ 0 <= a mod 4 * 16 + b / 16 < 64
          /\ 0 <= b mod 16 * 4 + c / 64 < 64 /\ 0 <= c mod 64 < 64) as (?&?&?&?) by dlia.
  do 4 (rewrite decode_char_step by (done || lia); cbv zeta; testbit_by_range).
  case_bool; [lia|]. do 2 f_equal.
  assert (((((1 * 64 + a / 4) * 64 + (a mod 4 * 16 + b / 16)) * 64 + (b mod 16 * 4 + c / 64)) * 64
           + c mod 64) = 2 ^ 24 + a * 65536 + b * 256 + c) as -> by dlia.
  repeat f_equal; arith_shift; dlia.
Qed.

Lemma decode_pad max buf out rest :
  decode_loop max (61 :: rest) buf out = Some (Ok (buf, out)).
Proof. reflexivity. Qed.

Lemma decode_last1 max a out :
  is_byte a -> Z.of_nat (length out) + 1 <= max ->
  decode_loop max (base64 [a]) 1 out = Some (Ok (4096 + a * 16, out)) /\
  decode_tail max (4096 + a * 16) out = Ok (out ++ [a]).
Proof.
  intros Ha Hmax. unfold in_width in *. split.
  - unfold base64. cbn [base64_body base64_pad length app Nat.modulo Nat.divmod fst snd Nat.sub].
    assert (0 <= a / 4 < 64 /\ 0 <= a mod 4 * 16 < 64) as [??] by dlia.
    do 2 (rewrite decode_char_step by (done || lia); cbv zeta; testbit_by_range).
    rewrite decode_pad. do 3 f_equal. dlia.
  - unfold decode_tail. change 0x40000 with (2 ^ 18). change 0x1000 with (2 ^ 12).
    rewrite !land_pow2_eqb by lia. do 2 testbit_by_range. simpl. case_bool; [lia|].
    repeat f_equal. arith_shift. dlia.
Qed.

Lemma decode_last2 max a b out :
  is_byte a -> is_byte b -> Z.of_nat (length out) + 2 <= max ->
  decode_loop max (base64 [a; b]) 1 out = Some (Ok (262144 + a * 1024 + b * 4, out)) /\
  decode_tail max (262144 + a * 1024 + b * 4) out = Ok (out ++ [a; b]).
Proof.
  intros Ha Hb Hmax. unfold in_width in *. split.
  - unfold base64. cbn [base64_body base64_pad length app Nat.modulo Nat.divmod fst snd Nat.sub].
    assert (0 <= a / 4 < 64 /\ 0 <= a mod 4 * 16 + b / 16 < 64 /\ 0 <= b mod 16 * 4 < 64)
      as (?&?&?) by dlia.
    do 3 (rewrite decode_char_step by (done || lia); cbv zeta; testbit_by_range).
    rewrite decode_pad. do 3 f_equal. dlia.
  - unfold decode_tail. change 0x40000 with (2 ^ 18).
    rewrite !land_pow2_eqb by lia. testbit_by_range. simpl. case_bool; [lia|].
    repeat f_equal; arith_shift; dlia.
Qed.

Lemma base64_cons3 a b c data :
  base64 (a :: b :: c :: data) = base64_body [a; b; c] ++ base64 data.
Proof.
  unfold base64. cbn [base64_body app]. do 4 f_equal.
  unfold base64_pad. cbn [length].
  replace (S (S (S (length data)))) with (length data + 1 * 3)%nat by lia.
  by rewrite Nat.Div0.mod_add.
Qed.

Lemma decode_base64 max data out :
  Forall is_byte data -> Z.of_nat (length out) + Z.of_nat (length data) <= max ->
  exists buf out', decode_loop max (base64 data) 1 out = Some (Ok (buf, out')) /\
    decode_tail max buf out' = Ok (out ++ data).
Proof.
  intros Hd. revert out. induction data as [|a|a b|a b c data IH] using list_ind3;
    intros out Hmax; rewrite ?Forall_cons_iff in Hd; cbn [length] in Hmax.
  - exists 1, out. split; [done|]. by rewrite app_nil_r.
  - eexists _, _. apply decode_last1; [tauto|lia].
  - eexists _, _. apply decode_last2; (tauto || lia).
  - destruct Hd as (Ha&Hb&Hc&Hd). rewrite base64_cons3, decode_group by (done || lia).
    destruct (IH Hd (out ++ [a; b; c])) as (buf&out'&H1&H2).
    { rewrite length_app. simpl. lia. }
    exists buf, out'. split; [done|]. by rewrite H2, <- app_assoc.
Qed.

Lemma encode_chunk_eval data size :
  Forall is_byte data ->
  ina_util_base64_encode_chunk (Some data) false size =
    if base64_length (Z.of_nat (length data)) <? size
    then Ok (base64 data ++ [0]) else Err TOO_SMALL.
Proof.
  intros Hd.
  unfold ina_util_base64_encode_chunk. rewrite encode_loop_puts by done.
  rewrite <- base64_lengths. unfold base64.
  set (pc := Z.of_nat (length data) mod 3).
  assert (forall out, (if 0 <? pc then pad_loop size (Z.to_nat (3 - pc)) out else Ok out)
                      = puts size (base64_pad data) out) as Hpad.
  { intros out. rewrite pad_loop_puts. pose proof (pad_is_base64_pad data) as H. fold pc in H.
    destruct (Z.ltb_spec 0 pc) as [Hp|Hp]; [by rewrite H|].
    assert (pc = 0) as Hz by (pose proof (Z.mod_pos_bound (Z.of_nat (length data)) 3); lia).
    unfold base64_pad. unfold pc in Hz. change 3 with (Z.of_nat 3) in Hz.
    rewrite <- Nat2Z.inj_mod in Hz. by replace (length data mod 3)%nat with 0%nat by lia. }
  transitivity (puts size ((base64_body data ++ base64_pad data) ++ [0]) []).
  - rewrite !puts_app. rewrite rbind_assoc.
    destruct (puts size (base64_body data) []); simpl; [|done]. rewrite Hpad.
    destruct puts; simpl; [|done]. by destruct put.
  - rewrite puts_spec, length_app. simpl. repeat case_bool; done || lia.
Qed.

(** ** Properties *)

(** The encoder computes the Base64 of RFC 4648: on a chunk of bytes it
    writes the padded encoding and a terminating zero when the buffer has
    room for them, and reports a too small buffer in every other case; it
    never writes past the end of the buffer. *)
Theorem encode_chunk_spec data size (Hd : Forall is_byte data) :
  ina_util_base64_encode_chunk (Some data) false size =
    if base64_length (Z.of_nat (length data)) <? size
    then Ok (base64 data ++ [0]) else Err TOO_SMALL.
Proof. by apply encode_chunk_eval. Qed.

Lemma encode_chunk_spec_witness :
  ina_util_base64_encode_chunk (Some [77; 97]) false 4 = Err TOO_SMALL.
Proof.
  rewrite (encode_chunk_spec [77; 97] 4); [reflexivity|].
  repeat constructor; vm_compute; congruence.
Defined.

(** C34. Decoding an encoding gives back the data: whatever bytes were
    encoded, decoding the characters written before the terminator into a
    buffer that has room for the data succeeds with exactly the data. *)
Theorem base64_roundtrip data size max_out
  (Hd : Forall is_byte data) (Hmax : Z.of_nat (length data) <= max_out)
  (Hsize : base64_length (Z.of_nat (length data)) < size) :
  exists txt, ina_util_base64_encode_chunk (Some data) false size = Ok (txt ++ [0]) /\
    ina_util_base64_decode_chunk (Some txt) false max_out false = Some (Ok data).
Proof.
  exists (base64 data). split.
  - rewrite encode_chunk_eval by done. by case_bool; [|lia].
  - unfold ina_util_base64_decode_chunk. simpl.
    destruct (decode_base64 max_out data [] Hd ltac:(simpl; lia)) as (buf&out&H1&H2).
    rewrite H1. simpl. by rewrite H2.
Qed.

Lemma base64_roundtrip_witness :
  exists txt, ina_util_base64_encode_chunk (Some [0; 255; 10; 7]) false 9 = Ok (txt ++ [0]) /\
    ina_util_base64_decode_chunk (Some txt) false 4 false = Some (Ok [0; 255; 10; 7]).
Proof.
  apply (base64_roundtrip [0; 255; 10; 7] 9 4); [|vm_compute; congruence|reflexivity].
  repeat constructor; vm_compute; congruence.
Defined.

(** The length announced for an input is always enough: a buffer of the
    size [ina_util_base64_encode_length] computes, for any line length, takes
    the whole encoding and its terminator. *)
Theorem encode_length_sufficient data line k
  (Hd : Forall is_byte data) (Hline : in_width 32 line)
  (Hn : Z.of_nat (length data) < 2 ^ 60)
  (Hk : ina_util_base64_encode_length (Z.of_nat (length data)) line false = Ok k) :
  ina_util_base64_encode_chunk (Some data) false k = Ok (base64 data ++ [0]).
Proof.
  rewrite encode_chunk_eval by done. unfold ina_util_base64_encode_length in Hk.
  set (n := Z.of_nat (length data)) in *.
  assert (0 <= n) as Hn0 by lia.
  destruct (Z.eqb_spec line 0); [discriminate|]. simplify_eq.
  set (adj := if n mod 3 =? 0 then 0 else 3 - n mod 3).
  assert (n + adj = (n + 2) / 3 * 3) as Hadj.
  { unfold adj. case_bool; dlia. }
  assert (u64 (n + adj) / 3 * 4 = base64_length n) as ->.
  { unfold base64_length. rewrite wrap_small by (unfold in_width; dlia). rewrite Hadj.
    by rewrite Z.div_mul. }
  assert (0 <= base64_length n < 2 ^ 62) as Hb by (unfold base64_length; dlia).
  rewrite (wrap_small 64 (base64_length n)) by (unfold in_width; lia).
  unfold in_width in Hline. destruct (Z.ltb_spec 0 line); [|lia].
  assert (0 <= base64_length n / line * 2 <= base64_length n * 2) as Hq.
  { pose proof (Z.div_le_upper_bound (base64_length n) line (base64_length n)).
    pose proof (Z.div_pos (base64_length n) line). nia. }
  rewrite (wrap_small 64 (base64_length n / line * 2)) by (unfold in_width; lia).
  rewrite wrap_small by (unfold in_width; lia).
  by case_bool; [|lia].
Qed.

Lemma encode_length_sufficient_witness :
  ina_util_base64_encode_chunk (Some [1; 2; 3; 4]) false 13 = Ok (base64 [1; 2; 3; 4] ++ [0]).
Proof.
  apply (encode_length_sufficient [1; 2; 3; 4] 4 13);
    [repeat constructor; vm_compute; congruence|vm_compute; split; congruence
    |reflexivity|reflexivity].
Defined.
End Base64.
