(* ===== verification/Hash.v ===== *)
(** * Hash functions (hash.c)

    The hash functions the library implements itself, for the little endian
    64 bit platform.  The functions that call a vendored algorithm
    (xxhash, falkhash, t1ha, memhash) or a processor instruction (the
    hardware CRC) are in Crc.v. *)
From Stdlib Require Import ZArith Lia Bool String Ascii.
From stdpp Require Import base numbers option list strings.
From S2P Require Import Prelude Error.
Import Error.

Module Hash.
Local Open Scope inac_scope.

(** ** Reading the input *)

Definition byte_at (data : list Z) (i : Z) : Z := nthZ 0 data i.
Definition read16 (data : list Z) (i : Z) : Z :=
  byte_at data i + byte_at data (i + 1) * 2 ^ 8.
(** [__ina_hash_le_uint32_read] *)
Definition read32 (data : list Z) (i : Z) : Z :=
  byte_at data i + byte_at data (i + 1) * 2 ^ 8 + byte_at data (i + 2) * 2 ^ 16
  + byte_at data (i + 3) * 2 ^ 24.
Definition read64 (data : list Z) (i : Z) : Z :=
  read32 data i + read32 data (i + 4) * 2 ^ 32.

Definition size_of (data : list Z) : Z := Z.of_nat (length data).

(** [(x << r) | (x >> (w - r))] *)
Definition rotl32 (x r : Z) : Z := Z.lor (shl 32 x r) (Z.shiftr x (32 - r)).
Definition rot64 (x k : Z) : Z := Z.lor (shl 64 x k) (Z.shiftr x (64 - k)).

(** ** CRC 32 *)

Definition crc32_tab : list Z :=
  [0x00000000;0x77073096;0xee0e612c;0x990951ba;0x076dc419;0x706af48f;
   0xe963a535;0x9e6495a3;0x0edb8832;0x79dcb8a4;0xe0d5e91e;0x97d2d988;
   0x09b64c2b;0x7eb17cbd;0xe7b82d07;0x90bf1d91;0x1db71064;0x6ab020f2;
   0xf3b97148;0x84be41de;0x1adad47d;0x6ddde4eb;0xf4d4b551;0x83d385c7;
   0x136c9856;0x646ba8c0;0xfd62f97a;0x8a65c9ec;0x14015c4f;0x63066cd9;
   0xfa0f3d63;0x8d080df5;0x3b6e20c8;0x4c69105e;0xd56041e4;0xa2677172;
   0x3c03e4d1;0x4b04d447;0xd20d85fd;0xa50ab56b;0x35b5a8fa;0x42b2986c;
   0xdbbbc9d6;0xacbcf940;0x32d86ce3;0x45df5c75;0xdcd60dcf;0xabd13d59;
   0x26d930ac;0x51de003a;0xc8d75180;0xbfd06116;0x21b4f4b5;0x56b3c423;
   0xcfba9599;0xb8bda50f;0x2802b89e;0x5f058808;0xc60cd9b2;0xb10be924;
   0x2f6f7c87;0x58684c11;0xc1611dab;0xb6662d3d;0x76dc4190;0x01db7106;
   0x98d220bc;0xefd5102a;0x71b18589;0x06b6b51f;0x9fbfe4a5;0xe8b8d433;
   0x7807c9a2;0x0f00f934;0x9609a88e;0xe10e9818;0x7f6a0dbb;0x086d3d2d;
   0x91646c97;0xe6635c01;0x6b6b51f4;0x1c6c6162;0x856530d8;0xf262004e;
   0x6c0695ed;0x1b01a57b;0x8208f4c1;0xf50fc457;0x65b0d9c6;0x12b7e950;
   0x8bbeb8ea;0xfcb9887c;0x62dd1ddf;0x15da2d49;0x8cd37cf3;0xfbd44c65;
   0x4db26158;0x3ab551ce;0xa3bc0074;0xd4bb30e2;0x4adfa541;0x3dd895d7;
   0xa4d1c46d;0xd3d6f4fb;0x4369e96a;0x346ed9fc;0xad678846;0xda60b8d0;
   0x44042d73;0x33031de5;0xaa0a4c5f;0xdd0d7cc9;0x5005713c;0x270241aa;
   0xbe0b1010;0xc90c2086;0x5768b525;0x206f85b3;0xb966d409;0xce61e49f;
   0x5edef90e;0x29d9c998;0xb0d09822;0xc7d7a8b4;0x59b33d17;0x2eb40d81;
   0xb7bd5c3b;0xc0ba6cad;0xedb88320;0x9abfb3b6;0x03b6e20c;0x74b1d29a;
   0xead54739;0x9dd277af;0x04db2615;0x73dc1683;0xe3630b12;0x94643b84;
   0x0d6d6a3e;0x7a6a5aa8;0xe40ecf0b;0x9309ff9d;0x0a00ae27;0x7d079eb1;
   0xf00f9344;0x8708a3d2;0x1e01f268;0x6906c2fe;0xf762575d;0x806567cb;
   0x196c3671;0x6e6b06e7;0xfed41b76;0x89d32be0;0x10da7a5a;0x67dd4acc;
   0xf9b9df6f;0x8ebeeff9;0x17b7be43;0x60b08ed5;0xd6d6a3e8;0xa1d1937e;
   0x38d8c2c4;0x4fdff252;0xd1bb67f1;0xa6bc5767;0x3fb506dd;0x48b2364b;
   0xd80d2bda;0xaf0a1b4c;0x36034af6;0x41047a60;0xdf60efc3;0xa867df55;
   0x316e8eef;0x4669be79;0xcb61b38c;0xbc66831a;0x256fd2a0;0x5268e236;
   0xcc0c7795;0xbb0b4703;0x220216b9;0x5505262f;0xc5ba3bbe;0xb2bd0b28;
   0x2bb45a92;0x5cb36a04;0xc2d7ffa7;0xb5d0cf31;0x2cd99e8b;0x5bdeae1d;
   0x9b64c2b0;0xec63f226;0x756aa39c;0x026d930a;0x9c0906a9;0xeb0e363f;
   0x72076785;0x05005713;0x95bf4a82;0xe2b87a14;0x7bb12bae;0x0cb61b38;
   0x92d28e9b;0xe5d5be0d;0x7cdcefb7;0x0bdbdf21;0x86d3d2d4;0xf1d4e242;
   0x68ddb3f8;0x1fda836e;0x81be16cd;0xf6b9265b;0x6fb077e1;0x18b74777;
   0x88085ae6;0xff0f6a70;0x66063bca;0x11010b5c;0x8f659eff;0xf862ae69;
   0x616bffd3;0x166ccf45;0xa00ae278;0xd70dd2ee;0x4e048354;0x3903b3c2;
   0xa7672661;0xd06016f7;0x4969474d;0x3e6e77db;0xaed16a4a;0xd9d65adc;
   0x40df0b66;0x37d83bf0;0xa9bcae53;0xdebb9ec5;0x47b2cf7f;0x30b5ffe9;
   0xbdbdf21c;0xcabac28a;0x53b39330;0x24b4a3a6;0xbad03605;0xcdd70693;
   0x54de5729;0x23d967bf;0xb3667a2e;0xc4614ab8;0x5d681b02;0x2a6f2b94;
   0xb40bbe37;0xc30c8ea1;0x5a05df1b;0x2d02ef8d].

Definition crc32_step (hash b : Z) : Z :=
  Z.lxor (nthZ 0 crc32_tab (Z.land (Z.lxor hash b) 0xFF)) (Z.shiftr hash 8).

Definition ina_hash_crc32 (hash : Z) (data : list Z) : Z :=
  Z.lxor (fold_left crc32_step data (Z.lxor hash 0xFFFFFFFF)) 0xFFFFFFFF.

(** ** SDBM *)

Definition ina_hash_sdbm (hash : Z) (data : list Z) : Z :=
  fold_left (fun hash c => u32 (c + shl 32 hash 6 + shl 32 hash 16 - hash)) data hash.

Definition ina_hash_32_sdbm (hash : Z) (data : list Z) : Z :=
  fold_left (fun hash c => u32 (shl 32 hash 6 + shl 32 hash 16 - hash + c)) data hash.

(** ** Multiplicative and one at a time hashes *)

Definition ina_hash_32_djb (hash : Z) (data : list Z) : Z :=
  fold_left (fun hash d => u32 (33 * hash + d)) data hash.

Definition jenkins_step (hash c : Z) : Z :=
  let hash := hash +₃₂ c in
  let hash := hash +₃₂ shl 32 hash 10 in
  Z.lxor hash (Z.shiftr hash 6).

Definition ina_hash_32_jenkins_ooat (hash : Z) (data : list Z) : Z :=
  let hash := fold_left jenkins_step data hash in
  let hash := hash +₃₂ shl 32 hash 3 in
  let hash := Z.lxor hash (Z.shiftr hash 11) in
  hash +₃₂ shl 32 hash 15.

Definition ina_hash_32_fnv (hash : Z) (data : list Z) : Z :=
  fold_left (fun h d => Z.lxor h d *₃₂ 16777619) data (Z.lxor hash 2166136261).

Definition ina_hash_64_fnv (hash : Z) (data : list Z) : Z :=
  fold_left (fun h d => Z.lxor h d *₆₄ 0x100000001b3) data (Z.lxor hash 0xcbf29ce484222325).

(** ** lookup3 *)

Definition lookup3_rot (x k : Z) : Z := Z.lor (shl 32 x k) (Z.shiftr x (32 - k)).

(** One line of [__INA_HASH_LOOKUP3_MIX]: [x -= z; x ^= ROT(z, k); z += y]. *)
Definition mix_line (k x y z : Z) : Z * Z :=
  let x := x -₃₂ z in
  let x := Z.lxor x (lookup3_rot z k) in
  (x, z +₃₂ y).

Definition lookup3_mix (s : Z * Z * Z) : Z * Z * Z :=
  let '(a, b, c) := s in
  let '(a, c) := mix_line 4 a b c in
  let '(b, a) := mix_line 6 b c a in
  let '(c, b) := mix_line 8 c a b in
  let '(a, c) := mix_line 16 a b c in
  let '(b, a) := mix_line 19 b c a in
  let '(c, b) := mix_line 4 c a b in
  (a, b, c).

(** [x ^= y; x -= ROT(y, k)] *)
Definition final_line (k x y : Z) : Z := Z.lxor x y -₃₂ lookup3_rot y k.

Definition lookup3_final (s : Z * Z * Z) : Z * Z * Z :=
  let '(a, b, c) := s in
  let c := final_line 14 c b in
  let a := final_line 11 a c in
  let b := final_line 25 b a in
  let c := final_line 16 c b in
  let a := final_line 4 a c in
  let b := final_line 14 b a in
  let c := final_line 24 c b in
  (a, b, c).

(** [while (size > 12)]: the fuel is the number of bytes, each round consumes
    twelve. *)
Fixpoint lookup3_loop (fuel : nat) (key : list Z) (s : Z * Z * Z) : list Z * (Z * Z * Z) :=
  match fuel with
  | O => (key, s)
  | S fuel =>
      if size_of key <=? 12 then (key, s) else
      let '(a, b, c) := s in
      let s := (a +₃₂ read32 key 0, b +₃₂ read32 key 4, c +₃₂ read32 key 8) in
      lookup3_loop fuel (drop 12 key) (lookup3_mix s)
  end.

(** The [switch (size)] with its fall through cases. *)
Definition lookup3_tail (key : list Z) (s : Z * Z * Z) : Z * Z * Z :=
  let '(a, b, c) := s in
  let size := size_of key in
  if size =? 12 then (a +₃₂ read32 key 0, b +₃₂ read32 key 4, c +₃₂ read32 key 8)
  else if 8 <=? size then
    let c := if 11 <=? size then c +₃₂ shl 32 (byte_at key 10) 16 else c in
    let c := if 10 <=? size then c +₃₂ shl 32 (byte_at key 9) 8 else c in
    let c := if 9 <=? size then c +₃₂ byte_at key 8 else c in
    (a +₃₂ read32 key 0, b +₃₂ read32 key 4, c)
  else if 4 <=? size then
    let b := if 7 <=? size then b +₃₂ shl 32 (byte_at key 6) 16 else b in
    let b := if 6 <=? size then b +₃₂ shl 32 (byte_at key 5) 8 else b in
    let b := if 5 <=? size then b +₃₂ byte_at key 4 else b in
    (a +₃₂ read32 key 0, b, c)
  else
    let a := if 3 <=? size then a +₃₂ shl 32 (byte_at key 2) 16 else a in
    let a := if 2 <=? size then a +₃₂ shl 32 (byte_at key 1) 8 else a in
    let a := if 1 <=? size then a +₃₂ byte_at key 0 else a in
    (a, b, c).

Definition ina_hash_32_lookup3 (hash : Z) (data : list Z) : Z :=
  let i := u32 (0xdeadbeef + u32 (size_of data) + hash) in
  let '(key, s) := lookup3_loop (length data) data (i, i, i) in
  if size_of key =? 0 then snd s
  else snd (lookup3_final (lookup3_tail key s)).

Definition ina_hash_64_lookup3 (hash : Z) (data : list Z) : Z :=
  let i := u32 (u64 (u32 (0xdeadbeef + u32 (size_of data)) + Z.land hash 0xffffffff)) in
  let c := u32 (i + Z.shiftr hash 32) in
  let '(key, s) := lookup3_loop (length data) data (i, i, c) in
  if size_of key =? 0 then let '(_, b, c) := s in c +₆₄ shl 64 b 32
  else let '(_, b, c) := lookup3_final (lookup3_tail key s) in c +₆₄ shl 64 b 32.

(** ** SuperFastHash *)

(** A [signed char] promoted to [int]. *)
Definition sext8 (b : Z) : Z := if b <? 128 then b else b - 256.

Fixpoint superfast_loop (n : nat) (data : list Z) (hash : Z) : list Z * Z :=
  match n with
  | O => (data, hash)
  | S n =>
      let hash := hash +₃₂ read16 data 0 in
      let tmp := Z.lxor (shl 32 (read16 data 2) 11) hash in
      let hash := Z.lxor (shl 32 hash 16) tmp in
      let hash := hash +₃₂ Z.shiftr hash 11 in
      superfast_loop n (drop 4 data) hash
  end.

Definition superfast_avalanche (hash : Z) : Z :=
  let hash := Z.lxor hash (shl 32 hash 3) in
  let hash := hash +₃₂ Z.shiftr hash 5 in
  let hash := Z.lxor hash (shl 32 hash 4) in
  let hash := hash +₃₂ Z.shiftr hash 17 in
  let hash := Z.lxor hash (shl 32 hash 25) in
  hash +₃₂ Z.shiftr hash 6.

Definition ina_hash_32_superfast (seed : Z) (key : list Z) : Z :=
  let size := size_of key in
  if size <=? 0 then 0 else
  let rem := Z.land size 3 in
  let '(data, hash) := superfast_loop (Z.to_nat (Z.shiftr size 2)) key 0 in
  let hash :=
    if rem =? 3 then
      let hash := hash +₃₂ read16 data 0 in
      let hash := Z.lxor hash (shl 32 hash 16) in
      let hash := Z.lxor hash (shl 32 (sext8 (byte_at data 2)) 18) in
      hash +₃₂ Z.shiftr hash 11
    else if rem =? 2 then
      let hash := hash +₃₂ read16 data 0 in
      let hash := Z.lxor hash (shl 32 hash 11) in
      hash +₃₂ Z.shiftr hash 17
    else if rem =? 1 then
      let hash := hash +₃₂ sext8 (byte_at data 0) in
      let hash := Z.lxor hash (shl 32 hash 10) in
      hash +₃₂ Z.shiftr hash 1
    else hash in
  superfast_avalanche hash.

(** ** FNV Yoshimitsu *)

Definition YPRIME : Z := 709607.

(** [(h ^ (ROTL32(x, 5) ^ y)) * PRIME] *)
Definition yoshi_step (h x y : Z) : Z := Z.lxor h (Z.lxor (rotl32 x 5) y) *₃₂ YPRIME.

Fixpoint yoshi_loop (fuel : nat) (p : list Z) (s : Z * Z * Z) : list Z * (Z * Z * Z) :=
  match fuel with
  | O => (p, s)
  | S fuel =>
      if size_of p <? 24 then (p, s) else
      let '(a, b, c) := s in
      yoshi_loop fuel (drop 24 p)
        (yoshi_step a (read32 p 0) (read32 p 4),
         yoshi_step b (read32 p 8) (read32 p 12),
         yoshi_step c (read32 p 16) (read32 p 20))
  end.

Definition ina_hash_32_fnv_yoshimitsu (hash : Z) (data : list Z) : Z :=
  let a := Z.lxor hash 2166136261 in
  let b := u32 (2166136261 + u32 (size_of data)) in
  let c := 2166136261 in
  let '(p, (a, b, c)) := yoshi_loop (length data) data (a, b, c) in
  let size := size_of p in
  (* p != data *)
  let a := if size =? size_of data then a else Z.lxor a (rotl32 c 5) *₃₂ YPRIME in
  let '(p, a, b) :=
    if Z.land size 16 =? 0 then (p, a, b)
    else (drop 16 p, yoshi_step a (read32 p 0) (read32 p 4), yoshi_step b (read32 p 8) (read32 p 12)) in
  let '(p, a, b) :=
    if Z.land size 8 =? 0 then (p, a, b)
    else (drop 8 p, Z.lxor a (read32 p 0) *₃₂ YPRIME, Z.lxor b (read32 p 4) *₃₂ YPRIME) in
  let '(p, a, b) :=
    if Z.land size 4 =? 0 then (p, a, b)
    else (drop 4 p, Z.lxor a (read16 p 0) *₃₂ YPRIME, Z.lxor b (read16 p 2) *₃₂ YPRIME) in
  let '(p, a) :=
    if Z.land size 2 =? 0 then (p, a) else (drop 2 p, Z.lxor a (read16 p 0) *₃₂ YPRIME) in
  let a := if Z.land size 1 =? 0 then a else Z.lxor a (byte_at p 0) *₃₂ YPRIME in
  let a := Z.lxor a (rotl32 b 5) *₃₂ YPRIME in
  Z.lxor a (Z.shiftr a 16).

(** ** MurmurHash 3 *)

Definition MURMUR_C1 : Z := 0xcc9e2d51.
Definition MURMUR_C2 : Z := 0x1b873593.

Definition murmur_k (k1 : Z) : Z := rotl32 (k1 *₃₂ MURMUR_C1) 15 *₃₂ MURMUR_C2.

(** [__INA_HASH_MURMUR_DOBLOCK] *)
Definition doblock (h1 k1 : Z) : Z := u32 (rotl32 (Z.lxor h1 (murmur_k k1)) 13 * 5 + 0xe6546b64).

(** One round of [__INA_HASH_MURMUR_DOBYTES] on the byte [x]: running hash,
    carry and number of bytes in the carry.  After a full block the macro
    leaves [c] multiplied by the block; only its low [n] bytes matter, but the
    value is kept as the code has it. *)
Definition dobyte (s : Z * Z * Z) (x : Z) : Z * Z * Z :=
  let '(h1, c, n) := s in
  let c := Z.lor (Z.shiftr c 8) (shl 32 x 24) in
  let n := n + 1 in
  if n =? 4 then (doblock h1 c, murmur_k c, 0) else (h1, c, n).

Definition dobytes (xs : list Z) (s : Z * Z * Z) : Z * Z * Z := fold_left dobyte xs s.

(** The loop over whole 32 bit chunks. *)
Fixpoint doblocks (fuel : nat) (ptr : list Z) (h1 : Z) : list Z * Z :=
  match fuel with
  | O => (ptr, h1)
  | S fuel => if size_of ptr <? 4 then (ptr, h1) else doblocks fuel (drop 4 ptr) (doblock h1 (read32 ptr 0))
  end.

(** [__ina_hash_PMurHash32_Process]: running hash and carry. *)
Definition PMurHash32_Process (h1 carry : Z) (key : list Z) : Z * Z :=
  let n := Z.land carry 3 in
  let i := Z.land (4 - n) 3 in
  let '(ptr, (h1, c, n)) :=
    if negb (i =? 0) && (i <=? size_of key)
    then (drop (Z.to_nat i) key, dobytes (take (Z.to_nat i) key) (h1, carry, n))
    else (key, (h1, carry, n)) in
  let '(ptr, h1) := doblocks (length ptr) ptr h1 in
  let '(h1, c, n) := dobytes ptr (h1, c, n) in
  (h1, Z.lor (Z.land c 0xffffff00) n).

Definition fmix (h : Z) : Z :=
  let h := Z.lxor h (Z.shiftr h 16) in
  let h := h *₃₂ 0x85ebca6b in
  let h := Z.lxor h (Z.shiftr h 13) in
  let h := h *₃₂ 0xc2b2ae35 in
  Z.lxor h (Z.shiftr h 16).

Definition PMurHash32_Result (h carry total_length : Z) : Z :=
  let n := Z.land carry 3 in
  let h := if n =? 0 then h else Z.lxor h (murmur_k (Z.shiftr carry ((4 - n) * 8))) in
  fmix (Z.lxor h total_length).

Definition PMurHash32 (seed : Z) (key : list Z) : Z :=
  let '(h1, carry) := PMurHash32_Process seed 0 key in
  PMurHash32_Result h1 carry (u32 (size_of key)).

Definition ina_hash_32_murmur3 (hash : Z) (data : list Z) : Z := PMurHash32 hash data.

Example murmur3_hello :
  ina_hash_32_murmur3 0 (bytes_of_string "hello") = 0x248bfa47.
Proof. vm_compute. reflexivity. Qed.

Example crc32_check :
  ina_hash_crc32 0 (bytes_of_string "123456789") = 0xcbf43926.
Proof. vm_compute. reflexivity. Qed.

Example lookup3_empty : ina_hash_32_lookup3 0 [] = 0xdeadbeef.
Proof. reflexivity. Qed.

Example fnv64_a : ina_hash_64_fnv 0 (bytes_of_string "a") = 0xaf63dc4c8601ec8c.
Proof. vm_compute. reflexivity. Qed.

(** ** SpookyHash

    The twelve (or four) variables are a list indexed modulo its length; each
    line of the mixing macros is the same step at the next index, with the
    rotation of its line. *)

Definition SC_CONST : Z := 0xdeadbeefdeadbeef.
Definition SC_NUMVARS : Z := 12.
Definition SC_BLOCKSIZE : Z := 8 * SC_NUMVARS.
Definition SC_BUFSIZE : Z := 2 * SC_BLOCKSIZE.

Definition var (s : list Z) (i : Z) : Z := nthZ 0 s (i mod size_of s).
Definition set_var (s : list Z) (i v : Z) : list Z := <[Z.to_nat (i mod size_of s) := v]> s.
Definition add_to (i j : Z) (s : list Z) : list Z := set_var s i (var s i +₆₄ var s j).
Definition xor_to (i j : Z) (s : list Z) : list Z := set_var s i (Z.lxor (var s i) (var s j)).
Definition rot_by (i k : Z) (s : list Z) : list Z := set_var s i (rot64 (var s i) k).

(** The lines of a macro, numbered from zero, with their rotations. *)
Fixpoint lines (f : Z -> Z -> list Z -> list Z) (i : Z) (ks : list Z) (s : list Z) : list Z :=
  match ks with [] => s | k :: ks => lines f (i + 1) ks (f i k s) end.

(** [__ina_hash_spooky_mix] *)
Definition spooky_mix (data : list Z) (s : list Z) : list Z :=
  lines (fun i k s =>
    let s := set_var s i (var s i +₆₄ read64 data (8 * i)) in
    let s := xor_to (i + 2) (i + 10) s in
    let s := xor_to (i + 11) i s in
    let s := rot_by i k s in
    add_to (i + 11) (i + 1) s)
    0 [11; 32; 43; 31; 17; 28; 39; 57; 55; 54; 22; 46] s.

(** [__ina_hash_spooky_endPartial] and [__ina_hash_spooky_end] *)
Definition spooky_endPartial (s : list Z) : list Z :=
  lines (fun i k s =>
    let s := add_to (i + 11) (i + 1) s in
    let s := xor_to (i + 2) (i + 11) s in
    rot_by (i + 1) k s)
    0 [44; 15; 34; 21; 38; 33; 10; 13; 38; 53; 42; 54] s.

Definition spooky_end (s : list Z) : list Z :=
  spooky_endPartial (spooky_endPartial (spooky_endPartial s)).

(** [__ina_hash_spooky_short_mix] *)
Definition spooky_short_mix (s : list Z) : list Z :=
  lines (fun i k s =>
    let s := rot_by (i + 2) k s in
    let s := add_to (i + 2) (i + 3) s in
    xor_to i (i + 2) s)
    0 [50; 52; 30; 41; 54; 48; 38; 37; 62; 34; 5; 36] s.

(** [__ina_hash_spooky_short_end] *)
Definition spooky_short_end (s : list Z) : list Z :=
  lines (fun i k s =>
    let s := xor_to (i + 3) (i + 2) s in
    let s := rot_by (i + 2) k s in
    add_to (i + 3) (i + 2) s)
    0 [15; 52; 26; 51; 28; 9; 47; 54; 32; 25; 63] s.

(** [c += ..; d += ..] and [a += ..; b += ..] *)
Definition add_cd (x y : Z) (s : list Z) : list Z :=
  set_var (set_var s 2 (var s 2 +₆₄ x)) 3 (var s 3 +₆₄ y).
Definition add_ab (x y : Z) (s : list Z) : list Z :=
  set_var (set_var s 0 (var s 0 +₆₄ x)) 1 (var s 1 +₆₄ y).

(** A loop that consumes [w] bytes of [p] in each of its [n] rounds. *)
Fixpoint rounds (f : list Z -> list Z -> list Z) (w n : nat) (p : list Z) (s : list Z)
    : list Z * list Z :=
  match n with
  | O => (p, s)
  | S n => rounds f w n (drop w p) (f p s)
  end.

(** All complete sets of 32 bytes. *)
Definition spooky_short_round (p s : list Z) : list Z :=
  let s := add_cd (read64 p 0) (read64 p 8) s in
  let s := spooky_short_mix s in
  add_ab (read64 p 16) (read64 p 24) s.
Definition spooky_short_loop : nat -> list Z -> list Z -> list Z * list Z :=
  rounds spooky_short_round 32.

(** What the [switch (remainder)] adds to [c] and [d]. *)
Definition spooky_short_tail (p : list Z) (remainder : Z) : Z * Z :=
  let p8 i := byte_at p i in
  if 12 <=? remainder then
    (read64 p 0,
     read32 p 8 + (if 13 <=? remainder then p8 12 * 2 ^ 32 else 0)
     + (if 14 <=? remainder then p8 13 * 2 ^ 40 else 0)
     + (if 15 <=? remainder then p8 14 * 2 ^ 48 else 0))
  else if 8 <=? remainder then
    (read64 p 0,
     (if 9 <=? remainder then p8 8 else 0) + (if 10 <=? remainder then p8 9 * 2 ^ 8 else 0)
     + (if 11 <=? remainder then p8 10 * 2 ^ 16 else 0))
  else if 4 <=? remainder then
    (read32 p 0 + (if 5 <=? remainder then p8 4 * 2 ^ 32 else 0)
     + (if 6 <=? remainder then p8 5 * 2 ^ 40 else 0)
     + (if 7 <=? remainder then p8 6 * 2 ^ 48 else 0), 0)
  else if 1 <=? remainder then
    (p8 0 + (if 2 <=? remainder then p8 1 * 2 ^ 8 else 0)
     + (if 3 <=? remainder then p8 2 * 2 ^ 16 else 0), 0)
  else (SC_CONST, SC_CONST).

(** [__ina_hash_spooky_shorthash]; [d] is overwritten with the length before
    the last bytes are added. *)
Definition spooky_shorthash (message : list Z) (hash1 hash2 : Z) : Z * Z :=
  let length_ := size_of message in
  let remainder := length_ mod 32 in
  let s := [hash1; hash2; SC_CONST; SC_CONST] in
  let '(p, s, remainder) :=
    if 15 <? length_ then
      let '(p, s) := spooky_short_loop (Z.to_nat (length_ / 32)) message s in
      if 16 <=? remainder then
        (drop 16 p, spooky_short_mix (add_cd (read64 p 0) (read64 p 8) s), remainder - 16)
      else (p, s, remainder)
    else (message, s, remainder) in
  let s := set_var s 3 (shl 64 length_ 56) in
  let '(x, y) := spooky_short_tail p remainder in
  let s := spooky_short_end (add_cd x y s) in
  (var s 0, var s 1).

(** All whole blocks of [SC_BLOCKSIZE] bytes. *)
Definition spooky_blocks : nat -> list Z -> list Z -> list Z * list Z :=
  rounds spooky_mix (Z.to_nat SC_BLOCKSIZE).

(** [__ina_hash_spooky_hash128] *)
Definition spooky_hash128 (message : list Z) (hash1 hash2 : Z) : Z * Z :=
  let length_ := size_of message in
  if length_ <? SC_BUFSIZE then spooky_shorthash message hash1 hash2 else
  let s := [hash1; hash2; SC_CONST; hash1; hash2; SC_CONST;
            hash1; hash2; SC_CONST; hash1; hash2; SC_CONST] in
  let '(p, s) := spooky_blocks (Z.to_nat (length_ / SC_BLOCKSIZE)) message s in
  let remainder := size_of p in
  let buf := p ++ repeat 0 (Z.to_nat (SC_BLOCKSIZE - remainder)) in
  let buf := <[Z.to_nat (SC_BLOCKSIZE - 1) := u8 remainder]> buf in
  let s := spooky_end (spooky_mix buf s) in
  (var s 0, var s 1).

Definition ina_hash_64_spooky (hash : Z) (data : list Z) : Z :=
  fst (spooky_hash128 data hash hash).
Definition ina_hash_32_spooky (hash : Z) (data : list Z) : Z :=
  u32 (fst (spooky_hash128 data hash hash)).

(** ** Names *)

(** [ina_hash_type_e] without its default, which is -1. *)
Inductive ina_hash_type_t : Set :=
  | INA_HASH32_CRC
  | INA_HASH32_LOOKUP3
  | INA_HASH32_DJB
  | INA_HASH32_JENKINS_OOAT
  | INA_HASH32_FNV
  | INA_HASH32_SUPERFAST
  | INA_HASH32_SDBM
  | INA_HASH32_FNV_YOSHIMITSU
  | INA_HASH32_MURMUR3
  | INA_HASH32_SPOOKY
  | INA_HASH32_XXHASH
  | INA_HASH32_CRC_HW
  | INA_HASH32_MEMMASH
  | INA_HASH32_FALKHASH
  | INA_HASH32_T1HA0
  | INA_HASH32_T1HA1
  | INA_HASH64_LOCKUP3
  | INA_HASH64_FNV
  | INA_HASH64_SPOOKY
  | INA_HASH64_XXHASH
  | INA_HASH64_CRC_HW
  | INA_HASH64_MEMMASH
  | INA_HASH64_FALKHASH
  | INA_HASH64_T1HA0
  | INA_HASH64_T1HA1.

Definition all_hash_types : list ina_hash_type_t :=
  [INA_HASH32_CRC;
   INA_HASH32_LOOKUP3;
   INA_HASH32_DJB;
   INA_HASH32_JENKINS_OOAT;
   INA_HASH32_FNV;
   INA_HASH32_SUPERFAST;
   INA_HASH32_SDBM;
   INA_HASH32_FNV_YOSHIMITSU;
   INA_HASH32_MURMUR3;
   INA_HASH32_SPOOKY;
   INA_HASH32_XXHASH;
   INA_HASH32_CRC_HW;
   INA_HASH32_MEMMASH;
   INA_HASH32_FALKHASH;
   INA_HASH32_T1HA0;
   INA_HASH32_T1HA1;
   INA_HASH64_LOCKUP3;
   INA_HASH64_FNV;
   INA_HASH64_SPOOKY;
   INA_HASH64_XXHASH;
   INA_HASH64_CRC_HW;
   INA_HASH64_MEMMASH;
   INA_HASH64_FALKHASH;
   INA_HASH64_T1HA0;
   INA_HASH64_T1HA1].

Definition hash_names : list string :=
  ["crc32"; "lockup332"; "djb"; "jenkins_ooat"; "fnv32"; "superfast"; "sdbm"; "fnv_yoshimitsu"; "murmur3"; "spooky32"; "xxhash32"; "crc_hw32"; "memmash32"; "falkhash32"; "t1ha032"; "t1ha132"; "lockup364"; "fnv64"; "spooky64"; "xxhash64"; "crc_hw64"; "memmash64"; "falkhash64"; "t1ha064"; "t1ha164"]%string.

(** The enumeration as an integer, as the code uses it. *)
Definition hash_type_number (t : ina_hash_type_t) : Z :=
  match t with
  | INA_HASH32_CRC => 0
  | INA_HASH32_LOOKUP3 => 1
  | INA_HASH32_DJB => 2
  | INA_HASH32_JENKINS_OOAT => 3
  | INA_HASH32_FNV => 4
  | INA_HASH32_SUPERFAST => 5
  | INA_HASH32_SDBM => 6
  | INA_HASH32_FNV_YOSHIMITSU => 7
  | INA_HASH32_MURMUR3 => 8
  | INA_HASH32_SPOOKY => 9
  | INA_HASH32_XXHASH => 10
  | INA_HASH32_CRC_HW => 11
  | INA_HASH32_MEMMASH => 12
  | INA_HASH32_FALKHASH => 13
  | INA_HASH32_T1HA0 => 14
  | INA_HASH32_T1HA1 => 15
  | INA_HASH64_LOCKUP3 => 16
  | INA_HASH64_FNV => 17
  | INA_HASH64_SPOOKY => 18
  | INA_HASH64_XXHASH => 19
  | INA_HASH64_CRC_HW => 20
  | INA_HASH64_MEMMASH => 21
  | INA_HASH64_FALKHASH => 22
  | INA_HASH64_T1HA0 => 23
  | INA_HASH64_T1HA1 => 24
  end.

Definition ina_hash_name (hash_type : Z) : string :=
  if (hash_type <? 0) || (hash_type_number INA_HASH64_T1HA1 <? hash_type) then "unknown"%string
  else List.nth (Z.to_nat hash_type) hash_names EmptyString.

Fixpoint find_name (hash_name : string) (i : Z) (names : list string) : option Z :=
  match names with
  | [] => None
  | n :: names => if String.eqb hash_name n then Some i else find_name hash_name (i + 1) names
  end.

(** [ina_hash_type]: [None] is a null argument. *)
Definition ina_hash_type (hash_name : option string) (hash_type_null : bool) : result Z :=
  match hash_name with
  | None => Err INA_ERR_INVALID_ARGUMENT
  | Some hash_name =>
      if hash_type_null then Err INA_ERR_INVALID_ARGUMENT else
      match find_name hash_name 0 hash_names with
      | Some i => Ok i
      | None => Err (INA_ERR_NOT_ E_EXISTS)
      end
  end.

(** ** CRC: the table computes the bitwise division *)

(** One step of the division by the reflected polynomial. *)
Definition crc_bit (c : Z) : Z :=
  Z.lxor (Z.shiftr c 1) (if Z.testbit c 0 then 0xedb88320 else 0).

Definition crc_byte (hash b : Z) : Z := Nat.iter 8 crc_bit (Z.lxor hash b).

(** The CRC defined bit by bit. *)
Definition crc32_reference (hash : Z) (data : list Z) : Z :=
  Z.lxor (fold_left crc_byte data (Z.lxor hash 0xFFFFFFFF)) 0xFFFFFFFF.

Lemma crc_bit_high a b n :
  0 <= n -> crc_bit (Z.lxor a (Z.shiftl b (n + 1))) = Z.lxor (crc_bit a) (Z.shiftl b n).
Proof.
  intros Hn. unfold crc_bit.
  assert (Z.testbit (Z.lxor a (Z.shiftl b (n + 1))) 0 = Z.testbit a 0) as ->.
  { autorewrite with bits. rewrite (Z.testbit_neg_r b) by lia. apply xorb_false_r. }
  rewrite Z.shiftr_lxor. rewrite (Z.shiftr_shiftl_l b (n + 1) 1) by lia.
  replace (n + 1 - 1) with n by lia.
  rewrite !Z.lxor_assoc. f_equal. apply Z.lxor_comm.
Qed.

Lemma crc_bits_high k a b :
  Nat.iter k crc_bit (Z.lxor a (Z.shiftl b (Z.of_nat k))) = Z.lxor (Nat.iter k crc_bit a) b.
Proof.
  revert a. induction k as [|k IH]; intros a; [done|].
  rewrite !Nat.iter_succ_r, Nat2Z.inj_succ. unfold Z.succ. by rewrite crc_bit_high, IH by lia.
Qed.

Lemma crc32_tab_spec i : 0 <= i < 256 -> nthZ 0 crc32_tab i = Nat.iter 8 crc_bit i.
Proof.
  intros Hi.
  assert (forallb (fun i => nthZ 0 crc32_tab i =? Nat.iter 8 crc_bit i) (seqZ 0 256) = true) as H
    by (vm_compute; reflexivity).
  rewrite forallb_forall in H. apply Z.eqb_eq, H.
  apply list_elem_of_In, elem_of_seqZ. lia.
Qed.

Lemma crc32_step_byte h b : is_byte b -> crc32_step h b = crc_byte h b.
Proof.
  intros Hb. unfold crc32_step, crc_byte.
  set (x := Z.lxor h b).
  assert (x = Z.lxor (Z.land x 0xFF) (Z.shiftl (Z.shiftr x 8) (Z.of_nat 8))) as Hx.
  { change 0xFF with (Z.ones 8). change (Z.of_nat 8) with 8.
    apply Z_bits_ext. intros i Hi. autorewrite with bits.
    destruct (Z.ltb_spec i 8).
    - rewrite (Z.testbit_neg_r _ (i - 8)) by lia. by rewrite andb_true_r, xorb_false_r.
    - rewrite andb_false_r, Z.shiftr_spec by lia. simpl. f_equal. lia. }
  rewrite Hx at 2. rewrite crc_bits_high, crc32_tab_spec.
  - f_equal. unfold x. rewrite Z.shiftr_lxor.
    assert (Z.shiftr b 8 = 0) as ->; [|by rewrite Z.lxor_0_r].
    apply Z.shiftr_eq_0_iff. unfold in_width in Hb. 
    destruct (decide (b = 0)); [by left|right]. split; [lia|]. apply Z.log2_lt_pow2; lia.
  - change 0xFF with (Z.ones 8). rewrite Z.land_ones by lia. by apply Z.mod_pos_bound.
Qed.

Lemma fold_left_ext_Forall {A B} (P : B -> Prop) (f g : A -> B -> A) l a :
  Forall P l -> (forall a b, P b -> f a b = g a b) -> fold_left f l a = fold_left g l a.
Proof. intros Hl Hfg. revert a. induction Hl; intros a; simpl; [done|]. by rewrite Hfg. Qed.

(** ** Ranges *)

(** What a client of a hash function relies on: on bytes and a seed of the
    function's width the result has that width. *)
Class HashRange (w : Z) (h : Z -> list Z -> Z) : Prop :=
  hash_range seed data : in_width w seed -> Forall is_byte data -> in_width w (h seed data).

Lemma lxor_mask32 h : in_width 32 h -> in_width 32 (Z.lxor h 0xFFFFFFFF).
Proof. intros. apply lxor_in_width; [lia|done|]. unfold in_width. lia. Qed.

Lemma rotl32_in_width x r : 0 <= r <= 32 -> in_width 32 x -> in_width 32 (rotl32 x r).
Proof. intros. unfold rotl32. auto with word. Qed.

Lemma rot64_in_width x r : 0 <= r <= 64 -> in_width 64 x -> in_width 64 (rot64 x r).
Proof. intros. unfold rot64. auto with word. Qed.

Lemma byte_width32 b : is_byte b -> in_width 32 b.
Proof. by apply in_width_mono. Qed.

Lemma byte_at_range data i : Forall is_byte data -> is_byte (byte_at data i).
Proof.
  intros Hd. unfold byte_at, nthZ. destruct (nth_in_or_default (Z.to_nat i) data 0) as [Hin| ->].
  - rewrite List.Forall_forall in Hd. by apply Hd.
  - unfold in_width. lia.
Qed.

#[export] Instance crc32_range : HashRange 32 ina_hash_crc32.
Proof.
  intros seed data Hs Hd. unfold ina_hash_crc32. apply lxor_mask32.
  apply (fold_left_invariant (in_width 32) is_byte); [by apply lxor_mask32|done|].
  intros h b Hh Hb. unfold crc32_step. apply lxor_in_width; [lia| |auto with word].
  change 0xFF with (Z.ones 8). rewrite Z.land_ones by lia.
  assert (forallb (fun i => bool_decide (in_width 32 (nthZ 0 crc32_tab i))) (seqZ 0 256) = true) as H
    by (vm_compute; reflexivity).
  rewrite forallb_forall in H. apply (bool_decide_eq_true_1 _), H.
  apply list_elem_of_In, elem_of_seqZ.
  pose proof (Z.mod_pos_bound (Z.lxor h b) (2 ^ 8)). lia.
Qed.

Ltac fold_range :=
  intros seed data Hs Hd;
  match goal with
  | |- in_width ?w (?h seed data) => unfold h
  end;
  try apply (fold_left_invariant (in_width 32) is_byte); auto with word.

#[export] Instance sdbm_range : HashRange 32 ina_hash_sdbm.
Proof. fold_range. Qed.
#[export] Instance sdbm32_range : HashRange 32 ina_hash_32_sdbm.
Proof. fold_range. Qed.
#[export] Instance djb_range : HashRange 32 ina_hash_32_djb.
Proof. fold_range. Qed.
#[export] Instance jenkins_range : HashRange 32 ina_hash_32_jenkins_ooat.
Proof. intros seed data _ _. apply wrap_in_width. lia. Qed.
#[export] Instance fnv32_range : HashRange 32 ina_hash_32_fnv.
Proof. fold_range. apply lxor_in_width; [lia|done|]. unfold in_width. lia. Qed.
#[export] Instance fnv64_range : HashRange 64 ina_hash_64_fnv.
Proof.
  intros seed data Hs Hd. apply (fold_left_invariant (in_width 64) is_byte); auto with word.
  apply lxor_in_width; [lia|done|]. unfold in_width. lia.
Qed.
#[export] Instance superfast_range : HashRange 32 ina_hash_32_superfast.
Proof.
  intros seed data _ _. unfold ina_hash_32_superfast.
  destruct (size_of data <=? 0); [unfold in_width; lia|].
  destruct superfast_loop. apply wrap_in_width. lia.
Qed.
#[export] Instance yoshimitsu_range : HashRange 32 ina_hash_32_fnv_yoshimitsu.
Proof.
  intros seed data _ _. unfold ina_hash_32_fnv_yoshimitsu.
  destruct yoshi_loop as [? [[? ?] ?]].
  repeat (case_match; simplify_eq); auto with word.
Qed.

(** ** MurmurHash 3: the incremental computation

    The specification keeps the pending bytes of the current block as a list;
    the code keeps them in the high bytes of [carry], whose other bytes are
    left over from earlier blocks. *)
Definition le_value (bs : list Z) : Z := fold_right (fun b acc => b + 2 ^ 8 * acc) 0 bs.

Definition murmur_feed (s : Z * list Z) (x : Z) : Z * list Z :=
  let '(h, pending) := s in
  if size_of pending =? 3 then (doblock h (le_value (pending ++ [x])), [])
  else (h, pending ++ [x]).

Definition murmur_finish (s : Z * list Z) (total_length : Z) : Z :=
  let '(h, pending) := s in
  let h := match pending with [] => h | _ => Z.lxor h (murmur_k (le_value pending)) end in
  fmix (Z.lxor h total_length).

(** The published algorithm: whole blocks, then the tail. *)
Fixpoint murmur_blocks (h : Z) (data : list Z) : Z * list Z :=
  match data with
  | a :: b :: c :: d :: rest => murmur_blocks (doblock h (le_value [a; b; c; d])) rest
  | tail => (h, tail)
  end.

Definition murmur3_reference (seed : Z) (data : list Z) : Z :=
  murmur_finish (murmur_blocks seed data) (u32 (size_of data)).

Lemma murmur_feed_blocks data h : fold_left murmur_feed data (h, []) = murmur_blocks h data.
Proof.
  revert h.
  enough (forall n data h, (length data <= n)%nat ->
    fold_left murmur_feed data (h, []) = murmur_blocks h data) by eauto.
  clear data. induction n as [|n IH]; intros [|a [|b [|c [|d l]]]] h Hl; simpl in *; try done; try lia.
  apply IH. lia.
Qed.

(** [(c, n)] holds the pending bytes. *)
Definition carries (c n : Z) (pending : list Z) : Prop :=
  n = size_of pending /\ n <= 3 /\ in_width 32 c /\
  (n <> 0 -> Z.shiftr c ((4 - n) * 8) = le_value pending).

Lemma le_value_app p q : le_value (p ++ q) = le_value p + 2 ^ (8 * size_of p) * le_value q.
Proof.
  induction p as [|b p IH]; [simpl; unfold size_of; simpl; lia|].
  unfold size_of in *. cbn [app le_value fold_right length] in *.
  fold (le_value (p ++ q)) (le_value p). rewrite IH, Nat2Z.inj_succ.
  replace (8 * Z.succ (Z.of_nat (length p))) with (8 + 8 * Z.of_nat (length p)) by lia.
  rewrite Z.pow_add_r by lia. lia.
Qed.

Lemma carry_push c n pending x :
  carries c n pending -> is_byte x ->
  in_width 32 (Z.lor (Z.shiftr c 8) (shl 32 x 24)) /\
  Z.shiftr (Z.lor (Z.shiftr c 8) (shl 32 x 24)) ((3 - n) * 8) = le_value (pending ++ [x]).
Proof.
  intros (Hn & Hn3 & Hc & Hp) Hx.
  assert (Z.lor (Z.shiftr c 8) (shl 32 x 24) = x * 2 ^ 24 + c / 2 ^ 8) as ->.
  { unfold shl. rewrite wrap_small.
    - rewrite Z.lor_comm, lor_shiftl_add; rewrite ?Z.shiftr_div_pow2 by lia; try lia.
      unfold in_width in *. dlia.
    - unfold in_width in *. rewrite Z.shiftl_mul_pow2 by lia. lia. }
  rewrite le_value_app, <- Hn. cbn [le_value fold_right].
  assert (n = 0 \/ n = 1 \/ n = 2 \/ n = 3) as Hcases by (unfold size_of in Hn; lia).
  unfold in_width in *. change (2 ^ 8) with 256 in *. change (2 ^ 24) with 16777216.
  change (2 ^ 32) with 4294967296 in *.
  split; [dlia|].
  destruct Hcases as [-> | [-> | [-> | ->]]];
    rewrite Z.shiftr_div_pow2 by lia;
    try (specialize (Hp ltac:(lia)); rewrite Z.shiftr_div_pow2 in Hp by lia; rewrite <- Hp; clear Hp).
  - destruct pending; [|unfold size_of in Hn; simpl in Hn; lia].
    change (2 ^ ((3 - 0) * 8)) with 16777216. simpl. dlia.
  - change (2 ^ ((3 - 1) * 8)) with 65536. change (2 ^ ((4 - 1) * 8)) with 16777216.
    change (2 ^ (8 * 1)) with 256. dlia.
  - change (2 ^ ((3 - 2) * 8)) with 256. change (2 ^ ((4 - 2) * 8)) with 65536.
    change (2 ^ (8 * 2)) with 65536. dlia.
  - change (2 ^ ((3 - 3) * 8)) with 1. change (2 ^ ((4 - 3) * 8)) with 256.
    change (2 ^ (8 * 3)) with 16777216. dlia.
Qed.

Lemma murmur_k_in_width k : in_width 32 (murmur_k k).
Proof. unfold murmur_k. auto with word. Qed.

Lemma carries_nil c : in_width 32 c -> carries c 0 [].
Proof. intros. split_and!; [done|lia|done|lia]. Qed.

Lemma dobyte_feed h c n pending x :
  carries c n pending -> is_byte x ->
  exists c' n' pending' h',
    dobyte (h, c, n) x = (h', c', n') /\ murmur_feed (h, pending) x = (h', pending') /\
    carries c' n' pending'.
Proof.
  intros Hc Hx. destruct (carry_push c n pending x Hc Hx) as [Hw Hp].
  destruct Hc as (Hn & Hn3 & _ & _). unfold dobyte, murmur_feed. rewrite <- Hn.
  set (c' := Z.lor (Z.shiftr c 8) (shl 32 x 24)) in *.
  destruct (Z.eqb_spec n 3) as [->|Hne].
  - change (3 + 1 =? 4) with true. simpl in Hp. rewrite <- Hp.
    eexists _, _, _, _. split_and!; [done|by rewrite Z.shiftr_0_r|].
    apply carries_nil, murmur_k_in_width.
  - destruct (Z.eqb_spec (n + 1) 4); [lia|].
    eexists _, _, _, _. split_and!; [done..|]. split_and!.
    + unfold size_of in *. rewrite length_app. simpl. lia.
    + lia.
    + done.
    + intros _. rewrite <- Hp. f_equal. lia.
Qed.

Lemma dobytes_feed xs h c n pending :
  carries c n pending -> Forall is_byte xs ->
  exists c' n' pending' h',
    dobytes xs (h, c, n) = (h', c', n') /\ fold_left murmur_feed xs (h, pending) = (h', pending') /\
    carries c' n' pending'.
Proof.
  intros Hc Hxs. revert h c n pending Hc.
  unfold dobytes. induction Hxs as [|x xs Hx _ IH]; intros h c n pending Hc; cbn [fold_left].
  { by eauto 10. }
  destruct (dobyte_feed h c n pending x Hc Hx) as (c' & n' & p' & h' & -> & -> & Hc').
  by apply IH.
Qed.

Lemma doblocks_feed fuel ptr h ptr' h' :
  (length ptr <= fuel)%nat -> doblocks fuel ptr h = (ptr', h') ->
  murmur_blocks h ptr = murmur_blocks h' ptr' /\ size_of ptr' < 4 /\
  exists done, ptr = done ++ ptr'.
Proof.
  revert ptr h. induction fuel as [|fuel IH]; intros ptr h Hl; simpl.
  - intros [= <- <-]. split_and!; [done| |by exists []]. unfold size_of. lia.
  - destruct (Z.ltb_spec (size_of ptr) 4) as [Hs|Hs].
    + intros [= <- <-]. split_and!; [done|done|by exists []].
    + destruct ptr as [|a [|b [|c [|d l]]]]; try (unfold size_of in Hs; simpl in Hs; lia).
      change (drop 4 (a :: b :: c :: d :: l)) with l. intros Hd. simpl in Hl.
      apply IH in Hd as (Heq & ? & dn & ->); [|lia].
      split_and!; [|done|by exists (a :: b :: c :: d :: dn)].
      rewrite <- Heq. simpl murmur_blocks. do 2 f_equal.
      unfold read32, byte_at, nthZ. simpl. lia.
Qed.

Lemma feed_short_blocks h ptr :
  size_of ptr < 4 -> murmur_blocks h ptr = (h, ptr).
Proof. destruct ptr as [|a [|b [|c [|d l]]]]; unfold size_of; simpl; try done; lia. Qed.

Lemma carry_pack c n pending :
  carries c n pending ->
  in_width 32 (Z.lor (Z.land c 0xffffff00) n) /\
  Z.land (Z.lor (Z.land c 0xffffff00) n) 3 = n /\
  (n <> 0 -> Z.shiftr (Z.lor (Z.land c 0xffffff00) n) ((4 - n) * 8) = le_value pending).
Proof.
  intros (Hn & Hn3 & Hc & Hp).
  assert (in_width 2 n) as Hn2 by (unfold in_width, size_of in *; lia).
  split_and!.
  - apply lor_in_width; [lia|apply land_in_width_l; [lia|done]|]. unfold in_width in *. lia.
  - change 3 with (Z.ones 2). change 0xffffff00 with (Z.shiftl (Z.ones 24) 8).
    apply Z_bits_ext. intros i Hi. autorewrite with bits.
    destruct (Z.ltb_spec i 2); rewrite ?andb_true_r, ?andb_false_r.
    + rewrite (Z.testbit_neg_r _ (i - 8)), andb_false_r by lia. done.
    + symmetry. by apply (in_width_high_bits 2).
  - intros Hn0. rewrite <- Hp by done.
    change 0xffffff00 with (Z.shiftl (Z.ones 24) 8).
    apply Z_bits_ext. intros i Hi. rewrite !Z.shiftr_spec, Z.lor_spec, Z.land_spec by done.
    unfold in_width in Hn2.
    rewrite (in_width_high_bits 2 n) by (try done; lia). rewrite orb_false_r.
    destruct (decide (i + (4 - n) * 8 < 32)).
    + rewrite Z.shiftl_spec, ones_testbit by lia.
      destruct (Z.ltb_spec (i + (4 - n) * 8 - 8) 24); [|lia]. apply andb_true_r.
    + rewrite (in_width_high_bits 32 c) by (try done; lia). done.
Qed.

(** The words [(h, carry)] represent the incremental state [(h, pending)]. *)
Definition murmur_rep (h carry : Z) (s : Z * list Z) : Prop :=
  h = fst s /\ carries carry (Z.land carry 3) (snd s).

Lemma land_3_range x : 0 <= Z.land x 3 <= 3.
Proof. change 3 with (Z.ones 2) at 1 2. rewrite Z.land_ones by lia. pose proof (Z.mod_pos_bound x (2 ^ 2)). simpl in *. lia. Qed.

Lemma feed_fills xs h pending :
  size_of pending + size_of xs = 4 -> size_of pending < 4 -> 
  exists h', fold_left murmur_feed xs (h, pending) = (h', []).
Proof.
  revert pending. induction xs as [|x xs IH]; intros pending Hs Hlt.
  { unfold size_of in *. simpl in *. lia. }
  cbn [fold_left]. unfold murmur_feed at 2.
  destruct (Z.eqb_spec (size_of pending) 3) as [H3|H3].
  - destruct xs; [by eexists|]. unfold size_of in *. simpl in *. lia.
  - apply IH; unfold size_of in *; rewrite length_app; simpl in *; lia.
Qed.

(** The first two stages of the function: fill up the pending block and
    consume the whole blocks; then the remaining bytes. *)
Lemma process_feed h carry s key :
  murmur_rep h carry s -> Forall is_byte key ->
  let '(h', carry') := PMurHash32_Process h carry key in
  murmur_rep h' carry' (fold_left murmur_feed key s).
Proof.
  destruct s as [h0 pending]. intros [[= ->] Hc] Hkey. simpl in Hc. unfold PMurHash32_Process.
  pose proof (land_3_range carry) as Hn. set (n := Z.land carry 3) in *.
  assert (Hi : Z.land (4 - n) 3 = if n =? 0 then 0 else 4 - n).
  { assert (n = 0 \/ n = 1 \/ n = 2 \/ n = 3) as [-> | [-> | [-> | ->]]] by lia; done. }
  set (i := Z.land (4 - n) 3) in *.
  set (filled := if negb (i =? 0) && (i <=? size_of key) then _ else _).
  assert (exists ptr pre h1 c1 n1 pending1,
    filled = (ptr, (h1, c1, n1)) /\ key = pre ++ ptr /\ carries c1 n1 pending1 /\
    fold_left murmur_feed pre (h0, pending) = (h1, pending1) /\
    (pending1 = [] \/ size_of ptr < 4)) as (ptr & pre & h1 & c1 & n1 & pending1 & -> & -> & Hc1 & Hf1 & Hp1).
  { subst filled. destruct (negb (i =? 0) && (i <=? size_of key)) eqn:Hb.
    - apply andb_true_iff in Hb as [Hb1 Hb2]. apply Z.leb_le in Hb2.
      apply negb_true_iff, Z.eqb_neq in Hb1.
      destruct (Z.eqb_spec n 0); [congruence|].
      destruct (dobytes_feed (take (Z.to_nat i) key) h0 carry n pending Hc) as (c' & n' & p' & h' & -> & Hf & Hc').
      { by apply Forall_take. }
      destruct (feed_fills (take (Z.to_nat i) key) h0 pending) as [h'' Hh''].
      { destruct Hc as [Hc _]. rewrite <- Hc, Hi. unfold size_of in *. rewrite length_take_le; lia. }
      { destruct Hc as [Hc _]. lia. }
      eexists _, _, _, _, _, _. split_and!; [done|symmetry; apply take_drop|done|done|left; congruence].
    - eexists _, [], _, _, _, _. split_and!; [done|done|done|done|].
      apply andb_false_iff in Hb as [Hb|Hb].
      + apply negb_false_iff, Z.eqb_eq in Hb. left. destruct Hc as [Hc _].
        destruct pending; [done|]. unfold size_of in Hc. simpl in Hc.
        destruct (Z.eqb_spec n 0); lia.
      + apply Z.leb_gt in Hb. right. destruct (Z.eqb_spec n 0); lia. }
  clear Hc. apply Forall_app in Hkey as [_ Hptr].
  rewrite fold_left_app, Hf1.
  destruct (doblocks (length ptr) ptr h1) as [ptr' h2] eqn:Hd.
  assert (Forall is_byte ptr' /\ fold_left murmur_feed ptr (h1, pending1) =
    fold_left murmur_feed ptr' (h2, pending1)) as [Hptr' ->].
  { apply doblocks_feed in Hd as Hd'; [|done]. destruct Hd' as (Heq & Hs & dn & Hdn).
    split; [rewrite Hdn in Hptr; by apply Forall_app in Hptr as [_ ?]|].
    destruct Hp1 as [-> | Hp1]; [by rewrite !murmur_feed_blocks|].
    destruct (length ptr); simpl in Hd; [congruence|].
    destruct (Z.ltb_spec (size_of ptr) 4); [congruence|lia]. }
  destruct (dobytes_feed ptr' h2 c1 n1 pending1 Hc1 Hptr') as (c2 & n2 & p2 & h3 & -> & -> & Hc2).
  destruct (carry_pack c2 n2 p2 Hc2) as (? & Hn2 & ?).
  split; [done|]. rewrite Hn2. destruct Hc2 as (? & ? & _ & _). by split_and!.
Qed.

Lemma result_finish h carry s total_length :
  murmur_rep h carry s -> PMurHash32_Result h carry total_length = murmur_finish s total_length.
Proof.
  destruct s as [h0 pending]. intros [[= ->] (Hn & Hn3 & _ & Hp)].
  unfold PMurHash32_Result, murmur_finish.
  destruct (Z.eqb_spec (Z.land carry 3) 0) as [H0|H0].
  - destruct pending; [done|]. unfold size_of in *. simpl in *. lia.
  - rewrite Hp by done. destruct pending; [|done]. unfold size_of in *. simpl in *. lia.
Qed.

Lemma murmur_rep_init seed : murmur_rep seed 0 (seed, []).
Proof. split; [done|]. apply carries_nil. unfold in_width. lia. Qed.

Lemma murmur_process_all parts h c s :
  murmur_rep h c s -> Forall (Forall is_byte) parts ->
  let '(h, carry) :=
    fold_left (fun s key => PMurHash32_Process (fst s) (snd s) key) parts (h, c) in
  murmur_rep h carry (fold_left murmur_feed (concat parts) s).
Proof.
  intros Hr Hp. revert h c s Hr.
  induction Hp as [|key parts Hk _ IH]; intros h c s Hr; [done|].
  cbn [fold_left concat fst snd]. rewrite fold_left_app.
  pose proof (process_feed h c s key Hr Hk) as Hpf.
  destruct (PMurHash32_Process h c key) as [h' c']. by apply IH.
Qed.

(** The streaming MurmurHash3: feeding the data to
    [__ina_hash_PMurHash32_Process] in any number of pieces and asking for the
    result gives the published block algorithm on the whole data, whatever
    the split (a block may straddle several pieces). *)
Theorem murmur3_streaming seed parts :
  Forall (Forall is_byte) parts ->
  let '(h, carry) :=
    fold_left (fun s key => PMurHash32_Process (fst s) (snd s) key) parts (seed, 0) in
  PMurHash32_Result h carry (u32 (size_of (concat parts))) = murmur3_reference seed (concat parts).
Proof.
  intros Hp. pose proof (murmur_process_all parts _ _ _ (murmur_rep_init seed) Hp) as H.
  destruct (fold_left _ parts (seed, 0)) as [h carry].
  rewrite murmur_feed_blocks in H. by apply result_finish.
Qed.

Lemma murmur3_streaming_witness :
  let parts := [[104; 101]; [108; 108; 111]; []; [33; 33; 33; 33; 33; 33]] in
  Forall (Forall is_byte) parts /\
  let '(h, carry) :=
    fold_left (fun s key => PMurHash32_Process (fst s) (snd s) key) parts (7, 0) in
  PMurHash32_Result h carry (u32 (size_of (concat parts))) = murmur3_reference 7 (concat parts).
Proof.
  assert (Forall (Forall is_byte) [[104; 101]; [108; 108; 111]; []; [33; 33; 33; 33; 33; 33]]) as H
    by (apply (bool_decide_eq_true_1 _); vm_compute; reflexivity).
  split; [exact H|]. exact (murmur3_streaming 7 _ H).
Defined.

Lemma murmur3_eval seed data :
  Forall is_byte data -> ina_hash_32_murmur3 seed data = murmur3_reference seed data.
Proof.
  intros Hd. pose proof (process_feed seed 0 (seed, []) data (murmur_rep_init seed) Hd) as H.
  unfold ina_hash_32_murmur3, PMurHash32. destruct PMurHash32_Process as [h carry].
  rewrite murmur_feed_blocks in H. by apply result_finish.
Qed.

(** CRC 32: the table driven function is the bitwise division by the
    reflected polynomial 0xedb88320, and feeding data in two calls is the same
    as feeding their concatenation. *)
Theorem crc32_correct hash a b :
  Forall is_byte a -> Forall is_byte b ->
  ina_hash_crc32 hash a = crc32_reference hash a /\
  ina_hash_crc32 (ina_hash_crc32 hash a) b = crc32_reference hash (a ++ b).
Proof.
  intros Ha Hb. unfold ina_hash_crc32, crc32_reference.
  rewrite Z.lxor_assoc, Z.lxor_nilpotent, Z.lxor_0_r, fold_left_app.
  rewrite !(fold_left_ext_Forall is_byte crc32_step crc_byte)
    by (try done; apply crc32_step_byte). done.
Qed.

Lemma crc32_correct_witness :
  let a := [49; 50; 51] in let b := [52; 53; 255] in
  Forall is_byte a /\ Forall is_byte b /\
  (ina_hash_crc32 0 a = crc32_reference 0 a /\
   ina_hash_crc32 (ina_hash_crc32 0 a) b = crc32_reference 0 (a ++ b)).
Proof.
  assert (Forall is_byte [49; 50; 51]) as Ha
    by (apply (bool_decide_eq_true_1 _); vm_compute; reflexivity).
  assert (Forall is_byte [52; 53; 255]) as Hb
    by (apply (bool_decide_eq_true_1 _); vm_compute; reflexivity).
  split; [exact Ha|]. split; [exact Hb|]. exact (crc32_correct 0 _ _ Ha Hb).
Defined.

(** ** lookup3: the 64 bit variant extends the 32 bit one *)

Lemma lookup3_mix_range s : in_width 32 (snd s) -> in_width 32 (snd (lookup3_mix s)).
Proof.
  destruct s as [[a b] c]. unfold lookup3_mix, mix_line, lookup3_rot. cbn [snd]. intros Hc.
  repeat first [exact Hc | apply wrap_in_width; lia | apply shl_in_width; lia
    | apply lxor_in_width; [lia|..] | apply lor_in_width; [lia|..]
    | apply shiftr_in_width; [lia|lia|]].
Qed.

Lemma lookup3_final_range s : in_width 32 (snd (lookup3_final s)).
Proof. destruct s as [[a b] c]. unfold lookup3_final, final_line. cbn [snd]. auto with word. Qed.

Lemma lookup3_loop_range fuel key s :
  in_width 32 (snd s) -> in_width 32 (snd (snd (lookup3_loop fuel key s))).
Proof.
  revert key s. induction fuel as [|fuel IH]; intros key s Hs; cbn [lookup3_loop]; [done|].
  case_match; [done|]. destruct s as [[a b] c]. apply IH, lookup3_mix_range, wrap_in_width. lia.
Qed.

Lemma u32_low_word b c : in_width 32 c -> u32 (c +₆₄ shl 64 b 32) = c.
Proof.
  intros Hc. rewrite <- (wrap_small 32 c Hc) at 2. unfold shl, wrap.
  rewrite Z.shiftl_mul_pow2, Zplus_mod_idemp_r by lia.
  replace (2 ^ 64) with (2 ^ 32 * 2 ^ 32) by reflexivity.
  rewrite Z.rem_mul_r by lia.
  rewrite (Z.mul_comm (2 ^ 32) (_ / _ mod _)), Z_mod_plus_full, Zmod_mod. apply Z_mod_plus_full.
Qed.

Lemma lookup3_seed hash size :
  in_width 32 hash ->
  let i := u32 (u64 (u32 (0xdeadbeef + u32 size) + Z.land hash 0xffffffff)) in
  i = u32 (0xdeadbeef + u32 size + hash) /\ u32 (i + Z.shiftr hash 32) = i.
Proof.
  intros Hh. change 0xffffffff with (Z.ones 32). rewrite Z.land_ones by lia.
  fold (wrap 32 hash). rewrite (wrap_small 32 hash) by done.
  assert (Z.shiftr hash 32 = 0) as ->.
  { unfold in_width in Hh. rewrite Z.shiftr_div_pow2 by lia. apply Z.div_small. lia. }
  cbn zeta. rewrite Z.add_0_r, wrap_wrap. split; [|done].
  rewrite (wrap_small 64); [apply wrap_add_l|].
  pose proof (wrap_in_width 32 (0xdeadbeef + u32 size)). unfold in_width in *. lia.
Qed.

Lemma lookup3_low_word seed data :
  in_width 32 seed ->
  u32 (ina_hash_64_lookup3 seed data) = ina_hash_32_lookup3 seed data /\
  in_width 32 (ina_hash_32_lookup3 seed data).
Proof.
  intros Hs. unfold ina_hash_64_lookup3, ina_hash_32_lookup3.
  destruct (lookup3_seed seed (size_of data) Hs) as [-> ->]; cbn zeta in *.
  set (i := u32 (0xdeadbeef + u32 (size_of data) + seed)).
  pose proof (lookup3_loop_range (length data) data (i, i, i)) as Hr.
  specialize (Hr (wrap_in_width 32 _ ltac:(lia))).
  destruct (lookup3_loop _ _ _) as [key [[a b] c]]. cbn [snd] in Hr.
  destruct (size_of key =? 0); cbn [snd]; [by rewrite u32_low_word|].
  pose proof (lookup3_final_range (lookup3_tail key (a, b, c))) as Hf.
  destruct (lookup3_final _) as [[a' b'] c']. cbn [snd] in *. by rewrite u32_low_word.
Qed.

(** With a 32 bit initial value the low word of the 64 bit lookup3 hash is
    the 32 bit lookup3 hash of the same data. *)
Theorem lookup3_64_extends_32 seed data :
  in_width 32 seed -> u32 (ina_hash_64_lookup3 seed data) = ina_hash_32_lookup3 seed data.
Proof. intros. by apply lookup3_low_word. Qed.

Lemma lookup3_64_extends_32_witness :
  in_width 32 123 /\
  u32 (ina_hash_64_lookup3 123 (bytes_of_string "a key of more than twelve bytes")) =
  ina_hash_32_lookup3 123 (bytes_of_string "a key of more than twelve bytes").
Proof.
  assert (in_width 32 123) as H by (unfold in_width; lia).
  split; [exact H|]. exact (lookup3_64_extends_32 _ _ H).
Defined.

#[export] Instance lookup3_range : HashRange 32 ina_hash_32_lookup3.
Proof. intros seed data Hs _. by apply lookup3_low_word. Qed.

#[export] Instance lookup3_64_range : HashRange 64 ina_hash_64_lookup3.
Proof.
  intros seed data _ _. unfold ina_hash_64_lookup3.
  destruct (lookup3_loop _ _ _) as [key [[a b] c]]. case_match; auto with word.
  destruct (lookup3_final _) as [[? ?] ?]. auto with word.
Qed.

Lemma fmix_range h : in_width 32 (fmix h).
Proof.
  unfold fmix. auto with word.
Qed.

#[export] Instance murmur3_range : HashRange 32 ina_hash_32_murmur3.
Proof.
  intros seed data _ _. unfold ina_hash_32_murmur3, PMurHash32.
  destruct PMurHash32_Process. apply fmix_range.
Qed.

#[export] Instance spooky32_range : HashRange 32 ina_hash_32_spooky.
Proof. intros seed data _ _. apply wrap_in_width. lia. Qed.

(** The variables of SpookyHash stay in 64 bits. *)
Abbreviation words := (Forall (in_width 64)).

Lemma var_range s i : words s -> in_width 64 (var s i).
Proof.
  intros Hs. unfold var, nthZ.
  destruct (nth_in_or_default (Z.to_nat (i mod size_of s)) s 0) as [Hin| ->].
  - rewrite List.Forall_forall in Hs. by apply Hs.
  - unfold in_width. lia.
Qed.

Lemma set_var_range s i v : words s -> in_width 64 v -> words (set_var s i v).
Proof. intros. by apply Forall_insert. Qed.

Lemma size_of_set_var s i v : length (set_var s i v) = length s.
Proof. apply length_insert. Qed.

Lemma add_to_range i j s : words s -> words (add_to i j s).
Proof. intros. apply set_var_range; auto with word. Qed.
Lemma xor_to_range i j s : words s -> words (xor_to i j s).
Proof. intros. apply set_var_range; [done|]. apply lxor_in_width; auto using var_range. lia. Qed.
Lemma rot_by_range i k s : 0 <= k <= 64 -> words s -> words (rot_by i k s).
Proof. intros. apply set_var_range, rot64_in_width; auto using var_range. Qed.

Lemma lines_range f i ks s :
  (forall i k s, 0 <= k <= 64 -> words s -> words (f i k s)) ->
  Forall (fun k => 0 <= k <= 64) ks -> words s -> words (lines f i ks s).
Proof. intros Hf Hks. revert i s. induction Hks; intros; simpl; auto. Qed.

#[export] Hint Resolve set_var_range add_to_range xor_to_range rot_by_range : word.

Ltac lines_words := intros; apply lines_range; [auto 10 with word|repeat constructor; lia|done].

Lemma spooky_mix_range data s : words s -> words (spooky_mix data s).
Proof. lines_words. Qed.
Lemma spooky_endPartial_range s : words s -> words (spooky_endPartial s).
Proof. lines_words. Qed.
Lemma spooky_short_mix_range s : words s -> words (spooky_short_mix s).
Proof. lines_words. Qed.
Lemma spooky_short_end_range s : words s -> words (spooky_short_end s).
Proof. lines_words. Qed.
Lemma add_cd_range x y s : words s -> words (add_cd x y s).
Proof. intros. unfold add_cd. auto with word. Qed.
Lemma add_ab_range x y s : words s -> words (add_ab x y s).
Proof. intros. unfold add_ab. auto with word. Qed.
#[export] Hint Resolve spooky_mix_range spooky_endPartial_range spooky_short_mix_range
  spooky_short_end_range add_cd_range add_ab_range : word.

Lemma rounds_range f w n p s :
  (forall p s, words s -> words (f p s)) -> words s -> words (snd (rounds f w n p s)).
Proof. intros Hf. revert p s. induction n; intros p s Hs; simpl; auto. Qed.

Lemma spooky_short_loop_range n p s : words s -> words (snd (spooky_short_loop n p s)).
Proof.
  apply rounds_range. clear. intros p s Hs.
  by apply add_ab_range, spooky_short_mix_range, add_cd_range.
Qed.

Lemma spooky_blocks_range n p s : words s -> words (snd (spooky_blocks n p s)).
Proof. apply rounds_range, spooky_mix_range. Qed.

Lemma SC_CONST_range : in_width 64 SC_CONST.
Proof. unfold in_width, SC_CONST. lia. Qed.

Lemma shorthash_range message h1 h2 :
  in_width 64 h1 -> in_width 64 h2 -> in_width 64 (fst (spooky_shorthash message h1 h2)).
Proof.
  intros H1 H2. unfold spooky_shorthash.
  assert (words [h1; h2; SC_CONST; SC_CONST]) as Hs by (repeat constructor; apply H1 || apply H2 || apply SC_CONST_range).
  pose proof (spooky_short_loop_range (Z.to_nat (size_of message / 32)) message _ Hs) as Hl.
  destruct (15 <? size_of message).
  2: { destruct spooky_short_tail. cbn [fst].
       by apply var_range, spooky_short_end_range, add_cd_range, set_var_range, shl_in_width. }
  destruct spooky_short_loop as [p s']. cbn [snd] in Hl.
  destruct (16 <=? size_of message mod 32); destruct spooky_short_tail; cbn [fst];
    apply var_range, spooky_short_end_range, add_cd_range, set_var_range;
    solve [by apply shl_in_width | by apply spooky_short_mix_range, add_cd_range | exact Hl].
Qed.

#[export] Instance spooky64_range : HashRange 64 ina_hash_64_spooky.
Proof.
  intros seed data Hs _. unfold ina_hash_64_spooky, spooky_hash128.
  destruct (size_of data <? SC_BUFSIZE); [by apply shorthash_range|].
  set (s := [seed; seed; _; _; _; _; _; _; _; _; _; _]).
  assert (words s) as Hw by (subst s; repeat constructor; apply Hs || apply SC_CONST_range).
  pose proof (spooky_blocks_range (Z.to_nat (size_of data / SC_BLOCKSIZE)) data s Hw) as Hl.
  destruct spooky_blocks as [p s']. cbn [fst snd] in *. unfold spooky_end.
  apply var_range.
  do 3 apply spooky_endPartial_range.
  apply spooky_mix_range, Hl.
Qed.

(** ** Names *)

Lemma find_name_spec hash_name names i j :
  find_name hash_name i names = Some j ->
  i <= j /\ names !! Z.to_nat (j - i) = Some hash_name /\
  forall k, i <= k < j -> names !! Z.to_nat (k - i) <> Some hash_name.
Proof.
  revert i. induction names as [|n names IH]; intros i; simpl; [done|].
  destruct (String.eqb_spec hash_name n) as [->|Hne].
  - intros [= ->]. rewrite Z.sub_diag. split_and!; [lia|done|lia].
  - intros (? & Hl & Hk)%IH. replace (Z.to_nat (j - i)) with (S (Z.to_nat (j - (i + 1)))) by lia.
    split_and!; [lia|done|]. intros k Hr.
    destruct (decide (k = i)) as [->|]; [rewrite Z.sub_diag; simpl; congruence|].
    replace (Z.to_nat (k - i)) with (S (Z.to_nat (k - (i + 1)))) by lia. apply Hk. lia.
Qed.

(** The names of the hash functions identify them: looking up the name of
    a function gives the function back, and a lookup only ever succeeds with
    a number whose name is the argument. *)
Theorem hash_name_roundtrip :
  (forall t, ina_hash_type (Some (ina_hash_name (hash_type_number t))) false =
    Ok (hash_type_number t)) /\
  (forall name t, ina_hash_type (Some name) false = Ok t ->
    0 <= t <= hash_type_number INA_HASH64_T1HA1 /\ ina_hash_name t = name).
Proof.
  split; [by intros []|]. intros name t. unfold ina_hash_type.
  destruct (find_name name 0 hash_names) as [j|] eqn:Hf; [|done]. intros [= <-].
  apply find_name_spec in Hf as (Hj & Hl & _). rewrite Z.sub_0_r in Hl.
  apply lookup_lt_Some in Hl as Hlt. change (length hash_names) with 25%nat in Hlt.
  change (hash_type_number INA_HASH64_T1HA1) with 24. split; [lia|].
  unfold ina_hash_name. change (hash_type_number INA_HASH64_T1HA1) with 24.
  destruct (Z.ltb_spec j 0), (Z.ltb_spec 24 j); try lia. simpl orb. cbn iota.
  by apply nth_lookup_Some.
Qed.
End Hash.
