(* ===== verification/Hashtable.v ===== *)
(** * Hash tables (hashtable.c)

    A table is an array of buckets, each a growing array of nodes scanned
    linearly.  The model keeps the arrays as lists ([[]] for the null pointer),
    pointers into them as indices, client data as an address with 0 for the
    null pointer, and the statistics channel as the list of events pushed to
    it.  Memory for nodes comes from a zero filled dynamic pool; allocation is
    taken to succeed. *)
From Stdlib Require Import ZArith Lia Bool String Ascii.
From stdpp Require Import base numbers option list fin_maps gmap strings.
From S2P Require Import Prelude Error Hash.
Import Error Hash.

Module Hashtable.
Local Open Scope inac_scope.

(** ** Data *)

Definition INA_HASHTABLE_BUCKET_SIZE : Z := 32.
Definition INA_HASHTABLE_DEFAULT_CAPACITY : Z := 32.
Definition INA_HASHTABLE_MAX_KEY_LEN : Z := 16.
Definition INA_HASHTABLE_CF_PREALLOCATED : Z := 4.
Definition INA_HASHTABLE_CF_STAT : Z := 16.
Definition INA_HASHTABLE_MAX_STAT_TABLES : Z := 16.
Definition INT_MAX : Z := 2 ^ 31 - 1.
Definition sizeof_node : Z := 24.
Definition sizeof_bucket : Z := 32.

(** [ina_hashtable_node_s]: the bytes of the key union and the data. *)
Record node := Node { n_key : list Z; n_data : Z }.

Definition zero_node : node := Node (repeat 0 (Z.to_nat INA_HASHTABLE_MAX_KEY_LEN)) 0.

(** [node->key.u32] *)
Definition key_u32 (n : node) : Z := read32 (n_key n) 0.

(** [in_hashtable_bucket_s] *)
Record bucket := Bucket {
  b_nodes : list node;
  b_count : Z;
  b_max : Z;
  b_free : Z;
  b_hash : Z
}.

Definition zero_bucket : bucket := Bucket [] 0 0 0 0.

Inductive ina_hashtable_key_type_t : Set :=
  | INA_HASHTABLE_UNDEFINED_KEY
  | INA_HASHTABLE_INT32_KEY
  | INA_HASHTABLE_UINT32_KEY
  | INA_HASHTABLE_INT64_KEY
  | INA_HASHTABLE_UINT64_KEY
  | INA_HASHTABLE_STR_KEY
  | INA_HASHTABLE_PTR_KEY.

Definition key_type_number (t : ina_hashtable_key_type_t) : Z :=
  match t with
  | INA_HASHTABLE_UNDEFINED_KEY => -1
  | INA_HASHTABLE_INT32_KEY => 0
  | INA_HASHTABLE_UINT32_KEY => 1
  | INA_HASHTABLE_INT64_KEY => 2
  | INA_HASHTABLE_UINT64_KEY => 3
  | INA_HASHTABLE_STR_KEY => 4
  | INA_HASHTABLE_PTR_KEY => 5
  end.

Inductive ina_hashtable_event_id_t : Set :=
  | EVENT_IDLE | EVENT_META | EVENT_NEW | EVENT_SET_BEGIN | EVENT_SET_END
  | EVENT_GET_BEGIN | EVENT_GET_END | EVENT_REMOVE_BEGIN | EVENT_REMOVE_END
  | EVENT_EXPANSION | EVENT_FREE.

Record ina_hashtable_event := Event {
  ev_ts : Z;
  ev_event_id : ina_hashtable_event_id_t;
  ev_hashtable_id : Z;
  ev_data1 : Z;
  ev_data2 : Z
}.

(** The two function pointers of the table, at most one of which is set. *)
Inductive hash_fn :=
  | hash32_fn (h : Z -> list Z -> Z)
  | hash64_fn (h : Z -> list Z -> Z)
  | hash_unset.

(** [ina_hashtable_s]; [ht_ullc_ctx] is the statistics channel, if any. *)
Record hashtable := Hashtable_ {
  ht_hash_type : Z;
  ht_pool_size : Z;
  ht_capacity : Z;
  ht_key_len : Z;
  ht_key_type : ina_hashtable_key_type_t;
  ht_buckets : list bucket;
  ht_hash_fn : hash_fn;
  ht_cf : Z;
  ht_count : Z;
  ht_ullc_ctx : option (list ina_hashtable_event);
  ht_id : Z
}.

Definition set_buckets (ht : hashtable) (bs : list bucket) : hashtable :=
  Hashtable_ (ht_hash_type ht) (ht_pool_size ht) (ht_capacity ht) (ht_key_len ht) (ht_key_type ht) bs
    (ht_hash_fn ht) (ht_cf ht) (ht_count ht) (ht_ullc_ctx ht) (ht_id ht).
Definition set_count (ht : hashtable) (n : Z) : hashtable :=
  Hashtable_ (ht_hash_type ht) (ht_pool_size ht) (ht_capacity ht) (ht_key_len ht) (ht_key_type ht)
    (ht_buckets ht) (ht_hash_fn ht) (ht_cf ht) n (ht_ullc_ctx ht) (ht_id ht).
Definition set_events (ht : hashtable) (es : option (list ina_hashtable_event)) : hashtable :=
  Hashtable_ (ht_hash_type ht) (ht_pool_size ht) (ht_capacity ht) (ht_key_len ht) (ht_key_type ht)
    (ht_buckets ht) (ht_hash_fn ht) (ht_cf ht) (ht_count ht) es (ht_id ht).
Definition update_bucket (ht : hashtable) (j : nat) (f : bucket -> bucket) : hashtable :=
  set_buckets ht (alter f j (ht_buckets ht)).
Definition bucket_at (ht : hashtable) (j : nat) : bucket := List.nth j (ht_buckets ht) zero_bucket.

(** ** Identifiers of tables with statistics *)

(** The [while] of [__ina_set_hashtable_id]; [__hashtable_id[16]], which it
    reads before it tests the bound, is taken to be 0 (it cannot change the
    outcome). *)
Fixpoint first_unused (fuel : nat) (ids : list Z) (id : Z) : Z :=
  match fuel with
  | O => id
  | S fuel =>
      if negb (nthZ 0 ids id =? 0) && (id <? INA_HASHTABLE_MAX_STAT_TABLES)
      then first_unused fuel ids (id + 1) else id
  end.

Definition __ina_set_hashtable_id (ids : list Z) : list Z * result Z :=
  let id := first_unused 17 ids 0 in
  let id := id + 1 in
  if INA_HASHTABLE_MAX_STAT_TABLES <? id then (ids, Err (INA_ERR E_EXCEEDED))
  else (<[Z.to_nat (id - 1) := 1]> ids, Ok id).

(** [ina_hashtable_free] on the identifiers: [__hashtable_id[ht->id] = 0];
    with the identifier 16 the write is past the array. *)
Definition ina_hashtable_free (ids : list Z) (ht : hashtable) : list Z :=
  <[Z.to_nat (ht_id ht) := 0]> ids.

(** ** Operations *)

Section Operations.
(** The time stamp of the [n]-th event of a table. *)
Variable clock : nat -> Z.
(** The hash functions that are vendored or hardware instructions. *)
Variable external_hash : ina_hash_type_t -> Z -> list Z -> Z.

Definition __ina_push_event (ht : hashtable) (event : ina_hashtable_event_id_t) (data1 data2 : Z)
    : hashtable :=
  match ht_ullc_ctx ht with
  | None => ht
  | Some es => set_events ht (Some (es ++ [Event (clock (length es)) event (ht_id ht) (u64 data1) (u64 data2)]))
  end.

(** The index of the key's bucket. *)
Definition bucket_index (ht : hashtable) (key : list Z) : Z :=
  match ht_hash_fn ht with
  | hash32_fn h => h 0 key mod ht_capacity ht
  | hash64_fn h => h 0 key mod ht_capacity ht
  | hash_unset => 0
  end.

Definition set_hash (h : Z) (b : bucket) : bucket :=
  Bucket (b_nodes b) (b_count b) (b_max b) (b_free b) h.

(** [__ina_bucket]: the index, and the table in which the bucket has noted
    the hash. *)
Definition __ina_bucket (ht : hashtable) (key : list Z) : nat * hashtable :=
  let h := bucket_index ht key in
  (Z.to_nat h, update_bucket ht (Z.to_nat h) (set_hash h)).

(** [0 == ina_mem_cmp(&next->key, key, key_len)] *)
Definition key_eqb (n : node) (key : list Z) : bool :=
  bool_decide (take (length key) (n_key n) = key).

(** The [switch] over the key type. *)
Definition key_len_of (t : ina_hashtable_key_type_t) : option Z :=
  match t with
  | INA_HASHTABLE_UINT32_KEY | INA_HASHTABLE_INT32_KEY => Some 4
  | INA_HASHTABLE_INT64_KEY | INA_HASHTABLE_UINT64_KEY => Some 8
  | INA_HASHTABLE_STR_KEY => Some INA_HASHTABLE_MAX_KEY_LEN
  | INA_HASHTABLE_PTR_KEY => Some 8
  | INA_HASHTABLE_UNDEFINED_KEY => None
  end.

(** The [switch] over the hash type. *)
Definition hash_fn_of (t : ina_hash_type_t) : hash_fn :=
  match t with
  | INA_HASH32_CRC => hash32_fn ina_hash_crc32
  | INA_HASH32_LOOKUP3 => hash32_fn ina_hash_32_lookup3
  | INA_HASH32_DJB => hash32_fn ina_hash_32_djb
  | INA_HASH32_JENKINS_OOAT => hash32_fn ina_hash_32_jenkins_ooat
  | INA_HASH32_FNV => hash32_fn ina_hash_32_fnv
  | INA_HASH32_SUPERFAST => hash32_fn ina_hash_32_superfast
  | INA_HASH32_SDBM => hash32_fn ina_hash_sdbm
  | INA_HASH32_FNV_YOSHIMITSU => hash32_fn ina_hash_32_fnv_yoshimitsu
  | INA_HASH32_MURMUR3 => hash32_fn ina_hash_32_murmur3
  | INA_HASH32_SPOOKY => hash32_fn ina_hash_32_spooky
  | INA_HASH32_XXHASH | INA_HASH32_CRC_HW | INA_HASH32_MEMMASH | INA_HASH32_FALKHASH
  | INA_HASH32_T1HA0 | INA_HASH32_T1HA1 => hash32_fn (external_hash t)
  | INA_HASH64_LOCKUP3 => hash64_fn ina_hash_64_lookup3
  | INA_HASH64_FNV => hash64_fn ina_hash_64_fnv
  | INA_HASH64_SPOOKY => hash64_fn ina_hash_64_spooky
  | INA_HASH64_XXHASH | INA_HASH64_CRC_HW | INA_HASH64_MEMMASH | INA_HASH64_FALKHASH
  | INA_HASH64_T1HA0 | INA_HASH64_T1HA1 => hash64_fn (external_hash t)
  end.

Definition prealloc_bucket (b : bucket) : bucket :=
  Bucket (repeat zero_node (Z.to_nat (INA_HASHTABLE_BUCKET_SIZE + 1))) (b_count b)
    INA_HASHTABLE_BUCKET_SIZE (b_free b) (b_hash b).

(** [ina_hashtable_new]; [None] for the hash type is [INA_HASH_DEFAULT]. The
    identifiers are threaded through. *)
Definition ina_hashtable_new (ids : list Z) (key_type : ina_hashtable_key_type_t)
    (hash_type : option ina_hash_type_t) (capacity cf : Z) : list Z * result hashtable :=
  if negb (capacity <=? INT_MAX) then (ids, Err INA_ERR_INVALID_ARGUMENT) else
  let capacity := if 0 <? capacity then capacity else 256 in
  match key_len_of key_type with
  | None => (ids, Err INA_ERR_INVALID)
  | Some key_len =>
      let hash_type := default INA_HASH32_CRC hash_type in
      let prealloc := negb (Z.land cf INA_HASHTABLE_CF_PREALLOCATED =? 0) in
      let size := sizeof_bucket * (capacity + 1)
        + (if prealloc then sizeof_node * capacity * (INA_HASHTABLE_BUCKET_SIZE + 1) * 2 else 0) in
      let b := if prealloc then prealloc_bucket zero_bucket else zero_bucket in
      let buckets := repeat b (Z.to_nat capacity) ++ [zero_bucket] in
      let ht := Hashtable_ (hash_type_number hash_type) size capacity key_len key_type buckets
        (hash_fn_of hash_type) cf 0 None 0 in
      if Z.land cf INA_HASHTABLE_CF_STAT =? 0 then (ids, Ok ht) else
      match __ina_set_hashtable_id ids with
      | (ids, Err e) => (ina_hashtable_free ids ht, Err e)
      | (ids, Ok id) =>
          let ht := Hashtable_ (hash_type_number hash_type) size capacity key_len key_type buckets
            (hash_fn_of hash_type) cf 0 (Some []) id in
          let ht := __ina_push_event ht EVENT_NEW (key_type_number key_type) capacity in
          let ht := __ina_push_event ht EVENT_META 1 (hash_type_number hash_type) in
          let ht := __ina_push_event ht EVENT_META 2 key_len in
          let ht := __ina_push_event ht EVENT_META 3 0 in
          let ht := __ina_push_event ht EVENT_META 4 cf in
          let ht := __ina_push_event ht EVENT_META 5 sizeof_bucket in
          (ids, Ok (__ina_push_event ht EVENT_META 6 sizeof_node))
      end
  end.

Definition clear_bucket (b : bucket) : bucket := Bucket (b_nodes b) 0 (b_max b) 0 (b_hash b).

(** [ina_hashtable_clear] empties the first [capacity] buckets. *)
Definition ina_hashtable_clear (ht : hashtable) : hashtable :=
  let n := Z.to_nat (ht_capacity ht) in
  set_count (set_buckets ht (map clear_bucket (take n (ht_buckets ht)) ++ drop n (ht_buckets ht))) 0.

(** [ina_hashtable_count] *)
Definition ina_hashtable_count (ht : hashtable) : Z := u64 (ht_count ht).

(** The expansion at the start of [ina_hashtable_set]: a new array of which
    the first [max] nodes are copied. *)
Definition expand (b : bucket) : bucket :=
  let max := b_max b in
  Bucket (take (Z.to_nat max) (b_nodes b)
      ++ repeat zero_node (Z.to_nat (max + INA_HASHTABLE_BUCKET_SIZE + 1 - max)))
    (b_count b) (max + INA_HASHTABLE_BUCKET_SIZE) (b_free b) (b_hash b).

(** The scan of [ina_hashtable_set]: [inl i] for the node with the key,
    otherwise [inr] the last node without data that was passed. *)
Fixpoint set_scan (key : list Z) (count : Z) (i : Z) (free : option Z) (ns : list node)
    : Z + option Z :=
  match ns with
  | [] => inr free
  | next :: ns =>
      if (key_u32 next =? 0) || negb (i <? count) then inr free
      else if key_eqb next key then inl i
      else set_scan key count (i + 1) (if n_data next =? 0 then Some i else free) ns
  end.

(** [ina_mem_cpy(&free->key, key, key_len)], and the data. *)
Definition write_node (key : list Z) (data : Z) (n : node) : node :=
  Node (key ++ drop (length key) (n_key n)) data.

Definition alter_node (f : node -> node) (i : Z) (b : bucket) : bucket :=
  Bucket (alter f (Z.to_nat i) (b_nodes b)) (b_count b) (b_max b) (b_free b) (b_hash b).
Definition incr_count (b : bucket) : bucket :=
  Bucket (b_nodes b) (b_count b + 1) (b_max b) (b_free b) (b_hash b).
Definition incr_free (b : bucket) : bucket :=
  Bucket (b_nodes b) (b_count b) (b_max b) (b_free b + 1) (b_hash b).

(** [ina_hashtable_set]: [None] and 0 are null arguments. *)
Definition ina_hashtable_set (ht : hashtable) (key : option (list Z)) (data : Z)
    : hashtable * result unit :=
  let ht := __ina_push_event ht EVENT_SET_BEGIN 0 0 in
  match key with
  | None => (ht, Err INA_ERR_INVALID_ARGUMENT)
  | Some key =>
      if data =? 0 then (ht, Err INA_ERR_INVALID_ARGUMENT) else
      let '(j, ht) := __ina_bucket ht key in
      let b := bucket_at ht j in
      let ht :=
        if b_max b - b_count b =? 0 then
          __ina_push_event (update_bucket ht j expand) EVENT_EXPANSION 0
            (b_max b + INA_HASHTABLE_BUCKET_SIZE)
        else ht in
      let b := bucket_at ht j in
      match set_scan key (b_count b) 0 None (b_nodes b) with
      | inl i =>
          let ht := update_bucket ht j (alter_node (fun n => Node (n_key n) data) i) in
          (__ina_push_event ht EVENT_SET_END (b_hash b) 0, Ok tt)
      | inr free =>
          let ht :=
            match free with
            | Some i => update_bucket ht j (alter_node (write_node key data) i)
            | None =>
                update_bucket ht j (fun b =>
                  incr_count (alter_node (write_node key data) (b_count b) b))
            end in
          let ht := set_count ht (ht_count ht + 1) in
          (__ina_push_event ht EVENT_SET_END (b_hash b) (ht_count ht), Ok tt)
      end
  end.

(** The scan of [ina_hashtable_get] and [ina_hashtable_remove]. *)
Fixpoint find_live (key : list Z) (count : Z) (i : Z) (ns : list node) : option (Z * Z) :=
  match ns with
  | [] => None
  | next :: ns =>
      if (key_u32 next =? 0) || negb (i <? count) then None
      else if negb (n_data next =? 0) && key_eqb next key then Some (i, n_data next)
      else find_live key count (i + 1) ns
  end.

Definition ina_hashtable_get (ht : hashtable) (key : option (list Z)) : hashtable * result Z :=
  let ht := __ina_push_event ht EVENT_GET_BEGIN 0 0 in
  match key with
  | None => (ht, Err INA_ERR_INVALID_ARGUMENT)
  | Some key =>
      let '(j, ht) := __ina_bucket ht key in
      let b := bucket_at ht j in
      match find_live key (b_count b) 0 (b_nodes b) with
      | Some (_, data) => (__ina_push_event ht EVENT_GET_END (b_hash b) 0, Ok data)
      | None => (__ina_push_event ht EVENT_GET_END (b_hash b) 1, Err (INA_ERR_NOT_ E_FOUND))
      end
  end.

Definition ina_hashtable_remove (ht : hashtable) (key : option (list Z)) : hashtable * result Z :=
  let ht := __ina_push_event ht EVENT_REMOVE_BEGIN 0 0 in
  match key with
  | None => (ht, Err INA_ERR_INVALID_ARGUMENT)
  | Some key =>
      let '(j, ht) := __ina_bucket ht key in
      let b := bucket_at ht j in
      match find_live key (b_count b) 0 (b_nodes b) with
      | Some (i, data) =>
          let ht := update_bucket ht j (fun b =>
            incr_free (alter_node (fun n => Node (n_key n) 0) i b)) in
          let ht := set_count ht (ht_count ht - 1) in
          (__ina_push_event ht EVENT_REMOVE_END 0 (ht_count ht), Ok data)
      | None => (__ina_push_event ht EVENT_REMOVE_END 1 (ht_count ht), Err (INA_ERR_NOT_ E_FOUND))
      end
  end.
End Operations.

(** ** Typed keys *)

(** The bytes of an integer of [n] bytes. *)
Fixpoint le_bytes (n : nat) (x : Z) : list Z :=
  match n with O => [] | S n => x mod 2 ^ 8 :: le_bytes n (x / 2 ^ 8) end.

Definition key_i32 (key : Z) : list Z := le_bytes 4 key.
Definition key_of_u32 (key : Z) : list Z := le_bytes 4 key.
Definition key_i64 (key : Z) : list Z := le_bytes 8 key.
Definition key_u64 (key : Z) : list Z := le_bytes 8 key.
Definition key_ptr (key : Z) : list Z := le_bytes 8 key.
(** [INA_MIN(INA_HASHTABLE_MAX_KEY_LEN, strlen(key))] bytes *)
Definition key_str (key : list Z) : list Z := take (Z.to_nat INA_HASHTABLE_MAX_KEY_LEN) key.

(** ** Traversal *)

Section Foreach.
(** The callback's state, and the error that [ina_err_get_rc] reports in it. *)
Context {St : Type} (foreach_fn : St -> Z -> St * Z) (get_rc : St -> Z).

(** The nodes of one bucket, from index [i]. *)
Fixpoint foreach_nodes (count : Z) (i : Z) (ns : list node) (s : St) : St * option Z :=
  match ns with
  | [] => (s, None)
  | next :: ns =>
      if negb (i <? count) then (s, None)
      else if n_data next =? 0 then foreach_nodes count (i + 1) ns s
      else
        let '(s, rc) := foreach_fn s (n_data next) in
        if INA_FAILED rc then (s, Some (get_rc s))
        else foreach_nodes count (i + 1) ns s
  end.

Fixpoint foreach_buckets (bs : list bucket) (s : St) : St * option Z :=
  match bs with
  | [] => (s, None)
  | b :: bs =>
      match (if 0 <? b_count b then foreach_nodes (b_count b) 0 (b_nodes b) s else (s, None)) with
      | (s, Some rc) => (s, Some rc)
      | (s, None) => foreach_buckets bs s
      end
  end.

(** [ina_hashtable_foreach] and [ina_hashtable_foreach_arg]: the return code
    that stops the traversal, or success. *)
Definition ina_hashtable_foreach (ht : hashtable) (s : St) : St * option Z :=
  foreach_buckets (take (Z.to_nat (ht_capacity ht)) (ht_buckets ht)) s.
End Foreach.

(** [ina_hashtable_iter_s]: bucket and node as indices. *)
Record iter := Iter { it_bucket : Z; it_node : Z; it_checksum : Z }.

Definition ina_hashtable_iter_reset (ht : hashtable) : iter := Iter 0 0 (ht_count ht).
Definition ina_hashtable_iter_new (ht : hashtable) : iter := ina_hashtable_iter_reset ht.

(** The inner loop of [ina_hashtable_iter_next]: the node found, and the
    index it leaves in the iterator. *)
Fixpoint iter_nodes (count : Z) (i : Z) (ns : list node) : option (Z * Z) :=
  match ns with
  | [] => None
  | n :: ns =>
      if negb (i <? count) then None
      else if negb (n_data n =? 0) then Some (n_data n, i + 1)
      else iter_nodes count (i + 1) ns
  end.

(** The outer loop; the buckets left are [bs]. *)
Fixpoint iter_buckets (bi ni : Z) (bs : list bucket) : option (Z * Z * Z) :=
  match bs with
  | [] => None
  | b :: bs =>
      match iter_nodes (b_count b) ni (drop (Z.to_nat ni) (b_nodes b)) with
      | Some (data, ni) => Some (data, bi, ni)
      | None => iter_buckets (bi + 1) 0 bs
      end
  end.

Definition ina_hashtable_iter_next (ht : hashtable) (it : iter) : iter * result Z :=
  if negb (it_checksum it =? ht_count ht) then (it, Err (Z.lor (INA_ES S_STATE) INA_ERR_INVALID))
  else
    let n := Z.to_nat (ht_capacity ht) in
    match iter_buckets (it_bucket it) (it_node it)
            (drop (Z.to_nat (it_bucket it)) (take n (ht_buckets ht))) with
    | Some (data, bi, ni) => (Iter bi ni (it_checksum it), Ok data)
    | None => (Iter (Z.max (it_bucket it) (ht_capacity ht)) 0 (it_checksum it), Err (INA_ERR E_END_OF))
    end.

(** ** The contents of a table

    The entries of a bucket are its first [count] nodes; an entry without data
    is one that was removed.  A table of keys of [n] bytes represents the map
    that sends the key of every other entry to its data.  A key whose first
    four bytes are zero ends the scan of its bucket, so that it is excluded. *)
Definition entries (b : bucket) : list node := take (Z.to_nat (b_count b)) (b_nodes b).

Definition valid_key (n : nat) (k : list Z) : Prop := length k = n /\ read32 k 0 <> 0.

#[export] Instance valid_key_dec n k : Decision (valid_key n k).
Proof. unfold valid_key. apply _. Defined.

Definition node_key (n : nat) (nd : node) : list Z := take n (n_key nd).

Definition node_ok (n : nat) (nd : node) : Prop :=
  length (n_key nd) = 16%nat /\ valid_key n (node_key n nd).

(** The count is within the array, which has one node more than [max]. *)
Record wf_shape (b : bucket) : Prop := {
  wf_count : 0 <= b_count b <= b_max b;
  wf_alloc : b_max b = 0 /\ b_nodes b = [] \/ Z.of_nat (length (b_nodes b)) = b_max b + 1;
  wf_nodes : Forall (fun nd => length (n_key nd) = 16%nat) (b_nodes b)
}.

(** The invariant of the bucket at index [j]. *)
Record wf_bucket (n : nat) (ht : hashtable) (j : nat) (b : bucket) : Prop := {
  wf_shaped : wf_shape b;
  wf_entries i nd : entries b !! i = Some nd ->
    node_ok n nd /\ bucket_index ht (node_key n nd) = Z.of_nat j;
  wf_unique i i' nd nd' : entries b !! i = Some nd -> entries b !! i' = Some nd' ->
    node_key n nd = node_key n nd' -> i = i'
}.

Definition stored (n : nat) (b : bucket) (k : list Z) (d : Z) : Prop :=
  d <> 0 /\ exists nd, nd ∈ entries b /\ node_key n nd = k /\ n_data nd = d.

Definition idx (ht : hashtable) (k : list Z) : nat := Z.to_nat (bucket_index ht k).

(** The table [ht] represents the map [m]. *)
Record represents (n : nat) (ht : hashtable) (m : gmap (list Z) Z) : Prop := {
  rep_capacity : 0 < ht_capacity ht;
  rep_length : length (ht_buckets ht) = S (Z.to_nat (ht_capacity ht));
  rep_buckets j : (j < Z.to_nat (ht_capacity ht))%nat -> wf_bucket n ht j (bucket_at ht j);
  rep_lookup k d : m !! k = Some d <-> valid_key n k /\ stored n (bucket_at ht (idx ht k)) k d
}.

Lemma bucket_index_range ht k : 0 < ht_capacity ht -> 0 <= bucket_index ht k < ht_capacity ht.
Proof. intros. unfold bucket_index. destruct ht_hash_fn; try lia; by apply Z.mod_pos_bound. Qed.

Lemma idx_range ht k : 0 < ht_capacity ht -> (idx ht k < Z.to_nat (ht_capacity ht))%nat.
Proof. intros H. pose proof (bucket_index_range ht k H). unfold idx. lia. Qed.

Lemma idx_ext ht ht' k :
  ht_hash_fn ht' = ht_hash_fn ht -> ht_capacity ht' = ht_capacity ht -> idx ht' k = idx ht k.
Proof. unfold idx, bucket_index. by intros -> ->. Qed.

Lemma read32_take n k : (4 <= n)%nat -> read32 (take n k) 0 = read32 k 0.
Proof.
  intros Hn. destruct n as [|[|[|[|n]]]]; try lia.
  unfold read32, byte_at, nthZ. destruct k as [|? [|? [|? [|? k]]]]; done.
Qed.

Section Buckets.
Context (n : nat) (Hn : (4 <= n <= 16)%nat).

Lemma node_u32 nd : node_ok n nd -> (key_u32 nd =? 0) = false.
Proof.
  intros [_ [_ H]]. unfold node_key in H. rewrite read32_take in H by lia. by apply Z.eqb_neq.
Qed.

Lemma key_eqb_spec nd k :
  length k = n -> key_eqb nd k = bool_decide (node_key n nd = k).
Proof. intros <-. done. Qed.

(** The scan of [get] and [remove] over the entries [es]. *)
Lemma find_live_spec k count i es rest :
  valid_key n k -> Forall (node_ok n) es -> count = i + Z.of_nat (length es) ->
  match find_live k count i (es ++ rest) with
  | Some (p, d) => d <> 0 /\ exists q nd, p = i + Z.of_nat q /\ es !! q = Some nd /\
      node_key n nd = k /\ n_data nd = d
  | None => forall nd, nd ∈ es -> node_key n nd = k -> n_data nd = 0
  end.
Proof.
  intros [Hk _] Hes. revert i. induction Hes as [|nd es Hnd Hes IH]; intros i Hc; simpl.
  - assert (match find_live k count i rest with Some _ => False | None => True end) as H.
    { destruct rest as [|nd rest]; simpl; [done|].
      simpl in Hc. destruct (Z.ltb_spec i count); [lia|]. by rewrite orb_true_r. }
    destruct (find_live k count i rest) as [[]|]; [done|]. intros nd Hin. by apply elem_of_nil in Hin.
  - rewrite (node_u32 nd Hnd), (key_eqb_spec nd k Hk). simpl in Hc.
    destruct (Z.ltb_spec i count); [|lia]. simpl.
    destruct (Z.eqb_spec (n_data nd) 0) as [Hd|Hd]; simpl.
    + specialize (IH (i + 1) ltac:(lia)).
      destruct (find_live k count (i + 1) (es ++ rest)) as [[p d]|].
      * destruct IH as (? & q & nd' & -> & ? & ? & ?). split; [done|].
        exists (S q), nd'. split_and!; [lia|done..].
      * intros nd' [->|Hin]%elem_of_cons; auto.
    + case_bool_decide as Heq.
      * split; [done|]. exists 0%nat, nd. split_and!; [lia|done..].
      * specialize (IH (i + 1) ltac:(lia)).
        destruct (find_live k count (i + 1) (es ++ rest)) as [[p d]|].
        -- destruct IH as (? & q & nd' & -> & ? & ? & ?). split; [done|].
           exists (S q), nd'. split_and!; [lia|done..].
        -- intros nd' [->|Hin]%elem_of_cons; [done|auto].
Qed.

(** The scan of [set]. *)
Lemma set_scan_spec k count i free es rest :
  valid_key n k -> Forall (node_ok n) es -> count = i + Z.of_nat (length es) ->
  match set_scan k count i free (es ++ rest) with
  | inl p => exists q nd, p = i + Z.of_nat q /\ es !! q = Some nd /\ node_key n nd = k
  | inr f => k ∉ map (node_key n) es /\
      (f = free \/ exists q nd, f = Some (i + Z.of_nat q) /\ es !! q = Some nd /\ n_data nd = 0)
  end.
Proof.
  intros [Hk _] Hes. revert i free. induction Hes as [|nd es Hnd Hes IH]; intros i free Hc; simpl.
  - assert (set_scan k count i free rest = inr free) as ->.
    { destruct rest as [|nd rest]; simpl; [done|].
      simpl in Hc. destruct (Z.ltb_spec i count); [lia|]. by rewrite orb_true_r. }
    split; [apply not_elem_of_nil|by left].
  - rewrite (node_u32 nd Hnd), (key_eqb_spec nd k Hk). simpl in Hc.
    destruct (Z.ltb_spec i count); [|lia]. simpl.
    case_bool_decide as Heq.
    { exists 0%nat, nd. split_and!; [lia|done..]. }
    specialize (IH (i + 1) (if n_data nd =? 0 then Some i else free) ltac:(lia)).
    destruct (set_scan _ _ _ _ (es ++ rest)) as [p|f].
    + destruct IH as (q & nd' & -> & ? & ?). exists (S q), nd'. split_and!; [lia|done..].
    + destruct IH as [Hni Hf]. split; [apply not_elem_of_cons; by split|].
      destruct Hf as [-> | (q & nd' & -> & ? & ?)].
      * destruct (Z.eqb_spec (n_data nd) 0); [|by left].
        right. exists 0%nat, nd. split_and!; [f_equal; lia|done..].
      * right. exists (S q), nd'. split_and!; [f_equal; lia|done..].
Qed.

End Buckets.

Lemma entries_app b : b_nodes b = entries b ++ drop (Z.to_nat (b_count b)) (b_nodes b).
Proof. symmetry. apply take_drop. Qed.

Lemma entries_length b : wf_shape b -> length (entries b) = Z.to_nat (b_count b).
Proof.
  intros [Hc Ha _]. unfold entries. rewrite length_take_le; [done|].
  destruct Ha as [[H ->]|H]; simpl; lia.
Qed.

(** Growing the array keeps the entries and makes room. *)
Lemma expand_entries b :
  wf_shape b -> b_max b - b_count b = 0 ->
  wf_shape (expand b) /\ entries (expand b) = entries b /\ b_count b < b_max (expand b).
Proof.
  intros [Hc Ha Hl] Hfull. split_and!.
  - split; simpl.
    + unfold INA_HASHTABLE_BUCKET_SIZE. lia.
    + right. rewrite length_app, repeat_length, length_take. unfold INA_HASHTABLE_BUCKET_SIZE.
      destruct Ha as [[H ->]|H]; simpl; lia.
    + apply Forall_app. split; [by apply Forall_take|].
      apply List.Forall_forall. intros nd ->%repeat_spec. done.
  - unfold entries, expand. simpl. assert (b_max b = b_count b) as -> by lia.
    assert (length (take (Z.to_nat (b_count b)) (b_nodes b)) = Z.to_nat (b_count b)) as Hlen.
    { rewrite length_take_le; [done|]. destruct Ha as [[H ->]|H]; simpl; lia. }
    rewrite take_app_le, take_take by lia. f_equal. lia.
  - simpl. unfold INA_HASHTABLE_BUCKET_SIZE. lia.
Qed.

Section Written.
Context (n : nat).

Lemma wf_same_entries ht j b b' :
  wf_bucket n ht j b -> wf_shape b' -> entries b' = entries b -> wf_bucket n ht j b'.
Proof. intros [_ He Hu] Hs Heq. split; [done|..]; rewrite Heq; done. Qed.

Lemma stored_same_entries b b' k d : entries b' = entries b -> stored n b' k d <-> stored n b k d.
Proof. intros Heq. unfold stored. by rewrite Heq. Qed.

(** Writing the node [nd'] at position [i], which is an entry or the first
    position after the entries. *)
Definition written (b b' : bucket) (i : nat) (nd' : node) : Prop :=
  forall i', entries b' !! i' = if decide (i' = i) then Some nd' else entries b !! i'.

Lemma wf_written ht j b b' i nd' :
  wf_bucket n ht j b -> wf_shape b' -> written b b' i nd' ->
  node_ok n nd' -> bucket_index ht (node_key n nd') = Z.of_nat j ->
  (forall i' nd, i' <> i -> entries b !! i' = Some nd -> node_key n nd <> node_key n nd') ->
  wf_bucket n ht j b'.
Proof.
  intros [_ He Hu] Hs Hw Hok Hidx Hne. split; [done|..].
  - intros i' nd. rewrite Hw. case_decide; [|apply He]. by intros [= <-].
  - intros i1 i2 nd1 nd2. rewrite !Hw.
    repeat case_decide; subst; intros H1 H2 Hkey; simplify_eq; try done.
    + by destruct (Hne i2 nd2).
    + by destruct (Hne i1 nd1).
    + by eapply Hu.
Qed.

Lemma stored_written b b' i nd' k d :
  written b b' i nd' ->
  (forall i' nd, i' <> i -> entries b !! i' = Some nd -> node_key n nd <> node_key n nd') ->
  (forall nd, entries b !! i = Some nd -> n_data nd = 0 \/ node_key n nd = node_key n nd') ->
  stored n b' k d <->
  if decide (k = node_key n nd') then d = n_data nd' /\ d <> 0 else stored n b k d.
Proof.
  intros Hw Hne Hold. unfold stored. setoid_rewrite list_elem_of_lookup. setoid_rewrite Hw.
  case_decide as Hk; split.
  - intros (Hd & nd & (i' & Hi') & Hk' & Hd'). case_decide; simplify_eq; [done|].
    by destruct (Hne i' nd).
  - intros [-> Hd]. split; [done|]. exists nd'. split_and!; [|done..]. exists i.
    by rewrite decide_True.
  - intros (Hd & nd & (i' & Hi') & Hk' & Hd'). case_decide; simplify_eq.
    split; [done|]. exists nd. split_and!; [by apply list_elem_of_lookup_2 in Hi'|done..].
  - intros (Hd & nd & [i' Hi']%list_elem_of_lookup & Hk' & Hd'). split; [done|]. exists nd.
    split_and!; [|done..]. exists i'. case_decide; [|done]. subst.
    by destruct (Hold _ Hi') as [?|?].
Qed.

Lemma alter_written b i f nd :
  entries b !! i = Some nd -> (forall nd, length (n_key nd) = 16%nat -> length (n_key (f nd)) = 16%nat) ->
  wf_shape b -> wf_shape (alter_node f (Z.of_nat i) b) /\ written b (alter_node f (Z.of_nat i) b) i (f nd).
Proof.
  intros Hi Hf [Hc Ha Hl]. split.
  - split; simpl; [done| |].
    + rewrite length_alter. destruct Ha as [[H Hn0]|H]; [|by right].
      left. by rewrite Hn0.
    + apply Forall_alter; auto.
  - intros i'. assert (i < Z.to_nat (b_count b))%nat.
    { apply lookup_lt_Some in Hi. unfold entries in Hi. rewrite length_take in Hi. lia. }
    unfold entries, alter_node. simpl. rewrite Nat2Z.id, take_alter_lt by done.
    rewrite list_lookup_alter. fold (entries b).
    repeat case_decide; subst; try done. by rewrite Hi.
Qed.

Lemma append_written b f :
  (forall nd, length (n_key nd) = 16%nat -> length (n_key (f nd)) = 16%nat) ->
  wf_shape b -> b_count b < b_max b ->
  exists nd, length (n_key nd) = 16%nat /\
    wf_shape (incr_count (alter_node f (b_count b) b)) /\
    written b (incr_count (alter_node f (b_count b) b)) (length (entries b)) (f nd).
Proof.
  intros Hf Hs Hroom. pose proof (entries_length b Hs) as Hlen. destruct Hs as [Hc Ha Hl].
  destruct Ha as [[? _]|Ha]; [lia|].
  destruct (lookup_lt_is_Some_2 (b_nodes b) (Z.to_nat (b_count b))) as [nd Hnd]; [lia|].
  exists nd. split; [by apply (Forall_lookup_1 _ _ _ _ Hl Hnd)|]. split.
  - split; simpl; [lia| |].
    + right. by rewrite length_alter.
    + apply Forall_alter; auto.
  - intros i'. rewrite Hlen. unfold entries, incr_count, alter_node. simpl.
    rewrite Z2Nat.inj_add by lia. change (Z.to_nat 1) with 1%nat.
    rewrite take_alter_lt by lia. rewrite list_lookup_alter.
    case_decide; subst.
    + rewrite decide_True by done. by rewrite lookup_take_lt, Hnd by lia.
    + rewrite decide_False by done.
      destruct (decide (i' < Z.to_nat (b_count b))%nat).
      * by rewrite !lookup_take_lt by lia.
      * by rewrite !lookup_take_ge by lia.
Qed.
End Written.

(** ** The operations implement the map operations *)

Lemma bucket_at_update ht j j' f :
  (j < length (ht_buckets ht))%nat ->
  bucket_at (update_bucket ht j f) j' = if decide (j' = j) then f (bucket_at ht j) else bucket_at ht j'.
Proof.
  intros Hj. unfold bucket_at, update_bucket, set_buckets. cbn [ht_buckets].
  apply lookup_lt_is_Some_2 in Hj as [b Hb].
  rewrite !nth_lookup, list_lookup_alter. repeat case_decide; subst; try done. by rewrite Hb.
Qed.

(** A representation only depends on the capacity, the buckets and the hash
    function. *)
Lemma represents_ext n ht ht' m :
  ht_capacity ht' = ht_capacity ht -> ht_buckets ht' = ht_buckets ht ->
  ht_hash_fn ht' = ht_hash_fn ht -> represents n ht m -> represents n ht' m.
Proof.
  destruct ht, ht'. simpl. intros -> -> ->. intros [H1 H2 H3 H4]. split; simpl in *; try done.
  intros j Hj. by destruct (H3 j Hj) as [? ? ?].
Qed.

Lemma push_event_fields clock ht e d1 d2 :
  ht_capacity (__ina_push_event clock ht e d1 d2) = ht_capacity ht /\
  ht_buckets (__ina_push_event clock ht e d1 d2) = ht_buckets ht /\
  ht_hash_fn (__ina_push_event clock ht e d1 d2) = ht_hash_fn ht /\
  ht_count (__ina_push_event clock ht e d1 d2) = ht_count ht.
Proof. unfold __ina_push_event. by destruct (ht_ullc_ctx ht). Qed.

Lemma represents_push n clock ht e d1 d2 m :
  represents n ht m -> represents n (__ina_push_event clock ht e d1 d2) m.
Proof.
  destruct (push_event_fields clock ht e d1 d2) as (? & ? & ? & _). by apply represents_ext.
Qed.

Section Tables.
Context (n : nat) (Hn : (4 <= n <= 16)%nat).

(** Changing the bucket of the key [k] so that only the data of [k] changes. *)
Lemma represents_update ht m m' k f :
  represents n ht m ->
  (let j := idx ht k in let b := bucket_at ht j in
   wf_bucket n ht j b ->
   wf_bucket n ht j (f b) /\
   (forall k' d, valid_key n k' -> idx ht k' = j ->
     (m' !! k' = Some d <-> stored n (f b) k' d))) ->
  (forall k', idx ht k' <> idx ht k \/ ~ valid_key n k' -> m' !! k' = m !! k') ->
  represents n (update_bucket ht (idx ht k) f) m'.
Proof.
  intros [Hcap Hlen Hb Hm] Hf Hother. pose proof (idx_range ht k Hcap) as Hj.
  destruct (Hf (Hb _ Hj)) as [Hwf Hst]. split.
  - done.
  - unfold update_bucket, set_buckets. simpl. by rewrite length_alter.
  - intros j Hjj. change (ht_capacity _) with (ht_capacity ht) in Hjj.
    rewrite bucket_at_update by lia. assert (wf_bucket n ht j (if decide (j = idx ht k)
      then f (bucket_at ht (idx ht k)) else bucket_at ht j)) as [? ? ?]; [|by split].
    case_decide; [by subst|by apply Hb].
  - intros k' d. change (idx (update_bucket ht (idx ht k) f) k') with (idx ht k').
    rewrite bucket_at_update by lia.
    destruct (decide (valid_key n k')) as [Hk'|Hk'].
    + case_decide as Heq; [rewrite (Hst k' d) by done; by intuition|].
      rewrite Hother by auto. apply Hm.
    + rewrite Hother by auto. rewrite Hm. by intuition.
Qed.

(** A change that keeps the entries keeps the map. *)
Lemma represents_update_same ht m k f :
  represents n ht m ->
  (let b := bucket_at ht (idx ht k) in wf_shape b -> wf_shape (f b) /\ entries (f b) = entries b) ->
  represents n (update_bucket ht (idx ht k) f) m.
Proof.
  intros Hr Hf. apply (represents_update ht m m k f Hr); [|done].
  simpl. intros Hwf. destruct (Hf (wf_shaped _ _ _ _ Hwf)) as [Hs Heq]. split.
  - by apply (wf_same_entries _ _ _ (bucket_at ht (idx ht k))).
  - intros k' d Hk' Hik. rewrite (rep_lookup _ _ _ Hr), Hik.
    rewrite (stored_same_entries _ _ _ _ _ Heq). by intuition.
Qed.

Lemma represents_bucket ht k m :
  represents n ht m ->
  let '(j, ht') := __ina_bucket ht k in
  j = idx ht k /\ idx ht' k = idx ht k /\ represents n ht' m /\ ht_count ht' = ht_count ht.
Proof.
  intros Hr. split_and!; [done..| |done].
  apply represents_update_same; [done|]. simpl. by intros [? ? ?].
Qed.

(** What the scan of [get] and [remove] finds. *)
Lemma find_live_represents ht k m :
  represents n ht m -> valid_key n k ->
  let b := bucket_at ht (idx ht k) in
  match find_live k (b_count b) 0 (b_nodes b) with
  | Some (i, d) => m !! k = Some d /\
      exists q nd, i = Z.of_nat q /\ entries b !! q = Some nd /\ node_key n nd = k
  | None => m !! k = None
  end.
Proof.
  intros Hr Hk. simpl. pose proof (rep_buckets _ _ _ Hr _ (idx_range ht k (rep_capacity _ _ _ Hr))) as [Hs He _].
  set (b := bucket_at ht (idx ht k)) in *.
  pose proof (find_live_spec n Hn k (b_count b) 0 (entries b) (drop (Z.to_nat (b_count b)) (b_nodes b)) Hk) as Hf.
  rewrite <- entries_app in Hf.
  assert (Forall (node_ok n) (entries b)) as Hok by (apply Forall_lookup; intros; by eapply He).
  specialize (Hf Hok). pose proof (wf_count _ Hs).
  specialize (Hf ltac:(rewrite entries_length by done; lia)).
  destruct (find_live _ _ _ _) as [[i d]|].
  - destruct Hf as (Hd & q & nd & -> & Hq & Hnk & Hdata). split; [|by exists q, nd].
    apply (rep_lookup _ _ _ Hr). split; [done|]. split; [done|]. exists nd.
    split_and!; [by apply list_elem_of_lookup_2 in Hq|done..].
  - apply eq_None_not_Some. intros [d (_ & Hd & nd & Hin & Hnk & Hdata)%(rep_lookup _ _ _ Hr)].
    apply Hd. rewrite <- Hdata. by apply Hf.
Qed.

Lemma get_represents clock ht k m :
  represents n ht m -> valid_key n k ->
  let '(ht', r) := ina_hashtable_get clock ht (Some k) in
  represents n ht' m /\ ht_count ht' = ht_count ht /\
  r = match m !! k with Some d => Ok d | None => Err (INA_ERR_NOT_ E_FOUND) end.
Proof.
  intros Hr Hk. unfold ina_hashtable_get.
  set (ht0 := __ina_push_event _ _ _ _ _).
  assert (represents n ht0 m) as Hr0 by by apply represents_push.
  assert (ht_count ht0 = ht_count ht) as Hc0 by apply push_event_fields.
  pose proof (represents_bucket ht0 k m Hr0) as Hb.
  destruct (__ina_bucket ht0 k) as [j ht1]. destruct Hb as (Hj & Hj1 & Hr1 & Hc1).
  rewrite <- Hj in Hj1. pose proof (find_live_represents ht1 k m Hr1 Hk) as Hf.
  simpl in Hf. rewrite Hj1 in Hf.
  destruct (find_live _ _ _ _) as [[i d]|].
  - destruct Hf as [-> _]. split_and!; [by apply represents_push| |done].
    etrans; [apply push_event_fields|congruence].
  - rewrite Hf. split_and!; [by apply represents_push| |done].
    etrans; [apply push_event_fields|congruence].
Qed.

(** A key whose entry has lost its data. *)
Definition dead_in (b : bucket) (k : list Z) : Prop :=
  exists nd, nd ∈ entries b /\ node_key n nd = k /\ n_data nd = 0.
Definition removed (ht : hashtable) (k : list Z) : Prop := dead_in (bucket_at ht (idx ht k)) k.

#[export] Instance removed_dec ht k : Decision (removed ht k).
Proof.
  refine (cast_if (decide (Exists (fun nd => node_key n nd = k /\ n_data nd = 0)
    (entries (bucket_at ht (idx ht k)))))); by rewrite Exists_exists in *.
Defined.

Lemma dead_written b b' i nd' k :
  written b b' i nd' -> dead_in b' k -> dead_in b k \/ k = node_key n nd' /\ n_data nd' = 0.
Proof.
  intros Hw (nd & [i' Hi']%list_elem_of_lookup & Hk & Hd). rewrite Hw in Hi'.
  case_decide; simplify_eq; [by right|]. left. exists nd. split_and!; [|done..].
  by apply list_elem_of_lookup_2 in Hi'.
Qed.

Lemma removed_update ht k f k' :
  0 < ht_capacity ht -> length (ht_buckets ht) = S (Z.to_nat (ht_capacity ht)) ->
  removed (update_bucket ht (idx ht k) f) k' ->
  if decide (idx ht k' = idx ht k) then dead_in (f (bucket_at ht (idx ht k))) k' else removed ht k'.
Proof.
  intros Hc Hl. unfold removed. change (idx (update_bucket ht (idx ht k) f) k') with (idx ht k').
  pose proof (idx_range ht k Hc). rewrite bucket_at_update by lia. by case_decide.
Qed.

Lemma removed_push clock ht e d1 d2 k :
  removed (__ina_push_event clock ht e d1 d2) k <-> removed ht k.
Proof. unfold __ina_push_event. by destruct (ht_ullc_ctx ht). Qed.

Lemma removed_same ht m k f k' :
  represents n ht m ->
  (wf_shape (bucket_at ht (idx ht k)) -> entries (f (bucket_at ht (idx ht k))) = entries (bucket_at ht (idx ht k))) ->
  removed (update_bucket ht (idx ht k) f) k' -> removed ht k'.
Proof.
  intros [Hc Hl Hb _] Hf Hr. apply removed_update in Hr; [|done..].
  case_decide as Heq; [|done]. unfold removed, dead_in in *. rewrite Heq. rewrite Hf in Hr; [done|].
  apply (wf_shaped n ht (idx ht k)). by apply Hb, idx_range.
Qed.

(** Writing one node of the bucket of [k]. *)
Lemma represents_written ht m k f i nd' :
  represents n ht m -> valid_key n k ->
  (let b := bucket_at ht (idx ht k) in
   wf_shape b -> wf_shape (f b) /\ written b (f b) i nd' /\ node_ok n nd' /\ node_key n nd' = k /\
     (forall i' nd, i' <> i -> entries b !! i' = Some nd -> node_key n nd <> k) /\
     (forall nd, entries b !! i = Some nd -> n_data nd = 0 \/ node_key n nd = k)) ->
  represents n (update_bucket ht (idx ht k) f)
    (if n_data nd' =? 0 then delete k m else <[k := n_data nd']> m) /\
  (forall k', removed (update_bucket ht (idx ht k) f) k' ->
    removed ht k' \/ k' = k /\ n_data nd' = 0).
Proof.
  intros Hr Hk Hf. pose proof Hr as [Hc Hl Hb Hm].
  pose proof (Hb _ (idx_range ht k Hc)) as Hwf. simpl in Hf.
  destruct (Hf (wf_shaped _ _ _ _ Hwf)) as (Hs & Hw & Hok & Hkey & Hne & Hold). split.
  - apply (represents_update ht m _ k f Hr).
    + simpl. intros _. split.
      * apply (wf_written n ht _ (bucket_at ht (idx ht k)) _ i nd'); try done; [|by rewrite Hkey].
        rewrite Hkey. unfold idx. pose proof (bucket_index_range ht k Hc). lia.
      * intros k' d Hk' Hik.
        rewrite (stored_written n _ _ i nd' k' d Hw) by (rewrite Hkey; done). rewrite Hkey.
        case_decide as Hkk.
        -- subst k'. destruct (Z.eqb_spec (n_data nd') 0) as [H0|H0].
           ++ rewrite lookup_delete_eq. split; [done|]. intros [-> ?]. done.
           ++ rewrite lookup_insert_eq. split; [intros [= <-]; done|]. by intros [-> _].
        -- assert ((if n_data nd' =? 0 then delete k m else <[k:=n_data nd']> m) !! k' = m !! k') as ->.
           { destruct (n_data nd' =? 0); [by apply lookup_delete_ne|by apply lookup_insert_ne]. }
           rewrite Hm, Hik. by intuition.
    + intros k' Hk'. assert (k <> k') by (intros ->; destruct Hk' as [Hk'|Hk']; by apply Hk').
      destruct (n_data nd' =? 0); [by apply lookup_delete_ne|by apply lookup_insert_ne].
  - intros k' Hk'. apply removed_update in Hk'; [|done..]. case_decide as Heq; [|by left].
    eapply dead_written in Hk' as [Hd|[-> ?]]; [| |exact Hw].
    + left. unfold removed. by rewrite Heq.
    + right. by rewrite Hkey.
Qed.

Lemma write_node_key k d nd :
  valid_key n k -> length (n_key nd) = 16%nat ->
  node_ok n (write_node k d nd) /\ node_key n (write_node k d nd) = k.
Proof.
  intros [Hk Hz] Hl. assert (node_key n (write_node k d nd) = k) as Hkey.
  { unfold node_key. simpl. rewrite take_app_le, take_ge by lia. done. }
  split; [|done]. split; [|by rewrite Hkey].
  simpl. rewrite length_app, length_drop. lia.
Qed.

(** The part of [set] after the expansion. *)
Definition set_in_bucket (ht : hashtable) (j : nat) (k : list Z) (d : Z) : hashtable :=
  let b := bucket_at ht j in
  match set_scan k (b_count b) 0 None (b_nodes b) with
  | inl i => update_bucket ht j (alter_node (fun n => Node (n_key n) d) i)
  | inr (Some i) => set_count (update_bucket ht j (alter_node (write_node k d) i)) (ht_count ht + 1)
  | inr None =>
      set_count (update_bucket ht j (fun b => incr_count (alter_node (write_node k d) (b_count b) b)))
        (ht_count ht + 1)
  end.

Lemma set_in_bucket_represents ht m k d :
  represents n ht m -> valid_key n k -> d <> 0 ->
  b_count (bucket_at ht (idx ht k)) < b_max (bucket_at ht (idx ht k)) ->
  let ht' := set_in_bucket ht (idx ht k) k d in
  represents n ht' (<[k := d]> m) /\ (forall k', removed ht' k' -> removed ht k') /\
  ht_count ht' = ht_count ht + (if decide (is_Some (m !! k) \/ removed ht k) then 0 else 1).
Proof.
  intros Hr Hk Hd Hroom. pose proof Hr as [Hc Hl Hb Hm].
  pose proof (Hb _ (idx_range ht k Hc)) as [Hs He Hu].
  unfold set_in_bucket. set (j := idx ht k) in *. set (b := bucket_at ht j) in *.
  pose proof (set_scan_spec n Hn k (b_count b) 0 None (entries b) (drop (Z.to_nat (b_count b)) (b_nodes b)) Hk) as Hf.
  rewrite <- entries_app in Hf.
  assert (Forall (node_ok n) (entries b)) as Hok by (apply Forall_lookup; intros; by eapply He).
  specialize (Hf Hok). pose proof (wf_count _ Hs).
  specialize (Hf ltac:(rewrite entries_length by done; lia)).
  assert (forall nd, nd ∈ entries b -> node_key n nd = k -> is_Some (m !! k) \/ removed ht k) as Hpresent.
  { intros nd Hin Hnk. destruct (decide (n_data nd = 0)) as [H0|H0].
    - right. by exists nd.
    - left. exists (n_data nd). apply Hm. split; [done|]. split; [done|]. by exists nd. }
  assert (forall nd' : node, n_data nd' = d -> (if n_data nd' =? 0 then delete k m else <[k := n_data nd']> m) = <[k := d]> m) as Hmap.
  { intros nd' ->. by destruct (Z.eqb_spec d 0). }
  destruct (set_scan _ _ _ _ _) as [p|f].
  - destruct Hf as (q & nd & -> & Hq & Hnk). rewrite Z.add_0_l.
    destruct (represents_written ht m k (alter_node (fun n => Node (n_key n) d) (Z.of_nat q)) q (Node (n_key nd) d) Hr Hk)
      as [Hr' Hrem].
    { simpl. intros _. fold j b. destruct (alter_written b q (fun n => Node (n_key n) d) nd Hq) as [Hs' Hw]; [done|done|].
      split_and!; [done|done|by apply (He _ _ Hq)|done| |].
      - intros i' nd' Hi' Hl' Hk'. apply Hi'. by eapply Hu, eq_trans.
      - intros nd' Hl'. right. by simplify_eq. }
    rewrite (Hmap (Node (n_key nd) d)) in Hr' by done. fold j in Hr', Hrem.
    split_and!; [done| |].
    + intros k' [?|[_ ?]]%Hrem; done.
    + rewrite decide_True; [simpl; lia|]. apply (Hpresent nd); [by eapply list_elem_of_lookup_2|done].
  - destruct Hf as [Hni Hf].
    assert (forall i' nd, entries b !! i' = Some nd -> node_key n nd <> k) as Hne.
    { intros i' nd Hl' Hk'. apply Hni. rewrite <- Hk'. apply (list_elem_of_fmap_2 (node_key n)).
      by eapply list_elem_of_lookup_2. }
    rewrite decide_False.
    2: { intros [[d' (_ & _ & nd & Hin & Hnk & _)%Hm]|(nd & Hin & Hnk & _)];
         apply list_elem_of_lookup in Hin as [i' Hi']; by apply (Hne _ _ Hi'). }
    assert (forall g i' nd',
      (wf_shape b -> wf_shape (g b) /\ written b (g b) i' nd' /\ node_ok n nd' /\ node_key n nd' = k /\
        (forall nd, entries b !! i' = Some nd -> n_data nd = 0)) -> n_data nd' = d ->
      let ht' := set_count (update_bucket ht j g) (ht_count ht + 1) in
      represents n ht' (<[k := d]> m) /\ (forall k', removed ht' k' -> removed ht k') /\
      ht_count ht' = ht_count ht + 1) as Hfin.
    { intros g i' nd' Hg Hnd'. destruct (represents_written ht m k g i' nd' Hr Hk) as [Hr' Hrem].
      - simpl. intros _. fold j b. destruct (Hg Hs) as (? & ? & ? & ? & Hold). split_and!; eauto.
      - rewrite (Hmap nd' Hnd') in Hr'. fold j in Hr', Hrem. split_and!; [by apply (represents_ext n (update_bucket ht j g))| |done].
        intros k' Hk'. destruct (Hrem k' Hk') as [?|[_ ?]]; [done|congruence]. }
    destruct Hf as [-> | (q & nd & -> & Hq & Hnd0)].
    + destruct (append_written b (write_node k d)) as (nd & Hlen & Hs' & Hw); [|done|done|].
      { intros nd Hl'. by apply write_node_key. }
      destruct (write_node_key k d nd Hk Hlen) as [? ?].
      apply (Hfin (fun b => incr_count (alter_node (write_node k d) (b_count b) b)) (length (entries b)) (write_node k d nd)); [|done].
      intros _. split_and!; try done. intros nd' Hl'. apply lookup_lt_Some in Hl'. lia.
    + rewrite Z.add_0_l. destruct (alter_written b q (write_node k d) nd Hq) as [Hs' Hw];
        [by intros; apply write_node_key|done|].
      destruct (write_node_key k d nd Hk) as [? ?]; [by eapply He|].
      apply (Hfin (alter_node (write_node k d) (Z.of_nat q)) q (write_node k d nd)); [|done].
      intros _. split_and!; try done. intros nd' Hl'. by simplify_eq.
Qed.

(** Making room in the bucket of the key. *)
Lemma expand_represents clock ht m k :
  represents n ht m ->
  let b := bucket_at ht (idx ht k) in
  let ht' :=
    if b_max b - b_count b =? 0
    then __ina_push_event clock (update_bucket ht (idx ht k) expand) EVENT_EXPANSION 0 (b_max b + INA_HASHTABLE_BUCKET_SIZE)
    else ht in
  represents n ht' m /\ idx ht' k = idx ht k /\ ht_count ht' = ht_count ht /\
  (forall k', removed ht' k' -> removed ht k') /\
  b_count (bucket_at ht' (idx ht k)) < b_max (bucket_at ht' (idx ht k)) /\
  entries (bucket_at ht' (idx ht k)) = entries b.
Proof.
  intros Hr. pose proof Hr as [Hc Hl Hb _].
  pose proof (Hb _ (idx_range ht k Hc)) as [Hs _ _]. pose proof (idx_range ht k Hc).
  cbn zeta. destruct (Z.eqb_spec (b_max (bucket_at ht (idx ht k)) - b_count (bucket_at ht (idx ht k))) 0) as [Hfull|Hroom].
  - destruct (expand_entries _ Hs Hfull) as (Hs' & He & Hlt).
    destruct (push_event_fields clock (update_bucket ht (idx ht k) expand) EVENT_EXPANSION 0
      (b_max (bucket_at ht (idx ht k)) + INA_HASHTABLE_BUCKET_SIZE)) as (Hf1 & Hf2 & Hf3 & Hf4).
    split_and!.
    + apply represents_push, represents_update_same; [done|]. simpl. done.
    + by apply idx_ext.
    + by rewrite Hf4.
    + intros k' Hk'. rewrite removed_push in Hk'. by eapply removed_same in Hk'.
    + unfold bucket_at in *. rewrite Hf2. fold (bucket_at (update_bucket ht (idx ht k) expand) (idx ht k)).
      rewrite bucket_at_update by lia. by rewrite decide_True.
    + unfold bucket_at in *. rewrite Hf2. fold (bucket_at (update_bucket ht (idx ht k) expand) (idx ht k)).
      rewrite bucket_at_update by lia. by rewrite decide_True.
  - destruct Hs as [Hcnt _ _]. split_and!; try done. lia.
Qed.

Lemma set_represents clock ht m k d :
  represents n ht m -> valid_key n k -> d <> 0 ->
  let '(ht', r) := ina_hashtable_set clock ht (Some k) d in
  represents n ht' (<[k := d]> m) /\ r = Ok tt /\ (forall k', removed ht' k' -> removed ht k') /\
  (is_Some (m !! k) -> ht_count ht' = ht_count ht) /\
  (m !! k = None -> ~ removed ht k -> ht_count ht' = ht_count ht + 1).
Proof.
  intros Hr Hk Hd. unfold ina_hashtable_set.
  destruct (Z.eqb_spec d 0); [done|].
  set (ht0 := __ina_push_event _ _ _ _ _).
  assert (represents n ht0 m) as Hr0 by by apply represents_push.
  assert (ht_count ht0 = ht_count ht) as Hc0 by apply push_event_fields.
  assert (forall k', removed ht0 k' <-> removed ht k') as Hrem0 by (intros; apply removed_push).
  pose proof (represents_bucket ht0 k m Hr0) as Hb. unfold __ina_bucket in *.
  destruct Hb as (_ & Hj1 & Hr1 & Hc1). fold (idx ht0 k) in *.
  set (ht1 := update_bucket ht0 (idx ht0 k) (set_hash (bucket_index ht0 k))) in *.
  assert (forall k', removed ht1 k' -> removed ht k') as Hrem1.
  { intros k' Hk'. apply Hrem0. eapply removed_same in Hk'; [done|exact Hr0|done]. }
  pose proof (expand_represents clock ht1 m k Hr1) as Hexp. cbn zeta in Hexp. rewrite Hj1 in Hexp.
  match type of Hexp with represents _ ?h _ /\ _ => set (ht2 := h) in * end.
  destruct Hexp as (Hr2 & Hj2 & Hc2 & Hrem2 & Hroom & _).
  rewrite <- Hj2 in Hroom.
  pose proof (set_in_bucket_represents ht2 m k d Hr2 Hk Hd Hroom) as Hfin.
  rewrite Hj2 in Hfin. cbn zeta in Hfin. unfold set_in_bucket in Hfin.
  assert (forall ht3 e d1 d2, represents n ht3 (<[k:=d]> m) /\ (forall k', removed ht3 k' -> removed ht2 k') /\
      ht_count ht3 = ht_count ht2 + (if decide (is_Some (m !! k) \/ removed ht2 k) then 0 else 1) ->
    let ht' := __ina_push_event clock ht3 e d1 d2 in
    represents n ht' (<[k := d]> m) /\ Ok tt = Ok tt /\ (forall k', removed ht' k' -> removed ht k') /\
    (is_Some (m !! k) -> ht_count ht' = ht_count ht) /\
    (m !! k = None -> ~ removed ht k -> ht_count ht' = ht_count ht + 1)) as Hgoal.
  { intros ht3 e d1 d2 (H1 & H2 & H3). destruct (push_event_fields clock ht3 e d1 d2) as (_ & _ & _ & Hcnt).
    cbn zeta. rewrite Hcnt, H3, Hc2, Hc1, Hc0. split_and!; [by apply represents_push|done|..].
    - intros k' Hk'. rewrite removed_push in Hk'. auto.
    - intros Hm. rewrite decide_True by auto. lia.
    - intros Hm Hnr. rewrite decide_False; [done|]. rewrite Hm. intros [[? ?]|?]; [done|]. auto. }
  destruct (set_scan _ _ _ _ _) as [i|[i|]]; by apply Hgoal.
Qed.

Lemma remove_represents clock ht m k :
  represents n ht m -> valid_key n k ->
  let '(ht', r) := ina_hashtable_remove clock ht (Some k) in
  represents n ht' (delete k m) /\
  r = match m !! k with Some d => Ok d | None => Err (INA_ERR_NOT_ E_FOUND) end /\
  (forall k', removed ht' k' -> removed ht k' \/ k' = k /\ is_Some (m !! k)) /\
  ht_count ht' = ht_count ht - (if m !! k then 1 else 0).
Proof.
  intros Hr Hk. unfold ina_hashtable_remove.
  set (ht0 := __ina_push_event _ _ _ _ _).
  assert (represents n ht0 m) as Hr0 by by apply represents_push.
  assert (ht_count ht0 = ht_count ht) as Hc0 by apply push_event_fields.
  assert (forall k', removed ht0 k' <-> removed ht k') as Hrem0 by (intros; apply removed_push).
  pose proof (represents_bucket ht0 k m Hr0) as Hb. unfold __ina_bucket in *.
  destruct Hb as (_ & Hj1 & Hr1 & Hc1). fold (idx ht0 k) in *.
  set (ht1 := update_bucket ht0 (idx ht0 k) (set_hash (bucket_index ht0 k))) in *.
  assert (forall k', removed ht1 k' -> removed ht k') as Hrem1.
  { intros k' Hk'. apply Hrem0. eapply removed_same in Hk'; [done|exact Hr0|done]. }
  pose proof (find_live_represents ht1 k m Hr1 Hk) as Hf. cbn zeta in Hf.
  rewrite Hj1 in Hf. set (b := bucket_at ht1 (idx ht0 k)) in *.
  destruct (find_live _ _ _ _) as [[i d]|].
  - destruct Hf as (Hm & q & nd & -> & Hq & Hnk). rewrite Hm.
    pose proof Hr1 as [Hc Hl Hb _]. pose proof (Hb _ (idx_range ht1 k Hc)) as [Hs He Hu].
    rewrite Hj1 in Hs, He, Hu. fold b in Hs, He, Hu.
    destruct (alter_written b q (fun n => Node (n_key n) 0) nd Hq) as [Hs' Hw]; [done|done|].
    destruct (represents_written ht1 m k
      (fun b => incr_free (alter_node (fun n => Node (n_key n) 0) (Z.of_nat q) b)) q (Node (n_key nd) 0) Hr1 Hk)
      as [Hr' Hrem].
    { rewrite Hj1. fold b. cbn zeta. intros _. split_and!.
      - by destruct Hs' as [? ? ?].
      - done.
      - by apply (He _ _ Hq).
      - done.
      - intros i' nd' Hi' Hl' Hk'. apply Hi'. by eapply Hu, eq_trans.
      - intros nd' Hl'. right. by simplify_eq. }
    rewrite Hj1 in Hr', Hrem.
    split_and!.
    + apply represents_push. eapply represents_ext; [..|exact Hr']; done.
    + done.
    + intros k' Hk'. rewrite removed_push in Hk'.
      destruct (Hrem k' Hk') as [?|[-> _]]; [left; by apply Hrem1|right]. by eauto.
    + match goal with |- context [__ina_push_event ?c ?h ?e ?x ?y] =>
        destruct (push_event_fields c h e x y) as (_ & _ & _ & ->) end.
      cbn [set_count ht_count update_bucket set_buckets]. by rewrite Hc1, Hc0.
  - rewrite Hf. split_and!.
    + rewrite delete_id by done. by apply represents_push.
    + done.
    + intros k' Hk'. rewrite removed_push in Hk'. left. by apply Hrem1.
    + etrans; [apply push_event_fields|]. lia.
Qed.
End Tables.

Lemma get_removed n clock ht k m :
  (4 <= n <= 16)%nat -> represents n ht m ->
  forall k', removed n (fst (ina_hashtable_get clock ht (Some k))) k' -> removed n ht k'.
Proof.
  intros Hn Hr k'. unfold ina_hashtable_get, __ina_bucket.
  assert (represents n (__ina_push_event clock ht EVENT_GET_BEGIN 0 0) m) as Hr0 by by apply represents_push.
  rewrite <- (removed_push n clock ht EVENT_GET_BEGIN 0 0 k').
  destruct (find_live _ _ _ _) as [[i d]|]; cbn [fst]; rewrite removed_push;
    (eapply removed_same; [exact Hn|exact Hr0|done]).
Qed.

(** ** Empty tables *)

Lemma empty_represents n ht :
  0 < ht_capacity ht -> length (ht_buckets ht) = S (Z.to_nat (ht_capacity ht)) ->
  (forall j, (j < Z.to_nat (ht_capacity ht))%nat ->
    wf_shape (bucket_at ht j) /\ b_count (bucket_at ht j) = 0) ->
  represents n ht ∅ /\ forall k, ~ removed n ht k.
Proof.
  intros Hc Hl Hb.
  assert (forall j, (j < Z.to_nat (ht_capacity ht))%nat -> entries (bucket_at ht j) = []) as He.
  { intros j Hj. destruct (Hb j Hj) as [_ H0]. unfold entries. by rewrite H0. }
  split; [split; [done|done|..]|].
  - intros j Hj. split; [by apply Hb|..]; rewrite He by done; done.
  - intros k d. rewrite lookup_empty. split; [done|].
    intros (_ & _ & nd & Hin & _). rewrite He in Hin by by apply idx_range.
    by apply elem_of_nil in Hin.
  - intros k (nd & Hin & _). rewrite He in Hin by by apply idx_range.
    by apply elem_of_nil in Hin.
Qed.

Lemma clear_represents n ht m :
  represents n ht m ->
  represents n (ina_hashtable_clear ht) ∅ /\ (forall k, ~ removed n (ina_hashtable_clear ht) k) /\
  ht_count (ina_hashtable_clear ht) = 0.
Proof.
  intros [Hc Hl Hb _].
  enough (represents n (ina_hashtable_clear ht) ∅ /\ (forall k, ~ removed n (ina_hashtable_clear ht) k))
    as [? ?] by done.
  apply empty_represents; [done|..]; unfold ina_hashtable_clear; cbn [set_count set_buckets ht_buckets ht_capacity].
  - rewrite length_app, length_map, length_take, length_drop. lia.
  - intros j Hj. unfold bucket_at. unfold ina_hashtable_clear, set_count, set_buckets. cbn [ht_buckets].
    rewrite app_nth1 by (rewrite length_map, length_take; lia).
    change zero_bucket with (clear_bucket zero_bucket) at 1 2. rewrite !map_nth.
    assert (List.nth j (take (Z.to_nat (ht_capacity ht)) (ht_buckets ht)) zero_bucket = bucket_at ht j) as ->.
    { unfold bucket_at. by rewrite !nth_lookup, lookup_take_lt. }
    destruct (Hb j Hj) as [[Hcnt Ha Hn] _ _]. split; [|done]. split; simpl; [lia|done|done].
Qed.

Lemma new_represents n clock ext ids kt hty capacity cf ids' ht :
  0 <= capacity -> ina_hashtable_new clock ext ids kt hty capacity cf = (ids', Ok ht) ->
  represents n ht ∅ /\ (forall k, ~ removed n ht k) /\ ht_count ht = 0.
Proof.
  intros Hcap. unfold ina_hashtable_new. destruct (capacity <=? INT_MAX); simpl; [|done].
  set (cap := if 0 <? capacity then capacity else 256).
  assert (0 < cap) as Hpos by (subst cap; destruct (Z.ltb_spec 0 capacity); lia).
  destruct (key_len_of kt) as [kl|]; [|done].
  set (b := if negb _ then prealloc_bucket zero_bucket else zero_bucket).
  assert (wf_shape b /\ b_count b = 0) as Hb.
  { subst b. case_match; (split; [|done]); split; simpl; unfold INA_HASHTABLE_BUCKET_SIZE.
    - lia.
    - by right.
    - repeat constructor.
    - lia.
    - by left.
    - constructor. }
  assert (forall t sz ty f es id, let ht := Hashtable_ t sz cap kl ty (repeat b (Z.to_nat cap) ++ [zero_bucket]) f cf 0 es id in
    represents n ht ∅ /\ (forall k, ~ removed n ht k)) as Hnew.
  { intros t sz ty f es id. apply empty_represents; simpl; [done|..].
    - rewrite length_app, repeat_length. simpl. lia.
    - intros j Hj. unfold bucket_at. cbn [ht_buckets].
      rewrite app_nth1 by by rewrite repeat_length.
      rewrite (nth_indep _ _ b) by by rewrite repeat_length. by rewrite nth_repeat. }
  case_match.
  - intros [= <- <-]. split_and!; [apply Hnew..|done].
  - destruct __ina_set_hashtable_id as [ids2 [id|e]]; [|done].
    intros [= <- <-]. split_and!.
    + do 7 apply represents_push. apply Hnew.
    + intros k. rewrite !removed_push. apply Hnew.
    + by etrans; [apply push_event_fields|].
Qed.

(** ** Refinement: a sequence of operations *)

(** A call with its arguments; [None] and 0 are null pointers. *)
Inductive op :=
  | Set_ (key : option (list Z)) (data : Z)
  | Get (key : option (list Z))
  | Remove (key : option (list Z))
  | Clear.

Definition op_key (o : op) : option (list Z) :=
  match o with Set_ k _ | Get k | Remove k => k | Clear => None end.

(** The call on a table; [set] and [clear] deliver no data. *)
Definition run_op (clock : nat -> Z) (ht : hashtable) (o : op) : hashtable * result Z :=
  match o with
  | Set_ k d => let '(ht, r) := ina_hashtable_set clock ht k d in (ht, _ <-! r; Ok 0)
  | Get k => ina_hashtable_get clock ht k
  | Remove k => ina_hashtable_remove clock ht k
  | Clear => (ina_hashtable_clear ht, Ok 0)
  end.

(** The call on a map. *)
Definition spec_op (m : gmap (list Z) Z) (o : op) : gmap (list Z) Z * result Z :=
  let not_found := Err (INA_ERR_NOT_ E_FOUND) in
  match o with
  | Set_ (Some k) d => if d =? 0 then (m, Err INA_ERR_INVALID_ARGUMENT) else (<[k := d]> m, Ok 0)
  | Get (Some k) => (m, from_option Ok not_found (m !! k))
  | Remove (Some k) => (delete k m, from_option Ok not_found (m !! k))
  | Set_ None _ | Get None | Remove None => (m, Err INA_ERR_INVALID_ARGUMENT)
  | Clear => (∅, Ok 0)
  end.

Fixpoint run_ops {S} (step : S -> op -> S * result Z) (s : S) (ops : list op) : S * list (result Z) :=
  match ops with
  | [] => (s, [])
  | o :: ops =>
      let '(s, r) := step s o in
      let '(s, rs) := run_ops step s ops in
      (s, r :: rs)
  end.

Definition valid_op (n : nat) (o : op) : Prop := forall k, op_key o = Some k -> valid_key n k.

Lemma run_op_spec n clock ht m o :
  (4 <= n <= 16)%nat -> represents n ht m -> valid_op n o ->
  snd (run_op clock ht o) = snd (spec_op m o) /\
  represents n (fst (run_op clock ht o)) (fst (spec_op m o)).
Proof.
  intros Hn Hr Ho. destruct o as [[k|] d|[k|]|[k|]|]; cbn [run_op spec_op].
  - destruct (Z.eqb_spec d 0) as [->|Hd].
    + split; [done|by apply represents_push].
    + pose proof (set_represents n Hn clock ht m k d Hr (Ho k eq_refl) Hd) as H.
      destruct (ina_hashtable_set clock ht (Some k) d) as [ht' r]. by destruct H as (? & -> & _).
  - split; [done|by apply represents_push].
  - pose proof (get_represents n Hn clock ht k m Hr (Ho k eq_refl)) as H.
    destruct (ina_hashtable_get clock ht (Some k)) as [ht' r]. destruct H as (? & _ & ->).
    by destruct (m !! k).
  - split; [done|by apply represents_push].
  - pose proof (remove_represents n Hn clock ht m k Hr (Ho k eq_refl)) as H.
    destruct (ina_hashtable_remove clock ht (Some k)) as [ht' r]. destruct H as (? & -> & _).
    by destruct (m !! k).
  - split; [done|by apply represents_push].
  - split; [done|by eapply clear_represents].
Qed.

Lemma run_ops_spec n clock ht m ops :
  (4 <= n <= 16)%nat -> represents n ht m -> Forall (valid_op n) ops ->
  snd (run_ops (run_op clock) ht ops) = snd (run_ops spec_op m ops) /\
  represents n (fst (run_ops (run_op clock) ht ops)) (fst (run_ops spec_op m ops)).
Proof.
  intros Hn Hr Hops. revert ht m Hr. induction Hops as [|o ops Ho _ IH]; intros ht m Hr; [done|].
  destruct (run_op_spec n clock ht m o Hn Hr Ho) as [H1 H2]. simpl.
  destruct (run_op clock ht o) as [ht' r], (spec_op m o) as [m' r']. simpl in *.
  destruct (IH ht' m' H2) as [H3 H4].
  destruct (run_ops (run_op clock) ht' ops), (run_ops spec_op m' ops). simpl in *. by subst.
Qed.



(** ** Traversal *)

Definition node_data (nd : node) : option Z := if n_data nd =? 0 then None else Some (n_data nd).

Lemma omap_node_cons nd es :
  omap node_data (nd :: es) =
  if n_data nd =? 0 then omap node_data es else n_data nd :: omap node_data es.
Proof. simpl. unfold node_data at 1. by destruct (n_data nd =? 0). Qed.

Definition bucket_data (b : bucket) : list Z := omap node_data (entries b).

Definition bucket_contents (n : nat) (b : bucket) : list (list Z * Z) :=
  omap (fun nd => (fun d => (node_key n nd, d)) <$> node_data nd) (entries b).

Lemma bucket_contents_data n b : (bucket_contents n b).*2 = bucket_data b.
Proof.
  unfold bucket_contents, bucket_data. induction (entries b) as [|nd es IH]; [done|].
  simpl. destruct (node_data nd); simpl; [f_equal|]; exact IH.
Qed.

Lemma elem_of_bucket_contents n b k d : (k, d) ∈ bucket_contents n b <-> stored n b k d.
Proof.
  unfold bucket_contents, stored. rewrite list_elem_of_omap. split.
  - intros (nd & Hin & Hnd). unfold node_data in Hnd.
    destruct (Z.eqb_spec (n_data nd) 0); [done|]. simpl in Hnd. simplify_eq. split; [done|]. by exists nd.
  - intros (Hd & nd & Hin & <- & <-). exists nd. split; [done|]. unfold node_data.
    by destruct (Z.eqb_spec (n_data nd) 0).
Qed.

(** The live entries in the order of the buckets. *)
Definition contents (n : nat) (ht : hashtable) : list (list Z * Z) :=
  concat (map (bucket_contents n) (take (Z.to_nat (ht_capacity ht)) (ht_buckets ht))).

Lemma NoDup_bucket_contents n ht j b : wf_bucket n ht j b -> NoDup (bucket_contents n b).*1.
Proof.
  intros [_ _ Hu]. unfold bucket_contents.
  assert (forall i nd, entries b !! i = Some nd ->
    forall i' nd', entries b !! i' = Some nd' -> node_key n nd = node_key n nd' -> i = i') as Hu'
    by (intros; by eapply Hu).
  clear Hu. induction (entries b) as [|nd es IH]; simpl; [apply NoDup_nil_2|].
  assert (NoDup (omap (fun nd => (fun d => (node_key n nd, d)) <$> node_data nd) es).*1) as Hes.
  { apply IH. intros i1 nd1 H1 i2 nd2 H2 Hk.
    enough (S i1 = S i2) by congruence. by eapply (Hu' (S i1) nd1 H1 (S i2) nd2 H2). }
  destruct (node_data nd) eqn:Hnd; simpl; [|done].
  apply NoDup_cons. split; [|done].
  intros ([k d] & Hk & Hin)%list_elem_of_fmap. simpl in Hk.
  apply list_elem_of_omap in Hin as (nd' & [i Hi]%list_elem_of_lookup & Hnd').
  destruct (node_data nd'); simplify_eq/=.
  discriminate (Hu' 0%nat nd eq_refl (S i) nd' Hi ltac:(congruence)).
Qed.

Lemma contents_spec n ht m : represents n ht m -> contents n ht ≡ₚ map_to_list m.
Proof.
  intros [Hc Hl Hb Hm]. set (bs := take (Z.to_nat (ht_capacity ht)) (ht_buckets ht)).
  assert (forall j b, bs !! j = Some b -> (j < Z.to_nat (ht_capacity ht))%nat /\ bucket_at ht j = b) as Hbs.
  { intros j b Hj. apply lookup_take_Some in Hj as [Hj ?]. split; [done|].
    unfold bucket_at. by rewrite nth_lookup, Hj. }
  assert (forall j b k d, bs !! j = Some b -> (k, d) ∈ bucket_contents n b -> j = idx ht k) as Hidx.
  { intros j b k d Hj (_ & nd & [i Hi]%list_elem_of_lookup & <- & _)%elem_of_bucket_contents.
    destruct (Hbs j b Hj) as [Hlt <-]. destruct (Hb j Hlt) as [_ He _].
    destruct (He i nd Hi) as [_ H]. unfold idx. by rewrite H, Nat2Z.id. }
  apply NoDup_Permutation; [|apply NoDup_map_to_list|].
  - unfold contents. fold bs.
    assert (forall j b, bs !! j = Some b -> NoDup (bucket_contents n b)) as Hnd.
    { intros j b Hj. destruct (Hbs j b Hj) as [Hlt <-].
      by apply (NoDup_fmap_1 fst), (NoDup_bucket_contents n ht j), Hb. }
    clearbody bs. clear Hbs Hb Hm.
    assert (forall j b k d, bs !! j = Some b -> (k, d) ∈ bucket_contents n b -> (0 + j)%nat = idx ht k) as Hidx' by done.
    clear Hidx. revert Hidx'. generalize 0%nat. induction bs as [|b bs IH]; intros o Hidx; simpl; [apply NoDup_nil_2|].
    apply NoDup_app. split_and!.
    + by apply (Hnd 0%nat).
    + intros [k d] Hin (l & Hl' & Hin')%list_elem_of_In%in_concat.
      apply list_elem_of_In in Hin'. apply list_elem_of_In, list_elem_of_fmap in Hl' as (b' & -> & [j Hj]%list_elem_of_lookup).
      pose proof (Hidx 0%nat b k d eq_refl Hin). pose proof (Hidx (S j) b' k d Hj Hin'). lia.
    + apply (IH (fun j b H => Hnd (S j) b H) (S o)). intros j b' k d Hj Hin.
      rewrite <- (Hidx (S j) b' k d Hj Hin). lia.
  - intros [k d]. rewrite elem_of_map_to_list, Hm. unfold contents. fold bs.
    rewrite list_elem_of_In, in_concat. split.
    + intros (l & Hl' & Hin). apply list_elem_of_In in Hin.
      apply list_elem_of_In, list_elem_of_fmap in Hl' as (b & -> & [j Hj]%list_elem_of_lookup).
      pose proof (Hidx j b k d Hj Hin) as ->. destruct (Hbs _ b Hj) as [Hlt <-].
      apply elem_of_bucket_contents in Hin. split; [|done].
      destruct Hin as (_ & nd & [i Hi]%list_elem_of_lookup & <- & _).
      by destruct (Hb _ Hlt) as [_ He _]; apply (He i nd).
    + intros [Hk Hst]. exists (bucket_contents n (bucket_at ht (idx ht k))).
      split; [|by apply list_elem_of_In, elem_of_bucket_contents].
      apply list_elem_of_In, list_elem_of_fmap. eexists. split; [done|].
      pose proof (idx_range ht k Hc) as Hlt. apply list_elem_of_lookup. exists (idx ht k).
      unfold bs. rewrite lookup_take_lt by done. unfold bucket_at. rewrite nth_lookup.
      destruct (lookup_lt_is_Some_2 (ht_buckets ht) (idx ht k)) as [b Hb']; [lia|]. by rewrite Hb'.
Qed.

(** Calling back on each element of a list until a call fails. *)
Fixpoint visit {St} (foreach_fn : St -> Z -> St * Z) (get_rc : St -> Z) (ds : list Z) (s : St)
    : St * option Z :=
  match ds with
  | [] => (s, None)
  | d :: ds =>
      let '(s, rc) := foreach_fn s d in
      if INA_FAILED rc then (s, Some (get_rc s)) else visit foreach_fn get_rc ds s
  end.

Lemma visit_app {St} f (g : St -> Z) ds ds' s :
  visit f g (ds ++ ds') s =
  match visit f g ds s with (s, Some rc) => (s, Some rc) | (s, None) => visit f g ds' s end.
Proof.
  revert s. induction ds as [|d ds IH]; intros s; simpl; [done|].
  destruct (f s d) as [s' rc]. by destruct (INA_FAILED rc).
Qed.

Lemma foreach_nodes_visit {St} f (g : St -> Z) count i es rest s :
  count = i + Z.of_nat (length es) ->
  foreach_nodes f g count i (es ++ rest) s = visit f g (omap node_data es) s.
Proof.
  revert i s. induction es as [|nd es IH]; intros i s Hc; simpl in *.
  - destruct rest; simpl; [done|]. by destruct (Z.ltb_spec i count); [lia|].
  - destruct (Z.ltb_spec i count); [|lia]. unfold node_data at 1. simpl.
    destruct (n_data nd =? 0); simpl; [apply IH; lia|].
    destruct (f s (n_data nd)) as [s' rc]. destruct (INA_FAILED rc); [done|]. apply IH. lia.
Qed.

Lemma foreach_buckets_visit {St} f (g : St -> Z) bs s :
  Forall wf_shape bs ->
  foreach_buckets f g bs s = visit f g (concat (map bucket_data bs)) s.
Proof.
  intros Hbs. revert s. induction Hbs as [|b bs Hb _ IH]; intros s; [done|].
  cbn [foreach_buckets map concat]. rewrite visit_app.
  pose proof (wf_count _ Hb). pose proof (entries_length b Hb) as Hl.
  destruct (Z.ltb_spec 0 (b_count b)) as [Hpos|Hneg].
  - rewrite (entries_app b) at 1. rewrite foreach_nodes_visit by lia.
    fold (bucket_data b). destruct (visit f g (bucket_data b) s) as [s' [rc|]]; [done|apply IH].
  - assert (bucket_data b = []) as ->; [|apply IH].
    unfold bucket_data. destruct (entries b); [done|]. simpl in Hl. lia.
Qed.

(** The iterator: the data still to come. *)
Definition it_remaining (ht : hashtable) (it : iter) : list Z :=
  match drop (Z.to_nat (it_bucket it)) (take (Z.to_nat (ht_capacity ht)) (ht_buckets ht)) with
  | [] => []
  | b :: bs => omap node_data (drop (Z.to_nat (it_node it)) (entries b)) ++ concat (map bucket_data bs)
  end.

Definition it_ok (ht : hashtable) (it : iter) : Prop :=
  0 <= it_bucket it /\ 0 <= it_node it /\ it_checksum it = ht_count ht.

Lemma iter_nodes_spec count i es rest :
  0 <= i -> i + Z.of_nat (length es) <= Z.max i count -> (rest <> [] -> count <= i + Z.of_nat (length es)) ->
  match iter_nodes count i (es ++ rest) with
  | Some (d, i') => i < i' /\ omap node_data es = d :: omap node_data (drop (Z.to_nat (i' - i)) es)
  | None => omap node_data es = []
  end.
Proof.
  intros Hi. revert i Hi. induction es as [|nd es IH]; intros i Hi Hc Hr; simpl in Hc, Hr.
  - destruct rest as [|nd rest]; simpl; [done|]. specialize (Hr ltac:(done)).
    by destruct (Z.ltb_spec i count); [lia|].
  - rewrite omap_node_cons. cbn [app iter_nodes].
    destruct (Z.ltb_spec i count); [|lia]. cbn [negb].
    destruct (n_data nd =? 0); simpl.
    + specialize (IH (i + 1) ltac:(lia) ltac:(lia) ltac:(intros; specialize (Hr ltac:(done)); lia)).
      destruct (iter_nodes _ _ _) as [[d i']|]; [|done]. destruct IH as [? ->].
      split; [lia|]. replace (Z.to_nat (i' - i)) with (S (Z.to_nat (i' - (i + 1)))) by lia. done.
    + split; [lia|]. replace (i + 1 - i) with 1 by lia. done.
Qed.

Lemma iter_bucket_nodes b ni :
  wf_shape b -> 0 <= ni ->
  match iter_nodes (b_count b) ni (drop (Z.to_nat ni) (b_nodes b)) with
  | Some (d, ni') => ni < ni' /\
      omap node_data (drop (Z.to_nat ni) (entries b)) =
      d :: omap node_data (drop (Z.to_nat ni') (entries b))
  | None => omap node_data (drop (Z.to_nat ni) (entries b)) = []
  end.
Proof.
  intros Hs Hni. pose proof (entries_length b Hs) as Hl. pose proof (wf_count _ Hs).
  pose proof (iter_nodes_spec (b_count b) ni (drop (Z.to_nat ni) (entries b))
    (drop (Z.to_nat ni - length (entries b)) (drop (Z.to_nat (b_count b)) (b_nodes b)))) as Hsp.
  rewrite <- skipn_app, <- entries_app in Hsp.
  specialize (Hsp Hni). rewrite length_drop in Hsp.
  specialize (Hsp ltac:(lia) ltac:(lia)).
  destruct (iter_nodes _ _ _) as [[d ni']|]; [|done]. destruct Hsp as [? ->].
  split; [done|]. rewrite drop_drop. do 3 f_equal. lia.
Qed.

Lemma iter_buckets_spec bi ni bs :
  Forall wf_shape bs -> 0 <= ni ->
  let rem ni bs := match bs with
    | [] => [] | b :: bs => omap node_data (drop (Z.to_nat ni) (entries b)) ++ concat (map bucket_data bs) end in
  match iter_buckets bi ni bs with
  | Some (d, bi', ni') => bi <= bi' /\ 0 <= ni' /\
      rem ni bs = d :: rem ni' (drop (Z.to_nat (bi' - bi)) bs)
  | None => rem ni bs = []
  end.
Proof.
  intros Hbs Hni. revert bi ni Hni. induction Hbs as [|b bs Hb Hbs IH]; intros bi ni Hni; [done|].
  cbn [iter_buckets]. cbn zeta.
  pose proof (iter_bucket_nodes b ni Hb Hni) as Hn. destruct (iter_nodes _ _ _) as [[d ni']|].
  - destruct Hn as [? ->]. rewrite Z.sub_diag. simpl. split_and!; [lia|lia|done].
  - rewrite Hn. specialize (IH (bi + 1) 0 ltac:(lia)). cbn zeta in IH.
    assert (concat (map bucket_data bs) = match bs with
      | [] => [] | b :: bs => omap node_data (drop (Z.to_nat 0) (entries b)) ++ concat (map bucket_data bs) end) as Heq
      by (by destruct bs).
    simpl app. rewrite Heq.
    destruct (iter_buckets (bi + 1) 0 bs) as [[[d bi'] ni']|]; [|done].
    destruct IH as (? & ? & ->). split_and!; [lia|done|].
    replace (Z.to_nat (bi' - bi)) with (S (Z.to_nat (bi' - (bi + 1)))) by lia. done.
Qed.

Lemma iter_next_spec ht it :
  Forall wf_shape (take (Z.to_nat (ht_capacity ht)) (ht_buckets ht)) -> it_ok ht it ->
  let '(it', r) := ina_hashtable_iter_next ht it in
  match it_remaining ht it with
  | [] => r = Err (INA_ERR E_END_OF)
  | d :: ds => r = Ok d /\ it_ok ht it' /\ it_remaining ht it' = ds
  end.
Proof.
  intros Hbs (Hbi & Hni & Hcs). unfold ina_hashtable_iter_next. rewrite Hcs, Z.eqb_refl. simpl.
  pose proof (iter_buckets_spec (it_bucket it) (it_node it)
    (drop (Z.to_nat (it_bucket it)) (take (Z.to_nat (ht_capacity ht)) (ht_buckets ht)))) as H.
  specialize (H ltac:(by apply Forall_drop) Hni). cbn zeta in H.
  unfold it_remaining. destruct (iter_buckets _ _ _) as [[[d bi] ni]|]; [|by rewrite H].
  destruct H as (? & ? & ->). split; [done|]. split; [by split_and!; simpl; lia|].
  simpl. rewrite drop_drop.
  by replace (Z.to_nat (it_bucket it) + Z.to_nat (bi - it_bucket it))%nat with (Z.to_nat bi) by lia.
Qed.

(** Calling [ina_hashtable_iter_next] until it fails. *)
Fixpoint drain (fuel : nat) (ht : hashtable) (it : iter) : list Z * option Z :=
  match fuel with
  | O => ([], None)
  | S fuel =>
      match ina_hashtable_iter_next ht it with
      | (it, Ok d) => let '(ds, rc) := drain fuel ht it in (d :: ds, rc)
      | (_, Err e) => ([], Some e)
      end
  end.

Lemma drain_spec fuel ht it :
  Forall wf_shape (take (Z.to_nat (ht_capacity ht)) (ht_buckets ht)) -> it_ok ht it ->
  (length (it_remaining ht it) < fuel)%nat ->
  drain fuel ht it = (it_remaining ht it, Some (INA_ERR E_END_OF)).
Proof.
  intros Hbs. revert it. induction fuel as [|fuel IH]; intros it Hit Hf; [lia|].
  cbn [drain]. pose proof (iter_next_spec ht it Hbs Hit) as H.
  destruct (ina_hashtable_iter_next ht it) as [it' r].
  destruct (it_remaining ht it) as [|d ds]; [by subst|].
  destruct H as (-> & Hit' & <-). rewrite IH; [done|done|]. simpl in Hf. lia.
Qed.

Lemma represents_shapes n ht m :
  represents n ht m -> Forall wf_shape (take (Z.to_nat (ht_capacity ht)) (ht_buckets ht)).
Proof.
  intros Hr. apply Forall_lookup. intros j b Hj. apply lookup_take_Some in Hj as [Hj Hlt].
  destruct (rep_buckets _ _ _ Hr j Hlt) as [Hs _ _]. unfold bucket_at in Hs. by rewrite nth_lookup, Hj in Hs.
Qed.

Lemma contents_data n ht :
  (contents n ht).*2 = concat (map bucket_data (take (Z.to_nat (ht_capacity ht)) (ht_buckets ht))).
Proof.
  unfold contents. induction (take _ _) as [|b bs IH]; [done|]. simpl.
  by rewrite fmap_app, bucket_contents_data, IH.
Qed.

(** Iterating over a whole table delivers its contents. *)
Lemma drain_contents n ht m fuel :
  represents n ht m -> (length (contents n ht) < fuel)%nat ->
  drain fuel ht (ina_hashtable_iter_new ht) = ((contents n ht).*2, Some (INA_ERR E_END_OF)).
Proof.
  intros Hr Hf. assert (it_remaining ht (ina_hashtable_iter_new ht) = (contents n ht).*2) as Hrem.
  { rewrite contents_data. unfold it_remaining. simpl. by destruct (take _ _). }
  rewrite <- Hrem. apply drain_spec; [by eapply represents_shapes|by split_and!|]. by rewrite Hrem, length_fmap.
Qed.

(** Traversals of a table that represents the map [m]: there is an order
    [l] of the key/data pairs of [m], each exactly once, such that
    [ina_hashtable_foreach] calls back on the data in that order and stops at
    the first call that fails, and calling [ina_hashtable_iter_next] on a new
    iterator delivers the same data one by one, then the error END_OF. *)
Theorem traversals_visit_the_map n ht m :
  represents n ht m ->
  exists l, l ≡ₚ map_to_list m /\
    (forall St foreach_fn (get_rc : St -> Z) s,
      ina_hashtable_foreach foreach_fn get_rc ht s = visit foreach_fn get_rc l.*2 s) /\
    forall fuel, (length l < fuel)%nat ->
      drain fuel ht (ina_hashtable_iter_new ht) = (l.*2, Some (INA_ERR E_END_OF)).
Proof.
  intros Hr. exists (contents n ht). split; [by apply contents_spec|]. split.
  - intros. rewrite contents_data. apply foreach_buckets_visit. by eapply represents_shapes.
  - intros fuel Hf. by eapply drain_contents.
Qed.

(** A table to evaluate: one bucket, keys of four bytes, no statistics. *)
Definition small_table : hashtable :=
  Hashtable_ 0 64 1 4 INA_HASHTABLE_UINT32_KEY [zero_bucket; zero_bucket]
    (hash32_fn ina_hash_crc32) 0 0 None 0.

Lemma small_table_represents : represents 4 small_table ∅.
Proof. by eapply (new_represents 4 (fun _ => 0) (fun _ _ _ => 0) (repeat 0 16) INA_HASHTABLE_UINT32_KEY None 1 0). Qed.

Lemma u32_valid x : (read32 (key_of_u32 x) 0 =? 0) = false -> valid_key 4 (key_of_u32 x).
Proof. intros H. split; [done|by apply Z.eqb_neq]. Qed.

Definition small_ops : list op :=
  [Set_ (Some (key_of_u32 1)) 10; Set_ (Some (key_of_u32 2)) 20; Remove (Some (key_of_u32 1));
   Set_ (Some (key_of_u32 3)) 30].

Lemma small_ops_valid : Forall (valid_op 4) small_ops.
Proof.
  unfold small_ops. repeat apply Forall_cons_2; try apply Forall_nil_2;
    intros k [= <-]; by apply u32_valid.
Qed.

Lemma traversals_visit_the_map_witness :
  let ht := fst (run_ops (run_op (fun _ => 0)) small_table small_ops) in
  let m := fst (run_ops spec_op ∅ small_ops) in
  represents 4 ht m /\
  exists l, l ≡ₚ map_to_list m /\
    (forall St foreach_fn (get_rc : St -> Z) s,
      ina_hashtable_foreach foreach_fn get_rc ht s = visit foreach_fn get_rc l.*2 s) /\
    forall fuel, (length l < fuel)%nat ->
      drain fuel ht (ina_hashtable_iter_new ht) = (l.*2, Some (INA_ERR E_END_OF)).
Proof.
  assert (represents 4 (fst (run_ops (run_op (fun _ => 0)) small_table small_ops))
    (fst (run_ops spec_op ∅ small_ops))) as H.
  { apply run_ops_spec; [lia|exact small_table_represents|exact small_ops_valid]. }
  split; [exact H|]. exact (traversals_visit_the_map 4 _ _ H).
Defined.

(** ** The element count *)

(** The sequences in which no key is set again after it was removed. *)
Fixpoint no_revival (dead : list (list Z)) (ops : list op) : Prop :=
  match ops with
  | [] => True
  | Set_ (Some k) _ :: ops => k ∉ dead /\ no_revival dead ops
  | Remove (Some k) :: ops => no_revival (k :: dead) ops
  | Clear :: ops => no_revival [] ops
  | _ :: ops => no_revival dead ops
  end.

Lemma count_insert (m : gmap (list Z) Z) k d :
  Z.of_nat (size (<[k := d]> m)) = Z.of_nat (size m) + (if m !! k then 0 else 1).
Proof.
  destruct (m !! k) eqn:Hm.
  - rewrite map_size_insert_Some by by eexists. lia.
  - rewrite map_size_insert_None by done. lia.
Qed.

Lemma count_delete (m : gmap (list Z) Z) k :
  Z.of_nat (size (delete k m)) = Z.of_nat (size m) - (if m !! k then 1 else 0).
Proof.
  destruct (m !! k) eqn:Hm.
  - rewrite map_size_delete_Some by by eexists.
    assert (size m <> 0%nat) by (apply map_size_non_empty_iff; intros ->; by rewrite lookup_empty in Hm).
    lia.
  - rewrite map_size_delete_None by done. lia.
Qed.

Lemma count_spec n clock ht m dead ops :
  (4 <= n <= 16)%nat -> represents n ht m -> Forall (valid_op n) ops -> no_revival dead ops ->
  (forall k, removed n ht k -> k ∈ dead) -> ht_count ht = Z.of_nat (size m) ->
  ht_count (fst (run_ops (run_op clock) ht ops)) = Z.of_nat (size (fst (run_ops spec_op m ops))).
Proof.
  intros Hn Hr Hops. revert ht m dead Hr.
  induction Hops as [|o ops Ho _ IH]; intros ht m dead Hr Hdead Hrem Hcnt; [done|].
  enough (exists dead', no_revival dead' ops /\
    (forall k, removed n (fst (run_op clock ht o)) k -> k ∈ dead') /\
    ht_count (fst (run_op clock ht o)) = Z.of_nat (size (fst (spec_op m o)))) as (dead' & H1 & H2 & H3).
  { destruct (run_op_spec n clock ht m o Hn Hr Ho) as [_ Hr'].
    specialize (IH _ _ dead' Hr' H1 H2 H3). cbn [run_ops].
    destruct (run_op clock ht o) as [ht' r], (spec_op m o) as [m' r']. simpl in *.
    by destruct (run_ops (run_op clock) ht' ops), (run_ops spec_op m' ops). }
  destruct o as [[k|] d|[k|]|[k|]|]; cbn [run_op spec_op no_revival] in *.
  - destruct Hdead as [Hk Hdead]. exists dead. split; [done|].
    destruct (Z.eqb_spec d 0) as [->|Hd].
    { split; [intros k' Hk'%removed_push; auto|]. etrans; [apply push_event_fields|done]. }
    pose proof (set_represents n Hn clock ht m k d Hr (Ho k eq_refl) Hd) as H.
    destruct (ina_hashtable_set clock ht (Some k) d) as [ht' r]. simpl in *.
    destruct H as (_ & _ & Hr' & Hold & Hnew). split; [auto|]. rewrite count_insert.
    destruct (m !! k) eqn:Hm; [rewrite Hold by (by eexists); lia|]. rewrite Hnew; [lia|done|]. auto.
  - exists dead. split; [done|]. split; [intros k' Hk'%removed_push; auto|].
    etrans; [apply push_event_fields|done].
  - exists dead. split; [done|].
    pose proof (get_represents n Hn clock ht k m Hr (Ho k eq_refl)) as H.
    pose proof (get_removed n clock ht k m Hn Hr) as H'.
    destruct (ina_hashtable_get clock ht (Some k)) as [ht' r]. destruct H as (_ & Hc & _). simpl in *.
    split; [auto|lia].
  - exists dead. split; [done|]. split; [intros k' Hk'%removed_push; auto|].
    etrans; [apply push_event_fields|done].
  - exists (k :: dead). split; [done|].
    pose proof (remove_represents n Hn clock ht m k Hr (Ho k eq_refl)) as H.
    destruct (ina_hashtable_remove clock ht (Some k)) as [ht' r]. simpl in *.
    destruct H as (_ & _ & Hr' & Hc). rewrite count_delete. split; [|lia].
    intros k' [?|[-> _]]%Hr'; apply elem_of_cons; auto.
  - exists dead. split; [done|]. split; [intros k' Hk'%removed_push; auto|].
    etrans; [apply push_event_fields|done].
  - exists []. split; [done|]. destruct (clear_represents n ht m Hr) as (_ & Hnr & Hc).
    simpl. split; [|done]. intros k' Hk'. by apply Hnr in Hk'.
Qed.

(** The element count of a table is the number of its keys, as long as no
    key is set again after it was removed (and nothing was cleared since). *)
Theorem count_is_number_of_keys n clock ext ids kt hty capacity cf ids' ht ops :
  (4 <= n <= 16)%nat -> 0 <= capacity ->
  ina_hashtable_new clock ext ids kt hty capacity cf = (ids', Ok ht) ->
  Forall (valid_op n) ops -> no_revival [] ops ->
  ina_hashtable_count (fst (run_ops (run_op clock) ht ops)) =
  u64 (Z.of_nat (size (fst (run_ops spec_op ∅ ops)))).
Proof.
  intros Hn Hcap Hnew Hops Hnr. destruct (new_represents n _ _ _ _ _ _ _ _ _ Hcap Hnew) as (Hr & Hrem & Hc).
  unfold ina_hashtable_count. f_equal. apply (count_spec n clock ht ∅ []); try done.
  intros k Hk. by apply Hrem in Hk.
Qed.

Lemma count_is_number_of_keys_witness :
  exists ids' ht,
    ina_hashtable_new (fun _ => 0) (fun _ _ _ => 0) (repeat 0 16) INA_HASHTABLE_UINT32_KEY None 1 0
      = (ids', Ok ht) /\
    no_revival [] small_ops /\
    ina_hashtable_count (fst (run_ops (run_op (fun _ => 0)) ht small_ops)) =
    u64 (Z.of_nat (size (fst (run_ops spec_op ∅ small_ops)))).
Proof.
  assert (no_revival [] small_ops) as Hnr by (vm_compute; set_solver).
  eexists _, _. split; [reflexivity|]. split; [exact Hnr|].
  eapply (count_is_number_of_keys 4 (fun _ => 0) (fun _ _ _ => 0) (repeat 0 16)
    INA_HASHTABLE_UINT32_KEY None 1 0); [lia|lia|reflexivity|exact small_ops_valid|exact Hnr].
Defined.

(** The count of a table is wrong after a removed key is set again: the
    node of the key is found and filled without counting it, so that the
    table holds one key and counts none; removing it makes the count, which
    is returned as an unsigned number, 2^64 - 1. *)
Theorem revived_key_is_not_counted :
  let k := Some (key_of_u32 7) in
  let '(ht, rs) := run_ops (run_op (fun _ => 0)) small_table [Set_ k 5; Remove k; Set_ k 6; Get k] in
  rs = [Ok 0; Ok 5; Ok 0; Ok 6] /\ ina_hashtable_count ht = 0 /\
  ina_hashtable_count (fst (ina_hashtable_remove (fun _ => 0) ht k)) = 2 ^ 64 - 1.
Proof. vm_compute. done. Qed.

(** Keys outside the contract of the refinement: a key whose first four
    bytes are zero is stored but never found (and hides the keys behind it in
    its bucket), and a lookup compares only the bytes of the key it is given,
    so that a string finds the data of a longer string in its bucket, and
    setting it overwrites them. *)
Theorem keys_outside_the_contract :
  let set k d := Set_ (Some k) d in let get k := Get (Some k) in
  let run ops := snd (run_ops (run_op (fun _ => 0)) small_table ops) in
  run [set (key_of_u32 0) 5; get (key_of_u32 0)] = [Ok 0; Err (INA_ERR_NOT_ E_FOUND)] /\
  run [set (key_u64 (2 ^ 32)) 5; get (key_u64 (2 ^ 32))] = [Ok 0; Err (INA_ERR_NOT_ E_FOUND)] /\
  run [set (key_of_u32 0) 5; set (key_of_u32 7) 6; get (key_of_u32 7)]
    = [Ok 0; Ok 0; Err (INA_ERR_NOT_ E_FOUND)] /\
  run [set (key_str (bytes_of_string "port_number")) 5; get (key_str (bytes_of_string "port"));
       set (key_str (bytes_of_string "port")) 6; get (key_str (bytes_of_string "port_number"))]
    = [Ok 0; Ok 5; Ok 0; Ok 6].
Proof. vm_compute. done. Qed.

(** ** Identifiers of tables with statistics *)

Lemma first_unused_spec fuel ids id :
  0 <= id -> INA_HASHTABLE_MAX_STAT_TABLES - id <= Z.of_nat fuel -> length ids = 16%nat ->
  id <= INA_HASHTABLE_MAX_STAT_TABLES ->
  let r := first_unused fuel ids id in
  id <= r <= INA_HASHTABLE_MAX_STAT_TABLES /\
  (forall i, id <= i < r -> nthZ 0 ids i <> 0) /\
  (r < INA_HASHTABLE_MAX_STAT_TABLES -> nthZ 0 ids r = 0).
Proof.
  unfold INA_HASHTABLE_MAX_STAT_TABLES. intros Hid Hf Hl. revert id Hid Hf.
  induction fuel as [|fuel IH]; intros id Hid Hf Hle; cbn zeta; simpl.
  - split_and!; [lia|lia|lia|lia].
  - unfold INA_HASHTABLE_MAX_STAT_TABLES.
    destruct (Z.eqb_spec (nthZ 0 ids id) 0) as [H0|H0], (Z.ltb_spec id 16); simpl;
      try (split_and!; [lia|lia|lia|done || lia]).
    destruct (IH (id + 1) ltac:(lia) ltac:(lia) ltac:(lia)) as (? & Hu & ?).
    split_and!; [lia|lia| |done]. intros i Hi. destruct (decide (i = id)) as [->|]; [done|].
    apply Hu. lia.
Qed.

(** [__ina_set_hashtable_id] hands out the first free identifier and marks
    it as used; it fails with EXCEEDED exactly if all sixteen are used, and
    then changes nothing. *)
Theorem set_hashtable_id_spec ids :
  length ids = 16%nat ->
  match __ina_set_hashtable_id ids with
  | (ids', Ok id) =>
      1 <= id <= INA_HASHTABLE_MAX_STAT_TABLES /\ nthZ 0 ids (id - 1) = 0 /\
      (forall i, 0 <= i < id - 1 -> nthZ 0 ids i <> 0) /\
      ids' = <[Z.to_nat (id - 1) := 1]> ids
  | (ids', Err e) =>
      e = INA_ERR E_EXCEEDED /\ ids' = ids /\
      forall i, 0 <= i < INA_HASHTABLE_MAX_STAT_TABLES -> nthZ 0 ids i <> 0
  end.
Proof.
  intros Hl. pose proof (first_unused_spec 17 ids 0) as H.
  unfold __ina_set_hashtable_id, INA_HASHTABLE_MAX_STAT_TABLES in *.
  destruct (H ltac:(lia) ltac:(lia) Hl ltac:(lia)) as (Hr & Hu & Hf). cbn zeta.
  destruct (Z.ltb_spec 16 (first_unused 17 ids 0 + 1)).
  - split_and!; [done..|]. intros i Hi. apply Hu. lia.
  - split_and!; [lia|lia| | |done].
    + rewrite Z.add_simpl_r. apply Hf. lia.
    + intros i Hi. apply Hu. lia.
Qed.

Lemma set_hashtable_id_spec_witness :
  let ids := [1; 1; 0; 1; 0; 0; 0; 0; 0; 0; 0; 0; 0; 0; 0; 0] in
  length ids = 16%nat /\
  match __ina_set_hashtable_id ids with
  | (ids', Ok id) =>
      1 <= id <= INA_HASHTABLE_MAX_STAT_TABLES /\ nthZ 0 ids (id - 1) = 0 /\
      (forall i, 0 <= i < id - 1 -> nthZ 0 ids i <> 0) /\
      ids' = <[Z.to_nat (id - 1) := 1]> ids
  | (ids', Err e) =>
      e = INA_ERR E_EXCEEDED /\ ids' = ids /\
      forall i, 0 <= i < INA_HASHTABLE_MAX_STAT_TABLES -> nthZ 0 ids i <> 0
  end.
Proof.
  split; [reflexivity|].
  exact (set_hashtable_id_spec [1; 1; 0; 1; 0; 0; 0; 0; 0; 0; 0; 0; 0; 0; 0; 0] eq_refl).
Defined.

(** Creating and freeing a table with statistics [n] times. *)
Fixpoint create_and_free (n : nat) (ids : list Z) : list Z * option Z :=
  match n with
  | O => (ids, None)
  | S n =>
      match ina_hashtable_new (fun _ => 0) (fun _ _ _ => 0) ids INA_HASHTABLE_UINT32_KEY None 1
              INA_HASHTABLE_CF_STAT with
      | (ids, Ok ht) => create_and_free n (ina_hashtable_free ids ht)
      | (ids, Err e) => (ids, Some e)
      end
  end.

(** Freeing a table with statistics does not give its identifier back
    ([ina_hashtable_free] clears the entry after the table's own): sixteen
    tables can be created and freed one after the other, the seventeenth
    creation fails although no table exists. *)
Theorem identifiers_leak :
  snd (create_and_free 16 (repeat 0 16)) = None /\
  snd (create_and_free 17 (repeat 0 16)) = Some (INA_ERR E_EXCEEDED).
Proof. vm_compute. done. Qed.
End Hashtable.
