(* ===== verification/Dlist.v ===== *)
(** * Doubly linked lists (list.c)

    Nodes live in a heap that maps addresses to nodes; address 0 is the null
    pointer and is never allocated.  Every access goes through the heap: an
    access to memory that is not a node of the heap, or to an array out of its
    bounds, makes the operation [None].  A memory pool is modelled by the set
    of the nodes allocated from it; allocation is taken to succeed. *)
From Stdlib Require Import ZArith Lia Bool Sorted.
From stdpp Require Import base numbers option fin_maps gmap gmultiset list.
From S2P Require Import Prelude Error.
Import Error.

Module Dlist.
Local Open Scope inac_scope.

(** ** Data *)

Definition INA_LIST_DEFAULT_SIZE : Z := 256.
Definition INA_LIST_CF_NOMALLOC : Z := 1.
Definition INA_LIST_CF_DEFAULT : Z := 0.

(** [ina_list_node_s] *)
Record lnode := LNode { l_next : Z; l_prev : Z; l_data : Z }.

(** The heap, and the next address to allocate. *)
Record mem := Mem { m_heap : gmap Z lnode; m_fresh : Z }.

(** [ina_list_s]; the array [first_free] is null or has [max_recyclable]
    elements. *)
Record dlist := DList {
  d_head : Z;
  d_cf : Z;
  d_count : Z;
  d_max_recyclable : Z;
  d_mp : option (gset Z);
  d_first_free : option (list Z);
  d_last_free : Z
}.

Definition with_head (l : dlist) (p : Z) : dlist :=
  DList p (d_cf l) (d_count l) (d_max_recyclable l) (d_mp l) (d_first_free l) (d_last_free l).
Definition with_count (l : dlist) (n : Z) : dlist :=
  DList (d_head l) (d_cf l) n (d_max_recyclable l) (d_mp l) (d_first_free l) (d_last_free l).
Definition with_mp (l : dlist) (mp : option (gset Z)) : dlist :=
  DList (d_head l) (d_cf l) (d_count l) (d_max_recyclable l) mp (d_first_free l) (d_last_free l).
Definition with_free (l : dlist) (ff : option (list Z)) (n : Z) : dlist :=
  DList (d_head l) (d_cf l) (d_count l) (d_max_recyclable l) (d_mp l) ff n.

(** [p->field] and [p->field = v] *)
Definition load (m : mem) (p : Z) : option lnode := m_heap m !! p.
Definition store (m : mem) (p : Z) (f : lnode -> lnode) : option mem :=
  nd ← load m p; Some (Mem (<[p := f nd]> (m_heap m)) (m_fresh m)).
Definition set_next (m : mem) (p v : Z) : option mem :=
  store m p (fun nd => LNode v (l_prev nd) (l_data nd)).
Definition set_prev (m : mem) (p v : Z) : option mem :=
  store m p (fun nd => LNode (l_next nd) v (l_data nd)).
Definition set_data (m : mem) (p v : Z) : option mem :=
  store m p (fun nd => LNode (l_next nd) (l_prev nd) v).

(** [ina_mempool_dalloc(mp, sizeof(ina_list_node_t))]: a zero filled node of
    the pool; a null pool fails the assertion of [ina_mempool_dalloc]. *)
Definition dalloc (m : mem) (mp : option (gset Z)) : option (mem * option (gset Z) * Z) :=
  pool ← mp;
  let p := m_fresh m in
  Some (Mem (<[p := LNode 0 0 0]> (m_heap m)) (p + 1), Some ({[p]} ∪ pool), p).

(** [ina_mempool_free]: the nodes of the pool are gone. *)
Definition pool_free (m : mem) (pool : gset Z) : mem :=
  Mem (filter (fun kv => kv.1 ∉ pool) (m_heap m)) (m_fresh m).

(** Enough iterations for any list of distinct nodes of the heap. *)
Definition heap_fuel (m : mem) : nat := S (size (m_heap m)).

(** ** Operations *)

(** [ina_list_node_new] *)
Definition ina_list_node_new (m : mem) (l : dlist) : option (mem * dlist * Z) :=
  if negb (d_last_free l =? 0) then
    ff ← d_first_free l;
    p ← ff !! Z.to_nat (d_last_free l);
    Some (m, with_free l (d_first_free l) (d_last_free l - 1), p)
  else
    '(m, mp, p) ← dalloc m (d_mp l);
    Some (m, with_mp l mp, p).

(** [ina_list_node_free]; the caller's pointer becomes null. *)
Definition ina_list_node_free (l : dlist) (node : Z) : option dlist :=
  if node =? 0 then Some l else
  if d_last_free l <? d_max_recyclable l then
    let last := d_last_free l + 1 in
    ff ← d_first_free l;
    _ ← ff !! Z.to_nat last;
    Some (with_free l (Some (<[Z.to_nat last := node]> ff)) last)
  else Some l.

(** The copying loop of [ina_list_resize] from the node [next]: the new nodes'
    pool, head and tail. *)
Fixpoint copy_nodes (fuel : nat) (m : mem) (mp : option (gset Z)) (new_head new_tail next : Z)
    : option (mem * option (gset Z) * Z) :=
  match fuel with
  | O => None
  | S fuel =>
      if next =? 0 then Some (m, mp, new_head) else
      '(m, mp, new_node) ← dalloc m mp;
      m ← set_next m new_node 0;
      m ← set_prev m new_node new_tail;
      nd ← load m next;
      m ← set_data m new_node (l_data nd);
      '(m, new_head) ←
        (if negb (new_tail =? 0) then m ← set_next m new_tail new_node; Some (m, new_head)
         else Some (m, new_node));
      copy_nodes fuel m mp new_head new_node (l_next nd)
  end.

Definition ina_list_resize (m : mem) (l : dlist) (max_recyclable_nodes : Z)
    : option (mem * dlist * result unit) :=
  if negb (Z.land (d_cf l) INA_LIST_CF_NOMALLOC =? 0) then Some (m, l, Err INA_ERR_OPERATION_INVALID) else
  let mp := Some ∅ in
  '(m, l, mp) ←
    match d_mp l with
    | None => Some (m, l, mp)
    | Some old =>
        '(m, mp, head) ← copy_nodes (heap_fuel m) m mp 0 0 (d_head l);
        Some (pool_free m old, with_head l head, mp)
    end;
  let ff := if max_recyclable_nodes =? 0 then None else Some (repeat 0 (Z.to_nat max_recyclable_nodes)) in
  Some (m, DList (d_head l) (d_cf l) (d_count l) max_recyclable_nodes mp ff 0, Ok tt).

Definition ina_list_new (m : mem) (cf : Z) : option (mem * dlist) :=
  let l := DList 0 cf 0 INA_LIST_DEFAULT_SIZE None None 0 in
  if negb (Z.land cf INA_LIST_CF_NOMALLOC =? 0) then Some (m, l) else
  '(m, l, _) ← ina_list_resize m l INA_LIST_DEFAULT_SIZE;
  Some (m, l).

Definition ina_list_count (l : dlist) : Z := d_count l.

Definition ina_list_head (l : dlist) : Z := d_head l.

(** [ina_list_tail] as it is: it delivers the head. *)
Definition ina_list_tail (l : dlist) : result Z :=
  if d_head l =? 0 then Err (INA_ERR E_EMPTY) else Ok (d_head l).

Definition ina_list_insert_head (m : mem) (l : dlist) (node : Z) : option (mem * dlist * result unit) :=
  if node =? 0 then Some (m, l, Err INA_ERR_INVALID_ARGUMENT) else
  let l := with_count l (d_count l + 1) in
  let head := d_head l in
  if negb (head =? 0) then
    hd ← load m head;
    m ← set_prev m node (l_prev hd);
    m ← set_prev m head node;
    m ← set_next m node head;
    Some (m, l, Ok tt)
  else
    m ← set_prev m node node;
    m ← set_next m node 0;
    Some (m, with_head l node, Ok tt).

Definition ina_list_insert_tail (m : mem) (l : dlist) (node : Z) : option (mem * dlist * result unit) :=
  if node =? 0 then Some (m, l, Err INA_ERR_INVALID_ARGUMENT) else
  let l := with_count l (d_count l + 1) in
  let head := d_head l in
  if negb (head =? 0) then
    hd ← load m head;
    m ← set_prev m node (l_prev hd);
    m ← set_prev m head node;
    m ← set_next m node 0;
    nd ← load m node;
    m ← set_next m (l_prev nd) node;
    Some (m, l, Ok tt)
  else
    m ← set_prev m node node;
    m ← set_next m node 0;
    Some (m, with_head l node, Ok tt).

Definition ina_list_remove (m : mem) (l : dlist) (node : Z) : option (mem * dlist * result unit) :=
  if node =? 0 then Some (m, l, Err INA_ERR_INVALID_ARGUMENT) else
  let head := ina_list_head l in
  nd ← load m node;
  m ← (if negb (l_next nd =? 0) then set_prev m (l_next nd) (l_prev nd)
       else set_prev m head (l_prev nd));
  nd ← load m node;
  '(m, l) ←
    (if head =? node then Some (m, with_head l (l_next nd))
     else m ← set_next m (l_prev nd) (l_next nd); Some (m, l));
  Some (m, with_count l (d_count l - 1), Ok tt).

(** [ina_list_insert_head_data] and [ina_list_insert_tail_data] *)
Definition ina_list_insert_head_data (m : mem) (l : dlist) (data : Z) : option (mem * dlist * result unit) :=
  '(m, l, node) ← ina_list_node_new m l;
  m ← set_data m node data;
  ina_list_insert_head m l node.

Definition ina_list_insert_tail_data (m : mem) (l : dlist) (data : Z) : option (mem * dlist * result unit) :=
  '(m, l, node) ← ina_list_node_new m l;
  m ← set_data m node data;
  ina_list_insert_tail m l node.

(** The loop shared by [ina_list_remove_data] and [ina_list_find]: the first
    node from [next] whose data satisfies the test, or 0. *)
Fixpoint search (fuel : nat) (m : mem) (test : Z -> bool) (next : Z) : option Z :=
  match fuel with
  | O => None
  | S fuel =>
      if next =? 0 then Some 0 else
      nd ← load m next;
      if test (l_data nd) then Some next else search fuel m test (l_next nd)
  end.

Definition ina_list_remove_data (m : mem) (l : dlist) (data : Z) : option (mem * dlist * result unit) :=
  if data =? 0 then Some (m, l, Err INA_ERR_INVALID_ARGUMENT) else
  node ← search (heap_fuel m) m (fun d => d =? data) (ina_list_head l);
  if node =? 0 then Some (m, l, Err (INA_ERR_NOT_ E_EXISTS)) else
  '(m, l, _) ← ina_list_remove m l node;
  l ← ina_list_node_free l node;
  Some (m, l, Ok tt).

Definition ina_list_find (m : mem) (l : dlist) (compare_fn : Z -> Z -> Z) (find_arg : Z) : option (result Z) :=
  if find_arg =? 0 then Some (Err INA_ERR_INVALID_ARGUMENT) else
  node ← search (heap_fuel m) m (fun d => 0 =? compare_fn d find_arg) (ina_list_head l);
  Some (if node =? 0 then Err (INA_ERR_NOT_ E_FOUND) else Ok node).

Section Foreach.
Context {St : Type} (foreach_fn : St -> Z -> St * Z).

(** The loop of [ina_list_foreach_arg] (the callback does not change the
    list): the callback's state and its last return code. *)
Fixpoint foreach_loop (fuel : nat) (m : mem) (next : Z) (s : St) (rc : Z) : option (St * Z) :=
  match fuel with
  | O => None
  | S fuel =>
      if next =? 0 then Some (s, rc) else
      nd ← load m next;
      let '(s, rc) := foreach_fn s (l_data nd) in
      if INA_FAILED rc then Some (s, rc) else foreach_loop fuel m (l_next nd) s rc
  end.

Definition ina_list_foreach_arg (m : mem) (l : dlist) (s : St) : option (St * Z) :=
  foreach_loop (heap_fuel m) m (ina_list_head l) s INA_SUCCESS.

(** [ina_list_foreach] drops the code of the callback. *)
Definition ina_list_foreach (m : mem) (l : dlist) (s : St) : option (St * Z) :=
  '(s, _) ← foreach_loop (heap_fuel m) m (ina_list_head l) s INA_SUCCESS;
  Some (s, INA_SUCCESS).
End Foreach.

(** [ina_list_concat]: the two lists are different objects. *)
Definition ina_list_concat (m : mem) (dest src : dlist) : option (mem * dlist * dlist) :=
  if d_head src =? 0 then Some (m, dest, src) else
  '(m, dest, src) ←
    (if d_head dest =? 0 then
       Some (m, with_count (with_head dest (d_head src)) (d_count src), with_head src 0)
     else
       hd ← load m (d_head dest);
       let dest_tail := l_prev hd in
       hs ← load m (d_head src);
       m ← set_prev m (d_head dest) (l_prev hs);
       m ← set_prev m (d_head src) dest_tail;
       m ← set_next m dest_tail (d_head src);
       Some (m, with_count dest (d_count dest + d_count src), src));
  let src := with_count (with_head src 0) 0 in
  let dest :=
    match d_mp dest, d_mp src with
    | Some p, Some q => with_mp dest (Some (p ∪ q))
    | Some p, None => dest
    | None, q => with_mp dest q
    end in
  Some (m, dest, with_mp src None).

(** ** Merge sort *)

Section Sort.
Variable compare_fn : Z -> Z -> Z.

(** The loop of [__ina_split]. *)
Fixpoint split_loop (fuel : nat) (m : mem) (fast slow : Z) : option Z :=
  match fuel with
  | O => None
  | S fuel =>
      f ← load m fast;
      if l_next f =? 0 then Some slow else
      f2 ← load m (l_next f);
      if l_next f2 =? 0 then Some slow else
      s ← load m slow;
      split_loop fuel m (l_next f2) (l_next s)
  end.

Definition __ina_split (m : mem) (head : Z) : option (mem * Z) :=
  slow ← split_loop (heap_fuel m) m head head;
  s ← load m slow;
  m ← set_next m slow 0;
  Some (m, l_next s).

Fixpoint __ina_merge (fuel : nat) (m : mem) (first second : Z) : option (mem * Z) :=
  match fuel with
  | O => None
  | S fuel =>
      if first =? 0 then Some (m, second) else
      if second =? 0 then Some (m, first) else
      nf ← load m first;
      ns ← load m second;
      if compare_fn (l_data nf) (l_data ns) <? 0 then
        '(m, r) ← __ina_merge fuel m (l_next nf) second;
        m ← set_next m first r;
        m ← set_prev m r first;
        m ← set_prev m first 0;
        Some (m, first)
      else
        '(m, r) ← __ina_merge fuel m first (l_next ns);
        m ← set_next m second r;
        m ← set_prev m r second;
        m ← set_prev m second 0;
        Some (m, second)
  end.

Fixpoint __ina_mergesort (fuel : nat) (m : mem) (head : Z) : option (mem * Z) :=
  match fuel with
  | O => None
  | S fuel =>
      if head =? 0 then Some (m, head) else
      nd ← load m head;
      if l_next nd =? 0 then Some (m, head) else
      '(m, second) ← __ina_split m head;
      '(m, head) ← __ina_mergesort fuel m head;
      '(m, second) ← __ina_mergesort fuel m second;
      __ina_merge (heap_fuel m + heap_fuel m) m head second
  end.

Definition ina_list_sort (m : mem) (l : dlist) : option (mem * dlist) :=
  '(m, head) ← __ina_mergesort (heap_fuel m) m (ina_list_head l);
  Some (m, with_head l head).
End Sort.

(** ** List segments

    [lseg h p l q]: the nodes [l], given with their data, are chained by their
    [next] pointers up to the pointer [q], and each [prev] pointer leads to the
    node before, that of the first one being [p]. *)
Definition next_of (l : list (Z * Z)) (q : Z) : Z := match l with [] => q | (a, _) :: _ => a end.

(** The last node, [p] if there is none. *)
Fixpoint end_of (p : Z) (l : list (Z * Z)) : Z :=
  match l with [] => p | (a, _) :: l => end_of a l end.

Fixpoint lseg (h : gmap Z lnode) (p : Z) (l : list (Z * Z)) (q : Z) : Prop :=
  match l with
  | [] => True
  | (a, d) :: l => a <> 0 /\ h !! a = Some (LNode (next_of l q) p d) /\ lseg h a l q
  end.

Lemma next_of_app l1 l2 q : next_of (l1 ++ l2) q = next_of l1 (next_of l2 q).
Proof. by destruct l1 as [|[? ?] ?]. Qed.

Lemma end_of_app p l1 l2 : end_of p (l1 ++ l2) = end_of (end_of p l1) l2.
Proof. revert p. induction l1 as [|[a d] l1 IH]; intros p; simpl; [done|apply IH]. Qed.

Lemma end_of_in p l : end_of p l = p \/ end_of p l ∈ l.*1.
Proof.
  revert p. induction l as [|[a d] l IH]; intros p; simpl; [by left|].
  right. destruct (IH a) as [->|?]; [by left|by right].
Qed.

Lemma end_of_indep p p' l : l <> [] -> end_of p l = end_of p' l.
Proof. by destruct l as [|[? ?] ?]. Qed.

Lemma lseg_app h p l1 l2 q :
  lseg h p (l1 ++ l2) q <-> lseg h p l1 (next_of l2 q) /\ lseg h (end_of p l1) l2 q.
Proof.
  revert p. induction l1 as [|[a d] l1 IH]; intros p; simpl; [by intuition|].
  rewrite IH, next_of_app. by intuition.
Qed.

(** A segment only depends on its own nodes. *)
Lemma lseg_ext h h' p l q :
  (forall a, a ∈ l.*1 -> h' !! a = h !! a) -> lseg h p l q -> lseg h' p l q.
Proof.
  revert p. induction l as [|[a d] l IH]; intros p He; simpl; [done|].
  intros (? & Ha & Hl). split_and!; [done| |].
  - rewrite He; [done|]. simpl. by left.
  - apply IH; [|done]. intros a' Ha'. apply He. simpl. by right.
Qed.

Lemma lseg_insert h p l q a nd : a ∉ l.*1 -> lseg h p l q -> lseg (<[a := nd]> h) p l q.
Proof. intros Ha. apply lseg_ext. intros a' Ha'. apply lookup_insert_ne. by intros ->. Qed.

Lemma lseg_lookup h p l q a : lseg h p l q -> a ∈ l.*1 -> a <> 0 /\ is_Some (h !! a).
Proof.
  revert p. induction l as [|[a' d] l IH]; intros p; simpl; [by intros _ ?%elem_of_nil|].
  intros (? & Ha & Hl) [->|Hin]%elem_of_cons; [by eauto|]. by eapply IH.
Qed.

Lemma lseg_length h p l q : NoDup l.*1 -> lseg h p l q -> (length l <= size h)%nat.
Proof.
  intros Hnd Hl. rewrite <- (length_fmap fst), <- (size_list_to_set (C := gset Z)) by done.
  rewrite <- (size_dom h). apply subseteq_size. intros a Ha.
  apply elem_of_list_to_set in Ha. apply elem_of_dom.
  by eapply lseg_lookup in Hl as [_ ?].
Qed.

Lemma store_eq m a nd f :
  m_heap m !! a = Some nd -> store m a f = Some (Mem (<[a := f nd]> (m_heap m)) (m_fresh m)).
Proof. intros H. unfold store, load. by rewrite H. Qed.

Lemma load_eq m a nd : m_heap m !! a = Some nd -> load m a = Some nd.
Proof. done. Qed.

Lemma set_next_eq m a v nd :
  m_heap m !! a = Some nd ->
  set_next m a v = Some (Mem (<[a := LNode v (l_prev nd) (l_data nd)]> (m_heap m)) (m_fresh m)).
Proof. apply store_eq. Qed.

Lemma set_prev_eq m a v nd :
  m_heap m !! a = Some nd ->
  set_prev m a v = Some (Mem (<[a := LNode (l_next nd) v (l_data nd)]> (m_heap m)) (m_fresh m)).
Proof. apply store_eq. Qed.

Lemma set_data_eq m a v nd :
  m_heap m !! a = Some nd ->
  set_data m a v = Some (Mem (<[a := LNode (l_next nd) (l_prev nd) v]> (m_heap m)) (m_fresh m)).
Proof. apply store_eq. Qed.

(** Look a node up in an updated heap. *)
Ltac heap_lookup :=
  cbn [m_heap]; repeat first [rewrite lookup_insert_eq | rewrite lookup_insert_ne by (done || congruence)];
  (eassumption || reflexivity).

(** Run the next access of an operation. *)
Ltac heap_step :=
  match goal with
  | |- context [@mbind option _ _ _ _ (load ?m ?a)] => erewrite (load_eq m a) by heap_lookup
  | |- context [@mbind option _ _ _ _ (set_next ?m ?a ?v)] => erewrite (set_next_eq m a v) by heap_lookup
  | |- context [@mbind option _ _ _ _ (set_prev ?m ?a ?v)] => erewrite (set_prev_eq m a v) by heap_lookup
  | |- context [@mbind option _ _ _ _ (set_data ?m ?a ?v)] => erewrite (set_data_eq m a v) by heap_lookup
  end; cbn [mbind option_bind m_heap m_fresh l_next l_prev l_data].

Lemma lseg_update_next h p l q q' :
  lseg h p l q -> l <> [] -> NoDup l.*1 ->
  exists nd, h !! end_of p l = Some nd /\ l_next nd = q /\
    lseg (<[end_of p l := LNode q' (l_prev nd) (l_data nd)]> h) p l q'.
Proof.
  intros Hl Hne Hnd. destruct l as [|[a d] l _] using rev_ind; [done|].
  apply lseg_app in Hl as [Hl (Ha & Hlk & _)]. rewrite end_of_app. simpl in *.
  eexists. split; [exact Hlk|]. split; [done|]. apply lseg_app. simpl. split.
  - apply lseg_insert; [|done]. rewrite fmap_app in Hnd. apply NoDup_app in Hnd as (_ & Hd & _).
    intros Hin. apply (Hd a Hin). by left.
  - by rewrite lookup_insert_eq.
Qed.

Lemma lseg_update_prev h p l q p' :
  lseg h p l q -> l <> [] -> NoDup l.*1 ->
  exists nd, h !! next_of l 0 = Some nd /\ l_prev nd = p /\
    lseg (<[next_of l 0 := LNode (l_next nd) p' (l_data nd)]> h) p' l q.
Proof.
  destruct l as [|[a d] l]; [done|]. intros (Ha & Hlk & Hl) _ [Hni _]%NoDup_cons. simpl in *.
  eexists. split_and!; [exact Hlk|done..|by rewrite lookup_insert_eq|by apply lseg_insert].
Qed.

(** [m'] differs from [m] only in the contents of the nodes [A]. *)
Record changes (A : list Z) (m m' : mem) : Prop := {
  ch_fresh : m_fresh m' = m_fresh m;
  ch_dom a : is_Some (m_heap m' !! a) <-> is_Some (m_heap m !! a);
  ch_frame a : a ∉ A -> m_heap m' !! a = m_heap m !! a
}.

Lemma changes_refl A m : changes A m m.
Proof. done. Qed.

Lemma changes_trans A m1 m2 m3 : changes A m1 m2 -> changes A m2 m3 -> changes A m1 m3.
Proof.
  intros [F1 D1 R1] [F2 D2 R2]. split; [congruence| |].
  - intros a. by rewrite D2.
  - intros a Ha. by rewrite R2, R1.
Qed.

Lemma changes_mono A B m m' : (forall a, a ∈ A -> a ∈ B) -> changes A m m' -> changes B m m'.
Proof. intros H [? ? Hf]. split; [done..|]. intros a Ha. apply Hf. auto. Qed.

Lemma changes_insert A m a nd nd' :
  m_heap m !! a = Some nd' -> a ∈ A -> changes A m (Mem (<[a := nd]> (m_heap m)) (m_fresh m)).
Proof.
  intros Ha HA. split; [done|..]; simpl.
  - intros b. destruct (decide (a = b)) as [->|]; [rewrite lookup_insert_eq, Ha; split; by eauto|].
    by rewrite lookup_insert_ne.
  - intros b Hb. apply lookup_insert_ne. by intros ->.
Qed.

Lemma changes_lseg A m m' p l q :
  changes A m m' -> (forall a, a ∈ l.*1 -> a ∉ A) -> lseg (m_heap m) p l q -> lseg (m_heap m') p l q.
Proof. intros Hc Hd. apply lseg_ext. intros a Ha. apply (ch_frame _ _ _ Hc). auto. Qed.

(** ** The list invariant *)

(** The list [l] of the memory [m] holds the nodes [ns], in order: the [prev]
    pointer of the first node leads to the last one. *)
Record is_list (m : mem) (l : dlist) (ns : list (Z * Z)) : Prop := {
  il_nodup : NoDup ns.*1;
  il_head : d_head l = next_of ns 0;
  il_seg : lseg (m_heap m) (end_of 0 ns) ns 0;
  il_count : d_count l = Z.of_nat (length ns)
}.

(** Addresses below [m_fresh] only. *)
Definition wf_mem (m : mem) : Prop :=
  0 < m_fresh m /\ forall a, is_Some (m_heap m !! a) -> 0 < a < m_fresh m.


Lemma changes_wf A m m' : changes A m m' -> wf_mem m -> wf_mem m'.
Proof.
  intros [F D _] [H1 H2]. split; [congruence|]. intros a Ha%D. rewrite F. auto.
Qed.

(** Inserting a node that is not in the list at the end. *)
Lemma insert_tail_spec m l ns a nd :
  is_list m l ns -> m_heap m !! a = Some nd -> a <> 0 -> a ∉ ns.*1 ->
  exists m' l',
    ina_list_insert_tail m l a = Some (m', l', Ok tt) /\ is_list m' l' (ns ++ [(a, l_data nd)]) /\
    changes (a :: ns.*1) m m' /\ (exists p c, l' = with_head (with_count l c) p).
Proof.
  intros [Hnd Hh Hs Hc] Ha Ha0 Hni. unfold ina_list_insert_tail.
  destruct (Z.eqb_spec a 0); [done|]. cbn [d_head with_count].
  assert (NoDup (ns ++ [(a, l_data nd)]).*1) as Hnd'.
  { rewrite fmap_app. apply NoDup_app. split_and!; [done| |apply NoDup_singleton].
    intros x Hx ->%list_elem_of_singleton. done. }
  destruct ns as [|[h0 d0] rest].
  - cbn in Hh. rewrite Hh. cbn [negb Z.eqb]. do 2 heap_step.
    eexists _, _. split; [reflexivity|]. cbn [m_heap m_fresh]. rewrite insert_insert_eq. split_and!.
    + split; cbn; [apply NoDup_singleton|done| |by rewrite Hc].
      split_and!; [done| |done]. by rewrite lookup_insert_eq.
    + eapply changes_insert; [exact Ha|by left].
    + by eexists _, _.
  - set (ns := (h0, d0) :: rest) in *. assert (ns <> []) as Hne by done.
    assert (h0 ∈ ns.*1) as Hh0in by (simpl; by left).
    assert (a <> h0) as Hah by by intros ->.
    destruct (lseg_lookup _ _ _ _ h0 Hs Hh0in) as [Hh0 _].
    change (d_head l = h0) in Hh. rewrite Hh. destruct (Z.eqb_spec h0 0); [done|]. simpl negb. cbn iota.
    set (t := end_of 0 ns) in *.
    assert (t ∈ ns.*1) as Ht.
    { destruct (end_of_in h0 rest) as [Heq|Hin]; unfold t, ns; simpl; [rewrite Heq; by left|by right]. }
    assert (a <> t) as Hat by by intros ->.
    destruct (lseg_update_prev _ _ _ _ a Hs Hne Hnd) as (hd & Hhd & Hhp & Hs2). change (next_of ns 0) with h0 in Hhd, Hs2.
    do 5 heap_step. rewrite Hhp.
    set (h3 := <[a := LNode 0 t (l_data nd)]> _).
    assert (lseg h3 a ns 0) as Hs3.
    { unfold h3. apply lseg_insert; [done|]. rewrite insert_insert_ne by done. by apply lseg_insert. }
    destruct (lseg_update_next _ _ _ _ a Hs3 Hne Hnd) as (tl & Htl & _ & Hs4).
    assert (end_of a ns = t) as Het by by apply end_of_indep. rewrite Het in Htl, Hs4.
    heap_step.
    eexists _, _. split; [reflexivity|]. split_and!.
    + split; [done|done| |].
      * cbn [m_heap]. rewrite end_of_app. simpl end_of at 1. apply lseg_app. split; [exact Hs4|].
        rewrite Het. split_and!; [done| |done]. rewrite lookup_insert_ne by done.
        unfold h3. by rewrite lookup_insert_eq.
      * cbn. rewrite Hc. rewrite length_app. simpl. lia.
    + eapply changes_trans; [eapply (changes_insert _ m a _ _ Ha); by left|].
      eapply changes_trans; [eapply (changes_insert _ (Mem _ _) h0); [cbn [m_heap]; rewrite lookup_insert_ne by done; exact Hhd|by right]|].
      eapply changes_trans; [eapply (changes_insert _ (Mem _ _) a); [cbn [m_heap]; rewrite lookup_insert_ne by done; apply lookup_insert_eq|by left]|].
      eapply (changes_insert _ (Mem _ _) t); [exact Htl|by right].
    + exists (d_head l), (d_count l + 1). destruct l; done.
Qed.

(** [fst] of the nodes of a list with a node in the middle. *)
Lemma middle_nodes (l1 l2 : list (Z * Z)) a d :
  NoDup (l1 ++ (a, d) :: l2).*1 ->
  NoDup l1.*1 /\ NoDup l2.*1 /\ a ∉ l1.*1 /\ a ∉ l2.*1 /\ (forall x, x ∈ l1.*1 -> x ∉ l2.*1).
Proof.
  rewrite fmap_app. cbn. intros (H1 & H2 & [H3 H4]%NoDup_cons)%NoDup_app. split_and!; try done.
  - intros Ha. apply (H2 a Ha). by left.
  - intros x Hx Hx'. apply (H2 x Hx). by right.
Qed.

Lemma end_of_mem p l : l <> [] -> end_of p l ∈ l.*1.
Proof.
  destruct l as [|[a d] l]; [done|]. intros _. simpl.
  destruct (end_of_in a l) as [->|?]; [by left|by right].
Qed.

Lemma next_of_mem l q : l <> [] -> next_of l q ∈ l.*1.
Proof. destruct l as [|[a d] l]; [done|]. intros _. by left. Qed.

(** The first two steps of [ina_list_remove], on the segments around the
    node. *)
Lemma unlink_spec m l1 l2 a d :
  let ns := l1 ++ (a, d) :: l2 in
  NoDup ns.*1 -> lseg (m_heap m) (end_of 0 ns) ns 0 ->
  exists m1,
    (if negb (next_of l2 0 =? 0) then set_prev m (next_of l2 0) (end_of (end_of 0 ns) l1)
     else set_prev m (next_of ns 0) (end_of (end_of 0 ns) l1)) = Some m1 /\
    changes ns.*1 m m1 /\
    (exists nd, m_heap m1 !! a = Some nd /\ l_next nd = next_of l2 0 /\
      (l1 <> [] -> l_prev nd = end_of 0 l1)) /\
    lseg (m_heap m1) (end_of 0 (l1 ++ l2)) l1 a /\
    lseg (m_heap m1) (end_of (end_of 0 (l1 ++ l2)) l1) l2 0.
Proof.
  intros ns Hnd Hs. destruct (middle_nodes _ _ _ _ Hnd) as (H1 & H2 & Ha1 & Ha2 & Hd).
  unfold ns in Hs. apply lseg_app in Hs as [Hs1 (Ha0 & Ha & Hs2)]. cbn in Hs1, Ha, Hs2.
  fold ns in Hs1, Ha, Hs2.
  assert (forall x, x ∈ l2.*1 -> x ∈ ns.*1) as Hin2.
  { intros x Hx. unfold ns. rewrite fmap_app. apply elem_of_app. right. by right. }
  destruct (decide (l2 = [])) as [->|Hne2].
  - (* the node is the last one *)
    cbn [next_of Z.eqb negb]. rewrite !app_nil_r. destruct (decide (l1 = [])) as [->|Hne].
    + subst ns. cbn [app end_of next_of] in *. erewrite set_prev_eq by exact Ha. eexists. split; [reflexivity|].
      split_and!; try done.
      * eapply changes_insert; [exact Ha|by left].
      * eexists. split; [cbn; apply lookup_insert_eq|done].
    + assert (next_of ns 0 = next_of l1 0) as -> by (unfold ns; rewrite next_of_app; by destruct l1 as [|[? ?] ?]).
      destruct (lseg_update_prev _ _ _ _ (end_of (end_of 0 ns) l1) Hs1 Hne H1) as (hd & Hhd & _ & Hs1').
      assert (next_of l1 0 <> a) as Hna by (intros <-; by apply Ha1, next_of_mem).
      erewrite set_prev_eq by exact Hhd. eexists. split; [reflexivity|]. cbn [m_heap]. split_and!.
      * eapply changes_insert; [exact Hhd|]. unfold ns. rewrite fmap_app.
        apply elem_of_app. left. by apply next_of_mem.
      * eexists. rewrite lookup_insert_ne by done. split_and!; [exact Ha|done|].
        intros _. cbn. by apply end_of_indep.
      * by rewrite (end_of_indep 0 (end_of 0 ns) l1).
      * done.
  - destruct (lseg_update_prev _ _ _ _ (end_of (end_of 0 ns) l1) Hs2 Hne2 H2) as (hd & Hhd & _ & Hs2').
    set (b := next_of l2 0) in *.
    assert (b ∈ l2.*1) as Hbin by by apply next_of_mem.
    destruct (lseg_lookup _ _ _ _ b Hs2 Hbin) as [Hb0 _].
    destruct (Z.eqb_spec b 0); [done|]. cbn [negb].
    assert (b <> a) by by intros ->.
    assert (end_of 0 ns = end_of 0 (l1 ++ l2)) as He.
    { unfold ns. rewrite !end_of_app. cbn. by apply end_of_indep. }
    erewrite set_prev_eq by exact Hhd. eexists. split; [reflexivity|]. cbn [m_heap]. split_and!.
    + eapply changes_insert; [exact Hhd|by apply Hin2].
    + eexists. rewrite lookup_insert_ne by done. split_and!; [exact Ha|done|].
      intros Hne. cbn. by apply end_of_indep.
    + rewrite <- He. apply lseg_insert; [|done]. intros Hin. by apply (Hd b).
    + by rewrite <- He.
Qed.

(** Removing a node. *)
Lemma remove_spec m l l1 l2 a d :
  is_list m l (l1 ++ (a, d) :: l2) ->
  exists m' l',
    ina_list_remove m l a = Some (m', l', Ok tt) /\ is_list m' l' (l1 ++ l2) /\
    changes (l1 ++ (a, d) :: l2).*1 m m' /\ (exists p c, l' = with_count (with_head l p) c).
Proof.
  intros [Hnd Hh Hs Hc]. set (ns := l1 ++ (a, d) :: l2) in *.
  destruct (middle_nodes _ _ _ _ Hnd) as (H1 & H2 & Ha1 & Ha2 & Hd).
  destruct (unlink_spec m l1 l2 a d Hnd Hs) as (m1 & Hm1 & Hch & (nd & Ha & Hnx & Hpv) & Hs1 & Hs2).
  fold ns in Hm1, Hch.
  unfold ns in Hs. apply lseg_app in Hs as [_ (Ha0 & Hma & _)]. fold ns in Hma.
  unfold ina_list_remove, ina_list_head. destruct (Z.eqb_spec a 0); [done|].
  rewrite Hh. rewrite (load_eq m a _ Hma). cbn [mbind option_bind l_next l_prev]. rewrite Hm1.
  cbn [mbind option_bind]. rewrite (load_eq m1 a nd Ha). cbn [mbind option_bind]. rewrite Hnx.
  assert (NoDup (l1 ++ l2).*1) as Hnd'.
  { rewrite fmap_app. apply NoDup_app. by split_and!. }
  assert (d_count l - 1 = Z.of_nat (length (l1 ++ l2))) as Hcnt.
  { rewrite Hc. unfold ns. rewrite !length_app. cbn [length]. lia. }
  destruct (decide (l1 = [])) as [->|Hne].
  - subst ns. cbn in *. rewrite Z.eqb_refl. cbn [mbind option_bind].
    eexists _, _. split; [reflexivity|]. split_and!; [by split|done|].
    eexists _, _. reflexivity.
  - assert (next_of ns 0 = next_of l1 0) as Hn1 by (unfold ns; rewrite next_of_app; by destruct l1 as [|[? ?] ?]).
    rewrite Hn1. destruct (Z.eqb_spec (next_of l1 0) a) as [Heq|_].
    { destruct Ha1. rewrite <- Heq. by apply next_of_mem. }
    rewrite (Hpv Hne).
    destruct (lseg_update_next _ _ _ _ (next_of l2 0) Hs1 Hne H1) as (tl & Htl & _ & Hs1').
    rewrite (end_of_indep _ 0) in Htl, Hs1' by done.
    erewrite set_next_eq by exact Htl. cbn [mbind option_bind].
    assert (end_of 0 l1 ∈ l1.*1) as Hin by by apply end_of_mem.
    eexists _, _. split; [reflexivity|]. split_and!.
    + split; [done| | |done]; cbn.
      * rewrite Hh, Hn1, next_of_app. by destruct l1 as [|[? ?] ?].
      * apply lseg_app. split; [done|]. apply lseg_insert; [by apply Hd|].
        done.
    + eapply changes_trans; [exact Hch|]. eapply changes_insert; [exact Htl|].
      unfold ns. rewrite fmap_app. apply elem_of_app. by left.
    + exists (d_head l), (d_count l - 1). by destruct l.
Qed.

(** ** Searching and traversing *)

Lemma fuel_enough m p l q : NoDup l.*1 -> lseg (m_heap m) p l q -> (length l < heap_fuel m)%nat.
Proof. intros Hnd Hs. apply lseg_length in Hs; [|done]. unfold heap_fuel. lia. Qed.

Lemma search_spec fuel m (test : Z -> bool) p l :
  lseg (m_heap m) p l 0 -> (length l < fuel)%nat ->
  match list_find (fun x => test x.2) l with
  | Some (i, (a, d)) => search fuel m test (next_of l 0) = Some a
  | None => search fuel m test (next_of l 0) = Some 0
  end.
Proof.
  revert p l. induction fuel as [|fuel IH]; intros p l Hs Hf; [lia|].
  destruct l as [|[a d] l]; [done|]. destruct Hs as (Ha0 & Ha & Hs). cbn [search next_of].
  destruct (Z.eqb_spec a 0); [done|]. rewrite (load_eq m a _ Ha). cbn [mbind option_bind l_data l_next].
  cbn [list_find]. case_decide as Hd; cbn [snd] in Hd; destruct (test d) eqn:Ht; try done.
  simpl in Hf. specialize (IH a l Hs ltac:(lia)).
  by destruct (list_find (fun x : Z * Z => test x.2) l) as [[i [a' d']]|].
Qed.

Fixpoint visit {St} (foreach_fn : St -> Z -> St * Z) (ds : list Z) (s : St) (rc : Z) : St * Z :=
  match ds with
  | [] => (s, rc)
  | d :: ds =>
      let '(s, rc) := foreach_fn s d in
      if INA_FAILED rc then (s, rc) else visit foreach_fn ds s rc
  end.

Lemma foreach_loop_spec {St} (f : St -> Z -> St * Z) fuel m p l s rc :
  lseg (m_heap m) p l 0 -> (length l < fuel)%nat ->
  foreach_loop f fuel m (next_of l 0) s rc = Some (visit f l.*2 s rc).
Proof.
  revert p l s rc. induction fuel as [|fuel IH]; intros p l s rc Hs Hf; [lia|].
  destruct l as [|[a d] l]; [done|]. destruct Hs as (Ha0 & Ha & Hs). cbn [foreach_loop next_of].
  destruct (Z.eqb_spec a 0); [done|]. rewrite (load_eq m a _ Ha). cbn [mbind option_bind l_data l_next].
  cbn. destruct (f s d) as [s' rc']. destruct (INA_FAILED rc'); [done|].
  simpl in Hf. apply (IH a); [done|lia].
Qed.

(** ** Lists of data: allocation and recycling of nodes *)

(** The list [l] of its memory holds the nodes [ns]; the [last_free] nodes
    behind the first entry of [first_free] can be used again. *)
Record owns (m : mem) (l : dlist) (ns : list (Z * Z)) (fl : list Z) : Prop := {
  ow_wf : wf_mem m;
  ow_list : is_list m l ns;
  ow_pool : is_Some (d_mp l);
  ow_nodup : NoDup (ns.*1 ++ fl);
  ow_free : Forall (fun a => is_Some (m_heap m !! a)) fl;
  ow_array : exists ff, d_first_free l = Some ff /\ Z.of_nat (length ff) = d_max_recyclable l /\
    d_last_free l = Z.of_nat (length fl) /\
    forall i a, fl !! i = Some a -> ff !! S i = Some a
}.

Lemma owns_of_changes m m' l l' ns ns' fl A :
  owns m l ns fl -> changes A m m' -> is_list m' l' ns' -> NoDup (ns'.*1 ++ fl) ->
  (exists p c, l' = with_head (with_count l c) p) -> owns m' l' ns' fl.
Proof.
  intros [Hwf _ Hp _ Hf Ha] Hch Hl Hnd (p & c & ->). split; try done.
  - by eapply changes_wf.
  - eapply Forall_impl; [exact Hf|]. intros a Hin. by apply (ch_dom _ _ _ Hch).
Qed.

Lemma node_new_spec m l ns fl :
  owns m l ns fl ->
  exists m' l' a nd fl',
    ina_list_node_new m l = Some (m', l', a) /\ owns m' l' ns fl' /\
    m_heap m' !! a = Some nd /\ a <> 0 /\ a ∉ ns.*1 ++ fl' /\ length fl' = pred (length fl) /\
    d_max_recyclable l' = d_max_recyclable l.
Proof.
  intros [Hwf Hl Hp Hnd Hf (ff & Hff & Hlen & Hlast & Hfl)]. unfold ina_list_node_new.
  destruct fl as [|a fl _] using rev_ind.
  - rewrite Hlast. cbn [length negb Z.of_nat Z.eqb]. destruct Hp as [pool Hp].
    unfold dalloc. rewrite Hp. cbn [mbind option_bind].
    destruct Hwf as [Hf1 Hf2]. set (a := m_fresh m).
    assert (forall x, is_Some (m_heap m !! x) -> x <> a) as Hfresh by (intros x Hx%Hf2; lia).
    assert (a ∉ ns.*1) as Hni.
    { intros Hin. destruct Hl as [_ _ Hs _]. destruct (lseg_lookup _ _ _ _ a Hs Hin) as [_ Hx].
      by apply (Hfresh a Hx). }
    eexists _, _, a, _, []. split; [reflexivity|]. cbn [m_heap m_fresh]. split_and!; try done.
    + split; cbn; try done.
      * split; cbn; [lia|]. intros x. destruct (decide (x = a)) as [->|Hx].
        -- intros _. lia.
        -- rewrite lookup_insert_ne by done. intros Hx'%Hf2. lia.
      * destruct Hl as [? ? Hs ?]. split; try done. cbn. by apply lseg_insert.
      * by exists ff.
    + by rewrite lookup_insert_eq.
    + lia.
    + by rewrite app_nil_r.
  - rewrite Hff, Hlast, length_app. cbn [length mbind option_bind].
    destruct (Z.eqb_spec (Z.of_nat (length fl + 1)) 0); [lia|]. cbn [negb].
    rewrite Nat2Z.id, (Nat.add_comm (length fl)). cbn [Nat.add].
    assert (ff !! S (length fl) = Some a) as Ha.
    { apply Hfl. rewrite lookup_app_r, Nat.sub_diag by done. done. }
    rewrite Ha. cbn [mbind option_bind].
    apply Forall_app in Hf as [Hf [[nd Hna] _]%Forall_cons_iff].
    rewrite app_assoc in Hnd. apply NoDup_app in Hnd as (Hnd & Hni & _).
    eexists _, _, a, nd, fl. split; [reflexivity|]. split_and!.
    + split; cbn; try done.
      * by destruct Hl.
      * exists ff. split_and!; [done|done|lia|].
        intros i x Hi. apply Hfl. by apply lookup_app_l_Some.
    + done.
    + destruct Hwf as [_ Hw]. specialize (Hw a (mk_is_Some _ _ Hna)). lia.
    + intros Hin. apply (Hni a Hin). by left.
    + lia.
    + done.
Qed.

Lemma node_free_spec m l ns fl a :
  owns m l ns fl -> a ∉ ns.*1 ++ fl -> is_Some (m_heap m !! a) ->
  Z.of_nat (length fl) + 1 < d_max_recyclable l ->
  exists l', ina_list_node_free l a = Some l' /\ owns m l' ns (fl ++ [a]) /\
    d_max_recyclable l' = d_max_recyclable l.
Proof.
  intros [Hwf Hl Hp Hnd Hf (ff & Hff & Hlen & Hlast & Hfl)] Hni Ha Hroom. unfold ina_list_node_free.
  destruct Hwf as [Hw1 Hw2]. specialize (Hw2 a Ha) as Har.
  destruct (Z.eqb_spec a 0); [lia|]. rewrite Hlast.
  destruct (Z.ltb_spec (Z.of_nat (length fl)) (d_max_recyclable l)); [|lia].
  rewrite Hff. cbn [mbind option_bind].
  replace (Z.to_nat (Z.of_nat (length fl) + 1)) with (S (length fl)) by lia.
  destruct (lookup_lt_is_Some_2 ff (S (length fl))) as [x Hx]; [lia|]. rewrite Hx. cbn [mbind option_bind].
  eexists. split; [reflexivity|]. split; [|done]. split; cbn; try done.
  - by destruct Hl.
  - rewrite app_assoc. apply NoDup_app. split_and!; [done| |apply NoDup_singleton].
    intros y Hy ->%list_elem_of_singleton. done.
  - apply Forall_app. split; [done|]. by constructor.
  - eexists. split; [reflexivity|]. rewrite length_insert, length_app. cbn [length].
    split_and!; [done|lia|]. intros i y Hi.
    destruct (decide (i = length fl)) as [->|Hne].
    + rewrite lookup_app_r, Nat.sub_diag in Hi by done. rewrite list_lookup_insert_eq by lia. by simplify_eq/=.
    + rewrite list_lookup_insert_ne by lia. apply Hfl.
      assert (i < length fl)%nat by (apply lookup_lt_Some in Hi; rewrite length_app in Hi; simpl in Hi; lia).
      by rewrite lookup_app_l in Hi.
Qed.

(** With one node less than the array has entries, keeping one more writes
    behind it. *)
Lemma node_free_full m l ns fl a :
  owns m l ns fl -> a <> 0 -> Z.of_nat (length fl) + 1 = d_max_recyclable l -> ina_list_node_free l a = None.
Proof.
  intros [_ _ _ _ _ (ff & Hff & Hlen & Hlast & _)] Ha Hfull. unfold ina_list_node_free.
  rewrite (proj2 (Z.eqb_neq a 0)), Hlast, (proj2 (Z.ltb_lt _ _)), Hff by lia. cbn [mbind option_bind].
  rewrite lookup_ge_None_2; [done|lia].
Qed.

Lemma insert_tail_data_spec m l ns fl d :
  owns m l ns fl ->
  exists m' l' a fl',
    ina_list_insert_tail_data m l d = Some (m', l', Ok tt) /\ owns m' l' (ns ++ [(a, d)]) fl' /\
    length fl' = pred (length fl) /\ d_max_recyclable l' = d_max_recyclable l.
Proof.
  intros Ho. unfold ina_list_insert_tail_data.
  destruct (node_new_spec m l ns fl Ho) as (m1 & l1 & a & nd & fl' & -> & Ho1 & Ha & Ha0 & Hni & Hlen & Hmax).
  cbn [mbind option_bind]. erewrite set_data_eq by exact Ha. cbn [mbind option_bind].
  set (m2 := Mem _ _).
  assert (changes [a] m1 m2) as Hch by (eapply changes_insert; [exact Ha|by left]).
  assert (a ∉ ns.*1) as Hni1 by (intros Hin; apply Hni, elem_of_app; by left).
  assert (is_list m2 l1 ns) as Hl2.
  { destruct (ow_list _ _ _ _ Ho1) as [? ? Hs ?]. split; try done.
    eapply changes_lseg; [exact Hch| |exact Hs]. intros x Hx ->%list_elem_of_singleton. done. }
  assert (m_heap m2 !! a = Some (LNode (l_next nd) (l_prev nd) d)) as Ha2 by apply lookup_insert_eq.
  destruct (insert_tail_spec m2 l1 ns a _ Hl2 Ha2 Ha0 Hni1) as (m3 & l3 & -> & Hl3 & Hch3 & Hl3').
  eexists _, _, a, fl'. split; [reflexivity|]. split_and!.
  - eapply (owns_of_changes m1); [exact Ho1| |exact Hl3| |exact Hl3'].
    + eapply changes_trans; [|exact Hch3]. eapply changes_mono; [|exact Hch].
      intros x ->%list_elem_of_singleton. by left.
    + rewrite fmap_app. cbn. rewrite <- app_assoc. cbn.
      rewrite <- (Permutation_middle ns.*1 fl' a). apply NoDup_cons. split; [done|apply Ho1].
  - done.
  - destruct Hl3' as (p & c & ->). exact Hmax.
Qed.

Lemma find_split (test : Z -> bool) (ns : list (Z * Z)) i a d :
  list_find (fun x => test x.2) ns = Some (i, (a, d)) ->
  exists l1 l2, ns = l1 ++ (a, d) :: l2 /\ test d = true /\ Forall (fun x => test x.2 = false) l1.
Proof.
  intros (Hi & Ht & Hbefore)%list_find_Some. exists (take i ns), (drop (S i) ns).
  split; [symmetry; by apply take_drop_middle|]. split; [by apply Is_true_true|].
  apply Forall_lookup. intros j x Hj. apply lookup_take_Some in Hj as [Hj Hlt].
  specialize (Hbefore j x Hj Hlt). by apply Is_true_false in Hbefore.
Qed.

(** ** The list as a sequence of data *)

Inductive lop := InsertTail (d : Z) | RemoveData (d : Z) | FindData (d : Z).

(** Whether the search for [d] finds the value at all, and its first
    occurrence removed. *)
Fixpoint remove_first (d : Z) (ds : list Z) : list Z :=
  match ds with [] => [] | x :: ds => if x =? d then ds else x :: remove_first d ds end.

Definition spec_lop (ds : list Z) (o : lop) : list Z * result Z :=
  match o with
  | InsertTail d => (ds ++ [d], Ok 0)
  | RemoveData d =>
      if d =? 0 then (ds, Err INA_ERR_INVALID_ARGUMENT)
      else if existsb (Z.eqb d) ds then (remove_first d ds, Ok 0)
      else (ds, Err (INA_ERR_NOT_ E_EXISTS))
  | FindData d =>
      if d =? 0 then (ds, Err INA_ERR_INVALID_ARGUMENT)
      else if existsb (Z.eqb d) ds then (ds, Ok d) else (ds, Err (INA_ERR_NOT_ E_FOUND))
  end.

(** [ina_list_find_data] with the comparison of the pointers. *)
Definition find_data (m : mem) (l : dlist) (d : Z) : option (result Z) :=
  r ← ina_list_find m l (fun x y => x - y) d;
  match r with
  | Ok node => nd ← load m node; Some (Ok (l_data nd))
  | Err e => Some (Err e)
  end.

Definition run_lop (m : mem) (l : dlist) (o : lop) : option (mem * dlist * result Z) :=
  match o with
  | InsertTail d => '(m, l, r) ← ina_list_insert_tail_data m l d; Some (m, l, _ <-! r; Ok 0)
  | RemoveData d => '(m, l, r) ← ina_list_remove_data m l d; Some (m, l, _ <-! r; Ok 0)
  | FindData d => r ← find_data m l d; Some (m, l, r)
  end.

Fixpoint run_lops (m : mem) (l : dlist) (ops : list lop) : option (mem * dlist * list (result Z)) :=
  match ops with
  | [] => Some (m, l, [])
  | o :: ops =>
      '(m, l, r) ← run_lop m l o;
      '(m, l, rs) ← run_lops m l ops;
      Some (m, l, r :: rs)
  end.

Fixpoint spec_lops (ds : list Z) (ops : list lop) : list Z * list (result Z) :=
  match ops with
  | [] => (ds, [])
  | o :: ops =>
      let '(ds, r) := spec_lop ds o in
      let '(ds, rs) := spec_lops ds ops in
      (ds, r :: rs)
  end.

(** How many removed nodes wait to be used again: a removal keeps its node, an
    insertion takes one.  [spares_fit] is that there are never [limit] of them. *)
Definition spare_after (n : nat) (ds : list Z) (o : lop) : nat :=
  match o with
  | InsertTail _ => pred n
  | RemoveData d => if negb (d =? 0) && existsb (Z.eqb d) ds then S n else n
  | FindData _ => n
  end.
Fixpoint spares_fit (limit : Z) (n : nat) (ds : list Z) (ops : list lop) : bool :=
  match ops with
  | [] => true
  | o :: ops =>
      (Z.of_nat (spare_after n ds o) <? limit) && spares_fit limit (spare_after n ds o) (fst (spec_lop ds o)) ops
  end.

Lemma search_list m l ns fl d (test : Z -> bool) :
  owns m l ns fl -> (forall x, test x = (x =? d)) ->
  (existsb (Z.eqb d) ns.*2 = false /\ search (heap_fuel m) m test (ina_list_head l) = Some 0) \/
  exists l1 l2 a, ns = l1 ++ (a, d) :: l2 /\ search (heap_fuel m) m test (ina_list_head l) = Some a /\ a <> 0 /\
    existsb (Z.eqb d) ns.*2 = true /\ remove_first d ns.*2 = (l1 ++ l2).*2.
Proof.
  intros Ho Ht. destruct (ow_list _ _ _ _ Ho) as [Hnd Hh Hs _].
  pose proof (search_spec (heap_fuel m) m test _ ns Hs (fuel_enough _ _ _ _ Hnd Hs)) as Hsearch.
  unfold ina_list_head. rewrite Hh.
  destruct (list_find (fun x : Z * Z => test x.2) ns) as [[i [a d']]|] eqn:Hf.
  - right. apply find_split in Hf as (l1 & l2 & -> & Htd & Hbefore).
    rewrite Ht in Htd. apply Z.eqb_eq in Htd as ->. exists l1, l2, a.
    split_and!; [done|done| | |].
    + apply lseg_app in Hs as [_ [Ha _]]. done.
    + apply existsb_exists. exists d. split; [|apply Z.eqb_refl].
      apply list_elem_of_In. rewrite fmap_app. apply elem_of_app. right. by left.
    + clear -Hbefore Ht. induction l1 as [|[b e] l1 IH]; cbn; [by rewrite Z.eqb_refl|].
      apply Forall_cons_iff in Hbefore as [Hb Hbefore]. cbn in Hb. rewrite Ht in Hb. rewrite Hb.
      f_equal. by apply IH.
  - left. split; [|done]. apply list_find_None in Hf. clear -Hf Ht.
    induction Hf as [|[b e] ns Hb _ IH]; [done|]. cbn in *. rewrite IH, orb_false_r.
    rewrite Ht in Hb. rewrite Z.eqb_sym. by apply Is_true_false in Hb.
Qed.

(** A list of the memory with the data [ds], [n] nodes waiting to be used
    again. *)
Definition holds (m : mem) (l : dlist) (ds : list Z) (n : nat) : Prop :=
  exists ns fl, owns m l ns fl /\ ns.*2 = ds /\ length fl = n.

(** What an operation does to such a list, if the array has room for the nodes
    that wait; otherwise it writes behind the array. *)
Definition does (m : mem) (l : dlist) (ds : list Z) (n : nat) (o : lop) (out : option (mem * dlist * result Z)) : Prop :=
  if Z.of_nat (spare_after n ds o) <? d_max_recyclable l then
    exists m' l', out = Some (m', l', snd (spec_lop ds o)) /\ holds m' l' (fst (spec_lop ds o)) (spare_after n ds o) /\
      d_max_recyclable l' = d_max_recyclable l
  else out = None.

Lemma does_nothing m l ds n o :
  holds m l ds n -> Z.of_nat n < d_max_recyclable l -> spare_after n ds o = n -> fst (spec_lop ds o) = ds ->
  does m l ds n o (Some (m, l, snd (spec_lop ds o))).
Proof.
  intros Hh Hn Hs Hd. unfold does. rewrite Hs, Hd, (proj2 (Z.ltb_lt _ _)) by done. by exists m, l.
Qed.

(** Removing the node [a] of a list, which then waits to be used again. *)
Lemma remove_free_spec m l l1 l2 a d fl :
  owns m l (l1 ++ (a, d) :: l2) fl -> a <> 0 -> Z.of_nat (length fl) < d_max_recyclable l ->
  exists m1 l1', ina_list_remove m l a = Some (m1, l1', Ok tt) /\
    if Z.of_nat (S (length fl)) <? d_max_recyclable l then
      exists l', ina_list_node_free l1' a = Some l' /\ owns m1 l' (l1 ++ l2) (fl ++ [a]) /\
        d_max_recyclable l' = d_max_recyclable l
    else ina_list_node_free l1' a = None.
Proof.
  intros Ho Ha Hroom.
  destruct (remove_spec m l l1 l2 a d (ow_list _ _ _ _ Ho)) as (m1 & l1' & Hr & Hl1 & Hch & Hshape).
  exists m1, l1'. split; [exact Hr|]. pose proof (ow_nodup _ _ _ _ Ho) as Hnd.
  assert (a :: (l1 ++ l2).*1 ++ fl ≡ₚ (l1 ++ (a, d) :: l2).*1 ++ fl) as Hperm.
  { rewrite !fmap_app. cbn. rewrite <- !app_assoc. cbn. apply Permutation_middle. }
  rewrite <- Hperm in Hnd. apply NoDup_cons in Hnd as [Hni Hnd].
  assert (owns m1 l1' (l1 ++ l2) fl) as Ho1.
  { eapply (owns_of_changes m); [exact Ho|exact Hch|exact Hl1|exact Hnd|].
    destruct Hshape as (p & c & ->). by exists p, c. }
  assert (is_Some (m_heap m1 !! a)) as Hin.
  { apply (ch_dom _ _ _ Hch). destruct (ow_list _ _ _ _ Ho) as [_ _ Hs _].
    apply lseg_app in Hs as [_ (_ & Hx & _)]. by eexists. }
  assert (d_max_recyclable l1' = d_max_recyclable l) as Hmax by by destruct Hshape as (p & c & ->).
  rewrite <- Hmax. destruct (Z.ltb_spec (Z.of_nat (S (length fl))) (d_max_recyclable l1')).
  - apply (node_free_spec m1 l1' _ fl a Ho1 Hni Hin). lia.
  - eapply node_free_full; [exact Ho1|done|lia].
Qed.

Lemma remove_data_spec m l ds n d :
  holds m l ds n -> d <> 0 -> Z.of_nat n < d_max_recyclable l ->
  does m l ds n (RemoveData d) ('(m, l, r) ← ina_list_remove_data m l d; Some (m, l, (_ <-! r; Ok 0)%inac)).
Proof.
  intros Hh Hd Hroom. pose proof Hh as (ns & fl & Ho & <- & <-). unfold ina_list_remove_data.
  rewrite (proj2 (Z.eqb_neq d 0)) by done.
  destruct (search_list m l ns fl d (fun x => x =? d) Ho ltac:(done)) as [[He ->]|(l1 & l2 & a & -> & -> & Ha & He & Hrm)];
    cbn [mbind option_bind].
  - pose proof (does_nothing m l ns.*2 (length fl) (RemoveData d) Hh Hroom) as Hsame.
    cbn [spare_after spec_lop] in Hsame. rewrite He, andb_false_r, (proj2 (Z.eqb_neq d 0)) in Hsame by done.
    exact (Hsame eq_refl eq_refl).
  - rewrite (proj2 (Z.eqb_neq a 0)) by done. destruct (remove_free_spec m l l1 l2 a d fl Ho Ha Hroom) as (m1 & l1' & -> & Hf).
    cbn [mbind option_bind]. unfold does. cbn [spare_after spec_lop].
    rewrite He, (proj2 (Z.eqb_neq d 0)) by done. cbn [negb andb]. destruct (_ <? _).
    + destruct Hf as (l' & -> & Ho' & Hmax). cbn [mbind option_bind fst snd]. exists m1, l'. split; [done|]. split; [|done].
      exists (l1 ++ l2), (fl ++ [a]). rewrite length_app. cbn [length]. split_and!; [done|done|lia].
    + rewrite Hf. done.
Qed.

Lemma find_data_spec m l ds n d :
  holds m l ds n -> Z.of_nat n < d_max_recyclable l ->
  does m l ds n (FindData d) (r ← find_data m l d; Some (m, l, r)).
Proof.
  intros Hh Hroom. unfold find_data, ina_list_find.
  destruct (Z.eqb_spec d 0) as [->|Hd]; [by apply (does_nothing m l ds n (FindData 0))|].
  pose proof Hh as (ns & fl & Ho & <- & <-).
  pose proof (does_nothing m l ns.*2 (length fl) (FindData d) Hh Hroom eq_refl) as Hsame. cbn [spec_lop] in Hsame.
  rewrite (proj2 (Z.eqb_neq d 0)) in Hsame by done.
  destruct (search_list m l ns fl d (fun x => 0 =? x - d) Ho) as [[He ->]|(l1 & l2 & a & Hns & -> & Ha & He & _)].
  { intros x. destruct (Z.eqb_spec 0 (x - d)), (Z.eqb_spec x d); lia || done. }
  - rewrite He in Hsame. by apply Hsame.
  - rewrite He in Hsame. cbn [mbind option_bind]. rewrite (proj2 (Z.eqb_neq a 0)) by done.
    destruct (ow_list _ _ _ _ Ho) as [_ _ Hs _]. rewrite Hns in Hs.
    apply lseg_app in Hs as [_ (_ & Hx & _)]. cbn [mbind option_bind]. rewrite (load_eq m a _ Hx). by apply Hsame.
Qed.

Lemma run_lop_spec m l ds n o :
  holds m l ds n -> Z.of_nat n < d_max_recyclable l -> does m l ds n o (run_lop m l o).
Proof.
  intros Hh Hroom. destruct o as [d|d|d]; cbn [run_lop].
  - destruct Hh as (ns & fl & Ho & <- & <-). unfold does. cbn [spare_after].
    destruct (insert_tail_data_spec m l ns fl d Ho) as (m' & l' & a & fl' & -> & Ho' & Hlen' & Hmax).
    rewrite (proj2 (Z.ltb_lt _ _)) by lia. cbn [mbind option_bind]. exists m', l'. split; [done|]. split; [|done].
    exists (ns ++ [(a, d)]), fl'. by rewrite fmap_app.
  - destruct (decide (d = 0)) as [->|Hd]; [by apply (does_nothing m l ds n (RemoveData 0))|]. by apply remove_data_spec.
  - by apply find_data_spec.
Qed.

Lemma run_lops_spec m l ds n ops :
  holds m l ds n -> Z.of_nat n < d_max_recyclable l ->
  if spares_fit (d_max_recyclable l) n ds ops then
    exists m' l' n', run_lops m l ops = Some (m', l', snd (spec_lops ds ops)) /\ holds m' l' (fst (spec_lops ds ops)) n'
  else run_lops m l ops = None.
Proof.
  revert m l ds n. induction ops as [|o ops IH]; intros m l ds n Hh Hroom; cbn [run_lops spec_lops spares_fit]; [by exists m, l, n|].
  pose proof (run_lop_spec m l ds n o Hh Hroom) as Ho. unfold does in Ho.
  destruct (Z.ltb_spec (Z.of_nat (spare_after n ds o)) (d_max_recyclable l)); cbn [andb]; [|by rewrite Ho].
  destruct Ho as (m1 & l1 & -> & Hh1 & Hmax). cbn [mbind option_bind]. rewrite <- Hmax.
  destruct (spec_lop ds o) as [ds1 r1]. cbn [fst snd] in *. pose proof (IH m1 l1 ds1 _ Hh1 ltac:(lia)) as Hr.
  destruct (spares_fit _ _ _ _); [|by rewrite Hr]. destruct Hr as (m2 & l2 & n2 & -> & Hh2). cbn [mbind option_bind].
  destruct (spec_lops ds1 ops) as [ds2 rs]. by exists m2, l2, n2.
Qed.

Definition empty_mem : mem := Mem ∅ 1.

Lemma new_list_holds m :
  wf_mem m ->
  exists l, ina_list_new m INA_LIST_CF_DEFAULT = Some (m, l) /\ holds m l [] 0 /\
    d_max_recyclable l = INA_LIST_DEFAULT_SIZE.
Proof.
  intros Hwf. eexists. split; [reflexivity|]. split; [|done]. exists [], [].
  split_and!; [|done|done]. split.
  - done.
  - split; cbn; [apply NoDup_nil_2|done..].
  - by eexists.
  - apply NoDup_nil_2.
  - done.
  - eexists. split_and!; [reflexivity|done..].
Qed.

(** C2. A list whose nodes are inserted at the end implements a sequence, as long
    as the nodes that wait to be used again fit into their array.  Inserting,
    removing and finding data on a new list returns call by call what the same
    operations return on a sequence and touches only nodes, if there are never
    256 more nodes removed than inserted again; with the 256th the list writes
    behind its array of nodes that wait. *)
Theorem list_refines_sequence m ops :
  wf_mem m ->
  exists m0 l0, ina_list_new m INA_LIST_CF_DEFAULT = Some (m0, l0) /\
    if spares_fit INA_LIST_DEFAULT_SIZE 0 [] ops then
      exists m' l', run_lops m0 l0 ops = Some (m', l', snd (spec_lops [] ops)) /\
        d_count l' = Z.of_nat (length (fst (spec_lops [] ops)))
    else run_lops m0 l0 ops = None.
Proof.
  intros Hwf. destruct (new_list_holds m Hwf) as (l & Hnew & Hh & Hmax). exists m, l. split; [done|].
  pose proof (run_lops_spec m l [] 0 ops Hh) as Hr. rewrite Hmax in Hr. specialize (Hr eq_refl).
  destruct (spares_fit _ _ _ _); [|done]. destruct Hr as (m' & l' & n & Hrun & (ns & fl & Ho & <- & _)).
  exists m', l'. split; [done|]. rewrite length_fmap. apply (ow_list _ _ _ _ Ho).
Qed.

Definition lops_demo : list lop :=
  [InsertTail 5; InsertTail 6; InsertTail 5; RemoveData 5; FindData 5; RemoveData 7; InsertTail 8; RemoveData 0; FindData 8].
Lemma list_refines_sequence_witness :
  wf_mem empty_mem /\ spares_fit INA_LIST_DEFAULT_SIZE 0 [] lops_demo = true /\
  exists m0 l0, ina_list_new empty_mem INA_LIST_CF_DEFAULT = Some (m0, l0) /\
    if spares_fit INA_LIST_DEFAULT_SIZE 0 [] lops_demo then
      exists m' l', run_lops m0 l0 lops_demo = Some (m', l', snd (spec_lops [] lops_demo)) /\
        d_count l' = Z.of_nat (length (fst (spec_lops [] lops_demo)))
    else run_lops m0 l0 lops_demo = None.
Proof.
  assert (wf_mem empty_mem) as Hwf.
  { split; [done|]. intros a [? Ha]. cbn in Ha. by rewrite lookup_empty in Ha. }
  split; [exact Hwf|]. split; [reflexivity|]. exact (list_refines_sequence empty_mem lops_demo Hwf).
Defined.

(** A list that is used for long needs no more than it holds: nodes that are
    inserted and removed again and again never wait in numbers.  But 256 nodes
    removed one after the other are one too many. *)
Lemma spares_of_a_long_life :
  spares_fit INA_LIST_DEFAULT_SIZE 0 [] (mjoin (replicate 1000 [InsertTail 7; RemoveData 7])) = true /\
  spares_fit INA_LIST_DEFAULT_SIZE 0 [] (replicate 255 (InsertTail 7) ++ replicate 255 (RemoveData 7)) = true /\
  spares_fit INA_LIST_DEFAULT_SIZE 0 [] (replicate 256 (InsertTail 7) ++ replicate 256 (RemoveData 7)) = false.
Proof. split; [|split]; vm_compute; reflexivity. Qed.

(** ** Concatenation *)

(** [ina_list_concat] of two lists with different nodes moves all nodes of
    the second list to the end of the first one in order, changes no other
    memory and leaves the second list empty. *)
Theorem concat_appends m dest src l1 l2 :
  is_list m dest l1 -> is_list m src l2 -> NoDup (l1 ++ l2).*1 ->
  exists m' dest' src',
    ina_list_concat m dest src = Some (m', dest', src') /\
    is_list m' dest' (l1 ++ l2) /\ is_list m' src' [] /\ changes (l1 ++ l2).*1 m m'.
Proof.
  intros [H1 Hh1 Hs1 Hc1] [H2 Hh2 Hs2 Hc2] Hnd. unfold ina_list_concat.
  assert (forall x, x ∈ l1.*1 -> x ∉ l2.*1) as Hd.
  { rewrite fmap_app in Hnd. by apply NoDup_app in Hnd as (_ & ? & _). }
  assert (forall l, d_head l = 0 -> d_count l = 0 -> is_list m l []) as Hempty.
  { intros l ? ?. split; [apply NoDup_nil_2|done|done|done]. }
  destruct (decide (l2 = [])) as [->|Hne2].
  - cbn in Hh2. rewrite Hh2. cbn [Z.eqb]. rewrite app_nil_r.
    eexists _, _, _. split; [reflexivity|]. split_and!; [by split|by apply Hempty|apply changes_refl].
  - destruct (lseg_lookup _ _ _ _ _ Hs2 (next_of_mem _ 0 Hne2)) as [Hn2 _].
    rewrite Hh2. destruct (Z.eqb_spec (next_of l2 0) 0); [done|].
    assert (forall m' de sr, is_list m' de (l1 ++ l2) -> changes (l1 ++ l2).*1 m m' ->
      exists m'' dest' src',
        Some (m',
          match d_mp de, d_mp (with_count (with_head sr 0) 0) with
          | Some p, Some q => with_mp de (Some (p ∪ q))
          | Some p, None => de
          | None, q => with_mp de q
          end, with_mp (with_count (with_head sr 0) 0) None) = Some (m'', dest', src') /\
        is_list m'' dest' (l1 ++ l2) /\ is_list m'' src' [] /\ changes (l1 ++ l2).*1 m m'') as Hfin.
    { intros m' de sr Hl Hch. eexists _, _, _. split; [reflexivity|]. split_and!; [|split; done || apply NoDup_nil_2|done].
      destruct Hl. by destruct (d_mp de), (d_mp (with_count (with_head sr 0) 0)). }
    destruct (decide (l1 = [])) as [->|Hne1].
    + cbn in Hh1. rewrite Hh1. cbn [Z.eqb mbind option_bind].
      apply Hfin; [by split|apply changes_refl].
    + destruct (lseg_lookup _ _ _ _ _ Hs1 (next_of_mem _ 0 Hne1)) as [Hn1 _].
      rewrite Hh1. destruct (Z.eqb_spec (next_of l1 0) 0); [done|].
      set (dt := end_of 0 l1) in *. set (st := end_of 0 l2) in *.
      set (a := next_of l1 0) in *. set (b := next_of l2 0) in *.
      assert (a ∈ l1.*1) as Ha by by apply next_of_mem.
      assert (b ∈ l2.*1) as Hb by by apply next_of_mem.
      assert (dt ∈ l1.*1) as Hdt by by apply end_of_mem.
      assert (b ∉ l1.*1) as Hb1 by (intros Hin; by apply (Hd b)).
      assert (a <> b) by by intros ->. assert (dt <> b) by by intros ->.
      destruct (lseg_update_prev _ _ _ _ st Hs1 Hne1 H1) as (hd & Hhd & Hpd & Hs1').
      destruct (lseg_update_prev _ _ _ _ dt Hs2 Hne2 H2) as (hs & Hhs & Hps & Hs2').
      fold a in Hhd, Hs1'. fold b in Hhs, Hs2'.
      do 3 heap_step. rewrite Hpd, Hps. heap_step.
      set (h2 := <[b := _]> (<[a := _]> (m_heap m))).
      assert (lseg h2 st l1 0) as Hs1'' by by apply lseg_insert.
      assert (lseg h2 dt l2 0) as Hs2''.
      { unfold h2. rewrite insert_insert_ne by done. apply lseg_insert; [by apply Hd|done]. }
      destruct (lseg_update_next _ _ _ _ b Hs1'' Hne1 H1) as (tl & Htl & _ & Hs1f).
      assert (end_of st l1 = dt) as Het by by apply end_of_indep. rewrite Het in Htl, Hs1f.
      heap_step. apply Hfin.
      * split; [done| |cbn; apply lseg_app|cbn; rewrite Hc1, Hc2, length_app; lia].
        { cbn. rewrite Hh1, next_of_app. by destruct l1 as [|[? ?] ?]. }
        assert (end_of 0 (l1 ++ l2) = st) as ->.
        { rewrite end_of_app. by apply end_of_indep. }
        split; [done|]. rewrite Het. apply lseg_insert; [by apply Hd|done].
      * eapply changes_trans; [eapply (changes_insert _ m a); [exact Hhd|]|].
        { rewrite fmap_app. apply elem_of_app. by left. }
        eapply changes_trans; [eapply (changes_insert _ (Mem _ _) b); [cbn [m_heap]; rewrite lookup_insert_ne by done; exact Hhs|]|].
        { rewrite fmap_app. apply elem_of_app. by right. }
        eapply (changes_insert _ (Mem _ _) dt); [exact Htl|].
        rewrite fmap_app. apply elem_of_app. by left.
Qed.

(** Two lists to evaluate. *)
Definition two_lists : option (mem * dlist * dlist) :=
  '(m, l1) ← ina_list_new empty_mem INA_LIST_CF_DEFAULT;
  '(m, l2) ← ina_list_new m INA_LIST_CF_DEFAULT;
  '(m, l1, _) ← run_lops m l1 [InsertTail 5; InsertTail 6];
  '(m, l2, _) ← run_lops m l2 [InsertTail 7; InsertTail 8];
  Some (m, l1, l2).

Lemma concat_appends_witness :
  exists m dest src,
    two_lists = Some (m, dest, src) /\
    is_list m dest [(1, 5); (2, 6)] /\ is_list m src [(3, 7); (4, 8)] /\
    exists m' dest' src',
      ina_list_concat m dest src = Some (m', dest', src') /\
      is_list m' dest' ([(1, 5); (2, 6)] ++ [(3, 7); (4, 8)]) /\ is_list m' src' [] /\
      changes ([(1, 5); (2, 6)] ++ [(3, 7); (4, 8)]).*1 m m'.
Proof.
  eexists _, _, _. split; [vm_compute; reflexivity|].
  match goal with |- is_list ?m ?d ?l /\ _ => assert (is_list m d l) as H1 end.
  { split; [by apply (bool_decide_unpack _)|done|vm_compute; done|done]. }
  match goal with |- _ /\ is_list ?m ?d ?l /\ _ => assert (is_list m d l) as H2 end.
  { split; [by apply (bool_decide_unpack _)|done|vm_compute; done|done]. }
  split; [exact H1|]. split; [exact H2|].
  apply (concat_appends _ _ _ _ _ H1 H2). by apply (bool_decide_unpack _).
Defined.

(** ** Sorting *)

(** What [ina_list_sort] relies on: the comparison function orders the data
    totally. *)
Class TotalCompare (cmp : Z -> Z -> Z) : Prop := {
  compare_total x y : 0 <= cmp x y -> cmp y x <= 0;
  compare_trans x y z : cmp x y <= 0 -> cmp y z <= 0 -> cmp x z <= 0
}.

#[export] Instance sub_compare : TotalCompare Z.sub.
Proof. split; lia. Qed.

Section Sorting.
Context (cmp : Z -> Z -> Z).

(** The merge and the sort on lists of nodes. *)
Fixpoint lmerge (l1 l2 : list (Z * Z)) : list (Z * Z) :=
  match l1 with
  | [] => l2
  | x :: l1' =>
      (fix aux l2 :=
        match l2 with
        | [] => l1
        | y :: l2' => if cmp x.2 y.2 <? 0 then x :: lmerge l1' l2 else y :: aux l2'
        end) l2
  end.

Definition half_length (l : list (Z * Z)) : nat := S ((length l - 1) / 2).

Fixpoint lsort (fuel : nat) (l : list (Z * Z)) : list (Z * Z) :=
  match fuel with
  | O => l
  | S fuel =>
      if (length l <=? 1)%nat then l
      else lmerge (lsort fuel (take (half_length l) l)) (lsort fuel (drop (half_length l) l))
  end.

Lemma lmerge_nil_r l : lmerge l [] = l.
Proof. by destruct l. Qed.

Lemma lmerge_cons x l1 y l2 :
  lmerge (x :: l1) (y :: l2) =
  if cmp x.2 y.2 <? 0 then x :: lmerge l1 (y :: l2) else y :: lmerge (x :: l1) l2.
Proof. done. Qed.

Lemma lmerge_perm l1 l2 : lmerge l1 l2 ≡ₚ l1 ++ l2.
Proof.
  revert l2. induction l1 as [|x l1 IH1]; intros l2; [done|].
  induction l2 as [|y l2 IH2]; [by rewrite lmerge_nil_r, app_nil_r|].
  rewrite lmerge_cons. case_match.
  - by rewrite IH1.
  - rewrite IH2. by rewrite (Permutation_middle (x :: l1) l2 y).
Qed.

Lemma half_bounds l : (2 <= length l)%nat -> (1 <= half_length l < length l)%nat.
Proof.
  intros Hl. unfold half_length.
  assert ((length l - 1) / 2 < length l - 1)%nat by (apply Nat.div_lt; lia). lia.
Qed.

Lemma lsort_perm fuel l : lsort fuel l ≡ₚ l.
Proof.
  revert l. induction fuel as [|fuel IH]; intros l; simpl; [done|].
  case_match; [done|]. by rewrite lmerge_perm, !IH, take_drop.
Qed.

Lemma lsort_sorted `{!TotalCompare cmp} fuel l :
  (length l <= fuel)%nat -> StronglySorted (fun x y => cmp x.2 y.2 <= 0) (lsort fuel l).
Proof.
  assert (forall l1 l2, StronglySorted (fun x y => cmp x.2 y.2 <= 0) l1 ->
    StronglySorted (fun x y => cmp x.2 y.2 <= 0) l2 ->
    StronglySorted (fun x y => cmp x.2 y.2 <= 0) (lmerge l1 l2)) as Hmerge.
  { intros l1. induction l1 as [|x l1 IH1]; intros l2 H1 H2; [done|].
    induction l2 as [|y l2 IH2]; [done|]. rewrite lmerge_cons.
    apply StronglySorted_inv in H1 as H1'. destruct H1' as [H1' Hx].
    apply StronglySorted_inv in H2 as H2'. destruct H2' as [H2' Hy].
    destruct (Z.ltb_spec (cmp x.2 y.2) 0).
    - constructor; [by apply IH1|]. apply List.Forall_forall. intros z Hz.
      apply list_elem_of_In in Hz. rewrite lmerge_perm in Hz.
      apply elem_of_app in Hz as [Hz|[->|Hz]%elem_of_cons].
      + rewrite List.Forall_forall in Hx. by apply Hx, list_elem_of_In.
      + lia.
      + rewrite List.Forall_forall in Hy. apply list_elem_of_In, Hy in Hz.
        eapply compare_trans; [|exact Hz]. lia.
    - constructor; [by apply IH2|]. apply List.Forall_forall. intros z Hz.
      apply list_elem_of_In in Hz. rewrite lmerge_perm in Hz.
      assert (cmp y.2 x.2 <= 0) as Hyx by by apply compare_total.
      apply elem_of_app in Hz as [[->|Hz]%elem_of_cons|Hz].
      + done.
      + rewrite List.Forall_forall in Hx. apply list_elem_of_In, Hx in Hz. by eapply compare_trans.
      + rewrite List.Forall_forall in Hy. by apply Hy, list_elem_of_In. }
  revert l. induction fuel as [|fuel IH]; intros l Hf; simpl.
  { destruct l; [constructor|simpl in Hf; lia]. }
  destruct (Nat.leb_spec (length l) 1) as [Hl|Hl].
  - destruct l as [|x [|y l]]; [constructor|by repeat constructor|simpl in Hl; lia].
  - pose proof (half_bounds l ltac:(lia)). apply Hmerge; apply IH.
    + rewrite length_take. lia.
    + rewrite length_drop. lia.
Qed.

Lemma lmerge_fst_perm l1 l2 : (lmerge l1 l2).*1 ≡ₚ (l1 ++ l2).*1.
Proof. by rewrite lmerge_perm. Qed.

(** The last three steps of [__ina_merge] put the node [a] in front of the
    merged rest. *)
Lemma merge_link m a d nx pv r p :
  m_heap m !! a = Some (LNode nx pv d) -> a <> 0 -> a ∉ r.*1 -> r <> [] -> NoDup r.*1 ->
  lseg (m_heap m) p r 0 ->
  exists m',
    (m ← set_next m a (next_of r 0); m ← set_prev m (next_of r 0) a; m ← set_prev m a 0; Some (m, a))
      = Some (m', a) /\
    lseg (m_heap m') 0 ((a, d) :: r) 0 /\ changes (a :: r.*1) m m'.
Proof.
  intros Ha Ha0 Hni Hne Hnd Hs. assert (next_of r 0 ∈ r.*1) as Hin by by apply next_of_mem.
  assert (a <> next_of r 0) by by intros ->.
  destruct (lseg_update_prev _ _ _ _ a Hs Hne Hnd) as (hd & Hhd & _ & Hs').
  do 3 heap_step. eexists. split; [reflexivity|]. cbn [m_heap]. split.
  - split_and!; [done|by rewrite lookup_insert_eq|].
    apply lseg_insert; [done|]. rewrite insert_insert_ne by done. by apply lseg_insert.
  - eapply changes_trans; [eapply (changes_insert _ m a); [exact Ha|by left]|].
    eapply changes_trans; [eapply (changes_insert _ (Mem _ _) (next_of r 0)); [cbn [m_heap]; rewrite lookup_insert_ne by done; exact Hhd|by right]|].
    eapply (changes_insert _ (Mem _ _) a); [|by left]. cbn [m_heap].
    rewrite lookup_insert_ne by done. apply lookup_insert_eq.
Qed.

Lemma merge_spec fuel m p1 l1 p2 l2 :
  lseg (m_heap m) p1 l1 0 -> lseg (m_heap m) p2 l2 0 -> NoDup (l1 ++ l2).*1 ->
  (length l1 + length l2 < fuel)%nat ->
  exists m' p,
    __ina_merge cmp fuel m (next_of l1 0) (next_of l2 0) = Some (m', next_of (lmerge l1 l2) 0) /\
    lseg (m_heap m') p (lmerge l1 l2) 0 /\ changes (l1 ++ l2).*1 m m' /\
    (l1 <> [] -> l2 <> [] -> p = 0).
Proof.
  revert m p1 l1 p2 l2. induction fuel as [|fuel IH]; intros m p1 l1 p2 l2 Hs1 Hs2 Hnd Hf; [lia|].
  destruct l1 as [|[a d] l1].
  { cbn. exists m, p2. split; [done|]. split; [done|]. split; [apply changes_refl|done]. }
  cbn [next_of]. assert (a <> 0) as Ha0 by by destruct Hs1. cbn [__ina_merge].
  destruct (Z.eqb_spec a 0); [done|].
  destruct l2 as [|[b e] l2].
  { cbn. exists m, p1. split; [done|]. split; [done|]. split; [apply changes_refl|done]. }
  cbn [next_of]. assert (b <> 0) as Hb0 by by destruct Hs2. destruct (Z.eqb_spec b 0); [done|].
  pose proof Hs1 as (_ & Ha & Hs1'). pose proof Hs2 as (_ & Hb & Hs2').
  rewrite (load_eq m a _ Ha). cbn [mbind option_bind]. rewrite (load_eq m b _ Hb).
  cbn [mbind option_bind l_data l_next]. rewrite lmerge_cons. cbn [snd].
  assert ((a, d) :: l1 ++ (b, e) :: l2 ≡ₚ (b, e) :: ((a, d) :: l1) ++ l2) as Hperm.
  { by rewrite <- (Permutation_middle ((a, d) :: l1) l2 (b, e)). }
  cbn [length] in Hf. destruct (Z.ltb_spec (cmp d e) 0).
  - assert (a ∉ (l1 ++ (b, e) :: l2).*1 /\ NoDup (l1 ++ (b, e) :: l2).*1) as [Hni Hnd']
      by by apply NoDup_cons.
    destruct (IH m a l1 p2 ((b, e) :: l2) Hs1' Hs2 Hnd' ltac:(cbn; lia)) as (m1 & p & Hm & Hs & Hch & _).
    cbn [next_of] in Hm. rewrite Hm. cbn [mbind option_bind].
    pose proof (lmerge_fst_perm l1 ((b, e) :: l2)) as Hp.
    destruct (merge_link m1 a d (next_of l1 0) p1 (lmerge l1 ((b, e) :: l2)) p) as (m2 & -> & Hs' & Hch').
    + rewrite (ch_frame _ _ _ Hch) by done. exact Ha.
    + done.
    + by rewrite Hp.
    + intros Hnil. rewrite Hnil in Hp. apply Permutation_nil_l in Hp. rewrite fmap_app in Hp.
      by destruct l1.
    + by rewrite Hp.
    + done.
    + exists m2, 0. split; [done|]. split; [done|]. split; [|done].
      eapply changes_trans; [eapply changes_mono; [|exact Hch]; by right|].
      eapply changes_mono; [|exact Hch']. intros x Hx. rewrite Hp in Hx. exact Hx.
  - assert (NoDup ((b, e) :: ((a, d) :: l1) ++ l2).*1) as [Hni Hnd']%NoDup_cons
      by by rewrite <- Hperm.
    destruct (IH m p1 ((a, d) :: l1) b l2 Hs1 Hs2' Hnd' ltac:(cbn; lia)) as (m1 & p & Hm & Hs & Hch & _).
    cbn [next_of] in Hm. rewrite Hm. cbn [mbind option_bind].
    pose proof (lmerge_fst_perm ((a, d) :: l1) l2) as Hp.
    destruct (merge_link m1 b e (next_of l2 0) p2 (lmerge ((a, d) :: l1) l2) p) as (m2 & -> & Hs' & Hch').
    + rewrite (ch_frame _ _ _ Hch) by done. exact Hb.
    + done.
    + by rewrite Hp.
    + intros Hnil. rewrite Hnil in Hp. by apply Permutation_nil_l in Hp.
    + by rewrite Hp.
    + done.
    + exists m2, 0. split; [done|]. split; [done|]. split; [|done].
      assert (forall x, x ∈ b :: (((a, d) :: l1) ++ l2).*1 -> x ∈ (((a, d) :: l1) ++ (b, e) :: l2).*1) as Hin.
      { intros x Hx. change (x ∈ ((b, e) :: ((a, d) :: l1) ++ l2).*1) in Hx. by rewrite <- Hperm in Hx. }
      eapply changes_trans; [eapply changes_mono; [|exact Hch]|].
      { intros x Hx. apply Hin. by right. }
      eapply changes_mono; [|exact Hch']. intros x Hx. rewrite Hp in Hx. by apply Hin.
Qed.

Lemma lseg_drop h p l k : lseg h p l 0 -> exists p', lseg h p' (drop k l) 0.
Proof. intros Hs. rewrite <- (take_drop k l) in Hs. apply lseg_app in Hs as [_ Hs]. by eexists. Qed.

Lemma halve_loop_spec fuel m pf f ps s :
  lseg (m_heap m) pf f 0 -> lseg (m_heap m) ps s 0 -> f <> [] -> (length f <= length s)%nat ->
  (length f <= fuel)%nat ->
  split_loop fuel m (next_of f 0) (next_of s 0) = Some (next_of (drop ((length f - 1) / 2) s) 0).
Proof.
  revert pf f ps s. induction fuel as [|fuel IH]; intros pf f ps s Hf Hs Hne Hlen Hfuel.
  { destruct f; [done|cbn in Hfuel; lia]. }
  destruct f as [|[a d] f]; [done|]. destruct Hf as (Ha0 & Ha & Hf). cbn [split_loop next_of].
  rewrite (load_eq m a _ Ha). cbn [mbind option_bind l_next].
  destruct f as [|[b e] f]; [done|]. destruct Hf as (Hb0 & Hb & Hf). cbn [next_of].
  destruct (Z.eqb_spec b 0); [done|]. rewrite (load_eq m b _ Hb). cbn [mbind option_bind l_next].
  destruct f as [|[c g] f]; [done|]. cbn [next_of]. assert (c <> 0) by by destruct Hf.
  destruct (Z.eqb_spec c 0); [done|].
  destruct s as [|[x y] s]; [cbn in Hlen; lia|]. destruct Hs as (Hx0 & Hx & Hs). cbn [next_of].
  rewrite (load_eq m x _ Hx). cbn [mbind option_bind l_next].
  cbn in Hlen, Hfuel. pose proof (IH b ((c, g) :: f) x s Hf Hs) as Heq. cbn [next_of length] in Heq.
  rewrite Heq by (done || lia). f_equal. f_equal. cbn [length].
  replace (S (S (S (length f))) - 1)%nat with (S (length f) - 1 + 1 * 2)%nat by lia.
  rewrite Nat.div_add, Nat.add_1_r by lia. done.
Qed.

Lemma halve_spec m p l :
  lseg (m_heap m) p l 0 -> NoDup l.*1 -> (2 <= length l)%nat ->
  exists m' p',
    __ina_split m (next_of l 0) = Some (m', next_of (drop (half_length l) l) 0) /\
    lseg (m_heap m') p (take (half_length l) l) 0 /\
    lseg (m_heap m') p' (drop (half_length l) l) 0 /\ changes l.*1 m m'.
Proof.
  intros Hs Hnd Hl. pose proof (half_bounds l Hl) as Hhalf. unfold __ina_split.
  rewrite (halve_loop_spec (heap_fuel m) m p l p l Hs Hs); cycle 1.
  { by destruct l; cbn in Hl; lia || done. }
  { done. }
  { pose proof (fuel_enough _ _ _ _ Hnd Hs). lia. }
  cbn [mbind option_bind]. unfold half_length in *. set (k := ((length l - 1) / 2)%nat) in *.
  destruct (lookup_lt_is_Some_2 l k) as [[a d] Ha]; [lia|].
  rewrite (drop_S l (a, d) k Ha). cbn [next_of].
  set (l1 := take (S k) l). set (l2 := drop (S k) l).
  assert (l = l1 ++ l2) as Hl12 by (unfold l1, l2; by rewrite take_drop).
  assert (l1 = take k l ++ [(a, d)]) as Hl1 by by apply take_S_r.
  assert (end_of p l1 = a) as Hend by by rewrite Hl1, end_of_app.
  assert (l1 <> []) as Hne by by rewrite Hl1; destruct (take k l).
  rewrite Hl12 in Hs, Hnd. apply lseg_app in Hs as [Hs1 Hs2]. rewrite Hend in Hs2.
  assert (NoDup l1.*1 /\ forall x, x ∈ l1.*1 -> x ∉ l2.*1) as [Hnd1 Hdis].
  { rewrite fmap_app in Hnd. by apply NoDup_app in Hnd as (? & ? & _). }
  destruct (lseg_update_next _ _ _ _ 0 Hs1 Hne Hnd1) as (nd & Hnd' & Hnx & Hs1').
  rewrite Hend in Hnd', Hs1'. rewrite (load_eq m a nd Hnd'). cbn [mbind option_bind]. heap_step.
  assert (a ∈ l1.*1) as Hin by (rewrite <- Hend; by apply end_of_mem).
  eexists _, a. rewrite Hnx. split; [reflexivity|]. split; [done|]. split.
  - cbn [m_heap]. apply lseg_insert; [by apply Hdis|done].
  - eapply changes_insert; [exact Hnd'|]. rewrite Hl12, fmap_app. apply elem_of_app. by left.
Qed.

Lemma mergesort_spec fuel m p l :
  lseg (m_heap m) p l 0 -> NoDup l.*1 -> (length l < fuel)%nat ->
  exists m' p',
    __ina_mergesort cmp fuel m (next_of l 0) = Some (m', next_of (lsort fuel l) 0) /\
    lseg (m_heap m') p' (lsort fuel l) 0 /\ changes l.*1 m m' /\
    p' = if (length l <=? 1)%nat then p else 0.
Proof.
  revert m p l. induction fuel as [|fuel IH]; intros m p l Hs Hnd Hf; [lia|].
  cbn [__ina_mergesort lsort]. destruct (Nat.leb_spec (length l) 1) as [Hlen|Hlen].
  - exists m, p. split; [|split; [done|split; [apply changes_refl|done]]].
    destruct l as [|[a d] [|? ?]]; [done| |cbn in Hlen; lia]. pose proof Hs as (Ha0 & Ha & _).
    cbn [next_of]. destruct (Z.eqb_spec a 0); [done|]. by rewrite (load_eq m a _ Ha).
  - assert (exists d b, next_of l 0 <> 0 /\ m_heap m !! next_of l 0 = Some (LNode b p d) /\ b <> 0)
      as (d & b & Ha0 & Ha & Hb0).
    { destruct l as [|[a d] [|[b e] r]]; cbn in Hlen; [lia|lia|]. destruct Hs as (? & ? & ? & _). by exists d, b. }
    destruct (Z.eqb_spec (next_of l 0) 0); [done|]. rewrite (load_eq m _ _ Ha). cbn [mbind option_bind l_next].
    destruct (Z.eqb_spec b 0); [done|].
    pose proof (half_bounds l Hlen) as Hhalf.
    destruct (halve_spec m p l Hs Hnd Hlen) as (m1 & p1 & -> & Hs1 & Hs2 & Hch1). cbn [mbind option_bind].
    set (la := take (half_length l) l) in *. set (lb := drop (half_length l) l) in *.
    assert (l = la ++ lb) as Hlab by (unfold la, lb; by rewrite take_drop).
    assert (NoDup la.*1 /\ (forall x, x ∈ la.*1 -> x ∉ lb.*1) /\ NoDup lb.*1) as (Hnda & Hdis & Hndb).
    { rewrite Hlab, fmap_app in Hnd. by apply NoDup_app in Hnd. }
    assert (length la = half_length l /\ length lb = (length l - half_length l)%nat) as [Hla Hlb].
    { unfold la, lb. rewrite length_take, length_drop. lia. }
    assert (next_of l 0 = next_of la 0) as ->.
    { transitivity (next_of (la ++ lb) 0); [by rewrite <- Hlab|].
      rewrite next_of_app. by destruct la as [|[? ?] ?]; [cbn in Hla; lia|]. }
    destruct (IH m1 p la Hs1 Hnda ltac:(lia)) as (m2 & p2 & -> & Hsa & Hch2 & _). cbn [mbind option_bind].
    assert (lseg (m_heap m2) p1 lb 0) as Hs2'.
    { eapply changes_lseg; [exact Hch2| |exact Hs2]. intros x Hx Hx'. by apply (Hdis x). }
    destruct (IH m2 p1 lb Hs2' Hndb ltac:(lia)) as (m3 & p3 & -> & Hsb & Hch3 & _). cbn [mbind option_bind].
    assert ((lsort fuel la).*1 ≡ₚ la.*1) as Hpa by by rewrite lsort_perm.
    assert ((lsort fuel lb).*1 ≡ₚ lb.*1) as Hpb by by rewrite lsort_perm.
    assert (lseg (m_heap m3) p2 (lsort fuel la) 0) as Hsa'.
    { eapply changes_lseg; [exact Hch3| |exact Hsa]. intros x Hx. rewrite Hpa in Hx. by apply Hdis. }
    assert ((lsort fuel la ++ lsort fuel lb).*1 ≡ₚ l.*1) as Hp.
    { rewrite fmap_app, Hpa, Hpb, <- fmap_app. by rewrite <- Hlab. }
    assert (NoDup (lsort fuel la ++ lsort fuel lb).*1) as Hndm by by rewrite Hp.
    assert (length (lsort fuel la) <= size (m_heap m3))%nat.
    { eapply lseg_length; [|exact Hsa']. by rewrite Hpa. }
    assert (length (lsort fuel lb) <= size (m_heap m3))%nat.
    { eapply lseg_length; [|exact Hsb]. by rewrite Hpb. }
    destruct (merge_spec (heap_fuel m3 + heap_fuel m3) m3 _ _ _ _ Hsa' Hsb Hndm) as (m4 & p4 & -> & Hs4 & Hch4 & Hp4).
    { unfold heap_fuel. lia. }
    exists m4, p4. split; [done|]. split; [done|]. split.
    + eapply changes_trans; [exact Hch1|]. rewrite Hlab, fmap_app.
      eapply changes_trans; [eapply changes_mono; [|exact Hch2]; intros; apply elem_of_app; by left|].
      eapply changes_trans; [eapply changes_mono; [|exact Hch3]; intros; apply elem_of_app; by right|].
      eapply changes_mono; [|exact Hch4]. intros x Hx. by rewrite Hp, Hlab, fmap_app in Hx.
    + apply Hp4.
      * intros Hnil. pose proof (Permutation_length (lsort_perm fuel la)) as Hx. rewrite Hnil in Hx.
        change (0%nat = length la) in Hx. lia.
      * intros Hnil. pose proof (Permutation_length (lsort_perm fuel lb)) as Hx. rewrite Hnil in Hx.
        change (0%nat = length lb) in Hx. lia.
Qed.
End Sorting.

(** [ina_list_sort] terminates without touching memory outside the list
    and leaves the same nodes with their data, ascending for the comparison
    function, chained in both directions from the new head; but the [prev]
    pointer of the head, which leads to the last node in every other list, is
    null as soon as the list has two nodes. *)
Theorem sort_sorts cmp m l ns :
  TotalCompare cmp -> is_list m l ns ->
  exists m' l' ns',
    ina_list_sort cmp m l = Some (m', l') /\ ns' ≡ₚ ns /\
    StronglySorted (fun x y => cmp x.2 y.2 <= 0) ns' /\
    d_head l' = next_of ns' 0 /\ d_count l' = Z.of_nat (length ns') /\
    lseg (m_heap m') (if (length ns <=? 1)%nat then end_of 0 ns else 0) ns' 0 /\
    changes ns.*1 m m'.
Proof.
  intros Hcmp [Hnd Hh Hs Hc]. unfold ina_list_sort, ina_list_head. rewrite Hh.
  pose proof (fuel_enough _ _ _ _ Hnd Hs) as Hf.
  destruct (mergesort_spec cmp (heap_fuel m) m _ ns Hs Hnd Hf) as (m' & p & -> & Hs' & Hch & Hp).
  cbn [mbind option_bind]. eexists m', _, (lsort cmp (heap_fuel m) ns).
  split; [reflexivity|]. split; [apply lsort_perm|]. split; [apply lsort_sorted; [done|lia]|].
  split; [done|]. split; [|split; [by rewrite <- Hp|done]].
  change (d_count l = Z.of_nat (length (lsort cmp (heap_fuel m) ns))). rewrite Hc.
  by rewrite (Permutation_length (lsort_perm cmp (heap_fuel m) ns)).
Qed.

(** The list of the values, with a heap to evaluate. *)
Definition list_of (ds : list Z) : option (mem * dlist) :=
  '(m, l) ← ina_list_new empty_mem INA_LIST_CF_DEFAULT;
  '(m, l, _) ← run_lops m l (map InsertTail ds);
  Some (m, l).

Lemma sort_sorts_witness :
  TotalCompare Z.sub /\
  exists m l, list_of [5; 9; 7] = Some (m, l) /\ is_list m l [(1, 5); (2, 9); (3, 7)] /\
  exists m' l' ns',
    ina_list_sort Z.sub m l = Some (m', l') /\ ns' ≡ₚ [(1, 5); (2, 9); (3, 7)] /\
    StronglySorted (fun x y => x.2 - y.2 <= 0) ns' /\
    d_head l' = next_of ns' 0 /\ d_count l' = Z.of_nat (length ns') /\
    lseg (m_heap m') (if (length [(1, 5); (2, 9); (3, 7)] <=? 1)%nat then end_of 0 [(1, 5); (2, 9); (3, 7)] else 0) ns' 0 /\
    changes [(1, 5); (2, 9); (3, 7)].*1 m m'.
Proof.
  split; [exact sub_compare|]. eexists _, _. split; [vm_compute; reflexivity|].
  match goal with |- is_list ?m ?d ?l /\ _ => assert (is_list m d l) as H1 end.
  { split; [by apply (bool_decide_unpack _)|done|vm_compute; done|done]. }
  split; [exact H1|]. exact (sort_sorts Z.sub _ _ _ sub_compare H1).
Defined.

(** Operations that break the list invariant.  Inserting at the head of a
    list that is not empty counts the node but leaves the head pointer, so
    that the node cannot be reached from the list and neither can any node
    that is inserted at the end later.  Inserting at the end of a list that
    was sorted, or whose nodes were moved by [ina_list_resize], follows the
    null pointer in the head's [prev].  [ina_list_tail] delivers the head. *)
Theorem broken_list_operations :
  (exists m l, (ml ← list_of [5; 6]; '(m, l, _) ← ina_list_insert_head_data ml.1 ml.2 4; Some (m, l)) = Some (m, l) /\
    ina_list_count l = 3 /\
    ina_list_foreach_arg (fun s d => (s ++ [d], INA_SUCCESS)) m l [] = Some ([5; 6], INA_SUCCESS)) /\
  (exists m l, (ml ← list_of [5; 6]; '(m, l, _) ← ina_list_insert_head_data ml.1 ml.2 4;
      '(m, l, _) ← ina_list_insert_tail_data m l 7; Some (m, l)) = Some (m, l) /\
    ina_list_count l = 4 /\
    ina_list_foreach_arg (fun s d => (s ++ [d], INA_SUCCESS)) m l [] = Some ([5; 6], INA_SUCCESS)) /\
  (exists m l, (ml ← list_of [6; 5]; ina_list_sort Z.sub ml.1 ml.2) = Some (m, l) /\
    ina_list_insert_tail_data m l 7 = None) /\
  (exists m l, (ml ← list_of [5; 6]; '(m, l, _) ← ina_list_resize ml.1 ml.2 10; Some (m, l)) = Some (m, l) /\
    ina_list_insert_tail_data m l 7 = None) /\
  (exists m l, list_of [5; 6] = Some (m, l) /\ ina_list_tail l = Ok (ina_list_head l)).
Proof. split_and!; eexists _, _; (split; [vm_compute; reflexivity|]); vm_compute; done. Qed.

(** [ina_list_node_free] writes past the array of recyclable nodes when it
    keeps its last one: the array has [max_recyclable] entries, the index
    runs up to [max_recyclable].  With one recyclable node the first removal
    does so. *)
Theorem node_free_overflows l node :
  node <> 0 -> d_last_free l = d_max_recyclable l - 1 -> 0 < d_max_recyclable l ->
  (forall ff, d_first_free l = Some ff -> Z.of_nat (length ff) = d_max_recyclable l) ->
  ina_list_node_free l node = None.
Proof.
  intros Hn Hl Hm Hff. unfold ina_list_node_free. destruct (Z.eqb_spec node 0); [done|].
  rewrite Hl. destruct (Z.ltb_spec (d_max_recyclable l - 1) (d_max_recyclable l)); [|lia].
  destruct (d_first_free l) as [ff|]; [|done]. cbn [mbind option_bind].
  rewrite lookup_ge_None_2; [done|]. specialize (Hff ff eq_refl). lia.
Qed.

Lemma node_free_overflows_witness :
  exists m l, ('(m, l) ← ina_list_new empty_mem INA_LIST_CF_DEFAULT; '(m, l, _) ← ina_list_resize m l 1; Some (m, l)) = Some (m, l) /\
    ina_list_node_free l 1 = None.
Proof.
  eexists _, _. split; [reflexivity|].
  apply node_free_overflows; [done|reflexivity|reflexivity|]. intros ff [= <-]. reflexivity.
Defined.
End Dlist.
