(* ===== verification/Mempool.v ===== *)
(** * Memory allocation and memory pools (memory.c)

    A pool is a chain of chunks, each with a block of memory that is handed
    out from the bottom ([pos] upwards, [dalloc]) and from the top ([end]
    downwards, [nalloc]).  Pool structures and blocks live in two heaps
    addressed by numbers, 0 being the null pointer; a pointer into a block is
    the block and an offset.  An access outside a block, a structure that does
    not exist and a failed assertion make an operation [None].  Pools in
    shared memory ([INA_MEM_SHARED]) are not modelled; the segments themselves are
    in Ipc.v. *)
From Stdlib Require Import ZArith Lia Bool.
From stdpp Require Import base numbers option fin_maps gmap strings list.
From S2P Require Import Prelude Error.
Import Error.

Module Mempool.
Local Open Scope inac_scope.

(** ** Data *)

Definition sizeof_ptr : Z := 8.
Definition sizeof_pool : Z := 80.
Definition INA_MEM_ALIGN_SIZE : Z := 2 * sizeof_ptr.
Definition INA_MEM_MIN_POOL_SIZE : Z := 1024.
Definition INA_MEM_FIXED : Z := 0.
Definition INA_MEM_DYNAMIC : Z := 1.
Definition INA_MEM_AUTOSIZE : Z := 2.
Definition INA_MEM_BESTFIT : Z := 4.
Definition INA_MEM_CHILD : Z := 8.
Definition INA_MEM_SHARED : Z := 32.
Definition INA_MEM_NOZEROFILL : Z := 512.

(** [(n + (a - 1)) & ~(a - 1)] in 64 bits *)
Definition INA_MEM_ALIGN_N (n a : Z) : Z := Z.ldiff (u64 (n + (a - 1))) (a - 1).
Definition INA_MEM_ALIGN (n : Z) : Z := INA_MEM_ALIGN_N n INA_MEM_ALIGN_SIZE.
Definition ina_mem_get_aligned_size (query : Z) : Z := INA_MEM_ALIGN query.

(** [cf & flag] *)
Definition flag (cf f : Z) : bool := negb (Z.land cf f =? 0).

(** [ina_mempool_s] *)
Record pool := Pool {
  p_cf : Z;
  p_size : Z;
  p_pos : Z;
  p_end : Z;
  p_alignment : Z;
  p_m : Z;
  p_label : option string;
  p_current : Z;
  p_parent : Z;
  p_child : Z
}.

Definition with_pos (p : pool) (x : Z) : pool :=
  Pool (p_cf p) (p_size p) x (p_end p) (p_alignment p) (p_m p) (p_label p) (p_current p) (p_parent p) (p_child p).
Definition with_end (p : pool) (x : Z) : pool :=
  Pool (p_cf p) (p_size p) (p_pos p) x (p_alignment p) (p_m p) (p_label p) (p_current p) (p_parent p) (p_child p).
Definition with_alignment (p : pool) (x : Z) : pool :=
  Pool (p_cf p) (p_size p) (p_pos p) (p_end p) x (p_m p) (p_label p) (p_current p) (p_parent p) (p_child p).
Definition with_current (p : pool) (x : Z) : pool :=
  Pool (p_cf p) (p_size p) (p_pos p) (p_end p) (p_alignment p) (p_m p) (p_label p) x (p_parent p) (p_child p).
Definition with_parent (p : pool) (x : Z) : pool :=
  Pool (p_cf p) (p_size p) (p_pos p) (p_end p) (p_alignment p) (p_m p) (p_label p) (p_current p) x (p_child p).
Definition with_child (p : pool) (x : Z) : pool :=
  Pool (p_cf p) (p_size p) (p_pos p) (p_end p) (p_alignment p) (p_m p) (p_label p) (p_current p) (p_parent p) x.

(** Pool structures, blocks of bytes, and the next unused address. *)
Record pmem := PMem { pools : gmap Z pool; blocks : gmap Z (list Z); fresh : Z }.

Definition get (st : pmem) (id : Z) : option pool := pools st !! id.
Definition upd (st : pmem) (id : Z) (f : pool -> pool) : option pmem :=
  p ← get st id; Some (PMem (<[id := f p]> (pools st)) (blocks st) (fresh st)).

(** [&pool->m[off]] *)
Record ptr := Ptr { ptr_block : Z; ptr_off : Z }.

#[export] Instance ptr_eq_dec : EqDecision ptr.
Proof. solve_decision. Defined.

(** [ina_mem_set(p, 0, nb)] and [ina_mem_cpy(dst, src, nb)] *)
Definition mem_zero (st : pmem) (p : ptr) (nb : Z) : option pmem :=
  b ← blocks st !! ptr_block p;
  if (0 <=? ptr_off p) && (0 <=? nb) && (ptr_off p + nb <=? Z.of_nat (length b)) then
    let b' := take (Z.to_nat (ptr_off p)) b ++ repeat 0 (Z.to_nat nb) ++ drop (Z.to_nat (ptr_off p + nb)) b in
    Some (PMem (pools st) (<[ptr_block p := b']> (blocks st)) (fresh st))
  else None.

Definition mem_read (st : pmem) (p : ptr) (nb : Z) : option (list Z) :=
  b ← blocks st !! ptr_block p;
  if (0 <=? ptr_off p) && (0 <=? nb) && (ptr_off p + nb <=? Z.of_nat (length b)) then
    Some (take (Z.to_nat nb) (drop (Z.to_nat (ptr_off p)) b))
  else None.

Definition mem_write (st : pmem) (p : ptr) (bs : list Z) : option pmem :=
  b ← blocks st !! ptr_block p;
  let nb := Z.of_nat (length bs) in
  if (0 <=? ptr_off p) && (ptr_off p + nb <=? Z.of_nat (length b)) then
    let b' := take (Z.to_nat (ptr_off p)) b ++ bs ++ drop (Z.to_nat (ptr_off p + nb)) b in
    Some (PMem (pools st) (<[ptr_block p := b']> (blocks st)) (fresh st))
  else None.

Definition mem_cpy (st : pmem) (dst src : ptr) (nb : Z) : option pmem :=
  bs ← mem_read st src nb; mem_write st dst bs.

(** ** Aligned allocation *)

Section Alloc.
(** Whether [malloc] can provide a number of bytes, and the content of fresh
    memory. *)
Variable malloc_ok : Z -> bool.
Variable garbage : Z -> list Z.

(** [ina_mem_alloc_aligned] on the result [p] of [malloc] (0 if it failed):
    the address returned; the slot below it holds [p]. *)
Definition ina_mem_alloc_aligned (alignment size : Z) (malloc : Z -> Z) : result Z :=
  if size =? 0 then Ok 0 else
  if alignment =? 0 then Err INA_ERR_INVALID_ARGUMENT else
  let p := malloc (u64 (size + alignment - 1 + sizeof_ptr)) in
  if p =? 0 then Err INA_ERR_OUT_OF_MEMORY
  else Ok (Z.ldiff (u64 (p + sizeof_ptr + alignment - 1)) (alignment - 1)).

(** [ina_mem_realloc] for [nb] > 0 on the result [p] of [realloc]. *)
Definition ina_mem_realloc_ptr (p : Z) : Z :=
  Z.ldiff (u64 (p + sizeof_ptr + sizeof_ptr - 1)) (sizeof_ptr - 1).

(** ** Pools *)

(** [ina_mem_alloc] of a block. *)
Definition alloc_block (st : pmem) (size : Z) : pmem * Z :=
  if (size =? 0) || negb (malloc_ok size) then (st, 0)
  else
    (PMem (pools st) (<[fresh st := take (Z.to_nat size) (garbage size ++ repeat 0 (Z.to_nat size))]> (blocks st))
      (fresh st + 1), fresh st).

(** [ina_mempool_new]: the new pool. *)
Definition ina_mempool_new (st : pmem) (size : Z) (label : option string) (cf : Z)
    : option (pmem * result Z) :=
  let size := if size <? INA_MEM_MIN_POOL_SIZE then INA_MEM_MIN_POOL_SIZE else size in
  let size := INA_MEM_ALIGN size in
  if negb (malloc_ok sizeof_pool) then Some (st, Err INA_ERR_OUT_OF_MEMORY) else
  let id := fresh st in
  let st := PMem (pools st) (blocks st) (fresh st + 1) in
  let alignment := if negb (Z.lxor cf INA_MEM_BESTFIT =? 0) then INA_MEM_ALIGN_SIZE else 1 in
  if flag cf INA_MEM_SHARED then None else
  let '(st, m) := alloc_block st size in
  st ← (if flag cf INA_MEM_NOZEROFILL then Some st else mem_zero st (Ptr m 0) size);
  (* freeing the structure and then its label is an access to freed memory *)
  if m =? 0 then None else
  Some (PMem (<[id := Pool cf size 0 size alignment m label id 0 0]> (pools st)) (blocks st) (fresh st), Ok id).

(** The loop of [ina_mempool_free] from the chunk [pn]; a chunk that is its
    own child would never end. *)
Fixpoint free_loop (fuel : nat) (st : pmem) (pn : Z) : option pmem :=
  match fuel with
  | O => None
  | S fuel =>
      if pn =? 0 then Some st else
      pm ← get st pn;
      let next := if pn =? p_child pm then pn else p_child pm in
      free_loop fuel (PMem (delete pn (pools st)) (delete (p_m pm) (blocks st)) (fresh st)) next
  end.

Definition chain_fuel (st : pmem) : nat := S (size (pools st)).

Definition ina_mempool_free (st : pmem) (id : Z) : option pmem :=
  if id =? 0 then Some st else
  p ← get st id;
  st ← (if p_parent p =? 0 then Some st else upd st (p_parent p) (fun q => with_child q 0));
  st ← upd st id (fun q => with_current q id);
  free_loop (chain_fuel st) st id.

Definition ina_mempool_set_alignment (st : pmem) (id alignment : Z) : option (pmem * result unit) :=
  if 0 <? alignment then st ← upd st id (fun p => with_alignment p alignment); Some (st, Ok tt)
  else Some (st, Err INA_ERR_INVALID_ARGUMENT).

Definition ina_mempool_get_alignment (st : pmem) (id : Z) : option Z :=
  p ← get st id; Some (p_alignment p).

Definition ina_mempool_merge (st : pmem) (dest src : Z) : option (pmem * result unit) :=
  if src =? 0 then Some (st, Ok tt) else
  if src =? dest then Some (st, Ok tt) else
  d ← get st dest;
  s ← get st src;
  if flag (p_cf d) INA_MEM_SHARED || flag (p_cf s) INA_MEM_SHARED then Some (st, Err INA_ERR_OPERATION_INVALID) else
  st ← upd st src (fun p => with_parent p dest);
  let first_child := p_child d in
  st ← upd st dest (fun p => with_child p src);
  st ← upd st src (fun p => with_child p first_child);
  Some (st, Ok tt).

(** [ina_mempool_info_t] *)
Record pool_info := PoolInfo { pi_cf : Z; pi_size : Z; pi_used : Z; pi_children : Z }.

Fixpoint info_loop (fuel : nat) (st : pmem) (pm : Z) (i : pool_info) : option pool_info :=
  match fuel with
  | O => None
  | S fuel =>
      if pm =? 0 then Some i else
      p ← get st pm;
      info_loop fuel st (p_child p)
        (PoolInfo (pi_cf i) (pi_size i +₆₄ p_size p) (pi_used i +₆₄ (p_pos p + (p_size p - p_end p)))
          (pi_children i + 1))
  end.

Definition ina_mempool_info (st : pmem) (id : Z) : option pool_info :=
  p ← get st id;
  i ← info_loop (chain_fuel st) st id (PoolInfo (p_cf p) 0 0 0);
  Some (PoolInfo (pi_cf i) (pi_size i) (pi_used i) (pi_children i - 1)).

(** The loop of [ina_mempool_shrink]; it reads the pool [id] in every round,
    also after having freed it. *)
Fixpoint shrink_loop (fuel : nat) (st : pmem) (id pn c chunks : Z) : option pmem :=
  match fuel with
  | O => None
  | S fuel =>
      if pn =? 0 then Some st else
      pm ← get st pn;
      let next := if pn =? p_child pm then pn else p_child pm in
      st ←
        (if chunks <? c then
           root ← get st id;
           if p_end root =? p_size root
           then Some (PMem (delete pn (pools st)) (delete (p_m pm) (blocks st)) (fresh st))
           else upd st pn (fun p => with_pos p 0)
         else upd st pn (fun p => with_pos p 0));
      shrink_loop fuel st id next (u64 (c - 1)) chunks
  end.

Definition ina_mempool_shrink (st : pmem) (id chunks : Z) : option (pmem * pool_info) :=
  info ← ina_mempool_info st id;
  if pi_children info <=? chunks then Some (st, info) else
  st ← shrink_loop (chain_fuel st) st id id (pi_children info) chunks;
  Some (st, info).

(** The loop of [ina_mempool_clear] ([zero]) and [ina_mempool_reset]. *)
Fixpoint reset_loop (fuel : nat) (zero : bool) (st : pmem) (pn : Z) : option pmem :=
  match fuel with
  | O => None
  | S fuel =>
      if pn =? 0 then Some st else
      pm ← get st pn;
      let next := if pn =? p_child pm then pn else p_child pm in
      st ← upd st pn (fun p => with_pos p 0);
      st ← (if zero then mem_zero st (Ptr (p_m pm) 0) (p_size pm) else Some st);
      reset_loop fuel zero st next
  end.

Definition ina_mempool_clear (st : pmem) (id : Z) : option pmem :=
  st ← reset_loop (chain_fuel st) true st id;
  upd st id (fun p => with_current p id).

Definition ina_mempool_reset (st : pmem) (id : Z) : option pmem :=
  st ← reset_loop (chain_fuel st) false st id;
  upd st id (fun p => with_current p id).

(** [(pos + size > end) || (pos + size < pos)] *)
Definition does_not_fit (p : pool) (size : Z) : bool :=
  (p_end p <? p_pos p +₆₄ size) || (p_pos p +₆₄ size <? p_pos p).

(** The size of a further chunk for a request. *)
Definition chunk_size (p : pool) (size : Z) : Z :=
  if flag (p_cf p) INA_MEM_AUTOSIZE || (p_size p <? size) then size else p_size p.

(** A new chunk that becomes the child of the current one and the current
    one. [None] for the chunk if it cannot be had. *)
Definition add_chunk (st : pmem) (id size : Z) : option (pmem * option Z) :=
  p ← get st id;
  '(st, r) ← ina_mempool_new st (chunk_size p size) (p_label p) (Z.lor (p_cf p) INA_MEM_CHILD);
  match r with
  | Err _ => Some (st, None)
  | Ok child =>
      st ← upd st (p_current p) (fun c => with_child c child);
      st ← upd st child (fun c => with_parent c (p_current p));
      st ← upd st id (fun q => with_current q child);
      Some (st, Some child)
  end.

(** The [retry] loop of [ina_mempool_dalloc_aligned]: it ends with a current
    chunk in which the request fits, or with an error. *)
Fixpoint dalloc_retry (fuel : nat) (st : pmem) (id size : Z) : option (pmem * result unit) :=
  match fuel with
  | O => None
  | S fuel =>
      p ← get st id;
      c ← get st (p_current p);
      if does_not_fit c size then
        if flag (p_cf p) INA_MEM_DYNAMIC then
          if negb (p_child c =? 0) then
            st ← upd st id (fun q => with_current q (p_child c));
            dalloc_retry fuel st id size
          else
            '(st, r) ← add_chunk st id size;
            Some (st, match r with Some _ => Ok tt | None => Err INA_ERR_OUT_OF_MEMORY end)
        else Some (st, Err INA_ERR_POOL_FULL)
      else Some (st, Ok tt)
  end.

(** The end of an allocation from the bottom of the current chunk. *)
Definition take_bottom (st : pmem) (id size : Z) : option (pmem * ptr) :=
  p ← get st id;
  c ← get st (p_current p);
  st ← upd st (p_current p) (fun c => with_pos c (p_pos c +₆₄ size));
  Some (st, Ptr (p_m c) (p_pos c)).

Definition ina_mempool_dalloc_aligned (st : pmem) (id size alignment : Z)
    : option (pmem * result ptr) :=
  if negb (0 <? alignment) then None else
  let size := INA_MEM_ALIGN_N size alignment in
  '(st, r) ← dalloc_retry (chain_fuel st) st id size;
  match r with
  | Err e => Some (st, Err e)
  | Ok _ => '(st, ret) ← take_bottom st id size; Some (st, Ok ret)
  end.

Definition ina_mempool_dalloc (st : pmem) (id size : Z) : option (pmem * result ptr) :=
  alignment ← ina_mempool_get_alignment st id;
  ina_mempool_dalloc_aligned st id size alignment.

(** [ina_mempool_nalloc_aligned]; the result of adding a chunk is not
    checked. *)
Definition ina_mempool_nalloc_aligned (st : pmem) (id size alignment : Z)
    : option (pmem * result ptr) :=
  if negb (0 <? alignment) then None else
  let size := INA_MEM_ALIGN_N size alignment in
  p ← get st id;
  if p_end p <? size then Some (st, Err (Z.lor (INA_ES S_SIZE) INA_ERR_INVALID)) else
  c ← get st (p_current p);
  '(st, full) ←
    (if does_not_fit c size then
       if flag (p_cf p) INA_MEM_DYNAMIC then
         '(st, r) ← add_chunk st id size;
         match r with Some _ => Some (st, false) | None => None end
       else Some (st, true)
     else Some (st, false));
  if full : bool then Some (st, Err INA_ERR_POOL_FULL) else
  p ← get st id;
  c ← get st (p_current p);
  st ← upd st (p_current p) (fun c => with_end c (p_end c -₆₄ size));
  Some (st, Ok (Ptr (p_m c) (p_end c -₆₄ size))).

Definition ina_mempool_nalloc (st : pmem) (id size : Z) : option (pmem * result ptr) :=
  alignment ← ina_mempool_get_alignment st id;
  ina_mempool_nalloc_aligned st id size alignment.

(** The allocation at the end of [ina_mempool_ralloc_aligned] when it has
    moved: it takes the position of [pool], also when it has added a chunk. *)
Definition move_to_pos (st : pmem) (id : Z) (old : ptr) (old_size new_size : Z)
    : option (pmem * result ptr) :=
  p ← get st id;
  let ret := Ptr (p_m p) (p_pos p) in
  st ← mem_cpy st ret old old_size;
  st ← upd st id (fun p => with_pos p (p_pos p +₆₄ new_size));
  Some (st, Ok ret).

Definition ina_mempool_ralloc_aligned (st : pmem) (id : Z) (old : ptr) (old_size new_size alignment : Z)
    : option (pmem * result ptr) :=
  if negb (0 <? alignment) || negb (0 <? old_size) || negb (0 <? new_size) then None else
  let new_size := INA_MEM_ALIGN_N new_size alignment in
  let old_size := INA_MEM_ALIGN_N old_size alignment in
  p ← get st id;
  let grow_chunk error :=
    if flag (p_cf p) INA_MEM_DYNAMIC then
      '(st, r) ← add_chunk st id new_size;
      match r with
      | Some _ => move_to_pos st id old old_size new_size
      | None => None
      end
    else Some (st, Err error) in
  if p_end p <? old_size then Some (st, Err (Z.lor (INA_ES S_SIZE) INA_ERR_INVALID)) else
  if (old_size <=? p_pos p) && bool_decide (Ptr (p_m p) (p_pos p - old_size) = old) then
    if u64 (p_pos p + new_size - old_size) <=? p_end p then
      let pos := u64 (p_pos p + new_size - old_size) in
      st ← upd st id (fun p => with_pos p pos);
      st ← (if new_size <? old_size then mem_zero st (Ptr (p_m p) pos) (old_size - new_size) else Some st);
      Some (st, Ok old)
    else grow_chunk INA_ERR_OUT_OF_MEMORY
  else if new_size <=? old_size then Some (st, Ok old)
  else if (p_pos p <=? p_pos p +₆₄ new_size) && (p_pos p +₆₄ new_size <=? p_end p) then
    move_to_pos st id old old_size new_size
  else grow_chunk INA_ERR_POOL_FULL.

Definition ina_mempool_ralloc (st : pmem) (id : Z) (old : ptr) (old_size new_size : Z)
    : option (pmem * result ptr) :=
  alignment ← ina_mempool_get_alignment st id;
  ina_mempool_ralloc_aligned st id old old_size new_size alignment.
End Alloc.

(** ** Rounding *)

Lemma ldiff_range x m : 0 <= m -> x - m <= Z.ldiff x m <= x.
Proof.
  intros Hm.
  assert (forall y, x - Z.land x y = Z.ldiff x y) as Heq.
  { intros y. rewrite Z.sub_nocarry_ldiff; apply Z_bits_ext; intros i Hi; rewrite !Z.ldiff_spec, Z.land_spec.
    - by destruct (Z.testbit x i), (Z.testbit y i).
    - rewrite Z.bits_0. by destruct (Z.testbit x i), (Z.testbit y i). }
  rewrite <- Heq.
  assert (m - Z.land x m = Z.ldiff m (Z.land x m)) as Hle.
  { apply Z.sub_nocarry_ldiff, Z_bits_ext. intros i Hi.
    rewrite Z.ldiff_spec, Z.land_spec, Z.bits_0. by destruct (Z.testbit x i), (Z.testbit m i). }
  assert (0 <= Z.ldiff m (Z.land x m)) by (apply Z.ldiff_nonneg; by left).
  assert (0 <= Z.land x m) by (apply Z.land_nonneg; by right). lia.
Qed.

Lemma ldiff_pow2 x k : 0 <= k -> Z.ldiff x (2 ^ k - 1) = x / 2 ^ k * 2 ^ k.
Proof.
  intros Hk. rewrite Z.sub_1_r, <- Z.ones_equiv, Z.ldiff_ones_r by done.
  by rewrite Z.shiftl_mul_pow2, Z.shiftr_div_pow2 by done.
Qed.

Lemma align_n_range n a :
  0 <= n -> 0 < a -> n + a <= 2 ^ 64 -> n <= INA_MEM_ALIGN_N n a <= n + (a - 1).
Proof.
  intros Hn Ha Hw. unfold INA_MEM_ALIGN_N. rewrite wrap_small by (unfold in_width; lia).
  pose proof (ldiff_range (n + (a - 1)) (a - 1)). lia.
Qed.

(** [INA_MEM_ALIGN_N] rounds up to the next multiple of an alignment that
    is a power of two; for any other alignment it is still at least the
    size asked for and less than the alignment larger. *)
Theorem align_n_correct n a :
  0 <= n -> 0 < a -> n + a <= 2 ^ 64 ->
  n <= INA_MEM_ALIGN_N n a < n + a /\
  forall k, 0 <= k -> a = 2 ^ k -> INA_MEM_ALIGN_N n a mod a = 0.
Proof.
  intros Hn Ha Hw. pose proof (align_n_range n a Hn Ha Hw). split; [lia|].
  intros k Hk ->. unfold INA_MEM_ALIGN_N. rewrite ldiff_pow2 by done.
  apply Z_mod_mult.
Qed.

Lemma align_n_correct_witness :
  0 <= 100 /\ 0 < 64 /\ 100 + 64 <= 2 ^ 64 /\
  (100 <= INA_MEM_ALIGN_N 100 64 < 100 + 64 /\
   forall k, 0 <= k -> 64 = 2 ^ k -> INA_MEM_ALIGN_N 100 64 mod 64 = 0).
Proof.
  split; [lia|]. split; [lia|]. split; [lia|].
  apply (align_n_correct 100 64); lia.
Defined.

(** [ina_mem_alloc_aligned] with a power of two as alignment, at least
    the size of a pointer, returns an aligned address; the memory behind it
    and the slot for the address of [malloc] below it lie inside the block
    that [malloc] returned. *)
Theorem alloc_aligned_in_block malloc k size :
  3 <= k -> 0 < size -> size + 2 ^ k + 7 < 2 ^ 64 ->
  let nb := size + 2 ^ k - 1 + sizeof_ptr in
  let p := malloc nb in
  0 < p -> p + nb <= 2 ^ 64 ->
  exists ptr,
    ina_mem_alloc_aligned (2 ^ k) size malloc = Ok ptr /\
    ptr mod 2 ^ k = 0 /\ p <= ptr - sizeof_ptr /\ ptr + size <= p + nb.
Proof.
  intros Hk Hs Hw nb p Hp Hpw. unfold ina_mem_alloc_aligned, sizeof_ptr in *.
  assert (0 < 2 ^ k) by (apply Z.pow_pos_nonneg; lia).
  destruct (Z.eqb_spec size 0); [lia|]. destruct (Z.eqb_spec (2 ^ k) 0); [lia|].
  rewrite (wrap_small 64 (size + 2 ^ k - 1 + 8)) by (unfold in_width; lia). fold nb. fold p.
  destruct (Z.eqb_spec p 0); [lia|]. eexists. split; [reflexivity|].
  rewrite wrap_small by (unfold in_width, nb in *; lia).
  pose proof (ldiff_range (p + 8 + 2 ^ k - 1) (2 ^ k - 1)). unfold nb.
  split; [|lia]. rewrite ldiff_pow2 by lia. apply Z_mod_mult.
Qed.

Lemma alloc_aligned_in_block_witness :
  let malloc := fun _ => 4096 + 40 in
  let nb := 100 + 2 ^ 6 - 1 + sizeof_ptr in
  exists ptr,
    ina_mem_alloc_aligned (2 ^ 6) 100 malloc = Ok ptr /\
    ptr mod 2 ^ 6 = 0 /\ malloc nb <= ptr - sizeof_ptr /\ ptr + 100 <= malloc nb + nb.
Proof. apply (alloc_aligned_in_block (fun _ => 4096 + 40) 6 100); unfold sizeof_ptr; lia. Defined.

(** ** Chunks and allocations *)

Definition next_of (l : list Z) : Z := match l with [] => 0 | id :: _ => id end.

(** The chunks [c], each the child of the one before. *)
Fixpoint chain (st : pmem) (c : list Z) : Prop :=
  match c with
  | [] => True
  | id :: c => id <> 0 /\ (exists p, pools st !! id = Some p /\ p_child p = next_of c) /\ chain st c
  end.

(** An allocation: its block, offset and size. *)
Record region := Region { r_block : Z; r_off : Z; r_len : Z }.

Definition disjoint_regions (r s : region) : Prop :=
  r_block r <> r_block s \/ r_off r + r_len r <= r_off s \/ r_off s + r_len s <= r_off r.

(** The region is in the used part of its chunk. *)
Definition allocated (st : pmem) (r : region) : Prop :=
  exists id p, pools st !! id = Some p /\ p_m p = r_block r /\
    0 <= r_off r /\ 0 <= r_len r /\ r_off r + r_len r <= p_size p /\
    (r_off r + r_len r <= p_pos p \/ p_end p <= r_off r).

Definition pool_ok (st : pmem) (p : pool) : Prop :=
  0 <= p_pos p <= p_end p /\ p_end p <= p_size p < 2 ^ 62 /\
  exists b, blocks st !! p_m p = Some b /\ Z.of_nat (length b) = p_size p.

(** The pool [root] with the chunks [pre], the current one [cur] and the
    unused ones [post] behind it, from which [rs] were allocated. *)
Record inv (st : pmem) (root : Z) (pre : list Z) (cur : Z) (post : list Z) (rs : list region) : Prop := {
  i_chain : chain st (pre ++ cur :: post);
  i_nodup : NoDup (pre ++ cur :: post);
  i_head : head (pre ++ [cur]) = Some root;
  i_root : exists p, pools st !! root = Some p /\ p_current p = cur /\
    flag (p_cf p) INA_MEM_SHARED = false /\ p_size p < 2 ^ 61;
  i_pools id p : pools st !! id = Some p -> pool_ok st p /\ 0 < id < fresh st /\ 0 < p_m p < fresh st;
  i_inj id id' p p' : pools st !! id = Some p -> pools st !! id' = Some p' -> p_m p = p_m p' -> id = id';
  i_regions : Forall (allocated st) rs;
  i_disjoint : ForallOrdPairs disjoint_regions rs
}.

(** The pool structure [p'] continues [p] with more memory handed out. *)
Definition used_more (p p' : pool) : Prop :=
  p_cf p' = p_cf p /\ p_size p' = p_size p /\ p_m p' = p_m p /\ p_current p' = p_current p /\
  p_child p' = p_child p /\ p_label p' = p_label p /\ p_alignment p' = p_alignment p /\
  p_pos p <= p_pos p' <= p_end p' /\ p_end p' <= p_end p.

Lemma chain_lookup st c id : chain st c -> id ∈ c -> exists p, pools st !! id = Some p.
Proof.
  induction c as [|id' c IH]; [by intros _ ?%elem_of_nil|].
  intros (_ & (p & Hp & _) & Hc) [->|Hin]%elem_of_cons; [by exists p|by apply IH].
Qed.

Lemma chain_change st id p p' c :
  pools st !! id = Some p -> p_child p' = p_child p ->
  chain st c -> chain (PMem (<[id := p']> (pools st)) (blocks st) (fresh st)) c.
Proof.
  intros Hp Hch. induction c as [|id' c IH]; [done|]. intros (Hid & (q & Hq & Hqc) & Hc).
  split; [done|]. split; [|by apply IH]. cbn. destruct (decide (id' = id)) as [->|Hne].
  - simplify_eq. exists p'. rewrite lookup_insert_eq. split; [done|congruence].
  - exists q. by rewrite lookup_insert_ne.
Qed.

(** Handing out more memory of the chunk [id] keeps the invariant. *)
Lemma inv_use st root pre cur post rs id p p' :
  inv st root pre cur post rs -> pools st !! id = Some p -> used_more p p' ->
  inv (PMem (<[id := p']> (pools st)) (blocks st) (fresh st)) root pre cur post rs.
Proof.
  intros [Hc Hnd Hh (r & Hr & Hcur & Hsh & Hsz) Hp Hinj Hrs Hdis] Hid
    (Ecf & Esz & Em & Ecur & Ech & _ & _ & Hpos & Hend).
  destruct (Hp id p Hid) as ((Hp1 & Hp2 & b & Hb & Hbl) & Hf1 & Hf2).
  split; try done.
  - by eapply chain_change.
  - cbn. destruct (decide (root = id)) as [->|Hne].
    + simplify_eq. exists p'. rewrite lookup_insert_eq, Ecur, Ecf, Esz. done.
    + exists r. by rewrite lookup_insert_ne.
  - intros id' q. cbn. destruct (decide (id' = id)) as [->|Hne].
    + rewrite lookup_insert_eq. intros [= <-]. rewrite Em. unfold pool_ok. split_and!; try lia.
      exists b. cbn. by rewrite Em, Esz.
    + rewrite lookup_insert_ne by done. apply Hp.
  - intros i1 i2 q1 q2. cbn.
    destruct (decide (i1 = id)) as [->|H1], (decide (i2 = id)) as [->|H2];
      rewrite ?lookup_insert_eq, ?lookup_insert_ne by done.
    + done.
    + intros [= <-] Hq2. rewrite Em. by apply Hinj.
    + intros Hq1 [= <-]. rewrite Em. by apply Hinj.
    + apply Hinj.
  - eapply Forall_impl; [exact Hrs|]. intros s (i & q & Hq & Hm & ? & ? & ? & Hor). cbn.
    destruct (decide (i = id)) as [->|Hne].
    + simplify_eq. exists id, p'. cbn. rewrite lookup_insert_eq, Em, Esz. split_and!; try done.
      destruct Hor; [left|right]; lia.
    + exists i, q. cbn. by rewrite lookup_insert_ne.
Qed.

(** The new memory is a region disjoint from the others. *)
Lemma inv_region st root pre cur post rs id p p' r :
  inv st root pre cur post rs -> pools st !! id = Some p -> used_more p p' ->
  r_block r = p_m p -> 0 <= r_len r ->
  p_pos p <= r_off r -> r_off r + r_len r <= p_end p ->
  (r_off r + r_len r <= p_pos p' \/ p_end p' <= r_off r) ->
  inv (PMem (<[id := p']> (pools st)) (blocks st) (fresh st)) root pre cur post (r :: rs).
Proof.
  intros Hinv Hid Hu Hb Hlen Hlo Hhi Hor. pose proof (inv_use _ _ _ _ _ _ _ _ _ Hinv Hid Hu) as Hinv'.
  destruct Hinv as [_ _ _ _ Hp Hinj Hrs _]. destruct (Hp id p Hid) as ((Hp1 & Hp2 & _) & _).
  destruct Hu as (_ & Esz & Em & _). destruct Hinv' as [? ? ? ? ? ? Hrs' Hdis']. split; try done.
  - constructor; [|done]. exists id, p'. cbn. rewrite lookup_insert_eq, Em, Esz.
    split_and!; try done; lia.
  - constructor; [|done]. apply List.Forall_forall. intros s Hs. apply list_elem_of_In in Hs.
    rewrite Forall_forall in Hrs. destruct (Hrs s Hs) as (i & q & Hq & Hm & ? & ? & ? & Hors).
    destruct (decide (r_block r = r_block s)) as [Heq|]; [|by left]. right.
    assert (i = id) as -> by (apply (Hinj i id q p); congruence). simplify_eq.
    destruct Hors; lia.
Qed.

Section Pools.
Context (malloc_ok : Z -> bool) (garbage : Z -> list Z).
(** The allocator does not run out of memory. *)
Context (Hmalloc : forall n, malloc_ok n = true).

Abbreviation mempool_new := (ina_mempool_new malloc_ok garbage).
Abbreviation dalloc_aligned := (ina_mempool_dalloc_aligned malloc_ok garbage).
Abbreviation nalloc_aligned := (ina_mempool_nalloc_aligned malloc_ok garbage).

Definition new_size (size : Z) : Z :=
  INA_MEM_ALIGN (if size <? INA_MEM_MIN_POOL_SIZE then INA_MEM_MIN_POOL_SIZE else size).

Lemma new_size_range size :
  0 <= size < 2 ^ 61 + 2 ^ 60 -> size <= new_size size /\ 1024 <= new_size size <= Z.max 1024 size + 15.
Proof.
  intros Hs. unfold new_size, INA_MEM_ALIGN, INA_MEM_MIN_POOL_SIZE, INA_MEM_ALIGN_SIZE, sizeof_ptr.
  destruct (Z.ltb_spec size 1024).
  - pose proof (align_n_range 1024 (2 * 8)). lia.
  - pose proof (align_n_range size (2 * 8)). lia.
Qed.

Definition new_pool (size : Z) (label : option string) (cf id m : Z) : pool :=
  Pool cf (new_size size) 0 (new_size size)
    (if negb (Z.lxor cf INA_MEM_BESTFIT =? 0) then INA_MEM_ALIGN_SIZE else 1) m label id 0 0.

Lemma mem_zero_spec st p nb b :
  blocks st !! ptr_block p = Some b -> 0 <= ptr_off p -> 0 <= nb -> ptr_off p + nb <= Z.of_nat (length b) ->
  exists b', mem_zero st p nb = Some (PMem (pools st) (<[ptr_block p := b']> (blocks st)) (fresh st)) /\
    length b' = length b.
Proof.
  intros Hb Ho Hn Hl. unfold mem_zero. rewrite Hb. cbn [mbind option_bind].
  destruct (Z.leb_spec 0 (ptr_off p)), (Z.leb_spec 0 nb), (Z.leb_spec (ptr_off p + nb) (Z.of_nat (length b))); try lia.
  eexists. split; [reflexivity|]. rewrite !length_app, length_take, repeat_length, length_drop. lia.
Qed.

(** A new pool is a new structure with a new block of its size. *)
Lemma mempool_new_spec st size label cf :
  0 <= size < 2 ^ 61 + 2 ^ 60 -> flag cf INA_MEM_SHARED = false -> 0 < fresh st ->
  exists b,
    mempool_new st size label cf =
      Some (PMem (<[fresh st := new_pool size label cf (fresh st) (fresh st + 1)]> (pools st))
        (<[fresh st + 1 := b]> (blocks st)) (fresh st + 2), Ok (fresh st)) /\
    Z.of_nat (length b) = new_size size.
Proof.
  intros Hs Hsh Hf. pose proof (new_size_range size Hs) as Hns. unfold ina_mempool_new. rewrite Hmalloc, Hsh.
  cbn [negb]. fold (new_size size). unfold alloc_block. rewrite Hmalloc.
  destruct (Z.eqb_spec (new_size size) 0); [lia|]. cbn [orb negb fresh pools blocks].
  set (b0 := take _ _).
  assert (length b0 = Z.to_nat (new_size size)) as Hb0.
  { unfold b0. rewrite length_take, length_app, repeat_length. lia. }
  replace (fresh st + 1 + 1) with (fresh st + 2) by lia.
  destruct (flag cf INA_MEM_NOZEROFILL); cbn [mbind option_bind].
  - destruct (Z.eqb_spec (fresh st + 1) 0); [lia|]. exists b0. cbn. split; [reflexivity|lia].
  - edestruct (mem_zero_spec (PMem (pools st) (<[fresh st + 1 := b0]> (blocks st)) (fresh st + 2))
      (Ptr (fresh st + 1) 0) (new_size size) b0) as (b' & -> & Hb').
    + cbn. by rewrite lookup_insert_eq.
    + done.
    + lia.
    + cbn. lia.
    + cbn [mbind option_bind]. destruct (Z.eqb_spec (fresh st + 1) 0); [lia|].
      exists b'. cbn [pools blocks fresh ptr_block]. rewrite insert_insert_eq. split; [reflexivity|lia].
Qed.

Lemma chunk_size_range p size :
  0 <= size < 2 ^ 60 -> 0 <= p_size p < 2 ^ 61 -> size <= chunk_size p size < 2 ^ 61 + 2 ^ 60.
Proof.
  intros Hs Hp. unfold chunk_size. destruct (flag (p_cf p) INA_MEM_AUTOSIZE); simpl; [lia|].
  destruct (Z.ltb_spec (p_size p) size); lia.
Qed.

Lemma flag_child cf : flag (Z.lor cf INA_MEM_CHILD) INA_MEM_SHARED = flag cf INA_MEM_SHARED.
Proof.
  unfold flag. f_equal. f_equal. apply Z_bits_ext. intros i Hi. rewrite !Z.land_spec, Z.lor_spec.
  destruct (Z.testbit INA_MEM_SHARED i) eqn:Hb; [|by rewrite !andb_false_r].
  destruct (Z.testbit INA_MEM_CHILD i) eqn:Hc; [|by rewrite orb_false_r].
  change INA_MEM_SHARED with (2 ^ 5) in Hb. change INA_MEM_CHILD with (2 ^ 3) in Hc.
  rewrite Z.pow2_bits_eqb in Hb, Hc by lia. apply Z.eqb_eq in Hb, Hc. lia.
Qed.

Lemma upd_eq st id f p :
  pools st !! id = Some p -> upd st id f = Some (PMem (<[id := f p]> (pools st)) (blocks st) (fresh st)).
Proof. intros H. unfold upd, get. by rewrite H. Qed.

Lemma chain_app_inv st c1 c2 : chain st (c1 ++ c2) -> chain st c2.
Proof. induction c1 as [|id c1 IH]; [done|]. intros (_ & _ & H). by apply IH. Qed.

(** Replacing everything behind the current chunk by a new one. *)
Lemma chain_new_child st pools' bl fr pre cur post child :
  chain st (pre ++ cur :: post) -> NoDup (pre ++ cur :: post) -> child <> 0 -> child ∉ pre ++ cur :: post ->
  (forall id, id ∈ pre -> exists p p', pools st !! id = Some p /\ pools' !! id = Some p' /\ p_child p' = p_child p) ->
  (exists p', pools' !! cur = Some p' /\ p_child p' = child) ->
  (exists p', pools' !! child = Some p' /\ p_child p' = 0) ->
  chain (PMem pools' bl fr) (pre ++ [cur; child]).
Proof.
  intros Hc Hnd Hch0 Hch Hpre Hcur Hchild.
  induction pre as [|id pre IH]; cbn in *.
  - destruct Hc as (? & _). split_and!; done.
  - destruct Hc as (Hid & (p & Hp & Hpc) & Hc). apply NoDup_cons in Hnd as [Hni Hnd].
    apply not_elem_of_cons in Hch as [Hne Hch].
    split; [done|]. split.
    + destruct (Hpre id) as (q & p' & Hq & Hp' & He); [by left|]. simplify_eq.
      exists p'. split; [done|]. rewrite He, Hpc. by destruct pre.
    + apply IH; try done. intros id' Hin. apply Hpre. by right.
Qed.

(** Adding a chunk: it becomes the current one and has room. *)
Lemma add_chunk_spec st root pre cur post rs p size :
  inv st root pre cur post rs -> pools st !! root = Some p -> 0 <= size < 2 ^ 60 ->
  exists st' child,
    add_chunk malloc_ok garbage st root size = Some (st', Some child) /\
    inv st' root (pre ++ [cur]) child [] rs /\
    (exists c, pools st' !! child = Some c /\ p_pos c = 0 /\ size <= p_end c) /\
    (exists p', pools st' !! root = Some p' /\ p_cf p' = p_cf p).
Proof.
  intros [Hc Hnd Hh (r & Hr & Hcur & Hsh & Hsz) Hp Hinj Hrs Hdis] Hroot Hs.
  assert (p = r) as -> by congruence. subst cur.
  destruct (Hp root r Hroot) as ((Hp1 & Hp2 & _) & Hfr & _).
  assert (0 < fresh st) as Hf by lia.
  destruct (chunk_size_range r size Hs ltac:(lia)) as [Hcs1 Hcs2].
  pose proof (new_size_range (chunk_size r size) ltac:(lia)) as [Hns1 Hns2].
  unfold add_chunk, get. rewrite Hroot. cbn [mbind option_bind].
  destruct (mempool_new_spec st (chunk_size r size) (p_label r) (Z.lor (p_cf r) INA_MEM_CHILD)) as (b & -> & Hb);
    [lia|by rewrite flag_child|done|]. cbn [mbind option_bind].
  set (child := fresh st). set (np := new_pool _ _ _ _ _).
  assert (forall id q, pools st !! id = Some q -> id <> child) as Hfresh by (intros id q Hq; destruct (Hp id q Hq); lia).
  set (cur := p_current r) in *.
  destruct (chain_lookup st _ cur Hc) as [c Hcc]; [apply elem_of_app; right; by left|].
  assert (cur <> child) as Hcne by by eapply Hfresh.
  assert (root <> child) as Hrne by by eapply Hfresh.
  erewrite upd_eq by (cbn [pools]; rewrite lookup_insert_ne by done; exact Hcc). cbn [mbind option_bind pools blocks fresh].
  erewrite upd_eq by (cbn [pools]; rewrite lookup_insert_ne by done; apply lookup_insert_eq).
  cbn [mbind option_bind pools blocks fresh].
  set (pools3 := <[child := with_parent np cur]> _).
  assert (exists r3, pools3 !! root = Some r3 /\ (r3 = r \/ r3 = with_child r child)) as (r3 & Hr3 & Hr3').
  { unfold pools3. rewrite lookup_insert_ne by done. destruct (decide (cur = root)) as [Heq|Hne].
    - rewrite Heq, lookup_insert_eq. exists (with_child c child). split; [done|]. right. congruence.
    - rewrite lookup_insert_ne by done. rewrite lookup_insert_ne by done. exists r. by split; [|left]. }
  erewrite upd_eq by exact Hr3. cbn [mbind option_bind pools blocks fresh].
  eexists _, child. split; [reflexivity|].
  set (pools4 := <[root := with_current r3 child]> pools3).
  assert (forall id q, pools4 !! id = Some q ->
    (id = child /\ q = with_parent np cur) \/
    (exists q0, pools st !! id = Some q0 /\ p_cf q = p_cf q0 /\ p_size q = p_size q0 /\ p_pos q = p_pos q0 /\
      p_end q = p_end q0 /\ p_m q = p_m q0 /\
      p_child q = (if decide (id = cur) then child else p_child q0))) as Hback.
  { intros id q. unfold pools4, pools3. destruct (decide (id = root)) as [->|Hir].
    - rewrite lookup_insert_eq. intros [= <-]. right. exists r. split; [done|].
      unfold pools3 in Hr3. rewrite lookup_insert_ne in Hr3 by done.
      destruct (decide (root = cur)) as [Heq|Hne].
      + rewrite <- Heq, lookup_insert_eq in Hr3. assert (c = r) by congruence. subst c. injection Hr3 as <-. done.
      + rewrite lookup_insert_ne in Hr3 by done. rewrite lookup_insert_ne in Hr3 by done. by simplify_eq.
    - rewrite lookup_insert_ne by done. destruct (decide (id = child)) as [->|Hic].
      + rewrite lookup_insert_eq. intros [= <-]. by left.
      + rewrite lookup_insert_ne by done. destruct (decide (id = cur)) as [->|Hicur].
        * rewrite lookup_insert_eq. intros [= <-]. right. by exists c.
        * rewrite lookup_insert_ne by done. rewrite lookup_insert_ne by done. intros Hq. right. by exists q. }
  assert (forall id q0, pools st !! id = Some q0 -> exists q, pools4 !! id = Some q) as Hforth.
  { intros id q0 Hq0. unfold pools4, pools3.
    destruct (decide (id = root)) as [->|]; [rewrite lookup_insert_eq; by eexists|rewrite lookup_insert_ne by done].
    rewrite lookup_insert_ne by (by intros <-; eapply Hfresh).
    destruct (decide (id = cur)) as [->|]; [rewrite lookup_insert_eq; by eexists|rewrite lookup_insert_ne by done].
    rewrite lookup_insert_ne by (by intros <-; eapply Hfresh). by eexists. }
  assert (exists cq, pools4 !! child = Some cq /\ cq = with_parent np cur) as (cq & Hcq & ->).
  { eexists. split; [|reflexivity]. unfold pools4, pools3. by rewrite lookup_insert_ne, lookup_insert_eq by done. }
  assert (m_of_new : p_m (with_parent np cur) = child + 1) by done.
  split; [|split].
  - split; cbn [pools blocks fresh].
    + rewrite <- app_assoc. apply (chain_new_child st _ _ _ pre cur post child Hc Hnd).
      * unfold child. lia.
      * intros Hin. destruct (chain_lookup st _ child Hc Hin) as [q Hq]. by eapply Hfresh.
      * intros id Hin. destruct (chain_lookup st _ id Hc) as [q Hq]; [apply elem_of_app; by left|].
        destruct (Hforth id q Hq) as [q' Hq']. exists q, q'. split; [done|]. split; [done|].
        destruct (Hback id q' Hq') as [[-> _]|(q0 & Hq0 & _ & _ & _ & _ & _ & ->)]; [by eapply Hfresh in Hq|].
        rewrite decide_False; [congruence|]. intros ->.
        apply NoDup_app in Hnd as (_ & Hd & _). apply (Hd cur Hin). by left.
      * destruct (Hforth cur c Hcc) as [q' Hq']. exists q'. split; [done|].
        destruct (Hback cur q' Hq') as [[-> _]|(q0 & Hq0 & _ & _ & _ & _ & _ & ->)]; [by eapply Hfresh in Hcc|].
        by rewrite decide_True.
      * by eexists.
    + rewrite <- app_assoc. cbn. apply NoDup_app in Hnd as (Hn1 & Hn2 & Hn3).
      assert (child ∉ pre ++ cur :: post) as Hnew.
      { intros Hin. destruct (chain_lookup st _ child Hc Hin) as [q Hq]. by eapply Hfresh. }
      apply not_elem_of_app in Hnew as [Hnew1 Hnew2].
      apply NoDup_app. split_and!; [done| |].
      * intros x Hx [->|[->|Hx']%elem_of_cons]%elem_of_cons; [|done|by apply elem_of_nil in Hx'].
        apply (Hn2 cur Hx). by left.
      * apply NoDup_cons. split; [|apply NoDup_singleton]. by intros ->%list_elem_of_singleton.
    + rewrite <- app_assoc. cbn. by destruct pre.
    + destruct (Hforth root r Hroot) as [q' Hq']. exists q'. split; [done|].
      destruct (Hback root q' Hq') as [[? _]|(q0 & Hq0 & Ecf & Esz & _)]; [done|]. simplify_eq.
      rewrite Ecf, Esz. split_and!; [|done|done].
      unfold pools4 in Hq'. rewrite lookup_insert_eq in Hq'. by injection Hq' as <-.
    + intros id q Hq. destruct (Hback id q Hq) as [[-> ->]|(q0 & Hq0 & _ & Esz & Epos & Eend & Em & _)].
      * unfold pool_ok. cbn. unfold child. split_and!; try lia. exists b. by rewrite lookup_insert_eq.
      * destruct (Hp id q0 Hq0) as ((? & ? & b0 & Hb0 & Hl0) & ? & ?).
        unfold pool_ok. rewrite Epos, Eend, Esz, Em. split_and!; try lia. exists b0. cbn.
        rewrite lookup_insert_ne by lia. done.
    + intros i1 i2 q1 q2 H1 H2.
      destruct (Hback i1 q1 H1) as [[-> ->]|(a1 & Ha1 & _ & _ & _ & _ & E1 & _)],
        (Hback i2 q2 H2) as [[-> ->]|(a2 & Ha2 & _ & _ & _ & _ & E2 & _)]; [done|..].
      * rewrite m_of_new, E2. destruct (Hp i2 a2 Ha2) as (_ & _ & ?). unfold child. lia.
      * rewrite m_of_new, E1. destruct (Hp i1 a1 Ha1) as (_ & _ & ?). unfold child. lia.
      * rewrite E1, E2. by apply Hinj.
    + eapply Forall_impl; [exact Hrs|]. intros s (id & q & Hq & Hm & ? & ? & ? & Hor).
      destruct (Hforth id q Hq) as [q' Hq']. exists id, q'. cbn.
      destruct (Hback id q' Hq') as [[-> _]|(q0 & Hq0 & _ & Esz & Epos & Eend & Em & _)]; [by eapply Hfresh in Hq|].
      simplify_eq. rewrite Esz, Epos, Eend, Em. done.
    + done.
  - exists (with_parent np cur). split; [done|]. cbn. split; [done|]. lia.
  - destruct (Hforth root r Hroot) as [q' Hq']. exists q'. split; [done|].
    destruct (Hback root q' Hq') as [[? _]|(q0 & Hq0 & Ecf & _)]; [done|]. by simplify_eq.
Qed.

(** Making another chunk of the chain the current one. *)
Lemma inv_set_current st root pre cur post rs p pre' cur' post' :
  inv st root pre cur post rs -> pools st !! root = Some p ->
  pre ++ cur :: post = pre' ++ cur' :: post' ->
  inv (PMem (<[root := with_current p cur']> (pools st)) (blocks st) (fresh st)) root pre' cur' post' rs.
Proof.
  intros [Hc Hnd Hh (r & Hr & Hcur & Hsh & Hsz) Hp Hinj Hrs Hdis] Hroot Heq.
  assert (p = r) as -> by congruence. split; cbn [pools blocks fresh].
  - rewrite <- Heq. by eapply chain_change.
  - by rewrite <- Heq.
  - rewrite <- Hh. transitivity (head (pre' ++ cur' :: post')); [by destruct pre'|].
    rewrite <- Heq. by destruct pre.
  - exists (with_current r cur'). by rewrite lookup_insert_eq.
  - intros id q. destruct (decide (id = root)) as [->|]; [|rewrite lookup_insert_ne by done; apply Hp].
    rewrite lookup_insert_eq. intros [= <-]. by destruct (Hp root r Hr).
  - intros i1 i2 q1 q2.
    destruct (decide (i1 = root)) as [->|H1], (decide (i2 = root)) as [->|H2];
      rewrite ?lookup_insert_eq, ?lookup_insert_ne by done; [done|..].
    + intros [= <-] Hq2 He. by apply (Hinj root i2 r q2).
    + intros Hq1 [= <-] He. by apply (Hinj i1 root q1 r).
    + apply Hinj.
  - eapply Forall_impl; [exact Hrs|]. intros s (id & q & Hq & Hm & ? & ? & ? & Hor).
    destruct (decide (id = root)) as [->|].
    + assert (q = r) as -> by congruence. exists root, (with_current r cur'). cbn. by rewrite lookup_insert_eq.
    + exists id, q. cbn. by rewrite lookup_insert_ne.
  - done.
Qed.

Lemma inv_current st root pre cur post rs :
  inv st root pre cur post rs ->
  exists c, pools st !! cur = Some c /\ p_child c = next_of post /\ pool_ok st c.
Proof.
  intros [Hc _ _ _ Hp _ _ _]. apply chain_app_inv in Hc as (_ & (c & Hcc & Hch) & _).
  exists c. split_and!; [done|done|by eapply Hp].
Qed.

Lemma does_not_fit_spec st p size :
  pool_ok st p -> 0 <= size < 2 ^ 61 -> does_not_fit p size = (p_end p <? p_pos p + size).
Proof.
  intros (H1 & H2 & _) Hs. unfold does_not_fit. rewrite wrap_small by (unfold in_width; lia).
  destruct (Z.ltb_spec (p_pos p + size) (p_pos p)); [lia|]. apply orb_false_r.
Qed.

Lemma chain_length st c : chain st c -> NoDup c -> (length c < chain_fuel st)%nat.
Proof.
  intros Hc Hnd. unfold chain_fuel.
  enough (length c <= size (pools st))%nat by lia.
  rewrite <- (size_dom (pools st)), <- (size_list_to_set (C := gset Z)) by done.
  apply subseteq_size. intros id Hin%elem_of_list_to_set.
  destruct (chain_lookup st c id Hc Hin) as [p Hp]. apply elem_of_dom. by eexists.
Qed.

Lemma fuel_chain st root pre cur post rs :
  inv st root pre cur post rs -> (length post < chain_fuel st)%nat.
Proof.
  intros [Hc Hnd _ _ _ _ _ _]. pose proof (chain_length st _ Hc Hnd) as H.
  rewrite length_app in H. cbn in H. lia.
Qed.

Lemma dalloc_retry_spec fuel st root pre cur post rs p size :
  inv st root pre cur post rs -> pools st !! root = Some p -> 0 <= size < 2 ^ 60 ->
  (length post < fuel)%nat ->
  exists st' r,
    dalloc_retry malloc_ok garbage fuel st root size = Some (st', r) /\
    (exists p', pools st' !! root = Some p' /\ p_cf p' = p_cf p) /\
    exists pre' cur' post',
      inv st' root pre' cur' post' rs /\
      match r with
      | Ok _ => exists c, pools st' !! cur' = Some c /\ p_pos c + size <= p_end c
      | Err e => e = INA_ERR_POOL_FULL /\ flag (p_cf p) INA_MEM_DYNAMIC = false
      end.
Proof.
  revert st pre cur post p. induction fuel as [|fuel IH]; intros st pre cur post p Hinv Hp Hs Hf; [lia|].
  cbn [dalloc_retry]. destruct (i_root _ _ _ _ _ _ Hinv) as (r & Hr & Hcur & _).
  assert (p = r) as -> by congruence. unfold get. rewrite Hr. cbn [mbind option_bind]. rewrite Hcur.
  destruct (inv_current _ _ _ _ _ _ Hinv) as (c & Hc & Hch & Hok). rewrite Hc. cbn [mbind option_bind].
  rewrite (does_not_fit_spec st c size Hok) by lia.
  destruct (Z.ltb_spec (p_end c) (p_pos c + size)).
  - destruct (flag (p_cf r) INA_MEM_DYNAMIC) eqn:Hdyn.
    + rewrite Hch. destruct post as [|nxt post]; cbn [next_of].
      * cbn [Z.eqb negb].
        destruct (add_chunk_spec st root pre cur [] rs r size Hinv Hr Hs) as (st' & child & -> & Hinv' & (c' & Hc' & Hpos & Hend) & Hr').
        cbn [mbind option_bind]. eexists _, _. split; [reflexivity|]. split; [done|].
        eexists _, _, _. split; [exact Hinv'|]. exists c'. split; [done|lia].
      * pose proof (i_chain _ _ _ _ _ _ Hinv) as Hchain. apply chain_app_inv in Hchain as (_ & _ & (Hn0 & _)).
        destruct (Z.eqb_spec nxt 0); [done|]. cbn [negb].
        rewrite (upd_eq st root _ r Hr). cbn [mbind option_bind].
        assert (inv (PMem (<[root := with_current r nxt]> (pools st)) (blocks st) (fresh st)) root (pre ++ [cur]) nxt post rs) as Hinv'.
        { eapply (inv_set_current _ _ pre cur (nxt :: post)); [done|done|]. by rewrite <- app_assoc. }
        edestruct (IH _ _ _ _ (with_current r nxt) Hinv') as (st' & res & -> & Hr' & Hrest); [cbn; apply lookup_insert_eq|done|cbn in Hf; lia|].
        eexists _, _. split; [reflexivity|]. split; [exact Hr'|].
        cbn [with_current p_cf] in Hrest. rewrite Hdyn in Hrest. exact Hrest.
    + eexists _, _. split; [reflexivity|]. split; [by exists r|]. by exists pre, cur, post.
  - eexists _, _. split; [reflexivity|]. split; [by exists r|]. exists pre, cur, post. split; [done|]. by exists c.
Qed.

(** A request of [n] bytes and an alignment that cannot overflow. *)
Definition sane (n a : Z) : Prop := 0 <= n /\ 0 < a /\ n + a <= 2 ^ 60.

Lemma dalloc_spec st root pre cur post rs p n a :
  inv st root pre cur post rs -> pools st !! root = Some p -> sane n a ->
  exists st' r,
    dalloc_aligned st root n a = Some (st', r) /\
    (exists p', pools st' !! root = Some p' /\ p_cf p' = p_cf p) /\
    exists pre' cur' post',
      match r with
      | Ok ret => inv st' root pre' cur' post' (Region (ptr_block ret) (ptr_off ret) (INA_MEM_ALIGN_N n a) :: rs)
      | Err e => inv st' root pre' cur' post' rs /\ e = INA_ERR_POOL_FULL /\ flag (p_cf p) INA_MEM_DYNAMIC = false
      end.
Proof.
  intros Hinv Hp (Hn & Ha & Hw). pose proof (align_n_range n a Hn Ha ltac:(lia)) as Hal.
  unfold ina_mempool_dalloc_aligned. destruct (Z.ltb_spec 0 a); [|lia]. cbn [negb].
  set (size := INA_MEM_ALIGN_N n a) in *.
  destruct (dalloc_retry_spec (chain_fuel st) st root pre cur post rs p size Hinv Hp ltac:(lia) (fuel_chain _ _ _ _ _ _ Hinv))
    as (st' & r & -> & (p' & Hp' & Hcf) & pre' & cur' & post' & Hinv' & Hr). cbn [mbind option_bind].
  destruct r as [[]|e].
  - destruct Hr as (c & Hc & Hfit). unfold take_bottom, get. rewrite Hp'. cbn [mbind option_bind].
    destruct (i_root _ _ _ _ _ _ Hinv') as (r & Hr & Hcur & _). assert (p' = r) as -> by congruence. rewrite Hcur.
    rewrite Hc. cbn [mbind option_bind]. rewrite (upd_eq st' cur' _ c Hc). cbn [mbind option_bind].
    destruct (i_pools _ _ _ _ _ _ Hinv' cur' c Hc) as ((H1 & H2 & _) & _).
    assert (used_more c (with_pos c (p_pos c +₆₄ size))) as Hu.
    { rewrite wrap_small by (unfold in_width; lia). split_and!; cbn; try done; lia. }
    eexists _, _. split; [reflexivity|]. split.
    + cbn [pools]. destruct (decide (root = cur')) as [->|].
      * rewrite lookup_insert_eq. eexists. split; [done|]. cbn. congruence.
      * rewrite lookup_insert_ne by done. by exists r.
    + exists pre', cur', post'. cbn [ptr_block ptr_off].
      eapply inv_region; [exact Hinv'|exact Hc|exact Hu|..]; cbn; try lia; try done.
      rewrite wrap_small by (unfold in_width; lia). lia.
  - eexists _, _. split; [reflexivity|]. split; [by exists p'|]. by exists pre', cur', post'.
Qed.

Lemma nalloc_spec st root pre cur post rs p n a :
  inv st root pre cur post rs -> pools st !! root = Some p -> sane n a ->
  exists st' r,
    nalloc_aligned st root n a = Some (st', r) /\
    (exists p', pools st' !! root = Some p' /\ p_cf p' = p_cf p) /\
    exists pre' cur' post',
      match r with
      | Ok ret => inv st' root pre' cur' post' (Region (ptr_block ret) (ptr_off ret) (INA_MEM_ALIGN_N n a) :: rs)
      | Err e => inv st' root pre' cur' post' rs /\
          (e = Z.lor (INA_ES S_SIZE) INA_ERR_INVALID \/ e = INA_ERR_POOL_FULL /\ flag (p_cf p) INA_MEM_DYNAMIC = false)
      end.
Proof.
  intros Hinv Hp (Hn & Ha & Hw). pose proof (align_n_range n a Hn Ha ltac:(lia)) as Hal.
  unfold ina_mempool_nalloc_aligned. destruct (Z.ltb_spec 0 a); [|lia]. cbn [negb].
  set (size := INA_MEM_ALIGN_N n a) in *. assert (get st root = Some p) as Hg by exact Hp. rewrite Hg. cbn [mbind option_bind].
  destruct (Z.ltb_spec (p_end p) size).
  { eexists _, _. split; [reflexivity|]. split; [by exists p|]. exists pre, cur, post. split; [done|by left]. }
  destruct (i_root _ _ _ _ _ _ Hinv) as (r & Hr & Hcur & _). assert (p = r) as -> by congruence. rewrite Hcur.
  destruct (inv_current _ _ _ _ _ _ Hinv) as (c & Hc & _ & Hok). assert (get st cur = Some c) as Hgc by exact Hc. rewrite Hgc. cbn [mbind option_bind].
  rewrite (does_not_fit_spec st c size Hok) by lia.
  assert (forall st1 pre1 cur1 post1 r1 c1, inv st1 root pre1 cur1 post1 rs -> pools st1 !! root = Some r1 ->
    p_cf r1 = p_cf r -> pools st1 !! cur1 = Some c1 -> p_pos c1 + size <= p_end c1 ->
    exists st' ret,
      (p ← get st1 root; c ← get st1 (p_current p);
       st ← upd st1 (p_current p) (fun c => with_end c (p_end c -₆₄ size));
       Some (st, Ok (Ptr (p_m c) (p_end c -₆₄ size)))) = Some (st', Ok ret) /\
      (exists p', pools st' !! root = Some p' /\ p_cf p' = p_cf r) /\
      inv st' root pre1 cur1 post1 (Region (ptr_block ret) (ptr_off ret) size :: rs)) as Hfin.
  { intros st1 pre1 cur1 post1 r1 c1 Hinv1 Hr1 Hcf1 Hc1 Hfit. unfold get. rewrite Hr1. cbn [mbind option_bind].
    destruct (i_root _ _ _ _ _ _ Hinv1) as (r2 & Hr2 & Hcur2 & _). assert (r1 = r2) as -> by congruence. rewrite Hcur2.
    rewrite Hc1. cbn [mbind option_bind]. rewrite (upd_eq st1 cur1 _ c1 Hc1). cbn [mbind option_bind].
    destruct (i_pools _ _ _ _ _ _ Hinv1 cur1 c1 Hc1) as ((H1 & H2 & _) & _).
    assert (p_end c1 -₆₄ size = p_end c1 - size) as Hw1 by (rewrite wrap_small; [done|unfold in_width; lia]).
    assert (used_more c1 (with_end c1 (p_end c1 -₆₄ size))) as Hu.
    { rewrite Hw1. split_and!; cbn; try done; lia. }
    eexists _, _. split; [reflexivity|]. split.
    + cbn [pools]. destruct (decide (root = cur1)) as [->|].
      * rewrite lookup_insert_eq. eexists. split; [done|]. cbn. congruence.
      * rewrite lookup_insert_ne by done. by exists r2.
    + cbn [ptr_block ptr_off]. eapply inv_region; [exact Hinv1|exact Hc1|exact Hu|..]; cbn; try lia; try done. }
  destruct (Z.ltb_spec (p_end c) (p_pos c + size)).
  - destruct (flag (p_cf r) INA_MEM_DYNAMIC) eqn:Hdyn.
    + destruct (add_chunk_spec st root pre cur post rs r size Hinv Hr ltac:(lia)) as (st1 & child & -> & Hinv1 & (c1 & Hc1 & Hpos1 & Hend1) & (r1 & Hr1 & Hcf1)).
      cbn [mbind option_bind]. cbn iota.
      destruct (Hfin st1 _ _ _ r1 c1 Hinv1 Hr1 Hcf1 Hc1 ltac:(lia)) as (st' & ret & -> & Hroot' & Hinv').
      eexists _, _. split; [reflexivity|]. split; [done|]. eexists _, _, _. exact Hinv'.
    + cbn [mbind option_bind]. cbn iota. eexists _, _. split; [reflexivity|]. split; [by exists r|].
      exists pre, cur, post. split; [done|by right].
  - cbn [mbind option_bind]. cbn iota.
    destruct (Hfin st _ _ _ r c Hinv Hr eq_refl Hc ltac:(lia)) as (st' & ret & -> & Hroot' & Hinv').
    eexists _, _. split; [reflexivity|]. split; [done|]. eexists _, _, _. exact Hinv'.
Qed.

(** ** Rewinding *)

(** The pool structure [p'] is [p], perhaps with nothing handed out from the
    bottom. *)
Definition rewound (p p' : pool) : Prop := p' = p \/ p' = with_pos p 0.

Record rewound_mem (st st' : pmem) : Prop := {
  rw_pools id : option_Forall2 rewound (pools st !! id) (pools st' !! id);
  rw_blocks i : length <$> blocks st' !! i = length <$> blocks st !! i;
  rw_fresh : fresh st' = fresh st
}.

Lemma rewound_mem_refl st : rewound_mem st st.
Proof. split; [|done|done]. intros id. destruct (pools st !! id); constructor. by left. Qed.

Lemma rewound_mem_trans st1 st2 st3 : rewound_mem st1 st2 -> rewound_mem st2 st3 -> rewound_mem st1 st3.
Proof.
  intros [H1 H2 H3] [H1' H2' H3']. split; [|congruence|congruence].
  intros id. specialize (H1 id). specialize (H1' id). inversion H1 as [a b Hab Ha Hb|Ha Hb]; rewrite <- Hb in H1';
    inversion H1' as [b' d Hbd Hb' Hd|]; subst; constructor.
  destruct Hab as [->| ->], Hbd as [->| ->]; by (left + right).
Qed.

Lemma rewound_step st id p :
  pools st !! id = Some p ->
  rewound_mem st (PMem (<[id := with_pos p 0]> (pools st)) (blocks st) (fresh st)).
Proof.
  intros Hp. split; [|done|done]. intros i. cbn. destruct (decide (i = id)) as [->|Hne].
  - rewrite lookup_insert_eq, Hp. constructor. by right.
  - rewrite lookup_insert_ne by done. destruct (pools st !! i); constructor. by left.
Qed.

Lemma rewound_lookup st st' id p :
  rewound_mem st st' -> pools st !! id = Some p -> exists p', pools st' !! id = Some p' /\ rewound p p'.
Proof. intros [H _ _] Hp. specialize (H id). rewrite Hp in H. inversion H. by eexists. Qed.

Lemma rewound_lookup_inv st st' id p' :
  rewound_mem st st' -> pools st' !! id = Some p' -> exists p, pools st !! id = Some p /\ rewound p p'.
Proof. intros [H _ _] Hp. specialize (H id). rewrite Hp in H. inversion H. by eexists. Qed.

Lemma rewound_chain st st' c : rewound_mem st st' -> chain st c -> chain st' c.
Proof.
  intros Hr. induction c as [|id c IH]; [done|]. intros (Hid & (p & Hp & Hch) & Hc).
  split; [done|]. split; [|by apply IH]. destruct (rewound_lookup st st' id p Hr Hp) as (p' & Hp' & [->| ->]);
    eexists; (split; [exact Hp'|done]).
Qed.

Lemma rewound_ok st st' p p' : rewound_mem st st' -> rewound p p' -> pool_ok st p -> pool_ok st' p'.
Proof.
  intros [_ H _] Hp (H1 & H2 & b & Hb & Hl). specialize (H (p_m p)). rewrite Hb in H.
  destruct (blocks st' !! p_m p) as [b'|] eqn:Hb'; [|discriminate H]. injection H as Hlen.
  destruct Hp as [->| ->]; (split; [cbn; lia|]); (split; [cbn; lia|]); exists b'; cbn; (split; [done|lia]).
Qed.

Lemma rewound_zero st m n b :
  blocks st !! m = Some b -> Z.of_nat (length b) = n ->
  exists st', mem_zero st (Ptr m 0) n = Some st' /\ rewound_mem st st'.
Proof.
  intros Hb Hl. destruct (mem_zero_spec st (Ptr m 0) n b Hb) as (b' & -> & Hb'); cbn; try lia.
  eexists. split; [reflexivity|]. split; [|cbn|done].
  - intros id. cbn. destruct (pools st !! id); constructor. by left.
  - intros i. destruct (decide (i = m)) as [->|]; [|by rewrite lookup_insert_ne].
    rewrite lookup_insert_eq, Hb. cbn. by rewrite Hb'.
Qed.

(** The loop rewinds the chunks of a chain. *)
Lemma reset_loop_spec fuel zero st c :
  chain st c -> NoDup c -> (forall id p, pools st !! id = Some p -> pool_ok st p) -> (length c < fuel)%nat ->
  exists st', reset_loop fuel zero st (next_of c) = Some st' /\ rewound_mem st st' /\
    forall id, id ∈ c -> exists p, pools st' !! id = Some p /\ p_pos p = 0.
Proof.
  revert st c. induction fuel as [|fuel IH]; intros st c Hc Hnd Hok Hf; [lia|]. cbn [reset_loop].
  destruct c as [|id c]; cbn [next_of].
  { exists st. split; [done|]. split; [apply rewound_mem_refl|]. by intros id ?%elem_of_nil. }
  destruct Hc as (Hid & (p & Hp & Hch) & Hc). destruct (Z.eqb_spec id 0); [done|].
  unfold get. rewrite Hp. cbn [mbind option_bind]. apply NoDup_cons in Hnd as [Hni Hnd].
  assert (id <> p_child p) as Hne.
  { rewrite Hch. destruct c as [|id' c]; [done|]. intros ->. apply Hni. by left. }
  destruct (Z.eqb_spec id (p_child p)); [done|]. rewrite (upd_eq st id _ p Hp). cbn [mbind option_bind].
  set (st1 := PMem _ _ _). pose proof (rewound_step st id p Hp) as Hr1. fold st1 in Hr1.
  assert (exists st2, (if zero then mem_zero st1 (Ptr (p_m p) 0) (p_size p) else Some st1) = Some st2 /\
    rewound_mem st1 st2) as (st2 & -> & Hr2).
  { destruct zero; [|exists st1; split; [done|apply rewound_mem_refl]].
    destruct (Hok id p Hp) as (_ & _ & b & Hb & Hl). by apply (rewound_zero st1 (p_m p) (p_size p) b). }
  cbn [mbind option_bind]. rewrite Hch. pose proof (rewound_mem_trans _ _ _ Hr1 Hr2) as Hr12.
  destruct (IH st2 c) as (st3 & Hrun & Hr3 & Hpos); [by eapply rewound_chain|done| |cbn in Hf; lia|].
  { intros i q Hq. destruct (rewound_lookup_inv st st2 i q Hr12 Hq) as (q0 & Hq0 & Hqq).
    eapply rewound_ok; [exact Hr12|exact Hqq|by eapply Hok]. }
  exists st3. split; [done|]. split; [by eapply rewound_mem_trans|].
  intros i [->|Hin]%elem_of_cons; [|by apply Hpos].
  destruct (rewound_lookup st1 st3 id (with_pos p 0)) as (p' & Hp' & Hpp);
    [by eapply rewound_mem_trans|apply lookup_insert_eq|].
  exists p'. split; [done|]. by destruct Hpp as [->| ->].
Qed.

Lemma inv_rewound st st' root pre cur post rs :
  inv st root pre cur post rs -> rewound_mem st st' -> inv st' root pre cur post [].
Proof.
  intros [Hc Hnd Hh (r & Hr & Hcur & Hsh & Hsz) Hp Hinj _ _] Hrw. split; try done.
  - by eapply rewound_chain.
  - destruct (rewound_lookup _ _ _ _ Hrw Hr) as (r' & Hr' & [->| ->]); eexists; (split; [exact Hr'|done]).
  - intros id q Hq. destruct (rewound_lookup_inv _ _ _ _ Hrw Hq) as (q0 & Hq0 & Hqq).
    destruct (Hp id q0 Hq0) as (Hok & ? & ?). rewrite (rw_fresh _ _ Hrw).
    split; [by eapply rewound_ok|]. split; [done|]. by destruct Hqq as [->| ->].
  - intros i1 i2 q1 q2 H1 H2 He.
    destruct (rewound_lookup_inv _ _ _ _ Hrw H1) as (a1 & Ha1 & E1).
    destruct (rewound_lookup_inv _ _ _ _ Hrw H2) as (a2 & Ha2 & E2).
    apply (Hinj i1 i2 a1 a2 Ha1 Ha2). destruct E1 as [->| ->], E2 as [->| ->]; exact He.
  - constructor.
Qed.

(** ** Sequences of operations *)

(** What a client does with one pool. *)
Inductive op :=
  | Dalloc (n a : Z)
  | Nalloc (n a : Z)
  | Clear
  | Reset.

(** The memory after an operation, and what an allocation returned. *)
Definition step (st : pmem) (root : Z) (o : op) : option (pmem * option (result ptr)) :=
  match o with
  | Dalloc n a => '(st, r) ← dalloc_aligned st root n a; Some (st, Some r)
  | Nalloc n a => '(st, r) ← nalloc_aligned st root n a; Some (st, Some r)
  | Clear => st ← ina_mempool_clear st root; Some (st, None)
  | Reset => st ← ina_mempool_reset st root; Some (st, None)
  end.

(** The regions in use after an operation. *)
Definition live (o : op) (r : option (result ptr)) (rs : list region) : list region :=
  match o, r with
  | Dalloc n a, Some (Ok p) | Nalloc n a, Some (Ok p) =>
      Region (ptr_block p) (ptr_off p) (INA_MEM_ALIGN_N n a) :: rs
  | Clear, _ | Reset, _ => []
  | _, _ => rs
  end.

Fixpoint run (st : pmem) (root : Z) (ops : list op) (rs : list region)
    : option (pmem * list region * list (option (result ptr))) :=
  match ops with
  | [] => Some (st, rs, [])
  | o :: ops =>
      '(st, r) ← step st root o;
      '(st, rs, log) ← run st root ops (live o r rs);
      Some (st, rs, r :: log)
  end.

Definition sane_op (o : op) : Prop :=
  match o with Dalloc n a | Nalloc n a => sane n a | Clear | Reset => True end.

(** What may be returned by an operation on a pool with the options [cf]. *)
Definition answer_ok (cf : Z) (o : op) (r : option (result ptr)) : Prop :=
  match o, r with
  | Dalloc _ _, Some (Err e) => e = INA_ERR_POOL_FULL /\ flag cf INA_MEM_DYNAMIC = false
  | Nalloc _ _, Some (Err e) => e = Z.lor (INA_ES S_SIZE) INA_ERR_INVALID \/
      e = INA_ERR_POOL_FULL /\ flag cf INA_MEM_DYNAMIC = false
  | Dalloc _ _, Some (Ok _) | Nalloc _ _, Some (Ok _) => True
  | Clear, None | Reset, None => True
  | _, _ => False
  end.

(** The region lies inside its block of memory. *)
Definition in_block (st : pmem) (r : region) : Prop :=
  exists b, blocks st !! r_block r = Some b /\ 0 <= r_off r /\ r_off r + r_len r <= Z.of_nat (length b).

Lemma rewind_spec zero st root pre cur post rs p :
  inv st root pre cur post rs -> pools st !! root = Some p ->
  exists st',
    (st ← reset_loop (chain_fuel st) zero st root; upd st root (fun p => with_current p root)) = Some st' /\
    (exists p', pools st' !! root = Some p' /\ p_cf p' = p_cf p /\ p_pos p' = 0) /\
    exists post', inv st' root [] root post' [].
Proof.
  intros Hinv Hp. destruct (Hinv) as [Hc Hnd Hh _ Hpools _ _ _].
  assert (exists post', pre ++ cur :: post = root :: post') as [post' Hl].
  { destruct pre as [|x pre]; injection Hh as ->; by eexists. }
  pose proof (chain_length st _ Hc Hnd) as Hfuel. rewrite Hl in Hfuel, Hc, Hnd.
  destruct (reset_loop_spec (chain_fuel st) zero st (root :: post') Hc Hnd) as (st1 & Hrun & Hrw & Hpos);
    [intros id q Hq; by destruct (Hpools id q Hq)|done|].
  cbn [next_of] in Hrun. rewrite Hrun. cbn [mbind option_bind].
  destruct (Hpos root) as (p1 & Hp1 & Hz); [by left|].
  destruct (rewound_lookup _ _ _ _ Hrw Hp) as (p1' & Hp1' & Hpp).
  assert (p1' = p1) as -> by congruence.
  rewrite (upd_eq st1 root _ p1 Hp1). eexists. split; [reflexivity|]. split.
  - exists (with_current p1 root). split; [apply lookup_insert_eq|]. split; [|done]. by destruct Hpp as [->| ->].
  - exists post'. eapply (inv_set_current st1 root pre cur post); [by eapply inv_rewound|done|exact Hl].
Qed.

Lemma step_spec st root pre cur post rs p o :
  inv st root pre cur post rs -> pools st !! root = Some p -> sane_op o ->
  exists st' r pre' cur' post',
    step st root o = Some (st', r) /\ inv st' root pre' cur' post' (live o r rs) /\
    (exists p', pools st' !! root = Some p' /\ p_cf p' = p_cf p) /\ answer_ok (p_cf p) o r.
Proof.
  intros Hinv Hp Ho. destruct o as [n a|n a| |]; cbn [step sane_op] in *.
  - destruct (dalloc_spec st root pre cur post rs p n a Hinv Hp Ho) as (st' & r & -> & Hr & pre' & cur' & post' & Hres).
    exists st', (Some r), pre', cur', post'. split; [done|]. destruct r as [x|e]; [done|]. by destruct Hres.
  - destruct (nalloc_spec st root pre cur post rs p n a Hinv Hp Ho) as (st' & r & -> & Hr & pre' & cur' & post' & Hres).
    exists st', (Some r), pre', cur', post'. split; [done|]. destruct r as [x|e]; [done|]. by destruct Hres.
  - destruct (rewind_spec true st root pre cur post rs p Hinv Hp) as (st' & Hrun & (p' & Hp' & Hcf & _) & post' & Hinv').
    unfold ina_mempool_clear. rewrite Hrun. exists st', None, [], root, post'. split; [done|].
    split; [done|]. split; [by exists p'|done].
  - destruct (rewind_spec false st root pre cur post rs p Hinv Hp) as (st' & Hrun & (p' & Hp' & Hcf & _) & post' & Hinv').
    unfold ina_mempool_reset. rewrite Hrun. exists st', None, [], root, post'. split; [done|].
    split; [done|]. split; [by exists p'|done].
Qed.

Lemma run_spec st root pre cur post rs p ops :
  inv st root pre cur post rs -> pools st !! root = Some p -> Forall sane_op ops ->
  exists st' rs' log pre' cur' post',
    run st root ops rs = Some (st', rs', log) /\ inv st' root pre' cur' post' rs' /\
    Forall2 (answer_ok (p_cf p)) ops log.
Proof.
  intros Hinv Hp Hops. revert st pre cur post rs p Hinv Hp.
  induction Hops as [|o ops Ho Hops IH]; intros st pre cur post rs p Hinv Hp.
  - exists st, rs, [], pre, cur, post. split; [done|]. split; [done|constructor].
  - destruct (step_spec st root pre cur post rs p o Hinv Hp Ho)
      as (st1 & r & pre1 & cur1 & post1 & Hstep & Hinv1 & (p1 & Hp1 & Hcf) & Hans).
    destruct (IH st1 pre1 cur1 post1 (live o r rs) p1 Hinv1 Hp1) as (st' & rs' & log & pre' & cur' & post' & Hrun & Hinv' & Hlog).
    exists st', rs', (r :: log), pre', cur', post'. cbn [run]. rewrite Hstep. cbn [mbind option_bind]. rewrite Hrun.
    split; [done|]. split; [done|]. constructor; [done|]. by rewrite <- Hcf.
Qed.

Definition empty_mem : pmem := PMem ∅ ∅ 1.

Lemma new_inv size label cf :
  0 <= size < 2 ^ 61 - 15 -> flag cf INA_MEM_SHARED = false ->
  exists st, mempool_new empty_mem size label cf = Some (st, Ok 1) /\
    inv st 1 [] 1 [] [] /\ pools st !! 1 = Some (new_pool size label cf 1 2).
Proof.
  intros Hs Hcf. destruct (mempool_new_spec empty_mem size label cf) as (b & Hnew & Hb); [lia|done|done|].
  change (fresh empty_mem) with 1 in Hnew. eexists. split; [exact Hnew|].
  pose proof (new_size_range size) as Hns. assert (new_size size < 2 ^ 61) by lia.
  split; [|apply lookup_insert_eq]. cbn [pools blocks fresh empty_mem].
  split; cbn [pools blocks fresh app].
  - cbn. split; [done|]. split; [|done]. eexists. split; [apply lookup_insert_eq|done].
  - apply NoDup_singleton.
  - done.
  - eexists. split; [apply lookup_insert_eq|]. cbn. done.
  - intros id p [[<- <-]|[_ H0]]%lookup_insert_Some; [|by rewrite lookup_empty in H0]. cbn.
    unfold pool_ok. cbn. split_and!; try lia. exists b. by rewrite lookup_insert_eq.
  - intros id id' p p' [[<- <-]|[_ H1]]%lookup_insert_Some [[<- <-]|[_ H2]]%lookup_insert_Some; try done;
      by rewrite lookup_empty in *.
  - constructor.
  - constructor.
Qed.

Lemma inv_in_block st root pre cur post rs : inv st root pre cur post rs -> Forall (in_block st) rs.
Proof.
  intros [_ _ _ _ Hp _ Hrs _]. eapply Forall_impl; [exact Hrs|].
  intros r (id & p & Hid & Hm & Ho & Hl & Hsz & _). destruct (Hp id p Hid) as ((_ & _ & b & Hb & Hbl) & _).
  exists b. rewrite <- Hm. split; [done|]. split; [done|lia].
Qed.
End Pools.

(** C3. Any sequence of allocations from the bottom and the top of a new
    pool, with clears and resets in between, runs to its end; the memory
    handed out since the last clear or reset lies inside the blocks of the
    pool and no two allocations overlap.  An allocation is only refused as
    the code says: [POOL_FULL] for a pool that is not dynamic, and the
    "bogus request" error for allocations from the top. *)
Theorem pool_allocations_are_disjoint malloc_ok garbage size label cf ops :
  (forall n, malloc_ok n = true) -> 0 <= size < 2 ^ 61 - 15 -> flag cf INA_MEM_SHARED = false ->
  Forall sane_op ops ->
  exists st st' rs log,
    ina_mempool_new malloc_ok garbage empty_mem size label cf = Some (st, Ok 1) /\
    run malloc_ok garbage st 1 ops [] = Some (st', rs, log) /\
    ForallOrdPairs disjoint_regions rs /\ Forall (in_block st') rs /\ Forall2 (answer_ok cf) ops log.
Proof.
  intros Hm Hs Hcf Hops. destruct (new_inv malloc_ok garbage Hm size label cf Hs Hcf) as (st & Hnew & Hinv & Hp).
  destruct (run_spec malloc_ok garbage Hm st 1 [] 1 [] [] _ ops Hinv Hp Hops)
    as (st' & rs & log & pre & cur & post & Hrun & Hinv' & Hlog).
  exists st, st', rs, log. split; [done|]. split; [done|]. split; [apply Hinv'|]. split; [by eapply inv_in_block|done].
Qed.

Definition example_ops : list op :=
  [Dalloc 100 16; Nalloc 50 8; Dalloc 2000 16; Reset; Nalloc 24 8; Dalloc 1000 16; Clear; Dalloc 7 1; Nalloc 1 64].

Lemma pool_allocations_are_disjoint_witness :
  exists st st' rs log,
    ina_mempool_new (fun _ => true) (fun _ => []) empty_mem 1000 (Some "p"%string) INA_MEM_DYNAMIC = Some (st, Ok 1) /\
    run (fun _ => true) (fun _ => []) st 1 example_ops [] = Some (st', rs, log) /\
    ForallOrdPairs disjoint_regions rs /\ Forall (in_block st') rs /\ Forall2 (answer_ok INA_MEM_DYNAMIC) example_ops log.
Proof.
  apply (pool_allocations_are_disjoint (fun _ => true) (fun _ => []) 1000 (Some "p"%string) INA_MEM_DYNAMIC example_ops).
  - done.
  - lia.
  - done.
  - unfold example_ops. repeat constructor; unfold sane; lia.
Defined.

(** ** Reallocation *)

(** Reading what a write did not touch, and what it wrote. *)
Lemma mem_write_spec st p bs b :
  blocks st !! ptr_block p = Some b -> 0 <= ptr_off p -> ptr_off p + Z.of_nat (length bs) <= Z.of_nat (length b) ->
  exists st', mem_write st p bs = Some st' /\ pools st' = pools st /\
    mem_read st' p (Z.of_nat (length bs)) = Some bs /\
    forall q n, ptr_block q <> ptr_block p \/ ptr_off q + n <= ptr_off p \/
        ptr_off p + Z.of_nat (length bs) <= ptr_off q ->
      mem_read st' q n = mem_read st q n.
Proof.
  intros Hb Ho Hl. unfold mem_write. rewrite Hb. cbn [mbind option_bind].
  destruct (Z.leb_spec 0 (ptr_off p)); [|lia].
  destruct (Z.leb_spec (ptr_off p + Z.of_nat (length bs)) (Z.of_nat (length b))); [|lia]. cbn [andb].
  eexists. split; [reflexivity|]. split; [done|]. set (b' := take _ _ ++ _).
  assert (length b' = length b) as Hb'.
  { unfold b'. rewrite !length_app, length_take, length_drop. lia. }
  split.
  - unfold mem_read. cbn [blocks]. rewrite lookup_insert_eq. cbn [mbind option_bind].
    destruct (Z.leb_spec 0 (ptr_off p)); [|lia]. destruct (Z.leb_spec 0 (Z.of_nat (length bs))); [|lia].
    rewrite Hb'. destruct (Z.leb_spec (ptr_off p + Z.of_nat (length bs)) (Z.of_nat (length b))); [|lia]. cbn [andb].
    f_equal. unfold b'. rewrite Nat2Z.id, drop_app_length' by (rewrite length_take; lia).
    by rewrite take_app_length.
  - intros q n Hq. unfold mem_read. cbn [blocks].
    destruct (decide (ptr_block q = ptr_block p)) as [Heq|]; [|by rewrite lookup_insert_ne].
    rewrite Heq, lookup_insert_eq, Hb. cbn [mbind option_bind]. rewrite Hb'.
    destruct (Z.leb_spec 0 (ptr_off q)); [|done]. destruct (Z.leb_spec 0 n); [|done].
    destruct (Z.leb_spec (ptr_off q + n) (Z.of_nat (length b))); [|done]. cbn [andb]. f_equal.
    destruct Hq as [?|[?|?]]; [done| |].
    + unfold b'. apply splice_below; lia.
    + unfold b'. f_equal.
      replace (Z.to_nat (ptr_off p + Z.of_nat (length bs))) with (Z.to_nat (ptr_off p) + length bs)%nat by lia.
      apply splice_above; lia.
Qed.

Lemma mem_zero_write st p nb : 0 <= nb -> mem_zero st p nb = mem_write st p (repeat 0 (Z.to_nat nb)).
Proof.
  intros Hn. unfold mem_zero, mem_write. destruct (blocks st !! ptr_block p); [|done]. cbn [mbind option_bind].
  rewrite repeat_length, Z2Nat.id by done. destruct (Z.leb_spec 0 nb); [|lia]. by rewrite andb_true_r.
Qed.

Lemma mem_read_some st p n b :
  blocks st !! ptr_block p = Some b -> 0 <= ptr_off p -> 0 <= n -> ptr_off p + n <= Z.of_nat (length b) ->
  exists bs, mem_read st p n = Some bs /\ Z.of_nat (length bs) = n.
Proof.
  intros Hb Ho Hn Hl. unfold mem_read. rewrite Hb. cbn [mbind option_bind].
  destruct (Z.leb_spec 0 (ptr_off p)); [|lia]. destruct (Z.leb_spec 0 n); [|lia].
  destruct (Z.leb_spec (ptr_off p + n) (Z.of_nat (length b))); [|lia]. cbn [andb].
  eexists. split; [reflexivity|]. rewrite length_take, length_drop. lia.
Qed.

Lemma mem_read_prefix st p n m bs :
  0 <= m <= n -> mem_read st p n = Some bs -> mem_read st p m = Some (take (Z.to_nat m) bs).
Proof.
  intros Hm. unfold mem_read. destruct (blocks st !! ptr_block p) as [b|]; [|done]. cbn [mbind option_bind].
  destruct (Z.leb_spec 0 (ptr_off p)); [|done]. destruct (Z.leb_spec 0 n); [|lia].
  destruct (Z.leb_spec (ptr_off p + n) (Z.of_nat (length b))); [|done]. cbn [andb]. intros [= <-].
  destruct (Z.leb_spec 0 m); [|lia]. destruct (Z.leb_spec (ptr_off p + m) (Z.of_nat (length b))); [|lia]. cbn [andb].
  rewrite take_take. repeat f_equal. lia.
Qed.

Lemma mem_read_pools st st' p n : blocks st' = blocks st -> mem_read st' p n = mem_read st p n.
Proof. unfold mem_read. by intros ->. Qed.

(** The memory after a reallocation from the pool [p]: the allocation [ret]
    of [new] bytes keeps the first bytes of [old], and memory below [pos]
    outside the old allocation is as before. *)
Definition reallocated (st st' : pmem) (p : pool) (old ret : ptr) (old_size new_size : Z) : Prop :=
  ptr_block ret = p_m p /\ 0 <= ptr_off ret /\ ptr_off ret + new_size <= p_end p /\
  mem_read st' ret (Z.min old_size new_size) = mem_read st old (Z.min old_size new_size) /\
  forall q n, 0 <= n -> ptr_block q <> p_m p \/ ptr_off q + n <= ptr_off old \/
      ptr_off old + old_size <= ptr_off q /\ ptr_off q + n <= p_pos p ->
    mem_read st' q n = mem_read st q n.

Lemma move_to_pos_spec st id p old old_size new_size :
  pools st !! id = Some p -> pool_ok st p -> ptr_block old = p_m p -> 0 <= ptr_off old -> 0 < old_size ->
  ptr_off old + old_size <= p_pos p -> old_size <= new_size -> p_pos p + new_size <= p_end p ->
  exists st' ret, move_to_pos st id old old_size new_size = Some (st', Ok ret) /\
    reallocated st st' p old ret old_size new_size.
Proof.
  intros Hp (H1 & H2 & b & Hb & Hl) Hblk Ho Hos Hold Hsz Hfit.
  unfold move_to_pos, get. rewrite Hp. cbn [mbind option_bind]. unfold mem_cpy.
  destruct (mem_read_some st old old_size b) as (bs & Hrd & Hlen); [by rewrite Hblk|lia..|].
  rewrite Hrd. cbn [mbind option_bind].
  destruct (mem_write_spec st (Ptr (p_m p) (p_pos p)) bs b) as (st1 & -> & Hpools & Hrd1 & Hoth); [done|cbn; lia..|].
  cbn [mbind option_bind]. rewrite (upd_eq st1 id _ p) by (by rewrite Hpools). cbn [mbind option_bind].
  eexists _, _. split; [reflexivity|]. unfold reallocated. cbn [ptr_block ptr_off].
  split; [done|]. split; [lia|]. split; [lia|]. split.
  - rewrite Z.min_l by done. rewrite Hrd, <- Hlen. exact Hrd1.
  - intros q n Hn Hq. rewrite <- (Hoth q n); [by apply mem_read_pools|]. cbn. destruct Hq as [?|[?|?]]; [by left|lia..].
Qed.

(** [ina_mempool_ralloc_aligned] on a pool that is not dynamic, for
    memory allocated from its bottom: it returns memory of the pool with at
    least the new size whose first bytes are those of the old allocation and
    leaves the other allocations as they are, or it fails with an error and
    changes nothing. *)
Theorem ralloc_keeps_content malloc_ok garbage st id p old o n a :
  pools st !! id = Some p -> pool_ok st p -> flag (p_cf p) INA_MEM_DYNAMIC = false ->
  0 < o -> sane o a -> 0 < n -> sane n a ->
  let old_size := INA_MEM_ALIGN_N o a in
  let new_size := INA_MEM_ALIGN_N n a in
  ptr_block old = p_m p -> 0 <= ptr_off old -> ptr_off old + old_size <= p_pos p ->
  exists st' r, ina_mempool_ralloc_aligned malloc_ok garbage st id old o n a = Some (st', r) /\
    match r with
    | Ok ret => reallocated st st' p old ret old_size new_size
    | Err e => st' = st /\ p_end p < new_size + p_pos p /\ (e = INA_ERR_OUT_OF_MEMORY \/ e = INA_ERR_POOL_FULL)
    end.
Proof.
  intros Hp Hok Hdyn Ho (_ & Ha & Hwo) Hn (_ & _ & Hwn) old_size new_size Hblk Hoff Hold.
  pose proof (align_n_range o a) as Hro. pose proof (align_n_range n a) as Hrn.
  fold old_size in Hro. fold new_size in Hrn.
  pose proof Hok as (H1 & H2 & b & Hb & Hl). unfold ina_mempool_ralloc_aligned.
  destruct (Z.ltb_spec 0 a), (Z.ltb_spec 0 o), (Z.ltb_spec 0 n); try lia. cbn [negb orb].
  fold old_size new_size. unfold get. rewrite Hp. cbn [mbind option_bind].
  destruct (Z.ltb_spec (p_end p) old_size); [lia|].
  destruct (Z.leb_spec old_size (p_pos p)); [|lia]. cbn [andb].
  destruct (bool_decide_reflect (Ptr (p_m p) (p_pos p - old_size) = old)) as [Heq|Hne].
  - assert (ptr_off old = p_pos p - old_size) as Hoo by (by rewrite <- Heq).
    rewrite (wrap_small 64 (p_pos p + new_size - old_size)) by (unfold in_width; lia).
    destruct (Z.leb_spec (p_pos p + new_size - old_size) (p_end p)).
    + rewrite (upd_eq st id _ p Hp). cbn [mbind option_bind].
      destruct (Z.ltb_spec new_size old_size).
      * rewrite mem_zero_write by lia. set (st1 := PMem (<[id := _]> _) _ _).
        edestruct (mem_write_spec st1) as (st2 & -> & _ & _ & Hoth); [exact Hb|cbn; lia|cbn; rewrite repeat_length; lia|].
        cbn [mbind option_bind]. eexists _, _. split; [reflexivity|]. unfold reallocated.
        split; [done|]. split; [done|]. split; [lia|]. cbn [ptr_block ptr_off] in Hoth. rewrite repeat_length in Hoth.
        split; [|intros q m Hm Hq]; rewrite Hoth by lia; by apply mem_read_pools.
      * cbn [mbind option_bind]. eexists _, _. split; [reflexivity|]. unfold reallocated.
        split; [done|]. split; [done|]. split; [lia|]. split; [|intros q m Hm Hq]; by apply mem_read_pools.
    + rewrite Hdyn. eexists _, _. split; [reflexivity|]. split; [done|]. split; [lia|by left].
  - destruct (Z.leb_spec new_size old_size).
    + eexists _, _. split; [reflexivity|]. unfold reallocated. split; [done|]. split; [done|]. split; [lia|]. done.
    + rewrite (wrap_small 64 (p_pos p + new_size)) by (unfold in_width; lia).
      destruct (Z.leb_spec (p_pos p) (p_pos p + new_size)); [|lia].
      destruct (Z.leb_spec (p_pos p + new_size) (p_end p)); cbn [andb].
      * edestruct (move_to_pos_spec st id p old old_size new_size) as (st' & ret & -> & Hre); [done..|lia|done|lia|done|].
        eexists _, _. split; [reflexivity|exact Hre].
      * rewrite Hdyn. eexists _, _. split; [reflexivity|]. split; [done|]. split; [lia|by right].
Qed.

(** A pool of 1024 bytes of which 96 are used. *)
Definition example_pool : pool := Pool INA_MEM_FIXED 1024 96 1024 16 2 None 1 0 0.
Definition example_mem : pmem := PMem {[1 := example_pool]} {[2 := repeat 7 1024]} 3.

Lemma ralloc_keeps_content_witness :
  exists st' r,
    ina_mempool_ralloc_aligned (fun _ => true) (fun _ => []) example_mem 1 (Ptr 2 16) 30 200 16 = Some (st', r) /\
    match r with
    | Ok ret => reallocated example_mem st' example_pool (Ptr 2 16) ret (INA_MEM_ALIGN_N 30 16) (INA_MEM_ALIGN_N 200 16)
    | Err e => st' = example_mem /\ p_end example_pool < INA_MEM_ALIGN_N 200 16 + p_pos example_pool /\
        (e = INA_ERR_OUT_OF_MEMORY \/ e = INA_ERR_POOL_FULL)
    end.
Proof.
  apply (ralloc_keeps_content (fun _ => true) (fun _ => []) example_mem 1 example_pool (Ptr 2 16) 30 200 16);
    unfold sane; try lia; try (vm_compute; congruence).
  - split; [vm_compute; split; congruence|]. split; [vm_compute; split; congruence|].
    exists (repeat 7 1024). split; by vm_compute.
Defined.

(** ** Where the pools break their promise *)

(** The state after some operations on a new pool, with an allocator that
    always succeeds. *)
Definition after (size cf : Z) (ops : list op) : option pmem :=
  '(st, _) ← ina_mempool_new (fun _ => true) (fun _ => []) empty_mem size None cf;
  '(st, _, _) ← run (fun _ => true) (fun _ => []) st 1 ops [];
  Some st.

Definition answer {A} (x : option (pmem * A)) : option A := '(_, r) ← x; Some r.

(** Pools outside the good cases.  Growing an allocation of a dynamic
    pool that is full writes behind the end of the first chunk, although a
    chunk was added.  Allocations from the top of a dynamic pool are refused
    once the first chunk is used up.  A reset does not give back what was
    allocated from the top.  Shrinking a pool of two chunks to one frees the
    pool structure the caller holds.  Allocations of different alignments
    are not aligned.  An allocation from the top that needs a chunk drops the
    chunks kept by a reset, which are then never freed. *)
Theorem pool_defects :
  (st ← after 1024 INA_MEM_DYNAMIC [Dalloc 512 16; Dalloc 512 16];
   ina_mempool_ralloc_aligned (fun _ => true) (fun _ => []) st 1 (Ptr 2 512) 512 600 16) = None /\
  (st ← after 1024 INA_MEM_DYNAMIC [Nalloc 1024 16];
   answer (ina_mempool_nalloc_aligned (fun _ => true) (fun _ => []) st 1 16 16)) =
    Some (Err (Z.lor (INA_ES S_SIZE) INA_ERR_INVALID)) /\
  (st ← after 1024 INA_MEM_FIXED [Nalloc 512 16; Reset];
   answer (ina_mempool_dalloc_aligned (fun _ => true) (fun _ => []) st 1 1024 16)) = Some (Err INA_ERR_POOL_FULL) /\
  (st ← after 1024 INA_MEM_DYNAMIC [Dalloc 1024 16; Dalloc 1024 16];
   '(st, _) ← ina_mempool_shrink st 1 0;
   Some (get st 1)) = Some None /\
  (st ← after 1024 INA_MEM_FIXED [Dalloc 1 1];
   answer (ina_mempool_dalloc_aligned (fun _ => true) (fun _ => []) st 1 64 64)) = Some (Ok (Ptr 2 1)) /\
  (st ← after 1024 INA_MEM_DYNAMIC [Dalloc 1024 16; Dalloc 1024 16; Reset; Dalloc 1024 16; Nalloc 16 16];
   st ← ina_mempool_free st 1;
   Some (map fst (map_to_list (blocks st)))) = Some [4].
Proof. vm_compute. done. Qed.

(** Two pools with [n] chunks of their own each. *)
Definition two_pools (ops1 ops2 : list op) : option (pmem * Z) :=
  st ← after 1024 INA_MEM_DYNAMIC ops1;
  '(st, r) ← ina_mempool_new (fun _ => true) (fun _ => []) st 1024 None INA_MEM_DYNAMIC;
  match r with
  | Ok id2 => '(st, _, _) ← run (fun _ => true) (fun _ => []) st id2 ops2 []; Some (st, id2)
  | Err _ => None
  end.

(** Merging pools: two new pools become one that is freed as a whole.
    The chunks of the merged pool are lost if it has any, and merging a pool
    twice makes it its own child, so that it can no longer be freed. *)
Theorem merge_behaviour :
  ('(st, p2) ← two_pools [] [];
   '(st, _) ← ina_mempool_merge st 1 p2;
   st ← ina_mempool_free st 1;
   Some (map fst (map_to_list (blocks st)), map fst (map_to_list (pools st)))) = Some ([], []) /\
  ('(st, p2) ← two_pools [] [Dalloc 1024 16; Dalloc 1024 16];
   '(st, _) ← ina_mempool_merge st 1 p2;
   st ← ina_mempool_free st 1;
   Some (length (map_to_list (blocks st)), length (map_to_list (pools st)))) = Some (1%nat, 1%nat) /\
  ('(st, p2) ← two_pools [] [];
   '(st, _) ← ina_mempool_merge st 1 p2;
   '(st, _) ← ina_mempool_merge st 1 p2;
   ina_mempool_free st 1) = None.
Proof. vm_compute. done. Qed.
End Mempool.
