(* ===== verification/Str.v ===== *)
(** * Strings (string.c, string.h)

    An [ina_str_t] is a pointer to the characters behind a header with the
    size of the buffer and the length of the text.  A string is modelled by
    its header and the bytes of its buffer; C strings and blocks are the bytes
    from the pointer to the end of their memory.  A load or a store outside a
    buffer and a failed assertion make an operation [None]; the null pointer
    is an inner [None].  The variants that take their memory from a pool and
    the formatted output functions are in StrPool.v. *)
From Stdlib Require Import ZArith Lia Bool.
From stdpp Require Import base numbers option strings list.
From S2P Require Import Prelude Error.
Import Error.

Module Str.
Local Open Scope inac_scope.

(** ** The C library functions used *)

(** [strlen] *)
Fixpoint strlen (m : list Z) : option Z :=
  match m with
  | [] => None
  | c :: m => if c =? 0 then Some 0 else n ← strlen m; Some (n + 1)
  end.

(** [memcmp]: the difference at the first byte that differs. *)
Fixpoint mem_cmp (l r : list Z) (n : nat) {struct n} : option Z :=
  match n with
  | O => Some 0
  | S n =>
      match l, r with
      | x :: l, y :: r => if x =? y then mem_cmp l r n else Some (x - y)
      | _, _ => None
      end
  end.

(** [strchr(chars, c) != NULL], for the characters before the final NUL. *)
Definition strchr (chars : list Z) (c : Z) : bool := (c =? 0) || existsb (Z.eqb c) chars.

(** [char] is signed. *)
Definition schar (c : Z) : Z := if c <? 128 then c else c - 256.

(** [m[i]] *)
Definition at_ (m : list Z) (i : Z) : option Z := if 0 <=? i then m !! Z.to_nat i else None.

(** ** Data *)

Definition __INA_MAX_PREALLOC : Z := 512 * 1024.
Definition __INA_POOLED : Z := 2147483648.
Definition sizeof_hdr : Z := 8.
Definition INT_MAX : Z := 2147483647.

(** [ina_str_hdr_t] *)
Record str := Str { s_size : Z; s_len : Z; s_data : list Z }.

Definition with_len (s : str) (n : Z) : str := Str (s_size s) n (s_data s).
Definition with_data (s : str) (d : list Z) : str := Str (s_size s) (s_len s) d.

Definition pooled (s : str) : bool := negb (Z.land (s_size s) __INA_POOLED =? 0).

(** [size & ~(1U << (32U - 1U))] *)
Definition masked_size (size : Z) : Z := Z.ldiff size __INA_POOLED.

Section Alloc.
(** Whether [malloc] can provide a number of bytes, and the content of fresh
    memory. *)
Variable malloc_ok : Z -> bool.
Variable garbage : Z -> list Z.

Definition fresh_bytes (n : Z) : list Z := take (Z.to_nat n) (garbage n ++ repeat 0 (Z.to_nat n)).

(** [realloc] of a buffer to [n] bytes. *)
Definition realloc_bytes (d : list Z) (n : Z) : list Z :=
  take (Z.to_nat n) (d ++ drop (length d) (fresh_bytes n)).

(** Memory of a pool cannot be given to [realloc]. *)
Definition __ina_ensure_size (hdr : str) (len : Z) : option str :=
  let size := masked_size (s_size hdr) in
  if len <? u64 (size - s_len hdr - 1) then Some hdr else
  let newlen := s_len hdr +₆₄ len in
  let newlen := if newlen <? __INA_MAX_PREALLOC then newlen *₆₄ 2 else newlen +₆₄ __INA_MAX_PREALLOC in
  let size := u32 (newlen + 1) in
  if pooled hdr || negb (malloc_ok (u64 (sizeof_hdr + size))) then None
  else Some (Str size (s_len hdr) (realloc_bytes (s_data hdr) size)).

Definition ina_str_new (len : Z) : option (option str) :=
  let nb := u64 (len + 1 + sizeof_hdr) in
  if (nb =? 0) || negb (malloc_ok nb) then Some None else
  if nb <? sizeof_hdr then None else
  data ← write_at (fresh_bytes (nb - sizeof_hdr)) 0 [0];
  Some (Some (Str (u32 (len + 1)) 0 data)).

Definition ina_str_new_fromblk (blk : option (list Z)) (len : Z) : option (option str) :=
  match blk with
  | None => ina_str_new len
  | Some blk =>
      s ← ina_str_new len;
      match s with
      | None => Some None
      | Some s =>
          data ← (if 0 <? len then bs ← read_at blk 0 len; write_at (s_data s) 0 bs else Some (s_data s));
          data ← write_at data len [0];
          Some (Some (Str (s_size s) (u32 len) data))
      end
  end.

Definition ina_str_new_fromcstr (cstr : option (list Z)) : option (option str) :=
  len ← (match cstr with Some m => strlen m | None => Some 0 end);
  s ← ina_str_new len;
  match s with
  | None => Some None
  | Some s =>
      data ← (match cstr with
              | Some m => bs ← read_at m 0 len; write_at (s_data s) 0 bs
              | None => Some (s_data s)
              end);
      data ← write_at data len [0];
      Some (Some (Str (s_size s) (u32 len) data))
  end.

Definition ina_str_dup (s : option str) : option (option str) :=
  match s with
  | None => Some None
  | Some s => ina_str_new_fromcstr (Some (s_data s))
  end.

(** ** Changing a string *)

Definition ina_str_ncpy (dest : str) (src : option (list Z)) (n : Z) : option str :=
  match src with
  | None => Some dest
  | Some src =>
      d ← __ina_ensure_size dest n;
      bs ← read_at src 0 n;
      data ← write_at (s_data d) 0 bs;
      data ← write_at data n [0];
      Some (Str (s_size d) (u32 n) data)
  end.

Definition ina_str_ncat (dest : str) (src : option (list Z)) (n : Z) : option str :=
  match src with
  | None => Some dest
  | Some src =>
      d ← __ina_ensure_size dest n;
      bs ← read_at src 0 n;
      data ← write_at (s_data d) (s_len d) bs;
      let len := s_len d +₃₂ n in
      data ← write_at data len [0];
      Some (Str (s_size d) len data)
  end.

(** The assertion measures [src] before it is compared with the null
    pointer. *)
Definition ina_str_ncatcstr (dest : str) (src : option (list Z)) (n : Z) : option str :=
  m ← src;
  l ← strlen m;
  if negb (l <=? n) then None else ina_str_ncat dest src n.

Definition ina_str_append_chr (dest : str) (c : Z) : option str :=
  d ← __ina_ensure_size dest 1;
  data ← write_at (s_data d) (s_len d) [c];
  let len := s_len d +₃₂ 1 in
  data ← write_at data len [0];
  Some (Str (s_size d) len data).

Definition ina_str_len (s : option str) : Z := match s with Some s => s_len s | None => 0 end.
Definition ina_str_size (s : option str) : Z := match s with Some s => masked_size (s_size s) | None => 0 end.
Definition ina_str_available (s : option str) : Z :=
  match s with Some s => u32 (masked_size (s_size s) - s_len s - 1) | None => 0 end.

Definition ina_str_cpy (dest : str) (src : option str) : option str :=
  ina_str_ncpy dest (option_map s_data src) (ina_str_len src).

Definition ina_str_cat (dest : str) (src : option str) : option str :=
  ina_str_ncat dest (option_map s_data src) (ina_str_len src).

Definition ina_str_catcstr (dest : str) (src : list Z) : option str :=
  l ← strlen src; ina_str_ncatcstr dest (Some src) l.

(** [ina_str_cmp]; characters are compared as unsigned. *)
Definition ina_str_cmp (lhs rhs : option str) : option Z :=
  let minlen := Z.min (ina_str_len lhs) (ina_str_len rhs) in
  l ← lhs; r ← rhs;
  cmp ← mem_cmp (s_data l) (s_data r) (Z.to_nat minlen);
  if cmp =? 0 then
    c1 ← at_ (s_data l) minlen;
    c2 ← at_ (s_data r) minlen;
    Some (c1 - c2)
  else Some cmp.

(** The loops of [ina_str_toupper] (from 96) and [ina_str_tolower]. *)
Fixpoint case_loop (from : Z) (data : list Z) : option (list Z) :=
  match data with
  | [] => None
  | c :: data =>
      let c := if from =? Z.land 224 c then Z.lxor c 32 else c in
      if c =? 0 then Some (c :: data) else data ← case_loop from data; Some (c :: data)
  end.

Definition ina_str_toupper (s : option str) : option (option str) :=
  match s with
  | None => Some None
  | Some s => data ← case_loop 96 (s_data s); Some (Some (with_data s data))
  end.

Definition ina_str_tolower (s : option str) : option (option str) :=
  match s with
  | None => Some None
  | Some s => data ← case_loop 64 (s_data s); Some (Some (with_data s data))
  end.

Definition ina_str_truncate (s : option str) (pos : Z) : option (option str) :=
  match s with
  | None => Some None
  | Some s =>
      if negb (pos <=? s_len s) then None else
      data ← write_at (s_data s) pos [0];
      Some (Some (Str (s_size s) (u32 pos) data))
  end.

(** The first loop of [ina_str_trim]: the position [sp] moves up to [end]. *)
Fixpoint trim_start (fuel : nat) (chars data : list Z) (sp end_ : Z) : option Z :=
  match fuel with
  | O => None
  | S fuel =>
      if sp <=? end_ then
        c ← at_ data sp;
        if strchr chars c then trim_start fuel chars data (sp + 1) end_ else Some sp
      else Some sp
  end.

(** The second one: the position [ep] moves down to the start. *)
Fixpoint trim_end (fuel : nat) (chars data : list Z) (ep : Z) : option Z :=
  match fuel with
  | O => None
  | S fuel =>
      if 0 <? ep then
        c ← at_ data ep;
        if strchr chars c then trim_end fuel chars data (ep - 1) else Some ep
      else Some ep
  end.

Definition ina_str_trim (s : str) (chars : option (list Z)) : option str :=
  match chars with
  | None => Some s
  | Some chars =>
      let fuel := S (Z.to_nat (s_len s)) in
      sp ← trim_start fuel chars (s_data s) 0 (s_len s - 1);
      ep ← trim_end fuel chars (s_data s) (s_len s - 1);
      let len := if ep <? sp then 0 else ep - sp + 1 in
      data ← (if sp =? 0 then Some (s_data s)
              else bs ← read_at (s_data s) sp len; write_at (s_data s) 0 bs);
      data ← write_at data len [0];
      Some (Str (s_size s) (u32 len) data)
  end.

Definition __ina_str_substr_internal (start end_ len : Z) : Z :=
  if len =? 0 then 0 else
  let newlen := if end_ <? start then 0 else u64 (end_ - start + 1) in
  if newlen =? 0 then newlen else
  if len <=? start then 0
  else if len <=? end_ then
    let end_ := len - 1 in
    if end_ <? start then 0 else u64 (end_ - start + 1)
  else newlen.

Definition ina_str_substr (s : str) (start end_ : Z) : option (option str) :=
  let newlen := __ina_str_substr_internal start end_ (s_len s) in
  ina_str_new_fromblk (Some (drop (Z.to_nat start) (s_data s))) newlen.

(** ** Splitting *)

(** Whether the separator is at [j]. *)
Definition sep_at (s sep : list Z) (seplen j : Z) : option bool :=
  c ← at_ s j;
  c0 ← at_ sep 0;
  if (seplen =? 1) && (c =? c0) then Some true
  else cmp ← mem_cmp (drop (Z.to_nat j) s) sep (Z.to_nat seplen); Some (cmp =? 0).

Definition sizeof_ptr : Z := 8.

(** The loop of [ina_str_split] with the tokens found so far, the size of
    their array and the position after the last separator; it ends with
    [None] for the [cleanup] label. *)
Fixpoint split_loop (fuel : nat) (s sep : list Z) (len seplen : Z) (tokens : list str) (slots start j : Z)
    : option (option (list str * Z * Z)) :=
  match fuel with
  | O => None
  | S fuel =>
      if j <? len - 1 then
        let elements := Z.of_nat (length tokens) in
        let grow := slots <? elements + 3 in
        if grow && negb (malloc_ok (u64 (sizeof_ptr * slots * 2))) then Some None else
        let slots := if grow then slots *₆₄ 2 else slots in
        found ← sep_at s sep seplen j;
        if found : bool then
          tok ← ina_str_new_fromblk (Some (drop (Z.to_nat start) s)) (j - start);
          match tok with
          | None => Some None
          | Some tok =>
              if slots <=? elements then None else
              split_loop fuel s sep len seplen (tokens ++ [tok]) slots (j + seplen) (j + seplen - 1 + 1)
          end
        else split_loop fuel s sep len seplen tokens slots start (j + 1)
      else Some (Some (tokens, slots, start))
  end.

(** The tokens, and the value stored through [count] ([None] when nothing is
    stored). *)
Definition ina_str_split (s sep : option (list Z)) : option (option (list str) * option Z) :=
  match s, sep with
  | Some s, Some sep =>
      len ← strlen s;
      seplen ← strlen sep;
      if (len =? 0) || (seplen =? 0) then Some (None, Some 0) else
      if negb (malloc_ok (sizeof_ptr * 5)) then Some (None, None) else
      r ← split_loop (S (Z.to_nat len)) s sep len seplen [] 5 0 0;
      match r with
      | None => Some (None, Some 0)
      | Some (tokens, slots, start) =>
          tok ← ina_str_new_fromblk (Some (drop (Z.to_nat start) s)) (len - start);
          match tok with
          | None => Some (None, Some 0)
          | Some tok =>
              let elements := Z.of_nat (length tokens) + 1 in
              if slots <=? elements then None else Some (Some (tokens ++ [tok]), Some elements)
          end
      end
  | _, _ => Some (None, Some 0)
  end.
End Alloc.

(** ** Tokenizing in place *)

(** The eight words of [tokmap]; an index outside is an access outside the
    array. *)
Definition tokmap_index (c : Z) : Z := Z.shiftr (Z.ldiff c 31) 5.

Definition tokmap_set (map : list Z) (c : Z) : option (list Z) :=
  w ← at_ map (tokmap_index c);
  write_at map (tokmap_index c) [Z.lor w (shl 32 1 (Z.land c 31))].

Definition tokmap_test (map : list Z) (c : Z) : option bool :=
  w ← at_ map (tokmap_index (schar c));
  Some (negb (Z.land w (shl 32 1 (Z.land (schar c) 31)) =? 0)).

Fixpoint tokmap_fill (map sep : list Z) : option (list Z) :=
  match sep with
  | [] => None
  | c :: sep => if c =? 0 then Some map else map ← tokmap_set map c; tokmap_fill map sep
  end.

(** The position of the first character at or after [p] for which the map
    says [stop]. *)
Fixpoint tok_scan (map : list Z) (stop : bool) (m : list Z) (p : Z) : option Z :=
  match m with
  | [] => None
  | c :: m => b ← tokmap_test map c; if eqb b stop then Some p else tok_scan map stop m (p + 1)
  end.

(** [ina_str_tok] on the memory [m]; pointers are positions in [m].  It
    returns the memory, [*next] and the token. *)
Definition ina_str_tok (m : list Z) (str : option Z) (sep : option (list Z)) (next : option Z)
    : option (list Z * option Z * option Z) :=
  match sep with
  | None => Some (m, next, None)
  | Some sep =>
      l ← strlen sep;
      if l =? 0 then Some (m, next, None) else
      match (match str with Some p => Some p | None => next end) with
      | None => Some (m, None, None)
      | Some p =>
          map ← tokmap_fill (repeat 0 8) sep;
          p ← tok_scan map false (drop (Z.to_nat p) m) p;
          c ← at_ m p;
          if c =? 0 then Some (m, None, None)
          else
            w0 ← at_ map 0;
            map ← write_at map 0 [Z.lor w0 1];
            e ← tok_scan map true (drop (Z.to_nat (p + 1)) m) (p + 1);
            m ← write_at m e [0];
            Some (m, Some (e + 1), Some p)
      end
  end.

(** ** Buffers *)

Definition ina_str_assign_buf (buf : option (list Z)) (len : Z) : option (result str) :=
  match buf with
  | None => Some (Err INA_ERR_INVALID_ARGUMENT)
  | Some buf =>
      if (len <? sizeof_hdr) || (INT_MAX - sizeof_hdr <? len) then Some (Err INA_ERR_INVALID_ARGUMENT) else
      data ← write_at (drop 8 buf) 0 [0];
      Some (Ok (Str (u32 (u32 len - sizeof_hdr)) 0 data))
  end.

(** The bytes of a 32 bit integer in memory. *)
Definition le32 (x : Z) : list Z :=
  map (fun i => Z.land (Z.shiftr x (8 * i)) 255) [0; 1; 2; 3].

(** The buffer with the text at its start. *)
Definition ina_str_release_buf (s : option str) : option (result (list Z)) :=
  match s with
  | None => Some (Err INA_ERR_INVALID_ARGUMENT)
  | Some s =>
      bs ← read_at (s_data s) 0 (s_len s);
      buf ← write_at (le32 (s_size s) ++ le32 (s_len s) ++ s_data s) 0 bs;
      Some (Ok buf)
  end.

Definition ina_str_adjust_len (s : str) : option str :=
  n ← strlen (s_data s); Some (with_len s (u32 n)).

(** ** Well formed strings *)

(** The text of a string. *)
Definition text (s : str) : list Z := take (Z.to_nat (s_len s)) (s_data s).

(** Header and buffer agree, the text ends with a NUL and the memory is not
    from a pool. *)
Record wf (s : str) : Prop := {
  wf_len : 0 <= s_len s < s_size s;
  wf_size : s_size s < 2 ^ 31;
  wf_data : s_size s <= Z.of_nat (length (s_data s));
  wf_nul : s_data s !! Z.to_nat (s_len s) = Some 0
}.

Lemma text_length s : wf s -> Z.of_nat (length (text s)) = s_len s.
Proof. intros [? ? ? _]. unfold text. rewrite length_take. lia. Qed.

Lemma masked_size_small n : 0 <= n < 2 ^ 31 -> masked_size n = n.
Proof.
  intros Hn. unfold masked_size, __INA_POOLED. change 2147483648 with (2 ^ 31). apply Z_bits_ext. intros i Hi.
  rewrite Z.ldiff_spec, pow2_testbit by lia. destruct (Z.eqb_spec i 31) as [->|].
  - rewrite (testbit_small n 31) by lia. done.
  - by rewrite andb_true_r.
Qed.

Lemma not_pooled s : 0 <= s_size s < 2 ^ 31 -> pooled s = false.
Proof.
  intros Hs. unfold pooled, __INA_POOLED. change 2147483648 with (2 ^ 31).
  rewrite land_pow2_eqb, testbit_small by lia. done.
Qed.

Lemma length_fresh garbage n : 0 <= n -> Z.of_nat (length (fresh_bytes garbage n)) = n.
Proof. intros. unfold fresh_bytes. rewrite length_take, length_app, repeat_length. lia. Qed.

Section Ops.
Context (malloc_ok : Z -> bool) (garbage : Z -> list Z).
Context (Hmalloc : forall n, malloc_ok n = true).

(** Making room keeps the text. *)
Lemma ensure_size_spec s n :
  wf s -> 0 <= n -> s_len s + n < 2 ^ 30 ->
  exists d, __ina_ensure_size malloc_ok garbage s n = Some d /\ wf d /\ s_len d = s_len s /\
    text d = text s /\ s_len s + n < s_size d.
Proof.
  intros [Hl Hs Hd Hz] Hn Hb. unfold __ina_ensure_size. rewrite masked_size_small by lia.
  rewrite (wrap_small 64 (s_size s - s_len s - 1)) by (unfold in_width; lia).
  destruct (Z.ltb_spec n (s_size s - s_len s - 1)).
  { exists s. split; [done|]. split; [done|]. split; [done|]. split; [done|lia]. }
  rewrite (wrap_small 64 (s_len s + n)) by (unfold in_width; lia).
  set (nl := if s_len s + n <? _ then _ else _).
  assert (s_len s + n <= nl < 2 ^ 31 - 1) as Hnl.
  { unfold nl, __INA_MAX_PREALLOC. destruct (Z.ltb_spec (s_len s + n) (512 * 1024));
      rewrite wrap_small; unfold in_width; lia. }
  rewrite (wrap_small 32) by (unfold in_width; lia).
  rewrite not_pooled by lia. rewrite Hmalloc. cbn [negb orb]. eexists. split; [reflexivity|].
  unfold realloc_bytes, text. cbn [s_size s_len s_data].
  split; [split; cbn [s_size s_len s_data]|].
  - lia.
  - lia.
  - pose proof (length_fresh garbage (nl + 1)). rewrite length_take, length_app, length_drop. lia.
  - rewrite lookup_take_lt by lia. rewrite lookup_app_l by lia. done.
  - split; [done|]. split; [|lia]. rewrite take_take, take_app_le by lia. f_equal. lia.
Qed.

(** Putting [bs] at [off] and a NUL behind it. *)
Lemma put_spec d off bs :
  wf d -> 0 <= off <= s_len d -> off + Z.of_nat (length bs) < s_size d ->
  exists data1 data2,
    write_at (s_data d) off bs = Some data1 /\ write_at data1 (off + Z.of_nat (length bs)) [0] = Some data2 /\
    wf (Str (s_size d) (off + Z.of_nat (length bs)) data2) /\
    text (Str (s_size d) (off + Z.of_nat (length bs)) data2) = take (Z.to_nat off) (text d) ++ bs.
Proof.
  intros [Hl Hs Hd Hz] Ho Hb. rewrite write_at_some by lia. set (data1 := _ ++ _).
  assert (length data1 = length (s_data d)) as Hl1.
  { unfold data1. rewrite !length_app, length_take, length_drop. lia. }
  exists data1. rewrite write_at_some by (cbn [length]; lia). eexists. split; [done|]. split; [done|].
  set (n := off + _).
  assert (take (Z.to_nat n) data1 = take (Z.to_nat off) (s_data d) ++ bs) as Ht.
  { unfold data1. rewrite app_assoc, take_app_le by (rewrite length_app, length_take; lia).
    apply take_ge. rewrite length_app, length_take. lia. }
  split; [split; cbn [s_size s_len s_data]|].
  - lia.
  - lia.
  - rewrite !length_app, length_take, length_drop. cbn [length]. lia.
  - rewrite lookup_app_r by (rewrite length_take; lia). rewrite length_take.
    by replace (Z.to_nat n - _)%nat with 0%nat by lia.
  - unfold text. cbn [s_size s_len s_data]. rewrite take_app_le by (rewrite length_take; lia).
    rewrite take_take, Nat.min_id, Ht, take_take. do 2 f_equal. lia.
Qed.

Lemma new_spec len :
  0 <= len < 2 ^ 30 ->
  exists s, ina_str_new malloc_ok garbage len = Some (Some s) /\ wf s /\ s_size s = len + 1 /\ s_len s = 0.
Proof.
  intros Hl. unfold ina_str_new, sizeof_hdr. rewrite !wrap_small by (unfold in_width; lia). rewrite Hmalloc.
  destruct (Z.eqb_spec (len + 1 + 8) 0); [lia|]. cbn [negb orb].
  destruct (Z.ltb_spec (len + 1 + 8) 8); [lia|].
  pose proof (length_fresh garbage (len + 1 + 8 - 8)) as Hf.
  rewrite write_at_some by (cbn [length]; lia). cbn [mbind option_bind]. eexists. split; [reflexivity|].
  split; [split; cbn [s_size s_len s_data]|done]; [lia|lia| |done].
  rewrite !length_app, length_take, length_drop. cbn [length]. lia.
Qed.

(** A new string has the text of the block. *)
Lemma fromblk_spec blk len :
  0 <= len < 2 ^ 30 -> len <= Z.of_nat (length blk) ->
  exists s, ina_str_new_fromblk malloc_ok garbage (Some blk) len = Some (Some s) /\ wf s /\
    text s = take (Z.to_nat len) blk.
Proof.
  intros Hl Hb. unfold ina_str_new_fromblk.
  destruct (new_spec len Hl) as (s & -> & Hwf & Hsz & Hz). cbn [mbind option_bind].
  assert (Z.of_nat (length (take (Z.to_nat len) blk)) = len) as Hlen by (rewrite length_take; lia).
  destruct (put_spec s 0 (take (Z.to_nat len) blk) Hwf) as (d1 & d2 & Hw1 & Hw2 & Hwf' & Ht); [lia|lia|].
  rewrite Hlen in *. rewrite Z.add_0_l in *. rewrite (wrap_small 32) by (unfold in_width; lia).
  destruct (Z.ltb_spec 0 len).
  - rewrite read_at_some by lia. rewrite drop_0. cbn [mbind option_bind]. rewrite Hw1. cbn [mbind option_bind].
    rewrite Hw2. cbn [mbind option_bind]. eexists. split; [reflexivity|]. split; [done|]. exact Ht.
  - cbn [mbind option_bind]. assert (len = 0) as -> by lia.
    assert (d1 = s_data s) as ->.
    { rewrite write_at_some in Hw1 by (cbn; lia). injection Hw1 as <-. cbn. by rewrite drop_0. }
    rewrite Hw2. cbn [mbind option_bind]. eexists. split; [reflexivity|]. split; [done|]. exact Ht.
Qed.

Lemma ncat_spec s src n :
  wf s -> 0 <= n <= Z.of_nat (length src) -> s_len s + n < 2 ^ 30 ->
  exists s', ina_str_ncat malloc_ok garbage s (Some src) n = Some s' /\ wf s' /\
    text s' = text s ++ take (Z.to_nat n) src.
Proof.
  intros Hwf Hn Hb. unfold ina_str_ncat.
  destruct (ensure_size_spec s n Hwf) as (d & -> & Hd & Hl & Ht & Hs); [lia|lia|]. cbn [mbind option_bind].
  rewrite read_at_some, drop_0 by lia. cbn [mbind option_bind].
  assert (Z.of_nat (length (take (Z.to_nat n) src)) = n) as Hlen by (rewrite length_take; lia).
  pose proof (wf_len s Hwf).
  destruct (put_spec d (s_len d) (take (Z.to_nat n) src) Hd) as (d1 & d2 & Hw1 & Hw2 & Hwf' & Ht'); [lia|lia|].
  rewrite Hlen in *. rewrite Hw1. cbn [mbind option_bind]. rewrite (wrap_small 32) by (unfold in_width; lia).
  rewrite Hw2. cbn [mbind option_bind]. eexists. split; [reflexivity|]. split; [done|].
  rewrite Ht', <- Ht. f_equal. apply take_ge. pose proof (text_length d Hd). lia.
Qed.

Lemma ncpy_spec s src n :
  wf s -> 0 <= n <= Z.of_nat (length src) -> s_len s + n < 2 ^ 30 ->
  exists s', ina_str_ncpy malloc_ok garbage s (Some src) n = Some s' /\ wf s' /\
    text s' = take (Z.to_nat n) src.
Proof.
  intros Hwf Hn Hb. unfold ina_str_ncpy. pose proof (wf_len s Hwf).
  destruct (ensure_size_spec s n Hwf) as (d & -> & Hd & Hl & Ht & Hs); [lia|lia|]. cbn [mbind option_bind].
  rewrite read_at_some, drop_0 by lia. cbn [mbind option_bind].
  assert (Z.of_nat (length (take (Z.to_nat n) src)) = n) as Hlen by (rewrite length_take; lia).
  destruct (put_spec d 0 (take (Z.to_nat n) src) Hd) as (d1 & d2 & Hw1 & Hw2 & Hwf' & Ht'); [lia|lia|].
  rewrite Hlen in *. rewrite Z.add_0_l in *. rewrite Hw1. cbn [mbind option_bind].
  rewrite (wrap_small 32) by (unfold in_width; lia). rewrite Hw2. cbn [mbind option_bind].
  eexists. split; [reflexivity|]. done.
Qed.

Lemma append_chr_spec s c :
  wf s -> s_len s + 1 < 2 ^ 30 ->
  exists s', ina_str_append_chr malloc_ok garbage s c = Some s' /\ wf s' /\ text s' = text s ++ [c].
Proof.
  intros Hwf Hb. unfold ina_str_append_chr. pose proof (wf_len s Hwf).
  destruct (ensure_size_spec s 1 Hwf) as (d & -> & Hd & Hl & Ht & Hs); [lia|lia|]. cbn [mbind option_bind].
  destruct (put_spec d (s_len d) [c] Hd) as (d1 & d2 & Hw1 & Hw2 & Hwf' & Ht'); [lia|cbn; lia|].
  cbn [length] in *. rewrite Hw1. cbn [mbind option_bind]. rewrite (wrap_small 32) by (unfold in_width; lia).
  change (Z.of_nat 1) with 1 in *. rewrite Hw2. cbn [mbind option_bind]. eexists. split; [reflexivity|].
  split; [done|]. rewrite Ht', <- Ht. f_equal. apply take_ge. pose proof (text_length d Hd). lia.
Qed.

Lemma truncate_spec s pos :
  wf s -> 0 <= pos <= s_len s ->
  exists s', ina_str_truncate (Some s) pos = Some (Some s') /\ wf s' /\ text s' = take (Z.to_nat pos) (text s).
Proof.
  intros Hwf Hp. unfold ina_str_truncate. pose proof (wf_len s Hwf). pose proof (wf_size s Hwf).
  destruct (Z.leb_spec pos (s_len s)); [|lia]. cbn [negb].
  destruct (put_spec s pos [] Hwf) as (d1 & d2 & Hw1 & Hw2 & Hwf' & Ht'); [lia|cbn; lia|].
  cbn [length] in *. rewrite Z.add_0_r in *.
  assert (d1 = s_data s) as ->.
  { rewrite write_at_some in Hw1 by (cbn; pose proof (wf_data s Hwf); lia). injection Hw1 as <-. cbn.
    rewrite Nat.add_0_r. apply take_drop. }
  rewrite Hw2. cbn [mbind option_bind]. rewrite (wrap_small 32) by (unfold in_width; lia).
  eexists. split; [reflexivity|]. split; [done|]. by rewrite Ht', app_nil_r.
Qed.
End Ops.

(** ** Trimming *)

Fixpoint drop_while (f : Z -> bool) (l : list Z) : list Z :=
  match l with
  | [] => []
  | x :: r => if f x then drop_while f r else l
  end.

Definition drop_while_end (f : Z -> bool) (l : list Z) : list Z := rev (drop_while f (rev l)).

(** What trimming means: the text without the characters at both ends. *)
Definition trimmed (chars l : list Z) : list Z := drop_while_end (strchr chars) (drop_while (strchr chars) l).

Lemma drop_while_app f l : exists a, l = a ++ drop_while f l /\ Forall (fun x => f x = true) a.
Proof.
  induction l as [|x l (a & Hl & Ha)]; [by exists []|]. cbn. destruct (f x) eqn:Hx; [|by exists []].
  exists (x :: a). split; [cbn; by f_equal|by constructor].
Qed.

Lemma drop_while_length f l : (length (drop_while f l) <= length l)%nat.
Proof. destruct (drop_while_app f l) as (a & Hl & _). rewrite Hl at 2. rewrite length_app. lia. Qed.

Lemma drop_while_end_prefix f l : exists b, l = drop_while_end f l ++ b.
Proof.
  unfold drop_while_end. destruct (drop_while_app f (rev l)) as (a & Hl & _). exists (rev a).
  by rewrite <- rev_app_distr, <- Hl, rev_involutive.
Qed.

Lemma drop_while_head f l x r : drop_while f l = x :: r -> f x = false.
Proof. induction l as [|y l IH]; cbn; [done|]. destruct (f y) eqn:Hy; [done|]. by intros [= <- _]. Qed.

Lemma drop_while_all f a l : Forall (fun x => f x = true) a -> drop_while f (a ++ l) = drop_while f l.
Proof. induction 1 as [|x a Hx Ha IH]; [done|]. cbn. by rewrite Hx. Qed.

Lemma drop_while_stop f a x l : f x = false -> drop_while f (a ++ x :: l) = drop_while f (a ++ [x]) ++ l.
Proof.
  intros Hx. induction a as [|y a IH]; cbn; [by rewrite Hx|]. destruct (f y); [done|].
  cbn. by rewrite <- app_assoc.
Qed.

(** Trimming the end stops at the latest at a character that is kept. *)
Lemma drop_while_end_keep f a x r :
  f x = false -> drop_while_end f (a ++ x :: r) = a ++ drop_while_end f (x :: r) /\ drop_while_end f (x :: r) <> [].
Proof.
  intros Hx. unfold drop_while_end. cbn [rev]. rewrite rev_app_distr. cbn [rev].
  rewrite <- app_assoc. cbn [app]. rewrite drop_while_stop by done. rewrite rev_app_distr, rev_involutive.
  split; [done|]. destruct (drop_while_app f (rev r ++ [x])) as (b & Hb & Hall).
  intros Hnil%(f_equal (@rev Z)). rewrite rev_involutive in Hnil. cbn in Hnil. rewrite Hnil, app_nil_r in Hb. rewrite <- Hb in Hall. apply Forall_app in Hall as [_ Hall].
  apply Forall_inv in Hall. congruence.
Qed.

Lemma at_app a x l : at_ (a ++ x :: l) (Z.of_nat (length a)) = Some x.
Proof.
  unfold at_. destruct (Z.leb_spec 0 (Z.of_nat (length a))); [|lia]. rewrite Nat2Z.id.
  by rewrite lookup_app_r, Nat.sub_diag.
Qed.

Lemma trim_start_spec chars fuel a l rest :
  (length l < fuel)%nat ->
  trim_start fuel chars (a ++ l ++ rest) (Z.of_nat (length a)) (Z.of_nat (length a + length l) - 1) =
    Some (Z.of_nat (length a + length l) - Z.of_nat (length (drop_while (strchr chars) l))).
Proof.
  revert a l. induction fuel as [|fuel IH]; intros a l Hf; [lia|]. cbn [trim_start].
  destruct l as [|x l].
  - cbn [length drop_while]. destruct (Z.leb_spec (Z.of_nat (length a)) (Z.of_nat (length a + 0) - 1)); [lia|]. f_equal. lia.
  - destruct (Z.leb_spec (Z.of_nat (length a)) (Z.of_nat (length a + length (x :: l)) - 1)); [|cbn [length] in *; lia].
    cbn [app]. rewrite at_app. cbn [mbind option_bind drop_while].
    destruct (strchr chars x) eqn:Hx; [|f_equal; lia].
    specialize (IH (a ++ [x]) l ltac:(cbn in Hf; lia)). rewrite <- app_assoc in IH. cbn [app] in IH.
    rewrite length_app in IH. cbn [length] in *.
    replace (Z.of_nat (length a) + 1) with (Z.of_nat (length a + 1)) by lia.
    replace (length a + S (length l))%nat with (length a + 1 + length l)%nat by lia. exact IH.
Qed.

Lemma trim_end_spec chars fuel l rest :
  (length l < fuel)%nat ->
  trim_end fuel chars (l ++ rest) (Z.of_nat (length l) - 1) =
    Some (if (length l =? 0)%nat then -1 else Z.max 0 (Z.of_nat (length (drop_while_end (strchr chars) l)) - 1)).
Proof.
  revert l rest. induction fuel as [|fuel IH]; intros l rest Hf; [lia|]. cbn [trim_end].
  destruct l as [|x l _] using rev_ind; [done|]. rewrite length_app in *. cbn [length] in *.
  destruct (Nat.eqb_spec (length l + 1) 0); [lia|].
  replace (Z.of_nat (length l + 1) - 1) with (Z.of_nat (length l)) by lia.
  unfold drop_while_end in *. rewrite rev_app_distr. cbn [rev app drop_while].
  destruct (Z.ltb_spec 0 (Z.of_nat (length l))).
  - rewrite <- app_assoc. cbn [app]. rewrite at_app. cbn [mbind option_bind].
    destruct (strchr chars x) eqn:Hx.
    + rewrite (IH l (x :: rest)) by lia. destruct (Nat.eqb_spec (length l) 0); [lia|done].
    + cbn [rev]. rewrite rev_involutive, length_app. cbn [length]. f_equal. lia.
  - f_equal. destruct l; [|cbn [length] in *; lia]. cbn. destruct (strchr chars x); done.
Qed.

Lemma data_split s : wf s -> exists rest, s_data s = text s ++ 0 :: rest.
Proof.
  intros [Hl Hs Hd Hz]. exists (drop (S (Z.to_nat (s_len s))) (s_data s)). unfold text.
  symmetry. by apply take_drop_middle.
Qed.

Lemma trim_spec s chars :
  wf s -> exists s', ina_str_trim s (Some chars) = Some s' /\ wf s' /\ text s' = trimmed chars (text s).
Proof.
  intros Hwf. destruct (data_split s Hwf) as [rest Hdata]. pose proof (text_length s Hwf) as Hlen.
  pose proof Hwf as [Hl Hs Hd Hz]. unfold ina_str_trim.
  set (l := text s) in *. set (f := strchr chars).
  pose proof (trim_start_spec chars (S (Z.to_nat (s_len s))) [] l (0 :: rest) ltac:(lia)) as Hstart.
  pose proof (trim_end_spec chars (S (Z.to_nat (s_len s))) l (0 :: rest) ltac:(lia)) as Hend.
  cbn [app length Nat.add] in Hstart. rewrite <- Hdata in Hstart, Hend. rewrite Hlen in *.
  change (Z.of_nat 0) with 0 in Hstart. rewrite Hstart, Hend. clear Hstart Hend. cbn [mbind option_bind].
  fold f. pose proof (drop_while_length f l) as Hle. set (sp := s_len s - _). set (ep := if (_ =? _)%nat then _ else _).
  assert (exists n, (if ep <? sp then 0 else ep - sp + 1) = n /\ 0 <= sp /\ 0 <= n /\ sp + n <= s_len s /\
    take (Z.to_nat n) (drop (Z.to_nat sp) (s_data s)) = trimmed chars l) as (n & -> & Hsp & Hn & Hspn & Hbs).
  { destruct (drop_while_app f l) as (a & Ha & Hall). unfold trimmed. fold f.
    assert (Z.of_nat (length a) = sp) as Hla.
    { unfold sp. rewrite <- Hlen. rewrite Ha at 1. rewrite length_app. lia. }
    destruct (drop_while f l) as [|x r] eqn:Hdw.
    - exists 0. rewrite app_nil_r in Ha. cbn [drop_while_end drop_while rev]. split; [|repeat split; try lia; done].
      assert (length (drop_while_end f l) = 0)%nat as H0.
      { unfold drop_while_end. rewrite Ha. rewrite <- (app_nil_r (rev a)), drop_while_all; [done|].
        apply Forall_rev. done. }
      assert (sp = s_len s) by (unfold sp; cbn; lia).
      unfold ep. fold f. rewrite H0. destruct (Nat.eqb_spec (length l) 0); case_bool; lia.
    - pose proof (drop_while_head f l x r Hdw) as Hx.
      destruct (drop_while_end_keep f a x r Hx) as [Hk Hne]. rewrite <- Ha in Hk.
      destruct (drop_while_end_prefix f (x :: r)) as [b Hb].
      set (m := drop_while_end f (x :: r)) in *. exists (Z.of_nat (length m)).
      assert (0 < length m)%nat by (destruct m; [done|cbn; lia]).
      assert (length l = length a + length m + length b)%nat as Hll by (rewrite Ha, Hb, !length_app; lia).
      unfold ep. fold f. rewrite Hk, length_app.
      destruct (Nat.eqb_spec (length l) 0); [lia|].
      split; [case_bool; lia|]. repeat split; try lia.
      rewrite Hdata. fold l. rewrite Ha, Hb. rewrite <- Hla, !Nat2Z.id, <- !app_assoc, drop_app_length, take_app_length. done. }
  destruct (put_spec s 0 (trimmed chars l) Hwf) as (d1 & d2 & Hw1 & Hw2 & Hwf' & Ht'); [lia| |].
  { rewrite <- Hbs, length_take, length_drop. lia. }
  assert (Z.of_nat (length (trimmed chars l)) = n) as Hln by (rewrite <- Hbs, length_take, length_drop; lia).
  rewrite Hln, Z.add_0_l in *.
  assert ((if sp =? 0 then Some (s_data s) else bs ← read_at (s_data s) sp n; write_at (s_data s) 0 bs) = Some d1) as Hmv.
  { destruct (Z.eqb_spec sp 0) as [H0|].
    - rewrite <- Hw1, <- Hbs, H0, drop_0. rewrite write_at_some by (rewrite ?length_take; lia).
      change (Z.to_nat 0) with 0%nat. rewrite take_0, app_nil_l, length_take, Nat.add_0_l.
      replace (Z.to_nat n `min` length (s_data s))%nat with (Z.to_nat n) by lia. by rewrite take_drop.
    - rewrite read_at_some by lia. cbn [mbind option_bind]. by rewrite Hbs. }
  rewrite Hmv. cbn [mbind option_bind]. rewrite Hw2. cbn [mbind option_bind].
  rewrite (wrap_small 32) by (unfold in_width; lia). eexists. split; [reflexivity|]. split; [done|exact Ht'].
Qed.

(** ** Case conversion and the terminator *)

Definition case_char (from c : Z) : Z := if from =? Z.land 224 c then Z.lxor c 32 else c.

(** Conversion of the characters before the first NUL. *)
Fixpoint case_text (from : Z) (l : list Z) : list Z :=
  match l with
  | [] => []
  | c :: l => if c =? 0 then c :: l else case_char from c :: case_text from l
  end.

Lemma case_char_zero from c : from = 96 \/ from = 64 -> (case_char from c =? 0) = (c =? 0).
Proof.
  intros Hf. unfold case_char. destruct (Z.eqb_spec from (Z.land 224 c)) as [He|]; [|done].
  destruct (Z.eqb_spec c 0) as [->|]; [by destruct Hf as [->| ->]|].
  destruct (Z.eqb_spec (Z.lxor c 32) 0) as [Hx|]; [|done].
  apply Z.lxor_eq in Hx as ->. destruct Hf as [->| ->]; done.
Qed.

Lemma case_loop_spec from l rest :
  from = 96 \/ from = 64 -> case_loop from (l ++ 0 :: rest) = Some (case_text from l ++ 0 :: rest).
Proof.
  intros Hf. induction l as [|c l IH]; cbn [app case_loop case_text].
  - fold (case_char from 0). rewrite case_char_zero by done. cbn. repeat f_equal.
    destruct Hf as [->| ->]; done.
  - fold (case_char from c). rewrite case_char_zero by done. destruct (Z.eqb_spec c 0) as [->|].
    + cbn [app]. repeat f_equal. destruct Hf as [->| ->]; done.
    + rewrite IH. done.
Qed.

Lemma length_case_text from l : length (case_text from l) = length l.
Proof. induction l as [|c l IH]; [done|]. cbn. destruct (c =? 0); cbn; [done|by f_equal]. Qed.

(** A string whose text is replaced by one of the same length. *)
Lemma same_length_spec s l rest :
  wf s -> s_data s = text s ++ 0 :: rest -> length l = length (text s) ->
  wf (with_data s (l ++ 0 :: rest)) /\ text (with_data s (l ++ 0 :: rest)) = l.
Proof.
  intros Hwf Hd Hl. pose proof (text_length s Hwf) as Hlen. destruct Hwf as [H1 H2 H3 H4].
  assert (Z.to_nat (s_len s) = length l) as Hn by lia.
  split; [split; cbn; try done|].
  - rewrite Hd in H3. rewrite !length_app in *. cbn [length] in *. lia.
  - rewrite Hn, lookup_app_r by lia. by rewrite Nat.sub_diag.
  - unfold text. cbn. by rewrite Hn, take_app_length.
Qed.

Lemma toupper_spec s :
  wf s -> exists s', ina_str_toupper (Some s) = Some (Some s') /\ wf s' /\ text s' = case_text 96 (text s).
Proof.
  intros Hwf. destruct (data_split s Hwf) as [rest Hd]. unfold ina_str_toupper.
  rewrite Hd, case_loop_spec by (by left). cbn [mbind option_bind]. eexists. split; [reflexivity|].
  apply (same_length_spec s (case_text 96 (text s)) rest Hwf Hd), length_case_text.
Qed.

Lemma tolower_spec s :
  wf s -> exists s', ina_str_tolower (Some s) = Some (Some s') /\ wf s' /\ text s' = case_text 64 (text s).
Proof.
  intros Hwf. destruct (data_split s Hwf) as [rest Hd]. unfold ina_str_tolower.
  rewrite Hd, case_loop_spec by (by right). cbn [mbind option_bind]. eexists. split; [reflexivity|].
  apply (same_length_spec s (case_text 64 (text s)) rest Hwf Hd), length_case_text.
Qed.

(** The characters before the first NUL. *)
Fixpoint until_nul (l : list Z) : list Z :=
  match l with
  | [] => []
  | c :: l => if c =? 0 then [] else c :: until_nul l
  end.

Lemma strlen_until l rest : strlen (l ++ 0 :: rest) = Some (Z.of_nat (length (until_nul l))).
Proof.
  induction l as [|c l IH]; [done|]. cbn [app strlen until_nul]. destruct (c =? 0); [done|].
  rewrite IH. cbn [mbind option_bind length]. f_equal. lia.
Qed.

Lemma until_nul_prefix l : until_nul l = take (length (until_nul l)) l.
Proof. induction l as [|c l IH]; [done|]. cbn. destruct (c =? 0); [done|]. cbn. by f_equal. Qed.

Lemma until_nul_stop l rest : (until_nul l ++ drop (length (until_nul l)) (l ++ 0 :: rest)) = l ++ 0 :: rest /\
  (l ++ 0 :: rest) !! length (until_nul l) = Some 0.
Proof.
  induction l as [|c l [IH1 IH2]]; [done|]. cbn [until_nul app]. destruct (Z.eqb_spec c 0) as [->|]; [done|].
  cbn. split; [by f_equal|done].
Qed.

Lemma until_nul_id l : Forall (fun c => c <> 0) l -> until_nul l = l.
Proof. induction 1 as [|c l Hc Hl IH]; [done|]. cbn. destruct (Z.eqb_spec c 0); [done|]. by f_equal. Qed.

Lemma adjust_spec s :
  wf s -> exists s', ina_str_adjust_len s = Some s' /\ wf s' /\ text s' = until_nul (text s).
Proof.
  intros Hwf. destruct (data_split s Hwf) as [rest Hd]. pose proof (text_length s Hwf) as Hlen.
  unfold ina_str_adjust_len. rewrite Hd, strlen_until. cbn [mbind option_bind].
  pose proof (until_nul_prefix (text s)) as Hp. pose proof (f_equal length Hp) as Hpl. rewrite length_take in Hpl.
  destruct (until_nul_stop (text s) rest) as [_ Hz]. destruct Hwf as [H1 H2 H3 H4].
  rewrite (wrap_small 32) by (unfold in_width; lia). eexists. split; [reflexivity|]. split.
  - split; cbn; try done; [lia|]. by rewrite Nat2Z.id, Hd.
  - unfold text at 1. cbn. rewrite Nat2Z.id, Hd, take_app_le by lia. by rewrite <- Hp.
Qed.

(** ** Sequences of operations *)

Inductive sop :=
  | Cpy (src : list Z) (n : Z)
  | Cat (src : list Z) (n : Z)
  | AppendChr (c : Z)
  | Truncate (pos : Z)
  | Trim (chars : list Z)
  | ToUpper
  | ToLower
  | AdjustLen.

Section Run.
Context (malloc_ok : Z -> bool) (garbage : Z -> list Z).

Definition exec_op (s : str) (o : sop) : option str :=
  match o with
  | Cpy src n => ina_str_ncpy malloc_ok garbage s (Some src) n
  | Cat src n => ina_str_ncat malloc_ok garbage s (Some src) n
  | AppendChr c => ina_str_append_chr malloc_ok garbage s c
  | Truncate pos => mjoin (ina_str_truncate (Some s) pos)
  | Trim chars => ina_str_trim s (Some chars)
  | ToUpper => mjoin (ina_str_toupper (Some s))
  | ToLower => mjoin (ina_str_tolower (Some s))
  | AdjustLen => ina_str_adjust_len s
  end.

Fixpoint exec (s : str) (ops : list sop) : option str :=
  match ops with
  | [] => Some s
  | o :: ops => s ← exec_op s o; exec s ops
  end.
End Run.

(** The operations on a list of characters; [None] for arguments outside the
    contract: more characters than the source has, texts of a gigabyte, and a
    truncation behind the end. *)
Definition spec_op (l : list Z) (o : sop) : option (list Z) :=
  let len := Z.of_nat (length l) in
  match o with
  | Cpy src n =>
      if (0 <=? n) && (n <=? Z.of_nat (length src)) && (len + n <? 2 ^ 30) then Some (take (Z.to_nat n) src) else None
  | Cat src n =>
      if (0 <=? n) && (n <=? Z.of_nat (length src)) && (len + n <? 2 ^ 30) then Some (l ++ take (Z.to_nat n) src) else None
  | AppendChr c => if len + 1 <? 2 ^ 30 then Some (l ++ [c]) else None
  | Truncate pos => if (0 <=? pos) && (pos <=? len) then Some (take (Z.to_nat pos) l) else None
  | Trim chars => Some (trimmed chars l)
  | ToUpper => Some (case_text 96 l)
  | ToLower => Some (case_text 64 l)
  | AdjustLen => Some (until_nul l)
  end.

Fixpoint spec (l : list Z) (ops : list sop) : option (list Z) :=
  match ops with
  | [] => Some l
  | o :: ops => l ← spec_op l o; spec l ops
  end.

Lemma exec_op_spec malloc_ok garbage (Hmalloc : forall n, malloc_ok n = true) s o l :
  wf s -> spec_op (text s) o = Some l -> exists s', exec_op malloc_ok garbage s o = Some s' /\ wf s' /\ text s' = l.
Proof.
  intros Hwf. pose proof (text_length s Hwf) as Hl. unfold spec_op. rewrite Hl.
  destruct o as [src n|src n|c|pos|chars| | |]; cbn [exec_op].
  - destruct (Z.leb_spec 0 n), (Z.leb_spec n (Z.of_nat (length src))), (Z.ltb_spec (s_len s + n) (2 ^ 30)); try done.
    intros [= <-]. by apply ncpy_spec.
  - destruct (Z.leb_spec 0 n), (Z.leb_spec n (Z.of_nat (length src))), (Z.ltb_spec (s_len s + n) (2 ^ 30)); try done.
    intros [= <-]. by apply ncat_spec.
  - destruct (Z.ltb_spec (s_len s + 1) (2 ^ 30)); [|done]. intros [= <-]. by apply append_chr_spec.
  - destruct (Z.leb_spec 0 pos), (Z.leb_spec pos (s_len s)); try done. intros [= <-].
    destruct (truncate_spec s pos Hwf) as (s' & -> & Hs'); [lia|]. by exists s'.
  - intros [= <-]. by apply trim_spec.
  - intros [= <-]. destruct (toupper_spec s Hwf) as (s' & -> & Hs'). by exists s'.
  - intros [= <-]. destruct (tolower_spec s Hwf) as (s' & -> & Hs'). by exists s'.
  - intros [= <-]. by apply adjust_spec.
Qed.

Lemma exec_spec malloc_ok garbage (Hmalloc : forall n, malloc_ok n = true) s ops l :
  wf s -> spec (text s) ops = Some l -> exists s', exec malloc_ok garbage s ops = Some s' /\ wf s' /\ text s' = l.
Proof.
  revert s. induction ops as [|o ops IH]; intros s Hwf; cbn [spec exec].
  - intros [= <-]. by exists s.
  - intros (l1 & Hop & Hrun)%bind_Some.
    destruct (exec_op_spec malloc_ok garbage Hmalloc s o l1 Hwf Hop) as (s1 & -> & Hwf1 & Ht1).
    apply IH; [done|]. by rewrite Ht1.
Qed.

(** C25. String buffers implement character sequences: a new string on which
    any sequence of copies, concatenations, appended characters, truncations,
    trims, case conversions and length adjustments is carried out contains
    what the same operations on a list give; header and buffer stay
    consistent, no access is outside the buffer and the text stays
    terminated. *)
Theorem strings_refine_text malloc_ok garbage len ops l :
  (forall n, malloc_ok n = true) -> 0 <= len < 2 ^ 30 -> spec [] ops = Some l ->
  exists s0 s,
    ina_str_new malloc_ok garbage len = Some (Some s0) /\ exec malloc_ok garbage s0 ops = Some s /\
    wf s /\ text s = l.
Proof.
  intros Hm Hl Hspec. destruct (new_spec malloc_ok garbage Hm len Hl) as (s0 & Hnew & Hwf & _ & H0).
  assert (text s0 = []) as Ht by (unfold text; by rewrite H0).
  rewrite <- Ht in Hspec. destruct (exec_spec malloc_ok garbage Hm s0 ops l Hwf Hspec) as (s & Hrun & Hs).
  by exists s0, s.
Qed.

Definition example_ops : list sop :=
  [Cat (bytes_of_string "  hello "%string) 8; AppendChr 33; Trim [32]; ToUpper;
   Cat (bytes_of_string ", world"%string) 5; Truncate 10].

Lemma strings_refine_text_witness :
  spec [] example_ops = Some (bytes_of_string "HELLO !, w"%string) /\
  exists s0 s,
    ina_str_new (fun _ => true) (fun _ => [7]) 4 = Some (Some s0) /\
    exec (fun _ => true) (fun _ => [7]) s0 example_ops = Some s /\
    wf s /\ text s = bytes_of_string "HELLO !, w"%string.
Proof.
  assert (spec [] example_ops = Some (bytes_of_string "HELLO !, w"%string)) as Hs by (vm_compute; reflexivity).
  split; [exact Hs|]. apply strings_refine_text; [done|lia|exact Hs].
Defined.

(** ** Comparison *)

(** The lexicographic order of texts. *)
Fixpoint lex (l r : list Z) : comparison :=
  match l, r with
  | [], [] => Eq
  | [], _ => Lt
  | _, [] => Gt
  | x :: l, y :: r => match x ?= y with Eq => lex l r | c => c end
  end.

Lemma at_succ c m n : at_ (c :: m) (Z.of_nat (S n)) = at_ m (Z.of_nat n).
Proof. unfold at_. destruct (Z.leb_spec 0 (Z.of_nat (S n))), (Z.leb_spec 0 (Z.of_nat n)); try lia. by rewrite !Nat2Z.id. Qed.

Lemma mem_cmp_lex l r rl rr :
  Forall (fun c => 0 < c) l -> Forall (fun c => 0 < c) r ->
  let n := Nat.min (length l) (length r) in
  exists cmp, mem_cmp (l ++ 0 :: rl) (r ++ 0 :: rr) n = Some cmp /\
    (cmp <> 0 -> (cmp ?= 0) = lex l r) /\
    (cmp = 0 -> exists c1 c2, at_ (l ++ 0 :: rl) (Z.of_nat n) = Some c1 /\
      at_ (r ++ 0 :: rr) (Z.of_nat n) = Some c2 /\ (c1 - c2 ?= 0) = lex l r).
Proof.
  intros Hl. revert r. induction Hl as [|x l Hx Hl IH]; intros r Hr n.
  - exists 0. split; [done|]. split; [done|]. intros _. destruct r as [|y r]; [by exists 0, 0|].
    exists 0, y. split; [done|]. split; [done|]. apply Forall_inv in Hr. cbn [lex]. apply Z.compare_lt_iff. lia.
  - destruct r as [|y r].
    + exists 0. split; [done|]. split; [done|]. intros _. exists x, 0. split; [done|]. split; [done|].
      cbn [lex]. apply Z.compare_gt_iff. lia.
    + apply Forall_cons in Hr as [Hy Hr]. destruct (IH r Hr) as (cmp & Hc & Hne & He).
      subst n. cbn [length Nat.min app mem_cmp lex]. destruct (Z.eqb_spec x y) as [->|Hxy].
      * rewrite Z.compare_refl. exists cmp. split; [exact Hc|]. split; [exact Hne|].
        intros H0. destruct (He H0) as (c1 & c2 & H1 & H2 & H3). exists c1, c2. by rewrite !at_succ.
      * exists (x - y). split; [done|]. split; [|lia]. intros _.
        destruct (Z.compare_spec x y); [lia|apply Z.compare_lt_iff; lia|apply Z.compare_gt_iff; lia].
Qed.

(** [ina_str_cmp] orders strings without NUL characters
    lexicographically: its result is negative, zero or positive as the left
    text is before, equal to or after the right one. *)
Theorem cmp_is_lexicographic l r :
  wf l -> wf r -> Forall (fun c => 0 < c) (text l) -> Forall (fun c => 0 < c) (text r) ->
  exists z, ina_str_cmp (Some l) (Some r) = Some z /\ (z ?= 0) = lex (text l) (text r).
Proof.
  intros Hwl Hwr Hl Hr. destruct (data_split l Hwl) as [rl Hdl]. destruct (data_split r Hwr) as [rr Hdr].
  pose proof (text_length l Hwl). pose proof (text_length r Hwr).
  unfold ina_str_cmp. cbn [ina_str_len mbind option_bind].
  destruct (mem_cmp_lex (text l) (text r) rl rr Hl Hr) as (cmp & Hc & Hne & He).
  replace (Z.to_nat (Z.min (s_len l) (s_len r))) with (Nat.min (length (text l)) (length (text r))) by lia.
  replace (Z.min (s_len l) (s_len r)) with (Z.of_nat (Nat.min (length (text l)) (length (text r)))) by lia.
  rewrite Hdl, Hdr, Hc. cbn [mbind option_bind]. destruct (Z.eqb_spec cmp 0) as [Hz|Hz].
  - destruct (He Hz) as (c1 & c2 & -> & -> & Hcc). cbn [mbind option_bind]. by exists (c1 - c2).
  - exists cmp. split; [done|]. by apply Hne.
Qed.

(** A string with a text and nothing else. *)
Definition str_of (l : list Z) : str := Str (Z.of_nat (length l) + 1) (Z.of_nat (length l)) (l ++ [0]).

Lemma str_of_wf l : Z.of_nat (length l) < 2 ^ 30 -> wf (str_of l).
Proof.
  intros Hl. split; cbn.
  - lia.
  - lia.
  - rewrite length_app. cbn. lia.
  - rewrite Nat2Z.id, lookup_app_r by lia. by rewrite Nat.sub_diag.
Qed.

Lemma str_of_text l : text (str_of l) = l.
Proof. unfold text. cbn. by rewrite Nat2Z.id, take_app_length. Qed.

Lemma cmp_is_lexicographic_witness :
  exists z, ina_str_cmp (Some (str_of [97; 98])) (Some (str_of [97; 98; 99])) = Some z /\
    (z ?= 0) = lex (text (str_of [97; 98])) (text (str_of [97; 98; 99])).
Proof.
  apply cmp_is_lexicographic.
  - apply str_of_wf. vm_compute. reflexivity.
  - apply str_of_wf. vm_compute. reflexivity.
  - rewrite str_of_text. repeat constructor.
  - rewrite str_of_text. repeat constructor.
Defined.

(** ** Substrings *)

Lemma substr_internal_spec start end_ len :
  0 <= start -> 0 <= end_ < 2 ^ 64 -> 0 <= len < 2 ^ 31 -> ~ (start = 0 /\ end_ = 2 ^ 64 - 1) ->
  __ina_str_substr_internal start end_ len = Z.max 0 (Z.min (end_ - start + 1) (len - start)).
Proof.
  intros Hs He Hl Hno. unfold __ina_str_substr_internal.
  destruct (Z.eqb_spec len 0); [lia|]. destruct (Z.ltb_spec end_ start).
  - cbn. lia.
  - rewrite (wrap_small 64 (end_ - start + 1)) by (unfold in_width; lia).
    destruct (Z.eqb_spec (end_ - start + 1) 0); [lia|].
    destruct (Z.leb_spec len start); [lia|]. destruct (Z.leb_spec len end_); [|lia].
    destruct (Z.ltb_spec (len - 1) start); [lia|]. rewrite wrap_small by (unfold in_width; lia). lia.
Qed.

(** [ina_str_substr] returns the characters from [start] to [end], both
    included, as far as the string has them; positions behind the end and
    reversed ones give the empty string.  (The one pair of positions that is
    excluded wraps around, see [string_defects].) *)
Theorem substr_spec malloc_ok garbage s start end_ :
  (forall n, malloc_ok n = true) -> wf s -> s_len s < 2 ^ 30 ->
  0 <= start -> 0 <= end_ < 2 ^ 64 -> ~ (start = 0 /\ end_ = 2 ^ 64 - 1) ->
  exists t, ina_str_substr malloc_ok garbage s start end_ = Some (Some t) /\ wf t /\
    text t = take (Z.to_nat (end_ - start + 1)) (drop (Z.to_nat start) (text s)).
Proof.
  intros Hm Hwf Hb Hs He Hno. pose proof (wf_len s Hwf). unfold ina_str_substr.
  rewrite substr_internal_spec by (done || lia). set (n := Z.max _ _).
  pose proof (wf_data s Hwf) as Hd.
  destruct (fromblk_spec malloc_ok garbage Hm (drop (Z.to_nat start) (s_data s)) n) as (t & -> & Hwt & Ht);
    [lia|rewrite length_drop; lia|].
  exists t. split; [done|]. split; [done|]. rewrite Ht. unfold text at 1.
  rewrite skipn_firstn_comm, take_take. f_equal. lia.
Qed.

Lemma substr_spec_witness :
  exists t, ina_str_substr (fun _ => true) (fun _ => []) (str_of [1; 2; 3; 4; 5]) 1 3 = Some (Some t) /\ wf t /\
    text t = take (Z.to_nat (3 - 1 + 1)) (drop (Z.to_nat 1) (text (str_of [1; 2; 3; 4; 5]))).
Proof.
  apply substr_spec; try lia; try done.
Defined.

(** ** Splitting at a separator *)

Fixpoint prefixb (sep l : list Z) : bool :=
  match sep, l with
  | [], _ => true
  | x :: sep, y :: l => (x =? y) && prefixb sep l
  | _ :: _, [] => false
  end.

Lemma prefixb_app sep l : prefixb sep l = true -> l = sep ++ drop (length sep) l.
Proof.
  revert l. induction sep as [|x sep IH]; intros [|y l]; cbn; try done.
  intros [Hxy Hp]%andb_true_iff. apply Z.eqb_eq in Hxy as ->. f_equal. by apply IH.
Qed.

(** Splitting the text [l] with the current token [acc], after having skipped
    [skip] characters of a separator.  If [last] is false a separator is not
    looked for at the last character. *)
Fixpoint split_text (last : bool) (sep l : list Z) (skip : nat) (acc : list Z) : list (list Z) :=
  match l with
  | [] => [acc]
  | x :: l' =>
      match skip with
      | S skip => split_text last sep l' skip acc
      | O =>
          if prefixb sep l && (last || negb (match l' with [] => true | _ => false end))
          then acc :: split_text last sep l' (length sep - 1) []
          else split_text last sep l' 0 (acc ++ [x])
      end
  end.

Fixpoint join (sep : list Z) (ts : list (list Z)) : list Z :=
  match ts with
  | [] => []
  | [t] => t
  | t :: ts => t ++ sep ++ join sep ts
  end.

Lemma split_text_skip last sep l k acc :
  (k <= length l)%nat -> split_text last sep l k acc = split_text last sep (drop k l) 0 acc.
Proof. revert k. induction l as [|x l IH]; intros [|k] Hk; cbn in *; try done; try lia. apply IH. lia. Qed.

Lemma split_text_cons last sep l k acc : exists t ts, split_text last sep l k acc = t :: ts.
Proof.
  revert k acc. induction l as [|x l IH]; intros k acc; cbn; [by eexists _, _|].
  destruct k; [|apply IH]. destruct (_ && _); [by eexists _, _|apply IH].
Qed.

(** Joining the pieces gives the text back. *)
Lemma join_split last sep l acc :
  (0 < length sep)%nat -> join sep (split_text last sep l 0 acc) = acc ++ l.
Proof.
  intros Hsep. remember (length l) as n eqn:Hn. revert l acc Hn.
  induction n as [n IH] using lt_wf_ind. intros [|x l] acc Hn; [cbn; by rewrite app_nil_r|].
  cbn [split_text]. destruct (prefixb sep (x :: l)) eqn:Hp; cbn [andb].
  2:{ rewrite (IH (length l)) by (cbn in Hn; lia || done). by rewrite <- app_assoc. }
  destruct (last || _) eqn:Hl.
  - pose proof (prefixb_app _ _ Hp) as Happ.
    assert (length sep <= length (x :: l))%nat as Hle by (rewrite Happ, length_app; lia).
    rewrite split_text_skip by (cbn in Hle; lia).
    destruct sep as [|c sep]; [cbn in Hsep; lia|]. cbn [length] in *. replace (S (length sep) - 1)%nat with (length sep) by lia.
    destruct (split_text_cons last (c :: sep) (drop (length sep) l) 0 []) as (t & ts & Hts).
    cbn [join]. rewrite Hts, <- Hts.
    rewrite (IH (length (drop (length sep) l))) by (rewrite ?length_drop; cbn in Hn; lia || done).
    f_equal. cbn [drop] in Happ. symmetry. exact Happ.
  - rewrite (IH (length l)) by (cbn in Hn; lia || done). by rewrite <- app_assoc.
Qed.

Lemma last_app (a b : list Z) d : b <> [] -> List.last (a ++ b) d = List.last b d.
Proof.
  intros Hb. induction a as [|x a IH]; [done|]. cbn [app]. rewrite <- IH.
  destruct (a ++ b) eqn:Ha; [|done]. by apply app_eq_nil in Ha as [_ ->].
Qed.

(** Leaving out the last character makes no difference unless it is the
    separator. *)
Lemma split_text_last sep l acc :
  (2 <= length sep)%nat \/ List.last l 0 <> hd 0 sep -> (0 < length sep)%nat ->
  split_text false sep l 0 acc = split_text true sep l 0 acc.
Proof.
  intros Hlast Hsep. remember (length l) as n eqn:Hn. revert l acc Hn Hlast.
  induction n as [n IH] using lt_wf_ind. intros [|x l] acc Hn Hlast; [done|]. cbn [split_text orb].
  destruct l as [|y l].
  { destruct sep as [|c sep]; [cbn in Hsep; lia|]. cbn. destruct (Z.eqb_spec c x) as [->|]; [|done].
    destruct sep; [|done]. destruct Hlast as [H|H]; cbn in H; [lia|done]. }
  cbn [negb]. rewrite andb_true_r.
  assert (forall k, (2 <= length sep)%nat \/ List.last (drop k (y :: l)) 0 <> hd 0 sep \/ drop k (y :: l) = []) as Hdrop.
  { intros k. destruct Hlast as [H|H]; [by left|]. right.
    destruct (drop k (y :: l)) eqn:Hk; [by right|]. left. rewrite <- Hk.
    intros He. apply H. rewrite <- He.
    change (List.last (x :: y :: l) 0) with (List.last (y :: l) 0).
    transitivity (List.last (take k (y :: l) ++ drop k (y :: l)) 0); [by rewrite take_drop|].
    apply last_app. by rewrite Hk. }
  destruct (prefixb sep (x :: y :: l)) eqn:Hp.
  - pose proof (prefixb_app _ _ Hp) as Happ. pose proof (f_equal length Happ) as Hlen.
    rewrite length_app in Hlen. cbn [length] in Hlen.
    rewrite (split_text_skip false), (split_text_skip true) by (cbn [length]; lia). f_equal.
    destruct (Hdrop (length sep - 1)%nat) as [H|[H|H]].
    + apply (IH (length (drop (length sep - 1) (y :: l)))); [rewrite length_drop; cbn in *; lia|done|by left].
    + apply (IH (length (drop (length sep - 1) (y :: l)))); [rewrite length_drop; cbn in *; lia|done|by right].
    + by rewrite H.
  - apply (IH (length (y :: l))); [cbn in *; lia|done|]. destruct (Hdrop 0%nat) as [H|[H|H]]; [by left|by right|done].
Qed.

Lemma mem_cmp_prefix sep l x r :
  Forall (fun c => c <> 0) sep ->
  exists cmp, mem_cmp (l ++ 0 :: r) (sep ++ x) (length sep) = Some cmp /\ (cmp =? 0) = prefixb sep l.
Proof.
  intros Hsep. revert l. induction Hsep as [|c sep Hc Hsep IH]; intros l; [by exists 0|].
  destruct l as [|y l]; cbn [app length mem_cmp prefixb].
  - destruct (Z.eqb_spec 0 c) as [H0|_]; [by destruct Hc|]. exists (0 - c). split; [done|]. by apply Z.eqb_neq; lia.
  - destruct (Z.eqb_spec y c) as [->|Hy].
    + rewrite Z.eqb_refl. apply IH.
    + exists (y - c). split; [done|]. destruct (Z.eqb_spec c y); [lia|]. by apply Z.eqb_neq; lia.
Qed.

(** Texts and separators are C strings with memory behind them. *)
Section Split.
Context (malloc_ok : Z -> bool) (garbage : Z -> list Z).
Context (s sep srest seprest : list Z).
Abbreviation mem := (s ++ 0 :: srest).
Abbreviation sepmem := (sep ++ 0 :: seprest).
Abbreviation len := (Z.of_nat (length s)).
Abbreviation seplen := (Z.of_nat (length sep)).

Lemma sep_at_spec j :
  Forall (fun c => c <> 0) sep -> (0 < length sep)%nat -> 0 <= j < len ->
  sep_at mem sepmem seplen j = Some (prefixb sep (drop (Z.to_nat j) s)).
Proof.
  intros Hnz Hsep Hj. destruct (lookup_lt_is_Some_2 s (Z.to_nat j)) as [c Hc]; [lia|].
  pose proof (drop_S s c (Z.to_nat j) Hc) as Hdrop. unfold sep_at, at_.
  destruct (Z.leb_spec 0 j); [|lia]. rewrite (lookup_app_l s) by lia. rewrite Hc. cbn [mbind option_bind].
  destruct sep as [|c0 sep0] eqn:Heq; [cbn in Hsep; lia|]. cbn [app Z.leb Z.compare].
  change ((c0 :: sep0 ++ 0 :: seprest) !! Z.to_nat 0) with (Some c0). cbn [mbind option_bind].
  destruct ((Z.of_nat (length (c0 :: sep0)) =? 1) && (c =? c0)) eqn:H1.
  - apply andb_true_iff in H1 as [H1 H2]. apply Z.eqb_eq in H1, H2. subst c0.
    destruct sep0; [|cbn in H1; lia]. rewrite Hdrop. cbn [prefixb]. by rewrite Z.eqb_refl.
  - rewrite drop_app_le by lia. change (c0 :: sep0 ++ 0 :: seprest) with ((c0 :: sep0) ++ 0 :: seprest).
    destruct (mem_cmp_prefix (c0 :: sep0) (drop (Z.to_nat j) s) (0 :: seprest) srest Hnz) as (cmp & Hcmp & Hp).
    rewrite Nat2Z.id, Hcmp. cbn [mbind option_bind]. by rewrite Hp.
Qed.

(** The array of the tokens has room for two more. *)
Definition room (tokens : list str) (slots : Z) : Prop :=
  Z.of_nat (length tokens) + 2 <= slots <= 2 * Z.of_nat (length tokens) + 5.

Lemma split_loop_spec fuel tokens slots start j :
  (forall n, malloc_ok n = true) -> Forall (fun c => c <> 0) sep -> (0 < length sep)%nat -> len < 2 ^ 30 ->
  Forall wf tokens -> room tokens slots -> Z.of_nat (length tokens) <= start -> 0 <= start <= j -> j <= len ->
  len - j < Z.of_nat fuel ->
  exists tokens' slots' start',
    split_loop malloc_ok garbage fuel mem sepmem len seplen tokens slots start j = Some (Some (tokens', slots', start')) /\
    Forall wf tokens' /\ room tokens' slots' /\ 0 <= start' <= len /\
    map text tokens' ++ [drop (Z.to_nat start') s] =
      map text tokens ++ split_text false sep (drop (Z.to_nat j) s) 0 (take (Z.to_nat (j - start)) (drop (Z.to_nat start) s)).
Proof.
  intros Hm Hnz Hsep Hb. revert tokens slots start j.
  induction fuel as [|fuel IH]; intros tokens slots start j Htok Hroom Hcnt Hst Hj Hf; [lia|]. cbn [split_loop].
  assert (take (Z.to_nat (j - start)) (drop (Z.to_nat start) s) ++ drop (Z.to_nat j) s = drop (Z.to_nat start) s) as Hacc.
  { replace (Z.to_nat j) with (Z.to_nat start + Z.to_nat (j - start))%nat by lia. rewrite <- drop_drop. apply take_drop. }
  destruct (Z.ltb_spec j (len - 1)).
  2:{ exists tokens, slots, start. split; [done|]. split; [done|]. split; [done|]. split; [lia|]. f_equal.
      pose proof (length_drop s (Z.to_nat j)) as Hd. destruct (drop (Z.to_nat j) s) as [|x [|y r]]; cbn [length] in Hd; [| |lia].
      - rewrite app_nil_r in Hacc. cbn [split_text]. by rewrite Hacc.
      - cbn [split_text orb negb]. rewrite andb_false_r. by rewrite Hacc. }
  set (grow := slots <? _). rewrite Hm. cbn [negb]. rewrite andb_false_r.
  set (slots1 := if grow then _ else _).
  assert (room tokens slots1 /\ Z.of_nat (length tokens) + 3 <= slots1) as [Hroom1 Hr3].
  { unfold slots1, grow, room in *. destruct (Z.ltb_spec slots (Z.of_nat (length tokens) + 3)); [|lia].
    rewrite wrap_small by (unfold in_width; lia). lia. }
  rewrite sep_at_spec by (done || lia). cbn [mbind option_bind].
  destruct (lookup_lt_is_Some_2 s (Z.to_nat j)) as [c Hc]; [lia|].
  pose proof (drop_S s c (Z.to_nat j) Hc) as Hdrop.
  assert (drop (S (Z.to_nat j)) s <> []) as Hne.
  { intros He. pose proof (length_drop s (S (Z.to_nat j))) as Hd. rewrite He in Hd. cbn in Hd. lia. }
  rewrite Hdrop. cbn [split_text]. destruct (prefixb sep (c :: _)) eqn:Hp.
  - destruct (drop (S (Z.to_nat j)) s) as [|y r] eqn:Hds; [done|]. cbn [negb orb andb].
    destruct (fromblk_spec malloc_ok garbage Hm (drop (Z.to_nat start) mem) (j - start)) as (tok & -> & Hwt & Ht);
      [lia|rewrite length_drop, length_app; lia|]. cbn [mbind option_bind].
    destruct (Z.leb_spec slots1 (Z.of_nat (length tokens))); [lia|].
    pose proof (prefixb_app _ _ Hp) as Happ. pose proof (f_equal length Happ) as Hlen.
    rewrite <- Hdrop, length_app, length_drop in Hlen.
    replace (j + seplen - 1 + 1) with (j + seplen) by lia.
    destruct (IH (tokens ++ [tok]) slots1 (j + seplen) (j + seplen)) as (tokens' & slots' & start' & Hrun & H1 & H2 & H3 & H4).
    + apply Forall_app. split; [done|]. by constructor.
    + unfold room in *. rewrite length_app. cbn [length]. lia.
    + rewrite length_app. cbn [length]. lia.
    + lia.
    + lia.
    + lia.
    + exists tokens', slots', start'. split; [done|]. split; [done|]. split; [done|]. split; [done|].
      rewrite H4, map_app, <- app_assoc. cbn [map app]. f_equal. rewrite Z.sub_diag. cbn [Z.to_nat take].
      f_equal.
      * rewrite Ht, drop_app_le by lia. rewrite take_app_le by (rewrite length_drop; lia). done.
      * rewrite (split_text_skip false sep (y :: r)) by (rewrite <- Hds, length_drop; lia).
        rewrite <- Hds, drop_drop. repeat f_equal. lia.
  - cbn [andb].
    destruct (IH tokens slots1 start (j + 1)) as (tokens' & slots' & start' & Hrun & H1 & H2 & H3 & H4); [done|done|lia..|].
    exists tokens', slots', start'. split; [done|]. split; [done|]. split; [done|]. split; [done|].
    rewrite H4. replace (Z.to_nat (j + 1)) with (S (Z.to_nat j)) by lia. do 2 f_equal.
    replace (Z.to_nat (j + 1 - start)) with (S (Z.to_nat (j - start))) by lia.
    apply take_S_r. rewrite lookup_drop. rewrite <- Hc. f_equal. lia.
Qed.

(** Splitting a string: the tokens are the pieces between the
    separators, found from the left; a separator of one character is not
    recognised at the end of the text.  Joining the tokens gives the text
    back, and the array of the tokens is never overrun. *)
Theorem split_spec :
  (forall n, malloc_ok n = true) -> Forall (fun c => c <> 0) s -> Forall (fun c => c <> 0) sep ->
  s <> [] -> sep <> [] -> len < 2 ^ 30 ->
  exists tokens,
    ina_str_split malloc_ok garbage (Some mem) (Some sepmem) = Some (Some tokens, Some (Z.of_nat (length tokens))) /\
    Forall wf tokens /\ map text tokens = split_text false sep s 0 [] /\
    join sep (map text tokens) = s /\
    ((2 <= length sep)%nat \/ List.last s 0 <> hd 0 sep -> map text tokens = split_text true sep s 0 []).
Proof.
  intros Hm Hs Hnz Hse Hsepe Hb.
  assert (0 < length sep)%nat as Hsep by (destruct sep; [done|cbn; lia]).
  assert (0 < length s)%nat as Hsl by (destruct s; [done|cbn; lia]).
  unfold ina_str_split. rewrite !strlen_until, !until_nul_id by done. cbn [mbind option_bind].
  destruct (Z.eqb_spec len 0); [lia|]. destruct (Z.eqb_spec seplen 0); [lia|]. cbn [orb]. rewrite Hm. cbn [negb].
  destruct (split_loop_spec (S (Z.to_nat len)) [] 5 0 0) as (tokens & slots & start & -> & Hwf & Hroom & Hst & Htext);
    try done; try lia. cbn [mbind option_bind].
  destruct (fromblk_spec malloc_ok garbage Hm (drop (Z.to_nat start) mem) (len - start)) as (tok & -> & Hwt & Ht);
    [lia|rewrite length_drop, length_app; lia|]. cbn [mbind option_bind].
  destruct (Z.leb_spec slots (Z.of_nat (length tokens) + 1)); [unfold room in Hroom; lia|].
  assert (map text (tokens ++ [tok]) = split_text false sep s 0 []) as Hall.
  { rewrite map_app. cbn [map]. rewrite <- (app_nil_l (split_text _ _ _ _ _)).
    change (@nil (list Z)) with (map text []) at 2.
    change s with (drop (Z.to_nat 0) s) at 1. change (@nil Z) with (take (Z.to_nat (0 - 0)) (drop (Z.to_nat 0) s)).
    rewrite <- Htext. do 2 f_equal. rewrite Ht, drop_app_le by lia. apply take_app_length'. rewrite length_drop. lia. }
  exists (tokens ++ [tok]). rewrite Hall. split.
  { rewrite length_app. cbn [length]. do 3 f_equal. lia. }
  split; [apply Forall_app; by split; [|constructor]|]. split; [done|]. split.
  - by apply join_split.
  - intros Hl. by apply split_text_last.
Qed.
End Split.

Lemma split_spec_witness :
  let s := bytes_of_string "a,b,,cd,"%string in
  let sep := bytes_of_string ","%string in
  exists tokens,
    ina_str_split (fun _ => true) (fun _ => []) (Some (s ++ [0])) (Some (sep ++ [0])) =
      Some (Some tokens, Some (Z.of_nat (length tokens))) /\
    Forall wf tokens /\ map text tokens = split_text false sep s 0 [] /\
    join sep (map text tokens) = s /\
    ((2 <= length sep)%nat \/ List.last s 0 <> hd 0 sep -> map text tokens = split_text true sep s 0 []).
Proof.
  apply (split_spec (fun _ => true) (fun _ => []) _ _ [] []); try done.
  - vm_compute. repeat constructor; done.
  - vm_compute. repeat constructor; done.
Defined.

(** ** Tokens *)

(** The map represents the set [f] of characters. *)
Definition is_map (map : list Z) (f : Z -> bool) : Prop :=
  length map = 8%nat /\
  forall c, 0 <= c < 256 -> exists w, at_ map (c / 32) = Some w /\ Z.testbit w (c mod 32) = f c.

Lemma tokmap_index_eq c : 0 <= c -> tokmap_index c = c / 32.
Proof.
  intros Hc. unfold tokmap_index. change 31 with (Z.ones 5). rewrite Z.ldiff_ones_r by lia.
  rewrite Z.shiftr_shiftl_l, Z.sub_diag, Z.shiftl_0_r by lia. by rewrite Z.shiftr_div_pow2 by lia.
Qed.

Lemma tok_bit c : 0 <= c -> shl 32 1 (Z.land c 31) = 2 ^ (c mod 32).
Proof.
  intros Hc. change 31 with (Z.ones 5). rewrite Z.land_ones by lia. change (2 ^ 5) with 32.
  unfold shl. rewrite Z.shiftl_mul_pow2, Z.mul_1_l by dlia. apply wrap_small. split.
  - apply Z.pow_nonneg. lia.
  - apply Z.pow_lt_mono_r; dlia.
Qed.

Lemma at_write map i j v w map' :
  write_at map i [v] = Some map' -> at_ map j = Some w -> at_ map' j = Some (if i =? j then v else w).
Proof.
  intros H Hj. pose proof (length_write_at _ _ _ _ H) as Hlen. unfold write_at in H.
  destruct (Z.leb_spec 0 i); [|done]. cbn [length] in H.
  destruct (Z.leb_spec (i + Z.of_nat 1) (Z.of_nat (length map))); [|done]. injection H as <-.
  unfold at_ in *. destruct (Z.leb_spec 0 j); [|done].
  pose proof (lookup_lt_Some _ _ _ Hj). destruct (Z.eqb_spec i j) as [->|Hne].
  - rewrite lookup_app_r; rewrite length_take; [|lia]. by replace (Z.to_nat j - _)%nat with 0%nat by lia.
  - destruct (decide (j < i)).
    + rewrite lookup_app_l by (rewrite length_take; lia). by rewrite lookup_take_lt by lia.
    + rewrite lookup_app_r; rewrite length_take; [|lia]. rewrite lookup_cons_ne_0 by lia.
      rewrite lookup_drop. rewrite <- Hj. f_equal. lia.
Qed.

Lemma is_map_empty : is_map (repeat 0 8) (fun _ => false).
Proof.
  split; [done|]. intros c Hc. exists 0. split; [|apply Z.bits_0].
  assert (c / 32 = 0 \/ c / 32 = 1 \/ c / 32 = 2 \/ c / 32 = 3 \/ c / 32 = 4 \/ c / 32 = 5 \/ c / 32 = 6 \/ c / 32 = 7)
    as H by dlia.
  by repeat (destruct H as [->|H]; [done|]); rewrite H.
Qed.

Lemma tokmap_set_bits map f c :
  is_map map f -> 0 <= c < 256 ->
  exists map', tokmap_set map c = Some map' /\ is_map map' (fun x => (x =? c) || f x).
Proof.
  intros [Hlen Hmap] Hc. destruct (Hmap c Hc) as (w & Hw & _).
  unfold tokmap_set. rewrite tokmap_index_eq, tok_bit, Hw by lia. cbn [mbind option_bind].
  rewrite write_at_some by (cbn [length]; rewrite ?Hlen; dlia).
  set (map' := take _ _ ++ _). exists map'. split; [done|].
  assert (write_at map (c / 32) [Z.lor w (2 ^ (c mod 32))] = Some map') as Hwr
    by (rewrite write_at_some by (cbn [length]; rewrite ?Hlen; dlia); done).
  split; [by rewrite (length_write_at _ _ _ _ Hwr)|]. intros x Hx.
  destruct (Hmap x Hx) as (wx & Hwx & Hb). pose proof (at_write _ _ _ _ _ _ Hwr Hwx) as Hat.
  eexists. split; [exact Hat|]. destruct (Z.eqb_spec (c / 32) (x / 32)) as [He|Hne].
  - rewrite <- He in Hwx. assert (wx = w) as -> by congruence.
    rewrite Z.lor_spec, Hb, pow2_testbit by dlia. rewrite orb_comm. f_equal.
    destruct (Z.eqb_spec (x mod 32) (c mod 32)), (Z.eqb_spec x c); try done; [|by subst].
    pose proof (Z.div_mod x 32). pose proof (Z.div_mod c 32). lia.
  - rewrite Hb. destruct (Z.eqb_spec x c) as [->|]; done.
Qed.

Lemma tokmap_fill_bits map f sep rest :
  is_map map f -> Forall (fun c => 0 < c < 256) sep ->
  exists map', tokmap_fill map (sep ++ 0 :: rest) = Some map' /\
    is_map map' (fun x => existsb (Z.eqb x) sep || f x).
Proof.
  intros Hmap Hsep. revert map f Hmap. induction Hsep as [|c sep Hc Hsep IH]; intros map f Hmap; cbn [app tokmap_fill].
  - by exists map.
  - destruct (Z.eqb_spec c 0); [lia|]. destruct (tokmap_set_bits map f c Hmap) as (map1 & -> & Hmap1); [lia|].
    cbn [mbind option_bind]. destruct (IH map1 _ Hmap1) as (map' & -> & [Hl Hm]). exists map'. split; [done|].
    split; [done|]. intros x Hx. destruct (Hm x Hx) as (w & Hw & Hb). exists w. split; [done|]. rewrite Hb. cbn.
    by destruct (x =? c), (existsb _ _).
Qed.

Lemma tokmap_test_bits map f c : is_map map f -> 0 <= c < 128 -> tokmap_test map c = Some (f c).
Proof.
  intros [_ Hmap] Hc. unfold tokmap_test, schar. destruct (Z.ltb_spec c 128); [|lia].
  rewrite tokmap_index_eq, tok_bit by lia. destruct (Hmap c) as (w & -> & Hb); [lia|]. cbn [mbind option_bind].
  rewrite land_pow2_eqb by dlia. by rewrite negb_involutive, Hb.
Qed.

Lemma tok_scan_bits map f stop l x rest p :
  is_map map f -> Forall (fun c => 0 <= c < 128 /\ f c = negb stop) l -> 0 <= x < 128 -> f x = stop ->
  tok_scan map stop (l ++ x :: rest) p = Some (p + Z.of_nat (length l)).
Proof.
  intros Hmap Hl Hx Hs. revert p. induction Hl as [|c l [Hc Hf] Hl IH]; intros p; cbn [app tok_scan].
  - rewrite (tokmap_test_bits map f x) by done. cbn [mbind option_bind]. rewrite Hs, eqb_reflx. f_equal. cbn. lia.
  - rewrite (tokmap_test_bits map f c) by done. cbn [mbind option_bind]. rewrite Hf.
    replace (eqb (negb stop) stop) with false by (by destruct stop). rewrite IH. f_equal. cbn [length]. lia.
Qed.

(** The memory at a position, and a store there. *)
Lemma at_middle a x b : at_ (a ++ x :: b) (Z.of_nat (length a)) = Some x.
Proof. apply at_app. Qed.

Lemma write_middle (a b : list Z) (x y : Z) : write_at (a ++ x :: b) (Z.of_nat (length a)) [y] = Some (a ++ y :: b).
Proof.
  rewrite write_at_some by (rewrite ?length_app; cbn [length]; lia).
  rewrite Nat2Z.id, take_app_length, drop_app_ge by (cbn [length]; lia). cbn [length].
  by replace (length a + 1 - length a)%nat with 1%nat by lia.
Qed.

(** A character of the separators, and one of a token. *)
Definition is_sep (sep : list Z) (c : Z) : Prop := 0 < c < 128 /\ c ∈ sep.
Definition is_tok (sep : list Z) (c : Z) : Prop := 0 < c < 128 /\ c ∉ sep.

#[export] Instance is_sep_dec sep c : Decision (is_sep sep c).
Proof. unfold is_sep. apply _. Defined.

#[export] Instance is_tok_dec sep c : Decision (is_tok sep c).
Proof. unfold is_tok. apply _. Defined.

Lemma existsb_elem sep c : existsb (Z.eqb c) sep = bool_decide (c ∈ sep).
Proof.
  induction sep as [|x sep IH]; [done|]. cbn [existsb]. rewrite IH. destruct (Z.eqb_spec c x) as [->|Hne]; cbn [orb].
  - symmetry. apply bool_decide_eq_true_2. by left.
  - apply bool_decide_ext. rewrite elem_of_cons. naive_solver.
Qed.

(** [ina_str_tok] on ASCII text: separators before the token are skipped,
    the token reaches up to the next separator or the end of the text, which
    is overwritten with a NUL, and [*next] is set behind it; a text with
    nothing but separators has no token. *)
Theorem tok_spec pre d t x rest sep seprest next :
  sep <> [] -> Forall (fun c => 0 < c < 256) sep ->
  Forall (is_sep sep) d -> Forall (is_tok sep) t -> (x = 0 \/ is_sep sep x) ->
  let p := Z.of_nat (length pre) in
  (t <> [] ->
    ina_str_tok (pre ++ d ++ t ++ x :: rest) (Some p) (Some (sep ++ 0 :: seprest)) next =
      Some (pre ++ d ++ t ++ 0 :: rest, Some (p + Z.of_nat (length d + length t) + 1), Some (p + Z.of_nat (length d)))) /\
  ina_str_tok (pre ++ d ++ 0 :: rest) (Some p) (Some (sep ++ 0 :: seprest)) next =
    Some (pre ++ d ++ 0 :: rest, None, None).
Proof.
  intros Hne Hsep Hd Ht Hx p. unfold ina_str_tok. rewrite strlen_until, until_nul_id by
    (eapply Forall_impl; [exact Hsep|]; cbn; lia). cbn [mbind option_bind].
  destruct (Z.eqb_spec (Z.of_nat (length sep)) 0); [destruct sep; [done|cbn in *; lia]|].
  destruct (tokmap_fill_bits _ _ sep seprest is_map_empty Hsep) as (map & -> & Hmap). cbn [mbind option_bind].
  set (f := fun x => _) in Hmap.
  assert (forall c, f c = bool_decide (c ∈ sep)) as Hf by (intros c; unfold f; by rewrite orb_false_r, existsb_elem).
  assert (0 ∉ sep) as H0. { rewrite Forall_forall in Hsep. intros Hin%Hsep. lia. }
  assert (Forall (fun c => 0 <= c < 128 /\ f c = negb false) d) as Hd'.
  { eapply Forall_impl; [exact Hd|]. intros c [Hc Hin]. split; [lia|]. rewrite Hf. by apply bool_decide_eq_true_2. }
  split.
  - intros Htne. destruct t as [|y t]; [done|]. apply Forall_cons in Ht as [[Hy Hyn] Ht].
    unfold p. rewrite Nat2Z.id, drop_app_length.
    rewrite (tok_scan_bits map f false d y (t ++ x :: rest)); [|done|done|lia|rewrite Hf; by apply bool_decide_eq_false_2].
    cbn [mbind option_bind app]. rewrite <- Nat2Z.inj_add, <- length_app.
    rewrite (app_assoc pre d), at_middle. cbn [mbind option_bind]. destruct (Z.eqb_spec y 0); [lia|].
    destruct (tokmap_set_bits map f 0 Hmap) as (map1 & Hset & Hmap1); [lia|].
    unfold tokmap_set in Hset. destruct (at_ map (tokmap_index 0)) as [w0|] eqn:Hw0; [|done].
    change (tokmap_index 0) with 0 in *. rewrite Hw0. cbn [mbind option_bind] in *.
    change (shl 32 1 (Z.land 0 31)) with 1 in Hset. rewrite Hset. cbn [mbind option_bind].
    replace (Z.to_nat (Z.of_nat (length (pre ++ d)) + 1)) with (length (pre ++ d) + 1)%nat by lia.
    rewrite <- drop_drop, drop_app_length. cbn [drop].
    rewrite (tok_scan_bits map1 (fun c => (c =? 0) || f c) true t x rest); [|done| | |].
    + cbn [mbind option_bind].
      replace (Z.of_nat (length (pre ++ d)) + 1 + Z.of_nat (length t)) with (Z.of_nat (length ((pre ++ d) ++ y :: t)))
        by (rewrite (length_app (pre ++ d)); cbn [length]; lia).
      replace ((pre ++ d) ++ y :: t ++ x :: rest) with (((pre ++ d) ++ y :: t) ++ x :: rest) by (by rewrite <- !app_assoc).
      rewrite write_middle. cbn [mbind option_bind]. rewrite <- !app_assoc. do 3 f_equal. 
      rewrite !length_app. cbn [length]. f_equal. lia.
    + eapply Forall_impl; [exact Ht|]. intros c [Hc Hcn]. split; [lia|]. rewrite Hf.
      destruct (Z.eqb_spec c 0); [lia|]. by apply bool_decide_eq_false_2.
    + destruct Hx as [->|[? _]]; lia.
    + destruct Hx as [->|[? Hin]]; [done|]. rewrite Hf. apply orb_true_iff. right. by apply bool_decide_eq_true_2.
  - unfold p. rewrite Nat2Z.id, drop_app_length.
    rewrite (tok_scan_bits map f false d 0 rest); [|done|done|lia|rewrite Hf; by apply bool_decide_eq_false_2].
    cbn [mbind option_bind]. rewrite <- Nat2Z.inj_add, <- length_app. rewrite app_assoc, at_middle. done.
Qed.

Lemma tok_spec_witness :
  let pre := [9; 9] in let d := [32; 44] in let t := bytes_of_string "word"%string in
  let sep := [32; 44] in let rest := [120; 0] in let p := Z.of_nat (length pre) in
  (t <> [] ->
    ina_str_tok (pre ++ d ++ t ++ 32 :: rest) (Some p) (Some (sep ++ 0 :: [])) None =
      Some (pre ++ d ++ t ++ 0 :: rest, Some (p + Z.of_nat (length d + length t) + 1), Some (p + Z.of_nat (length d)))) /\
  ina_str_tok (pre ++ d ++ 0 :: rest) (Some p) (Some (sep ++ 0 :: [])) None =
    Some (pre ++ d ++ 0 :: rest, None, None).
Proof.
  apply (tok_spec [9; 9] [32; 44] (bytes_of_string "word"%string) 32 [120; 0] [32; 44] [] None).
  - done.
  - repeat constructor.
  - by apply (bool_decide_unpack _); vm_compute.
  - by apply (bool_decide_unpack _); vm_compute.
  - right. split; [lia|]. by left.
Defined.

(** ** Where the strings break their promise *)

Abbreviation always := (fun _ : Z => true).
Abbreviation nothing := (fun _ : Z => @nil Z).

(** Strings outside the good cases.  The substring from 0 to [SIZE_MAX] is
    empty.  Case conversion changes characters that are not letters.  Tokens
    at the end of a text leave [*next] behind the terminator, so that the
    next call reads past it, and a character above 127 indexes before the
    token map.  A buffer of 8 bytes is accepted but has no room for the
    terminator.  A string from a pool is given to [realloc] when it grows.  A
    single separator at the end stays in the token.  [ina_str_ncatcstr] does
    not accept a count below the length of the source.  Texts that differ in
    a trailing NUL are equal. *)
Theorem string_defects :
  (t ← ina_str_substr always nothing (str_of [1; 2; 3]) 0 (2 ^ 64 - 1); option_map text t) = Some [] /\
  (t ← ina_str_toupper (Some (str_of (bytes_of_string "a{~"%string))); option_map text t) =
    Some (bytes_of_string "A[^"%string) /\
  (t ← ina_str_tolower (Some (str_of (bytes_of_string "A@_"%string))); option_map text t) = Some [97; 96; 127] /\
  ina_str_tok [97; 0] (Some 0) (Some [44; 0]) None = Some ([97; 0], Some 2, Some 0) /\
  ina_str_tok [97; 0] None (Some [44; 0]) (Some 2) = None /\
  ina_str_tok [228; 0] (Some 0) (Some [44; 0]) None = None /\
  ina_str_assign_buf (Some (repeat 0 8)) 8 = None /\
  ina_str_ncat always nothing (Str (__INA_POOLED + 2) 1 [97; 0]) (Some [98; 0]) 1 = None /\
  ('(ts, _) ← ina_str_split always nothing (Some (bytes_of_string "a,"%string ++ [0])) (Some [44; 0]);
   option_map (map text) ts) = Some [bytes_of_string "a,"%string] /\
  ina_str_ncatcstr always nothing (str_of []) (Some [97; 98; 0]) 1 = None /\
  ina_str_cmp (Some (str_of [97])) (Some (str_of [97; 0])) = Some 0.
Proof. vm_compute. repeat split. Qed.

Lemma length_le32 x : length (le32 x) = 4%nat.
Proof. done. Qed.

(** A buffer of at least 9 bytes becomes an empty well formed string whose
    text can be released again: appending [l] to it and releasing the buffer
    leaves the characters at the start of the memory. *)
Theorem assign_release malloc_ok garbage buf l :
  let len := Z.of_nat (length buf) in
  9 <= len < 2 ^ 30 -> Z.of_nat (length l) < len - 9 ->
  exists s s' out,
    ina_str_assign_buf (Some buf) len = Some (Ok s) /\ wf s /\ text s = [] /\
    ina_str_ncat malloc_ok garbage s (Some l) (Z.of_nat (length l)) = Some s' /\ wf s' /\ text s' = l /\
    ina_str_release_buf (Some s') = Some (Ok out) /\ take (length l) out = l /\ length out = length buf.
Proof.
  intros len Hlen Hl. unfold ina_str_assign_buf, sizeof_hdr, INT_MAX.
  destruct (Z.ltb_spec len 8); [lia|]. destruct (Z.ltb_spec (2147483647 - 8) len); [lia|]. cbn [orb].
  pose proof (length_drop buf 8) as Hdrop.
  rewrite write_at_some by (cbn [length]; lia). cbn [mbind option_bind].
  rewrite (wrap_small 32 len), (wrap_small 32) by (unfold in_width; lia). set (data := _ ++ _).
  assert (length data = length buf - 8)%nat as Hd.
  { unfold data. rewrite !length_app, length_take, !length_drop. cbn [length]. lia. }
  assert (wf (Str (len - 8) 0 data)) as Hwf by (split; cbn; lia || done).
  set (s := Str _ _ _) in *.
  assert (__ina_ensure_size malloc_ok garbage s (Z.of_nat (length l)) = Some s) as Hens.
  { unfold __ina_ensure_size, s. cbn [s_size s_len]. rewrite masked_size_small by lia.
    rewrite wrap_small by (unfold in_width; lia). destruct (Z.ltb_spec (Z.of_nat (length l)) (len - 8 - 0 - 1)); [done|lia]. }
  destruct (put_spec s 0 l Hwf) as (d1 & d2 & Hw1 & Hw2 & Hwf' & Ht'); [unfold s; cbn; lia..|].
  rewrite Z.add_0_l in *.
  exists s, (Str (len - 8) (Z.of_nat (length l)) d2). unfold ina_str_ncat. rewrite Hens. cbn [mbind option_bind].
  rewrite read_at_some, drop_0, Nat2Z.id, take_ge by lia. cbn [mbind option_bind].
  change (s_len s) with 0. rewrite Hw1. cbn [mbind option_bind]. rewrite Z.add_0_l.
  rewrite (wrap_small 32) by (unfold in_width; lia). rewrite Hw2. cbn [mbind option_bind].
  unfold ina_str_release_buf. cbn [s_data s_len s_size].
  pose proof (length_write_at _ _ _ _ Hw1) as Hl1. pose proof (length_write_at _ _ _ _ Hw2) as Hl2.
  change (length (s_data s)) with (length data) in Hl1.
  rewrite read_at_some, drop_0, Nat2Z.id by lia. cbn [mbind option_bind].
  assert (take (length l) d2 = l) as Htk.
  { unfold text in Ht'. cbn [s_data s_len] in Ht'. rewrite Nat2Z.id in Ht'. exact Ht'. }
  rewrite Htk. rewrite write_at_some by (rewrite ?length_app, ?length_le32; lia).
  eexists. split; [done|]. split; [done|]. split; [done|]. split; [done|]. split; [done|]. split; [exact Ht'|].
  split; [reflexivity|]. change (Z.to_nat 0) with 0%nat. rewrite take_0, app_nil_l. split; [apply take_app_length|].
  rewrite length_app, length_drop, !length_app, !length_le32. lia.
Qed.

Lemma assign_release_witness :
  9 <= Z.of_nat (length (repeat 1 32)) < 2 ^ 30 /\ Z.of_nat (length [97; 98]) < Z.of_nat (length (repeat 1 32)) - 9 /\
  exists s s' out,
    ina_str_assign_buf (Some (repeat 1 32)) (Z.of_nat (length (repeat 1 32))) = Some (Ok s) /\ wf s /\ text s = [] /\
    ina_str_ncat always nothing s (Some [97; 98]) (Z.of_nat (length [97; 98])) = Some s' /\ wf s' /\ text s' = [97; 98] /\
    ina_str_release_buf (Some s') = Some (Ok out) /\ take (length [97; 98]) out = [97; 98] /\
    length out = length (repeat 1 32).
Proof.
  split; [vm_compute; split; congruence|]. split; [vm_compute; reflexivity|].
  apply (assign_release always nothing (repeat 1 32) [97; 98]); vm_compute; [split; congruence|reflexivity].
Defined.
End Str.
