(* ===== verification/StrPool.v ===== *)
(** * Strings in pools (string.c over memory.c)

    The variants of the string operations that take their memory from a pool: a string is a
    header in the memory of the pool, and its bytes follow it.  The operations work on the
    pools of Mempool.v.  [None] is an access outside of memory, a failed assertion or a null
    pointer that is followed; a null pointer as a result is an inner [None]. *)
From Stdlib Require Import ZArith Lia Bool.
From stdpp Require Import base numbers option fin_maps gmap strings list.
From S2P Require Import Prelude Error Str Hash Mempool.

Module StrPool.
Import Error Str Mempool.
Import Hash(le_value).
Local Open Scope inac_scope.

Section Code.
Variable malloc_ok : Z -> bool.
Variable garbage : Z -> list Z.

(** A string is the pointer to its header; [p->data] is behind it. *)
Definition field (h : ptr) (k : Z) : ptr := Ptr (ptr_block h) (ptr_off h + k).
Definition load32 (st : pmem) (h : ptr) (k : Z) : option Z := bs ← mem_read st (field h k) 4; Some (le_value bs).
Definition store32 (st : pmem) (h : ptr) (k x : Z) : option pmem := mem_write st (field h k) (le32 x).

Definition __ina_ensure_size_pool (st : pmem) (pool : Z) (hdr : ptr) (len : Z) : option (pmem * ptr) :=
  size ← load32 st hdr 0;
  if Z.land size __INA_POOLED =? 0 then None else
  let old_size := masked_size size in
  l ← load32 st hdr 4;
  if len <? u64 (old_size - l - 1) then Some (st, hdr) else
  let newlen := l +₆₄ len in
  let newlen := if newlen <? __INA_MAX_PREALLOC then newlen *₆₄ 2 else newlen +₆₄ __INA_MAX_PREALLOC in
  let size := u32 (newlen + 1) in
  st ← store32 st hdr 0 size;
  '(st, r) ← ina_mempool_ralloc malloc_ok garbage st pool hdr (sizeof_hdr + old_size) (sizeof_hdr + size);
  match r with
  | Err _ => None
  | Ok hdr => size ← load32 st hdr 0; st ← store32 st hdr 0 (Z.lor size __INA_POOLED); Some (st, hdr)
  end.

Definition ina_str_new_using_pool (st : pmem) (len : Z) (pool : option Z) : option (pmem * option ptr) :=
  match pool with
  | None => Some (st, None)
  | Some pool =>
      '(st, r) ← ina_mempool_dalloc malloc_ok garbage st pool (u64 (len + 1 + sizeof_hdr));
      match r with
      | Err _ => Some (st, None)
      | Ok hdr =>
          st ← store32 st hdr 0 (u32 (Z.lor __INA_POOLED (u64 (len + 1))));
          st ← store32 st hdr 4 0;
          st ← mem_write st (field hdr 8) [0];
          Some (st, Some hdr)
      end
  end.

(** The bytes and the length of a new string; nothing is written behind the bytes. *)
Definition fill (st : pmem) (hdr : ptr) (blk : list Z) (len : Z) : option (pmem * option ptr) :=
  bs ← read_at blk 0 len;
  st ← mem_write st (field hdr 8) bs;
  st ← store32 st hdr 4 (u32 len);
  Some (st, Some hdr).
Definition ina_str_new_fromblk_using_pool (st : pmem) (blk : option (list Z)) (len : Z) (pool : option Z) : option (pmem * option ptr) :=
  match blk, pool with
  | Some blk, Some _ =>
      '(st, str) ← ina_str_new_using_pool st len pool;
      match str with None => Some (st, None) | Some hdr => fill st hdr blk len end
  | _, _ => Some (st, None)
  end.
Definition ina_str_new_fromcstr_using_pool (st : pmem) (cstr : option (list Z)) (pool : option Z) : option (pmem * option ptr) :=
  len ← (match cstr with Some m => strlen m | None => Some 0 end);
  '(st, str) ← ina_str_new_using_pool st len pool;
  match str with None => Some (st, None) | Some hdr => fill st hdr (default [] cstr) len end.

Definition ina_str_ncat_using_pool (st : pmem) (dest : ptr) (src : option (list Z)) (n : Z) (pool : Z) : option (pmem * ptr) :=
  match src with
  | None => Some (st, dest)
  | Some src =>
      '(st, d) ← __ina_ensure_size_pool st pool dest n;
      bs ← read_at src 0 n;
      l ← load32 st d 4;
      st ← mem_write st (field d (8 + l)) bs;
      st ← store32 st d 4 (l +₃₂ n);
      st ← mem_write st (field d (8 + (l +₃₂ n))) [0];
      Some (st, d)
  end.
(** The assertion, unlike that of the variant without a pool, wants a source of at least
    [n] characters. *)
Definition ina_str_ncatcstr_using_pool (st : pmem) (dest : ptr) (src : option (list Z)) (n : Z) (pool : Z) : option (pmem * ptr) :=
  m ← src;
  l ← strlen m;
  if negb (n <=? l) then None else ina_str_ncat_using_pool st dest src n pool.
(** [str] is any string, with or without a pool. *)
Definition ina_str_substr_using_pool (st : pmem) (s : str) (start end_ : Z) (pool : option Z) : option (pmem * option ptr) :=
  let newlen := __ina_str_substr_internal start end_ (s_len s) in
  ina_str_new_fromblk_using_pool st (Some (drop (Z.to_nat start) (s_data s))) newlen pool.
(** The memory of a pooled string stays with the pool; [free] gets the header of the others. *)
Definition ina_str_free (s : option str) : option str :=
  match s with Some s => if pooled s then None else Some s | None => None end.
(** The strings before the null pointer at the end of the array. *)
Definition ina_str_split_free_tokens (tokens : list str) : list str := omap (fun s => ina_str_free (Some s)) tokens.

(** ** Formatted strings

    [t] is what the format and its arguments give. *)
Definition __ina_vsnprintf (data : list Z) (len : Z) (t : list Z) : option (list Z * Z) :=
  data ← write_at data 0 (take (Z.to_nat (len - 1)) t ++ [0]); Some (data, Z.of_nat (length t)).
Definition ina_str_vsnprintf (s : str) (len : Z) (t : list Z) : option (str * Z) :=
  if (len <=? 0) || (s_size s <? len) then None else
  '(data, l) ← __ina_vsnprintf (s_data s) len t;
  let s := Str (s_size s) (s_len s) data in
  '(s, l) ← (if len <=? l then
      extra ← ina_str_new malloc_ok garbage l;
      match extra with
      | Some e => '(data, l) ← __ina_vsnprintf (s_data e) (l + 1) t; Some (Str (s_size e) (s_len e) data, l)
      | None => Some (s, -1)
      end
    else Some (s, l));
  Some (if 0 <=? l then Str (s_size s) (u32 l) (s_data s) else s, l).
Definition ina_str_snprintf (s : str) (len : Z) (t : list Z) : option (str * Z) := ina_str_vsnprintf s len t.
Definition ina_str_sprintf (t : list Z) : option (option str) :=
  str ← ina_str_new malloc_ok garbage 128;
  match str with
  | None => Some None
  | Some s => '(s, n) ← ina_str_vsnprintf s 128 t; Some (if n <=? 0 then None else Some s)
  end.
End Code.

(** ** Memory *)

Lemma le_value_le32 (x : Z) : 0 <= x < 2 ^ 32 -> le_value (le32 x) = x.
Proof.
  intros Hx. unfold le_value, le32. cbn [map fold_right]. change 255 with (Z.ones 8). rewrite !Z.land_ones, !Z.shiftr_div_pow2 by lia.
  change (8 * 0) with 0. change (8 * 1) with 8. change (8 * 2) with 16. change (8 * 3) with 24. change (2 ^ 0) with 1. change (2 ^ 8) with 256. change (2 ^ 16) with 65536.
  change (2 ^ 24) with 16777216. change (2 ^ 32) with 4294967296 in Hx. dlia.
Qed.
Lemma field_field (h : ptr) (k j : Z) : field (field h k) j = field h (k + j).
Proof. unfold field. cbn. f_equal. lia. Qed.

Lemma read_sub (st : pmem) (h : ptr) (N k n : Z) (L : list Z) :
  mem_read st h N = Some L -> 0 <= k -> 0 <= n -> k + n <= N -> mem_read st (field h k) n = Some (take (Z.to_nat n) (drop (Z.to_nat k) L)).
Proof.
  unfold mem_read, field. cbn [ptr_block ptr_off]. destruct (blocks st !! ptr_block h) as [b|]; [|done]. cbn [mbind option_bind].
  destruct (Z.leb_spec 0 (ptr_off h)) as [Ho|]; [|done]. destruct (Z.leb_spec 0 N); [|done]. destruct (Z.leb_spec (ptr_off h + N) (Z.of_nat (length b))); [|done].
  cbn [andb]. intros [= <-] Hk Hn Hle. rewrite !(proj2 (Z.leb_le _ _)) by lia. cbn [andb]. f_equal.
  rewrite skipn_firstn_comm, drop_drop, take_take. f_equal; [lia|]. f_equal. lia.
Qed.

(** Writing keeps the blocks as long as they are. *)
Definition same_shape (st st' : pmem) : Prop := forall i, length <$> blocks st' !! i = length <$> blocks st !! i.
Lemma same_shape_trans (st1 st2 st3 : pmem) : same_shape st1 st2 -> same_shape st2 st3 -> same_shape st1 st3.
Proof. intros H1 H2 i. by rewrite H2, H1. Qed.
Lemma same_shape_ok (st st' : pmem) (p : pool) : same_shape st st' -> pool_ok st p -> pool_ok st' p.
Proof.
  intros Hs (H1 & H2 & b & Hb & Hl). split; [done|]. split; [done|]. specialize (Hs (p_m p)). rewrite Hb in Hs. cbn in Hs.
  destruct (blocks st' !! p_m p) as [b'|]; [|done]. exists b'. split; [done|]. injection Hs as ->. done.
Qed.
Lemma mem_write_shape (st st' : pmem) (p : ptr) (bs : list Z) : mem_write st p bs = Some st' -> same_shape st st'.
Proof.
  unfold mem_write. destruct (blocks st !! ptr_block p) as [b|] eqn:Hb; [|done]. cbn [mbind option_bind].
  destruct (Z.leb_spec 0 (ptr_off p)); [|done]. destruct (Z.leb_spec (ptr_off p + Z.of_nat (length bs)) (Z.of_nat (length b))); [|done]. cbn [andb].
  intros [= <-] i. cbn [blocks]. destruct (decide (i = ptr_block p)) as [->|Hi]; [|by rewrite lookup_insert_ne].
  rewrite lookup_insert_eq, Hb. cbn. f_equal. rewrite !length_app, length_take, length_drop. lia.
Qed.
Lemma read_length (st : pmem) (h : ptr) (N : Z) (L : list Z) : mem_read st h N = Some L -> 0 <= N /\ Z.of_nat (length L) = N.
Proof.
  unfold mem_read. destruct (blocks st !! ptr_block h) as [b|]; [|done]. cbn [mbind option_bind].
  destruct (Z.leb_spec 0 (ptr_off h)); [|done]. destruct (Z.leb_spec 0 N); [|done]. destruct (Z.leb_spec (ptr_off h + N) (Z.of_nat (length b))); [|done].
  cbn [andb]. intros [= <-]. rewrite length_take, length_drop. lia.
Qed.

(** What a store into a part of memory that can be read does. *)
Record stored (st st' : pmem) (h : ptr) (N : Z) (L : list Z) : Prop := {
  sd_pools : pools st' = pools st;
  sd_shape : same_shape st st';
  sd_read : mem_read st' h N = Some L;
  sd_other : forall q n, ptr_block q <> ptr_block h \/ ptr_off q + n <= ptr_off h \/ ptr_off h + N <= ptr_off q -> mem_read st' q n = mem_read st q n }.
Lemma write_sub (st : pmem) (h : ptr) (N k : Z) (L bs : list Z) :
  mem_read st h N = Some L -> 0 <= k -> k + Z.of_nat (length bs) <= N ->
  exists st', mem_write st (field h k) bs = Some st' /\ stored st st' h N (take (Z.to_nat k) L ++ bs ++ drop (Z.to_nat k + length bs) L).
Proof.
  intros Hr Hk Hle. destruct (read_length _ _ _ _ Hr) as [HN HL]. pose proof Hr as Hr'. unfold mem_read in Hr'.
  destruct (blocks st !! ptr_block h) as [b|] eqn:Hb; [|done]. cbn [mbind option_bind] in Hr'.
  destruct (Z.leb_spec 0 (ptr_off h)) as [Ho|]; [|done]. destruct (Z.leb_spec 0 N); [|done]. destruct (Z.leb_spec (ptr_off h + N) (Z.of_nat (length b))) as [Hb'|]; [|done].
  cbn [andb] in Hr'. injection Hr' as HLb.
  destruct (mem_write_spec st (field h k) bs b) as (st' & Hw & Hp & _ & Hoth); [done|cbn; lia|cbn; lia|]. exists st'. split; [done|].
  pose proof (mem_write_shape _ _ _ _ Hw) as Hsh. split; [done|done| |intros q n Hq; apply Hoth; cbn; lia].
  unfold mem_write in Hw. unfold field in Hw. cbn [ptr_block ptr_off] in Hw. rewrite Hb in Hw. cbn [mbind option_bind] in Hw.
  rewrite !(proj2 (Z.leb_le _ _)) in Hw by lia. cbn [andb] in Hw. injection Hw as <-. unfold mem_read. cbn [blocks]. rewrite lookup_insert_eq. cbn [mbind option_bind].
  set (b1 := take _ b ++ _). assert (length b1 = length b) as Hl1 by (subst b1; rewrite !length_app, length_take, length_drop; lia).
  rewrite Hl1, !(proj2 (Z.leb_le _ _)) by lia. cbn [andb]. f_equal. subst b1 L.
  set (o := Z.to_nat (ptr_off h)). replace (Z.to_nat (ptr_off h + k)) with (o + Z.to_nat k)%nat by lia.
  replace (Z.to_nat (ptr_off h + k + Z.of_nat (length bs))) with (o + Z.to_nat k + length bs)%nat by lia.
  rewrite drop_app_le by (rewrite length_take; lia). rewrite skipn_firstn_comm. replace (o + Z.to_nat k - o)%nat with (Z.to_nat k) by lia.
  rewrite take_app, length_take, length_drop, take_take. replace (Z.to_nat N `min` Z.to_nat k)%nat with (Z.to_nat k) by lia.
  rewrite take_take. replace (Z.to_nat k `min` Z.to_nat N)%nat with (Z.to_nat k) by lia. f_equal.
  rewrite take_app. replace (Z.to_nat k `min` (length b - o))%nat with (Z.to_nat k) by lia.
  rewrite take_ge by lia. f_equal. rewrite skipn_firstn_comm, drop_drop. f_equal; [lia|]. f_equal. lia.
Qed.

(** ** Strings in a pool that is not dynamic *)
Section Fixed.
Variables (malloc_ok : Z -> bool) (garbage : Z -> list Z).
Abbreviation cat_pool := (ina_str_ncat_using_pool malloc_ok garbage).
Abbreviation new_pool_str := (ina_str_new_using_pool malloc_ok garbage).

Definition layout (size : Z) (t rest : list Z) : list Z := le32 (Z.lor __INA_POOLED size) ++ le32 (Z.of_nat (length t)) ++ t ++ rest.

(** A string: its header, the size of its buffer, its text, and whether the text ends
    with a zero byte. *)
Record pstr := PStr { s_hdr : ptr; s_cap : Z; s_text : list Z; s_zero : bool }.
Definition string_region (a : Z) (s : pstr) : region := Region (ptr_block (s_hdr s)) (ptr_off (s_hdr s)) (INA_MEM_ALIGN_N (8 + s_cap s) a).
Record holds (st : pmem) (s : pstr) : Prop := {
  h_off : 0 <= ptr_off (s_hdr s);
  h_cap : Z.of_nat (length (s_text s)) < s_cap s < 2 ^ 30;
  h_mem : exists rest, mem_read st (s_hdr s) (8 + s_cap s) = Some (layout (s_cap s) (s_text s) rest) /\ (s_zero s = true -> head rest = Some 0) }.

(** The pool and the strings that were made in it. *)
Record fixed_pool (st : pmem) (id : Z) (p : pool) (a : Z) : Prop := {
  fp_pool : pools st !! id = Some p;
  fp_ok : pool_ok st p;
  fp_fixed : flag (p_cf p) INA_MEM_DYNAMIC = false;
  fp_current : p_current p = id;
  fp_alignment : p_alignment p = a;
  fp_power : exists k, 0 <= k <= 30 /\ a = 2 ^ k }.
Record pool_strings (st : pmem) (id : Z) (p : pool) (a : Z) (ss : list pstr) : Prop := {
  ps_pool : fixed_pool st id p a;
  ps_holds : forall i s, ss !! i = Some s -> holds st s /\ ptr_block (s_hdr s) = p_m p /\ ptr_off (s_hdr s) + INA_MEM_ALIGN_N (8 + s_cap s) a <= p_pos p;
  ps_disjoint : forall i j s s', ss !! i = Some s -> ss !! j = Some s' -> i <> j -> disjoint_regions (string_region a s) (string_region a s') }.

Lemma pooled_bits (size : Z) : 0 <= size < 2 ^ 31 ->
  0 <= Z.lor __INA_POOLED size < 2 ^ 32 /\ Z.land (Z.lor __INA_POOLED size) __INA_POOLED <> 0 /\ masked_size (Z.lor __INA_POOLED size) = size.
Proof.
  intros Hs. change __INA_POOLED with (2 ^ 31). assert (forall i, 31 <= i -> Z.testbit size i = false) as Hhi by (intros i Hi; by apply (in_width_high_bits 31)).
  split; [by apply (lor_in_width 32); [lia|split; lia|split; lia]|]. split.
  - intros H0. apply (f_equal (fun x => Z.testbit x 31)) in H0. rewrite Z.land_spec, Z.lor_spec, Z.pow2_bits_true, Z.bits_0 in H0 by lia. done.
  - unfold masked_size, __INA_POOLED. change 2147483648 with (2 ^ 31). apply Z.bits_inj'. intros i Hi. rewrite Z.ldiff_spec, Z.lor_spec, Z.pow2_bits_eqb by lia.
    destruct (Z.eqb_spec 31 i) as [<-|Hne]; [rewrite (Hhi 31) by lia; done|]. by rewrite orb_false_l, andb_true_r.
Qed.

Lemma layout_size (st : pmem) (h : ptr) (size : Z) (t rest : list Z) : 0 <= size < 2 ^ 30 ->
  mem_read st h (8 + size) = Some (layout size t rest) -> load32 st h 0 = Some (Z.lor __INA_POOLED size).
Proof.
  intros Hs Hr. unfold load32. rewrite (read_sub st h (8 + size) 0 4 _ Hr) by lia. cbn [mbind option_bind]. f_equal.
  change (take (Z.to_nat 4) _) with (le32 (Z.lor __INA_POOLED size)). apply le_value_le32. apply pooled_bits. lia.
Qed.
Lemma layout_len (st : pmem) (h : ptr) (size : Z) (t rest : list Z) : Z.of_nat (length t) < size < 2 ^ 30 ->
  mem_read st h (8 + size) = Some (layout size t rest) -> load32 st h 4 = Some (Z.of_nat (length t)).
Proof.
  intros Hs Hr. unfold load32. rewrite (read_sub st h (8 + size) 4 4 _ Hr) by lia. cbn [mbind option_bind]. f_equal.
  change (take (Z.to_nat 4) _) with (le32 (Z.of_nat (length t))). apply le_value_le32. lia.
Qed.

(** Other strings do not notice what happens outside of their regions. *)
Lemma holds_frame (st st' : pmem) (s : pstr) :
  (forall n, n <= 8 + s_cap s -> mem_read st' (s_hdr s) n = mem_read st (s_hdr s) n) -> holds st s -> holds st' s.
Proof. intros Hf [H1 H2 (rest & Hr & Hz)]. split; [done|done|]. exists rest. split; [|done]. rewrite Hf by lia. done. Qed.
Lemma fixed_power (st : pmem) (id : Z) (p : pool) (a : Z) : fixed_pool st id p a -> 0 < a <= 2 ^ 30.
Proof. intros [_ _ _ _ _ (k & Hk & ->)]. split; [lia|]. apply Z.pow_le_mono_r; lia. Qed.
Lemma align_cap (n a : Z) : 0 <= n <= 2 ^ 60 -> 0 < a <= 2 ^ 30 -> n <= INA_MEM_ALIGN_N n a < n + a.
Proof. intros Hn Ha. pose proof (align_n_range n a). lia. Qed.
Lemma align_mono (st : pmem) (id : Z) (p : pool) (a n m : Z) : fixed_pool st id p a -> 0 <= n <= m -> m <= 2 ^ 60 -> INA_MEM_ALIGN_N n a <= INA_MEM_ALIGN_N m a.
Proof.
  intros Hp Hn Hm. pose proof (fixed_power _ _ _ _ Hp). destruct Hp as [_ _ _ _ _ (k & Hk & ->)]. unfold INA_MEM_ALIGN_N. rewrite !wrap_small by (unfold in_width; lia).
  rewrite !ldiff_pow2 by lia. apply Z.mul_le_mono_nonneg_r; [lia|]. apply Z.div_le_mono; lia.
Qed.

(** ** Reallocation from a fixed pool *)

(** It stays where it is, at the end of the used memory, which moves, or with room for
    what it needs; or it moves to the end. *)
Lemma ralloc_fixed (st : pmem) (id : Z) (p : pool) (a : Z) (old : ptr) (o n : Z) :
  fixed_pool st id p a -> 0 < o <= n -> n <= 2 ^ 60 - a -> ptr_block old = p_m p -> 0 <= ptr_off old ->
  let osz := INA_MEM_ALIGN_N o a in let nsz := INA_MEM_ALIGN_N n a in
  ptr_off old + osz <= p_pos p -> p_pos p + nsz <= p_end p ->
  exists st' ret pos', ina_mempool_ralloc malloc_ok garbage st id old o n = Some (st', Ok ret) /\
    pools st' = <[id := with_pos p pos']> (pools st) /\ same_shape st st' /\ p_pos p <= pos' <= p_pos p + nsz /\
    ptr_block ret = p_m p /\ 0 <= ptr_off ret /\ ptr_off ret + nsz <= pos' /\ mem_read st' ret o = mem_read st old o /\
    (ret = old /\ (ptr_off old + osz = p_pos p \/ nsz = osz) \/ ptr_off ret = p_pos p) /\
    (forall q m, ptr_off q + m <= p_pos p \/ ptr_block q <> p_m p -> mem_read st' q m = mem_read st q m).
Proof.
  intros Hfp Ho Hn Hb Hoff osz nsz Hold Hroom. pose proof (fixed_power _ _ _ _ Hfp) as Ha. assert (osz <= nsz) as Hsz by (apply (align_mono st id p); [done|lia..]).
  destruct Hfp as [Hp Hok Hfix Hcur Hal _]. pose proof Hok as (H1 & H2 & b & Hblk & Hlen).
  pose proof (align_cap o a) as Hro. pose proof (align_cap n a) as Hrn. fold osz in Hro. fold nsz in Hrn.
  unfold ina_mempool_ralloc, ina_mempool_get_alignment, get. rewrite Hp. cbn [fmap option_fmap option_map mbind option_bind]. rewrite Hal. unfold ina_mempool_ralloc_aligned.
  rewrite !(proj2 (Z.ltb_lt 0 _)) by lia. cbn [negb orb]. fold osz nsz. unfold get. rewrite Hp. cbn [mbind option_bind].
  rewrite (proj2 (Z.ltb_ge (p_end p) osz)) by lia. rewrite (proj2 (Z.leb_le osz (p_pos p))) by lia. cbn [andb].
  destruct (bool_decide_reflect (Ptr (p_m p) (p_pos p - osz) = old)) as [Heq|Hne].
  - assert (ptr_off old = p_pos p - osz) as Hoo by (by rewrite <- Heq). rewrite (wrap_small 64 (p_pos p + nsz - osz)) by (unfold in_width; lia).
    rewrite (proj2 (Z.leb_le _ (p_end p))) by lia. rewrite (upd_eq st id _ p Hp). cbn [mbind option_bind]. rewrite (proj2 (Z.ltb_ge nsz osz)) by lia. cbn [mbind option_bind].
    exists (PMem (<[id := with_pos p (p_pos p + nsz - osz)]> (pools st)) (blocks st) (fresh st)), old, (p_pos p + nsz - osz).
    split; [done|]. split; [done|]. split; [done|]. split; [lia|]. split; [done|]. split; [done|]. split; [lia|]. split; [done|].
    split; [left; split; [done|left; lia]|done].
  - destruct (Z.leb_spec nsz osz) as [Hle|Hlt].
    + exists st, old, (p_pos p). split; [done|]. split; [rewrite insert_id; [done|]; rewrite Hp; clear; by destruct p|]. split; [done|]. split; [lia|]. split; [done|]. split; [done|]. split; [lia|]. split; [done|].
      split; [left; split; [done|right; lia]|done].
    + rewrite (wrap_small 64 (p_pos p + nsz)) by (unfold in_width; lia). rewrite !(proj2 (Z.leb_le _ _)) by lia. cbn [andb].
      unfold move_to_pos, get. rewrite Hp. cbn [mbind option_bind]. unfold mem_cpy.
      destruct (mem_read_some st old osz b) as (bs & Hrd & Hbl); [by rewrite Hb|lia..|]. rewrite Hrd. cbn [mbind option_bind].
      destruct (mem_write_spec st (Ptr (p_m p) (p_pos p)) bs b) as (st1 & Hwr & Hpools & Hrd1 & Hoth); [done|cbn; lia|cbn; lia|]. rewrite Hwr. cbn [mbind option_bind].
      rewrite (upd_eq st1 id _ p) by (by rewrite Hpools). cbn [mbind option_bind]. rewrite (wrap_small 64 (p_pos p + nsz)) by (unfold in_width; lia).
      eexists _, _, (p_pos p + nsz). split; [reflexivity|]. cbn [pools blocks]. rewrite Hpools. split; [done|]. split; [exact (mem_write_shape _ _ _ _ Hwr)|].
      split; [lia|]. split; [done|]. split; [cbn; lia|]. split; [cbn; lia|]. split.
      * rewrite (mem_read_pools st1) by done. rewrite Hbl in Hrd1. rewrite (mem_read_prefix st1 _ osz o bs ltac:(lia) Hrd1). symmetry. apply (mem_read_prefix st old osz o bs); [lia|exact Hrd].
      * split; [by right|]. intros q m Hq. rewrite (mem_read_pools st1) by done. apply Hoth. cbn. destruct Hq; [right; left; lia|by left].
Qed.

(** ** Changing and adding a string *)
Lemma string_changed (st st' : pmem) (id : Z) (p : pool) (a pos' : Z) (ss ss' : list pstr) (i : nat) (s : pstr) :
  pool_strings st id p a ss -> pools st' = <[id := with_pos p pos']> (pools st) -> same_shape st st' -> p_pos p <= pos' <= p_end p ->
  (forall j x, ss' !! j = Some x -> j = i /\ x = s \/ j <> i /\ ss !! j = Some x) ->
  holds st' s -> ptr_block (s_hdr s) = p_m p -> ptr_off (s_hdr s) + INA_MEM_ALIGN_N (8 + s_cap s) a <= pos' ->
  (forall j x, j <> i -> ss !! j = Some x -> disjoint_regions (string_region a s) (string_region a x) /\
    forall n, n <= 8 + s_cap x -> mem_read st' (s_hdr x) n = mem_read st (s_hdr x) n) ->
  pool_strings st' id (with_pos p pos') a ss'.
Proof.
  intros [Hp Hh Hd] Hpools Hshape Hpos Hss Hs Hb Hend Hoth. destruct Hp as [H1 H2 H3 H4 H5 H6]. split.
  - split; try done; [by rewrite Hpools, lookup_insert_eq|]. destruct (same_shape_ok _ _ _ Hshape H2) as ((? & ?) & Hok). by split; [cbn; lia|].
  - intros j x Hx. destruct (Hss j x Hx) as [[-> ->]|[Hj Hx']]; [done|]. destruct (Hh j x Hx') as (Hx1 & Hx2 & Hx3). destruct (Hoth j x Hj Hx') as [_ Hf].
    split; [by apply (holds_frame st)|]. split; [done|]. cbn. lia.
  - intros j k x y Hx Hy Hjk. destruct (Hss j x Hx) as [[-> ->]|[Hj Hx']], (Hss k y Hy) as [[-> ->]|[Hk Hy']]; [done| | |by apply (Hd j k)].
    + by apply (Hoth k).
    + destruct (Hoth j x Hj Hx') as [[?|[?|?]] _]; unfold disjoint_regions; [left; congruence|right; lia..].
Qed.

(** Strings that do not share memory are apart by their regions. *)
Lemma other_strings (st : pmem) (id : Z) (p : pool) (a : Z) (ss : list pstr) (i j : nat) (s x : pstr) :
  pool_strings st id p a ss -> ss !! i = Some s -> ss !! j = Some x -> i <> j ->
  ptr_block (s_hdr x) = p_m p /\ ptr_block (s_hdr s) = p_m p /\ 8 < 8 + s_cap x <= INA_MEM_ALIGN_N (8 + s_cap x) a /\ 8 + s_cap s <= INA_MEM_ALIGN_N (8 + s_cap s) a /\
  ptr_off (s_hdr x) + INA_MEM_ALIGN_N (8 + s_cap x) a <= p_pos p /\
  (ptr_off (s_hdr x) + INA_MEM_ALIGN_N (8 + s_cap x) a <= ptr_off (s_hdr s) \/ ptr_off (s_hdr s) + INA_MEM_ALIGN_N (8 + s_cap s) a <= ptr_off (s_hdr x)).
Proof.
  intros [Hp Hh Hd] Hs Hx Hij. destruct (Hh i s Hs) as ([Hs1 Hs2 _] & Hs3 & Hs4), (Hh j x Hx) as ([Hx1 Hx2 _] & Hx3 & Hx4).
  pose proof (fixed_power _ _ _ _ Hp) as Ha. pose proof (align_cap (8 + s_cap s) a). pose proof (align_cap (8 + s_cap x) a).
  split; [done|]. split; [done|]. split; [lia|]. split; [lia|]. split; [lia|].
  destruct (Hd i j s x Hs Hx Hij) as [Hb|[Hb|Hb]]; cbn in Hb; [congruence|by right|by left].
Qed.
Lemma stored_others (st st' : pmem) (id : Z) (p : pool) (a : Z) (ss : list pstr) (i j : nat) (s x : pstr) (N n : Z) (L : list Z) :
  pool_strings st id p a ss -> ss !! i = Some s -> ss !! j = Some x -> i <> j -> N <= 8 + s_cap s -> stored st st' (s_hdr s) N L -> n <= 8 + s_cap x ->
  mem_read st' (s_hdr x) n = mem_read st (s_hdr x) n.
Proof.
  intros Hps Hs Hx Hij HN [_ _ _ Ho] Hn. destruct (other_strings st id p a ss i j s x Hps Hs Hx Hij) as (Hb & Hb' & Hc & Hc' & _ & Hd). apply Ho. lia.
Qed.

Lemma fixed_pool_shape (st st' : pmem) (id : Z) (p : pool) (a : Z) : pools st' = pools st -> same_shape st st' -> fixed_pool st id p a -> fixed_pool st' id p a.
Proof. intros Hp Hs [H1 H2 H3 H4 H5 H6]. split; try done; [by rewrite Hp|by apply (same_shape_ok st)]. Qed.

Lemma length_layout (size : Z) (t rest : list Z) : length (layout size t rest) = (8 + length t + length rest)%nat.
Proof. unfold layout. rewrite !length_app, !length_le32. lia. Qed.

(** The new place of a string is apart from all others, and they keep their bytes. *)
Lemma moved_others (st st1 st2 st3 : pmem) (id : Z) (p : pool) (a size : Z) (ss : list pstr) (i j : nat) (s x : pstr) (ret : ptr) (L1 L3 : list Z) :
  pool_strings st id p a ss -> ss !! i = Some s -> ss !! j = Some x -> i <> j -> ptr_block ret = p_m p ->
  let osz := INA_MEM_ALIGN_N (8 + s_cap s) a in let nsz := INA_MEM_ALIGN_N (8 + size) a in
  8 + size <= nsz -> (ret = s_hdr s /\ (ptr_off (s_hdr s) + osz = p_pos p \/ nsz = osz) \/ ptr_off ret = p_pos p) ->
  stored st st1 (s_hdr s) (8 + s_cap s) L1 -> (forall q m, ptr_off q + m <= p_pos p \/ ptr_block q <> p_m p -> mem_read st2 q m = mem_read st1 q m) ->
  stored st2 st3 ret (8 + size) L3 ->
  disjoint_regions (Region (ptr_block ret) (ptr_off ret) nsz) (string_region a x) /\ forall n, n <= 8 + s_cap x -> mem_read st3 (s_hdr x) n = mem_read st (s_hdr x) n.
Proof.
  intros Hps Hs Hx Hij Hret osz nsz Hn Hplace Hst1 Hst2 [_ _ _ Hst3]. destruct (other_strings st id p a ss i j s x Hps Hs Hx Hij) as (Hb & Hb' & Hc & Hc' & Hend & Hd).
  fold osz in Hc', Hd. set (xsz := INA_MEM_ALIGN_N (8 + s_cap x) a) in *.
  assert (ptr_off (s_hdr x) + xsz <= ptr_off ret \/ ptr_off ret + nsz <= ptr_off (s_hdr x)) as Hfar.
  { destruct Hplace as [[-> [Hp|Hp]]|Hp]; [left; destruct Hd; lia| |left; lia]. rewrite Hp. exact Hd. }
  split; [right; destruct Hfar; [by right|by left]|]. intros n Hle. rewrite (Hst3 (s_hdr x) n) by lia. rewrite (Hst2 (s_hdr x) n) by lia. apply (stored_others st st1 id p a ss i j s x (8 + s_cap s) n L1); (done || lia).
Qed.

(** Growing a string to a buffer of [size]. *)
Lemma grow_spec (st : pmem) (id : Z) (p : pool) (a size : Z) (ss : list pstr) (i : nat) (s : pstr) :
  pool_strings st id p a ss -> ss !! i = Some s -> s_cap s <= size < 2 ^ 30 -> p_pos p + INA_MEM_ALIGN_N (8 + size) a <= p_end p ->
  exists st1 st2 ret st3 pos', store32 st (s_hdr s) 0 size = Some st1 /\
    ina_mempool_ralloc malloc_ok garbage st1 id (s_hdr s) (8 + s_cap s) (8 + size) = Some (st2, Ok ret) /\ load32 st2 ret 0 = Some size /\
    store32 st2 ret 0 (Z.lor size __INA_POOLED) = Some st3 /\ p_pos p <= pos' <= p_pos p + INA_MEM_ALIGN_N (8 + size) a /\
    pool_strings st3 id (with_pos p pos') a (<[i := PStr ret size (s_text s) (s_zero s)]> ss).
Proof.
  intros Hps Hs Hsize Hroom. destruct (ps_holds _ _ _ _ _ Hps i s Hs) as ([H1 H2 (rest & Hr & Hz)] & Hb & Hend). pose proof (ps_pool _ _ _ _ _ Hps) as Hfp.
  pose proof (fixed_power _ _ _ _ Hfp) as Ha. pose proof (align_cap (8 + size) a ltac:(lia) Ha) as Hal.
  destruct (write_sub st (s_hdr s) (8 + s_cap s) 0 _ (le32 size) Hr) as (st1 & Hw1 & Hst1); [lia|rewrite length_le32; lia|].
  rewrite length_le32 in Hst1. change (take _ (layout _ _ _) ++ _ ++ _) with (le32 size ++ le32 (Z.of_nat (length (s_text s))) ++ s_text s ++ rest) in Hst1.
  set (L1 := le32 size ++ _) in *. pose proof Hst1 as [Hpl1 Hsh1 Hr1 _].
  destruct (ralloc_fixed st1 id p a (s_hdr s) (8 + s_cap s) (8 + size)) as (st2 & ret & pos' & Hra & Hpl2 & Hsh2 & Hpos & Hbr & Hor & Hend' & Hr2 & Hplace & Hfr);
    [by apply (fixed_pool_shape st)|lia|lia|done|done|done|done|]. rewrite Hr1 in Hr2.
  destruct (same_shape_ok st st2 p) as (_ & Hps2 & b & Hblk & Hbl); [by apply (same_shape_trans _ st1)|by destruct Hfp|].
  destruct (mem_read_some st2 ret (8 + size) b) as (L2 & HL2 & Hlen2); [by rewrite Hbr|done|lia|lia|].
  pose proof (mem_read_prefix st2 ret (8 + size) (8 + s_cap s) L2 ltac:(lia) HL2) as Hpre. rewrite Hr2 in Hpre. injection Hpre as Hpre.
  rewrite <- (take_drop (Z.to_nat (8 + s_cap s)) L2), <- Hpre in HL2. set (tail := drop _ L2) in *.
  destruct (write_sub st2 ret (8 + size) 0 _ (le32 (Z.lor size __INA_POOLED)) HL2) as (st3 & Hw3 & Hst3); [lia|rewrite length_le32; lia|].
  rewrite length_le32, Z.lor_comm in Hst3. assert (layout size (s_text s) (rest ++ tail) = take (Z.to_nat 0) (L1 ++ tail) ++ le32 (Z.lor __INA_POOLED size) ++ drop (Z.to_nat 0 + 4) (L1 ++ tail)) as HL3.
  { subst L1. unfold layout. rewrite <- !app_assoc. done. }
  rewrite <- HL3 in Hst3. pose proof Hst3 as [Hpl3 Hsh3 Hr3 _].
  exists st1, st2, ret, st3, pos'. split; [done|]. split; [done|]. split.
  { unfold load32. rewrite (read_sub st2 ret (8 + size) 0 4 _ HL2) by lia. cbn [mbind option_bind]. f_equal. change (take _ _) with (le32 size). apply le_value_le32. lia. }
  split; [done|]. split; [exact Hpos|].
  apply (string_changed st st3 id p a pos' ss _ i (PStr ret size (s_text s) (s_zero s))); try done.
  - by rewrite Hpl3, Hpl2, Hpl1.
  - apply (same_shape_trans _ st2); [by apply (same_shape_trans _ st1)|done].
  - lia.
  - intros j x Hx. destruct (decide (j = i)) as [->|Hj]; [left|right; by rewrite list_lookup_insert_ne in Hx].
    rewrite list_lookup_insert_eq in Hx by (by eapply lookup_lt_Some). by injection Hx.
  - split; cbn; [done|lia|]. exists (rest ++ tail). split; [done|]. intros Hzero. specialize (Hz Hzero). by destruct rest.
  - intros j x Hj Hx. apply (moved_others st st1 st2 st3 id p a size ss i j s x ret L1 (layout size (s_text s) (rest ++ tail))); try done; lia.
Qed.

(** The room a string may need to grow to [n] characters. *)
Definition growth (n a : Z) : Z := 2 * n + 2 ^ 19 + 9 + a.
Definition grown (n : Z) : Z := (if n <? __INA_MAX_PREALLOC then n * 2 else n + __INA_MAX_PREALLOC) + 1.
Lemma grown_range (n : Z) : 0 <= n -> n < grown n <= 2 * n + 2 ^ 19 + 1.
Proof. intros Hn. unfold grown, __INA_MAX_PREALLOC. destruct (Z.ltb_spec n (512 * 1024)); lia. Qed.

Lemma ensure_spec (st : pmem) (id : Z) (p : pool) (a : Z) (ss : list pstr) (i : nat) (s : pstr) (n : Z) :
  pool_strings st id p a ss -> ss !! i = Some s -> 0 <= n -> Z.of_nat (length (s_text s)) + n <= 2 ^ 28 ->
  p_pos p + growth (Z.of_nat (length (s_text s)) + n) a <= p_end p ->
  exists st' h cap pos', __ina_ensure_size_pool malloc_ok garbage st id (s_hdr s) n = Some (st', h) /\
    p_pos p <= pos' <= p_pos p + growth (Z.of_nat (length (s_text s)) + n) a /\ Z.of_nat (length (s_text s)) + n < cap /\
    pool_strings st' id (with_pos p pos') a (<[i := PStr h cap (s_text s) (s_zero s)]> ss).
Proof.
  intros Hps Hs Hn Hlen Hroom. destruct (ps_holds _ _ _ _ _ Hps i s Hs) as ([H1 H2 (rest & Hr & Hz)] & Hb & Hend). pose proof (ps_pool _ _ _ _ _ Hps) as Hfp.
  pose proof (fixed_power _ _ _ _ Hfp) as Ha. set (l := Z.of_nat (length (s_text s))) in *. unfold __ina_ensure_size_pool.
  rewrite (layout_size st (s_hdr s) (s_cap s) (s_text s) rest) by (done || lia). cbn [mbind option_bind].
  destruct (pooled_bits (s_cap s)) as (_ & Hp1 & ->); [lia|]. rewrite (proj2 (Z.eqb_neq _ 0) Hp1).
  rewrite (layout_len st (s_hdr s) (s_cap s) (s_text s) rest) by (done || lia). cbn [mbind option_bind]. fold l.
  rewrite (wrap_small 64 (s_cap s - l - 1)) by (unfold in_width; lia). unfold growth in *. destruct (Z.ltb_spec n (s_cap s - l - 1)) as [Hfit|Hfit].
  - exists st, (s_hdr s), (s_cap s), (p_pos p). split; [done|]. split; [lia|]. split; [lia|]. replace (with_pos p (p_pos p)) with p by (by destruct p).
    replace (PStr (s_hdr s) (s_cap s) (s_text s) (s_zero s)) with s by (by destruct s). by rewrite list_insert_id.
  - rewrite (wrap_small 64 (l + n)) by (unfold in_width; lia).
    assert (u32 ((if l + n <? __INA_MAX_PREALLOC then (l + n) *₆₄ 2 else (l + n) +₆₄ __INA_MAX_PREALLOC) + 1) = grown (l + n)) as ->.
    { pose proof (grown_range (l + n)). unfold grown in *. unfold __INA_MAX_PREALLOC in *.
      destruct (Z.ltb_spec (l + n) (512 * 1024)); rewrite (wrap_small 64) by (unfold in_width; lia); rewrite wrap_small by (unfold in_width; lia); done. }
    pose proof (grown_range (l + n) ltac:(lia)) as Hg. set (size := grown (l + n)) in *.
    destruct (grow_spec st id p a size ss i s Hps Hs) as (st1 & st2 & ret & st3 & pos' & -> & Hra & Hld & Hst & Hpos & Hps'); [lia|pose proof (align_cap (8 + size) a); lia|].
    cbn [mbind option_bind]. unfold sizeof_hdr. rewrite Hra. cbn [mbind option_bind]. rewrite Hld. cbn [mbind option_bind]. rewrite Hst. cbn [mbind option_bind].
    exists st3, ret, size, pos'. split; [done|]. split; [pose proof (align_cap (8 + size) a); lia|]. split; [lia|done].
Qed.

(** ** Appending *)
Lemma stored_trans (st st1 st2 : pmem) (h : ptr) (N : Z) (L1 L2 : list Z) : stored st st1 h N L1 -> stored st1 st2 h N L2 -> stored st st2 h N L2.
Proof.
  intros [H1 H2 _ H3] [K1 K2 Kr K3]. split; [congruence|by apply (same_shape_trans _ st1)|done|]. intros q n Hq. by rewrite K3, H3.
Qed.
Lemma splice_middle {A} (l m r bs : list A) : length m = length bs -> take (length l) (l ++ m ++ r) ++ bs ++ drop (length l + length bs) (l ++ m ++ r) = l ++ bs ++ r.
Proof.
  intros Hm. rewrite take_app_length. do 2 f_equal. rewrite <- drop_drop, drop_app_length, <- Hm. apply drop_app_length.
Qed.
(** Writing [bs] over [m] at [k], somewhere in what can be read. *)
Lemma write_part (st : pmem) (h : ptr) (N k : Z) (l m r bs : list Z) :
  mem_read st h N = Some (l ++ m ++ r) -> Z.of_nat (length l) = k -> length m = length bs ->
  exists st', mem_write st (field h k) bs = Some st' /\ stored st st' h N (l ++ bs ++ r).
Proof.
  intros Hr Hk Hm. destruct (read_length _ _ _ _ Hr) as [HN HL]. rewrite !length_app in HL. destruct (write_sub st h N k _ bs Hr) as (st' & Hw & Hst); [lia|lia|].
  exists st'. split; [done|]. rewrite <- Hk, Nat2Z.id, splice_middle in Hst by done. done.
Qed.

(** A store into a string and its header leaves the pool and the others. *)
Lemma string_stored (st st' : pmem) (id : Z) (p : pool) (a : Z) (ss : list pstr) (i : nat) (s : pstr) (t rest : list Z) (z : bool) :
  pool_strings st id p a ss -> ss !! i = Some s -> Z.of_nat (length t) < s_cap s -> (z = true -> head rest = Some 0) ->
  stored st st' (s_hdr s) (8 + s_cap s) (layout (s_cap s) t rest) -> pool_strings st' id p a (<[i := PStr (s_hdr s) (s_cap s) t z]> ss).
Proof.
  intros Hps Hs Hlen Hz Hst. pose proof Hst as [Hpl Hsh Hr _]. destruct (ps_holds _ _ _ _ _ Hps i s Hs) as ([H1 H2 _] & Hb & Hend). pose proof (ps_pool _ _ _ _ _ Hps) as Hfp.
  replace p with (with_pos p (p_pos p)) by (by destruct p). destruct (fp_ok _ _ _ _ Hfp) as (? & _).
  apply (string_changed st st' id p a (p_pos p) ss _ i (PStr (s_hdr s) (s_cap s) t z)); try done.
  - rewrite Hpl. replace (with_pos p (p_pos p)) with p by (by destruct p). symmetry. apply insert_id. apply Hfp.
  - lia.
  - intros j x Hx. destruct (decide (j = i)) as [->|Hj]; [left|right; by rewrite list_lookup_insert_ne in Hx].
    rewrite list_lookup_insert_eq in Hx by (by eapply lookup_lt_Some). by injection Hx.
  - split; cbn; [done|lia|]. by exists rest.
  - intros j x Hj Hx. split; [exact (ps_disjoint _ _ _ _ _ Hps i j s x Hs Hx (not_eq_sym Hj))|]. intros n Hn.
    exact (stored_others st st' id p a ss i j s x (8 + s_cap s) n _ Hps Hs Hx (not_eq_sym Hj) (Z.le_refl _) Hst Hn).
Qed.

Lemma cat_spec (st : pmem) (id : Z) (p : pool) (a : Z) (ss : list pstr) (i : nat) (s : pstr) (src : list Z) (n : Z) :
  pool_strings st id p a ss -> ss !! i = Some s -> 0 <= n <= Z.of_nat (length src) -> Z.of_nat (length (s_text s)) + n <= 2 ^ 28 ->
  p_pos p + growth (Z.of_nat (length (s_text s)) + n) a <= p_end p ->
  exists st' h cap pos', cat_pool st (s_hdr s) (Some src) n id = Some (st', h) /\
    p_pos p <= pos' <= p_pos p + growth (Z.of_nat (length (s_text s)) + n) a /\
    pool_strings st' id (with_pos p pos') a (<[i := PStr h cap (s_text s ++ take (Z.to_nat n) src) true]> ss).
Proof.
  intros Hps Hs Hn Hlen Hroom. unfold ina_str_ncat_using_pool.
  destruct (ensure_spec st id p a ss i s n Hps Hs ltac:(lia) Hlen Hroom) as (st1 & h & cap & pos' & -> & Hpos & Hcap & Hps1). cbn [mbind option_bind].
  set (s1 := PStr h cap (s_text s) (s_zero s)) in *. assert ((<[i:=s1]> ss) !! i = Some s1) as Hs1 by (apply list_lookup_insert_eq; by eapply lookup_lt_Some).
  destruct (ps_holds _ _ _ _ _ Hps1 i s1 Hs1) as ([_ H2 (rest & Hr & _)] & _ & _). cbn [s_hdr s_cap s_text s1] in H2, Hr.
  rewrite read_at_some by lia. rewrite drop_0. cbn [mbind option_bind]. set (bs := take (Z.to_nat n) src). assert (Z.of_nat (length bs) = n) as Hbs by (subst bs; rewrite length_take; lia).
  rewrite (layout_len st1 h cap (s_text s) rest) by (done || lia). cbn [mbind option_bind]. rewrite wrap_small by (unfold in_width; lia).
  destruct (read_length _ _ _ _ Hr) as [_ HL]. rewrite length_layout in HL.
  assert (exists m x r, rest = m ++ x :: r /\ length m = length bs) as (m & x & r & -> & Hm).
  { exists (take (length bs) rest). destruct (drop (length bs) rest) as [|x r] eqn:Hd; [apply (f_equal length) in Hd; rewrite length_drop in Hd; cbn in Hd; lia|].
    exists x, r. split; [by rewrite <- Hd, take_drop|]. rewrite length_take. lia. }
  set (A := le32 (Z.lor __INA_POOLED cap)) in *. assert (length A = 4%nat) as HA by apply length_le32.
  unfold layout in Hr. fold A in Hr. rewrite !(assoc_L (++)) in Hr. rewrite <- (assoc_L (++) _ m) in Hr.
  destruct (write_part st1 h _ (8 + Z.of_nat (length (s_text s))) _ m (x :: r) bs Hr) as (st2 & -> & Hst2); [rewrite !length_app, HA, length_le32; lia|done|]. cbn [mbind option_bind].
  pose proof (sd_read _ _ _ _ _ Hst2) as Hr2. rewrite <- !(assoc_L (++)) in Hr2.
  destruct (write_part st2 h _ 4 A _ (s_text s ++ bs ++ x :: r) (le32 (Z.of_nat (length (s_text s)) + n)) Hr2) as (st3 & Hw3 & Hst3); [by rewrite HA|by rewrite !length_le32|].
  unfold store32. rewrite Hw3. cbn [mbind option_bind].
  pose proof (sd_read _ _ _ _ _ Hst3) as Hr3. change (x :: r) with ([x] ++ r) in Hr3. rewrite !(assoc_L (++)) in Hr3. rewrite <- (assoc_L (++) _ [x]) in Hr3.
  destruct (write_part st3 h _ (8 + (Z.of_nat (length (s_text s)) + n)) _ [x] r [0] Hr3) as (st4 & -> & Hst4); [rewrite !length_app, HA, length_le32; lia|done|]. cbn [mbind option_bind].
  exists st4, h, cap, pos'. split; [done|]. split; [done|]. rewrite <- (list_insert_insert_eq ss i (PStr h cap (s_text s ++ bs) true) s1).
  apply (string_stored st1 st4 id (with_pos p pos') a _ i s1 (s_text s ++ bs) (0 :: r) true); [done|done|rewrite length_app; cbn; lia|done|].
  apply (stored_trans st1 st3 st4 h _ _ _ (stored_trans _ _ _ _ _ _ _ Hst2 Hst3)). cbn [s_hdr s_cap s1]. unfold layout. fold A. rewrite length_app, Nat2Z.inj_add, Hbs.
  rewrite <- !(assoc_L (++)) in Hst4. rewrite <- !(assoc_L (++)). exact Hst4.
Qed.

(** ** New strings *)
Lemma dalloc_fixed (st : pmem) (id : Z) (p : pool) (a n : Z) :
  fixed_pool st id p a -> 0 <= n <= 2 ^ 31 -> p_pos p + INA_MEM_ALIGN_N n a <= p_end p ->
  exists st', ina_mempool_dalloc malloc_ok garbage st id n = Some (st', Ok (Ptr (p_m p) (p_pos p))) /\
    pools st' = <[id := with_pos p (p_pos p + INA_MEM_ALIGN_N n a)]> (pools st) /\ blocks st' = blocks st.
Proof.
  intros Hfp Hn Hroom. pose proof (fixed_power _ _ _ _ Hfp) as Ha. pose proof (align_cap n a ltac:(lia) Ha) as Hal. destruct Hfp as [Hp ((H1 & H2) & H3 & _) Hfix Hcur Halign _].
  unfold ina_mempool_dalloc, ina_mempool_get_alignment, get. rewrite Hp. cbn [fmap option_fmap option_map mbind option_bind]. rewrite Halign.
  unfold ina_mempool_dalloc_aligned. rewrite (proj2 (Z.ltb_lt 0 a)) by lia. cbn [negb]. unfold chain_fuel. cbn [dalloc_retry]. unfold get. rewrite Hp. cbn [mbind option_bind].
  rewrite Hcur, Hp. cbn [mbind option_bind]. unfold does_not_fit. rewrite (wrap_small 64) by (unfold in_width; lia).
  rewrite (proj2 (Z.ltb_ge (p_end p) _)), (proj2 (Z.ltb_ge _ (p_pos p))) by lia. cbn [orb mbind option_bind]. unfold take_bottom, get. rewrite Hp. cbn [mbind option_bind].
  rewrite Hcur, Hp. cbn [mbind option_bind]. rewrite (upd_eq st id _ p Hp). cbn [mbind option_bind]. rewrite (wrap_small 64) by (unfold in_width; lia). by eexists.
Qed.

Lemma pooled_new_spec (st : pmem) (id : Z) (p : pool) (a : Z) (ss : list pstr) (len : Z) :
  pool_strings st id p a ss -> 0 <= len <= 2 ^ 28 -> p_pos p + growth len a <= p_end p ->
  exists st' h pos', new_pool_str st len (Some id) = Some (st', Some h) /\ p_pos p <= pos' <= p_pos p + growth len a /\
    pool_strings st' id (with_pos p pos') a (ss ++ [PStr h (len + 1) [] true]).
Proof.
  intros Hps Hlen Hroom. pose proof (ps_pool _ _ _ _ _ Hps) as Hfp. pose proof (fixed_power _ _ _ _ Hfp) as Ha. unfold growth in *.
  pose proof (align_cap (len + 9) a ltac:(lia) Ha) as Hal. unfold ina_str_new_using_pool, sizeof_hdr. rewrite (wrap_small 64 (len + 1 + 8)) by (unfold in_width; lia).
  replace (len + 1 + 8) with (len + 9) by lia. destruct (dalloc_fixed st id p a (len + 9) Hfp) as (st1 & -> & Hpl & Hbl); [lia|lia|]. cbn [mbind option_bind].
  set (h := Ptr (p_m p) (p_pos p)). set (pos' := p_pos p + INA_MEM_ALIGN_N (len + 9) a) in *. destruct (fp_ok _ _ _ _ Hfp) as ((K1 & K2) & K3 & b & Hblk & Hbln).
  destruct (mem_read_some st1 h (len + 9) b) as (L & HL & HLl); [by rewrite Hbl|cbn; lia|lia|cbn; lia|].
  assert (exists l1 l2 x r, L = l1 ++ l2 ++ [x] ++ r /\ length l1 = 4%nat /\ length l2 = 4%nat) as (l1 & l2 & x & r & -> & Hl1 & Hl2).
  { do 9 (destruct L as [|? L]; [cbn in HLl; lia|]). by exists [z; z0; z1; z2], [z3; z4; z5; z6], z7, L. }
  rewrite (wrap_small 64 (len + 1)), (wrap_small 32) by (apply pooled_bits || (unfold in_width; lia); lia). unfold store32.
  destruct (write_part st1 h (len + 9) 0 [] l1 _ (le32 (Z.lor __INA_POOLED (len + 1))) HL) as (st2 & -> & Hst2); [done|by rewrite length_le32|]. cbn [mbind option_bind].
  pose proof (sd_read _ _ _ _ _ Hst2) as Hr2. cbn [app] in Hr2.
  destruct (write_part st2 h (len + 9) 4 (le32 (Z.lor __INA_POOLED (len + 1))) l2 _ (le32 0) Hr2) as (st3 & -> & Hst3); [by rewrite length_le32|by rewrite length_le32|]. cbn [mbind option_bind].
  pose proof (sd_read _ _ _ _ _ Hst3) as Hr3. rewrite (assoc_L (++)) in Hr3.
  destruct (write_part st3 h (len + 9) 8 _ [x] r [0] Hr3) as (st4 & -> & Hst4); [by rewrite length_app, !length_le32|done|]. cbn [mbind option_bind].
  pose proof (stored_trans _ _ _ _ _ _ _ (stored_trans _ _ _ _ _ _ _ Hst2 Hst3) Hst4) as [Hpl' Hsh' Hr' Ho'].
  exists st4, h, pos'. split; [done|]. split; [lia|]. apply (string_changed st st4 id p a pos' ss _ (length ss) (PStr h (len + 1) [] true)); try done.
  - by rewrite Hpl', Hpl.
  - intros i. rewrite Hsh', Hbl. done.
  - lia.
  - intros j y Hy. destruct (decide (j = length ss)) as [->|Hj]; [left|right]; [rewrite list_lookup_middle in Hy by done; by injection Hy|].
    split; [done|]. apply lookup_app_Some in Hy as [Hy|[Hge Hy]]; [done|]. apply list_lookup_singleton_Some in Hy as [? _]; lia.
  - split; cbn; [lia|lia|]. exists (0 :: r). split; [|done]. replace (8 + (len + 1)) with (len + 9) by lia. rewrite Hr'. unfold layout. by rewrite <- (assoc_L (++)).
  - cbn [s_hdr s_cap]. replace (8 + (len + 1)) with (len + 9) by lia. cbn. lia.
  - intros j y Hj Hy. destruct (ps_holds _ _ _ _ _ Hps j y Hy) as ([Y1 Y2 _] & Yb & Ye). pose proof (align_cap (8 + s_cap y) a ltac:(lia) Ha).
    split; [right; right; cbn; lia|]. intros n Hn. rewrite Ho' by (cbn; lia). by apply mem_read_pools.
Qed.

Lemma pooled_fill_spec (st : pmem) (id : Z) (p : pool) (a : Z) (ss : list pstr) (i : nat) (h : ptr) (blk : list Z) (len : Z) :
  pool_strings st id p a ss -> ss !! i = Some (PStr h (len + 1) [] true) -> 0 <= len <= 2 ^ 28 -> len <= Z.of_nat (length blk) ->
  exists st', fill st h blk len = Some (st', Some h) /\ pool_strings st' id p a (<[i := PStr h (len + 1) (take (Z.to_nat len) blk) false]> ss).
Proof.
  intros Hps Hs Hlen Hblk. destruct (ps_holds _ _ _ _ _ Hps i _ Hs) as ([_ H2 (rest & Hr & _)] & _ & _). cbn [s_hdr s_cap s_text] in *.
  unfold fill. rewrite read_at_some by lia. rewrite drop_0. cbn [mbind option_bind]. set (bs := take (Z.to_nat len) blk). assert (Z.of_nat (length bs) = len) as Hbs by (subst bs; rewrite length_take; lia).
  destruct (read_length _ _ _ _ Hr) as [_ HL]. rewrite length_layout in HL. cbn [length] in HL. set (A := le32 (Z.lor __INA_POOLED (len + 1))) in *.
  assert (mem_read st h (8 + (len + 1)) = Some ((A ++ le32 0) ++ take (length bs) rest ++ drop (length bs) rest)) as Hr1 by (rewrite Hr, take_drop; unfold layout; by rewrite <- (assoc_L (++))).
  destruct (write_part st h _ 8 _ _ _ bs Hr1) as (st1 & -> & Hst1); [rewrite length_app; subst A; by rewrite !length_le32|rewrite length_take; lia|]. cbn [mbind option_bind].
  pose proof (sd_read _ _ _ _ _ Hst1) as Hr2. rewrite <- (assoc_L (++)) in Hr2. rewrite wrap_small by (unfold in_width; lia). unfold store32.
  destruct (write_part st1 h _ 4 A (le32 0) (bs ++ drop (length bs) rest) (le32 len) Hr2) as (st2 & -> & Hst2); [subst A; by rewrite length_le32|by rewrite !length_le32|]. cbn [mbind option_bind].
  exists st2. split; [done|]. apply (string_stored st st2 id p a ss i (PStr h (len + 1) [] true) bs (drop (length bs) rest) false); try done; [cbn; lia|].
  pose proof (stored_trans _ _ _ _ _ _ _ Hst1 Hst2) as Hst. cbn [s_hdr s_cap]. unfold layout. fold A. by rewrite Hbs.
Qed.

(** ** A program that works with strings in a pool *)
Inductive pool_op := New (capacity : Z) | From (t : list Z) | Cat (i : nat) (t : list Z).

(** The strings of the program are the pointers it was given, in order. *)
Definition pool_step (id : Z) (st : pmem) (hs : list ptr) (o : pool_op) : option (pmem * list ptr) :=
  match o with
  | New c => '(st, h) ← new_pool_str st c (Some id); h ← h; Some (st, hs ++ [h])
  | From t => '(st, h) ← ina_str_new_fromblk_using_pool malloc_ok garbage st (Some t) (Z.of_nat (length t)) (Some id); h ← h; Some (st, hs ++ [h])
  | Cat i t => h ← hs !! i; '(st, h) ← cat_pool st h (Some t) (Z.of_nat (length t)) id; Some (st, <[i := h]> hs)
  end.
Fixpoint pool_run (id : Z) (st : pmem) (hs : list ptr) (ops : list pool_op) : option (pmem * list ptr) :=
  match ops with
  | [] => Some (st, hs)
  | o :: ops => '(st, hs) ← pool_step id st hs o; pool_run id st hs ops
  end.

(** The texts that it means, with whether they end in a zero byte. *)
Definition text_step (ts : list (list Z * bool)) (o : pool_op) : option (list (list Z * bool)) :=
  match o with
  | New c => Some (ts ++ [([], true)])
  | From t => Some (ts ++ [(t, false)])
  | Cat i t => '(u, _) ← ts !! i; Some (<[i := (u ++ t, true)]> ts)
  end.
Fixpoint text_run (ts : list (list Z * bool)) (ops : list pool_op) : option (list (list Z * bool)) :=
  match ops with
  | [] => Some ts
  | o :: ops => ts ← text_step ts o; text_run ts ops
  end.
Definition op_size (o : pool_op) : Z := match o with New c => c | From t | Cat _ t => Z.of_nat (length t) end.
Definition total (ops : list pool_op) : Z := fold_right (fun o n => op_size o + n) 0 ops.

Definition views (ss : list pstr) : list (list Z * bool) := map (fun s => (s_text s, s_zero s)) ss.
Lemma total_nonneg (ops : list pool_op) : Forall (fun o => 0 <= op_size o) ops -> 0 <= total ops.
Proof. induction 1 as [|o ops Ho _ IH]; [done|]. unfold total in *. cbn. lia. Qed.

(** One operation, for texts that all have at most [n] characters in the end. *)
Lemma pool_step_spec (st : pmem) (id : Z) (p : pool) (a n : Z) (ss : list pstr) (o : pool_op) (ts : list (list Z * bool)) :
  pool_strings st id p a ss -> text_step (views ss) o = Some ts -> 0 <= op_size o -> n <= 2 ^ 28 ->
  Forall (fun s => Z.of_nat (length (s_text s)) + op_size o <= n) ss -> op_size o <= n -> p_pos p + growth n a <= p_end p ->
  exists st' pos' ss', pool_step id st (map s_hdr ss) o = Some (st', map s_hdr ss') /\ p_pos p <= pos' <= p_pos p + growth n a /\
    pool_strings st' id (with_pos p pos') a ss' /\ views ss' = ts /\ Forall (fun s => Z.of_nat (length (s_text s)) <= n) ss'.
Proof.
  intros Hps Hts Ho Hn Hss Hon Hroom. assert (Forall (fun s => Z.of_nat (length (s_text s)) <= n) ss) as Hall by (eapply Forall_impl; [exact Hss|]; intros s Hs; cbn in Hs; lia).
  destruct o as [c|t|i t]; cbn [op_size text_step pool_step] in *.
  - injection Hts as <-. destruct (pooled_new_spec st id p a ss c Hps) as (st' & h & pos' & -> & Hpos & Hps'); [lia|unfold growth in *; lia|]. cbn [mbind option_bind].
    exists st', pos', (ss ++ [PStr h (c + 1) [] true]). unfold views. rewrite !map_app. split; [done|]. split; [unfold growth in *; lia|]. split; [done|]. split; [done|].
    apply Forall_app_2; [done|]. apply Forall_cons_2; [cbn; lia|apply Forall_nil_2].
  - injection Hts as <-. unfold ina_str_new_fromblk_using_pool. destruct (pooled_new_spec st id p a ss (Z.of_nat (length t)) Hps) as (st1 & h & pos' & -> & Hpos & Hps1); [lia|unfold growth in *; lia|].
    cbn [mbind option_bind]. destruct (pooled_fill_spec st1 id _ a _ (length ss) h t (Z.of_nat (length t)) Hps1) as (st' & -> & Hps'); [by rewrite list_lookup_middle|lia|lia|].
    cbn [mbind option_bind]. rewrite Nat2Z.id, firstn_all, insert_app_r_alt, Nat.sub_diag in Hps' by lia. cbn in Hps'.
    exists st', pos', (ss ++ [PStr h (Z.of_nat (length t) + 1) t false]). unfold views. rewrite !map_app. split; [done|]. split; [unfold growth in *; lia|]. split; [done|]. split; [done|].
    apply Forall_app_2; [done|]. apply Forall_cons_2; [cbn; lia|apply Forall_nil_2].
  - unfold views in Hts. rewrite list_lookup_fmap in Hts. destruct (ss !! i) as [s|] eqn:Hs; [|done]. cbn in Hts. injection Hts as <-.
    pose proof (Forall_lookup_1 _ _ _ _ Hss Hs) as Hs'. cbn in Hs'. rewrite list_lookup_fmap, Hs. cbn [fmap option_fmap option_map mbind option_bind].
    destruct (cat_spec st id p a ss i s t (Z.of_nat (length t)) Hps Hs) as (st' & h & cap & pos' & -> & Hpos & Hps'); [lia|lia|unfold growth in *; lia|]. cbn [mbind option_bind].
    rewrite Nat2Z.id, firstn_all in Hps'. exists st', pos', (<[i := PStr h cap (s_text s ++ t) true]> ss). unfold views. rewrite !list_fmap_insert.
    split; [done|]. split; [unfold growth in *; lia|]. split; [done|]. split; [done|]. apply Forall_insert; [done|]. cbn. rewrite length_app. lia.
Qed.

Lemma pool_run_spec (ops : list pool_op) (st : pmem) (id : Z) (p : pool) (a n used : Z) (ss : list pstr) (ts : list (list Z * bool)) :
  pool_strings st id p a ss -> text_run (views ss) ops = Some ts -> Forall (fun o => 0 <= op_size o) ops -> n <= 2 ^ 28 ->
  Forall (fun s => Z.of_nat (length (s_text s)) <= used) ss -> 0 <= used -> used + total ops <= n -> p_pos p + Z.of_nat (length ops) * growth n a <= p_end p ->
  exists st' p' ss', pool_run id st (map s_hdr ss) ops = Some (st', map s_hdr ss') /\ pool_strings st' id p' a ss' /\ views ss' = ts.
Proof.
  revert st p used ss. induction ops as [|o ops IH]; intros st p used ss Hps Hts Hops Hn Hss Hu Htot Hroom.
  - injection Hts as <-. exists st, p, ss. done.
  - cbn [text_run] in Hts. destruct (text_step (views ss) o) as [ts1|] eqn:Ht; [|done]. cbn [mbind option_bind] in Hts. apply Forall_cons in Hops as [Ho Hops].
    unfold total in Htot. cbn [fold_right length] in *. fold (total ops) in Htot. pose proof (total_nonneg ops Hops). pose proof (fixed_power _ _ _ _ (ps_pool _ _ _ _ _ Hps)).
    assert (growth (used + op_size o) a <= growth n a /\ 0 <= growth n a) as [Hg Hg0] by (unfold growth; lia).
    destruct (pool_step_spec st id p a (used + op_size o) ss o ts1 Hps Ht Ho) as (st1 & pos1 & ss1 & Hst & Hpos & Hps1 & <- & Hss1);
      [lia|eapply Forall_impl; [exact Hss|]; intros s Hs; cbn in *; lia|lia|nia|].
    destruct (IH st1 (with_pos p pos1) (used + op_size o) ss1 Hps1 Hts Hops Hn Hss1) as (st' & p' & ss' & Hrun & Hps' & Hv); [lia|lia|cbn; nia|].
    exists st', p', ss'. split; [|done]. cbn [pool_run]. rewrite Hst. exact Hrun.
Qed.
End Fixed.

(** C26. A program makes strings in a pool that is not dynamic, from blocks or empty with a
    capacity, and appends to them, in any order.  If the pool has room for the
    growth of each operation, nothing fails; in the end each string has exactly the text
    that the operations mean, wherever growing has moved it, with a header that tells its
    length, and the strings do not overlap.  A string ends with a zero byte if it was made
    empty or appended to, but not if it was made from a block. *)
Theorem pooled_strings_hold_text (malloc_ok : Z -> bool) (garbage : Z -> list Z) (st : pmem) (id : Z) (p : pool) (a : Z) (ops : list pool_op) (ts : list (list Z * bool)) :
  fixed_pool st id p a -> Forall (fun o => 0 <= op_size o) ops -> total ops <= 2 ^ 28 -> text_run [] ops = Some ts ->
  p_pos p + Z.of_nat (length ops) * growth (total ops) a <= p_end p ->
  exists st' p' ss, pool_run malloc_ok garbage id st [] ops = Some (st', map s_hdr ss) /\ pool_strings st' id p' a ss /\ map (fun s => (s_text s, s_zero s)) ss = ts.
Proof.
  intros Hp Hops Htot Hts Hroom. apply (pool_run_spec malloc_ok garbage ops st id p a (total ops) 0 []); try done; lia.
Qed.

(** A pool of two megabytes. *)
Definition big_pool : pool := Pool INA_MEM_FIXED 2097152 0 2097152 16 2 None 1 0 0.
Definition big_mem : pmem := PMem {[1 := big_pool]} {[2 := repeat 7 (Z.to_nat 2097152)]} 3.
Lemma pooled_strings_hold_text_witness :
  exists st' p' ss, pool_run (fun _ => true) (fun _ => []) 1 big_mem [] [From [104; 105]; New 0; Cat 0 [33]] = Some (st', map s_hdr ss) /\
    pool_strings st' 1 p' 16 ss /\ map (fun s => (s_text s, s_zero s)) ss = [([104; 105; 33], true); ([], true)].
Proof.
  apply (pooled_strings_hold_text (fun _ => true) (fun _ => []) big_mem 1 big_pool 16 [From [104; 105]; New 0; Cat 0 [33]]).
  - split; [done| |done|done|done|exists 4; lia]. split; [cbn; lia|]. split; [cbn; lia|]. exists (repeat 7 (Z.to_nat 2097152)). split; [done|]. rewrite repeat_length, Z2Nat.id by lia. done.
  - repeat (apply Forall_cons_2; [cbn; lia|]). apply Forall_nil_2.
  - cbn. lia.
  - done.
  - vm_compute. discriminate.
Defined.

(** ** Where the pooled variants differ *)

(** In a pool that is used again a string from a block runs on into the old bytes: those of its text and
    six more up to a zero byte. *)
Definition used_mem : pmem := PMem {[1 := Pool INA_MEM_FIXED 64 0 64 16 2 None 1 0 0]} {[2 := repeat 97 16 ++ repeat 0 48]} 3.
Lemma block_string_runs_on :
  ('(st, h) ← ina_str_new_fromblk_using_pool (fun _ => true) (fun _ => []) used_mem (Some [104; 105]) 2 (Some 1); h ← h; bs ← mem_read st (field h 8) 56; strlen bs) = Some 8.
Proof. vm_compute. reflexivity. Qed.
(** When the pool is full a new string is the null pointer, but appending follows it. *)
Lemma full_pool :
  ('(_, h) ← ina_str_new_using_pool (fun _ => true) (fun _ => []) used_mem 60 (Some 1); Some h) = Some None /\
  ('(st, h) ← ina_str_new_using_pool (fun _ => true) (fun _ => []) used_mem 4 (Some 1); h ← h;
    ina_str_ncat_using_pool (fun _ => true) (fun _ => []) st h (Some (repeat 97 30)) 30 1) = None.
Proof. split; vm_compute; reflexivity. Qed.
(** The part of a C string can be appended with a pool only, and a C string with more room than its length
    without a pool only. *)
Lemma assertions_differ (malloc_ok : Z -> bool) (garbage : Z -> list Z) (st : pmem) (h : ptr) (d : str) (n pool : Z) (t : list Z) (l : Z) :
  strlen t = Some l -> (l < n -> ina_str_ncatcstr_using_pool malloc_ok garbage st h (Some t) n pool = None) /\
  (n < l -> ina_str_ncatcstr malloc_ok garbage d (Some t) n = None).
Proof.
  intros Hl. unfold ina_str_ncatcstr_using_pool, ina_str_ncatcstr. cbn [mbind option_bind]. rewrite Hl. cbn [mbind option_bind]. split; intros Hn.
  - by rewrite (proj2 (Z.leb_gt n l)).
  - by rewrite (proj2 (Z.leb_gt l n)).
Qed.

(** ** Formatted strings *)

Lemma vsnprintf_writes (data t : list Z) (len : Z) :
  0 < len <= Z.of_nat (length data) ->
  __ina_vsnprintf data len t = Some (take (Z.to_nat (len - 1)) t ++ [0] ++ drop (S (length (take (Z.to_nat (len - 1)) t))) data, Z.of_nat (length t)).
Proof.
  intros Hl. unfold __ina_vsnprintf. rewrite write_at_some by (rewrite ?length_app, ?length_take; cbn; lia). cbn [mbind option_bind take app].
  rewrite length_app, Nat.add_1_r. by rewrite <- (assoc_L (++)).
Qed.
(** A string that has room for [len] bytes takes the text, or another one takes its place. *)
Lemma vsnprintf_is_text (malloc_ok : Z -> bool) (garbage : Z -> list Z) (s : str) (len : Z) (t : list Z) :
  (forall n, malloc_ok n = true) -> 0 < len <= s_size s -> s_size s <= Z.of_nat (length (s_data s)) -> Z.of_nat (length t) < 2 ^ 30 ->
  exists s', ina_str_vsnprintf malloc_ok garbage s len t = Some (s', Z.of_nat (length t)) /\
    s_len s' = Z.of_nat (length t) /\ take (S (length t)) (s_data s') = t ++ [0].
Proof.
  intros Hm Hlen Hdata Ht. unfold ina_str_vsnprintf. rewrite (proj2 (Z.leb_gt len 0)), (proj2 (Z.ltb_ge _ len)) by lia. cbn [orb].
  assert (forall d, take (S (length t)) (t ++ 0 :: d) = t ++ [0]) as Htake.
  { intros d. change (0 :: d) with ([0] ++ d). rewrite (assoc_L (++)). apply take_app_length'. rewrite length_app. cbn. lia. }
  rewrite vsnprintf_writes by lia. cbn [mbind option_bind s_size s_len s_data]. destruct (Z.leb_spec len (Z.of_nat (length t))) as [Hle|Hlt].
  - destruct (Str.new_spec malloc_ok garbage Hm (Z.of_nat (length t)) ltac:(lia)) as (e & -> & [_ _ He _] & Hsz & _). cbn [mbind option_bind].
    rewrite vsnprintf_writes by lia. cbn [mbind option_bind]. replace (Z.of_nat (length t) + 1 - 1) with (Z.of_nat (length t)) by lia. rewrite Nat2Z.id, firstn_all.
    rewrite (proj2 (Z.leb_le 0 _)) by lia. cbn [s_size s_data]. eexists. split; [reflexivity|]. cbn [s_len s_data]. rewrite wrap_small by (unfold in_width; lia).
    split; [done|]. apply Htake.
  - cbn [mbind option_bind]. rewrite (proj2 (Z.leb_le 0 _)) by lia. cbn [s_size s_data]. eexists. split; [reflexivity|]. cbn [s_len s_data]. rewrite wrap_small by (unfold in_width; lia).
    split; [done|]. rewrite (take_ge t) by lia. apply Htake.
Qed.
(** The string is what was formatted, for a text of any length; but an empty one gives the
    null pointer. *)
Lemma sprintf_is_text (malloc_ok : Z -> bool) (garbage : Z -> list Z) (t : list Z) :
  (forall n, malloc_ok n = true) -> Z.of_nat (length t) < 2 ^ 30 ->
  exists s, ina_str_sprintf malloc_ok garbage t = Some s /\
    match s with
    | Some s => t <> [] /\ s_len s = Z.of_nat (length t) /\ take (S (length t)) (s_data s) = t ++ [0]
    | None => t = []
    end.
Proof.
  intros Hm Ht. unfold ina_str_sprintf. destruct (Str.new_spec malloc_ok garbage Hm 128 ltac:(lia)) as (s & -> & [_ _ Hd _] & Hsz & _). cbn [mbind option_bind].
  destruct (vsnprintf_is_text malloc_ok garbage s 128 t Hm) as (s' & -> & Hlen & Htxt); [lia|lia|done|]. cbn [mbind option_bind].
  eexists. split; [reflexivity|]. destruct t as [|c t]; [done|]. rewrite (proj2 (Z.leb_gt _ 0)) by (cbn; lia). done.
Qed.


End StrPool.
