(* ===== verification/Wildcard.v ===== *)
(** * Wildcard matching (string.c: ina_str_wildcard_match)

    The matcher walks over the text and the pattern with two pointers and
    keeps a pair of bookmarks behind the last star.  The pointers are
    positions in the memory of the two strings, one turn of the loop is a
    step, and a load outside the memory is a bad access. *)
From Stdlib Require Import ZArith Lia Bool.
From stdpp Require Import base numbers option strings list.
From S2P Require Import Prelude Error Str.
Import Error.

Module Wildcard.
Import Str.
Local Open Scope inac_scope.

Definition star : Z := 42.
Definition any : Z := 63.

Definition NO_MATCH : result unit := Err (Z.lor (INA_ES S_TEXT) INA_ERR_NOT_MATCH).

(** ** The matcher *)

(** [pTameText], [pWildText] and the bookmarks, which are set together:
    [pWildBookmark] and [pTameBookmark]. *)
Record wstate := WS { ws_tame : Z; ws_wild : Z; ws_bookmark : option (Z * Z) }.

(** The position of the first character at or after [p] that is not a
    star, in the memory [m] from [p]. *)
Fixpoint skip_stars (m : list Z) (p : Z) : option Z :=
  match m with
  | [] => None
  | c :: m => if c =? star then skip_stars m (p + 1) else Some p
  end.

(** The position of the first [c] at or after [p] in the memory [m] from
    [p]; an inner [None] is the end of the text. *)
Fixpoint fast_forward (m : list Z) (p c : Z) : option (option Z) :=
  match m with
  | [] => None
  | x :: m =>
      if x =? c then Some (Some p) else
      match m with
      | [] => None
      | y :: _ => if y =? 0 then Some None else fast_forward m (p + 1) c
      end
  end.

(** The end of the loop body: both pointers move on, and the end of the text
    decides. *)
Definition advance (tame wild : list Z) (st : wstate) : option (wstate + result unit) :=
  let tp := ws_tame st + 1 in
  let wp := ws_wild st + 1 in
  t ← at_ tame tp;
  if t =? 0 then
    wp ← skip_stars (drop (Z.to_nat wp) wild) wp;
    w ← at_ wild wp;
    Some (inr (if w =? 0 then Ok tt else NO_MATCH))
  else Some (inl (WS tp wp (ws_bookmark st))).

Definition match_step (tame wild : list Z) (st : wstate) : option (wstate + result unit) :=
  w ← at_ wild (ws_wild st);
  if w =? star then
    wp ← skip_stars (drop (Z.to_nat (ws_wild st + 1)) wild) (ws_wild st + 1);
    w ← at_ wild wp;
    if w =? 0 then Some (inr (Ok tt)) else
    r ← (if w =? any then Some (Some (ws_tame st))
         else fast_forward (drop (Z.to_nat (ws_tame st)) tame) (ws_tame st) w);
    match r with
    | None => Some (inr NO_MATCH)
    | Some tp => advance tame wild (WS tp wp (Some (wp, tp)))
    end
  else
    t ← at_ tame (ws_tame st);
    if negb (t =? w) && negb (w =? any) then
      match ws_bookmark st with
      | None => Some (inr NO_MATCH)
      | Some (wb, tb) =>
          if negb (ws_wild st =? wb) then
            w ← at_ wild wb;
            if negb (t =? w) then Some (inl (WS (tb + 1) wb (Some (wb, tb + 1))))
            else if negb (t =? 0) then Some (inl (WS (ws_tame st + 1) (wb + 1) (ws_bookmark st)))
            else Some (inr NO_MATCH)
          else if negb (t =? 0) then Some (inl (WS (ws_tame st + 1) (ws_wild st) (ws_bookmark st)))
          else Some (inr NO_MATCH)
      end
    else advance tame wild st.

Inductive outcome :=
  | Answer (r : result unit)
  | BadAccess
  | NoFuel.

Fixpoint match_loop (fuel : nat) (tame wild : list Z) (st : wstate) : outcome :=
  match fuel with
  | O => NoFuel
  | S fuel =>
      match match_step tame wild st with
      | None => BadAccess
      | Some (inr r) => Answer r
      | Some (inl st) => match_loop fuel tame wild st
      end
  end.

(** Turns of the loop that are enough, see [match_terminates]. *)
Definition match_fuel (tame wild : list Z) : nat :=
  let t := S (length tame) in S (((S (length wild)) * t + t) * t + t).

Definition ina_str_wildcard_match (tame wild : list Z) : outcome :=
  match_loop (match_fuel tame wild) tame wild (WS 0 0 None).

(** ** Patterns *)

(** [w] matches [t]: a star stands for any characters, a question mark for
    one. *)
Inductive glob : list Z -> list Z -> Prop :=
  | glob_nil : glob [] []
  | glob_star_end w t : glob w t -> glob (star :: w) t
  | glob_star_more w x t : glob (star :: w) t -> glob (star :: w) (x :: t)
  | glob_chr c x w t : c <> star -> c = any \/ c = x -> glob w t -> glob (c :: w) (x :: t).

(** The same as a function. *)
Fixpoint globb (w t : list Z) : bool :=
  match w with
  | [] => match t with [] => true | _ => false end
  | c :: w =>
      if c =? star then
        (fix more (t : list Z) := globb w t || match t with [] => false | _ :: t => more t end) t
      else
        match t with
        | [] => false
        | x :: t => ((c =? any) || (c =? x)) && globb w t
        end
  end.

Lemma globb_glob w t : globb w t = true <-> glob w t.
Proof.
  split.
  - revert t. induction w as [|c w IH]; intros t; cbn [globb].
    + destruct t; [constructor|done].
    + destruct (Z.eqb_spec c star) as [->|Hc].
      * induction t as [|x t IHt].
        -- rewrite orb_false_r. intros H. by apply glob_star_end, IH.
        -- intros [H|H]%orb_true_iff; [by apply glob_star_end, IH|by apply glob_star_more, IHt].
      * destruct t as [|x t]; [done|]. intros [Hx H]%andb_true_iff. apply glob_chr; [done| |by apply IH].
        apply orb_true_iff in Hx as [Hx|Hx]; apply Z.eqb_eq in Hx; [by left|by right].
  - induction 1 as [|w t H IH|w x t H IH|c x w t Hc Hx H IH]; [done|..]; cbn [globb] in *.
    + destruct t; cbn; by rewrite IH.
    + rewrite Z.eqb_refl in *. rewrite IH. apply orb_true_r.
    + destruct (Z.eqb_spec c star); [done|]. rewrite IH, andb_true_r.
      destruct Hx as [->| ->]; [done|]. rewrite Z.eqb_refl. apply orb_true_r.
Qed.

Lemma glob_app w1 w2 t1 t2 : glob w1 t1 -> glob w2 t2 -> glob (w1 ++ w2) (t1 ++ t2).
Proof.
  induction 1 as [|w t H IH|w x t H IH|c x w t Hc Hx H IH]; intros H2; cbn in *.
  - done.
  - by apply glob_star_end, IH.
  - by apply glob_star_more, IH.
  - by apply glob_chr; [| |apply IH].
Qed.

Lemma glob_stars k t : (0 < k)%nat -> glob (repeat star k) t.
Proof.
  intros Hk. destruct k as [|k]; [lia|]. cbn. clear Hk. induction t as [|x t IH]; [|by apply glob_star_more].
  apply glob_star_end. induction k as [|k IHk]; [constructor|by apply glob_star_end].
Qed.

Lemma glob_stars_nil k : glob (repeat star k) [].
Proof. induction k; cbn; constructor; done. Qed.

Lemma glob_one c x : c <> star -> c = any \/ c = x -> glob [c] [x].
Proof. intros. constructor; [done..|constructor]. Qed.

(** ** Termination *)

Lemma at_bound m i x : at_ m i = Some x -> 0 <= i < Z.of_nat (length m).
Proof. unfold at_. destruct (Z.leb_spec 0 i); [|done]. intros Hx%lookup_lt_Some. lia. Qed.

Lemma skip_stars_spec m p q :
  skip_stars m p = Some q -> p <= q /\ exists rest, m = repeat star (Z.to_nat (q - p)) ++ rest.
Proof.
  revert p. induction m as [|c m IH]; intros p; cbn [skip_stars]; [done|].
  destruct (Z.eqb_spec c star) as [->|Hc].
  - intros (Hle & rest & ->)%IH. split; [lia|]. exists rest.
    replace (Z.to_nat (q - p)) with (S (Z.to_nat (q - (p + 1)))) by lia. done.
  - intros [= <-]. split; [lia|]. exists (c :: m). by rewrite Z.sub_diag.
Qed.

Lemma fast_forward_spec m p c q : fast_forward m p c = Some (Some q) -> p <= q < p + Z.of_nat (length m).
Proof.
  revert p. induction m as [|x m IH]; intros p; cbn [fast_forward]; [done|].
  destruct (x =? c); [intros [= <-]; cbn [length]; lia|]. destruct m as [|y m]; [done|].
  destruct (y =? 0); [done|]. intros H%IH. cbn [length] in *. lia.
Qed.

(** The positions are inside the strings, the bookmarks are not ahead. *)
Definition in_bounds (tame wild : list Z) (st : wstate) : Prop :=
  0 <= ws_tame st <= Z.of_nat (length tame) /\ 0 <= ws_wild st /\
  match ws_bookmark st with
  | Some (wb, tb) => 0 <= wb <= ws_wild st /\ wb < Z.of_nat (length wild) /\ 0 <= tb <= ws_tame st
  | None => True
  end.

(** What is left to try: pattern behind the bookmark, text behind the
    bookmark, text. *)
Definition rest_measure (tame wild : list Z) (st : wstate) : Z :=
  let t := Z.of_nat (length tame) + 1 in
  let '(wb, tb) := match ws_bookmark st with Some b => b | None => (-1, 0) end in
  ((Z.of_nat (length wild) - wb) * t + (Z.of_nat (length tame) - tb)) * t + (Z.of_nat (length tame) - ws_tame st).

Lemma advance_bounds tame wild st st' :
  in_bounds tame wild st -> advance tame wild st = Some (inl st') ->
  in_bounds tame wild st' /\ ws_bookmark st' = ws_bookmark st /\ ws_tame st' = ws_tame st + 1.
Proof.
  intros (Ht & Hw & Hb). unfold advance.
  destruct (at_ tame (ws_tame st + 1)) as [t|] eqn:Hat; [|done]. apply at_bound in Hat. cbn [mbind option_bind].
  destruct (t =? 0).
  - destruct (skip_stars _ _); [|done]. cbn [mbind option_bind]. by destruct (at_ wild _).
  - intros [= <-]. split; [|done]. split; [cbn; lia|]. split; [cbn; lia|]. cbn.
    destruct (ws_bookmark st) as [[wb tb]|]; [|done]. lia.
Qed.

Lemma match_step_decreases tame wild st st' :
  in_bounds tame wild st -> match_step tame wild st = Some (inl st') ->
  in_bounds tame wild st' /\ 0 <= rest_measure tame wild st' < rest_measure tame wild st.
Proof.
  intros Hin. pose proof Hin as (Ht & Hw & Hb). unfold match_step.
  destruct (at_ wild (ws_wild st)) as [w|] eqn:Hat; [|done]. apply at_bound in Hat. cbn [mbind option_bind].
  destruct (w =? star).
  - destruct (skip_stars _ _) as [wp|] eqn:Hskip; [|done]. apply skip_stars_spec in Hskip as [Hwp _]. cbn [mbind option_bind].
    destruct (at_ wild wp) as [w'|] eqn:Hat'; [|done]. apply at_bound in Hat'. cbn [mbind option_bind].
    destruct (w' =? 0); [done|].
    destruct (if w' =? any then _ else _) as [[tp|]|] eqn:Hff; cbn [mbind option_bind]; [|done..].
    assert (ws_tame st <= tp <= Z.of_nat (length tame)) as Htp.
    { destruct (w' =? any); [injection Hff as <-; lia|]. apply fast_forward_spec in Hff. rewrite length_drop in Hff. lia. }
    intros Hadv. apply advance_bounds in Hadv as (Hin' & Hbm & Htame);
      [|split; [cbn; lia|]; split; [cbn; lia|]; cbn; lia].
    split; [done|]. destruct Hin' as (Ht' & _ & Hb'). cbn in Hbm, Htame. unfold rest_measure. rewrite Hbm in *.
    destruct (ws_bookmark st) as [[wb tb]|]; nia.
  - destruct (at_ tame (ws_tame st)) as [t|] eqn:Hat'; [|done]. apply at_bound in Hat'. cbn [mbind option_bind].
    destruct (_ && _).
    + unfold rest_measure. destruct (ws_bookmark st) as [[wb tb]|] eqn:Hbm; [|done]. destruct (_ =? wb); cbn [negb].
      * destruct (t =? 0); [done|]. cbn [negb]. intros [= <-]. cbn. split; [split; cbn; lia|nia].
      * destruct (at_ wild wb) as [w'|] eqn:Hwb; [|done]. cbn [mbind option_bind]. destruct (t =? w'); cbn [negb].
        -- destruct (t =? 0); [done|]. cbn [negb]. intros [= <-]. cbn. split; [split; cbn; lia|nia].
        -- intros [= <-]. cbn. split; [split; cbn; lia|nia].
    + intros Hadv. apply advance_bounds in Hadv as (Hin' & Hbm & Htame); [|done]. split; [done|].
      destruct Hin' as (Ht' & _ & Hb'). unfold rest_measure. rewrite Hbm in *.
      destruct (ws_bookmark st) as [[wb tb]|]; nia.
Qed.

Lemma match_loop_terminates fuel tame wild st :
  in_bounds tame wild st -> rest_measure tame wild st < Z.of_nat fuel -> 0 <= rest_measure tame wild st ->
  match_loop fuel tame wild st <> NoFuel.
Proof.
  revert st. induction fuel as [|fuel IH]; intros st Hin Hm H0; [lia|]. cbn [match_loop].
  destruct (match_step tame wild st) as [[st'|r]|] eqn:Hstep; [|done..].
  apply match_step_decreases in Hstep as [Hin' Hm']; [|done]. apply IH; [done|lia..].
Qed.

(** C32. The matcher terminates on every text and pattern: the number of turns
    is bounded by the length of the pattern times the square of the length
    of the text. *)
Theorem match_terminates tame wild : ina_str_wildcard_match tame wild <> NoFuel.
Proof.
  apply match_loop_terminates.
  - split; [cbn; lia|]. split; [cbn; lia|done].
  - unfold rest_measure, match_fuel. cbn [ws_bookmark ws_tame]. nia.
  - unfold rest_measure. cbn [ws_bookmark ws_tame]. nia.
Qed.

(** ** What an answer means *)

Section Sound.
(** The text and the pattern, with what lies behind their terminators.  Behind the text
    nothing is known only if it is not empty and the pattern has no question mark. *)
Context (t w jt jw : list Z).
Context (Ht0 : Forall (fun c => c <> 0) t) (Hw0 : Forall (fun c => c <> 0) w).
Context (Hbehind : jt = [] \/ t <> [] /\ any ∉ w).
Abbreviation tame := (t ++ 0 :: jt).
Abbreviation wild := (w ++ 0 :: jw).

(** A load gives a character of the string or, at its end, the terminator. *)
Lemma at_string l j i x :
  Forall (fun c => c <> 0) l -> i <= Z.of_nat (length l) -> at_ (l ++ 0 :: j) i = Some x ->
  0 <= i /\ (l !! Z.to_nat i = Some x /\ x <> 0 /\ i < Z.of_nat (length l) \/ i = Z.of_nat (length l) /\ x = 0).
Proof.
  intros Hl Hb Hat. unfold at_ in Hat. destruct (Z.leb_spec 0 i); [|done]. split; [done|].
  destruct (decide (i < Z.of_nat (length l))).
  - rewrite lookup_app_l in Hat by lia. left. split; [done|]. split; [|done].
    rewrite Forall_forall in Hl. apply Hl. by eapply list_elem_of_lookup_2.
  - right. assert (i = Z.of_nat (length l)) as -> by lia. rewrite Nat2Z.id, lookup_app_r, Nat.sub_diag in Hat by lia.
    split; [done|]. cbn in Hat. congruence.
Qed.

Lemma lookup_repeat (x y : Z) k i : repeat x k !! i = Some y -> y = x.
Proof. revert i. induction k as [|k IH]; intros [|i]; cbn; [done..|congruence|apply IH]. Qed.

(** The part of the pattern before the pointer matches the part of the text
    before the pointer; before the bookmark is a star. *)
Record sound (st : wstate) : Prop := {
  s_tame_range : 0 <= ws_tame st <= Z.of_nat (length t);
  s_wild_range : 0 <= ws_wild st <= Z.of_nat (length w);
  s_glob : glob (take (Z.to_nat (ws_wild st)) w) (take (Z.to_nat (ws_tame st)) t);
  s_end : jt = [] \/ ws_tame st < Z.of_nat (length t) \/ w !! Z.to_nat (ws_wild st) <> Some star;
  s_bookmark wb tb : ws_bookmark st = Some (wb, tb) ->
    0 <= wb < Z.of_nat (length w) /\ (0 <= tb <= ws_tame st /\ (ws_wild st = wb \/ tb < ws_tame st)) /\
    (forall i, wb <= i < ws_wild st \/ i = wb -> w !! Z.to_nat i <> Some star) /\ wb <= ws_wild st /\
    forall x, tb <= x <= Z.of_nat (length t) -> glob (take (Z.to_nat wb) w) (take (Z.to_nat x) t)
}.

Lemma take_succ (l : list Z) i x : 0 <= i -> l !! Z.to_nat i = Some x ->
  take (Z.to_nat (i + 1)) l = take (Z.to_nat i) l ++ [x].
Proof. intros Hi Hx. replace (Z.to_nat (i + 1)) with (S (Z.to_nat i)) by lia. by apply take_S_r. Qed.

(** The end of the text has no character. *)
Lemma tame_end y : at_ tame (Z.of_nat (length t) + 1) = Some y -> jt <> [].
Proof. intros Hy%at_bound ->. rewrite length_app in Hy. cbn in Hy. lia. Qed.

(** One more character of the pattern and of the text. *)
Lemma glob_snoc wp tp c x :
  0 <= wp -> 0 <= tp -> glob (take (Z.to_nat wp) w) (take (Z.to_nat tp) t) ->
  w !! Z.to_nat wp = Some c -> t !! Z.to_nat tp = Some x -> c <> star -> c = any \/ c = x ->
  glob (take (Z.to_nat (wp + 1)) w) (take (Z.to_nat (tp + 1)) t).
Proof.
  intros Hwp Htp Hg Hc Hx Hs Hor. rewrite (take_succ w wp c), (take_succ t tp x) by done.
  apply glob_app; [done|by apply glob_one].
Qed.

Lemma skip_to_end wp q :
  0 <= wp <= Z.of_nat (length w) -> skip_stars (drop (Z.to_nat wp) wild) wp = Some q ->
  wp <= q /\ q <= Z.of_nat (length w) /\
  take (Z.to_nat q) w = take (Z.to_nat wp) w ++ repeat star (Z.to_nat (q - wp)) /\
  (forall c, at_ wild q = Some c -> c <> star).
Proof.
  intros Hwp Hskip. pose proof Hskip as Hskip'. apply skip_stars_spec in Hskip as (Hle & rest & Hd).
  rewrite drop_app_le in Hd by lia.
  assert (q <= Z.of_nat (length w)) as Hq.
  { destruct (decide (q <= Z.of_nat (length w))); [done|].
    assert ((drop (Z.to_nat wp) w ++ 0 :: jw) !! length (drop (Z.to_nat wp) w) = Some 0) as Hbad
      by (by rewrite lookup_app_r, Nat.sub_diag by lia).
    rewrite Hd, lookup_app_l in Hbad by (rewrite repeat_length, length_drop; lia).
    by apply lookup_repeat in Hbad. }
  split; [done|]. split; [done|]. split.
  - assert (take (Z.to_nat (q - wp)) (drop (Z.to_nat wp) w) = repeat star (Z.to_nat (q - wp))) as Hrep.
    { pose proof (f_equal (take (Z.to_nat (q - wp))) Hd) as Hd'.
      rewrite take_app_le in Hd' by (rewrite length_drop; lia). rewrite Hd'.
      apply take_app_length'. by rewrite repeat_length. }
    rewrite <- Hrep. rewrite <- (take_drop (Z.to_nat wp) w) at 1.
    replace (Z.to_nat q) with (length (take (Z.to_nat wp) w) + Z.to_nat (q - wp))%nat by (rewrite length_take; lia).
    by rewrite take_app_add.
  - intros c Hc. clear Hd Hq Hle. revert Hskip' Hc. unfold at_. 
    assert (forall m p, 0 <= p -> skip_stars m p = Some q -> m !! Z.to_nat (q - p) <> Some star) as Hgen.
    { induction m as [|y m IH]; intros p Hp; cbn [skip_stars]; [done|]. destruct (Z.eqb_spec y star) as [->|Hy].
      - intros Hs. pose proof Hs as Hs'. apply skip_stars_spec in Hs as [Hle _]. apply IH in Hs'; [|lia].
        replace (Z.to_nat (q - p)) with (S (Z.to_nat (q - (p + 1)))) by lia. exact Hs'.
      - intros [= <-]. rewrite Z.sub_diag. cbn. intros [= Heq]; contradiction. }
    intros Hs Hc. pose proof (skip_stars_spec _ _ _ Hs) as [Hle _]. apply Hgen in Hs; [|lia].
    rewrite lookup_drop in Hs. replace (Z.to_nat wp + Z.to_nat (q - wp))%nat with (Z.to_nat q) in Hs by lia.
    destruct (Z.leb_spec 0 q); [|done]. intros ->; contradiction.
Qed.

Lemma advance_sound st c x :
  0 <= ws_tame st < Z.of_nat (length t) -> 0 <= ws_wild st < Z.of_nat (length w) ->
  sound st -> w !! Z.to_nat (ws_wild st) = Some c -> t !! Z.to_nat (ws_tame st) = Some x ->
  c <> star -> c = any \/ c = x ->
  match advance tame wild st with
  | Some (inl st') => sound st'
  | Some (inr (Ok _)) => glob w t
  | _ => True
  end.
Proof.
  intros Htr Hwr [H1 H2 Hg _ Hb] Hc Hx Hs Hor. unfold advance.
  pose proof (glob_snoc (ws_wild st) (ws_tame st) c x ltac:(lia) ltac:(lia) Hg Hc Hx Hs Hor) as Hg'.
  destruct (at_ tame (ws_tame st + 1)) as [y|] eqn:Hat; [|done]. cbn [mbind option_bind].
  destruct (Z.eqb_spec y 0) as [->|Hy].
  - destruct (skip_stars _ _) as [q|] eqn:Hskip; [|done]. cbn [mbind option_bind].
    destruct (at_ wild q) as [d|] eqn:Hd; [|done]. cbn [mbind option_bind].
    destruct (Z.eqb_spec d 0) as [->|]; [|done].
    apply skip_to_end in Hskip as (Hle & Hq & Htake & _); [|lia].
    apply (at_string t) in Hat as [_ [(_ & ? & _)|[Hend _]]]; [done| |done|lia].
    apply (at_string w) in Hd as [_ [(_ & ? & _)|[Hwend _]]]; [done| |done|lia].
    rewrite Hwend, Nat2Z.id, firstn_all in Htake. rewrite Htake.
    rewrite Hend, Nat2Z.id, firstn_all in Hg'. rewrite <- (app_nil_r t). apply glob_app; [exact Hg'|apply glob_stars_nil].
  - apply (at_string t) in Hat as [? [(_ & _ & Hlt)|[_ ?]]]; [|done|done|lia]. split; cbn.
    + lia.
    + lia.
    + exact Hg'.
    + right. left. exact Hlt.
    + intros wb tb Hbm. destruct (Hb wb tb Hbm) as (? & ? & Hseg & ? & ?). split; [done|]. split; [lia|]. split; [|split; [lia|done]].
      intros i Hi. destruct (decide (i = ws_wild st)) as [->|]; [congruence|]. apply Hseg. lia.
Qed.

Lemma fast_forward_in l j p c q : l <> [] -> fast_forward (l ++ 0 :: j) p c = Some (Some q) ->
  p <= q /\ l !! Z.to_nat (q - p) = Some c.
Proof.
  revert p. induction l as [|x l IH]; intros p Hne; [done|]. cbn [app fast_forward]. destruct (Z.eqb_spec x c) as [->|Hx].
  - intros [= <-]. rewrite Z.sub_diag. split; [lia|done].
  - destruct l as [|y l]; cbn [app]; [done|]. destruct (y =? 0); [done|]. intros [Hle Hat]%IH; [|done]. split; [lia|].
    replace (Z.to_nat (q - p)) with (S (Z.to_nat (q - (p + 1)))) by lia. exact Hat.
Qed.

(** Where a star finds the next character of the pattern: in the text, unless it is
    at the end of the text that ends the memory. *)
Lemma found_char st d tp :
  0 <= ws_tame st <= Z.of_nat (length t) -> jt = [] \/ ws_tame st < Z.of_nat (length t) \/ w !! Z.to_nat (ws_wild st) <> Some star ->
  w !! Z.to_nat (ws_wild st) = Some star -> 
  (if d =? any then Some (Some (ws_tame st)) else fast_forward (drop (Z.to_nat (ws_tame st)) tame) (ws_tame st) d) = Some (Some tp) ->
  d <> 0 ->
  (ws_tame st <= tp /\ exists x, t !! Z.to_nat tp = Some x /\ (d = any \/ d = x)) \/ (tp = Z.of_nat (length t) /\ jt = []).
Proof.
  intros Hr Hend Hstar Hff Hd. destruct (decide (ws_tame st < Z.of_nat (length t))) as [Hlt|Hge].
  - left. destruct (lookup_lt_is_Some_2 t (Z.to_nat (ws_tame st))) as [x Hx]; [lia|].
    destruct (Z.eqb_spec d any) as [->|_]; [injection Hff as <-; split; [lia|]; exists x; split; [done|by left]|].
    rewrite drop_app_le in Hff by lia. apply fast_forward_in in Hff as [Hq Hat].
    + rewrite lookup_drop in Hat. split; [lia|]. exists d. split; [|by right]. rewrite <- Hat. f_equal. lia.
    + intros Hn. pose proof (f_equal length Hn) as Hl. rewrite length_drop in Hl. cbn in Hl. lia.
  - destruct Hend as [Hj|[?|?]]; [|lia|congruence]. right. split; [|done]. rewrite Hj in Hff. destruct (d =? any); [injection Hff as <-; lia|].
    replace (Z.to_nat (ws_tame st)) with (length t) in Hff by lia. rewrite drop_app_length in Hff. cbn in Hff.
    by destruct d.
Qed.
(** Going on from a bookmark. *)
Lemma back_sound tb x wb :
  0 <= tb <= x -> x <= Z.of_nat (length t) -> 0 <= wb < Z.of_nat (length w) -> w !! Z.to_nat wb <> Some star ->
  (forall y, tb <= y <= Z.of_nat (length t) -> glob (take (Z.to_nat wb) w) (take (Z.to_nat y) t)) ->
  sound (WS x wb (Some (wb, tb))).
Proof.
  intros Htb Hx Hwb Hs Hg. split; cbn; [lia|lia|apply Hg; lia|by right; right|]. intros wb' tb' [= <- <-].
  split; [done|]. split; [lia|]. split; [|split; [lia|done]]. intros i Hi. by replace i with wb by lia.
Qed.

Lemma again_sound st wb tb d :
  sound st -> ws_bookmark st = Some (wb, tb) -> ws_wild st <> wb -> w !! Z.to_nat (ws_wild st) <> Some star ->
  w !! Z.to_nat wb = Some d -> t !! Z.to_nat (ws_tame st) = Some d ->
  sound (WS (ws_tame st + 1) (wb + 1) (ws_bookmark st)).
Proof.
  intros [H1 H2 _ _ Hb] Hbm Hne Hns Hw Ht. destruct (Hb wb tb Hbm) as (Hwb & Htb & Hseg & Hle & Hg).
  pose proof (Hseg wb (or_intror eq_refl)) as Hwbs. pose proof (lookup_lt_Some _ _ _ Ht). split; cbn; [lia|lia| | |].
  - apply (glob_snoc wb (ws_tame st) d d); [lia|lia|apply Hg; lia|done|done|congruence|by right].
  - right. right. destruct (decide (wb + 1 = ws_wild st)) as [->|]; [done|]. apply Hseg. lia.
  - intros wb' tb' Hbm'. rewrite Hbm in Hbm'. injection Hbm' as <- <-. split; [done|]. split; [lia|]. split; [|split; [lia|done]].
    intros i Hi. by replace i with wb by lia.
Qed.

(** A step that meets a star. *)
Lemma star_step_sound st :
  sound st -> w !! Z.to_nat (ws_wild st) = Some star ->
  match match_step tame wild st with
  | Some (inl st') => sound st'
  | Some (inr (Ok _)) => glob w t
  | _ => True
  end.
Proof.
  intros [H1 H2 Hg Hend Hb] Hstar. unfold match_step. pose proof (lookup_lt_Some _ _ _ Hstar).
  assert (at_ wild (ws_wild st) = Some star) as ->.
  { unfold at_. rewrite (proj2 (Z.leb_le _ _)), lookup_app_l by lia. done. }
  cbn [mbind option_bind]. rewrite Z.eqb_refl.
  destruct (skip_stars _ _) as [wp|] eqn:Hskip; [|done]. cbn [mbind option_bind].
  apply skip_to_end in Hskip as (Hle & Hwp & Htake & Hns); [|lia].
  assert (forall x, ws_tame st <= x <= Z.of_nat (length t) -> glob (take (Z.to_nat wp) w) (take (Z.to_nat x) t)) as Hglob.
  { intros x Hx. rewrite Htake, (take_succ w (ws_wild st) star) by (done || lia).
    rewrite <- app_assoc. change ([star] ++ repeat star (Z.to_nat (wp - (ws_wild st + 1))))
      with (repeat star (S (Z.to_nat (wp - (ws_wild st + 1))))).
    replace (take (Z.to_nat x) t) with (take (Z.to_nat (ws_tame st)) t ++ take (Z.to_nat (x - ws_tame st)) (drop (Z.to_nat (ws_tame st)) t)).
    - apply glob_app; [exact Hg|apply glob_stars; lia].
    - rewrite take_take_drop. f_equal. lia. }
  destruct (at_ wild wp) as [d|] eqn:Hd; [|done]. cbn [mbind option_bind].
  pose proof (at_string w jw wp d Hw0 Hwp Hd) as [_ Hds]. pose proof (Hns d eq_refl) as Hdns.
  destruct (Z.eqb_spec d 0) as [->|Hd0].
  { destruct Hds as [(_ & ? & _)|[He _]]; [done|]. specialize (Hglob (Z.of_nat (length t)) ltac:(lia)).
    rewrite He in Hglob. by rewrite !Nat2Z.id, !firstn_all in Hglob. }
  destruct Hds as [(Hdw & _ & Hdlt)|[_ ?]]; [|done].
  destruct (if d =? any then _ else _) as [[tp|]|] eqn:Hff; cbn [mbind option_bind]; [|done..].
  destruct (found_char st d tp H1 Hend Hstar Hff Hd0) as [(Htp & x & Hx & Hdx)|[Htp Hjt]].
  - pose proof (lookup_lt_Some _ _ _ Hx). apply (advance_sound _ d x); cbn; [lia|lia| |done|done|done|done].
    apply back_sound; [lia|lia|lia|congruence|]. intros y Hy. apply Hglob. lia.
  - unfold advance. cbn [ws_tame]. rewrite Htp. destruct (at_ tame (Z.of_nat (length t) + 1)) as [y|] eqn:Hy; [|done]. by apply tame_end in Hy.
Qed.

(** A step at another character. *)
Lemma char_step_sound st c :
  sound st -> at_ wild (ws_wild st) = Some c -> c <> star ->
  match match_step tame wild st with
  | Some (inl st') => sound st' \/ glob w t
  | Some (inr (Ok _)) => glob w t
  | _ => True
  end.
Proof.
  intros Hsound Hc Hstar. pose proof Hsound as [H1 H2 Hg Hend Hb]. unfold match_step. rewrite Hc. cbn [mbind option_bind].
  rewrite (proj2 (Z.eqb_neq c star)) by done. pose proof (at_string w jw (ws_wild st) c Hw0 ltac:(lia) Hc) as [_ Hcs].
  destruct (at_ tame (ws_tame st)) as [x|] eqn:Hx; [|done]. cbn [mbind option_bind].
  pose proof (at_string t jt (ws_tame st) x Ht0 ltac:(lia) Hx) as [_ Hxs].
  destruct (negb (x =? c) && negb (c =? any)) eqn:Hmis.
  - destruct (ws_bookmark st) as [[wb tb]|] eqn:Hbm; [|done].
    destruct (Hb wb tb eq_refl) as (Hwb & Htb & Hseg & Hwle & Hbg). pose proof (Hseg wb (or_intror eq_refl)) as Hwbs.
    destruct (Z.eqb_spec (ws_wild st) wb) as [He|Hne]; cbn [negb].
    + destruct (Z.eqb_spec x 0) as [|Hx0]; [done|]. cbn [negb]. destruct Hxs as [(_ & _ & Hlt)|[_ ?]]; [|done].
      rewrite He. left. by apply back_sound; [lia..| |].
    + destruct (at_ wild wb) as [d|] eqn:Hd; [|done]. cbn [mbind option_bind].
      pose proof (at_string w jw wb d Hw0 ltac:(lia) Hd) as [_ [(Hdw & Hd0 & _)|[? _]]]; [|lia].
      destruct (Z.eqb_spec x d) as [->|Hxd]; cbn [negb].
      * destruct (Z.eqb_spec d 0); [done|]. cbn [negb]. destruct Hxs as [(Hxt & _ & Hlt)|[_ ?]]; [|done]. left.
        rewrite <- Hbm. apply (again_sound st wb tb d); try done. intros Hs. destruct Hcs as [(Hcw & _)|[Hce _]]; [congruence|]. apply lookup_lt_Some in Hs. lia.
      * left. apply back_sound; [lia..|done|]. intros y Hy. apply Hbg. lia.
  - assert (c = any \/ c = x) as Hor.
    { apply andb_false_iff in Hmis as [Hm|Hm]; apply negb_false_iff, Z.eqb_eq in Hm; [by right|by left]. }
    destruct Hcs as [(Hcw & Hc0 & Hclt)|[Hcend ->]]; destruct Hxs as [(Hxt & Hx0 & Hxlt)|[Hxend ->]].
    + pose proof (advance_sound st c x ltac:(lia) ltac:(lia) Hsound Hcw Hxt Hstar Hor) as Ha.
      destruct (advance tame wild st) as [[st'|r]|]; [by left|done|done].
    + destruct Hor as [->|]; [|done]. destruct Hbehind as [Hjt|[_ Hany]]; [|by destruct Hany; eapply list_elem_of_lookup_2].
      unfold advance. rewrite Hxend. destruct (at_ tame (Z.of_nat (length t) + 1)) as [y|] eqn:Hy; [|done]. by apply tame_end in Hy.
    + destruct Hor as [|Hor]; [done|by subst].
    + rewrite Hcend, Hxend, !Nat2Z.id, !firstn_all in Hg. destruct (advance tame wild st) as [[st'|[[]|e]]|]; auto.
Qed.

Lemma match_step_sound st :
  sound st ->
  match match_step tame wild st with
  | Some (inl st') => sound st' \/ glob w t
  | Some (inr (Ok _)) => glob w t
  | _ => True
  end.
Proof.
  intros Hsound. destruct (at_ wild (ws_wild st)) as [c|] eqn:Hc; [|unfold match_step; by rewrite Hc].
  destruct (decide (c = star)) as [->|Hstar]; [|by apply (char_step_sound st c)].
  pose proof (s_wild_range _ Hsound). pose proof (at_string w jw (ws_wild st) star Hw0 ltac:(lia) Hc) as [_ [(Hw & _)|[_ ?]]]; [|done].
  pose proof (star_step_sound st Hsound Hw) as Hs. destruct (match_step tame wild st) as [[st'|[[]|e]]|]; auto.
Qed.

Lemma match_loop_sound fuel st :
  sound st -> match_loop fuel tame wild st = Answer (Ok tt) -> glob w t.
Proof.
  revert st. induction fuel as [|fuel IH]; intros st Hst; [done|]. cbn [match_loop].
  pose proof (match_step_sound st Hst) as Hstep.
  destruct (match_step tame wild st) as [[st'|[[]|e]]|]; [|done..]. destruct Hstep as [Hs|Hg]; [by apply IH|done].
Qed.

(** C31. The matcher never accepts wrongly: when it succeeds the pattern matches the
    text, whatever lies behind the terminators of both, if the text is not empty
    and the pattern has no question mark, and in any case if the text ends
    the memory.  A question mark or a star at the end of the text may take what
    lies behind for more of it ([match_reads_behind]). *)
Theorem match_is_sound : ina_str_wildcard_match tame wild = Answer (Ok tt) -> glob w t.
Proof.
  apply match_loop_sound. split; cbn; [lia|lia|constructor| |done].
  destruct Hbehind as [?|[Hne _]]; [by left|]. right. left. destruct t; [done|cbn; lia].
Qed.
End Sound.

Lemma match_is_sound_witness :
  glob (bytes_of_string "mi*s?p*"%string) (bytes_of_string "mississippi"%string) /\
  glob (bytes_of_string "*.c"%string) (bytes_of_string "a.c.c"%string).
Proof.
  assert (forall l, forallb (fun c => negb (c =? 0)) l = true -> Forall (fun c => c <> 0) l) as Hnz.
  { intros l Hl. apply Forall_forall. intros c Hc%list_elem_of_In. rewrite forallb_forall in Hl. specialize (Hl c Hc).
    by apply negb_true_iff, Z.eqb_neq in Hl. }
  split.
  - apply (match_is_sound _ _ [] [120]); [by apply Hnz|by apply Hnz|by left|vm_compute; reflexivity].
  - apply (match_is_sound _ _ [120; 0] [0]); [by apply Hnz|by apply Hnz| |vm_compute; reflexivity].
    right. split; [done|]. apply (bool_decide_unpack _). vm_compute. exact I.
Defined.

(** Where the matcher takes what lies behind the text for more of it: a text that
    was cut to [aba] from [abaxc] is accepted for [*a?c], and the empty text with an
    [a] behind it for [*a]. *)
Theorem match_reads_behind :
  ina_str_wildcard_match (bytes_of_string "aba"%string ++ 0 :: bytes_of_string "c"%string ++ [0]) (bytes_of_string "*a?c"%string ++ [0]) = Answer (Ok tt) /\
  ~ glob (bytes_of_string "*a?c"%string) (bytes_of_string "aba"%string) /\
  ina_str_wildcard_match ([] ++ 0 :: bytes_of_string "a"%string ++ [0]) (bytes_of_string "*a"%string ++ [0]) = Answer (Ok tt) /\
  ~ glob (bytes_of_string "*a"%string) [].
Proof. rewrite <- !globb_glob. vm_compute. repeat split; by intros [=]. Qed.

(** ** Patterns without stars *)

Lemma at_app_r (a l : list Z) i : at_ (a ++ l) (Z.of_nat (length a + i)) = l !! i.
Proof.
  unfold at_. destruct (Z.leb_spec 0 (Z.of_nat (length a + i))); [|lia].
  rewrite Nat2Z.id, lookup_app_r by lia. f_equal. lia.
Qed.

Lemma match_loop_exact fuel t1 x t2 w1 w2 :
  Forall (fun c => c <> 0) (x :: t2) -> Forall (fun c => c <> 0 /\ c <> star) w2 ->
  length t1 = length w1 -> (length t2 < fuel)%nat ->
  match_loop fuel (t1 ++ (x :: t2) ++ [0]) (w1 ++ w2 ++ [0]) (WS (Z.of_nat (length t1)) (Z.of_nat (length w1)) None) =
    Answer (if globb w2 (x :: t2) then Ok tt else NO_MATCH).
Proof.
  revert t1 x t2 w1 w2. induction fuel as [|fuel IH]; intros t1 x t2 w1 w2 Ht Hw Hlen Hf; [lia|].
  apply Forall_cons in Ht as [Hx Ht]. cbn [match_loop]. unfold match_step. cbn [ws_tame ws_wild ws_bookmark].
  rewrite <- (Nat.add_0_r (length w1)), <- (Nat.add_0_r (length t1)), !at_app_r.
  destruct w2 as [|c w2].
  - cbn. destruct (Z.eqb_spec x 0); [done|]. done.
  - apply Forall_cons in Hw as [[Hc Hs] Hw]. cbn [app lookup list_lookup mbind option_bind globb].
    destruct (Z.eqb_spec c star); [done|].
    replace (negb (x =? c) && negb (c =? any)) with (negb ((c =? any) || (c =? x)))
      by (rewrite (Z.eqb_sym x c); by destruct (c =? any), (c =? x)).
    destruct ((c =? any) || (c =? x)); cbn [negb andb]; [|done].
    unfold advance. cbn [ws_tame ws_wild ws_bookmark]. rewrite !Nat.add_0_r.
    replace (Z.of_nat (length t1) + 1) with (Z.of_nat (length t1 + 1)) by lia. rewrite at_app_r.
    replace (Z.of_nat (length w1) + 1) with (Z.of_nat (length w1 + 1)) by lia.
    destruct t2 as [|y t2]; cbn [app lookup list_lookup mbind option_bind].
    + rewrite Z.eqb_refl, Nat2Z.id, <- drop_drop, drop_app_length. cbn [drop].
      rewrite drop_0. destruct w2 as [|d w2]; cbn [app skip_stars].
      * change (0 =? star) with false. cbn iota. cbn [mbind option_bind]. by rewrite at_app_r.
      * apply Forall_cons in Hw as [[Hd Hds] Hw]. destruct (Z.eqb_spec d star); [done|].
        cbn [mbind option_bind]. rewrite at_app_r. cbn. destruct (Z.eqb_spec d 0); [done|].
        destruct (Z.eqb_spec d star); done.
    + apply Forall_cons in Ht as [Hy Ht]. destruct (Z.eqb_spec y 0); [done|].
      specialize (IH (t1 ++ [x]) y t2 (w1 ++ [c]) w2). rewrite !length_app, <- !app_assoc in IH. cbn [length app] in IH.
      rewrite <- IH; [done|by constructor|done|lia|cbn in Hf; lia].
Qed.

(** Without stars the matcher is exact: a pattern of characters and
    question marks is accepted for a text that is not empty if and only if it
    matches, and the answer is the error [TEXT|NOT_MATCH] otherwise. *)
Theorem match_without_stars_exact t w :
  Forall (fun c => c <> 0) t -> t <> [] -> Forall (fun c => c <> 0 /\ c <> star) w ->
  ina_str_wildcard_match (t ++ [0]) (w ++ [0]) = Answer (if globb w t then Ok tt else NO_MATCH).
Proof.
  intros Ht Hne Hw. destruct t as [|x t]; [done|]. unfold ina_str_wildcard_match.
  apply (match_loop_exact _ [] x t [] w Ht Hw eq_refl).
  unfold match_fuel. cbv zeta. apply Nat.lt_succ_r. etransitivity; [|apply Nat.le_add_l].
  rewrite length_app. cbn [length]. lia.
Qed.

Lemma match_without_stars_exact_witness :
  ina_str_wildcard_match (bytes_of_string "file7"%string ++ [0]) (bytes_of_string "file?"%string ++ [0]) =
    Answer (if globb (bytes_of_string "file?"%string) (bytes_of_string "file7"%string) then Ok tt else NO_MATCH).
Proof.
  apply match_without_stars_exact.
  - vm_compute. repeat constructor; done.
  - done.
  - vm_compute. repeat constructor; done.
Defined.

(** The matcher on two strings, in memory that ends with their terminators. *)
Definition matches (t w : string) : outcome :=
  ina_str_wildcard_match (bytes_of_string t ++ [0]) (bytes_of_string w ++ [0]).

(** Where the matcher goes wrong with stars: for the texts [aa] and [baa]
    and the pattern [*a] both pointers run past the terminators; [aaab] is refused for [*a?b], which it matches; and the empty
    text is read behind its end for the empty pattern, for [?] and for [*a]. *)
Theorem match_defects :
  matches "aa" "*a" = BadAccess /\ glob (bytes_of_string "*a") (bytes_of_string "aa") /\
  matches "baa" "*a" = BadAccess /\
  matches "aaab" "*a?b" = Answer NO_MATCH /\ glob (bytes_of_string "*a?b") (bytes_of_string "aaab") /\
  ina_str_wildcard_match [0] [0] = BadAccess /\
  ina_str_wildcard_match [0] (bytes_of_string "?" ++ [0]) = BadAccess /\
  ina_str_wildcard_match [0] (bytes_of_string "*a" ++ [0]) = BadAccess.
Proof. rewrite <- !globb_glob. vm_compute. repeat split. Qed.
End Wildcard.
