(* ===== verification/Table.v ===== *)
(** * The table interface

    What the hash table promises to its clients, the process contexts and the
    cron contexts: a finite map with keys of a fixed number of bytes whose
    entries an iterator delivers once each.  Clients are verified against the
    class [TableLaws]; [hashtable_table] and [hashtable_laws] show that the
    hash table of Hashtable.v is an instance. *)
From Stdlib Require Import ZArith Lia Bool.
From stdpp Require Import base numbers option fin_maps gmap list.
From S2P Require Import Prelude Error Hash Hashtable.

Module Table.
Import Error Hash Hashtable.

(** The operations that the clients use; [tb_iter] is a new iterator and the
    loop that calls its [next] until it fails, with the code of the failure;
    [tb_foreach] is the data for which a traversal calls a function that succeeds. *)
Class TableOps (T : Type) := {
  tb_set : T -> list Z -> Z -> T;
  tb_get : T -> list Z -> T * result Z;
  tb_remove : T -> list Z -> T * result Z;
  tb_count : T -> Z;
  tb_iter : T -> list Z * option Z;
  tb_foreach : T -> list Z
}.

Class TableLaws (n : nat) (T : Type) `{!TableOps T} := {
  tb_rep : T -> gmap (list Z) Z -> Prop;
  tb_set_rep t m k d : tb_rep t m -> valid_key n k -> d <> 0 -> tb_rep (tb_set t k d) (<[k := d]> m);
  tb_get_rep t m k : tb_rep t m -> valid_key n k ->
    tb_rep (tb_get t k).1 m /\
    (tb_get t k).2 = match m !! k with Some d => Ok d | None => Err (INA_ERR_NOT_ E_FOUND) end;
  tb_remove_rep t m k : tb_rep t m -> valid_key n k ->
    tb_rep (tb_remove t k).1 (delete k m) /\
    (tb_remove t k).2 = match m !! k with Some d => Ok d | None => Err (INA_ERR_NOT_ E_FOUND) end;
  tb_iter_rep t m : tb_rep t m ->
    exists l, l ≡ₚ map_to_list m /\ tb_iter t = (l.*2, Some (INA_ERR E_END_OF));
  tb_foreach_rep t m : tb_rep t m -> exists l, l ≡ₚ map_to_list m /\ tb_foreach t = l.*2
}.

(** ** The hash table *)

Lemma length_omap {A B} (f : A -> option B) l : (length (omap f l) <= length l)%nat.
Proof. 
  induction l as [|x l IH]; [done|].
  change (omap f (x :: l)) with (match f x with Some y => y :: omap f l | None => omap f l end).
  destruct (f x); cbn [length]; lia.
Qed.

Definition table_fuel (ht : hashtable) : nat := S (sum_list_with (fun b => length (b_nodes b)) (ht_buckets ht)).

Lemma contents_fuel n ht : (length (contents n ht) < table_fuel ht)%nat.
Proof.
  unfold table_fuel, contents.
  assert (forall l, length (concat (map (bucket_contents n) l)) <=
      sum_list_with (fun b => length (b_nodes b)) l)%nat as H.
  { induction l as [|b l IH]; cbn [map concat sum_list_with foldr]; [done|]. rewrite length_app.
    assert (length (bucket_contents n b) <= length (b_nodes b))%nat; [|simpl; lia].
    unfold bucket_contents. etrans; [apply length_omap|].
    unfold entries. rewrite length_take. lia. }
  specialize (H (take (Z.to_nat (ht_capacity ht)) (ht_buckets ht))).
  rewrite <- (take_drop (Z.to_nat (ht_capacity ht)) (ht_buckets ht)) at 2. rewrite sum_list_with_app. lia.
Qed.

Lemma visit_collect (l acc : list Z) : visit (fun l d => (l ++ [d], 0)) (fun _ => 0) l acc = (acc ++ l, None).
Proof.
  revert acc. induction l as [|x l IH]; intros acc; cbn [visit]; [by rewrite app_nil_r|].
  change (INA_FAILED 0) with false. cbn iota. by rewrite IH, <- app_assoc.
Qed.

Section Hashtables.
Variable clock : nat -> Z.

#[export] Instance hashtable_table : TableOps hashtable := {
  tb_set ht k d := fst (ina_hashtable_set clock ht (Some k) d);
  tb_get ht k := ina_hashtable_get clock ht (Some k);
  tb_remove ht k := ina_hashtable_remove clock ht (Some k);
  tb_count ht := ina_hashtable_count ht;
  tb_iter ht := drain (table_fuel ht) ht (ina_hashtable_iter_new ht);
  tb_foreach ht := fst (ina_hashtable_foreach (fun l d => (l ++ [d], 0)) (fun _ => 0) ht [])
}.

#[export] Program Instance hashtable_laws n (Hn : (4 <= n <= 16)%nat) : TableLaws n hashtable := {
  tb_rep := represents n
}.
Next Obligation.
  intros n Hn t m k d Hr Hk Hd. pose proof (set_represents n Hn clock t m k d Hr Hk Hd) as H. cbn [tb_set hashtable_table].
  destruct (ina_hashtable_set clock t (Some k) d). apply H.
Qed.
Next Obligation.
  intros n Hn t m k Hr Hk. pose proof (get_represents n Hn clock t k m Hr Hk) as H. cbn [tb_get hashtable_table].
  destruct (ina_hashtable_get clock t (Some k)) as [t' r]. split; apply H.
Qed.
Next Obligation.
  intros n Hn t m k Hr Hk. pose proof (remove_represents n Hn clock t m k Hr Hk) as H. cbn [tb_remove hashtable_table].
  destruct (ina_hashtable_remove clock t (Some k)) as [t' r]. split; apply H.
Qed.
Next Obligation.
  intros n Hn t m Hr. exists (contents n t). split; [by apply contents_spec|].
  eapply drain_contents; [exact Hr|apply contents_fuel].
Qed.
Next Obligation.
  intros n Hn t m Hr. exists (contents n t). split; [by apply contents_spec|]. cbn [tb_foreach hashtable_table].
  unfold ina_hashtable_foreach. rewrite foreach_buckets_visit by (by eapply represents_shapes).
  rewrite contents_data, visit_collect. done.
Qed.
End Hashtables.

(** ** Keys *)

Lemma le_bytes_inj n x y : 0 <= x < 2 ^ (8 * Z.of_nat n) -> 0 <= y < 2 ^ (8 * Z.of_nat n) ->
  le_bytes n x = le_bytes n y -> x = y.
Proof.
  revert x y. induction n as [|n IH]; intros x y Hx Hy; [simpl in *; lia|].
  cbn [le_bytes]. intros [= Hm Hd].
  replace (8 * Z.of_nat (S n)) with (8 + 8 * Z.of_nat n) in Hx, Hy by lia.
  rewrite Z.pow_add_r in Hx, Hy by lia. change (2 ^ 8) with 256 in *.
  assert (x / 256 = y / 256) by (apply IH; [| |done]; split;
    (apply Z.div_pos; lia) || (apply Z.div_lt_upper_bound; lia)).
  pose proof (Z.div_mod x 256). pose proof (Z.div_mod y 256). lia.
Qed.

(** A pointer that the table can store: its low word is not zero. *)
Definition good_ptr (p : Z) : Prop := 0 <= p < 2 ^ 64 /\ p mod 2 ^ 32 <> 0.

#[export] Instance good_ptr_dec p : Decision (good_ptr p).
Proof. unfold good_ptr. apply _. Defined.

Lemma good_ptr_nonzero p : good_ptr p -> p <> 0.
Proof. intros [_ H] ->. by apply H. Qed.

Lemma key_ptr_valid p : good_ptr p -> valid_key 8 (key_ptr p).
Proof.
  intros [Hr H]. split; [done|]. intros H0. apply H.
  unfold key_ptr, read32 in H0. cbn [le_bytes] in H0. unfold byte_at, nthZ in H0.
  change (Z.to_nat (0 + 1)) with 1%nat in H0. change (Z.to_nat (0 + 2)) with 2%nat in H0.
  change (Z.to_nat (0 + 3)) with 3%nat in H0. change (Z.to_nat 0) with 0%nat in H0. cbn [List.nth] in H0.
  change (2 ^ 8) with 256 in *. change (2 ^ 16) with 65536 in *. change (2 ^ 24) with 16777216 in *.
  change (2 ^ 32) with (256 * (256 * (256 * 256))). rewrite !Z.rem_mul_r by lia.
  pose proof (fun x => Z.mod_pos_bound x 256 ltac:(lia)) as Hb.
  pose proof (Hb p). pose proof (Hb (p / 256)). pose proof (Hb (p / 256 / 256)).
  pose proof (Hb (p / 256 / 256 / 256)). lia.
Qed.

Lemma key_ptr_inj p q : good_ptr p -> good_ptr q -> key_ptr p = key_ptr q -> p = q.
Proof. intros [Hp _] [Hq _]. by apply (le_bytes_inj 8). Qed.
End Table.
