(* ===== verification/StrTable.v ===== *)
(** * Hash tables with strings as keys

    Clients that keep their own structures under names use a table of Hashtable.v by
    [ina_hashtable_set_str] and [ina_hashtable_get_str]: at most 16 bytes of the name
    are the key, and a lookup compares as many bytes as the name looked for has.  So
    a table is a map only as far as its names are apart from each other; [tab_holds]
    and the lemmas on the operations say so. *)
From Stdlib Require Import ZArith Lia Bool.
From stdpp Require Import base numbers option fin_maps gmap list.
From S2P Require Import Prelude Error Libc Hash Hashtable Table.

Module StrTable.
Import Error Libc Hash Hashtable Table.

(** A table without statistics never asks for the time, and the default hash function is none
    of the external ones. *)
Definition no_clock (n : nat) : Z := 0.
Definition no_hash (t : ina_hash_type_t) (seed : Z) (key : list Z) : Z := 0.
Definition new_table : hashtable :=
  match snd (ina_hashtable_new no_clock no_hash (repeat 0 16) INA_HASHTABLE_STR_KEY None INA_HASHTABLE_DEFAULT_CAPACITY 0) with
  | Ok ht => ht
  | Err _ => Hashtable_ 0 0 0 0 INA_HASHTABLE_STR_KEY [] hash_unset 0 0 None 0
  end.

(** ** Tables of structures

    The structures that were put into a table, in the order in which they were taken from
    the memory of the client; a pointer is the position of a structure, and its address
    is one more.  What a lookup notes in its bucket, the hash, is not read by anything
    but that lookup and is left out. *)
Record strtab (V : Type) := Strtab { st_table : hashtable; st_data : list V }.
Arguments Strtab {V} _ _.
Arguments st_table {V} _.
Arguments st_data {V} _.

Section Operations.
Context {V : Type}.
Definition str_new : strtab V := Strtab new_table [].
(** [ina_hashtable_get_str] *)
Definition str_find (t : strtab V) (k : text) : option nat :=
  match snd (ina_hashtable_get no_clock (st_table t) (Some (key_str k))) with Ok d => Some (Z.to_nat (d - 1)) | Err _ => None end.
Definition str_get (t : strtab V) (k : text) : option V := i ← str_find t k; st_data t !! i.
(** [ina_hashtable_set_str] for a new structure *)
Definition str_set (t : strtab V) (k : text) (v : V) : strtab V :=
  Strtab (fst (ina_hashtable_set no_clock (st_table t) (Some (key_str k)) (Z.of_nat (length (st_data t)) + 1))) (st_data t ++ [v]).
(** A change of a structure by its pointer. *)
Definition str_alter (f : V -> V) (i : nat) (t : strtab V) : strtab V := Strtab (st_table t) (alter f i (st_data t)).
(** The structures that an iterator delivers. *)
Definition str_values (t : strtab V) : list V :=
  omap (fun d => st_data t !! Z.to_nat (d - 1)) (fst (drain (table_fuel (st_table t)) (st_table t) (ina_hashtable_iter_new (st_table t)))).
End Operations.

(** ** Names that are apart *)
Definition proper (k : text) : Prop := k <> [] /\ Forall (fun c => 0 < c) k.
(** A lookup of [k] takes no other name of [S] for it. *)
Definition apart_from (S : text -> Prop) (k : text) : Prop := proper k /\ forall k', S k' -> key_str k `prefix_of` key_str k' -> k' = k.

(** The key as it is stored. *)
Definition pad16 (k : text) : list Z := key_str k ++ drop (length (key_str k)) (repeat 0 16).
Definition node_of (e : text * Z) : node := Node (pad16 e.1) e.2.

Lemma key_str_proper (k : text) : proper k -> proper (key_str k).
Proof. intros [H1 H2]. split; [|by apply Forall_take]. by destruct k. Qed.
Lemma length_key_str (k : text) : (length (key_str k) <= 16)%nat.
Proof. unfold key_str. rewrite length_take. change (Z.to_nat INA_HASHTABLE_MAX_KEY_LEN) with 16%nat. lia. Qed.
Lemma length_pad16 (k : text) : length (pad16 k) = 16%nat.
Proof. pose proof (length_key_str k). unfold pad16. rewrite length_app, length_drop, repeat_length. lia. Qed.
Lemma nonneg_nth (l : list Z) (i : Z) : Forall (fun c => 0 <= c) l -> 0 <= nthZ 0 l i.
Proof.
  intros H. unfold nthZ. destruct (nth_in_or_default (Z.to_nat i) l 0) as [Hi| ->]; [|done]. rewrite List.Forall_forall in H. by apply H.
Qed.
Lemma node_key_nonzero (e : text * Z) : proper e.1 -> (key_u32 (node_of e) =? 0) = false.
Proof.
  intros Hk. apply key_str_proper in Hk as [H1 H2]. apply Z.eqb_neq. unfold key_u32, node_of. cbn [n_key].
  assert (Forall (fun c => 0 <= c) (pad16 e.1)) as Hpos.
  { apply Forall_app. split; [eapply Forall_impl; [exact H2|]; cbn; lia|]. apply Forall_drop, List.Forall_forall. intros x Hx%repeat_spec. lia. }
  assert (0 < nthZ 0 (pad16 e.1) 0) as H0 by (unfold pad16; destruct (key_str e.1) as [|c l]; [done|]; by inversion H2).
  unfold read32, byte_at. pose proof (nonneg_nth _ (0 + 1) Hpos). pose proof (nonneg_nth _ (0 + 2) Hpos). pose proof (nonneg_nth _ (0 + 3) Hpos). lia.
Qed.
Lemma key_eqb_prefix (e : text * Z) (k : text) : proper k -> key_eqb (node_of e) (key_str k) = bool_decide (key_str k `prefix_of` key_str e.1).
Proof.
  intros Hk. apply key_str_proper in Hk as [_ Hk]. unfold key_eqb, node_of, pad16. cbn [n_key]. apply bool_decide_ext. split.
  - intros H. destruct (decide (length (key_str k) <= length (key_str e.1))%nat) as [Hle|Hgt].
    + exists (drop (length (key_str k)) (key_str e.1)). rewrite take_app_le in H by done. by rewrite <- H at 1; rewrite take_drop.
    + exfalso. rewrite <- H in Hk. rewrite Forall_lookup in Hk. specialize (Hk (length (key_str e.1)) 0).
      enough (0 < 0) by lia. apply Hk. rewrite lookup_take_lt by lia. rewrite lookup_app_r, Nat.sub_diag by done.
      rewrite lookup_drop, Nat.add_0_r. pose proof (length_key_str k). change (repeat 0 16) with (replicate 16 0). apply lookup_replicate. split; [done|lia].
  - intros [r Hr]. rewrite Hr, <- app_assoc. apply take_app_length.
Qed.

(** ** The buckets *)
Definition not_taken (L : list (text * Z)) (k : text) : Prop := Forall (fun e => proper e.1 /\ e.2 <> 0 /\ (key_str k `prefix_of` key_str e.1 -> e.1 = k)) L.
Lemma eqb_not_taken (e : text * Z) (k : text) : proper k -> (key_str k `prefix_of` key_str e.1 -> e.1 = k) -> key_eqb (node_of e) (key_str k) = bool_decide (e.1 = k).
Proof. intros Hk He. rewrite key_eqb_prefix by done. apply bool_decide_ext. split; [done|]. by intros ->. Qed.
Lemma scan_end (key : list Z) (count i : Z) (z : nat) (f : option Z) : count <= i ->
  find_live key count i (repeat zero_node z) = None /\ set_scan key count i f (repeat zero_node z) = inr f.
Proof. by destruct z. Qed.
Lemma str_live_spec (L : list (text * Z)) (k : text) (i : Z) (z : nat) : proper k -> not_taken L k ->
  match find_live (key_str k) (i + Z.of_nat (length L)) i (map node_of L ++ repeat zero_node z) with
  | Some (_, d) => (k, d) ∈ L
  | None => k ∉ L.*1
  end.
Proof.
  intros Hk HL. revert i. induction HL as [|e L (He1 & He2 & He3) HL IH]; intros i.
  - cbn [map length app]. rewrite (proj1 (scan_end (key_str k) (i + Z.of_nat 0) i z None ltac:(lia))). apply not_elem_of_nil.
  - cbn [map length app find_live]. rewrite (node_key_nonzero e He1), (eqb_not_taken e k Hk He3). rewrite (proj2 (Z.ltb_lt i _)) by lia. cbn [orb negb node_of n_data].
    rewrite (proj2 (Z.eqb_neq e.2 0) He2). cbn [negb andb]. case_bool_decide as Heq; [destruct e; cbn in *; subst; by left|].
    replace (i + Z.of_nat (S (length L))) with ((i + 1) + Z.of_nat (length L)) by lia. specialize (IH (i + 1)).
    destruct (find_live _ _ _ _) as [[p d]|]; [by right|]. cbn. apply not_elem_of_cons. split; [by intros ->|done].
Qed.
Lemma str_scan_spec (L : list (text * Z)) (k : text) (i : Z) (z : nat) : proper k -> not_taken L k ->
  match set_scan (key_str k) (i + Z.of_nat (length L)) i None (map node_of L ++ repeat zero_node z) with
  | inl p => exists (q : nat) (d : Z), p = i + Z.of_nat q /\ L !! q = Some (k, d)
  | inr f => f = None /\ k ∉ L.*1
  end.
Proof.
  intros Hk HL. revert i. induction HL as [|e L (He1 & He2 & He3) HL IH]; intros i.
  - cbn [map length app]. rewrite (proj2 (scan_end (key_str k) (i + Z.of_nat 0) i z None ltac:(lia))). split; [done|apply not_elem_of_nil].
  - cbn [map length app set_scan]. rewrite (node_key_nonzero e He1), (eqb_not_taken e k Hk He3). rewrite (proj2 (Z.ltb_lt i _)) by lia. cbn [orb negb node_of n_data].
    case_bool_decide as Heq; [exists 0%nat, e.2; split; [lia|]; destruct e; cbn in *; by subst|]. rewrite (proj2 (Z.eqb_neq e.2 0) He2).
    replace (i + Z.of_nat (S (length L))) with ((i + 1) + Z.of_nat (length L)) by lia. specialize (IH (i + 1)).
    destruct (set_scan _ _ _ _ _) as [p|f].
    + destruct IH as (q & d & -> & Hq). exists (S q), d. split; [lia|done].
    + destruct IH as [-> H]. split; [done|]. cbn. apply not_elem_of_cons. split; [by intros ->|done].
Qed.

(** A bucket with the entries [L]. *)
Record shaped (b : bucket) (L : list (text * Z)) : Prop := {
  sh_count : b_count b = Z.of_nat (length L);
  sh_max : b_count b <= b_max b;
  sh_alloc : b_max b = 0 /\ b_nodes b = [] \/ Z.of_nat (length (b_nodes b)) = b_max b + 1;
  sh_nodes : exists z : nat, b_nodes b = map node_of L ++ repeat zero_node z }.
Definition grow (b : bucket) : bucket := if b_max b - b_count b =? 0 then expand b else b.
Definition set_bucket (key : list Z) (d : Z) (b : bucket) : bucket :=
  let b := grow b in
  match set_scan key (b_count b) 0 None (b_nodes b) with
  | inl i => alter_node (fun n => Node (n_key n) d) i b
  | inr (Some i) => alter_node (write_node key d) i b
  | inr None => incr_count (alter_node (write_node key d) (b_count b) b)
  end.
Lemma shaped_grow (b : bucket) (L : list (text * Z)) : shaped b L -> shaped (grow b) L /\ b_count (grow b) < b_max (grow b).
Proof.
  intros [H1 H2 H3 [z Hz]]. unfold grow. destruct (Z.eqb_spec (b_max b - b_count b) 0) as [Hf|Hf].
  2: { split; [|lia]. by split; [..|exists z]. }
  assert (map node_of L = take (Z.to_nat (b_max b)) (b_nodes b)) as HL.
  { rewrite Hz, take_app_length'; [done|]. rewrite length_map. lia. }
  split; [|cbn; unfold INA_HASHTABLE_BUCKET_SIZE; lia]. split; cbn; [done|unfold INA_HASHTABLE_BUCKET_SIZE; lia| |].
  - right. rewrite <- HL, length_app, length_map, repeat_length. unfold INA_HASHTABLE_BUCKET_SIZE. lia.
  - eexists. rewrite <- HL. reflexivity.
Qed.
Lemma shaped_set (b : bucket) (L : list (text * Z)) (k : text) (d : Z) : shaped b L -> proper k -> not_taken L k ->
  exists L' : list (text * Z), shaped (set_bucket (key_str k) d b) L' /\
    ((exists (q : nat) (d0 : Z), L !! q = Some (k, d0) /\ L' = <[q := (k, d)]> L) \/ k ∉ L.*1 /\ L' = L ++ [(k, d)]).
Proof.
  intros Hb Hk HL. destruct (shaped_grow b L Hb) as [[H1 H2 H3 [z Hz]] Hlt]. unfold set_bucket. pose proof (str_scan_spec L k 0 z Hk HL) as Hs.
  rewrite Z.add_0_l, <- H1, <- Hz in Hs. destruct (set_scan _ _ _ _ _) as [p|f].
  - destruct Hs as (q & d0 & -> & Hq). rewrite Z.add_0_l. exists (<[q := (k, d)]> L). split; [|left; by exists q, d0].
    pose proof (lookup_lt_Some _ _ _ Hq) as Hlen. split; cbn; [by rewrite length_insert|done| |].
    + destruct H3 as [[? ->]|?]; [by left|right]. by rewrite length_alter.
    + exists z. rewrite Nat2Z.id, Hz, alter_app_l by (by rewrite length_map). f_equal. apply list_eq. intros i.
      rewrite list_lookup_alter. change (map node_of) with (fmap (M := list) node_of). rewrite !list_lookup_fmap. case_decide as Hi; [subst i|].
      * rewrite list_lookup_insert_eq, Hq by done. done.
      * by rewrite list_lookup_insert_ne.
  - destruct Hs as [-> Hni]. exists (L ++ [(k, d)]). split; [|by right]. assert (exists z', z = S z') as [z' ->].
    { destruct z as [|z']; [|by exists z']. rewrite app_nil_r in Hz. destruct H3 as [[Hm Hn]|Hl]; [lia|]. rewrite Hz, length_map in Hl. lia. }
    split; cbn [incr_count alter_node b_count b_max b_nodes]; [rewrite length_app; cbn; lia|lia| |].
    + destruct H3 as [[? ->]|?]; [by left|right]. by rewrite length_alter.
    + exists z'. rewrite Hz, H1, Nat2Z.id. rewrite <- (length_map node_of L) at 1. rewrite alter_app_r_alt, Nat.sub_diag by done. cbn [repeat alter list_alter].
      rewrite map_app, <- app_assoc. cbn. reflexivity.
Qed.

(** Setting the data of a name among the entries of its bucket. *)
Lemma entries_set (L L' : list (text * Z)) (k : text) (d : Z) (m : gmap text Z) (j : nat) (slot : text -> nat) : NoDup L.*1 ->
  (forall k' d', (k', d') ∈ L <-> m !! k' = Some d' /\ slot k' = j) ->
  ((exists (q : nat) (d0 : Z), L !! q = Some (k, d0) /\ L' = <[q := (k, d)]> L) \/ k ∉ L.*1 /\ L' = L ++ [(k, d)]) -> slot k = j ->
  NoDup L'.*1 /\ forall k' d', (k', d') ∈ L' <-> <[k := d]> m !! k' = Some d' /\ slot k' = j.
Proof.
  intros Hnd HL [(q & d0 & Hq & ->)|[Hni ->]] Hslot.
  - assert ((<[q:=(k, d)]> L).*1 = L.*1) as Hfst.
    { rewrite list_fmap_insert. apply list_insert_id. by rewrite list_lookup_fmap, Hq. }
    split; [by rewrite Hfst|]. intros k' d'. destruct (decide (k' = k)) as [->|Hne].
    + rewrite lookup_insert_eq. split.
      * intros Hin. split; [|done]. apply list_elem_of_lookup in Hin as [i Hi]. destruct (decide (i = q)) as [->|Hiq]; [rewrite list_lookup_insert_eq in Hi by (by eapply lookup_lt_Some); congruence|].
        rewrite list_lookup_insert_ne in Hi by done. destruct Hiq. apply (NoDup_lookup L.*1 i q k Hnd); by rewrite list_lookup_fmap, ?Hi, ?Hq.
      * intros [[= <-] _]. apply list_elem_of_lookup. exists q. apply list_lookup_insert_eq. by eapply lookup_lt_Some.
    + rewrite lookup_insert_ne, <- HL by done. rewrite !list_elem_of_lookup. split; intros [i Hi]; exists i.
      * destruct (decide (i = q)) as [->|Hiq]; [rewrite list_lookup_insert_eq in Hi by (by eapply lookup_lt_Some); congruence|]. by rewrite list_lookup_insert_ne in Hi.
      * rewrite list_lookup_insert_ne; [done|]. intros ->. congruence.
  - split.
    + rewrite fmap_app. apply NoDup_app. split; [done|]. split; [|apply NoDup_singleton]. intros x Hx Hx'%list_elem_of_singleton. by subst.
    + intros k' d'. rewrite elem_of_app, list_elem_of_singleton, HL. destruct (decide (k' = k)) as [->|Hne].
      * rewrite lookup_insert_eq. split; [|intros [[= <-] _]; by right]. intros [Hin|[= ->]]; [|done]. destruct Hni. apply list_elem_of_fmap. exists (k, d'). split; [done|]. by apply HL.
      * rewrite lookup_insert_ne by done. split; [intros [H|[= -> _]]; done|by left].
Qed.

(** ** Tables

    The table maps the names of [m] to their data; nothing was removed from it. *)
Record holds (ht : hashtable) (m : gmap text Z) : Prop := {
  ho_capacity : 0 < ht_capacity ht;
  ho_length : length (ht_buckets ht) = S (Z.to_nat (ht_capacity ht));
  ho_events : ht_ullc_ctx ht = None;
  ho_buckets : exists Ls : nat -> list (text * Z), forall j, (j < Z.to_nat (ht_capacity ht))%nat ->
    shaped (bucket_at ht j) (Ls j) /\ NoDup (Ls j).*1 /\ forall k d, (k, d) ∈ Ls j <-> m !! k = Some d /\ idx ht (key_str k) = j;
  ho_data : forall k d, m !! k = Some d -> proper k /\ 0 < d }.

Lemma holds_not_taken (ht : hashtable) (m : gmap text Z) (L : list (text * Z)) (k : text) : holds ht m -> apart_from (fun k' => is_Some (m !! k')) k ->
  (forall k' d, (k', d) ∈ L -> m !! k' = Some d) -> not_taken L k.
Proof.
  intros Hh [_ Hk] HL. unfold not_taken. rewrite Forall_forall. intros [k' d] He. apply HL in He. destruct (ho_data _ _ Hh k' d He) as [H1 H2].
  split; [done|]. split; [cbn; lia|]. cbn. intros Hp. apply Hk; [by eexists|done].
Qed.
Lemma set_hash_shaped (b : bucket) (L : list (text * Z)) (h : Z) : shaped b L -> shaped (set_hash h b) L.
Proof. by intros [H1 H2 H3 H4]. Qed.
Lemma push_none (ht : hashtable) (e : ina_hashtable_event_id_t) (x y : Z) : ht_ullc_ctx ht = None -> __ina_push_event no_clock ht e x y = ht.
Proof. intros H. unfold __ina_push_event. by rewrite H. Qed.

Lemma get_holds (ht : hashtable) (m : gmap text Z) (k : text) : holds ht m -> apart_from (fun k' => is_Some (m !! k')) k ->
  snd (ina_hashtable_get no_clock ht (Some (key_str k))) = match m !! k with Some d => Ok d | None => Err (INA_ERR_NOT_ E_FOUND) end.
Proof.
  intros Hh Hk. pose proof Hh as [Hc Hl He [Ls HLs] Hd]. unfold ina_hashtable_get. rewrite push_none by done. unfold __ina_bucket. fold (idx ht (key_str k)).
  set (j := idx ht (key_str k)). pose proof (idx_range ht (key_str k) Hc) as Hj. fold j in Hj. rewrite bucket_at_update by lia. rewrite decide_True by done.
  destruct (HLs j Hj) as (Hb & Hnd & HL). apply (set_hash_shaped _ _ (bucket_index ht (key_str k))) in Hb. destruct Hb as [H1 _ _ [z Hz]].
  pose proof (str_live_spec (Ls j) k 0 z (proj1 Hk)) as Hs. rewrite Z.add_0_l, <- Hz, <- H1 in Hs.
  specialize (Hs (holds_not_taken ht m (Ls j) k Hh Hk (fun k' d H => proj1 (proj1 (HL k' d) H)))).
  destruct (find_live _ _ _ _) as [[p d]|]; rewrite push_none by done; cbn [snd].
  - apply HL in Hs as [-> _]. done.
  - destruct (m !! k) as [d|] eqn:Hm; [|done]. destruct Hs. apply list_elem_of_fmap. exists (k, d). split; [done|]. by apply HL.
Qed.

(** Setting only changes the bucket of the key, and the number of entries. *)
Lemma update_bucket_ext (ht : hashtable) (j : nat) (f g : bucket -> bucket) : f (bucket_at ht j) = g (bucket_at ht j) -> update_bucket ht j f = update_bucket ht j g.
Proof.
  intros H. unfold update_bucket. f_equal. apply list_eq. intros i. rewrite !list_lookup_alter. case_decide; [subst i|done].
  unfold bucket_at in H. rewrite nth_lookup in H. destruct (ht_buckets ht !! j); [|done]. cbn in *. by rewrite H.
Qed.
Lemma update_bucket_id (ht : hashtable) (j : nat) (f : bucket -> bucket) : f (bucket_at ht j) = bucket_at ht j -> update_bucket ht j f = ht.
Proof.
  intros H. rewrite (update_bucket_ext ht j f id H). unfold update_bucket, set_buckets. rewrite list_alter_id by done. by destruct ht.
Qed.
Lemma update_update (ht : hashtable) (j : nat) (f g : bucket -> bucket) : update_bucket (update_bucket ht j f) j g = update_bucket ht j (fun b => g (f b)).
Proof. unfold update_bucket, set_buckets. cbn. f_equal. apply list_alter_alter_eq. Qed.
Lemma set_in_bucket (ht : hashtable) (key : list Z) (d : Z) : 0 < ht_capacity ht -> length (ht_buckets ht) = S (Z.to_nat (ht_capacity ht)) -> ht_ullc_ctx ht = None -> d <> 0 ->
  exists n : Z, fst (ina_hashtable_set no_clock ht (Some key) d) =
    set_count (update_bucket ht (idx ht key) (fun b => set_bucket key d (set_hash (bucket_index ht key) b))) n.
Proof.
  intros Hc Hl He Hd. unfold ina_hashtable_set. rewrite push_none, (proj2 (Z.eqb_neq d 0)) by done. unfold __ina_bucket. fold (idx ht key).
  set (j := idx ht key). pose proof (idx_range ht key Hc) as Hj. fold j in Hj. set (ht1 := update_bucket ht j (set_hash (bucket_index ht key))).
  assert ((if b_max (bucket_at ht1 j) - b_count (bucket_at ht1 j) =? 0
    then __ina_push_event no_clock (update_bucket ht1 j expand) EVENT_EXPANSION 0 (b_max (bucket_at ht1 j) + INA_HASHTABLE_BUCKET_SIZE) else ht1) = update_bucket ht1 j grow) as ->.
  { destruct (b_max (bucket_at ht1 j) - b_count (bucket_at ht1 j) =? 0) eqn:E.
    - rewrite push_none by done. apply update_bucket_ext. unfold grow. by rewrite E.
    - symmetry. apply update_bucket_id. unfold grow. by rewrite E. }
  assert (bucket_at (update_bucket ht1 j grow) j = grow (bucket_at ht1 j)) as ->.
  { rewrite bucket_at_update; [by rewrite decide_True|]. unfold ht1, update_bucket. cbn. rewrite length_alter. lia. }
  assert (bucket_at ht1 j = set_hash (bucket_index ht key) (bucket_at ht j)) as Hb by (unfold ht1; rewrite bucket_at_update by lia; by rewrite decide_True).
  set (b := grow (bucket_at ht1 j)). assert (forall f : bucket -> bucket, f b = set_bucket key d (bucket_at ht1 j) ->
    update_bucket (update_bucket ht1 j grow) j f = update_bucket ht j (fun b => set_bucket key d (set_hash (bucket_index ht key) b))) as Hfin.
  { intros f Hf. unfold ht1. rewrite !update_update. apply update_bucket_ext. rewrite <- Hb. exact Hf. }
  unfold set_bucket in Hfin at 1. fold b in Hfin. cbn zeta in Hfin.
  destruct (set_scan key (b_count b) 0 None (b_nodes b)) as [i|[i|]]; cbn [fst]; rewrite push_none by done;
    erewrite Hfin by reflexivity; [|by eexists..]. exists (ht_count ht). by destruct ht.
Qed.

Lemma set_holds (ht : hashtable) (m : gmap text Z) (k : text) (d : Z) : holds ht m -> apart_from (fun k' => is_Some (m !! k')) k -> 0 < d ->
  holds (fst (ina_hashtable_set no_clock ht (Some (key_str k)) d)) (<[k := d]> m).
Proof.
  intros Hh Hk Hd. pose proof Hh as [Hc Hl He [Ls HLs] Hdata]. destruct (set_in_bucket ht (key_str k) d Hc Hl He) as [n ->]; [lia|].
  pose proof (idx_range ht (key_str k) Hc) as Hj. set (j := idx ht (key_str k)) in *. destruct (HLs j Hj) as (Hb & Hnd & HL).
  destruct (shaped_set (set_hash (bucket_index ht (key_str k)) (bucket_at ht j)) (Ls j) k d) as (L' & Hb' & HL'); [by apply set_hash_shaped|apply Hk| |].
  { apply (holds_not_taken ht m _ k Hh Hk). intros k' d' Hin. by apply HL. }
  split; cbn [set_count update_bucket set_buckets ht_capacity ht_buckets ht_ullc_ctx]; [done|by rewrite length_alter|done| |].
  - exists (fun j' => if decide (j' = j) then L' else Ls j'). intros j' Hj'. change (bucket_at (set_count ?h n) j') with (bucket_at h j').
    rewrite bucket_at_update by lia. case_decide as Hjj; [subst j'|].
    + split; [done|]. apply (entries_set (Ls j) L' k d m j (fun k' => idx ht (key_str k')) Hnd HL HL'). done.
    + destruct (HLs j' Hj') as (Hb1 & Hnd1 & HL1). split; [done|]. split; [done|]. intros k' d'. rewrite HL1. change (idx (set_count _ n) ?x) with (idx ht x).
      destruct (decide (k' = k)) as [->|Hne]; [|by rewrite lookup_insert_ne]. split; intros [_ Hx]; subst j'; done.
  - intros k' d'. destruct (decide (k' = k)) as [->|Hne]; [|rewrite lookup_insert_ne by done; apply Hdata]. rewrite lookup_insert_eq. intros [= <-]. split; [apply Hk|done].
Qed.

Lemma new_holds : holds new_table ∅.
Proof.
  assert (forall j, bucket_at new_table j = zero_bucket) as Hz.
  { intros j. unfold bucket_at. change (ht_buckets new_table) with (repeat zero_bucket 32 ++ [zero_bucket]).
    destruct (nth_in_or_default j (repeat zero_bucket 32 ++ [zero_bucket]) zero_bucket) as [H|H]; [|done].
    apply in_app_or in H as [H%repeat_spec|[H|[]]]; done. }
  split; [done|done|done| |done]. exists (fun _ => []). intros j _. rewrite Hz. split; [|split; [apply NoDup_nil_2|]].
  - split; [done|done|by left|by exists 0%nat].
  - intros k d. split; [by intros ?%elem_of_nil|]. by intros [? _].
Qed.

(** ** Iteration *)
Lemma shaped_wf (b : bucket) (L : list (text * Z)) : shaped b L -> wf_shape b.
Proof.
  intros [H1 H2 H3 [z Hz]]. split; [lia|tauto|]. rewrite Hz. apply Forall_app. split.
  - apply Forall_fmap, Forall_true. intros e. apply length_pad16.
  - apply List.Forall_forall. by intros n ->%repeat_spec.
Qed.
Lemma shaped_data (b : bucket) (L : list (text * Z)) : shaped b L -> Forall (fun e => e.2 <> 0) L -> bucket_data b = L.*2.
Proof.
  intros [H1 _ _ [z Hz]] HL. unfold bucket_data, entries. rewrite H1, Nat2Z.id, Hz, take_app_length' by (by rewrite length_map). clear -HL.
  induction HL as [|e L He HL IH]; [done|]. cbn [map]. rewrite omap_node_cons. cbn [node_of n_data]. rewrite (proj2 (Z.eqb_neq _ _) He). cbn. by f_equal.
Qed.
(** The entries of all buckets, where the name of an entry tells its bucket. *)
Lemma concat_slots (Ls : nat -> list (text * Z)) (slot : text -> nat) (a n : nat) :
  (forall j, (a <= j < a + n)%nat -> NoDup (Ls j) /\ forall k d, (k, d) ∈ Ls j -> slot k = j) ->
  NoDup (concat (map Ls (seq a n))) /\ forall e, e ∈ concat (map Ls (seq a n)) <-> exists j, (a <= j < a + n)%nat /\ e ∈ Ls j.
Proof.
  revert a. induction n as [|n IH]; intros a H.
  - split; [apply NoDup_nil_2|]. intros e. split; [by intros ?%elem_of_nil|]. intros (j & Hj & _). lia.
  - destruct (IH (S a)) as [H1 H2]; [intros j Hj; apply H; lia|]. cbn [seq map concat]. split.
    + apply NoDup_app. split; [apply H; lia|]. split; [|done]. intros [k d] Hin (j & Hj & Hin')%H2.
      pose proof (proj2 (H a ltac:(lia)) k d Hin). pose proof (proj2 (H j ltac:(lia)) k d Hin'). lia.
    + intros e. rewrite elem_of_app, H2. split.
      * intros [He|(j & Hj & He)]; [exists a|exists j]; (split; [lia|done]).
      * intros (j & Hj & He). destruct (decide (j = a)) as [->|]; [by left|right]. exists j. split; [lia|done].
Qed.
Lemma drain_holds (ht : hashtable) (m : gmap text Z) : holds ht m ->
  exists C : list (text * Z), C ≡ₚ map_to_list m /\ fst (drain (table_fuel ht) ht (ina_hashtable_iter_new ht)) = C.*2.
Proof.
  intros [Hc Hl He [Ls HLs] Hd]. set (n := Z.to_nat (ht_capacity ht)) in *. exists (concat (map Ls (seq 0 n))).
  assert (take n (ht_buckets ht) = map (bucket_at ht) (seq 0 n)) as Hbs.
  { apply list_eq. intros i. change (map (bucket_at ht)) with (fmap (M := list) (bucket_at ht)). rewrite list_lookup_fmap. destruct (decide (i < n)%nat) as [Hi|Hi].
    - rewrite lookup_take_lt, lookup_seq_lt by done. cbn. unfold bucket_at. rewrite nth_lookup. destruct (lookup_lt_is_Some_2 (ht_buckets ht) i) as [b Hb]; [lia|]. by rewrite Hb.
    - rewrite lookup_take_ge, lookup_seq_ge by lia. done. }
  destruct (concat_slots Ls (fun k => idx ht (key_str k)) 0 n) as [Hnd Hin].
  { intros j Hj. destruct (HLs j ltac:(lia)) as (_ & H1 & H2). split; [by apply (NoDup_fmap_1 fst)|]. intros k d H%H2. by destruct H. }
  split.
  - apply NoDup_Permutation; [done|apply NoDup_map_to_list|]. intros [k d]. rewrite Hin, elem_of_map_to_list. split.
    + intros (j & Hj & H). destruct (HLs j ltac:(lia)) as (_ & _ & H2). by apply H2 in H as [H _].
    + intros Hm. pose proof (idx_range ht (key_str k) Hc) as Hj. fold n in Hj. exists (idx ht (key_str k)). split; [lia|]. destruct (HLs _ Hj) as (_ & _ & H2). by apply H2.
  - assert (forall l, Forall (fun j => (j < n)%nat) l -> concat (map bucket_data (map (bucket_at ht) l)) = (concat (map Ls l)).*2) as Hcat.
    { induction 1 as [|j l Hj Hlt IH]; [done|]. cbn. rewrite IH, fmap_app. f_equal. destruct (HLs j Hj) as (Hb & _ & H2). apply shaped_data; [done|].
      rewrite Forall_forall. intros [k d] H%H2. destruct H as [H _]. apply Hd in H. cbn. lia. }
    assert (it_remaining ht (ina_hashtable_iter_new ht) = concat (map bucket_data (take n (ht_buckets ht)))) as Hrem by (unfold it_remaining; cbn; by destruct (take _ _)).
    rewrite drain_spec; cbn [fst].
    + rewrite Hrem, Hbs. apply Hcat. rewrite Forall_forall. intros j Hj%elem_of_seq. lia.
    + fold n. rewrite Hbs. apply Forall_fmap. rewrite Forall_forall. intros j Hj%elem_of_seq. cbn. eapply shaped_wf. apply (HLs j). lia.
    + split; [done|]. by split.
    + rewrite Hrem. unfold n. rewrite <- (contents_data 16 ht), length_fmap. apply contents_fuel.
Qed.

(** ** Tables of structures

    A table and the structures of its names. *)
Section Structures.
Context {V : Type}.
Implicit Types (t : strtab V) (m : gmap text V).

Record addressed (t : strtab V) (a : gmap text Z) (m : gmap text V) : Prop := {
  ad_table : holds (st_table t) a;
  ad_range : forall k d, a !! k = Some d -> d <= Z.of_nat (length (st_data t));
  ad_inj : forall k k' d, a !! k = Some d -> a !! k' = Some d -> k = k';
  ad_data : forall k, m !! k = (d ← a !! k; st_data t !! Z.to_nat (d - 1)) }.
Definition tab_holds (t : strtab V) (m : gmap text V) : Prop := exists a : gmap text Z, addressed t a m.

Lemma addressed_some t a m (k : text) : addressed t a m -> (is_Some (a !! k) <-> is_Some (m !! k)).
Proof.
  intros [Ht Hr _ Hd]. rewrite Hd. destruct (a !! k) as [d|] eqn:Ha; cbn; [|done]. split; [intros _|done]. apply lookup_lt_is_Some_2.
  pose proof (proj2 (ho_data _ _ Ht k d Ha)). specialize (Hr k d Ha). lia.
Qed.
Lemma addressed_apart t a m (k : text) : addressed t a m -> apart_from (fun k' => is_Some (m !! k')) k -> apart_from (fun k' => is_Some (a !! k')) k.
Proof. intros Ha [H1 H2]. split; [done|]. intros k' H. apply H2. by apply (addressed_some t a m). Qed.

Lemma new_tab : tab_holds str_new ∅.
Proof. exists ∅. split; [apply new_holds|done|done|done]. Qed.

Lemma str_find_some t m (k : text) : tab_holds t m -> apart_from (fun k' => is_Some (m !! k')) k ->
  match m !! k with Some v => exists i : nat, str_find t k = Some i /\ st_data t !! i = Some v | None => str_find t k = None end.
Proof.
  intros [a Ha] Hk. pose proof (get_holds _ _ k (ad_table _ _ _ Ha) (addressed_apart t a m k Ha Hk)) as Hg. unfold str_find. rewrite Hg, (ad_data _ _ _ Ha).
  destruct (a !! k) as [d|] eqn:Hd; [|done]. cbn. destruct (proj1 (addressed_some t a m k Ha)) as [v Hv]; [by rewrite Hd|].
  rewrite (ad_data _ _ _ Ha), Hd in Hv. cbn in Hv. rewrite Hv. by eexists.
Qed.
Lemma str_get_holds t m (k : text) : tab_holds t m -> apart_from (fun k' => is_Some (m !! k')) k -> str_get t k = m !! k.
Proof.
  intros Ht Hk. unfold str_get. pose proof (str_find_some t m k Ht Hk) as H. destruct (m !! k) as [v|]; [|by rewrite H]. destruct H as (i & -> & Hv). exact Hv.
Qed.
Lemma str_set_holds t m (k : text) (v : V) : tab_holds t m -> apart_from (fun k' => is_Some (m !! k')) k -> tab_holds (str_set t k v) (<[k := v]> m).
Proof.
  intros [a Ha] Hk. pose proof Ha as [Ht Hr Hi Hd]. exists (<[k := Z.of_nat (length (st_data t)) + 1]> a). unfold str_set. split; cbn [st_table st_data].
  - apply set_holds; [done|by apply (addressed_apart t a m)|lia].
  - intros k' d. rewrite length_app. cbn. intros [[<- <-]|[_ H%Hr]]%lookup_insert_Some; lia.
  - intros k1 k2 d [[<- <-]|[H1 H1']]%lookup_insert_Some [[<- ?]|[H2 H2']]%lookup_insert_Some; [done|apply Hr in H2'; lia|subst; apply Hr in H1'; lia|by apply (Hi _ _ d)].
  - intros k'. destruct (decide (k' = k)) as [->|Hne].
    + rewrite !lookup_insert_eq. cbn. symmetry. apply list_lookup_middle. lia.
    + rewrite !lookup_insert_ne by done. rewrite Hd. destruct (a !! k') as [d|] eqn:Hk'; [|done]. cbn. pose proof (proj2 (ho_data _ _ Ht k' d Hk')). specialize (Hr k' d Hk').
      symmetry. apply lookup_app_l. lia.
Qed.
Lemma str_alter_holds t m (k : text) (f : V -> V) (i : nat) : tab_holds t m -> apart_from (fun k' => is_Some (m !! k')) k -> str_find t k = Some i ->
  tab_holds (str_alter f i t) (alter f k m).
Proof.
  intros [a Ha] Hk Hf. pose proof Ha as [Ht Hr Hi Hd]. unfold str_find in Hf. rewrite (get_holds _ _ k Ht (addressed_apart t a m k Ha Hk)) in Hf.
  destruct (a !! k) as [d|] eqn:Hkd; [|done]. injection Hf as <-. pose proof (proj2 (ho_data _ _ Ht k d Hkd)). exists a. unfold str_alter. split; cbn [st_table st_data]; [done| |done|].
  - intros k' d'. rewrite length_alter. apply Hr.
  - intros k'. destruct (decide (k' = k)) as [->|Hne].
    + rewrite lookup_alter_eq, Hd, Hkd. cbn. by rewrite list_lookup_alter, decide_True.
    + rewrite lookup_alter_ne, Hd by done. destruct (a !! k') as [d'|] eqn:Hk'; [|done]. cbn. pose proof (proj2 (ho_data _ _ Ht k' d' Hk')).
      rewrite list_lookup_alter, decide_False; [done|]. intros E. apply Hne. apply (Hi _ _ d); [|done]. rewrite Hk'. f_equal. lia.
Qed.
Lemma str_values_holds t m : tab_holds t m -> exists P : list (text * V), P ≡ₚ map_to_list m /\ str_values t = P.*2.
Proof.
  intros [a Ha]. destruct (drain_holds _ _ (ad_table _ _ _ Ha)) as (C & HC & Hdr). unfold str_values. rewrite Hdr. clear Hdr.
  exists (omap (fun e => pair e.1 <$> st_data t !! Z.to_nat (e.2 - 1)) C).
  assert (forall k v, (k, v) ∈ omap (fun e => pair e.1 <$> st_data t !! Z.to_nat (e.2 - 1)) C <-> m !! k = Some v) as Hin.
  { intros k v. rewrite list_elem_of_omap, (ad_data _ _ _ Ha). split.
    - intros ([k' d] & Hin & Hv). rewrite HC, elem_of_map_to_list in Hin. cbn in Hv. destruct (st_data t !! _) eqn:E; [|done]. cbn in Hv. injection Hv as -> ->. by rewrite Hin.
    - destruct (a !! k) as [d|] eqn:Hd; [|done]. cbn. intros Hv. exists (k, d). rewrite HC, elem_of_map_to_list. split; [done|]. cbn. by rewrite Hv. }
  split.
  - apply NoDup_Permutation; [|apply NoDup_map_to_list|by intros [k v]; rewrite Hin, elem_of_map_to_list].
    assert (NoDup C.*1) as Hnd by (rewrite HC; apply NoDup_fst_map_to_list). clear -Hnd. induction C as [|[k d] C IH]; [apply NoDup_nil_2|].
    cbn in Hnd. apply NoDup_cons in Hnd as [Hni Hnd]. cbn. destruct (st_data t !! _) as [v|]; [|by apply IH]. cbn. apply NoDup_cons. split; [|by apply IH].
    intros ([k' d'] & Hin & Hv)%list_elem_of_omap. cbn in Hv. destruct (st_data t !! _); [|done]. cbn in Hv. injection Hv as -> _. apply Hni. apply list_elem_of_fmap. by exists (k, d').
  - clear. induction C as [|[k d] C IH]; [done|]. cbn. destruct (st_data t !! _) as [v|]; cbn; [by f_equal|done].
Qed.

Lemma str_find_set t m (k : text) (v : V) : tab_holds t m -> apart_from (fun k' => is_Some (m !! k')) k -> str_find (str_set t k v) k = Some (length (st_data t)).
Proof.
  intros [a Ha] Hk. pose proof (addressed_apart t a m k Ha Hk) as Hka. unfold str_find, str_set. cbn [st_table].
  rewrite (get_holds _ (<[k := Z.of_nat (length (st_data t)) + 1]> a)); [|apply set_holds; [apply Ha|done|lia]|].
  - rewrite lookup_insert_eq. f_equal. lia.
  - split; [apply Hka|]. intros k' Hk' Hp. destruct (decide (k' = k)) as [|Hne]; [done|]. rewrite lookup_insert_ne in Hk' by done. by apply (proj2 Hka).
Qed.

(** Names none of which is taken for another. *)
Definition separate (S : text -> Prop) : Prop :=
  (forall k, S k -> proper k) /\ forall a b, S a -> S b -> key_str a `prefix_of` key_str b -> b = a.
Lemma separate_apart (S S' : text -> Prop) (k : text) : separate S -> S k -> (forall k', S' k' -> S k') -> apart_from S' k.
Proof. intros [H1 H2] Hk HS. split; [by apply H1|]. intros k' Hk' Hp. by apply H2; [|apply HS|]. Qed.
Lemma separate_mono (S S' : text -> Prop) : separate S -> (forall k, S' k -> S k) -> separate S'.
Proof. intros [H1 H2] Hs. split; [intros k Hk; by apply H1, Hs|]. intros a b Ha Hb. by apply H2; apply Hs. Qed.

(** Putting a list of structures under their names into a table. *)
Lemma fold_set_holds {A} (S : text -> Prop) (f : text -> A -> V) (l : list (text * A)) t m : separate S -> NoDup l.*1 -> Forall (fun e => S e.1) l ->
  (forall k, is_Some (m !! k) -> S k) -> tab_holds t m ->
  tab_holds (fold_left (fun t e => str_set t e.1 (f e.1 e.2)) l t) (map_imap (fun k a => Some (f k a)) (list_to_map (M := gmap text A) l) ∪ m).
Proof.
  intros HS. revert t m. induction l as [|[k a] l IH]; intros t m Hnd Hl Hm Ht; cbn [fold_left fst snd list_to_map foldr].
  - by rewrite map_imap_empty, (left_id_L ∅ (∪)).
  - apply NoDup_cons in Hnd as [Hni Hnd]. inversion Hl as [|? ? Hk Hl']; subst. cbn in Hni, Hk.
    assert (list_to_map (M := gmap text A) l !! k = None) as Hno by by apply not_elem_of_list_to_map_1.
    specialize (IH (str_set t k (f k a)) (<[k := f k a]> m) Hnd Hl'). cbn [uncurry]. change (foldr _ ∅ l) with (list_to_map (M := gmap text A) l).
    rewrite map_imap_insert. rewrite <- insert_union_l, insert_union_r by by rewrite map_lookup_imap, Hno.
    apply IH.
    + intros k' Hk'. destruct (decide (k' = k)) as [->|Hne]; [done|]. rewrite lookup_insert_ne in Hk' by done. by apply Hm.
    + apply str_set_holds; [done|]. by apply (separate_apart S).
Qed.
Lemma fold_set_map {A} (S : text -> Prop) (f : text -> A -> V) (l : list (text * A)) (M : gmap text A) t : separate S -> l ≡ₚ map_to_list M ->
  (forall k, is_Some (M !! k) -> S k) -> tab_holds t ∅ ->
  tab_holds (fold_left (fun t e => str_set t e.1 (f e.1 e.2)) l t) (map_imap (fun k a => Some (f k a)) M).
Proof.
  intros HS Hl HM Ht. assert (NoDup l.*1) as Hnd by (rewrite Hl; apply NoDup_fst_map_to_list).
  assert (list_to_map (M := gmap text A) l = M) as HlM by (rewrite (list_to_map_proper l (map_to_list M) Hnd Hl); apply list_to_map_to_list).
  pose proof (fold_set_holds S f l t ∅ HS Hnd) as H. rewrite HlM, (right_id_L ∅ (∪)) in H. apply H; [|by intros k []|done].
  rewrite Forall_forall. intros [k a] Hin. rewrite Hl, elem_of_map_to_list in Hin. apply HM. by eexists.
Qed.
End Structures.
End StrTable.
