(* ===== verification/Fsm.v ===== *)
(** * State machines (fsm.h)

    The macros of fsm.h build a machine from an enumeration of states, one of
    events and a table with a row per event and a transition per state.  The
    status of a machine is a 16 bit word in the memory of the client: the
    current state in the low byte, the last event in the high byte.  The
    client's memory is a type [U] with the class [HasStatus], because an action
    of the table works on the whole of it, the status included. *)
From Stdlib Require Import ZArith Lia Bool.
From stdpp Require Import base numbers option list.
From S2P Require Import Prelude.

Module Fsm.

(** [INA_LOW], [INA_HIGH] and [INA_TOWORD] of portable.h; the word is stored in
    a [uint16_t]. *)
Definition INA_LOW (x : Z) : Z := u8 x.
Definition INA_HIGH (x : Z) : Z := u8 (Z.shiftr (u16 x) 8).
Definition INA_TOWORD (x y : Z) : Z := u16 (Z.lor (Z.shiftl x 8) y).

Definition get_fsm_state (s : Z) : Z := INA_LOW s.
Definition set_fsm_state (s ns : Z) : Z := INA_TOWORD (INA_HIGH s) (u8 ns).
Definition get_fsm_event (s : Z) : Z := INA_HIGH s.
Definition set_fsm_event (s e : Z) : Z := INA_TOWORD (u8 e) (INA_LOW s).

(** Where a client keeps the status of its machine. *)
Class HasStatus (U : Type) := {
  get_status : U -> Z;
  put_status : Z -> U -> U;
  get_put_status : forall s u, get_status (put_status s u) = s;
  put_put_status : forall s t u, put_status s (put_status t u) = put_status s u
}.

Section Machine.
Context {U : Type} `{!HasStatus U}.

(** [ina_fsm_transition_t]; an action that leaves the defined behaviour of C
    gives [None]. *)
Record transition := Transition {
  action : option (U -> option U);
  next_state : Z
}.

Definition INA_FSM_NO_TRANSITION (state : Z) : transition := Transition None state.

Definition perform (t : transition) (u : U) : option U :=
  match action t with Some f => f u | None => Some u end.

(** The array [__id_fsm_transitions]. *)
Variable transitions : list (list transition).

Definition transition_at (e s : Z) : option transition :=
  row ← transitions !! Z.to_nat e; row !! Z.to_nat s.

(** [id_next_fsm_state]: the transition of the event of the status. *)
Definition next_fsm_state (u : U) : option (U * Z) :=
  t ← transition_at (get_fsm_event (get_status u)) (get_fsm_state (get_status u));
  let new_state := next_state t in
  u ← perform t u;
  Some (put_status (set_fsm_state (get_status u) new_state) u, new_state).

(** [id_fsm_fire_event]. *)
Definition fsm_fire_event (e : Z) (u : U) : option (U * Z) :=
  t ← transition_at e (get_fsm_state (get_status u));
  let new_state := next_state t in
  u ← perform t u;
  let u := put_status (set_fsm_event (get_status u) e) u in
  let u := put_status (set_fsm_state (get_status u) new_state) u in
  Some (u, new_state).

(** A sequence of fired events, with the states returned. *)
Fixpoint fire_all (es : list Z) (u : U) : option (U * list Z) :=
  match es with
  | [] => Some (u, [])
  | e :: es =>
      '(u, s) ← fsm_fire_event e u;
      '(u, ss) ← fire_all es u;
      Some (u, s :: ss)
  end.

(** The loop [while (INA_FSM_NEXT_STATE(..) != stop)]. *)
Fixpoint run_until (fuel : nat) (stop : Z) (u : U) : option U :=
  match fuel with
  | O => None
  | S fuel =>
      '(u, s) ← next_fsm_state u;
      if s =? stop then Some u else run_until fuel stop u
  end.

End Machine.
Arguments transition U : clear implicits.

(** ** The status word *)

Lemma byte_small x : 0 <= x < 256 -> u8 x = x.
Proof. apply (wrap_small 8). Qed.

Lemma toword_spec h l : is_byte h -> is_byte l -> INA_TOWORD h l = h * 256 + l.
Proof.
  intros Hh Hl. unfold INA_TOWORD. rewrite (lor_shiftl_add 8) by (lia || done).
  apply wrap_small. unfold in_width in *. change (2 ^ 8) with 256 in *. change (2 ^ 16) with 65536. lia.
Qed.

Lemma high_low h l : is_byte h -> is_byte l ->
  INA_HIGH (h * 256 + l) = h /\ INA_LOW (h * 256 + l) = l.
Proof.
  unfold INA_HIGH, INA_LOW, in_width, wrap. change (2 ^ 8) with 256. change (2 ^ 16) with 65536.
  intros Hh Hl. rewrite Z.shiftr_div_pow2 by lia. change (2 ^ 8) with 256.
  rewrite (Z.mod_small _ 65536) by lia. split; dlia.
Qed.

Lemma word_split s : s = u16 s -> s = INA_HIGH s * 256 + INA_LOW s.
Proof.
  unfold INA_HIGH, INA_LOW, wrap. rewrite Z.shiftr_div_pow2 by lia.
  change (2 ^ 8) with 256. change (2 ^ 16) with 65536. intros ->. dlia.
Qed.

Lemma byte_of_high s : is_byte (INA_HIGH s).
Proof. apply wrap_in_width. lia. Qed.
Lemma byte_of_low s : is_byte (INA_LOW s).
Proof. apply wrap_in_width. lia. Qed.
Lemma byte_of_u8 s : is_byte (u8 s).
Proof. apply wrap_in_width. lia. Qed.
#[export] Hint Resolve byte_of_high byte_of_low byte_of_u8 : word.

Lemma get_set_state s ns : get_fsm_state (set_fsm_state s ns) = u8 ns.
Proof.
  unfold get_fsm_state, set_fsm_state. rewrite toword_spec by auto with word.
  apply high_low; auto with word.
Qed.

Lemma get_set_event s e : get_fsm_event (set_fsm_event s e) = u8 e.
Proof.
  unfold get_fsm_event, set_fsm_event. rewrite toword_spec by auto with word.
  apply high_low; auto with word.
Qed.

Lemma set_state_keeps_event s ns : get_fsm_event (set_fsm_state s ns) = get_fsm_event s.
Proof.
  unfold get_fsm_event, set_fsm_state. rewrite toword_spec by auto with word.
  apply high_low; auto with word.
Qed.

Lemma set_event_keeps_state s e : get_fsm_state (set_fsm_event s e) = get_fsm_state s.
Proof.
  unfold get_fsm_state, set_fsm_event. rewrite toword_spec by auto with word.
  apply high_low; auto with word.
Qed.

#[export] Hint Rewrite get_set_state get_set_event set_state_keeps_event set_event_keeps_state
  @get_put_status @put_put_status : fsm.

(** The status word holds a state and an event: each is read back as it was
    set (its low byte), setting one keeps the other, and a word is determined by
    the two. *)
Theorem fsm_status_fields s t x :
  get_fsm_state (set_fsm_state s x) = u8 x /\
  get_fsm_event (set_fsm_state s x) = get_fsm_event s /\
  get_fsm_event (set_fsm_event s x) = u8 x /\
  get_fsm_state (set_fsm_event s x) = get_fsm_state s /\
  (s = u16 s -> t = u16 t -> get_fsm_state s = get_fsm_state t ->
   get_fsm_event s = get_fsm_event t -> s = t).
Proof.
  split_and!; autorewrite with fsm; try done.
  intros Hs Ht H1 H2. pose proof (word_split s Hs). pose proof (word_split t Ht).
  unfold get_fsm_state, get_fsm_event in *. congruence.
Qed.

Lemma fsm_status_fields_witness :
  (u8 2 = 2 /\ get_fsm_state (set_fsm_state 0x0100 2) = u8 2) /\
  get_fsm_event (set_fsm_state 0x0100 2) = 1 /\ (0x0102 = set_fsm_state 0x0100 2).
Proof.
  destruct (fsm_status_fields 0x0102 (set_fsm_state 0x0100 2) 2) as (_ & _ & _ & _ & H).
  split_and!; [done|apply (fsm_status_fields 0x0100 0 2)|done|].
  apply H; vm_compute; done.
Defined.

(** ** The machine *)

Section Laws.
Context {U : Type} `{!HasStatus U}.
Variables (max_events max_states : Z).
Hypothesis Hbytes : max_events <= 256 /\ max_states <= 256.
Variable transitions : list (list (transition U)).

(** A table that the compiler accepts and fsm.h asks for: every event has
    a transition for every state, and leads to a state. *)
Definition complete : Prop :=
  forall e s, 0 <= e < max_events -> 0 <= s < max_states ->
    exists t, transition_at transitions e s = Some t /\ 0 <= next_state t < max_states.

Definition valid_state (u : U) : Prop := 0 <= get_fsm_state (get_status u) < max_states.
Definition valid_event (u : U) : Prop := 0 <= get_fsm_event (get_status u) < max_events.

(** The reference: the automaton of the table. *)
Definition delta (s e : Z) : Z :=
  match transition_at transitions e s with Some t => next_state t | None => s end.

(** The states an automaton goes through. *)
Fixpoint trajectory (s : Z) (es : list Z) : list Z :=
  match es with [] => [] | e :: es => delta s e :: trajectory (delta s e) es end.

(** The actions never leave the defined behaviour. *)
Definition actions_defined : Prop :=
  forall e s t u, transition_at transitions e s = Some t -> get_fsm_state (get_status u) = s ->
    is_Some (perform t u).

Hypothesis Hcomplete : complete.

Lemma delta_valid s e : 0 <= s < max_states -> 0 <= e < max_events -> 0 <= delta s e < max_states.
Proof. intros Hs He. unfold delta. destruct (Hcomplete e s He Hs) as (t & -> & ?). done. Qed.

Lemma fire_event_state e u u' s' :
  valid_state u -> 0 <= e < max_events -> fsm_fire_event transitions e u = Some (u', s') ->
  s' = delta (get_fsm_state (get_status u)) e /\ get_fsm_state (get_status u') = s' /\
  get_fsm_event (get_status u') = e.
Proof.
  intros Hs He. unfold fsm_fire_event, delta. destruct (Hcomplete e _ He Hs) as (t & Ht & Hn).
  rewrite Ht. cbn [option_bind mbind]. destruct (perform t u) as [u1|]; [|done].
  cbn [option_bind mbind]. intros [= <- <-]. autorewrite with fsm.
  rewrite !byte_small by lia. done.
Qed.

Lemma next_state_state u u' s' :
  valid_state u -> valid_event u -> next_fsm_state transitions u = Some (u', s') ->
  s' = delta (get_fsm_state (get_status u)) (get_fsm_event (get_status u)) /\
  get_fsm_state (get_status u') = s'.
Proof.
  intros Hs He. unfold next_fsm_state, delta. destruct (Hcomplete _ _ He Hs) as (t & Ht & Hn).
  rewrite Ht. cbn [option_bind mbind]. destruct (perform t u) as [u1|]; [|done].
  cbn [option_bind mbind]. intros [= <- <-]. autorewrite with fsm.
  rewrite !byte_small by lia. done.
Qed.

Lemma fire_event_defined e u :
  actions_defined -> valid_state u -> 0 <= e < max_events ->
  is_Some (fsm_fire_event transitions e u).
Proof.
  intros Ha Hs He. unfold fsm_fire_event. destruct (Hcomplete e _ He Hs) as (t & Ht & Hn).
  rewrite Ht. cbn [option_bind mbind]. destruct (Ha e _ t u Ht eq_refl) as [u1 ->]. by eexists.
Qed.

End Laws.

(** C30. A machine with a complete table implements the automaton of its table,
    whatever its actions do to the memory of the client, the status word
    included: firing events from a valid state never reads outside the table,
    returns the states that the automaton goes through, ends in the last of
    them and remembers the last event. *)
Theorem fsm_refines_automaton {U} `{!HasStatus U} max_events max_states
    (transitions : list (list (transition U))) es (u : U) :
  max_events <= 256 /\ max_states <= 256 -> complete max_events max_states transitions ->
  actions_defined transitions -> valid_state max_states u ->
  Forall (fun e => 0 <= e < max_events) es ->
  exists u', fire_all transitions es u =
      Some (u', trajectory transitions (get_fsm_state (get_status u)) es) /\
    get_fsm_state (get_status u') =
      default (get_fsm_state (get_status u)) (last (trajectory transitions (get_fsm_state (get_status u)) es)) /\
    get_fsm_event (get_status u') = default (get_fsm_event (get_status u)) (last es) /\
    valid_state max_states u'.
Proof.
  intros Hb Hc Ha. revert u. induction es as [|e es IH]; intros u Hs Hes; [by exists u|].
  apply Forall_cons in Hes as [He Hes]. cbn [fire_all trajectory].
  destruct (fire_event_defined max_events max_states transitions Hc e u Ha Hs He) as [[u1 s1] Hf].
  destruct (fire_event_state max_events max_states Hb transitions Hc e u u1 s1 Hs He Hf) as (-> & Hs1 & He1).
  rewrite Hf. cbn [option_bind mbind].
  destruct (IH u1) as (u' & Hr & Hl & Hev & Hv); [|done|].
  { unfold valid_state. rewrite Hs1. by eapply delta_valid. }
  rewrite Hs1 in Hr, Hl. rewrite Hr. cbn [option_bind mbind]. exists u'. split; [done|].
  rewrite Hl, Hev, He1, !last_cons. split_and!; [| |done].
  - by destruct (last (trajectory transitions (delta transitions (get_fsm_state (get_status u)) e) es)).
  - by destruct (last es).
Qed.

(** ** The signal light of tests/test_fsm.c

    Five states and two events; every action asserts the state of the lamps it
    expects.  The events are fired by the actions themselves, which write the
    event of the status. *)
Module Signal.
Record light := Light { is_on : bool; is_red : bool; is_orange : bool; is_green : bool; c : Z; fsm_status : Z }.

#[global] Instance light_status : HasStatus light := {
  get_status := fsm_status;
  put_status s l := Light (is_on l) (is_red l) (is_orange l) (is_green l) (c l) s;
  get_put_status s l := eq_refl;
  put_put_status s t l := eq_refl
}.

Definition OFF : Z := 0.
Definition ON : Z := 1.
Definition RED : Z := 2.
Definition ORANGE : Z := 3.
Definition GREEN : Z := 4.
Definition TURN_ON_OFF : Z := 0.
Definition SWITCH : Z := 1.

Definition asserting (b : bool) (l : light) : option light := if b then Some l else None.

Definition turn_on (l : light) : option light :=
  asserting (negb (is_on l || is_red l || is_orange l || is_green l) && (c l =? 0))
    (Light true false false false (c l) (set_fsm_event (fsm_status l) SWITCH)).
Definition turn_off (l : light) : option light :=
  asserting (is_on l && negb (is_red l || is_orange l) && is_green l && (c l =? 3))
    (Light false (is_red l) (is_orange l) false (c l) (fsm_status l)).
Definition turn_red_on (l : light) : option light :=
  asserting (is_on l && negb (is_red l || is_orange l) && Bool.eqb (is_green l) (0 <? c l))
    (Light (is_on l) true (is_orange l) false (c l) (fsm_status l)).
Definition turn_orange_on (l : light) : option light :=
  asserting (is_on l && is_red l && negb (is_orange l || is_green l))
    (Light (is_on l) false true (is_green l) (c l) (fsm_status l)).
Definition turn_green_on (l : light) : option light :=
  asserting (is_on l && negb (is_red l || is_green l) && is_orange l)
    (Light (is_on l) (is_red l) false true (c l + 1)
      (if c l + 1 =? 3 then set_fsm_event (fsm_status l) TURN_ON_OFF else fsm_status l)).

Definition signal_transitions : list (list (transition light)) :=
  [[Transition (Some turn_on) ON; Transition (Some turn_off) OFF; Transition (Some turn_off) OFF;
    Transition (Some turn_off) OFF; Transition (Some turn_off) OFF];
   [Transition (Some Some) ON; Transition (Some turn_red_on) RED; Transition (Some turn_orange_on) ORANGE;
    Transition (Some turn_green_on) GREEN; Transition (Some turn_red_on) RED]].

(** The test runs the lamp from the state OFF with the event TURN_ON_OFF until
    it is OFF again, and finds [c = 3]. *)
Example signal_light :
  run_until signal_transitions 20 OFF (Light false false false false 0 0) =
    Some (Light false false false false 3 (set_fsm_event (set_fsm_state 0 OFF) TURN_ON_OFF)).
Proof. reflexivity. Qed.

(** The same table without its actions, fired from outside. *)
Definition silent : list (list (transition light)) :=
  map (map (fun t => INA_FSM_NO_TRANSITION (next_state t))) signal_transitions.

Lemma silent_complete : complete 2 5 silent.
Proof.
  intros e s He Hs. assert (e = 0 \/ e = 1) as [-> | ->] by lia;
    assert (s = 0 \/ s = 1 \/ s = 2 \/ s = 3 \/ s = 4) as [-> |[-> |[-> |[-> | ->]]]] by lia;
    (eexists; split; [reflexivity|]; vm_compute; split; congruence).
Qed.

Lemma silent_defined : actions_defined silent.
Proof.
  intros e s t u Ht _. unfold transition_at in Ht. apply bind_Some in Ht as (row & Hr & Ht).
  unfold silent in Hr. rewrite list_lookup_fmap in Hr. apply fmap_Some in Hr as (row' & _ & ->).
  rewrite list_lookup_fmap in Ht. apply fmap_Some in Ht as (t' & _ & ->). by eexists.
Qed.
End Signal.

Lemma fsm_refines_automaton_witness :
  exists u', fire_all Signal.silent [0; 1; 1; 1; 1; 0] (Signal.Light false false false false 0 0x0100) =
      Some (u', [1; 2; 3; 4; 2; 0]) /\ get_fsm_state (get_status u') = 0.
Proof.
  destruct (fsm_refines_automaton 2 5 Signal.silent [0; 1; 1; 1; 1; 0]
    (Signal.Light false false false false 0 0x0100)) as (u' & H & Hs & _).
  - lia.
  - exact Signal.silent_complete.
  - exact Signal.silent_defined.
  - vm_compute. split; congruence.
  - repeat constructor; lia.
  - exists u'. split; [exact H|exact Hs].
Defined.

End Fsm.
