(* ===== verification/Process.v ===== *)
(** * Processes (process.c, process.h)

    The life cycle of a child process: the state machine [process_fsm] of
    process.c on the machinery of Fsm.v, its actions with the calls they make
    to the operating system, and the client operations that fire its events.
    The POSIX variant of the code is modelled.  The operating system is a
    parameter (class [OS]). *)
From Stdlib Require Import ZArith Lia Bool.
From stdpp Require Import base numbers option fin_maps gmap list.
From S2P Require Import Prelude Error Hashtable Table Fsm.

Module Process.
Import Error Hashtable Table Fsm.

(** ** Data *)

Inductive process_fsm_state : Set := INA_PROCESS_STARTABLE | INA_PROCESS_RUNNING | INA_PROCESS_STOPPED.
Inductive process_fsm_event : Set := INA_PROCESS_START | INA_PROCESS_STOP | INA_PROCESS_RESET.

Definition state_number (s : process_fsm_state) : Z :=
  match s with INA_PROCESS_STARTABLE => 0 | INA_PROCESS_RUNNING => 1 | INA_PROCESS_STOPPED => 2 end.
Definition event_number (e : process_fsm_event) : Z :=
  match e with INA_PROCESS_START => 0 | INA_PROCESS_STOP => 1 | INA_PROCESS_RESET => 2 end.

#[export] Instance process_fsm_state_eq_dec : EqDecision process_fsm_state.
Proof. solve_decision. Defined.
#[export] Instance process_fsm_event_eq_dec : EqDecision process_fsm_event.
Proof. solve_decision. Defined.

Definition INA_PROCESS_CF_WAIT : Z := 4.
Definition INA_NO : Z := 0.
Definition INA_YES : Z := 1.

Abbreviation text := (list Z).

(** The fields of the descriptor that the operations on a process read. *)
Record descriptor := Descriptor {
  d_full_path : text; d_working_dir : option text; d_startup_args : text; d_cf : Z
}.

(** [struct ina_process_s]; the context and [init] are never read. *)
Record process := Process_ {
  p_descriptor : descriptor; p_state : Z; p_exit_code : Z; p_last_rc : Z; p_pid : Z
}.

Definition set_last_rc (rc : Z) (p : process) : process :=
  Process_ (p_descriptor p) (p_state p) (p_exit_code p) rc (p_pid p).
Definition set_exit_code (c : Z) (p : process) : process :=
  Process_ (p_descriptor p) (p_state p) c (p_last_rc p) (p_pid p).
Definition set_pid (pid : Z) (p : process) : process :=
  Process_ (p_descriptor p) (p_state p) (p_exit_code p) (p_last_rc p) pid.
Definition set_state (s : Z) (p : process) : process :=
  Process_ (p_descriptor p) s (p_exit_code p) (p_last_rc p) (p_pid p).

Definition waits (p : process) : bool := negb (Z.land (d_cf (p_descriptor p)) INA_PROCESS_CF_WAIT =? 0).

(** The system calls of process.c, with the state [W] of the system. *)
Class OS (W : Type) := {
  fork : W -> W * Z;
  kill : Z -> Z -> W -> W * Z;
  waitpid : Z -> Z -> W -> W * (Z * Z);
  chdir : text -> W -> W * Z;
  errno : W -> Z;
  WIFEXITED : Z -> bool;
  WEXITSTATUS : Z -> Z;
  SIGTERM : Z;
  ESRCH : Z;
  WNOHANG : Z
}.

(** What an action works on: the system and the process. *)
Record mem (W : Type) := Mem { world : W; proc : process }.
Arguments Mem {W} _ _.
Arguments world {W} _.
Arguments proc {W} _.

#[global] Instance mem_status W : HasStatus (mem W) := {
  get_status u := p_state (proc u);
  put_status s u := Mem (world u) (set_state s (proc u));
  get_put_status s u := eq_refl;
  put_put_status s t u := eq_refl
}.

Section Actions.
Context {W : Type} `{!OS W}.
Variable version_hex : Z.
(** [ina_str_split(args, " ", &c)]: the tokens, Str.v. *)
Variable split_args : text -> list text.

(** [INA_ERROR] and [INA_OS_ERROR] give the return code they set. *)
Definition os_error (x : Z) (w : W) : Z := INA_RC_PACK version_hex x (errno w).
Definition error (x : Z) : Z := INA_RC_PACK version_hex x 0.

(** [__ina_process_is_running]: [still_running] and the new process. *)
Definition __ina_process_is_running (u : mem W) : mem W * Z :=
  let (w, r) := kill (p_pid (proc u)) 0 (world u) in
  let after_kill (w : W) :=
    let '(w, (w', status)) := waitpid (p_pid (proc u)) WNOHANG w in
    if w' =? -1 then
      (Mem w (set_last_rc (os_error (Z.lor (INA_ES S_OPERATION) (INA_ERR E_FAILED)) w) (proc u)), INA_NO)
    else if w' =? 0 then (Mem w (set_last_rc INA_SUCCESS (proc u)), INA_YES)
    else if p_exit_code (proc u) <? 0 then
      if WIFEXITED status then
        (Mem w (set_last_rc INA_SUCCESS (set_exit_code (WEXITSTATUS status) (proc u))), INA_NO)
      else (Mem w (proc u), INA_NO)
    else (Mem w (proc u), INA_NO) in
  if r =? -1 then
    if negb (errno w =? ESRCH) then
      (Mem w (set_last_rc (os_error (Z.lor (INA_ES S_OPERATION) (INA_ERR E_FAILED)) w) (proc u)), INA_NO)
    else if waits (proc u) then (Mem w (set_last_rc INA_SUCCESS (proc u)), INA_NO)
    else after_kill w
  else after_kill w.

(** The array [args] the child hands to [execv], which has 16 slots; [None] is
    a write past them. *)
Definition exec_args (d : descriptor) : option (list (option text)) :=
  let tokens := split_args (d_startup_args d) in
  if Z.of_nat (length tokens) + 2 <=? 16 then
    Some (Some (d_full_path d) :: map Some tokens ++ [None])
  else None.

(** The branch of the child: it comes back to its caller only when the working
    directory cannot be entered; otherwise [execv] replaces it or [exit] ends
    it, or it has written past [args]. *)
Inductive child_end := ChildReturns (u : mem W) | ChildExecs (args : list (option text)) | ChildOverflows.

Definition child (w : W) (p : process) : child_end :=
  let run := match exec_args (p_descriptor p) with Some args => ChildExecs args | None => ChildOverflows end in
  match d_working_dir (p_descriptor p) with
  | Some dir =>
      let (w, r) := chdir dir w in
      if negb (r =? 0) then ChildReturns (Mem w p) else run
  | None => run
  end.

Definition __ina_process_start (u : mem W) : option (mem W) :=
  let (w, pid) := fork (world u) in
  let p := proc u in
  if pid <? 0 then
    Some (Mem w (set_last_rc (os_error (Z.lor (INA_ES S_PROCESS) (INA_ERR_NOT_ E_CREATED)) w) p))
  else if pid =? 0 then match child w p with ChildReturns u => Some u | _ => None end
  else
    let p := set_pid pid p in
    if waits p then
      let '(w, (_, status)) := waitpid pid 0 w in
      if WIFEXITED status then
        Some (Mem w (set_exit_code (WEXITSTATUS status)
          (set_state (set_fsm_state (p_state p) (state_number INA_PROCESS_STOPPED)) p)))
      else Some (Mem w p)
    else Some (Mem w p).

Definition __ina_process_stop (u : mem W) : option (mem W) :=
  let p := proc u in
  if 0 <? p_pid p then
    let (w, r) := kill (p_pid p) 0 (world u) in
    if negb (r =? ESRCH) then
      let (w, r) := kill (p_pid p) SIGTERM w in
      if r =? -1 then
        Some (Mem w (set_last_rc (os_error (Z.lor (INA_ES S_PROCESS) (INA_ERR_NOT_ E_STOPPED)) w) p))
      else Some (Mem w (set_last_rc INA_SUCCESS p))
    else Some (Mem w (set_last_rc (os_error INA_ERR_OPERATION_FAILED w) p))
  else Some u.

Definition __ina_process_reset (u : mem W) : option (mem W) :=
  let p := set_exit_code (-1) (set_pid 0 (proc u)) in
  Some (Mem (world u) (set_last_rc (ina_err_clear_rc (p_last_rc p)) p)).

Definition __ina_process_fsm_event_error (u : mem W) : option (mem W) := Some u.

Definition process_fsm_transitions : list (list (transition (mem W))) :=
  let to a s := Transition (Some a) (state_number s) in
  [[to __ina_process_start INA_PROCESS_RUNNING;
    to __ina_process_fsm_event_error INA_PROCESS_STARTABLE;
    to __ina_process_fsm_event_error INA_PROCESS_STARTABLE];
   [to __ina_process_fsm_event_error INA_PROCESS_RUNNING;
    to __ina_process_stop INA_PROCESS_STOPPED;
    to __ina_process_fsm_event_error INA_PROCESS_RUNNING];
   [to __ina_process_fsm_event_error INA_PROCESS_STOPPED;
    to __ina_process_fsm_event_error INA_PROCESS_STOPPED;
    to __ina_process_reset INA_PROCESS_STARTABLE]].

Definition fire (e : process_fsm_event) (u : mem W) : option (mem W) :=
  '(u, _) ← fsm_fire_event process_fsm_transitions (event_number e) u; Some u.

(** ** Operations

    Each gives the new memory and the code it returns; [None] when the call
    does not come back. *)
Definition last_result (u : mem W) : Z :=
  if INA_FAILED (p_last_rc (proc u)) then error (p_last_rc (proc u)) else INA_SUCCESS.

Definition ina_process_start (u : mem W) : option (mem W * Z) :=
  u ← fire INA_PROCESS_START u;
  let u := if waits (proc u) then
      Mem (world u) (set_state (set_fsm_state (p_state (proc u)) (state_number INA_PROCESS_STOPPED)) (proc u))
    else u in
  Some (u, last_result u).

Definition ina_process_stop (u : mem W) : option (mem W * Z) :=
  u ← fire INA_PROCESS_STOP u; Some (u, last_result u).

Definition ina_process_reset (u : mem W) : option (mem W * Z) :=
  u ← fire INA_PROCESS_RESET u; Some (u, last_result u).

(** [ina_process_query_state]: the state stored and the code. *)
Definition ina_process_query_state (p : process) : Z * Z :=
  (get_fsm_state (p_state p),
   if INA_FAILED (p_last_rc p) then error (p_last_rc p) else INA_SUCCESS).

(** [ina_process_get_exit_code]: the exit code is stored even when the last
    return code is an error. *)
Definition ina_process_get_exit_code (u : mem W) : mem W * option Z * Z :=
  let (u, still_running) := __ina_process_is_running u in
  if still_running =? INA_YES then (u, None, error (Z.lor (INA_ES S_PROCESS) (INA_ERR E_RUNNING)))
  else (u, Some (p_exit_code (proc u)), last_result u).

(** The callbacks for a cron context. *)
Definition __ina_process_cron_start_cb (u : mem W) : option (mem W * Z) :=
  if get_fsm_state (p_state (proc u)) =? state_number INA_PROCESS_STARTABLE then
    u ← fire INA_PROCESS_START u; Some (u, INA_SUCCESS)
  else Some (u, INA_SUCCESS).

Definition __ina_process_cron_stop_cb (u : mem W) : option (mem W * Z) :=
  if get_fsm_state (p_state (proc u)) =? state_number INA_PROCESS_RUNNING then
    u ← fire INA_PROCESS_STOP u;
    u ← fire INA_PROCESS_RESET u;
    Some (u, INA_SUCCESS)
  else Some (u, INA_SUCCESS).

(** One call of a client. *)
Inductive op := Start | Stop | Reset | CronStart | CronStop | QueryState | GetExitCode.

Definition run_op (o : op) (u : mem W) : option (mem W * Z) :=
  match o with
  | Start => ina_process_start u
  | Stop => ina_process_stop u
  | Reset => ina_process_reset u
  | CronStart => __ina_process_cron_start_cb u
  | CronStop => __ina_process_cron_stop_cb u
  | QueryState => Some (u, snd (ina_process_query_state (proc u)))
  | GetExitCode => let '(u, _, rc) := ina_process_get_exit_code u in Some (u, rc)
  end.

Fixpoint run_ops (os : list op) (u : mem W) : option (mem W * list Z) :=
  match os with
  | [] => Some (u, [])
  | o :: os =>
      '(u, rc) ← run_op o u;
      '(u, rcs) ← run_ops os u;
      Some (u, rc :: rcs)
  end.

End Actions.

(** ** Contexts

    A context keeps its processes in a hash table, keyed by their address; a
    process that was given back stays there with a null descriptor and is
    recycled.  The processes themselves are in the heap [ctx_heap]; the flag
    stands for [p->descriptor == NULL]. *)
Record cell := Cell { c_process : process; c_free : bool }.

Record ctx (T : Type) := Ctx { ctx_processes : T; ctx_heap : gmap Z cell }.
Arguments Ctx {T} _ _.
Arguments ctx_processes {T} _.
Arguments ctx_heap {T} _.

Definition no_descriptor : descriptor := Descriptor [] None [] 0.
(** The memory after [ina_mem_set(p, 0, sizeof)]; the pool hands out cleared
    memory too. *)
Definition zero_cell : cell := Cell (Process_ no_descriptor 0 0 0 0) true.

Section Contexts.
Context {T : Type} `{!TableOps T}.

(** The search for a recyclable process: every one is cleared, the last one
    is taken. *)
Fixpoint recycle (ps : list Z) (heap : gmap Z cell) (found : Z) : gmap Z cell * Z :=
  match ps with
  | [] => (heap, found)
  | p :: ps =>
      match heap !! p with
      | Some (Cell _ true) => recycle ps (<[p := zero_cell]> heap) p
      | _ => recycle ps heap found
      end
  end.

(** [ina_process_new]: [c_ref] is the reference count of the descriptor, and
    [p_new] and [d_new] are what the pool gives for the process and for the
    copy of the descriptor (0 when it is exhausted). *)
Definition ina_process_new (c : ctx T) (d : descriptor) (c_ref p_new d_new : Z) : ctx T * result Z :=
  if 0 <? c_ref then (c, Err (Z.lor (INA_ES S_DESCRIPTOR) (INA_ERR E_IN_USE))) else
  let (heap, found) :=
    if 0 <? tb_count (ctx_processes c) then recycle (fst (tb_iter (ctx_processes c))) (ctx_heap c) 0
    else (ctx_heap c, 0) in
  let '(heap, p) :=
    if found =? 0 then (if p_new =? 0 then heap else <[p_new := zero_cell]> heap, p_new) else (heap, found) in
  if p =? 0 then (Ctx (ctx_processes c) heap, Err INA_ERR_OUT_OF_MEMORY) else
  if d_new =? 0 then (Ctx (ctx_processes c) heap, Err INA_ERR_OUT_OF_MEMORY) else
  let q := Process_ d (set_fsm_state 0 (state_number INA_PROCESS_STARTABLE)) (-1) 0 0 in
  (Ctx (tb_set (ctx_processes c) (key_ptr p) p) (<[p := Cell q false]> heap), Ok p).

(** [ina_process_free] *)
Definition ina_process_free (c : ctx T) (p : Z) : ctx T :=
  Ctx (ctx_processes c) (alter (fun q => Cell (c_process q) true) p (ctx_heap c)).

(** An operation on the process at [p]; [None] for a dangling pointer or a call
    that does not come back. *)
Definition on_process {W R} (w : W) (c : ctx T) (p : Z) (f : mem W -> option (mem W * R))
    : option (W * ctx T * R) :=
  q ← ctx_heap c !! p;
  '(u, r) ← f (Mem w (c_process q));
  Some (world u, Ctx (ctx_processes c) (<[p := Cell (proc u) (c_free q)]> (ctx_heap c)), r).

Section Exec.
Context {W : Type} `{!OS W}.
Variable version_hex : Z.
Variable split_args : text -> list text.

(** [ina_process_exec]: the process that is stored and the code.  The directory of the
    descriptor, which the code does not write (Lifetimes.v), is taken to be null. *)
Definition ina_process_exec (w : W) (c : ctx T) (full_path startup_args : text) (p_new d_new : Z)
    : option (W * ctx T * (Z * Z)) :=
  if (length full_path =? 0)%nat then Some (w, c, (0, error version_hex INA_ERR_INVALID_ARGUMENT)) else
  let d := Descriptor full_path None startup_args 0 in
  match ina_process_new c d 0 p_new d_new with
  | (c, Ok p) =>
      '(w, c, rc) ← on_process w c p (ina_process_start version_hex split_args);
      Some (w, c, (p, rc))
  | (c, Err e) => Some (w, c, (0, error version_hex e))
  end.

(** [ina_process_exec_and_wait]: a failure of [ina_process_new] is not
    reported. *)
Definition ina_process_exec_and_wait (w : W) (c : ctx T) (full_path startup_args : text) (p_new d_new : Z)
    : option (W * ctx T * (Z * Z)) :=
  if (length full_path =? 0)%nat then Some (w, c, (0, error version_hex INA_ERR_INVALID_ARGUMENT)) else
  let d := Descriptor full_path None startup_args INA_PROCESS_CF_WAIT in
  match ina_process_new c d 0 p_new d_new with
  | (c, Ok p) =>
      '(w, c, rc) ← on_process w c p (ina_process_start version_hex split_args);
      if INA_FAILED rc then Some (w, c, (p, rc)) else
      '(w, c, rc) ← on_process w c p (fun u =>
        let '(u, _, rc) := ina_process_get_exit_code version_hex u in Some (u, rc));
      if INA_FAILED rc then Some (w, c, (p, rc)) else Some (w, c, (p, INA_SUCCESS))
  | (c, Err e) => Some (w, c, (0, INA_SUCCESS))
  end.
End Exec.
End Contexts.

(** ** The life cycle

    The system calls are recorded by a system that delegates to another one. *)
Inductive syscall := SFork | SKill (pid sig : Z) | SWaitpid (pid : Z) | SChdir.

#[global] Instance traced_os {W} `{!OS W} : OS (list syscall * W) := {
  fork w := let (w', r) := fork w.2 in ((w.1 ++ [SFork], w'), r);
  kill pid sig w := let (w', r) := kill pid sig w.2 in ((w.1 ++ [SKill pid sig], w'), r);
  waitpid pid opts w := let (w', r) := waitpid pid opts w.2 in ((w.1 ++ [SWaitpid pid], w'), r);
  chdir d w := let (w', r) := chdir d w.2 in ((w.1 ++ [SChdir], w'), r);
  errno w := errno w.2;
  WIFEXITED := @WIFEXITED W _;
  WEXITSTATUS := @WEXITSTATUS W _;
  SIGTERM := @SIGTERM W _;
  ESRCH := @ESRCH W _;
  WNOHANG := @WNOHANG W _
}.

(** What a life cycle does to the outside. *)
Inductive effect := Spawn | Terminate.

Section Lifecycle.
Context {W : Type} `{!OS W}.

Definition effect_of (c : syscall) : option effect :=
  match c with
  | SFork => Some Spawn
  | SKill _ sig => if sig =? SIGTERM then Some Terminate else None
  | _ => None
  end.
Definition effects (tr : list syscall) : list effect := omap effect_of tr.

(** The reference machine: a state, and whether there is a child. *)
Definition fsm_delta (s : process_fsm_state) (e : process_fsm_event) : process_fsm_state :=
  match e, s with
  | INA_PROCESS_START, INA_PROCESS_STARTABLE => INA_PROCESS_RUNNING
  | INA_PROCESS_START, _ => INA_PROCESS_STARTABLE
  | INA_PROCESS_STOP, INA_PROCESS_RUNNING => INA_PROCESS_STOPPED
  | INA_PROCESS_STOP, _ => INA_PROCESS_RUNNING
  | INA_PROCESS_RESET, INA_PROCESS_STOPPED => INA_PROCESS_STARTABLE
  | INA_PROCESS_RESET, _ => INA_PROCESS_STOPPED
  end.

Definition spec_fire (e : process_fsm_event) (s : process_fsm_state * bool)
    : process_fsm_state * bool * list effect :=
  let (st, child) := s in
  let '(child, eff) :=
    match e, st with
    | INA_PROCESS_START, INA_PROCESS_STARTABLE => (true, [Spawn])
    | INA_PROCESS_STOP, INA_PROCESS_RUNNING => (child, if child then [Terminate] else [])
    | INA_PROCESS_RESET, INA_PROCESS_STOPPED => (false, [])
    | _, _ => (child, [])
    end in
  (fsm_delta st e, child, eff).

Definition spec_op (wait : bool) (o : op) (s : process_fsm_state * bool)
    : process_fsm_state * bool * list effect :=
  match o with
  | Start =>
      let '(st, child, eff) := spec_fire INA_PROCESS_START s in
      (if wait then INA_PROCESS_STOPPED else st, child, eff)
  | Stop => spec_fire INA_PROCESS_STOP s
  | Reset => spec_fire INA_PROCESS_RESET s
  | CronStart => if decide (s.1 = INA_PROCESS_STARTABLE) then spec_fire INA_PROCESS_START s else (s, [])
  | CronStop =>
      if decide (s.1 = INA_PROCESS_RUNNING) then
        let '(s, eff) := spec_fire INA_PROCESS_STOP s in
        let '(s, eff') := spec_fire INA_PROCESS_RESET s in
        (s, eff ++ eff')
      else (s, [])
  | QueryState | GetExitCode => (s, [])
  end.

Fixpoint spec_ops (wait : bool) (os : list op) (s : process_fsm_state * bool)
    : process_fsm_state * bool * list effect :=
  match os with
  | [] => (s, [])
  | o :: os =>
      let '(s, eff) := spec_op wait o s in
      let '(s, eff') := spec_ops wait os s in
      (s, eff ++ eff')
  end.

(** The process [u] is in the reference state [s]. *)
Definition abstracts (wait : bool) (s : process_fsm_state * bool) (p : process) : Prop :=
  get_fsm_state (p_state p) = state_number s.1 /\ waits p = wait /\
  (if s.2 then 0 < p_pid p else p_pid p = 0).

(** A well-behaved system, seen from the parent: [fork] gives the child a
    positive number (the failing case is in [process_defects]), [kill]
    returns 0 or -1. *)
Hypothesis fork_parent : forall w, 0 < (fork w).2.
Hypothesis kill_returns : forall pid sig w, (kill pid sig w).2 = 0 \/ (kill pid sig w).2 = -1.
Hypothesis signals : SIGTERM (W := W) <> 0 /\ 0 < ESRCH (W := W).
Variable version_hex : Z.
Variable split_args : text -> list text.

Abbreviation twrld := (list syscall * W)%type.

(** [u'] is reached from [u] with the effects [eff]. *)
Definition ran (u u' : mem twrld) (eff : list effect) : Prop :=
  p_descriptor (proc u') = p_descriptor (proc u) /\
  exists cs, (world u').1 = (world u).1 ++ cs /\ effects cs = eff.

Lemma ran_none u u' : p_descriptor (proc u') = p_descriptor (proc u) -> (world u').1 = (world u).1 -> ran u u' [].
Proof. intros Hd Hw. split; [done|]. exists []. by rewrite app_nil_r. Qed.

Lemma ran_trans u1 u2 u3 e1 e2 : ran u1 u2 e1 -> ran u2 u3 e2 -> ran u1 u3 (e1 ++ e2).
Proof.
  intros [Hd1 (c1 & H1 & <-)] [Hd2 (c2 & H2 & <-)]. split; [congruence|].
  exists (c1 ++ c2). rewrite H2, H1, <- app_assoc. split; [done|]. unfold effects. by rewrite omap_app.
Qed.

Lemma start_action u :
  exists u', __ina_process_start version_hex split_args u = Some u' /\ ran u u' [Spawn] /\ 0 < p_pid (proc u').
Proof.
  destruct u as [[tr w] p]. unfold __ina_process_start. cbn [world proc fork traced_os fst snd].
  pose proof (fork_parent w) as Hf. destruct (fork w) as [w1 pid]. cbn [snd] in Hf.
  destruct (Z.ltb_spec pid 0); [lia|]. destruct (Z.eqb_spec pid 0); [lia|].
  assert (forall q : process, p_descriptor q = p_descriptor p -> p_pid q = pid -> forall cs w2,
    effects cs = [Spawn] -> ran (Mem (tr, w) p) (Mem (tr ++ cs, w2) q) [Spawn] /\ 0 < p_pid q) as Hran.
  { intros q Hd Hp cs w2 Hc. split; [|lia]. split; [done|]. by exists cs. }
  destruct (waits _); [|eexists; split; [reflexivity|]; by apply Hran].
  cbn [waitpid traced_os fst snd]. destruct (waitpid pid 0 _) as [w2 [? status]]. rewrite <- app_assoc.
  destruct (WIFEXITED status); (eexists; split; [reflexivity|]; by apply Hran).
Qed.

Lemma stop_action u :
  exists u', __ina_process_stop version_hex u = Some u' /\
    ran u u' (if 0 <? p_pid (proc u) then [Terminate] else []) /\ p_pid (proc u') = p_pid (proc u).
Proof.
  destruct u as [[tr w] p]. unfold __ina_process_stop. cbn [world proc].
  destruct (Z.ltb_spec 0 (p_pid p)); [|eexists; split; [reflexivity|]; split; [by apply ran_none|done]].
  cbn [kill traced_os fst snd]. pose proof (kill_returns (p_pid p) 0 w) as Hk.
  destruct (kill (p_pid p) 0 w) as [w1 r]. cbn [snd ESRCH SIGTERM traced_os] in *.
  destruct (Z.eqb_spec r (ESRCH (W := W))); [destruct signals; lia|]. cbn [negb fst snd].
  destruct (kill (p_pid p) SIGTERM w1) as [w2 r'].
  assert (effects [SKill (p_pid p) 0; SKill (p_pid p) SIGTERM] = [Terminate]) as He.
  { unfold effects. cbn [omap list_omap effect_of]. rewrite Z.eqb_refl.
    destruct (Z.eqb_spec 0 (SIGTERM (W := W))) as [H0|_]; [by destruct signals; rewrite <- H0 in *|done]. }
  rewrite <- app_assoc.
  destruct (r' =? -1); (eexists; split; [reflexivity|]; split; [split; [done|by eexists]|done]).
Qed.

Lemma fire_via e t (u u1 : mem twrld) :
  transition_at (process_fsm_transitions version_hex split_args) (event_number e) (get_fsm_state (p_state (proc u)))
    = Some t ->
  perform t u = Some u1 ->
  exists u', fire version_hex split_args e u = Some u' /\ (world u').1 = (world u1).1 /\
    p_descriptor (proc u') = p_descriptor (proc u1) /\ p_pid (proc u') = p_pid (proc u1) /\
    get_fsm_state (p_state (proc u')) = u8 (next_state t).
Proof.
  intros Ht Hp. unfold fire, fsm_fire_event. cbn [get_status mem_status]. rewrite Ht.
  cbn [option_bind mbind]. rewrite Hp. cbn [option_bind mbind]. eexists. split; [reflexivity|].
  cbn. split_and!; try done. apply get_set_state.
Qed.

Lemma fire_spec e wait s (u : mem twrld) :
  abstracts wait s (proc u) ->
  exists u', fire version_hex split_args e u = Some u' /\
    ran u u' (spec_fire e s).2 /\ abstracts wait (spec_fire e s).1 (proc u').
Proof.
  destruct s as [st child]. intros (Hst & Hw & Hc). cbn [fst snd] in *.
  assert (forall t u1 eff c',
    transition_at (process_fsm_transitions version_hex split_args) (event_number e) (state_number st) = Some t ->
    next_state t = state_number (fsm_delta st e) -> perform t u = Some u1 -> ran u u1 eff ->
    (if c' : bool then 0 < p_pid (proc u1) else p_pid (proc u1) = 0) ->
    exists u', fire version_hex split_args e u = Some u' /\ ran u u' eff /\
      abstracts wait (fsm_delta st e, c') (proc u')) as Hvia.
  { intros t u1 eff c' Ht Hn Hp [Hd Hr] Hc'. destruct (fire_via e t u u1) as (u' & Hf & Hw' & Hd' & Hp' & Hs').
    - by rewrite Hst.
    - done.
    - exists u'. split; [done|]. split; [split; [congruence|by rewrite Hw']|].
      split_and!; cbn [fst snd].
      + rewrite Hs', Hn. by destruct (fsm_delta st e).
      + unfold waits in *. by rewrite Hd', Hd.
      + rewrite Hp'. by destruct c'. }
  pose proof (ran_none u u eq_refl eq_refl) as Hno.
  destruct e, st; cbn [spec_fire fst snd];
    try (eapply Hvia; [reflexivity|done|reflexivity|exact Hno|exact Hc]).
  - destruct (start_action u) as (u1 & H1 & H2 & H3). by eapply Hvia.
  - destruct (stop_action u) as (u1 & H1 & H2 & H3). eapply Hvia; [reflexivity|done|exact H1| |by rewrite H3].
    destruct child; [|by rewrite Hc in H2]. by rewrite (proj2 (Z.ltb_lt 0 (p_pid (proc u)))) in H2 by done.
  - eapply Hvia; [reflexivity|done|reflexivity|by apply ran_none|done].
Qed.

Lemma effects_probe pid : effects [SKill pid 0] = [] /\ effects ([SKill pid 0] ++ [SWaitpid pid]) = [].
Proof.
  unfold effects. cbn [omap list_omap effect_of app].
  destruct (Z.eqb_spec 0 (SIGTERM (W := W))) as [H0|_]; [by destruct signals; rewrite <- H0 in *|done].
Qed.

Lemma is_running_spec (u : mem twrld) :
  let u' := fst (__ina_process_is_running version_hex u) in
  ran u u' [] /\ p_state (proc u') = p_state (proc u) /\ p_pid (proc u') = p_pid (proc u).
Proof.
  destruct u as [[tr w] p]. destruct (effects_probe (p_pid p)) as [He1 He2].
  unfold __ina_process_is_running. cbn [world proc kill traced_os fst snd].
  destruct (kill (p_pid p) 0 w) as [w1 r]. cbn [errno ESRCH traced_os waitpid fst snd].
  destruct (waitpid (p_pid p) WNOHANG w1) as [w2 [r2 status]] eqn:Hw.
  assert (forall q : process, p_descriptor q = p_descriptor p -> p_state q = p_state p -> p_pid q = p_pid p ->
    forall cs w', effects cs = [] ->
    ran (Mem (tr, w) p) (Mem (tr ++ cs, w') q) [] /\ p_state q = p_state p /\ p_pid q = p_pid p) as Hran.
  { intros q Hd Hs Hp cs w' Hc. split; [|done]. split; [done|]. by exists cs. }
  rewrite <- app_assoc.
  repeat match goal with |- context [if ?b then _ else _] => destruct b end; by apply Hran.
Qed.

(** An operation with the effects and the state of the reference machine. *)
Definition simulates (wait : bool) (u : mem twrld) (r : option (mem twrld * Z))
    (s' : process_fsm_state * bool) (eff : list effect) : Prop :=
  exists u' rc, r = Some (u', rc) /\ ran u u' eff /\ abstracts wait s' (proc u').

Lemma process_op_spec o wait s (u : mem twrld) :
  abstracts wait s (proc u) ->
  simulates wait u (run_op version_hex split_args o u) (spec_op wait o s).1 (spec_op wait o s).2.
Proof.
  intros Ha. pose proof Ha as (Hst & Hw & Hc). unfold simulates.
  destruct o; cbn [run_op spec_op].
  - destruct (fire_spec INA_PROCESS_START wait s u Ha) as (u1 & Hf & Hr & H1).
    unfold ina_process_start. rewrite Hf. cbn [option_bind mbind].
    destruct (spec_fire INA_PROCESS_START s) as [[st child] eff]. cbn [fst snd] in *.
    destruct H1 as (H1 & H2 & H3). rewrite H2. do 2 eexists. split; [reflexivity|].
    destruct wait; [|by split_and!]. split; [exact Hr|].
    split_and!; cbn [fst snd proc set_state p_state p_pid waits p_descriptor]; [by rewrite get_set_state|done|done].
  - destruct (fire_spec INA_PROCESS_STOP wait s u Ha) as (u1 & Hf & Hr & H1).
    unfold ina_process_stop. rewrite Hf. by do 2 eexists.
  - destruct (fire_spec INA_PROCESS_RESET wait s u Ha) as (u1 & Hf & Hr & H1).
    unfold ina_process_reset. rewrite Hf. by do 2 eexists.
  - unfold __ina_process_cron_start_cb. rewrite Hst. case_decide as Hd.
    + rewrite Hd. destruct (fire_spec INA_PROCESS_START wait s u Ha) as (u1 & Hf & Hr & H1).
      cbn [Z.eqb state_number]. rewrite Hf. by do 2 eexists.
    + destruct (Z.eqb_spec (state_number s.1) (state_number INA_PROCESS_STARTABLE)); [by destruct (s.1)|].
      do 2 eexists. split; [reflexivity|]. split; [by apply ran_none|done].
  - unfold __ina_process_cron_stop_cb. rewrite Hst. case_decide as Hd.
    + rewrite Hd. cbn [Z.eqb state_number Pos.eqb].
      destruct (fire_spec INA_PROCESS_STOP wait s u Ha) as (u1 & Hf & Hr & H1).
      rewrite Hf. cbn [option_bind mbind]. destruct (spec_fire INA_PROCESS_STOP s) as [s1 e1].
      destruct (fire_spec INA_PROCESS_RESET wait s1 u1 H1) as (u2 & Hf2 & Hr2 & H2).
      rewrite Hf2. cbn [option_bind mbind]. destruct (spec_fire INA_PROCESS_RESET s1) as [s2 e2].
      do 2 eexists. split; [reflexivity|]. split; [by eapply ran_trans|done].
    + destruct (Z.eqb_spec (state_number s.1) (state_number INA_PROCESS_RUNNING)); [by destruct (s.1)|].
      do 2 eexists. split; [reflexivity|]. split; [by apply ran_none|done].
  - do 2 eexists. split; [reflexivity|]. split; [by apply ran_none|done].
  - unfold ina_process_get_exit_code. destruct (is_running_spec u) as (Hr & Hs & Hp).
    destruct (__ina_process_is_running version_hex u) as [u1 still]. cbn [fst] in *.
    assert (abstracts wait s (proc u1)).
    { split_and!; [by rewrite Hs|unfold waits in *; by rewrite (proj1 Hr)|by rewrite Hp]. }
    destruct (still =? INA_YES); by do 2 eexists.
Qed.

End Lifecycle.

(** Starting a process from the parent always comes back, whatever the state;
    a property of the system that its calls keep is kept. *)
Lemma start_preserves {W} `{!OS W} version_hex split_args (R : W -> Prop) (u : mem W) :
  (forall w : W, 0 < (fork w).2) -> (forall w, R w -> R (fork w).1) ->
  (forall pid opts w, R w -> R (waitpid pid opts w).1) ->
  0 <= get_fsm_state (p_state (proc u)) < 3 -> R (world u) ->
  exists u' rc, ina_process_start version_hex split_args u = Some (u', rc) /\ R (world u') /\
    0 <= get_fsm_state (p_state (proc u')) < 3.
Proof.
  intros Hf HRf HRw Hs HR.
  assert (exists t u1, transition_at (process_fsm_transitions version_hex split_args) 0
      (get_fsm_state (p_state (proc u))) = Some t /\ perform t u = Some u1 /\ R (world u1) /\ 0 <= next_state t < 3)
    as (t & u1 & Ht & Hp & HR1 & Hn).
  { assert (exists u1, __ina_process_start version_hex split_args u = Some u1 /\ R (world u1)) as (u1 & H1 & H2).
    { unfold __ina_process_start. pose proof (Hf (world u)). pose proof (HRf (world u) HR).
      destruct (fork (world u)) as [w pid]. cbn [fst snd] in *.
      destruct (Z.ltb_spec pid 0); [lia|]. destruct (Z.eqb_spec pid 0); [lia|].
      destruct (waits _); [|by eexists]. pose proof (HRw pid 0 w ltac:(done)).
      destruct (waitpid pid 0 w) as [w2 [? status]]. destruct (WIFEXITED status); by eexists. }
    assert (get_fsm_state (p_state (proc u)) = 0 \/ get_fsm_state (p_state (proc u)) = 1 \/
      get_fsm_state (p_state (proc u)) = 2) as [-> |[-> | ->]] by lia.
    - by eexists _, u1.
    - by eexists _, u.
    - by eexists _, u. }
  unfold ina_process_start, fire, fsm_fire_event. cbn [get_status mem_status event_number].
  rewrite Ht. cbn [option_bind mbind]. rewrite Hp. cbn [option_bind mbind].
  do 2 eexists. split; [reflexivity|].
  match goal with |- context [if ?b then _ else _] => destruct b end;
    cbn [world proc put_status get_status mem_status set_state p_state]; (split; [done|]);
    rewrite get_set_state, byte_small by (cbn [state_number]; lia); cbn [state_number]; lia.
Qed.


(** Systems to evaluate: the state counts the processes.  In the second one
    [fork] fails; the third one is seen from a child, and refuses [chdir]. *)
Definition os_with (fork_result : N -> Z) (chdir_result : Z) : OS N := {|
  fork w := ((w + 1)%N, fork_result w); kill _ _ w := (w, 0); waitpid pid _ w := (w, (pid, 0));
  chdir _ w := (w, chdir_result); errno _ := 11;
  WIFEXITED _ := true; WEXITSTATUS s := s / 256; SIGTERM := 15; ESRCH := 3; WNOHANG := 1
|}.
#[export] Instance simple_os : OS N := os_with (fun w => Z.of_N w + 1) 0.
Definition failing_os : OS N := os_with (fun _ => -1) 0.
Definition child_os : OS N := os_with (fun _ => 0) (-1).

Definition fresh_process : process := Process_ no_descriptor 0 (-1) 0 0.


(** ** Contexts *)

Section ContextLaws.
Context {T : Type} `{!TableOps T, !TableLaws 8 T}.

(** The table holds the processes of the heap, each under its address. *)
Definition ctx_ok (c : ctx T) : Prop :=
  exists m, tb_rep (ctx_processes c) m /\
    (forall k p, m !! k = Some p <-> k = key_ptr p /\ good_ptr p /\ is_Some (ctx_heap c !! p)) /\
    (forall p, is_Some (ctx_heap c !! p) -> good_ptr p).

Definition free_in (heap : gmap Z cell) (p : Z) : Prop := exists q, heap !! p = Some (Cell q true).

Lemma recycle_spec ps heap found :
  let '(heap', found') := recycle ps heap found in
  (forall p, is_Some (heap' !! p) <-> is_Some (heap !! p)) /\
  (forall p q, heap !! p = Some (Cell q false) -> heap' !! p = Some (Cell q false)) /\
  (found' = found \/ free_in heap found').
Proof.
  revert heap found. induction ps as [|p ps IH]; intros heap found; cbn [recycle]; [naive_solver|].
  destruct (heap !! p) as [[q [|]]|] eqn:Hp; [|by apply IH..].
  specialize (IH (<[p := zero_cell]> heap) p). destruct (recycle _ _ _) as [heap' found'].
  destruct IH as (Hd & Hk & Hr). split_and!.
  - intros x. rewrite Hd, lookup_insert_is_Some. destruct (decide (p = x)) as [<-|]; [rewrite Hp|]; naive_solver.
  - intros x y Hx. apply Hk. rewrite lookup_insert_ne; [done|]. intros ->. congruence.
  - right. destruct Hr as [-> | [y Hy]]; [by exists q|].
    destruct (decide (p = found')) as [<-|]; [by exists q|]. exists y. by rewrite lookup_insert_ne in Hy.
Qed.

(** The heap and the pointer before the process is filled in. *)
Lemma chosen_spec (c : ctx T) p_new :
  ctx_ok c -> good_ptr p_new -> ctx_heap c !! p_new = None ->
  let (heap, found) :=
    if 0 <? tb_count (ctx_processes c) then recycle (fst (tb_iter (ctx_processes c))) (ctx_heap c) 0
    else (ctx_heap c, 0) in
  let '(heap, p) := if found =? 0 then (<[p_new := zero_cell]> heap, p_new) else (heap, found) in
  good_ptr p /\ (p = p_new \/ free_in (ctx_heap c) p) /\
  (forall x, x <> p -> is_Some (heap !! x) <-> is_Some (ctx_heap c !! x)) /\
  (forall x q, ctx_heap c !! x = Some (Cell q false) -> heap !! x = Some (Cell q false)).
Proof.
  intros (m & _ & _ & Hgood) Hp Hnew.
  pose proof (recycle_spec (fst (tb_iter (ctx_processes c))) (ctx_heap c) 0) as Hrec.
  set (r := if 0 <? tb_count (ctx_processes c) then _ else _).
  assert (let '(heap', found') := r in
    (forall p, is_Some (heap' !! p) <-> is_Some (ctx_heap c !! p)) /\
    (forall p q, ctx_heap c !! p = Some (Cell q false) -> heap' !! p = Some (Cell q false)) /\
    (found' = 0 \/ free_in (ctx_heap c) found')) as Hr.
  { unfold r. destruct (0 <? _); [exact Hrec|]. naive_solver. }
  destruct r as [heap found]. destruct Hr as (Hd & Hk & Hf).
  destruct (Z.eqb_spec found 0) as [->|Hnz].
  - split_and!; [done|by left| |].
    + intros x Hx. by rewrite lookup_insert_ne by done.
    + intros x q Hx. rewrite lookup_insert_ne; [by apply Hk|]. intros ->. congruence.
  - destruct Hf as [->|Hf]; [done|]. split_and!; [|by right| |done].
    + apply Hgood. destruct Hf as [q ->]. by eexists.
    + intros x _. apply Hd.
Qed.
End ContextLaws.

(** A context hands out processes that nobody uses: [ina_process_new] gives
    the memory of the pool or a process that was given back, in the state
    startable and without an exit code; the processes in use keep their
    content, and the table of the context keeps holding exactly its processes.
    The context relies only on the interface of the hash table. *)
Theorem process_new_spec {T} `{!TableOps T, !TableLaws 8 T} (c : ctx T) d p_new d_new :
  ctx_ok c -> good_ptr p_new -> ctx_heap c !! p_new = None -> d_new <> 0 ->
  exists c' p, ina_process_new c d 0 p_new d_new = (c', Ok p) /\ ctx_ok c' /\
    (p = p_new \/ free_in (ctx_heap c) p) /\
    ctx_heap c' !! p = Some (Cell (Process_ d 0 (-1) 0 0) false) /\
    (forall x q, ctx_heap c !! x = Some (Cell q false) -> x <> p /\ ctx_heap c' !! x = Some (Cell q false)).
Proof.
  intros Hok Hp Hnew Hd. pose proof (chosen_spec c p_new Hok Hp Hnew) as Hch.
  destruct Hok as (m & Hrep & Hm & Hgood).
  unfold ina_process_new. cbn [Z.ltb Z.compare].
  destruct (if 0 <? tb_count _ then _ else _) as [heap found].
  destruct (Z.eqb_spec p_new 0) as [->|_]; [by destruct Hp as [_ []]|].
  destruct (if found =? 0 then _ else _) as [heap1 p].
  destruct Hch as (Hgp & Hwhich & Hdom & Hkeep).
  destruct (Z.eqb_spec p 0) as [->|Hp0]; [by destruct Hgp as [_ []]|].
  destruct (Z.eqb_spec d_new 0) as [->|_]; [done|].
  assert (forall x q, ctx_heap c !! x = Some (Cell q false) -> x <> p) as Hne.
  { intros x q Hx ->. destruct Hwhich as [->|[y Hy]]; congruence. }
  eexists _, p. split; [reflexivity|]. split_and!; [|done| |]; cbn [ctx_heap ctx_processes].
  - exists (<[key_ptr p := p]> m). split; [apply tb_set_rep; [done|by apply key_ptr_valid|done]|].
    cbn [ctx_heap ctx_processes]. split.
    + intros k x. rewrite lookup_insert_Some, lookup_insert_is_Some, Hm.
      destruct (decide (p = x)) as [<-|Hx].
      * destruct (decide (k = key_ptr p)) as [->|]; naive_solver.
      * rewrite (Hdom x) by done. split; [naive_solver|]. intros (-> & Hgx & [?|[_ ?]]); [done|].
        right. split; [|done]. intros Hk. by apply Hx, key_ptr_inj.
    + intros x [->|[Hx Hs]]%lookup_insert_is_Some; [done|]. apply Hgood. by apply Hdom.
  - by rewrite lookup_insert_eq.
  - intros x q Hx. pose proof (Hne x q Hx). split; [done|]. rewrite lookup_insert_ne by done. by apply Hkeep.
Qed.

Lemma process_free_ok {T} `{!TableOps T, !TableLaws 8 T} (c : ctx T) p :
  ctx_ok c -> ctx_ok (ina_process_free c p).
Proof.
  intros (m & Hrep & Hm & Hgood). exists m. unfold ina_process_free. cbn [ctx_processes ctx_heap].
  split; [done|]. split; [intros k x; rewrite Hm|intros x]; rewrite lookup_alter_is_Some; auto.
Qed.

(** A context on the hash table of Hashtable.v. *)
Definition no_clock : nat -> Z := fun _ => 0.
Definition empty_table : hashtable :=
  Hashtable_ 0 64 1 8 INA_HASHTABLE_PTR_KEY [zero_bucket; zero_bucket]
    (hash32_fn Hash.Hash.ina_hash_crc32) 0 0 None 0.
Definition empty_ctx : ctx hashtable := Ctx empty_table ∅.

#[local] Existing Instance hashtable_table.
#[local] Instance ptr_ops : TableOps hashtable := hashtable_table no_clock.
#[local] Instance ptr_laws : TableLaws 8 hashtable := hashtable_laws no_clock 8 ltac:(lia).

Lemma empty_ctx_ok : ctx_ok empty_ctx.
Proof.
  exists ∅. split.
  - by eapply (new_represents 8 no_clock (fun _ _ _ => 0) (repeat 0 16) INA_HASHTABLE_PTR_KEY None 1 0).
  - split.
    + intros k p. rewrite lookup_empty. cbn [empty_ctx ctx_heap]. rewrite lookup_empty.
      split; [done|]. intros (_ & _ & [? ?]). done.
    + intros p [? Hp]. by cbn [empty_ctx ctx_heap] in Hp.
Qed.

Lemma process_new_spec_witness :
  good_ptr 4096 /\
  exists c' p, ina_process_new empty_ctx no_descriptor 0 4096 8192 = (c', Ok p) /\ ctx_ok c' /\
    ctx_heap c' !! p = Some (Cell fresh_process false).
Proof.
  assert (good_ptr 4096) as Hp by (split; [lia|done]). split; [exact Hp|].
  destruct (process_new_spec empty_ctx no_descriptor 4096 8192 empty_ctx_ok Hp (lookup_empty _) ltac:(lia))
    as (c' & p & H & Hok & _ & Hq & _).
  exists c', p. split; [exact H|]. split; [exact Hok|exact Hq].
Defined.

(** A process given back is handed out again. *)
Example process_is_recycled :
  let c1 := fst (ina_process_new empty_ctx no_descriptor 0 4096 8192) in
  snd (ina_process_new (ina_process_free c1 4096) no_descriptor 0 12288 16384) = Ok 4096 /\
  snd (ina_process_new c1 no_descriptor 0 12288 16384) = Ok 12288.
Proof. split; vm_compute; reflexivity. Qed.

(** Where the life cycle departs from what its callers expect.
    - An event in the wrong state is no error, and it changes the state: three
      times start, each successful, creates a second child beside the first;
      stopping a stopped process makes it running.
    - A [fork] that fails leaves the process running.
    - A child that cannot enter its working directory comes back from
      [ina_process_start] with success, as a second copy of the caller.
    - Fifteen arguments overflow the array for [execv].
    - [ina_process_exec_and_wait] reports success without a process. *)
Theorem process_defects :
  (exists u, run_ops (W := list syscall * N) 0 (fun _ => []) [Start; Start; Start] (Mem ([], 100%N) fresh_process)
      = Some (u, [0; 0; 0]) /\ (world u).1 = [SFork; SFork]) /\
  (exists u, run_ops (W := N) 0 (fun _ => []) [Start; Stop; Stop] (Mem 100%N fresh_process) = Some (u, [0; 0; 0]) /\
    get_fsm_state (p_state (proc u)) = state_number INA_PROCESS_RUNNING) /\
  (exists u rc, @run_ops N failing_os 0 (fun _ => []) [Start] (Mem 100%N fresh_process) = Some (u, [rc]) /\
    INA_FAILED rc = true /\ get_fsm_state (p_state (proc u)) = state_number INA_PROCESS_RUNNING) /\
  (let p := Process_ (Descriptor [47] (Some [46]) [] 0) 0 (-1) 0 0 in
   exists u, @run_ops N child_os 0 (fun _ => []) [Start] (Mem 100%N p) = Some (u, [INA_SUCCESS])) /\
  exec_args (fun _ => repeat [97] 15) no_descriptor = None /\
  (exists c, ina_process_exec_and_wait (W := N) 0 (fun _ => []) 100%N empty_ctx [47] [] 0 0
    = Some (100%N, c, (0, INA_SUCCESS))).
Proof. split_and!; try (repeat eexists; vm_compute; reflexivity). Qed.
End Process.
