(* ===== verification/CronPattern.v ===== *)
(** * Cron patterns (cron.c: __ina_parse_field, ina_cron_parse_pattern)

    A pattern is five fields of numbers, ranges, steps and names; parsing marks
    the entries of five arrays.  C strings are lists of bytes, read as 0 behind
    their end.  A result [None] stands for behaviour that C leaves undefined: a
    store outside the array or an overflow of [int]. *)
From Stdlib Require Import ZArith Lia Bool String.
From stdpp Require Import base numbers option list.
From S2P Require Import Prelude Error Libc.

Module CronPattern.
Import Error Libc.

(** ** The field parser *)

(** [for (i = 0; names[i]; ++i)]: the first name the text starts with. *)
Fixpoint find_name (names : list text) (i : Z) (p : text) : option (Z * text) :=
  match names with
  | [] => None
  | n :: names => if has_prefix p n then Some (i, n) else find_name names (i + 1) p
  end.

Definition mark (ary : list Z) (i : Z) : option (list Z) := write_at ary i [1].

(** The loop that fills the array; the flag says that [failsafe] is not 0. *)
Fixpoint fill (failsafe : nat) (ary : list Z) (modvalue n1 n2 s0 skip : Z) : option (list Z * bool) :=
  match failsafe with
  | O => Some (ary, false)
  | S failsafe =>
      n1 ← int_op (n1 + 1);
      let n1 := Z.rem n1 modvalue in
      s0 ← int_op (s0 - 1);
      '(ary, s0) ← (if s0 =? 0 then ary ← mark ary (Z.rem n1 modvalue); Some (ary, skip)
                    else Some (ary, s0));
      if n1 =? n2 then Some (ary, true) else fill failsafe ary modvalue n1 n2 s0 skip
  end.

Definition at_end (p : text) : bool := (chr p =? 32) || (chr p =? 9) || (chr p =? 10) || (chr p =? 0).

(** The last loop: blanks, tabs and newlines are skipped. *)
Fixpoint skip_blank (p : text) : text :=
  match p with
  | c :: p' => if (c =? 32) || (c =? 9) || (c =? 10) then skip_blank p' else p
  | [] => []
  end.

(** The local variables of the loop. *)
Record scan := Scan { sc_ary : list Z; sc_n1 : Z; sc_n2 : Z; sc_ptr : text }.

(** How one turn of the loop ends: another turn, [break], or [return(NULL)]. *)
Inductive turn := Again (s : scan) | Break (s : scan) | Null (ary : list Z).

Section Field.
Variables (modvalue off : Z) (names : option (list text)).

(** A number, a name or a star; [false] when there is none of them. *)
Definition atom (n1 n2 : Z) (ptr : text) : option (Z * Z * text * bool) :=
  if chr ptr =? 42 then Some (0, modvalue - 1, tail ptr, true)
  else if is_digit (chr ptr) then
    let '(x, ptr) := strtol ptr in
    x ← int_op (to_int x + off);
    Some (if n1 <? 0 then (x, n2, ptr, true) else (n1, x, ptr, true))
  else
    match names with
    | None => Some (n1, n2, ptr, false)
    | Some names =>
        match find_name names 0 ptr with
        | None => Some (n1, n2, ptr, false)
        | Some (i, n) =>
            let ptr := drop (length n) ptr in
            Some (if n1 <? 0 then (i, n2, ptr, true) else (n1, i, ptr, true))
        end
    end.

Definition field_turn (s : scan) : option turn :=
  '(n1, n2, ptr, skip) ← atom (sc_n1 s) (sc_n2 s) (sc_ptr s);
  if negb skip then Some (Null (sc_ary s)) else
  if (chr ptr =? 45) && (n2 <? 0) then Some (Again (Scan (sc_ary s) n1 n2 (tail ptr))) else
  let n2 := if n2 <? 0 then n1 else n2 in
  let '(skip, ptr) := if chr ptr =? 47 then let '(x, ptr) := strtol (tail ptr) in (to_int x, ptr) else (1, ptr) in
  n1 ← int_op (n1 - 1);
  '(ary, ok) ← fill 1024 (sc_ary s) modvalue n1 n2 1 skip;
  if negb ok then Some (Null ary) else
  if negb (chr ptr =? 44) then Some (Break (Scan ary n1 n2 ptr))
  else Some (Again (Scan ary (-1) (-1) (tail ptr))).

(** The [while] loop; every turn but the last consumes a character. *)
Fixpoint field_loop (fuel : nat) (s : scan) : option turn :=
  match fuel with
  | O => None
  | S fuel =>
      if at_end (sc_ptr s) then Some (Break s) else
      t ← field_turn s;
      match t with Again s => field_loop fuel s | _ => Some t end
  end.

(** [__ina_parse_field]: the array and the pointer returned, [None] inside for
    a null pointer. *)
Definition __ina_parse_field (ary : list Z) (ptr : option text) : option (list Z * option text) :=
  match ptr with
  | None => Some (ary, None)
  | Some ptr =>
      t ← field_loop (S (length ptr)) (Scan ary (-1) (-1) ptr);
      match t with
      | Break s => Some (sc_ary s, if at_end (sc_ptr s) then Some (skip_blank (sc_ptr s)) else None)
      | Null ary => Some (ary, None)
      | Again _ => None
      end
  end.
End Field.

(** ** Patterns *)

Definition dow_array : list text := map bytes_of_string
  ["sun"; "mon"; "tue"; "wed"; "thu"; "fri"; "sat";
   "Sun"; "Mon"; "Tue"; "Wed"; "Thu"; "Fri"; "Sat"]%string.

Definition mon_array : list text := map bytes_of_string
  ["jan"; "feb"; "mar"; "apr"; "may"; "jun"; "jul"; "aug"; "sep"; "oct"; "nov"; "dec";
   "Jan"; "Feb"; "Mar"; "Apr"; "May"; "Jun"; "Jul"; "Aug"; "Sep"; "Oct"; "Nov"; "Dec"]%string.

(** [ina_cron_timetable_t] *)
Record timetable := Timetable {
  mins : list Z; hours : list Z; days : list Z; mons : list Z; dow : list Z
}.

Definition empty_timetable : timetable :=
  Timetable (repeat 0 60) (repeat 0 24) (repeat 0 32) (repeat 0 12) (repeat 0 7).

(** The scan for an entry that is 0. *)
Definition has_zero (ary : list Z) : bool := existsb (Z.eqb 0) ary.
Definition zeroed (ary : list Z) : list Z := repeat 0 (length ary).

(** [ina_cron_parse_pattern] on a pattern and a table that are not null. *)
Definition ina_cron_parse_pattern (pattern : text) (tab : timetable) : option (timetable * result unit) :=
  if (length pattern =? 0)%nat then Some (tab, Err INA_ERR_INVALID_ARGUMENT) else
  '(mi, buf) ← __ina_parse_field 60 0 None (mins tab) (Some pattern);
  '(ho, buf) ← __ina_parse_field 24 0 None (hours tab) buf;
  '(da, buf) ← __ina_parse_field 32 0 None (days tab) buf;
  '(mo, buf) ← __ina_parse_field 12 (-1) (Some mon_array) (mons tab) buf;
  '(dw, buf) ← __ina_parse_field 7 0 (Some dow_array) (dow tab) buf;
  match buf with
  | None => Some (Timetable mi ho da mo dw, Err INA_ERR_INVALID_PATTERN)
  | Some _ =>
      let weekUsed := has_zero dw in
      let daysUsed := has_zero da in
      let da' := if weekUsed && negb daysUsed then zeroed da else da in
      let dw' := if daysUsed && negb weekUsed then zeroed dw else dw in
      Some (Timetable mi ho da' mo dw', Ok tt)
  end.

(** [localtime]: the broken-down time that the scheduler reads. *)
Record tm := Tm { tm_min : Z; tm_hour : Z; tm_mday : Z; tm_mon : Z; tm_wday : Z }.

Definition is_set (ary : list Z) (i : Z) : bool := negb (nthZ 0 ary i =? 0).

(** The condition of [__ina_test_jobs] and [ina_cron_last_exec_systime]. *)
Definition matches (tab : timetable) (tp : tm) : bool :=
  is_set (mins tab) (tm_min tp) && is_set (hours tab) (tm_hour tp)
  && (is_set (days tab) (tm_mday tp) || is_set (dow tab) (tm_wday tp))
  && is_set (mons tab) (tm_mon tp).

(** ** The loop that fills an array *)

(** Entry [j] is marked by the range from [a] to [b] (cyclic, modulo [m]) in
    steps of [k]. *)
Definition selects (m a b k j : Z) : bool :=
  ((j - a) mod m <=? (b - a) mod m) && (((j - a) mod m) mod k =? 0).

Lemma mark_some ary i : 0 <= i < Z.of_nat (length ary) ->
  exists ary', mark ary i = Some ary' /\ length ary' = length ary /\
    forall j, 0 <= j -> nthZ 0 ary' j = if j =? i then 1 else nthZ 0 ary j.
Proof.
  intros Hi. unfold mark. rewrite write_at_some by (simpl; lia).
  eexists. split; [reflexivity|]. split.
  - rewrite !length_app, length_take, length_drop. cbn [length]. lia.
  - intros j Hj. unfold nthZ. rewrite !nth_lookup.
    replace (take (Z.to_nat i) ary ++ [1] ++ drop (Z.to_nat i + length [1]) ary)
      with (<[Z.to_nat i := 1]> ary).
    2: { rewrite insert_take_drop by lia. cbn [length app]. by rewrite Nat.add_1_r. }
    destruct (Z.eqb_spec j i) as [->|]; [by rewrite list_lookup_insert_eq by lia|].
    by rewrite list_lookup_insert_ne by lia.
Qed.

Lemma int_op_some x : - 2 ^ 31 <= x < 2 ^ 31 -> int_op x = Some x.
Proof.
  intros Hx. unfold int_op. destruct (Z.leb_spec (- 2 ^ 31) x); [|lia].
  by destruct (Z.ltb_spec x (2 ^ 31)); [|lia].
Qed.

Lemma mod_shift a c m : 0 < m -> (a - c mod m) mod m = (a - c) mod m.
Proof. intros. apply Zminus_mod_idemp_r. Qed.

(** Stepping once around the cycle. *)
Lemma cycle_pred x m : 0 < m -> (x - 1) mod m = if x mod m =? 0 then m - 1 else x mod m - 1.
Proof.
  intros Hm. pose proof (Z.mod_pos_bound x m Hm). destruct (Z.eqb_spec (x mod m) 0) as [H0|H0].
  - symmetry. apply Z.mod_unique with (x / m - 1); [lia|]. pose proof (Z.div_mod x m). lia.
  - symmetry. apply Z.mod_unique with (x / m); [lia|]. pose proof (Z.div_mod x m). lia.
Qed.

Lemma step_phase i s0 k : 1 <= s0 <= k -> 0 <= i ->
  ((i - (s0 - 1)) mod k =? 0) =
  if s0 =? 1 then (i =? 0) || ((i - 1 - (k - 1)) mod k =? 0)
  else negb (i =? 0) && ((i - 1 - (s0 - 1 - 1)) mod k =? 0).
Proof.
  intros Hs Hi. destruct (Z.eqb_spec s0 1) as [->|].
  - replace (i - 1 - (k - 1)) with (i + (-1) * k) by lia. rewrite Z.mod_add by lia.
    replace (i - (1 - 1)) with i by lia. destruct (Z.eqb_spec i 0) as [->|]; [|done].
    by rewrite Z.mod_0_l by lia.
  - destruct (Z.eqb_spec i 0) as [->|]; cbn [negb andb].
    + apply Z.eqb_neq. replace (0 - (s0 - 1)) with ((k - (s0 - 1)) + (-1) * k) by lia.
      rewrite Z.mod_add, Z.mod_small by lia. lia.
    + do 2 f_equal. lia.
Qed.

Lemma fill_spec m b k fuel ary n1 s0 :
  0 < m <= 1024 -> 0 <= b < m -> 1 <= s0 <= k -> k < 2 ^ 31 -> 0 <= n1 + 1 <= m ->
  length ary = Z.to_nat m -> (b - (n1 + 1)) mod m < Z.of_nat fuel ->
  exists ary', fill fuel ary m n1 b s0 k = Some (ary', true) /\ length ary' = length ary /\
    forall j, 0 <= j < m -> nthZ 0 ary' j =
      if ((j - (n1 + 1)) mod m <=? (b - (n1 + 1)) mod m) && (((j - (n1 + 1)) mod m - (s0 - 1)) mod k =? 0)
      then 1 else nthZ 0 ary j.
Proof.
  intros Hm Hb. revert ary n1 s0. induction fuel as [|fuel IH]; intros ary n1 s0 Hs Hk Hn Hl Hf.
  { pose proof (Z.mod_pos_bound (b - (n1 + 1)) m). lia. }
  cbn [fill]. rewrite int_op_some by lia. cbn [option_bind mbind]. rewrite int_op_some by lia.
  cbn [option_bind mbind]. rewrite Z.rem_mod_nonneg by lia. set (c := (n1 + 1) mod m).
  assert (0 <= c < m) as Hc by (by apply Z.mod_pos_bound; lia).
  rewrite Z.rem_mod_nonneg, (Z.mod_small c m) by lia.
  assert (forall x, (x - (n1 + 1)) mod m = (x - c) mod m) as Hcyc by (intros; unfold c; by rewrite mod_shift by lia).
  rewrite Hcyc in *.
  (* what is known after the mark *)
  assert (exists ary1 s1, (if s0 - 1 =? 0 then ary ← mark ary c; Some (ary, k) else Some (ary, s0 - 1)) = Some (ary1, s1) /\
    length ary1 = length ary /\ s1 = (if s0 =? 1 then k else s0 - 1) /\
    forall j, 0 <= j -> nthZ 0 ary1 j = if (j =? c) && (s0 =? 1) then 1 else nthZ 0 ary j) as (ary1 & s1 & -> & Hl1 & Hs1 & Hj1).
  { destruct (Z.eqb_spec (s0 - 1) 0), (Z.eqb_spec s0 1); try lia.
    - destruct (mark_some ary c) as (ary1 & -> & Hl1 & Hj1); [lia|]. exists ary1, k.
      split_and!; [done|done|done|]. intros j Hj. by rewrite andb_true_r, Hj1.
    - exists ary, (s0 - 1). split_and!; try done. intros. by rewrite andb_false_r. }
  cbn [option_bind mbind].
  assert (forall j, 0 <= j < m -> ((j - c) mod m =? 0) = (j =? c)) as Hz.
  { intros j Hj. destruct (Z.eqb_spec j c) as [->|]; [by rewrite Z.sub_diag, Z.mod_0_l by lia|].
    apply Z.eqb_neq. rewrite Z.mod_eq by lia. intros H0.
    assert (-1 < (j - c) / m < 1 \/ (j - c) / m = -1) as [?|H1]; [|nia|rewrite H1 in H0; lia].
    pose proof (Z.div_mod (j - c) m). pose proof (Z.mod_pos_bound (j - c) m). nia. }
  destruct (Z.eqb_spec c b) as [Hcb|Hcb].
  - exists ary1. split; [done|]. split; [done|]. intros j Hj. rewrite Hj1 by lia. rewrite Hcyc.
    pose proof (Z.mod_pos_bound (j - c) m). rewrite step_phase by lia. rewrite Hz by done.
    rewrite <- Hcb, Z.sub_diag, Z.mod_0_l by lia.
    destruct (Z.eqb_spec j c) as [->|Hjc].
    + rewrite Z.sub_diag, Z.mod_0_l by lia. by destruct (s0 =? 1).
    + assert ((j - c) mod m <> 0) by (apply Z.eqb_neq; rewrite Hz by done; by apply Z.eqb_neq).
      by destruct (Z.leb_spec ((j - c) mod m) 0); [lia|].
  - assert ((b - c) mod m <> 0) as Hr by (apply Z.eqb_neq; rewrite Hz by done; apply Z.eqb_neq; lia).
    assert (forall j, (j - (c + 1)) mod m = if (j - c) mod m =? 0 then m - 1 else (j - c) mod m - 1) as Hpred.
    { intros j. replace (j - (c + 1)) with (j - c - 1) by lia. by apply cycle_pred; lia. }
    destruct (IH ary1 c s1) as (ary' & -> & Hl' & Hj'); try lia.
    { subst s1. destruct (Z.eqb_spec s0 1); lia. }
    { rewrite Hpred. destruct (Z.eqb_spec ((b - c) mod m) 0); lia. }
    exists ary'. split; [done|]. split; [lia|]. intros j Hj. rewrite Hj', Hj1, Hcyc by lia.
    rewrite !Hpred, (proj2 (Z.eqb_neq _ _) Hr). pose proof (Z.mod_pos_bound (j - c) m).
    pose proof (Z.mod_pos_bound (b - c) m). rewrite (step_phase _ s0) by lia. rewrite Hz by done.
    destruct (Z.eqb_spec j c) as [->|Hjc].
    + rewrite Z.sub_diag, Z.mod_0_l by lia.
      destruct (Z.leb_spec (m - 1) ((b - c) mod m - 1)); [lia|].
      destruct (Z.leb_spec 0 ((b - c) mod m)); [|lia]. by destruct (s0 =? 1).
    + replace ((j - c) mod m - 1 <=? (b - c) mod m - 1) with ((j - c) mod m <=? (b - c) mod m)
        by (destruct (Z.leb_spec ((j - c) mod m) ((b - c) mod m)), (Z.leb_spec ((j - c) mod m - 1) ((b - c) mod m - 1)); lia).
      subst s1. by destruct (s0 =? 1).
Qed.

Lemma fill_selects m a b k ary :
  0 < m <= 1024 -> 0 <= a < m -> 0 <= b < m -> 1 <= k < 2 ^ 31 -> length ary = Z.to_nat m ->
  exists ary', fill 1024 ary m (a - 1) b 1 k = Some (ary', true) /\ length ary' = length ary /\
    forall j, 0 <= j < m -> nthZ 0 ary' j = if selects m a b k j then 1 else nthZ 0 ary j.
Proof.
  intros Hm Ha Hb Hk Hl. pose proof (Z.mod_pos_bound (b - a) m).
  destruct (fill_spec m b k 1024 ary (a - 1) 1) as (ary' & Hf & Hl' & Hj); try lia.
  { replace (b - (a - 1 + 1)) with (b - a) by lia. lia. }
  exists ary'. split; [done|]. split; [done|]. intros j Hj0. rewrite Hj by done. unfold selects.
  replace (a - 1 + 1) with a by lia. by rewrite Z.sub_0_r.
Qed.

(** ** The grammar of fields

    The reference: a field is a list of items separated by commas, an item is
    a star, an atom or a range of atoms, with an optional step; an atom is a
    numeral or a name. *)
Inductive fatom := Num (ds : text) | Name (i : nat).
Inductive span := Star | Single (a : fatom) | Range (a b : fatom).
Record item := Item { it_span : span; it_step : option text }.

Section Grammar.
Variables (modvalue off : Z) (names : option (list text)).

Definition atom_text (a : fatom) : text :=
  match a with Num ds => ds | Name i => List.nth i (default [] names) [] end.
Definition atom_value (a : fatom) : Z :=
  match a with Num ds => value ds + off | Name i => Z.of_nat i end.

Definition span_text (s : span) : text :=
  match s with Star => [42] | Single a => atom_text a | Range a b => atom_text a ++ 45 :: atom_text b end.
Definition step_text (st : option text) : text := match st with None => [] | Some ds => 47 :: ds end.
Definition item_text (it : item) : text := span_text (it_span it) ++ step_text (it_step it).

Fixpoint field_text (its : list item) : text :=
  match its with
  | [] => []
  | [it] => item_text it
  | it :: its => item_text it ++ 44 :: field_text its
  end.

(** What an item means: the bounds of a cyclic range and a step. *)
Definition span_bounds (s : span) : Z * Z :=
  match s with
  | Star => (0, modvalue - 1)
  | Single a => (atom_value a, atom_value a)
  | Range a b => (atom_value a, atom_value b)
  end.
Definition step_value (st : option text) : Z := match st with None => 1 | Some ds => value ds end.
Definition item_selects (it : item) (j : Z) : bool :=
  let (a, b) := span_bounds (it_span it) in selects modvalue a b (step_value (it_step it)) j.
Definition field_selects (its : list item) (j : Z) : bool := existsb (fun it => item_selects it j) its.

(** Well-formed fields: numbers and names within the array. *)
Definition atom_ok (a : fatom) : bool :=
  (match a with
   | Num ds => numeral ds && (value ds <? 2 ^ 31)
   | Name i => (i <? length (default [] names))%nat
   end) && (0 <=? atom_value a) && (atom_value a <? modvalue).
Definition span_ok (s : span) : bool :=
  match s with Star => true | Single a => atom_ok a | Range a b => atom_ok a && atom_ok b end.
Definition step_ok (st : option text) : bool :=
  match st with None => true | Some ds => numeral ds && (0 <? value ds) && (value ds <? 2 ^ 31) end.
Definition item_ok (it : item) : bool := span_ok (it_span it) && step_ok (it_step it).

(** Names have three letters, are distinct, and start with no digit, star or
    blank. *)
Definition name_ok (n : text) : bool :=
  (length n =? 3)%nat && negb (is_digit (chr n)) && negb (chr n =? 42) && negb (at_end n).
Definition names_ok : Prop := forallb name_ok (default [] names) = true /\ NoDup (default [] names).

Hypothesis Hnames : names_ok.
Hypothesis Hmod : 0 < modvalue <= 1024.

Lemma find_name_at l i k n rest :
  Forall (fun n => length n = 3%nat) l -> NoDup l -> l !! i = Some n ->
  find_name l k (n ++ rest) = Some (k + Z.of_nat i, n).
Proof.
  intros Hl. revert i k. induction Hl as [|n0 l Hn0 Hl IH]; intros i k Hd Hi; [done|].
  apply NoDup_cons in Hd as [Hnin Hd]. destruct i as [|i]; cbn [find_name].
  - cbn in Hi. simplify_eq. rewrite has_prefix_app. do 2 f_equal. lia.
  - cbn in Hi. destruct (has_prefix (n ++ rest) n0) eqn:Hp.
    + apply has_prefix_same_length in Hp; [|rewrite Hn0; apply (Forall_lookup_1 _ _ _ _ Hl Hi)].
      subst. destruct Hnin. by apply list_elem_of_lookup_2 with i.
    + rewrite (IH i (k + 1) Hd Hi). do 2 f_equal. lia.
Qed.

(** An atom is read in one go: into [n1] when it is the first one. *)
Lemma atom_spec a n1 n2 rest : atom_ok a = true -> stops rest ->
  atom modvalue off names n1 n2 (atom_text a ++ rest) =
    Some (if n1 <? 0 then (atom_value a, n2, rest, true) else (n1, atom_value a, rest, true)) /\
  0 <= atom_value a < modvalue /\ at_end (atom_text a ++ rest) = false.
Proof.
  unfold atom_ok. intros [[Ha H1%Z.leb_le]%andb_true_iff H2%Z.ltb_lt]%andb_true_iff Hr. destruct a as [ds|i].
  - apply andb_true_iff in Ha as [Hn Hv%Z.ltb_lt]. cbn [atom_text atom_value] in *.
    destruct (strtol_numeral ds rest Hn Hv Hr) as (Hs & Hnn & Hc).
    split; [|split; [done|]].
    + unfold atom. destruct (digit_facts _ Hc) as (_ & _ & _ & ->). rewrite Hc, Hs, to_int_id by lia.
      rewrite int_op_some by lia. done.
    + unfold at_end. unfold is_digit in Hc. apply andb_true_iff in Hc as [?%Z.leb_le ?%Z.leb_le]. lia.
  - apply Nat.ltb_lt in Ha. destruct Hnames as [Hok Hnd]. cbn [atom_text atom_value] in *.
    destruct names as [l|]; [|cbn in Ha; lia]. change (default [] (Some l)) with l in *.
    destruct (lookup_lt_is_Some_2 l i Ha) as [n Hn]. rewrite nth_lookup, Hn. change (default [] (Some n)) with n.
    rewrite forallb_forall in Hok. setoid_rewrite <- list_elem_of_In in Hok.
    pose proof (Hok n (list_elem_of_lookup_2 _ _ _ Hn)) as Hnok. unfold name_ok in Hnok.
    apply andb_true_iff in Hnok as [[[Hl Hc]%andb_true_iff Hst]%andb_true_iff Hend].
    apply Nat.eqb_eq in Hl. apply negb_true_iff in Hc, Hst, Hend.
    assert (chr (n ++ rest) = chr n) as Hchr by (by destruct n).
    split; [|split; [done|]].
    + unfold atom. rewrite Hchr, Hst, Hc.
      rewrite (find_name_at l i 0 n rest); [|apply Forall_forall|done|done].
      * rewrite drop_app_length. done.
      * intros n' Hn'. pose proof (Hok n' Hn') as H'. unfold name_ok in H'.
        do 3 apply andb_true_iff in H' as [H' _]. by apply Nat.eqb_eq.
    + unfold at_end in *. by rewrite Hchr.
Qed.

(** What follows an item: a comma or the end of the field. *)
Definition after_item (rest : text) : Prop := chr rest = 44 \/ at_end rest = true.

Lemma after_item_facts rest : after_item rest ->
  stops rest /\ (chr rest =? 45) = false /\ (chr rest =? 47) = false.
Proof.
  unfold after_item, stops, at_end, is_digit. intros [->|H]; [done|].
  rewrite !orb_true_iff, !Z.eqb_eq in H. lia.
Qed.

Lemma field_step_spec st rest : step_ok st = true -> after_item rest ->
  (let p := step_text st ++ rest in
   stops p /\ (chr p =? 45) = false /\
   (if chr p =? 47 then let '(x, q) := strtol (tail p) in (to_int x, q) else (1, p)) = (step_value st, rest)) /\
  1 <= step_value st < 2 ^ 31.
Proof.
  intros Hs Hr. destruct (after_item_facts rest Hr) as (H1 & H2 & H3).
  destruct st as [ds|]; cbn [step_text step_value app]; [|by rewrite H3].
  cbn [step_ok] in Hs. apply andb_true_iff in Hs as [[Hn Hv%Z.ltb_lt]%andb_true_iff Hv'%Z.ltb_lt].
  destruct (strtol_numeral ds rest Hn Hv' H1) as (Hst & _ & _).
  split; [|lia]. split_and!; [done|done|]. cbn [chr hd tail Z.eqb Pos.eqb]. rewrite Hst, to_int_id by lia. done.
Qed.

(** The turn that has read the last atom of an item fills the array. *)
Lemma turn_end s n1 n2 st rest :
  atom modvalue off names (sc_n1 s) (sc_n2 s) (sc_ptr s) = Some (n1, n2, step_text st ++ rest, true) ->
  step_ok st = true -> after_item rest -> 0 <= n1 < modvalue -> n2 < modvalue ->
  length (sc_ary s) = Z.to_nat modvalue ->
  let b := if n2 <? 0 then n1 else n2 in
  exists ary' n, length ary' = length (sc_ary s) /\
    (forall j, 0 <= j < modvalue -> nthZ 0 ary' j =
      if selects modvalue n1 b (step_value st) j then 1 else nthZ 0 (sc_ary s) j) /\
    field_turn modvalue off names s =
      Some (if chr rest =? 44 then Again (Scan ary' (-1) (-1) (tail rest)) else Break (Scan ary' n b rest)).
Proof.
  intros Ha Hs Hr Hn1 Hn2 Hl b. destruct (field_step_spec st rest Hs Hr) as ((_ & H45 & Hst) & Hk).
  destruct (fill_selects modvalue n1 b (step_value st) (sc_ary s)) as (ary' & Hf & Hl' & Hj); try done; try lia.
  { subst b. destruct (Z.ltb_spec n2 0); lia. }
  exists ary', (n1 - 1). split; [done|]. split; [done|].
  unfold field_turn. rewrite Ha. cbn [option_bind mbind negb]. cbn zeta in H45, Hst.
  rewrite H45. cbn [andb]. rewrite Hst. rewrite int_op_some by lia. cbn [option_bind mbind].
  fold b. rewrite Hf. cbn [option_bind mbind negb]. by destruct (chr rest =? 44).
Qed.

(** The turn that has read the first atom of a range. *)
Lemma turn_dash s n1 n2 p :
  atom modvalue off names (sc_n1 s) (sc_n2 s) (sc_ptr s) = Some (n1, n2, 45 :: p, true) -> n2 < 0 ->
  field_turn modvalue off names s = Some (Again (Scan (sc_ary s) n1 n2 p)).
Proof.
  intros Ha Hn. unfold field_turn. rewrite Ha. cbn [option_bind mbind negb chr hd].
  by destruct (Z.ltb_spec n2 0); [|lia].
Qed.

Lemma field_loop_item it rest ary :
  item_ok it = true -> after_item rest -> length ary = Z.to_nat modvalue ->
  exists ary' n n1 n2, length ary' = length ary /\
    (forall j, 0 <= j < modvalue -> nthZ 0 ary' j = if item_selects it j then 1 else nthZ 0 ary j) /\
    (0 < n <= length (item_text it))%nat /\
    forall fuel, field_loop modvalue off names (n + fuel) (Scan ary (-1) (-1) (item_text it ++ rest)) =
      if chr rest =? 44 then field_loop modvalue off names fuel (Scan ary' (-1) (-1) (tail rest))
      else Some (Break (Scan ary' n1 n2 rest)).
Proof.
  unfold item_ok, item_text, item_selects. destruct it as [sp st]. cbn [it_span it_step].
  intros [Hsp Hst]%andb_true_iff Hr Hl. destruct (field_step_spec st rest Hst Hr) as ((Hstop & _ & _) & _).
  rewrite <- app_assoc. destruct sp as [|a|a b]; cbn [span_bounds span_text span_ok] in *.
  - destruct (turn_end (Scan ary (-1) (-1) ([42] ++ step_text st ++ rest)) 0 (modvalue - 1) st rest)
      as (ary' & n & Hl' & Hj & Ht); try done; try lia.
    revert Hj Ht. destruct (Z.ltb_spec (modvalue - 1) 0); [lia|]. intros Hj Ht.
    exists ary', 1%nat, n, (modvalue - 1). split_and!; [done|done|lia|cbn; lia|].
    intros fuel. cbn [plus field_loop]. rewrite Ht. by destruct (chr rest =? 44).
  - destruct (atom_spec a (-1) (-1) (step_text st ++ rest) Hsp Hstop) as (Ha & Hv & He).
    destruct (turn_end (Scan ary (-1) (-1) (atom_text a ++ step_text st ++ rest)) (atom_value a) (-1) st rest)
      as (ary' & n & Hl' & Hj & Ht); try done; try lia.
    exists ary', 1%nat, n, (atom_value a). split_and!; [done|done|lia| |].
    { destruct (atom_text a) eqn:E; [|cbn; lia]. exfalso. destruct (atom_spec a (-1) (-1) [] Hsp eq_refl) as (_ & _ & Hno).
      by rewrite E in Hno. }
    intros fuel. cbn [plus field_loop sc_ptr]. rewrite He, Ht. by destruct (chr rest =? 44).
  - apply andb_true_iff in Hsp as [Hsa Hsb]. rewrite <- !app_assoc. cbn [app].
    destruct (atom_spec a (-1) (-1) (45 :: atom_text b ++ step_text st ++ rest) Hsa eq_refl) as (Ha & Hva & Hea).
    destruct (atom_spec b (atom_value a) (-1) (step_text st ++ rest) Hsb Hstop) as (Hb & Hvb & Heb).
    revert Hb. destruct (Z.ltb_spec (atom_value a) 0); [lia|]. intros Hb.
    destruct (turn_end (Scan ary (atom_value a) (-1) (atom_text b ++ step_text st ++ rest)) (atom_value a) (atom_value b) st rest)
      as (ary' & n & Hl' & Hj & Ht); try done; try lia.
    revert Hj Ht. destruct (Z.ltb_spec (atom_value b) 0); [lia|]. intros Hj Ht.
    exists ary', 2%nat, n, (atom_value b). split_and!; [done|done|lia| |].
    { rewrite !length_app. cbn [length]. rewrite !length_app. destruct (atom_text a) eqn:E; [|cbn; lia].
      exfalso. destruct (atom_spec a (-1) (-1) [] Hsa eq_refl) as (_ & _ & Hno). by rewrite E in Hno. }
    intros fuel. cbn [plus field_loop sc_ptr]. rewrite Hea.
    rewrite (turn_dash (Scan ary (-1) (-1) _) _ _ _ Ha) by done.
    cbn [option_bind mbind sc_ptr sc_ary]. rewrite Heb, Ht. by destruct (chr rest =? 44).
Qed.

Lemma field_loop_items its rest ary fuel :
  its <> [] -> forallb item_ok its = true -> at_end rest = true -> length ary = Z.to_nat modvalue ->
  (length (field_text its) <= fuel)%nat ->
  exists ary' n1 n2, length ary' = length ary /\
    (forall j, 0 <= j < modvalue -> nthZ 0 ary' j = if field_selects its j then 1 else nthZ 0 ary j) /\
    field_loop modvalue off names fuel (Scan ary (-1) (-1) (field_text its ++ rest)) =
      Some (Break (Scan ary' n1 n2 rest)).
Proof.
  intros Hne Hok Hend. revert ary fuel Hne Hok. induction its as [|it its IH]; intros ary fuel Hne Hok Hl Hf; [done|].
  cbn [forallb] in Hok. apply andb_true_iff in Hok as [Hit Hits].
  assert (field_text (it :: its) ++ rest = item_text it ++ match its with [] => rest | _ => 44 :: field_text its ++ rest end) as ->.
  { destruct its; cbn [field_text]; [done|]. by rewrite <- app_assoc. }
  assert (length (field_text (it :: its)) = length (item_text it) +
    match its with [] => 0 | _ => S (length (field_text its)) end)%nat as Hlen.
  { destruct its; cbn [field_text]; [lia|]. by rewrite length_app. }
  set (rest' := match its with [] => rest | _ => 44 :: field_text its ++ rest end).
  assert (after_item rest') as Hr by (subst rest'; destruct its; [by right|by left]).
  destruct (field_loop_item it rest' ary Hit Hr Hl) as (ary1 & n & n1 & n2 & Hl1 & Hj1 & Hn & Hloop).
  replace fuel with (n + (fuel - n))%nat by lia. rewrite Hloop. subst rest'. destruct its as [|it' its].
  - exists ary1, n1, n2. split; [done|]. split.
    + intros j Hj. cbn [field_selects existsb]. rewrite orb_false_r. by apply Hj1.
    + destruct (Z.eqb_spec (chr rest) 44) as [H44|]; [|done]. unfold at_end in Hend. by rewrite H44 in Hend.
  - cbn [chr hd Z.eqb Pos.eqb tail].
    destruct (IH ary1 (fuel - n)%nat) as (ary' & m1 & m2 & Hl' & Hj' & Hrun); [done|done|lia|lia|].
    exists ary', m1, m2. split; [lia|]. split; [|done].
    intros j Hj. rewrite Hj', Hj1 by done. change (field_selects (it :: it' :: its) j) with
      (item_selects it j || field_selects (it' :: its) j).
    by destruct (item_selects it j), (field_selects (it' :: its) j).
Qed.

Lemma at_end_skip_blank p : at_end p = false -> skip_blank p = p.
Proof.
  destruct p as [|c p]; [done|]. unfold at_end. cbn [chr hd skip_blank].
  intros [[[-> ->]%orb_false_iff ->]%orb_false_iff _]%orb_false_iff. done.
Qed.

Lemma field_text_start its rest : its <> [] -> forallb item_ok its = true -> at_end rest = true ->
  skip_blank (field_text its ++ rest) = field_text its ++ rest.
Proof.
  intros Hne Hok Hend. apply at_end_skip_blank. destruct its as [|[sp st] its]; [done|].
  cbn [forallb] in Hok. apply andb_true_iff in Hok as [Hit _]. unfold item_ok in Hit.
  apply andb_true_iff in Hit as [Hsp Hst]. cbn [it_span it_step] in *.
  assert (exists rest', field_text (Item sp st :: its) ++ rest = span_text sp ++ step_text st ++ rest' /\ after_item rest')
    as (rest' & -> & Hr).
  { destruct its; cbn [field_text]; unfold item_text; cbn [it_span it_step].
    - exists rest. split; [by rewrite app_assoc|by right].
    - eexists. rewrite <- !app_assoc. split; [reflexivity|]. by left. }
  destruct (field_step_spec st rest' Hst Hr) as ((Hstop & _ & _) & _).
  destruct sp as [|a|a b]; cbn [span_text span_ok] in *; [done| |].
  - by apply (atom_spec a (-1) (-1)).
  - apply andb_true_iff in Hsp as [Hsa _]. rewrite <- app_assoc. by apply (atom_spec a (-1) (-1)).
Qed.

(** The parser on a field followed by the end of the pattern or a blank. *)
Lemma parse_field_items its rest ary :
  its <> [] -> forallb item_ok its = true -> at_end rest = true -> length ary = Z.to_nat modvalue ->
  exists ary', __ina_parse_field modvalue off names ary (Some (field_text its ++ rest)) =
      Some (ary', Some (skip_blank rest)) /\ length ary' = length ary /\
    forall j, 0 <= j < modvalue -> nthZ 0 ary' j = if field_selects its j then 1 else nthZ 0 ary j.
Proof.
  intros Hne Hok Hend Hl.
  destruct (field_loop_items its rest ary (S (length (field_text its ++ rest))) Hne Hok Hend Hl)
    as (ary' & n1 & n2 & Hl' & Hj & Hrun); [rewrite length_app; lia|].
  exists ary'. split; [|done]. unfold __ina_parse_field. rewrite Hrun. cbn [option_bind mbind sc_ary sc_ptr].
  by rewrite Hend.
Qed.

End Grammar.

(** Every field of the grammar is parsed to its meaning: an array of the
    field gets exactly the entries marked that one of the items selects, a range
    taken cyclically and a step counted from its first entry, the other entries
    stay, and the parser stops behind the blanks that follow the field. *)
Theorem parse_field_grammar modvalue off names its rest ary :
  names_ok names -> 0 < modvalue <= 1024 -> its <> [] ->
  forallb (item_ok modvalue off names) its = true -> at_end rest = true -> length ary = Z.to_nat modvalue ->
  exists ary', __ina_parse_field modvalue off names ary (Some (field_text names its ++ rest)) =
      Some (ary', Some (skip_blank rest)) /\ length ary' = length ary /\
    forall j, 0 <= j < modvalue ->
      nthZ 0 ary' j = if field_selects modvalue off its j then 1 else nthZ 0 ary j.
Proof. intros. by apply parse_field_items. Qed.

(** [10-20/5,dec] is printed and read for the array of the hours of a clock
    with names of months. *)
Lemma parse_field_grammar_witness :
  let its := [Item (Range (Num [49; 48]) (Num [50])) (Some [51]); Item (Single (Name 4)) None] in
  exists ary', __ina_parse_field 12 (-1) (Some mon_array) (repeat 0 12)
      (Some (field_text (Some mon_array) its ++ [32; 42])) = Some (ary', Some [42]) /\
    nthZ 0 ary' 9 = 1 /\ nthZ 0 ary' 0 = 1 /\ nthZ 0 ary' 1 = 0 /\ nthZ 0 ary' 4 = 1.
Proof.
  cbn zeta.
  destruct (parse_field_grammar 12 (-1) (Some mon_array)
    [Item (Range (Num [49; 48]) (Num [50])) (Some [51]); Item (Single (Name 4)) None] [32; 42] (repeat 0 12))
    as (ary' & H & _ & Hj).
  - split; [reflexivity|]. by apply (bool_decide_unpack (NoDup mon_array)); vm_compute.
  - lia.
  - done.
  - reflexivity.
  - reflexivity.
  - reflexivity.
  - exists ary'. split; [exact H|]. rewrite !Hj by lia. split_and!; reflexivity.
Defined.

(** ** Patterns *)

Lemma mon_names_ok : names_ok (Some mon_array).
Proof. split; [reflexivity|]. by apply (bool_decide_unpack (NoDup mon_array)); vm_compute. Qed.
Lemma dow_names_ok : names_ok (Some dow_array).
Proof. split; [reflexivity|]. by apply (bool_decide_unpack (NoDup dow_array)); vm_compute. Qed.
Lemma no_names_ok : names_ok None.
Proof. split; [done|constructor]. Qed.

(** The reference: a schedule of five fields. *)
Record schedule := Schedule {
  s_mins : list item; s_hours : list item; s_days : list item; s_mons : list item; s_dow : list item
}.

Definition field_ok (m off : Z) (names : option (list text)) (its : list item) : bool :=
  negb (length its =? 0)%nat && forallb (item_ok m off names) its.

Definition schedule_ok (sc : schedule) : bool :=
  field_ok 60 0 None (s_mins sc) && field_ok 24 0 None (s_hours sc) && field_ok 32 0 None (s_days sc)
  && field_ok 12 (-1) (Some mon_array) (s_mons sc) && field_ok 7 0 (Some dow_array) (s_dow sc).

Definition schedule_text (sc : schedule) : text :=
  field_text None (s_mins sc) ++ 32 :: field_text None (s_hours sc) ++ 32 :: field_text None (s_days sc)
  ++ 32 :: field_text (Some mon_array) (s_mons sc) ++ 32 :: field_text (Some dow_array) (s_dow sc).

(** When a schedule is due: a day is given by the day of the month or the day
    of the week, but one of the two that is given as every day does not count
    beside one that is not. *)
Definition due (sc : schedule) (tp : tm) : bool :=
  let day := field_selects 32 0 (s_days sc) in
  let wday := field_selects 7 0 (s_dow sc) in
  let every_day := forallb day (seqZ 0 32) in
  let every_wday := forallb wday (seqZ 0 7) in
  field_selects 60 0 (s_mins sc) (tm_min tp) && field_selects 24 0 (s_hours sc) (tm_hour tp)
  && (if every_wday && negb every_day then day (tm_mday tp)
      else if every_day && negb every_wday then wday (tm_wday tp)
      else day (tm_mday tp) || wday (tm_wday tp))
  && field_selects 12 (-1) (s_mons sc) (tm_mon tp).

(** What the C standard says of [localtime] (leap seconds are not shown at the
    start of a minute). *)
Definition tm_ok (tp : tm) : Prop :=
  0 <= tm_min tp < 60 /\ 0 <= tm_hour tp < 24 /\ 1 <= tm_mday tp <= 31 /\ 0 <= tm_mon tp < 12 /\ 0 <= tm_wday tp < 7.

#[export] Instance tm_ok_dec tp : Decision (tm_ok tp).
Proof. unfold tm_ok. apply _. Defined.

(** An array with the entries of [f] marked. *)
Definition marked (m : Z) (f : Z -> bool) (ary : list Z) : Prop :=
  length ary = Z.to_nat m /\ forall j, 0 <= j < m -> nthZ 0 ary j = if f j then 1 else 0.

Lemma has_zero_spec m f ary : 0 <= m -> marked m f ary -> has_zero ary = negb (forallb f (seqZ 0 m)).
Proof.
  intros Hm [Hl Hj]. apply eq_bool_prop_intro. rewrite Is_true_true, Is_true_true. unfold has_zero.
  rewrite existsb_exists, negb_true_iff, <- not_true_iff_false, forallb_forall. split.
  - intros (x & Hin & <-%Z.eqb_eq) Hall. apply list_elem_of_In, list_elem_of_lookup in Hin as [i Hi].
    pose proof (lookup_lt_Some _ _ _ Hi). specialize (Hj (Z.of_nat i) ltac:(lia)).
    unfold nthZ in Hj. rewrite Nat2Z.id, nth_lookup, Hi in Hj. cbn in Hj.
    rewrite Hall in Hj; [done|]. apply list_elem_of_In, elem_of_seqZ. lia.
  - intros Hn. destruct (decide (Forall (fun i => f i = true) (seqZ 0 m))) as [Hall|Hex].
    + destruct Hn. intros x Hx%list_elem_of_In. by eapply Forall_forall in Hall.
    + apply not_Forall_Exists in Hex; [|intros ?; apply _]. apply Exists_exists in Hex as (i & Hi & Hf).
      apply elem_of_seqZ in Hi. exists 0. split; [|done]. apply list_elem_of_In.
      specialize (Hj i ltac:(lia)). rewrite (proj1 (not_true_iff_false (f i)) Hf) in Hj.
      unfold nthZ in Hj. rewrite nth_lookup in Hj.
      destruct (lookup_lt_is_Some_2 ary (Z.to_nat i)) as [x Hx]; [lia|]. rewrite Hx in Hj. cbn in Hj. subst.
      by eapply list_elem_of_lookup_2.
Qed.

Lemma marked_repeat m : marked m (fun _ => false) (repeat 0 (Z.to_nat m)).
Proof.
  split; [apply repeat_length|]. intros j Hj. unfold nthZ. apply nth_repeat.
Qed.

Lemma is_set_marked m f ary j : marked m f ary -> 0 <= j < m -> is_set ary j = f j.
Proof. intros [_ H] Hj. unfold is_set. rewrite H by done. by destruct (f j). Qed.

Lemma parse_field_marked m off names its rest ary :
  names_ok names -> 0 < m <= 1024 -> field_ok m off names its = true -> at_end rest = true ->
  ary = repeat 0 (Z.to_nat m) ->
  exists ary', __ina_parse_field m off names ary (Some (field_text names its ++ rest)) =
      Some (ary', Some (skip_blank rest)) /\ marked m (field_selects m off its) ary'.
Proof.
  intros Hn Hm [Hne Hok]%andb_true_iff Hend ->. destruct (marked_repeat m) as [Hl H0].
  destruct (parse_field_items m off names Hn Hm its rest (repeat 0 (Z.to_nat m))) as (ary' & Hp & Hl' & Hj); try done.
  { by destruct its. }
  exists ary'. split; [done|]. split; [lia|]. intros j Hjr. rewrite Hj, H0 by done. done.
Qed.

Lemma skip_blank_field m off names its rest :
  names_ok names -> 0 < m <= 1024 -> field_ok m off names its = true -> at_end rest = true ->
  skip_blank (32 :: field_text names its ++ rest) = field_text names its ++ rest.
Proof.
  intros Hn Hm [Hne Hok]%andb_true_iff Hend. cbn [skip_blank Z.eqb Pos.eqb orb].
  apply (field_text_start m off names Hn Hm); [by destruct its|done|done].
Qed.

(** The five fields one after the other. *)
Lemma parse_fields sc : schedule_ok sc = true ->
  exists mi ho da mo dw,
    marked 60 (field_selects 60 0 (s_mins sc)) mi /\ marked 24 (field_selects 24 0 (s_hours sc)) ho /\
    marked 32 (field_selects 32 0 (s_days sc)) da /\ marked 12 (field_selects 12 (-1) (s_mons sc)) mo /\
    marked 7 (field_selects 7 0 (s_dow sc)) dw /\
    ina_cron_parse_pattern (schedule_text sc) empty_timetable =
      Some (Timetable mi ho (if has_zero dw && negb (has_zero da) then zeroed da else da) mo
        (if has_zero da && negb (has_zero dw) then zeroed dw else dw), Ok tt).
Proof.
  unfold schedule_ok. intros [[[[H1 H2]%andb_true_iff H3]%andb_true_iff H4]%andb_true_iff H5]%andb_true_iff.
  pose proof no_names_ok. pose proof mon_names_ok. pose proof dow_names_ok.
  destruct sc as [f1 f2 f3 f4 f5]. cbn [s_mins s_hours s_days s_mons s_dow] in *.
  unfold schedule_text. cbn [s_mins s_hours s_days s_mons s_dow].
  rewrite <- (app_nil_r (field_text (Some dow_array) f5)).
  set (t5 := field_text (Some dow_array) f5 ++ []).
  set (t4 := field_text (Some mon_array) f4 ++ 32 :: t5).
  set (t3 := field_text None f3 ++ 32 :: t4). set (t2 := field_text None f2 ++ 32 :: t3).
  destruct (parse_field_marked 60 0 None f1 (32 :: t2) (repeat 0 60)) as (mi & Hp1 & M1); [done|lia|done|done|done|].
  destruct (parse_field_marked 24 0 None f2 (32 :: t3) (repeat 0 24)) as (ho & Hp2 & M2); [done|lia|done|done|done|].
  destruct (parse_field_marked 32 0 None f3 (32 :: t4) (repeat 0 32)) as (da & Hp3 & M3); [done|lia|done|done|done|].
  destruct (parse_field_marked 12 (-1) (Some mon_array) f4 (32 :: t5) (repeat 0 12)) as (mo & Hp4 & M4);
    [done|lia|done|done|done|].
  destruct (parse_field_marked 7 0 (Some dow_array) f5 [] (repeat 0 7)) as (dw & Hp5 & M5); [done|lia|done|done|done|].
  exists mi, ho, da, mo, dw. do 5 (split; [done|]). subst t2 t3 t4 t5.
  unfold ina_cron_parse_pattern, empty_timetable. cbn [mins hours days mons dow].
  match goal with |- context [Nat.eqb (length ?l) 0] => destruct (Nat.eqb_spec (length l) 0) as [Hlen|_] end.
  { rewrite length_app in Hlen. cbn [length] in Hlen. lia. }
  rewrite Hp1. cbn [option_bind mbind].
  rewrite (skip_blank_field 24 0 None f2 (32 :: _)), Hp2 by (done || lia). cbn [option_bind mbind].
  rewrite (skip_blank_field 32 0 None f3 (32 :: _)), Hp3 by (done || lia). cbn [option_bind mbind].
  rewrite (skip_blank_field 12 (-1) (Some mon_array) f4 (32 :: _)), Hp4 by (done || lia). cbn [option_bind mbind].
  rewrite (skip_blank_field 7 0 (Some dow_array) f5 []), Hp5 by (done || lia). cbn [option_bind mbind]. done.
Qed.

Lemma is_set_zeroed ary j : is_set (zeroed ary) j = false.
Proof. unfold is_set, zeroed, nthZ. by rewrite nth_repeat. Qed.

(** C20. A pattern whose five fields are written in the grammar is parsed to the
    schedule it means: the table matches exactly the minutes that are due, with
    the rule of cron for days of the month and days of the week. *)
Theorem parse_pattern_schedule sc : schedule_ok sc = true ->
  exists tab, ina_cron_parse_pattern (schedule_text sc) empty_timetable = Some (tab, Ok tt) /\
    forall tp, tm_ok tp -> matches tab tp = due sc tp.
Proof.
  intros Hok. destruct (parse_fields sc Hok) as (mi & ho & da & mo & dw & M1 & M2 & M3 & M4 & M5 & Hp).
  eexists. split; [exact Hp|]. intros tp (T1 & T2 & T3 & T4 & T5). unfold matches, due. cbn [mins hours days mons dow].
  rewrite (is_set_marked _ _ _ _ M1 T1), (is_set_marked _ _ _ _ M2 T2), (is_set_marked _ _ _ _ M4 T4).
  rewrite (has_zero_spec 32 _ _ ltac:(lia) M3), (has_zero_spec 7 _ _ ltac:(lia) M5).
  pose proof (is_set_marked 32 _ _ (tm_mday tp) M3 ltac:(lia)) as E3. pose proof (is_set_marked _ _ _ _ M5 T5) as E5.
  destruct (forallb (field_selects 32 0 (s_days sc)) _), (forallb (field_selects 7 0 (s_dow sc)) _);
    cbn [negb andb]; rewrite ?is_set_zeroed, ?E3, ?E5, ?orb_false_r; done.
Qed.

(** Every quarter of an hour from 22 to 2 o'clock, on Mondays to Fridays from
    March on. *)
Definition office : schedule :=
  Schedule [Item Star (Some [49; 53])] [Item (Range (Num [50; 50]) (Num [50])) None] [Item Star None]
    [Item (Range (Name 2) (Num [49; 50])) None] [Item (Range (Name 1) (Name 5)) None].

Lemma parse_pattern_schedule_witness :
  schedule_text office = bytes_of_string "*/15 22-2 * mar-12 mon-fri" /\
  exists tab, ina_cron_parse_pattern (schedule_text office) empty_timetable = Some (tab, Ok tt) /\
    matches tab (Tm 45 23 31 11 5) = true /\ matches tab (Tm 45 23 31 11 6) = false.
Proof.
  split; [reflexivity|].
  destruct (parse_pattern_schedule office eq_refl) as (tab & H & Hm).
  exists tab. split; [exact H|]. rewrite !Hm by (unfold tm_ok; simpl; lia). split; reflexivity.
Defined.

(** ** Any pattern *)

(** At most [n] more digits in the run that the text starts with, and nine in
    every other run. *)
Fixpoint short_runs (n : nat) (p : text) : bool :=
  match p with
  | [] => true
  | c :: p => if is_digit c then match n with O => false | S n => short_runs n p end else short_runs 9 p
  end.

Lemma short_runs_mono n n' p : (n <= n')%nat -> short_runs n p = true -> short_runs n' p = true.
Proof.
  revert n n'. induction p as [|c p IH]; intros n n' Hn; [done|]. cbn [short_runs].
  destruct (is_digit c); [|done]. destruct n as [|n]; [done|]. destruct n' as [|n']; [lia|]. apply IH. lia.
Qed.

Lemma short_runs_tail p n : (n <= 9)%nat -> short_runs n p = true -> short_runs 9 (tail p) = true.
Proof.
  intros Hn. destruct p as [|c p]; [done|]. cbn [short_runs tail]. destruct (is_digit c); [|done].
  destruct n; [done|]. apply short_runs_mono. lia.
Qed.

Lemma short_runs_drop k p : short_runs 9 p = true -> short_runs 9 (drop k p) = true.
Proof.
  revert p. induction k as [|k IH]; intros p Hp; [done|]. destruct p as [|c p]; [done|].
  cbn [drop]. apply IH. by apply (short_runs_tail (c :: p) 9).
Qed.

Lemma digits_short n acc p : (n <= 9)%nat -> short_runs n p = true -> 0 <= acc < 10 ^ (9 - Z.of_nat n) ->
  0 <= fst (digits acc p) < 10 ^ 9 /\ short_runs 9 (snd (digits acc p)) = true /\
  (length (snd (digits acc p)) <= length p)%nat.
Proof.
  revert n acc. induction p as [|c p IH]; intros n acc Hn Hs Ha.
  - cbn. split; [|done]. split; [lia|]. eapply Z.lt_le_trans; [apply Ha|]. apply Z.pow_le_mono_r; lia.
  - cbn [digits]. pose proof Hs as Hs'. cbn [short_runs] in Hs. destruct (is_digit c) eqn:Hd.
    + destruct n as [|n]; [done|]. unfold is_digit in Hd. apply andb_true_iff in Hd as [?%Z.leb_le ?%Z.leb_le].
      destruct (IH n (acc * 10 + (c - 48))) as (H1 & H2 & H3); [lia|done| |split; [done|]; split; [done|cbn [length]; lia]].
      replace (9 - Z.of_nat n) with (1 + (9 - Z.of_nat (S n))) by lia. rewrite Z.pow_add_r by lia. lia.
    + cbn [fst snd]. split; [|split; [by apply (short_runs_mono n)|done]]. split; [lia|].
      eapply Z.lt_le_trans; [apply Ha|]. apply Z.pow_le_mono_r; lia.
Qed.

Lemma skip_space_short p : short_runs 9 p = true ->
  short_runs 9 (skip_space p) = true /\ (length (skip_space p) <= length p)%nat.
Proof.
  induction p as [|c p IH]; intros Hp; [done|]. cbn [skip_space]. destruct (is_space c); [|done].
  destruct IH as [? ?]; [by apply (short_runs_tail (c :: p) 9)|]. split; [done|cbn; lia].
Qed.

Lemma strtol_short p : short_runs 9 p = true ->
  - 10 ^ 9 < fst (strtol p) < 10 ^ 9 /\ short_runs 9 (snd (strtol p)) = true /\
  (length (snd (strtol p)) <= length p)%nat /\ (is_digit (chr p) = true -> 0 <= fst (strtol p)).
Proof.
  intros Hp. unfold strtol. destruct (skip_space_short p Hp) as [Hs Hl].
  assert (forall neg q, short_runs 9 q = true -> (length q <= length p)%nat ->
    (is_digit (chr p) = true -> neg = false) ->
    let r := if is_digit (chr q) then
        let '(x, r) := digits 0 q in (clamp_long (if neg : bool then - x else x), r) else (0, p) in
    - 10 ^ 9 < fst r < 10 ^ 9 /\ short_runs 9 (snd r) = true /\ (length (snd r) <= length p)%nat /\
    (is_digit (chr p) = true -> 0 <= fst r)) as H.
  { intros neg q Hq Hlq Hneg. cbn zeta. destruct (is_digit (chr q)); [|split_and!; (done || (cbn; lia))].
    destruct (digits_short 9 0 q) as (H1 & H2 & H3); [lia|done|cbn; lia|].
    destruct (digits 0 q) as [x r]. cbn [fst snd] in *. unfold clamp_long.
    split_and!; [destruct neg; lia|destruct neg; lia|done|lia|]. intros Hd. rewrite Hneg by done. lia. }
  destruct (Z.eqb_spec (chr (skip_space p)) 45) as [E|].
  - apply (H true (tail (skip_space p))); [by apply (short_runs_tail _ 9)|destruct (skip_space p); cbn in *; lia|].
    intros Hd. destruct p as [|c p]; [done|]. cbn [chr hd] in Hd. destruct (digit_facts c Hd) as (Hc & H45 & _).
    cbn [skip_space] in E. rewrite Hc in E. cbn [chr hd] in E. by rewrite E in H45.
  - destruct (chr (skip_space p) =? 43).
    + apply (H false (tail (skip_space p))); [by apply (short_runs_tail _ 9)|destruct (skip_space p); cbn in *; lia|done].
    + by apply (H false (skip_space p)).
Qed.

(** The array has been written within its bounds: it keeps its length, and an
    entry is the old one or 1. *)
Definition only_marked (ary ary' : list Z) : Prop :=
  length ary' = length ary /\ forall j, 0 <= j -> nthZ 0 ary' j = 1 \/ nthZ 0 ary' j = nthZ 0 ary j.

Lemma only_marked_refl ary : only_marked ary ary.
Proof. split; [done|]. by right. Qed.

Lemma only_marked_trans ary1 ary2 ary3 : only_marked ary1 ary2 -> only_marked ary2 ary3 -> only_marked ary1 ary3.
Proof.
  intros [Hl1 H1] [Hl2 H2]. split; [congruence|]. intros j Hj.
  destruct (H2 j Hj) as [?| ->]; [by left|by apply H1].
Qed.

Section Safe.
Variables (modvalue : Z) (names : option (list text)).
Hypothesis Hmod : 0 < modvalue < 10 ^ 9.
Hypothesis Hnames : Z.of_nat (length (default [] names)) < 10 ^ 9.

Lemma fill_defined fuel ary n1 n2 s0 skip :
  (fuel <= 1024)%nat -> length ary = Z.to_nat modvalue -> -1 <= n1 < 10 ^ 9 ->
  - 2 ^ 31 + Z.of_nat fuel <= s0 < 2 ^ 31 -> - 10 ^ 9 < skip < 10 ^ 9 ->
  exists ary' ok, fill fuel ary modvalue n1 n2 s0 skip = Some (ary', ok) /\ only_marked ary ary'.
Proof.
  revert ary n1 s0. induction fuel as [|fuel IH]; intros ary n1 s0 Hfuel Hl Hn Hs Hk.
  { exists ary, false. split; [done|apply only_marked_refl]. }
  cbn [fill]. rewrite !int_op_some by lia.
  cbn [option_bind mbind]. rewrite Z.rem_mod_nonneg by lia. pose proof (Z.mod_pos_bound (n1 + 1) modvalue ltac:(lia)).
  rewrite Z.rem_mod_nonneg, Z.mod_mod by lia.
  destruct (Z.eqb_spec (s0 - 1) 0) as [H0|H0].
  - destruct (mark_some ary ((n1 + 1) mod modvalue)) as (ary1 & -> & Hl1 & Hj1); [lia|]. cbn [option_bind mbind].
    assert (only_marked ary ary1) as Hm.
    { split; [done|]. intros j Hj. rewrite Hj1 by done. destruct (j =? _); [by left|by right]. }
    destruct (_ =? n2); [by eexists _, _|].
    destruct (IH ary1 ((n1 + 1) mod modvalue) skip) as (ary' & ok & Hf & Hm'); try lia.
    exists ary', ok. split; [done|by eapply only_marked_trans].
  - cbn [option_bind mbind]. destruct (_ =? n2); [eexists _, _; split; [done|apply only_marked_refl]|].
    apply IH; lia.
Qed.

(** The state at the head of the loop. *)
Definition head_ok (s : scan) : Prop :=
  length (sc_ary s) = Z.to_nat modvalue /\ -1 <= sc_n1 s < 10 ^ 9 /\ sc_n2 s = -1 /\ short_runs 9 (sc_ptr s) = true.

Lemma find_name_bound l k p i n : find_name l k p = Some (i, n) -> k <= i < k + Z.of_nat (length l).
Proof.
  revert k. induction l as [|m l IH]; intros k; cbn [find_name]; [done|].
  destruct (has_prefix p m); [intros [= <- <-]; cbn; lia|]. intros H%IH. cbn [length]. lia.
Qed.

Lemma atom_defined n1 p : -1 <= n1 < 10 ^ 9 -> short_runs 9 p = true ->
  exists n1' n2' p' b, atom modvalue 0 names n1 (-1) p = Some (n1', n2', p', b) /\
    short_runs 9 p' = true /\ (length p' <= length p)%nat /\
    (b = true -> 0 <= n1' < 10 ^ 9 /\ -1 <= n2' < 10 ^ 9).
Proof.
  intros Hn Hp. unfold atom. destruct (chr p =? 42).
  { eexists _, _, _, _. split; [reflexivity|]. split; [by apply (short_runs_tail p 9)|].
    split; [destruct p; cbn; lia|]. intros _. lia. }
  destruct (is_digit (chr p)) eqn:Hd.
  { destruct (strtol_short p Hp) as (H1 & H2 & H3 & H4). specialize (H4 Hd).
    destruct (strtol p) as [x q]. cbn [fst snd] in *. rewrite to_int_id, Z.add_0_r, int_op_some by lia.
    cbn [option_bind mbind]. destruct (Z.ltb_spec n1 0);
      (eexists _, _, _, _; split; [reflexivity|]; split; [done|]; split; [done|]; intros _; lia). }
  destruct names as [l|]; [|eexists _, _, _, _; split; [reflexivity|]; by split_and!].
  destruct (find_name l 0 p) as [[i n]|] eqn:Hf; [|eexists _, _, _, _; split; [reflexivity|]; by split_and!].
  apply find_name_bound in Hf. change (default [] (Some l)) with l in Hnames.
  destruct (Z.ltb_spec n1 0); (eexists _, _, _, _; split; [reflexivity|];
    split; [by apply short_runs_drop|]; split; [rewrite length_drop; lia|]; intros _; lia).
Qed.

Lemma field_turn_defined s : head_ok s ->
  exists t, field_turn modvalue 0 names s = Some t /\
    match t with
    | Again s' => head_ok s' /\ only_marked (sc_ary s) (sc_ary s') /\ (length (sc_ptr s') < length (sc_ptr s))%nat
    | Break s' => only_marked (sc_ary s) (sc_ary s')
    | Null ary' => only_marked (sc_ary s) ary'
    end.
Proof.
  destruct s as [ary n1 n2 p]. unfold head_ok. cbn [sc_ary sc_n1 sc_n2 sc_ptr]. intros (Hl & Hn1 & -> & Hp).
  unfold field_turn. cbn [sc_ary sc_n1 sc_n2 sc_ptr].
  destruct (atom_defined n1 p Hn1 Hp) as (n1' & n2' & q & b & -> & Hq & Hlq & Hb). cbn [option_bind mbind].
  destruct b; cbn [negb]; [|eexists; split; [reflexivity|apply only_marked_refl]]. destruct (Hb eq_refl) as [H1 H2].
  assert (forall c : Z, c <> 0 -> chr q = c -> (length (tail q) < length p)%nat) as Htail.
  { intros c Hc Hch. destruct q; cbn in *; [congruence|lia]. }
  destruct ((chr q =? 45) && (n2' <? 0)) eqn:Hdash.
  { apply andb_true_iff in Hdash as [Hc%Z.eqb_eq Hneg%Z.ltb_lt]. eexists. split; [reflexivity|].
    cbn [sc_ary sc_n1 sc_n2 sc_ptr]. split_and!; try done; try lia.
    - by apply (short_runs_tail q 9).
    - apply only_marked_refl.
    - by apply (Htail 45). }
  assert (exists skip r, (if chr q =? 47 then let '(x, ptr) := strtol (tail q) in (to_int x, ptr) else (1, q)) = (skip, r) /\
    - 10 ^ 9 < skip < 10 ^ 9 /\ short_runs 9 r = true /\ (length r <= length q)%nat) as (skip & r & -> & Hsk & Hr & Hlr).
  { destruct (chr q =? 47); [|exists 1, q; split_and!; done || lia].
    destruct (strtol_short (tail q)) as (S1 & S2 & S3 & _); [by apply (short_runs_tail q 9)|].
    destruct (strtol (tail q)) as [x r]. cbn [fst snd] in *. exists (to_int x), r. split; [done|].
    unfold to_int. split; [dlia|]. split; [done|]. destruct q; cbn in *; lia. }
  rewrite int_op_some by lia. cbn [option_bind mbind].
  destruct (fill_defined 1024 ary (n1' - 1) (if n2' <? 0 then n1' else n2') 1 skip) as (ary' & ok & -> & Hm);
    try done; try lia.
  cbn [option_bind mbind]. destruct ok; cbn [negb]; [|by eexists].
  destruct (Z.eqb_spec (chr r) 44) as [Hc|]; cbn [negb]; [|by eexists]. eexists. split; [reflexivity|].
  cbn [sc_ary sc_n1 sc_n2 sc_ptr]. split_and!; try done; try lia.
  - destruct Hm. lia.
  - by apply (short_runs_tail r 9).
  - destruct r; cbn in *; [done|lia].
Qed.

Lemma field_loop_defined fuel s : head_ok s -> (length (sc_ptr s) < fuel)%nat ->
  exists t, field_loop modvalue 0 names fuel s = Some t /\
    match t with
    | Again _ => False
    | Break s' => only_marked (sc_ary s) (sc_ary s')
    | Null ary' => only_marked (sc_ary s) ary'
    end.
Proof.
  revert s. induction fuel as [|fuel IH]; intros s Hs Hf; [lia|]. cbn [field_loop].
  destruct (at_end (sc_ptr s)); [eexists; split; [reflexivity|apply only_marked_refl]|].
  destruct (field_turn_defined s Hs) as (t & -> & Ht). cbn [option_bind mbind].
  destruct t as [s'|s'|ary']; [|by eexists..]. destruct Ht as (Hs' & Hm & Hl).
  destruct (IH s' Hs') as (t & -> & Ht); [lia|]. exists t. split; [done|].
  destruct t; [done|..]; by eapply only_marked_trans.
Qed.
End Safe.

(** On every text whose numbers have at most nine digits, a field without
    offset is parsed in bounds: the parser terminates, never stores outside the
    array and never overflows, and only marks entries, whether it accepts the
    field or not. *)
Theorem parse_field_safe modvalue names ary p :
  0 < modvalue < 10 ^ 9 -> Z.of_nat (length (default [] names)) < 10 ^ 9 ->
  length ary = Z.to_nat modvalue -> short_runs 9 p = true ->
  exists ary' r, __ina_parse_field modvalue 0 names ary (Some p) = Some (ary', r) /\ only_marked ary ary'.
Proof.
  intros Hm Hn Hl Hp. unfold __ina_parse_field.
  destruct (field_loop_defined modvalue names Hm Hn (S (length p)) (Scan ary (-1) (-1) p)) as (t & -> & Ht).
  - by split_and!.
  - cbn [sc_ptr]. lia.
  - cbn [option_bind mbind]. destruct t as [s|s|ary']; [done|..]; by eexists _, _.
Qed.

Lemma parse_field_safe_witness :
  let p := bytes_of_string "7-999999999/-3,Sunday,*/x" in
  short_runs 9 p = true /\
  exists ary' r, __ina_parse_field 7 0 (Some dow_array) (repeat 0 7) (Some p) = Some (ary', r) /\
    only_marked (repeat 0 7) ary'.
Proof.
  cbn zeta. split; [reflexivity|].
  apply (parse_field_safe 7 (Some dow_array) (repeat 0 7)); [lia|simpl; lia|done|reflexivity].
Defined.

(** Patterns that the parser treats differently from what they say.
    - Capitalised names are never accepted: their index is not reduced to the
      array, so the range never ends and the failsafe refuses the field.
    - The month 0, which a test of the repository uses, and numbers that do not
      fit an [int] store in front of the array.
    - A range without its second bound is accepted and marks nothing.
    - Missing fields are accepted, and so is text behind the fifth field. *)
Theorem pattern_defects :
  let parse s := ina_cron_parse_pattern (bytes_of_string s) empty_timetable in
  let code s := snd <$> parse s in
  (code "0 0 * * mon"%string = Some (Ok tt) /\ code "0 0 * * Mon"%string = Some (Err INA_ERR_INVALID_PATTERN) /\
   code "0 0 * jan *"%string = Some (Ok tt) /\ code "0 0 * Jan *"%string = Some (Err INA_ERR_INVALID_PATTERN)) /\
  (parse "0 0 0 0 *"%string = None /\ parse "4294967291 * * * *"%string = None) /\
  (forall tab, fst <$> parse "5- * * * *"%string = Some tab -> mins tab = repeat 0 60) /\
  (code "5- * * * *"%string = Some (Ok tt) /\ code "5"%string = Some (Ok tt) /\ code "* * * * * and more"%string = Some (Ok tt)).
Proof.
  cbn zeta. split_and!; try (vm_compute; reflexivity).
  intros tab H. vm_compute in H. by simplify_eq.
Qed.

End CronPattern.
