(* ===== verification/Cron.v ===== *)
(** * The scheduler (cron.c)

    Events with a pattern, the loop that runs what was due since it was called
    last, the pull interface and the search for the last execution.  Events are
    kept in a hash table (interface [TableOps]) and their jobs are processes of
    Process.v; [localtime] and the callbacks of the client are parameters. *)
From Stdlib Require Import ZArith Lia Bool String.
From stdpp Require Import base numbers option fin_maps gmap list.
From S2P Require Import Prelude Error Hashtable Table Fsm Process CronPattern.

Module Cron.
Import Error Hashtable Table Fsm Process CronPattern.

Definition INA_CRON_CF_EXEC : Z := 1.
Definition INA_CRON_CF_PUSH : Z := 2.
Definition INA_CRON_CF_PULL : Z := 4.
Definition INA_CRON_CF_PERSIST : Z := 8.

(** [struct ina_cron_event_s]; the strings are only handed back to the client.
    Pointers are integers, 0 is null. *)
Record event := Event {
  e_ctx : Z; e_cf : Z; e_key : Z; e_process : Z; e_push_cb : Z;
  e_ready : bool; e_tt : timetable; e_pull_data : Z; e_push_data : Z; e_can_pull : bool
}.

Definition with_cf (cf : Z) (e : event) : event :=
  Event (e_ctx e) cf (e_key e) (e_process e) (e_push_cb e) (e_ready e) (e_tt e) (e_pull_data e) (e_push_data e) (e_can_pull e).
Definition with_process (p : Z) (e : event) : event :=
  Event (e_ctx e) (e_cf e) (e_key e) p (e_push_cb e) (e_ready e) (e_tt e) (e_pull_data e) (e_push_data e) (e_can_pull e).
Definition with_ready (b : bool) (e : event) : event :=
  Event (e_ctx e) (e_cf e) (e_key e) (e_process e) (e_push_cb e) b (e_tt e) (e_pull_data e) (e_push_data e) (e_can_pull e).
Definition with_can_pull (b : bool) (e : event) : event :=
  Event (e_ctx e) (e_cf e) (e_key e) (e_process e) (e_push_cb e) (e_ready e) (e_tt e) (e_pull_data e) (e_push_data e) b.
Definition with_push (cb data : Z) (e : event) : event :=
  Event (e_ctx e) (e_cf e) (e_key e) (e_process e) cb (e_ready e) (e_tt e) (e_pull_data e) data (e_can_pull e).
Definition with_pull (key data : Z) (e : event) : event :=
  Event (e_ctx e) (e_cf e) key (e_process e) (e_push_cb e) (e_ready e) (e_tt e) data (e_push_data e) (e_can_pull e).

Definition has_flag (cf flag : Z) : bool := negb (Z.land cf flag =? 0).

(** [struct ina_cron_ctx_s] and the memory it works on: the events of the heap,
    the process context and the system [W]. *)
Record cron (T W : Type) := Cron_ {
  c_events : T; c_heap : gmap Z event; c_procs : ctx T; c_world : W;
  c_t1 : Z; c_t2 : Z; c_stime : Z
}.
Arguments Cron_ {T W} _ _ _ _ _ _ _.
Arguments c_events {T W} _.
Arguments c_heap {T W} _.
Arguments c_procs {T W} _.
Arguments c_world {T W} _.
Arguments c_t1 {T W} _.
Arguments c_t2 {T W} _.
Arguments c_stime {T W} _.

Section Scheduler.
Context {T W : Type} `{!TableOps T, !OS W}.
Variable version_hex : Z.
Variable split_args : text -> list text.
Variable localtime : Z -> tm.
(** A push callback with its user data. *)
Variable push : Z -> Z -> W -> W * Z.

Abbreviation cron := (cron T W).

Definition set_heap (h : gmap Z event) (c : cron) : cron :=
  Cron_ (c_events c) h (c_procs c) (c_world c) (c_t1 c) (c_t2 c) (c_stime c).
Definition set_procs (ps : ctx T) (w : W) (c : cron) : cron :=
  Cron_ (c_events c) (c_heap c) ps w (c_t1 c) (c_t2 c) (c_stime c).
Definition set_times (t1 t2 stime : Z) (c : cron) : cron :=
  Cron_ (c_events c) (c_heap c) (c_procs c) (c_world c) t1 t2 stime.
Definition update_event (f : event -> event) (p : Z) (c : cron) : cron :=
  set_heap (alter f p (c_heap c)) c.

(** Iterating over [ctx->events]. *)
Definition events_of (c : cron) : list Z := fst (tb_iter (c_events c)).

(** [ina_process_query_state(e->process, &state)]: [None] inside when it
    fails. *)
Definition query (c : cron) (p : Z) : option (option Z) :=
  if p =? 0 then Some None else
  q ← ctx_heap (c_procs c) !! p;
  let (state, rc) := ina_process_query_state version_hex (c_process q) in
  Some (if INA_SUCCEED rc then Some state else None).

(** [INA_SUCCEED(ina_cron_event_is_running(e))] *)
Definition ina_cron_event_is_running (c : cron) (e : event) : option bool :=
  if has_flag (e_cf e) INA_CRON_CF_EXEC then
    s ← query c (e_process e);
    Some (match s with Some s => s =? state_number INA_PROCESS_RUNNING | None => false end)
  else Some false.

Definition to_short (x : Z) : Z := (x + 2 ^ 15) mod 2 ^ 16 - 2 ^ 15.

(** The body of the loop over the events in [__ina_test_jobs]. *)
Definition test_event (tp : tm) (p : Z) (s : cron * Z) : option (cron * Z) :=
  let (c, njobs) := s in
  e ← c_heap c !! p;
  if matches (e_tt e) tp then
    let '(w, failed) :=
      if has_flag (e_cf e) INA_CRON_CF_PUSH && negb (e_push_cb e =? 0) then
        let (w, rc) := push (e_push_cb e) (e_push_data e) (c_world c) in (w, INA_FAILED rc)
      else (c_world c, false) in
    let c := set_procs (c_procs c) w c in
    if failed : bool then Some (c, njobs) else
    running ← ina_cron_event_is_running c e;
    let '(c, njobs) :=
      if negb (Z.lor (e_cf e) INA_CRON_CF_EXEC =? 0) && negb running
      then (update_event (with_ready true) p c, to_short (njobs + 1)) else (c, njobs) in
    let c :=
      if has_flag (e_cf e) INA_CRON_CF_PULL && negb (e_key e =? 0)
      then update_event (with_can_pull true) p c else c in
    Some (c, njobs)
  else Some (c, njobs).

Fixpoint for_each {A S} (f : A -> S -> option S) (l : list A) (s : S) : option S :=
  match l with [] => Some s | a :: l => s ← f a s; for_each f l s end.

Definition test_minute (t : Z) (s : cron * Z) : option (cron * Z) :=
  for_each (test_event (localtime t)) (events_of (fst s)) s.

(** [for (t = t1 - t1 % 60; t <= t2; t += 60)] *)
Fixpoint minutes_loop (fuel : nat) (t1 t2 t : Z) (s : cron * Z) : option (cron * Z) :=
  match fuel with
  | O => None
  | S fuel =>
      if t <=? t2 then
        s ← (if t1 <? t then test_minute t s else Some s);
        minutes_loop fuel t1 t2 (t + 60) s
      else Some s
  end.

Definition __ina_test_jobs (t1 t2 : Z) (c : cron) : option (cron * Z) :=
  let t := t1 - Z.rem t1 60 in
  minutes_loop (Z.to_nat ((t2 - t) / 60 + 2)) t1 t2 t (c, 0).

(** The first loop of [ina_cron_process]: what is ready is started. *)
Definition start_event (p : Z) (c : cron) : option cron :=
  e ← c_heap c !! p;
  if has_flag (e_cf e) INA_CRON_CF_EXEC && e_ready e then
    s ← query c (e_process e);
    match s with
    | Some s =>
        if negb (s =? state_number INA_PROCESS_RUNNING) then
          let c := update_event (with_ready false) p c in
          '(w, ps, _) ← on_process (c_world c) (c_procs c) (e_process e) (ina_process_start version_hex split_args);
          Some (update_event (with_ready true) p (set_procs ps w c))
        else Some c
    | None => Some c
    end
  else Some c.

(** The second loop: is there a job that runs? *)
Fixpoint any_running (ps : list Z) (c : cron) : option bool :=
  match ps with
  | [] => Some false
  | p :: ps =>
      e ← c_heap c !! p;
      r ← ina_cron_event_is_running c e;
      if r : bool then Some true else any_running ps c
  end.

(** The part of [ina_cron_process] under [if (__ina_test_jobs(..))]. *)
Definition run_ready (njobs : Z) (c : cron) : option cron :=
  if negb (njobs =? 0) then
    c ← for_each start_event (events_of c) c;
    let c := set_times (c_t1 c) (c_t2 c) 60 c in
    r ← any_running (events_of c) c;
    Some (if r : bool then set_times (c_t1 c) (c_t2 c) 10 c else c)
  else Some c.

(** [ina_cron_process]: [time] is the clock at the end of the call. *)
Definition ina_cron_process (now time : Z) (c : cron) : option (cron * Z) :=
  let c := set_times (c_t1 c) now (c_stime c) c in
  let dt := c_t2 c - c_t1 c in
  c ← (if (dt <? -60 * 60) || (60 * 60 <? dt) then Some (set_times (c_t2 c) (c_t2 c) (c_stime c) c)
       else if 0 <? dt then
         '(c, njobs) ← __ina_test_jobs (c_t1 c) (c_t2 c) c;
         c ← run_ready njobs c;
         Some (set_times (c_t2 c) (c_t2 c) (c_stime c) c)
       else Some c);
  Some (c, (c_stime c + 1) - to_short (Z.rem time (c_stime c))).

(** A sequence of calls. *)
Fixpoint process_all (nows : list (Z * Z)) (c : cron) : option cron :=
  match nows with
  | [] => Some c
  | (now, time) :: nows => '(c, _) ← ina_cron_process now time c; process_all nows c
  end.

(** [ina_cron_try_pull]: the key and the user data, (0, None) when there is
    nothing to pull. *)
Fixpoint try_pull_loop (ps : list Z) (c : cron) : option (cron * Z * option Z) :=
  match ps with
  | [] => Some (c, 0, None)
  | p :: ps =>
      e ← c_heap c !! p;
      if has_flag (e_cf e) INA_CRON_CF_PULL && e_can_pull e then
        Some (update_event (with_can_pull false) p c, e_key e, Some (e_pull_data e))
      else try_pull_loop ps c
  end.

Definition ina_cron_try_pull (c : cron) : option (cron * Z * option Z) := try_pull_loop (events_of c) c.

(** [ina_cron_last_exec_systime]: [for (t = now - now % 60; t > 0; t -= 60)] *)
Fixpoint last_exec_loop (fuel : nat) (tab : timetable) (t : Z) : option Z :=
  match fuel with
  | O => None
  | S fuel =>
      if 0 <? t then if matches tab (localtime t) then Some t else last_exec_loop fuel tab (t - 60)
      else Some t
  end.

Definition ina_cron_last_exec_systime (tab : timetable) (now : Z) : option Z :=
  let t := now - Z.rem now 60 in
  last_exec_loop (Z.to_nat (t / 60 + 2)) tab t.

(** ** Events *)

(** [ina_cron_event_new]: [p] is the memory of the new event. *)
Definition ina_cron_event_new (id pattern : text) (cf p : Z) (c : cron) : option (cron * result Z) :=
  if (length id =? 0)%nat then Some (c, Err INA_ERR_INVALID_ARGUMENT) else
  match tb_get (c_events c) (key_str id) with
  | (evs, Ok e) => Some (Cron_ evs (c_heap c) (c_procs c) (c_world c) (c_t1 c) (c_t2 c) (c_stime c), Ok e)
  | (evs, Err _) =>
      let c := Cron_ evs (c_heap c) (c_procs c) (c_world c) (c_t1 c) (c_t2 c) (c_stime c) in
      if p =? 0 then Some (c, Err INA_ERR_OUT_OF_MEMORY) else
      '(tab, rc) ← ina_cron_parse_pattern pattern empty_timetable;
      match rc with
      | Err x => Some (c, Err x)
      | Ok _ => Some (set_heap (<[p := Event 0 (u32 cf) 0 0 0 false tab 0 0 false]> (c_heap c)) c, Ok p)
      end
  end.

(** [ina_cron_event_set_exec_params]; [p_new] and [d_new] are what the pool of
    the process context gives. The command is split into a path and its
    arguments. *)
Definition ina_cron_event_set_exec_params (p : Z) (cmd : text) (working_dir : option text) (p_new d_new : Z) (c : cron)
    : option (cron * result unit) :=
  let c := update_event (fun e => with_cf (Z.lor (e_cf e) INA_CRON_CF_EXEC) e) p c in
  e ← c_heap c !! p;
  match split_args cmd with
  | full_path :: args :: _ =>
      if e_ctx e =? 0 then None else
      match ina_process_new (c_procs c) (Descriptor full_path working_dir args 0) 0 p_new d_new with
      | (ps, Ok q) => Some (update_event (with_process q) p (set_procs ps (c_world c) c), Ok tt)
      | (ps, Err x) => Some (set_procs ps (c_world c) c, Err x)
      end
  | _ => None
  end.

Definition ina_cron_event_set_push_params (p cb data : Z) (c : cron) : cron :=
  update_event (fun e =>
    let e := with_push cb data e in
    if negb (cb =? 0) then with_cf (Z.lor (e_cf e) INA_CRON_CF_PUSH) e else e) p c.

Definition ina_cron_event_set_pull_params (p key data : Z) (c : cron) : cron :=
  update_event (fun e =>
    let e := with_pull key data e in
    if negb (key =? 0) then with_cf (Z.lor (e_cf e) INA_CRON_CF_PULL) e else e) p c.

Definition ina_cron_event_get_push_params (e : event) : Z * Z := (e_push_cb e, e_push_data e).
Definition ina_cron_event_get_pull_params (e : event) : Z * Z := (e_key e, e_pull_data e).

Definition ina_cron_event_check_capability (e : event) (cf : Z) : result unit :=
  if has_flag (e_cf e) cf then Ok tt else Err (INA_ERR_NOT_ E_AVAILABLE).

End Scheduler.
(** ** Minutes *)

(** The minutes (multiples of 60) after [t1] up to [t2]. *)
Definition due_minutes (t1 t2 : Z) : list Z := map (Z.mul 60) (seqZ (t1 / 60 + 1) (t2 / 60 - t1 / 60)).

Lemma due_minutes_app a b c : a <= b -> b <= c -> due_minutes a c = due_minutes a b ++ due_minutes b c.
Proof.
  intros Hab Hbc. unfold due_minutes. rewrite <- map_app.
  pose proof (Z.div_le_mono a b 60 ltac:(lia) Hab). pose proof (Z.div_le_mono b c 60 ltac:(lia) Hbc).
  replace (c / 60 - a / 60) with ((b / 60 - a / 60) + (c / 60 - b / 60)) by lia.
  rewrite seqZ_app by lia. do 3 f_equal. lia.
Qed.

Lemma elem_of_due_minutes t t1 t2 : t ∈ due_minutes t1 t2 <-> t mod 60 = 0 /\ t1 < t <= t2.
Proof.
  unfold due_minutes. rewrite list_elem_of_In, in_map_iff. setoid_rewrite <- list_elem_of_In.
  setoid_rewrite elem_of_seqZ. split.
  - intros (k & <- & Hk). split; [by rewrite Z.mul_comm, Z.mod_mul|]. dlia.
  - intros [Hm Ht]. exists (t / 60). split; [dlia|]. dlia.
Qed.

Lemma for_each_app {A S} (f : A -> S -> option S) l1 l2 s :
  for_each f (l1 ++ l2) s = s ← for_each f l1 s; for_each f l2 s.
Proof. revert s. induction l1 as [|a l1 IH]; intros s; cbn; [done|]. destruct (f a s); cbn; [apply IH|done]. Qed.

(** An invariant of the elements that are still to come. *)
Lemma for_each_invariant {A S} (f : A -> S -> option S) (P : list A -> S -> Prop) l s :
  P l s -> (forall a l s, P (a :: l) s -> exists s', f a s = Some s' /\ P l s') ->
  exists s', for_each f l s = Some s' /\ P [] s'.
Proof.
  intros H0 Hstep. revert s H0. induction l as [|a l IH]; intros s H0; cbn [for_each]; [by exists s|].
  destruct (Hstep a l s H0) as (s' & -> & H'). cbn. by apply IH.
Qed.

Section Loops.
Context {T W : Type} `{!TableOps T, !OS W}.
Variable version_hex : Z.
Variable split_args : text -> list text.
Variable localtime : Z -> tm.
Variable push : Z -> Z -> W -> W * Z.

Abbreviation cron := (cron T W).
Abbreviation test_minute := (test_minute version_hex localtime push).
Abbreviation test_event := (test_event version_hex push).

Lemma minutes_loop_spec fuel t1 t2 k (s : cron * Z) :
  t1 < 60 * k -> Z.max 0 (t2 / 60 - k + 1) < Z.of_nat fuel ->
  minutes_loop version_hex localtime push fuel t1 t2 (60 * k) s =
    for_each test_minute (map (Z.mul 60) (seqZ k (t2 / 60 - k + 1))) s.
Proof.
  revert k s. induction fuel as [|fuel IH]; intros k s Ht Hf; [lia|]. cbn [minutes_loop].
  destruct (Z.leb_spec (60 * k) t2) as [Hle|Hlt].
  - assert (k <= t2 / 60) by dlia. rewrite seqZ_cons by lia. cbn [map for_each].
    destruct (Z.ltb_spec t1 (60 * k)); [|lia]. destruct (test_minute (60 * k) s) as [s'|]; [|done].
    cbn [option_bind mbind]. replace (60 * k + 60) with (60 * Z.succ k) by lia. rewrite IH by lia.
    do 3 f_equal. lia.
  - assert (t2 / 60 < k) by dlia. by rewrite seqZ_nil by lia.
Qed.

(** [__ina_test_jobs] looks at exactly the minutes after [t1] up to [t2], in
    order. *)
Lemma test_jobs_spec t1 t2 (c : cron) : 0 <= t1 <= t2 ->
  __ina_test_jobs version_hex localtime push t1 t2 c = for_each test_minute (due_minutes t1 t2) (c, 0).
Proof.
  intros Ht. unfold __ina_test_jobs, due_minutes. rewrite Z.rem_mod_nonneg by lia.
  assert (t1 / 60 <= t2 / 60) by (apply Z.div_le_mono; lia).
  replace (t1 - t1 mod 60) with (60 * (t1 / 60)) by dlia.
  replace ((t2 - 60 * (t1 / 60)) / 60) with (t2 / 60 - t1 / 60) by dlia.
  replace (Z.to_nat (t2 / 60 - t1 / 60 + 2)) with (S (Z.to_nat (t2 / 60 - t1 / 60 + 1))) by lia.
  cbn [minutes_loop]. destruct (Z.leb_spec (60 * (t1 / 60)) t2); [|dlia].
  destruct (Z.ltb_spec t1 (60 * (t1 / 60))); [dlia|]. cbn [option_bind mbind].
  replace (60 * (t1 / 60) + 60) with (60 * (t1 / 60 + 1)) by lia.
  rewrite minutes_loop_spec by dlia. do 3 f_equal. lia.
Qed.

(** ** What the clients see

    The pushes of the events [ps] at the time [tp], from a heap of events. *)
Definition push_of (h : gmap Z event) (tp : tm) (p : Z) : list (Z * Z) :=
  match h !! p with
  | Some e =>
      if matches (e_tt e) tp && (has_flag (e_cf e) INA_CRON_CF_PUSH && negb (e_push_cb e =? 0))
      then [(e_push_cb e, e_push_data e)] else []
  | None => []
  end.
Definition pushes_at (h : gmap Z event) (ps : list Z) (t : Z) : list (Z * Z) :=
  flat_map (push_of h (localtime t)) ps.

(** What the scheduler never changes in an event. *)
Definition fixed_part (e : event) : Z * Z * Z * timetable * Z :=
  (e_cf e, e_process e, e_push_cb e, e_tt e, e_push_data e).

Definition same_events (h h' : gmap Z event) : Prop := forall p, fixed_part <$> h !! p = fixed_part <$> h' !! p.

Lemma same_events_alter h p f : (forall e, fixed_part (f e) = fixed_part e) -> same_events h (alter f p h).
Proof.
  intros Hf q. destruct (decide (p = q)) as [<-|]; [|by rewrite lookup_alter_ne].
  rewrite lookup_alter_eq. destruct (h !! p); cbn; [by rewrite Hf|done].
Qed.

Lemma push_of_same h h' tp p : same_events h h' -> push_of h tp p = push_of h' tp p.
Proof.
  intros H. specialize (H p). unfold push_of. destruct (h !! p) as [e|], (h' !! p) as [e'|]; try done.
  cbn in H. unfold fixed_part in H. destruct e, e'. cbn in *. by simplify_eq.
Qed.

(** A log of the pushes in the system, which its other calls leave alone. *)
Variable log : W -> list (Z * Z).
Hypothesis log_push : forall cb d w, log (push cb d w).1 = log w ++ [(cb, d)].
Hypothesis log_fork : forall w, log (fork w).1 = log w.
Hypothesis log_waitpid : forall pid opts w, log (waitpid pid opts w).1 = log w.
Hypothesis fork_parent : forall w : W, 0 < (fork w).2.

(** A context in order: the table holds addresses of events, and events with
    a job have a process (or none); the processes are in a state of the machine. *)
Definition event_ok (ps : ctx T) (e : event) : Prop :=
  e_process e = 0 \/ is_Some (ctx_heap ps !! e_process e).
Definition cron_ok (c : cron) : Prop :=
  (forall p, p ∈ events_of c -> exists e, c_heap c !! p = Some e /\ event_ok (c_procs c) e) /\
  (forall q x, ctx_heap (c_procs c) !! q = Some x -> 0 <= get_fsm_state (p_state (c_process x)) < 3).

(** [c'] comes from [c] with the pushes [l]. *)
Definition pushed (c c' : cron) (l : list (Z * Z)) : Prop :=
  log (c_world c') = log (c_world c) ++ l /\ same_events (c_heap c) (c_heap c') /\
  c_events c' = c_events c /\ c_t1 c' = c_t1 c /\ c_t2 c' = c_t2 c.

Lemma pushed_refl c : pushed c c [].
Proof. by split_and!; rewrite ?app_nil_r. Qed.

Lemma pushed_trans c1 c2 c3 l1 l2 : pushed c1 c2 l1 -> pushed c2 c3 l2 -> pushed c1 c3 (l1 ++ l2).
Proof.
  intros (H1 & H2 & H3 & H4 & H5) (G1 & G2 & G3 & G4 & G5). split_and!; try congruence.
  by rewrite G1, H1, app_assoc.
Qed.

Lemma pushed_events c c' l : pushed c c' l -> events_of c' = events_of c.
Proof. unfold events_of. by intros (_ & _ & -> & _). Qed.

Lemma cron_ok_same (c c' : cron) :
  cron_ok c -> events_of c' = events_of c -> same_events (c_heap c) (c_heap c') ->
  (forall q, is_Some (ctx_heap (c_procs c) !! q) -> is_Some (ctx_heap (c_procs c') !! q)) ->
  (forall q x, ctx_heap (c_procs c') !! q = Some x -> 0 <= get_fsm_state (p_state (c_process x)) < 3) ->
  cron_ok c'.
Proof.
  intros [H1 H2] He Hs Hd Hst. split; [|done]. intros p Hp. rewrite He in Hp.
  destruct (H1 p Hp) as (e & Hh & Hok). specialize (Hs p). rewrite Hh in Hs. cbn in Hs.
  destruct (c_heap c' !! p) as [e'|]; [|done]. cbn in Hs. unfold fixed_part in Hs. simplify_eq.
  exists e'. split; [done|]. unfold event_ok in *. destruct Hok as [?|?]; [left; congruence|right].
  apply Hd. congruence.
Qed.

Lemma query_defined (c : cron) e : event_ok (c_procs c) e -> exists s, query version_hex c (e_process e) = Some s.
Proof.
  unfold event_ok, query. destruct (Z.eqb_spec (e_process e) 0); [by eexists|].
  intros [?|[x Hx]]; [done|]. rewrite Hx. cbn [option_bind mbind].
  destruct (ina_process_query_state version_hex (c_process x)). by eexists.
Qed.

Lemma is_running_defined (c : cron) e : event_ok (c_procs c) e ->
  exists b, ina_cron_event_is_running version_hex c e = Some b.
Proof.
  intros H. unfold ina_cron_event_is_running. destruct (has_flag _ _); [|by eexists].
  destruct (query_defined c e H) as [s ->]. by eexists.
Qed.

Lemma test_event_spec tp p (c : cron) n : cron_ok c -> p ∈ events_of c ->
  exists c' n', test_event tp p (c, n) = Some (c', n') /\ cron_ok c' /\
    pushed c c' (push_of (c_heap c) tp p) /\ c_procs c' = c_procs c.
Proof.
  intros Hok Hp. pose proof Hok as [Hev Hst]. destruct (Hev p Hp) as (e & He & Heok).
  unfold test_event, Cron.test_event, push_of. rewrite He. cbn [option_bind mbind].
  destruct (matches (e_tt e) tp); cbn [andb];
    [|exists c, n; split; [done|]; split; [done|]; split; [apply pushed_refl|done]].
  set (pu := has_flag (e_cf e) INA_CRON_CF_PUSH && negb (e_push_cb e =? 0)).
  assert (exists w failed, (if pu then let (w, rc) := push (e_push_cb e) (e_push_data e) (c_world c) in (w, INA_FAILED rc)
      else (c_world c, false)) = (w, failed) /\
    log w = log (c_world c) ++ (if pu then [(e_push_cb e, e_push_data e)] else [])) as (w & failed & -> & Hlog).
  { destruct pu; [|exists (c_world c), false; by rewrite app_nil_r].
    pose proof (log_push (e_push_cb e) (e_push_data e) (c_world c)) as Hl. destruct (push _ _ _) as [w rc].
    by eexists _, _. }
  assert (forall h', same_events (c_heap c) h' ->
    let c' := set_heap h' (set_procs (c_procs c) w c) in
    cron_ok c' /\ pushed c c' (if pu then [(e_push_cb e, e_push_data e)] else []) /\ c_procs c' = c_procs c) as Hdone.
  { intros h' Hh. cbn zeta. split; [|by split_and!]. by apply (cron_ok_same c). }
  destruct failed.
  { exists (set_procs (c_procs c) w c), n. split; [done|]. by apply (Hdone (c_heap c)). }
  destruct (is_running_defined (set_procs (c_procs c) w c) e Heok) as [b ->]. cbn [option_bind mbind].
  destruct (negb (Z.lor _ _ =? 0) && negb b); destruct (has_flag _ INA_CRON_CF_PULL && _);
    (do 2 eexists; split; [reflexivity|]).
  - refine (Hdone (alter _ p (alter _ p (c_heap c))) _). intros q.
    rewrite (same_events_alter (c_heap c) p (with_ready true) (fun _ => eq_refl) q).
    by apply same_events_alter.
  - refine (Hdone (alter _ p (c_heap c)) _). by apply same_events_alter.
  - refine (Hdone (alter _ p (c_heap c)) _). by apply same_events_alter.
  - by apply (Hdone (c_heap c) (fun _ => eq_refl)).
Qed.

Lemma test_minute_spec t (c : cron) n : cron_ok c ->
  exists c' n', test_minute t (c, n) = Some (c', n') /\ cron_ok c' /\
    pushed c c' (pushes_at (c_heap c) (events_of c) t).
Proof.
  intros Hok. unfold test_minute, Cron.test_minute. cbn [fst].
  destruct (for_each_invariant (test_event (localtime t)) (fun l '(c', _) =>
    exists l0, events_of c = l0 ++ l /\ cron_ok c' /\ pushed c c' (flat_map (push_of (c_heap c) (localtime t)) l0))
    (events_of c) (c, n)) as ([c' n'] & Hr & l0 & Hl & Hok' & Hp).
  - exists []. split; [done|]. split; [done|apply pushed_refl].
  - intros p l [c1 n1] (l0 & Hl & Hok1 & Hp1).
    destruct (test_event_spec (localtime t) p c1 n1 Hok1) as (c2 & n2 & Hr & Hok2 & Hp2 & _).
    { rewrite (pushed_events _ _ _ Hp1), Hl. apply elem_of_app. right. left. }
    exists (c2, n2). split; [done|]. exists (l0 ++ [p]). split; [by rewrite <- app_assoc|]. split; [done|].
    rewrite flat_map_app. cbn [flat_map]. rewrite app_nil_r. eapply pushed_trans; [done|].
    by rewrite (push_of_same (c_heap c) (c_heap c1)) by apply Hp1.
  - rewrite app_nil_r in Hl. exists c', n'. split; [done|]. split; [done|]. unfold pushes_at. by rewrite Hl.
Qed.

Lemma test_minutes_spec ts (c : cron) n : cron_ok c ->
  exists c' n', for_each test_minute ts (c, n) = Some (c', n') /\ cron_ok c' /\
    pushed c c' (flat_map (pushes_at (c_heap c) (events_of c)) ts).
Proof.
  revert c n. induction ts as [|t ts IH]; intros c n Hok; cbn [for_each flat_map].
  - exists c, n. split; [done|]. split; [done|apply pushed_refl].
  - destruct (test_minute_spec t c n Hok) as (c1 & n1 & -> & Hok1 & Hp1). cbn [option_bind mbind].
    destruct (IH c1 n1 Hok1) as (c' & n' & -> & Hok' & Hp'). exists c', n'. split; [done|]. split; [done|].
    eapply pushed_trans; [done|]. rewrite <- (pushed_events _ _ _ Hp1).
    enough (flat_map (pushes_at (c_heap c) (events_of c1)) ts = flat_map (pushes_at (c_heap c1) (events_of c1)) ts)
      as -> by done.
    apply flat_map_ext. intros t'. unfold pushes_at. apply flat_map_ext. intros p. apply push_of_same, Hp1.
Qed.

Lemma start_event_spec p (c : cron) : cron_ok c -> p ∈ events_of c ->
  exists c', start_event version_hex split_args p c = Some c' /\ cron_ok c' /\ pushed c c' [].
Proof.
  intros Hok Hp. pose proof Hok as [Hev Hst]. destruct (Hev p Hp) as (e & He & Heok).
  assert (exists c', Some c = Some c' /\ cron_ok c' /\ pushed c c' []) as Hsame.
  { exists c. split; [done|]. split; [done|apply pushed_refl]. }
  unfold start_event. rewrite He. cbn [option_bind mbind].
  destruct (has_flag (e_cf e) INA_CRON_CF_EXEC && e_ready e); [|done].
  pose proof (query_defined c e Heok) as [s Hq]. rewrite Hq. cbn [option_bind mbind].
  destruct s as [s|]; [|done]. destruct (negb _); [|done].
  unfold event_ok in Heok. destruct Heok as [H0|[x Hx]].
  { unfold query in Hq. rewrite H0 in Hq. cbn in Hq. done. }
  unfold on_process. cbn [c_procs update_event set_heap c_world]. rewrite Hx. cbn [option_bind mbind].
  destruct (start_preserves version_hex split_args (fun w => log w = log (c_world c)) (Mem (c_world c) (c_process x)))
    as (u & rc & -> & Hlog & Hs); [done| | |by eapply Hst|done|].
  { intros w Hw. by rewrite log_fork. }
  { intros pid opts w Hw. by rewrite log_waitpid. }
  cbn [option_bind mbind]. eexists. split; [reflexivity|].
  assert (same_events (c_heap c) (alter (with_ready true) p (alter (with_ready false) p (c_heap c)))) as Hsame'.
  { intros q. rewrite (same_events_alter (c_heap c) p (with_ready false) (fun _ => eq_refl) q).
    by apply same_events_alter. }
  split; [|split_and!; [by rewrite app_nil_r|exact Hsame'|done..]].
  apply (cron_ok_same c); [done|done|exact Hsame'|..];
    cbn [c_procs ctx_heap update_event set_heap set_procs ctx_processes].
  - intros q. rewrite lookup_insert_is_Some. destruct (decide (e_process e = q)); naive_solver.
  - intros q y [[<- <-]|[_ Hy]]%lookup_insert_Some; [exact Hs|by eapply Hst].
Qed.

Lemma start_events_spec (c : cron) : cron_ok c ->
  exists c', for_each (start_event version_hex split_args) (events_of c) c = Some c' /\ cron_ok c' /\ pushed c c' [].
Proof.
  intros Hok. destruct (for_each_invariant (start_event version_hex split_args)
    (fun l c' => (exists l0, events_of c = l0 ++ l) /\ cron_ok c' /\ pushed c c' []) (events_of c) c)
    as (c' & Hr & _ & Hok' & Hp).
  - split; [by exists []|]. split; [done|apply pushed_refl].
  - intros p l c1 ([l0 Hl] & Hok1 & Hp1).
    destruct (start_event_spec p c1 Hok1) as (c2 & Hr & Hok2 & Hp2).
    { rewrite (pushed_events _ _ _ Hp1), Hl. apply elem_of_app. right. left. }
    exists c2. split; [done|]. split; [exists (l0 ++ [p]); by rewrite <- app_assoc|]. split; [done|].
    by apply (pushed_trans _ c1 _ [] []).
  - by exists c'.
Qed.

Lemma any_running_defined (c : cron) : cron_ok c -> exists b, any_running version_hex (events_of c) c = Some b.
Proof.
  intros [Hev _]. induction (events_of c) as [|p ps IH]; cbn [any_running]; [by eexists|].
  destruct (Hev p ltac:(left)) as (e & -> & Heok). cbn [option_bind mbind].
  destruct (is_running_defined c e Heok) as [b ->]. cbn [option_bind mbind].
  destruct b; [by eexists|]. apply IH. intros q Hq. apply Hev. by right.
Qed.

Lemma run_ready_spec n (c : cron) : cron_ok c ->
  exists c', run_ready version_hex split_args n c = Some c' /\ cron_ok c' /\ pushed c c' [].
Proof.
  intros Hok. unfold run_ready.
  destruct (negb (n =? 0)); [|exists c; split; [done|]; split; [done|apply pushed_refl]].
  destruct (start_events_spec c Hok) as (c2 & -> & Hok2 & Hp2). cbn [option_bind mbind].
  destruct (any_running_defined (set_times (c_t1 c2) (c_t2 c2) 60 c2)) as [b ->]; [exact Hok2|].
  cbn [option_bind mbind]. destruct b; by eexists.
Qed.

(** One call, while the clock does not jump by more than an hour. *)
Lemma process_spec now time (c : cron) :
  cron_ok c -> 0 <= c_t1 c -> - 3600 <= now - c_t1 c <= 3600 ->
  exists c' next, ina_cron_process version_hex split_args localtime push now time c = Some (c', next) /\
    cron_ok c' /\ c_t1 c' = Z.max (c_t1 c) now /\ events_of c' = events_of c /\ same_events (c_heap c) (c_heap c') /\
    log (c_world c') = log (c_world c) ++
      flat_map (pushes_at (c_heap c) (events_of c)) (due_minutes (c_t1 c) (Z.max (c_t1 c) now)).
Proof.
  intros Hok Ht1 Hdt. unfold ina_cron_process. cbn [c_t1 c_t2 c_stime set_times].
  change (-60 * 60) with (-3600). change (60 * 60) with 3600.
  destruct (Z.ltb_spec (now - c_t1 c) (-3600)); [lia|]. destruct (Z.ltb_spec 3600 (now - c_t1 c)); [lia|]. cbn [orb].
  destruct (Z.ltb_spec 0 (now - c_t1 c)) as [Hpos|Hneg].
  - rewrite Z.max_r by lia. set (c0 := set_times (c_t1 c) now (c_stime c) c).
    rewrite test_jobs_spec by lia.
    destruct (test_minutes_spec (due_minutes (c_t1 c) now) c0 0) as (c1 & n & -> & Hok1 & Hp1); [done|].
    cbn [option_bind mbind]. cbn beta iota.
    destruct (run_ready_spec n c1 Hok1) as (c2 & -> & Hok2 & Hp2).
    cbn [option_bind mbind]. pose proof (pushed_trans _ _ _ _ _ Hp1 Hp2) as (Hlog & Hs & Hev & H1 & H2).
    rewrite app_nil_r in Hlog. do 2 eexists. split; [reflexivity|]. split; [exact Hok2|].
    unfold events_of. cbn [set_times c_t1 c_events c_heap c_world]. rewrite Hev, H2. by split_and!.
  - rewrite Z.max_l by lia. cbn [option_bind mbind]. do 2 eexists. split; [reflexivity|]. split; [exact Hok|].
    cbn [set_times c_t1 c_events c_heap c_world]. split_and!; try done.
    unfold due_minutes. by rewrite Z.sub_diag, app_nil_r.
Qed.

(** The clock readings stay within an hour of the time reached. *)
Fixpoint steady (t1 : Z) (nows : list (Z * Z)) : Prop :=
  match nows with
  | [] => True
  | (now, _) :: nows => - 3600 <= now - t1 <= 3600 /\ steady (Z.max t1 now) nows
  end.

Lemma process_all_spec nows (c : cron) :
  cron_ok c -> 0 <= c_t1 c -> steady (c_t1 c) nows ->
  exists c', process_all version_hex split_args localtime push nows c = Some c' /\
    cron_ok c' /\ c_t1 c <= c_t1 c' /\ c_t1 c' = fold_left Z.max (map fst nows) (c_t1 c) /\
    log (c_world c') = log (c_world c) ++
      flat_map (pushes_at (c_heap c) (events_of c)) (due_minutes (c_t1 c) (c_t1 c')).
Proof.
  revert c. induction nows as [|[now time] nows IH]; intros c Hok Ht1 Hst; cbn [process_all map fold_left].
  - exists c. split; [done|]. split; [done|]. split; [lia|]. split; [done|].
    unfold due_minutes. by rewrite Z.sub_diag, app_nil_r.
  - cbn [steady] in Hst. destruct Hst as [Hdt Hst].
    destruct (process_spec now time c Hok Ht1 Hdt) as (c1 & next & -> & Hok1 & Et1 & Eev & Hs & Hlog).
    cbn [option_bind mbind]. destruct (IH c1) as (c' & -> & Hok' & Hle & Et & Hlog'); [done|lia|by rewrite Et1|].
    exists c'. split; [done|]. split; [done|]. split; [lia|]. split; [by rewrite Et, Et1|].
    rewrite Hlog', Hlog, <- app_assoc, <- Et1, Eev. f_equal.
    rewrite (due_minutes_app (c_t1 c) (c_t1 c1) (c_t1 c')) by lia. rewrite flat_map_app. f_equal.
    apply flat_map_ext. intros t. unfold pushes_at. apply flat_map_ext. intros p. by rewrite (push_of_same _ _ _ _ Hs).
Qed.

End Loops.

(** C6. While the clock never jumps by more than an hour, every minute is
    examined exactly once, however often the scheduler is called and wherever
    the clock goes: over any sequence of calls, the push callbacks are called
    for exactly the events whose pattern matches, minute by minute from the time
    of the first call to the latest time seen, in the order of the table. *)
Theorem cron_examines_each_minute_once {T W} `{!TableOps T, !OS W} version_hex split_args localtime
    (push : Z -> Z -> W -> W * Z) (log : W -> list (Z * Z)) nows (c : cron T W) :
  (forall cb d w, log (push cb d w).1 = log w ++ [(cb, d)]) ->
  (forall w, log (fork w).1 = log w) -> (forall pid opts w, log (waitpid pid opts w).1 = log w) ->
  (forall w : W, 0 < (fork w).2) ->
  cron_ok c -> 0 <= c_t1 c -> steady (c_t1 c) nows ->
  exists c', process_all version_hex split_args localtime push nows c = Some c' /\
    c_t1 c' = fold_left Z.max (map fst nows) (c_t1 c) /\
    log (c_world c') = log (c_world c) ++
      flat_map (pushes_at localtime (c_heap c) (events_of c)) (due_minutes (c_t1 c) (c_t1 c')).
Proof.
  intros Hpush Hfork Hwait Hpos Hok Ht Hst.
  destruct (process_all_spec version_hex split_args localtime push log Hpush Hfork Hwait Hpos nows c Hok Ht Hst)
    as (c' & Hr & _ & _ & Ht1 & Hlog). by exists c'.
Qed.

(** The last execution is the latest one: the result is the start of the
    latest minute up to [now] that matches, or not positive when no minute
    since the epoch matches. *)
Theorem last_exec_is_latest localtime tab now : 0 <= now ->
  exists t, ina_cron_last_exec_systime localtime tab now = Some t /\ t <= now /\ t mod 60 = 0 /\
    (0 < t -> matches tab (localtime t) = true) /\
    forall u, t < u <= now -> 0 < u -> u mod 60 = 0 -> matches tab (localtime u) = false.
Proof.
  intros Hnow. unfold ina_cron_last_exec_systime. rewrite Z.rem_mod_nonneg by lia.
  enough (forall fuel t, t mod 60 = 0 -> t <= now -> Z.max 0 (t / 60) < Z.of_nat fuel ->
    (forall u, t < u <= now -> 0 < u -> u mod 60 = 0 -> matches tab (localtime u) = false) ->
    exists t', last_exec_loop localtime fuel tab t = Some t' /\ t' <= now /\ t' mod 60 = 0 /\
      (0 < t' -> matches tab (localtime t') = true) /\
      forall u, t' < u <= now -> 0 < u -> u mod 60 = 0 -> matches tab (localtime u) = false) as H.
  { apply H; [dlia|dlia|dlia|]. intros u Hu _ Hm. dlia. }
  induction fuel as [|fuel IH]; intros t Hm Ht Hf Hno; [lia|]. cbn [last_exec_loop].
  destruct (Z.ltb_spec 0 t); [|exists t; split; [done|]; split_and!; try done; lia].
  destruct (matches tab (localtime t)) eqn:Hmt; [by exists t|].
  apply IH; [dlia|lia|dlia|]. intros u Hu Hu0 Hum.
  destruct (decide (u = t)) as [->|]; [done|]. apply Hno; [|done|done]. dlia.
Qed.

(** ** Pulling *)

Section Pull.
Context {T W : Type} `{!TableOps T, !OS W}.

(** The keys that wait to be pulled, in the order of the table. *)
Definition pending_of (h : gmap Z event) (p : Z) : list (Z * Z) :=
  match h !! p with
  | Some e => if has_flag (e_cf e) INA_CRON_CF_PULL && e_can_pull e then [(e_key e, e_pull_data e)] else []
  | None => []
  end.
Definition pending (c : cron T W) : list (Z * Z) := flat_map (pending_of (c_heap c)) (events_of c).

Lemma pending_alter h p f l : p ∉ l -> flat_map (pending_of (alter f p h)) l = flat_map (pending_of h) l.
Proof.
  intros Hp. induction l as [|q l IH]; [done|]. apply not_elem_of_cons in Hp as [Hne Hp].
  cbn [flat_map]. rewrite IH by done. f_equal. unfold pending_of. by rewrite lookup_alter_ne.
Qed.
End Pull.

(** Pulling empties the queue of events that are due, in the order of the
    table: a call returns the first one that waits with its key and data and
    takes it out, or the key 0 when there is none; nothing else changes. *)
Theorem try_pull_takes_first {T W} `{!TableOps T} (c : cron T W) :
  NoDup (events_of c) -> (forall p, p ∈ events_of c -> is_Some (c_heap c !! p)) ->
  exists c' key data, ina_cron_try_pull c = Some (c', key, data) /\
    match pending c with
    | [] => c' = c /\ key = 0 /\ data = None
    | (k, d) :: rest => key = k /\ data = Some d /\ pending c' = rest /\
        c_procs c' = c_procs c /\ c_world c' = c_world c /\ events_of c' = events_of c
    end.
Proof.
  unfold ina_cron_try_pull, pending.
  enough (forall l, NoDup l -> (forall p, p ∈ l -> is_Some (c_heap c !! p)) ->
    exists c' key data, try_pull_loop l c = Some (c', key, data) /\
    match flat_map (pending_of (c_heap c)) l with
    | [] => c' = c /\ key = 0 /\ data = None
    | (k, d) :: rest => key = k /\ data = Some d /\ flat_map (pending_of (c_heap c')) l = rest /\
        c_procs c' = c_procs c /\ c_world c' = c_world c /\ events_of c' = events_of c /\
        forall q, q ∉ l -> c_heap c' !! q = c_heap c !! q
    end) as H.
  { intros Hnd Hin. destruct (H _ Hnd Hin) as (c' & key & data & Hr & Hm). exists c', key, data.
    split; [done|]. destruct (flat_map (pending_of (c_heap c)) (events_of c)) as [|[k d] rest]; [done|].
    destruct Hm as (? & ? & Hp & ? & ? & He & _). rewrite He. by split_and!. }
  induction l as [|p l IH]; intros Hnd Hin; cbn [try_pull_loop flat_map]; [by exists c, 0, None|].
  apply NoDup_cons in Hnd as [Hp Hnd]. destruct (Hin p ltac:(left)) as [e He].
  rewrite He. unfold pending_of at 1. rewrite He. cbn [option_bind mbind].
  destruct (has_flag (e_cf e) INA_CRON_CF_PULL && e_can_pull e) eqn:Hw; cbn [app].
  - do 3 eexists. split; [reflexivity|]. cbn [c_heap update_event set_heap]. split; [done|]. split; [done|].
    split_and!; try done.
    + unfold pending_of at 1. rewrite lookup_alter_eq, He. cbn [fmap option_fmap option_map].
      cbn [with_can_pull e_can_pull e_cf]. rewrite andb_false_r. cbn [app]. by apply pending_alter.
    + intros q Hq. apply lookup_alter_ne. intros ->. apply Hq. left.
  - destruct IH as (c' & key & data & Hr & Hm); [done|intros q Hq; apply Hin; by right|].
    exists c', key, data. split; [done|]. destruct (flat_map _ l) as [|[k d] rest]; [done|].
    destruct Hm as (-> & -> & Hm & H2 & H3 & H4 & H5). split_and!; try done.
    + unfold pending_of at 1. rewrite (H5 p Hp), He, Hw. exact Hm.
    + intros q Hq. apply H5. intros Hql. apply Hq. by right.
Qed.

(** ** Contexts to evaluate

    The system is the log of the pushes beside the counter of Process.v, the
    clock shows the first of January, and the table is the one of Hashtable.v. *)
#[export] Instance logging_os : OS (list (Z * Z) * N) := {
  fork w := let (n, r) := fork (W := N) w.2 in ((w.1, n), r);
  kill pid sig w := let (n, r) := kill (W := N) pid sig w.2 in ((w.1, n), r);
  waitpid pid opts w := let (n, r) := waitpid (W := N) pid opts w.2 in ((w.1, n), r);
  chdir d w := let (n, r) := chdir (W := N) d w.2 in ((w.1, n), r);
  errno w := errno (W := N) w.2;
  WIFEXITED := WIFEXITED (W := N); WEXITSTATUS := WEXITSTATUS (W := N);
  SIGTERM := SIGTERM (W := N); ESRCH := ESRCH (W := N); WNOHANG := WNOHANG (W := N)
}.
Definition log_push (cb data : Z) (w : list (Z * Z) * N) : list (Z * Z) * N * Z := ((w.1 ++ [(cb, data)], w.2), 0).
Definition new_year (t : Z) : tm := Tm (t / 60 mod 60) (t / 3600 mod 24) 1 0 4.
Definition table_of (s : string) : timetable :=
  default empty_timetable (fst <$> ina_cron_parse_pattern (bytes_of_string s) empty_timetable).

#[local] Existing Instance Process.ptr_ops.

Definition one_event (e : event) (procs : ctx hashtable) (t1 : Z) : cron hashtable (list (Z * Z) * N) :=
  Cron_ (tb_set empty_table (bytes_of_string "job-0000") 4096) {[ 4096 := e ]} procs ([], 0%N) t1 0 60.

Definition every_second_minute : event := Event 0 INA_CRON_CF_PUSH 0 0 7 false (table_of "*/2 * * * *") 0 9 false.

Lemma one_event_events e procs t1 : events_of (one_event e procs t1) = [4096].
Proof. vm_compute. reflexivity. Qed.

Lemma cron_examines_each_minute_once_witness :
  exists c', process_all 0 (fun _ => []) new_year log_push [(100, 0); (70, 0); (200, 0); (190, 0)]
      (one_event every_second_minute empty_ctx 30) = Some c' /\
    c_t1 c' = 200 /\ fst (c_world c') = [(7, 9)].
Proof.
  destruct (cron_examines_each_minute_once 0 (fun _ => []) new_year log_push fst
    [(100, 0); (70, 0); (200, 0); (190, 0)] (one_event every_second_minute empty_ctx 30)) as (c' & Hr & Ht & Hl).
  - reflexivity.
  - reflexivity.
  - reflexivity.
  - intros [l n]. cbn. lia.
  - split.
    + intros p Hp. rewrite one_event_events in Hp. apply list_elem_of_singleton in Hp as ->.
      exists every_second_minute. split; [reflexivity|]. by left.
    + intros q x Hx. cbn in Hx. done.
  - cbn. lia.
  - cbn. lia.
  - exists c'. split; [exact Hr|]. rewrite Ht in Hl |- *. split; [reflexivity|]. rewrite Hl. vm_compute. reflexivity.
Defined.

Lemma last_exec_is_latest_witness :
  exists t, ina_cron_last_exec_systime new_year (table_of "30 2 1 1 *") 100000 = Some t /\
    (forall u, t < u <= 100000 -> 0 < u -> u mod 60 = 0 -> matches (table_of "30 2 1 1 *") (new_year u) = false).
Proof.
  destruct (last_exec_is_latest new_year (table_of "30 2 1 1 *") 100000 ltac:(lia)) as (t & H & _ & _ & _ & Hno).
  exists t. split; [exact H|exact Hno].
Defined.

Definition waiting : event := Event 0 INA_CRON_CF_PULL 5 0 0 false empty_timetable 11 0 true.

Lemma try_pull_takes_first_witness :
  exists c' key data, ina_cron_try_pull (one_event waiting empty_ctx 30) = Some (c', key, data) /\
    key = 5 /\ data = Some 11 /\ pending c' = [].
Proof.
  destruct (try_pull_takes_first (one_event waiting empty_ctx 30)) as (c' & key & data & Hr & Hm).
  - rewrite one_event_events. apply NoDup_singleton.
  - intros p Hp. rewrite one_event_events in Hp. apply list_elem_of_singleton in Hp as ->. by eexists.
  - exists c', key, data. split; [exact Hr|]. unfold pending in Hm at 1. rewrite one_event_events in Hm.
    destruct Hm as (-> & -> & Hp & _). by split_and!.
Defined.

(** A context with one job that is due every minute. *)
Definition with_job : cron hashtable (list (Z * Z) * N) :=
  one_event (Event 0 INA_CRON_CF_EXEC 0 8192 0 false (table_of "* * * * *") 0 0 false)
    (fst (ina_process_new empty_ctx no_descriptor 0 8192 16384)) 30.

Definition empty_cron : cron hashtable (list (Z * Z) * N) := Cron_ empty_table ∅ empty_ctx ([], 0%N) 0 0 60.

(** Where the scheduler departs from what its interface says.
    - A job is started once: it stays in the state running when its process has
      ended, so a job that is due every minute for two hours is started once.
    - A new event is not put into the table: iterating does not deliver it.
    - A new event has no context, which [ina_cron_event_set_exec_params]
      dereferences. *)
Theorem cron_defects :
  (exists c', process_all 0 (fun _ => []) new_year log_push [(3600, 0); (7200, 0)] with_job = Some c' /\
    c_t1 c' = 7200 /\ snd (c_world c') = 1%N) /\
  (exists c', ina_cron_event_new (bytes_of_string "t1") (bytes_of_string "* * * * *") 0 4096 empty_cron
      = Some (c', Ok 4096) /\ events_of c' = [] /\
    ina_cron_event_set_exec_params (fun _ => [[108; 115]; [45; 108]]) 4096 [] None 8192 16384 c' = None).
Proof. split; eexists; (split; [vm_compute; reflexivity|]); split; vm_compute; reflexivity. Qed.

End Cron.
