(* ===== verification/Ullc.v ===== *)
(** * The ring buffer (ullc.c, ullc.h)

    A ring of slots in shared memory: a producer claims a slot, fills it and
    commits it, consumers read with a position of their own.  The file models the
    set-up of a ring with its producers and consumers, the operations, and their
    execution in parallel: every atomic access of the code is a step, and an
    execution is a sequence of steps of the threads in any order.  The type of
    the items is a parameter. *)
From Stdlib Require Import ZArith Lia Bool.
From stdpp Require Import base numbers option list.
From S2P Require Import Prelude Error.

Module Ullc.
Import Error.

Definition INA_ULLC_MAX_PRODUCERS : Z := 64.
Definition INA_ULLC_MAX_CONSUMERS : Z := INA_ULLC_MAX_PRODUCERS.
Definition __INA_MAGIC_HDR : Z := 90.
Definition INT64_MAX : Z := 2 ^ 63 - 1.

(** [struct ina_ullc_rb_s] without the wait count and the key of the semaphore. *)
Record ring := Ring {
  r_magic : Z; r_version : Z; r_num_consumers : Z; r_num_producers : Z; r_size : Z; r_slots : Z;
  r_cursor : Z; r_next_ptr : Z; r_alive_producers : Z; r_overrun_enabled : Z
}.

(** [struct ina_ullc_cursor_s] *)
Record cursor := Cursor { cu_alive : Z; cu_cursor : Z }.

(** The shared memory: the ring, the slots, and the array of the cursors of
    the consumers followed by those of the producers. *)
Record shm (A : Type) := Shm { s_ring : ring; s_data : list A; s_cells : list cursor }.
Arguments Shm {A} _ _ _.
Arguments s_ring {A} _.
Arguments s_data {A} _.
Arguments s_cells {A} _.

Definition set_cursor (c n : Z) (r : ring) : ring :=
  Ring (r_magic r) (r_version r) (r_num_consumers r) (r_num_producers r) (r_size r) (r_slots r)
    c n (r_alive_producers r) (r_overrun_enabled r).
Definition set_overrun (o : Z) (r : ring) : ring :=
  Ring (r_magic r) (r_version r) (r_num_consumers r) (r_num_producers r) (r_size r) (r_slots r)
    (r_cursor r) (r_next_ptr r) (r_alive_producers r) o.
Definition set_alive_producers (m n : Z) (r : ring) : ring :=
  Ring m (r_version r) (r_num_consumers r) (r_num_producers r) (r_size r) (r_slots r)
    (r_cursor r) (r_next_ptr r) n (r_overrun_enabled r).

(** Contexts, reduced to the index of their cell in [s_cells]. *)
Record producer := Producer { p_id : Z; p_cell : Z }.
Record consumer := Consumer { c_id : Z; c_cell : Z }.

(** [__sync_val_compare_and_swap] *)
Definition cas (x old new : Z) : Z * Z := (if x =? old then new else x, x).

Section Operations.
Context {A : Type}.

Abbreviation shm := (shm A).

Definition with_ring (f : ring -> ring) (m : shm) : shm := Shm (f (s_ring m)) (s_data m) (s_cells m).
Definition with_cells (cs : list cursor) (m : shm) : shm := Shm (s_ring m) (s_data m) cs.
Definition cell_at (m : shm) (i : Z) : option cursor := if 0 <=? i then s_cells m !! Z.to_nat i else None.
Definition set_cell (i : Z) (c : cursor) (m : shm) : shm := with_cells (<[Z.to_nat i := c]> (s_cells m)) m.

(** ** Set-up *)

(** [__ina_ullc_ring_create] on the memory that the shared pool gives; [excl]
    is the flag [INA_MEM_SHARED_EXCL]. *)
Definition __ina_ullc_ring_create (m : option shm) (excl : bool) (version size slots num_producers num_consumers : Z)
    : option shm * result unit :=
  if negb (Z.rem size 2 =? 0) then (m, Err (Z.lor (INA_ES S_MEMORY) (INA_ERR_NOT_ E_ALIGNED))) else
  match m with
  | None => (None, Err INA_ERR_OPERATION_FAILED)
  | Some m =>
      let m :=
        if negb (r_magic (s_ring m) =? __INA_MAGIC_HDR) || excl then
          with_ring (fun _ => Ring __INA_MAGIC_HDR version num_consumers num_producers size slots (-1) 0 0 (-1)) m
        else m in
      let r := s_ring m in
      if negb ((r_version r =? version) && (r_size r =? size) && (r_slots r =? slots)
               && (r_num_consumers r =? num_consumers) && (r_num_producers r =? num_producers))
      then (Some m, Err (Z.lor (INA_ES S_ARGUMENT) INA_ERR_INVALID))
      else (Some m, Ok tt)
  end.

Definition valid_arguments (version size slots num_producers num_consumers : Z) : bool :=
  (0 <? version) && (0 <? size) && (0 <? slots)
  && (0 <? num_producers) && (num_producers <=? INA_ULLC_MAX_PRODUCERS)
  && (0 <? num_consumers) && (num_consumers <=? INA_ULLC_MAX_CONSUMERS).

(** The loop of [ina_ullc_producer_new] that looks for a free cell: it
    advances the pointer [p] by [id] each time. The result is the memory, the
    pointer and the id; [None] is an access behind the cells. *)
Fixpoint producer_cell (fuel : nat) (num_producers : Z) (id p : Z) (m : shm) : option (shm * Z * Z) :=
  match fuel with
  | O => None
  | S fuel =>
      if id <? num_producers then
        let p := p + id in
        c ← cell_at m p;
        let (alive, old) := cas (cu_alive c) 0 1 in
        let m := set_cell p (Cursor alive (cu_cursor c)) m in
        if old =? 0 then Some (m, id, p) else producer_cell fuel num_producers (id + 1) p m
      else Some (m, id, p)
  end.

(** [ina_ullc_producer_new]: [m_excl] and [m_plain] are what opening the shared
    memory gives with and without [INA_MEM_SHARED_EXCL], [sem_ok] says whether
    the semaphore can be created. A null context is an inner [None]. *)
Definition ina_ullc_producer_new (version size slots num_producers num_consumers : Z) (m_excl m_plain : option shm)
    (sem_ok : bool) : option (option shm * result (option producer)) :=
  if negb (valid_arguments version size slots num_producers num_consumers) then
    Some (m_plain, Err INA_ERR_INVALID_ARGUMENT) else
  let '(m, rc) :=
    match __ina_ullc_ring_create m_excl true version size slots num_producers num_consumers with
    | (m, Ok _) => (m, Ok tt)
    | (_, Err _) => __ina_ullc_ring_create m_plain false version size slots num_producers num_consumers
    end in
  match m, rc with
  | _, Err e => Some (m, Err e)
  | None, Ok _ => None
  | Some m, Ok _ =>
      '(m, id, p) ← producer_cell (S (Z.to_nat num_producers)) num_producers 0 num_consumers m;
      if id =? num_producers then Some (Some m, Err (Z.lor (INA_ES S_LIMIT) (INA_ERR E_EXCEEDED)))
      else Some (Some m, Ok (if sem_ok then Some (Producer id p) else None))
  end.

(** The loop of [ina_ullc_consumer_new]. *)
Fixpoint consumer_cell (fuel : nat) (num_consumers : Z) (id : Z) (m : shm) : option (shm * Z) :=
  match fuel with
  | O => None
  | S fuel =>
      if id <? num_consumers then
        c ← cell_at m id;
        let (alive, old) := cas (cu_alive c) 0 1 in
        let m := set_cell id (Cursor alive (cu_cursor c)) m in
        if old =? 0 then Some (m, id) else consumer_cell fuel num_consumers (id + 1) m
      else Some (m, id)
  end.

Definition ina_ullc_consumer_new (version size slots num_producers num_consumers : Z) (m_open : option shm)
    (sem_ok : bool) : option (option shm * result (option consumer)) :=
  if negb (valid_arguments version size slots num_producers num_consumers) then
    Some (m_open, Err INA_ERR_INVALID_ARGUMENT) else
  match __ina_ullc_ring_create m_open false version size slots num_producers num_consumers with
  | (m, Err e) => Some (m, Err e)
  | (None, Ok _) => None
  | (Some m, Ok _) =>
      '(m, id) ← consumer_cell (S (Z.to_nat num_consumers)) num_consumers 0 m;
      if id =? num_consumers then Some (Some m, Err (Z.lor (INA_ES S_LIMIT) (INA_ERR E_EXCEEDED))) else
      c ← cell_at m id;
      let (cur, _) := cas (cu_cursor c) 0 (r_cursor (s_ring m)) in
      let cur := if cur <? 0 then 0 else cur in
      Some (Some (set_cell id (Cursor (cu_alive c) cur) m), Ok (if sem_ok then Some (Consumer id id) else None))
  end.

(** [ina_ullc_consumer_free] and [ina_ullc_producer_free]. *)
Definition ina_ullc_consumer_free (c : consumer) (m : shm) : option shm :=
  x ← cell_at m (c_cell c);
  Some (set_cell (c_cell c) (Cursor (fst (cas (cu_alive x) 1 0)) 0) m).

Definition ina_ullc_producer_free (p : producer) (m : shm) : option shm :=
  x ← cell_at m (p_cell p);
  let m := set_cell (p_cell p) (Cursor (fst (cas (cu_alive x) 1 0)) (cu_cursor x)) m in
  let old := r_alive_producers (s_ring m) in
  Some (with_ring (fun r => set_alive_producers (if old =? 1 then 0 else r_magic r) (old - 1) r) m).

Definition ina_ullc_reset_ring (m : shm) : shm :=
  with_ring (fun r => set_alive_producers 0 (r_alive_producers r) r) m.

(** ** Overrun and positions *)

Definition ina_ullc_overrun_enable (m : shm) : shm * result unit :=
  let (x, old) := cas (r_overrun_enabled (s_ring m)) INT64_MAX (-1) in
  (with_ring (set_overrun x) m, if old =? INT64_MAX then Ok tt else Err INA_ERR_OPERATION_FAILED).

Definition ina_ullc_overrun_disable (m : shm) : shm * result unit :=
  let (x, old) := cas (r_overrun_enabled (s_ring m)) (-1) INT64_MAX in
  (with_ring (set_overrun x) m, if old =? -1 then Ok tt else Err INA_ERR_OPERATION_FAILED).

Definition ina_ullc_producer_get_pos (m : shm) : Z := r_next_ptr (s_ring m).
Definition ina_ullc_consumer_get_pos (c : consumer) (m : shm) : option Z := cu_cursor <$> cell_at m (c_cell c).

(** [ina_ullc_consumer_set_pos]; only the consumer itself writes its cursor, so
    the swap succeeds. *)
Definition ina_ullc_consumer_set_pos (c : consumer) (pos : Z) (m : shm) : option (shm * result unit) :=
  x ← cell_at m (c_cell c);
  let pos := if (pos =? -1) || (r_next_ptr (s_ring m) <? pos) then r_next_ptr (s_ring m) else pos in
  let (cur, old) := cas (cu_cursor x) (cu_cursor x) pos in
  Some (set_cell (c_cell c) (Cursor (cu_alive x) cur) m, if old =? cu_cursor x then Ok tt else Err INA_ERR_OPERATION_FAILED).

(** ** Claim, commit and get

    One round of the loop of [ina_ullc_producer_claim]: the largest position
    modulo the ring of the consumers that are alive. *)
Definition claim_round (m : shm) : Z :=
  fold_left (fun slow c =>
      if negb (cu_alive c =? 0) then Z.max slow (Z.rem (cu_cursor c) (r_slots (s_ring m))) else slow)
    (take (Z.to_nat (r_num_consumers (s_ring m))) (s_cells m)) (-1).

Definition claim_slot (m : shm) : Z := Z.rem (r_next_ptr (s_ring m)) (r_slots (s_ring m)).

(** The two increments of [ina_ullc_producer_commit]. *)
Definition commit_next (m : shm) : shm :=
  with_ring (fun r => set_cursor (r_cursor r) (r_next_ptr r + 1) r) m.
Definition commit_cursor (m : shm) : shm :=
  with_ring (fun r => set_cursor (r_cursor r + 1) (r_next_ptr r) r) m.
Definition ina_ullc_producer_commit (m : shm) : shm := commit_cursor (commit_next m).

(** The two halves of [ina_ullc_consumer_get]: the test with the index of the
    slot, and the increment. An inner [None] is the null pointer. *)
Definition get_test (i : Z) (m : shm) : option (option Z) :=
  x ← cell_at m i;
  if r_cursor (s_ring m) <? cu_cursor x then Some None
  else Some (Some (Z.rem (cu_cursor x) (r_slots (s_ring m)))).
Definition get_advance (i : Z) (m : shm) : option shm :=
  x ← cell_at m i; Some (set_cell i (Cursor (cu_alive x) (cu_cursor x + 1)) m).

Definition ina_ullc_consumer_get (c : consumer) (m : shm) : option (shm * option Z) :=
  r ← get_test (c_cell c) m;
  match r with
  | None => Some (m, None)
  | Some idx => m ← get_advance (c_cell c) m; Some (m, Some idx)
  end.

End Operations.
(** ** Parallel executions

    One producer and any number of consumers run in parallel.  The program
    counters say where they are; a label names the thread and its next access.
    The history of the committed items and the log of what each consumer has
    read, with its position and the value of [next_ptr] at that time, are
    recorded beside the memory. *)
Inductive prod_pc := PIdle | PSpin (slow like : Z) | PClaimed (like : Z) | PCommit.
Inductive cons_pc := CIdle | CReady (idx : Z) | CGot (idx : Z).

Record entry (A : Type) := Entry { en_pos : Z; en_val : A; en_next : Z }.
Arguments Entry {A} _ _ _.
Arguments en_pos {A} _.
Arguments en_val {A} _.
Arguments en_next {A} _.

Record thread (A : Type) := Thread { th_pc : cons_pc; th_log : list (entry A) }.
Arguments Thread {A} _ _.
Arguments th_pc {A} _.
Arguments th_log {A} _.

Record state (A : Type) := State {
  st_mem : shm A; st_prod : prod_pc; st_cons : list (thread A); st_hist : list A
}.
Arguments State {A} _ _ _ _.
Arguments st_mem {A} _.
Arguments st_prod {A} _.
Arguments st_cons {A} _.
Arguments st_hist {A} _.

Inductive label (A : Type) :=
  | Claim | Round | Write (v : A) | CommitNext | CommitCursor
  | GetTest (i : nat) | GetAdvance (i : nat) | Read (i : nat).
Arguments Claim {A}.
Arguments Round {A}.
Arguments Write {A} _.
Arguments CommitNext {A}.
Arguments CommitCursor {A}.
Arguments GetTest {A} _.
Arguments GetAdvance {A} _.
Arguments Read {A} _.

Section Parallel.
Context {A : Type}.

Definition slot_at (m : shm A) (idx : Z) : option A := if 0 <=? idx then s_data m !! Z.to_nat idx else None.

Definition set_thread (i : nat) (t : thread A) (s : state A) : state A :=
  State (st_mem s) (st_prod s) (<[i := t]> (st_cons s)) (st_hist s).

(** The producer: claim, any number of rounds, filling the slot, and the two
    halves of commit. *)
Definition prod_step (l : label A) (s : state A) : option (state A) :=
  let m := st_mem s in
  let goto m pc := Some (State m pc (st_cons s) (st_hist s)) in
  match l, st_prod s with
  | Claim, PIdle => goto m (PSpin (r_overrun_enabled (s_ring m)) (claim_slot m))
  | Round, PSpin slow like =>
      if like <? slow then goto m (PSpin (claim_round m) like) else goto m (PClaimed like)
  | Write v, PClaimed like =>
      if (0 <=? like) && (like <? Z.of_nat (length (s_data m))) then
        goto (Shm (s_ring m) (<[Z.to_nat like := v]> (s_data m)) (s_cells m)) (PClaimed like)
      else None
  | CommitNext, PClaimed like =>
      v ← slot_at m like;
      Some (State (commit_next m) PCommit (st_cons s) (st_hist s ++ [v]))
  | CommitCursor, PCommit => goto (commit_cursor m) PIdle
  | _, _ => None
  end.

(** A consumer: the two halves of get, and reading the item behind the pointer
    it was given. *)
Definition cons_step (l : label A) (i : nat) (t : thread A) (s : state A) : option (state A) :=
  let m := st_mem s in
  match l, th_pc t with
  | GetTest _, CIdle =>
      r ← get_test (Z.of_nat i) m;
      Some (set_thread i (Thread (match r with Some idx => CReady idx | None => CIdle end) (th_log t)) s)
  | GetAdvance _, CReady idx =>
      m ← get_advance (Z.of_nat i) m;
      Some (set_thread i (Thread (CGot idx) (th_log t)) (State m (st_prod s) (st_cons s) (st_hist s)))
  | Read _, CGot idx =>
      v ← slot_at m idx;
      c ← cell_at m (Z.of_nat i);
      Some (set_thread i (Thread CIdle (th_log t ++ [Entry (cu_cursor c - 1) v (r_next_ptr (s_ring m))])) s)
  | _, _ => None
  end.

Definition step (l : label A) (s : state A) : option (state A) :=
  match l with
  | GetTest i | GetAdvance i | Read i => t ← st_cons s !! i; cons_step l i t s
  | _ => prod_step l s
  end.

Fixpoint run (ls : list (label A)) (s : state A) : option (state A) :=
  match ls with [] => Some s | l :: ls => s ← step l s; run ls s end.

(** A new ring: nothing committed, every consumer at the first position. *)
Record new_ring (s : state A) : Prop := {
  nr_slots : 0 < r_slots (s_ring (st_mem s));
  nr_data : Z.of_nat (length (s_data (st_mem s))) = r_slots (s_ring (st_mem s));
  nr_ring : r_cursor (s_ring (st_mem s)) = -1 /\ r_next_ptr (s_ring (st_mem s)) = 0;
  nr_prod : st_prod s = PIdle;
  nr_hist : st_hist s = [];
  nr_cons : forall i t, st_cons s !! i = Some t ->
    th_pc t = CIdle /\ th_log t = [] /\ exists c, s_cells (st_mem s) !! i = Some c /\ cu_cursor c = 0
}.

(** ** The invariant *)

(** What consumer [i] has read, and where it is. *)
Definition thread_ok (s : state A) (i : nat) (t : thread A) : Prop :=
  exists c, s_cells (st_mem s) !! i = Some c /\
    cu_cursor c = Z.of_nat (length (th_log t)) + (match th_pc t with CGot _ => 1 | _ => 0 end) /\
    cu_cursor c <= r_cursor (s_ring (st_mem s)) + 1 /\
    match th_pc t with
    | CIdle => True
    | CReady idx => idx = cu_cursor c mod r_slots (s_ring (st_mem s)) /\ cu_cursor c <= r_cursor (s_ring (st_mem s))
    | CGot idx => idx = (cu_cursor c - 1) mod r_slots (s_ring (st_mem s))
    end /\
    forall n e, th_log t !! n = Some e ->
      en_pos e = Z.of_nat n /\ en_pos e < en_next e <= r_next_ptr (s_ring (st_mem s)) /\
      (en_next e - en_pos e < r_slots (s_ring (st_mem s)) -> st_hist s !! n = Some (en_val e)).

Record inv (s : state A) : Prop := {
  i_slots : 0 < r_slots (s_ring (st_mem s));
  i_data : Z.of_nat (length (s_data (st_mem s))) = r_slots (s_ring (st_mem s));
  i_hist : Z.of_nat (length (st_hist s)) = r_next_ptr (s_ring (st_mem s));
  i_cursor : r_cursor (s_ring (st_mem s)) = r_next_ptr (s_ring (st_mem s)) - (match st_prod s with PCommit => 2 | _ => 1 end);
  i_claimed : match st_prod s with
    | PSpin _ like | PClaimed like => like = r_next_ptr (s_ring (st_mem s)) mod r_slots (s_ring (st_mem s))
    | _ => True end;
  i_window : forall k, r_next_ptr (s_ring (st_mem s)) - r_slots (s_ring (st_mem s)) < k < r_next_ptr (s_ring (st_mem s)) ->
    0 <= k -> s_data (st_mem s) !! Z.to_nat (k mod r_slots (s_ring (st_mem s))) = st_hist s !! Z.to_nat k;
  i_threads : forall i t, st_cons s !! i = Some t -> thread_ok s i t
}.

Lemma new_ring_inv s : new_ring s -> inv s.
Proof.
  intros [H1 H2 [H3 H4] H5 H6 H7]. split; rewrite ?H3, ?H4, ?H5, ?H6; try done; [lia|].
  intros i t Hi. destruct (H7 i t Hi) as (Hpc & Hlog & c & Hc & H0). exists c. rewrite Hpc, Hlog, H3, H0.
  split_and!; try done; lia.
Qed.

(** Two positions less than a round apart have different slots. *)
Lemma slots_differ n a b : 0 < n -> a mod n = b mod n -> Z.abs (a - b) < n -> a = b.
Proof.
  intros Hn Hab Hd. pose proof (Z.div_mod a n). pose proof (Z.div_mod b n).
  assert (a - b = n * (a / n - b / n)) by lia. assert (a / n - b / n = 0) by nia. nia.
Qed.

Lemma prod_step_inv l s s' : inv s -> prod_step l s = Some s' -> inv s'.
Proof.
  intros Hi. pose proof Hi as [Hsl Hd Hh Hc Hcl Hw Ht]. destruct s as [[r data cells] pc cons hist].
  cbn [st_mem st_prod st_cons st_hist s_ring s_data s_cells] in *. unfold prod_step.
  cbn [st_mem st_prod st_cons st_hist s_ring s_data s_cells].
  destruct l, pc; try done.
  - intros [= <-]. split; cbn [st_mem st_prod st_cons st_hist s_ring s_data s_cells]; try done.
    unfold claim_slot. cbn [s_ring]. apply Z.rem_mod_nonneg; lia.
  - destruct (like <? slow); intros [= <-]; split; done.
  - destruct (Z.leb_spec 0 like); [|done]. destruct (Z.ltb_spec like (Z.of_nat (length data))); [|done].
    intros [= <-]. split; cbn [st_mem st_prod st_cons st_hist s_ring s_data s_cells]; try done.
    + by rewrite length_insert.
    + intros k Hk Hk0. rewrite list_lookup_insert_ne; [by apply Hw|]. rewrite Hcl.
      intros Heq. pose proof (Z.mod_pos_bound k (r_slots r) Hsl). pose proof (Z.mod_pos_bound (r_next_ptr r) (r_slots r) Hsl).
      assert (r_next_ptr r = k); [|lia]. apply (slots_differ (r_slots r)); lia.
  - unfold slot_at. cbn [s_data]. pose proof (Z.mod_pos_bound (r_next_ptr r) (r_slots r) Hsl).
    destruct (Z.leb_spec 0 like); [|done].
    destruct (data !! Z.to_nat like) as [v|] eqn:Hv; [|done]. cbn [option_bind mbind]. intros [= <-].
    split; cbn [st_mem st_prod st_cons st_hist s_ring s_data s_cells commit_next with_ring set_cursor
      r_slots r_cursor r_next_ptr]; try done.
    + rewrite length_app. cbn [length]. lia.
    + lia.
    + intros k Hk Hk0. destruct (decide (k = r_next_ptr r)) as [->|].
      * rewrite lookup_app_r by lia. rewrite <- Hcl, Hv. by replace (Z.to_nat (r_next_ptr r) - length hist)%nat with 0%nat by lia.
      * rewrite lookup_app_l by lia. apply Hw; lia.
    + intros i t Hit. destruct (Ht i t Hit) as (c & Hcell & Hcur & Hle & Hpc & Hlog). exists c.
      cbn [st_mem st_hist s_ring s_cells commit_next commit_cursor with_ring r_cursor r_next_ptr r_slots set_cursor] in *. split_and!; try done.
      intros n e Hn. destruct (Hlog n e Hn) as (L1 & L2 & L3). split_and!; [done|lia|lia|].
      intros Hov. rewrite lookup_app_l; [by apply L3|]. lia.
  - intros [= <-].
    split; cbn [st_mem st_prod st_cons st_hist s_ring s_data s_cells commit_cursor with_ring set_cursor
      r_slots r_cursor r_next_ptr]; try done; [lia|].
    intros i t Hit. destruct (Ht i t Hit) as (c & Hcell & Hcur & Hle & Hpc & Hlog). exists c.
    cbn [st_mem st_hist s_ring s_cells commit_next commit_cursor with_ring r_cursor r_next_ptr r_slots set_cursor] in *. split_and!; try done; [lia|].
    destruct (th_pc t); [done| |done]. destruct Hpc. split; [done|lia].
Qed.

(** Changing the cell and the thread of one consumer. *)
Lemma thread_ok_other m pc cons hist i j c t u :
  i <> j -> thread_ok (State m pc cons hist) j u ->
  thread_ok (set_thread i t (State (set_cell (Z.of_nat i) c m) pc cons hist)) j u.
Proof.
  intros Hij (x & Hx & Hrest). exists x. split; [|exact Hrest].
  cbn [set_thread st_mem set_cell with_cells s_cells] in *. rewrite Nat2Z.id. by rewrite list_lookup_insert_ne.
Qed.

Lemma cell_at_nat (m : shm A) i c : cell_at m (Z.of_nat i) = Some c <-> s_cells m !! i = Some c.
Proof. unfold cell_at. rewrite Nat2Z.id. destruct (Z.leb_spec 0 (Z.of_nat i)); [done|lia]. Qed.

Lemma set_cell_self (m : shm A) i c : s_cells m !! i = Some c -> set_cell (Z.of_nat i) c m = m.
Proof.
  intros Hc. destruct m as [r d cells]. unfold set_cell, with_cells. cbn [s_ring s_data s_cells] in *.
  by rewrite Nat2Z.id, list_insert_id.
Qed.

(** A step of a consumer that writes its own cell keeps the invariant if its
    own thread is in order afterwards. *)
Lemma thread_step_inv (s : state A) i c t t0 :
  inv s -> st_cons s !! i = Some t0 ->
  (let s' := set_thread i t (State (set_cell (Z.of_nat i) c (st_mem s)) (st_prod s) (st_cons s) (st_hist s)) in
   thread_ok s' i t -> inv s').
Proof.
  intros [Hsl Hd Hh Hc Hcl Hw Ht] Hi s' Hok. subst s'. split; try done.
  intros j u Hj. cbn [set_thread st_cons] in Hj. destruct (decide (i = j)) as [<-|Hij].
  - rewrite list_lookup_insert_eq in Hj by (by eapply lookup_lt_Some). by simplify_eq.
  - rewrite list_lookup_insert_ne in Hj by done. destruct s. apply thread_ok_other; [done|]. by apply Ht.
Qed.

Lemma cons_step_inv l i t (s s' : state A) :
  inv s -> st_cons s !! i = Some t -> cons_step l i t s = Some s' -> inv s'.
Proof.
  intros Hinv Hi. pose proof Hinv as [Hsl Hd Hh Hc _ Hw Ht].
  destruct (Ht i t Hi) as (c & Hcell & Hcur & Hle & Hpc & Hlog).
  destruct s as [m pc cons hist], t as [tpc tlog].
  cbn [st_mem st_prod st_cons st_hist th_pc th_log] in *.
  pose proof (proj2 (cell_at_nat m i c) Hcell) as Hat.
  assert (forall t', thread_ok (set_thread i t' (State m pc cons hist)) i t' -> inv (set_thread i t' (State m pc cons hist))) as Hself.
  { intros t' Hok. rewrite <- (set_cell_self m i c Hcell) in Hok |- *. by eapply (thread_step_inv (State m pc cons hist)). }
  unfold cons_step. cbn [st_mem st_prod st_cons st_hist th_pc th_log].
  destruct l, tpc; try done.
  - unfold get_test. rewrite Hat. cbn [option_bind mbind].
    destruct (Z.ltb_spec (r_cursor (s_ring m)) (cu_cursor c)); cbn [option_bind mbind]; intros [= <-];
      apply Hself; exists c; cbn [set_thread st_mem st_hist th_pc th_log]; (split; [done|]);
      (split; [lia|]); (split; [lia|]); (split; [|exact Hlog]); [done|].
    split; [|lia]. apply Z.rem_mod_nonneg; lia.
  - unfold get_advance. rewrite Hat. cbn [option_bind mbind]. intros [= <-]. destruct Hpc as [-> Hav].
    eapply (thread_step_inv (State m pc cons hist)); [done|done|]. eexists.
    cbn [set_thread st_mem st_hist th_pc th_log set_cell with_cells s_cells s_ring].
    rewrite Nat2Z.id, list_lookup_insert_eq by (by eapply lookup_lt_Some). split; [reflexivity|]. cbn [cu_cursor].
    split; [lia|]. split; [lia|]. split; [|exact Hlog]. by replace (cu_cursor c + 1 - 1) with (cu_cursor c) by lia.
  - unfold slot_at. subst idx. pose proof (Z.mod_pos_bound (cu_cursor c - 1) (r_slots (s_ring m)) Hsl).
    destruct (Z.leb_spec 0 ((cu_cursor c - 1) mod r_slots (s_ring m))); [|lia].
    destruct (s_data m !! _) as [v|] eqn:Hv; [|done]. cbn [option_bind mbind]. rewrite Hat. cbn [option_bind mbind].
    intros [= <-]. apply Hself. exists c. cbn [set_thread st_mem st_hist th_pc th_log]. split; [done|].
    rewrite length_app. cbn [length]. split; [lia|]. split; [lia|]. split; [done|].
    intros n e [Hn|[Hn He]]%lookup_app_Some; [by apply Hlog|].
    destruct (n - length tlog)%nat eqn:Hz; [|done]. cbn in He. simplify_eq. cbn [en_pos en_val en_next].
    split; [lia|]. split; [destruct pc; lia|]. intros Hov.
    assert (n = Z.to_nat (cu_cursor c - 1)) as -> by lia. rewrite <- Hw; [done|destruct pc; lia|lia].
Qed.

Lemma step_inv l (s s' : state A) : inv s -> step l s = Some s' -> inv s'.
Proof.
  intros Hi. destruct l; cbn [step]; try (by apply prod_step_inv);
    (destruct (st_cons s !! i) as [t|] eqn:Ht; [|done]); by apply cons_step_inv.
Qed.

Lemma run_inv ls (s s' : state A) : inv s -> run ls s = Some s' -> inv s'.
Proof.
  revert s. induction ls as [|l ls IH]; intros s Hi; cbn [run]; [by intros [= <-]|].
  destruct (step l s) as [s1|] eqn:Hs; [|done]. cbn [option_bind mbind]. apply IH. by eapply step_inv.
Qed.

(** What a consumer has read, as a list of items. *)
Definition items (t : thread A) : list A := map en_val (th_log t).
Definition keeps_up (slots : Z) (t : thread A) : Prop := Forall (fun e => en_next e - en_pos e < slots) (th_log t).

Lemma items_prefix (s : state A) i t :
  inv s -> st_cons s !! i = Some t -> keeps_up (r_slots (s_ring (st_mem s))) t ->
  items t = take (length (th_log t)) (st_hist s).
Proof.
  intros Hi Ht Hk. destruct (i_threads _ Hi i t Ht) as (c & _ & _ & _ & _ & Hlog).
  pose proof (i_hist _ Hi) as Hh. apply list_eq. intros n. unfold items.
  change (map en_val (th_log t)) with (en_val <$> th_log t). rewrite list_lookup_fmap.
  destruct (th_log t !! n) as [e|] eqn:He.
  - destruct (Hlog n e He) as (L1 & L2 & L3). rewrite lookup_take_lt by (by eapply lookup_lt_Some).
    rewrite L3; [done|]. by apply (Forall_lookup_1 _ _ _ _ Hk He).
  - apply lookup_ge_None in He. by rewrite lookup_take_ge by lia.
Qed.

End Parallel.

(** C4. However the producer and the consumers run in parallel on a new ring,
    each consumer that is never a full round behind when it reads gets exactly
    the items that were committed, in order, without loss and without
    repetition: what it has read is a prefix of the history. *)
Theorem consumers_read_in_order {A} ls (s s' : state A) i t :
  new_ring s -> run ls s = Some s' -> st_cons s' !! i = Some t ->
  keeps_up (r_slots (s_ring (st_mem s'))) t ->
  items t = take (length (th_log t)) (st_hist s') /\
  r_next_ptr (s_ring (st_mem s')) = Z.of_nat (length (st_hist s')).
Proof.
  intros Hn Hr Ht Hk. assert (inv s') as Hi by (by eapply run_inv; [apply new_ring_inv|]).
  split; [by eapply items_prefix|]. symmetry. apply Hi.
Qed.

(** The cursors stay in their bounds in every execution: the committed
    cursor is one behind the next position (two in the middle of a commit), no
    consumer passes the committed items, and the slots of the last round hold
    the last items. *)
Theorem ring_invariant {A} ls (s s' : state A) :
  new_ring s -> run ls s = Some s' ->
  let r := s_ring (st_mem s') in
  r_next_ptr r - 2 <= r_cursor r <= r_next_ptr r - 1 /\
  (forall i t, st_cons s' !! i = Some t -> exists c, s_cells (st_mem s') !! i = Some c /\
    0 <= cu_cursor c <= r_cursor r + 1 /\
    cu_cursor c - Z.of_nat (length (th_log t)) = match th_pc t with CGot _ => 1 | _ => 0 end) /\
  (forall k, 0 <= k -> r_next_ptr r - r_slots r < k < r_next_ptr r ->
    s_data (st_mem s') !! Z.to_nat (k mod r_slots r) = st_hist s' !! Z.to_nat k).
Proof.
  intros Hn Hr r. subst r. assert (inv s') as Hi by (by eapply run_inv; [apply new_ring_inv|]). split_and!.
  - pose proof (i_cursor _ Hi). destruct (st_prod s'); lia.
  - pose proof (i_cursor _ Hi). destruct (st_prod s'); lia.
  - intros i t Ht. destruct (i_threads _ Hi i t Ht) as (c & Hc & Hcur & Hle & _). exists c. split; [done|].
    destruct (th_pc t); lia.
  - intros k Hk1 Hk2. by apply (i_window _ Hi).
Qed.

(** ** Progress *)

Section Progress.
Context {A : Type}.

Definition get_once (i : nat) : list (label A) := [GetTest i; GetAdvance i; Read i].
Fixpoint get_all (i n : nat) : list (label A) := match n with O => [] | S n => get_once i ++ get_all i n end.
Definition produce (v : A) : list (label A) := [Claim; Round; Write v; CommitNext; CommitCursor].

Lemma run_app ls1 ls2 (s : state A) : run (ls1 ++ ls2) s = s ← run ls1 s; run ls2 s.
Proof. revert s. induction ls1 as [|l ls1 IH]; intros s; cbn; [done|]. destruct (step l s); cbn; [apply IH|done]. Qed.

(** A consumer that is behind gets the next item in three steps. *)
Lemma get_once_spec i log (s : state A) :
  inv s -> st_cons s !! i = Some (Thread CIdle log) -> Z.of_nat (length log) <= r_cursor (s_ring (st_mem s)) ->
  r_next_ptr (s_ring (st_mem s)) - Z.of_nat (length log) < r_slots (s_ring (st_mem s)) ->
  exists s' e, run (get_once i) s = Some s' /\ st_cons s' !! i = Some (Thread CIdle (log ++ [e])) /\
    st_hist s' = st_hist s /\ s_ring (st_mem s') = s_ring (st_mem s) /\
    st_hist s !! length log = Some (en_val e).
Proof.
  intros Hinv Hi Hav Hov. pose proof Hinv as [Hsl Hd Hh Hc _ Hw Ht].
  destruct (Ht i _ Hi) as (c & Hcell & Hcur & Hle & _). cbn [th_pc th_log] in Hcur. rewrite Z.add_0_r in Hcur.
  destruct s as [[r data cells] pc cons hist]. cbn [st_mem st_prod st_cons st_hist s_ring s_data s_cells] in *.
  pose proof (lookup_lt_Some _ _ _ Hi) as Hlen. pose proof (lookup_lt_Some _ _ _ Hcell) as Hlen'.
  assert (exists v, hist !! length log = Some v) as [v Hv] by (apply lookup_lt_is_Some_2; destruct pc; lia).
  pose proof (Z.mod_pos_bound (cu_cursor c) (r_slots r) Hsl).
  assert (data !! Z.to_nat (cu_cursor c mod r_slots r) = Some v) as Hdata.
  { rewrite (Hw (cu_cursor c)) by (destruct pc; lia). by rewrite Hcur, Nat2Z.id. }
  unfold get_once. cbn [run step st_cons]. rewrite Hi. cbn [option_bind mbind cons_step th_pc st_mem].
  unfold get_test. rewrite (proj2 (cell_at_nat (Shm r data cells) i c) Hcell). cbn [option_bind mbind s_ring].
  destruct (Z.ltb_spec (r_cursor r) (cu_cursor c)); [lia|]. cbn [option_bind mbind set_thread st_cons step].
  rewrite list_lookup_insert_eq by done. cbn [option_bind mbind cons_step th_pc st_mem th_log].
  unfold get_advance. cbn [set_thread st_mem]. rewrite (proj2 (cell_at_nat (Shm r data cells) i c) Hcell).
  cbn [option_bind mbind set_thread st_cons st_mem st_prod st_hist step].
  rewrite list_lookup_insert_eq by (by rewrite length_insert). cbn [option_bind mbind cons_step th_pc st_mem th_log].
  rewrite Z.rem_mod_nonneg by lia. unfold set_cell, with_cells, slot_at. cbn [s_data s_ring s_cells]. rewrite Nat2Z.id.
  destruct (Z.leb_spec 0 (cu_cursor c mod r_slots r)); [|lia]. rewrite Hdata. cbn [option_bind mbind].
  set (c' := Cursor (cu_alive c) (cu_cursor c + 1)).
  assert (cell_at (Shm r data (<[i := c']> cells)) (Z.of_nat i) = Some c') as ->.
  { apply cell_at_nat. by apply list_lookup_insert_eq. }
  cbn [option_bind mbind]. do 2 eexists. split; [reflexivity|].
  cbn [set_thread st_cons st_hist st_mem s_ring]. split; [|split; [done|split; [done|]]].
  - apply list_lookup_insert_eq. by rewrite !length_insert.
  - exact Hv.
Qed.

Lemma get_all_spec n i log (s : state A) :
  inv s -> st_cons s !! i = Some (Thread CIdle log) ->
  Z.of_nat (length log) + Z.of_nat n <= r_cursor (s_ring (st_mem s)) + 1 ->
  r_next_ptr (s_ring (st_mem s)) - Z.of_nat (length log) < r_slots (s_ring (st_mem s)) ->
  exists s' es, run (get_all i n) s = Some s' /\ st_cons s' !! i = Some (Thread CIdle (log ++ es)) /\
    map en_val es = take n (drop (length log) (st_hist s)) /\ length es = n /\
    st_hist s' = st_hist s /\ s_ring (st_mem s') = s_ring (st_mem s).
Proof.
  revert log s. induction n as [|n IH]; intros log s Hinv Hi Hav Hov; cbn [get_all].
  - exists s, []. by rewrite app_nil_r.
  - destruct (get_once_spec i log s Hinv Hi ltac:(lia) Hov) as (s1 & e & Hr & Hi1 & Hh1 & Hr1 & Hv).
    destruct (IH (log ++ [e]) s1) as (s' & es & Hr' & Hi' & He & Hl & Hh' & Hr2).
    + by eapply run_inv.
    + done.
    + rewrite Hr1, length_app. cbn [length]. lia.
    + rewrite Hr1, length_app. cbn [length]. lia.
    + exists s', (e :: es). rewrite run_app, Hr. cbn [option_bind mbind map length].
      split_and!; try congruence; [by rewrite Hi', <- app_assoc|].
      rewrite He, Hh1, (drop_S _ _ _ Hv), length_app, Nat.add_1_r. done.
Qed.

(** Without waiting for slow consumers the producer commits in five steps. *)
Lemma produce_spec v (s : state A) :
  inv s -> st_prod s = PIdle -> r_overrun_enabled (s_ring (st_mem s)) = -1 ->
  exists s', run (produce v) s = Some s' /\ st_hist s' = st_hist s ++ [v] /\ st_prod s' = PIdle /\
    st_cons s' = st_cons s /\ r_cursor (s_ring (st_mem s')) = r_next_ptr (s_ring (st_mem s)) /\
    r_next_ptr (s_ring (st_mem s')) = r_next_ptr (s_ring (st_mem s)) + 1 /\
    r_slots (s_ring (st_mem s')) = r_slots (s_ring (st_mem s)).
Proof.
  intros [Hsl Hd Hh Hc _ Hw Ht] Hp Ho. destruct s as [[r data cells] pc cons hist].
  cbn [st_mem st_prod st_cons st_hist s_ring s_data s_cells] in *. subst pc.
  pose proof (Z.mod_pos_bound (r_next_ptr r) (r_slots r) Hsl).
  unfold produce. cbn [run step prod_step st_mem st_prod st_cons st_hist s_ring option_bind mbind].
  rewrite Ho. unfold claim_slot. cbn [s_ring]. rewrite Z.rem_mod_nonneg by lia.
  destruct (Z.ltb_spec (r_next_ptr r mod r_slots r) (-1)); [lia|]. cbn [option_bind mbind s_data s_ring s_cells st_prod st_mem].
  destruct (Z.leb_spec 0 (r_next_ptr r mod r_slots r)); [|lia].
  destruct (Z.ltb_spec (r_next_ptr r mod r_slots r) (Z.of_nat (length data))); [|lia]. cbn [andb option_bind mbind st_prod st_mem].
  unfold slot_at. cbn [s_data]. destruct (Z.leb_spec 0 (r_next_ptr r mod r_slots r)); [|lia].
  rewrite list_lookup_insert_eq by lia. cbn [option_bind mbind st_prod st_mem st_cons st_hist].
  eexists. split; [reflexivity|]. cbn [st_hist st_prod st_cons st_mem commit_cursor commit_next with_ring s_ring set_cursor
    r_cursor r_next_ptr r_slots]. split_and!; try done. lia.
Qed.

End Progress.

(** C28. A committed item is delivered: in any reachable state in which the
    producer is idle and overrun is allowed (as in a new ring) and a consumer is
    idle and less than a round behind, the producer commits an item in five
    steps, and as many calls of get as there are items then bring the consumer
    exactly the items it had not seen, the new one last. *)
Theorem committed_items_are_delivered {A} ls (s0 s : state A) i log v :
  new_ring s0 -> run ls s0 = Some s -> st_prod s = PIdle -> r_overrun_enabled (s_ring (st_mem s)) = -1 ->
  st_cons s !! i = Some (Thread CIdle log) ->
  r_next_ptr (s_ring (st_mem s)) + 1 - Z.of_nat (length log) < r_slots (s_ring (st_mem s)) ->
  let n := S (length (st_hist s) - length log) in
  exists s' es, run (produce v ++ get_all i n) s = Some s' /\
    st_cons s' !! i = Some (Thread CIdle (log ++ es)) /\
    map en_val es = drop (length log) (st_hist s) ++ [v] /\ st_hist s' = st_hist s ++ [v].
Proof.
  intros Hn Hr Hp Ho Hi Hov n. assert (inv s) as Hinv by (by eapply run_inv; [apply new_ring_inv|]).
  destruct (produce_spec v s Hinv Hp Ho) as (s1 & Hr1 & Hh1 & Hp1 & Hc1 & Hcur & Hnext & Hslots).
  assert (Z.of_nat (length log) <= r_next_ptr (s_ring (st_mem s))) as Hlog.
  { destruct (i_threads _ Hinv i _ Hi) as (c & _ & Hcc & Hle & _). cbn [th_pc th_log] in Hcc.
    pose proof (i_cursor _ Hinv) as Hc. rewrite Hp in Hc. lia. }
  pose proof (i_hist _ Hinv) as Hh.
  destruct (get_all_spec n i log s1) as (s' & es & Hr' & Hi' & He & _ & Hh' & _).
  - by eapply run_inv.
  - by rewrite Hc1.
  - subst n. lia.
  - lia.
  - exists s', es. rewrite run_app, Hr1. cbn [option_bind mbind]. split; [done|]. split; [done|].
    split; [|congruence]. rewrite He, Hh1, drop_app_le by lia. apply take_ge. rewrite length_app, length_drop.
    cbn [length]. subst n. lia.
Qed.

(** ** A ring to evaluate: four slots, one producer, two consumers *)
Definition four : shm Z :=
  Shm (Ring __INA_MAGIC_HDR 1 2 1 8 4 (-1) 0 0 (-1)) [0; 0; 0; 0] [Cursor 1 0; Cursor 1 0; Cursor 1 0].
Definition four_idle : state Z := State four PIdle [Thread CIdle []; Thread CIdle []] [].

Lemma four_idle_new : new_ring four_idle.
Proof.
  split; try done. intros [|[|i]] t Ht; cbn in Ht; simplify_eq; (split; [done|]); (split; [done|]); by eexists.
Qed.

(** An execution in which a consumer tests while an item is committed. *)
Definition interleaved : list (label Z) :=
  [Claim; GetTest 0; Round; Write 7; CommitNext; GetTest 0; CommitCursor; GetTest 0; Claim; Round;
   GetAdvance 0; Write 8; Read 0; GetTest 1; CommitNext; GetTest 0; CommitCursor; GetTest 0; GetAdvance 1;
   GetAdvance 0; Read 0; Read 1].

Definition interleaved_end : state Z := Eval vm_compute in default four_idle (run interleaved four_idle).
Definition produced_end : state Z := Eval vm_compute in default four_idle (run (produce 5) four_idle).

Lemma interleaved_runs : run interleaved four_idle = Some interleaved_end.
Proof. by vm_compute. Qed.

Lemma produced_runs : run (produce 5) four_idle = Some produced_end.
Proof. by vm_compute. Qed.

Lemma consumers_read_in_order_witness :
  run interleaved four_idle = Some interleaved_end /\ map items (st_cons interleaved_end) = [[7; 8]; [7]] /\
  exists t, st_cons interleaved_end !! 0%nat = Some t /\ items t = take (length (th_log t)) (st_hist interleaved_end).
Proof.
  split; [exact interleaved_runs|]. split; [by vm_compute|]. eexists. split; [by vm_compute|].
  refine (proj1 (consumers_read_in_order interleaved four_idle interleaved_end 0%nat _ four_idle_new interleaved_runs _ _)).
  - by vm_compute.
  - repeat constructor.
Defined.

Lemma ring_invariant_witness :
  run interleaved four_idle = Some interleaved_end /\
  r_cursor (s_ring (st_mem interleaved_end)) <= r_next_ptr (s_ring (st_mem interleaved_end)) - 1.
Proof.
  split; [exact interleaved_runs|].
  exact (proj2 (proj1 (ring_invariant interleaved four_idle interleaved_end four_idle_new interleaved_runs))).
Defined.

Lemma committed_items_are_delivered_witness :
  exists s' es, run (produce 6 ++ get_all 1 2) produced_end = Some s' /\
    st_cons s' !! 1%nat = Some (Thread CIdle es) /\ map en_val es = [5; 6].
Proof.
  destruct (committed_items_are_delivered (produce 5) four_idle produced_end 1%nat [] 6 four_idle_new produced_runs)
    as (s' & es & Hr & Hc & He & _); [by vm_compute|by vm_compute|by vm_compute|by vm_compute|].
  exists s', es. split; [exact Hr|]. split; [exact Hc|exact He].
Defined.

(** ** Setting up a ring *)
Section Setup.
Context {A : Type} (version size slots np nc : Z).

(** [k] consumers that join one after the other. *)
Fixpoint join (k : nat) (m : shm A) : option (shm A * list consumer) :=
  match k with
  | O => Some (m, [])
  | S k =>
      r ← ina_ullc_consumer_new version size slots np nc (Some m) true;
      match r with
      | (Some m, Ok (Some c)) => '(m, cs) ← join k m; Some (m, c :: cs)
      | _ => None
      end
  end.

Definition created : ring := Ring __INA_MAGIC_HDR version nc np size slots (-1) 0 0 (-1).

(** The cells after one producer and [k] consumers. *)
Definition cells_with (k : nat) : list cursor :=
  replicate k (Cursor 1 0) ++ replicate (Z.to_nat nc - k) (Cursor 0 0)
  ++ Cursor 1 0 :: replicate (Z.to_nat (np - 1)) (Cursor 0 0).

Hypothesis Hargs : valid_arguments version size slots np nc = true.
Hypothesis Heven : Z.rem size 2 = 0.

Lemma ring_create_joins data cells :
  __ina_ullc_ring_create (Some (Shm created data cells : shm A)) false version size slots np nc
  = (Some (Shm created data cells), Ok tt).
Proof. unfold __ina_ullc_ring_create. rewrite Heven. cbn. by rewrite !Z.eqb_refl. Qed.

Lemma cells_with_free k : (k < Z.to_nat nc)%nat ->
  cells_with k !! k = Some (Cursor 0 0) /\ <[k := Cursor 1 0]> (cells_with k) = cells_with (S k).
Proof.
  intros Hk. unfold cells_with. replace (Z.to_nat nc - k)%nat with (S (Z.to_nat nc - S k)) by lia. split.
  - rewrite lookup_app_r by (by rewrite length_replicate). by rewrite length_replicate, Nat.sub_diag.
  - rewrite (replicate_S_end k), <- app_assoc. rewrite insert_app_r_alt by (by rewrite length_replicate).
    by rewrite length_replicate, Nat.sub_diag.
Qed.

Lemma consumer_cell_first_free fuel k id data :
  (id <= k < Z.to_nat nc)%nat -> (k - id < fuel)%nat ->
  consumer_cell fuel nc (Z.of_nat id) (Shm created data (cells_with k) : shm A)
  = Some (Shm created data (cells_with (S k)), Z.of_nat k).
Proof.
  revert id. induction fuel as [|fuel IH]; intros id Hid Hf; [lia|]. cbn [consumer_cell].
  destruct (Z.ltb_spec (Z.of_nat id) nc); [|lia].
  destruct (decide (id = k)) as [->|Hne].
  - destruct (cells_with_free k) as [Hfree Hset]; [lia|].
    rewrite (proj2 (cell_at_nat (Shm created data (cells_with k)) k _) Hfree). cbn [option_bind mbind cu_alive cas].
    cbn. unfold set_cell, with_cells. cbn [s_ring s_data s_cells cu_cursor]. by rewrite Nat2Z.id, Hset.
  - assert (cells_with k !! id = Some (Cursor 1 0)) as Hc.
    { unfold cells_with. rewrite lookup_app_l by (rewrite length_replicate; lia). by rewrite lookup_replicate_2 by lia. }
    rewrite (proj2 (cell_at_nat (Shm created data (cells_with k)) id _) Hc). cbn [option_bind mbind cu_alive cu_cursor].
    change (cas 1 0 1) with (1, 1). cbv iota beta. rewrite set_cell_self by done.
    change (1 =? 0) with false. cbv iota. replace (Z.of_nat id + 1) with (Z.of_nat (S id)) by lia. apply IH; lia.
Qed.

Lemma consumer_new_spec k data : (k < Z.to_nat nc)%nat ->
  ina_ullc_consumer_new version size slots np nc (Some (Shm created data (cells_with k) : shm A)) true
  = Some (Some (Shm created data (cells_with (S k))), Ok (Some (Consumer (Z.of_nat k) (Z.of_nat k)))).
Proof.
  intros Hk. unfold ina_ullc_consumer_new. rewrite Hargs, ring_create_joins. cbn [negb].
  pose proof (consumer_cell_first_free (S (Z.to_nat nc)) k 0 data ltac:(lia) ltac:(lia)) as Hcell.
  change (Z.of_nat 0) with 0 in Hcell. rewrite Hcell. cbn [option_bind mbind].
  destruct (Z.eqb_spec (Z.of_nat k) nc); [lia|].
  assert (cells_with (S k) !! k = Some (Cursor 1 0)) as Hc.
  { unfold cells_with. rewrite lookup_app_l by (rewrite length_replicate; lia). by rewrite lookup_replicate_2 by lia. }
  rewrite (proj2 (cell_at_nat (Shm created data (cells_with (S k))) k _) Hc). cbn [option_bind mbind cu_alive cu_cursor cas s_ring].
  cbn. by rewrite set_cell_self by done.
Qed.

Lemma join_spec n k data : (k + n <= Z.to_nat nc)%nat ->
  join n (Shm created data (cells_with k))
  = Some (Shm created data (cells_with (k + n)), map (fun i => Consumer (Z.of_nat i) (Z.of_nat i)) (seq k n)).
Proof.
  revert k. induction n as [|n IH]; intros k Hk; cbn [join seq map]; [by rewrite Nat.add_0_r|].
  rewrite consumer_new_spec by lia. cbn [option_bind mbind]. rewrite IH by lia. cbn [option_bind mbind].
  by rewrite Nat.add_succ_comm.
Qed.

Lemma producer_new_spec (m : shm A) :
  s_cells m = replicate (Z.to_nat (nc + np)) (Cursor 0 0) ->
  ina_ullc_producer_new version size slots np nc (Some m) None true
  = Some (Some (Shm created (s_data m) (cells_with 0)), Ok (Some (Producer 0 nc))).
Proof.
  destruct m as [r data cells]. cbn [s_cells s_data]. intros Hm. pose proof Hargs as Ha. unfold valid_arguments in Ha. rewrite !andb_true_iff, !Z.ltb_lt, !Z.leb_le in Ha.
  unfold ina_ullc_producer_new. rewrite Hargs. cbn [negb]. unfold __ina_ullc_ring_create. rewrite Heven. cbn [negb].
  change (0 =? 0) with true. rewrite orb_true_r. cbn [negb with_ring s_ring r_version r_size r_slots r_num_consumers r_num_producers].
  rewrite !Z.eqb_refl. cbn [andb negb producer_cell]. destruct (Z.ltb_spec 0 np); [|lia].
  rewrite Z.add_0_r. unfold cell_at. cbn [s_cells]. destruct (Z.leb_spec 0 nc); [|lia].
  cbn [s_cells with_ring]. rewrite Hm, lookup_replicate_2 by lia. cbn -[Z.eqb]. change (0 =? 0) with true. cbn -[Z.eqb].
  destruct (Z.eqb_spec 0 np); [lia|].
  unfold set_cell, with_cells, with_ring. cbn [s_ring s_data s_cells]. do 3 f_equal. unfold created. f_equal.
  unfold cells_with. cbn [replicate app]. rewrite Nat.sub_0_r.
  replace (Z.to_nat (nc + np)) with (Z.to_nat nc + S (Z.to_nat (np - 1)))%nat by lia.
  rewrite replicate_add, insert_app_r_alt by (by rewrite length_replicate).
  by rewrite length_replicate, Nat.sub_diag.
Qed.

End Setup.

(** Setting up a ring in fresh memory works: the producer gets the first
    producer cell, up to [num_consumers] consumers join with the ids 0, 1, 2...,
    each in a cell of its own, and the result is a new ring, in which the
    executions above start. *)
Theorem setup_gives_new_ring {A} version size slots np nc (m : shm A) k :
  valid_arguments version size slots np nc = true -> Z.rem size 2 = 0 ->
  Z.of_nat (length (s_data m)) = slots -> s_cells m = replicate (Z.to_nat (nc + np)) (Cursor 0 0) ->
  (k <= Z.to_nat nc)%nat ->
  exists m1 m2 cs,
    ina_ullc_producer_new version size slots np nc (Some m) None true = Some (Some m1, Ok (Some (Producer 0 nc))) /\
    join version size slots np nc k m1 = Some (m2, cs) /\
    map c_id cs = map Z.of_nat (seq 0 k) /\ map c_cell cs = map Z.of_nat (seq 0 k) /\
    claim_slot m2 = 0 /\ new_ring (State m2 PIdle (replicate k (Thread CIdle [])) []).
Proof.
  intros Ha He Hd Hc Hk. do 3 eexists. split; [by apply producer_new_spec|].
  split; [by apply join_spec|]. rewrite !map_map. split; [done|]. split; [done|].
  unfold valid_arguments in Ha. rewrite !andb_true_iff, !Z.ltb_lt, !Z.leb_le in Ha. split.
  { unfold claim_slot. cbn. apply Z.rem_0_l. lia. }
  split; cbn; try done; [lia|]. intros i t [-> Hi]%lookup_replicate. split; [done|]. split; [done|].
  eexists. unfold cells_with. rewrite lookup_app_l by (by rewrite length_replicate).
  by rewrite lookup_replicate_2 by done.
Qed.

Lemma setup_gives_new_ring_witness :
  exists m1 m2 cs,
    ina_ullc_producer_new 1 8 4 2 3 (Some (Shm (Ring 0 0 0 0 0 0 0 0 0 0) [0; 0; 0; 0] (replicate 5 (Cursor 0 0)))) None true
      = Some (Some m1, Ok (Some (Producer 0 3))) /\
    join 1 8 4 2 3 2 m1 = Some (m2, cs) /\ map c_id cs = [0; 1] /\
    new_ring (State m2 PIdle (replicate 2 (Thread CIdle [])) []).
Proof.
  destruct (setup_gives_new_ring 1 8 4 2 3 (Shm (Ring 0 0 0 0 0 0 0 0 0 0) [0; 0; 0; 0] (replicate 5 (Cursor 0 0))) 2)
    as (m1 & m2 & cs & H1 & H2 & H3 & _ & _ & H4); [by vm_compute|reflexivity|reflexivity|reflexivity|cbn; lia|].
  exists m1, m2, cs. split; [exact H1|]. split; [exact H2|]. split; [exact H3|exact H4].
Defined.

(** ** What the code does beside its intention *)

(** Shared memory as the system gives it: zeroed, for 4 slots. *)
Definition fresh (cells : nat) : shm Z :=
  Shm (Ring 0 0 0 0 0 0 0 0 0 0) [0; 0; 0; 0] (replicate cells (Cursor 0 0)).

(** A producer that waits for slow consumers with five items to write; the
    consumers never read. *)
Definition four_waiting : state Z := State (fst (ina_ullc_overrun_disable four)) PIdle (st_cons four_idle) [].
Definition produce_waiting (v : Z) : list (label Z) := [Claim; Round; Round; Write v; CommitNext; CommitCursor].

Definition lost_item : list (label Z) :=
  produce_waiting 1 ++ produce_waiting 2 ++ produce_waiting 3 ++ produce_waiting 4 ++ produce_waiting 5 ++ get_once 0.

(** - a third producer of a ring looks at a cell behind the cells, because the
      pointer is advanced by the id in each turn;
    - freeing the last producer does not reset the ring, because nothing
      counts the producers that are alive;
    - when the semaphore cannot be created the call succeeds without a context;
    - with overrun disabled the producer overwrites an item that no consumer
      has read, because positions are compared modulo the slots. *)
Theorem ullc_defects :
  let new_producer m := ina_ullc_producer_new 1 8 4 3 1 None (Some m) true in
  (m1 ← new_producer (fresh 4); m1 ← fst m1; m2 ← new_producer m1; m2 ← fst m2; Some (map cu_alive (s_cells m2)))
    = Some [0; 1; 1; 0] /\
  (m1 ← new_producer (fresh 4); m1 ← fst m1; m2 ← new_producer m1; m2 ← fst m2; new_producer m2) = None /\
  (r ← ina_ullc_producer_new 1 8 4 1 2 (Some (fresh 3)) None true;
   m ← fst r; m ← ina_ullc_producer_free (Producer 0 2) m; Some (r_magic (s_ring m), map cu_alive (s_cells m)))
    = Some (__INA_MAGIC_HDR, [0; 0; 0]) /\
  snd <$> ina_ullc_producer_new 1 8 4 1 2 (Some (fresh 3)) None false = Some (Ok None) /\
  (s ← run lost_item four_waiting; t ← st_cons s !! 0%nat; Some (items t, st_hist s)) = Some ([5], [1; 2; 3; 4; 5]).
Proof. repeat split; vm_compute; reflexivity. Qed.

End Ullc.
