(* ===== verification/Lib.v ===== *)
(** * Options and signals (lib.c, lib.h)

    A program describes its command line options by an array; [ina_app_init]
    registers them in a list of short and a list of long options and parses the
    arguments.  The options live in a heap, so that a short and a long option
    share their value as in the code.  Arguments and names are C strings as
    lists of characters; a store behind a buffer makes a function [None].  The
    environment is an argument.  Signals are dispatched to registered handlers. *)
From Stdlib Require Import ZArith Lia Bool String.
From stdpp Require Import base numbers option list.
From S2P Require Import Prelude Error Libc.

Module Lib.
Import Error Libc.

Inductive ina_opt_type : Set := INA_OPT_TYPE_STRING | INA_OPT_TYPE_INT | INA_OPT_TYPE_FLAG | INA_OPT_TYPE_FLOAT.
#[export] Instance ina_opt_type_eq_dec : EqDecision ina_opt_type.
Proof. solve_decision. Defined.

(** [struct ina_opt_s]; the array ends before the entry without a long name. *)
Record opt := Opt { o_short : text; o_long : text; o_type : ina_opt_type; o_dft : option text; o_desc : text }.

(** [struct __ina_sopt_s]; an option is addressed by its index in the heap. *)
Record sopt := Sopt { so_opt : text; so_value : option text; so_desc : text; so_type : ina_opt_type }.

(** The static variables: [__sopt] has the addresses of the options with a
    short name, [__lopt] the long names with the addresses. *)
Record options := Options { heap : list sopt; __sopt : list nat; __lopt : list (text * nat) }.

Definition no_options : options := Options [] [] [].
Definition set_value (i : nat) (v : text) (o : options) : options :=
  Options (alter (fun so => Sopt (so_opt so) (Some v) (so_desc so) (so_type so)) i (heap o)) (__sopt o) (__lopt o).

Definition buffer_size : Z := 1024.
Definition on : text := bytes_of_string "on".
Definition env_mark : text := bytes_of_string "$ENV:".
Definition quoted_env_mark : text := 34 :: env_mark.

Section Options.
Variable getenv : text -> option text.

(** The value an option is registered with.  Defaults of options that are not
    strings come as quoted text. *)
Definition default_value (d : opt) : option (option text) :=
  match o_dft d with
  | None => Some None
  | Some dft =>
      if bool_decide (o_type d = INA_OPT_TYPE_STRING) && has_prefix dft env_mark then Some (getenv (drop 5 dft))
      else if negb (bool_decide (o_type d = INA_OPT_TYPE_STRING)) && has_prefix dft quoted_env_mark then
        if Z.of_nat (length dft) <? 7 then None else Some (getenv (take (length dft - 7) (drop 6 dft)))
      else Some (Some dft)
  end.

Definition register_option (d : opt) (o : options) : option options :=
  v ← default_value d;
  let so := length (heap o) in
  Some (Options (heap o ++ [Sopt (o_short d) v (o_desc d) (o_type d)])
          (if (length (o_short d) =? 0)%nat then __sopt o else __sopt o ++ [so])
          (__lopt o ++ [(o_long d, so)])).

Fixpoint register (opts : list opt) (o : options) : option options :=
  match opts with
  | [] => Some o
  | d :: opts => o ← register_option d o; register opts o
  end.
End Options.

(** ** Lookup *)

Definition __ina_find_sopt (o : options) (name : text) (i : nat) : bool :=
  match heap o !! i with Some so => bool_decide (so_opt so = name) | None => false end.
Definition __ina_find_lopt (name : text) (lo : text * nat) : bool := bool_decide (fst lo = name).

Definition __ina_opt_get (o : options) (name : text) : option nat :=
  match find (__ina_find_sopt o name) (__sopt o) with
  | Some i => Some i
  | None => snd <$> find (__ina_find_lopt name) (__lopt o)
  end.

Definition OPTION_NOT_EXISTS : Z := Z.lor (INA_ES S_OPTION) (INA_ERR_NOT_ E_EXISTS).
Definition OPTION_INVALID : Z := Z.lor (INA_ES S_OPTION) INA_ERR_INVALID.

Definition opt_at (o : options) (name : text) : option sopt := i ← __ina_opt_get o name; heap o !! i.

Definition is_flag (so : sopt) : bool := bool_decide (so_type so = INA_OPT_TYPE_FLAG).

Definition ina_opt_isset (o : options) (name : text) : result unit :=
  match opt_at o name with
  | None => Err OPTION_NOT_EXISTS
  | Some so =>
      match so_value so with
      | None => if is_flag so then Err OPTION_NOT_EXISTS else Ok tt
      | Some _ => Ok tt
      end
  end.

Definition ina_opt_get_key_value (o : options) (index : Z) : result (text * option text) :=
  if index <? 0 then Err INA_ERR_INVALID_ARGUMENT else
  match __lopt o !! Z.to_nat index with
  | None => Err OPTION_NOT_EXISTS
  | Some (key, i) => Ok (key, so ← heap o !! i; so_value so)
  end.

Definition ina_opt_get_string (o : options) (name : text) : result (option text) :=
  match opt_at o name with None => Err OPTION_NOT_EXISTS | Some so => Ok (so_value so) end.

Definition ina_opt_get_int (o : options) (name : text) : result Z :=
  match so ← opt_at o name; so_value so with None => Err OPTION_NOT_EXISTS | Some v => Ok (atoi v) end.

(** ** Parsing of arguments

    The loop over the characters of an argument: [s] is where the name starts
    (0 before a dash), the result has the index where the loop stops and the
    start of the value behind an equals sign. *)
Fixpoint scan (p : text) (c s : Z) : Z * Z * option Z :=
  match p with
  | [] => (c, s, None)
  | x :: p =>
      if x =? 45 then
        if s =? 0 then
          match p with
          | y :: p' => if y =? 45 then scan p' (c + 2) (c + 2) else scan p (c + 1) (c + 1)
          | [] => scan p (c + 1) (c + 1)
          end
        else scan p (c + 1) s
      else if x =? 61 then (c, s, Some (c + 1))
      else scan p (c + 1) s
  end.

(** The name of the option in an argument, and the value behind its name. *)
Definition option_in (arg : text) : option (text * option text) :=
  let '(c, s, vs) := scan arg 0 0 in
  let e := match vs with Some _ => c | None => 0 end in
  let e := if e =? 0 then c else e in
  if (0 <? s) && (u64 (e - s) <? buffer_size) then
    Some (take (Z.to_nat (e - s)) (drop (Z.to_nat s) arg), (fun vs => drop (Z.to_nat vs) arg) <$> vs)
  else None.

(** The loop over the arguments behind the name of the program. *)
Fixpoint parse_args (args : list text) (o : options) : option (options * result unit) :=
  match args with
  | [] => Some (o, Ok tt)
  | arg :: args =>
      match option_in arg with
      | None => parse_args args o
      | Some (name, value) =>
          match __ina_opt_get o name with
          | None => Some (o, Err OPTION_INVALID)
          | Some i =>
              so ← heap o !! i;
              if is_flag so then parse_args args (set_value i on o)
              else match value with
                   | Some v =>
                       if Z.of_nat (length v) <? buffer_size then parse_args args (set_value i v o) else None
                   | None =>
                       match args with
                       | v :: args' => parse_args args' (set_value i v o)
                       | [] => parse_args args o
                       end
                   end
          end
      end
  end.

(** ** Start

    [rc] is the return code of the thread, which [INA_ERROR] sets. *)
Section Start.
Variable version_hex : Z.
Variable getenv : text -> option text.

(** [__ina_check_options] sets the thread's code for an option without a value
    but returns success, and [ina_list_foreach] returns success in any case. *)
Definition __ina_check_options (so : sopt) (rc : Z) : Z * Z :=
  match so_value so with
  | None => (if is_flag so then rc else INA_RC_PACK version_hex OPTION_INVALID 0, INA_SUCCESS)
  | Some _ => (rc, INA_SUCCESS)
  end.

Fixpoint check_all (o : options) (l : list nat) (rc : Z) : option (Z * Z) :=
  match l with
  | [] => Some (rc, INA_SUCCESS)
  | i :: l =>
      so ← heap o !! i;
      let '(rc, r) := __ina_check_options so rc in
      if INA_FAILED r then Some (rc, INA_SUCCESS) else check_all o l rc
  end.

(** The name of the program: what follows the last separator. *)
Fixpoint strrchr (p : text) (c : Z) : option text :=
  match p with
  | [] => None
  | x :: q => match strrchr q c with Some r => Some r | None => if x =? c then Some p else None end
  end.

Definition app_name (argv0 : text) : option text :=
  match strrchr argv0 47 with
  | Some p => Some (tail p)
  | None => if (length argv0 =? 0)%nat then None else Some argv0
  end.

(** [ina_app_init] behind the start of the library, with a description of the
    options: the options, the thread's code and the result. *)
Definition ina_app_init (argv : option (list text)) (opts : list opt) (rc : Z) : option (options * Z * Z) :=
  o ← register getenv opts no_options;
  match argv with
  | None => Some (o, rc, INA_SUCCESS)
  | Some argv =>
      '(o, r) ← parse_args (tail argv) o;
      match r with
      | Err e => Some (o, INA_RC_PACK version_hex e 0, INA_RC_PACK version_hex e 0)
      | Ok _ =>
          '(rc, r) ← check_all o (__sopt o) rc;
          if INA_FAILED r then Some (o, rc, rc) else Some (o, rc, INA_SUCCESS)
      end
  end.
End Start.

(** ** Signals *)

Inductive ina_signal_behavior : Set := INA_SIGNAL_BEHAVIOR_DFT | INA_SIGNAL_BEHAVIOR_IGNORE.

(** The index of a signal of Linux in the map of the handlers ([INA_SIGNAL_FPE]
    is 1). *)
Definition ina_signal (sig : Z) : option Z :=
  match sig with
  | 6 => Some 2 | 8 => Some 1 | 4 => Some 3 | 11 => Some 5 | 15 => Some 6 | 2 => Some 4
  | 1 => Some 7 | 3 => Some 8 | 19 => Some 10 | 9 => Some 9 | 22 => Some 11 | 21 => Some 12
  | _ => None
  end.

Inductive outcome := Returns | Exits (code : Z) | Aborts.

(** A handler gets the signal, the behaviour and the exit code, which it may
    change; [St] is the state of the program it works on. *)
Definition handler (St : Type) : Type := Z -> ina_signal_behavior * Z -> St -> ina_signal_behavior * Z * St.

Record signals (St : Type) := Signals {
  handlers : list (option (handler St)); signaled : Z; exitcode : Z; program : St
}.
Arguments Signals {St} _ _ _ _.
Arguments handlers {St} _.
Arguments signaled {St} _.
Arguments exitcode {St} _.
Arguments program {St} _.

Definition EXIT_FAILURE : Z := 1.

Definition ina_register_signal_handler {St} (sig : Z) (h : option (handler St)) (s : signals St)
    : signals St * option (handler St) :=
  (Signals (<[Z.to_nat sig := h]> (handlers s)) (signaled s) (exitcode s) (program s),
   default None (handlers s !! Z.to_nat sig)).

Definition __ina_signal_handler {St} (sig : Z) (s : signals St) : option (signals St * outcome) :=
  if negb (signaled s =? 0) then Some (s, Returns) else
  match ina_signal sig with
  | None => Some (Signals (handlers s) sig (exitcode s) (program s), Aborts)
  | Some isig =>
      sh ← handlers s !! Z.to_nat isig;
      let '(sb, code, st) :=
        match sh with
        | Some sh => sh isig (INA_SIGNAL_BEHAVIOR_DFT, exitcode s) (program s)
        | None => (INA_SIGNAL_BEHAVIOR_DFT, exitcode s, program s)
        end in
      let s := Signals (handlers s) sig code st in
      match sb with
      | INA_SIGNAL_BEHAVIOR_IGNORE => Some (s, Returns)
      | INA_SIGNAL_BEHAVIOR_DFT =>
          if (sig =? 6) || (sig =? 8) || (sig =? 4) || (sig =? 11) then Some (s, Exits EXIT_FAILURE)
          else if (sig =? 19) || (sig =? 9) then Some (s, Returns)
          else Some (s, Exits code)
      end
  end.

(** ** Reference: command lines as lists of settings *)

(** The first option of an array with a property. *)
Fixpoint index_of (p : opt -> bool) (opts : list opt) : option nat :=
  match opts with
  | [] => None
  | d :: opts => if p d then Some O else S <$> index_of p opts
  end.

(** The option that a name means: by its short name before its long one. *)
Definition named (opts : list opt) (name : text) : option nat :=
  match index_of (fun d => negb (length (o_short d) =? 0)%nat && bool_decide (o_short d = name)) opts with
  | Some i => Some i
  | None => index_of (fun d => bool_decide (o_long d = name)) opts
  end.

Inductive setting_arg := NoArg | Joined (v : text) | Separate (v : text).
Record setting := Setting { st_long : bool; st_name : text; st_arg : setting_arg }.

Definition dashes (long : bool) : text := if long then [45; 45] else [45].
Definition print_setting (st : setting) : list text :=
  let name := dashes (st_long st) ++ st_name st in
  match st_arg st with NoArg => [name] | Joined v => [name ++ 61 :: v] | Separate v => [name; v] end.
Definition setting_value (st : setting) : text :=
  match st_arg st with NoArg => on | Joined v => v | Separate v => v end.

(** A name may contain dashes, but not start with one behind a single dash. *)
Definition name_ok (long : bool) (name : text) : Prop :=
  61 ∉ name /\ Z.of_nat (length name) < buffer_size /\ (long = false -> hd 0 name <> 45).

Definition setting_ok (opts : list opt) (st : setting) : Prop :=
  name_ok (st_long st) (st_name st) /\
  exists i d, named opts (st_name st) = Some i /\ opts !! i = Some d /\
    match st_arg st with
    | NoArg => o_type d = INA_OPT_TYPE_FLAG
    | Joined v => o_type d <> INA_OPT_TYPE_FLAG /\ Z.of_nat (length v) < buffer_size
    | Separate _ => o_type d <> INA_OPT_TYPE_FLAG
    end.

(** The last setting of an option, or its default. *)
Definition value_of (opts : list opt) (settings : list setting) (i : nat) (dft : option text) : option text :=
  fold_left (fun v st => if bool_decide (named opts (st_name st) = Some i) then Some (setting_value st) else v)
    settings dft.

(** ** Arguments *)

Lemma scan_name n rest c s : s <> 0 -> 61 ∉ n -> scan (n ++ rest) c s = scan rest (c + Z.of_nat (length n)) s.
Proof.
  intros Hs. revert c. induction n as [|x n IH]; intros c Hn; cbn [app length]; [by rewrite Z.add_0_r|].
  apply not_elem_of_cons in Hn as [Hx Hn]. cbn [scan].
  destruct (Z.eqb_spec s 0); [done|]. destruct (Z.eqb_spec x 61); [congruence|].
  replace (c + Z.of_nat (S (length n))) with ((c + 1) + Z.of_nat (length n)) by lia.
  destruct (x =? 45); by apply IH.
Qed.

Lemma scan_dashes long n rest : name_ok long n -> (n = [] -> hd 0 rest <> 45) ->
  scan (dashes long ++ n ++ rest) 0 0 =
    scan rest (Z.of_nat (length (dashes long)) + Z.of_nat (length n)) (Z.of_nat (length (dashes long))).
Proof.
  intros (Heq & _ & Hd) Hr. rewrite <- (scan_name n rest) by (done || by destruct long). destruct long; [done|].
  cbn [dashes app length scan]. change (0 =? 0) with true. change (45 =? 45) with true. cbv iota.
  destruct n as [|x n]; cbn [app].
  - destruct rest as [|y rest]; [done|]. destruct (Z.eqb_spec y 45) as [->|]; [by destruct (Hr eq_refl)|done].
  - destruct (Z.eqb_spec x 45) as [->|]; [by destruct (Hd eq_refl)|done].
Qed.

Lemma cut_name long n rest : Z.of_nat (length n) < buffer_size ->
  let s := Z.of_nat (length (dashes long)) in
  let e := s + Z.of_nat (length n) in
  (0 <? s) && (u64 (e - s) <? buffer_size) = true /\
  take (Z.to_nat (e - s)) (drop (Z.to_nat s) (dashes long ++ n ++ rest)) = n.
Proof.
  intros Hn s e. subst s e.
  replace (Z.of_nat (length (dashes long)) + Z.of_nat (length n) - Z.of_nat (length (dashes long)))
    with (Z.of_nat (length n)) by lia.
  rewrite !Nat2Z.id, drop_app_length, take_app_length. split; [|done].
  unfold buffer_size in *. rewrite (wrap_small 64) by (unfold in_width; lia).
  destruct long; cbn [dashes length]; by apply Z.ltb_lt.
Qed.

Lemma option_in_name long n : name_ok long n -> option_in (dashes long ++ n) = Some (n, None).
Proof.
  intros Hn. pose proof (scan_dashes long n [] Hn (fun _ => ltac:(cbn; lia))) as Hs. rewrite app_nil_r in Hs.
  destruct (cut_name long n [] (proj1 (proj2 Hn))) as [H1 H2]. rewrite app_nil_r in H2.
  unfold option_in. rewrite Hs. cbn [scan]. change (0 =? 0) with true. cbv iota zeta. by rewrite H1, H2.
Qed.

Lemma option_in_joined long n v : name_ok long n -> option_in (dashes long ++ n ++ 61 :: v) = Some (n, Some v).
Proof.
  intros Hn. pose proof (scan_dashes long n (61 :: v) Hn (fun _ => ltac:(cbn; lia))) as Hs.
  destruct (cut_name long n (61 :: v) (proj1 (proj2 Hn))) as [H1 H2].
  unfold option_in. rewrite Hs. cbn [scan]. change (61 =? 45) with false. change (61 =? 61) with true. cbv iota zeta.
  destruct (Z.eqb_spec (Z.of_nat (length (dashes long)) + Z.of_nat (length n)) 0); [destruct long; cbn [dashes length] in *; lia|].
  rewrite H1, H2. cbn [fmap option_fmap option_map]. do 3 f_equal.
  replace (dashes long ++ n ++ 61 :: v) with ((dashes long ++ n ++ [61]) ++ v) by (by rewrite <- !app_assoc).
  replace (Z.to_nat (Z.of_nat (length (dashes long)) + Z.of_nat (length n) + 1)) with (length (dashes long ++ n ++ [61]))
    by (rewrite !length_app; cbn [length]; lia).
  apply drop_app_length.
Qed.

(** ** Registered options *)

Fixpoint short_addresses (k : nat) (opts : list opt) : list nat :=
  match opts with
  | [] => []
  | d :: opts => (if (length (o_short d) =? 0)%nat then [] else [k]) ++ short_addresses (S k) opts
  end.
Fixpoint long_addresses (k : nat) (opts : list opt) : list (text * nat) :=
  match opts with [] => [] | d :: opts => (o_long d, k) :: long_addresses (S k) opts end.

(** The heap and the lists of a program with these options, whatever their
    values are. *)
Record registered (opts : list opt) (o : options) : Prop := {
  reg_names : map so_opt (heap o) = map o_short opts;
  reg_types : map so_type (heap o) = map o_type opts;
  reg_short : __sopt o = short_addresses 0 opts;
  reg_long : __lopt o = long_addresses 0 opts
}.

Lemma register_spec getenv opts o vs : mapM (default_value getenv) opts = Some vs ->
  exists o', register getenv opts o = Some o' /\
    map so_opt (heap o') = map so_opt (heap o) ++ map o_short opts /\
    map so_type (heap o') = map so_type (heap o) ++ map o_type opts /\
    map so_value (heap o') = map so_value (heap o) ++ vs /\
    __sopt o' = __sopt o ++ short_addresses (length (heap o)) opts /\
    __lopt o' = __lopt o ++ long_addresses (length (heap o)) opts.
Proof.
  revert o vs. induction opts as [|d opts IH]; intros o vs Hv; cbn [mapM register] in *.
  - injection Hv as <-. exists o. by rewrite !app_nil_r.
  - unfold mapM in Hv. fold (mapM (default_value getenv) opts) in Hv.
    destruct (default_value getenv d) as [v|] eqn:Hd; [|done]. cbn [option_bind mbind] in Hv.
    destruct (mapM (default_value getenv) opts) as [vs'|] eqn:Hvs; [|done]. cbn in Hv. injection Hv as <-.
    unfold register_option. rewrite Hd. cbn [option_bind mbind].
    match goal with |- context [register getenv opts ?x] => destruct (IH x vs' eq_refl) as (o' & Hr & H1 & H2 & H3 & H4 & H5) end.
    exists o'. split; [done|]. rewrite H1, H2, H3, H4, H5. cbn [heap __sopt __lopt].
    rewrite !map_app, !length_app. cbn [map length so_opt so_type so_value short_addresses long_addresses].
    rewrite Nat.add_1_r, <- !app_assoc. cbn [app]. split_and!; try done.
    destruct (length (o_short d) =? 0)%nat; by rewrite <- ?app_assoc.
Qed.

Lemma lookup_map {A B} (f : A -> B) l i : map f l !! i = f <$> l !! i.
Proof. apply list_lookup_fmap. Qed.

Lemma registered_lookup opts o i d : registered opts o -> opts !! i = Some d ->
  exists so, heap o !! i = Some so /\ so_opt so = o_short d /\ so_type so = o_type d.
Proof.
  intros Hr Hi. pose proof (f_equal (.!! i) (reg_names _ _ Hr)) as Hn. pose proof (f_equal (.!! i) (reg_types _ _ Hr)) as Ht.
  rewrite !lookup_map, Hi in Hn. rewrite !lookup_map, Hi in Ht.
  destruct (heap o !! i) as [so|]; [|done]. cbn in Hn, Ht. exists so. split; [done|]. split; congruence.
Qed.

Lemma find_short opts o name k opts' :
  registered opts o -> (forall j d, opts' !! j = Some d -> opts !! (k + j)%nat = Some d) ->
  find (__ina_find_sopt o name) (short_addresses k opts') =
    Nat.add k <$> index_of (fun d => negb (length (o_short d) =? 0)%nat && bool_decide (o_short d = name)) opts'.
Proof.
  intros Hr. revert k. induction opts' as [|d opts' IH]; intros k Hk; [done|]. cbn [short_addresses index_of].
  assert (find (__ina_find_sopt o name) (short_addresses (S k) opts') = Nat.add (S k) <$>
    index_of (fun d => negb (length (o_short d) =? 0)%nat && bool_decide (o_short d = name)) opts') as IH'.
  { apply IH. intros j d' Hj. rewrite Nat.add_succ_comm. by apply Hk. }
  destruct (length (o_short d) =? 0)%nat; cbn [app negb andb find].
  - rewrite IH', <- option_fmap_compose. apply option_fmap_ext. intros x. cbn. lia.
  - pose proof (Hk O d eq_refl) as Hd. rewrite Nat.add_0_r in Hd.
    destruct (registered_lookup _ _ _ _ Hr Hd) as (so & Hso & Hn & _).
    unfold __ina_find_sopt at 1. rewrite Hso, Hn. destruct (bool_decide (o_short d = name)).
    + cbn. by rewrite Nat.add_0_r.
    + rewrite IH', <- option_fmap_compose. apply option_fmap_ext. intros x. cbn. lia.
Qed.

Lemma find_long name k opts :
  snd <$> find (__ina_find_lopt name) (long_addresses k opts) =
    Nat.add k <$> index_of (fun d => bool_decide (o_long d = name)) opts.
Proof.
  revert k. induction opts as [|d opts IH]; intros k; [done|]. cbn [long_addresses index_of find].
  unfold __ina_find_lopt at 1. cbn [fst]. destruct (bool_decide (o_long d = name)).
  - cbn. by rewrite Nat.add_0_r.
  - rewrite IH, <- option_fmap_compose. apply option_fmap_ext. intros x. cbn. lia.
Qed.

Lemma opt_get_named opts o name : registered opts o -> __ina_opt_get o name = named opts name.
Proof.
  intros Hr. unfold __ina_opt_get, named. rewrite (reg_short _ _ Hr), (reg_long _ _ Hr).
  rewrite (find_short opts o name 0 opts Hr) by done. rewrite find_long.
  destruct (index_of _ opts); [done|]. cbn. by destruct (index_of _ opts).
Qed.

Lemma index_of_lt p opts i : index_of p opts = Some i -> (i < length opts)%nat.
Proof.
  revert i. induction opts as [|d opts IH]; intros i; cbn [index_of length]; [done|].
  destruct (p d); [intros [= <-]; lia|]. destruct (index_of p opts) as [j|]; [|done]. cbn. intros [= <-].
  specialize (IH j eq_refl). lia.
Qed.

Lemma named_lt opts name i : named opts name = Some i -> (i < length opts)%nat.
Proof. unfold named. destruct (index_of _ opts) eqn:H; [intros [= <-]|]; by eapply index_of_lt. Qed.

Lemma map_alter_same {A B} (f : A -> B) (g : A -> A) i l : (forall x, f (g x) = f x) -> map f (alter g i l) = map f l.
Proof.
  intros Hg. revert i. induction l as [|x l IH]; intros [|i]; cbn; [done..| |]; [by rewrite Hg|]. f_equal. apply IH.
Qed.

Lemma set_value_registered opts o i v : registered opts o -> registered opts (set_value i v o).
Proof.
  intros [H1 H2 H3 H4]. split; cbn [set_value heap __sopt __lopt]; try done; by rewrite map_alter_same.
Qed.

(** The value at an address. *)
Definition value_at (o : options) (i : nat) : option text := so ← heap o !! i; so_value so.

Lemma value_at_set opts o i j v : registered opts o -> (i < length opts)%nat ->
  value_at (set_value i v o) j = if decide (i = j) then Some v else value_at o j.
Proof.
  intros Hr Hi. unfold value_at, set_value. cbn [heap]. destruct (decide (i = j)) as [->|Hne].
  - rewrite list_lookup_alter_eq. destruct (lookup_lt_is_Some_2 opts j Hi) as [d Hd].
    destruct (registered_lookup _ _ _ _ Hr Hd) as (so & -> & _). done.
  - by rewrite list_lookup_alter_ne.
Qed.

(** ** The parser against the reference *)

Lemma parse_setting opts o st args : registered opts o -> setting_ok opts st ->
  exists i, named opts (st_name st) = Some i /\ (i < length opts)%nat /\
    parse_args (print_setting st ++ args) o = parse_args args (set_value i (setting_value st) o).
Proof.
  intros Hr [Hn (i & d & Hi & Hd & Harg)]. exists i. split; [done|]. split; [by eapply lookup_lt_Some|].
  destruct (registered_lookup _ _ _ _ Hr Hd) as (so & Hso & _ & Ht).
  unfold print_setting, setting_value. destruct st as [long name arg]. cbn [st_long st_name st_arg] in *.
  destruct arg as [|v|v]; cbn [app]; cbn [parse_args].
  - rewrite option_in_name by done. rewrite (opt_get_named opts) by done. rewrite Hi, Hso. cbn [option_bind mbind].
    unfold is_flag. rewrite Ht, Harg. done.
  - destruct Harg as [Hf Hl]. rewrite <- app_assoc. rewrite option_in_joined by done.
    rewrite (opt_get_named opts) by done. rewrite Hi, Hso. cbn [option_bind mbind].
    unfold is_flag. rewrite Ht, bool_decide_eq_false_2 by done. by rewrite (proj2 (Z.ltb_lt _ _) Hl).
  - rewrite option_in_name by done. rewrite (opt_get_named opts) by done. rewrite Hi, Hso. cbn [option_bind mbind].
    unfold is_flag. by rewrite Ht, bool_decide_eq_false_2.
Qed.

Lemma parse_settings opts settings : forall o args,
  registered opts o -> Forall (setting_ok opts) settings ->
  exists o', parse_args (flat_map print_setting settings ++ args) o = parse_args args o' /\
    registered opts o' /\ forall i, value_at o' i = value_of opts settings i (value_at o i).
Proof.
  induction settings as [|st settings IH]; intros o args Hr Hok; [by exists o|].
  apply Forall_cons in Hok as [Hst Hok]. cbn [flat_map]. rewrite <- app_assoc.
  destruct (parse_setting opts o st (flat_map print_setting settings ++ args) Hr Hst) as (i & Hi & Hlt & ->).
  destruct (IH (set_value i (setting_value st) o) args) as (o' & Hp & Hr' & Hv); [by apply set_value_registered|done|].
  exists o'. split; [done|]. split; [done|]. intros j. rewrite Hv. unfold value_of. cbn [fold_left].
  rewrite (value_at_set opts) by done. f_equal. rewrite Hi.
  destruct (decide (i = j)) as [->|Hne]; [by rewrite bool_decide_eq_true_2|].
  by rewrite bool_decide_eq_false_2 by congruence.
Qed.

Lemma register_registered getenv opts vs : mapM (default_value getenv) opts = Some vs ->
  exists o, register getenv opts no_options = Some o /\ registered opts o /\
    forall i, value_at o i = default None (vs !! i).
Proof.
  intros Hv. destruct (register_spec getenv opts no_options vs Hv) as (o & Hr & H1 & H2 & H3 & H4 & H5).
  exists o. split; [done|]. split; [by split|]. intros i. cbn [no_options heap map app] in H3. rewrite <- H3.
  rewrite lookup_map. unfold value_at.
  by destruct (heap o !! i).
Qed.

(** The check behind the parser leaves the code for invalid options if one of the
    options with a short name has no value and is not a flag, and always succeeds. *)
Definition no_value (o : options) (i : nat) : bool :=
  match heap o !! i with Some so => negb (is_flag so) && bool_decide (so_value so = None) | None => false end.
Lemma check_all_spec version o l : (forall i, i ∈ l -> is_Some (heap o !! i)) -> forall rc,
  check_all version o l rc = Some (if existsb (no_value o) l then INA_RC_PACK version OPTION_INVALID 0 else rc, INA_SUCCESS).
Proof.
  induction l as [|i l IH]; intros Hl rc; cbn [check_all existsb]; [done|].
  destruct (Hl i (list_elem_of_here _ _)) as [so Hso]. unfold no_value at 1. rewrite Hso. cbn [mbind option_bind].
  assert (forall j, j ∈ l -> is_Some (heap o !! j)) as Hl' by (intros; apply Hl; by apply list_elem_of_further).
  unfold __ina_check_options. destruct (so_value so) as [v|]; change (INA_FAILED INA_SUCCESS) with false; cbn iota; rewrite (IH Hl').
  - rewrite bool_decide_eq_false_2, andb_false_r by done. done.
  - rewrite bool_decide_eq_true_2, andb_true_r by done. destruct (is_flag so); cbn [negb orb]; [done|]. by destruct (existsb _ l).
Qed.
Lemma short_addresses_lt k opts i : i ∈ short_addresses k opts -> (i < k + length opts)%nat.
Proof.
  revert k. induction opts as [|d opts IH]; intros k; cbn [short_addresses length]; [by intros ?%not_elem_of_nil|].
  intros [Hi|Hi]%elem_of_app; [|specialize (IH _ Hi); lia].
  destruct (length (o_short d) =? 0)%nat; [by apply not_elem_of_nil in Hi|apply list_elem_of_singleton in Hi; lia].
Qed.

(** An option with a short name that needs a value and has none from the settings or by
    default. *)
Definition lacking (opts : list opt) (dfts : list (option text)) (settings : list setting) : bool :=
  existsb (fun i => match opts !! i with
                    | Some d => negb (bool_decide (o_type d = INA_OPT_TYPE_FLAG)) &&
                        bool_decide (value_of opts settings i (default None (dfts !! i)) = None)
                    | None => false
                    end) (short_addresses 0 opts).
Lemma lacking_spec opts dfts settings o : registered opts o ->
  (forall i, value_at o i = value_of opts settings i (default None (dfts !! i))) ->
  existsb (no_value o) (__sopt o) = lacking opts dfts settings.
Proof.
  intros Hr Hv. rewrite (reg_short _ _ Hr). unfold lacking.
  assert (forall i, no_value o i = match opts !! i with
    | Some d => negb (bool_decide (o_type d = INA_OPT_TYPE_FLAG)) && bool_decide (value_of opts settings i (default None (dfts !! i)) = None)
    | None => false end) as He.
  { intros i. rewrite <- Hv. unfold no_value, value_at. destruct (opts !! i) as [d|] eqn:Hd.
    - destruct (registered_lookup _ _ _ _ Hr Hd) as (so & -> & _ & Ht). unfold is_flag. by rewrite Ht.
    - destruct (heap o !! i) as [so|] eqn:Hso; [|done]. apply lookup_lt_Some in Hso. apply lookup_ge_None in Hd.
      pose proof (f_equal length (reg_types _ _ Hr)) as Hlen. rewrite !length_map in Hlen. lia. }
  induction (short_addresses 0 opts) as [|i l IH]; cbn [existsb]; [done|]. by rewrite He, IH.
Qed.


(** A name that no option has ends the parser with the code for invalid
    options, wherever it stands behind valid settings; the settings in front of
    it are kept and nothing behind it is read. *)
Theorem unknown_option_is_rejected getenv opts dfts settings long name rest :
  mapM (default_value getenv) opts = Some dfts -> Forall (setting_ok opts) settings ->
  name_ok long name -> named opts name = None ->
  exists o0 o, register getenv opts no_options = Some o0 /\
    parse_args (flat_map print_setting settings ++ (dashes long ++ name) :: rest) o0 = Some (o, Err OPTION_INVALID) /\
    forall i, value_at o i = value_of opts settings i (default None (dfts !! i)).
Proof.
  intros Hd Hok Hn Hnone. destruct (register_registered getenv opts dfts Hd) as (o0 & Hr & Hreg & Hv).
  destruct (parse_settings opts settings o0 ((dashes long ++ name) :: rest) Hreg Hok) as (o & Hp & Hreg' & Hv').
  exists o0, o. split; [done|]. split.
  - rewrite Hp. cbn [parse_args]. rewrite option_in_name by done. by rewrite (opt_get_named opts), Hnone.
  - intros i. by rewrite Hv', Hv.
Qed.

Lemma option_in_value arg name v : option_in arg = Some (name, Some v) -> (length v <= length arg)%nat.
Proof.
  unfold option_in. destruct (scan arg 0 0) as [[c s] vs].
  match goal with |- context [if ?b then _ else _] => destruct b end; [|done].
  destruct vs as [k|]; [|done]. cbn. intros [= _ <-]. rewrite length_drop. lia.
Qed.

(** Parsing is safe on every command line whose arguments are shorter than
    the buffer: no store leaves it, and the parser comes back with success or
    with the code for invalid options, on registered options as before. *)
Theorem parse_args_safe opts o args : registered opts o ->
  Forall (fun a => Z.of_nat (length a) < buffer_size) args ->
  exists o' r, parse_args args o = Some (o', r) /\ (r = Ok tt \/ r = Err OPTION_INVALID) /\ registered opts o'.
Proof.
  revert o. induction args as [args IH] using length_ind.
  intros o Hr Ha. destruct args as [|a args]; cbn [parse_args]; [by eexists o, _; split; [|split; [left|]]|].
  apply Forall_cons in Ha as [Ha Hargs].
  assert (forall o, registered opts o -> exists o' r, parse_args args o = Some (o', r) /\
    (r = Ok tt \/ r = Err OPTION_INVALID) /\ registered opts o') as Hrest by (intros; apply IH; cbn [length]; lia || done).
  destruct (option_in a) as [[name value]|] eqn:Ho; [|by apply Hrest].
  rewrite (opt_get_named opts) by done. destruct (named opts name) as [i|] eqn:Hi; [|by eexists o, _; split; [|split; [right|]]].
  destruct (lookup_lt_is_Some_2 opts i (named_lt _ _ _ Hi)) as [d Hd].
  destruct (registered_lookup _ _ _ _ Hr Hd) as (so & -> & _). cbn [option_bind mbind].
  destruct (is_flag so); [apply Hrest; by apply set_value_registered|].
  destruct value as [v|].
  - pose proof (option_in_value _ _ _ Ho) as Hv. destruct (Z.ltb_spec (Z.of_nat (length v)) buffer_size); [|lia].
    apply Hrest. by apply set_value_registered.
  - destruct args as [|v args]; [by apply Hrest|]. apply Forall_cons in Hargs as [_ Hargs].
    apply IH; [cbn [length]; lia|by apply set_value_registered|done].
Qed.

(** ** A program with a flag, a number and a text from the environment *)
Definition some_opts : list opt :=
  [Opt (bytes_of_string "h") (bytes_of_string "help") INA_OPT_TYPE_FLAG None [];
   Opt (bytes_of_string "p") (bytes_of_string "port") INA_OPT_TYPE_INT (Some (bytes_of_string "80")) [];
   Opt [] (bytes_of_string "user-name") INA_OPT_TYPE_STRING (Some (bytes_of_string "$ENV:USER")) []].
Definition some_env (name : text) : option text :=
  if bool_decide (name = bytes_of_string "USER") then Some (bytes_of_string "joe") else None.

Definition some_settings : list setting :=
  [Setting true (bytes_of_string "port") (Joined (bytes_of_string "8080"));
   Setting true (bytes_of_string "help") NoArg;
   Setting false (bytes_of_string "p") (Separate (bytes_of_string "9000"))].

Lemma some_settings_ok : Forall (setting_ok some_opts) some_settings.
Proof.
  assert (forall long n, forallb (fun c => negb (c =? 61)) n && (Z.of_nat (length n) <? buffer_size) &&
    (long || negb (hd 0 n =? 45)) = true -> name_ok long n) as Hn.
  { intros long n [[H1 H2%Z.ltb_lt]%andb_true_iff H3]%andb_true_iff. split; [|split; [done|]].
    - intros Hin%list_elem_of_In. rewrite forallb_forall in H1. by specialize (H1 _ Hin).
    - intros ->. cbn [orb] in H3. destruct (Z.eqb_spec (hd 0 n) 45); done. }
  repeat apply Forall_cons_2; [..|apply Forall_nil_2]; (split; [apply Hn; vm_compute; reflexivity|]).
  - exists 1%nat. eexists. split; [vm_compute; reflexivity|]. split; [reflexivity|]. split; [done|reflexivity].
  - exists 0%nat. eexists. split; [vm_compute; reflexivity|]. split; reflexivity.
  - exists 1%nat. eexists. split; [vm_compute; reflexivity|]. split; [reflexivity|done].
Qed.


Lemma unknown_option_is_rejected_witness :
  exists o0 o, register some_env some_opts no_options = Some o0 /\
    parse_args (flat_map print_setting some_settings ++ [dashes true ++ bytes_of_string "verbose"; [45; 104]]) o0
      = Some (o, Err OPTION_INVALID).
Proof.
  destruct (unknown_option_is_rejected some_env some_opts
    [None; Some (bytes_of_string "80"); Some (bytes_of_string "joe")] some_settings true (bytes_of_string "verbose") [[45; 104]]
    eq_refl some_settings_ok) as (o0 & o & H1 & H2 & _).
  - split; [|split; [reflexivity|done]]. apply (bool_decide_unpack _). vm_compute. exact I.
  - reflexivity.
  - exists o0, o. split; [exact H1|exact H2].
Defined.

Lemma parse_args_safe_witness :
  exists o0, register some_env some_opts no_options = Some o0 /\ exists o r,
    parse_args [bytes_of_string "-=-"; bytes_of_string "x--port=--"; bytes_of_string "--"] o0 = Some (o, r) /\
    (r = Ok tt \/ r = Err OPTION_INVALID).
Proof.
  destruct (register_registered some_env some_opts _ eq_refl) as (o0 & H & Hr & _). exists o0. split; [exact H|].
  destruct (parse_args_safe some_opts o0 [bytes_of_string "-=-"; bytes_of_string "x--port=--"; bytes_of_string "--"] Hr)
    as (o & r & Hp & He & _); [repeat constructor|]. exists o, r. split; [exact Hp|exact He].
Defined.

(** Where the command line and the signals are treated differently from what
    their interface says.
    - A number without a value is accepted: [ina_app_init] returns success with
      an error in the thread's return code.
    - A value of 1024 characters overflows the buffer.
    - A dash inside an argument that is no option starts an option's name.
    - A flag is set by any value.
    - After a signal whose handler chose to ignore it, no signal is handled any
      more: the program goes on after SIGTERM. *)
Theorem lib_defects :
  let opts := [Opt [112] (bytes_of_string "port") INA_OPT_TYPE_INT None [];
               Opt [104] (bytes_of_string "help") INA_OPT_TYPE_FLAG None []] in
  let start args := ina_app_init 0 (fun _ => None) (Some ([47] :: args)) opts INA_SUCCESS in
  let invalid := INA_RC_PACK 0 OPTION_INVALID 0 in
  INA_FAILED invalid = true /\
  (exists o, start [bytes_of_string "--port"] = Some (o, invalid, INA_SUCCESS)) /\
  start [bytes_of_string "--port=" ++ repeat 49 1024] = None /\
  (exists o, start [bytes_of_string "foo-bar"] = Some (o, invalid, invalid)) /\
  (exists o, start [bytes_of_string "--help=off"] = Some (o, invalid, INA_SUCCESS) /\ ina_opt_isset o [104] = Ok tt) /\
  (let s := Signals (<[7%nat := Some (fun _ x (st : unit) => (INA_SIGNAL_BEHAVIOR_IGNORE, x.2, st))]> (repeat None 13)) 0 0 tt in
   exists s1 s2, __ina_signal_handler 1 s = Some (s1, Returns) /\ __ina_signal_handler 15 s1 = Some (s2, Returns)).
Proof.
  cbn zeta. split_and!; try (vm_compute; reflexivity).
  - eexists. vm_compute. reflexivity.
  - eexists. vm_compute. reflexivity.
  - eexists. split; vm_compute; reflexivity.
  - do 2 eexists. split; [vm_compute; reflexivity|]. vm_compute. reflexivity.
Qed.

End Lib.
