(* ===== verification/Conffile.v ===== *)
(** * Configuration files (conffile.c, lconffile.lua)

    A program declares the sections of its configuration and their keys; a
    configuration file is a Lua script whose calls, one per block, are checked
    and collected by lconffile.lua and then imported into tables of the C side,
    where the program looks its values up.

    The interpreter is not modelled: a script is the sequence of its blocks with
    their contents, and the conversions between numbers and texts are
    parameters.  The tables of Lua are finite maps, and [lua_next] visits them in an
    order that is a parameter; the tables of C are the hash tables of StrTable.v,
    with names cut to 16 bytes.  Memory from the pool is taken to be there. *)
From Stdlib Require Import ZArith Lia Bool String.
From stdpp Require Import base numbers option fin_maps gmap list.
From S2P Require Import Prelude Error Libc Hashtable StrTable.

Module Conffile.
Import Error Libc StrTable.
Import Hashtable(key_str).

Inductive value_type : Set := INA_CONFFILE_VALUE_TYPE_STRING | INA_CONFFILE_VALUE_TYPE_NUMBER.

Section Configuration.
(** Numbers, their conversions, the state of the program, the environment and the order of
    [lua_next]. *)
Variables (num U : Type).
Variable number_text : num -> text.
Variable text_number : text -> num.
Variable getenv : text -> option text.
Variable lua_order : forall V, gmap text V -> list (text * V).

(** [struct ina_conffile_entry_s] *)
Inductive entry := EString (s : text) | ENumber (n : num).

(** [struct ina_conffile_entries_s]: the name of a block, and its values by their keys. *)
Record entries := Entries { e_key : text; e_entries : strtab entry }.
Abbreviation callback := (text -> option text -> entries -> U -> U * result unit).

(** [struct ina_conffile_section_key_s] and [struct ina_conffile_section_s] *)
Record key := Key { k_name : text; k_required : bool; k_type : value_type }.
Record section := Section_ {
  s_name : text; s_required : bool; s_named : bool; s_keys : strtab key; s_cb : option callback; s_entries : strtab entries
}.

(** Values of the script, and the table [sections] it works on. *)
Inductive lua_value := LString (s : text) | LNumber (n : num).
Record lkey := Lkey { lk_required : bool; lk_type : value_type; lk_value : option lua_value }.
Record lsection := Lsection {
  l_named : bool; l_required : bool; l_configured : bool; l_keys : gmap text lkey;
  l_children : gmap text (gmap text (value_type * lua_value))
}.

(** [struct ina_conffile_s]; the Lua table is known after a success. *)
Record conffile := Conf { cf_sections : strtab section; cf_prepared : bool; cf_lua : option (gmap text lsection) }.

Definition ina_conffile_new : conffile := Conf str_new false None.

(** ** Declarations

    A section is given by its pointer, its position among the sections. *)

Definition ina_conffile_add_section (cf : conffile) (name : text) (required named : bool) (cb : option callback)
    : conffile * result nat :=
  if cf_prepared cf then (cf, Err (INA_ERR E_INITIALIZED)) else
  match str_get (cf_sections cf) name with
  | Some _ => (cf, Err (INA_ERR_NOT_ E_UNIQUE))
  | None =>
      (Conf (str_set (cf_sections cf) name (Section_ name required named str_new cb str_new)) (cf_prepared cf) (cf_lua cf),
       Ok (length (st_data (cf_sections cf))))
  end.

Definition ina_conffile_add_key (cf : conffile) (section : nat) (name : text) (type : value_type) (required : bool)
    : option (conffile * result unit) :=
  s ← st_data (cf_sections cf) !! section;
  match str_get (s_keys s) name with
  | Some _ => Some (cf, Err (INA_ERR_NOT_ E_UNIQUE))
  | None =>
      let put := fun s => Section_ (s_name s) (s_required s) (s_named s) (str_set (s_keys s) name (Key name required type)) (s_cb s) (s_entries s) in
      Some (Conf (str_alter put section (cf_sections cf)) (cf_prepared cf) (cf_lua cf), Ok tt)
  end.

(** [__ina_build_section_table] *)
Definition build_keys (s : section) : gmap text lkey :=
  fold_left (fun t k => <[k_name k := Lkey (k_required k) (k_type k) None]> t) (str_values (s_keys s)) ∅.
Definition build_section (s : section) : lsection := Lsection (s_named s) (s_required s) false (build_keys s) ∅.
Definition __ina_build_section_table (cf : conffile) : gmap text lsection :=
  fold_left (fun t s => <[s_name s := build_section s]> t) (str_values (cf_sections cf)) ∅.

(** ** The script (lconffile.lua)

    A block calls a section, with a name or without, and gives a table. *)
Record block := Block { b_section : text; b_name : option text; b_content : gmap text lua_value }.

Definition missing_key (content : gmap text lua_value) (keys : gmap text lkey) : bool :=
  existsb (fun kv => lk_required kv.2 && negb (bool_decide (is_Some (content !! kv.1)))) (map_to_list keys).

(** [_section_func]: the values are stored beside the keys; the test of their
    type compares a boolean with a string and never fails. *)
Definition _section_func (content : gmap text lua_value) (s : lsection) : option lsection :=
  if missing_key content (l_keys s) then None else
  Some (Lsection (l_named s) (l_required s) true
    (map_imap (fun k v => Some (match content !! k with
                                | Some x => Lkey (lk_required v) (lk_type v) (Some x)
                                | None => v
                                end)) (l_keys s))
    (l_children s)).

(** [_named_section_func]: the values form a new child. *)
Definition _named_section_func (name : text) (content : gmap text lua_value) (s : lsection) : option lsection :=
  if missing_key content (l_keys s) then None else
  Some (Lsection (l_named s) (l_required s) true (l_keys s)
    (<[name := map_imap (fun k v => x ← content !! k; Some (lk_type v, x)) (l_keys s)]> (l_children s))).

(** A block of the script.  A name that is no section is a call of nil; so is a
    block with a name for a section without.  A section with names that is
    called with a table only gives a function that nobody calls. *)
Definition run_block (b : block) (t : gmap text lsection) : option (gmap text lsection) :=
  s ← t !! b_section b;
  match l_named s, b_name b with
  | false, None => s ← _section_func (b_content b) s; Some (<[b_section b := s]> t)
  | true, Some name => s ← _named_section_func name (b_content b) s; Some (<[b_section b := s]> t)
  | true, None => Some t
  | false, Some _ => None
  end.

Fixpoint run_blocks (bs : list block) (t : gmap text lsection) : option (gmap text lsection) :=
  match bs with [] => Some t | b :: bs => t ← run_block b t; run_blocks bs t end.

(** [lconffile.process_string] *)
Definition process_script (bs : list block) (t : gmap text lsection) : option (gmap text lsection) :=
  t ← run_blocks bs ((fun s => Lsection (l_named s) (l_required s) (l_configured s) (l_keys s)
                                 (if l_named s then ∅ else l_children s)) <$> t);
  if existsb (fun ns => l_required ns.2 && negb (l_configured ns.2)) (map_to_list t) then None else Some t.

(** ** Import *)

Definition env_mark : text := bytes_of_string "$ENV:".
Definition default_name : text := bytes_of_string "default".

(** A value of [__ina_process_entries], with values from the environment. *)
Definition to_entry (tv : value_type * lua_value) : entry :=
  match tv with
  | (INA_CONFFILE_VALUE_TYPE_STRING, v) =>
      let s := match v with LString s => s | LNumber n => number_text n end in
      EString (if has_prefix s env_mark then default [] (getenv (drop 5 s)) else s)
  | (INA_CONFFILE_VALUE_TYPE_NUMBER, v) =>
      ENumber (match v with LString s => text_number s | LNumber n => n end)
  end.
Definition __ina_process_entries (keys : gmap text (value_type * lua_value)) : strtab entry :=
  fold_left (fun t e => str_set t e.1 (to_entry e.2)) (lua_order _ keys) str_new.

Definition with_entries (e : strtab entries) (s : section) : section :=
  Section_ (s_name s) (s_required s) (s_named s) (s_keys s) (s_cb s) e.

(** A configured section.  The code puts the entries of a block into the table before it
    fills them. *)
Definition import_section (l : lsection) (s : section) : section :=
  with_entries
    (if negb (l_named l) then
       str_set (s_entries s) default_name
         (Entries default_name (__ina_process_entries (omap (fun k => v ← lk_value k; Some (lk_type k, v)) (l_keys l))))
     else fold_left (fun t e => str_set t e.1 (Entries e.1 (__ina_process_entries e.2))) (lua_order _ (l_children l)) (s_entries s)) s.

(** The sections that Lua hands out; [None]: a section that the table of C does not find,
    so that its pointer has no value. *)
Fixpoint import_list (ls : list (text * lsection)) (ss : strtab section) : option (strtab section) :=
  match ls with
  | [] => Some ss
  | (name, l) :: ls =>
      if l_configured l then i ← str_find ss name; import_list ls (str_alter (import_section l) i ss) else import_list ls ss
  end.
Definition import_sections (t : gmap text lsection) (ss : strtab section) : option (strtab section) := import_list (lua_order _ t) ss.

(** The callbacks, in the order of the tables; the first failure ends them. *)
Fixpoint call_section (name : text) (named : bool) (cb : callback) (es : list entries) (u : U) : U * result unit :=
  match es with
  | [] => (u, Ok tt)
  | e :: es =>
      match cb name (if named then Some (e_key e) else None) e u with
      | (u, Ok _) => call_section name named cb es u
      | (u, Err rc) => (u, Err rc)
      end
  end.

Fixpoint call_sections (ss : list section) (u : U) : U * result unit :=
  match ss with
  | [] => (u, Ok tt)
  | s :: ss =>
      match s_cb s with
      | None => call_sections ss u
      | Some cb =>
          match call_section (s_name s) (s_named s) cb (str_values (s_entries s)) u with
          | (u, Ok _) => call_sections ss u
          | (u, Err rc) => (u, Err rc)
          end
      end
  end.

Definition SCRIPT_FAILED : Z := Z.lor (INA_ES S_SCRIPT) (INA_ERR E_FAILED).

(** [ina_conffile_process_string], and [ina_conffile_process] for the blocks of
    a file.  [None]: a second run after a script that failed, or a section that is not
    found. *)
Definition ina_conffile_process_string (cf : conffile) (bs : list block) (u : U) : option (conffile * U * result unit) :=
  t ← (if cf_prepared cf then cf_lua cf else Some (__ina_build_section_table cf));
  match process_script bs t with
  | None => Some (Conf (cf_sections cf) true None, u, Err SCRIPT_FAILED)
  | Some t =>
      ss ← import_sections t (cf_sections cf);
      let '(u, r) := call_sections (str_values ss) u in
      Some (Conf ss true (Some t), u, r)
  end.

(** ** Lookup *)

Definition __ina_get_value (cf : conffile) (sname : text) (skey : option text) (key : text) : result entry :=
  match str_get (cf_sections cf) sname with
  | None => Err (Z.lor (INA_ES S_SECTION) (INA_ERR_NOT_ E_EXISTS))
  | Some s =>
      match str_get (s_entries s) (default default_name skey) with
      | None => Err (Z.lor (INA_ES S_SECTION) (INA_ERR E_EMPTY))
      | Some es =>
          match str_get (e_entries es) key with
          | None => Err (Z.lor (INA_ES S_KEY) (INA_ERR_NOT_ E_EXISTS))
          | Some e => Ok e
          end
      end
  end.

Definition NOT_EXISTS : Z := INA_ERR_NOT_ E_EXISTS.
Definition TYPE_INVALID : Z := Z.lor INA_ERR_INVALID (INA_ES S_TYPE).

Definition string_of (e : option entry) : result text :=
  match e with None => Err NOT_EXISTS | Some (ENumber _) => Err TYPE_INVALID | Some (EString s) => Ok s end.
Definition number_of (e : option entry) : result num :=
  match e with None => Err NOT_EXISTS | Some (EString _) => Err TYPE_INVALID | Some (ENumber n) => Ok n end.
Definition found (r : result entry) : option entry := match r with Ok e => Some e | Err _ => None end.

Definition ina_conffile_has_value (cf : conffile) (sname : text) (skey : option text) (key : text) : result unit :=
  match __ina_get_value cf sname skey key with Ok _ => Ok tt | Err rc => Err rc end.
Definition ina_conffile_get_string (cf : conffile) (sname : text) (skey : option text) (key : text) : result text :=
  string_of (found (__ina_get_value cf sname skey key)).
Definition ina_conffile_get_number (cf : conffile) (sname : text) (skey : option text) (key : text) : result num :=
  number_of (found (__ina_get_value cf sname skey key)).
Definition ina_conffile_has_value_in_entries (es : entries) (key : text) : result unit :=
  match str_get (e_entries es) key with Some _ => Ok tt | None => Err (INA_ERR_NOT_ E_FOUND) end.
Definition ina_conffile_get_string_from_entries (es : entries) (key : text) : result text := string_of (str_get (e_entries es) key).
Definition ina_conffile_get_number_from_entries (es : entries) (key : text) : result num := number_of (str_get (e_entries es) key).

(** ** Reference: what a sequence of blocks gives

    A section as it is declared. *)
Record dkey := Dkey { dk_required : bool; dk_type : value_type }.
Record decl := Decl { d_required : bool; d_named : bool; d_keys : gmap text dkey }.

Definition in_block (sname : text) (name : option text) (b : block) : bool :=
  bool_decide (b_section b = sname) && bool_decide (b_name b = name).

(** The content of the last block with this name. *)
Definition last_content (bs : list block) (sname name : text) : option (gmap text lua_value) :=
  fold_left (fun c b => if in_block sname (Some name) b then Some (b_content b) else c) bs None.

(** The blocks of a section without names add up; a block with a name replaces
    the former one of this name. *)
Definition given (bs : list block) (sname : text) (name : option text) (key : text) : option lua_value :=
  match name with
  | None => fold_left (fun v b => if in_block sname None b then
                match b_content b !! key with Some x => Some x | None => v end else v) bs None
  | Some name => c ← last_content bs sname name; c !! key
  end.

(** A block calls a section as it is declared and has its required keys. *)
Definition complete (s : decl) (content : gmap text lua_value) : Prop :=
  forall k kk, d_keys s !! k = Some kk -> dk_required kk = true -> is_Some (content !! k).

Definition valid_block (ss : gmap text decl) (b : block) : Prop :=
  exists s, ss !! b_section b = Some s /\
    match d_named s, b_name b with
    | false, None | true, Some _ => complete s (b_content b)
    | true, None => True
    | false, Some _ => False
    end.

(** A block that configures its section. *)
Definition configures (sname : text) (s : decl) (b : block) : bool :=
  bool_decide (b_section b = sname) && negb (d_named s && bool_decide (b_name b = None)).

Definition config_ok (ss : gmap text decl) (bs : list block) : Prop :=
  Forall (valid_block ss) bs /\
  forall sname s, ss !! sname = Some s -> d_required s = true -> existsb (configures sname s) bs = true.

(** What the table of the script holds after some blocks. *)
Record holds (bs : list block) (sname : text) (s : decl) (l : lsection) : Prop := {
  h_named : l_named l = d_named s;
  h_required : l_required l = d_required s;
  h_configured : l_configured l = existsb (configures sname s) bs;
  h_keys : forall k, l_keys l !! k = (fun kk => Lkey (dk_required kk) (dk_type kk)
    (if d_named s then None else given bs sname None k)) <$> d_keys s !! k;
  h_children : forall name, l_children l !! name = if d_named s then
    (fun c : gmap text lua_value => map_imap (fun k kk => x ← c !! k; Some (dk_type kk, x)) (d_keys s)) <$> last_content bs sname name
    else None
}.

Definition table_holds (ss : gmap text decl) (bs : list block) (t : gmap text lsection) : Prop :=
  forall sname, match ss !! sname, t !! sname with
                | Some s, Some l => holds bs sname s l
                | None, None => True
                | _, _ => False
                end.

Lemma missing_key_spec (content : gmap text lua_value) (keys : gmap text lkey) :
  missing_key content keys = false <->
  forall k v, keys !! k = Some v -> lk_required v = true -> is_Some (content !! k).
Proof.
  unfold missing_key. rewrite <- not_true_iff_false, existsb_exists. split.
  - intros H k v Hk Hr. destruct (decide (is_Some (content !! k))) as [|Hn]; [done|]. destruct H.
    exists (k, v). split; [by apply list_elem_of_In, elem_of_map_to_list|]. cbn. rewrite Hr.
    by rewrite bool_decide_eq_false_2.
  - intros H ([k v] & Hin%list_elem_of_In%elem_of_map_to_list & Hb). cbn in Hb.
    apply andb_true_iff in Hb as [Hr Hb]. by rewrite bool_decide_eq_true_2 in Hb by eauto.
Qed.

Lemma missing_key_complete (bs : list block) (sname : text) (s : decl) (l : lsection) (content : gmap text lua_value) : holds bs sname s l ->
  missing_key content (l_keys l) = false <-> complete s content.
Proof.
  intros H. rewrite missing_key_spec. unfold complete. split.
  - intros Hm k kk Hk Hr. eapply (Hm k); [by rewrite (h_keys _ _ _ _ H), Hk|done].
  - intros Hc k v Hk Hr. rewrite (h_keys _ _ _ _ H) in Hk. destruct (d_keys s !! k) as [kk|] eqn:E; [|done].
    cbn in Hk. simplify_eq. by eapply Hc.
Qed.

Lemma configures_snoc (sname : text) (s : decl) (bs : list block) (b : block) :
  existsb (configures sname s) (bs ++ [b]) = existsb (configures sname s) bs || configures sname s b.
Proof. rewrite existsb_app. cbn. by rewrite orb_false_r. Qed.

(** A block of another section changes nothing. *)
Lemma holds_other (bs : list block) (sname : text) (s : decl) (l : lsection) (b : block) : b_section b <> sname -> holds bs sname s l -> holds (bs ++ [b]) sname s l.
Proof.
  intros Hne [H1 H2 H3 H4 H5]. assert (forall n, in_block sname n b = false) as Hin.
  { intros n. unfold in_block. by rewrite bool_decide_eq_false_2. }
  split; try done.
  - rewrite configures_snoc, H3. unfold configures at 3. by rewrite (bool_decide_eq_false_2 (b_section b = sname)), orb_false_r.
  - intros k. rewrite H4. unfold given. by rewrite fold_left_app; cbn; rewrite Hin.
  - intros name. rewrite H5. unfold last_content. by rewrite fold_left_app; cbn; rewrite Hin.
Qed.

(** A block of the section itself. *)
Lemma holds_plain (bs : list block) (s : decl) (l l' : lsection) (b : block) :
  d_named s = false -> b_name b = None -> holds bs (b_section b) s l -> _section_func (b_content b) l = Some l' ->
  holds (bs ++ [b]) (b_section b) s l'.
Proof.
  intros Hn Hb [H1 H2 H3 H4 H5] Hf. unfold _section_func in Hf. destruct (missing_key _ _); [done|]. simplify_eq.
  assert (in_block (b_section b) None b = true) as Hin.
  { unfold in_block. by rewrite !bool_decide_eq_true_2. }
  split; cbn [l_named l_required l_configured l_keys l_children]; try done.
  - rewrite configures_snoc. unfold configures at 2. rewrite Hn, bool_decide_eq_true_2 by done. by rewrite orb_true_r.
  - intros k. rewrite map_lookup_imap, H4, Hn. destruct (d_keys s !! k) as [kk|]; [|done]. cbn.
    rewrite fold_left_app. cbn. rewrite Hin. by destruct (b_content b !! k).
  - intros name. rewrite H5, Hn. done.
Qed.

Lemma holds_child (bs : list block) (s : decl) (l l' : lsection) (b : block) (name : text) :
  d_named s = true -> b_name b = Some name -> holds bs (b_section b) s l ->
  _named_section_func name (b_content b) l = Some l' -> holds (bs ++ [b]) (b_section b) s l'.
Proof.
  intros Hn Hb [H1 H2 H3 H4 H5] Hf. unfold _named_section_func in Hf. destruct (missing_key _ _); [done|]. simplify_eq.
  split; cbn [l_named l_required l_configured l_keys l_children]; try done.
  - rewrite configures_snoc. unfold configures at 2. rewrite Hn, Hb, bool_decide_eq_true_2 by done.
    rewrite bool_decide_eq_false_2 by done. by rewrite orb_true_r.
  - intros k. rewrite H4, Hn. done.
  - intros name'. rewrite Hn in H5 |- *. unfold last_content. rewrite fold_left_app. cbn.
    unfold in_block. rewrite (bool_decide_eq_true_2 (b_section b = _)) by done. rewrite Hb. cbn [andb].
    destruct (decide (name = name')) as [->|Hne].
    + rewrite lookup_insert_eq, bool_decide_eq_true_2 by done. cbn. f_equal. apply map_eq. intros k.
      rewrite !map_lookup_imap, H4. by destruct (d_keys s !! k).
    + rewrite lookup_insert_ne, bool_decide_eq_false_2 by congruence. by rewrite H5.
Qed.

Lemma holds_uncalled (bs : list block) (s : decl) (l : lsection) (b : block) :
  d_named s = true -> b_name b = None -> holds bs (b_section b) s l -> holds (bs ++ [b]) (b_section b) s l.
Proof.
  intros Hn Hb [H1 H2 H3 H4 H5]. split; try done.
  - rewrite configures_snoc, H3. unfold configures at 3. rewrite Hn, Hb.
    by rewrite (bool_decide_eq_true_2 (None = None)), andb_false_r, orb_false_r.
  - intros k. rewrite H4, Hn. done.
  - intros name. rewrite H5. unfold last_content. rewrite fold_left_app. cbn. unfold in_block. rewrite Hb.
    by rewrite (bool_decide_eq_false_2 (None = Some name)), andb_false_r.
Qed.

(** A block runs exactly when it is valid, and the table then holds it. *)
Lemma run_block_spec (ss : gmap text decl) (bs : list block) (b : block) (t : gmap text lsection) :
  table_holds ss bs t ->
  match run_block b t with
  | Some t' => valid_block ss b /\ table_holds ss (bs ++ [b]) t'
  | None => ~ valid_block ss b
  end.
Proof.
  intros Ht. pose proof (Ht (b_section b)) as Hb. unfold run_block, valid_block.
  destruct (t !! b_section b) as [l|] eqn:Hl, (ss !! b_section b) as [s|] eqn:Hs; try done;
    [|intros (s & [=] & _)].
  cbn [option_bind mbind]. rewrite (h_named _ _ _ _ Hb).
  assert (forall l', holds (bs ++ [b]) (b_section b) s l' -> table_holds ss (bs ++ [b]) (<[b_section b := l']> t)) as Hset.
  { intros l' Hl' n. destruct (decide (b_section b = n)) as [<-|Hne]; [by rewrite Hs, lookup_insert_eq|].
    rewrite lookup_insert_ne by done. specialize (Ht n). destruct (ss !! n), (t !! n); try done. by apply holds_other. }
  pose proof (missing_key_complete bs (b_section b) s l (b_content b) Hb) as Hm.
  destruct (d_named s) eqn:Hn, (b_name b) as [name|] eqn:Hname.
  - destruct (_named_section_func name (b_content b) l) as [l'|] eqn:Hf; cbn [option_bind mbind].
    + split; [|apply Hset; by eapply holds_child]. exists s. rewrite Hn. split; [done|]. apply Hm.
      revert Hf. unfold _named_section_func. by destruct (missing_key _ _).
    + intros (s' & [= <-] & Hc). rewrite Hn in Hc. apply Hm in Hc. unfold _named_section_func in Hf. by rewrite Hc in Hf.
  - split; [exists s; by rewrite Hn|]. intros n. specialize (Ht n).
    destruct (decide (b_section b = n)) as [<-|Hne].
    + rewrite Hs, Hl. by apply holds_uncalled.
    + destruct (ss !! n), (t !! n); try done. by apply holds_other.
  - intros (s' & [= <-] & Hc). by rewrite Hn in Hc.
  - destruct (_section_func (b_content b) l) as [l'|] eqn:Hf; cbn [option_bind mbind].
    + split; [|apply Hset; by eapply holds_plain]. exists s. rewrite Hn. split; [done|]. apply Hm.
      revert Hf. unfold _section_func. by destruct (missing_key _ _).
    + intros (s' & [= <-] & Hc). rewrite Hn in Hc. apply Hm in Hc. unfold _section_func in Hf. by rewrite Hc in Hf.
Qed.

Lemma run_blocks_spec (ss : gmap text decl) (bs : list block) : forall (done : list block) (t : gmap text lsection),
  table_holds ss done t ->
  match run_blocks bs t with
  | Some t' => Forall (valid_block ss) bs /\ table_holds ss (done ++ bs) t'
  | None => ~ Forall (valid_block ss) bs
  end.
Proof.
  induction bs as [|b bs IH]; intros dn t Ht; cbn [run_blocks]; [by rewrite app_nil_r|].
  pose proof (run_block_spec ss dn b t Ht) as Hb. destruct (run_block b t) as [t1|]; cbn [option_bind mbind].
  - destruct Hb as [Hv Ht1]. specialize (IH (dn ++ [b]) t1 Ht1). rewrite <- app_assoc in IH.
    destruct (run_blocks bs t1); [|intros [_ H]%Forall_cons; by apply IH].
    destruct IH as [H1 H2]. split; [by apply Forall_cons_2|done].
  - intros [H _]%Forall_cons. by apply Hb.
Qed.

(** ** Declarations

    A program that declares sections and their keys. *)
Record declaration := Declaration { n_name : text; n_required : bool; n_named : bool; n_cb : option callback; n_keys : list (text * dkey) }.
Fixpoint add_keys (cf : conffile) (section : nat) (ks : list (text * dkey)) : option conffile :=
  match ks with
  | [] => Some cf
  | (k, d) :: ks => '(cf, r) ← ina_conffile_add_key cf section k (dk_type d) (dk_required d); match r with Ok _ => add_keys cf section ks | Err _ => None end
  end.
Fixpoint declare (cf : conffile) (ds : list declaration) : option conffile :=
  match ds with
  | [] => Some cf
  | d :: ds =>
      match ina_conffile_add_section cf (n_name d) (n_required d) (n_named d) (n_cb d) with
      | (cf, Ok section) => cf ← add_keys cf section (n_keys d); declare cf ds
      | (_, Err _) => None
      end
  end.
(** What they declare. *)
Definition keys_of (ks : list (text * dkey)) (m : gmap text dkey) : gmap text dkey := fold_left (fun m e => <[e.1 := e.2]> m) ks m.
Definition decl_of (d : declaration) : decl := Decl (n_required d) (n_named d) (keys_of (n_keys d) ∅).
Definition sections_of (ds : list declaration) (m : gmap text decl) : gmap text decl := fold_left (fun m d => <[n_name d := decl_of d]> m) ds m.
(** No section and no key of a section has a name that the table takes for another. *)
Definition distinct (names : list text) : Prop := NoDup names /\ separate (fun k => k ∈ names).
Definition distinct_names (ds : list declaration) : Prop := distinct (map n_name ds) /\ Forall (fun d => distinct (n_keys d).*1) ds.

Definition is_declared (n : text) (d : decl) (s : section) : Prop :=
  s_name s = n /\ s_required s = d_required d /\ s_named s = d_named d /\ s_entries s = str_new /\
  tab_holds (s_keys s) (map_imap (fun k kk => Some (Key k (dk_required kk) (dk_type kk))) (d_keys d)).
Definition matching (ss : gmap text decl) (m : gmap text section) : Prop :=
  forall n, match m !! n, ss !! n with Some s, Some d => is_declared n d s | None, None => True | _, _ => False end.
(** The configuration has the sections [ss] declared and nothing read. *)
Record declared (cf : conffile) (ss : gmap text decl) : Prop := {
  dc_new : cf_prepared cf = false /\ cf_lua cf = None;
  dc_sections : exists m, tab_holds (cf_sections cf) m /\ matching ss m }.
Abbreviation among ss := (fun n => is_Some (ss !! n)).

Lemma matching_dom (ss : gmap text decl) (m : gmap text section) (n : text) : matching ss m -> is_Some (m !! n) <-> is_Some (ss !! n).
Proof. intros H. specialize (H n). by destruct (m !! n), (ss !! n). Qed.
Lemma matching_apart (ss : gmap text decl) (m : gmap text section) (n : text) : matching ss m -> apart_from (among ss) n -> apart_from (among m) n.
Proof. intros Hm [H1 H2]. split; [done|]. intros k Hk. apply H2. by apply (matching_dom ss m). Qed.
Lemma new_declared : declared ina_conffile_new ∅.
Proof. split; [done|]. exists ∅. split; [apply new_tab|done]. Qed.
Lemma keys_apart (d : gmap text dkey) (k : text) : apart_from (among d) k ->
  apart_from (among (map_imap (fun k kk => Some (Key k (dk_required kk) (dk_type kk))) d)) k.
Proof. intros [H1 H2]. split; [done|]. intros k'. rewrite map_lookup_imap. intros H. apply H2. destruct (d !! k'); [by eexists|by destruct H]. Qed.

Lemma add_section_spec (cf : conffile) (ss : gmap text decl) (name : text) (required named : bool) (cb : option callback) :
  declared cf ss -> apart_from (among ss) name -> ss !! name = None ->
  exists (cf' : conffile) (i : nat), ina_conffile_add_section cf name required named cb = (cf', Ok i) /\
    declared cf' (<[name := Decl required named ∅]> ss) /\ str_find (cf_sections cf') name = Some i.
Proof.
  intros [[Hp Hl] (m & Hm & Hmatch)] Hk Hno. pose proof (matching_apart ss m name Hmatch Hk) as Hkm. unfold ina_conffile_add_section. rewrite Hp.
  rewrite (str_get_holds _ m) by done. pose proof (Hmatch name) as Hn. rewrite Hno in Hn. destruct (m !! name) eqn:Hmn; [done|].
  eexists _, _. split; [reflexivity|]. split; [|by apply (str_find_set _ m)]. split; [done|]. cbn [cf_sections]. eexists. split; [by apply str_set_holds|].
  intros n. destruct (decide (n = name)) as [->|Hne]; [rewrite !lookup_insert_eq|rewrite !lookup_insert_ne by done; apply Hmatch].
  unfold is_declared. cbn. split; [done|]. split; [done|]. split; [done|]. split; [done|]. apply new_tab.
Qed.
Lemma add_key_spec (cf : conffile) (ss : gmap text decl) (i : nat) (name : text) (d : decl) (k : text) (kk : dkey) :
  declared cf ss -> apart_from (among ss) name -> ss !! name = Some d -> str_find (cf_sections cf) name = Some i ->
  apart_from (among (d_keys d)) k -> d_keys d !! k = None ->
  exists cf' : conffile, ina_conffile_add_key cf i k (dk_type kk) (dk_required kk) = Some (cf', Ok tt) /\
    declared cf' (<[name := Decl (d_required d) (d_named d) (<[k := kk]> (d_keys d))]> ss) /\ str_find (cf_sections cf') name = Some i.
Proof.
  intros [[Hp Hl] (m & Hm & Hmatch)] Hk Hd Hi Hkk Hno. pose proof (matching_apart ss m name Hmatch Hk) as Hkm. unfold ina_conffile_add_key.
  pose proof (str_find_some _ m name Hm Hkm) as Hf. pose proof (Hmatch name) as Hn. rewrite Hd in Hn. destruct (m !! name) as [s|] eqn:Hmn; [|done].
  destruct Hf as (i' & Hi' & Hdata). assert (i' = i) as -> by congruence. rewrite Hdata. cbn [mbind option_bind]. destruct Hn as (N1 & N2 & N3 & N4 & N5).
  rewrite (str_get_holds _ _ k N5) by by apply keys_apart. rewrite map_lookup_imap, Hno. cbn [mbind option_bind].
  eexists. split; [reflexivity|]. split; [|done]. split; [done|]. cbn [cf_sections]. eexists. split; [by apply str_alter_holds|].
  intros n. destruct (decide (n = name)) as [->|Hne]; [|rewrite lookup_alter_ne, lookup_insert_ne by done; apply Hmatch].
  rewrite lookup_alter_eq, lookup_insert_eq, Hmn. cbn. unfold is_declared. cbn. do 4 (split; [done|]).
  rewrite map_imap_insert. apply str_set_holds; [done|]. by apply keys_apart.
Qed.

Lemma add_keys_spec (ks : list (text * dkey)) (cf : conffile) (ss : gmap text decl) (i : nat) (name : text) (d : decl) (S : text -> Prop) :
  declared cf ss -> apart_from (among ss) name -> ss !! name = Some d -> str_find (cf_sections cf) name = Some i ->
  separate S -> NoDup ks.*1 -> Forall (fun e => S e.1 /\ d_keys d !! e.1 = None) ks -> (forall k, is_Some (d_keys d !! k) -> S k) ->
  exists cf' : conffile, add_keys cf i ks = Some cf' /\ declared cf' (<[name := Decl (d_required d) (d_named d) (keys_of ks (d_keys d))]> ss).
Proof.
  intros Hcf Hk Hd Hi HS. revert cf ss d Hcf Hk Hd Hi. induction ks as [|[k kk] ks IH]; intros cf ss d Hcf Hk Hd Hi Hnd Hks Hdom; cbn [add_keys keys_of fold_left].
  - exists cf. split; [done|]. rewrite insert_id; [done|]. rewrite Hd. by destruct d.
  - apply NoDup_cons in Hnd as [Hni Hnd]. inversion Hks as [|? ? [HSk Hno] Hks']; subst. cbn in Hni, HSk, Hno.
    destruct (add_key_spec cf ss i name d k kk Hcf Hk Hd Hi) as (cf1 & -> & Hcf1 & Hi1); [by apply (separate_apart S)|done|]. cbn [mbind option_bind fst snd].
    destruct (IH cf1 _ (Decl (d_required d) (d_named d) (<[k := kk]> (d_keys d))) Hcf1) as (cf' & -> & Hcf'); [|by rewrite lookup_insert_eq|done|done| | |].
    + destruct Hk as [H1 H2]. split; [done|]. intros n Hn. apply H2. destruct (decide (n = name)) as [->|Hne]; [by rewrite Hd|by rewrite lookup_insert_ne in Hn].
    + rewrite Forall_forall in Hks' |- *. intros [k' kk'] Hin. destruct (Hks' _ Hin) as [H1 H2]. split; [done|]. cbn. rewrite lookup_insert_ne; [done|].
      intros ->. apply Hni. apply list_elem_of_fmap. by exists (k', kk').
    + intros k' Hk'. cbn in Hk'. destruct (decide (k' = k)) as [->|Hne]; [done|]. rewrite lookup_insert_ne in Hk' by done. by apply Hdom.
    + exists cf'. split; [done|]. cbn [d_required d_named d_keys] in Hcf'. by rewrite insert_insert_eq in Hcf'.
Qed.
Lemma declare_spec (ds : list declaration) (cf : conffile) (ss : gmap text decl) (S : text -> Prop) :
  declared cf ss -> separate S -> NoDup (map n_name ds) -> Forall (fun d => S (n_name d) /\ ss !! n_name d = None /\ distinct (n_keys d).*1) ds ->
  (forall n, is_Some (ss !! n) -> S n) -> exists cf' : conffile, declare cf ds = Some cf' /\ declared cf' (sections_of ds ss).
Proof.
  intros Hcf HS. revert cf ss Hcf. induction ds as [|d ds IH]; intros cf ss Hcf Hnd Hds Hdom; cbn [declare sections_of fold_left]; [by exists cf|].
  apply NoDup_cons in Hnd as [Hni Hnd]. inversion Hds as [|? ? (HSn & Hno & Hkn & Hks) Hds']; subst.
  assert (apart_from (among ss) (n_name d)) as Hap by by apply (separate_apart S).
  destruct (add_section_spec cf ss (n_name d) (n_required d) (n_named d) (n_cb d) Hcf Hap Hno) as (cf1 & i & -> & Hcf1 & Hi).
  destruct (add_keys_spec (n_keys d) cf1 _ i (n_name d) (Decl (n_required d) (n_named d) ∅) (fun k => k ∈ (n_keys d).*1) Hcf1) as (cf2 & -> & Hcf2);
    [|by rewrite lookup_insert_eq|done|done|done| |by intros k []|].
  - destruct Hap as [H1 H2]. split; [done|]. intros n Hn Hp. destruct (decide (n = n_name d)) as [|Hne]; [done|]. rewrite lookup_insert_ne in Hn by done. by apply H2.
  - rewrite Forall_forall. intros e He. split; [by apply list_elem_of_fmap_2|]. apply lookup_empty.
  - cbn [mbind option_bind]. cbn [d_required d_named d_keys] in Hcf2. rewrite insert_insert_eq in Hcf2. fold (decl_of d) in Hcf2. apply (IH cf2 _ Hcf2 Hnd).
    + rewrite Forall_forall in Hds' |- *. intros e He. destruct (Hds' e He) as (H1 & H2 & H3). split; [done|]. split; [|done]. rewrite lookup_insert_ne; [done|].
      intros E. apply Hni. rewrite E. by apply list_elem_of_fmap_2.
    + intros n Hn. destruct (decide (n = n_name d)) as [->|Hne]; [done|]. rewrite lookup_insert_ne in Hn by done. by apply Hdom.
Qed.

(** ** The table for the script *)
Lemma fold_insert_values {A B} (name : A -> text) (g : A -> B) (P : list (text * A)) (t : gmap text B) (k : text) :
  Forall (fun e => name e.2 = e.1) P -> NoDup P.*1 ->
  fold_left (fun t s => <[name s := g s]> t) P.*2 t !! k = match list_to_map (M := gmap text A) P !! k with Some s => Some (g s) | None => t !! k end.
Proof.
  intros HP. revert t. induction HP as [|[n x] P Hn HP IH]; intros t Hnd; [done|]. apply NoDup_cons in Hnd as [Hni Hnd]. cbn in Hn, Hni |- *. subst n.
  rewrite IH by done. change (foldr _ ∅ P) with (list_to_map (M := gmap text A) P). destruct (decide (k = name x)) as [->|Hne].
  - rewrite (not_elem_of_list_to_map_1 (M := gmap text)) by done. by rewrite !lookup_insert_eq.
  - rewrite !lookup_insert_ne by done. done.
Qed.
Lemma fold_table_values {A B} (name : A -> text) (g : A -> B) (t : strtab A) (m : gmap text A) : tab_holds t m -> (forall n x, m !! n = Some x -> name x = n) ->
  fold_left (fun t s => <[name s := g s]> t) (str_values t) ∅ = g <$> m.
Proof.
  intros Ht Hname. destruct (str_values_holds t m Ht) as (P & HP & ->). apply map_eq. intros k.
  assert (NoDup P.*1) as Hnd by (rewrite HP; apply NoDup_fst_map_to_list). rewrite fold_insert_values; [|rewrite Forall_forall; intros [n x] Hin; rewrite HP, elem_of_map_to_list in Hin; by apply Hname|done].
  rewrite lookup_fmap, lookup_empty. rewrite (list_to_map_proper P (map_to_list m) Hnd HP), list_to_map_to_list. by destruct (m !! k).
Qed.

Definition build_decl (d : decl) : lsection := Lsection (d_named d) (d_required d) false ((fun kk => Lkey (dk_required kk) (dk_type kk) None) <$> d_keys d) ∅.
Lemma build_declared (n : text) (d : decl) (s : section) : is_declared n d s -> build_section s = build_decl d.
Proof.
  intros (H1 & H2 & H3 & _ & H5). unfold build_section, build_decl. rewrite H2, H3. f_equal. unfold build_keys.
  rewrite (fold_table_values k_name _ _ _ H5). 
  - apply map_eq. intros k. rewrite !lookup_fmap, map_lookup_imap. by destruct (d_keys d !! k).
  - intros k x. rewrite map_lookup_imap. destruct (d_keys d !! k); [|done]. cbn. by intros [= <-].
Qed.
Lemma build_table (cf : conffile) (ss : gmap text decl) : declared cf ss -> __ina_build_section_table cf = build_decl <$> ss.
Proof.
  intros [_ (m & Hm & Hmatch)]. unfold __ina_build_section_table. rewrite (fold_table_values s_name build_section _ m Hm).
  - apply map_eq. intros n. rewrite !lookup_fmap. specialize (Hmatch n). destruct (m !! n), (ss !! n); try done. cbn. f_equal. by eapply build_declared.
  - intros n s Hs. specialize (Hmatch n). rewrite Hs in Hmatch. destruct (ss !! n); [|done]. by destruct Hmatch.
Qed.

Lemma new_table_holds (ss : gmap text decl) :
  table_holds ss [] ((fun s => Lsection (l_named s) (l_required s) (l_configured s) (l_keys s) (if l_named s then ∅ else l_children s)) <$> (build_decl <$> ss)).
Proof.
  intros n. rewrite !lookup_fmap. destruct (ss !! n) as [s|]; [|done]. cbn.
  split; try done; cbn.
  - intros k. rewrite lookup_fmap. destruct (d_keys s !! k); [|done]. cbn. by destruct (d_named s).
  - intros name. destruct (d_named s); done.
Qed.
(** The script succeeds exactly on a valid configuration. *)
Lemma process_script_spec (ss : gmap text decl) (bs : list block) :
  match process_script bs (build_decl <$> ss) with
  | Some t => config_ok ss bs /\ table_holds ss bs t
  | None => ~ config_ok ss bs
  end.
Proof.
  unfold process_script. pose proof (run_blocks_spec ss bs [] _ (new_table_holds ss)) as Hr.
  destruct (run_blocks bs _) as [t|]; cbn [option_bind mbind]; [|intros [H _]; by apply Hr].
  cbn [app] in Hr. destruct Hr as [Hv Ht]. destruct (existsb _ (map_to_list t)) eqn:He.
  - intros [_ Hreq]. apply existsb_exists in He as ([n l] & Hin%list_elem_of_In%elem_of_map_to_list & Hb).
    cbn in Hb. apply andb_true_iff in Hb as [Hr Hc]. specialize (Ht n). rewrite Hin in Ht.
    destruct (ss !! n) as [s|] eqn:Hs; [|done]. rewrite (h_required _ _ _ _ Ht) in Hr.
    rewrite (h_configured _ _ _ _ Ht), (Hreq n s Hs Hr) in Hc. done.
  - split; [|done]. split; [done|]. intros n s Hs Hr. pose proof (Ht n) as Hn. rewrite Hs in Hn.
    destruct (t !! n) as [l|] eqn:Hl; [|done]. rewrite <- (h_configured _ _ _ _ Hn).
    destruct (l_configured l) eqn:Hc; [done|]. apply not_true_iff_false in He. destruct He. apply existsb_exists. exists (n, l).
    split; [by apply list_elem_of_In, elem_of_map_to_list|]. cbn. rewrite Hc, (h_required _ _ _ _ Hn), Hr. done.
Qed.

Lemma given_elsewhere (bs : list block) (sname : text) (name : option text) (k : text) :
  (forall b, b ∈ bs -> in_block sname name b = false) -> given bs sname name k = None.
Proof.
  intros Hb. unfold given, last_content. destruct name as [name|].
  - enough (forall c, fold_left (fun c b => if in_block sname (Some name) b then Some (b_content b) else c) bs c = c)
      as -> by done.
    induction bs as [|b bs IH]; intros c; [done|]. cbn. rewrite Hb by apply list_elem_of_here. apply IH.
    intros; apply Hb; by apply list_elem_of_further.
  - enough (forall v : option lua_value, fold_left (fun v b => if in_block sname None b then
      match b_content b !! k with Some x => Some x | None => v end else v) bs v = v) as -> by done.
    induction bs as [|b bs IH]; intros v; [done|]. cbn. rewrite Hb by apply list_elem_of_here. apply IH.
    intros; apply Hb; by apply list_elem_of_further.
Qed.

Lemma given_unconfigured (bs : list block) (sname : text) (name : option text) (k : text) (s : decl) :
  existsb (configures sname s) bs = false -> (is_Some name <-> d_named s = true) -> given bs sname name k = None.
Proof.
  intros Hc Hname. apply given_elsewhere. intros b Hb. destruct (in_block sname name b) eqn:E; [|done].
  apply not_true_iff_false in Hc. destruct Hc. apply existsb_exists. exists b. split; [by apply list_elem_of_In|].
  unfold in_block in E. unfold configures. apply andb_true_iff in E as [-> Hn%bool_decide_eq_true_1]. rewrite Hn. cbn [andb].
  destruct name as [name|]; [by rewrite bool_decide_eq_false_2, andb_false_r by done|].
  destruct (d_named s); [|done]. by destruct Hname as [_ [? [=]]].
Qed.

Lemma last_content_in (bs : list block) (sname name : text) (c : gmap text lua_value) :
  last_content bs sname name = Some c -> exists b, b ∈ bs /\ b_section b = sname /\ b_name b = Some name.
Proof.
  unfold last_content. intros H. assert ((None : option (gmap text lua_value)) = Some c \/
    exists b, b ∈ bs /\ b_section b = sname /\ b_name b = Some name) as [[=]|Hb]; [|done].
  revert H. generalize (None : option (gmap text lua_value)) as c0. induction bs as [|b bs IH]; intros c0 H; [by left|].
  cbn in H. apply IH in H as [H|(b' & Hin & Hb)]; [|right; exists b'; split; [by apply list_elem_of_further|done]].
  destruct (in_block sname (Some name) b) eqn:E; [|by left]. right. exists b. split; [by apply list_elem_of_here|].
  unfold in_block in E. by apply andb_true_iff in E as [?%bool_decide_eq_true_1 ?%bool_decide_eq_true_1].
Qed.

(** ** The import *)
Hypothesis lua_order_visits : forall V (m : gmap text V), lua_order V m ≡ₚ map_to_list m.

Lemma entries_holds (S : text -> Prop) (keys : gmap text (value_type * lua_value)) : separate S -> (forall k, is_Some (keys !! k) -> S k) ->
  tab_holds (__ina_process_entries keys) (to_entry <$> keys).
Proof.
  intros HS Hk. pose proof (fold_set_map S (fun _ => to_entry) _ keys str_new HS (lua_order_visits _ keys) Hk new_tab) as H.
  replace (to_entry <$> keys) with (map_imap (fun _ a => Some (to_entry a)) keys); [exact H|]. apply map_eq. intros k. rewrite map_lookup_imap, lookup_fmap. by destruct (keys !! k).
Qed.

(** What the import makes of a section. *)
Definition imported (o : option lsection) (s : section) : section :=
  match o with Some l => if l_configured l then import_section l s else s | None => s end.
Lemma import_list_holds (S : text -> Prop) (ls : list (text * lsection)) (st : strtab section) (m : gmap text section) : separate S ->
  (forall n, is_Some (m !! n) -> S n) -> NoDup ls.*1 -> Forall (fun e => is_Some (m !! e.1)) ls -> tab_holds st m ->
  exists st' : strtab section, import_list ls st = Some st' /\
    tab_holds st' (map_imap (fun n s => Some (imported (list_to_map (M := gmap text lsection) ls !! n) s)) m).
Proof.
  intros HS. revert st m. induction ls as [|[n l] ls IH]; intros st m Hm Hnd Hls Ht; cbn [import_list].
  - exists st. split; [done|]. replace (map_imap _ m) with m; [done|]. apply map_eq. intros k. rewrite map_lookup_imap. by destruct (m !! k).
  - apply NoDup_cons in Hnd as [Hni Hnd]. inversion Hls as [|? ? Hn Hls']; subst. cbn in Hni, Hn.
    assert (list_to_map (M := gmap text lsection) ls !! n = None) as Hno by by apply not_elem_of_list_to_map_1.
    assert (forall m1, (l_configured l = false -> m1 = m) -> (l_configured l = true -> m1 = alter (import_section l) n m) ->
      map_imap (fun k s => Some (imported (list_to_map (M := gmap text lsection) ls !! k) s)) m1 =
      map_imap (fun k s => Some (imported (list_to_map (M := gmap text lsection) ((n, l) :: ls) !! k) s)) m) as Heq.
    { intros m1 H0 H1. apply map_eq. intros k. rewrite !map_lookup_imap. cbn [list_to_map foldr uncurry]. change (foldr _ ∅ ls) with (list_to_map (M := gmap text lsection) ls).
      destruct (decide (k = n)) as [->|Hne].
      - cbn. rewrite lookup_insert_eq, Hno. destruct (l_configured l) eqn:Hc; [rewrite (H1 eq_refl), lookup_alter_eq|rewrite (H0 eq_refl)]; destruct (m !! n); try done; cbn; by rewrite Hc.
      - cbn. rewrite lookup_insert_ne by done. destruct (l_configured l) eqn:Hc; [by rewrite (H1 eq_refl), lookup_alter_ne|by rewrite (H0 eq_refl)]. }
    destruct (l_configured l) eqn:Hc.
    + assert (apart_from (among m) n) as Hap by (apply (separate_apart S); [done|by apply Hm|done]).
      pose proof (str_find_some st m n Ht Hap) as Hf. destruct Hn as [s Hs]. rewrite Hs in Hf. destruct Hf as (i & Hi & _). rewrite Hi. cbn [mbind option_bind].
      destruct (IH (str_alter (import_section l) i st) (alter (import_section l) n m)) as (st' & -> & Hst').
      * intros k. rewrite lookup_alter_is_Some. apply Hm.
      * done.
      * eapply Forall_impl; [exact Hls'|]. intros e He. by rewrite lookup_alter_is_Some.
      * by apply str_alter_holds.
      * exists st'. split; [done|]. by rewrite (Heq (alter (import_section l) n m)) in Hst'.
    + destruct (IH st m Hm Hnd Hls' Ht) as (st' & -> & Hst'). exists st'. split; [done|]. by rewrite (Heq m) in Hst'.
Qed.
Lemma import_holds (cf : conffile) (ss : gmap text decl) (bs : list block) (t : gmap text lsection) : declared cf ss -> separate (among ss) -> table_holds ss bs t ->
  exists (st' : strtab section) (m : gmap text section), import_sections t (cf_sections cf) = Some st' /\ matching ss m /\
    tab_holds st' (map_imap (fun n s => Some (imported (t !! n) s)) m).
Proof.
  intros [_ (m & Hm & Hmatch)] HS Ht. assert (NoDup (lua_order _ t).*1) as Hnd by (rewrite lua_order_visits; apply NoDup_fst_map_to_list).
  destruct (import_list_holds (among ss) (lua_order _ t) (cf_sections cf) m) as (st' & Hst & Hst'); [done| |done| |done|].
  - intros n Hn. by apply (matching_dom ss m).
  - rewrite Forall_forall. intros [n l] Hin. rewrite lua_order_visits, elem_of_map_to_list in Hin. apply (matching_dom ss m n Hmatch). specialize (Ht n). rewrite Hin in Ht. by destruct (ss !! n).
  - exists st', m. split; [done|]. split; [done|].
    rewrite (list_to_map_proper (M := gmap text) _ (map_to_list t) Hnd (lua_order_visits _ t)), list_to_map_to_list in Hst'. done.
Qed.

(** The blocks that a lookup has to tell apart: those of the section, and the one that is
    looked for. *)
Definition names_near (bs : list block) (sname : text) (name : option text) (n : text) : Prop :=
  name = Some n \/ exists b, b ∈ bs /\ b_section b = sname /\ b_name b = Some n.
Definition typed (d : decl) (c : gmap text lua_value) : gmap text (value_type * lua_value) := map_imap (fun k v => x ← c !! k; Some (dk_type v, x)) (d_keys d).

Lemma named_value (bs : list block) (sname name k : text) (d : decl) (kk : dkey) (l : lsection) (s : section) : holds bs sname d l -> s_entries s = str_new ->
  d_named d = true -> l_named l = true -> separate (names_near bs sname (Some name)) -> separate (among (d_keys d)) -> d_keys d !! k = Some kk ->
  match str_get (s_entries (import_section l s)) name with Some es => str_get (e_entries es) k | None => None end =
  (fun v => to_entry (dk_type kk, v)) <$> given bs sname (Some name) k.
Proof.
  intros Hl He Hn Hln HS HK Hk. unfold import_section. rewrite Hln, He. cbn [negb with_entries s_entries].
  assert (forall n, is_Some (l_children l !! n) -> names_near bs sname (Some name) n) as Hdom.
  { intros n. rewrite (h_children _ _ _ _ Hl), Hn. destruct (last_content bs sname n) as [c|] eqn:Hc; [|by intros []].
    intros _. right. by apply (last_content_in bs sname n c). }
  pose proof (fold_set_map (names_near bs sname (Some name)) (fun n c => Entries n (__ina_process_entries c)) _ (l_children l) str_new HS (lua_order_visits _ _) Hdom new_tab) as Ht.
  cbn [fst snd] in Ht. rewrite (str_get_holds _ _ name Ht).
  2: { apply (separate_apart (names_near bs sname (Some name))); [done|by left|]. intros n. rewrite map_lookup_imap. intros H. apply Hdom. destruct (l_children l !! n); [by eexists|by destruct H]. }
  rewrite map_lookup_imap, (h_children _ _ _ _ Hl), Hn. unfold given. destruct (last_content bs sname name) as [c|]; [|done]. cbn [fmap option_fmap option_map mbind option_bind e_entries].
  assert (forall x, is_Some (typed d c !! x) -> is_Some (d_keys d !! x)) as Hdk by (intros x; unfold typed; rewrite map_lookup_imap; destruct (d_keys d !! x); [by eexists|by intros []]).
  fold (typed d c). rewrite (str_get_holds _ (to_entry <$> typed d c) k); [|by apply (entries_holds (among (d_keys d)))|].
  - unfold typed. rewrite lookup_fmap, map_lookup_imap, Hk. cbn. by destruct (c !! k).
  - apply (separate_apart (among (d_keys d))); [done|by eexists|]. intros x. rewrite lookup_fmap, fmap_is_Some. apply Hdk.
Qed.
Lemma default_proper : proper default_name.
Proof. split; [done|]. unfold default_name. cbn. repeat constructor. Qed.
Lemma plain_value (bs : list block) (sname k : text) (d : decl) (kk : dkey) (l : lsection) (s : section) : holds bs sname d l -> s_entries s = str_new ->
  d_named d = false -> l_named l = false -> separate (among (d_keys d)) -> d_keys d !! k = Some kk ->
  match str_get (s_entries (import_section l s)) default_name with Some es => str_get (e_entries es) k | None => None end =
  (fun v => to_entry (dk_type kk, v)) <$> given bs sname None k.
Proof.
  intros Hl He Hn Hln HK Hk. unfold import_section. rewrite Hln, He. cbn [negb with_entries s_entries]. set (keys := omap _ (l_keys l)).
  assert (apart_from (among (∅ : gmap text entries)) default_name) as Hap by (split; [apply default_proper|by intros x []]).
  rewrite (str_get_holds _ (<[default_name := Entries default_name (__ina_process_entries keys)]> ∅)).
  2: { apply str_set_holds; [apply new_tab|done]. }
  2: { split; [apply default_proper|]. intros x Hx _. destruct (decide (x = default_name)) as [|Hne]; [done|]. rewrite lookup_insert_ne in Hx by done. by destruct Hx. }
  rewrite lookup_insert_eq. cbn [e_entries].
  assert (forall x, is_Some (keys !! x) -> is_Some (d_keys d !! x)) as Hdk.
  { intros x. subst keys. rewrite lookup_omap, (h_keys _ _ _ _ Hl). destruct (d_keys d !! x); [by eexists|by intros []]. }
  rewrite (str_get_holds _ (to_entry <$> keys) k); [|by apply (entries_holds (among (d_keys d)))|].
  - subst keys. rewrite lookup_fmap, lookup_omap, (h_keys _ _ _ _ Hl), Hk, Hn. cbn. by destruct (fold_left _ bs None).
  - apply (separate_apart (among (d_keys d))); [done|by eexists|]. intros x. rewrite lookup_fmap, fmap_is_Some. apply Hdk.
Qed.

Lemma import_value (cf cf' : conffile) (ss : gmap text decl) (bs : list block) (t : gmap text lsection) (sname : text) (name : option text) (k : text) (d : decl) (kk : dkey) :
  declared cf ss -> separate (among ss) -> table_holds ss bs t -> import_sections t (cf_sections cf) = Some (cf_sections cf') ->
  ss !! sname = Some d -> separate (among (d_keys d)) -> d_keys d !! k = Some kk -> (is_Some name <-> d_named d = true) -> separate (names_near bs sname name) ->
  found (__ina_get_value cf' sname name k) = (fun v => to_entry (dk_type kk, v)) <$> given bs sname name k.
Proof.
  intros Hcf HS Ht Himp Hd HK Hk Hname HN. destruct (import_holds cf ss bs t Hcf HS Ht) as (st' & m & Hst & Hmatch & Hst'). assert (st' = cf_sections cf') as -> by congruence.
  unfold __ina_get_value. rewrite (str_get_holds _ _ sname Hst').
  2: { apply (separate_apart (among ss)); [done|by eexists|]. intros n. rewrite map_lookup_imap. intros H. apply (matching_dom ss m n Hmatch). destruct (m !! n); [by eexists|by destruct H]. }
  rewrite map_lookup_imap. pose proof (Hmatch sname) as Hm. pose proof (Ht sname) as Hl. rewrite Hd in Hm, Hl. destruct (m !! sname) as [s|]; [|done]. cbn [mbind option_bind].
  destruct (t !! sname) as [l|]; [|done]. destruct Hm as (_ & _ & _ & He & _). unfold imported. pose proof (h_named _ _ _ _ Hl) as Hln.
  assert (forall o : option entries, found (match o with None => Err (Z.lor (INA_ES S_SECTION) (INA_ERR E_EMPTY))
    | Some es => match str_get (e_entries es) k with None => Err (Z.lor (INA_ES S_KEY) (INA_ERR_NOT_ E_EXISTS)) | Some e => Ok e end end) =
    match o with Some es => str_get (e_entries es) k | None => None end) as Hfound.
  { intros [es|]; [|done]. by destruct (str_get (e_entries es) k). }
  rewrite Hfound. clear Hfound. destruct (l_configured l) eqn:Hc.
  - destruct name as [name|]; cbn [default].
    + apply (named_value bs sname name k d kk l s); try done; [|rewrite Hln]; apply Hname; by eexists.
    + assert (d_named d = false) as Hdn by (destruct (d_named d); [by destruct (proj2 Hname eq_refl)|done]). apply (plain_value bs sname k d kk l s); try done. by rewrite Hln.
  - rewrite He, (str_get_holds _ ∅ _ new_tab).
    + rewrite lookup_empty. rewrite (given_unconfigured bs sname name k d); [done| |done]. by rewrite <- (h_configured _ _ _ _ Hl).
    + split; [|by intros x []]. destruct name as [name|]; [|apply default_proper]. apply HN. by left.
Qed.
End Configuration.

Arguments EString {num} _.
Arguments ENumber {num} _.
Arguments LString {num} _.
Arguments LNumber {num} _.
Arguments Block {num} _ _ _.
Arguments Conf {num U} _ _ _.
Arguments cf_sections {num U} _.
Arguments Declaration {num U} _ _ _ _ _.
Arguments n_name {num U} _.
Arguments n_keys {num U} _.
Arguments decl_of {num U} _.
Arguments sections_of {num U} _ _.
Arguments distinct_names {num U} _.
Arguments declare {num U} _ _.
Arguments config_ok {num} _ _.
Arguments given {num} _ _ _ _.
Arguments names_near {num} _ _ _ _.
Arguments to_entry {num} _ _ _ _.
Arguments string_of {num} _.
Arguments number_of {num} _.
Arguments ina_conffile_process_string {num U} _ _ _ _ _ _ _.
Arguments ina_conffile_get_string {num U} _ _ _ _.
Arguments ina_conffile_get_number {num U} _ _ _ _.

Lemma keys_of_in (ks : list (text * dkey)) (m : gmap text dkey) (k : text) : is_Some (keys_of ks m !! k) -> k ∈ ks.*1 \/ is_Some (m !! k).
Proof.
  revert m. induction ks as [|[k' kk] ks IH]; intros m H; [by right|]. cbn in H |- *. rewrite elem_of_cons. apply IH in H as [H|H]; [tauto|].
  destruct (decide (k = k')) as [->|Hne]; [tauto|]. rewrite lookup_insert_ne in H by done. tauto.
Qed.
Lemma sections_of_in {num U} (ds : list (declaration num U)) (m : gmap text decl) (n : text) (d : decl) : sections_of ds m !! n = Some d ->
  (exists x, x ∈ ds /\ n_name x = n /\ d = decl_of x) \/ m !! n = Some d.
Proof.
  revert m. induction ds as [|x ds IH]; intros m H; [by right|]. cbn in H. apply IH in H as [(y & Hy & H)|H]; [left; exists y; split; [by right|done]|].
  destruct (decide (n = n_name x)) as [->|Hne]; [rewrite lookup_insert_eq in H; injection H as <-; left; exists x; split; [by left|done]|].
  rewrite lookup_insert_ne in H by done. by right.
Qed.
Lemma distinct_separate {num U} (ds : list (declaration num U)) : distinct_names ds ->
  separate (fun n => is_Some (sections_of ds ∅ !! n)) /\ forall n d, sections_of ds ∅ !! n = Some d -> separate (fun k => is_Some (d_keys d !! k)).
Proof.
  intros [[_ HS] HK]. split.
  - apply (separate_mono _ _ HS). intros n [d Hd]. apply sections_of_in in Hd as [(x & Hx & <- & _)|Hd]; [by apply list_elem_of_fmap_2|by rewrite lookup_empty in Hd].
  - intros n d Hd. apply sections_of_in in Hd as [(x & Hx & _ & ->)|Hd]; [|by rewrite lookup_empty in Hd]. rewrite Forall_forall in HK. destruct (HK x Hx) as [_ H].
    apply (separate_mono _ _ H). intros k Hk. by apply keys_of_in in Hk as [Hk|[]].
Qed.

(** C24. A configuration has the values its file gives.  A program declares
    sections and keys whose names the tables can tell apart: no name is empty, and
    the first 16 bytes of none begin with those of another.  It then reads a sequence of
    blocks.  If every block calls a declared section with its required keys and every
    required section is configured, the file is processed, and the lookup of a declared
    key in a block, whose name the tables can tell from those of the other blocks of its
    section, gives the value of the blocks with its declared type, blocks of a section
    without names adding up and a later block with a name replacing an earlier one;
    otherwise processing fails with the code for scripts, and no section and nothing of
    the program changes. *)
Theorem configuration_has_given_values {num U : Type} (number_text : num -> text) (text_number : text -> num)
    (getenv : text -> option text) (lua_order : forall V, gmap text V -> list (text * V)) (ds : list (declaration num U)) (bs : list (block num)) (u : U) :
  (forall V (m : gmap text V), lua_order V m ≡ₚ map_to_list m) -> distinct_names ds ->
  exists cf cf' u' r, declare (ina_conffile_new num U) ds = Some cf /\
    ina_conffile_process_string number_text text_number getenv lua_order cf bs u = Some (cf', u', r) /\
    ((config_ok (sections_of ds ∅) bs /\
      forall (sname : text) (name : option text) (k : text) (d : decl) (kk : dkey),
        sections_of ds ∅ !! sname = Some d -> d_keys d !! k = Some kk ->
        (is_Some name <-> d_named d = true) -> separate (names_near bs sname name) ->
        let e := (fun v => to_entry number_text text_number getenv (dk_type kk, v)) <$> given bs sname name k in
        ina_conffile_get_string cf' sname name k = string_of e /\
        ina_conffile_get_number cf' sname name k = number_of e) \/
     (~ config_ok (sections_of ds ∅) bs /\ r = Err SCRIPT_FAILED /\
      cf_sections cf' = cf_sections cf /\ u' = u)).
Proof.
  intros Horder Hds. destruct (distinct_separate ds Hds) as [HS HK]. destruct Hds as [[Hnd HSn] Hks].
  destruct (declare_spec num U ds (ina_conffile_new num U) ∅ (fun k => k ∈ map n_name ds)) as (cf & Hcf & Hdecl); [apply new_declared|done|done| |by intros n []|].
  { rewrite Forall_forall in Hks |- *. intros d Hd. split; [by apply list_elem_of_fmap_2|]. split; [apply lookup_empty|by apply Hks]. }
  pose proof (dc_new _ _ _ _ Hdecl) as [Hp _]. exists cf. unfold ina_conffile_process_string. rewrite Hp, (build_table num U cf _ Hdecl). cbn [option_bind mbind].
  pose proof (process_script_spec num (sections_of ds ∅) bs) as Hs. destruct (process_script num bs _) as [t|].
  - destruct Hs as [Hok Ht]. destruct (import_holds num U number_text text_number getenv lua_order Horder cf _ bs t Hdecl HS Ht) as (st & m & Hst & _).
    rewrite Hst. cbn [option_bind mbind]. destruct (call_sections _ _ _ _) as [u' r]. do 3 eexists. split; [done|]. split; [reflexivity|].
    left. split; [done|]. intros sname name k d kk Hd Hk Hname Hnear. unfold ina_conffile_get_string, ina_conffile_get_number.
    rewrite (import_value num U number_text text_number getenv lua_order Horder cf (Conf st true (Some t)) _ bs t sname name k d kk Hdecl HS Ht Hst Hd (HK sname d Hd) Hk Hname Hnear).
    done.
  - do 3 eexists. split; [done|]. split; [reflexivity|]. right. done.
Qed.

(** ** A configuration with a section of each kind *)
Definition demo_number (s : text) : Z := value s.
Definition demo_order (V : Type) (m : gmap text V) : list (text * V) := map_to_list m.
Abbreviation str := bytes_of_string.

Definition demo : list (declaration Z unit) :=
  [Declaration (str "global") true false None [(str "buffer_size", Dkey false INA_CONFFILE_VALUE_TYPE_NUMBER)];
   Declaration (str "rule") false true None [(str "target", Dkey true INA_CONFFILE_VALUE_TYPE_STRING)]].
Definition demo_file : list (block Z) :=
  [Block (str "global") None (<[str "buffer_size" := LNumber 512]> ∅);
   Block (str "rule") (Some (str "*.INFO")) (<[str "target" := LString (str ">stdout")]> ∅);
   Block (str "rule") (Some (str "*.INFO")) (<[str "target" := LString (str "$ENV:LOG")]> ∅)].
Definition demo_env (name : text) : option text := if bool_decide (name = str "LOG") then Some (str "/tmp/log") else None.
Abbreviation demo_process := (ina_conffile_process_string (fun _ => [49]) demo_number demo_env demo_order).

(** Whether names are apart can be computed for a list. *)
Definition separate_list (l : list text) : bool :=
  forallb (fun k => negb (bool_decide (k = [])) && forallb (fun c => 0 <? c) k) l &&
  forallb (fun a => forallb (fun b => bool_decide (b = a) || negb (bool_decide (key_str a `prefix_of` key_str b))) l) l.
Lemma separate_list_spec (l : list text) : separate_list l = true -> separate (fun k => k ∈ l).
Proof.
  unfold separate_list. rewrite andb_true_iff, !forallb_forall. intros [H1 H2]. split.
  - intros k Hk%list_elem_of_In. specialize (H1 k Hk). apply andb_true_iff in H1 as [Hne Hc]. split; [by apply negb_true_iff, bool_decide_eq_false_1 in Hne|].
    rewrite Forall_forall. intros c Hc'%list_elem_of_In. rewrite forallb_forall in Hc. apply Z.ltb_lt. by apply Hc.
  - intros a b Ha%list_elem_of_In Hb%list_elem_of_In Hp. specialize (H2 a Ha). rewrite forallb_forall in H2. specialize (H2 b Hb).
    apply orb_true_iff in H2 as [H2|H2]; [by apply bool_decide_eq_true_1 in H2|]. apply negb_true_iff, bool_decide_eq_false_1 in H2. done.
Qed.
Lemma demo_distinct : distinct_names demo.
Proof.
  split; [split; [|by apply separate_list_spec]|].
  - apply NoDup_cons. split; [|apply NoDup_singleton]. by intros H%list_elem_of_singleton.
  - repeat apply Forall_cons_2; [..|apply Forall_nil_2]; (split; [apply NoDup_singleton|by apply separate_list_spec]).
Qed.
Lemma demo_near (sname : text) (name : option text) : sname = str "global" /\ name = None \/ sname = str "rule" /\ name = Some (str "*.INFO") ->
  separate (names_near demo_file sname name).
Proof.
  intros H. apply (separate_mono (fun k => k ∈ [str "*.INFO"])); [by apply separate_list_spec|]. intros k [Hk|(b & Hb & _ & Hk)].
  - destruct H as [[_ ->]|[_ ->]]; [done|]. injection Hk as <-. by left.
  - unfold demo_file in Hb. rewrite !elem_of_cons in Hb. destruct Hb as [->|[->|[->|Hb]]]; [done|injection Hk as <-; by left..|by apply elem_of_nil in Hb].
Qed.
Lemma configuration_has_given_values_witness :
  exists cf cf' u' r, declare (ina_conffile_new Z unit) demo = Some cf /\ demo_process cf demo_file tt = Some (cf', u', r) /\
    (r = Err SCRIPT_FAILED \/
     ina_conffile_get_number cf' (str "global") None (str "buffer_size") = Ok 512 /\
     ina_conffile_get_string cf' (str "rule") (Some (str "*.INFO")) (str "target") = Ok (str "/tmp/log")).
Proof.
  destruct (configuration_has_given_values (fun _ => [49]) demo_number demo_env demo_order demo demo_file tt ltac:(done) demo_distinct)
    as (cf & cf' & u' & r & Hcf & H & [[_ Hget]|(_ & Hr & _)]).
  - exists cf, cf', u', r. split; [exact Hcf|]. split; [exact H|right]. split.
    + refine (proj2 (Hget (str "global") None (str "buffer_size") _ _ eq_refl eq_refl _ _)).
      * split; [intros [x Hx]; discriminate Hx|intros Hx; discriminate Hx].
      * apply demo_near. left. split; reflexivity.
    + refine (proj1 (Hget (str "rule") (Some (str "*.INFO")) (str "target") _ _ eq_refl eq_refl _ _)).
      * split; [done|by intros _; exists (str "*.INFO")].
      * apply demo_near. right. split; reflexivity.
  - exists cf, cf', u', r. split; [exact Hcf|]. split; [exact H|by left].
Defined.

(** Where the check of a file is weaker than its declaration: a text is accepted
    for a number and read as one, and a block of a section with names that gives
    no name is dropped. *)
Definition demo_run {A : Type} (look : conffile Z unit -> A) (ds : list (declaration Z unit)) (bs : list (block Z)) : option (A * result unit) :=
  cf ← declare (ina_conffile_new Z unit) ds; '(cf, _, r) ← demo_process cf bs tt; Some (look cf, r).
Theorem conffile_defects :
  demo_run (fun cf => ina_conffile_get_number cf (str "global") None (str "buffer_size")) demo
    [Block (str "global") None (<[str "buffer_size" := LString (str "big")]> ∅)] = Some (Ok 0, Ok tt) /\
  demo_run (fun cf => option_map (fun s => length (str_values (s_entries Z unit s))) (str_get (cf_sections cf) (str "rule"))) demo
    [Block (str "global") None ∅; Block (str "rule") None ∅] = Some (Some 0%nat, Ok tt).
Proof. split; vm_compute; reflexivity. Qed.

(** Names that the tables do not tell apart: of two keys with the same first 16 bytes the second
    is refused, and the lookup of a key finds the value of another that begins with it, if they
    are in the same bucket. *)
Definition demo_keys (keys : list string) : list (declaration Z unit) :=
  [Declaration (str "global") true false None (map (fun k => (str k, Dkey false INA_CONFFILE_VALUE_TYPE_STRING)) keys)].
Theorem names_are_cut :
  demo_run (fun _ => tt) (demo_keys ["maximum_log_file_size"; "maximum_log_file_count"]%string) [] = None /\
  demo_run (fun cf => ina_conffile_get_string cf (str "global") None (str "log")) (demo_keys ["log"; "log_file"]%string)
    [Block (str "global") None (<[str "log_file" := LString (str "/tmp/log")]> ∅)] = Some (Ok (str "/tmp/log"), Ok tt).
Proof. split; vm_compute; reflexivity. Qed.

End Conffile.
