(* ===== verification/Log.v ===== *)
(** * Logging (log.c)

    A log context has the targets of its category: the rules of a configuration
    file (Conffile) give the level and the place of each.  A message is written
    to every target whose level it has; a file may be behind a buffer.

    The files, the two standard streams and the system log are a world that the
    operations thread.  What the standard library buffers in a [FILE] counts as
    written, files can be opened and memory is there; the time is an argument as
    [strftime] prints it, and a message comes formatted.  A store behind the
    buffer of a target makes an operation [None]. *)
From Stdlib Require Import ZArith Lia Bool String Permutation.
From stdpp Require Import base numbers option fin_maps gmap pretty list.
From S2P Require Import Prelude Error Libc Str StrTable Conffile.

Module Log.
Import Error Libc StrTable Conffile.

(** ** The world *)

Record world := World { w_files : gmap text text; w_out : text; w_err : text; w_syslog : list (text * Z * text) }.

Inductive mode : Set := Truncate | Append.

(** A [FILE]: a standard stream, or an open file with its position. *)
Inductive stream : Set := Stdout | Stderr | Fstream (path : text) (m : mode) (pos : nat).

Definition set_file (p : text) (c : text) (w : world) : world :=
  World (<[p := c]> (w_files w)) (w_out w) (w_err w) (w_syslog w).
Definition content (w : world) (p : text) : text := default [] (w_files w !! p).

Definition fopen (p : text) (m : mode) (w : world) : world * stream :=
  match m with
  | Truncate => (set_file p [] w, Fstream p m 0)
  | Append => (set_file p (content w p) w, Fstream p m (length (content w p)))
  end.

(** A write replaces what is behind the position; with "a" it goes to the end. *)
Definition fputs (s : stream) (msg : text) (w : world) : world * stream :=
  match s with
  | Stdout => (World (w_files w) (w_out w ++ msg) (w_err w) (w_syslog w), s)
  | Stderr => (World (w_files w) (w_out w) (w_err w ++ msg) (w_syslog w), s)
  | Fstream p Append _ =>
      let c := content w p ++ msg in (set_file p c w, Fstream p Append (length c))
  | Fstream p Truncate pos =>
      let c := content w p in
      (set_file p (take pos c ++ replicate (pos - length c) 0 ++ msg ++ drop (pos + length msg) c) w,
       Fstream p Truncate (pos + length msg))
  end.

(** ** Targets *)

Inductive ina_log_level : Set := INA_LOG_LEVEL_DEBUG | INA_LOG_LEVEL_INFO | INA_LOG_LEVEL_WARNING | INA_LOG_LEVEL_ERROR.
Definition level_value (l : ina_log_level) : Z :=
  match l with INA_LOG_LEVEL_DEBUG => 1 | INA_LOG_LEVEL_INFO => 2 | INA_LOG_LEVEL_WARNING => 4 | INA_LOG_LEVEL_ERROR => 8 end.

Inductive ina_log_target : Set := INA_LOG_STDOUT | INA_LOG_STDERR | INA_LOG_FILE | INA_LOG_SYSLOG.
Inductive write_fn : Set := write_to_file | write_to_buffer | write_to_syslog.

(** [struct __ina_target_s]; the buffer has the bytes before [buffer_pos]. *)
Record target := Target {
  t_write : option write_fn; t_filepath : text; t_ident : text; t_level : Z; t_type : ina_log_target;
  t_size : Z; t_mode : mode; t_buffer : option text; t_fp : option stream
}.
Definition pending (t : target) : text := default [] (t_buffer t).
Definition set_fp (fp : option stream) (t : target) : target :=
  Target (t_write t) (t_filepath t) (t_ident t) (t_level t) (t_type t) (t_size t) (t_mode t) (t_buffer t) fp.
Definition set_buffer (b : text) (t : target) : target :=
  Target (t_write t) (t_filepath t) (t_ident t) (t_level t) (t_type t) (t_size t) (t_mode t) (Some b) (t_fp t).

(** The stream of a target, opened when it is not. *)
Definition open_target (t : target) (m : mode) (w : world) : world * stream :=
  match t_fp t with Some fp => (w, fp) | None => fopen (t_filepath t) m w end.

Definition __ina_write_to_file (t : target) (msg : text) (w : world) : world * target :=
  let '(w, fp) := open_target t (t_mode t) w in
  let '(w, fp) := fputs fp msg w in
  (w, set_fp (Some fp) t).

Definition __ina_write_to_buffer (t : target) (msg : text) (w : world) : option (world * target) :=
  let t := set_buffer (pending t) t in
  let '(w, t) :=
    if Z.of_nat (length (pending t)) <? Z.of_nat (length msg) + 1 then
      let '(w, fp) := open_target t (t_mode t) w in
      let '(w, _) := fputs fp (pending t) w in
      (w, set_fp None (set_buffer [] t))
    else (w, t) in
  if t_size t <? Z.of_nat (length (pending t ++ msg)) then None else
  Some (w, set_buffer (pending t ++ msg) t).

Definition syslog_priority (l : ina_log_level) : Z :=
  match l with INA_LOG_LEVEL_DEBUG => 7 | INA_LOG_LEVEL_INFO => 6 | INA_LOG_LEVEL_WARNING => 4 | INA_LOG_LEVEL_ERROR => 3 end.
Definition __ina_write_to_syslog (t : target) (l : ina_log_level) (msg : text) (w : world) : world :=
  World (w_files w) (w_out w) (w_err w) (w_syslog w ++ [(t_ident t, syslog_priority l, msg)]).

(** A target without a function is a call through a null pointer. *)
Definition write_target (t : target) (l : ina_log_level) (msg : text) (w : world) : option (world * target) :=
  match t_write t with
  | None => None
  | Some write_to_file => Some (__ina_write_to_file t msg w)
  | Some write_to_buffer => __ina_write_to_buffer t msg w
  | Some write_to_syslog => Some (__ina_write_to_syslog t l msg w, t)
  end.

Definition __ina_free_target (t : target) (w : world) : world :=
  match t_type t with
  | INA_LOG_FILE =>
      if bool_decide (pending t = []) then w else
      let '(w, fp) := open_target t Append w in fst (fputs fp (pending t) w)
  | _ => w
  end.

(** ** Contexts *)

Record log_ctx := Ctx { targets : list target; category : text; buffer_size : Z; pid : Z }.

(** [snprintf] into [buf2]; the character of a level is [c[level]]. *)
Definition level_chars : text := bytes_of_string " .- *   #".
Definition line (pid : Z) (l : ina_log_level) (stamp msg : text) : text :=
  take 2046 (bytes_of_string "[" ++ bytes_of_string (pretty pid) ++ bytes_of_string "] " ++ stamp ++
    bytes_of_string " " ++ [nth (Z.to_nat (level_value l)) level_chars 0] ++ bytes_of_string " " ++ msg ++ [10]).

Definition gets (t : target) (l : ina_log_level) : bool := negb (Z.land (t_level t) (level_value l) =? 0).

Fixpoint log_targets (ts : list target) (l : ina_log_level) (msg : text) (w : world) : option (world * list target) :=
  match ts with
  | [] => Some (w, [])
  | t :: ts =>
      '(w, t) ← (if gets t l then write_target t l msg w else Some (w, t));
      '(w, ts) ← log_targets ts l msg w;
      Some (w, t :: ts)
  end.

Definition set_targets (ts : list target) (c : log_ctx) : log_ctx := Ctx ts (category c) (buffer_size c) (pid c).

Definition __ina_log (c : log_ctx) (l : ina_log_level) (stamp msg : text) (w : world) : option (world * log_ctx) :=
  '(w, ts) ← log_targets (targets c) l (line (pid c) l stamp msg) w; Some (w, set_targets ts c).

(** [ina_list_foreach] with [__ina_free_target] *)
Definition ina_log_ctx_free (c : log_ctx) (w : world) : world := fold_left (fun w t => __ina_free_target t w) (targets c) w.

(** Messages one after the other. *)
Fixpoint log_all (c : log_ctx) (ms : list (ina_log_level * text * text)) (w : world) : option (world * log_ctx) :=
  match ms with
  | [] => Some (w, c)
  | (l, stamp, msg) :: ms => '(w, c) ← __ina_log c l stamp msg w; log_all c ms w
  end.

(** ** Delivery

    What a target is for, and what it gets of some messages. *)
Inductive dest : Set := ToOut | ToErr | ToSyslog (ident : text) | ToFile (path : text).
Definition dest_of (t : target) : dest :=
  match t_type t with
  | INA_LOG_STDOUT => ToOut | INA_LOG_STDERR => ToErr
  | INA_LOG_SYSLOG => ToSyslog (t_ident t) | INA_LOG_FILE => ToFile (t_filepath t)
  end.
#[export] Instance dest_eq_dec : EqDecision dest.
Proof. solve_decision. Defined.

Definition message : Type := ina_log_level * text.
Definition lines (p : Z) (ms : list (ina_log_level * text * text)) : list message :=
  map (fun '(l, stamp, msg) => (l, line p l stamp msg)) ms.
Definition got (t : target) (m : message) : text := if gets t (fst m) then snd m else [].
Definition share (d : dest) (ts : list target) (m : message) : text :=
  concat (map (fun t => if decide (dest_of t = d) then got t m else []) ts).
Definition entry_of (m : message) (t : target) : option (text * Z * text) :=
  match dest_of t with
  | ToSyslog i => if gets t (fst m) then Some (i, syslog_priority (fst m), snd m) else None
  | _ => None
  end.

(** What the buffer holds after another message; it is in bounds. *)
Definition fill (p l : Z) : Z := if p <? l + 1 then l else p + l.
Fixpoint fits (size p : Z) (t : target) (ms : list message) : bool :=
  match ms with
  | [] => true
  | m :: ms =>
      if gets t (fst m) then
        let p := fill p (Z.of_nat (length (snd m))) in (p <=? size) && fits size p t ms
      else fits size p t ms
  end.
Definition room (t : target) (ms : list message) : Prop :=
  t_write t = Some write_to_buffer -> fits (t_size t) (Z.of_nat (length (pending t))) t ms = true.

(** The targets a context is made with, and those it has later. *)
Definition wf (t : target) : Prop :=
  match dest_of t, t_write t with
  | ToOut, Some write_to_file => t_fp t = Some Stdout
  | ToErr, Some write_to_file => t_fp t = Some Stderr
  | ToSyslog _, Some write_to_syslog => True
  | ToFile p, Some write_to_file =>
      t_mode t = Append /\ pending t = [] /\ (t_fp t = None \/ exists n, t_fp t = Some (Fstream p Append n))
  | ToFile p, Some write_to_buffer => t_mode t = Append /\ t_fp t = None
  | _, _ => False
  end.

(** The fields that never change. *)
Definition same (t t' : target) : Prop :=
  t_write t' = t_write t /\ t_filepath t' = t_filepath t /\ t_ident t' = t_ident t /\ t_level t' = t_level t /\
  t_type t' = t_type t /\ t_size t' = t_size t /\ t_mode t' = t_mode t.

Lemma content_set (p q c : text) (w : world) : content (set_file p c w) q = if decide (p = q) then c else content w q.
Proof.
  unfold content, set_file. cbn. destruct (decide (p = q)) as [->|Hne]; [by rewrite lookup_insert_eq|].
  by rewrite lookup_insert_ne.
Qed.

(** Writing to an appending file, opened or not. *)
Lemma append_spec (t : target) (msg : text) (w w1 w2 : world) (fp fp' : stream) :
  (t_fp t = None \/ exists n, t_fp t = Some (Fstream (t_filepath t) Append n)) ->
  open_target t Append w = (w1, fp) -> fputs fp msg w1 = (w2, fp') ->
  (forall q, content w2 q = if decide (t_filepath t = q) then content w q ++ msg else content w q) /\
  w_out w2 = w_out w /\ w_err w2 = w_err w /\ w_syslog w2 = w_syslog w /\
  exists n, fp' = Fstream (t_filepath t) Append n.
Proof.
  intros Hfp Ho Hp. destruct Hfp as [Hfp|[n Hfp]]; unfold open_target in Ho; rewrite Hfp in Ho; cbn in Ho; simplify_eq;
    cbn in Hp; simplify_eq; (split; [|split; [done|split; [done|split; [done|by eexists]]]]); intros q;
    rewrite !content_set; repeat case_decide; by subst.
Qed.

(** The effect of a message on the world, and on the target. *)
Record step (t t' : target) (m : message) (w w' : world) : Prop := {
  st_same : same t t';
  st_wf : wf t';
  st_out : w_out w' = w_out w ++ (if decide (dest_of t = ToOut) then got t m else []);
  st_err : w_err w' = w_err w ++ (if decide (dest_of t = ToErr) then got t m else []);
  st_syslog : w_syslog w' = w_syslog w ++ option_list (entry_of m t);
  st_other : forall q, dest_of t <> ToFile q -> content w' q = content w q;
  st_file : forall q, dest_of t = ToFile q -> content w' q ++ pending t' = content w q ++ pending t ++ got t m
}.

#[export] Instance same_preorder : PreOrder same.
Proof.
  split; [done|]. intros t1 t2 t3 (H1&H2&H3&H4&H5&H6&H7) (J1&J2&J3&J4&J5&J6&J7). repeat split; congruence.
Qed.

Lemma same_facts (t t' : target) : same t t' ->
  dest_of t' = dest_of t /\ forall m, got t' m = got t m /\ entry_of m t' = entry_of m t /\ gets t' (fst m) = gets t (fst m).
Proof.
  intros (H1 & H2 & H3 & H4 & H5 & H6 & H7).
  assert (dest_of t' = dest_of t) as Hd by (unfold dest_of; by rewrite H5, H3, H2).
  split; [done|]. intros m. assert (forall l, gets t' l = gets t l) as Hg by (intros l; unfold gets; by rewrite H4).
  unfold got, entry_of. by rewrite Hd, !Hg.
Qed.

Lemma fits_same (t t' : target) (size p : Z) (ms : list message) : t_level t' = t_level t -> fits size p t' ms = fits size p t ms.
Proof.
  intros Hl. revert p. induction ms as [|m ms IH]; intros p; cbn; [done|]. unfold gets. rewrite Hl.
  destruct (negb _); [by rewrite IH|apply IH].
Qed.

Lemma buffer_step (t : target) (l : ina_log_level) (msg : text) (w : world) :
  wf t -> t_write t = Some write_to_buffer -> gets t l = true ->
  fill (Z.of_nat (length (pending t))) (Z.of_nat (length msg)) <= t_size t ->
  exists w' t', __ina_write_to_buffer t msg w = Some (w', t') /\ step t t' (l, msg) w w' /\
    Z.of_nat (length (pending t')) = fill (Z.of_nat (length (pending t))) (Z.of_nat (length msg)).
Proof.
  intros Hwf Hw Hg Hfill. unfold wf in Hwf. rewrite Hw in Hwf.
  destruct (dest_of t) as [| |i|p] eqn:Hd; try done. destruct Hwf as [Hm Hfp].
  assert (p = t_filepath t /\ t_type t = INA_LOG_FILE) as [-> Hty].
  { unfold dest_of in Hd. by destruct (t_type t); simplify_eq. }
  assert (forall b t1, t1 = set_fp None (set_buffer b t) -> same t t1 /\ wf t1) as Hset.
  { intros b t1 ->. split; [done|]. unfold wf, dest_of. cbn. by rewrite Hty, Hw. }
  unfold __ina_write_to_buffer, fill in *. change (pending (set_buffer (pending t) t)) with (pending t).
  destruct (Z.ltb_spec (Z.of_nat (length (pending t))) (Z.of_nat (length msg) + 1)) as [Hlt|Hge].
  - destruct (open_target _ _ w) as [w1 fp] eqn:Ho. destruct (fputs fp (pending t) w1) as [w2 fp'] eqn:Hp.
    change (t_mode (set_buffer (pending t) t)) with (t_mode t) in Ho. rewrite Hm in Ho.
    destruct (append_spec t (pending t) w w1 w2 fp fp') as (Hc & H1 & H2 & H3 & _); [by left|exact Ho|exact Hp|].
    change (pending (set_fp _ (set_buffer [] _))) with ([] : text). cbn [app].
    change (t_size _) with (t_size t).
    destruct (Z.ltb_spec (t_size t) (Z.of_nat (length msg))); [lia|]. do 2 eexists. split; [reflexivity|].
    destruct (Hset msg _ eq_refl) as [Hs1 Hs2]. split; [|done]. split; unfold entry_of, got; cbn [fst snd]; rewrite ?Hd, ?Hg.
    + exact Hs1.
    + exact Hs2.
    + by rewrite H1, app_nil_r.
    + by rewrite H2, app_nil_r.
    + by rewrite H3, app_nil_r.
    + intros q Hq. rewrite Hc. case_decide; congruence.
    + intros q [= <-]. rewrite Hc, decide_True by done. by rewrite <- app_assoc.
  - change (pending (set_buffer (pending t) t)) with (pending t). change (t_size _) with (t_size t).
    destruct (Z.ltb_spec (t_size t) (Z.of_nat (length (pending t ++ msg)))) as [Hov|_].
    { rewrite length_app, Nat2Z.inj_add in Hov. lia. }
    do 2 eexists. split; [reflexivity|].
    destruct (Hset (pending t ++ msg) _ eq_refl) as [Hs1 Hs2]. split; [|cbn; by rewrite length_app, Nat2Z.inj_add].
    split; unfold entry_of, got; cbn [fst snd]; rewrite ?Hd, ?Hg; rewrite ?decide_False, ?app_nil_r by done; try done.
    unfold wf, dest_of. cbn. by rewrite Hty, Hw.
Qed.

Lemma write_step (t : target) (l : ina_log_level) (msg : text) (w : world) (ms : list message) :
  wf t -> room t ((l, msg) :: ms) -> gets t l = true ->
  exists w' t', write_target t l msg w = Some (w', t') /\ step t t' (l, msg) w w' /\ room t' ms.
Proof.
  intros Hwf Hroom Hg. unfold write_target. pose proof Hwf as Hwf'. unfold wf in Hwf'.
  destruct (dest_of t) as [| |i|p] eqn:Hd; destruct (t_write t) as [[]|] eqn:Hw; try done.
  1,2: do 2 eexists; (split; [unfold __ina_write_to_file, open_target; rewrite Hwf'; reflexivity|]);
    (split; [|intros Hb; cbn in Hb; congruence]); split; unfold entry_of, got; cbn [fst snd]; rewrite ?Hd, ?Hg;
    rewrite ?decide_True, ?decide_False, ?app_nil_r by done; try done;
    unfold wf, dest_of in *; cbn; destruct (t_type t); by rewrite ?Hw.
  - do 2 eexists. split; [reflexivity|]. split; [|intros Hb; congruence]. split; unfold entry_of, got; cbn [fst snd]; rewrite ?Hd, ?Hg;
      rewrite ?decide_False, ?app_nil_r by done; try done. unfold __ina_write_to_syslog. cbn.
    unfold dest_of in Hd. by destruct (t_type t); simplify_eq.
  - destruct Hwf' as (Hm & Hpe & Hfp). destruct (open_target t (t_mode t) w) as [w1 fp] eqn:Ho.
    destruct (fputs fp msg w1) as [w2 fp'] eqn:Hp. rewrite Hm in Ho.
    assert (p = t_filepath t) as -> by (unfold dest_of in Hd; by destruct (t_type t); simplify_eq).
    destruct (append_spec t msg w w1 w2 fp fp' Hfp Ho Hp) as (Hc & H1 & H2 & H3 & Hn).
    do 2 eexists. split; [unfold __ina_write_to_file; rewrite Hm, Ho, Hp; reflexivity|].
    split; [|intros Hb; cbn in Hb; congruence]. split; unfold entry_of, got; cbn [fst snd]; rewrite ?Hd, ?Hg;
      rewrite ?decide_False, ?app_nil_r by done; try done.
    + unfold wf, dest_of in *. cbn. destruct (t_type t); try done. rewrite Hw. split; [done|]. split; [done|].
      right. destruct Hn as [n ->]. by exists n.
    + intros q Hq. rewrite Hc. case_decide; congruence.
    + intros q [= <-]. rewrite Hc, decide_True by done. change (pending (set_fp (Some fp') t)) with (pending t).
      rewrite Hpe. by rewrite app_nil_r.
  - specialize (Hroom Hw). cbn [fits fst snd] in Hroom. rewrite Hg in Hroom.
    apply andb_true_iff in Hroom as [Hle%Z.leb_le Hrest].
    destruct (buffer_step t l msg w Hwf Hw Hg Hle) as (w' & t' & Hrun & Hst & Hlen).
    do 2 eexists. split; [exact Hrun|]. split; [exact Hst|]. intros _. rewrite Hlen.
    destruct (st_same _ _ _ _ _ Hst) as (_ & _ & _ & Hlv & _ & Hsz & _). rewrite Hsz.
    erewrite fits_same; [exact Hrest|exact Hlv].
Qed.

Definition file_of (t : target) : option text := match dest_of t with ToFile p => Some p | _ => None end.
Definition paths (ts : list target) : list text := omap file_of ts.

Lemma step_skip (t : target) (m : message) (w : world) : wf t -> gets t (fst m) = false -> step t t m w w.
Proof.
  intros Hwf Hg. assert (got t m = []) as Hn by (unfold got; by rewrite Hg).
  split; rewrite ?Hn; try done.
  - case_decide; by rewrite app_nil_r.
  - case_decide; by rewrite app_nil_r.
  - unfold entry_of. rewrite Hg. destruct (dest_of t); by rewrite app_nil_r.
  - intros q _. by rewrite app_nil_r.
Qed.

Lemma target_step (t : target) (m : message) (ms : list message) (w : world) :
  wf t -> room t (m :: ms) ->
  exists w' t', (if gets t (fst m) then write_target t (fst m) (snd m) w else Some (w, t)) = Some (w', t') /\
    step t t' m w w' /\ room t' ms.
Proof.
  intros Hwf Hr. destruct m as [l msg]. cbn [fst snd]. destruct (gets t l) eqn:Hg.
  - by apply write_step.
  - do 2 eexists. split; [reflexivity|]. split; [by apply step_skip|]. intros Hw. specialize (Hr Hw). cbn in Hr.
    by rewrite Hg in Hr.
Qed.

Lemma file_of_dest (t : target) (q : text) : file_of t = Some q <-> dest_of t = ToFile q.
Proof. unfold file_of. destruct (dest_of t); split; congruence. Qed.

Lemma paths_cons (t : target) (ts : list target) (q : text) : q ∉ paths (t :: ts) <-> dest_of t <> ToFile q /\ q ∉ paths ts.
Proof.
  unfold paths. cbn [omap list_omap]. rewrite <- file_of_dest. destruct (file_of t) as [p|]; [|naive_solver].
  rewrite not_elem_of_cons. naive_solver.
Qed.

Lemma paths_tail (t : target) (ts : list target) : NoDup (paths (t :: ts)) ->
  NoDup (paths ts) /\ forall q, dest_of t = ToFile q -> q ∉ paths ts.
Proof.
  unfold paths. cbn [omap list_omap]. setoid_rewrite <- file_of_dest. destruct (file_of t) as [p|]; [|done].
  intros [H1 H2]%NoDup_cons. split; [done|]. by intros q [= <-].
Qed.

Lemma paths_lookup (ts : list target) (i : nat) (t : target) (q : text) :
  ts !! i = Some t -> dest_of t = ToFile q -> q ∈ paths ts.
Proof.
  intros Ht Hq. unfold paths. rewrite list_elem_of_omap. exists t. split; [by eapply list_elem_of_lookup_2|].
  by apply file_of_dest.
Qed.

(** The effect of some messages on the world and the targets of a context. *)
Record delivered (ts ts' : list target) (ms : list message) (w w' : world) : Prop := {
  de_same : Forall2 same ts ts';
  de_wf : Forall wf ts';
  de_out : w_out w' = w_out w ++ concat (map (share ToOut ts) ms);
  de_err : w_err w' = w_err w ++ concat (map (share ToErr ts) ms);
  de_syslog : w_syslog w' = w_syslog w ++ concat (map (fun m => omap (entry_of m) ts) ms);
  de_other : forall q, q ∉ paths ts -> content w' q = content w q;
  de_file : forall i t t' q, ts !! i = Some t -> ts' !! i = Some t' -> dest_of t = ToFile q ->
    content w' q ++ pending t' = content w q ++ pending t ++ concat (map (got t) ms)
}.

Lemma log_targets_spec (ts : list target) (m : message) (ms : list message) : forall (w : world),
  Forall wf ts -> Forall (fun t => room t (m :: ms)) ts -> NoDup (paths ts) ->
  exists w' ts', log_targets ts (fst m) (snd m) w = Some (w', ts') /\ delivered ts ts' [m] w w' /\
    Forall (fun t => room t ms) ts'.
Proof.
  induction ts as [|t ts IH]; intros w Hwf Hroom Hnd.
  - exists w, []. split; [done|]. split; [|constructor]. split; cbn; try done; by rewrite app_nil_r.
  - apply Forall_cons in Hwf as [Ht Hts], Hroom as [Hrt Hrts]. apply paths_tail in Hnd as [Hnd Hfresh].
    destruct (target_step t m ms w Ht Hrt) as (w1 & t' & Hrun & Hst & Hr'). cbn [log_targets]. rewrite Hrun.
    cbn [mbind option_bind]. destruct (IH w1 Hts Hrts Hnd) as (w2 & ts' & Hrun2 & Hd & Hrs). rewrite Hrun2.
    cbn [mbind option_bind]. do 2 eexists. split; [reflexivity|]. split; [|by constructor].
    destruct Hst as [S1 S2 S3 S4 S5 S6 S7], Hd as [D1 D2 D3 D4 D5 D6 D7]. cbn [map concat] in *. rewrite !app_nil_r in *.
    split; cbn [map concat]; rewrite ?app_nil_r; try (by constructor).
    + rewrite D3, S3. unfold share. cbn [map concat]. by rewrite <- app_assoc.
    + rewrite D4, S4. unfold share. cbn [map concat]. by rewrite <- app_assoc.
    + rewrite D5, S5. cbn [omap list_omap]. rewrite <- app_assoc. by destruct (entry_of m t).
    + intros q [Hq1 Hq2]%paths_cons. by rewrite D6, S6.
    + intros [|i] u u' q Hu Hu' Hq; cbn in Hu, Hu'; simplify_eq; rewrite ?app_nil_r.
      * rewrite D6 by (by apply Hfresh). by apply S7.
      * rewrite <- S6; [by rewrite (D7 i u u' q Hu Hu' Hq), app_nil_r|]. intros Hq'. apply (Hfresh q Hq').
        by eapply paths_lookup.
Qed.

Lemma delivered_nil (ts : list target) (w : world) : Forall wf ts -> delivered ts ts [] w w.
Proof.
  intros Hwf. split; cbn; rewrite ?app_nil_r; try done.
  - intros i t t' q H1 H2 _. rewrite H1 in H2. simplify_eq. by rewrite app_nil_r.
Qed.

Lemma same_paths (ts ts' : list target) : Forall2 same ts ts' ->
  paths ts' = paths ts /\ forall m, (forall d, share d ts' m = share d ts m) /\ omap (entry_of m) ts' = omap (entry_of m) ts.
Proof.
  intros H. induction H as [|t t' ts ts' Hs _ [IH1 IH2]]; [done|]. destruct (same_facts t t' Hs) as [Hd Hf]. split.
  - unfold paths, file_of in *. cbn [omap list_omap]. rewrite Hd. by rewrite IH1.
  - intros m. destruct (Hf m) as (H1 & H2 & _), (IH2 m) as [H3 H4]. split.
    + intros d. unfold share in *. cbn [map concat]. by rewrite Hd, H1, H3.
    + cbn [omap list_omap]. by rewrite H2, H4.
Qed.

(** Messages after a message. *)
Lemma delivered_cons (ts ts1 ts2 : list target) (m : message) (ms : list message) (w w1 w2 : world) :
  delivered ts ts1 [m] w w1 -> delivered ts1 ts2 ms w1 w2 -> delivered ts ts2 (m :: ms) w w2.
Proof.
  intros [A1 A2 A3 A4 A5 A6 A7] [B1 B2 B3 B4 B5 B6 B7]. destruct (same_paths ts ts1 A1) as [Hp Hs].
  cbn [map concat] in A3, A4, A5, A7. rewrite app_nil_r in A3, A4, A5. split; cbn [map concat].
  - by transitivity ts1.
  - done.
  - rewrite B3, A3, <- app_assoc. do 2 f_equal. f_equal. apply map_ext. intros; apply Hs.
  - rewrite B4, A4, <- app_assoc. do 2 f_equal. f_equal. apply map_ext. intros; apply Hs.
  - rewrite B5, A5, <- app_assoc. do 2 f_equal. f_equal. apply map_ext. intros; apply Hs.
  - intros q Hq. rewrite B6, A6; [done|done|by rewrite Hp].
  - intros i t t2 q Ht Ht2 Hq. destruct (Forall2_lookup_l _ _ _ _ _ A1 Ht) as (t1 & Ht1 & Hsame).
    destruct (same_facts t t1 Hsame) as [Hd Hf].
    rewrite (B7 i t1 t2 q Ht1 Ht2) by (by rewrite Hd). rewrite app_assoc, (A7 i t t1 q Ht Ht1 Hq), app_nil_r.
    rewrite <- !app_assoc. do 3 f_equal. f_equal. apply map_ext. intros; apply Hf.
Qed.
Lemma log_all_spec (ms : list (ina_log_level * text * text)) : forall (c : log_ctx) (w : world),
  Forall wf (targets c) -> NoDup (paths (targets c)) -> Forall (fun t => room t (lines (pid c) ms)) (targets c) ->
  exists w' ts', log_all c ms w = Some (w', set_targets ts' c) /\ delivered (targets c) ts' (lines (pid c) ms) w w'.
Proof.
  induction ms as [|[[l stamp] msg] ms IH]; intros c w Hwf Hnd Hroom.
  - exists w, (targets c). split; [by destruct c|by apply delivered_nil].
  - cbn [log_all lines map] in *. unfold __ina_log.
    destruct (log_targets_spec (targets c) (l, line (pid c) l stamp msg) (lines (pid c) ms) w Hwf Hroom Hnd)
      as (w1 & ts1 & Hrun & Hd & Hr1). cbn [fst snd] in Hrun. rewrite Hrun. cbn [mbind option_bind].
    destruct (same_paths _ _ (de_same _ _ _ _ _ Hd)) as [Hp _].
    destruct (IH (set_targets ts1 c) w1) as (w2 & ts2 & Hrun2 & Hd2).
    + apply (de_wf _ _ _ _ _ Hd).
    + cbn [set_targets targets]. by rewrite Hp.
    + exact Hr1.
    + exists w2, ts2. split; [exact Hrun2|]. by eapply delivered_cons.
Qed.

(** *** Without room

    A message that does not fit into a buffer is written behind it; otherwise
    there is room for the messages after it exactly if there was for all. *)
Lemma buffer_overflow (t : target) (msg : text) (w : world) :
  t_size t < fill (Z.of_nat (length (pending t))) (Z.of_nat (length msg)) -> __ina_write_to_buffer t msg w = None.
Proof.
  intros Hfill. unfold __ina_write_to_buffer, fill in *. change (pending (set_buffer (pending t) t)) with (pending t).
  destruct (Z.ltb_spec (Z.of_nat (length (pending t))) (Z.of_nat (length msg) + 1)).
  - destruct (open_target _ _ w) as [w1 fp]. destruct (fputs fp (pending t) w1) as [w2 fp'].
    change (pending (set_fp _ (set_buffer [] _))) with ([] : text). change (t_size _) with (t_size t). cbn [app].
    by rewrite (proj2 (Z.ltb_lt _ _)).
  - change (pending (set_buffer (pending t) t)) with (pending t). change (t_size _) with (t_size t).
    rewrite (proj2 (Z.ltb_lt _ _)); [done|]. rewrite length_app. lia.
Qed.
Definition attempt (t : target) (m : message) (w : world) : option (world * target) :=
  if gets t (fst m) then write_target t (fst m) (snd m) w else Some (w, t).
Lemma target_any (t : target) (m : message) (ms : list message) (w : world) : wf t ->
  (attempt t m w = None /\ ~ room t (m :: ms)) \/
  (exists w' t', attempt t m w = Some (w', t') /\ wf t' /\ (room t' ms <-> room t (m :: ms))).
Proof.
  intros Hwf. unfold attempt. destruct m as [l msg]. cbn [fst snd]. destruct (gets t l) eqn:Hg.
  2: { right. exists w, t. split; [done|]. split; [done|]. unfold room. cbn [fits fst]. by rewrite Hg. }
  assert (t_write t = Some write_to_buffer \/ t_write t <> Some write_to_buffer) as [Hb|Hb]
    by (destruct (t_write t) as [[]|]; first [by left|by right]).
  - destruct (decide (t_size t < fill (Z.of_nat (length (pending t))) (Z.of_nat (length msg)))) as [Hov|Hfit].
    + left. unfold write_target. rewrite Hb, buffer_overflow by done. split; [done|]. intros Hr. specialize (Hr Hb).
      cbn [fits fst snd] in Hr. rewrite Hg in Hr. apply andb_true_iff in Hr as [Hr%Z.leb_le _]. lia.
    + right. destruct (buffer_step t l msg w Hwf Hb Hg ltac:(lia)) as (w' & t' & Hrun & Hst & Hlen).
      exists w', t'. unfold write_target. rewrite Hb. split; [done|]. split; [apply (st_wf _ _ _ _ _ Hst)|].
      destruct (st_same _ _ _ _ _ Hst) as (Hwr & _ & _ & Hlv & _ & Hsz & _). unfold room. cbn [fits fst snd].
      rewrite Hwr, Hg, Hlen, Hsz, (fits_same t t') by done. rewrite (proj2 (Z.leb_le _ _)) by lia. done.
  - right. destruct (write_step t l msg w [] Hwf (fun H => False_ind _ (Hb H)) Hg) as (w' & t' & Hrun & Hst & _). exists w', t'.
    split; [done|]. split; [apply (st_wf _ _ _ _ _ Hst)|]. destruct (st_same _ _ _ _ _ Hst) as (Hwr & _).
    unfold room. rewrite Hwr. split; intros _ H; by destruct Hb.
Qed.
Lemma log_targets_any (ts : list target) (m : message) (ms : list message) : forall (w : world), Forall wf ts ->
  ~ Forall (fun t => room t (m :: ms)) ts ->
  log_targets ts (fst m) (snd m) w = None \/
  exists w' ts', log_targets ts (fst m) (snd m) w = Some (w', ts') /\ Forall wf ts' /\ ~ Forall (fun t => room t ms) ts'.
Proof.
  assert (forall w, Forall wf ts -> log_targets ts (fst m) (snd m) w = None \/
    exists w' ts', log_targets ts (fst m) (snd m) w = Some (w', ts') /\ Forall wf ts' /\
      (Forall (fun t => room t ms) ts' -> Forall (fun t => room t (m :: ms)) ts)) as Hany.
  { induction ts as [|t ts IH]; intros w Hwf; [right; by exists w, []|]. apply Forall_cons in Hwf as [Ht Hts].
    cbn [log_targets]. fold (attempt t m w).
    destruct (target_any t m ms w Ht) as [[-> _]|(w1 & t1 & -> & Hwf1 & Hr1)]; [by left|]. cbn [mbind option_bind].
    destruct (IH w1 Hts) as [->|(w2 & ts2 & -> & Hwf2 & Hr2)]; [by left|]. cbn [mbind option_bind]. right. exists w2, (t1 :: ts2).
    split; [done|]. split; [by constructor|]. intros [H1 H2]%Forall_cons. constructor; [by apply Hr1|by apply Hr2]. }
  intros w Hwf Hno. destruct (Hany w Hwf) as [H|(w' & ts' & H & Hwf' & Hr)]; [by left|]. right. exists w', ts'.
  split; [done|]. split; [done|]. intros Hall. by apply Hno, Hr.
Qed.
Lemma log_all_overflow (ms : list (ina_log_level * text * text)) : forall (c : log_ctx) (w : world),
  Forall wf (targets c) -> ~ Forall (fun t => room t (lines (pid c) ms)) (targets c) -> log_all c ms w = None.
Proof.
  induction ms as [|[[l stamp] msg] ms IH]; intros c w Hwf Hno.
  - destruct Hno. apply Forall_forall. intros t _ _. done.
  - cbn [log_all lines map] in *. unfold __ina_log.
    destruct (log_targets_any (targets c) (l, line (pid c) l stamp msg) (lines (pid c) ms) w Hwf Hno)
      as [Hr|(w1 & ts1 & Hr & Hwf1 & Hno1)]; cbn [fst snd] in Hr; rewrite Hr; [done|]. cbn [mbind option_bind]. by apply IH.
Qed.

(** Freeing a target writes what is left in its buffer. *)
Lemma free_target_spec (t : target) (w : world) : wf t ->
  w_out (__ina_free_target t w) = w_out w /\ w_err (__ina_free_target t w) = w_err w /\
  w_syslog (__ina_free_target t w) = w_syslog w /\
  (forall q, dest_of t <> ToFile q -> content (__ina_free_target t w) q = content w q) /\
  (forall q, dest_of t = ToFile q -> content (__ina_free_target t w) q = content w q ++ pending t).
Proof.
  intros Hwf. unfold __ina_free_target. destruct (t_type t) eqn:Hty;
    [repeat split; unfold dest_of; by rewrite Hty|repeat split; unfold dest_of; by rewrite Hty| |
     repeat split; unfold dest_of; by rewrite Hty].
  assert (dest_of t = ToFile (t_filepath t)) as Hd by (unfold dest_of; by rewrite Hty).
  case_bool_decide as Hpe; [repeat split; intros q Hq; rewrite ?Hpe, ?app_nil_r; done|].
  destruct (open_target t Append w) as [w1 fp] eqn:Ho. destruct (fputs fp (pending t) w1) as [w2 fp'] eqn:Hf.
  destruct (append_spec t (pending t) w w1 w2 fp fp') as (Hc & H1 & H2 & H3 & _); [|done|done|].
  { unfold wf in Hwf. rewrite Hd in Hwf. destruct (t_write t) as [[]|]; [by apply Hwf|by left; apply Hwf|done|done]. }
  cbn [fst]. repeat split; try done; intros q; rewrite Hd, Hc; case_decide; congruence.
Qed.

Lemma free_all_spec (ts : list target) : forall (w : world), Forall wf ts -> NoDup (paths ts) ->
  let w' := fold_left (fun w t => __ina_free_target t w) ts w in
  w_out w' = w_out w /\ w_err w' = w_err w /\ w_syslog w' = w_syslog w /\
  (forall q, q ∉ paths ts -> content w' q = content w q) /\
  (forall t q, t ∈ ts -> dest_of t = ToFile q -> content w' q = content w q ++ pending t).
Proof.
  induction ts as [|t ts IH]; intros w Hwf Hnd.
  - repeat split; try done. intros t q Hin. by apply not_elem_of_nil in Hin.
  - apply Forall_cons in Hwf as [Ht Hts]. apply paths_tail in Hnd as [Hnd Hfresh].
    destruct (free_target_spec t w Ht) as (H1 & H2 & H3 & H4 & H5).
    destruct (IH (__ina_free_target t w) Hts Hnd) as (J1 & J2 & J3 & J4 & J5). cbn [fold_left].
    repeat split; [by rewrite J1|by rewrite J2|by rewrite J3| |].
    + intros q [Hq1 Hq2]%paths_cons. by rewrite J4, H4.
    + intros u q [->|Hin]%elem_of_cons Hq; [rewrite J4 by (by apply Hfresh); by apply H5|].
      rewrite (J5 u q Hin Hq), H4; [done|]. intros Hq'. apply (Hfresh q Hq').
      apply list_elem_of_lookup in Hin as [i Hi]. by eapply paths_lookup.
Qed.

(** C22. No message is lost, doubled or out of order, if the buffers have room.  For
    a context with empty buffers whose files are appended to, each by one target,
    and any messages: if each line that a buffer gets fits into what is free of it
    when the code leaves the older lines in it ([fits]), then logging the messages
    and freeing the context adds to each file exactly the lines of the messages with
    the level of its target, in order, to the standard streams and the system log
    those of their targets, and changes no other file, whatever is buffered; if one
    does not fit, it is written behind its buffer. *)
Theorem log_delivers_messages (c : log_ctx) (ms : list (ina_log_level * text * text)) (w : world) :
  Forall wf (targets c) -> NoDup (paths (targets c)) -> Forall (fun t => pending t = []) (targets c) ->
  (~ Forall (fun t => room t (lines (pid c) ms)) (targets c) -> log_all c ms w = None) /\
  (Forall (fun t => room t (lines (pid c) ms)) (targets c) ->
  exists w1 c1, log_all c ms w = Some (w1, c1) /\
    let w' := ina_log_ctx_free c1 w1 in
    w_out w' = w_out w ++ concat (map (share ToOut (targets c)) (lines (pid c) ms)) /\
    w_err w' = w_err w ++ concat (map (share ToErr (targets c)) (lines (pid c) ms)) /\
    w_syslog w' = w_syslog w ++ concat (map (fun m => omap (entry_of m) (targets c)) (lines (pid c) ms)) /\
    (forall t q, t ∈ targets c -> dest_of t = ToFile q ->
      content w' q = content w q ++ concat (map (got t) (lines (pid c) ms))) /\
    (forall q, q ∉ paths (targets c) -> content w' q = content w q)).
Proof.
  intros Hwf Hnd Hempty. split; [by apply log_all_overflow|]. intros Hroom. destruct (log_all_spec ms c w Hwf Hnd Hroom) as (w1 & ts & Hrun & Hd).
  destruct Hd as [D1 D2 D3 D4 D5 D6 D7]. destruct (same_paths _ _ D1) as [Hp _].
  destruct (free_all_spec ts w1 D2) as (F1 & F2 & F3 & F4 & F5); [by rewrite Hp|].
  exists w1, (set_targets ts c). split; [exact Hrun|]. unfold ina_log_ctx_free. cbn [set_targets targets].
  split; [by rewrite F1|]. split; [by rewrite F2|]. split; [by rewrite F3|]. split.
  - intros t q Hin Hq. apply list_elem_of_lookup in Hin as [i Hi].
    destruct (Forall2_lookup_l _ _ _ _ _ D1 Hi) as (t' & Ht' & Hs). destruct (same_facts t t' Hs) as [Hdt _].
    rewrite (F5 t' q) by (by eapply list_elem_of_lookup_2 || by rewrite Hdt).
    rewrite (D7 i t t' q Hi Ht' Hq). rewrite Forall_forall in Hempty.
    by rewrite (Hempty t) by (by eapply list_elem_of_lookup_2).
  - intros q Hq. rewrite F4 by (by rewrite Hp). by apply D6.
Qed.

(** ** The configuration of a context *)

Section Config.
Variable num : Type.
Variable number_text : num -> text.
Variable text_number : text -> num.
Variable to_size : num -> Z.
Variable getenv : text -> option text.
Variable app_name : text.
Variable lua_order : forall V, gmap text V -> list (text * V).

Abbreviation entries := (Conffile.entries num).
Abbreviation name := bytes_of_string.

Definition MAX_BUFFER_SIZE : Z := 2 * 1024 * 1024.
Definition DFT_BUFFER_SIZE : Z := 4 * 1024.

Definition __ina_process_global_section (sname : text) (skey : option text) (es : entries) (c : log_ctx) : log_ctx * result unit :=
  match ina_conffile_get_number_from_entries num es (name "buffer_size") with
  | Ok n => (Ctx (targets c) (category c) (if MAX_BUFFER_SIZE <? to_size n then MAX_BUFFER_SIZE else to_size n) (pid c), Ok tt)
  | Err _ => (c, Ok tt)
  end.

(** The level of a rule. *)
Definition rule_levels (s : text) : option Z :=
  if bool_decide (s = name "*") then Some (Z.lor (Z.lor 1 2) (Z.lor 4 8))
  else if bool_decide (s = name "DEBUG") then Some 1
  else if bool_decide (s = name "INFO") then Some 2
  else if bool_decide (s = name "WARNING") then Some 4
  else if bool_decide (s = name "ERROR") then Some 8
  else None.

(** The target of a rule that matches. *)
Definition new_target (levels : Z) (size : Z) (es : entries) : target :=
  let get k := ina_conffile_get_string_from_entries num es (name k) in
  match get "target"%string with
  | Err _ => Target None [] [] levels INA_LOG_STDOUT 0 Append None None
  | Ok v =>
      if bool_decide (v = name ">stdout") then
        Target (Some write_to_file) [] [] levels INA_LOG_STDOUT 0 Append None (Some Stdout)
      else if bool_decide (v = name ">stderr") then
        Target (Some write_to_file) [] [] levels INA_LOG_STDERR 0 Append None (Some Stderr)
      else if bool_decide (v = name ">syslog") then
        let ident := match get "syslog_ident"%string with Ok i => i | Err _ => app_name end in
        Target (Some write_to_syslog) [] ident levels INA_LOG_SYSLOG 0 Append None None
      else
        let size := match ina_conffile_get_number_from_entries num es (name "buffer_size") with
                    | Ok n => to_size n | Err _ => size end in
        let m := match get "truncate"%string with
                 | Ok tr => if casecmp_eq tr (name "true") then Truncate else Append
                 | Err _ => Append end in
        Target (Some (if size =? 0 then write_to_file else write_to_buffer)) v [] levels INA_LOG_FILE size m None None
  end.

(** A rule is [category.level]; [ina_str_split] is [Str.split_text]. *)
Definition parse_rule (key : text) : option (text * Z) :=
  match Str.split_text false [46] key 0 [] with
  | [cat; lev] => levels ← rule_levels lev; Some (cat, levels)
  | _ => None
  end.
Definition matches (c : text) (cat : text) : bool := bool_decide (cat = name "*") || bool_decide (cat = c).

Definition __ina_process_rule_section (sname : text) (skey : option text) (es : entries) (c : log_ctx)
    : log_ctx * result unit :=
  match parse_rule (default [] skey) with
  | None => (c, Err (INA_ERR_INVALID_ARGUMENT))
  | Some (cat, levels) =>
      (if matches (category c) cat
       then set_targets (targets c ++ [new_target levels (buffer_size c) es]) c else c, Ok tt)
  end.

(** [INA_CONFFILE] in [ina_log_ctx_new]: its sections and keys, one after the other.  The
    results are not looked at; a section that was refused is a null pointer, which
    [ina_conffile_add_key] refuses. *)
Definition add_section (cf : conffile num log_ctx) (n : string) (required named : bool) (cb : text -> option text -> entries -> log_ctx -> log_ctx * result unit)
    : conffile num log_ctx * option nat :=
  let '(cf, r) := ina_conffile_add_section num log_ctx cf (name n) required named (Some cb) in
  (cf, match r with Ok section => Some section | Err _ => None end).
Definition add_key (cf : conffile num log_ctx) (section : option nat) (n : string) (type : value_type) (required : bool) : option (conffile num log_ctx) :=
  match section with
  | None => Some cf
  | Some section => '(cf, _) ← ina_conffile_add_key num log_ctx cf section (name n) type required; Some cf
  end.
Definition log_conffile : option (conffile num log_ctx) :=
  let cf := ina_conffile_new num log_ctx in
  let '(cf, cs) := add_section cf "global" true false __ina_process_global_section in
  cf ← add_key cf cs "buffer_size" INA_CONFFILE_VALUE_TYPE_NUMBER false;
  let '(cf, cs) := add_section cf "rule" false true __ina_process_rule_section in
  cf ← add_key cf cs "target" INA_CONFFILE_VALUE_TYPE_STRING true;
  cf ← add_key cf cs "truncate" INA_CONFFILE_VALUE_TYPE_STRING false;
  cf ← add_key cf cs "syslog_ident" INA_CONFFILE_VALUE_TYPE_STRING false;
  add_key cf cs "buffer_size" INA_CONFFILE_VALUE_TYPE_NUMBER false.

(** The context, for the configuration of some blocks. *)
Definition ina_log_ctx_new (pid : Z) (cat : text) (bs : list (block num)) : option (result log_ctx) :=
  cf ← log_conffile;
  '(_, c, r) ← ina_conffile_process_string number_text text_number getenv lua_order cf bs (Ctx [] cat DFT_BUFFER_SIZE pid);
  Some (match r with Ok _ => Ok c | Err rc => Err rc end).

(** [__ina_dft_spec] as its blocks *)
Definition rule_block (r t : string) : block num := Block (name "rule") (Some (name r)) (<[name "target" := LString (name t)]> ∅).
Definition __ina_dft_spec (n4096 : num) : list (block num) :=
  [Block (name "global") None (<[name "buffer_size" := LNumber n4096]> ∅);
   rule_block "*.DEBUG" ">stdout"; rule_block "*.WARNING" ">stdout"; rule_block "*.INFO" ">stdout";
   rule_block "*.ERROR" ">stderr"].

(** ** A context has the targets of its rules *)

(** The target of a rule, if it is for this category, and of all rules. *)
Definition rule_target (cat : text) (size : Z) (rule : entries) : option target :=
  '(rcat, levels) ← parse_rule (e_key num rule);
  if matches cat rcat then Some (new_target levels size rule) else None.
Definition rule_targets (cat : text) (size : Z) (rules : list entries) : list target :=
  omap (rule_target cat size) rules.

Abbreviation call_rules := (call_section num log_ctx (name "rule") true __ina_process_rule_section).

(** The callbacks for the rules: each adds its target, until one has no category or no
    known level. *)
Lemma call_rules_spec (rules : list entries) (c : log_ctx) :
  if forallb (fun r => bool_decide (is_Some (parse_rule (e_key num r)))) rules
  then call_rules rules c = (set_targets (targets c ++ rule_targets (category c) (buffer_size c) rules) c, Ok tt)
  else exists c', call_rules rules c = (c', Err INA_ERR_INVALID_ARGUMENT).
Proof.
  revert c. induction rules as [|es rules IH]; intros c.
  - cbn. rewrite app_nil_r. by destruct c.
  - unfold rule_targets, rule_target. cbn [forallb call_section omap list_omap].
    assert (__ina_process_rule_section (name "rule") (Some (e_key num es)) es c = match parse_rule (e_key num es) with
      | None => (c, Err INA_ERR_INVALID_ARGUMENT)
      | Some (cat, levels) => (if matches (category c) cat
          then set_targets (targets c ++ [new_target levels (buffer_size c) es]) c else c, Ok tt) end) as -> by done.
    destruct (parse_rule (e_key num es)) as [[rcat levels]|]; cbn [mbind option_bind].
    2: { rewrite bool_decide_eq_false_2 by (by intros [? [=]]). cbn [andb].
      by eexists. }
    rewrite bool_decide_eq_true_2 by done. cbn [andb].
    destruct (matches (category c) rcat).
    + specialize (IH (set_targets (targets c ++ [new_target levels (buffer_size c) es]) c)).
      cbn [set_targets targets category buffer_size pid] in IH.
      destruct (forallb _ rules); [|exact IH]. rewrite IH. cbn. by rewrite <- app_assoc.
    + exact (IH c).
Qed.

(** The targets of rules are as they are needed for delivery, unless they
    truncate their file. *)
Lemma new_target_wf (levels size : Z) (es : entries) (v : text) :
  str_get (e_entries num es) (name "target") = Some (EString v) ->
  (forall tr, str_get (e_entries num es) (name "truncate") = Some (EString tr) -> casecmp_eq tr (name "true") = false) ->
  wf (new_target levels size es) /\ pending (new_target levels size es) = [].
Proof.
  intros Ht Htr. unfold new_target, ina_conffile_get_string_from_entries. rewrite Ht. cbn [string_of].
  repeat (case_bool_decide; [done|]).
  split; [|reflexivity]. unfold wf, dest_of. cbn [t_type t_write t_mode t_filepath t_fp].
  assert (match string_of (str_get (e_entries num es) (name "truncate")) with
    | Ok tr => if casecmp_eq tr (name "true") then Truncate else Append | Err _ => Append end = Append) as ->.
  { destruct (str_get (e_entries num es) (name "truncate")) as [[tr|]|] eqn:E; [|done|done]. cbn [string_of]. by rewrite (Htr tr eq_refl). }
  destruct (_ =? 0); [split; [done|split; [done|by left]]|done].
Qed.

End Config.

(** ** The default configuration, and messages *)
Abbreviation str := bytes_of_string.
Definition demo_order (V : Type) (m : gmap text V) : list (text * V) := map_to_list m.
Abbreviation demo_ctx_new := (ina_log_ctx_new Z (fun _ => []) value id (fun _ => None) (str "app") demo_order).

Definition demo_default : list target :=
  let out l := Target (Some write_to_file) [] [] l INA_LOG_STDOUT 0 Append None (Some Stdout) in
  let err l := Target (Some write_to_file) [] [] l INA_LOG_STDERR 0 Append None (Some Stderr) in
  [out 1; out 2; out 4; err 8].

Lemma demo_default_computed : demo_ctx_new 7 (str "*") (__ina_dft_spec Z 4096) = Some (Ok (Ctx demo_default (str "*") 4096 7)).
Proof. by vm_compute. Qed.

Definition demo_file : target := Target (Some write_to_buffer) (str "/tmp/log") [] 12 INA_LOG_FILE 64 Append None None.
Definition demo_ctx : log_ctx := Ctx (demo_file :: demo_default) (str "*") 64 7.
Definition demo_world : world := World ∅ [] [] [].
Definition demo_messages : list (ina_log_level * text * text) :=
  [(INA_LOG_LEVEL_ERROR, str "10:00", str "disk"); (INA_LOG_LEVEL_INFO, str "10:01", str "ok");
   (INA_LOG_LEVEL_WARNING, str "10:02", str "slow")].

Lemma log_delivers_messages_witness :
  exists w1 c1, log_all demo_ctx demo_messages demo_world = Some (w1, c1) /\
    content (ina_log_ctx_free c1 w1) (str "/tmp/log") =
      str "[7] 10:00 # disk" ++ [10] ++ str "[7] 10:02 * slow" ++ [10] /\
    w_out (ina_log_ctx_free c1 w1) = str "[7] 10:01 - ok" ++ [10] ++ str "[7] 10:02 * slow" ++ [10].
Proof.
  destruct (log_delivers_messages demo_ctx demo_messages demo_world) as [_ Hdel]; [..|destruct Hdel as (w1 & c1 & Hrun & Ho & _ & _ & Hf & _)].
  - repeat (apply Forall_cons_2; [done|]). by apply Forall_nil_2.
  - cbn. apply NoDup_singleton.
  - repeat (apply Forall_cons_2; [done|]). by apply Forall_nil_2.
  - repeat (apply Forall_cons_2; [done|]). by apply Forall_nil_2.
  - exists w1, c1. split; [exact Hrun|]. split.
    + rewrite (Hf demo_file (str "/tmp/log")); [by vm_compute|apply list_elem_of_here|done].
    + rewrite Ho. by vm_compute.
Defined.

(** The test of the room in the buffer looks at what is used instead of what is
    free: a message that is shorter than that is stored behind the end of a full
    buffer, and one that is as long writes a buffer that has room.  A target
    that truncates its file does so at every write of its buffer and keeps only
    the last part. *)
Definition demo_truncate : target := Target (Some write_to_buffer) (str "/tmp/log") [] 15 INA_LOG_FILE 64 Truncate None None.
Theorem log_defects :
  __ina_log (Ctx [set_buffer (replicate 60 65) demo_file] (str "*") 64 7) INA_LOG_LEVEL_ERROR (str "10:00") (str "disk") demo_world = None /\
  (exists w c, log_all (Ctx [demo_truncate] (str "*") 64 7)
     [(INA_LOG_LEVEL_ERROR, str "10:00", str "one"); (INA_LOG_LEVEL_ERROR, str "10:01", str "two");
      (INA_LOG_LEVEL_ERROR, str "10:02", str "six")] demo_world = Some (w, c) /\
   content (ina_log_ctx_free c w) (str "/tmp/log") = str "[7] 10:01 # two" ++ [10] ++ str "[7] 10:02 # six" ++ [10]).
Proof. split; [by vm_compute|]. do 2 eexists. split; [vm_compute; reflexivity|by vm_compute]. Qed.

End Log.
