(* ===== verification/Time.v ===== *)
(** * Time stamps (time.c, time.h; POSIX)

    A time stamp is read from the clock of the operating system or from the
    counter of the processor; both give seconds and nanoseconds through the
    chosen backend.  Readings of clock and counter are arguments.  Floating
    point numbers are a class: what is said about them holds for every
    arithmetic that has its operations. *)
From Stdlib Require Import ZArith Lia Bool String QArith QArith.Qround.
From stdpp Require Import base numbers option list.
From S2P Require Import Prelude Error Libc.

(** The operations on [double] the code uses, and equality of the zero. *)
Class Double (D : Type) := {
  of_Z : Z -> D; to_u64 : D -> Z; dadd : D -> D -> D; ddiv : D -> D -> D; deqb : D -> D -> bool;
  zero_eqb : deqb (of_Z 0) (of_Z 0) = true
}.

Local Open Scope inac_scope.

Module Time.
Import Error Libc.

(** [struct timespec] and [struct ina_time_tsc_s] *)
Record timespec := Timespec { tv_sec : Z; tv_nsec : Z }.

Section Time.
Context {D : Type} `{Double D}.

Record tsc := Tsc { tp : timespec; rtp : Z; ref : Z; refhpet : Z; ticks_per_nano : D }.
Definition tsc_zero : tsc := Tsc (Timespec 0 0) 0 0 0 (of_Z 0).
Definition set_tp (t : tsc) (x : timespec) : tsc := Tsc x (rtp t) (ref t) (refhpet t) (ticks_per_nano t).
Definition set_ref (t : tsc) (r h : Z) : tsc := Tsc (tp t) (rtp t) r h (ticks_per_nano t).

(** The static variables: which backend is chosen, and its calibration. *)
Record backend := Backend { rdtsc_enabled : bool; rdtsc_ticks_per_nano : D; rdtsc_refhpet : Z; rdtsc_ref : Z }.
Definition initial_backend : backend := Backend false (of_Z 0) 0 0.

Definition billion : Z := 1000000000.
Definition clock_failed : Z := Z.lor (INA_ES S_OPERATION) (INA_ERR E_FAILED).

(** What a calibration reads: clock and counter before and after the loop, and
    the time of day with its counter. *)
Record readings := Readings { begints : timespec; begin : Z; end_ : Z; endts : timespec; hpet : timespec; now : Z }.

Definition __ina_time_rdtsc_timespec_diff (ts1 ts2 : timespec) : timespec :=
  let s := tv_sec ts1 - tv_sec ts2 in
  let n := tv_nsec ts1 - tv_nsec ts2 in
  if n <? 0 then Timespec (s - 1) (n + billion) else Timespec s n.

Definition __ina_time_rdtsc_calibrate_ticks (r : readings) (b : backend) : backend :=
  let d := __ina_time_rdtsc_timespec_diff (endts r) (begints r) in
  let nsecElapsed := u64 (tv_sec d * billion + tv_nsec d) in
  Backend (rdtsc_enabled b) (ddiv (of_Z (end_ r -₆₄ begin r)) (of_Z nsecElapsed))
    (u64 (tv_sec (hpet r) * billion + tv_nsec (hpet r))) (now r).

Definition ina_time_tsc_enable_rdtsc (r : readings) (b : backend) : backend :=
  let b := if deqb (rdtsc_ticks_per_nano b) (of_Z 0) then __ina_time_rdtsc_calibrate_ticks r b else b in
  Backend true (rdtsc_ticks_per_nano b) (rdtsc_refhpet b) (rdtsc_ref b).
Definition ina_time_tsc_disable_rdtsc (b : backend) : backend :=
  Backend false (of_Z 0) (rdtsc_refhpet b) (rdtsc_ref b).

(** Reading: [clock] is the clock, if it can be read, and [counter] the counter. *)
Definition __ina_time_tsc_os_read (clock : option timespec) (t : tsc) : tsc * result unit :=
  match clock with Some x => (set_tp t x, Ok tt) | None => (t, Err clock_failed) end.
Definition __ina_time_tsc_rdtsc_read (b : backend) (counter : Z) (t : tsc) : tsc * result unit :=
  (Tsc (tp t) counter (rdtsc_ref b) (rdtsc_refhpet b) (rdtsc_ticks_per_nano b), Ok tt).
Definition ina_time_read_tsc_clock (b : backend) (clock : option timespec) (counter : Z) (t : tsc) : tsc * result unit :=
  if rdtsc_enabled b then __ina_time_tsc_rdtsc_read b counter t else __ina_time_tsc_os_read clock t.

(** Seconds and nanoseconds. *)
Definition __ina_time_tsc_os_secnan (t : tsc) : timespec :=
  let stamp := u64 (tv_sec (tp t) * billion + tv_nsec (tp t)) in
  let elapsed := stamp -₆₄ ref t in
  let epoch_ns := refhpet t +₆₄ elapsed in
  Timespec (epoch_ns / billion) (epoch_ns mod billion).
Definition __ina_time_tsc_rdtsc_secnan (t : tsc) : timespec :=
  let diff_ns := to_u64 (ddiv (of_Z (rtp t -₆₄ ref t)) (ticks_per_nano t)) in
  let ns := refhpet t +₆₄ diff_ns in
  Timespec (ns / billion) (ns mod billion).
Definition ina_time_tsc_seconds_nanos (b : backend) (t : tsc) : timespec :=
  if rdtsc_enabled b then __ina_time_tsc_rdtsc_secnan t else __ina_time_tsc_os_secnan t.

Definition ina_time_tsc_millis (b : backend) (t : tsc) : Z :=
  let x := ina_time_tsc_seconds_nanos b t in
  tv_sec x * 1000 + Z.quot (Z.quot (tv_nsec x) 1000) 1000.

(** ** Nanoseconds *)
Definition nanos (x : timespec) : Z := tv_sec x * billion + tv_nsec x.
Definition normal (x : timespec) : Prop := 0 <= tv_nsec x < billion.
Definition valid_time (x : timespec) : Prop := normal x /\ 0 <= tv_sec x /\ nanos x < 2 ^ 63.

Lemma nanos_inj (x y : timespec) : normal x -> normal y -> nanos x = nanos y -> x = y.
Proof.
  destruct x as [s1 n1], y as [s2 n2]. unfold normal, nanos, billion. cbn. intros H1 H2 He. f_equal; lia.
Qed.

Lemma div_billion (n : Z) : nanos (Timespec (n / billion) (n mod billion)) = n /\ normal (Timespec (n / billion) (n mod billion)).
Proof.
  unfold nanos, normal. cbn. pose proof (Z.div_mod n billion ltac:(done)). pose proof (Z.mod_pos_bound n billion ltac:(done)).
  lia.
Qed.

Lemma timespec_diff_spec (x y : timespec) : normal x -> normal y ->
  nanos (__ina_time_rdtsc_timespec_diff x y) = nanos x - nanos y /\ normal (__ina_time_rdtsc_timespec_diff x y).
Proof.
  unfold __ina_time_rdtsc_timespec_diff, nanos, normal, billion. intros Hx Hy.
  destruct (Z.ltb_spec (tv_nsec x - tv_nsec y) 0); cbn; lia.
Qed.

Lemma valid_nanos (x : timespec) : valid_time x -> u64 (nanos x) = nanos x.
Proof.
  intros (Hn & Hs & Hb). apply wrap_small. unfold normal, nanos, in_width in *. split; [|lia]. unfold billion in *. lia.
Qed.

(** The clock of the operating system without a reference is read as it is. *)
Lemma os_secnan_id (t : tsc) : valid_time (tp t) -> ref t = 0 -> refhpet t = 0 -> __ina_time_tsc_os_secnan t = tp t.
Proof.
  intros Hv Hr Hh. unfold __ina_time_tsc_os_secnan. fold (nanos (tp t)). rewrite Hr, Hh, Z.sub_0_r, Z.add_0_l.
  rewrite !valid_nanos by done.
  destruct (div_billion (nanos (tp t))) as [H1 H2]. apply nanos_inj; [done|by apply Hv|done].
Qed.

(** Both backends give normal times of the same instant.  For every time
    stamp the seconds and nanoseconds of a backend are in their ranges and add up
    to the reference plus the time since the reference, modulo 64 bits, and the
    milliseconds are that number rounded down; the clock without a reference is
    given as it was read. *)
Theorem tsc_time_is_normal (b : backend) (t : tsc) :
  let x := ina_time_tsc_seconds_nanos b t in
  let since := if rdtsc_enabled b then to_u64 (ddiv (of_Z (rtp t -₆₄ ref t)) (ticks_per_nano t)) else nanos (tp t) - ref t in
  normal x /\ 0 <= tv_sec x /\ nanos x = u64 (refhpet t + since) /\
  ina_time_tsc_millis b t = u64 (refhpet t + since) / 1000000 /\
  (rdtsc_enabled b = false -> valid_time (tp t) -> ref t = 0 -> refhpet t = 0 -> x = tp t).
Proof.
  cbn zeta. unfold ina_time_tsc_millis. set (x := ina_time_tsc_seconds_nanos b t).
  set (since := if rdtsc_enabled b then _ else _).
  assert (x = Timespec (u64 (refhpet t + since) / billion) (u64 (refhpet t + since) mod billion)) as Hx.
  { subst x since. unfold ina_time_tsc_seconds_nanos. destruct (rdtsc_enabled b); [done|].
    unfold __ina_time_tsc_os_secnan. fold (nanos (tp t)). by rewrite wrap_sub_l, wrap_add_r. }
  assert (0 <= u64 (refhpet t + since)) as Hnn by (apply wrap_in_width; lia).
  rewrite Hx. destruct (div_billion (u64 (refhpet t + since))) as [H1 H2].
  split; [exact H2|]. cbn [tv_sec tv_nsec]. split; [apply Z.div_pos; [done|done]|]. split; [exact H1|]. split.
  - set (n := u64 (refhpet t + since)) in *. rewrite !Z.quot_div_nonneg by (try apply Z.quot_pos; try apply Z.mod_pos_bound; try done).
    replace (n / 1000000) with ((n / billion * 1000 * 1000000 + n mod billion) / 1000000)
      by (f_equal; pose proof (Z.div_mod n billion ltac:(done)); unfold billion in *; lia).
    by rewrite Z.div_add_l, Z.div_div by done.
  - intros Hb Hv Hr Hh. rewrite <- Hx. subst x. unfold ina_time_tsc_seconds_nanos. rewrite Hb. by apply os_secnan_id.
Qed.

End Time.

(** Exact fractions as an arithmetic. *)
#[export] Instance double_Q : Double Q :=
  {| of_Z := inject_Z; to_u64 := fun q => u64 (Qfloor q); dadd := Qplus; ddiv := Qdiv; deqb := Qeq_bool;
     zero_eqb := eq_refl |}.

Lemma tsc_time_is_normal_witness :
  ina_time_tsc_seconds_nanos (initial_backend (D := Q)) (Tsc (Timespec 12 345) 0 0 0 (of_Z 0)) = Timespec 12 345.
Proof.
  destruct (tsc_time_is_normal (initial_backend (D := Q)) (Tsc (Timespec 12 345) 0 0 0 (of_Z 0))) as (_ & _ & _ & _ & H).
  apply H; [done|by repeat split|done|done].
Defined.

End Time.
