(* ===== verification/Stopwatch.v ===== *)
(** * Stopwatches (stopwatch.c, stopwatch.h; POSIX)

    A stopwatch has a start and a stop time and an array of stamps; it may lie
    in shared memory, where several processes stamp it at once.  The clock is an
    argument of every operation that reads it, floating point numbers are the
    class of Time.v.  The memory of a stopwatch counts its records: a store
    behind the memory of its pool makes an operation [None].  A pool in shared
    memory is a whole number of pages. *)
From Stdlib Require Import ZArith Lia Bool String QArith.
From stdpp Require Import base numbers option list.
From S2P Require Import Prelude Error Libc Mempool Time.

Module Stopwatch.
Import Error Libc Time.

Definition INA_STOPWATCH_MAX_USERDATA_LEN : Z := 32.
Definition INA_STOPWATCH_MAX_STAMPS : Z := 1024.

Section Stopwatch.
Context {D : Type} `{Double D}.
(** The chosen time backend. *)
Variable b : backend (D := D).

Abbreviation zero := (of_Z 0 : D).
Abbreviation time := (Time.tsc (D := D)).

(** [struct ina_stopwatch_ts_s], [struct ina_stopwatch_tv_s] with as many
    records as its memory has, and [struct ina_stopwatch_s]. *)
Record ts := Ts { stamp : time; ts_duration : D; user_data1 : text; user_data2 : text }.
Record tv := Tv {
  start : time; stop : time; max_stamps : Z; next_stamp : Z; duration : D; stamps : list ts
}.
Record stopwatch := Sw { sw_id : Z; sw_tv : tv; sw_ts : option nat }.

Definition ts_zero : ts := Ts tsc_zero zero [] [].
Definition set_start (x : time) (t : tv) : tv := Tv x (stop t) (max_stamps t) (next_stamp t) (duration t) (stamps t).
Definition set_stop (x : time) (t : tv) : tv := Tv (start t) x (max_stamps t) (next_stamp t) (duration t) (stamps t).
Definition set_next (n : Z) (t : tv) : tv := Tv (start t) (stop t) (max_stamps t) n (duration t) (stamps t).
Definition set_duration (x : D) (t : tv) : tv := Tv (start t) (stop t) (max_stamps t) (next_stamp t) x (stamps t).
Definition set_stamps (l : list ts) (t : tv) : tv := Tv (start t) (stop t) (max_stamps t) (next_stamp t) (duration t) l.

(** ** Creation *)

(** Sizes of the structures, and where the records start. *)
Definition sizeof_stopwatch : Z := 32.
Definition sizeof_ts : Z := 120.
Definition offset_duration : Z := 112.
Definition offset_stamps : Z := 128.
Definition page_size : Z := 4096.

(** The bytes behind [tv]: those of the pool, which in shared memory has a
    counter in front and ends with a page. *)
Definition usable (id size : Z) : Z :=
  let size := Mempool.INA_MEM_ALIGN (Z.max size Mempool.INA_MEM_MIN_POOL_SIZE) in
  if 0 <? id then (Mempool.INA_MEM_ALIGN (size + 8) + (page_size - 1)) / page_size * page_size - 8 else size.

Definition __ina_stopwatch_init (id max : Z) : option stopwatch :=
  let size := u64 (sizeof_stopwatch + max * sizeof_ts) in
  let room := usable id size in
  if room <? offset_duration + 8 then None else
  Some (Sw id (Tv tsc_zero tsc_zero max 0 (of_Z (-1))
    (replicate (Z.to_nat ((room - offset_stamps) / sizeof_ts)) ts_zero)) None).

Definition ina_stopwatch_new (id max : Z) : option stopwatch :=
  let size := if max =? -1 then (if 0 <? id then INA_STOPWATCH_MAX_STAMPS else 0) else INA_STOPWATCH_MAX_STAMPS in
  __ina_stopwatch_init id size.

(** ** State *)

Definition ina_stopwatch_started (t : tv) : result unit :=
  if deqb (duration t) zero then Ok tt else Err (INA_ERR_NOT_ E_RUNNING).

Definition ina_stopwatch_valid (t : tv) : result unit :=
  let s := tp (start t) in let e := tp (stop t) in
  if tv_sec e <? tv_sec s then Err INA_ERR_INVALID
  else if (tv_sec e =? tv_sec s) && (tv_nsec e <? tv_nsec s) then Err INA_ERR_INVALID
  else Ok tt.

Definition ina_stopwatch_duration (t : tv) : result D :=
  match ina_stopwatch_started t with Err _ => Ok (duration t) | Ok _ => Err INA_ERR_INVALID_ARGUMENT end.

(** The seconds between two times as the code computes them. *)
Definition seconds (x y : timespec) : D :=
  dadd (of_Z (tv_sec y - tv_sec x)) (ddiv (of_Z (tv_nsec y - tv_nsec x)) (of_Z 1000000000)).

(** ** Starting, stamping and stopping *)

Definition ina_stopwatch_start (from : option time) (clock : option timespec) (counter : Z) (t : tv)
    : option (tv * result unit) :=
  let t := set_next 0 (set_duration zero t) in
  if Z.of_nat (length (stamps t)) <? max_stamps t then None else
  let t := set_stamps (replicate (Z.to_nat (max_stamps t)) ts_zero ++ drop (Z.to_nat (max_stamps t)) (stamps t)) t in
  Some (match from with
        | Some x => (set_start x t, Ok tt)
        | None => let '(x, r) := ina_time_read_tsc_clock b clock counter (start t) in (set_start x t, r)
        end).

(** [strncpy] of the user's data; [None] leaves what was there. *)
Definition user_data (new : option text) (old : text) : text :=
  match new with Some d => take (Z.to_nat (INA_STOPWATCH_MAX_USERDATA_LEN - 1)) d | None => old end.

(** A stamp takes the next index in one step and stores its record in another. *)
Definition claim (t : tv) : tv * Z := (set_next (next_stamp t + 1) t, next_stamp t).
Definition write_stamp (si : Z) (clock : option timespec) (counter : Z) (d1 d2 : option text) (t : tv) : option (tv * result unit) :=
  if max_stamps t <? si then Some (t, Err (INA_ERR E_OVERFLOW)) else
  r ← stamps t !! Z.to_nat si;
  let '(x, _) := ina_time_read_tsc_clock b clock counter (stamp r) in
  Some (set_stamps (<[Z.to_nat si := Ts x (ts_duration r) (user_data d1 (user_data1 r)) (user_data d2 (user_data2 r))]> (stamps t)) t, Ok tt).

Definition ina_stopwatch_stamp (clock : option timespec) (counter : Z) (d1 d2 : option text) (t : tv)
    : option (tv * result unit) :=
  if max_stamps t =? 0 then Some (t, Err (Z.lor (INA_ES S_STATE) INA_ERR_INVALID)) else
  let '(t, si) := claim t in write_stamp si clock counter d1 d2 t.

(** The time of a stamp with the reference of the start, in seconds and
    nanoseconds. *)
Definition normalise (x : time) : time := set_tp x (ina_time_tsc_seconds_nanos b x).
Definition with_ref_of (x y : time) : time := set_ref y (ref x) (refhpet x).

Definition ina_stopwatch_stop (clock : option timespec) (counter : Z) (t : tv) : tv * result unit :=
  let '(e, _) := ina_time_read_tsc_clock b clock counter (stop t) in
  let e := with_ref_of (start t) e in
  let s := normalise (start t) in
  let e := normalise e in
  let t := set_duration (seconds (tp s) (tp e)) (set_stop e (set_start s t)) in
  (t, ina_stopwatch_valid t).

(** ** Reading the stamps *)

(** The duration of a stamp is computed when it is read first. *)
Definition stamp_duration (i : nat) (r : ts) (t : tv) : option (tv * ts) :=
  if negb (deqb (ts_duration r) zero) then Some (t, r) else
  match i with
  | O =>
      let s := normalise (start t) in
      let x := normalise (with_ref_of s (stamp r)) in
      let r := Ts x (seconds (tp s) (tp x)) (user_data1 r) (user_data2 r) in
      Some (set_stamps (<[i := r]> (stamps t)) (set_start s t), r)
  | S p =>
      prev ← stamps t !! p;
      let x := normalise (with_ref_of (start t) (stamp r)) in
      let r := Ts x (seconds (tp (stamp prev)) (tp x)) (user_data1 r) (user_data2 r) in
      Some (set_stamps (<[i := r]> (stamps t)) t, r)
  end.

Definition ina_stopwatch_read_stamp (index : Z) (w : stopwatch) : option (stopwatch * Z * result ts) :=
  let t := sw_tv w in
  let w := Sw (sw_id w) t None in
  if max_stamps t =? 0 then Some (w, index, Err (INA_ERR E_EMPTY)) else
  if next_stamp t <=? index then Some (w, index, Err (INA_ERR E_END_OF)) else
  let index := if index =? -1 then next_stamp t else index in
  if index <? 0 then None else
  r ← stamps t !! Z.to_nat index;
  '(t, r) ← stamp_duration (Z.to_nat index) r t;
  Some (Sw (sw_id w) t (Some (Z.to_nat index)), index, Ok r).

(** [foreach] as it is written: the index stays the same.  [f] is the callback
    with its state; [None]: it does not come to an end within the fuel, or
    reads outside the records. *)
Fixpoint ina_stopwatch_foreach_stamp {St : Type} (fuel : nat) (f : ts -> St -> St * bool) (index : Z) (w : stopwatch) (st : St)
    : option (stopwatch * St) :=
  match fuel with
  | O => None
  | S fuel =>
      '(w, index, r) ← ina_stopwatch_read_stamp index w;
      match r with
      | Err _ => Some (w, st)
      | Ok r => let '(st, ok) := f r st in if ok : bool then ina_stopwatch_foreach_stamp fuel f index w st else Some (w, st)
      end
  end.

(** ** Measuring *)

(** Stamps one after the other, and reading several stamps. *)
Fixpoint stamp_all (xs : list timespec) (t : tv) : option (tv * list (result unit)) :=
  match xs with
  | [] => Some (t, [])
  | x :: xs =>
      '(t, r) ← ina_stopwatch_stamp (Some x) 0 None None t;
      '(t, rs) ← stamp_all xs t; Some (t, r :: rs)
  end.
Fixpoint read_all (idx : list nat) (w : stopwatch) : option (stopwatch * list (result ts)) :=
  match idx with
  | [] => Some (w, [])
  | i :: idx =>
      '(w, _, r) ← ina_stopwatch_read_stamp (Z.of_nat i) w;
      '(w, rs) ← read_all idx w; Some (w, r :: rs)
  end.

(** A stopwatch that was started at [t0] and stamped at [xs]. *)
Record measured (t0 : timespec) (xs : list timespec) (t : tv) : Prop := {
  ms_start : tp (start t) = t0;
  ms_ref : ref (start t) = 0;
  ms_refhpet : refhpet (start t) = 0;
  ms_next : next_stamp t = Z.of_nat (length xs);
  ms_max : (length xs <= Z.to_nat (max_stamps t) <= length (stamps t))%nat;
  ms_stamps : forall i x, xs !! i = Some x -> exists r p, stamps t !! i = Some r /\ (t0 :: xs) !! i = Some p /\
    tp (stamp r) = x /\ (ts_duration r = zero \/ ts_duration r = seconds p x);
  ms_rest : forall i, (length xs <= i < Z.to_nat (max_stamps t))%nat -> stamps t !! i = Some ts_zero
}.

Hypothesis os_clock : rdtsc_enabled b = false.

Lemma read_os (x : timespec) (c : Z) (y : time) : ina_time_read_tsc_clock b (Some x) c y = (set_tp y x, Ok tt).
Proof. unfold ina_time_read_tsc_clock. by rewrite os_clock. Qed.

Lemma normalise_id (x : time) : valid_time (tp x) -> ref x = 0 -> refhpet x = 0 -> normalise x = x.
Proof.
  intros Hv Hr Hh. unfold normalise, ina_time_tsc_seconds_nanos. rewrite os_clock, os_secnan_id by done. by destruct x.
Qed.

Lemma start_spec (t0 : timespec) (c : Z) (t : tv) :
  (Z.to_nat (max_stamps t) <= length (stamps t))%nat -> 0 <= max_stamps t -> ref (start t) = 0 -> refhpet (start t) = 0 ->
  exists t', ina_stopwatch_start None (Some t0) c t = Some (t', Ok tt) /\ measured t0 [] t' /\ max_stamps t' = max_stamps t.
Proof.
  intros Hl Hm Hr Hh. unfold ina_stopwatch_start. cbn [set_next set_duration stamps max_stamps].
  destruct (Z.ltb_spec (Z.of_nat (length (stamps t))) (max_stamps t)); [lia|]. rewrite read_os.
  eexists. split; [reflexivity|]. split; [|done]. split; try done; cbn [max_stamps set_start set_stamps stamps length].
  - change (max_stamps (set_next _ _)) with (max_stamps t). rewrite length_app, length_replicate, length_drop. lia.
  - intros i [_ Hi]. change (max_stamps _) with (max_stamps t) in Hi. cbn [set_start set_stamps stamps].
    rewrite lookup_app_l by (rewrite length_replicate; lia). by apply lookup_replicate_2.
Qed.

Lemma stamp_spec (t0 x : timespec) (xs : list timespec) (t : tv) :
  measured t0 xs t -> (length xs < Z.to_nat (max_stamps t))%nat ->
  exists t', ina_stopwatch_stamp (Some x) 0 None None t = Some (t', Ok tt) /\ measured t0 (xs ++ [x]) t' /\
    max_stamps t' = max_stamps t.
Proof.
  intros [M1 M2 M3 M4 M5 M6 M7] Hlt. unfold ina_stopwatch_stamp, claim, write_stamp.
  destruct (Z.eqb_spec (max_stamps t) 0); [lia|]. rewrite M4. cbn [set_next max_stamps stamps].
  destruct (Z.ltb_spec (max_stamps t) (Z.of_nat (length xs))); [lia|].
  rewrite Nat2Z.id, (M7 (length xs)) by lia. cbn [mbind option_bind]. rewrite read_os.
  eexists. split; [reflexivity|]. split; [|done].
  split; cbn [start set_stamps set_next next_stamp max_stamps stamps]; try done; rewrite ?length_app, ?length_insert.
  - cbn. lia.
  - cbn. lia.
  - intros i y Hi. apply lookup_snoc_Some in Hi as [[Hi Hy]|[-> ->]].
    + destruct (M6 i y Hy) as (r & p & H1 & H2 & H3 & H4). exists r, p. rewrite list_lookup_insert_ne by lia.
      split; [done|]. split; [|done]. rewrite app_comm_cons. by apply lookup_app_l_Some.
    + destruct (lookup_lt_is_Some_2 (t0 :: xs) (length xs)) as [p Hp]; [cbn; lia|].
      eexists _, p. rewrite list_lookup_insert_eq by lia. split; [done|].
      split; [rewrite app_comm_cons; by apply lookup_app_l_Some|]. split; [done|by left].
  - intros i Hi. cbn in Hi. rewrite list_lookup_insert_ne by lia. apply M7. lia.
Qed.

Lemma stamp_all_spec (ys : list timespec) : forall (t0 : timespec) (xs : list timespec) (t : tv),
  measured t0 xs t -> (length xs + length ys <= Z.to_nat (max_stamps t))%nat ->
  exists t', stamp_all ys t = Some (t', map (fun _ => Ok tt) ys) /\ measured t0 (xs ++ ys) t'.
Proof.
  induction ys as [|y ys IH]; intros t0 xs t Hm Hl.
  - exists t. by rewrite app_nil_r.
  - cbn [stamp_all length] in *. destruct (stamp_spec t0 y xs t Hm) as (t1 & H1 & Hm1 & Hmax); [lia|].
    rewrite H1. cbn [mbind option_bind]. destruct (IH t0 (xs ++ [y]) t1 Hm1) as (t2 & H2 & Hm2).
    { rewrite length_app, Hmax. cbn. lia. }
    rewrite H2. exists t2. split; [done|]. by rewrite <- app_assoc in Hm2.
Qed.

Lemma valid_spec (t : tv) : normal (tp (start t)) -> normal (tp (stop t)) ->
  ina_stopwatch_valid t = if nanos (tp (start t)) <=? nanos (tp (stop t)) then Ok tt else Err INA_ERR_INVALID.
Proof.
  unfold ina_stopwatch_valid, normal, nanos, billion. intros Hs He.
  destruct (Z.ltb_spec (tv_sec (tp (stop t))) (tv_sec (tp (start t))));
  destruct (Z.eqb_spec (tv_sec (tp (stop t))) (tv_sec (tp (start t))));
  destruct (Z.ltb_spec (tv_nsec (tp (stop t))) (tv_nsec (tp (start t)))); cbn [andb];
  destruct (Z.leb_spec (tv_sec (tp (start t)) * 1000000000 + tv_nsec (tp (start t)))
    (tv_sec (tp (stop t)) * 1000000000 + tv_nsec (tp (stop t)))); done || lia.
Qed.

Lemma stop_spec (t0 e : timespec) (xs : list timespec) (c : Z) (t : tv) :
  measured t0 xs t -> valid_time t0 -> valid_time e ->
  exists t', ina_stopwatch_stop (Some e) c t = (t', if nanos t0 <=? nanos e then Ok tt else Err INA_ERR_INVALID) /\
    measured t0 xs t' /\ duration t' = seconds t0 e /\ tp (stop t') = e.
Proof.
  intros [M1 M2 M3 M4 M5 M6 M7] H0 He. unfold ina_stopwatch_stop. rewrite read_os.
  rewrite !normalise_id by (cbn; by rewrite ?M1, ?M2, ?M3). eexists. split.
  - f_equal. rewrite valid_spec; cbn; rewrite ?M1; [done|by apply H0|by apply He].
  - cbn. rewrite M1. split; [|done]. by split.
Qed.

(** The instant before a stamp: the start or the stamp before. *)
Definition reads (t0 : timespec) (xs : list timespec) (i : nat) (r : result ts) : Prop :=
  exists x p y, xs !! i = Some x /\ (t0 :: xs) !! i = Some p /\ r = Ok y /\ tp (stamp y) = x /\ ts_duration y = seconds p x.

Lemma update_measured (t0 x p : timespec) (xs : list timespec) (t t' : tv) (i : nat) (r : ts) :
  stamps t' = <[i := r]> (stamps t) ->
  measured t0 xs t -> xs !! i = Some x -> (t0 :: xs) !! i = Some p -> tp (stamp r) = x -> ts_duration r = seconds p x ->
  start t' = start t -> next_stamp t' = next_stamp t -> max_stamps t' = max_stamps t ->
  measured t0 xs t'.
Proof.
  intros E4 [M1 M2 M3 M4 M5 M6 M7] Hx Hp Hr Hd E1 E2 E3. pose proof (lookup_lt_Some _ _ _ Hx) as Hi.
  split; rewrite ?E1, ?E2, ?E3, ?E4, ?length_insert; try done.
  - intros j y Hy. destruct (decide (i = j)) as [<-|Hne].
    + exists r, p. rewrite list_lookup_insert_eq by lia. simplify_eq. split; [done|]. split; [done|]. split; [done|by right].
    + destruct (M6 j y Hy) as (r' & p' & H1 & H2). exists r', p'. by rewrite list_lookup_insert_ne.
  - intros j Hj. rewrite list_lookup_insert_ne by lia. by apply M7.
Qed.

Lemma read_spec (t0 : timespec) (xs : list timespec) (w : stopwatch) (i : nat) :
  measured t0 xs (sw_tv w) -> valid_time t0 -> Forall valid_time xs -> (i < length xs)%nat ->
  exists w' r, ina_stopwatch_read_stamp (Z.of_nat i) w = Some (w', Z.of_nat i, r) /\ reads t0 xs i r /\ measured t0 xs (sw_tv w').
Proof.
  intros Hm H0 Hxs Hi. destruct (lookup_lt_is_Some_2 xs i Hi) as [x Hx]. pose proof Hm as [M1 M2 M3 M4 M5 M6 M7].
  destruct (M6 i x Hx) as (r & p & Hr & Hp & Htp & Hd). unfold ina_stopwatch_read_stamp.
  destruct (Z.eqb_spec (max_stamps (sw_tv w)) 0); [lia|]. rewrite M4.
  destruct (Z.leb_spec (Z.of_nat (length xs)) (Z.of_nat i)); [lia|]. destruct (Z.eqb_spec (Z.of_nat i) (-1)); [lia|].
  destruct (Z.ltb_spec (Z.of_nat i) 0); [lia|]. rewrite Nat2Z.id, Hr. cbn [mbind option_bind]. unfold stamp_duration.
  assert (valid_time x) as Hvx by (rewrite Forall_forall in Hxs; apply Hxs; by eapply list_elem_of_lookup_2).
  destruct (deqb (ts_duration r) zero) eqn:He; cbn [negb].
  - assert (forall y : time, ref y = 0 -> refhpet y = 0 -> normalise (with_ref_of y (stamp r)) = with_ref_of y (stamp r)) as Hn.
    { intros y Hy1 Hy2. apply normalise_id; [by rewrite <- Htp in Hvx|done|done]. }
    destruct i as [|i].
    + rewrite (normalise_id (start (sw_tv w))) by (try done; by rewrite M1). rewrite Hn by done. cbn [mbind option_bind].
      do 2 eexists. split; [reflexivity|]. cbn in Hp. simplify_eq. split.
      * do 3 eexists. split; [exact Hx|]. split; [reflexivity|]. split; [reflexivity|]. by split.
      * eapply (update_measured _ (tp (stamp r)) _ _ _ _ 0); [reflexivity|exact Hm|exact Hx|reflexivity..].
    + cbn in Hp. destruct (M6 i p Hp) as (rp & pp & Hrp & _ & Htpp & _). rewrite Hrp. cbn [mbind option_bind].
      rewrite Hn by done. do 2 eexists. split; [reflexivity|]. simplify_eq. split.
      * do 3 eexists. split; [exact Hx|]. split; [exact Hp|]. split; [reflexivity|]. by split.
      * eapply (update_measured _ (tp (stamp r)) (tp (stamp rp)) _ _ _ (S i));
          [reflexivity|exact Hm|exact Hx|exact Hp|reflexivity..].
  - do 2 eexists. split; [reflexivity|]. split; [|exact Hm]. exists x, p, r. split; [done|]. split; [done|]. split; [done|].
    split; [done|]. destruct Hd as [Hd|Hd]; [|done]. rewrite Hd, zero_eqb in He. done.
Qed.

Lemma read_all_spec (t0 : timespec) (xs : list timespec) (idx : list nat) : forall (w : stopwatch),
  measured t0 xs (sw_tv w) -> valid_time t0 -> Forall valid_time xs -> Forall (fun i => i < length xs)%nat idx ->
  exists w' rs, read_all idx w = Some (w', rs) /\ Forall2 (reads t0 xs) idx rs.
Proof.
  induction idx as [|i idx IH]; intros w Hm H0 Hxs Hi; [by exists w, []|]. apply Forall_cons in Hi as [Hi His].
  destruct (read_spec t0 xs w i Hm H0 Hxs Hi) as (w1 & r & H1 & Hr & Hm1). cbn [read_all]. rewrite H1. cbn [mbind option_bind].
  destruct (IH w1 Hm1 H0 Hxs His) as (w2 & rs & H2 & Hrs). rewrite H2. exists w2, (r :: rs). split; [done|]. by constructor.
Qed.

(** A new stopwatch in shared memory has room for its records and one more. *)
Lemma new_shared (id max : Z) : 0 < id ->
  exists t, ina_stopwatch_new id max = Some (Sw id t None) /\ max_stamps t = 1024 /\
    (Z.to_nat (max_stamps t) < length (stamps t))%nat /\ ref (start t) = 0 /\ refhpet (start t) = 0.
Proof.
  intros Hid. unfold ina_stopwatch_new, __ina_stopwatch_init, usable.
  assert (0 <? id = true) as -> by (by apply Z.ltb_lt).
  replace (if max =? -1 then INA_STOPWATCH_MAX_STAMPS else INA_STOPWATCH_MAX_STAMPS) with 1024 by (by destruct (max =? -1)).
  set (room := _ - 8). assert (room = 126968) as -> by (by vm_compute). cbn [Z.ltb Z.compare].
  eexists. split; [reflexivity|]. cbn [max_stamps stamps start]. rewrite length_replicate.
  split; [done|]. split; [|done]. apply Nat.ltb_lt. by vm_compute.
Qed.

(** A stopwatch measures.  For a new stopwatch in shared memory and the clock
    of the operating system: started at any time, stamped at up to 1024 times and
    stopped, it takes every stamp, its duration is that from start to stop, the
    stop is valid exactly when it is not before the start, and its stamps, read in
    any order and as often as wanted, give their time and the duration since the
    stamp before, or since the start. *)
Theorem stopwatch_measures (id max : Z) (t0 e : timespec) (xs : list timespec) (idx : list nat) (c1 c2 : Z) :
  0 < id -> valid_time t0 -> valid_time e -> Forall valid_time xs -> (length xs <= 1024)%nat ->
  Forall (fun i => i < length xs)%nat idx ->
  exists t t1 t2 t3 w rs,
    ina_stopwatch_new id max = Some (Sw id t None) /\
    ina_stopwatch_start None (Some t0) c1 t = Some (t1, Ok tt) /\
    stamp_all xs t1 = Some (t2, map (fun _ => Ok tt) xs) /\
    ina_stopwatch_stop (Some e) c2 t2 = (t3, if nanos t0 <=? nanos e then Ok tt else Err INA_ERR_INVALID) /\
    duration t3 = seconds t0 e /\
    read_all idx (Sw id t3 None) = Some (w, rs) /\ Forall2 (reads t0 xs) idx rs.
Proof.
  intros Hid H0 He Hxs Hl Hidx. destruct (new_shared id max Hid) as (t & Hnew & Hmax & Hlen & Hr & Hh).
  destruct (start_spec t0 c1 t) as (t1 & H1 & Hm1 & Hmax1); [lia|lia|done|done|].
  destruct (stamp_all_spec xs t0 [] t1 Hm1) as (t2 & H2 & Hm2); [rewrite Hmax1, Hmax; cbn [length]; lia|].
  destruct (stop_spec t0 e xs c2 t2 Hm2 H0 He) as (t3 & H3 & Hm3 & Hd & _).
  destruct (read_all_spec t0 xs idx (Sw id t3 None) Hm3 H0 Hxs Hidx) as (w & rs & H4 & Hrs).
  by exists t, t1, t2, t3, w, rs.
Qed.

(** ** Stamping in parallel

    Threads share the stopwatch; each takes an index in one step, with the
    atomic addition of the code, and stores its stamp in another. *)
Inductive pc : Set := Ready | Claimed (si : Z) | Stamped (si : Z) | Refused (si : Z).
Record thread := Thread { th_clock : timespec; th_data1 : option text; th_data2 : option text; th_pc : pc }.
Definition with_pc (p : pc) (th : thread) : thread := Thread (th_clock th) (th_data1 th) (th_data2 th) p.

Definition step (i : nat) (s : tv * list thread) : option (tv * list thread) :=
  let '(t, ths) := s in
  th ← ths !! i;
  match th_pc th with
  | Ready => let '(t, si) := claim t in Some (t, <[i := with_pc (Claimed si) th]> ths)
  | Claimed si =>
      '(t, r) ← write_stamp si (Some (th_clock th)) 0 (th_data1 th) (th_data2 th) t;
      Some (t, <[i := with_pc (match r with Ok _ => Stamped si | Err _ => Refused si end) th]> ths)
  | Stamped _ | Refused _ => Some s
  end.
Fixpoint run (ls : list nat) (s : tv * list thread) : option (tv * list thread) :=
  match ls with [] => Some s | i :: ls => s ← step i s; run ls s end.
Lemma run_stamps_app (ls ls' : list nat) (s : tv * list thread) : run (ls ++ ls') s = (s ← run ls s; run ls' s).
Proof. revert s. induction ls as [|i ls IH]; intros s; cbn [app run]; [done|]. by destruct (step i s); cbn [mbind option_bind]. Qed.

Definition slot (p : pc) : option Z := match p with Ready => None | Claimed si | Stamped si | Refused si => Some si end.
Definition index_of (ths : list thread) (i : nat) : option Z := th ← ths !! i; slot (th_pc th).

(** The threads that have an index. *)
Fixpoint taken (ths : list thread) : nat :=
  match ths with [] => 0 | th :: ths => (if slot (th_pc th) then 1 else 0) + taken ths end.

Record stamping (max : Z) (ths0 : list thread) (t : tv) (ths : list thread) : Prop := {
  sg_max : max_stamps t = max;
  sg_room : Z.min (Z.of_nat (length ths)) (max + 1) <= Z.of_nat (length (stamps t));
  sg_next : next_stamp t = Z.of_nat (taken ths);
  sg_same : forall i th, ths !! i = Some th -> exists th0, ths0 !! i = Some th0 /\ th = with_pc (th_pc th) th0;
  sg_slots : forall i si, index_of ths i = Some si -> 0 <= si < next_stamp t;
  sg_distinct : forall i j si, index_of ths i = Some si -> index_of ths j = Some si -> i = j;
  sg_all : forall si, 0 <= si < next_stamp t -> exists i, index_of ths i = Some si;
  sg_stamped : forall i th si, ths !! i = Some th -> th_pc th = Stamped si ->
    si <= max /\ exists r, stamps t !! Z.to_nat si = Some r /\ tp (stamp r) = th_clock th /\
      (forall d, th_data1 th = Some d -> user_data1 r = take 31 d) /\ (forall d, th_data2 th = Some d -> user_data2 r = take 31 d);
  sg_refused : forall i th si, ths !! i = Some th -> th_pc th = Refused si -> max < si
}.

Lemma index_of_insert (ths : list thread) (i j : nat) (th : thread) (p : pc) : ths !! i = Some th ->
  index_of (<[i := with_pc p th]> ths) j = if decide (i = j) then slot p else index_of ths j.
Proof.
  intros Hi. unfold index_of. case_decide as Hij.
  - subst j. by rewrite list_lookup_insert_eq by (by eapply lookup_lt_Some).
  - by rewrite list_lookup_insert_ne.
Qed.

Lemma taken_insert (ths : list thread) (i : nat) (th : thread) (p : pc) : ths !! i = Some th -> is_Some (slot p) ->
  taken (<[i := with_pc p th]> ths) = (taken ths + if bool_decide (is_Some (slot (th_pc th))) then 0 else 1)%nat.
Proof.
  intros Hi [si Hp]. revert i Hi. induction ths as [|th0 ths IH]; intros [|i] Hi; cbn in Hi; [done|done| |]; cbn [insert list_insert taken].
  - simplify_eq. cbn [with_pc th_pc]. rewrite Hp.
    destruct (slot (th_pc th)); [rewrite bool_decide_eq_true_2 by (by eexists)|rewrite bool_decide_eq_false_2 by (by intros [? ?])]; lia.
  - etrans; [exact (f_equal (Nat.add _) (IH i Hi))|]. lia.
Qed.
Lemma taken_le (ths : list thread) : (taken ths <= length ths)%nat.
Proof. induction ths as [|th ths IH]; cbn [taken length]; [done|]. destruct (slot (th_pc th)); lia. Qed.

Lemma same_insert (ths0 ths : list thread) (i : nat) (th : thread) (p : pc) :
  (forall i th, ths !! i = Some th -> exists th0, ths0 !! i = Some th0 /\ th = with_pc (th_pc th) th0) -> ths !! i = Some th ->
  forall j th', <[i := with_pc p th]> ths !! j = Some th' -> exists th0, ths0 !! j = Some th0 /\ th' = with_pc (th_pc th') th0.
Proof.
  intros Hs Hi j th' Hj. destruct (decide (i = j)) as [<-|Hne].
  - rewrite list_lookup_insert_eq in Hj by (by eapply lookup_lt_Some). simplify_eq. destruct (Hs i th Hi) as (th0 & H0 & Heq).
    exists th0. split; [done|]. rewrite Heq. by destruct th0.
  - rewrite list_lookup_insert_ne in Hj by done. by apply Hs.
Qed.

Lemma claim_step (max : Z) (ths0 ths : list thread) (t : tv) (i : nat) (th : thread) :
  stamping max ths0 t ths -> ths !! i = Some th -> th_pc th = Ready ->
  stamping max ths0 (fst (claim t)) (<[i := with_pc (Claimed (next_stamp t)) th]> ths).
Proof.
  intros [S1 S2 S3 S4 S5 S6 S7 S8 S9] Hi Hp. unfold claim. cbn [fst].
  assert (index_of ths i = None) as Hni by (unfold index_of; rewrite Hi; cbn; by rewrite Hp).
  split; cbn [set_next max_stamps stamps next_stamp]; try done.
  - by rewrite length_insert.
  - rewrite (taken_insert ths i th) by (done || by eexists). rewrite Hp. cbn [slot]. rewrite bool_decide_eq_false_2 by (by intros [? ?]). lia.
  - by apply same_insert.
  - intros j si. rewrite (index_of_insert _ _ _ _ _ Hi). case_decide; [intros [= <-]; lia|]. intros Hj%S5. lia.
  - intros j k si. rewrite !(index_of_insert _ _ _ _ _ Hi). cbn [slot].
    assert (forall l, index_of ths l = Some (next_stamp t) -> False) as Hn by (intros l Hl%S5; lia).
    repeat case_decide; intros Hj Hk; [congruence| | |by eapply S6]; simplify_eq; [by apply Hn in Hk|by apply Hn in Hj].
  - intros si Hsi. destruct (decide (si = next_stamp t)) as [->|Hne].
    + exists i. rewrite (index_of_insert _ _ _ _ _ Hi). by rewrite decide_True.
    + destruct (S7 si) as [j Hj]; [lia|]. exists j. rewrite (index_of_insert _ _ _ _ _ Hi).
      rewrite decide_False; [done|]. intros ->. congruence.
  - intros j th' si Hj Hst. apply list_lookup_insert_Some in Hj as [(-> & <- & _)|[_ Hj]]; [done|]. by eapply S8.
  - intros j th' si Hj Hst. apply list_lookup_insert_Some in Hj as [(-> & <- & _)|[_ Hj]]; [done|]. by eapply S9.
Qed.

(** A thread that has an index keeps it. *)
Lemma index_of_finish (ths : list thread) (i : nat) (th : thread) (si : Z) (p : pc) :
  ths !! i = Some th -> th_pc th = Claimed si -> slot p = Some si ->
  forall j, index_of (<[i := with_pc p th]> ths) j = index_of ths j.
Proof.
  intros Hi Hp Hs j. rewrite (index_of_insert _ _ _ _ _ Hi). case_decide as Hij; [|done]. subst j.
  unfold index_of. rewrite Hi. cbn. by rewrite Hp, Hs.
Qed.

Lemma finish_step (max : Z) (ths0 ths : list thread) (t : tv) (i : nat) (th : thread) (si : Z) :
  stamping max ths0 t ths -> ths !! i = Some th -> th_pc th = Claimed si ->
  exists t' r, write_stamp si (Some (th_clock th)) 0 (th_data1 th) (th_data2 th) t = Some (t', r) /\
    stamping max ths0 t' (<[i := with_pc (match r with Ok _ => Stamped si | Err _ => Refused si end) th]> ths).
Proof.
  intros [S1 S2 S3 S4 S5 S6 S7 S8 S9] Hi Hp.
  assert (index_of ths i = Some si) as Hidx by (unfold index_of; rewrite Hi; cbn; by rewrite Hp).
  assert (0 <= si < next_stamp t) as Hsi by (by eapply S5). unfold write_stamp. rewrite S1.
  assert (forall p, slot p = Some si -> taken (<[i := with_pc p th]> ths) = taken ths) as Htk.
  { intros p Hs. rewrite (taken_insert ths i th) by (done || by eexists). rewrite Hp. cbn [slot].
    rewrite bool_decide_eq_true_2 by (by eexists). lia. }
  destruct (Z.ltb_spec max si) as [Hlt|Hle].
  - do 2 eexists. split; [reflexivity|]. pose proof (index_of_finish ths i th si (Refused si) Hi Hp eq_refl) as Hf.
    split; try done.
    + by rewrite length_insert.
    + by rewrite Htk.
    + by apply same_insert.
    + intros j s. rewrite Hf. apply S5.
    + intros j k s. rewrite !Hf. apply S6.
    + intros s Hs. destruct (S7 s Hs) as [j Hj]. exists j. by rewrite Hf.
    + intros j th' s Hj Hst. apply list_lookup_insert_Some in Hj as [(-> & <- & _)|[_ Hj]]; [done|]. by eapply S8.
    + intros j th' s Hj Hst. apply list_lookup_insert_Some in Hj as [(-> & <- & _)|[_ Hj]]; [|by eapply S9].
      cbn in Hst. by simplify_eq.
  - pose proof (taken_le ths). destruct (lookup_lt_is_Some_2 (stamps t) (Z.to_nat si)) as [r Hr]; [lia|]. rewrite Hr. cbn [mbind option_bind].
    rewrite read_os. do 2 eexists. split; [reflexivity|].
    pose proof (index_of_finish ths i th si (Stamped si) Hi Hp eq_refl) as Hf.
    split; cbn [set_stamps max_stamps stamps next_stamp]; try done.
    + by rewrite !length_insert.
    + by rewrite Htk.
    + by apply same_insert.
    + intros j s. rewrite Hf. apply S5.
    + intros j k s. rewrite !Hf. apply S6.
    + intros s Hs. destruct (S7 s Hs) as [j Hj]. exists j. by rewrite Hf.
    + intros j th' s Hj Hst. apply list_lookup_insert_Some in Hj as [(-> & <- & _)|[Hne Hj]].
      * cbn in Hst. simplify_eq. split; [done|]. eexists. rewrite list_lookup_insert_eq by lia. split; [reflexivity|].
        cbn. split; [done|]. by split; intros d ->.
      * destruct (S8 j th' s Hj Hst) as (H1 & r' & H2 & H3). split; [done|]. exists r'.
        rewrite list_lookup_insert_ne; [by split|]. intros Heq.
        assert (index_of ths j = Some s) as Hjs by (unfold index_of; rewrite Hj; cbn; by rewrite Hst).
        pose proof (S5 j s Hjs). assert (s = si) as -> by lia. by pose proof (S6 i j si Hidx Hjs).
    + intros j th' s Hj Hst. apply list_lookup_insert_Some in Hj as [(-> & <- & _)|[_ Hj]]; [done|]. by eapply S9.
Qed.

Lemma run_stamping (max : Z) (ths0 : list thread) (ls : list nat) : forall (t : tv) (ths : list thread),
  stamping max ths0 t ths -> length ths = length ths0 -> Forall (fun i => i < length ths0)%nat ls ->
  exists t' ths', run ls (t, ths) = Some (t', ths') /\ stamping max ths0 t' ths' /\ length ths' = length ths0.
Proof.
  induction ls as [|i ls IH]; intros t ths Hst Hlen Hls; [by exists t, ths|]. apply Forall_cons in Hls as [Hi Hls].
  destruct (lookup_lt_is_Some_2 ths i) as [th Hth]; [by rewrite Hlen|]. cbn [run step]. rewrite Hth. cbn [mbind option_bind].
  destruct (th_pc th) as [|si|si|si] eqn:Hp; [| |by apply IH|by apply IH].
  - apply IH; [|by rewrite length_insert|done]. by apply (claim_step max ths0 ths t i th).
  - destruct (finish_step max ths0 ths t i th si Hst Hth Hp) as (t' & r & Hw & Hst'). rewrite Hw. cbn [mbind option_bind].
    apply IH; [done|by rewrite length_insert|done].
Qed.

(** Threads that take their indices one after the other. *)
Lemma claims (n : nat) : forall (k : nat) (t : tv) (ths : list thread), next_stamp t = Z.of_nat k ->
  (forall i, (k <= i < k + n)%nat -> exists th, ths !! i = Some th /\ th_pc th = Ready) ->
  exists (t' : tv) (ths' : list thread), run (seq k n) (t, ths) = Some (t', ths') /\ stamps t' = stamps t /\ max_stamps t' = max_stamps t /\
    ((0 < n)%nat -> exists th, ths' !! (k + n - 1)%nat = Some th /\ th_pc th = Claimed (Z.of_nat (k + n - 1))).
Proof.
  induction n as [|n IH]; intros k t ths Hk Hready; cbn [seq run]; [exists t, ths; split_and!; done || lia|].
  destruct (Hready k ltac:(lia)) as (th & Hth & Hp). unfold step at 1. rewrite Hth. cbn [mbind option_bind]. rewrite Hp. unfold claim.
  destruct (IH (S k) (set_next (next_stamp t + 1) t) (<[k := with_pc (Claimed (next_stamp t)) th]> ths)) as (t' & ths' & Hr & Hs & Hm & Hl).
  - cbn. lia.
  - intros i Hi. rewrite list_lookup_insert_ne by lia. apply Hready. lia.
  - exists t', ths'. split; [done|]. split; [done|]. split; [done|]. intros _. destruct n as [|n].
    + cbn in Hr. simplify_eq. replace (k + 1 - 1)%nat with k by lia. rewrite list_lookup_insert_eq by (by eapply lookup_lt_Some).
      eexists. split; [done|]. cbn. by rewrite Hk.
    + replace (k + S (S n) - 1)%nat with (S k + S n - 1)%nat by lia. apply Hl. lia.
Qed.


(** [foreach] never gets to the second stamp. *)
Lemma foreach_endless {St : Type} (f : ts -> St -> St * bool) (t0 : timespec) (xs : list timespec) (fuel : nat) :
  (forall r st, snd (f r st) = true) -> valid_time t0 -> Forall valid_time xs -> xs <> [] ->
  forall (w : stopwatch) (st : St), measured t0 xs (sw_tv w) -> ina_stopwatch_foreach_stamp fuel f 0 w st = None.
Proof.
  intros Hf H0 Hxs Hne. induction fuel as [|fuel IH]; intros w st Hm; [done|]. cbn [ina_stopwatch_foreach_stamp].
  destruct (read_spec t0 xs w 0 Hm H0 Hxs) as (w' & r & Hr & (x & p & y & _ & _ & -> & _) & Hm'); [destruct xs; [done|cbn; lia]|].
  change 0 with (Z.of_nat 0). rewrite Hr. cbn [mbind option_bind]. specialize (Hf y st).
  destruct (f y st) as [st' ok]. cbn in Hf. subst ok. by apply IH.
Qed.

End Stopwatch.

(** ** A run, and threads *)
Definition at_ms (ms : Z) : timespec := Timespec (ms / 1000) (ms mod 1000 * 1000000).

Lemma at_ms_valid (ms : Z) : 0 <= ms < 1000000000 -> valid_time (at_ms ms).
Proof.
  intros Hms. unfold valid_time, normal, nanos, at_ms, billion. cbn. pose proof (Z.mod_pos_bound ms 1000 ltac:(done)).
  pose proof (Z.div_pos ms 1000 ltac:(lia) ltac:(done)). pose proof (Z.div_le_upper_bound ms 1000 1000000000 ltac:(done) ltac:(lia)). lia.
Qed.

Lemma stopwatch_measures_witness :
  exists (t2 t3 : tv (D := Q)) (w : stopwatch) (rs : list (result ts)),
    ina_stopwatch_stop initial_backend (Some (at_ms 4000)) 0 t2 = (t3, Ok tt) /\ duration t3 = seconds (at_ms 1000) (at_ms 4000) /\
    read_all initial_backend [1; 0; 1]%nat (Sw 3 t3 None) = Some (w, rs) /\
    Forall2 (reads (at_ms 1000) [at_ms 1500; at_ms 2750]) [1; 0; 1]%nat rs.
Proof.
  destruct (stopwatch_measures initial_backend eq_refl 3 (-1) (at_ms 1000) (at_ms 4000) [at_ms 1500; at_ms 2750] [1; 0; 1]%nat 0 0)
    as (t & t1 & t2 & t3 & w & rs & _ & _ & _ & H3 & Hd & Hr & Hrs).
  - done.
  - by apply at_ms_valid.
  - by apply at_ms_valid.
  - repeat (apply Forall_cons_2; [by apply at_ms_valid|]). by apply Forall_nil_2.
  - cbn. lia.
  - repeat (apply Forall_cons_2; [cbn; lia|]). by apply Forall_nil_2.
  - exists t2, t3, w, rs. split; [exact H3|]. by split.
Defined.

Definition demo_tv : tv (D := Q) := Tv tsc_zero tsc_zero 2 0 (of_Z 0) (replicate 4 ts_zero).
Definition demo_threads : list thread :=
  [Thread (at_ms 10) (Some [97]) None Ready; Thread (at_ms 20) None None Ready; Thread (at_ms 30) None None Ready].


(** The number of stamps asked for is ignored.  In private memory a stopwatch
    clears more than it has when it is started.  One stamp more than the maximum
    is accepted.  The index -1 gives a record that was never stamped. *)
Theorem stopwatch_defects :
  (option_map (fun w => max_stamps (sw_tv w)) (ina_stopwatch_new (D := Q) 1 5) = Some 1024) /\
  (exists w, ina_stopwatch_new (D := Q) 0 1 = Some w /\
    ina_stopwatch_start initial_backend None (Some (at_ms 1)) 0 (sw_tv w) = None) /\
  (exists t, ina_stopwatch_stamp initial_backend (Some (at_ms 1)) 0 None None (set_next 2 demo_tv) = Some (t, Ok tt)) /\
  (exists w, ina_stopwatch_read_stamp initial_backend (-1) (Sw 1 (set_next 1 demo_tv) None) = Some (w, 1, Ok (Ts tsc_zero (seconds (at_ms 0) (at_ms 0)) [] []))).
Proof.
  split; [by vm_compute|]. split; [eexists; split; [reflexivity|by vm_compute]|].
  split; [eexists; by vm_compute|]. eexists. by vm_compute.
Qed.

End Stopwatch.
