(* ===== verification/Timerwheel.v ===== *)
(** * The timing wheel (contribs/timerwheel/timeout.c; POSIX)

    Four wheels of 64 lists each, a list of expired timeouts, and a bit field
    per wheel that tells which of its lists hold anything.  A timeout waits in
    the list its expiry time selects; advancing the time empties the lists the
    interval has passed and schedules what was in them again.

    The lists ([TAILQ]) are the sequences of their members.  The 256 lists of
    the wheels and the list of expired timeouts follow each other in memory,
    and a pointer to a list is its number in that order, which is how the code
    computes wheel and slot from the pointer.  The structures of the timeouts
    belong to the callers; they are kept in a store. *)
From Stdlib Require Import ZArith Lia Bool String.
From stdpp Require Import base numbers option fin_maps gmap list.
From S2P Require Import Prelude.

Local Open Scope inac_scope.

Module Timerwheel.

(** ** Bit manipulation *)
Definition WHEEL_BIT : Z := 6.
Definition WHEEL_NUM : Z := 4.
Definition WHEEL_LEN : Z := Z.shiftl 1 WHEEL_BIT.
Definition WHEEL_MAX : Z := WHEEL_LEN - 1.
Definition WHEEL_MASK : Z := WHEEL_LEN - 1.
Definition TIMEOUT_MAX : Z := Z.shiftl 1 (WHEEL_BIT * WHEEL_NUM) - 1.
Definition TIMEOUT_mHZ : Z := 1000.
Definition TIMEOUT_INT : Z := 1.
Definition TIMEOUT_ABS : Z := 2.

(** [__builtin_ctzll] and [64 - __builtin_clzll]; both are undefined at zero. *)
Fixpoint pos_ctz (p : positive) : Z :=
  match p with xO p => 1 + pos_ctz p | _ => 0 end.
Definition ctz (n : Z) : Z := match n with Zpos p => pos_ctz p | _ => 0 end.
Definition fls (n : Z) : Z := Z.log2 n + 1.

Definition rotl (v c : Z) : Z :=
  let c := Z.land c 63 in
  if c =? 0 then v else Z.lor (shl 64 v c) (Z.shiftr v (64 - c)).
Definition rotr (v c : Z) : Z :=
  let c := Z.land c 63 in
  if c =? 0 then v else Z.lor (Z.shiftr v c) (shl 64 v (64 - c)).

(** [!!wheel] *)
Definition truth (x : Z) : Z := if x =? 0 then 0 else 1.

(** ** Timeouts and the collection

    [struct timeout] without its links; a caller's pointer [data] is the number
    of what it points to, and a timeout is a member of at most one collection. *)
Record timeout := Timeout {
  to_flags : Z; to_interval : Z; to_expires : Z;
  to_timeouts : bool; to_pending : option Z; to_data : nat
}.
Definition set_home (b : bool) (p : option Z) (to : timeout) : timeout :=
  Timeout (to_flags to) (to_interval to) (to_expires to) b p (to_data to).
Definition set_expires (e : Z) (to : timeout) : timeout :=
  Timeout (to_flags to) (to_interval to) e (to_timeouts to) (to_pending to) (to_data to).
Definition set_interval (i : Z) (to : timeout) : timeout :=
  Timeout (to_flags to) i (to_expires to) (to_timeouts to) (to_pending to) (to_data to).

Record timeouts := Timeouts {
  queues : list (list nat); pending : list Z; curtime : Z; hertz : Z;
  store : gmap nat timeout
}.
Definition set_queues (q : list (list nat)) (T : timeouts) : timeouts :=
  Timeouts q (pending T) (curtime T) (hertz T) (store T).
Definition set_pending (p : list Z) (T : timeouts) : timeouts :=
  Timeouts (queues T) p (curtime T) (hertz T) (store T).
Definition set_curtime (c : Z) (T : timeouts) : timeouts :=
  Timeouts (queues T) (pending T) c (hertz T) (store T).
Definition set_store (s : gmap nat timeout) (T : timeouts) : timeouts :=
  Timeouts (queues T) (pending T) (curtime T) (hertz T) s.

Definition EXPIRED : Z := WHEEL_NUM * WHEEL_LEN.
Definition slot_of (wheel slot : Z) : Z := wheel * WHEEL_LEN + slot.
Definition queue (T : timeouts) (q : Z) : list nat := default [] (queues T !! Z.to_nat q).
Definition set_queue (q : Z) (l : list nat) (T : timeouts) : timeouts :=
  set_queues (<[Z.to_nat q := l]> (queues T)) T.
Definition bits (T : timeouts) (w : Z) : Z := default 0 (pending T !! Z.to_nat w).
Definition set_bits (w x : Z) (T : timeouts) : timeouts :=
  set_pending (<[Z.to_nat w := x]> (pending T)) T.
Definition set_timeout (id : nat) (f : timeout -> timeout) (T : timeouts) : timeouts :=
  set_store (alter f id (store T)) T.

Definition TAILQ_EMPTY (l : list nat) : bool := match l with [] => true | _ => false end.
Definition TAILQ_REMOVE (l : list nat) (x : nat) : list nat := filter (.≠ x) l.

(** ** Operations *)
Definition timeouts_init (st : gmap nat timeout) (hz : Z) : timeouts :=
  Timeouts (replicate (Z.to_nat (EXPIRED + 1)) []) (replicate (Z.to_nat WHEEL_NUM) 0) 0
    (if hz =? 0 then TIMEOUT_mHZ else hz) st.

(** [alloc] tells whether the memory is given; if not, [errno] is reported. *)
Definition timeouts_open (st : gmap nat timeout) (hz : Z) (alloc : bool) (errno : Z) : timeouts + Z :=
  if alloc then inl (timeouts_init st hz) else inr errno.

(** All lists are appended to one, from the first wheel to the expired ones, and
    its members are taken out of the collection. *)
Definition timeouts_reset (T : timeouts) : gmap nat timeout :=
  fold_left (fun st id => alter (set_home false None) id st) (concat (queues T)) (store T).
Definition timeouts_close (T : timeouts) : gmap nat timeout := timeouts_reset T.
Definition timeouts_hz (T : timeouts) : Z := hertz T.

Definition timeouts_del (id : nat) (T : timeouts) : timeouts :=
  match store T !! id with
  | Some to =>
      match to_pending to with
      | Some q =>
          let T := set_queue q (TAILQ_REMOVE (queue T q) id) T in
          let T := if negb (q =? EXPIRED) && TAILQ_EMPTY (queue T q)
                   then let wheel := q / WHEEL_LEN in let slot := q mod WHEEL_LEN in
                        set_bits wheel (Z.land (bits T wheel) (Z.lnot (Z.shiftl 1 slot))) T
                   else T in
          set_timeout id (set_home false None) T
      | None => T
      end
  | None => T
  end.

Definition timeout_rem (T : timeouts) (expires : Z) : Z := expires -₆₄ curtime T.
Definition timeout_wheel (timeout : Z) : Z := Z.quot (fls (Z.min timeout TIMEOUT_MAX) - 1) WHEEL_BIT.
Definition timeout_slot (wheel expires : Z) : Z :=
  Z.land WHEEL_MASK (Z.shiftr expires (wheel * WHEEL_BIT) -₆₄ truth wheel).

Definition timeouts_sched (id : nat) (expires : Z) (T : timeouts) : timeouts :=
  let T := timeouts_del id T in
  let T := set_timeout id (set_expires expires) T in
  if curtime T <? expires then
    let rem := timeout_rem T expires in
    let wheel := timeout_wheel rem in
    let slot := timeout_slot wheel expires in
    let q := slot_of wheel slot in
    let T := set_timeout id (set_home true (Some q)) T in
    let T := set_queue q (queue T q ++ [id]) T in
    set_bits wheel (Z.lor (bits T wheel) (Z.shiftl 1 slot)) T
  else
    let T := set_timeout id (set_home true (Some EXPIRED)) T in
    set_queue EXPIRED (queue T EXPIRED ++ [id]) T.

(** The next expiry of a repeating timeout that expired at [e]. *)
Definition next_expiry (now e interval : Z) : Z :=
  let e := e +₆₄ interval in
  if e <=? now then
    let n := now -₆₄ e in
    let r := n mod interval in
    now +₆₄ (interval -₆₄ r)
  else e.
Definition timeouts_readd (id : nat) (T : timeouts) : timeouts :=
  match store T !! id with
  | Some to => timeouts_sched id (next_expiry (curtime T) (to_expires to) (to_interval to)) T
  | None => T
  end.

Definition timeouts_add (id : nat) (timeout : Z) (T : timeouts) : timeouts :=
  match store T !! id with
  | Some to =>
      let T := if negb (Z.land (to_flags to) TIMEOUT_INT =? 0)
               then set_timeout id (set_interval (Z.max 1 timeout)) T else T in
      if negb (Z.land (to_flags to) TIMEOUT_ABS =? 0) then timeouts_sched id timeout T
      else timeouts_sched id (curtime T +₆₄ timeout) T
  | None => T
  end.

(** The slots of a wheel that expire when the time goes to [now], [elapsed] after
    the last update. *)
Definition expiring (old now elapsed wheel : Z) : Z :=
  if WHEEL_MAX <? Z.shiftr elapsed (wheel * WHEEL_BIT) then Z.ones 64
  else
    let _elapsed := Z.land WHEEL_MASK (Z.shiftr elapsed (wheel * WHEEL_BIT)) in
    let oslot := Z.land WHEEL_MASK (Z.shiftr old (wheel * WHEEL_BIT)) in
    let p := rotl (shl 64 1 _elapsed -₆₄ 1) oslot in
    let nslot := Z.land WHEEL_MASK (Z.shiftr now (wheel * WHEEL_BIT)) in
    let p := Z.lor p (rotr (rotl (shl 64 1 _elapsed -₆₄ 1) nslot) _elapsed) in
    Z.lor p (shl 64 1 nslot).

(** The loop that takes the lists of the expiring slots; [fuel] bounds its rounds. *)
Fixpoint drain (fuel : nat) (wheel mask : Z) (todo : list nat) (T : timeouts) : list nat * timeouts :=
  match fuel with
  | O => (todo, T)
  | S fuel =>
      let x := Z.land mask (bits T wheel) in
      if x =? 0 then (todo, T)
      else
        let slot := ctz x in
        let q := slot_of wheel slot in
        let todo := todo ++ queue T q in
        let T := set_queue q [] T in
        let T := set_bits wheel (Z.land (bits T wheel) (Z.lnot (shl 64 1 slot))) T in
        drain fuel wheel mask todo T
  end.

(** The loop over the wheels; [n] wheels are left. *)
Fixpoint tick (n : nat) (wheel now elapsed : Z) (todo : list nat) (T : timeouts) : list nat * timeouts :=
  match n with
  | O => (todo, T)
  | S n =>
      let mask := expiring (curtime T) now elapsed wheel in
      let '(todo, T) := drain 65 wheel mask todo T in
      if Z.land 1 mask =? 0 then (todo, T)
      else tick n (wheel + 1) now (Z.max elapsed (shl 32 WHEEL_LEN (wheel * WHEEL_BIT))) todo T
  end.

Definition clear_pending (to : timeout) : timeout := set_home (to_timeouts to) None to.
Definition reschedule (id : nat) (T : timeouts) : timeouts :=
  let T := set_timeout id clear_pending T in
  match store T !! id with
  | Some to => timeouts_sched id (to_expires to) T
  | None => T
  end.

Definition timeouts_update (now : Z) (T : timeouts) : timeouts :=
  let '(todo, T) := tick (Z.to_nat WHEEL_NUM) 0 now (now -₆₄ curtime T) [] T in
  let T := set_curtime now T in
  fold_left (fun T id => reschedule id T) todo T.
Definition timeouts_step (elapsed : Z) (T : timeouts) : timeouts :=
  timeouts_update (curtime T +₆₄ elapsed) T.

Definition timeouts_pending (T : timeouts) : bool :=
  negb (fold_left (fun p w => Z.lor p (bits T w)) [0; 1; 2; 3] 0 =? 0).
Definition timeouts_expired (T : timeouts) : bool := negb (TAILQ_EMPTY (queue T EXPIRED)).

(** One round of the loop of [timeouts_int]: the least timeout and the mask of the
    lower wheels. *)
Definition int_round (T : timeouts) (a : Z * Z) (wheel : Z) : Z * Z :=
  let '(timeout, relmask) := a in
  let timeout :=
    if bits T wheel =? 0 then timeout
    else
      let slot := Z.land WHEEL_MASK (Z.shiftr (curtime T) (wheel * WHEEL_BIT)) in
      let t := shl 32 (ctz (rotr (bits T wheel) slot) + truth wheel) (wheel * WHEEL_BIT) in
      Z.min (t -₆₄ Z.land relmask (curtime T)) timeout in
  (timeout, Z.lor (shl 64 relmask WHEEL_BIT) WHEEL_MASK).
Definition timeouts_int (T : timeouts) : Z :=
  fst (fold_left (int_round T) [0; 1; 2; 3] (Z.ones 64, 0)).
Definition timeouts_timeout (T : timeouts) : Z :=
  if timeouts_expired T then 0 else timeouts_int T.

Definition timeouts_get (T : timeouts) : option nat * timeouts :=
  match queue T EXPIRED with
  | id :: _ =>
      let T := set_queue EXPIRED (TAILQ_REMOVE (queue T EXPIRED) id) T in
      let T := set_timeout id clear_pending T in
      (Some id,
       match store T !! id with
       | Some to =>
           if negb (Z.land (to_flags to) TIMEOUT_INT =? 0) && (0 <? to_interval to)
           then timeouts_readd id T
           else set_timeout id (set_home false (to_pending to)) T
       | None => T
       end)
  | [] => (None, T)
  end.

(** The earliest of the waiting timeouts, by looking at all of them. *)
Definition min_round (T : timeouts) (min : option (nat * Z)) (id : nat) : option (nat * Z) :=
  match store T !! id, min with
  | Some to, None => Some (id, to_expires to)
  | Some to, Some (m, e) => if to_expires to <? e then Some (id, to_expires to) else min
  | None, _ => min
  end.
Definition timeouts_min (T : timeouts) : option (nat * Z) :=
  fold_left (min_round T) (concat (take (Z.to_nat EXPIRED) (queues T))) None.

Definition timeouts_check (T : timeouts) : bool :=
  match timeouts_min T with
  | Some (_, e) =>
      (curtime T <? e) && (timeouts_int T <=? e -₆₄ curtime T) && (timeouts_timeout T <=? e -₆₄ curtime T)
  | None =>
      if timeouts_expired T then timeouts_timeout T =? 0 else timeouts_timeout T =? Z.ones 64
  end.

Definition timeout_init (flags : Z) : timeout := Timeout flags 0 0 false None 0.
Definition timeout_pending (to : timeout) : bool :=
  match to_pending to with Some q => negb (q =? EXPIRED) | None => false end.
Definition timeout_expired (to : timeout) : bool :=
  match to_pending to with Some q => q =? EXPIRED | None => false end.
Definition timeout_del (id : nat) (T : timeouts) : timeouts := timeouts_del id T.

(** ** Bits *)
Lemma land_mask (x : Z) : Z.land 63 x = x mod 64.
Proof. rewrite Z.land_comm. change 63 with (Z.ones 6). by rewrite Z.land_ones by done. Qed.
Lemma wheel_mask (x : Z) : Z.land WHEEL_MASK x = x mod 64.
Proof. exact (land_mask x). Qed.
Lemma land_63 (c : Z) : 0 <= c < 64 -> Z.land c 63 = c.
Proof. intros H. by rewrite Z.land_comm, land_mask, Z.mod_small. Qed.

Lemma rotl_testbit (v c i : Z) : in_width 64 v -> 0 <= c < 64 -> 0 <= i < 64 ->
  Z.testbit (rotl v c) i = Z.testbit v ((i - c) mod 64).
Proof.
  intros Hv Hc Hi. unfold rotl. rewrite land_63 by done.
  destruct (Z.eqb_spec c 0) as [->|Hn]; [by rewrite Z.sub_0_r, Z.mod_small|].
  autorewrite with bits. destruct (Z.ltb_spec i 64); [|lia]. simpl.
  destruct (decide (c <= i)).
  - rewrite Z.mod_small, (in_width_high_bits 64 v (i + (64 - c))) by (done || lia). apply orb_false_r.
  - rewrite Z.testbit_neg_r by lia. simpl. f_equal. dlia.
Qed.

Lemma rotr_testbit (v c i : Z) : in_width 64 v -> 0 <= c < 64 -> 0 <= i < 64 ->
  Z.testbit (rotr v c) i = Z.testbit v ((i + c) mod 64).
Proof.
  intros Hv Hc Hi. unfold rotr. rewrite land_63 by done.
  destruct (Z.eqb_spec c 0) as [->|Hn]; [by rewrite Z.add_0_r, Z.mod_small|].
  autorewrite with bits. destruct (Z.ltb_spec i 64); [|lia]. simpl.
  destruct (decide (i + c < 64)).
  - rewrite Z.mod_small, (Z.testbit_neg_r v (i - (64 - c))) by lia. apply orb_false_r.
  - rewrite (in_width_high_bits 64 v (i + c)) by (done || lia). simpl. f_equal. dlia.
Qed.

Lemma rot_in_width (v c : Z) : in_width 64 v -> in_width 64 (rotl v c) /\ in_width 64 (rotr v c).
Proof.
  intros Hv. unfold rotl, rotr.
  assert (0 <= Z.land c 63 < 64) as Hc by (rewrite Z.land_comm, land_mask; by apply Z.mod_pos_bound).
  destruct (_ =? 0); [done|]. split; apply lor_in_width; try done;
    solve [apply shl_in_width; done | apply shiftr_in_width; [done|lia|done]].
Qed.

Lemma pos_ctz_spec (p : positive) :
  0 <= pos_ctz p /\ Z.testbit (Zpos p) (pos_ctz p) = true /\
  (forall i : Z, i < pos_ctz p -> Z.testbit (Zpos p) i = false).
Proof.
  induction p as [p IH|p IH|]; cbn [pos_ctz].
  - split; [done|]. split; [done|]. intros i Hi. by apply Z.testbit_neg_r.
  - destruct IH as (H1 & H2 & H3). change (Zpos p~0) with (2 * Zpos p). split; [lia|]. split.
    + replace (1 + pos_ctz p) with (Z.succ (pos_ctz p)) by lia. by rewrite Z.double_bits_succ.
    + intros i Hi. destruct (decide (i < 0)); [by apply Z.testbit_neg_r|].
      destruct (decide (i = 0)) as [->|]; [apply Z.testbit_even_0|].
      replace i with (Z.succ (i - 1)) by lia. rewrite Z.double_bits_succ. apply H3. lia.
  - split; [done|]. split; [done|]. intros i Hi. by apply Z.testbit_neg_r.
Qed.

(** The number of trailing zeros is the least bit that is set. *)
Lemma ctz_spec (x : Z) : in_width 64 x -> x <> 0 ->
  0 <= ctz x < 64 /\ Z.testbit x (ctz x) = true /\ (forall i : Z, i < ctz x -> Z.testbit x i = false).
Proof.
  intros Hw Hx. destruct x as [|p|p]; [done| |by destruct Hw].
  destruct (pos_ctz_spec p) as (H1 & H2 & H3). cbn [ctz]. split; [|done]. split; [done|].
  destruct (decide (pos_ctz p < 64)); [done|].
  by rewrite (in_width_high_bits 64) in H2 by (done || lia).
Qed.

Lemma fill_ones (k : Z) : 0 <= k < 64 -> shl 64 1 k -₆₄ 1 = Z.ones k /\ in_width 64 (Z.ones k).
Proof.
  intros Hk. assert (in_width 64 (Z.ones k)) as Hw.
  { rewrite Z.ones_equiv. pose proof (Z.pow_pos_nonneg 2 k ltac:(done) ltac:(lia)).
    pose proof (Z.pow_lt_mono_r 2 k 64 ltac:(done) ltac:(done) ltac:(lia)). split; lia. }
  split; [|done]. rewrite shl_1 by done. rewrite Z.ones_equiv in Hw |- *. rewrite <- Z.sub_1_r in *. by apply wrap_small.
Qed.

(** ** The slots that expire

    [expired_slot old now elapsed w i]: slot [i] of wheel [w] is marked. *)
Lemma expiring_testbit (old now elapsed w i : Z) :
  0 <= w -> 0 <= i < 64 -> 0 <= elapsed -> Z.shiftr elapsed (w * 6) <= 63 ->
  let el := Z.shiftr elapsed (w * 6) in
  let os := Z.shiftr old (w * 6) in
  let ns := Z.shiftr now (w * 6) in
  Z.testbit (expiring old now elapsed w) i =
    ((i - os) mod 64 <? el) || ((i + el - ns) mod 64 <? el) || (i =? ns mod 64).
Proof.
  intros Hw Hi He Hs. cbn zeta. unfold expiring. change WHEEL_MAX with 63. change WHEEL_BIT with 6.
  destruct (Z.ltb_spec 63 (Z.shiftr elapsed (w * 6))); [lia|]. rewrite !wheel_mask.
  assert (0 <= Z.shiftr elapsed (w * 6)) as H0 by (by apply Z.shiftr_nonneg).
  rewrite (Z.mod_small (Z.shiftr elapsed _)) by lia.
  set (el := Z.shiftr elapsed (w * 6)) in *. set (os := Z.shiftr old (w * 6)). set (ns := Z.shiftr now (w * 6)).
  pose proof (Z.mod_pos_bound os 64 ltac:(done)). pose proof (Z.mod_pos_bound ns 64 ltac:(done)).
  pose proof (Z.mod_pos_bound (i + el) 64 ltac:(done)).
  destruct (fill_ones el ltac:(lia)) as [-> Hw1]. rewrite shl_1 by done. autorewrite with bits.
  rewrite rotr_testbit, !rotl_testbit by (try apply rot_in_width; done || lia).
  rewrite !ones_testbit by (try apply Z.mod_pos_bound; done || lia).
  by rewrite Zminus_mod_idemp_r, Zminus_mod_idemp_r, Zminus_mod_idemp_l.
Qed.

(** Every position from the old to the new one is marked. *)
Lemma expiring_covers (old now elapsed w x : Z) :
  0 <= w -> 0 <= elapsed ->
  let el := Z.shiftr elapsed (w * 6) in
  let os := Z.shiftr old (w * 6) in
  let ns := Z.shiftr now (w * 6) in
  63 < el \/ (os <= x <= ns /\ ns - os <= el + 1 /\ (1 <= el \/ os < x)) ->
  Z.testbit (expiring old now elapsed w) (x mod 64) = true.
Proof.
  intros Hw He. cbn zeta. intros Hx. pose proof (Z.mod_pos_bound x 64 ltac:(done)).
  destruct (decide (63 < Z.shiftr elapsed (w * 6))).
  { unfold expiring. destruct (Z.ltb_spec WHEEL_MAX (Z.shiftr elapsed (w * WHEEL_BIT))) as [|Hl].
    - rewrite ones_testbit by lia. lia.
    - change WHEEL_MAX with 63 in Hl. change WHEEL_BIT with 6 in Hl. lia. }
  destruct Hx as [|(Hx & Hk & Hor)]; [done|].
  rewrite expiring_testbit by (done || lia).
  set (el := Z.shiftr elapsed (w * 6)) in *. set (os := Z.shiftr old (w * 6)) in *. set (ns := Z.shiftr now (w * 6)) in *.
  rewrite Zminus_mod_idemp_l. replace (x mod 64 + el - ns) with (x mod 64 - (ns - el)) by lia. rewrite Zminus_mod_idemp_l.
  destruct (decide (x - os < el)).
  { rewrite (Z.mod_small (x - os)) by lia. destruct (Z.ltb_spec (x - os) el); [done|lia]. }
  destruct (decide (x = ns)) as [->|]; [by rewrite Z.eqb_refl, orb_true_r|].
  replace (x - (ns - el)) with (el - 1) by lia. rewrite (Z.mod_small (el - 1)) by lia.
  destruct (Z.ltb_spec (el - 1) el); [|lia]. by rewrite orb_true_r.
Qed.

Lemma expiring_in_width (old now elapsed w : Z) : 0 <= w -> 0 <= elapsed -> in_width 64 (expiring old now elapsed w).
Proof.
  intros Hw He. unfold expiring. destruct (Z.ltb_spec WHEEL_MAX (Z.shiftr elapsed (w * WHEEL_BIT))) as [|Hl]; [done|].
  rewrite !wheel_mask. set (el := Z.shiftr elapsed _ mod 64).
  assert (0 <= el < 64) as He' by (by apply Z.mod_pos_bound).
  destruct (fill_ones el He') as [-> H1].
  repeat apply lor_in_width; try done; try apply rot_in_width; try done; try apply shl_in_width; try done.
  by apply rot_in_width.
Qed.

(** ** The lists and the bit fields

    The lists agree with the pointers in the store, nothing is in two lists, and
    a bit is set where a list holds something.  [out] are timeouts that have been
    taken out of the lists while the wheel is updated. *)
Definition in_range (q : Z) : Prop := 0 <= q <= EXPIRED.
Definition bit (T : timeouts) (q : Z) : bool := Z.testbit (bits T (q / WHEEL_LEN)) (q mod WHEEL_LEN).

Record fields (T : timeouts) : Prop := {
  f_queues : length (queues T) = Z.to_nat (EXPIRED + 1);
  f_pending : length (pending T) = Z.to_nat WHEEL_NUM;
  f_width : forall w : Z, 0 <= w < WHEEL_NUM -> in_width 64 (bits T w);
  f_bits : forall q : Z, 0 <= q < EXPIRED -> bit T q = negb (TAILQ_EMPTY (queue T q))
}.
Record wf (out : list nat) (T : timeouts) : Prop := {
  wf_fields : fields T;
  wf_nodup : forall q : Z, in_range q -> NoDup (queue T q);
  wf_out : NoDup out;
  wf_known : forall (id : nat) (q : Z), in_range q -> id ∈ queue T q ->
    id ∉ out /\ exists to : timeout, store T !! id = Some to /\ to_pending to = Some q;
  wf_home : forall (id : nat) (to : timeout) (q : Z), store T !! id = Some to -> to_pending to = Some q ->
    id ∉ out -> in_range q /\ id ∈ queue T q;
  wf_todo : forall id : nat, id ∈ out -> exists (to : timeout) (q : Z),
    store T !! id = Some to /\ to_pending to = Some q /\ 0 <= q < EXPIRED
}.

Lemma slot_of_div (w s : Z) : 0 <= s < 64 -> slot_of w s / WHEEL_LEN = w /\ slot_of w s mod WHEEL_LEN = s.
Proof. intros Hs. unfold slot_of. change WHEEL_LEN with 64. split; dlia. Qed.
Lemma slot_of_eq (q : Z) : slot_of (q / WHEEL_LEN) (q mod WHEEL_LEN) = q.
Proof. unfold slot_of. change WHEEL_LEN with 64. dlia. Qed.
Lemma slot_of_range (w s : Z) : 0 <= w < WHEEL_NUM -> 0 <= s < 64 -> 0 <= slot_of w s < EXPIRED.
Proof. unfold slot_of. change EXPIRED with 256. change WHEEL_NUM with 4. change WHEEL_LEN with 64. lia. Qed.
Lemma range_wheel (q : Z) : 0 <= q < EXPIRED -> 0 <= q / WHEEL_LEN < WHEEL_NUM /\ 0 <= q mod WHEEL_LEN < 64.
Proof. change EXPIRED with 256. change WHEEL_NUM with 4. change WHEEL_LEN with 64. intros H. split; dlia. Qed.
Lemma range_in (q : Z) : 0 <= q < EXPIRED -> in_range q.
Proof. unfold in_range. lia. Qed.
Lemma expired_in : in_range EXPIRED.
Proof. by unfold in_range. Qed.
Hint Resolve range_in expired_in : core.

Lemma queue_set_queue (T : timeouts) (q q' : Z) (l : list nat) :
  length (queues T) = Z.to_nat (EXPIRED + 1) -> in_range q -> in_range q' ->
  queue (set_queue q l T) q' = if decide (q = q') then l else queue T q'.
Proof.
  unfold in_range. change EXPIRED with 256. intros Hl Hq Hq'. unfold queue, set_queue. cbn [queues set_queues].
  case_decide as Hd; [subst; rewrite list_lookup_insert_eq by lia; done|].
  rewrite list_lookup_insert_ne by lia. done.
Qed.

Lemma bits_set_bits (T : timeouts) (w w' x : Z) :
  length (pending T) = Z.to_nat WHEEL_NUM -> 0 <= w < WHEEL_NUM -> 0 <= w' < WHEEL_NUM ->
  bits (set_bits w x T) w' = if decide (w = w') then x else bits T w'.
Proof.
  change WHEEL_NUM with 4. intros Hl Hq Hq'. unfold bits, set_bits. cbn [pending set_pending].
  case_decide as Hd; [subst; rewrite list_lookup_insert_eq by lia; done|].
  rewrite list_lookup_insert_ne by lia. done.
Qed.

(** Clearing and setting the bit of a list. *)
Definition clear_bit (q : Z) (T : timeouts) : timeouts :=
  set_bits (q / WHEEL_LEN) (Z.land (bits T (q / WHEEL_LEN)) (Z.lnot (Z.shiftl 1 (q mod WHEEL_LEN)))) T.
Definition set_bit (q : Z) (T : timeouts) : timeouts :=
  set_bits (q / WHEEL_LEN) (Z.lor (bits T (q / WHEEL_LEN)) (Z.shiftl 1 (q mod WHEEL_LEN))) T.

Lemma bit_change (T : timeouts) (q q' : Z) :
  length (pending T) = Z.to_nat WHEEL_NUM -> 0 <= q < EXPIRED -> 0 <= q' < EXPIRED ->
  bit (clear_bit q T) q' = (if decide (q = q') then false else bit T q') /\
  bit (set_bit q T) q' = (if decide (q = q') then true else bit T q').
Proof.
  intros Hl Hq Hq'. destruct (range_wheel q Hq) as [Hw Hs]. destruct (range_wheel q' Hq') as [Hw' Hs'].
  unfold bit, clear_bit, set_bit. rewrite !bits_set_bits by done.
  destruct (decide (q = q')) as [<-|Hne].
  { rewrite !decide_True, Z.shiftl_1_l by done. autorewrite with bits. rewrite Z.eqb_refl. cbn [negb].
    by rewrite andb_false_r, orb_true_r. }
  destruct (decide (q / WHEEL_LEN = q' / WHEEL_LEN)) as [Hd|]; [|done]. rewrite <- Hd, Z.shiftl_1_l. autorewrite with bits.
  destruct (Z.eqb_spec (q' mod WHEEL_LEN) (q mod WHEEL_LEN)) as [He|He].
  - destruct Hne. rewrite <- (slot_of_eq q), <- (slot_of_eq q'). congruence.
  - cbn [negb]. by rewrite andb_true_r, orb_false_r.
Qed.

Lemma change_width (T : timeouts) (q w : Z) :
  length (pending T) = Z.to_nat WHEEL_NUM -> 0 <= q < EXPIRED -> 0 <= w < WHEEL_NUM ->
  in_width 64 (bits T (q / WHEEL_LEN)) -> in_width 64 (bits T w) ->
  in_width 64 (bits (clear_bit q T) w) /\ in_width 64 (bits (set_bit q T) w).
Proof.
  intros Hl Hq Hw H1 H2. destruct (range_wheel q Hq) as [Hw' Hs]. unfold clear_bit, set_bit. rewrite !bits_set_bits by done.
  case_decide; [|done]. split; [by apply land_in_width_l|]. apply lor_in_width; [done|done|].
  rewrite Z.shiftl_1_l. split; [by apply Z.pow_nonneg|]. apply Z.pow_lt_mono_r; lia.
Qed.

Lemma lookup_set_timeout (T : timeouts) (id id' : nat) (f : timeout -> timeout) :
  store (set_timeout id f T) !! id' = if decide (id = id') then f <$> store T !! id' else store T !! id'.
Proof. unfold set_timeout. cbn [store set_store]. case_decide as Hd; [subst; apply lookup_alter_eq|by apply lookup_alter_ne]. Qed.

(** *** Taking a timeout out *)
Definition detach (to : timeout) : timeout :=
  match to_pending to with Some _ => set_home false None to | None => to end.

Lemma empty_remove (l : list nat) (x : nat) : x ∉ l -> TAILQ_REMOVE l x = l.
Proof.
  intros Hx. unfold TAILQ_REMOVE. induction l as [|y l IH]; [done|]. apply not_elem_of_cons in Hx as [H1 H2].
  rewrite filter_cons, decide_True by done. by rewrite IH.
Qed.
Lemma elem_remove (l : list nat) (x y : nat) : y ∈ TAILQ_REMOVE l x <-> y <> x /\ y ∈ l.
Proof. unfold TAILQ_REMOVE. by rewrite list_elem_of_filter. Qed.

(** A list that changed, with its bit. *)
Lemma fields_set_queue (T : timeouts) (q : Z) (l : list nat) :
  fields T -> in_range q ->
  (0 <= q < EXPIRED -> TAILQ_EMPTY l = TAILQ_EMPTY (queue T q)) -> fields (set_queue q l T).
Proof.
  intros Hf Hq Hl. constructor; try apply Hf.
  - cbn. rewrite length_insert. apply Hf.
  - intros q' Hq'. rewrite queue_set_queue by (auto; apply (f_queues T Hf)).
    change (bit (set_queue q l T) q') with (bit T q'). rewrite (f_bits T Hf) by done.
    case_decide; [subst; by rewrite Hl|done].
Qed.

Lemma fields_change (T : timeouts) (q : Z) (l : list nat) : fields T -> 0 <= q < EXPIRED ->
  (l = [] -> fields (clear_bit q (set_queue q l T))) /\ (l <> [] -> fields (set_bit q (set_queue q l T))).
Proof.
  intros Hf Hq. pose proof (f_queues T Hf) as HQ. pose proof (f_pending T Hf) as HP.
  split; intros Hl; (constructor;
    [change (length (<[Z.to_nat q := l]> (queues T)) = Z.to_nat (EXPIRED + 1)); by rewrite length_insert
    |unfold clear_bit, set_bit, set_bits; cbn [pending set_pending set_queue set_queues]; by rewrite length_insert
    |intros w Hw; apply (change_width (set_queue q l T) q w HP Hq Hw); apply (f_width T Hf); [by apply range_wheel|done]
    |intros q' Hq'; destruct (bit_change (set_queue q l T) q q' HP Hq Hq') as [Hb1 Hb2]; rewrite ?Hb1, ?Hb2; clear Hb1 Hb2;
     change (bit (set_queue q l T) q') with (bit T q');
     change (queue (clear_bit q (set_queue q l T)) q') with (queue (set_queue q l T) q');
     change (queue (set_bit q (set_queue q l T)) q') with (queue (set_queue q l T) q');
     rewrite queue_set_queue by auto; case_decide; [by destruct l|by apply (f_bits T Hf)]]).
Qed.

Lemma not_queued (out : list nat) (T : timeouts) (id : nat) (to : timeout) (q : Z) :
  wf out T -> store T !! id = Some to -> in_range q -> to_pending to <> Some q -> id ∉ queue T q.
Proof. intros Hw Hto Hq Hp Hin. destruct (wf_known out T Hw id q Hq Hin) as (_ & to' & H1 & H2). congruence. Qed.

(** What taking out and putting in does to the lists and the store. *)
Lemma wf_remove (out : list nat) (T T' : timeouts) (id : nat) (to' : timeout) :
  wf out T -> fields T' -> id ∉ out -> to_pending to' = None ->
  store T' = <[id := to']> (store T) ->
  (forall q : Z, in_range q -> queue T' q = TAILQ_REMOVE (queue T q) id) -> wf out T'.
Proof.
  intros Hw Hf Hout Hp Hst Hqs. constructor; [done| |apply Hw| | |].
  - intros q Hq. rewrite Hqs by done. apply NoDup_filter. by apply (wf_nodup out T Hw).
  - intros i q Hq. rewrite Hqs, elem_remove by done. intros [Hi Hin].
    rewrite Hst, lookup_insert_ne by done. by apply (wf_known out T Hw).
  - intros i t q. rewrite Hst. destruct (decide (i = id)) as [->|Hi].
    + rewrite lookup_insert_eq. intros [= <-]. congruence.
    + rewrite lookup_insert_ne by done. intros H1 H2 H3. destruct (wf_home out T Hw i t q H1 H2 H3) as [Hr Hi2].
      split; [done|]. rewrite Hqs by done. by apply elem_remove.
  - intros i Hi. rewrite Hst, lookup_insert_ne by (intros ->; done). by apply (wf_todo out T Hw).
Qed.

Lemma wf_insert (out : list nat) (T T' : timeouts) (id : nat) (to to' : timeout) (q : Z) :
  wf out T -> fields T' -> in_range q -> store T !! id = Some to -> to_pending to = None -> to_pending to' = Some q ->
  store T' = <[id := to']> (store T) ->
  (forall q' : Z, in_range q' -> queue T' q' = if decide (q = q') then queue T q ++ [id] else queue T q') -> wf out T'.
Proof.
  intros Hw Hf Hq Hto Hp Hp' Hst Hqs.
  assert (id ∉ out) as Hout.
  { intros Hin. destruct (wf_todo out T Hw id Hin) as (t & q' & H1 & H2 & _). congruence. }
  assert (forall q' : Z, in_range q' -> id ∉ queue T q') as Hno.
  { intros q' Hq'. apply (not_queued out T id to q' Hw Hto Hq'). congruence. }
  constructor; [done| |apply Hw| | |].
  - intros q' Hq'. rewrite Hqs by done. pose proof (wf_nodup out T Hw) as Hn. case_decide; [|auto].
    apply NoDup_app. split; [auto|]. split; [|apply NoDup_singleton].
    intros x Hx ->%list_elem_of_singleton. by apply (Hno q).
  - intros i q' Hq'. rewrite Hqs by done. intros Hin.
    assert (i ∈ queue T q' \/ (i = id /\ q = q')) as [Hi|[-> ->]].
    { case_decide; [subst|by left]. apply elem_of_app in Hin as [Hl| ->%list_elem_of_singleton]; [by left|by right]. }
    + rewrite Hst, lookup_insert_ne by (intros ->; by apply (Hno q')). by apply (wf_known out T Hw).
    + split; [done|]. exists to'. by rewrite Hst, lookup_insert_eq.
  - intros i t q'. rewrite Hst. destruct (decide (i = id)) as [->|Hi].
    + rewrite lookup_insert_eq. intros [= <-] H2 _. assert (q' = q) as -> by congruence. split; [done|].
      rewrite Hqs, decide_True by done. apply elem_of_app. right. by apply list_elem_of_singleton.
    + rewrite lookup_insert_ne by done. intros H1 H2 H3. destruct (wf_home out T Hw i t q' H1 H2 H3) as [Hr Hi2].
      split; [done|]. rewrite Hqs by done. case_decide; [subst; apply elem_of_app; by left|done].
  - intros i Hi. rewrite Hst, lookup_insert_ne by (intros ->; done). by apply (wf_todo out T Hw).
Qed.

Lemma alter_insert (st : gmap nat timeout) (id : nat) (to : timeout) (f : timeout -> timeout) :
  st !! id = Some to -> alter f id st = <[id := f to]> st.
Proof.
  intros H. apply map_eq. intros i. destruct (decide (i = id)) as [->|].
  - by rewrite lookup_alter_eq, H, lookup_insert_eq.
  - by rewrite lookup_alter_ne, lookup_insert_ne.
Qed.

(** The fields a change of the store does not touch. *)
Lemma fields_store (T : timeouts) (st : gmap nat timeout) : fields T -> fields (set_store st T).
Proof. intros Hf. constructor; apply Hf. Qed.

Lemma del_spec (out : list nat) (T : timeouts) (id : nat) (to : timeout) :
  wf out T -> store T !! id = Some to -> id ∉ out ->
  wf out (timeouts_del id T) /\
  store (timeouts_del id T) = <[id := detach to]> (store T) /\
  curtime (timeouts_del id T) = curtime T.
Proof.
  intros Hw Hto Hout. unfold timeouts_del, detach. rewrite Hto. pose proof (wf_fields out T Hw) as Hf.
  destruct (to_pending to) as [q|] eqn:Hp; [|by rewrite insert_id].
  destruct (wf_home out T Hw id to q Hto Hp Hout) as [Hq Hin].
  rewrite (queue_set_queue T q q), decide_True by (done || apply Hf).
  fold (clear_bit q (set_queue q (TAILQ_REMOVE (queue T q) id) T)).
  set (T1 := set_queue q (TAILQ_REMOVE (queue T q) id) T).
  set (T2 := if negb (q =? EXPIRED) && _ then clear_bit q T1 else T1).
  assert (queues T2 = queues T1 /\ store T2 = store T /\ curtime T2 = curtime T) as (HQ & HS & HC)
    by (subst T2; by destruct (_ && _)).
  assert (store (set_timeout id (set_home false None) T2) = <[id := set_home false None to]> (store T)) as Hst.
  { unfold set_timeout. cbn [store set_store]. rewrite HS. by apply alter_insert. }
  split; [|done]. apply (wf_remove out T _ id (set_home false None to)); try done.
  - apply fields_store. subst T2 T1. destruct (Z.eqb_spec q EXPIRED) as [Heq|Hne]; cbn [negb andb].
    + apply fields_set_queue; [done|done|lia].
    + assert (0 <= q < EXPIRED) as Hq2 by (unfold in_range in Hq; lia).
      destruct (TAILQ_EMPTY _) eqn:He; [apply fields_change; [done|done|by destruct (TAILQ_REMOVE _ _)]|].
      apply fields_set_queue; [done|done|]. intros _. rewrite He. by destruct (queue T q).
  - intros q' Hq'. change (queue (set_timeout id (set_home false None) T2) q') with (queue T2 q').
    unfold queue at 1. rewrite HQ. fold (queue T1 q'). subst T1. rewrite queue_set_queue by (done || apply Hf).
    case_decide as Hd; [by subst|]. symmetry. apply empty_remove. apply (not_queued out T id to); [done|done|done|congruence].
Qed.

(** ** Where a timeout waits

    [waits now w e]: expiry [e] may be in wheel [w] at [now].  In the lowest wheel
    the slot gives the time; in a higher one the timeout is at least one position
    ahead. *)
Definition level (w x : Z) : Z := Z.shiftr x (w * WHEEL_BIT).
Definition waits (now w e : Z) : Prop :=
  now < e /\ (w = 0 -> e - now <= 63) /\ (0 < w -> level w now < level w e).
Definition fits (now q e : Z) : Prop :=
  q mod WHEEL_LEN = timeout_slot (q / WHEEL_LEN) e /\ waits now (q / WHEEL_LEN) e.
Definition time_ok (t : Z) : Prop := 0 <= t < 2 ^ 63.

Lemma time_ok_width (t : Z) : time_ok t -> in_width 64 t.
Proof. unfold time_ok, in_width. lia. Qed.

Lemma level_div (w x : Z) : 0 <= w -> level w x = x / 2 ^ (w * 6).
Proof. intros Hw. unfold level. change WHEEL_BIT with 6. by rewrite Z.shiftr_div_pow2 by lia. Qed.
Lemma level_0 (x : Z) : level 0 x = x.
Proof. unfold level. by rewrite Z.mul_0_l, Z.shiftr_0_r. Qed.
Lemma level_mono (w x y : Z) : 0 <= w -> x <= y -> level w x <= level w y.
Proof. intros Hw H. rewrite !level_div by done. apply Z.div_le_mono; [|done]. apply Z.pow_pos_nonneg; lia. Qed.
Lemma level_lt (w x y : Z) : 0 <= w -> level w x < level w y -> x < y.
Proof. intros Hw H. destruct (Z.lt_ge_cases x y) as [|Hge]; [done|]. apply (level_mono w) in Hge; [lia|done]. Qed.
Lemma level_nonneg (w x : Z) : 0 <= x -> 0 <= level w x.
Proof. intros Hx. unfold level. by apply Z.shiftr_nonneg. Qed.
Lemma level_le (w x : Z) : 0 <= w -> 0 <= x -> level w x <= x.
Proof. intros Hw Hx. rewrite level_div by done. apply Z.div_le_upper_bound; [apply Z.pow_pos_nonneg; lia|].
  pose proof (Z.pow_pos_nonneg 2 (w * 6) ltac:(done) ltac:(lia)). nia. Qed.
Lemma level_succ (w x : Z) : 0 <= w -> level (w + 1) x = level w x / 64.
Proof.
  intros Hw. rewrite !level_div by lia. rewrite Z.div_div by (try apply Z.pow_pos_nonneg; lia).
  f_equal. change 64 with (2 ^ 6). rewrite <- Z.pow_add_r by lia. f_equal. lia.
Qed.

Lemma slot_level (w e : Z) : timeout_slot w e = (level w e - truth w) mod 64.
Proof.
  unfold timeout_slot. fold (level w e). rewrite wheel_mask. unfold wrap.
  apply Z.mod_mod_divide. by exists (2 ^ 58).
Qed.

(** The wheel of an interval: its value is in the range of that wheel. *)
Lemma wheel_spec (rem : Z) : 0 < rem ->
  let w := timeout_wheel rem in 0 <= w < WHEEL_NUM /\ 2 ^ (w * 6) <= rem /\ (w = 0 -> rem <= 63).
Proof.
  intros Hr. cbn zeta. unfold timeout_wheel, fls. change TIMEOUT_MAX with 16777215. change WHEEL_BIT with 6. change WHEEL_NUM with 4.
  set (m := Z.min rem 16777215). assert (0 < m <= 16777215 /\ m <= rem) as (Hm & Hmr) by lia.
  rewrite Z.add_simpl_r. pose proof (Z.log2_nonneg m) as H0. rewrite Z.quot_div_nonneg by done.
  destruct (Z.log2_spec m ltac:(lia)) as [H1 H2].
  assert (Z.log2 m < 24) as H3 by (apply Z.log2_lt_pow2; lia).
  split; [dlia|]. split.
  - transitivity (2 ^ Z.log2 m); [|lia]. apply Z.pow_le_mono_r; [done|dlia].
  - intros Hw. assert (Z.succ (Z.log2 m) <= 6) as H4 by dlia.
    pose proof (Z.pow_le_mono_r 2 _ _ ltac:(done) H4). lia.
Qed.

Lemma sched_fits (now e : Z) : time_ok now -> in_width 64 e -> now < e ->
  let w := timeout_wheel (e -₆₄ now) in
  let q := slot_of w (timeout_slot w e) in
  0 <= w < WHEEL_NUM /\ 0 <= q < EXPIRED /\ q / WHEEL_LEN = w /\ q mod WHEEL_LEN = timeout_slot w e /\ fits now q e.
Proof.
  intros Hn He Hlt. cbn zeta. assert (e -₆₄ now = e - now) as ->.
  { apply wrap_small. unfold time_ok, in_width in *. lia. }
  destruct (wheel_spec (e - now) ltac:(lia)) as (Hw & Hp & H0). set (w := timeout_wheel (e - now)) in *.
  unfold time_ok, in_width in *. assert (0 <= timeout_slot w e < 64) as Hs.
  { rewrite slot_level. by apply Z.mod_pos_bound. }
  destruct (slot_of_div w _ Hs) as [Hd Hm]. split; [done|]. split; [by apply slot_of_range|].
  unfold fits. rewrite Hd, Hm. repeat split; try done.
  intros Hw0. rewrite !level_div by lia.
  apply Z.lt_le_trans with ((now + 1 * 2 ^ (w * 6)) / 2 ^ (w * 6)).
  - rewrite Z.div_add by (apply Z.pow_nonzero; lia). lia.
  - apply Z.div_le_mono; [apply Z.pow_pos_nonneg; lia|lia].
Qed.

(** Where a timeout with expiry [e] is put. *)
Definition home_ok (now q e : Z) : Prop :=
  if e <=? now then q = EXPIRED else 0 <= q < EXPIRED /\ fits now q e.

Lemma sched_spec (out : list nat) (T : timeouts) (id : nat) (to : timeout) (e : Z) :
  wf out T -> store T !! id = Some to -> id ∉ out -> time_ok (curtime T) -> in_width 64 e ->
  wf out (timeouts_sched id e T) /\ curtime (timeouts_sched id e T) = curtime T /\
  exists q : Z, home_ok (curtime T) q e /\
    store (timeouts_sched id e T) = <[id := set_home true (Some q) (set_expires e to)]> (store T).
Proof.
  intros Hw Hto Hout Hc He. unfold timeouts_sched.
  destruct (del_spec out T id to Hw Hto Hout) as (Hw1 & Hst1 & Hc1).
  set (T1 := timeouts_del id T) in *. set (T2 := set_timeout id (set_expires e) T1).
  assert (store T1 !! id = Some (detach to)) as Hto1 by (by rewrite Hst1, lookup_insert_eq).
  assert (to_pending (detach to) = None) as Hp1 by (unfold detach; by destruct (to_pending to) eqn:?).
  change (curtime T2) with (curtime T1). rewrite Hc1. unfold timeout_rem. change (curtime T2) with (curtime T1). rewrite Hc1.
  assert (forall q : Z, store (set_timeout id (set_home true (Some q)) T2) =
            <[id := set_home true (Some q) (set_expires e to)]> (store T)) as Hst.
  { intros q. unfold T2, set_timeout. cbn [store set_store]. rewrite (alter_insert (store T1) id (detach to)) by done.
    rewrite (alter_insert _ id (set_expires e (detach to))) by apply lookup_insert_eq.
    rewrite Hst1, !insert_insert_eq. f_equal. unfold detach. by destruct (to_pending to). }
  assert (forall q : Z, store (set_timeout id (set_home true (Some q)) T2) =
            <[id := set_home true (Some q) (set_expires e to)]> (store T1)) as Hst'.
  { intros q. by rewrite Hst, Hst1, insert_insert_eq. }
  pose proof (wf_fields out T1 Hw1) as Hf. unfold home_ok.
  destruct (Z.ltb_spec (curtime T) e) as [Hlt|Hge].
  - destruct (sched_fits (curtime T) e Hc He Hlt) as (Hwr & Hq & Hd & Hm & Hfit).
    set (w := timeout_wheel _) in *. set (q := slot_of w (timeout_slot w e)) in *.
    split; [|split; [exact Hc1|]]; [|exists q; destruct (Z.leb_spec e (curtime T)); [lia|]; split; [done|exact (Hst q)]].
    rewrite <- Hd, <- Hm at 1. rewrite <- Hd at 1.
    eapply (wf_insert out T1 _ id (detach to) _ q Hw1); [|auto|exact Hto1|exact Hp1| |exact (Hst' q)|];
      [|done|intros q' Hq'; exact (queue_set_queue T1 q q' _ (f_queues T1 Hf) (range_in q Hq) Hq')].
    apply (fields_change (set_timeout id (set_home true (Some q)) T2) q); [|done|by destruct (queue _ q)].
    unfold T2, set_timeout. by do 2 apply fields_store.
  - split; [|split; [exact Hc1|]]; [|exists EXPIRED; destruct (Z.leb_spec e (curtime T)); [|lia]; split; [done|exact (Hst EXPIRED)]].
    eapply (wf_insert out T1 _ id (detach to) _ EXPIRED Hw1); [|auto|exact Hto1|exact Hp1| |exact (Hst' EXPIRED)|];
      [|done|intros q' Hq'; exact (queue_set_queue T1 EXPIRED q' _ (f_queues T1 Hf) expired_in Hq')].
    apply fields_set_queue; [|done|lia]. unfold T2, set_timeout. by do 2 apply fields_store.
Qed.

(** ** Advancing the time *)
Lemma wf_drain (todo : list nat) (T : timeouts) (q : Z) :
  wf todo T -> 0 <= q < EXPIRED -> wf (todo ++ queue T q) (clear_bit q (set_queue q [] T)).
Proof.
  intros Hw Hq. pose proof (wf_fields todo T Hw) as Hf.
  assert (forall q' : Z, in_range q' -> queue (clear_bit q (set_queue q [] T)) q' = if decide (q = q') then [] else queue T q') as Hqs.
  { intros q' Hq'. exact (queue_set_queue T q q' [] (f_queues T Hf) (range_in q Hq) Hq'). }
  constructor.
  - by apply fields_change.
  - intros q' Hq'. rewrite Hqs by done. case_decide; [apply NoDup_nil_2|by apply (wf_nodup todo T Hw)].
  - apply NoDup_app. split; [apply Hw|]. split; [|apply (wf_nodup todo T Hw); auto].
    intros id Hin Hin'. by destruct (wf_known todo T Hw id q ltac:(auto) Hin').
  - intros id q' Hq'. rewrite Hqs by done. case_decide as Hd; [by intros ?%elem_of_nil|]. intros Hin.
    destruct (wf_known todo T Hw id q' Hq' Hin) as (H1 & to & H2 & H3). split; [|by exists to].
    rewrite elem_of_app. intros [|Hin']; [done|].
    destruct (wf_known todo T Hw id q ltac:(auto) Hin') as (_ & to' & H4 & H5). change (store T !! id = Some to) in H2. congruence.
  - intros id to q' H1 H2. rewrite elem_of_app. intros H3.
    destruct (wf_home todo T Hw id to q' H1 H2 ltac:(tauto)) as [Hr Hin]. split; [done|]. rewrite Hqs by done.
    case_decide as Hd; [subst; tauto|done].
  - intros id [Hin|Hin]%elem_of_app; [by apply (wf_todo todo T Hw)|].
    destruct (wf_known todo T Hw id q ltac:(auto) Hin) as (_ & to & H1 & H2). by exists to, q.
Qed.

(** One round of the loop takes the first slot that is marked and occupied. *)
Lemma drain_S (fuel : nat) (w mask : Z) (todo : list nat) (T : timeouts) :
  0 <= w < WHEEL_NUM -> in_width 64 mask -> Z.land mask (bits T w) <> 0 ->
  let slot := ctz (Z.land mask (bits T w)) in
  let q := slot_of w slot in
  drain (S fuel) w mask todo T = drain fuel w mask (todo ++ queue T q) (clear_bit q (set_queue q [] T)) /\
  0 <= slot < 64 /\ 0 <= q < EXPIRED /\ q / WHEEL_LEN = w /\ q mod WHEEL_LEN = slot.
Proof.
  intros Hw Hm Hx. cbn zeta. cbn [drain]. rewrite (proj2 (Z.eqb_neq _ 0)) by done.
  destruct (ctz_spec (Z.land mask (bits T w))) as (Hs & _); [by apply land_in_width_l|done|].
  destruct (slot_of_div w _ Hs) as [Hd Hmod]. unfold clear_bit. rewrite Hd, Hmod, shl_1 by done. rewrite Z.shiftl_1_l.
  split; [done|]. split; [done|]. split; [by apply slot_of_range|done].
Qed.

Lemma drain_loop_spec (fuel : nat) (w mask : Z) (todo : list nat) (T : timeouts) :
  (fuel <= 65)%nat -> wf todo T -> 0 <= w < WHEEL_NUM -> in_width 64 mask ->
  (forall i : Z, 0 <= i < 65 - Z.of_nat fuel -> Z.testbit (Z.land mask (bits T w)) i = false) ->
  let '(todo', T') := drain fuel w mask todo T in
  wf todo' T' /\ store T' = store T /\ curtime T' = curtime T /\ todo ⊆ todo' /\ Z.land mask (bits T' w) = 0.
Proof.
  revert todo T. induction fuel as [|fuel IH]; intros todo T Hfu Hwf Hw Hm Hz.
  - cbn [drain]. do 4 (split; [done|]). apply Z_bits_ext. intros i Hi. rewrite Z.bits_0.
    destruct (decide (i < 65)); [apply Hz; lia|]. apply (in_width_high_bits 64); [by apply land_in_width_l|lia].
  - destruct (decide (Z.land mask (bits T w) = 0)) as [H0|Hx].
    { cbn [drain]. rewrite H0, Z.eqb_refl. done. }
    destruct (drain_S fuel w mask todo T Hw Hm Hx) as (-> & Hs & Hq & Hd & Hmod).
    set (slot := ctz _) in *. set (q := slot_of w slot) in *.
    pose proof (wf_drain todo T q Hwf Hq) as Hwf'.
    assert (forall i : Z, Z.testbit (bits (clear_bit q (set_queue q [] T)) w) i = Z.testbit (bits T w) i && negb (i =? slot)) as Hb.
    { intros i. unfold clear_bit. rewrite Hd, Hmod. rewrite bits_set_bits by (done || apply (wf_fields todo T Hwf)).
      rewrite decide_True, Z.shiftl_1_l by done. change (bits (set_queue q [] T) w) with (bits T w).
      destruct (decide (0 <= i)); [by autorewrite with bits|]. by rewrite !Z.testbit_neg_r by lia. }
    specialize (IH (todo ++ queue T q) (clear_bit q (set_queue q [] T)) ltac:(lia) Hwf' Hw Hm).
    destruct (drain fuel w mask _ _) as [todo' T']. destruct IH as (H1 & H2 & H3 & H4 & H5);
      [|do 3 (split; [done|]); split; [set_solver|done]].
    intros i Hi. rewrite Z.land_spec, Hb. rewrite andb_assoc, <- Z.land_spec.
    destruct (Z.eqb_spec i slot) as [|Hne]; [by rewrite andb_false_r|]. rewrite andb_true_r.
    destruct (decide (i < 65 - Z.of_nat (S fuel))); [apply Hz; lia|].
    destruct (ctz_spec (Z.land mask (bits T w)) ltac:(by apply land_in_width_l) Hx) as (_ & Ht & Hlow). apply Hlow.
    fold slot. destruct (Z.lt_ge_cases slot i); [|lia].
    fold slot in Ht. rewrite Hz in Ht by lia. done.
Qed.

(** After the loop no list of a marked slot holds anything. *)
Lemma drained (todo : list nat) (T : timeouts) (w mask : Z) (id : nat) (to : timeout) (q : Z) :
  wf todo T -> Z.land mask (bits T w) = 0 -> store T !! id = Some to -> to_pending to = Some q ->
  0 <= q < EXPIRED -> q / WHEEL_LEN = w -> id ∉ todo -> Z.testbit mask (q mod WHEEL_LEN) = false.
Proof.
  intros Hwf H0 Hto Hp Hq Hd Hout. destruct (wf_home todo T Hwf id to q Hto Hp Hout) as [_ Hin].
  pose proof (f_bits T (wf_fields todo T Hwf) q Hq) as Hb. unfold bit in Hb. rewrite Hd in Hb.
  assert (Z.testbit (Z.land mask (bits T w)) (q mod WHEEL_LEN) = false) as Ht by (by rewrite H0, Z.bits_0).
  rewrite Z.land_spec, Hb in Ht. destruct (queue T q); [by apply elem_of_nil in Hin|]. by rewrite andb_true_r in Ht.
Qed.

Lemma level_add (w k x : Z) : 0 <= w -> 0 <= k -> level (w + k) x = level k (level w x).
Proof.
  intros Hw Hk. rewrite !level_div by lia. rewrite Z.div_div by (try apply Z.pow_pos_nonneg; lia).
  f_equal. rewrite <- Z.pow_add_r by lia. f_equal. lia.
Qed.
Lemma level_sub (w x y : Z) : 0 <= w -> y <= x -> level w x - level w y <= level w (x - y) + 1.
Proof.
  intros Hw Hle. rewrite !level_div by done. set (p := 2 ^ (w * 6)). assert (0 < p) by (apply Z.pow_pos_nonneg; lia). clearbody p.
  pose proof (Z.mul_div_le y p ltac:(done)). pose proof (Z.mul_div_le (x - y) p ltac:(done)).
  pose proof (Z.mul_succ_div_gt y p ltac:(done)). pose proof (Z.mul_succ_div_gt (x - y) p ltac:(done)).
  pose proof (Z.mul_div_le x p ltac:(done)). nia.
Qed.
Lemma level_pow (w x : Z) : 0 <= w -> 2 ^ (w * 6) <= x -> 1 <= level w x.
Proof. intros Hw Hx. rewrite level_div by done. apply Z.div_le_lower_bound; [apply Z.pow_pos_nonneg; lia|lia]. Qed.

(** The elapsed time at wheel [w] covers the way from [old] to [now], or is so
    long that every slot has been passed. *)
Definition spans (old now elapsed w : Z) : Prop :=
  0 <= elapsed /\ (2 ^ 63 <= elapsed \/ (old <= now /\ now - old <= elapsed /\ (0 < w -> 2 ^ (w * 6) <= elapsed))).

Lemma spans_start (old now : Z) : time_ok old -> time_ok now -> spans old now (now -₆₄ old) 0.
Proof.
  unfold time_ok, spans. intros Ho Hn. split; [apply wrap_in_width; lia|].
  destruct (Z.le_gt_cases old now).
  - right. assert (now -₆₄ old = now - old) as -> by (apply wrap_small; unfold in_width; lia). lia.
  - left. assert (now -₆₄ old = now - old + 2 ^ 64) as ->; [|lia]. unfold wrap.
    symmetry. apply Z.mod_unique with (-1); lia.
Qed.

Lemma spans_next (old now elapsed w : Z) : 0 <= w < WHEEL_NUM -> spans old now elapsed w ->
  spans old now (Z.max elapsed (shl 32 WHEEL_LEN (w * WHEEL_BIT))) (w + 1).
Proof.
  change WHEEL_NUM with 4. intros Hw (H0 & H).
  assert (shl 32 WHEEL_LEN (w * WHEEL_BIT) = 2 ^ ((w + 1) * 6)) as ->.
  { assert (w = 0 \/ w = 1 \/ w = 2 \/ w = 3) as [->|[->|[->| ->]]] by lia; reflexivity. }
  unfold spans. split; [lia|]. destruct H as [H|(H1 & H2 & H3)]; [left; lia|]. right. lia.
Qed.

Lemma spans_full (old now elapsed w : Z) : 0 <= w < WHEEL_NUM -> 2 ^ 63 <= elapsed -> 63 < Z.shiftr elapsed (w * 6).
Proof.
  change WHEEL_NUM with 4. intros Hw He. rewrite Z.shiftr_div_pow2 by lia.
  assert (64 <= elapsed / 2 ^ (w * 6)); [|lia].
  apply Z.div_le_lower_bound; [apply Z.pow_pos_nonneg; lia|].
  assert (2 ^ (w * 6) <= 2 ^ 18) by (apply Z.pow_le_mono_r; lia). lia.
Qed.

Lemma spans_covers (old now elapsed w x : Z) : 0 <= w < WHEEL_NUM -> spans old now elapsed w ->
  level w old <= x <= level w now -> (0 < w \/ old < x) ->
  Z.testbit (expiring old now elapsed w) (x mod 64) = true.
Proof.
  intros Hw (H0 & H) Hx Hor. apply expiring_covers; [apply Hw|done|].
  destruct H as [H|(H1 & H2 & H3)]; [left; by apply (spans_full old now)|].
  change (Z.shiftr elapsed (w * 6)) with (level w elapsed). change (Z.shiftr old (w * 6)) with (level w old).
  change (Z.shiftr now (w * 6)) with (level w now). right. split; [done|]. split.
  - pose proof (level_sub w now old ltac:(lia) H1). pose proof (level_mono w (now - old) elapsed ltac:(lia) H2). lia.
  - destruct (decide (0 < w)) as [Hp|Hn]; [left; apply level_pow; [lia|auto]|].
    assert (w = 0) as -> by lia. rewrite !level_0. lia.
Qed.

(** A timeout whose slot is not marked keeps its place. *)
Lemma unmarked_fits (old now elapsed q e : Z) :
  time_ok now -> 0 <= q < EXPIRED -> spans old now elapsed (q / WHEEL_LEN) -> fits old q e ->
  Z.testbit (expiring old now elapsed (q / WHEEL_LEN)) (q mod WHEEL_LEN) = false -> fits now q e.
Proof.
  intros Hn Hq Hsp (Hs & Hlt & H0 & Hp) Hb. destruct (range_wheel q Hq) as [Hw _]. set (w := q / WHEEL_LEN) in *.
  split; [done|]. rewrite Hs, slot_level in Hb.
  destruct (decide (level w now < level w e - truth w)) as [Hlt2|Hge].
  - assert (level w now < level w e) as Hlt3 by (unfold truth in Hlt2; destruct (w =? 0); lia).
    split; [apply (level_lt w); [lia|done]|]. split; [|done]. intros Hw0. specialize (H0 Hw0). destruct Hsp as (He & [Hf|Hle]); [|lia].
    exfalso. revert Hb. rewrite expiring_covers; [done|lia|done|]. left. by apply (spans_full old now).
  - exfalso. revert Hb. rewrite (spans_covers old now elapsed w); [done|done|done| |].
    + split; [|lia]. unfold truth. destruct (Z.eqb_spec w 0) as [->|]; [rewrite !level_0; lia|]. specialize (Hp ltac:(lia)). lia.
    + unfold truth. destruct (Z.eqb_spec w 0) as [->|]; [right; rewrite level_0; lia|left; lia].
Qed.

(** Where the loop stops, the higher wheels have not moved. *)
Lemma stopped_level (old now elapsed w k : Z) :
  0 <= w < WHEEL_NUM -> 0 < k -> spans old now elapsed w -> Z.testbit (expiring old now elapsed w) 0 = false ->
  level (w + k) now = level (w + k) old.
Proof.
  intros Hw Hk Hsp Hb. assert (level (w + 1) now = level (w + 1) old) as Heq.
  { destruct (Z.eq_dec (level (w + 1) now) (level (w + 1) old)) as [|Hne]; [done|]. exfalso.
    pose proof Hsp as (H0 & [Hf|(Hle & H2 & H3)]).
    { pose proof (expiring_covers old now elapsed w 0 ltac:(lia) H0 (or_introl (spans_full old now elapsed w Hw Hf))) as Hc.
      change (0 mod 64) with 0 in Hc. congruence. }
    pose proof (level_mono (w + 1) old now ltac:(lia) Hle) as Hm.
    rewrite !level_succ in * by lia.
    assert (Z.testbit (expiring old now elapsed w) ((level w now / 64 * 64) mod 64) = true) as Hc;
      [|rewrite Z.mod_mul in Hc by done; congruence].
    apply (spans_covers old now elapsed w); [done|done| |].
    - split; dlia.
    - destruct (decide (0 < w)); [by left|right]. assert (w = 0) as -> by lia. pose proof (level_0 now). pose proof (level_0 old). dlia. }
  replace (w + k) with (w + 1 + (k - 1)) by lia. rewrite !(level_add (w + 1)) by lia. by rewrite Heq.
Qed.

Lemma stopped_fits (old now elapsed w q e : Z) :
  0 <= w < WHEEL_NUM -> w < q / WHEEL_LEN -> spans old now elapsed w -> Z.testbit (expiring old now elapsed w) 0 = false ->
  fits old q e -> fits now q e.
Proof.
  intros Hw Hq Hsp Hb (Hs & Hlt & H0 & Hp). split; [done|].
  pose proof (stopped_level old now elapsed w (q / WHEEL_LEN - w) Hw ltac:(lia) Hsp Hb) as Hl.
  replace (w + (q / WHEEL_LEN - w)) with (q / WHEEL_LEN) in Hl by lia. specialize (Hp ltac:(lia)). rewrite <- Hl in Hp.
  split; [apply (level_lt (q / WHEEL_LEN)); [lia|done]|]. split; [lia|]. done.
Qed.

Lemma tick_spec (n : nat) (w now elapsed : Z) (todo : list nat) (T : timeouts) :
  0 <= w -> w + Z.of_nat n = WHEEL_NUM -> time_ok now -> spans (curtime T) now elapsed w -> wf todo T ->
  (forall (id : nat) (to : timeout) (q : Z), store T !! id = Some to -> to_pending to = Some q -> 0 <= q < EXPIRED ->
    id ∉ todo -> fits (if q / WHEEL_LEN <? w then now else curtime T) q (to_expires to)) ->
  let '(todo', T') := tick n w now elapsed todo T in
  wf todo' T' /\ store T' = store T /\ curtime T' = curtime T /\
  (forall (id : nat) (to : timeout) (q : Z), store T !! id = Some to -> to_pending to = Some q -> 0 <= q < EXPIRED ->
    id ∉ todo' -> fits now q (to_expires to)).
Proof.
  revert w elapsed todo T. induction n as [|n IH]; intros w elapsed todo T Hw Hn Hnow Hsp Hwf Hfit.
  { cbn [tick]. do 3 (split; [done|]). intros id to q H1 H2 H3 H4. specialize (Hfit id to q H1 H2 H3 H4).
    destruct (range_wheel q H3) as [Hq _]. destruct (Z.ltb_spec (q / WHEEL_LEN) w); [done|lia]. }
  cbn [tick]. set (mask := expiring (curtime T) now elapsed w). assert (0 <= w < WHEEL_NUM) as Hw2 by lia.
  assert (in_width 64 mask) as Hm by (apply expiring_in_width; [lia|apply Hsp]).
  pose proof (drain_loop_spec 65 w mask todo T ltac:(lia) Hwf Hw2 Hm ltac:(lia)) as Hd.
  destruct (drain 65 w mask todo T) as [todo1 T1]. destruct Hd as (Hwf1 & Hs1 & Hc1 & Hin & H0).
  assert (forall (id : nat) (to : timeout) (q : Z), store T !! id = Some to -> to_pending to = Some q -> 0 <= q < EXPIRED ->
    id ∉ todo1 -> fits (if q / WHEEL_LEN <? w + 1 then now else curtime T) q (to_expires to)) as Hfit1.
  { intros id to q H1 H2 H3 H4. specialize (Hfit id to q H1 H2 H3 ltac:(set_solver)).
    destruct (Z.ltb_spec (q / WHEEL_LEN) w); destruct (Z.ltb_spec (q / WHEEL_LEN) (w + 1)); try done; try lia.
    assert (q / WHEEL_LEN = w) as Hqw by lia.
    apply (unmarked_fits (curtime T) now elapsed); [done|done|by rewrite Hqw|done|].
    rewrite Hqw. rewrite <- Hs1 in H1. by apply (drained todo1 T1 w mask id to q). }
  destruct (Z.eqb_spec (Z.land 1 mask) 0) as [Hb|Hb].
  - do 3 (split; [done|]). intros id to q H1 H2 H3 H4. specialize (Hfit1 id to q H1 H2 H3 H4).
    destruct (Z.ltb_spec (q / WHEEL_LEN) (w + 1)); [done|].
    assert (Z.testbit mask 0 = false) as Hb0.
    { assert (Z.testbit (Z.land 1 mask) 0 = Z.testbit mask 0) as <- by (by rewrite Z.land_spec). by rewrite Hb. }
    apply (stopped_fits (curtime T) now elapsed w); try done. lia.
  - specialize (IH (w + 1) (Z.max elapsed (shl 32 WHEEL_LEN (w * WHEEL_BIT))) todo1 T1). rewrite Hs1, Hc1 in IH.
    apply IH; [lia|lia|done|by apply spans_next|done|done].
Qed.

(** *** The state between operations *)
Definition placed (T : timeouts) (out : list nat) : Prop :=
  forall (id : nat) (to : timeout) (q : Z), store T !! id = Some to -> to_pending to = Some q -> id ∉ out ->
    0 <= q < EXPIRED -> fits (curtime T) q (to_expires to).
Definition value_ok (to : timeout) : Prop :=
  in_width 64 (to_expires to) /\ time_ok (to_interval to) /\
  (to_pending to = Some EXPIRED -> time_ok (to_expires to)) /\
  (to_timeouts to = true <-> to_pending to <> None).
Definition values (T : timeouts) : Prop := map_Forall (fun _ => value_ok) (store T).

Record inv (T : timeouts) : Prop := {
  inv_wf : wf [] T;
  inv_placed : placed T [];
  inv_values : values T;
  inv_time : time_ok (curtime T)
}.

(** What an update does with one timeout. *)
Definition advance (now : Z) (to to' : timeout) : Prop :=
  match to_pending to with
  | None => to' = to
  | Some q =>
      if q =? EXPIRED then to' = to
      else exists q' : Z, to' = set_home true (Some q') to /\
        if to_expires to <=? now then q' = EXPIRED else 0 <= q' < EXPIRED /\ fits now q' (to_expires to)
  end.

Lemma wf_release (id : nat) (out : list nat) (T : timeouts) :
  wf (id :: out) T -> wf out (set_timeout id clear_pending T).
Proof.
  intros Hw. pose proof (wf_out _ T Hw) as Hnd. apply NoDup_cons in Hnd as [Hni Hnd].
  assert (forall q : Z, in_range q -> id ∉ queue T q) as Hno.
  { intros q Hq Hin. destruct (wf_known _ T Hw id q Hq Hin) as (H & _). set_solver. }
  constructor; [apply fields_store, Hw|apply (wf_nodup _ T Hw)|done| | |].
  - intros i q Hq Hin. change (i ∈ queue T q) in Hin. destruct (wf_known _ T Hw i q Hq Hin) as (H1 & to & H2 & H3).
    split; [set_solver|]. exists to. rewrite lookup_set_timeout, decide_False; [done|]. intros ->. by apply (Hno q).
  - intros i to q. rewrite lookup_set_timeout. case_decide as Hd.
    + subst. destruct (store T !! i); [|done]. intros [= <-]. done.
    + intros H1 H2 H3. apply (wf_home _ T Hw i to q H1 H2). set_solver.
  - intros i Hi. destruct (wf_todo _ T Hw i ltac:(set_solver)) as (to & q & H). exists to, q.
    rewrite lookup_set_timeout, decide_False; [done|]. intros ->. done.
Qed.

Lemma reschedule_spec (id : nat) (out : list nat) (T : timeouts) (to : timeout) :
  wf (id :: out) T -> store T !! id = Some to -> time_ok (curtime T) -> in_width 64 (to_expires to) ->
  wf out (reschedule id T) /\ curtime (reschedule id T) = curtime T /\
  exists q : Z, home_ok (curtime T) q (to_expires to) /\
    store (reschedule id T) = <[id := set_home true (Some q) to]> (store T).
Proof.
  intros Hw Hto Hc He. unfold reschedule. pose proof (wf_release id out T Hw) as Hw1.
  assert (id ∉ out) as Hout by (pose proof (wf_out _ T Hw) as Hnd; by apply NoDup_cons in Hnd as [? _]).
  set (T1 := set_timeout id clear_pending T) in *.
  assert (store T1 !! id = Some (clear_pending to)) as Hto1 by (subst T1; by rewrite lookup_set_timeout, decide_True, Hto).
  rewrite Hto1. destruct (sched_spec out T1 id (clear_pending to) (to_expires to) Hw1 Hto1 Hout Hc He) as (H1 & H2 & q & H3 & H4).
  split; [exact H1|]. split; [exact H2|]. exists q. split; [exact H3|]. change (to_expires (clear_pending to)) with (to_expires to).
  rewrite H4. subst T1. unfold set_timeout. cbn [store set_store]. rewrite (alter_insert _ id to) by done.
  by rewrite insert_insert_eq.
Qed.

Lemma home_ok_cases (now q e : Z) : home_ok now q e ->
  in_range q /\ (q = EXPIRED -> e <= now) /\ (0 <= q < EXPIRED -> now < e /\ fits now q e).
Proof.
  unfold home_ok. destruct (Z.leb_spec e now); [intros ->|intros [Hq Hf]].
  - split; [done|]. split; [done|]. lia.
  - split; [auto|]. split; [lia|]. done.
Qed.

Lemma reschedule_all (todo : list nat) (T : timeouts) :
  wf todo T -> placed T todo -> values T -> time_ok (curtime T) ->
  let T' := fold_left (fun T id => reschedule id T) todo T in
  wf [] T' /\ placed T' [] /\ curtime T' = curtime T /\
  (forall id : nat, id ∉ todo -> store T' !! id = store T !! id) /\
  (forall id : nat, id ∈ todo -> exists (to : timeout) (q : Z), store T !! id = Some to /\
    store T' !! id = Some (set_home true (Some q) to) /\ home_ok (curtime T) q (to_expires to)).
Proof.
  revert T. induction todo as [|id todo IH]; intros T Hw Hp Hv Hc; cbn zeta; cbn [fold_left].
  { do 4 (split; [done|]). by intros id Hid%elem_of_nil. }
  destruct (wf_todo _ T Hw id ltac:(set_solver)) as (to & q0 & Hto & Hp0 & Hq0).
  destruct (Hv id to Hto) as (He & Hi & Hd & Hm).
  destruct (reschedule_spec id todo T to Hw Hto Hc He) as (Hw1 & Hc1 & q & Hq & Hst).
  pose proof (wf_out _ T Hw) as Hnd. apply NoDup_cons in Hnd as [Hni Hnd].
  destruct (home_ok_cases _ _ _ Hq) as (Hr & Hx & Hf).
  destruct (IH (reschedule id T)) as (H1 & H2 & H3 & H4 & H5).
  - done.
  - intros i t q'. rewrite Hst, Hc1. destruct (decide (i = id)) as [->|Hne].
    + rewrite lookup_insert_eq. intros [= <-] [= <-] _ Hq'. by apply Hf.
    + rewrite lookup_insert_ne by done. intros G1 G2 G3. apply (Hp i t q' G1 G2). set_solver.
  - unfold values. rewrite Hst. apply map_Forall_insert_2; [|done]. split; [done|]. split; [done|]. split; [|done].
    intros [= ->]. specialize (Hx eq_refl). unfold time_ok, in_width in *. cbn. lia.
  - by rewrite Hc1.
  - split; [done|]. split; [done|]. split; [by rewrite H3|]. split.
    + intros i Hi'. apply not_elem_of_cons in Hi' as [Hne Hi']. rewrite (H4 i Hi'), Hst, lookup_insert_ne by done. done.
    + intros i [->|Hin]%elem_of_cons.
      * exists to, q. rewrite (H4 id Hni), Hst, lookup_insert_eq. done.
      * destruct (H5 i Hin) as (t & q' & G1 & G2 & G3). exists t, q'. rewrite Hst, lookup_insert_ne in G1 by (intros ->; done).
        rewrite Hc1 in G3. done.
Qed.

Lemma update_spec (now : Z) (T : timeouts) : inv T -> time_ok now ->
  inv (timeouts_update now T) /\ curtime (timeouts_update now T) = now /\
  (forall id : nat, option_Forall2 (advance now) (store T !! id) (store (timeouts_update now T) !! id)).
Proof.
  intros [Hw Hp Hv Hc] Hn. unfold timeouts_update.
  pose proof (tick_spec (Z.to_nat WHEEL_NUM) 0 now (now -₆₄ curtime T) [] T) as Ht.
  destruct (tick _ 0 now _ [] T) as [todo T1].
  destruct Ht as (Hw1 & Hs1 & Hc1 & Hf1); [done|done|done|by apply spans_start|done| |].
  { intros id to q H1 H2 H3 H4. destruct (range_wheel q H3) as [Hq _]. destruct (Z.ltb_spec (q / WHEEL_LEN) 0); [lia|]. by apply (Hp id). }
  set (T2 := set_curtime now T1).
  assert (store T2 = store T) as Hs2 by done.
  assert (wf todo T2) as Hw2.
  { destruct Hw1 as [Hf X1 X2 X3 X4 X5]. constructor; try done. constructor; apply Hf. }
  destruct (reschedule_all todo T2) as (H1 & H2 & H3 & H4 & H5); [done| | |done|].
  { intros id to q G1 G2 G3 G4. rewrite Hs2 in G1. by apply (Hf1 id). }
  { unfold values. by rewrite Hs2. }
  set (T3 := fold_left _ todo T2) in *. change (curtime T2) with now in *. rewrite Hs2 in *.
  assert (forall id : nat, option_Forall2 (advance now) (store T !! id) (store T3 !! id)) as Hadv.
  { intros id. destruct (decide (id ∈ todo)) as [Hin|Hout].
    - destruct (H5 id Hin) as (to & q & E1 & E2 & Hq). rewrite E1, E2. constructor.
      destruct (wf_todo _ T2 Hw2 id Hin) as (t & q0 & G1 & G2 & G3). rewrite Hs2 in G1.
      assert (t = to) as -> by congruence.
      unfold advance. rewrite G2. destruct (Z.eqb_spec q0 EXPIRED); [lia|]. exists q. split; [done|]. exact Hq.
    - rewrite (H4 id Hout). destruct (store T !! id) as [to|] eqn:Hto; constructor.
      unfold advance. destruct (to_pending to) as [q|] eqn:Hq; [|done]. destruct (Z.eqb_spec q EXPIRED) as [|Hne]; [done|].
      rewrite <- Hs1 in Hto. destruct (wf_home _ T1 Hw1 id to q Hto Hq Hout) as [Hr _]. rewrite Hs1 in Hto.
      assert (0 <= q < EXPIRED) as Hq2 by (unfold in_range in Hr; lia).
      pose proof (Hf1 id to q Hto Hq Hq2 Hout) as Hfit. exists q. split.
      + destruct (Hv id to Hto) as (_ & _ & _ & Hm). destruct to as [f i e b p d]. cbn in *. unfold set_home. cbn.
        f_equal; [apply Hm; by rewrite Hq|done].
      + destruct Hfit as [Hs (Hlt & Hrest)]. destruct (Z.leb_spec (to_expires to) now); [lia|]. done. }
  split; [|done]. constructor; [done|done| |by rewrite H3].
  intros id to Hto. specialize (Hadv id). rewrite Hto in Hadv. destruct (store T !! id) as [t|] eqn:Ht; inversion Hadv as [t' to' Ha E1 E2|]; subst t' to'.
  specialize (Hv id t Ht). unfold advance in Ha. destruct (to_pending t) as [q|] eqn:Hq; [|by rewrite Ha].
  destruct (q =? EXPIRED); [by rewrite Ha|]. destruct Ha as (q' & -> & Hq'). destruct Hv as (V1 & V2 & V3 & V4).
  split; [done|]. split; [done|]. split; [|done]. cbn. intros [= ->]. destruct (Z.leb_spec (to_expires t) now); [|lia].
  unfold time_ok, in_width in *. lia.
Qed.

(** ** The time to the next update *)
Definition waiting (T : timeouts) (id : nat) (w e : Z) : Prop :=
  exists (to : timeout) (q : Z), store T !! id = Some to /\ to_pending to = Some q /\ 0 <= q < EXPIRED /\
    q / WHEEL_LEN = w /\ to_expires to = e.

Lemma waiting_fits (T : timeouts) (id : nat) (w e : Z) : inv T -> waiting T id w e ->
  0 <= w < WHEEL_NUM /\ Z.testbit (bits T w) ((level w e - truth w) mod 64) = true /\ waits (curtime T) w e.
Proof.
  intros [Hw Hp Hv Hc] (to & q & H1 & H2 & H3 & H4 & H5). destruct (range_wheel q H3) as [Hq _].
  destruct (Hp id to q H1 H2 ltac:(set_solver) H3) as [Hs Hwt]. rewrite H4, H5, slot_level in *.
  split; [done|]. split; [|done]. rewrite <- Hs, <- H4. change (bit T q = true).
  rewrite (f_bits T (wf_fields _ T Hw) q H3). destruct (wf_home _ T Hw id to q H1 H2 ltac:(set_solver)) as [_ Hin].
  destruct (queue T q); [set_solver|done].
Qed.

Lemma occupied_waits (T : timeouts) (w s : Z) : inv T -> 0 <= w < WHEEL_NUM -> 0 <= s < 64 -> Z.testbit (bits T w) s = true ->
  exists (id : nat) (e : Z), waiting T id w e /\ s = (level w e - truth w) mod 64.
Proof.
  intros [Hw Hp Hv Hc] Hw2 Hs Hb. destruct (slot_of_div w s Hs) as [Hd Hm]. pose proof (slot_of_range w s Hw2 Hs) as Hq.
  set (q := slot_of w s) in *. pose proof (f_bits T (wf_fields _ T Hw) q Hq) as Hbq. unfold bit in Hbq. rewrite Hd, Hm, Hb in Hbq.
  destruct (queue T q) as [|id l] eqn:Hl; [done|].
  destruct (wf_known _ T Hw id q ltac:(auto)) as (_ & to & H1 & H2); [rewrite Hl; set_solver|].
  exists id, (to_expires to). split; [by exists to, q|].
  destruct (Hp id to q H1 H2 ltac:(set_solver) Hq) as [Hf _]. rewrite Hd, slot_level in Hf. congruence.
Qed.

(** The time one wheel gives. *)
Definition wheel_time (T : timeouts) (w : Z) : Z :=
  (ctz (rotr (bits T w) (level w (curtime T) mod 64)) + truth w) * 2 ^ (w * 6) - curtime T mod 2 ^ (w * 6).

Lemma wheel_time_spec (T : timeouts) (w : Z) : inv T -> 0 <= w < WHEEL_NUM -> bits T w <> 0 ->
  0 < wheel_time T w < 2 ^ 32 /\ (forall (id : nat) (e : Z), waiting T id w e -> wheel_time T w <= e - curtime T) /\
  (exists (id : nat) (e : Z), waiting T id w e) /\
  0 <= ctz (rotr (bits T w) (level w (curtime T) mod 64)) < 64.
Proof.
  intros Hi Hw Hb. pose proof Hi as [Hwf _ _ Hc]. unfold wheel_time. set (c := level w (curtime T)).
  pose proof (f_width T (wf_fields _ T Hwf) w Hw) as Hbw.
  assert (0 <= c mod 64 < 64) as Hos by (by apply Z.mod_pos_bound).
  assert (rotr (bits T w) (c mod 64) <> 0) as Hr.
  { intros Hr. apply Hb. apply Z_bits_ext. intros i Hi0. rewrite Z.bits_0.
    destruct (decide (i < 64)); [|apply (in_width_high_bits 64); [done|lia]].
    assert (Z.testbit (rotr (bits T w) (c mod 64)) ((i - c mod 64) mod 64) = false) as Ht by (by rewrite Hr, Z.bits_0).
    rewrite rotr_testbit in Ht by (try apply Z.mod_pos_bound; done). rewrite Zplus_mod_idemp_l in Ht.
    replace (i - c mod 64 + c mod 64) with i in Ht by lia. by rewrite Z.mod_small in Ht. }
  destruct (ctz_spec _ (proj2 (rot_in_width _ (c mod 64) Hbw)) Hr) as (Hj & Ht & Hlow).
  set (j := ctz _) in *. rewrite rotr_testbit in Ht by done.
  destruct (occupied_waits T w ((j + c mod 64) mod 64) Hi Hw) as (id0 & e0 & Hw0 & Hs0); [by apply Z.mod_pos_bound|done|].
  assert (0 < 2 ^ (w * 6) <= 2 ^ 18) as Hp.
  { change WHEEL_NUM with 4 in Hw. split; [apply Z.pow_pos_nonneg; lia|apply Z.pow_le_mono_r; lia]. }
  pose proof (Z.mod_pos_bound (curtime T) (2 ^ (w * 6)) ltac:(lia)) as Hmod.
  assert (0 <= truth w <= 1) as Htr by (unfold truth; destruct (w =? 0); lia).
  split; [split|split; [|split; [by exists id0, e0|done]]].
  - destruct (Z.eqb_spec w 0) as [->|Hn]; [|unfold truth; rewrite (proj2 (Z.eqb_neq w 0)) by done; nia].
    destruct (waiting_fits T id0 0 e0 Hi Hw0) as (_ & _ & Hlt & Hmax & _). specialize (Hmax eq_refl).
    subst c. rewrite !level_0 in *. change (truth 0) with 0 in *. rewrite Z.mul_0_l, Z.pow_0_r, Z.mod_1_r in *. dlia.
  - nia.
  - intros id e Hwt. destruct (waiting_fits T id w e Hi Hwt) as (_ & Hbe & Hlt & Hmax & Hup).
    set (d := level w e - truth w - c). assert (0 <= d) as Hd.
    { subst d c. unfold truth. destruct (Z.eqb_spec w 0) as [->|Hn]; [rewrite !level_0; lia|]. specialize (Hup ltac:(lia)). lia. }
    assert (j <= d mod 64) as Hle.
    { apply Z.le_ngt. intros Hgt. specialize (Hlow _ Hgt). rewrite rotr_testbit in Hlow by (try apply Z.mod_pos_bound; done).
      rewrite <- Zplus_mod in Hlow. subst d. replace (level w e - truth w - c + c) with (level w e - truth w) in Hlow by lia. congruence. }
    assert (d mod 64 <= d) as Hle2 by (apply Z.mod_le; lia).
    subst d c. rewrite !level_div in * by lia. set (p := 2 ^ (w * 6)) in *.
    pose proof (Z.mul_div_le e p ltac:(lia)). pose proof (Z.div_mod (curtime T) p ltac:(lia)). nia.
Qed.

Lemma int_round_spec (T : timeouts) (w t : Z) : inv T -> 0 <= w < WHEEL_NUM ->
  int_round T (t, 2 ^ (w * 6) - 1) w =
    (if bits T w =? 0 then t else Z.min (wheel_time T w) t, 2 ^ ((w + 1) * 6) - 1).
Proof.
  intros Hi Hw. unfold int_round. f_equal.
  - destruct (Z.eqb_spec (bits T w) 0) as [|Hb]; [done|]. destruct (wheel_time_spec T w Hi Hw Hb) as (Hr & _ & _ & Hj).
    rewrite wheel_mask. change (Z.shiftr (curtime T) (w * WHEEL_BIT)) with (level w (curtime T)).
    f_equal. unfold wheel_time in *. set (j := ctz _) in *.
    assert (0 <= truth w <= 1) as Htr by (unfold truth; destruct (w =? 0); lia).
    change WHEEL_NUM with 4 in Hw. change WHEEL_BIT with 6.
    assert (0 < 2 ^ (w * 6) <= 2 ^ 18) as Hp by (split; [apply Z.pow_pos_nonneg; lia|apply Z.pow_le_mono_r; lia]).
    unfold shl. rewrite Z.shiftl_mul_pow2 by lia. rewrite (wrap_small 32) by (unfold in_width; nia).
    rewrite Z.land_comm, Z.sub_1_r, <- Z.ones_equiv, Z.land_ones by lia. apply wrap_small. unfold in_width. lia.
  - change WHEEL_NUM with 4 in Hw. assert (w = 0 \/ w = 1 \/ w = 2 \/ w = 3) as [->|[->|[->| ->]]] by lia; reflexivity.
Qed.

(** [t] is a time not longer than what the lower wheels need. *)
Definition soft (T : timeouts) (w t : Z) : Prop :=
  0 < t <= Z.ones 64 /\
  (forall (id : nat) (w' e : Z), w' < w -> waiting T id w' e -> t <= e - curtime T) /\
  ((forall (id : nat) (w' e : Z), w' < w -> ~ waiting T id w' e) -> t = Z.ones 64).

Lemma soft_round (T : timeouts) (w t : Z) : inv T -> 0 <= w < WHEEL_NUM -> soft T w t ->
  soft T (w + 1) (if bits T w =? 0 then t else Z.min (wheel_time T w) t).
Proof.
  intros Hi Hw (H1 & H2 & H3). destruct (Z.eqb_spec (bits T w) 0) as [H0|Hb].
  - assert (forall (id : nat) (e : Z), ~ waiting T id w e) as Hno.
    { intros id e He. destruct (waiting_fits T id w e Hi He) as (_ & Hb & _). by rewrite H0, Z.bits_0 in Hb. }
    split; [done|]. split.
    + intros id w' e Hlt He. destruct (decide (w' = w)) as [->|]; [by destruct (Hno id e)|]. apply (H2 id w'); [lia|done].
    + intros Hn. apply H3. intros id w' e Hlt. apply Hn. lia.
  - destruct (wheel_time_spec T w Hi Hw Hb) as (G1 & G2 & (id0 & e0 & G3) & _). assert (Z.ones 64 = 2 ^ 64 - 1) as Ho by done.
    split; [lia|]. split.
    + intros id w' e Hlt He. destruct (decide (w' = w)) as [->|]; [specialize (G2 id e He); lia|].
      specialize (H2 id w' e ltac:(lia) He). lia.
    + intros Hn. destruct (Hn id0 w e0); [lia|done].
Qed.

Lemma timeouts_int_soft (T : timeouts) : inv T -> soft T WHEEL_NUM (timeouts_int T).
Proof.
  intros Hi. unfold timeouts_int. cbn [fold_left]. change (Z.ones 64, 0) with (Z.ones 64, 2 ^ (0 * 6) - 1).
  rewrite (int_round_spec T 0) by done. change (0 + 1) with 1. rewrite (int_round_spec T 1) by done. change (1 + 1) with 2.
  rewrite (int_round_spec T 2) by done. change (2 + 1) with 3. rewrite (int_round_spec T 3) by done. cbn [fst].
  apply (soft_round T 3); [done|done|]. apply (soft_round T 2); [done|done|]. apply (soft_round T 1); [done|done|].
  apply (soft_round T 0); [done|done|]. split; [done|]. split; [|done].
  intros id w' e Hlt He. destruct (waiting_fits T id w' e Hi He) as (Hr & _). lia.
Qed.

(** ** The schedule a wheel stands for

    An alarm is idle, waiting for its time or due; the state is the time and the
    alarms.  Lists, slots and bit fields do not appear. *)
Inductive status := Idle | Waiting | Due.
#[export] Instance status_eq_dec : EqDecision status.
Proof. solve_decision. Defined.
Record alarm := Alarm { a_flags : Z; a_interval : Z; a_expires : Z; a_status : status; a_data : nat }.
Record schedule := Schedule { s_now : Z; s_alarms : gmap nat alarm }.

Definition with_status (x : status) (a : alarm) : alarm :=
  Alarm (a_flags a) (a_interval a) (a_expires a) x (a_data a).
Definition due_at (now e : Z) : status := if e <=? now then Due else Waiting.
Definition ring (now : Z) (a : alarm) : alarm :=
  match a_status a with Waiting => with_status (due_at now (a_expires a)) a | _ => a end.
Definition added (now t : Z) (a : alarm) : alarm :=
  let i := if Z.land (a_flags a) TIMEOUT_INT =? 0 then a_interval a else Z.max 1 t in
  let e := if Z.land (a_flags a) TIMEOUT_ABS =? 0 then now + t else t in
  Alarm (a_flags a) i e (due_at now e) (a_data a).
(** A repeating alarm goes on with the first multiple of its interval that is
    after [now], at least one interval later. *)
Definition next_due (now e i : Z) : Z := e + i * (Z.max 0 (now - e) / i + 1).
Definition taken (now : Z) (a : alarm) : alarm :=
  if negb (Z.land (a_flags a) TIMEOUT_INT =? 0) && (0 <? a_interval a)
  then Alarm (a_flags a) (a_interval a) (next_due now (a_expires a) (a_interval a)) Waiting (a_data a)
  else with_status Idle a.
Definition some_in (s : schedule) (x : status) : Prop :=
  exists (id : nat) (a : alarm), s_alarms s !! id = Some a /\ a_status a = x.
Definition wait_ok (s : schedule) (r : Z) : Prop :=
  (some_in s Due -> r = 0) /\
  (~ some_in s Due -> 0 < r < 2 ^ 64 /\
     (forall (id : nat) (a : alarm), s_alarms s !! id = Some a -> a_status a = Waiting -> r <= a_expires a - s_now s) /\
     (~ some_in s Waiting -> r = 2 ^ 64 - 1)).

Inductive op := Init (id : nat) (flags : Z) | Add (id : nat) (t : Z) | Del (id : nat) | Update (now : Z) | Step (d : Z)
  | Get | Timeout_ | Pending | Expired | Check_.
Inductive reply := Done | Got (id : option nat) | Time (t : Z) | Flag (b : bool).

Definition s_put (id : nat) (a : alarm) (s : schedule) : schedule := Schedule (s_now s) (<[id := a]> (s_alarms s)).
Definition s_update (now : Z) (s : schedule) : schedule := Schedule now (ring now <$> s_alarms s).

Inductive s_step (s : schedule) : op -> reply -> schedule -> Prop :=
  | SInit (id : nat) (fl : Z) : s_step s (Init id fl) Done (s_put id (Alarm fl 0 0 Idle 0) s)
  | SAdd (id : nat) (t : Z) (a : alarm) : s_alarms s !! id = Some a -> s_step s (Add id t) Done (s_put id (added (s_now s) t a) s)
  | SDel (id : nat) (a : alarm) : s_alarms s !! id = Some a -> s_step s (Del id) Done (s_put id (with_status Idle a) s)
  | SUpdate (now : Z) : s_step s (Update now) Done (s_update now s)
  | SStep (d : Z) : s_step s (Step d) Done (s_update (s_now s + d) s)
  | SNone : ~ some_in s Due -> s_step s Get (Got None) s
  | SGet (id : nat) (a : alarm) : s_alarms s !! id = Some a -> a_status a = Due ->
      s_step s Get (Got (Some id)) (s_put id (taken (s_now s) a) s)
  | STimeout (r : Z) : wait_ok s r -> s_step s Timeout_ (Time r) s
  | SPending (b : bool) : (b = true <-> some_in s Waiting) -> s_step s Pending (Flag b) s
  | SExpired (b : bool) : (b = true <-> some_in s Due) -> s_step s Expired (Flag b) s
  | SCheck : s_step s Check_ (Flag true) s.

(** What a caller must keep to: the structures exist and are set up while they are
    not queued, and times are below [2^63]. *)
Definition op_ok (s : schedule) (o : op) : Prop :=
  match o with
  | Init id _ => forall a : alarm, s_alarms s !! id = Some a -> a_status a = Idle
  | Add id t => is_Some (s_alarms s !! id) /\ time_ok t
  | Del id => is_Some (s_alarms s !! id)
  | Update now => time_ok now
  | Step d => 0 <= d /\ time_ok (s_now s + d)
  | _ => True
  end.

(** The abstraction. *)
Definition status_of (to : timeout) : status :=
  match to_pending to with None => Idle | Some q => if q =? EXPIRED then Due else Waiting end.
Definition abs_timeout (to : timeout) : alarm :=
  Alarm (to_flags to) (to_interval to) (to_expires to) (status_of to) (to_data to).
Definition abs (T : timeouts) : schedule := Schedule (curtime T) (abs_timeout <$> store T).

(** The operations of the wheel. *)
Definition exec (o : op) (T : timeouts) : reply * timeouts :=
  match o with
  | Init id fl => (Done, set_store (<[id := timeout_init fl]> (store T)) T)
  | Add id t => (Done, timeouts_add id t T)
  | Del id => (Done, timeouts_del id T)
  | Update now => (Done, timeouts_update now T)
  | Step d => (Done, timeouts_step d T)
  | Get => let '(r, T) := timeouts_get T in (Got r, T)
  | Timeout_ => (Time (timeouts_timeout T), T)
  | Pending => (Flag (timeouts_pending T), T)
  | Expired => (Flag (timeouts_expired T), T)
  | Check_ => (Flag (timeouts_check T), T)
  end.
Fixpoint run (ops : list op) (T : timeouts) : list reply * timeouts :=
  match ops with
  | [] => ([], T)
  | o :: ops => let '(r, T) := exec o T in let '(rs, T) := run ops T in (r :: rs, T)
  end.
Fixpoint run_ok (ops : list op) (T : timeouts) : Prop :=
  match ops with [] => True | o :: ops => op_ok (abs T) o /\ run_ok ops (snd (exec o T)) end.
Inductive s_run : schedule -> list op -> list reply -> schedule -> Prop :=
  | s_run_nil (s : schedule) : s_run s [] [] s
  | s_run_cons (s s1 s2 : schedule) (o : op) (r : reply) (ops : list op) (rs : list reply) :
      s_step s o r s1 -> s_run s1 ops rs s2 -> s_run s (o :: ops) (r :: rs) s2.

(** *** Each operation *)
Lemma abs_lookup (T : timeouts) (id : nat) : s_alarms (abs T) !! id = abs_timeout <$> store T !! id.
Proof. apply lookup_fmap. Qed.

Lemma abs_put (T T' : timeouts) (id : nat) (to : timeout) (a : alarm) :
  curtime T' = curtime T -> store T' = <[id := to]> (store T) -> abs_timeout to = a -> abs T' = s_put id a (abs T).
Proof. intros Hc Hs <-. unfold abs, s_put. cbn. by rewrite Hc, Hs, fmap_insert. Qed.

Definition home (st : gmap nat timeout) (id : nat) : option Z := st !! id ≫= to_pending.

Lemma wf_store (T : timeouts) (st : gmap nat timeout) :
  wf [] T -> (forall id : nat, home st id = home (store T) id) -> wf [] (set_store st T).
Proof.
  intros Hw Hh. constructor; [apply fields_store, Hw|apply (wf_nodup _ T Hw)|constructor| | |].
  - intros id q Hq Hin. destruct (wf_known _ T Hw id q Hq Hin) as (H1 & to & H2 & H3). split; [done|].
    specialize (Hh id). unfold home in Hh. rewrite H2 in Hh. cbn in Hh. rewrite H3 in Hh. by apply bind_Some in Hh.
  - intros id to q H1 H2 H3. cbn in H1. specialize (Hh id). unfold home in Hh. rewrite H1 in Hh. cbn in Hh. rewrite H2 in Hh.
    symmetry in Hh. apply bind_Some in Hh as (t & H4 & H5). by apply (wf_home _ T Hw id t).
  - by intros id Hin%elem_of_nil.
Qed.

Lemma inv_insert (T : timeouts) (id : nat) (to : timeout) :
  inv T -> home (store T) id = to_pending to -> value_ok to ->
  (forall q : Z, to_pending to = Some q -> to_expires <$> store T !! id = Some (to_expires to)) ->
  inv (set_store (<[id := to]> (store T)) T).
Proof.
  intros [Hw Hp Hv Hc] Hh Hok He. constructor; [|..|done].
  - apply wf_store; [done|]. intros i. unfold home. destruct (decide (i = id)) as [->|]; [by rewrite lookup_insert_eq|].
    by rewrite lookup_insert_ne.
  - intros i t q. cbn [store set_store curtime]. destruct (decide (i = id)) as [->|].
    + rewrite lookup_insert_eq. intros [= <-] H2 H3 H4. specialize (He q H2). unfold home in Hh.
      destruct (store T !! id) as [t|] eqn:Ht; [|done]. injection He as <-. apply (Hp id t q); [done|cbn in Hh; congruence|done|done].
    + rewrite lookup_insert_ne by done. apply Hp.
  - apply map_Forall_insert_2; [done|]. exact Hv.
Qed.

(** Everything but one timeout is in order. *)
Definition timeout_ok (T : timeouts) (to : timeout) : Prop :=
  value_ok to /\ (forall q : Z, to_pending to = Some q -> 0 <= q < EXPIRED -> fits (curtime T) q (to_expires to)).
Definition others (T : timeouts) (id : nat) : Prop :=
  forall (i : nat) (to : timeout), i <> id -> store T !! i = Some to -> timeout_ok T to.

Lemma inv_others (T : timeouts) (id : nat) : inv T -> others T id.
Proof.
  intros [Hw Hp Hv Hc] i to Hne Hto. split; [exact (Hv i to Hto)|]. intros q H1 H2. apply (Hp i to q); [done|done|set_solver|done].
Qed.

Lemma inv_intro (T : timeouts) (id : nat) (to : timeout) : wf [] T -> time_ok (curtime T) -> others T id ->
  store T !! id = Some to -> timeout_ok T to -> inv T.
Proof.
  intros Hw Hc Ho Hto Hok.
  assert (forall (i : nat) (t : timeout), store T !! i = Some t -> timeout_ok T t) as Hall.
  { intros i t Ht. destruct (decide (i = id)) as [->|Hne]; [by simplify_eq|by apply (Ho i)]. }
  constructor; [done| | |done].
  - intros i t q H1 H2 _ H3. by apply (Hall i t H1).
  - intros i t H1. apply (Hall i t H1).
Qed.

Lemma others_insert (T T' : timeouts) (id : nat) (to : timeout) : others T id -> curtime T' = curtime T ->
  store T' = <[id := to]> (store T) -> others T' id.
Proof.
  intros Ho Hc Hs i t Hne. rewrite Hs, lookup_insert_ne by done. intros Ht. destruct (Ho i t Hne Ht) as [H1 H2].
  split; [done|]. by rewrite Hc.
Qed.

Lemma sched_inv (T : timeouts) (id : nat) (to : timeout) (e : Z) :
  wf [] T -> time_ok (curtime T) -> others T id -> store T !! id = Some to -> time_ok (to_interval to) -> in_width 64 e ->
  inv (timeouts_sched id e T) /\
  abs (timeouts_sched id e T) = s_put id (Alarm (to_flags to) (to_interval to) e (due_at (curtime T) e) (to_data to)) (abs T).
Proof.
  intros Hw Hc Ho Hto Hint He. destruct (sched_spec [] T id to e Hw Hto ltac:(set_solver) Hc He) as (H1 & H2 & q & H3 & H4).
  destruct (home_ok_cases _ _ _ H3) as (Hr & Hx & Hf). split.
  - eapply (inv_intro _ id); [done|by rewrite H2|by apply (others_insert T _ id _ Ho H2 H4)|rewrite H4; apply lookup_insert_eq|].
    split; [|rewrite H2; cbn; intros q' [= <-] Hq; by apply Hf]. split; [done|]. split; [done|]. split; [|done].
    intros [= ->]. specialize (Hx eq_refl). unfold time_ok, in_width in *. cbn. lia.
  - apply (abs_put T _ id (set_home true (Some q) (set_expires e to))); [done|done|]. unfold abs_timeout, status_of, due_at. cbn.
    f_equal. unfold home_ok in H3. destruct (e <=? curtime T); [by subst; rewrite Z.eqb_refl|].
    destruct (Z.eqb_spec q EXPIRED); [lia|done].
Qed.

Lemma home_out (T : timeouts) (id : nat) (to : timeout) : store T !! id = Some to -> home (store T) id = to_pending to.
Proof. intros Hto. unfold home. by rewrite Hto. Qed.

Lemma update_abs (now : Z) (T : timeouts) : inv T -> time_ok now -> abs (timeouts_update now T) = s_update now (abs T).
Proof.
  intros Hi Hn. destruct (update_spec now T Hi Hn) as (Hi' & Hc & Hadv). unfold abs, s_update. rewrite Hc. f_equal.
  apply map_eq. intros id. cbn [s_alarms]. rewrite !lookup_fmap. destruct (Hadv id) as [to to' Ha|]; [|done]. cbn. f_equal.
  unfold advance in Ha. unfold abs_timeout at 2, ring, status_of. cbn [a_status].
  destruct (to_pending to) as [q|] eqn:Hq; [|subst; unfold abs_timeout, status_of; by rewrite Hq].
  destruct (q =? EXPIRED) eqn:He; [subst; unfold abs_timeout, status_of; by rewrite Hq, He|].
  destruct Ha as (q' & -> & Hq'). unfold abs_timeout, status_of, with_status, due_at. cbn. f_equal.
  destruct (to_expires to <=? now); [by rewrite Hq', Z.eqb_refl|]. destruct Hq' as [Hr _]. destruct (Z.eqb_spec q' EXPIRED); [lia|done].
Qed.

Lemma detached_ok (to : timeout) : in_width 64 (to_expires to) -> time_ok (to_interval to) ->
  to_pending to = None -> to_timeouts to = false -> value_ok to.
Proof. intros He Hi Hp Hb. split; [done|]. split; [done|]. rewrite Hp, Hb. split; [done|]. by split. Qed.

Lemma del_inv (T : timeouts) (id : nat) (to : timeout) : inv T -> store T !! id = Some to ->
  inv (timeouts_del id T) /\ abs (timeouts_del id T) = s_put id (with_status Idle (abs_timeout to)) (abs T).
Proof.
  intros Hi Hto. pose proof Hi as [Hw Hp Hv Hc]. destruct (del_spec [] T id to Hw Hto ltac:(set_solver)) as (H1 & H2 & H3).
  assert (to_pending (detach to) = None) as Hd by (unfold detach; by destruct (to_pending to) eqn:?).
  split.
  - eapply (inv_intro _ id); [done|by rewrite H3|by apply (others_insert T _ id _ (inv_others T id Hi) H3 H2)
      |rewrite H2; apply lookup_insert_eq|]. split; [|congruence].
    destruct (Hv id to Hto) as (V1 & V2 & V3 & V4). unfold detach in *.
    destruct (to_pending to) eqn:Hq; [by apply detached_ok|exact (Hv id to Hto)].
  - apply (abs_put T _ id (detach to)); [done|done|]. unfold abs_timeout, with_status, status_of. rewrite Hd. unfold detach.
    by destruct (to_pending to).
Qed.

Lemma init_inv (T : timeouts) (id : nat) (fl : Z) : inv T ->
  (forall a : alarm, s_alarms (abs T) !! id = Some a -> a_status a = Idle) ->
  inv (set_store (<[id := timeout_init fl]> (store T)) T).
Proof.
  intros Hi Hidle. apply inv_insert; [done| |by apply detached_ok|done]. unfold home.
  destruct (store T !! id) as [to|] eqn:Hto; [|done]. cbn. specialize (Hidle (abs_timeout to)).
  rewrite abs_lookup, Hto in Hidle. specialize (Hidle eq_refl). unfold abs_timeout, status_of in Hidle. cbn in Hidle.
  destruct (to_pending to) as [q|]; [by destruct (q =? EXPIRED)|done].
Qed.

Lemma add_inv (T : timeouts) (id : nat) (to : timeout) (t : Z) : inv T -> store T !! id = Some to -> time_ok t ->
  inv (timeouts_add id t T) /\ abs (timeouts_add id t T) = s_put id (added (curtime T) t (abs_timeout to)) (abs T).
Proof.
  intros Hi Hto Ht. unfold timeouts_add. rewrite Hto. pose proof (inv_time T Hi) as Hc.
  destruct (inv_values T Hi id to Hto) as (V1 & V2 & V3 & V4).
  assert (curtime T +₆₄ t = curtime T + t) as Hsum by (apply wrap_small; unfold time_ok, in_width in *; lia).
  assert (in_width 64 (curtime T + t) /\ in_width 64 t) as [Hw1 Hw2] by (unfold time_ok, in_width in *; lia).
  set (i := if Z.land (to_flags to) TIMEOUT_INT =? 0 then to_interval to else Z.max 1 t).
  set (T1 := if negb _ then set_timeout id (set_interval (Z.max 1 t)) T else T).
  assert (T1 = set_store (<[id := set_interval i to]> (store T)) T) as HT1.
  { subst T1 i. destruct (_ =? 0); cbn [negb].
    - unfold set_interval. replace (Timeout _ _ _ _ _ _) with to by (by destruct to). rewrite insert_id by done. by destruct T.
    - unfold set_timeout. by rewrite (alter_insert _ id to). }
  assert (inv T1) as Hi1.
  { rewrite HT1. apply inv_insert; [done|exact (home_out T id to Hto)| |by rewrite Hto].
    split; [done|]. split; [|done]. cbn. subst i. destruct (_ =? 0); [done|]. unfold time_ok in *. lia. }
  assert (store T1 !! id = Some (set_interval i to)) as Hto1 by (rewrite HT1; apply lookup_insert_eq).
  assert (curtime T1 = curtime T) as Hc1 by (by rewrite HT1). rewrite Hc1, Hsum.
  assert (forall e : Z, in_width 64 e -> inv (timeouts_sched id e T1) /\
    abs (timeouts_sched id e T1) = s_put id (Alarm (to_flags to) i e (due_at (curtime T) e) (to_data to)) (abs T)) as Hgo.
  { intros e He. destruct (sched_inv T1 id _ e (inv_wf T1 Hi1) (inv_time T1 Hi1) (inv_others T1 id Hi1) Hto1) as [H1 ->];
      [apply (inv_values T1 Hi1 id _ Hto1)|done|]. split; [exact H1|]. rewrite HT1.
    unfold s_put, abs. cbn. f_equal. by rewrite fmap_insert, insert_insert_eq. }
  unfold added. cbn. fold i. destruct (Z.land (to_flags to) TIMEOUT_ABS =? 0); cbn [negb]; by apply Hgo.
Qed.

Lemma next_expiry_spec (now e i : Z) : time_ok now -> time_ok e -> time_ok i -> 0 < i ->
  next_expiry now e i = next_due now e i /\ in_width 64 (next_due now e i) /\ now < next_due now e i.
Proof.
  unfold time_ok, next_expiry, next_due. intros Hn He Hi Hp.
  assert (e +₆₄ i = e + i) as -> by (apply wrap_small; unfold in_width; lia).
  pose proof (Z.div_mod (now - e) i ltac:(lia)) as Hdm. pose proof (Z.mod_pos_bound (now - e) i Hp) as Hmb.
  assert (0 <= now - e -> i <= now - e \/ (now - e) / i = 0) as Hsm.
  { intros H0. destruct (Z.le_gt_cases i (now - e)); [by left|right]. apply Z.div_small. lia. }
  destruct (Z.leb_spec (e + i) now) as [Hle|Hgt].
  - rewrite (wrap_small 64 (now - (e + i))) by (unfold in_width; lia).
    assert ((now - (e + i)) mod i = (now - e) mod i) as ->.
    { replace (now - (e + i)) with (now - e + -1 * i) by lia. apply Z.mod_add. lia. }
    rewrite Z.max_r by lia. rewrite (wrap_small 64 (i - _)) by (unfold in_width; lia).
    rewrite wrap_small by (unfold in_width; lia). unfold in_width. nia.
  - assert (Z.max 0 (now - e) / i = 0) as ->; [|unfold in_width; lia]. apply Z.div_small. lia.
Qed.

Lemma due_expired (T : timeouts) (id : nat) (to : timeout) : inv T -> store T !! id = Some to ->
  (status_of to = Due <-> id ∈ queue T EXPIRED).
Proof.
  intros [Hw _ _ _] Hto. unfold status_of. split.
  - destruct (to_pending to) as [q|] eqn:Hq; [|done]. destruct (Z.eqb_spec q EXPIRED) as [->|]; [|done]. intros _.
    by apply (wf_home _ T Hw id to EXPIRED Hto Hq ltac:(set_solver)).
  - intros Hin. destruct (wf_known _ T Hw id EXPIRED expired_in Hin) as (_ & t & H1 & H2).
    assert (t = to) as -> by congruence. by rewrite H2, Z.eqb_refl.
Qed.

Lemma some_due (T : timeouts) : inv T -> (some_in (abs T) Due <-> queue T EXPIRED <> []).
Proof.
  intros Hi. split.
  - intros (id & a & Ha & Hd). rewrite abs_lookup in Ha. apply fmap_Some in Ha as (to & Hto & ->).
    apply (due_expired T id to Hi Hto) in Hd. intros He. rewrite He in Hd. set_solver.
  - destruct (queue T EXPIRED) as [|id l] eqn:Hq; [done|]. intros _.
    destruct (wf_known _ T (inv_wf T Hi) id EXPIRED expired_in) as (_ & to & H1 & H2); [rewrite Hq; set_solver|].
    exists id, (abs_timeout to). rewrite abs_lookup, H1. split; [done|]. cbn. unfold status_of. by rewrite H2, Z.eqb_refl.
Qed.

(** Taking the first of the expired timeouts. *)
Definition taken_out (T : timeouts) (id : nat) : timeouts :=
  set_timeout id clear_pending (set_queue EXPIRED (TAILQ_REMOVE (queue T EXPIRED) id) T).

Lemma taken_out_spec (T : timeouts) (id : nat) (to : timeout) :
  inv T -> store T !! id = Some to -> to_pending to = Some EXPIRED ->
  wf [] (taken_out T id) /\ others (taken_out T id) id /\ store (taken_out T id) = <[id := clear_pending to]> (store T).
Proof.
  intros Hi Hto Hpe. pose proof Hi as [Hw Hp Hv Hc].
  assert (store (taken_out T id) = <[id := clear_pending to]> (store T)) as Hs1 by (by apply alter_insert).
  split; [|split; [by apply (others_insert T (taken_out T id) id _ (inv_others T id Hi) eq_refl Hs1)|done]].
  apply (wf_remove [] T _ id (clear_pending to)); [done| |set_solver|done|done|].
  - apply fields_store, fields_set_queue; [apply Hw|done|lia].
  - intros q Hqr. change (queue (taken_out T id) q) with (queue (set_queue EXPIRED (TAILQ_REMOVE (queue T EXPIRED) id) T) q).
    rewrite queue_set_queue by (auto; apply (wf_fields _ T Hw)). case_decide as Hd; [by rewrite Hd|].
    symmetry. apply empty_remove. apply (not_queued [] T id to); [done|done|done|congruence].
Qed.

Lemma get_inv (T : timeouts) (id : nat) (l : list nat) : inv T -> queue T EXPIRED = id :: l ->
  exists to : timeout, store T !! id = Some to /\ status_of to = Due /\ fst (timeouts_get T) = Some id /\
    inv (snd (timeouts_get T)) /\
    abs (snd (timeouts_get T)) = s_put id (taken (curtime T) (abs_timeout to)) (abs T).
Proof.
  intros Hi Hq. pose proof Hi as [Hw Hp Hv Hc].
  destruct (wf_known _ T Hw id EXPIRED expired_in) as (_ & to & Hto & Hpe); [rewrite Hq; set_solver|].
  exists to. split; [done|]. split; [unfold status_of; by rewrite Hpe, Z.eqb_refl|]. unfold timeouts_get. rewrite Hq.
  cbn [fst snd]. split; [done|]. destruct (Hv id to Hto) as (V1 & V2 & V3 & V4).
  rewrite <- Hq. fold (taken_out T id). destruct (taken_out_spec T id to Hi Hto Hpe) as (Hw1 & Ho1 & Hs1).
  set (T1 := taken_out T id) in *.
  assert (store T1 !! id = Some (clear_pending to)) as Hto1 by (rewrite Hs1; apply lookup_insert_eq).
  assert (forall a : alarm, s_put id a (abs T1) = s_put id a (abs T)) as Hput.
  { intros a. unfold s_put, abs. cbn [s_now s_alarms]. by rewrite Hs1, fmap_insert, insert_insert_eq. }
  rewrite Hto1. unfold taken, abs_timeout. cbn [a_flags a_interval a_expires a_data to_flags to_interval clear_pending set_home].
  destruct (_ && _) eqn:Hint.
  - apply andb_prop in Hint as [_ Hpos%Z.ltb_lt]. unfold timeouts_readd. rewrite Hto1.
    change (curtime T1) with (curtime T). cbn [to_expires to_interval clear_pending set_home].
    destruct (next_expiry_spec (curtime T) (to_expires to) (to_interval to)) as (-> & Hwd & Hlt); [done|by apply V3|done|done|].
    destruct (sched_inv T1 id (clear_pending to) (next_due (curtime T) (to_expires to) (to_interval to))) as [H1 H2]; try done.
    split; [exact H1|]. rewrite H2, Hput. unfold due_at. change (curtime T1) with (curtime T).
    destruct (Z.leb_spec (next_due (curtime T) (to_expires to) (to_interval to)) (curtime T)); [lia|done].
  - set (T2 := set_timeout id _ T1).
    assert (store T2 = <[id := set_home false None to]> (store T1)) as Hs2 by (exact (alter_insert (store T1) id _ _ Hto1)).
    assert (wf [] T2) as Hw2.
    { apply (wf_store T1 (store T2)); [done|]. intros i. rewrite Hs2. unfold home.
      destruct (decide (i = id)) as [->|]; [by rewrite lookup_insert_eq, Hto1|by rewrite lookup_insert_ne]. }
    split.
    + eapply (inv_intro T2 id); [done|done|by apply (others_insert T1 T2 id _ Ho1 eq_refl Hs2)
        |rewrite Hs2; apply lookup_insert_eq|]. split; [by apply detached_ok|done].
    + rewrite <- Hput. by apply (abs_put T1 T2 id (set_home false None to)).
Qed.

(** *** Queries *)
Lemma waiting_status (T : timeouts) (id : nat) (to : timeout) : inv T -> store T !! id = Some to ->
  (status_of to = Waiting <-> exists w : Z, waiting T id w (to_expires to)).
Proof.
  intros Hi Hto. unfold status_of. split.
  - destruct (to_pending to) as [q|] eqn:Hq; [|done]. destruct (Z.eqb_spec q EXPIRED) as [|Hne]; [done|]. intros _.
    destruct (wf_home _ T (inv_wf T Hi) id to q Hto Hq ltac:(set_solver)) as [Hr _].
    exists (q / WHEEL_LEN), to, q. unfold in_range in Hr. repeat split; try done; lia.
  - intros (w & t & q & H1 & H2 & H3 & _). assert (t = to) as -> by congruence. rewrite H2.
    destruct (Z.eqb_spec q EXPIRED); [lia|done].
Qed.

Lemma some_waiting (T : timeouts) : inv T ->
  (some_in (abs T) Waiting <-> exists (id : nat) (w e : Z), waiting T id w e).
Proof.
  intros Hi. split.
  - intros (id & a & Ha & Hd). rewrite abs_lookup in Ha. apply fmap_Some in Ha as (to & Hto & ->).
    apply (waiting_status T id to Hi Hto) in Hd as [w Hw]. by exists id, w, (to_expires to).
  - intros (id & w & e & Hwt). pose proof Hwt as (to & q & H1 & _ & _ & _ & He). exists id, (abs_timeout to).
    rewrite abs_lookup, H1. split; [done|]. apply (waiting_status T id to Hi H1). exists w. by rewrite He.
Qed.

Lemma lor_nonneg_0 (x y : Z) : Z.lor x y = 0 <-> x = 0 /\ y = 0.
Proof. apply Z.lor_eq_0_iff. Qed.

Lemma pending_flag (T : timeouts) : inv T -> (timeouts_pending T = true <-> some_in (abs T) Waiting).
Proof.
  intros Hi. rewrite some_waiting by done. unfold timeouts_pending. cbn [fold_left].
  destruct (Z.eqb_spec (Z.lor (Z.lor (Z.lor (Z.lor 0 (bits T 0)) (bits T 1)) (bits T 2)) (bits T 3)) 0) as [H0|H0]; cbn [negb].
  - split; [done|]. intros (id & w & e & Hwt). destruct (waiting_fits T id w e Hi Hwt) as (Hw & Hb & _).
    rewrite !lor_nonneg_0 in H0. change WHEEL_NUM with 4 in Hw.
    assert (bits T w = 0) as Hz by (assert (w = 0 \/ w = 1 \/ w = 2 \/ w = 3) as [->|[->|[->| ->]]] by lia; tauto).
    by rewrite Hz, Z.bits_0 in Hb.
  - split; [|done]. intros _. rewrite !lor_nonneg_0 in H0.
    assert (exists w : Z, 0 <= w < WHEEL_NUM /\ bits T w <> 0) as (w & Hw & Hb).
    { change WHEEL_NUM with 4. destruct (decide (bits T 0 = 0)); [|by exists 0]. destruct (decide (bits T 1 = 0)); [|by exists 1].
      destruct (decide (bits T 2 = 0)); [|by exists 2]. exists 3. split; [lia|]. tauto. }
    destruct (wheel_time_spec T w Hi Hw Hb) as (_ & _ & (id & e & Hwt) & _). by exists id, w, e.
Qed.

Lemma expired_flag (T : timeouts) : inv T -> (timeouts_expired T = true <-> some_in (abs T) Due).
Proof.
  intros Hi. rewrite some_due by done. unfold timeouts_expired. by destruct (queue T EXPIRED).
Qed.

Lemma timeout_wait_ok (T : timeouts) : inv T -> wait_ok (abs T) (timeouts_timeout T).
Proof.
  intros Hi. unfold timeouts_timeout. pose proof (expired_flag T Hi) as He. destruct (timeouts_expired T).
  { split; [done|]. intros Hn. destruct Hn. by apply He. }
  split; [intros Hd; apply He in Hd; done|]. intros _. destruct (timeouts_int_soft T Hi) as (H1 & H2 & H3).
  assert (Z.ones 64 = 2 ^ 64 - 1) as Ho by done. split; [lia|]. split.
  - intros id a Ha Hw. rewrite abs_lookup in Ha. apply fmap_Some in Ha as (to & Hto & ->).
    apply (waiting_status T id to Hi Hto) in Hw as [w Hw]. cbn. apply (H2 id w); [|done].
    destruct (waiting_fits T id w _ Hi Hw) as (Hr & _). lia.
  - rewrite some_waiting by done. intros Hn. rewrite <- Ho. apply H3. intros id w e _ Hwt. apply Hn. by exists id, w, e.
Qed.

(** The earliest timeout, found by looking at all. *)
Lemma min_round_spec (T : timeouts) (m : option (nat * Z)) (i : nat) (to : timeout) : store T !! i = Some to ->
  exists p : nat * Z, min_round T m i = Some p /\ (m = Some p \/ p = (i, to_expires to)) /\ p.2 <= to_expires to /\
    (forall p' : nat * Z, m = Some p' -> p.2 <= p'.2).
Proof.
  intros Hto. unfold min_round. rewrite Hto. destruct m as [[m' e]|].
  - destruct (Z.ltb_spec (to_expires to) e); [exists (i, to_expires to)|exists (m', e)]; (split; [done|]); (split; [by auto|]); cbn;
      (split; [lia|]); intros p' [= <-]; cbn; lia.
  - exists (i, to_expires to). split; [done|]. split; [by right|]. split; [done|]. by intros p'.
Qed.

Lemma fold_min (T : timeouts) (l : list nat) (m : option (nat * Z)) :
  (forall id : nat, id ∈ l -> is_Some (store T !! id)) ->
  match fold_left (min_round T) l m with
  | Some p => (m = Some p \/ (p.1 ∈ l /\ to_expires <$> store T !! p.1 = Some p.2)) /\
      (forall p' : nat * Z, m = Some p' -> p.2 <= p'.2) /\
      (forall (i : nat) (to : timeout), i ∈ l -> store T !! i = Some to -> p.2 <= to_expires to)
  | None => m = None /\ l = []
  end.
Proof.
  revert m. induction l as [|i l IH]; intros m Hk; cbn [fold_left].
  { destruct m as [p|]; [|done]. split; [by left|]. split; [by intros p' [= <-]|]. intros i to Hin. set_solver. }
  destruct (Hk i ltac:(set_solver)) as [to Hto]. specialize (IH (min_round T m i) ltac:(set_solver)).
  destruct (min_round_spec T m i to Hto) as (p & Hp & Hor & Hle & Hm). rewrite Hp in *.
  destruct (fold_left (min_round T) l (Some p)) as [p1|]; [|by destruct IH]. destruct IH as (H1 & H2 & H3).
  specialize (H2 p eq_refl). split; [|split].
  - destruct H1 as [[= ->]|[H1 H1']]; [|right; split; [set_solver|done]].
    destruct Hor as [| ->]; [by left|right]. cbn. rewrite Hto. split; [set_solver|done].
  - intros p' Hp'. specialize (Hm p' Hp'). lia.
  - intros j t [->|Hj]%elem_of_cons Ht; [assert (t = to) as -> by congruence; lia|by apply (H3 j)].
Qed.

Lemma elem_wheels (T : timeouts) (id : nat) : inv T ->
  (id ∈ concat (take (Z.to_nat EXPIRED) (queues T)) <-> exists q : Z, 0 <= q < EXPIRED /\ id ∈ queue T q).
Proof.
  intros Hi. rewrite list_elem_of_In, in_concat. split.
  - intros (l & Hl & Hin). apply list_elem_of_In, list_elem_of_lookup in Hl as [k Hk].
    apply lookup_take_Some in Hk as [Hk Hlt]. exists (Z.of_nat k). split; [lia|]. unfold queue. rewrite Nat2Z.id, Hk.
    by apply list_elem_of_In.
  - intros (q & Hq & Hin). unfold queue in Hin. destruct (queues T !! Z.to_nat q) as [l|] eqn:Hl; [|by apply elem_of_nil in Hin].
    exists l. split; [|by apply list_elem_of_In]. apply list_elem_of_In, list_elem_of_lookup. exists (Z.to_nat q).
    apply lookup_take_Some. split; [done|lia].
Qed.

Lemma check_holds (T : timeouts) : inv T -> timeouts_check T = true.
Proof.
  intros Hi. pose proof Hi as [Hw Hp Hv Hc]. unfold timeouts_check, timeouts_min.
  assert (forall id : nat, id ∈ concat (take (Z.to_nat EXPIRED) (queues T)) -> exists (to : timeout) (w : Z),
    store T !! id = Some to /\ waiting T id w (to_expires to)) as Hmem.
  { intros id Hin. apply elem_wheels in Hin as (q & Hq & Hin); [|done].
    destruct (wf_known _ T Hw id q ltac:(auto) Hin) as (_ & to & H1 & H2). exists to, (q / WHEEL_LEN). split; [done|]. by exists to, q. }
  pose proof (fold_min T (concat (take (Z.to_nat EXPIRED) (queues T))) None) as Hm.
  destruct (timeout_wait_ok T Hi) as [Hd Hn]. pose proof (expired_flag T Hi) as He.
  destruct (fold_left _ _ None) as [[m e]|].
  - destruct Hm as ([ | [Hin Hex]] & _ & _); [intros id Hin; destruct (Hmem id Hin) as (to & w & -> & _); done|done|].
    cbn in Hin, Hex. destruct (Hmem m Hin) as (to & w & Hto & Hwt). rewrite Hto in Hex. injection Hex as <-.
    destruct (waiting_fits T m w _ Hi Hwt) as (Hr & _ & Hlt & _). destruct (timeouts_int_soft T Hi) as (_ & H2 & _).
    specialize (H2 m w _ ltac:(lia) Hwt). pose proof (inv_values T Hi m to Hto) as (V1 & _).
    assert (to_expires to -₆₄ curtime T = to_expires to - curtime T) as ->.
    { apply wrap_small. unfold time_ok, in_width in *. lia. }
    rewrite !andb_true_iff, Z.ltb_lt, !Z.leb_le. split; [done|]. unfold timeouts_timeout. destruct (timeouts_expired T); lia.
  - destruct Hm as [_ Hnil]; [intros id Hin; destruct (Hmem id Hin) as (to & w & -> & _); done|].
    assert (~ some_in (abs T) Waiting) as Hnw.
    { rewrite some_waiting by done. intros (id & w & e & to & q & H1 & H2 & H3 & _).
      destruct (wf_home _ T Hw id to q H1 H2 ltac:(set_solver)) as [_ Hin].
      assert (id ∈ concat (take (Z.to_nat EXPIRED) (queues T))) as Hin' by (apply (elem_wheels T id Hi); exists q; done).
      rewrite Hnil in Hin'. by apply elem_of_nil in Hin'. }
    destruct (timeouts_expired T) eqn:Hte.
    + apply Z.eqb_eq. apply Hd. by apply He.
    + apply Z.eqb_eq. destruct Hn as (_ & _ & Hn); [intros Hdue; apply He in Hdue; congruence|]. by rewrite Hn.
Qed.

Lemma init_state_inv (hz : Z) : inv (timeouts_init ∅ hz).
Proof.
  assert (forall q : Z, queue (timeouts_init ∅ hz) q = []) as Hq.
  { intros q. unfold queue, timeouts_init. cbn [queues]. destruct (replicate _ _ !! Z.to_nat q) as [l|] eqn:Hl; [|done].
    by apply lookup_replicate in Hl as [-> _]. }
  assert (forall w : Z, bits (timeouts_init ∅ hz) w = 0) as Hb.
  { intros w. unfold bits, timeouts_init. cbn [pending]. destruct (replicate _ _ !! Z.to_nat w) as [l|] eqn:Hl; [|done].
    by apply lookup_replicate in Hl as [-> _]. }
  constructor; [|by intros id to q H|by intros id to H|done].
  constructor; [|intros q _; rewrite Hq; apply NoDup_nil_2|constructor| | |by intros id H%elem_of_nil].
  - constructor; [done|done|intros w _; by rewrite Hb|]. intros q _. unfold bit. by rewrite Hb, Hq, Z.bits_0.
  - intros id q _. rewrite Hq. by intros H%elem_of_nil.
  - by intros id to q H.
Qed.

(** *** Refinement *)
Lemma wheel_exec_spec (o : op) (T : timeouts) : inv T -> op_ok (abs T) o ->
  inv (snd (exec o T)) /\ s_step (abs T) o (fst (exec o T)) (abs (snd (exec o T))).
Proof.
  intros Hi Hok. pose proof (inv_time T Hi) as Hc.
  assert (forall id : nat, is_Some (s_alarms (abs T) !! id) -> exists to : timeout, store T !! id = Some to /\
    s_alarms (abs T) !! id = Some (abs_timeout to)) as Hget.
  { intros id [a Ha]. rewrite abs_lookup in *. destruct (store T !! id) as [to|]; [by exists to|done]. }
  destruct o as [id fl|id t|id|now|d| | | | |]; cbn [exec fst snd op_ok] in *.
  - split; [by apply init_inv|]. rewrite (abs_put T (set_store (<[id := timeout_init fl]> (store T)) T) id (timeout_init fl) (Alarm fl 0 0 Idle 0)) by done. constructor.
  - destruct Hok as [Hk Ht]. destruct (Hget id Hk) as (to & Hto & Ha). destruct (add_inv T id to t Hi Hto Ht) as [H1 ->].
    split; [done|]. by apply (SAdd (abs T)).
  - destruct (Hget id Hok) as (to & Hto & Ha). destruct (del_inv T id to Hi Hto) as [H1 ->]. split; [done|]. by apply SDel.
  - split; [by apply update_spec|]. rewrite update_abs by done. constructor.
  - destruct Hok as [Hd Ht]. unfold timeouts_step. cbn in Ht.
    assert (curtime T +₆₄ d = curtime T + d) as -> by (apply wrap_small, time_ok_width; done).
    split; [by apply update_spec|]. rewrite update_abs by done. apply (SStep (abs T)).
  - destruct (queue T EXPIRED) as [|id l] eqn:Hq.
    + assert (timeouts_get T = (None, T)) as -> by (unfold timeouts_get; by rewrite Hq). split; [done|]. apply SNone.
      intros Hd. apply (some_due T Hi) in Hd. congruence.
    + destruct (get_inv T id l Hi Hq) as (to & Hto & Hd & Hr & H1 & H2). destruct (timeouts_get T) as [r T'].
      cbn [fst snd] in *. subst r. split; [done|]. rewrite H2. apply (SGet (abs T)); [|done]. by rewrite abs_lookup, Hto.
  - split; [done|]. constructor. by apply timeout_wait_ok.
  - split; [done|]. constructor. by apply pending_flag.
  - split; [done|]. constructor. by apply expired_flag.
  - split; [done|]. rewrite check_holds by done. constructor.
Qed.

(** C7. The timing wheel keeps a schedule of alarms.  Whatever is done with a wheel,
    every reply and every state is one the schedule allows: an update makes due
    exactly the waiting alarms whose time has come, at any distance and also when
    the clock is set back; taking an expired timeout gives one that is due and
    puts a repeating one at the first multiple of its interval after now; the time
    to wait is zero if something is due, all ones if nothing waits, and otherwise
    positive and not longer than to the earliest alarm; and the consistency check
    of the code never fails. *)
Theorem timerwheel_refines_schedule (ops : list op) (hz : Z) :
  let T := timeouts_init ∅ hz in
  run_ok ops T ->
  inv (snd (run ops T)) /\ s_run (Schedule 0 ∅) ops (fst (run ops T)) (abs (snd (run ops T))).
Proof.
  cbn zeta. intros Hok. assert (Schedule 0 ∅ = abs (timeouts_init ∅ hz)) as -> by (unfold abs; cbn; by rewrite fmap_empty).
  revert Hok. pose proof (init_state_inv hz) as Hi. generalize (timeouts_init ∅ hz) Hi. clear Hi.
  induction ops as [|o ops IH]; intros T Hi Hok; cbn [run].
  - split; [done|constructor].
  - destruct Hok as [Ho Hok]. destruct (wheel_exec_spec o T Hi Ho) as [Hi1 Hs]. destruct (exec o T) as [r T1]. cbn [fst snd] in *.
    destruct (IH T1 Hi1 Hok) as [Hi2 Hr]. destruct (run ops T1) as [rs T2]. cbn [fst snd] in *. split; [done|].
    by apply (s_run_cons _ (abs T1)).
Qed.

Definition sample : list op :=
  [Init 1 TIMEOUT_INT; Init 2 0; Add 1 100; Add 2 70000; Update 1000; Get; Get; Timeout_; Step 69000; Get; Get; Check_;
   Update 500; Del 1; Pending; Expired].
Lemma sample_run :
  fst (run sample (timeouts_init ∅ 0)) =
    [Done; Done; Done; Done; Done; Got (Some 1%nat); Got None; Time 88; Done; Got (Some 1%nat); Got (Some 2%nat); Flag true;
     Done; Done; Flag false; Flag false].
Proof. vm_compute. reflexivity. Qed.
Lemma sample_ok : run_ok sample (timeouts_init ∅ 0).
Proof.
  cbn [run_ok sample]. repeat split; try (intros a Ha; vm_compute in Ha; discriminate Ha).
  all: try (vm_compute; eexists; reflexivity). all: try (vm_compute; intros; discriminate). all: vm_compute; done.
Qed.
Lemma timerwheel_refines_schedule_witness :
  exists s : schedule, s_run (Schedule 0 ∅) sample (fst (run sample (timeouts_init ∅ 0))) s.
Proof.
  exists (abs (snd (run sample (timeouts_init ∅ 0)))).
  exact (proj2 (timerwheel_refines_schedule sample 0 sample_ok)).
Defined.

(** ** Closing a wheel *)
Lemma detach_all (l : list nat) (st : gmap nat timeout) (id : nat) :
  fold_left (fun st id => alter (set_home false None) id st) l st !! id =
    (if decide (id ∈ l) then set_home false None <$> st !! id else st !! id).
Proof.
  revert st. induction l as [|i l IH]; intros st; cbn [fold_left]; [by rewrite decide_False by (by intros ?%elem_of_nil)|].
  rewrite IH. destruct (decide (i = id)) as [->|Hne].
  - rewrite lookup_alter_eq, (decide_True _ _ (list_elem_of_here _ _)). destruct (decide (id ∈ l)); [|done].
    by destruct (st !! id).
  - rewrite lookup_alter_ne by done. destruct (decide (id ∈ l)) as [Hin|Hin].
    + by rewrite decide_True by set_solver.
    + by rewrite decide_False by set_solver.
Qed.

(** After closing no timeout is left that points to the wheel; nothing else of a
    timeout changes. *)
Lemma close_detaches (T : timeouts) (id : nat) : inv T ->
  timeouts_close T !! id = (fun to => if to_timeouts to then set_home false None to else to) <$> store T !! id.
Proof.
  intros Hi. unfold timeouts_close, timeouts_reset. rewrite detach_all.
  destruct (store T !! id) as [to|] eqn:Hto; [|by destruct (decide _)]. cbn.
  destruct (inv_values T Hi id to Hto) as (_ & _ & _ & Hm).
  assert (id ∈ concat (queues T) <-> to_pending to <> None) as Hiff.
  { rewrite list_elem_of_In, in_concat. split.
    - intros (l & Hl & Hin). apply list_elem_of_In, list_elem_of_lookup in Hl as [k Hk].
      pose proof (lookup_lt_Some _ _ _ Hk) as Hlt. rewrite (f_queues T (wf_fields _ T (inv_wf T Hi))) in Hlt.
      assert (in_range (Z.of_nat k)) as Hr by (unfold in_range; change EXPIRED with 256 in *; lia).
      destruct (wf_known _ T (inv_wf T Hi) id (Z.of_nat k) Hr) as (_ & t & H1 & H2); [|congruence].
      unfold queue. rewrite Nat2Z.id, Hk. by apply list_elem_of_In.
    - intros Hp. destruct (to_pending to) as [q|] eqn:Hq; [|done].
      destruct (wf_home _ T (inv_wf T Hi) id to q Hto Hq ltac:(set_solver)) as [_ Hin]. unfold queue in Hin.
      destruct (queues T !! Z.to_nat q) as [l|] eqn:Hl; [|by apply elem_of_nil in Hin].
      exists l. split; [|by apply list_elem_of_In]. apply list_elem_of_In, list_elem_of_lookup. by exists (Z.to_nat q). }
  destruct (to_timeouts to) eqn:Hb.
  - rewrite decide_True by (apply Hiff, Hm; done). done.
  - rewrite decide_False; [done|]. intros Hin. apply Hiff, Hm in Hin. congruence.
Qed.

End Timerwheel.
