(* ===== verification/Timer.v ===== *)
(** * Timers (timer.c, timer.h)

    A timer is a timing wheel whose ticks are milliseconds.  An event is a
    structure of the timer and a repeating timeout of the wheel that points back to
    it.  Allocation is an argument: an address that was not in use, or none.  The
    timer's own clock is the one of Time.v; readings of it are arguments. *)
From Stdlib Require Import ZArith Lia Bool String QArith.
From stdpp Require Import base numbers option fin_maps gmap list.
From S2P Require Import Prelude Error Libc Time Timerwheel.

Local Open Scope inac_scope.

Module Timer.
Import Error Timerwheel.

(** A value of 64 bits read as [time_t]. *)
Definition to_time_t (x : Z) : Z := if x <? 2 ^ 63 then x else x - 2 ^ 64.

Section Timer.
Context {D : Type} `{Double D}.
Variable b : Time.backend (D := D).

(** [struct ina_timer_event_s]; the timeout is its number in the store of the
    wheel.  [struct ina_timer_s], with the memory of its events. *)
Record event := Event { e_id : Z; e_t : nat }.
Record timer := Timer_ { t_stamp : Time.tsc (D := D); t_wheel : timeouts; next_event_id : Z; t_events : gmap nat event }.
Definition set_stamp (x : Time.tsc) (t : timer) : timer := Timer_ x (t_wheel t) (next_event_id t) (t_events t).
Definition set_wheel (T : timeouts) (t : timer) : timer := Timer_ (t_stamp t) T (next_event_id t) (t_events t).

Definition __ina_timer_tsc_to_msec (x : Time.tsc) : Z := Time.ina_time_tsc_millis b x.

(** [None] is a store to memory that was not allocated: a failed allocation of the
    wheel is not noticed, and the stamp is cleared before its allocation is
    looked at. *)
Definition ina_timer_new (got_timer got_wheel got_stamp : bool) : option (result timer) :=
  if negb got_timer then Some (Err INA_ERR_OUT_OF_MEMORY)
  else if negb got_wheel || negb got_stamp then None
  else Some (Ok (Timer_ Time.tsc_zero (timeouts_init ∅ 0) 0 ∅)).

(** The events of the timer are not freed; their timeouts no longer refer to it. *)
Definition ina_timer_free (t : timer) : gmap nat event * gmap nat timeout := (t_events t, timeouts_close (t_wheel t)).

Definition set_data (d : nat) (to : timeout) : timeout :=
  Timeout (to_flags to) (to_interval to) (to_expires to) (to_timeouts to) (to_pending to) d.

(** [ev] and [to] are the addresses the two allocations give. *)
Definition ina_timer_event_new_with_time (n_msec e_msec : Z) (ev to : option nat) (t : timer) : timer * result nat :=
  if negb (0 <? n_msec) then (t, Err INA_ERR_INVALID_ARGUMENT)
  else if negb (0 <? e_msec) then (t, Err INA_ERR_INVALID_ARGUMENT)
  else match ev with
  | None => (t, Err INA_ERR_OUT_OF_MEMORY)
  | Some ev =>
      match to with
      | None => (t, Err INA_ERR_OUT_OF_MEMORY)
      | Some to =>
          let id := next_event_id t + 1 in
          let T := timeouts_update n_msec (t_wheel t) in
          let T := set_store (<[to := set_data ev (timeout_init TIMEOUT_INT)]> (store T)) T in
          let T := timeouts_add to e_msec T in
          (Timer_ (t_stamp t) T id (<[ev := Event id to]> (t_events t)), Ok ev)
      end
  end.

Definition read_clock (clock : option Time.timespec) (counter : Z) (t : timer) : timer :=
  set_stamp (fst (Time.ina_time_read_tsc_clock b clock counter (t_stamp t))) t.
Definition ina_timer_event_new (clock : option Time.timespec) (counter msec : Z) (ev to : option nat) (t : timer) :
    timer * result nat :=
  let t := read_clock clock counter t in
  let now_millis := __ina_timer_tsc_to_msec (t_stamp t) in
  ina_timer_event_new_with_time now_millis msec ev to t.

(** Freeing an event takes its timeout out of the wheel and frees both. *)
Definition ina_timer_event_free (ev : nat) (t : timer) : timer :=
  match t_events t !! ev with
  | Some e =>
      let T := timeouts_del (e_t e) (t_wheel t) in
      let T := set_store (delete (e_t e) (store T)) T in
      Timer_ (t_stamp t) T (next_event_id t) (delete ev (t_events t))
  | None => t
  end.

Definition ina_timer_event_get_id (e : event) : result Z := Ok (e_id e).

Definition ina_timer_next_event_with_time (now_millis : Z) (t : timer) : timer * result nat :=
  let T := timeouts_update (u64 now_millis) (t_wheel t) in
  let '(ne, T) := timeouts_get T in
  match ne with
  | Some to =>
      match store T !! to with
      | Some x => (set_wheel T t, Ok (to_data x))
      | None => (set_wheel T t, Err (INA_ERR E_TRY_AGAIN))
      end
  | None => (set_wheel T t, Err (INA_ERR E_TRY_AGAIN))
  end.
Definition ina_timer_next_event (clock : option Time.timespec) (counter : Z) (t : timer) : timer * result nat :=
  let t := read_clock clock counter t in
  ina_timer_next_event_with_time (__ina_timer_tsc_to_msec (t_stamp t)) t.

Definition ina_timer_time_to_next_event (t : timer) : result Z := Ok (to_time_t (timeouts_timeout (t_wheel t))).

(** A client that takes events until there is none to take; [fuel] bounds the
    number of calls, and the flag tells that the last one found none. *)
Fixpoint poll (fuel : nat) (now : Z) (t : timer) : list nat * timer * bool :=
  match fuel with
  | O => ([], t, false)
  | S fuel =>
      match ina_timer_next_event_with_time now t with
      | (t, Ok ev) => let '(l, t, done) := poll fuel now t in (ev :: l, t, done)
      | (t, Err _) => ([], t, true)
      end
  end.

(** ** The state of a timer

    Every event has a repeating alarm in the schedule of the wheel that points to
    it, and there is no other. *)
Definition alarms (t : timer) : gmap nat alarm := s_alarms (abs (t_wheel t)).
Definition alarm_of (t : timer) (ev : nat) : option alarm := e ← t_events t !! ev; alarms t !! e_t e.

Record tinv (t : timer) : Prop := {
  t_inv : inv (t_wheel t);
  t_event : forall (ev : nat) (e : event), t_events t !! ev = Some e ->
    exists a : alarm, alarms t !! e_t e = Some a /\ a_data a = ev;
  t_alarm : forall (id : nat) (a : alarm), alarms t !! id = Some a ->
    a_flags a = TIMEOUT_INT /\ 0 < a_interval a /\ a_status a <> Idle /\
    exists e : event, t_events t !! a_data a = Some e /\ e_t e = id
}.

(** What a change of the wheel must keep. *)
Definition keeps (a a' : alarm) : Prop :=
  a_flags a' = a_flags a /\ a_interval a' = a_interval a /\ a_data a' = a_data a /\ a_status a' <> Idle.

Lemma tinv_wheel (t : timer) (T : timeouts) : tinv t -> inv T ->
  (forall id : nat, option_Forall2 keeps (alarms t !! id) (s_alarms (abs T) !! id)) -> tinv (set_wheel T t).
Proof.
  intros [Hi He Ha] Hi' Hk. constructor; [done| |].
  - intros ev e Hev. destruct (He ev e Hev) as (a & H1 & H2). specialize (Hk (e_t e)). rewrite H1 in Hk.
    inversion Hk as [x a' (K1 & K2 & K3 & K4) E1 E2|]; subst x. exists a'. split; [done|]. congruence.
  - intros id a' H1. specialize (Hk id). change (alarms (set_wheel T t) !! id) with (s_alarms (abs T) !! id) in H1.
    rewrite H1 in Hk. inversion Hk as [a x (K1 & K2 & K3 & K4) E1 E2|]; subst x. symmetry in E1.
    destruct (Ha id a E1) as (A1 & A2 & A3 & A4). rewrite K1, K2, K3. done.
Qed.

Lemma ring_keeps (now : Z) (a : alarm) : a_status a <> Idle -> keeps a (ring now a).
Proof.
  intros Hs. unfold keeps, ring. destruct (a_status a) eqn:Ha; [done| |by rewrite Ha]. cbn. repeat split; try done.
  unfold due_at. by destruct (_ <=? _).
Qed.

(** At the time of the wheel an update changes nothing. *)
Lemma update_same (T : timeouts) (now : Z) : inv T -> curtime T = now -> abs (timeouts_update now T) = abs T.
Proof.
  intros Hi Hn. rewrite update_abs; [|done|rewrite <- Hn; apply (inv_time T Hi)].
  unfold s_update. unfold abs at 2. rewrite <- Hn. f_equal. unfold abs. cbn [s_alarms].
  apply map_eq. intros id. rewrite !lookup_fmap. destruct (store T !! id) as [to|] eqn:Hto; [|done]. cbn. f_equal.
  unfold ring. destruct (a_status (abs_timeout to)) eqn:Hs; try done.
  apply (waiting_status T id to Hi Hto) in Hs as Hw. destruct Hw as [w Hw].
  destruct (waiting_fits T id w _ Hi Hw) as (_ & _ & Hlt & _). unfold due_at. cbn [a_expires abs_timeout].
  destruct (Z.leb_spec (to_expires to) (curtime T)); [lia|]. unfold with_status. cbn. cbn in Hs. unfold abs_timeout. by rewrite Hs.
Qed.

Definition is_Due (a : alarm) : Prop := a_status a = Due.
#[local] Instance is_Due_dec (a : alarm) : Decision (is_Due a).
Proof. unfold is_Due. apply _. Defined.

Lemma taken_spec (now : Z) (a : alarm) : a_flags a = TIMEOUT_INT -> 0 < a_interval a ->
  taken now a = Alarm TIMEOUT_INT (a_interval a) (next_due now (a_expires a) (a_interval a)) Waiting (a_data a).
Proof. intros Hf Hi. unfold taken. rewrite Hf. cbn. rewrite (proj2 (Z.ltb_lt _ _)) by done. done. Qed.

(** One call: it gives an event that is due, if there is one. *)
Lemma next_event_spec (now : Z) (t : timer) : tinv t -> time_ok now ->
  let al := ring now <$> alarms t in
  let '(t', r) := ina_timer_next_event_with_time now t in
  tinv t' /\ t_events t' = t_events t /\ curtime (t_wheel t') = now /\
  match r with
  | Ok ev => exists (id : nat) (a : alarm), al !! id = Some a /\ is_Due a /\ a_data a = ev /\
      alarms t' = <[id := taken now a]> al
  | Err x => x = INA_ERR E_TRY_AGAIN /\ map_Forall (fun _ a => ~ is_Due a) al /\ alarms t' = al
  end.
Proof.
  intros Ht Hn. pose proof Ht as [Hi He Ha]. cbn zeta. unfold ina_timer_next_event_with_time.
  assert (u64 now = now) as -> by (apply wrap_small, time_ok_width; done).
  destruct (update_spec now (t_wheel t) Hi Hn) as (Hi1 & Hc1 & _). pose proof (update_abs now (t_wheel t) Hi Hn) as Hab.
  set (T1 := timeouts_update now (t_wheel t)) in *.
  assert (s_alarms (abs T1) = ring now <$> alarms t) as Hal by (by rewrite Hab).
  assert (tinv (set_wheel T1 t)) as Ht1.
  { apply tinv_wheel; [done|done|]. intros id. rewrite Hal, lookup_fmap. destruct (alarms t !! id) as [a|] eqn:Hid; constructor.
    apply ring_keeps. by destruct (Ha id a Hid) as (_ & _ & H3 & _). }
  destruct (queue T1 EXPIRED) as [|id l] eqn:Hq.
  - assert (timeouts_get T1 = (None, T1)) as -> by (unfold timeouts_get; by rewrite Hq).
    split; [done|]. split; [done|]. split; [done|]. split; [done|]. split; [|done].
    rewrite <- Hal. intros id a Hid Hd. apply (proj1 (some_due T1 Hi1)); [by exists id, a|done].
  - destruct (get_inv T1 id l Hi1 Hq) as (to & Hto & Hd & Hr & Hi2 & Hab2).
    destruct (timeouts_get T1) as [r T2]. cbn [fst snd] in *. subst r. rewrite Hc1 in Hab2.
    assert (s_alarms (abs T1) !! id = Some (abs_timeout to)) as Hid by (by rewrite abs_lookup, Hto).
    destruct (t_alarm _ Ht1 id (abs_timeout to) Hid) as (F1 & F2 & F3 & e & F4 & F5).
    assert (s_alarms (abs T2) = <[id := taken now (abs_timeout to)]> (s_alarms (abs T1))) as Hal2 by (by rewrite Hab2).
    assert (exists x : timeout, store T2 !! id = Some x /\ to_data x = a_data (abs_timeout to)) as (x & Hx & Hdx).
    { assert (s_alarms (abs T2) !! id = Some (taken now (abs_timeout to))) as Hl by (rewrite Hal2; apply lookup_insert_eq).
      rewrite abs_lookup in Hl. apply fmap_Some in Hl as (x & Hx & Htk). exists x. split; [done|].
      rewrite taken_spec in Htk by done. change (to_data x) with (a_data (abs_timeout x)). by rewrite <- Htk. }
    rewrite Hx. split.
    + change (tinv (set_wheel T2 (set_wheel T1 t))). apply tinv_wheel; [done|done|]. intros i. rewrite Hal2.
      change (alarms (set_wheel T1 t)) with (s_alarms (abs T1)). destruct (decide (i = id)) as [->|Hne].
      * rewrite lookup_insert_eq, Hid. constructor. rewrite taken_spec by done. split; [done|]. done.
      * rewrite lookup_insert_ne by done. destruct (s_alarms (abs T1) !! i) as [a|] eqn:Hia; constructor.
        destruct (t_alarm _ Ht1 i a Hia) as (_ & _ & G & _). done.
    + split; [done|]. split; [change (s_now (abs T2) = now); rewrite Hab2; exact Hc1|]. exists id, (abs_timeout to). rewrite <- Hal. done.
Qed.

(** ** Taking all events that are due *)
Definition fired (now : Z) (a : alarm) : alarm := if decide (is_Due a) then taken now a else a.
Definition due_alarms (al : gmap nat alarm) : gmap nat alarm := filter (fun p => is_Due p.2) al.

Lemma fired_none (now : Z) (al : gmap nat alarm) : map_Forall (fun _ a => ~ is_Due a) al -> fired now <$> al = al.
Proof.
  intros Hno. rewrite <- (map_fmap_id al) at 2. apply map_fmap_ext. intros id a Hid. unfold fired.
  rewrite decide_False; [done|]. by apply (Hno id).
Qed.

Lemma due_taken (al : gmap nat alarm) (id : nat) (a a' : alarm) : al !! id = Some a -> is_Due a -> ~ is_Due a' ->
  size (due_alarms al) = S (size (due_alarms (<[id := a']> al))).
Proof.
  intros Hid Hd Hn. unfold due_alarms. assert (filter (fun p : nat * alarm => is_Due p.2) (<[id := a']> al) =
    delete id (filter (fun p : nat * alarm => is_Due p.2) al)) as ->.
  { rewrite map_filter_insert_False by done. by rewrite map_filter_delete. }
  assert (filter (fun p : nat * alarm => is_Due p.2) al !! id = Some a) as Hl by (by apply map_lookup_filter_Some).
  rewrite <- (insert_id _ _ _ Hl) at 1. rewrite <- insert_delete_eq. rewrite map_size_insert_None by apply lookup_delete_eq. done.
Qed.

Lemma omap_ext_in {A B : Type} (f g : A -> option B) (l : list A) : (forall x : A, x ∈ l -> f x = g x) -> omap f l = omap g l.
Proof.
  intros Hfg. induction l as [|x l IH]; [done|]. cbn [omap list_omap]. rewrite (Hfg x) by set_solver.
  change (list_omap A B f l) with (omap f l). change (list_omap A B g l) with (omap g l). rewrite IH; [done|]. set_solver.
Qed.

Lemma poll_spec (n : nat) (now : Z) (t : timer) : tinv t -> time_ok now ->
  let al := ring now <$> alarms t in
  (size (due_alarms al) = n)%nat ->
  forall fuel : nat, (n < fuel)%nat ->
  exists (ids : list nat) (t' : timer), poll fuel now t = (omap (fun id => a_data <$> al !! id) ids, t', true) /\
    NoDup ids /\ (forall id : nat, id ∈ ids <-> exists a : alarm, al !! id = Some a /\ is_Due a) /\
    tinv t' /\ t_events t' = t_events t /\ curtime (t_wheel t') = now /\ alarms t' = fired now <$> al.
Proof.
  revert t. induction n as [|n IH]; intros t Ht Hn al Hsz fuel Hf; (destruct fuel as [|fuel]; [lia|]); cbn [poll];
    pose proof (next_event_spec now t Ht Hn) as Hs; cbn zeta in Hs; fold al in Hs;
    destruct (ina_timer_next_event_with_time now t) as [t1 [ev|x]]; destruct Hs as (Ht1 & Hev1 & Hc1 & Hs).
  - destruct Hs as (id & a & Hid & Hd & _). exfalso.
    apply map_size_empty_inv in Hsz. assert (due_alarms al !! id = Some a) as Hx by (by apply map_lookup_filter_Some).
    rewrite Hsz in Hx. done.
  - destruct Hs as (_ & Hno & Hal). exists [], t1. rewrite fired_none by done. split; [done|]. split; [by apply NoDup_nil_2|]. split; [|done].
    intros id. split; [by intros ?%elem_of_nil|]. intros (a & H1 & H2). by destruct (Hno id a H1).
  - destruct Hs as (id & a & Hid & Hd & Hda & Hal).
    assert (exists a0 : alarm, alarms t !! id = Some a0 /\ a = ring now a0) as (a0 & Ha0 & ->).
    { subst al. rewrite lookup_fmap in Hid. apply fmap_Some in Hid as (a0 & H1 & H2). by exists a0. }
    destruct (t_alarm t Ht id a0 Ha0) as (F1 & F2 & F3 & _). destruct (ring_keeps now a0 F3) as (K1 & K2 & K3 & _).
    assert (taken now (ring now a0) = Alarm TIMEOUT_INT (a_interval a0) (next_due now (a_expires (ring now a0)) (a_interval a0)) Waiting (a_data a0)) as Htk.
    { rewrite taken_spec by congruence. by rewrite K2, K3. }
    assert (ring now <$> alarms t1 = alarms t1) as Hsame.
    { pose proof (update_same (t_wheel t1) now (t_inv t1 Ht1) Hc1) as Hu. rewrite update_abs in Hu by (done || apply Ht1).
      by apply (f_equal s_alarms) in Hu. }
    destruct (IH t1 Ht1 Hn) with (fuel := fuel) as (ids & t' & Hp & Hnd & Hids & Ht' & Hev' & Hc' & Hal'); [|lia|].
    { rewrite Hsame, Hal. apply eq_add_S. rewrite <- Hsz. symmetry. apply (due_taken _ _ (ring now a0)); [done|done|]. by rewrite Htk. }
    rewrite Hsame in *. exists (id :: ids), t'. rewrite Hp.
    assert (id ∉ ids) as Hni.
    { intros Hin. apply Hids in Hin as (a & H1 & H2). rewrite Hal, lookup_insert_eq in H1. injection H1 as <-. by rewrite Htk in H2. }
    split; [|split; [by constructor|split; [|split; [done|split; [congruence|split; [done|]]]]]].
    + cbn [omap list_omap]. rewrite Hid. cbn. rewrite Hda. do 3 f_equal. apply omap_ext_in. intros i Hi.
      change (abs_timeout <$> store (t_wheel t1)) with (alarms t1). change (ring now <$> (abs_timeout <$> store (t_wheel t))) with al.
      rewrite Hal, lookup_insert_ne by (intros ->; done). done.
    + intros i. rewrite elem_of_cons, Hids, Hal. destruct (decide (i = id)) as [->|Hne].
      * split; [intros _; by exists (ring now a0)|by left].
      * rewrite lookup_insert_ne by done. split; [intros [|]; done|by right].
    + rewrite Hal', Hal, fmap_insert. apply map_eq. intros i. destruct (decide (i = id)) as [->|Hne].
      * rewrite lookup_insert_eq, lookup_fmap, Hid. cbn. f_equal. unfold fired at 2. rewrite decide_True by done.
        unfold fired. rewrite decide_False; [done|]. by rewrite Htk.
      * by rewrite lookup_insert_ne.
  - exfalso. destruct Hs as (_ & Hno & _). assert (due_alarms al = ∅) as He.
    { apply map_empty. intros i. apply map_lookup_filter_None. right. intros a Hi. by apply (Hno i). }
    rewrite He, map_size_empty in Hsz. done.
Qed.

(** ** Creating and freeing events *)
#[local] Opaque timeouts_update timeouts_add timeouts_del.
Definition fresh (ev : nat) : timeout := set_data ev (timeout_init TIMEOUT_INT).
Lemma event_new_eq (n e : Z) (ev to : nat) (t : timer) : 0 < n -> 0 < e ->
  ina_timer_event_new_with_time n e (Some ev) (Some to) t =
    (let T := timeouts_update n (t_wheel t) in
     Timer_ (t_stamp t) (timeouts_add to e (set_store (<[to := fresh ev]> (store T)) T)) (next_event_id t + 1)
       (<[ev := Event (next_event_id t + 1) to]> (t_events t)), Ok ev).
Proof.
  intros Hn He. unfold ina_timer_event_new_with_time. rewrite (proj2 (Z.ltb_lt 0 n)), (proj2 (Z.ltb_lt 0 e)) by done. done.
Qed.

Lemma add_fresh (T : timeouts) (n e : Z) (ev to : nat) : inv T -> curtime T = n -> time_ok e -> 0 < e -> store T !! to = None ->
  let T' := timeouts_add to e (set_store (<[to := fresh ev]> (store T)) T) in
  inv T' /\ abs T' = s_put to (Alarm TIMEOUT_INT e (n + e) Waiting ev) (abs T).
Proof.
  intros Hi Hc He Hep Hto. cbn zeta. set (T2 := set_store (<[to := fresh ev]> (store T)) T).
  assert (inv T2) as Hi2 by (apply inv_insert; [done|unfold home; by rewrite Hto|by apply detached_ok|done]).
  assert (store T2 !! to = Some (fresh ev)) as Hto2 by apply lookup_insert_eq.
  destruct (add_inv T2 to _ e Hi2 Hto2 He) as [Hi3 Hab3]. split; [done|]. rewrite Hab3.
  assert (added (curtime T2) e (abs_timeout (fresh ev)) = Alarm TIMEOUT_INT e (n + e) Waiting ev) as ->.
  { unfold added. cbn [abs_timeout a_flags a_interval a_data fresh set_data timeout_init to_flags to_data to_interval].
    change (Z.land TIMEOUT_INT TIMEOUT_INT =? 0) with false. change (Z.land TIMEOUT_INT TIMEOUT_ABS =? 0) with true. cbn iota.
    change (curtime T2) with (curtime T). rewrite Hc, Z.max_r by lia. unfold due_at.
    by rewrite (proj2 (Z.leb_gt (n + e) n)) by lia. }
  unfold s_put, abs. cbn [s_now s_alarms]. change (store T2) with (<[to := fresh ev]> (store T)).
  by rewrite fmap_insert, insert_insert_eq.
Qed.

Lemma tinv_new (t : timer) (T : timeouts) (n e x id : Z) (ev to : nat) : tinv t -> inv T -> 0 < e ->
  t_events t !! ev = None -> alarms t !! to = None ->
  s_alarms (abs T) = <[to := Alarm TIMEOUT_INT e x Waiting ev]> (ring n <$> alarms t) ->
  tinv (Timer_ (t_stamp t) T id (<[ev := Event id to]> (t_events t))).
Proof.
  intros Ht Hi Hep Hev Hno Hal. constructor; [done| |].
  - intros ev' e'. cbn [t_events]. destruct (decide (ev' = ev)) as [->|Hne].
    + rewrite lookup_insert_eq. intros [= <-]. eexists. unfold alarms. cbn [t_wheel e_t]. rewrite Hal, lookup_insert_eq. done.
    + rewrite lookup_insert_ne by done. intros He'. destruct (t_event t Ht ev' e' He') as (a & H1 & H2).
      destruct (t_alarm t Ht (e_t e') a H1) as (_ & _ & Hs & _). destruct (ring_keeps n a Hs) as (_ & _ & K3 & _).
      exists (ring n a). unfold alarms. cbn [t_wheel]. rewrite Hal, lookup_insert_ne by (intros ->; congruence).
      rewrite lookup_fmap, H1. cbn. split; [done|congruence].
  - intros i a. unfold alarms. cbn [t_wheel t_events]. rewrite Hal. destruct (decide (i = to)) as [->|Hne].
    + rewrite lookup_insert_eq. intros [= <-]. cbn. repeat (split; [done|]). eexists. by rewrite lookup_insert_eq.
    + rewrite lookup_insert_ne, lookup_fmap by done. intros Hid. apply fmap_Some in Hid as (a0 & H1 & ->).
      destruct (t_alarm t Ht i a0 H1) as (F1 & F2 & F3 & e' & F4 & F5). destruct (ring_keeps n a0 F3) as (K1 & K2 & K3 & K4).
      rewrite K1, K2, K3. repeat (split; [done|]). exists e'. rewrite lookup_insert_ne; [done|]. intros Heq. congruence.
Qed.

Lemma alarms_new (n e : Z) (ev to : nat) (t : timer) : tinv t -> time_ok n -> 0 < n -> time_ok e -> 0 < e ->
  t_events t !! ev = None -> alarms t !! to = None ->
  exists t' : timer, ina_timer_event_new_with_time n e (Some ev) (Some to) t = (t', Ok ev) /\
    tinv t' /\ curtime (t_wheel t') = n /\
    t_events t' = <[ev := Event (next_event_id t + 1) to]> (t_events t) /\
    alarms t' = <[to := Alarm TIMEOUT_INT e (n + e) Waiting ev]> (ring n <$> alarms t).
Proof.
  intros Ht Hn Hnp He Hep Hev Hto. rewrite event_new_eq by done. cbn zeta. eexists. split; [reflexivity|].
  destruct (update_spec n (t_wheel t) (t_inv t Ht) Hn) as (Hi1 & Hc1 & _). pose proof (update_abs n (t_wheel t) (t_inv t Ht) Hn) as Hab.
  set (T1 := timeouts_update n (t_wheel t)) in *. clearbody T1.
  assert (s_alarms (abs T1) = ring n <$> alarms t) as Hal1 by (by rewrite Hab).
  assert (store T1 !! to = None) as Hto1.
  { assert (s_alarms (abs T1) !! to = None) as Hx by (by rewrite Hal1, lookup_fmap, Hto).
    rewrite abs_lookup in Hx. by apply fmap_None in Hx. }
  destruct (add_fresh T1 n e ev to Hi1 Hc1 He Hep Hto1) as [Hi3 Hab3].
  set (T3 := timeouts_add to e _) in *. clearbody T3.
  assert (s_alarms (abs T3) = <[to := Alarm TIMEOUT_INT e (n + e) Waiting ev]> (ring n <$> alarms t)) as Hal
    by (rewrite Hab3; cbn [s_put s_alarms]; by rewrite Hal1).
  split; [by apply (tinv_new t T3 n e (n + e) _ ev to)|].
  split; [|by split]. change (s_now (abs T3) = n). rewrite Hab3. exact Hc1.
Qed.

(** Removing a structure that is in no list. *)
Lemma inv_delete (T : timeouts) (id : nat) : inv T -> home (store T) id = None -> inv (set_store (delete id (store T)) T).
Proof.
  intros [Hw Hp Hv Hc] Hh. constructor; [|..|done].
  - apply wf_store; [done|]. intros i. unfold home in *. destruct (decide (i = id)) as [->|]; [by rewrite lookup_delete_eq|].
    by rewrite lookup_delete_ne.
  - intros i to q. cbn [store set_store curtime]. intros H1 H2 H3 H4. apply lookup_delete_Some in H1 as [_ H1]. by apply (Hp i to q).
  - intros i to H1. cbn [store set_store] in H1. apply lookup_delete_Some in H1 as [_ H1]. by apply (Hv i).
Qed.

Lemma alarms_free (ev : nat) (e : event) (t : timer) : tinv t -> t_events t !! ev = Some e ->
  let t' := ina_timer_event_free ev t in
  tinv t' /\ curtime (t_wheel t') = curtime (t_wheel t) /\ t_events t' = delete ev (t_events t) /\
  alarms t' = delete (e_t e) (alarms t).
Proof.
  intros Ht Hev. cbn zeta. unfold ina_timer_event_free. rewrite Hev.
  destruct (t_event t Ht ev e Hev) as (a & Ha & Hd). unfold alarms in Ha. rewrite abs_lookup in Ha. apply fmap_Some in Ha as (to & Hto & ->).
  destruct (del_inv (t_wheel t) (e_t e) to (t_inv t Ht) Hto) as [Hi1 Hab].
  destruct (del_spec [] (t_wheel t) (e_t e) to (inv_wf _ (t_inv t Ht)) Hto ltac:(set_solver)) as (_ & Hst & Hc).
  set (T1 := timeouts_del (e_t e) (t_wheel t)) in *. set (T2 := set_store (delete (e_t e) (store T1)) T1).
  assert (s_alarms (abs T2) = delete (e_t e) (alarms t)) as Hal.
  { unfold abs. cbn [s_alarms]. change (store T2) with (delete (e_t e) (store T1)). rewrite fmap_delete, Hst, fmap_insert, delete_insert_eq. done. }
  assert (inv T2) as Hi2.
  { apply inv_delete; [done|]. unfold home. rewrite Hst, lookup_insert_eq. cbn. unfold detach. by destruct (to_pending to) eqn:?. }
  split; [|split; [exact Hc|by split]]. constructor; [done| |].
  - intros ev' e'. cbn [t_events]. intros He'. apply lookup_delete_Some in He' as [Hne He'].
    destruct (t_event t Ht ev' e' He') as (a & H1 & H2). exists a. unfold alarms. cbn [t_wheel]. rewrite Hal.
    rewrite lookup_delete_ne; [done|]. intros Heq. rewrite <- Heq in H1. unfold alarms in H1. rewrite abs_lookup, Hto in H1.
    injection H1 as <-. congruence.
  - intros id a'. unfold alarms. cbn [t_wheel t_events]. rewrite Hal. intros Hid. apply lookup_delete_Some in Hid as [Hne Hid].
    destruct (t_alarm t Ht id a' Hid) as (F1 & F2 & F3 & e' & F4 & F5). repeat (split; [done|]). exists e'. split; [|done].
    rewrite lookup_delete_ne; [done|]. intros Heq. rewrite <- Heq, Hev in F4. congruence.
Qed.

(** ** Metronomes

    What a timer promises: an event beats at every multiple of its interval after
    its creation.  [m_seen] is when the event was last looked at; it is given to
    the client when it has beaten since then. *)
Record metronome := Metronome { m_start : Z; m_interval : Z; m_seen : Z }.
Record ensemble := Ensemble { clock : Z; metronomes : gmap nat metronome }.

Definition beats_until (m : metronome) (x : Z) : Z := (x - m_start m) / m_interval m.
Definition has_beaten (m : metronome) (now : Z) : Prop := beats_until m (m_seen m) < beats_until m now.
Definition next_beat (m : metronome) : Z := m_start m + (beats_until m (m_seen m) + 1) * m_interval m.
Definition see (now : Z) (m : metronome) : metronome := Metronome (m_start m) (m_interval m) now.

Inductive t_op := TNew (n e : Z) (ev to : nat) | TFree (ev : nat) | TPoll (now : Z) | TWait.
Inductive t_reply := RNew (ev : nat) | RDone | REvents (l : list nat) | RWait (r : Z) | RFailed.

Inductive b_step (s : ensemble) : t_op -> t_reply -> ensemble -> Prop :=
  | BNew (n e : Z) (ev to : nat) :
      b_step s (TNew n e ev to) (RNew ev) (Ensemble n (<[ev := Metronome n e n]> (metronomes s)))
  | BFree (ev : nat) : b_step s (TFree ev) RDone (Ensemble (clock s) (delete ev (metronomes s)))
  | BPoll (now : Z) (l : list nat) : NoDup l ->
      (forall ev : nat, ev ∈ l <-> exists m : metronome, metronomes s !! ev = Some m /\ has_beaten m now) ->
      b_step s (TPoll now) (REvents l) (Ensemble now (see now <$> metronomes s))
  | BWait (r : Z) :
      (metronomes s = ∅ -> r = -1) -> (metronomes s <> ∅ -> 0 <= r) ->
      (forall (ev : nat) (m : metronome), metronomes s !! ev = Some m -> r <= Z.max 0 (next_beat m - clock s)) ->
      b_step s TWait (RWait r) s.

Definition t_exec (o : t_op) (t : timer) : t_reply * timer :=
  match o with
  | TNew n e ev to =>
      match ina_timer_event_new_with_time n e (Some ev) (Some to) t with
      | (t, Ok ev) => (RNew ev, t)
      | (t, Err _) => (RFailed, t)
      end
  | TFree ev => (RDone, ina_timer_event_free ev t)
  | TPoll now =>
      match poll (S (size (store (t_wheel t)))) now t with
      | (l, t, true) => (REvents l, t)
      | (_, t, false) => (RFailed, t)
      end
  | TWait => match ina_timer_time_to_next_event t with Ok r => (RWait r, t) | Err _ => (RFailed, t) end
  end.
(** The clock of the caller does not go back, and memory that is allocated was not
    in use. *)
Definition t_ok (t : timer) (o : t_op) : Prop :=
  match o with
  | TNew n e ev to => curtime (t_wheel t) <= n /\ 0 < n < 2 ^ 63 /\ 0 < e < 2 ^ 63 /\
      t_events t !! ev = None /\ store (t_wheel t) !! to = None
  | TPoll now => curtime (t_wheel t) <= now < 2 ^ 63
  | _ => True
  end.
Fixpoint t_run (ops : list t_op) (t : timer) : list t_reply * timer :=
  match ops with
  | [] => ([], t)
  | o :: ops => let '(r, t) := t_exec o t in let '(rs, t) := t_run ops t in (r :: rs, t)
  end.
Fixpoint t_run_ok (ops : list t_op) (t : timer) : Prop :=
  match ops with [] => True | o :: ops => t_ok t o /\ t_run_ok ops (snd (t_exec o t)) end.
Inductive b_run : ensemble -> list t_op -> list t_reply -> ensemble -> Prop :=
  | b_run_nil (s : ensemble) : b_run s [] [] s
  | b_run_cons (s s1 s2 : ensemble) (o : t_op) (r : t_reply) (ops : list t_op) (rs : list t_reply) :
      b_step s o r s1 -> b_run s1 ops rs s2 -> b_run s (o :: ops) (r :: rs) s2.

(** *** The relation between a timer and its metronomes *)
Definition follows (c : Z) (m : metronome) (a : alarm) : Prop :=
  a_interval a = m_interval m /\ a_expires a = next_beat m /\ m_start m <= m_seen m <= c /\
  0 < m_interval m < 2 ^ 63 /\ a_status a <> Idle /\ (a_status a = Due -> a_expires a <= c).
Record trel (t : timer) (s : ensemble) : Prop := {
  r_inv : tinv t;
  r_clock : clock s = curtime (t_wheel t);
  r_follows : forall ev : nat, option_Forall2 (follows (clock s)) (metronomes s !! ev) (alarm_of t ev)
}.

Lemma beaten_next (m : metronome) (now : Z) : 0 < m_interval m -> (has_beaten m now <-> next_beat m <= now).
Proof.
  intros Hi. unfold has_beaten, next_beat. set (k := beats_until m (m_seen m)). unfold beats_until.
  pose proof (Z.div_mod (now - m_start m) (m_interval m) ltac:(lia)) as Hd.
  pose proof (Z.mod_pos_bound (now - m_start m) (m_interval m) Hi) as Hm.
  set (q := (now - m_start m) / m_interval m) in *. nia.
Qed.

Lemma beats_mono (m : metronome) (x y : Z) : 0 < m_interval m -> x <= y -> beats_until m x <= beats_until m y.
Proof. intros Hi Hxy. unfold beats_until. apply Z.div_le_mono; lia. Qed.

Lemma follows_due (c now : Z) (m : metronome) (a : alarm) : follows c m a -> c <= now ->
  (is_Due (ring now a) <-> has_beaten m now).
Proof.
  intros (F1 & F2 & F3 & F4 & F5 & F6) Hc. rewrite beaten_next, <- F2 by lia. unfold is_Due, ring.
  destruct (a_status a) eqn:Hs; [done| |].
  - cbn [a_status with_status]. unfold due_at. destruct (Z.leb_spec (a_expires a) now); [done|]. split; [done|lia].
  - rewrite Hs. specialize (F6 eq_refl). split; [lia|done].
Qed.

Lemma follows_ring (c now : Z) (m : metronome) (a : alarm) : follows c m a -> c <= now -> follows now m (ring now a).
Proof.
  intros (F1 & F2 & F3 & F4 & F5 & F6) Hc. unfold ring, follows. destruct (a_status a) eqn:Hs; [done| |].
  - cbn. repeat (split; [done || lia|]). unfold due_at. destruct (Z.leb_spec (a_expires a) now); split; done || lia.
  - rewrite Hs. specialize (F6 eq_refl). repeat (split; [done || lia|]). lia.
Qed.

Lemma follows_fired (c now : Z) (m : metronome) (a : alarm) : follows c m a -> c <= now -> a_flags a = TIMEOUT_INT ->
  follows now (see now m) (fired now (ring now a)).
Proof.
  intros Hf Hc Hfl. pose proof (follows_due c now m a Hf Hc) as Hdue. destruct (follows_ring c now m a Hf Hc) as (G1 & G2 & G3 & G4 & G5 & G6).
  destruct Hf as (F1 & F2 & F3 & F4 & F5 & F6). destruct (ring_keeps now a F5) as (K1 & _).
  unfold fired. destruct (decide (is_Due (ring now a))) as [Hd|Hd].
  - rewrite taken_spec by (congruence || lia). unfold follows. cbn. split; [done|]. split; [|repeat split; done || lia].
    apply Hdue in Hd. apply beaten_next in Hd; [|lia]. unfold next_due. rewrite G1, G2, Z.max_r by lia.
    unfold next_beat at 3. cbn. unfold beats_until at 1. cbn.
    replace (now - m_start m) with (now - next_beat m + (beats_until m (m_seen m) + 1) * m_interval m) by (unfold next_beat; lia).
    rewrite Z.div_add by lia. unfold next_beat at 1. lia.
  - assert (beats_until m now = beats_until m (m_seen m)) as Hb.
    { pose proof (beats_mono m (m_seen m) now ltac:(lia) ltac:(lia)). unfold has_beaten in Hdue. apply Z.le_antisymm; [|done].
      apply Z.le_ngt. tauto. }
    unfold follows. split; [done|]. split; [|repeat split; done || (cbn; lia)].
    rewrite G2. unfold next_beat. cbn. unfold beats_until in *. cbn. by rewrite Hb.
Qed.

(** *** Each call *)
Lemma alarm_of_event (t : timer) (ev : nat) (a : alarm) : tinv t -> alarm_of t ev = Some a ->
  exists e : event, t_events t !! ev = Some e /\ alarms t !! e_t e = Some a /\ a_data a = ev.
Proof.
  intros Ht Ha. unfold alarm_of in Ha. apply bind_Some in Ha as (e & He & Ha). exists e. split; [done|]. split; [done|].
  destruct (t_event t Ht ev e He) as (a' & H1 & H2). congruence.
Qed.
Lemma event_alarm_of (t : timer) (id : nat) (a : alarm) : tinv t -> alarms t !! id = Some a ->
  alarm_of t (a_data a) = Some a.
Proof.
  intros Ht Ha. destruct (t_alarm t Ht id a Ha) as (_ & _ & _ & e & He & Hid). unfold alarm_of. rewrite He. cbn. by rewrite Hid.
Qed.
Lemma alarm_of_map (t t' : timer) (f : alarm -> alarm) (ev : nat) : t_events t' = t_events t -> alarms t' = f <$> alarms t ->
  alarm_of t' ev = f <$> alarm_of t ev.
Proof.
  intros He Ha. unfold alarm_of. rewrite He, Ha. destruct (t_events t !! ev) as [e|]; [|done]. cbn. apply lookup_fmap.
Qed.

Lemma NoDup_omap_inj {A B : Type} (f : A -> option B) (l : list A) :
  (forall (x y : A) (z : B), x ∈ l -> y ∈ l -> f x = Some z -> f y = Some z -> x = y) -> NoDup l -> NoDup (omap f l).
Proof.
  intros Hinj Hnd. induction Hnd as [|x l Hx Hnd IH]; [by apply NoDup_nil_2|]. cbn [omap list_omap].
  change (list_omap A B f l) with (omap f l).
  assert (NoDup (omap f l)) as Hl by (apply IH; intros x' y z H1 H2; apply Hinj; by apply list_elem_of_further).
  destruct (f x) as [z|] eqn:Hz; [|done]. apply NoDup_cons. split; [|done]. intros Hin. apply list_elem_of_omap in Hin as (y & Hy & Hfy).
  apply Hx. by rewrite (Hinj x y z (list_elem_of_here _ _) (list_elem_of_further _ _ _ Hy) Hz Hfy).
Qed.

Lemma poll_exact (now : Z) (t : timer) (s : ensemble) : trel t s -> curtime (t_wheel t) <= now < 2 ^ 63 ->
  exists (l : list nat) (t' : timer), t_exec (TPoll now) t = (REvents l, t') /\ NoDup l /\
    (forall ev : nat, ev ∈ l <-> exists m : metronome, metronomes s !! ev = Some m /\ has_beaten m now) /\
    trel t' (Ensemble now (see now <$> metronomes s)).
Proof.
  intros [Ht Hc Hf] Hnow. set (al := ring now <$> alarms t).
  assert (time_ok now) as Hn by (pose proof (inv_time _ (t_inv t Ht)) as Hx; unfold time_ok in *; lia).
  assert (size (due_alarms al) < S (size (store (t_wheel t))))%nat as Hfuel.
  { apply Nat.lt_succ_r. transitivity (size al); [apply map_size_filter|]. subst al. rewrite map_size_fmap. unfold alarms, abs. cbn.
    by rewrite map_size_fmap. }
  destruct (poll_spec _ now t Ht Hn eq_refl _ Hfuel) as (ids & t' & Hp & Hnd & Hids & Ht' & He' & Hc' & Hal').
  fold al in Hp, Hids, Hal'.
  assert (forall (id : nat) (a : alarm), al !! id = Some a -> exists (a0 : alarm) (e : event),
     a = ring now a0 /\ alarms t !! id = Some a0 /\ a_data a = a_data a0 /\ t_events t !! a_data a = Some e /\ e_t e = id) as Hof.
  { intros id a Ha. subst al. rewrite lookup_fmap in Ha. apply fmap_Some in Ha as (a0 & Ha0 & ->).
    destruct (t_alarm t Ht id a0 Ha0) as (_ & _ & Hs & e & H1 & H2). destruct (ring_keeps now a0 Hs) as (_ & _ & K3 & _).
    exists a0, e. rewrite K3. done. }
  cbn [t_exec]. rewrite Hp. eexists _, t'. split; [done|]. split; [|split].
  - apply NoDup_omap_inj; [|done]. intros x y z _ _ Hx Hy. apply fmap_Some in Hx as (a & Ha & ->). apply fmap_Some in Hy as (a' & Ha' & Hz).
    destruct (Hof x a Ha) as (_ & e & _ & _ & _ & H1 & H2). destruct (Hof y a' Ha') as (_ & e' & _ & _ & _ & H1' & H2'). congruence.
  - intros ev. rewrite list_elem_of_omap. specialize (Hf ev). rewrite Hc in Hf. split.
    + intros (id & Hin & Hx). apply fmap_Some in Hx as (a & Ha & Hev). apply Hids in Hin as (a' & Ha' & Hd).
      assert (a' = a) as -> by congruence. destruct (Hof id a Ha) as (a0 & e & -> & Ha0 & Hd0 & _).
      pose proof (event_alarm_of t id a0 Ht Ha0) as Hao. rewrite <- Hd0, <- Hev in Hao. rewrite Hao in Hf.
      inversion Hf as [m a1 Hfo E1 E2|]; subst a1. exists m. split; [done|]. apply (follows_due _ now m a0 Hfo); [lia|done].
    + intros (m & Hm & Hb). rewrite Hm in Hf. inversion Hf as [m1 a Hfo E1 E2|]; subst m1. symmetry in E2.
      destruct (alarm_of_event t ev a Ht E2) as (e & H1 & H2 & H3). exists (e_t e).
      assert (al !! e_t e = Some (ring now a)) as Hl by (subst al; by rewrite lookup_fmap, H2).
      assert (a_data (ring now a) = ev) as Hd by (destruct Hfo as (_ & _ & _ & _ & Hs & _); destruct (ring_keeps now a Hs) as (_ & _ & K & _); congruence).
      rewrite Hl. cbn. split; [|by rewrite Hd]. apply Hids. exists (ring now a). split; [done|]. apply (follows_due _ now m a Hfo); [lia|done].
  - constructor; [done|done|]. intros ev. cbn [clock metronomes]. rewrite lookup_fmap.
    rewrite (alarm_of_map t t' (fun a => fired now (ring now a)) ev He') by (rewrite Hal'; symmetry; exact (map_fmap_compose (ring now) (fired now) (alarms t))).
    specialize (Hf ev). rewrite Hc in Hf. destruct (alarm_of t ev) as [a|] eqn:Ha; inversion Hf as [m a1 Hfo E1 E2|]; [|constructor].
    constructor. apply (follows_fired (curtime (t_wheel t))); [done|lia|].
    destruct (alarm_of_event t ev a Ht Ha) as (e & _ & H2 & _). by destruct (t_alarm t Ht _ a H2).
Qed.

(** One call takes one event that has beaten. *)
Lemma next_event_exact (now : Z) (t : timer) (s : ensemble) : trel t s -> curtime (t_wheel t) <= now < 2 ^ 63 ->
  let '(t', r) := ina_timer_next_event_with_time now t in
  match r with
  | Ok ev => exists m : metronome, metronomes s !! ev = Some m /\ has_beaten m now /\
      trel t' (Ensemble now (<[ev := see now m]> (metronomes s)))
  | Err x => x = INA_ERR E_TRY_AGAIN /\ map_Forall (fun _ m => ~ has_beaten m now) (metronomes s) /\
      trel t' (Ensemble now (metronomes s))
  end.
Proof.
  intros [Ht Hc Hf] Hnow. assert (time_ok now) as Hn by (pose proof (inv_time _ (t_inv t Ht)) as Hx; unfold time_ok in *; lia).
  pose proof (next_event_spec now t Ht Hn) as Hs. cbn zeta in Hs.
  destruct (ina_timer_next_event_with_time now t) as [t' [ev|x]]; destruct Hs as (Ht' & He' & Hc' & Hs).
  - destruct Hs as (id & a & Hid & Hd & Hda & Hal). rewrite lookup_fmap in Hid. apply fmap_Some in Hid as (a0 & Ha0 & ->).
    destruct (t_alarm t Ht id a0 Ha0) as (Hfl & _ & Hst & e & He & Hide). destruct (ring_keeps now a0 Hst) as (_ & _ & K3 & _).
    rewrite Hda in K3. rewrite <- K3 in He. pose proof (event_alarm_of t id a0 Ht Ha0) as Hao. rewrite <- K3 in Hao.
    pose proof (Hf ev) as Hfe. rewrite Hao in Hfe. inversion Hfe as [m a1 Hfo E1 E2|]; subst a1. symmetry in E1. exists m. split; [done|].
    rewrite Hc in Hfo. split; [apply (follows_due _ now m a0 Hfo); [lia|done]|].
    constructor; [done|done|]. intros ev'. cbn [clock metronomes]. unfold alarm_of. rewrite He', Hal. destruct (decide (ev' = ev)) as [->|Hne].
    + rewrite lookup_insert_eq, He. cbn. rewrite Hide, lookup_insert_eq. constructor.
      pose proof (follows_fired _ now m a0 Hfo ltac:(lia) Hfl) as Hff. unfold fired in Hff. by rewrite decide_True in Hff.
    + rewrite lookup_insert_ne by done. specialize (Hf ev'). rewrite Hc in Hf. unfold alarm_of in Hf.
      destruct (t_events t !! ev') as [e'|] eqn:Hev'; cbn [mbind option_bind] in Hf |- *; [|destruct (metronomes s !! ev'); [by inversion Hf|constructor]].
      destruct (t_event t Ht ev' e' Hev') as (a & H1 & H2). rewrite H1 in Hf. inversion Hf as [m1 a1 Hfo1 E3 E4|]; subst a1.
      rewrite lookup_insert_ne by (intros Heq; rewrite Heq in *; congruence). rewrite lookup_fmap, H1. constructor.
      apply (follows_ring (curtime (t_wheel t))); [done|lia].
  - destruct Hs as (-> & Hno & Hal). split; [done|].
    assert (forall ev : nat, option_Forall2 (follows now) (metronomes s !! ev) (alarm_of t' ev)) as Hf'.
    { intros ev. rewrite (alarm_of_map t t' (ring now) ev He' Hal). specialize (Hf ev). rewrite Hc in Hf.
      destruct (alarm_of t ev) as [a|]; inversion Hf as [m a1 Hfo E1 E2|]; [|constructor]. constructor.
      apply (follows_ring (curtime (t_wheel t))); [done|lia]. }
    split; [|by constructor]. intros ev m Hm Hb. specialize (Hf ev). rewrite Hm in Hf. inversion Hf as [m1 a Hfo E1 E2|]; subst m1. symmetry in E2.
    destruct (alarm_of_event t ev a Ht E2) as (e & _ & H2 & _). apply (Hno (e_t e) (ring now a)); [by rewrite lookup_fmap, H2|].
    rewrite Hc in Hfo. apply (follows_due _ now m a Hfo); [lia|done].
Qed.

Lemma new_exact (n e : Z) (ev to : nat) (t : timer) (s : ensemble) : trel t s -> t_ok t (TNew n e ev to) ->
  exists t' : timer, t_exec (TNew n e ev to) t = (RNew ev, t') /\ trel t' (Ensemble n (<[ev := Metronome n e n]> (metronomes s))).
Proof.
  intros [Ht Hc Hf] (Hn & Hnb & Hep & Hev & Hto). assert (time_ok n /\ time_ok e) as [Hn1 He1] by (unfold time_ok; lia).
  assert (alarms t !! to = None) as Hno by (unfold alarms; by rewrite abs_lookup, Hto).
  destruct (alarms_new n e ev to t Ht Hn1 ltac:(lia) He1 ltac:(lia) Hev Hno) as (t' & Heq & Ht' & Hc' & He' & Hal').
  exists t'. cbn [t_exec]. rewrite Heq. split; [done|]. constructor; [done|done|]. intros ev'. cbn [clock metronomes].
  unfold alarm_of. rewrite He', Hal'. destruct (decide (ev' = ev)) as [->|Hne].
  - rewrite !lookup_insert_eq. cbn. rewrite lookup_insert_eq. constructor. unfold follows. cbn. unfold next_beat, beats_until. cbn.
    rewrite Z.sub_diag, Z.div_0_l by lia. repeat (split; [done || lia|]). done.
  - rewrite !lookup_insert_ne by done. specialize (Hf ev'). rewrite Hc in Hf. unfold alarm_of in Hf.
    destruct (t_events t !! ev') as [e'|] eqn:Hevt; cbn [mbind option_bind] in Hf |- *; [|destruct (metronomes s !! ev'); [by inversion Hf|constructor]].
    destruct (t_event t Ht ev' e' Hevt) as (a & H1 & H2). rewrite H1 in Hf. inversion Hf as [m a1 Hfo E1 E2|]; subst a1.
    rewrite lookup_insert_ne by (intros ->; congruence). rewrite lookup_fmap, H1. constructor. apply (follows_ring (curtime (t_wheel t))); [done|lia].
Qed.

Lemma free_exact (ev : nat) (t : timer) (s : ensemble) : trel t s ->
  trel (ina_timer_event_free ev t) (Ensemble (clock s) (delete ev (metronomes s))).
Proof.
  intros [Ht Hc Hf]. destruct (t_events t !! ev) as [e|] eqn:Hev.
  - destruct (alarms_free ev e t Ht Hev) as (Ht' & Hc' & He' & Hal'). constructor; [done|by rewrite Hc'|].
    intros ev'. cbn [clock metronomes]. unfold alarm_of. rewrite He', Hal'. destruct (decide (ev' = ev)) as [->|Hne].
    + rewrite !lookup_delete_eq. constructor.
    + rewrite !lookup_delete_ne by done. specialize (Hf ev'). unfold alarm_of in Hf.
      destruct (t_events t !! ev') as [e'|] eqn:Hev'; cbn [mbind option_bind] in Hf |- *; [|done]. rewrite lookup_delete_ne; [done|]. intros Heq.
      destruct (t_event t Ht ev e Hev) as (a & H1 & H2). destruct (t_event t Ht ev' e' Hev') as (a' & H1' & H2'). congruence.
  - assert (ina_timer_event_free ev t = t) as -> by (unfold ina_timer_event_free; by rewrite Hev).
    constructor; [done|done|]. intros ev'. cbn [clock metronomes]. destruct (decide (ev' = ev)) as [->|Hne].
    + rewrite lookup_delete_eq. unfold alarm_of. rewrite Hev. constructor.
    + rewrite lookup_delete_ne by done. apply Hf.
Qed.

Lemma next_beat_near (c : Z) (m : metronome) (a : alarm) : follows c m a -> next_beat m - c <= m_interval m.
Proof.
  intros (_ & _ & F3 & F4 & _). unfold next_beat, beats_until.
  pose proof (Z.mul_div_le (m_seen m - m_start m) (m_interval m) ltac:(lia)). nia.
Qed.

Lemma wait_exact (t : timer) (s : ensemble) : trel t s ->
  exists r : Z, t_exec TWait t = (RWait r, t) /\ b_step s TWait (RWait r) s.
Proof.
  intros [Ht Hc Hf]. eexists. split; [reflexivity|].
  destruct (timeout_wait_ok (t_wheel t) (t_inv t Ht)) as [Hd Hn]. set (r := timeouts_timeout (t_wheel t)) in *.
  assert (forall (ev : nat) (m : metronome), metronomes s !! ev = Some m -> exists (id : nat) (a : alarm),
    s_alarms (abs (t_wheel t)) !! id = Some a /\ follows (clock s) m a) as Hev.
  { intros ev m Hm. specialize (Hf ev). rewrite Hm in Hf. inversion Hf as [m1 a Hfo E1 E2|]; subst m1. symmetry in E2.
    destruct (alarm_of_event t ev a Ht E2) as (e & _ & H2 & _). by exists (e_t e), a. }
  destruct (decide (r = 0)) as [H0|H0].
  { rewrite H0. constructor; [|done|intros; apply Z.le_max_l]. intros He. exfalso.
    destruct (decide (queue (t_wheel t) EXPIRED = [])) as [Hq|Hq].
    - assert (~ some_in (abs (t_wheel t)) Due) as Hnd by (rewrite some_due by apply Ht; auto). destruct (Hn Hnd) as (Hr & _). lia.
    - apply (some_due _ (t_inv t Ht)) in Hq as (id & a & Ha & _). pose proof (event_alarm_of t id a Ht Ha) as Hao.
      specialize (Hf (a_data a)). rewrite Hao, He in Hf. inversion Hf. }
  assert (~ some_in (abs (t_wheel t)) Due) as Hnd by tauto. destruct (Hn Hnd) as (Hr & Hw & Hnone).
  assert (forall (ev : nat) (m : metronome), metronomes s !! ev = Some m -> r <= next_beat m - clock s < 2 ^ 63) as Hle.
  { intros ev m Hm. destruct (Hev ev m Hm) as (id & a & Ha & Hfo). pose proof (next_beat_near _ m a Hfo) as Hnear.
    destruct Hfo as (F1 & F2 & F3 & F4 & F5 & F6). destruct (a_status a) eqn:Hs; [done| |destruct Hnd; by exists id, a].
    specialize (Hw id a Ha Hs). change (s_now (abs (t_wheel t))) with (curtime (t_wheel t)) in Hw. rewrite <- Hc in Hw. lia. }
  constructor.
  - intros He. rewrite Hnone; [reflexivity|]. intros (id & a & Ha & _). pose proof (event_alarm_of t id a Ht Ha) as Hao.
    specialize (Hf (a_data a)). rewrite Hao, He in Hf. inversion Hf.
  - intros Hne. apply map_choose in Hne as (ev & m & Hm). specialize (Hle ev m Hm). unfold to_time_t.
    rewrite (proj2 (Z.ltb_lt r _)) by lia. lia.
  - intros ev m Hm. specialize (Hle ev m Hm). unfold to_time_t. rewrite (proj2 (Z.ltb_lt r _)) by lia. lia.
Qed.

Lemma exec_exact (o : t_op) (t : timer) (s : ensemble) : trel t s -> t_ok t o ->
  exists s' : ensemble, trel (snd (t_exec o t)) s' /\ b_step s o (fst (t_exec o t)) s'.
Proof.
  intros Hr Hok. destruct o as [n e ev to|ev|now|].
  - destruct (new_exact n e ev to t s Hr Hok) as (t' & -> & Hr'). eexists. split; [exact Hr'|constructor].
  - eexists. split; [by apply free_exact|constructor].
  - destruct (poll_exact now t s Hr Hok) as (l & t' & -> & Hnd & Hl & Hr'). eexists. split; [exact Hr'|by constructor].
  - destruct (wait_exact t s Hr) as (r & -> & Hb). exists s. by split.
Qed.

Lemma new_timer_rel (t : timer) : ina_timer_new true true true = Some (Ok t) -> trel t (Ensemble 0 ∅).
Proof.
  intros [= <-]. constructor; [|done|intros ev; constructor].
  constructor; [apply init_state_inv|done|]. intros id a. unfold alarms. rewrite abs_lookup. done.
Qed.

(** C8. The events of a timer are metronomes.  Whatever events are created and
    freed on a new timer, a client that takes all events at some time gets every
    event that has beaten since it was taken last, once, and no other; an event
    beats at the multiples of its interval after its creation, however late it is
    taken; and the time to wait is -1 without events and otherwise not negative
    and not longer than to the next beat of any event. *)
Theorem events_beat_as_metronomes (ops : list t_op) (t : timer) :
  ina_timer_new true true true = Some (Ok t) -> t_run_ok ops t ->
  exists s : ensemble, b_run (Ensemble 0 ∅) ops (fst (t_run ops t)) s /\ trel (snd (t_run ops t)) s.
Proof.
  intros Hnew. generalize (new_timer_rel t Hnew). clear Hnew. generalize (Ensemble 0 ∅). revert t.
  induction ops as [|o ops IH]; intros t s Hr Hok; cbn [t_run].
  - exists s. split; [constructor|done].
  - destruct Hok as [Ho Hok]. destruct (exec_exact o t s Hr Ho) as (s1 & Hr1 & Hb). destruct (t_exec o t) as [r t1]. cbn [fst snd] in *.
    destruct (IH t1 s1 Hr1 Hok) as (s2 & Hb2 & Hr2). destruct (t_run ops t1) as [rs t2]. cbn [fst snd] in *.
    exists s2. split; [|done]. by apply (b_run_cons s s1 s2).
Qed.

End Timer.

Import Time.
(** Two events of 900 and 250 milliseconds, created at 1000; the third poll is late. *)
Definition calls : list t_op :=
  [TWait; TNew 1000 900 1 2; TNew 1000 250 3 4; TWait; TPoll 1100; TPoll 1300; TPoll 6000; TPoll 6001; TFree 3; TPoll 6400; TWait].
Definition test_timer : timer (D := Q) := Timer_ Time.tsc_zero (timeouts_init ∅ 0) 0 ∅.
Lemma calls_run : fst (t_run calls test_timer) =
  [RWait (-1); RNew 1; RNew 3; RWait 216; REvents []; REvents [3%nat]; REvents [3%nat; 1%nat]; REvents []; RDone; REvents [1%nat]; RWait 896].
Proof. vm_compute. reflexivity. Qed.
Lemma calls_ok : t_run_ok calls test_timer.
Proof. cbn [t_run_ok calls]. repeat split; vm_compute; try done; try (intros; discriminate). Qed.
Lemma events_beat_as_metronomes_witness :
  exists s : ensemble, b_run (Ensemble 0 ∅) calls (fst (t_run calls test_timer)) s /\ trel (snd (t_run calls test_timer)) s.
Proof. exact (events_beat_as_metronomes calls test_timer eq_refl calls_ok). Defined.

End Timer.
