(* ===== verification/Ipc.v ===== *)
(** * Flags and counters between processes (ipc.c, ipc.h)

    Flags are the 64 bits of a word in shared memory, each with the number of
    times it was set; a counter is a word in shared memory.  The calls are
    functions on the shared data, and a call in parallel with others is a thread
    whose steps are its accesses to that data.  Waiting for flags uses a timer of
    Timer.v.  The segments of shared memory are what the operating system keeps
    under their names. *)
From Stdlib Require Import ZArith Lia Bool String QArith.
From stdpp Require Import base numbers option relations fin_maps gmap strings list.
From S2P Require Import Prelude Error Libc Time Timerwheel Timer.

Local Open Scope inac_scope.

Module Ipc.
Import Error.

Definition INA_IPC_FLAGS_MAX : nat := 64.
Definition INA_IPC_FLAGS_NAME_MAXLEN : Z := 64.
Definition INA_IPC_FLAGS_IGNORE : Z := -1.

(** The constants [INA_IPC_FLAGS_1] to [INA_IPC_FLAGS_64]; from the fourth on each
    is one bit too high. *)
Definition INA_IPC_FLAGS : list Z := [
   0x1; 0x2; 0x4; 0x10;
   0x20; 0x40; 0x80; 0x100;
   0x200; 0x400; 0x800; 0x1000;
   0x2000; 0x4000; 0x8000; 0x10000;
   0x20000; 0x40000; 0x80000; 0x100000;
   0x200000; 0x400000; 0x800000; 0x1000000;
   0x2000000; 0x4000000; 0x8000000; 0x10000000;
   0x20000000; 0x40000000; 0x80000000; 0x100000000;
   0x200000000; 0x400000000; 0x800000000; 0x1000000000;
   0x2000000000; 0x4000000000; 0x8000000000; 0x10000000000;
   0x20000000000; 0x40000000000; 0x80000000000; 0x100000000000;
   0x200000000000; 0x400000000000; 0x800000000000; 0x1000000000000;
   0x2000000000000; 0x4000000000000; 0x8000000000000; 0x10000000000000;
   0x20000000000000; 0x40000000000000; 0x80000000000000; 0x100000000000000;
   0x200000000000000; 0x400000000000000; 0x800000000000000; 0x1000000000000000;
   0x2000000000000000; 0x4000000000000000; 0x8000000000000000; 0x10000000000000000].
Lemma flag_constants_shifted : forallb (fun j : nat =>
  default 0 (INA_IPC_FLAGS !! j) =? 2 ^ Z.of_nat (if (j <? 3)%nat then j else S j)) (seq 0 INA_IPC_FLAGS_MAX) = true.
Proof. vm_compute. reflexivity. Qed.

(** [struct ina_ipc_flags_data_s]; the field [ka] is not used. *)
Record flags_data := Flags { f_name : string; l : Z; v : Z; c_ref : list Z }.
Definition set_l (x : Z) (d : flags_data) : flags_data := Flags (f_name d) x (v d) (c_ref d).
Definition set_v (x : Z) (d : flags_data) : flags_data := Flags (f_name d) (l d) x (c_ref d).
Definition set_c_ref (j : nat) (x : Z) (d : flags_data) : flags_data := Flags (f_name d) (l d) (v d) (<[j := x]> (c_ref d)).
Definition count (d : flags_data) (j : nat) : Z := default 0 (c_ref d !! j).

(** [INA_ATOMIC_SWAP]: what the cell held, and what it holds now. *)
Definition INA_ATOMIC_SWAP (cell old new : Z) : Z * Z := (cell, if cell =? old then new else cell).

(** The loop of [__INA_ENTER_LOCK] goes on while the swap finds zero; [fuel]
    bounds its rounds. *)
Fixpoint __INA_ENTER_LOCK (fuel : nat) (d : flags_data) : option flags_data :=
  match fuel with
  | O => None
  | S fuel =>
      let '(old, new) := INA_ATOMIC_SWAP (l d) 0 1 in
      if 0 =? old then __INA_ENTER_LOCK fuel (set_l new d) else Some (set_l new d)
  end.
Definition __INA_EXIT_LOCK (d : flags_data) : flags_data := set_l (snd (INA_ATOMIC_SWAP (l d) 1 0)) d.

Definition swap_v (new : Z) (d : flags_data) : flags_data := set_v (snd (INA_ATOMIC_SWAP (v d) (v d) new)) d.
Definition has_bit (value : Z) (j : nat) : bool := negb (Z.shiftr (Z.land value (shl 64 1 (Z.of_nat j))) (Z.of_nat j) =? 0).
Definition mask_of (j : nat) : Z := shl 64 1 (Z.of_nat j).
(** [~(mask)] of 64 bits *)
Definition not64 (x : Z) : Z := Z.lxor x (Z.ones 64).

(** The bodies of the loops over the flags, and the calls. *)
Definition set_turn (value : Z) (d : flags_data) (j : nat) : flags_data :=
  if has_bit value j then set_c_ref j (u32 (count d j + 1)) d else d.
Definition unset_turn (value : Z) (d : flags_data) (j : nat) : flags_data :=
  if has_bit value j then
    if 0 <? count d j then
      let d := set_c_ref j (count d j - 1) d in
      if count d j =? 0 then swap_v (Z.land (v d) (not64 (mask_of j))) d else d
    else d
  else d.
Definition clear_turn (value : Z) (d : flags_data) (j : nat) : flags_data :=
  if has_bit value j then set_c_ref j 0 (swap_v (Z.land (v d) (not64 (mask_of j))) d) else d.

Definition ina_ipc_flags_get (d : flags_data) : Z := v d.
Definition ina_ipc_flags_set (value : Z) (d : flags_data) : option flags_data :=
  d ← __INA_ENTER_LOCK 2 d;
  let d := swap_v (Z.lor (v d) value) d in
  Some (__INA_EXIT_LOCK (fold_left (set_turn value) (seq 0 INA_IPC_FLAGS_MAX) d)).
Definition ina_ipc_flags_is_set (d : flags_data) (value : Z) : bool := Z.land value (v d) =? value.
Definition ina_ipc_flags_unset (value : Z) (d : flags_data) : option flags_data :=
  d ← __INA_ENTER_LOCK 2 d;
  Some (__INA_EXIT_LOCK (fold_left (unset_turn value) (seq 0 INA_IPC_FLAGS_MAX) d)).
Definition ina_ipc_flags_clear (value : Z) (d : flags_data) : option flags_data :=
  d ← __INA_ENTER_LOCK 2 d;
  Some (__INA_EXIT_LOCK (fold_left (clear_turn value) (seq 0 INA_IPC_FLAGS_MAX) d)).

(** The lines of [ina_ipc_flags_dump]: for each flag whether it is on, and its count. *)
Definition ina_ipc_flags_dump (d : flags_data) : option (flags_data * list (bool * Z)) :=
  d ← __INA_ENTER_LOCK 2 d;
  Some (__INA_EXIT_LOCK d, map (fun j => (has_bit (v d) j, count d j)) (seq 0 INA_IPC_FLAGS_MAX)).

(** ** Counters *)
Definition ina_ipc_counter_get (c : Z) : Z := c.
Definition ina_ipc_counter_increment (value c : Z) : Z := snd (INA_ATOMIC_SWAP c c (c +₆₄ value)).
Definition ina_ipc_counter_decrement (value c : Z) : Z := snd (INA_ATOMIC_SWAP c c (c -₆₄ value)).
Definition ina_ipc_counter_set (value c : Z) : Z * result unit :=
  let w := c in
  if w =? value then (c, Ok tt)
  else
    let c := snd (INA_ATOMIC_SWAP c w value) in
    if w =? c then (c, Err INA_ERR_OPERATION_FAILED) else (c, Ok tt).

(** ** Segments

    The operating system keeps a segment until its last mapping is gone; a name
    leads to it until it is unlinked.  [refs] is the counter in front of the pool
    that the mappings share. *)
Record segment (A : Type) := Segment { refs : Z; data : A }.
Arguments Segment {A} _ _.
Arguments refs {A} _.
Arguments data {A} _.
Record shm (A : Type) := Shm { names : gmap string nat; segments : gmap nat (segment A) }.
Arguments Shm {A} _ _.
Arguments names {A} _.
Arguments segments {A} _.
(** A handle: its segment, its label, and whether it created the segment. *)
Record handle := Handle { h_seg : nat; h_label : string; h_excl : bool }.

Definition NAME_ERROR : Z := Z.lor (INA_ES S_HANDLE) INA_ERR_INVALID.
(** [n] is the segment the system gives; [zero] its content. *)
Definition shm_create {A : Type} (zero : A) (label : string) (n : nat) (w : shm A) : shm A * result handle :=
  match names w !! label with
  | Some _ => (w, Err NAME_ERROR)
  | None => (Shm (<[label := n]> (names w)) (<[n := Segment 1 zero]> (segments w)), Ok (Handle n label true))
  end.
Definition shm_attach {A : Type} (label : string) (w : shm A) : shm A * result handle :=
  match names w !! label with
  | Some n => (Shm (names w) (alter (fun s => Segment (refs s + 1) (data s)) n (segments w)), Ok (Handle n label false))
  | None => (w, Err NAME_ERROR)
  end.
Definition shm_release {A : Type} (h : handle) (w : shm A) : shm A :=
  match segments w !! h_seg h with
  | Some s =>
      let cn := refs s - 1 in
      Shm (if (cn =? 0) || h_excl h then delete (h_label h) (names w) else names w)
        (if cn =? 0 then delete (h_seg h) (segments w) else <[h_seg h := Segment cn (data s)]> (segments w))
  | None => w
  end.

Definition strlenZ (s : string) : Z := Z.of_nat (String.length s).
Definition flags_label (name : string) : string := ("/ina_ipc_flags_" ++ name)%string.
Definition counter_label (name : string) : string := ("/ina_ipc_counter_" ++ name)%string.
Definition zero_flags : flags_data := Flags "" 0 0 (replicate INA_IPC_FLAGS_MAX 0).
Definition named (name : string) (d : flags_data) : flags_data := Flags name (l d) (v d) (c_ref d).
Definition with_data {A : Type} (n : nat) (x : A) (w : shm A) : shm A :=
  Shm (names w) (alter (fun s => Segment (refs s) x) n (segments w)).

Definition ina_ipc_flags_new (name : string) (initial : Z) (n : nat) (w : shm flags_data) : shm flags_data * result handle :=
  if negb (strlenZ name <? INA_IPC_FLAGS_NAME_MAXLEN) then (w, Err INA_ERR_INVALID_ARGUMENT)
  else match shm_create zero_flags (flags_label name) n w with
  | (w, Ok h) =>
      let d := named name zero_flags in
      if negb (initial =? INA_IPC_FLAGS_IGNORE) then
        match ina_ipc_flags_set (u64 initial) d with
        | Some d => (with_data n d w, Ok h)
        | None => (shm_release h w, Err INA_ERR_OPERATION_FAILED)
        end
      else (with_data n d w, Ok h)
  | (w, Err x) => (w, Err x)
  end.
Definition ina_ipc_flags_open (name : string) (w : shm flags_data) : shm flags_data * result handle :=
  if negb (strlenZ name <? INA_IPC_FLAGS_NAME_MAXLEN) then (w, Err INA_ERR_INVALID_ARGUMENT)
  else shm_attach (flags_label name) w.
Definition ina_ipc_flags_free (h : handle) (w : shm flags_data) : shm flags_data := shm_release h w.
Definition ina_ipc_flags_get_name (d : flags_data) : string := f_name d.

Definition ina_ipc_counter_new (name : string) (initial : Z) (n : nat) (w : shm Z) : shm Z * result handle :=
  if (strlenZ name =? 0) || negb (strlenZ name <? INA_IPC_FLAGS_NAME_MAXLEN) then (w, Err INA_ERR_INVALID_ARGUMENT)
  else match shm_create 0 (counter_label name) n w with
  | (w, Ok h) =>
      match ina_ipc_counter_set initial 0 with
      | (c, Ok _) => (with_data n c w, Ok h)
      | (c, Err x) => (shm_release h w, Err x)
      end
  | (w, Err x) => (w, Err x)
  end.
Definition ina_ipc_counter_open (name : string) (w : shm Z) : shm Z * result handle :=
  if (strlenZ name =? 0) || negb (strlenZ name <? INA_IPC_FLAGS_NAME_MAXLEN) then (w, Err INA_ERR_INVALID_ARGUMENT)
  else shm_attach (counter_label name) w.
Definition ina_ipc_counter_free (h : handle) (w : shm Z) : shm Z := shm_release h w.

(** *** The life of a segment

    Processes create, attach, change and release segments of the system. *)
Definition with_handle (hs : list handle) (r : result handle) : list handle :=
  match r with Ok h => h :: hs | Err _ => hs end.
Inductive s_step {A : Type} (zero : A) : shm A * list handle -> shm A * list handle -> Prop :=
  | SCreate (w : shm A) (hs : list handle) (label : string) (n : nat) : segments w !! n = None ->
      s_step zero (w, hs) (fst (shm_create zero label n w), with_handle hs (snd (shm_create zero label n w)))
  | SAttach (w : shm A) (hs : list handle) (label : string) :
      s_step zero (w, hs) (fst (shm_attach label w), with_handle hs (snd (shm_attach label w)))
  | SChange (w : shm A) (hs : list handle) (n : nat) (x : A) : s_step zero (w, hs) (with_data n x w, hs)
  | SRelease (w : shm A) (hs hs' : list handle) (h : handle) : hs ≡ₚ h :: hs' -> s_step zero (w, hs) (shm_release h w, hs').

Definition holders (n : nat) (hs : list handle) : Z := Z.of_nat (length (filter (fun h => h_seg h = n) hs)).
Record held {A : Type} (w : shm A) (hs : list handle) : Prop := {
  held_refs : forall (n : nat) (s : segment A), segments w !! n = Some s -> refs s = holders n hs /\ 0 < refs s;
  held_segment : forall h : handle, h ∈ hs -> is_Some (segments w !! h_seg h);
  held_label : forall h h' : handle, h ∈ hs -> h' ∈ hs -> h_seg h = h_seg h' -> h_label h = h_label h';
  held_name : forall (label : string) (n : nat), names w !! label = Some n -> exists h : handle, h ∈ hs /\ h_seg h = n /\ h_label h = label
}.

Lemma holders_cons (n : nat) (h : handle) (hs : list handle) :
  holders n (h :: hs) = (if decide (h_seg h = n) then 1 else 0) + holders n hs.
Proof. unfold holders. rewrite filter_cons. destruct (decide (h_seg h = n)); cbn [length]; lia. Qed.
Lemma holders_pos (n : nat) (hs : list handle) : 0 < holders n hs -> exists h : handle, h ∈ hs /\ h_seg h = n.
Proof.
  unfold holders. destruct (filter (fun h => h_seg h = n) hs) as [|h l] eqn:Hf; cbn [length]; [lia|]. intros _. exists h.
  assert (h ∈ filter (fun h => h_seg h = n) hs) as Hin by (rewrite Hf; apply list_elem_of_here).
  apply list_elem_of_filter in Hin as [? ?]. done.
Qed.
Lemma holders_in (h : handle) (hs : list handle) : h ∈ hs -> 0 < holders (h_seg h) hs.
Proof.
  intros Hin. unfold holders. assert (h ∈ filter (fun h' => h_seg h' = h_seg h) hs) as Hf by (by apply list_elem_of_filter).
  destruct (filter _ hs); [by apply elem_of_nil in Hf|cbn [length]; lia].
Qed.

Lemma held_create {A : Type} (zero : A) (label : string) (n : nat) (w : shm A) (hs : list handle) : held w hs -> segments w !! n = None ->
  held (fst (shm_create zero label n w)) (with_handle hs (snd (shm_create zero label n w))).
Proof.
  intros [H1 H2 H3 H4] Hn. unfold shm_create. destruct (names w !! label) as [m|] eqn:Hl; [done|]. cbn [fst snd with_handle].
  assert (forall h : handle, h ∈ hs -> h_seg h <> n) as Hne.
  { intros h Hin Heq. destruct (H2 h Hin) as [s Hs]. congruence. }
  assert (holders n hs = 0) as Hz.
  { destruct (Z.eq_dec (holders n hs) 0) as [|Hx]; [done|]. destruct (holders_pos n hs) as (h & Hin & Heq); [unfold holders in *; lia|].
    by destruct (Hne h Hin). }
  constructor; cbn [segments names].
  - intros i s. rewrite holders_cons. cbn [h_seg]. destruct (decide (n = i)) as [<-|Hni].
    + rewrite lookup_insert_eq. intros [= <-]. cbn [refs]. lia.
    + rewrite lookup_insert_ne by done. intros Hs. destruct (H1 i s Hs). lia.
  - intros h Hin. apply elem_of_cons in Hin as [->|Hin]; cbn [h_seg]; [by rewrite lookup_insert_eq|].
    rewrite lookup_insert_ne; [by apply H2|]. intros Heq. by apply (Hne h Hin).
  - intros h h' Hin Hin' Heq. apply elem_of_cons in Hin as [->|Hin]; apply elem_of_cons in Hin' as [->|Hin']; cbn [h_seg] in *; try done.
    + by destruct (Hne h' Hin').
    + by destruct (Hne h Hin).
    + by apply H3.
  - intros l' i. destruct (decide (label = l')) as [<-|Hnl].
    + rewrite lookup_insert_eq. intros [= <-]. eexists. split; [apply list_elem_of_here|done].
    + rewrite lookup_insert_ne by done. intros Hl'. destruct (H4 l' i Hl') as (h & Hin & Hh). exists h. split; [by apply list_elem_of_further|done].
Qed.

Lemma held_attach {A : Type} (label : string) (w : shm A) (hs : list handle) : held w hs ->
  held (fst (shm_attach label w)) (with_handle hs (snd (shm_attach label w))).
Proof.
  intros [H1 H2 H3 H4]. unfold shm_attach. destruct (names w !! label) as [n|] eqn:Hl; [|done]. cbn [fst snd with_handle].
  destruct (H4 label n Hl) as (h0 & Hin0 & Hs0 & Hl0). constructor; cbn [segments names].
  - intros i s. rewrite holders_cons. cbn [h_seg]. destruct (decide (n = i)) as [<-|Hni].
    + rewrite lookup_alter_eq. intros Hs. apply fmap_Some in Hs as (s0 & Hs & ->). cbn [refs]. destruct (H1 n s0 Hs). lia.
    + rewrite lookup_alter_ne by done. intros Hs. destruct (H1 i s Hs). lia.
  - intros h Hin. assert (is_Some (segments w !! h_seg h)) as Hx.
    { apply elem_of_cons in Hin as [->|Hin]; [cbn; rewrite <- Hs0|]; by apply H2. }
    destruct (decide (n = h_seg h)) as [->|Hne]; [rewrite lookup_alter_eq; by apply fmap_is_Some|by rewrite lookup_alter_ne].
  - intros h h' Hin Hin' Heq. apply elem_of_cons in Hin as [->|Hin]; apply elem_of_cons in Hin' as [->|Hin']; cbn [h_seg h_label] in *; try done.
    + rewrite <- Hl0. apply H3; [done|done|congruence].
    + rewrite <- Hl0. apply H3; [done|done|congruence].
    + by apply H3.
  - intros l' i Hl'. destruct (H4 l' i Hl') as (h & Hin & Hh). exists h. split; [by apply list_elem_of_further|done].
Qed.

Lemma held_permute {A : Type} (w : shm A) (hs hs' : list handle) : hs ≡ₚ hs' -> held w hs -> held w hs'.
Proof.
  intros Hp [H1 H2 H3 H4]. constructor.
  - intros n s Hs. destruct (H1 n s Hs) as [Hr Hpos]. split; [|done]. rewrite Hr. unfold holders. by rewrite Hp.
  - intros h. rewrite <- Hp. apply H2.
  - intros h h'. rewrite <- Hp. apply H3.
  - intros label n Hl. destruct (H4 label n Hl) as (h & Hin & Hh). exists h. by rewrite <- Hp.
Qed.

Lemma held_release {A : Type} (h : handle) (w : shm A) (hs : list handle) : held w (h :: hs) -> held (shm_release h w) hs.
Proof.
  intros [H1 H2 H3 H4]. unfold shm_release. destruct (H2 h (list_elem_of_here _ _)) as [s Hs]. rewrite Hs.
  destruct (H1 _ s Hs) as [Hr Hpos]. rewrite holders_cons, decide_True in Hr by done.
  assert (forall (i : nat) (s' : segment A), i <> h_seg h -> segments w !! i = Some s' -> refs s' = holders i hs /\ 0 < refs s') as Hothers.
  { intros i s' Hne Hs'. destruct (H1 i s' Hs') as [Hx Hy]. rewrite holders_cons, decide_False in Hx by done. split; [lia|done]. }
  assert (forall h' : handle, h' ∈ hs -> h_seg h' = h_seg h -> refs s - 1 <> 0) as Hmore.
  { intros h' Hin Heq. pose proof (holders_in h' hs Hin) as Hp. rewrite Heq in Hp. lia. }
  constructor; cbn [segments names].
  - intros i s' Hi. destruct (decide (i = h_seg h)) as [->|Hne].
    + destruct (Z.eqb_spec (refs s - 1) 0); [by rewrite lookup_delete_eq in Hi|]. rewrite lookup_insert_eq in Hi.
      injection Hi as <-. cbn [refs]. lia.
    + apply Hothers; [done|]. destruct (refs s - 1 =? 0); [by rewrite lookup_delete_ne in Hi|by rewrite lookup_insert_ne in Hi].
  - intros h' Hin. destruct (decide (h_seg h' = h_seg h)) as [Heq|Hne].
    + rewrite Heq. rewrite (proj2 (Z.eqb_neq _ _)) by (by apply (Hmore h')). by rewrite lookup_insert_eq.
    + destruct (refs s - 1 =? 0); [rewrite lookup_delete_ne by done|rewrite lookup_insert_ne by done]; apply H2; by apply list_elem_of_further.
  - intros h1 h2 Hin1 Hin2. apply H3; by apply list_elem_of_further.
  - intros label n Hl.
    assert (names w !! label = Some n /\ ((refs s - 1 =? 0) || h_excl h = true -> label <> h_label h)) as [Hw Hkept].
    { destruct ((refs s - 1 =? 0) || h_excl h); [|done]. apply lookup_delete_Some in Hl as [Hx ?]. split; [done|]. intros _ ->. done. }
    destruct (H4 label n Hw) as (h' & Hin & Hseg & Hlab). apply elem_of_cons in Hin as [->|Hin]; [|by exists h'].
    destruct (Z.eqb_spec (refs s - 1) 0) as [Hz|Hz]; [by destruct (Hkept eq_refl)|].
    destruct (holders_pos (h_seg h) hs) as (h' & Hin & Heq); [lia|]. exists h'. split; [done|]. split; [congruence|].
    rewrite <- Hlab. apply H3; [by apply list_elem_of_further|apply list_elem_of_here|done].
Qed.

Lemma held_step {A : Type} (zero : A) (w w' : shm A) (hs hs' : list handle) :
  s_step zero (w, hs) (w', hs') -> held w hs -> held w' hs'.
Proof.
  intros Hs Hh. inversion Hs; subst.
  - by apply held_create.
  - by apply held_attach.
  - destruct Hh as [H1 H2 H3 H4]. constructor; [| |done|done]; cbn [with_data segments].
    + intros i s. rewrite lookup_alter_Some. intros [(-> & s0 & Hs0 & ->)|[Hne Hs0]]; apply (H1 _ _ Hs0).
    + intros h Hin. rewrite lookup_alter. destruct (decide (n = h_seg h)) as [->|]; [apply fmap_is_Some|]; by apply H2.
  - apply held_release. by apply (held_permute w hs).
Qed.

(** C13. A segment lives as long as it is held.  Whatever processes create, attach,
    change and release, from a system without segments: every handle that is not
    released leads to its segment, whose counter is the number of its handles; a
    segment that nobody holds is gone; and a name leads to a segment that someone
    holds under that name. *)
Theorem segments_live_with_handles {A : Type} (zero : A) (w : shm A) (hs : list handle) :
  rtc (s_step zero) (Shm ∅ ∅, []) (w, hs) ->
  (forall h : handle, h ∈ hs -> exists s : segment A, segments w !! h_seg h = Some s /\ refs s = holders (h_seg h) hs) /\
  (forall n : nat, is_Some (segments w !! n) <-> exists h : handle, h ∈ hs /\ h_seg h = n) /\
  (forall (label : string) (n : nat), names w !! label = Some n -> exists h : handle, h ∈ hs /\ h_seg h = n /\ h_label h = label).
Proof.
  intros Hr. assert (held w hs) as [H1 H2 H3 H4].
  { apply (rtc_ind_r (fun x => held x.1 x.2) (Shm ∅ ∅, [])) in Hr; [done| |].
    - constructor; cbn; [intros n s Hx; by rewrite lookup_empty in Hx|by intros h ?%elem_of_nil|by intros h h' ?%elem_of_nil|].
      intros label n Hx. by rewrite lookup_empty in Hx.
    - intros [w1 hs1] [w2 hs2] _ Hs Hh. by apply (held_step zero w1 w2 hs1 hs2). }
  split; [|split; [|exact H4]].
  - intros h Hin. destruct (H2 h Hin) as [s Hs]. exists s. split; [done|]. by apply H1.
  - intros n. split.
    + intros [s Hs]. destruct (H1 n s Hs) as [Hx Hy]. apply holders_pos. by rewrite <- Hx.
    + intros (h & Hin & <-). by apply H2.
Qed.

(** The creator's release takes the name away from those who still use the
    segment, so that the next one who opens the flags cannot, and one who creates
    them gets other flags; and the last release of the old flags takes the name of
    the new ones away. *)
Definition two_holders : shm flags_data * list handle :=
  let '(w, a) := ina_ipc_flags_new "f" 1 0 (Shm ∅ ∅) in
  let '(w, b) := ina_ipc_flags_open "f" w in
  (w, with_handle (with_handle [] a) b).
Definition creator_left : shm flags_data := ina_ipc_flags_free (Handle 0 "/ina_ipc_flags_f" true) (fst two_holders).
Definition second_flags : shm flags_data := fst (ina_ipc_flags_new "f" 0 1 creator_left).
Lemma names_are_lost :
  snd two_holders = [Handle 0 "/ina_ipc_flags_f" false; Handle 0 "/ina_ipc_flags_f" true] /\
  snd (ina_ipc_flags_open "f" creator_left) = Err NAME_ERROR /\
  snd (ina_ipc_flags_new "f" 0 1 creator_left) = Ok (Handle 1 "/ina_ipc_flags_f" true) /\
  snd (ina_ipc_flags_open "f" (ina_ipc_flags_free (Handle 0 "/ina_ipc_flags_f" false) second_flags)) = Err NAME_ERROR.
Proof. vm_compute. done. Qed.
Lemma segments_live_with_handles_witness :
  exists (w : shm Z) (hs : list handle), rtc (s_step 0) (Shm ∅ ∅, []) (w, hs) /\ length hs = 1%nat /\
    (forall h : handle, h ∈ hs -> exists s : segment Z, segments w !! h_seg h = Some s /\ refs s = holders (h_seg h) hs).
Proof.
  assert (exists (w : shm Z) (hs : list handle), rtc (s_step 0) (Shm ∅ ∅, []) (w, hs) /\ length hs = 1%nat) as (w & hs & Hr & Hl).
  { eexists _, _. split.
    - eapply rtc_l; [apply (SCreate 0 (Shm ∅ ∅) [] "c" 0); done|]. eapply rtc_l; [apply (SAttach 0 _ _ "c")|].
      eapply rtc_l; [apply (SRelease 0 _ _ [Handle 0 "c" true] (Handle 0 "c" false)); done|]. apply rtc_refl.
    - done. }
  exists w, hs. split; [done|]. split; [done|]. apply (segments_live_with_handles 0 w hs Hr).
Defined.

(** ** Reference counts

    Between calls the lock is free, and a flag is set in the word exactly if its
    count is not zero. *)
Definition flags_ok (d : flags_data) : Prop :=
  length (c_ref d) = INA_IPC_FLAGS_MAX /\ in_width 64 (v d) /\
  (forall j : nat, (j < INA_IPC_FLAGS_MAX)%nat -> 0 <= count d j < 2 ^ 32).
Definition counted (d : flags_data) : Prop :=
  forall j : nat, (j < INA_IPC_FLAGS_MAX)%nat -> Z.testbit (v d) (Z.of_nat j) = (0 <? count d j).

Lemma mask_of_pow (j : nat) : (j < INA_IPC_FLAGS_MAX)%nat -> mask_of j = 2 ^ Z.of_nat j.
Proof. unfold INA_IPC_FLAGS_MAX. intros Hj. apply shl_1. lia. Qed.

Lemma has_bit_testbit (value : Z) (j : nat) : (j < INA_IPC_FLAGS_MAX)%nat -> has_bit value j = Z.testbit value (Z.of_nat j).
Proof.
  intros Hj. unfold has_bit. fold (mask_of j). rewrite mask_of_pow by done.
  assert (Z.testbit (Z.shiftr (Z.land value (2 ^ Z.of_nat j)) (Z.of_nat j)) 0 = Z.testbit value (Z.of_nat j)) as Hb.
  { autorewrite with bits. rewrite Z.add_0_l, Z.eqb_refl. apply andb_true_r. }
  destruct (Z.eqb_spec (Z.shiftr (Z.land value (2 ^ Z.of_nat j)) (Z.of_nat j)) 0) as [H0|H0]; cbn [negb].
  - by rewrite <- Hb, H0, Z.bits_0.
  - destruct (Z.testbit value (Z.of_nat j)) eqn:Hv; [done|]. destruct H0. apply Z_bits_ext. intros i Hi.
    autorewrite with bits. destruct (Z.eqb_spec (i + Z.of_nat j) (Z.of_nat j)) as [He|He]; [|apply andb_false_r].
    rewrite He, Hv. done.
Qed.

Lemma clear_mask_testbit (x : Z) (j i : nat) : in_width 64 x -> (j < INA_IPC_FLAGS_MAX)%nat -> (i < INA_IPC_FLAGS_MAX)%nat ->
  Z.testbit (Z.land x (not64 (mask_of j))) (Z.of_nat i) = (if decide (i = j) then false else Z.testbit x (Z.of_nat i)).
Proof.
  intros Hx Hj Hi. unfold not64. rewrite mask_of_pow by done. unfold INA_IPC_FLAGS_MAX in *. autorewrite with bits.
  destruct (Z.ltb_spec (Z.of_nat i) 64); [|lia]. destruct (Z.eqb_spec (Z.of_nat i) (Z.of_nat j)); case_decide; try lia; cbn.
  - apply andb_false_r.
  - apply andb_true_r.
Qed.

Lemma count_set (d : flags_data) (i j : nat) (x : Z) : length (c_ref d) = INA_IPC_FLAGS_MAX -> (j < INA_IPC_FLAGS_MAX)%nat ->
  count (set_c_ref j x d) i = if decide (i = j) then x else count d i.
Proof.
  intros Hl Hj. unfold count, set_c_ref. cbn [c_ref]. case_decide as Hd; [subst; by rewrite list_lookup_insert_eq by lia|].
  by rewrite list_lookup_insert_ne by done.
Qed.

Lemma swap_v_eq (x : Z) (d : flags_data) : swap_v x d = set_v x d.
Proof. unfold swap_v, INA_ATOMIC_SWAP. by rewrite Z.eqb_refl. Qed.

(** What a turn of a loop does to its flag: [cu] to the count, [vu] to the bit. *)
Definition turn_ok (turn : flags_data -> nat -> flags_data) (cu : nat -> Z -> Z) (vu : nat -> bool -> Z -> bool) (bound : Z) : Prop :=
  forall (d : flags_data) (j : nat), flags_ok d -> (j < INA_IPC_FLAGS_MAX)%nat -> count d j <= bound ->
    flags_ok (turn d j) /\ l (turn d j) = l d /\ f_name (turn d j) = f_name d /\
    forall i : nat, (i < INA_IPC_FLAGS_MAX)%nat ->
      count (turn d j) i = (if decide (i = j) then cu j (count d j) else count d i) /\
      Z.testbit (v (turn d j)) (Z.of_nat i) =
        (if decide (i = j) then vu j (Z.testbit (v d) (Z.of_nat j)) (count d j) else Z.testbit (v d) (Z.of_nat i)).

Lemma turns_spec (turn : flags_data -> nat -> flags_data) (cu : nat -> Z -> Z) (vu : nat -> bool -> Z -> bool) (bound : Z)
    (js : list nat) (d : flags_data) :
  turn_ok turn cu vu bound -> NoDup js -> Forall (fun j => (j < INA_IPC_FLAGS_MAX)%nat) js -> flags_ok d ->
  (forall j : nat, j ∈ js -> count d j <= bound) ->
  let d' := fold_left turn js d in
  flags_ok d' /\ l d' = l d /\ f_name d' = f_name d /\
  forall i : nat, (i < INA_IPC_FLAGS_MAX)%nat ->
    count d' i = (if decide (i ∈ js) then cu i (count d i) else count d i) /\
    Z.testbit (v d') (Z.of_nat i) =
      (if decide (i ∈ js) then vu i (Z.testbit (v d) (Z.of_nat i)) (count d i) else Z.testbit (v d) (Z.of_nat i)).
Proof.
  intros Ht. cbn zeta. revert d. induction js as [|j js IH]; intros d Hnd Hall Hok Hb; cbn [fold_left].
  { do 3 (split; [done|]). intros i Hi. by rewrite !decide_False by (by intros ?%elem_of_nil). }
  apply NoDup_cons in Hnd as [Hj Hnd]. apply Forall_cons in Hall as [Hjm Hall].
  destruct (Ht d j Hok Hjm (Hb j (list_elem_of_here _ _))) as (Hok1 & Hl1 & Hn1 & Hv1).
  destruct (IH (turn d j) Hnd Hall Hok1) as (Hok2 & Hl2 & Hn2 & Hv2).
  { intros k Hk. destruct (Hv1 k) as [-> _]; [by apply (proj1 (Forall_forall _ _) Hall)|].
    rewrite decide_False by (intros ->; done). apply Hb. by apply list_elem_of_further. }
  split; [done|]. split; [congruence|]. split; [congruence|]. intros i Hi.
  destruct (Hv1 i Hi) as [E1 E2]. destruct (Hv2 i Hi) as [-> ->]. rewrite E1, E2. destruct (decide (i = j)) as [->|Hne].
  - rewrite !(decide_False _ _ Hj). rewrite !(decide_True _ _ (list_elem_of_here _ _)). done.
  - destruct (decide (i ∈ js)) as [Hin|Hin].
    + rewrite !(decide_True _ _ (list_elem_of_further _ _ _ Hin)). done.
    + rewrite !decide_False by set_solver. done.
Qed.

Lemma set_turn_ok (value : Z) : turn_ok (set_turn value)
  (fun j c => if Z.testbit value (Z.of_nat j) then c + 1 else c) (fun _ b _ => b) (2 ^ 32 - 2).
Proof.
  intros d j (Hl & Hv & Hc) Hj Hb. unfold set_turn. rewrite has_bit_testbit by done.
  destruct (Z.testbit value (Z.of_nat j)).
  - assert (u32 (count d j + 1) = count d j + 1) as -> by (apply wrap_small; specialize (Hc j Hj); unfold in_width; lia).
    split; [|do 2 (split; [done|])].
    + split; [unfold set_c_ref; cbn; by rewrite length_insert|]. split; [done|]. intros i Hi. rewrite count_set by done.
      specialize (Hc i Hi) as Hci. specialize (Hc j Hj). case_decide; lia.
    + intros i Hi. rewrite count_set by done. split; [done|]. by case_decide; subst.
  - split; [done|]. do 2 (split; [done|]). intros i Hi. split; by case_decide; subst.
Qed.

Lemma clear_flag_ok (d : flags_data) (j : nat) (x : Z) : flags_ok d -> (j < INA_IPC_FLAGS_MAX)%nat -> 0 <= x < 2 ^ 32 ->
  let d' := set_c_ref j x (set_v (Z.land (v d) (not64 (mask_of j))) d) in
  flags_ok d' /\ l d' = l d /\ f_name d' = f_name d /\
  forall i : nat, (i < INA_IPC_FLAGS_MAX)%nat ->
    count d' i = (if decide (i = j) then x else count d i) /\
    Z.testbit (v d') (Z.of_nat i) = (if decide (i = j) then false else Z.testbit (v d) (Z.of_nat i)).
Proof.
  intros (Hl & Hv & Hc) Hj Hx. cbn zeta. split; [|do 2 (split; [done|])].
  - split; [unfold set_c_ref; cbn; by rewrite length_insert|]. split; [by apply land_in_width_l|].
    intros i Hi. rewrite count_set by done. specialize (Hc i Hi). case_decide; [done|exact Hc].
  - intros i Hi. rewrite count_set by done. split; [done|]. by apply clear_mask_testbit.
Qed.

Lemma unset_turn_ok (value : Z) (bound : Z) : turn_ok (unset_turn value)
  (fun j c => if Z.testbit value (Z.of_nat j) && (0 <? c) then c - 1 else c)
  (fun j b c => if Z.testbit value (Z.of_nat j) && (c =? 1) then false else b) bound.
Proof.
  intros d j Hok Hj _. pose proof Hok as (Hl & Hv & Hc). unfold unset_turn. rewrite has_bit_testbit by done.
  destruct (Z.testbit value (Z.of_nat j)); cbn [andb]; [|split; [done|]; do 2 (split; [done|]); intros i Hi; split; by case_decide; subst].
  pose proof (Hc j Hj) as Hcj. destruct (Z.ltb_spec 0 (count d j)) as [Hp|Hz].
  2:{ split; [done|]. do 2 (split; [done|]). intros i Hi. split; [by case_decide; subst|]. case_decide; [subst|done].
      by rewrite (proj2 (Z.eqb_neq (count d j) 1)) by lia. }
  assert (count (set_c_ref j (count d j - 1) d) j = count d j - 1) as Hcnt by (by rewrite count_set, decide_True).
  rewrite Hcnt. change (v (set_c_ref j (count d j - 1) d)) with (v d). rewrite swap_v_eq.
  destruct (Z.eqb_spec (count d j - 1) 0) as [H0|H0].
  - assert (count d j = 1) as H1 by lia. rewrite H1, Z.eqb_refl.
    destruct (clear_flag_ok d j (1 - 1) Hok Hj ltac:(lia)) as (G1 & G2 & G3 & G4).
    change (set_v (Z.land (v d) (not64 (mask_of j))) (set_c_ref j (1 - 1) d)) with
      (set_c_ref j (1 - 1) (set_v (Z.land (v d) (not64 (mask_of j))) d)).
    split; [exact G1|]. split; [done|]. split; [done|]. exact G4.
  - rewrite (proj2 (Z.eqb_neq (count d j) 1)) by lia. split; [|do 2 (split; [done|])].
    + split; [unfold set_c_ref; cbn; by rewrite length_insert|]. split; [done|]. intros i Hi. rewrite count_set by done.
      specialize (Hc i Hi). case_decide; lia.
    + intros i Hi. rewrite count_set by done. split; [done|]. by case_decide; subst.
Qed.

Lemma clear_turn_ok (value : Z) (bound : Z) : turn_ok (clear_turn value)
  (fun j c => if Z.testbit value (Z.of_nat j) then 0 else c)
  (fun j b _ => if Z.testbit value (Z.of_nat j) then false else b) bound.
Proof.
  intros d j Hok Hj _. unfold clear_turn. rewrite has_bit_testbit by done. rewrite swap_v_eq.
  destruct (Z.testbit value (Z.of_nat j)); [by apply clear_flag_ok|].
  split; [done|]. do 2 (split; [done|]). intros i Hi. split; by case_decide; subst.
Qed.

(** *** The calls *)
Lemma enter_free (d : flags_data) : l d = 0 -> __INA_ENTER_LOCK 2 d = Some (set_l 1 d).
Proof. intros Hl. cbn [__INA_ENTER_LOCK]. rewrite Hl. done. Qed.
Lemma exit_held (d : flags_data) : l d = 1 -> __INA_EXIT_LOCK d = set_l 0 d.
Proof. intros Hl. unfold __INA_EXIT_LOCK. by rewrite Hl. Qed.

Definition all_flags : list nat := seq 0 INA_IPC_FLAGS_MAX.
Lemma elem_all_flags (j : nat) : j ∈ all_flags <-> (j < INA_IPC_FLAGS_MAX)%nat.
Proof. unfold all_flags. rewrite elem_of_seq. lia. Qed.

(** The state between calls: its counts, and what the word has to be for them. *)
Record idle (k : Z) (d : flags_data) : Prop := {
  i_ok : flags_ok d; i_counted : counted d; i_free : l d = 0;
  i_bound : forall j : nat, (j < INA_IPC_FLAGS_MAX)%nat -> count d j <= k
}.

Lemma call_spec (turn : flags_data -> nat -> flags_data) (cu : nat -> Z -> Z) (vu : nat -> bool -> Z -> bool) (bound k k' : Z) (w : Z) (d : flags_data) :
  turn_ok turn cu vu bound -> idle k d -> k <= bound -> in_width 64 w ->
  (forall (j : nat) (c : Z), (j < INA_IPC_FLAGS_MAX)%nat -> 0 <= c <= k -> 0 <= cu j c <= k' /\
     (Z.testbit (v d) (Z.of_nat j) = (0 <? c) -> vu j (Z.testbit w (Z.of_nat j)) c = (0 <? cu j c))) ->
  let d' := __INA_EXIT_LOCK (fold_left turn all_flags (set_v w (set_l 1 d))) in
  idle k' d' /\ f_name d' = f_name d /\ c_ref d' = imap cu (c_ref d).
Proof.
  intros Ht [Hok Hcd Hl Hb] Hk Hw Hu. cbn zeta. destruct Hok as (Hlen & Hv & Hc).
  destruct (turns_spec turn cu vu bound all_flags (set_v w (set_l 1 d)) Ht) as (Hok1 & Hl1 & Hn1 & Hv1).
  - apply NoDup_seq.
  - apply Forall_forall. intros j Hj. by apply elem_all_flags.
  - split; [done|]. split; [done|]. exact Hc.
  - intros j Hj. apply elem_all_flags in Hj. specialize (Hb j Hj). change (count (set_v w (set_l 1 d)) j) with (count d j). lia.
  - set (d1 := fold_left turn all_flags (set_v w (set_l 1 d))) in *. rewrite exit_held by done.
    assert (forall i : nat, (i < INA_IPC_FLAGS_MAX)%nat -> count d1 i = cu i (count d i) /\
      Z.testbit (v d1) (Z.of_nat i) = vu i (Z.testbit w (Z.of_nat i)) (count d i)) as Hpt.
    { intros i Hi. destruct (Hv1 i Hi) as [-> ->]. rewrite !decide_True by (by apply elem_all_flags). done. }
    assert (forall i : nat, (i < INA_IPC_FLAGS_MAX)%nat -> 0 <= count d i <= k) as Hcb.
    { intros i Hi. specialize (Hc i Hi). specialize (Hb i Hi). lia. }
    split; [constructor|split; [done|]].
    + exact Hok1.
    + intros j Hj. destruct (Hpt j Hj) as [E1 E2]. change (Z.testbit (v d1) (Z.of_nat j) = (0 <? count d1 j)). rewrite E1, E2.
      apply (Hu j); [done|by apply Hcb|by apply Hcd].
    + done.
    + intros j Hj. destruct (Hpt j Hj) as [E1 _]. change (count d1 j <= k'). rewrite E1. by apply (Hu j); [done|apply Hcb].
    + change (c_ref d1 = imap cu (c_ref d)). destruct Hok1 as (Hlen1 & _). apply list_eq. intros i. rewrite list_lookup_imap.
      destruct (decide (i < INA_IPC_FLAGS_MAX)%nat) as [Hi|Hi].
      * destruct (Hpt i Hi) as [E1 _]. unfold count in E1.
        destruct (lookup_lt_is_Some_2 (c_ref d1) i ltac:(lia)) as [x Hx]. destruct (lookup_lt_is_Some_2 (c_ref d) i ltac:(lia)) as [y Hy].
        rewrite Hx, Hy in *. cbn in *. by rewrite E1.
      * rewrite !lookup_ge_None_2 by lia. done.
Qed.

(** Counting sets: what each call does to the number of times a flag is set. *)
Inductive f_op := FSet (value : Z) | FUnset (value : Z) | FClear (value : Z) | FGet | FIsSet (value : Z).
Inductive f_reply := RDone | RWord (w : Z) | RFlag (b : bool).
Definition counts_after (o : f_op) (cs : list Z) : list Z :=
  match o with
  | FSet x => imap (fun j c => if Z.testbit x (Z.of_nat j) then c + 1 else c) cs
  | FUnset x => imap (fun j c => if Z.testbit x (Z.of_nat j) && (0 <? c) then c - 1 else c) cs
  | FClear x => imap (fun j c => if Z.testbit x (Z.of_nat j) then 0 else c) cs
  | FGet | FIsSet _ => cs
  end.
Definition is_on (cs : list Z) (j : nat) : Prop := exists c : Z, cs !! j = Some c /\ 0 < c.
Definition answers (cs : list Z) (o : f_op) (r : f_reply) : Prop :=
  match o, r with
  | FSet _, RDone | FUnset _, RDone | FClear _, RDone => True
  | FGet, RWord w => in_width 64 w /\ forall j : nat, (j < INA_IPC_FLAGS_MAX)%nat -> (Z.testbit w (Z.of_nat j) = true <-> is_on cs j)
  | FIsSet x, RFlag b => b = true <-> (forall j : nat, (j < INA_IPC_FLAGS_MAX)%nat -> Z.testbit x (Z.of_nat j) = true -> is_on cs j)
  | _, _ => False
  end.

Definition f_exec (o : f_op) (d : flags_data) : option (f_reply * flags_data) :=
  match o with
  | FSet x => d ← ina_ipc_flags_set x d; Some (RDone, d)
  | FUnset x => d ← ina_ipc_flags_unset x d; Some (RDone, d)
  | FClear x => d ← ina_ipc_flags_clear x d; Some (RDone, d)
  | FGet => Some (RWord (ina_ipc_flags_get d), d)
  | FIsSet x => Some (RFlag (ina_ipc_flags_is_set d x), d)
  end.
Fixpoint f_run (ops : list f_op) (d : flags_data) : option (list f_reply * flags_data) :=
  match ops with
  | [] => Some ([], d)
  | o :: ops => '(r, d) ← f_exec o d; '(rs, d) ← f_run ops d; Some (r :: rs, d)
  end.
Fixpoint f_answers (cs : list Z) (ops : list f_op) (rs : list f_reply) : Prop :=
  match ops, rs with
  | [], [] => True
  | o :: ops, r :: rs => answers cs o r /\ f_answers (counts_after o cs) ops rs
  | _, _ => False
  end.
Definition word_ok (o : f_op) : Prop :=
  match o with FSet x | FUnset x | FClear x | FIsSet x => in_width 64 x | FGet => True end.

Lemma on_count (k : Z) (d : flags_data) (j : nat) : idle k d -> (j < INA_IPC_FLAGS_MAX)%nat ->
  (Z.testbit (v d) (Z.of_nat j) = true <-> is_on (c_ref d) j).
Proof.
  intros [(Hl & _ & _) Hcd _ _] Hj. rewrite Hcd by done. unfold count, is_on.
  destruct (lookup_lt_is_Some_2 (c_ref d) j ltac:(lia)) as [x Hx]. rewrite Hx. cbn. rewrite Z.ltb_lt. split.
  - intros Hp. by exists x.
  - by intros (c & [= <-] & Hp).
Qed.

Lemma swap_locked (x : Z) (d : flags_data) : swap_v x (set_l 1 d) = set_v x (set_l 1 d).
Proof. apply swap_v_eq. Qed.

Lemma f_exec_spec (o : f_op) (d : flags_data) (k : Z) : idle k d -> 0 <= k < 2 ^ 32 - 1 -> word_ok o ->
  exists (r : f_reply) (d' : flags_data), f_exec o d = Some (r, d') /\ idle (k + 1) d' /\ f_name d' = f_name d /\
    c_ref d' = counts_after o (c_ref d) /\ answers (c_ref d) o r.
Proof.
  intros Hi Hk Ho. pose proof Hi as [Hok Hcd Hfree Hb].
  assert (set_l 1 d = set_v (v d) (set_l 1 d)) as Heta by done.
  assert (idle (k + 1) d) as Hi' by (constructor; try done; intros j Hj; specialize (Hb j Hj); lia).
  destruct o as [x|x|x| |x]; cbn [f_exec word_ok counts_after answers] in *.
  - unfold ina_ipc_flags_set. rewrite enter_free by done. cbn [mbind option_bind]. rewrite swap_locked.
    change (v (set_l 1 d)) with (v d). eexists RDone, _. split; [reflexivity|].
    destruct (call_spec (set_turn x) _ _ (2 ^ 32 - 2) k (k + 1) (Z.lor (v d) x) d (set_turn_ok x) Hi) as (G1 & G2 & G3);
      [lia|apply lor_in_width; [done|apply Hok|done]| |do 3 (split; [done|]); done].
    intros j c Hj Hc. rewrite Z.lor_spec. destruct (Z.testbit x (Z.of_nat j)); [split; [lia|]|split; [lia|]].
    + intros _. rewrite orb_true_r. symmetry. apply Z.ltb_lt. lia.
    + intros ->. apply orb_false_r.
  - unfold ina_ipc_flags_unset. rewrite enter_free by done. cbn [mbind option_bind]. rewrite Heta.
    eexists RDone, _. split; [reflexivity|].
    destruct (call_spec (unset_turn x) _ _ k k (k + 1) (v d) d (unset_turn_ok x k) Hi) as (G1 & G2 & G3);
      [lia|apply Hok| |do 3 (split; [done|]); done].
    intros j c Hj Hc. destruct (Z.testbit x (Z.of_nat j)); cbn [andb]; [|split; [lia|by intros ->]].
    destruct (Z.ltb_spec 0 c); [|split; [lia|]]; [split; [lia|]|].
    + intros ->. destruct (Z.eqb_spec c 1); [subst; done|]. symmetry. apply Z.ltb_lt. lia.
    + intros ->. destruct (Z.eqb_spec c 1); [lia|]. symmetry. apply Z.ltb_ge. lia.
  - unfold ina_ipc_flags_clear. rewrite enter_free by done. cbn [mbind option_bind]. rewrite Heta.
    eexists RDone, _. split; [reflexivity|].
    destruct (call_spec (clear_turn x) _ _ k k (k + 1) (v d) d (clear_turn_ok x k) Hi) as (G1 & G2 & G3);
      [lia|apply Hok| |do 3 (split; [done|]); done].
    intros j c Hj Hc. destruct (Z.testbit x (Z.of_nat j)); split; [lia|done|lia|by intros ->].
  - eexists _, d. split; [reflexivity|]. do 3 (split; [done|]). split; [apply Hok|]. intros j Hj. by apply (on_count k).
  - eexists _, d. split; [reflexivity|]. do 3 (split; [done|]). unfold ina_ipc_flags_is_set. rewrite Z.eqb_eq. split.
    + intros He j Hj Hx. apply (on_count k); [done|done|]. rewrite <- He, Z.land_spec in Hx. by apply andb_prop in Hx as [_ Hx].
    + intros Hall. apply Z_bits_ext. intros i Hi0. rewrite Z.land_spec. destruct (Z.testbit x i) eqn:Hx; [|done]. cbn [andb].
      destruct (decide (i < 64)) as [Hlt|Hge]; [|by rewrite (in_width_high_bits 64) in Hx by (done || lia)].
      rewrite <- (Z2Nat.id i) in Hx |- * by done. apply (on_count k); [done| |apply Hall; [|done]]; unfold INA_IPC_FLAGS_MAX; lia.
Qed.

Lemma idle_zero (name : string) : idle 0 (named name zero_flags).
Proof.
  assert (forall j : nat, (j < INA_IPC_FLAGS_MAX)%nat -> count (named name zero_flags) j = 0) as Hc.
  { intros j Hj. unfold count, named, zero_flags. cbn [c_ref]. rewrite lookup_replicate_2 by done. done. }
  constructor; [|intros j Hj; rewrite Hc by done; apply Z.bits_0|done|intros j Hj; rewrite Hc by done; lia].
  split; [done|]. split; [done|]. intros j Hj. rewrite Hc by done. lia.
Qed.

Lemma f_run_spec (ops : list f_op) (d : flags_data) (k : Z) : idle k d -> 0 <= k -> k + Z.of_nat (length ops) < 2 ^ 32 ->
  Forall word_ok ops ->
  exists (rs : list f_reply) (d' : flags_data), f_run ops d = Some (rs, d') /\ f_answers (c_ref d) ops rs /\
    flags_ok d' /\ counted d' /\ l d' = 0 /\ f_name d' = f_name d /\ c_ref d' = fold_left (fun cs o => counts_after o cs) ops (c_ref d).
Proof.
  intros Hi Hk Hlen Hall. revert d k Hi Hk Hlen. induction Hall as [|o ops Ho Hall IH]; intros d k Hi Hk Hlen; cbn [f_run f_answers fold_left].
  { exists [], d. destruct Hi. repeat (split; [done|]). done. }
  cbn [length] in Hlen. destruct (f_exec_spec o d k Hi ltac:(lia) Ho) as (r & d1 & He & Hi1 & Hn1 & Hc1 & Ha1).
  destruct (IH d1 (k + 1) Hi1 ltac:(lia) ltac:(lia)) as (rs & d2 & Hr & Hans & H1 & H2 & H3 & H4 & H5).
  exists (r :: rs), d2. rewrite He. cbn [mbind option_bind]. rewrite Hr. cbn [mbind option_bind]. rewrite <- Hc1.
  repeat (split; [done|]). split; [congruence|done].
Qed.

(** C9. Flags are reference counted.  Whatever one process does with new flags, a
    flag is on exactly if it was set more often than it was unset since it was
    last cleared, unsetting a flag that is off changing nothing: reading the word
    gives exactly the flags that are on, and a test succeeds exactly if all the
    flags it names are on.  No call waits for ever, and no count overflows before
    [2^32] calls. *)
Theorem flags_count_references (name : string) (ops : list f_op) :
  Z.of_nat (length ops) < 2 ^ 32 -> Forall word_ok ops ->
  exists (rs : list f_reply) (d : flags_data),
    f_run ops (named name zero_flags) = Some (rs, d) /\ f_answers (c_ref zero_flags) ops rs /\
    flags_ok d /\ counted d /\ l d = 0 /\ f_name d = name /\ c_ref d = fold_left (fun cs o => counts_after o cs) ops (c_ref zero_flags).
Proof.
  intros Hlen Hall. destruct (f_run_spec ops (named name zero_flags) 0 (idle_zero name)) as (rs & d & H1 & H2 & H3 & H4 & H5 & H6 & H7);
    [done|done|done|]. by exists rs, d.
Qed.

Definition some_calls : list f_op := [FSet 7; FSet 5; FUnset 1; FGet; FUnset 1; FGet; FIsSet 6; FClear 4; FIsSet 6; FGet].
Lemma some_calls_ok : Forall word_ok some_calls.
Proof. unfold some_calls. repeat (apply Forall_cons; split; [by split|]). apply Forall_nil_2. Qed.
Lemma flags_count_references_witness :
  exists (rs : list f_reply) (d : flags_data), f_run some_calls (named "f" zero_flags) = Some (rs, d) /\ counted d.
Proof.
  destruct (flags_count_references "f" some_calls (eq_refl : Z.of_nat (length some_calls) < 2 ^ 32) some_calls_ok)
    as (rs & d & H1 & _ & _ & H2 & _).
  exists rs, d. exact (conj H1 H2).
Defined.
Lemma some_calls_run : fst <$> f_run some_calls (named "f" zero_flags) =
  Some [RDone; RDone; RDone; RWord 7; RDone; RWord 6; RFlag true; RDone; RFlag false; RWord 2].
Proof. vm_compute. reflexivity. Qed.

(** ** Calls in parallel

    A thread is where a call is: before the lock, before an access to the word or
    to a count, before releasing the lock.  The arguments of a swap are read one
    after the other before it. *)
Inductive pc :=
  | Enter (o : f_op) | Turn (o : f_op) (j : nat)
  | ReadV (o : f_op) (j : nat) | ReadV2 (o : f_op) (j : nat) (old : Z) | SwapV (o : f_op) (j : nat) (old x : Z)
  | LoadC (o : f_op) (j : nat) | StoreC (o : f_op) (j : nat) (x : Z) | Exit | Done.

Definition value_of (o : f_op) : Z := match o with FSet x | FUnset x | FClear x | FIsSet x => x | FGet => 0 end.
Definition new_word (o : f_op) (j : nat) (x : Z) : Z :=
  match o with FSet w => Z.lor x w | _ => Z.land x (not64 (mask_of j)) end.
Definition step (d : flags_data) (p : pc) : flags_data * pc :=
  match p with
  | Enter o =>
      let '(old, new) := INA_ATOMIC_SWAP (l d) 0 1 in
      (set_l new d, if 0 =? old then Enter o else match o with FSet _ => ReadV o 0 | _ => Turn o 0 end)
  | ReadV o j => (d, ReadV2 o j (v d))
  | ReadV2 o j old => (d, SwapV o j old (v d))
  | SwapV o j old x =>
      (set_v (snd (INA_ATOMIC_SWAP (v d) old (new_word o j x))) d,
       match o with FSet _ => Turn o 0 | FClear _ => StoreC o j 0 | _ => Turn o (S j) end)
  | Turn o j =>
      (d, if (j <? INA_IPC_FLAGS_MAX)%nat then
            if has_bit (value_of o) j then match o with FClear _ => ReadV o j | _ => LoadC o j end
            else Turn o (S j)
          else Exit)
  | LoadC o j =>
      (d, match o with
          | FSet _ => StoreC o j (u32 (count d j + 1))
          | _ => if 0 <? count d j then StoreC o j (count d j - 1) else Turn o (S j)
          end)
  | StoreC o j x =>
      (set_c_ref j x d,
       match o with FUnset _ => if x =? 0 then ReadV o j else Turn o (S j) | _ => Turn o (S j) end)
  | Exit => (__INA_EXIT_LOCK d, Done)
  | Done => (d, Done)
  end.
Definition inside (p : pc) : bool := match p with Enter _ | Done => false | _ => true end.

(** Threads on shared flags; a schedule names the thread that makes the next step. *)
Definition p_step (s : flags_data * list pc) (i : nat) : flags_data * list pc :=
  match s.2 !! i with
  | Some p => let '(d, p) := step s.1 p in (d, <[i := p]> s.2)
  | None => s
  end.
Definition p_run (schedule : list nat) (s : flags_data * list pc) : flags_data * list pc := fold_left p_step schedule s.

Lemma p_step_at (d : flags_data) (ps : list pc) (i : nat) (p : pc) : ps !! i = Some p ->
  p_step (d, ps) i = (fst (step d p), <[i := snd (step d p)]> ps).
Proof. intros Hi. unfold p_step. cbn [fst snd]. rewrite Hi. by destruct (step d p). Qed.

(** A thread alone does what the call does. *)
Definition alone (s s' : flags_data * pc) : Prop := s' = step s.1 s.2.
Definition turn_of (o : f_op) : flags_data -> nat -> flags_data :=
  match o with FSet x => set_turn x | FUnset x => unset_turn x | FClear x => clear_turn x | _ => fun d _ => d end.
Definition locks (o : f_op) : Prop := match o with FSet _ | FUnset _ | FClear _ => True | _ => False end.

Lemma alone_step (d : flags_data) (p : pc) (s : flags_data * pc) : rtc alone (step d p) s -> rtc alone (d, p) s.
Proof. intros Hs. by apply rtc_l with (step d p). Qed.
Ltac one_step := apply alone_step; cbn [step].

Lemma c_ref_turn (o : f_op) (d : flags_data) (j : nat) : length (c_ref (turn_of o d j)) = length (c_ref d).
Proof.
  destruct o as [x|x|x| |x]; cbn [turn_of]; unfold set_turn, unset_turn, clear_turn; rewrite ?swap_v_eq; [..|done|done];
    destruct (has_bit x j); [cbn; by rewrite ?length_insert|done|destruct (0 <? count d j); [|done]|done|cbn; by rewrite ?length_insert|done].
  destruct (_ =? 0); rewrite ?swap_v_eq; cbn; by rewrite ?length_insert.
Qed.

Lemma turn_alone (o : f_op) (d : flags_data) (j : nat) : locks o -> length (c_ref d) = INA_IPC_FLAGS_MAX ->
  (j < INA_IPC_FLAGS_MAX)%nat -> rtc alone (d, Turn o j) (turn_of o d j, Turn o (S j)).
Proof.
  intros Ho Hl Hj. one_step. rewrite (proj2 (Nat.ltb_lt _ _)) by done.
  assert (forall x : Z, count (set_c_ref j x d) j = x) as Hcs by (intros x; rewrite count_set by done; by rewrite decide_True).
  destruct o as [x|x|x| |x]; try done; cbn [turn_of value_of]; unfold set_turn, unset_turn, clear_turn;
    destruct (has_bit x j); try apply rtc_refl.
  - one_step. one_step. apply rtc_refl.
  - one_step. destruct (0 <? count d j) eqn:Hc; [|apply rtc_refl]. one_step. rewrite Hcs.
    destruct (count d j - 1 =? 0); [|apply rtc_refl]. one_step. one_step. one_step. rewrite swap_v_eq. unfold INA_ATOMIC_SWAP.
    rewrite Z.eqb_refl. apply rtc_refl.
  - one_step. one_step. one_step. one_step. rewrite swap_v_eq. unfold INA_ATOMIC_SWAP. rewrite Z.eqb_refl. apply rtc_refl.
Qed.

Lemma turns_alone (o : f_op) (n j : nat) (d : flags_data) : locks o -> length (c_ref d) = INA_IPC_FLAGS_MAX ->
  (j + n = INA_IPC_FLAGS_MAX)%nat -> rtc alone (d, Turn o j) (fold_left (turn_of o) (seq j n) d, Turn o INA_IPC_FLAGS_MAX).
Proof.
  intros Ho. revert j d. induction n as [|n IH]; intros j d Hl Hj; cbn [seq fold_left].
  - rewrite Nat.add_0_r in Hj. rewrite Hj. apply rtc_refl.
  - etrans; [apply turn_alone; [done|done|lia]|]. apply IH; [by rewrite c_ref_turn|lia].
Qed.

Lemma c_ref_turns (o : f_op) (js : list nat) (d : flags_data) : length (c_ref (fold_left (turn_of o) js d)) = length (c_ref d).
Proof. revert d. induction js as [|j js IH]; intros d; cbn [fold_left]; [done|]. by rewrite IH, c_ref_turn. Qed.
Lemma turn_keeps_lock (o : f_op) (d : flags_data) (j : nat) : l (turn_of o d j) = l d.
Proof.
  destruct o as [x|x|x| |x]; cbn [turn_of]; unfold set_turn, unset_turn, clear_turn; [..|done|done]; destruct (has_bit x j); try done.
  destruct (0 <? count d j); [|done]. by destruct (_ =? 0).
Qed.
Lemma turns_keep_lock (o : f_op) (js : list nat) (d : flags_data) : l (fold_left (turn_of o) js d) = l d.
Proof. revert d. induction js as [|j js IH]; intros d; cbn [fold_left]; [done|]. by rewrite IH, turn_keeps_lock. Qed.
Lemma released (d : flags_data) : l d = 1 -> length (c_ref d) = INA_IPC_FLAGS_MAX ->
  l (__INA_EXIT_LOCK d) = 0 /\ length (c_ref (__INA_EXIT_LOCK d)) = INA_IPC_FLAGS_MAX.
Proof. intros Hl Hc. unfold __INA_EXIT_LOCK. by rewrite Hl. Qed.

(** A thread that runs alone from a free lock comes to its end with the flags, the
    counts and the lock that the call gives when it is taken as one operation. *)
Lemma thread_alone_is_call (o : f_op) (d : flags_data) : locks o -> l d = 0 -> length (c_ref d) = INA_IPC_FLAGS_MAX ->
  exists d' : flags_data, f_exec o d = Some (RDone, d') /\ rtc alone (d, Enter o) (d', Done) /\
    l d' = 0 /\ length (c_ref d') = INA_IPC_FLAGS_MAX.
Proof.
  intros Ho Hl Hlen. destruct d as [fn ll w cs]. cbn in Hl. subst ll.
  assert (forall e : flags_data, l e = 1 -> length (c_ref e) = INA_IPC_FLAGS_MAX ->
    let e' := __INA_EXIT_LOCK (fold_left (turn_of o) (seq 0 INA_IPC_FLAGS_MAX) e) in
    rtc alone (e, Turn o 0) (e', Done) /\ l e' = 0 /\ length (c_ref e') = INA_IPC_FLAGS_MAX) as Hrest.
  { intros e H1 He e'. split; [|apply released; by rewrite ?turns_keep_lock, ?c_ref_turns].
    etrans; [apply (turns_alone o INA_IPC_FLAGS_MAX 0); done|]. one_step. one_step. apply rtc_refl. }
  destruct o as [x|x|x| |x]; try done; (eexists; split; [reflexivity|]).
  - pose proof (Hrest (set_v (Z.lor w x) (Flags fn 1 w cs)) eq_refl Hlen) as [H1 H2]. rewrite !swap_v_eq.
    split; [|exact H2]. do 2 one_step. cbn [INA_ATOMIC_SWAP l set_l Z.eqb v]. do 3 one_step. cbn [v set_l].
    unfold INA_ATOMIC_SWAP. rewrite Z.eqb_refl. exact H1.
  - pose proof (Hrest (Flags fn 1 w cs) eq_refl Hlen) as [H1 H2]. split; [|exact H2]. one_step. one_step. exact H1.
  - pose proof (Hrest (Flags fn 1 w cs) eq_refl Hlen) as [H1 H2]. split; [|exact H2]. one_step. one_step. exact H1.
Qed.

(** What a thread does alone it does among others that wait. *)
Lemma alone_scheduled (s s' : flags_data * pc) : rtc alone s s' -> forall (ps : list pc) (i : nat), ps !! i = Some s.2 ->
  exists n : nat, p_run (replicate n i) (s.1, ps) = (s'.1, <[i := s'.2]> ps).
Proof.
  induction 1 as [s|s t s' Hst _ IH]; intros ps i Hi.
  - exists 0%nat. cbn. f_equal. symmetry. by apply list_insert_id.
  - pose proof (lookup_lt_Some _ _ _ Hi) as Hlt. unfold alone in Hst.
    destruct (IH (<[i := t.2]> ps) i) as [n Hn]; [by apply list_lookup_insert_eq|]. exists (S n).
    unfold p_run in *. cbn [replicate fold_left]. rewrite (p_step_at s.1 ps i s.2 Hi), <- Hst. fold (p_run (replicate n i)).
    unfold p_run. rewrite Hn. by rewrite list_insert_insert_eq.
Qed.

Lemma threads_in_turn (os : list f_op) : forall (k : nat) (d : flags_data), Forall locks os -> l d = 0 ->
  length (c_ref d) = INA_IPC_FLAGS_MAX ->
  exists (schedule : list nat) (d' : flags_data), f_run os d = Some (replicate (length os) RDone, d') /\ l d' = 0 /\
    p_run schedule (d, replicate k Done ++ map Enter os) = (d', replicate (k + length os) Done).
Proof.
  induction os as [|o os IH]; intros k d Hall Hl Hlen.
  - exists [], d. split; [done|]. split; [done|]. cbn. by rewrite app_nil_r, Nat.add_0_r.
  - apply Forall_cons in Hall as [Ho Hall]. destruct (thread_alone_is_call o d Ho Hl Hlen) as (d1 & He & Hr & Hl1 & Hlen1).
    destruct (alone_scheduled _ _ Hr (replicate k Done ++ map Enter (o :: os)) k) as [n Hn].
    { rewrite lookup_app_r; rewrite length_replicate; [|done]. by rewrite Nat.sub_diag. }
    destruct (IH (S k) d1 Hall Hl1 Hlen1) as (sch & d2 & Hf & Hl2 & Hp). exists (replicate n k ++ sch), d2.
    cbn [f_run length]. rewrite He. cbn [mbind option_bind]. rewrite Hf. split; [done|]. split; [done|].
    unfold p_run in *. rewrite fold_left_app. cbn [fst snd] in Hn. rewrite Hn.
    rewrite insert_app_r_alt; rewrite length_replicate; [|done]. rewrite Nat.sub_diag. cbn [map insert list_insert].
    replace (replicate k Done ++ Done :: map Enter os) with (replicate (S k) Done ++ map Enter os).
    + rewrite Hp. f_equal. f_equal. lia.
    + rewrite replicate_S_end. by rewrite <- app_assoc.
Qed.

(** At a taken lock each thread comes in, one after the other. *)
Definition within (o : f_op) : pc := match o with FSet _ => ReadV o 0 | _ => Turn o 0 end.
Lemma taken_admits (d : flags_data) (os : list f_op) : l d = 1 -> forall done : list pc,
  p_run (seq (length done) (length os)) (d, done ++ map Enter os) = (d, done ++ map within os).
Proof.
  intros Hl. induction os as [|o os IH]; intros before; [done|].
  unfold p_run. cbn [map length seq fold_left]. rewrite (p_step_at d _ (length before) (Enter o)).
  2: { rewrite lookup_app_r by done. by rewrite Nat.sub_diag. }
  cbn [step]. rewrite Hl. cbn [INA_ATOMIC_SWAP fst snd]. change (1 =? 0) with false. change (0 =? 1) with false. cbn iota. cbn [fst snd].
  rewrite insert_app_r_alt by done. rewrite Nat.sub_diag. cbn [insert list_insert].
  replace (set_l 1 d) with d by (destruct d; cbn in *; by subst). fold (within o).
  specialize (IH (before ++ [within o])). rewrite length_app in IH. cbn [length] in IH. rewrite Nat.add_1_r, <- !app_assoc in IH.
  exact IH.
Qed.

(** C11. The lock orders calls that follow one another and no others.  Threads that
    call one after the other, each running through its steps from a free lock,
    end with the flags and the counts that the calls give as single operations,
    and each leaves the lock free for the next.  But the lock excludes nobody:
    from the same free lock, one step of the first thread and then one step of
    every thread bring all of them, however many, into the section at once. *)
Theorem lock_orders_only_the_ordered (os : list f_op) (d : flags_data) :
  Forall locks os -> l d = 0 -> length (c_ref d) = INA_IPC_FLAGS_MAX ->
  (exists (schedule : list nat) (d' : flags_data),
    f_run os d = Some (replicate (length os) RDone, d') /\ l d' = 0 /\
    p_run schedule (d, map Enter os) = (d', replicate (length os) Done)) /\
  (os <> [] -> let s := p_run (0%nat :: seq 0 (length os)) (d, map Enter os) in
    Forall (fun p => inside p = true) s.2 /\ length s.2 = length os /\ l s.1 = 1).
Proof.
  intros Hall Hl Hlen. split; [exact (threads_in_turn os 0 d Hall Hl Hlen)|]. intros Hos.
  assert (p_run (0%nat :: seq 0 (length os)) (d, map Enter os) = (set_l 1 d, map within os)) as ->.
  { destruct os as [|o os]; [done|]. etrans; [|exact (taken_admits (set_l 1 d) (o :: os) eq_refl [])]. unfold p_run.
    cbn [fold_left length app]. rewrite (p_step_at d (map Enter (o :: os)) 0 (Enter o)) by done. cbn [step]. by rewrite Hl. }
  cbn [fst snd]. rewrite length_map. split; [|done]. apply Forall_forall. intros p Hp.
  apply list_elem_of_In, in_map_iff in Hp as (o & <- & _). by destruct o.
Qed.

(** Two processes set the same flag at once: both are inside together, the flag is
    counted once, and the first that unsets it turns it off for both. *)
Definition both_inside : flags_data * list pc := p_run [0; 0; 1]%nat (zero_flags, [Enter (FSet 1); Enter (FSet 1)]).
Definition lost_count : flags_data * list pc :=
  p_run ([0; 0; 1] ++ [0; 0; 0; 0] ++ [1; 1; 1; 1] ++ [0; 1] ++ replicate 80 0 ++ replicate 80 1)%nat (zero_flags, [Enter (FSet 1); Enter (FSet 1)]).
Lemma calls_in_parallel_lose_counts :
  map inside both_inside.2 = [true; true] /\ lost_count.2 = [Done; Done] /\ count lost_count.1 0 = 1 /\
  option_map v (ina_ipc_flags_unset 1 lost_count.1) = Some 0.
Proof. repeat (split; [vm_compute; reflexivity|]). vm_compute. reflexivity. Qed.
Lemma lock_orders_only_the_ordered_witness :
  (exists (schedule : list nat) (d' : flags_data),
    f_run [FSet 5; FUnset 1; FClear 4] zero_flags = Some ([RDone; RDone; RDone], d') /\ l d' = 0 /\
    p_run schedule (zero_flags, [Enter (FSet 5); Enter (FUnset 1); Enter (FClear 4)]) = (d', [Done; Done; Done])) /\
  length (p_run [0; 0; 1; 2]%nat (zero_flags, [Enter (FSet 5); Enter (FUnset 1); Enter (FClear 4)])).2 = 3%nat.
Proof.
  destruct (lock_orders_only_the_ordered [FSet 5; FUnset 1; FClear 4] zero_flags) as [H1 H2];
    [repeat (apply Forall_cons; split; [exact I|]); apply Forall_nil_2|reflexivity|reflexivity|].
  split; [exact H1|]. destruct (H2 ltac:(done)) as (_ & H3 & _). exact H3.
Defined.

(** ** Waiting

    A waiting call looks at the word and then reads the clock, again and again. *)
Import Timerwheel Timer.
Record look := Look { k_word : Z; k_clock : option Time.timespec; k_counter : Z }.

Section Wait.
Context {D : Type} `{Double D}.
Variable b : Time.backend (D := D).

(** [None]: the call still waits after the last look. *)
Fixpoint wait_loop (wait_for : Z) (ks : list look) (ev : nat) (t : timer (D := D)) : option (timer (D := D) * nat * bool) :=
  match ks with
  | [] => None
  | k :: ks =>
      if Z.land wait_for (k_word k) =? wait_for then Some (t, ev, false)
      else match ina_timer_next_event b (k_clock k) (k_counter k) t with
      | (t, Ok ev) => Some (t, ev, true)
      | (t, Err _) => wait_loop wait_for ks ev t
      end
  end.
Definition ina_ipc_flags_wait (wait_for msec_timeout : Z) (clock : option Time.timespec) (counter : Z) (ev to : option nat)
    (ks : list look) (t : timer) : option (timer * result unit) :=
  match ina_timer_event_new b clock counter msec_timeout ev to t with
  | (t, Err x) => Some (t, Err x)
  | (t, Ok ev) =>
      '(t, ev, timeout) ← wait_loop wait_for ks ev t;
      let t := ina_timer_event_free ev t in
      Some (t, if (timeout : bool) then Err (INA_ERR E_TIMED_OUT) else Ok tt)
  end.

(** The readings of the clock one after the other, and that they do not go back. *)
Definition reading (clock : option Time.timespec) (counter : Z) (x : Time.tsc) : Time.tsc :=
  fst (Time.ina_time_read_tsc_clock b clock counter x).
Definition millis (x : Time.tsc) : Z := __ina_timer_tsc_to_msec b x.
Fixpoint steady (last : Z) (x : Time.tsc) (ks : list look) : Prop :=
  match ks with
  | [] => True
  | k :: ks => let x := reading (k_clock k) (k_counter k) x in last <= millis x < 2 ^ 63 /\ steady (millis x) x ks
  end.
(** What a call promises: it ends at the first look that finds the flags on, or
    the deadline over. *)
Definition flags_on (wait_for w : Z) : Prop := forall i : Z, 0 <= i -> Z.testbit wait_for i = true -> Z.testbit w i = true.
Inductive awaits (wait_for deadline : Z) : Time.tsc -> list look -> option (result unit) -> Prop :=
  | AOut (x : Time.tsc) : awaits wait_for deadline x [] None
  | AOn (x : Time.tsc) (k : look) (ks : list look) : flags_on wait_for (k_word k) ->
      awaits wait_for deadline x (k :: ks) (Some (Ok tt))
  | ALate (x : Time.tsc) (k : look) (ks : list look) : ~ flags_on wait_for (k_word k) ->
      deadline <= millis (reading (k_clock k) (k_counter k) x) ->
      awaits wait_for deadline x (k :: ks) (Some (Err (INA_ERR E_TIMED_OUT)))
  | AAgain (x : Time.tsc) (k : look) (ks : list look) (r : option (result unit)) : ~ flags_on wait_for (k_word k) ->
      millis (reading (k_clock k) (k_counter k) x) < deadline ->
      awaits wait_for deadline (reading (k_clock k) (k_counter k) x) ks r -> awaits wait_for deadline x (k :: ks) r.

Lemma flags_on_land (wait_for w : Z) : Z.land wait_for w = wait_for <-> flags_on wait_for w.
Proof.
  unfold flags_on. split.
  - intros He i Hi Hb. rewrite <- He, Z.land_spec in Hb. by apply andb_prop in Hb as [_ Hb].
  - intros Hon. apply Z_bits_ext. intros i Hi. rewrite Z.land_spec. destruct (Z.testbit wait_for i) eqn:Hb; [|done]. by rewrite Hon.
Qed.

Lemma trel_stamp (x : Time.tsc) (t : timer (D := D)) (s : ensemble) : trel t s -> trel (set_stamp x t) s.
Proof. intros [[H1 H2 H3] H4 H5]. constructor; [by constructor|done|done]. Qed.

Lemma beaten_once (m : metronome) (now : Z) : 0 < m_interval m -> m_seen m = m_start m ->
  (has_beaten m now <-> m_start m + m_interval m <= now).
Proof.
  intros Hi Hs. rewrite beaten_next by done. unfold next_beat, beats_until. rewrite Hs, Z.sub_diag, Z.div_0_l by lia.
  replace (m_start m + (0 + 1) * m_interval m) with (m_start m + m_interval m) by lia. done.
Qed.

(** One look at the timer of a single event. *)
Lemma look_spec (ev : nat) (m : metronome) (clock : option Time.timespec) (counter : Z) (t : timer (D := D)) (c : Z) :
  let x := reading clock counter (t_stamp t) in
  trel t (Ensemble c {[ev := m]}) -> 0 < m_interval m -> m_seen m = m_start m -> c <= millis x < 2 ^ 63 ->
  exists t' : timer,
    (m_start m + m_interval m <= millis x /\ ina_timer_next_event b clock counter t = (t', Ok ev) /\
      trel t' (Ensemble (millis x) {[ev := see (millis x) m]})) \/
    (millis x < m_start m + m_interval m /\ (exists e : Z, ina_timer_next_event b clock counter t = (t', Err e)) /\
      t_stamp t' = x /\ trel t' (Ensemble (millis x) {[ev := m]})).
Proof.
  intros x Hr Hi Hseen Hx. apply (trel_stamp x) in Hr. pose proof (r_clock _ _ Hr) as Hc. cbn in Hc.
  unfold ina_timer_next_event. change (read_clock b clock counter t) with (set_stamp x t). cbn zeta.
  change (__ina_timer_tsc_to_msec b (t_stamp (set_stamp x t))) with (millis x).
  assert (t_stamp (fst (ina_timer_next_event_with_time (millis x) (set_stamp x t))) = x) as Hst.
  { unfold ina_timer_next_event_with_time. destruct (timeouts_get _) as [[id|] T]; [|done]. by destruct (store T !! id). }
  pose proof (next_event_exact (millis x) (set_stamp x t) _ Hr ltac:(cbn; lia)) as Hs.
  destruct (ina_timer_next_event_with_time (millis x) (set_stamp x t)) as [t' [ev'|e]]; exists t'; cbn [metronomes fst] in *.
  - left. destruct Hs as (m' & Hm' & Hb & Hr'). apply lookup_singleton_Some in Hm' as [<- <-].
    apply beaten_once in Hb; [|done|done]. split; [done|]. split; [done|]. by rewrite insert_singleton_eq in Hr'.
  - right. destruct Hs as (_ & Hno & Hr'). assert (~ has_beaten m (millis x)) as Hnb by (apply (Hno ev); apply lookup_singleton_eq). rewrite beaten_once in Hnb by done.
    split; [lia|]. split; [by exists e|done].
Qed.

Definition wait_reply (x : timer (D := D) * nat * bool) : result unit := if x.2 then Err (INA_ERR E_TIMED_OUT) else Ok tt.
Lemma wait_loop_spec (wait_for : Z) (ks : list look) (ev : nat) (m : metronome) (t : timer (D := D)) (c : Z) :
  trel t (Ensemble c {[ev := m]}) -> 0 < m_interval m -> m_seen m = m_start m -> steady c (t_stamp t) ks ->
  exists r : option (timer * nat * bool), wait_loop wait_for ks ev t = r /\
    awaits wait_for (m_start m + m_interval m) (t_stamp t) ks
      (wait_reply <$> r) /\
    (forall (t' : timer) (ev' : nat) (late : bool), r = Some (t', ev', late) ->
      ev' = ev /\ exists (c' : Z) (m' : metronome), c <= c' /\ trel t' (Ensemble c' {[ev := m']})).
Proof.
  intros Hr Hi Hseen Hst. eexists. split; [reflexivity|]. revert t c Hr Hst.
  induction ks as [|k ks IH]; intros t c Hr Hst; cbn [wait_loop steady] in *; [by split; [constructor|]|].
  destruct Hst as [Hx Hst]. destruct (Z.eqb_spec (Z.land wait_for (k_word k)) wait_for) as [Hon|Hoff].
  { split; [by apply AOn, flags_on_land|]. intros t' ev' late [= <- <- <-]. split; [done|]. exists c, m. split; [lia|done]. }
  rewrite flags_on_land in Hoff.
  destruct (look_spec ev m (k_clock k) (k_counter k) t c Hr Hi Hseen Hx) as (t1 & [(Hlate & -> & Hr1)|(Hnot & (e & ->) & Hs1 & Hr1)]).
  - split; [by apply ALate|]. intros t' ev' late [= <- <- <-]. split; [done|]. eexists _, _. split; [apply Hx|exact Hr1].
  - destruct (IH t1 _ Hr1) as [IH1 IH2]; [by rewrite Hs1|]. split; [apply AAgain; [done|done|by rewrite <- Hs1]|].
    intros t' ev' late Heq. destruct (IH2 t' ev' late Heq) as (-> & c' & m' & Hle & Hr'). split; [done|]. exists c', m'. split; [lia|done].
Qed.

(** C10. Waiting ends with the flags or with the time.  Whatever the readings of the
    clock, as long as it does not go back, a call on a timer without events goes on
    exactly until the first look that finds all the flags on, and then succeeds, or
    the first reading that is not before the call's start plus its time-out, and
    then reports the time-out, the flags being looked at first; it leaves no event
    on the timer, so that the next call starts as this one. *)
Theorem wait_ends_with_flags_or_time (wait_for msec_timeout : Z) (clock : option Time.timespec) (counter : Z) (ev to : nat)
    (ks : list look) (t : timer (D := D)) (c : Z) :
  let x := reading clock counter (t_stamp t) in
  trel t (Ensemble c ∅) -> store (t_wheel t) !! to = None ->
  0 < millis x -> c <= millis x < 2 ^ 63 -> 0 < msec_timeout < 2 ^ 63 -> steady (millis x) x ks ->
  exists r : option (timer * result unit),
    ina_ipc_flags_wait wait_for msec_timeout clock counter (Some ev) (Some to) ks t = r /\
    awaits wait_for (millis x + msec_timeout) x ks (snd <$> r) /\
    (forall (t' : timer) (y : result unit), r = Some (t', y) -> exists c' : Z, millis x <= c' /\ trel t' (Ensemble c' ∅)).
Proof.
  intros x Hr Hto Hpos Hx Hms Hst. eexists. split; [reflexivity|]. apply (trel_stamp x) in Hr.
  assert (t_events t !! ev = None) as Hev.
  { pose proof (r_follows _ _ Hr ev) as Hf. cbn [metronomes] in Hf. rewrite lookup_empty in Hf.
    destruct (t_events t !! ev) as [e|] eqn:He; [|done]. destruct (t_event _ (r_inv _ _ Hr) ev e He) as (a & Ha & _).
    unfold alarm_of in Hf. change (t_events (set_stamp x t)) with (t_events t) in Hf. rewrite He in Hf. cbn [mbind option_bind] in Hf.
    rewrite Ha in Hf. inversion Hf. }
  pose proof (r_clock _ _ Hr) as Hc. cbn in Hc.
  destruct (new_exact (millis x) msec_timeout ev to (set_stamp x t) _ Hr) as (t1 & He1 & Hr1); [cbn; repeat split; done || lia|].
  unfold ina_ipc_flags_wait, ina_timer_event_new. change (read_clock b clock counter t) with (set_stamp x t). cbn zeta.
  change (__ina_timer_tsc_to_msec b (t_stamp (set_stamp x t))) with (millis x). cbn [t_exec] in He1.
  assert (t_stamp (fst (ina_timer_event_new_with_time (millis x) msec_timeout (Some ev) (Some to) (set_stamp x t))) = x) as Hs1.
  { rewrite event_new_eq by lia. done. }
  destruct (ina_timer_event_new_with_time _ _ _ _ _) as [t2 [ev2|e2]]; [|done]. injection He1 as -> ->. cbn [fst metronomes] in Hs1, Hr1.
  destruct (wait_loop_spec wait_for ks ev _ t1 _ Hr1) as (r & -> & Ha & Hfin); [cbn; lia|done|by rewrite Hs1|].
  rewrite Hs1 in Ha. cbn [m_start m_interval] in Ha. destruct r as [[[t3 ev3] late]|]; cbn in Ha |- *; [|by split].
  split; [exact Ha|]. intros t' y [= <- <-]. destruct (Hfin t3 ev3 late eq_refl) as (He3 & c' & m' & Hle & Hr3).
  exists c'. split; [lia|]. apply (free_exact ev3) in Hr3. cbn [Timer.clock metronomes] in Hr3. by rewrite <- He3, delete_singleton_eq in Hr3.
Qed.
End Wait.

Import Time.
(** A call of 5 milliseconds that starts at second 1, reading the clock of the
    system: the flags come at the third look, or do not come. *)
Definition os_clock : Time.backend (D := Q) := Backend false 0%Q 0 0.
Definition at_ms (n : Z) (w : Z) : look := Look w (Some (Timespec (n / 1000) (n mod 1000 * 1000000))) 0.
Definition came : list look := [at_ms 1001 1; at_ms 1004 2; at_ms 1009 3].
Definition late : list look := [at_ms 1001 1; at_ms 1004 2; at_ms 1006 1].
Definition wait_3 (ks : list look) : option (timer (D := Q) * result unit) :=
  ina_ipc_flags_wait os_clock 3 5 (Some (Timespec 1 0)) 0 (Some 1%nat) (Some 2%nat) ks test_timer.
Lemma wait_3_runs : snd <$> wait_3 came = Some (Ok tt) /\ snd <$> wait_3 late = Some (Err (INA_ERR E_TIMED_OUT)) /\
  wait_3 (take 2 late) = None.
Proof. vm_compute. done. Qed.
Lemma test_timer_empty : trel test_timer (Ensemble 0 ∅).
Proof. by apply new_timer_rel. Qed.
Lemma late_steady : steady os_clock 1000 (reading os_clock (Some (Timespec 1 0)) 0 (t_stamp test_timer)) late.
Proof. cbn [steady late]. repeat split; vm_compute; done. Qed.
Lemma first_reading : millis os_clock (reading os_clock (Some (Timespec 1 0)) 0 (t_stamp test_timer)) = 1000.
Proof. vm_compute. reflexivity. Qed.
Lemma wait_ends_with_flags_or_time_witness :
  exists r : option (timer (D := Q) * result unit), wait_3 late = r /\
    awaits os_clock 3 1005 (reading os_clock (Some (Timespec 1 0)) 0 (t_stamp test_timer)) late (snd <$> r).
Proof.
  destruct (wait_ends_with_flags_or_time os_clock 3 5 (Some (Timespec 1 0)) 0 1 2 late test_timer 0 test_timer_empty eq_refl)
    as (r & H1 & H2 & _); [rewrite first_reading; lia|rewrite first_reading; lia|lia|rewrite first_reading; exact late_steady|].
  exists r. rewrite first_reading in H2. exact (conj H1 H2).
Defined.

End Ipc.
