(* ===== verification/File.v ===== *)
(** * Files (file.c, file.h)

    Files over the calls of POSIX, the class [Posix]; [PosixLaws] is what it
    documents of open descriptors, streams and the content of files.  A context
    keeps its open files in a hash table (interface [TableOps]) under their
    addresses; allocation is an argument. *)
From Stdlib Require Import ZArith Lia Bool String.
From stdpp Require Import base numbers option fin_maps gmap strings list.
From S2P Require Import Prelude Error Hash Hashtable Table.

Module File.
Import Error Hash Hashtable Table.

(** ** The operating system *)

(** Constants of Linux. *)
Definition O_RDONLY : Z := 0.
Definition O_WRONLY : Z := 1.
Definition O_RDWR : Z := 2.
Definition O_CREAT : Z := 64.
Definition O_EXCL : Z := 128.
Definition O_APPEND : Z := 1024.
Definition O_DIRECT : Z := 16384.
Definition S_IFDIR : Z := 16384.
Inductive whence := SEEK_SET | SEEK_CUR | SEEK_END.
Record stat := Stat { st_size : Z; st_mode : Z; st_atime : Z; st_mtime : Z }.

(** What is known of the system: the open descriptors with file and position, the
    streams with their descriptor, the bytes of the files, and the mask. *)
Record opened := Opened { o_file : nat; o_pos : Z; o_append : bool }.
Record view := View { v_fds : gmap Z opened; v_streams : gmap nat Z; v_files : gmap nat (list Z); v_umask : Z }.
Definition set_fd (fd : Z) (o : opened) (v : view) : view := View (<[fd := o]> (v_fds v)) (v_streams v) (v_files v) (v_umask v).
Definition content (v : view) (o : opened) : list Z := default [] (v_files v !! o_file o).
(** Writing [bs] at [pos]; a gap is filled with zeros. *)
Definition written (pos : nat) (bs c : list Z) : list Z :=
  take pos c ++ replicate (pos - length c) 0 ++ bs ++ drop (pos + length bs) c.
Definition seek_to (v : view) (o : opened) (off : Z) (m : whence) : Z :=
  match m with SEEK_SET => off | SEEK_CUR => o_pos o + off | SEEK_END => Z.of_nat (length (content v o)) + off end.

(** -1 and [None] are failures. *)
Class Posix (W : Type) := {
  open : string -> Z -> Z -> W -> W * Z;
  posix_fadvise : Z -> bool -> W -> W;
  close : Z -> W -> W;
  read : Z -> Z -> W -> W * option (list Z);
  write : Z -> list Z -> W -> W * option Z;
  lseek : Z -> Z -> whence -> W -> W * Z;
  fstat : Z -> W -> option stat;
  fdopen : Z -> string -> W -> W * option nat;
  fclose : nat -> W -> W;
  umask : Z -> W -> W * Z;
  fchmod : Z -> Z -> W -> W * bool
}.

Class PosixLaws (W : Type) `{!Posix W} := {
  sees : W -> view;
  fds_sees w fd : is_Some (v_fds (sees w) !! fd) -> 0 <= fd;
  open_sees w path flags mode : let '(w', fd) := open path flags mode w in
    (fd = -1 /\ v_fds (sees w') = v_fds (sees w) /\ v_streams (sees w') = v_streams (sees w)) \/
    (0 <= fd /\ v_fds (sees w) !! fd = None /\ v_streams (sees w') = v_streams (sees w) /\
      exists o, v_fds (sees w') = <[fd := o]> (v_fds (sees w)));
  fadvise_sees w fd random : sees (posix_fadvise fd random w) = sees w;
  close_sees w fd : v_fds (sees (close fd w)) = delete fd (v_fds (sees w)) /\ v_streams (sees (close fd w)) = v_streams (sees w);
  read_sees w fd len o : v_fds (sees w) !! fd = Some o -> 0 < len -> let '(w', r) := read fd len w in
    match r with
    | Some bs => bs = take (length bs) (drop (Z.to_nat (o_pos o)) (content (sees w) o)) /\ Z.of_nat (length bs) <= len /\
        (bs = [] -> drop (Z.to_nat (o_pos o)) (content (sees w) o) = []) /\
        sees w' = set_fd fd (Opened (o_file o) (o_pos o + Z.of_nat (length bs)) (o_append o)) (sees w)
    | None => sees w' = sees w
    end;
  write_sees w fd bs o : v_fds (sees w) !! fd = Some o -> bs <> [] -> let '(w', r) := write fd bs w in
    match r with
    | Some n => 0 <= n <= Z.of_nat (length bs) /\
        let pos := if o_append o then Z.of_nat (length (content (sees w) o)) else o_pos o in
        sees w' = View (<[fd := Opened (o_file o) (pos + n) (o_append o)]> (v_fds (sees w))) (v_streams (sees w))
          (<[o_file o := written (Z.to_nat pos) (take (Z.to_nat n) bs) (content (sees w) o)]> (v_files (sees w))) (v_umask (sees w))
    | None => sees w' = sees w
    end;
  lseek_sees w fd off m o : v_fds (sees w) !! fd = Some o -> let '(w', r) := lseek fd off m w in
    let p := seek_to (sees w) o off m in
    (r = -1 /\ sees w' = sees w) \/ (0 <= p /\ r = p /\ sees w' = set_fd fd (Opened (o_file o) p (o_append o)) (sees w));
  fstat_sees w fd o st : v_fds (sees w) !! fd = Some o -> fstat fd w = Some st -> st_size st = Z.of_nat (length (content (sees w) o));
  fdopen_sees w fd mode : let '(w', r) := fdopen fd mode w in
    v_fds (sees w') = v_fds (sees w) /\
    match r with
    | Some s => v_streams (sees w) !! s = None /\ v_streams (sees w') = <[s := fd]> (v_streams (sees w))
    | None => v_streams (sees w') = v_streams (sees w)
    end;
  fclose_sees w s fd : v_streams (sees w) !! s = Some fd ->
    v_fds (sees (fclose s w)) = delete fd (v_fds (sees w)) /\ v_streams (sees (fclose s w)) = delete s (v_streams (sees w));
  umask_sees w m : let '(w', old) := umask m w in
    old = v_umask (sees w) /\ sees w' = View (v_fds (sees w)) (v_streams (sees w)) (v_files (sees w)) m;
  fchmod_sees w fd m : sees (fst (fchmod fd m w)) = sees w
}.

(** ** Files and contexts *)
Inductive access_mode := INA_FILE_ACCESS_MODE_READ | INA_FILE_ACCESS_MODE_READWRITE | INA_FILE_ACCESS_MODE_WRITE.
Inductive create_mode := INA_FILE_CREATE_MODE_OPEN | INA_FILE_CREATE_MODE_CREATE | INA_FILE_CREATE_MODE_APPEND.
Inductive share_mode := INA_FILE_SHARE_MODE_EXCLUSIVE | INA_FILE_SHARE_MODE_READ | INA_FILE_SHARE_MODE_WRITE.
Inductive seek_mode := INA_FILE_SEEK_MODE_SET | INA_FILE_SEEK_MODE_CUR.
Definition INA_FILE_FLAG_RANDOM_ACCESS : Z := 4.
Definition INA_FILE_FLAG_SEQUENTIAL_ACCESS : Z := 8.
Definition INA_FILE_FLAG_POSIX_DIRECT : Z := 22.

(** [struct ina_file_s]; [cursors] is not used. *)
Record file := File_ {
  has_ctx : bool; file_path : string; fh : Z; stream : option nat; access : access_mode; create : create_mode; share : share_mode }.
(** [struct ina_file_ctx_s], with the memory of its files. *)
Record file_ctx (T : Type) := FileCtx { default_mode : Z; files : T; heap : gmap Z file }.
Arguments FileCtx {T} _ _ _.
Arguments default_mode {T} _.
Arguments files {T} _.
Arguments heap {T} _.

Definition INA_ERR_FILE_OPEN : Z := Z.lor (INA_ES S_FILE) (INA_ERR E_OPEN).
Definition INA_ERR_READ_FAILED : Z := Z.lor (INA_ES S_READ) (INA_ERR E_FAILED).
Definition INA_ERR_WRITE_FAILED : Z := Z.lor (INA_ES S_WRITE) (INA_ERR E_FAILED).
Definition INA_ERR_NOT_A_DIRECTORY : Z := Z.lor (INA_ES S_DIRECTORY) (INA_ERR_NOT_ E_A).

Definition has_flag (flags f : Z) : bool := negb (Z.land flags f =? 0).
Definition __ina_file_posix_map_flags (a : access_mode) (c : create_mode) (s : share_mode) (flags : Z) : Z :=
  let pf := 0 in
  let pf := match a with
    | INA_FILE_ACCESS_MODE_READ => Z.lor pf O_RDONLY
    | INA_FILE_ACCESS_MODE_READWRITE => Z.lor pf O_RDWR
    | INA_FILE_ACCESS_MODE_WRITE => Z.lor pf O_WRONLY
    end in
  let pf := match c with
    | INA_FILE_CREATE_MODE_OPEN => pf
    | INA_FILE_CREATE_MODE_CREATE => Z.lor pf O_CREAT
    | INA_FILE_CREATE_MODE_APPEND => Z.lor pf O_APPEND
    end in
  let pf := match s with INA_FILE_SHARE_MODE_EXCLUSIVE => Z.lor pf O_EXCL | _ => pf end in
  if has_flag flags INA_FILE_FLAG_POSIX_DIRECT then Z.lor pf O_DIRECT else pf.

(** [S_IWUSR | S_IRUSR | S_IRGRP | S_IWGRP | S_IROTH] *)
Definition standard_mode : Z := 128 + 256 + 32 + 16 + 4.

Section Files.
Context {T W : Type} `{!TableOps T, !Posix W}.

(** [new_table] is the new hash table, if there is memory for it.  Whether there
    was memory for the context is not looked at: [None] is a write to none. *)
Definition ina_file_ctx_new (got_ctx : bool) (new_table : result T) (mode : Z) : option (result (file_ctx T)) :=
  if negb got_ctx then None
  else match new_table with
  | Ok t => Some (Ok (FileCtx (if mode =? 0 then standard_mode else mode) t ∅))
  | Err x => Some (Err x)
  end.

Definition set_files (t : T) (c : file_ctx T) : file_ctx T := FileCtx (default_mode c) t (heap c).
Definition set_heap (h : gmap Z file) (c : file_ctx T) : file_ctx T := FileCtx (default_mode c) (files c) h.

(** The descriptor is closed by [fclose] and then again. *)
Definition ina_file_free (f : Z) (cw : file_ctx T * W) : file_ctx T * W :=
  let '(c, w) := cw in
  match heap c !! f with
  | None => (c, w)
  | Some x =>
      let c := if has_ctx x then set_files (fst (tb_remove (files c) (key_ptr f))) c else c in
      let w := match stream x with Some s => fclose s w | None => w end in
      let w := close (fh x) w in
      (set_heap (delete f (heap c)) c, w)
  end.

Definition leave_ctx (x : file) : file := File_ false (file_path x) (fh x) (stream x) (access x) (create x) (share x).
Definition __ina_free_file (cw : file_ctx T * W) (f : Z) : file_ctx T * W :=
  let '(c, w) := cw in ina_file_free f (set_heap (alter leave_ctx f (heap c)) c, w).
Definition ina_file_ctx_free (c : file_ctx T) (w : W) : file_ctx T * W :=
  fold_left __ina_free_file (tb_foreach (files c)) (c, w).

(** [f] is the address of the new file, 0 without memory. *)
Definition ina_file_new (path : string) (a : access_mode) (cr : create_mode) (s : share_mode) (flags f : Z)
    (c : file_ctx T) (w : W) : file_ctx T * W * result Z :=
  if f =? 0 then (c, w, Err INA_ERR_OUT_OF_MEMORY)
  else
    let posix_flags := __ina_file_posix_map_flags a cr s flags in
    let '(w, fd) := open path posix_flags (default_mode c) w in
    let c := set_heap (<[f := File_ true path fd None a cr s]> (heap c)) c in
    if fd <? 0 then (ina_file_free f (c, w), Err INA_ERR_FILE_OPEN)
    else
      let w := if has_flag flags INA_FILE_FLAG_RANDOM_ACCESS then posix_fadvise fd true w
               else if has_flag flags INA_FILE_FLAG_SEQUENTIAL_ACCESS then posix_fadvise fd false w else w in
      (set_files (tb_set (files c) (key_ptr f) f) c, w, Ok f).
End Files.

(** ** Status *)
Record file_stat := FileStat { file_size : Z; s_atime : Z; s_mtime : Z; is_dir : bool; s_mode : Z }.

Section Handles.
Context {W : Type} `{!Posix W}.

Definition ina_file_stat_sync (x : file) (w : W) : result file_stat :=
  match fstat (fh x) w with
  | None => Err INA_ERR_OPERATION_FAILED
  | Some st => Ok (FileStat (st_size st) (st_atime st) (st_mtime st) (negb (Z.land (st_mode st) S_IFDIR =? 0)) (st_mode st))
  end.
Definition ina_file_stat_new (got : bool) (x : file) (w : W) : result file_stat :=
  if got then ina_file_stat_sync x w else Err INA_ERR_OUT_OF_MEMORY.
Definition ina_file_get_filepath (x : file) : string := file_path x.
Definition ina_file_set_mode (mode : Z) (x : file) (w : W) : W * result unit :=
  let '(w, old_mask) := umask 0 w in
  match fchmod (fh x) mode w with
  | (w, false) => (w, Err INA_ERR_OPERATION_FAILED)
  | (w, true) => (fst (umask old_mask w), Ok tt)
  end.
Definition ina_file_get_mode (got : bool) (x : file) (w : W) : result Z :=
  match ina_file_stat_new got x w with Ok st => Ok (s_mode st) | Err e => Err e end.
Definition ina_file_stat_is_dir (st : file_stat) : result unit := if negb (is_dir st) then Err INA_ERR_NOT_A_DIRECTORY else Ok tt.
Definition ina_file_stat_file_size (st : file_stat) : Z := file_size st.
Definition ina_file_stat_atime (st : file_stat) : Z := s_atime st.
Definition ina_file_stat_mtime (st : file_stat) : Z := s_mtime st.
Definition ina_file_os_handle (x : option file) : Z := match x with Some x => fh x | None => 0 end.

(** ** Streams *)
Definition stream_mode (a : access_mode) (c : create_mode) : string :=
  match a with
  | INA_FILE_ACCESS_MODE_READ => "r"
  | INA_FILE_ACCESS_MODE_READWRITE =>
      match c with INA_FILE_CREATE_MODE_CREATE => "w+" | INA_FILE_CREATE_MODE_APPEND => "a+" | INA_FILE_CREATE_MODE_OPEN => "r+" end
  | INA_FILE_ACCESS_MODE_WRITE =>
      match c with INA_FILE_CREATE_MODE_CREATE => "w" | INA_FILE_CREATE_MODE_APPEND => "a" | INA_FILE_CREATE_MODE_OPEN => "w" end
  end.
Definition set_stream (s : option nat) (x : file) : file := File_ (has_ctx x) (file_path x) (fh x) s (access x) (create x) (share x).
Definition ina_file_get_stream (x : file) (w : W) : file * W * option nat :=
  match stream x with
  | Some s => (x, w, Some s)
  | None => let '(w, s) := fdopen (fh x) (stream_mode (access x) (create x)) w in (set_stream s x, w, s)
  end.

(** ** Reading and writing *)
Definition ina_file_read (len : Z) (x : file) (w : W) : W * result (list Z) :=
  if negb (0 <? len) then (w, Err INA_ERR_INVALID_ARGUMENT)
  else match read (fh x) len w with
  | (w, None) => (w, Err INA_ERR_READ_FAILED)
  | (w, Some bs) => (w, Ok bs)
  end.
Definition ina_file_write (buf : list Z) (x : file) (w : W) : W * result Z :=
  if negb (0 <? Z.of_nat (length buf)) then (w, Err INA_ERR_INVALID_ARGUMENT)
  else match write (fh x) buf w with
  | (w, None) => (w, Err INA_ERR_WRITE_FAILED)
  | (w, Some n) => (w, Ok n)
  end.
Definition seek (off : Z) (m : whence) (x : file) (w : W) : W * result unit :=
  let '(w, r) := lseek (fh x) off m w in if r =? -1 then (w, Err INA_ERR_OPERATION_FAILED) else (w, Ok tt).
Definition ina_file_set_bof (x : file) (w : W) : W * result unit := seek 0 SEEK_SET x w.
(** An offset is read as a number with sign. *)
Definition to_off (x : Z) : Z := if x <? 2 ^ 63 then x else x - 2 ^ 64.
Definition ina_file_set_pos (offset : Z) (m : seek_mode) (x : file) (w : W) : W * result unit :=
  seek (to_off offset) (match m with INA_FILE_SEEK_MODE_SET => SEEK_SET | INA_FILE_SEEK_MODE_CUR => SEEK_CUR end) x w.
Definition ina_file_get_pos (x : file) (w : W) : W * result Z :=
  let '(w, off) := lseek (fh x) 0 SEEK_CUR w in if off =? -1 then (w, Err INA_ERR_OPERATION_FAILED) else (w, Ok off).
Definition ina_file_set_eof (x : file) (w : W) : W * result unit := seek 0 SEEK_END x w.
End Handles.

(** ** Contexts close what they open

    What a context owns: the descriptors and the streams of its files; all others
    are as they were when it was made. *)
Section Owned.
Context {T W : Type} `{!TableOps T, !TableLaws 8 T, !Posix W, !PosixLaws W}.
Implicit Types (c : file_ctx T) (w : W).

Definition owns_fd (c : file_ctx T) (fd : Z) : Prop := exists (f : Z) (x : file), heap c !! f = Some x /\ fh x = fd.
Definition owns_stream (c : file_ctx T) (s : nat) : Prop := exists (f : Z) (x : file), heap c !! f = Some x /\ stream x = Some s.
(** [m]: the files that the table still has, in a context that is freed not all. *)
Record owned (base : view) (c : file_ctx T) (w : W) : Prop := {
  own_fd : forall fd : Z, owns_fd c fd -> v_fds base !! fd = None;
  other_fd : forall fd : Z, ~ owns_fd c fd -> v_fds (sees w) !! fd = v_fds base !! fd;
  own_stream : forall s : nat, owns_stream c s -> v_streams base !! s = None;
  other_stream : forall s : nat, ~ owns_stream c s -> v_streams (sees w) !! s = v_streams base !! s;
  fd_open : forall (f : Z) (x : file), heap c !! f = Some x -> is_Some (v_fds (sees w) !! fh x);
  stream_fd : forall (f : Z) (x : file) (s : nat), heap c !! f = Some x -> stream x = Some s -> v_streams (sees w) !! s = Some (fh x);
  fd_inj : forall (f f' : Z) (x x' : file), heap c !! f = Some x -> heap c !! f' = Some x' -> fh x = fh x' -> f = f'
}.
Definition listed (c : file_ctx T) : Prop :=
  exists m : gmap (list Z) Z, tb_rep (files c) m /\
    (forall f : Z, is_Some (heap c !! f) -> good_ptr f /\ m !! key_ptr f = Some f) /\
    (forall (k : list Z) (f : Z), m !! k = Some f -> is_Some (heap c !! f) /\ k = key_ptr f).

Lemma fd_is_owned (c : file_ctx T) (f : Z) (x : file) : heap c !! f = Some x -> owns_fd c (fh x).
Proof. intros Hx. by exists f, x. Qed.

(** Freeing a file gives back its descriptor and its stream. *)
Lemma owned_delete (base : view) (c : file_ctx T) (w w' : W) (f : Z) (x : file) (c' : file_ctx T) :
  owned base c w -> heap c !! f = Some x -> heap c' = delete f (heap c) ->
  v_fds (sees w') = delete (fh x) (v_fds (sees w)) ->
  v_streams (sees w') = match stream x with Some s => delete s (v_streams (sees w)) | None => v_streams (sees w) end ->
  owned base c' w'.
Proof.
  intros [H1 H2 H3 H4 H5 H6 H7] Hx Hh Hfd Hst.
  assert (forall (f' : Z) (x' : file), heap c' !! f' = Some x' <-> f' <> f /\ heap c !! f' = Some x') as Hl.
  { intros f' x'. rewrite Hh, lookup_delete_Some. by split; intros [? ?]. }
  assert (forall fd : Z, owns_fd c fd <-> owns_fd c' fd \/ fd = fh x) as Hof.
  { intros fd. split.
    - intros (f' & x' & E1 & E2). destruct (decide (f' = f)) as [->|Hne]; [right; congruence|left; exists f', x'; by rewrite Hl].
    - intros [(f' & x' & E1 & E2)| ->]; [apply Hl in E1; exists f', x'; tauto|by apply (fd_is_owned c f)]. }
  assert (forall fd : Z, owns_fd c' fd -> fd <> fh x) as Hne.
  { intros fd (f' & x' & E1 & <-). apply Hl in E1 as [Hne E1]. intros Heq. by destruct Hne; apply (H7 f' f x' x). }
  assert (forall s : nat, owns_stream c s <-> owns_stream c' s \/ stream x = Some s) as Hos.
  { intros s. split.
    - intros (f' & x' & E1 & E2). destruct (decide (f' = f)) as [->|Hn]; [right; congruence|left; exists f', x'; by rewrite Hl].
    - intros [(f' & x' & E1 & E2)|E2]; [apply Hl in E1; exists f', x'; tauto|by exists f, x]. }
  assert (forall s : nat, owns_stream c' s -> stream x <> Some s) as Hns.
  { intros s (f' & x' & E1 & E2) E3. apply Hl in E1 as [Hn E1]. pose proof (H6 f x s Hx E3). pose proof (H6 f' x' s E1 E2).
    destruct Hn. apply (H7 f' f x' x); [done|done|congruence]. }
  constructor.
  - intros fd Ho. apply H1, Hof. by left.
  - intros fd Hno. rewrite Hfd. destruct (decide (fd = fh x)) as [->|Hn].
    + rewrite lookup_delete_eq. symmetry. apply H1, Hof. by right.
    + rewrite lookup_delete_ne by done. apply H2. rewrite Hof. tauto.
  - intros s Ho. apply H3, Hos. by left.
  - intros s Hno. rewrite Hst. destruct (stream x) as [s'|] eqn:Hs.
    + destruct (decide (s = s')) as [->|Hn]; [rewrite lookup_delete_eq; symmetry; apply H3, Hos; by right|].
      rewrite lookup_delete_ne by done. apply H4. rewrite Hos. intros [Hb|Hb]; [done|congruence].
    + apply H4. rewrite Hos. intros [Hb|Hb]; [done|congruence].
  - intros f' x' E1. rewrite Hfd, lookup_delete_ne by (intros Heq; by apply (Hne (fh x')); [apply (fd_is_owned c' f')|]).
    apply Hl in E1 as [_ E1]. by apply (H5 f').
  - intros f' x' s E1 E2. assert (v_streams (sees w) !! s = Some (fh x')) as Hv by (apply Hl in E1 as [_ E1]; by apply (H6 f')).
    rewrite Hst. destruct (stream x) as [s'|] eqn:Hs; [|done]. rewrite lookup_delete_ne; [done|].
    intros ->. by apply (Hns s); [exists f', x'|].
  - intros f1 f2 x1 x2 E1 E2. apply Hl in E1 as [_ E1], E2 as [_ E2]. by apply H7.
Qed.

Lemma free_owned (base : view) (c : file_ctx T) (w : W) (f : Z) : owned base c w ->
  owned base (fst (ina_file_free f (c, w))) (snd (ina_file_free f (c, w))) /\
  heap (fst (ina_file_free f (c, w))) = delete f (heap c).
Proof.
  intros Ho. unfold ina_file_free. destruct (heap c !! f) as [x|] eqn:Hx; [|split; [done|by rewrite delete_id]].
  set (c1 := if has_ctx x then _ else c). assert (heap c1 = heap c) as Hh by (subst c1; by destruct (has_ctx x)). clearbody c1.
  cbn [fst snd]. split; [|by rewrite <- Hh]. apply (owned_delete base c w _ f x); [done|done|by rewrite <- Hh|..].
  - destruct (close_sees (match stream x with Some s => fclose s w | None => w end) (fh x)) as [-> _].
    destruct (stream x) as [s|] eqn:Hs; [|done]. destruct (fclose_sees w s (fh x)) as [-> _]; [by apply (stream_fd base c w Ho f)|].
    by rewrite delete_delete_eq.
  - destruct (close_sees (match stream x with Some s => fclose s w | None => w end) (fh x)) as [_ ->].
    destruct (stream x) as [s|] eqn:Hs; [|done]. by destruct (fclose_sees w s (fh x)) as [_ ->]; [apply (stream_fd base c w Ho f)|].
Qed.
Lemma owned_insert (base : view) (c : file_ctx T) (w w' : W) (f : Z) (x : file) (c' : file_ctx T) :
  owned base c w -> heap c !! f = None -> heap c' = <[f := x]> (heap c) -> stream x = None ->
  v_fds (sees w) !! fh x = None -> is_Some (v_fds (sees w') !! fh x) ->
  (forall fd : Z, fd <> fh x -> v_fds (sees w') !! fd = v_fds (sees w) !! fd) -> v_streams (sees w') = v_streams (sees w) ->
  owned base c' w'.
Proof.
  intros [H1 H2 H3 H4 H5 H6 H7] Hf Hh Hs Hno Hfd Hsame Hst.
  assert (forall (f' : Z) (x' : file), heap c' !! f' = Some x' <-> (f' = f /\ x' = x) \/ (f' <> f /\ heap c !! f' = Some x')) as Hl.
  { intros f' x'. rewrite Hh, lookup_insert_Some. split; [intros [[-> ->]|[? ?]]; [by left|by right]|intros [[-> ->]|[? ?]]; [by left|by right]]. }
  assert (forall (f' : Z) (x' : file), heap c !! f' = Some x' -> heap c' !! f' = Some x') as Hup.
  { intros f' x' E. apply Hl. right. split; [|done]. intros ->. congruence. }
  assert (forall fd : Z, owns_fd c' fd -> owns_fd c fd \/ fd = fh x) as Hof.
  { intros fd (f' & x' & E1 & E2). apply Hl in E1 as [[-> ->]|[_ E1]]; [by right|left; by exists f', x']. }
  assert (forall fd : Z, owns_fd c fd -> owns_fd c' fd) as Hof'.
  { intros fd (f' & x' & E1 & E2). exists f', x'. split; [by apply Hup|done]. }
  assert (forall s : nat, owns_stream c' s <-> owns_stream c s) as Hos.
  { intros s. split; intros (f' & x' & E1 & E2); exists f', x'; [|by split; [apply Hup|]].
    apply Hl in E1 as [[-> ->]|[_ E1]]; [congruence|done]. }
  assert (~ owns_fd c (fh x)) as Hnew.
  { intros (f' & x' & E1 & E2). destruct (H5 f' x' E1) as [o Ho]. congruence. }
  constructor.
  - intros fd Ho. destruct (Hof fd Ho) as [Ho'| ->]; [by apply H1|]. by rewrite <- H2.
  - intros fd Hn. rewrite Hsame; [apply H2; intros Ho; by apply Hn, Hof'|]. intros ->. apply Hn. exists f, x. split; [apply Hl; by left|done].
  - intros s. rewrite Hos. apply H3.
  - intros s. rewrite Hos, Hst. apply H4.
  - intros f' x' E. apply Hl in E as [[-> ->]|[_ E]]; [done|]. rewrite Hsame; [by apply (H5 f')|]. intros Heq. rewrite <- Heq in Hno.
    destruct (H5 f' x' E) as [o Ho]. congruence.
  - intros f' x' s E1 E2. rewrite Hst. apply Hl in E1 as [[-> ->]|[_ E1]]; [congruence|by apply (H6 f')].
  - intros f1 f2 x1 x2 E1 E2 Heq. apply Hl in E1 as [[-> ->]|[N1 E1]]; apply Hl in E2 as [[-> ->]|[N2 E2]]; [done|..|by apply (H7 f1 f2 x1 x2)].
    + destruct Hnew. rewrite Heq. by apply (fd_is_owned c f2).
    + destruct Hnew. rewrite <- Heq. by apply (fd_is_owned c f1).
Qed.

Lemma new_owned (base : view) (path : string) (a : access_mode) (cr : create_mode) (s : share_mode) (flags f : Z) (c : file_ctx T) (w : W) :
  owned base c w -> listed c -> good_ptr f -> heap c !! f = None ->
  let '(c', w', r) := ina_file_new path a cr s flags f c w in
  owned base c' w' /\ listed c' /\
  (r = Ok f /\ (exists x : file, heap c' = <[f := x]> (heap c) /\ has_ctx x = true) \/ r = Err INA_ERR_FILE_OPEN /\ heap c' = heap c).
Proof.
  intros Ho Hli Hg Hf. unfold ina_file_new. rewrite (proj2 (Z.eqb_neq f 0)) by (by apply good_ptr_nonzero).
  set (pf := __ina_file_posix_map_flags a cr s flags). pose proof (open_sees w path pf (default_mode c)) as Hop.
  destruct (open path pf (default_mode c) w) as [w1 fd]. destruct Hop as [(-> & Hfd & Hst)|(Hpos & Hno & Hst & o & Hfd)].
  - change (-1 <? 0) with true. cbn iota. unfold ina_file_free at 1. cbn [set_heap heap]. rewrite lookup_insert_eq. cbn [has_ctx stream fh].
    destruct (close_sees w1 (-1)) as [Hc1 Hc2].
    assert (v_fds (sees w1) !! (-1) = None) as Hneg.
    { destruct (v_fds (sees w1) !! (-1)) eqn:Hx; [|done]. pose proof (fds_sees w1 (-1) ltac:(by rewrite Hx)). lia. }
    cbn [set_files set_heap files heap default_mode]. rewrite delete_insert_id by done.
    split; [|split; [|by right]].
    + destruct Ho as [H1 H2 H3 H4 H5 H6 H7]. constructor; try done; cbn [heap]; rewrite ?Hc1, ?Hc2, ?Hst, ?(delete_id _ _ Hneg), ?Hfd; done.
    + destruct Hli as (m & Hm & L1 & L2). exists (delete (key_ptr f) m). cbn [files heap].
      assert (m !! key_ptr f = None) as Hmf.
      { destruct (m !! key_ptr f) as [f'|] eqn:Hk; [|done]. destruct (L2 _ _ Hk) as [Hi He].
        destruct (L1 f' Hi) as [Hg' _]. apply key_ptr_inj in He; [|done|done]. subst f'. rewrite Hf in Hi. by inversion Hi. }
      split; [by apply tb_remove_rep; [|apply key_ptr_valid]|]. by rewrite delete_id.
  - rewrite (proj2 (Z.ltb_ge fd 0)) by done. set (w2 := if has_flag _ _ then _ else _).
    assert (sees w2 = sees w1) as Hw2 by (subst w2; destruct (has_flag _ _); [apply fadvise_sees|destruct (has_flag _ _); [apply fadvise_sees|done]]).
    clearbody w2. set (x := File_ true path fd None a cr s).
    split; [|split; [|left; split; [done|by exists x]]].
    + apply (owned_insert base c w w2 f x); try done; cbn [fh x]; rewrite Hw2.
      * by rewrite Hfd, lookup_insert_eq.
      * intros fd' Hne. by rewrite Hfd, lookup_insert_ne.
      * done.
    + destruct Hli as (m & Hm & L1 & L2). exists (<[key_ptr f := f]> m). cbn [set_files set_heap files heap].
      split; [apply tb_set_rep; [done|by apply key_ptr_valid|by apply good_ptr_nonzero]|]. split.
      * intros f' Hi. destruct (decide (f' = f)) as [->|Hne]; [by rewrite lookup_insert_eq|]. rewrite lookup_insert_ne in Hi by done.
        destruct (L1 f' Hi) as [Hg' Hm']. split; [done|]. rewrite lookup_insert_ne; [done|]. intros Hk. apply key_ptr_inj in Hk; [by destruct Hne|done|done].
      * intros k f'. destruct (decide (k = key_ptr f)) as [->|Hne].
        -- rewrite lookup_insert_eq. intros [= <-]. by rewrite lookup_insert_eq.
        -- rewrite lookup_insert_ne by done. intros Hk. destruct (L2 k f' Hk) as [Hi He]. split; [|done].
           rewrite lookup_insert_ne; [done|]. intros Heq. by rewrite Heq in Hne.
Qed.

Lemma free_listed (c : file_ctx T) (w : W) (f : Z) (x : file) : listed c -> heap c !! f = Some x -> has_ctx x = true ->
  listed (fst (ina_file_free f (c, w))).
Proof.
  intros (m & Hm & L1 & L2) Hx Hc. unfold ina_file_free. rewrite Hx, Hc. cbn [fst].
  destruct (L1 f) as [Hg Hmf]; [by rewrite Hx|]. exists (delete (key_ptr f) m). cbn [set_files set_heap files heap].
  split; [by apply tb_remove_rep; [|apply key_ptr_valid]|]. split.
  - intros f' Hi. destruct (decide (f' = f)) as [->|Hne]; [by rewrite lookup_delete_eq in Hi; inversion Hi|].
    rewrite lookup_delete_ne in Hi by done. destruct (L1 f' Hi) as [Hg' Hm']. split; [done|]. rewrite lookup_delete_ne; [done|].
    intros Hk. apply key_ptr_inj in Hk; [by destruct Hne|done|done].
  - intros k f' Hk. apply lookup_delete_Some in Hk as [Hne Hk]. destruct (L2 k f' Hk) as [Hi He]. split; [|done].
    rewrite lookup_delete_ne; [done|]. intros Heq. by rewrite Heq in Hne.
Qed.
(** Taking the stream of a file of a context. *)
Definition context_stream (f : Z) (cw : file_ctx T * W) : file_ctx T * W :=
  let '(c, w) := cw in
  match heap c !! f with
  | Some x => let '(x, w, _) := ina_file_get_stream x w in (set_heap (<[f := x]> (heap c)) c, w)
  | None => (c, w)
  end.

Lemma stream_owned (base : view) (c : file_ctx T) (w : W) (f : Z) : owned base c w ->
  owned base (fst (context_stream f (c, w))) (snd (context_stream f (c, w))).
Proof.
  intros Ho. unfold context_stream. destruct (heap c !! f) as [x|] eqn:Hx; [|done].
  unfold ina_file_get_stream. destruct (stream x) as [s|] eqn:Hs.
  { cbn [fst snd]. rewrite insert_id by done. by destruct c. }
  pose proof (fdopen_sees w (fh x) (stream_mode (access x) (create x))) as Hop.
  destruct (fdopen (fh x) (stream_mode (access x) (create x)) w) as [w' r]. destruct Hop as [Hfd Hr]. cbn [fst snd].
  destruct Ho as [H1 H2 H3 H4 H5 H6 H7]. set (c' := set_heap _ c).
  assert (forall (f' : Z) (x' : file), heap c' !! f' = Some x' <-> (f' = f /\ x' = set_stream r x) \/ (f' <> f /\ heap c !! f' = Some x')) as Hl.
  { intros f' x'. subst c'. cbn [set_heap heap]. rewrite lookup_insert_Some.
    split; [intros [[-> ->]|[? ?]]; [by left|by right]|intros [[-> ->]|[? ?]]; [by left|by right]]. }
  assert (forall fd : Z, owns_fd c' fd <-> owns_fd c fd) as Hof.
  { intros fd. split; intros (f' & x' & E1 & E2).
    - apply Hl in E1 as [[-> ->]|[_ E1]]; [by exists f, x|by exists f', x'].
    - destruct (decide (f' = f)) as [->|Hne]; [exists f, (set_stream r x)|exists f', x']; (split; [apply Hl; tauto|]); cbn; congruence. }
  assert (forall s : nat, owns_stream c' s <-> owns_stream c s \/ r = Some s) as Hos.
  { intros s. split.
    - intros (f' & x' & E1 & E2). apply Hl in E1 as [[-> ->]|[_ E1]]; [by right|left; by exists f', x'].
    - intros [(f' & x' & E1 & E2)|Hr'].
      + exists f', x'. split; [|done]. apply Hl. right. split; [|done]. intros ->. congruence.
      + exists f, (set_stream r x). split; [apply Hl; by left|done]. }
  assert (forall s : nat, owns_stream c s -> is_Some (v_streams (sees w) !! s)) as Hopen.
  { intros s (f' & x' & E1 & E2). by rewrite (H6 f' x' s). }
  constructor.
  - intros fd. rewrite Hof. apply H1.
  - intros fd. rewrite Hof, Hfd. apply H2.
  - intros s Hso. apply Hos in Hso as [Hso| ->]; [by apply H3|]. destruct Hr as [Hno _]. rewrite <- H4; [done|].
    intros Hso. destruct (Hopen s Hso) as [y Hy]. congruence.
  - intros s Hno. rewrite Hos in Hno. destruct r as [s'|]; [destruct Hr as [_ ->]|rewrite Hr; apply H4; tauto].
    rewrite lookup_insert_ne by (intros ->; tauto). apply H4. tauto.
  - intros f' x' E. rewrite Hfd. apply Hl in E as [[-> ->]|[_ E]]; [by apply (H5 f x)|by apply (H5 f')].
  - intros f' x' s E1 E2. apply Hl in E1 as [[-> ->]|[_ E1]].
    + cbn in E2. subst r. destruct Hr as [_ ->]. apply lookup_insert_eq.
    + pose proof (H6 f' x' s E1 E2) as Hv. destruct r as [s'|]; [|by rewrite Hr]. destruct Hr as [Hno ->].
      rewrite lookup_insert_ne by (intros ->; congruence). done.
  - intros f1 f2 x1 x2 E1 E2 Heq. apply Hl in E1 as [[-> ->]|[N1 E1]]; apply Hl in E2 as [[-> ->]|[N2 E2]]; [done|..|by apply (H7 f1 f2 x1 x2)].
    + by apply (H7 f f2 x x2).
    + by apply (H7 f1 f x1 x).
Qed.

(** ** A context in use *)
Inductive f_op :=
  | FNew (path : string) (a : access_mode) (cr : create_mode) (s : share_mode) (flags f : Z)
  | FFree (f : Z) | FStream (f : Z).
Definition f_exec (cw : file_ctx T * W) (o : f_op) : file_ctx T * W :=
  match o with
  | FNew path a cr s flags f => let '(c, w, _) := ina_file_new path a cr s flags f (fst cw) (snd cw) in (c, w)
  | FFree f => ina_file_free f cw
  | FStream f => context_stream f cw
  end.
(** An address that is allocated is not in use. *)
Definition f_ok (cw : file_ctx T * W) (o : f_op) : Prop :=
  match o with FNew _ _ _ _ _ f => good_ptr f /\ heap (fst cw) !! f = None | _ => True end.
Fixpoint f_run_ok (ops : list f_op) (cw : file_ctx T * W) : Prop :=
  match ops with [] => True | o :: ops => f_ok cw o /\ f_run_ok ops (f_exec cw o) end.
Definition in_ctx (c : file_ctx T) : Prop := forall (f : Z) (x : file), heap c !! f = Some x -> has_ctx x = true.

Lemma exec_owned (base : view) (cw : file_ctx T * W) (o : f_op) : owned base (fst cw) (snd cw) -> listed (fst cw) -> in_ctx (fst cw) -> f_ok cw o ->
  owned base (fst (f_exec cw o)) (snd (f_exec cw o)) /\ listed (fst (f_exec cw o)) /\ in_ctx (fst (f_exec cw o)).
Proof.
  destruct cw as [c w]. cbn [fst snd]. intros Ho Hli Hin Hok. destruct o as [path a cr s flags f|f|f]; cbn [f_exec fst snd].
  - destruct Hok as [Hg Hf]. cbn [fst] in Hf. pose proof (new_owned base path a cr s flags f c w Ho Hli Hg Hf) as Hn.
    destruct (ina_file_new path a cr s flags f c w) as [[c' w'] r]. cbn [fst snd]. destruct Hn as (Ho' & Hli' & Hr).
    split; [done|]. split; [done|]. destruct Hr as [(_ & x & Hh & Hx)|(_ & Hh)]; intros f' x'; rewrite Hh; [|apply Hin].
    rewrite lookup_insert_Some. intros [[<- <-]|[_ E]]; [done|by apply (Hin f')].
  - destruct (free_owned base c w f Ho) as [Ho' Hh]. split; [done|]. split.
    + destruct (heap c !! f) as [x|] eqn:Hx; [apply (free_listed c w f x Hli Hx); by apply (Hin f)|].
      unfold ina_file_free. by rewrite Hx.
    + intros f' x' E. rewrite Hh in E. apply lookup_delete_Some in E as [_ E]. by apply (Hin f').
  - split; [by apply stream_owned|]. unfold context_stream. destruct (heap c !! f) as [x|] eqn:Hx; [|done].
    destruct (ina_file_get_stream x w) as [[x' w'] r] eqn:Hg. cbn [fst].
    assert (has_ctx x' = has_ctx x) as Hc.
    { unfold ina_file_get_stream in Hg. destruct (stream x); [congruence|]. destruct (fdopen _ _ _) as [w1 r1]. by injection Hg as <- _ _. }
    split.
    + destruct Hli as (m & Hm & L1 & L2). exists m. cbn [set_heap files heap]. split; [done|]. split.
      * intros f' Hi. apply L1. apply lookup_insert_is_Some in Hi as [<-|[_ Hi]]; [by rewrite Hx|done].
      * intros k f' Hk. destruct (L2 k f' Hk) as [Hi He]. split; [|done]. apply lookup_insert_is_Some. destruct (decide (f = f')); [by left|by right].
    + intros f' x0 E. cbn [set_heap heap] in E. apply lookup_insert_Some in E as [[<- <-]|[_ E]]; [rewrite Hc; by apply (Hin f)|by apply (Hin f')].
Qed.

Lemma run_owned (base : view) (ops : list f_op) (cw : file_ctx T * W) : owned base (fst cw) (snd cw) -> listed (fst cw) -> in_ctx (fst cw) ->
  f_run_ok ops cw ->
  let cw' := fold_left f_exec ops cw in owned base (fst cw') (snd cw') /\ listed (fst cw') /\ in_ctx (fst cw').
Proof.
  revert cw. induction ops as [|o ops IH]; intros cw Ho Hli Hin Hok; cbn [fold_left]; [done|].
  destruct Hok as [Hok1 Hok]. destruct (exec_owned base cw o Ho Hli Hin Hok1) as (Ho' & Hli' & Hin'). by apply IH.
Qed.

(** Freeing a context frees its files one after the other. *)
Lemma free_step (base : view) (c : file_ctx T) (w : W) (f : Z) : owned base c w ->
  owned base (fst (__ina_free_file (c, w) f)) (snd (__ina_free_file (c, w) f)) /\ heap (fst (__ina_free_file (c, w) f)) = delete f (heap c).
Proof.
  intros Ho. unfold __ina_free_file. set (c1 := set_heap (alter leave_ctx f (heap c)) c).
  assert (forall (f' : Z) (x' : file), heap c1 !! f' = Some x' -> exists x : file, heap c !! f' = Some x /\ fh x = fh x' /\ stream x = stream x') as Hl.
  { intros f' x' E. subst c1. cbn [set_heap heap] in E. destruct (decide (f' = f)) as [->|Hne].
    - rewrite lookup_alter_eq in E. apply fmap_Some in E as (x & Hx & ->). by exists x.
    - rewrite lookup_alter_ne in E by done. by exists x'. }
  assert (forall (f' : Z) (x : file), heap c !! f' = Some x -> exists x' : file, heap c1 !! f' = Some x' /\ fh x = fh x' /\ stream x = stream x') as Hl'.
  { intros f' x E. subst c1. cbn [set_heap heap]. destruct (decide (f' = f)) as [->|Hne].
    - rewrite lookup_alter_eq, E. by eexists.
    - rewrite lookup_alter_ne by done. by exists x. }
  assert (owned base c1 w) as Ho1.
  { destruct Ho as [H1 H2 H3 H4 H5 H6 H7]. constructor.
    - intros fd (f' & x' & E1 & E2). destruct (Hl f' x' E1) as (x & E & Efh & Es). apply H1. exists f', x. split; [done|congruence].
    - intros fd Hno. apply H2. intros (f' & x & E1 & E2). destruct (Hl' f' x E1) as (x' & E & Efh & Es). apply Hno. exists f', x'. split; [done|congruence].
    - intros s (f' & x' & E1 & E2). destruct (Hl f' x' E1) as (x & E & Efh & Es). apply H3. exists f', x. split; [done|congruence].
    - intros s Hno. apply H4. intros (f' & x & E1 & E2). destruct (Hl' f' x E1) as (x' & E & Efh & Es). apply Hno. exists f', x'. split; [done|congruence].
    - intros f' x' E1. destruct (Hl f' x' E1) as (x & E & <- & Es). by apply (H5 f').
    - intros f' x' s E1 E2. destruct (Hl f' x' E1) as (x & E & <- & Es). apply (H6 f' x s); [done|congruence].
    - intros f1 f2 x1 x2 E1 E2 Heq. destruct (Hl f1 x1 E1) as (y1 & F1 & G1 & _). destruct (Hl f2 x2 E2) as (y2 & F2 & G2 & _).
      apply (H7 f1 f2 y1 y2); [done|done|congruence]. }
  destruct (free_owned base c1 w f Ho1) as [Ho2 Hh]. split; [done|]. rewrite Hh. subst c1. cbn [set_heap heap].
  apply map_eq. intros i. destruct (decide (i = f)) as [->|Hne]; [by rewrite !lookup_delete_eq|].
  by rewrite !lookup_delete_ne, lookup_alter_ne by done.
Qed.

Lemma free_all (base : view) (fs : list Z) (c : file_ctx T) (w : W) : owned base c w ->
  let cw' := fold_left __ina_free_file fs (c, w) in
  owned base (fst cw') (snd cw') /\ (forall f : Z, is_Some (heap (fst cw') !! f) -> is_Some (heap c !! f) /\ f ∉ fs).
Proof.
  revert c w. induction fs as [|f fs IH]; intros c w Ho; cbn [fold_left].
  - split; [done|]. intros f Hf. split; [done|]. by intros ?%elem_of_nil.
  - destruct (free_step base c w f Ho) as [Ho' Hh]. destruct (__ina_free_file (c, w) f) as [c1 w1]. cbn [fst snd] in *.
    destruct (IH c1 w1 Ho') as [Ho2 Hl]. split; [done|]. intros f' Hf'. destruct (Hl f' Hf') as [Hi Hn]. rewrite Hh in Hi.
    destruct (decide (f' = f)) as [->|Hne]; [rewrite lookup_delete_eq in Hi; by inversion Hi|]. rewrite lookup_delete_ne in Hi by done.
    split; [done|]. rewrite elem_of_cons. by intros [?|?].
Qed.
End Owned.

(** C16. A context closes what it opened, and nothing else.  Whatever files are
    opened, in whatever modes and also without success, freed and used as streams
    through a new context: each open file has a descriptor of its own that was not
    open before, and when the context is freed, every descriptor and every stream
    that was opened is closed and all others are as they were. *)
Theorem context_closes_its_files {T W : Type} `{!TableOps T, !TableLaws 8 T, !Posix W, !PosixLaws W}
    (t : T) (mode : Z) (ops : list f_op) (c : file_ctx T) (w : W) :
  tb_rep t ∅ -> ina_file_ctx_new true (Ok t) mode = Some (Ok c) -> f_run_ok ops (c, w) ->
  let cw := fold_left f_exec ops (c, w) in
  let cw' := ina_file_ctx_free (fst cw) (snd cw) in
  (forall (f f' : Z) (x x' : file), heap (fst cw) !! f = Some x -> heap (fst cw) !! f' = Some x' -> fh x = fh x' -> f = f') /\
  (forall (f : Z) (x : file), heap (fst cw) !! f = Some x -> v_fds (sees w) !! fh x = None /\ is_Some (v_fds (sees (snd cw)) !! fh x)) /\
  heap (fst cw') = ∅ /\ v_fds (sees (snd cw')) = v_fds (sees w) /\ v_streams (sees (snd cw')) = v_streams (sees w).
Proof.
  intros Ht [= <-] Hok. set (c0 := FileCtx (if mode =? 0 then standard_mode else mode) t ∅) in *.
  assert (owned (sees w) c0 w) as Ho.
  { constructor; cbn [heap]; try done; [intros fd (f & x & E & _)|intros s (f & x & E & _)]; done. }
  destruct (run_owned (sees w) ops (c0, w) Ho) as (Ho' & Hli & Hin); [|by intros f x|done|].
  { exists ∅. split; [done|]. split; [|done]. intros f Hf. change (is_Some ((∅ : gmap Z file) !! f)) in Hf. rewrite lookup_empty in Hf. by inversion Hf. }
  cbn zeta. destruct (fold_left f_exec ops _) as [c' w']. cbn [fst snd] in *.
  split; [apply (fd_inj _ _ _ Ho')|]. split.
  { intros f x Hx. split; [apply (own_fd _ _ _ Ho'); by apply (fd_is_owned c' f)|by apply (fd_open _ _ _ Ho' f)]. }
  unfold ina_file_ctx_free. destruct Hli as (m & Hm & L1 & L2). destruct (tb_foreach_rep _ _ Hm) as (l & Hl & ->).
  destruct (free_all (sees w) l.*2 c' w' Ho') as [Ho2 Hrest]. destruct (fold_left __ina_free_file l.*2 (c', w')) as [c2 w2]. cbn [fst snd] in *.
  assert (heap c2 = ∅) as He.
  { apply map_empty. intros f. destruct (heap c2 !! f) eqn:Hf; [|done]. destruct (Hrest f ltac:(by rewrite Hf)) as [Hi Hn].
    destruct Hn. destruct (L1 f Hi) as [_ Hk]. apply list_elem_of_fmap. exists (key_ptr f, f). split; [done|].
    rewrite Hl. by apply elem_of_map_to_list. }
  split; [done|]. split; apply map_eq; intros i; [apply (other_fd _ _ _ Ho2)|apply (other_stream _ _ _ Ho2)];
    intros (f & x & E & _); rewrite He in E; done.
Qed.

(** ** Reading what was written *)
Lemma written_at (pos : nat) (bs c : list Z) : take (length bs) (drop pos (written pos bs c)) = bs.
Proof.
  unfold written. rewrite app_assoc, drop_app_length' by (rewrite length_app, length_take, length_replicate; lia).
  apply take_app_length.
Qed.
Lemma written_length (pos : nat) (bs c : list Z) : length (written pos bs c) = (length c `max` (pos + length bs))%nat.
Proof. unfold written. rewrite !length_app, length_take, length_replicate, length_drop. lia. Qed.

Lemma seek_sees {W : Type} `{!Posix W, !PosixLaws W} (off : Z) (m : whence) (x : file) (w w' : W) (o : opened) (r : result unit) :
  v_fds (sees w) !! fh x = Some o -> seek off m x w = (w', r) ->
  match r with
  | Ok _ => 0 <= seek_to (sees w) o off m /\ sees w' = set_fd (fh x) (Opened (o_file o) (seek_to (sees w) o off m) (o_append o)) (sees w)
  | Err e => e = INA_ERR_OPERATION_FAILED /\ sees w' = sees w
  end.
Proof.
  intros Ho. unfold seek. pose proof (lseek_sees w (fh x) off m o Ho) as Hl. destruct (lseek (fh x) off m w) as [w1 p].
  destruct Hl as [[-> Hw]|(Hp & -> & Hw)].
  - change (-1 =? -1) with true. cbn iota. by intros [= <- <-].
  - rewrite (proj2 (Z.eqb_neq _ _)) by lia. intros [= <- <-]. done.
Qed.

(** C17. What was written is read back.  After a write to an open file of which [n]
    bytes were taken, going back to where it started and reading gives the
    beginning of those bytes, at least one if [n] is not zero, and only these bytes
    and the file's length, if it grew, have changed. *)
Theorem written_is_read_back {W : Type} `{!Posix W, !PosixLaws W} (x : file) (o : opened) (buf bs : list Z) (n len : Z) (w w1 w2 w3 : W) :
  v_fds (sees w) !! fh x = Some o -> o_append o = false -> 0 <= o_pos o < 2 ^ 63 ->
  ina_file_write buf x w = (w1, Ok n) -> ina_file_set_pos (o_pos o) INA_FILE_SEEK_MODE_SET x w1 = (w2, Ok tt) ->
  ina_file_read len x w2 = (w3, Ok bs) -> len <= n ->
  bs = take (length bs) buf /\ bs <> [] /\
  v_files (sees w3) = <[o_file o := written (Z.to_nat (o_pos o)) (take (Z.to_nat n) buf) (content (sees w) o)]> (v_files (sees w)).
Proof.
  intros Ho Ha Hpos Hw Hs Hr Hlen. unfold ina_file_write in Hw. destruct (Z.ltb_spec 0 (Z.of_nat (length buf))) as [Hb|]; [|done].
  cbn [negb] in Hw. pose proof (write_sees w (fh x) buf o Ho) as Hws. destruct (write (fh x) buf w) as [w' [n'|]]; [|done].
  injection Hw as -> ->. destruct Hws as [Hn Hw1]; [by intros ->|]. rewrite Ha in Hw1. cbn zeta in Hw1.
  set (c := written (Z.to_nat (o_pos o)) (take (Z.to_nat n) buf) (content (sees w) o)) in *.
  assert (v_fds (sees w1) !! fh x = Some (Opened (o_file o) (o_pos o + n) false)) as Ho1 by (rewrite Hw1; apply lookup_insert_eq).
  unfold ina_file_set_pos, to_off in Hs. rewrite (proj2 (Z.ltb_lt _ _)) in Hs by lia.
  pose proof (seek_sees _ SEEK_SET x w1 w2 _ _ Ho1 Hs) as [_ Hw2]. cbn [seek_to o_file o_append] in Hw2.
  assert (v_fds (sees w2) !! fh x = Some (Opened (o_file o) (o_pos o) false)) as Ho2 by (rewrite Hw2; apply lookup_insert_eq).
  assert (content (sees w2) (Opened (o_file o) (o_pos o) false) = c) as Hc.
  { unfold content. rewrite Hw2. cbn [v_files set_fd o_file]. rewrite Hw1. cbn [v_files]. by rewrite lookup_insert_eq. }
  unfold ina_file_read in Hr. destruct (Z.ltb_spec 0 len) as [Hl|]; [|done]. cbn [negb] in Hr.
  pose proof (read_sees w2 (fh x) len _ Ho2 Hl) as Hrs. destruct (read (fh x) len w2) as [w' [bs'|]]; [|done].
  injection Hr as -> ->. destruct Hrs as (Hbs & Hll & Hne & Hw3). rewrite Hc in *. cbn [o_pos] in *.
  assert (length (take (Z.to_nat n) buf) = Z.to_nat n) as Htn by (rewrite length_take; lia).
  assert (take (Z.to_nat n) (drop (Z.to_nat (o_pos o)) c) = take (Z.to_nat n) buf) as Hat by (rewrite <- Htn at 1; apply written_at).
  split; [|split].
  - rewrite Hbs at 1. rewrite <- (Nat.min_l (length bs) (Z.to_nat n)) at 1 by lia. rewrite <- take_take, Hat, take_take.
    f_equal. lia.
  - intros He. specialize (Hne He). apply (f_equal length) in Hne. rewrite length_drop in Hne. subst c. rewrite written_length, Htn in Hne. cbn in Hne. lia.
  - rewrite Hw3. cbn [set_fd v_files]. rewrite Hw2. cbn [set_fd v_files]. by rewrite Hw1.
Qed.

(** ** A system with files in memory

    Paths lead to files; a call moves at most one byte more than [d_limit].
    [d_more] is for what others add to the system. *)
Record disk (X : Type) := Disk { d_view : view; d_paths : gmap string nat; d_limit : nat; d_more : X }.
Arguments Disk {X} _ _ _ _.
Arguments d_view {X} _.
Arguments d_paths {X} _.
Arguments d_limit {X} _.
Arguments d_more {X} _.

Section Disk.
Context {X : Type}.
#[local] Abbreviation disk := (disk X).
Definition d_fds (d : disk) : gmap Z opened := v_fds (d_view d).
Definition with_view (v : view) (d : disk) : disk := Disk v (d_paths d) (d_limit d) (d_more d).
Definition view_fds (m : gmap Z opened) (v : view) : view := View m (v_streams v) (v_files v) (v_umask v).
Definition next_fd (m : gmap Z opened) : Z := map_fold (fun (k : Z) (_ : opened) (r : Z) => Z.max r (k + 1)) 0 m.
Definition next_id {A : Type} (m : gmap nat A) : nat := map_fold (fun (k : nat) (_ : A) (r : nat) => Nat.max r (S k)) 0%nat m.

Definition d_open (path : string) (flags mode : Z) (d : disk) : disk * Z :=
  let v := d_view d in
  let o := fun n => Opened n 0 (has_flag flags O_APPEND) in
  let fd := next_fd (v_fds v) in
  match d_paths d !! path with
  | Some n =>
      if has_flag flags O_CREAT && has_flag flags O_EXCL then (d, -1)
      else (with_view (set_fd fd (o n) v) d, fd)
  | None =>
      if has_flag flags O_CREAT then
        let n := next_id (v_files v) in
        (Disk (View (<[fd := o n]> (v_fds v)) (v_streams v) (<[n := []]> (v_files v)) (v_umask v)) (<[path := n]> (d_paths d)) (d_limit d) (d_more d), fd)
      else (d, -1)
  end.
Definition d_close (fd : Z) (d : disk) : disk := with_view (view_fds (delete fd (d_fds d)) (d_view d)) d.
Definition d_read (fd len : Z) (d : disk) : disk * option (list Z) :=
  match d_fds d !! fd with
  | Some o =>
      let bs := take (Z.to_nat len `min` S (d_limit d)) (drop (Z.to_nat (o_pos o)) (content (d_view d) o)) in
      (with_view (set_fd fd (Opened (o_file o) (o_pos o + Z.of_nat (length bs)) (o_append o)) (d_view d)) d, Some bs)
  | None => (d, None)
  end.
Definition d_write (fd : Z) (bs : list Z) (d : disk) : disk * option Z :=
  match d_fds d !! fd with
  | Some o =>
      let v := d_view d in
      let n := Z.of_nat (length bs `min` S (d_limit d)) in
      let pos := if o_append o then Z.of_nat (length (content v o)) else o_pos o in
      (with_view (View (<[fd := Opened (o_file o) (pos + n) (o_append o)]> (v_fds v)) (v_streams v)
        (<[o_file o := written (Z.to_nat pos) (take (Z.to_nat n) bs) (content v o)]> (v_files v)) (v_umask v)) d, Some n)
  | None => (d, None)
  end.
Definition d_lseek (fd off : Z) (m : whence) (d : disk) : disk * Z :=
  match d_fds d !! fd with
  | Some o =>
      let p := seek_to (d_view d) o off m in
      if p <? 0 then (d, -1) else (with_view (set_fd fd (Opened (o_file o) p (o_append o)) (d_view d)) d, p)
  | None => (d, -1)
  end.
Definition d_fstat (fd : Z) (d : disk) : option stat :=
  (fun o => Stat (Z.of_nat (length (content (d_view d) o))) 33188 0 0) <$> d_fds d !! fd.
Definition d_fdopen (fd : Z) (mode : string) (d : disk) : disk * option nat :=
  let v := d_view d in
  let s := next_id (v_streams v) in
  match d_fds d !! fd with
  | Some _ => (with_view (View (v_fds v) (<[s := fd]> (v_streams v)) (v_files v) (v_umask v)) d, Some s)
  | None => (d, None)
  end.
Definition d_fclose (s : nat) (d : disk) : disk :=
  let v := d_view d in
  match v_streams v !! s with
  | Some fd => with_view (View (delete fd (v_fds v)) (delete s (v_streams v)) (v_files v) (v_umask v)) d
  | None => d
  end.
Definition d_umask (m : Z) (d : disk) : disk * Z :=
  let v := d_view d in (with_view (View (v_fds v) (v_streams v) (v_files v) m) d, v_umask v).

#[export] Instance disk_posix : Posix disk := {
  open := d_open; posix_fadvise := fun _ _ d => d; close := d_close; read := d_read; write := d_write; lseek := d_lseek;
  fstat := d_fstat; fdopen := d_fdopen; fclose := d_fclose; umask := d_umask; fchmod := fun fd _ d => (d, bool_decide (is_Some (d_fds d !! fd)))
}.

Lemma next_fd_spec (m : gmap Z opened) : 0 <= next_fd m /\ m !! next_fd m = None.
Proof.
  assert (0 <= next_fd m /\ forall k : Z, is_Some (m !! k) -> k < next_fd m) as [H0 Hall].
  { unfold next_fd. apply (map_fold_weak_ind (fun (r : Z) (m : gmap Z opened) => 0 <= r /\ forall k : Z, is_Some (m !! k) -> k < r)).
    - split; [done|]. intros k [x Hx]. by rewrite lookup_empty in Hx.
    - intros i x m' r Hi [Hr Hk]. split; [lia|]. intros k. rewrite lookup_insert_is_Some. intros [<-|[_ Hx]]; [lia|].
      specialize (Hk k Hx). lia. }
  split; [done|]. destruct (m !! next_fd m) eqn:Hn; [|done]. specialize (Hall (next_fd m) ltac:(by rewrite Hn)). lia.
Qed.
Lemma next_id_spec {A : Type} (m : gmap nat A) : m !! next_id m = None.
Proof.
  assert (forall k : nat, is_Some (m !! k) -> (k < next_id m)%nat) as Hall.
  { unfold next_id. apply (map_fold_weak_ind (fun (r : nat) (m : gmap nat A) => forall k : nat, is_Some (m !! k) -> (k < r)%nat)).
    - intros k [x Hx]. by rewrite lookup_empty in Hx.
    - intros i x m' r Hi Hk k. rewrite lookup_insert_is_Some. intros [<-|[_ Hx]]; [lia|]. specialize (Hk k Hx). lia. }
  destruct (m !! next_id m) eqn:Hn; [|done]. specialize (Hall (next_id m) ltac:(by rewrite Hn)). lia.
Qed.

(** Only descriptors that are not negative are seen. *)
Definition is_fd (p : Z * opened) : Prop := 0 <= p.1.
#[local] Instance is_fd_dec (p : Z * opened) : Decision (is_fd p).
Proof. unfold is_fd. apply _. Defined.
Definition d_sees (d : disk) : view := view_fds (filter is_fd (d_fds d)) (d_view d).

Lemma d_sees_fd (d : disk) (fd : Z) (o : opened) : v_fds (d_sees d) !! fd = Some o -> 0 <= fd /\ d_fds d !! fd = Some o.
Proof. cbn. intros Hf. apply map_lookup_filter_Some in Hf as [H1 H2]. by split. Qed.
Lemma d_sees_set (d : disk) (fd : Z) (o : opened) : 0 <= fd -> d_sees (with_view (set_fd fd o (d_view d)) d) = set_fd fd o (d_sees d).
Proof.
  intros Hp. unfold d_sees, set_fd, view_fds, d_fds. cbn. f_equal. apply map_filter_insert_True. done.
Qed.

Lemma take_own_length {A : Type} (n : nat) (l : list A) : take n l = take (length (take n l)) l.
Proof. rewrite length_take. destruct (Nat.le_ge_cases n (length l)); [by rewrite Nat.min_l|]. by rewrite Nat.min_r, !take_ge. Qed.

#[export] Program Instance disk_laws : PosixLaws disk := { sees := d_sees }.
Next Obligation. intros w fd [o Ho]. apply d_sees_fd in Ho as [? _]. done. Qed.
Next Obligation.
  intros w path flags mode. cbn [open disk_posix]. unfold d_open. destruct (next_fd_spec (v_fds (d_view w))) as [Hp Hn].
  assert (v_fds (d_sees w) !! next_fd (v_fds (d_view w)) = None) as Hn' by (apply map_lookup_filter_None; by left).
  destruct (d_paths w !! path) as [n|]; destruct (has_flag flags O_CREAT); cbn [andb]; [destruct (has_flag flags O_EXCL)|..];
    try (left; done); right; (split; [exact Hp|]); (split; [exact Hn'|]); (split; [done|]); eexists;
    cbn; unfold d_fds; cbn; by rewrite map_filter_insert_True.
Qed.
Next Obligation. done. Qed.
Next Obligation. intros w fd. cbn. split; [|done]. unfold d_fds. cbn. apply map_filter_delete. Qed.
Next Obligation.
  intros w fd len o Ho Hlen. apply d_sees_fd in Ho as [Hp Ho]. cbn [read disk_posix]. unfold d_read. rewrite Ho.
  set (rest := drop (Z.to_nat (o_pos o)) (content (d_view w) o)).
  change (drop (Z.to_nat (o_pos o)) (content (d_sees w) o)) with rest. split; [|split; [|split]].
  - apply take_own_length.
  - rewrite length_take. lia.
  - rewrite <- length_zero_iff_nil, length_take. intros Hz. apply length_zero_iff_nil. lia.
  - by apply d_sees_set.
Qed.
Next Obligation.
  intros w fd bs o Ho Hbs. apply d_sees_fd in Ho as [Hp Ho]. cbn [write disk_posix]. unfold d_write. rewrite Ho.
  split; [lia|]. cbn zeta. unfold d_sees, with_view, view_fds, d_fds. cbn. f_equal. by apply map_filter_insert_True.
Qed.
Next Obligation.
  intros w fd off m o Ho. apply d_sees_fd in Ho as [Hp Ho]. cbn [lseek disk_posix]. unfold d_lseek. rewrite Ho.
  change (seek_to (d_sees w) o off m) with (seek_to (d_view w) o off m).
  destruct (Z.ltb_spec (seek_to (d_view w) o off m) 0); [by left|]. right. split; [done|]. split; [done|]. by apply d_sees_set.
Qed.
Next Obligation.
  intros w fd o st Ho Hst. apply d_sees_fd in Ho as [Hp Ho]. cbn in Hst. unfold d_fstat in Hst. rewrite Ho in Hst.
  by injection Hst as <-.
Qed.
Next Obligation.
  intros w fd mode. cbn [fdopen disk_posix]. unfold d_fdopen. destruct (d_fds w !! fd); [|done]. split; [done|].
  split; [apply next_id_spec|done].
Qed.
Next Obligation.
  intros w s fd Hs. cbn [fclose disk_posix]. unfold d_fclose. change (v_streams (d_view w) !! s = Some fd) in Hs. rewrite Hs.
  split; [|done]. cbn. unfold d_fds. cbn. apply map_filter_delete.
Qed.
Next Obligation. done. Qed.
Next Obligation. done. Qed.
End Disk.

(** ** Findings

    The flag for direct access contains the flag for random access; a socket and a
    block device count as directories; and a mode that cannot be set leaves the
    process without a mask. *)
Definition S_IFBLK : Z := 24576.
Definition S_IFSOCK : Z := 49152.
Lemma file_defects {W : Type} `{!Posix W, !PosixLaws W} (x : file) (w : W) (mode : Z) :
  has_flag (__ina_file_posix_map_flags INA_FILE_ACCESS_MODE_READ INA_FILE_CREATE_MODE_OPEN INA_FILE_SHARE_MODE_READ
    INA_FILE_FLAG_RANDOM_ACCESS) O_DIRECT = true /\
  negb (Z.land S_IFBLK S_IFDIR =? 0) = true /\ negb (Z.land S_IFSOCK S_IFDIR =? 0) = true /\
  (let '(w', r) := ina_file_set_mode mode x w in
   v_umask (sees w') = match r with Ok _ => v_umask (sees w) | Err _ => 0 end).
Proof.
  do 3 (split; [done|]). unfold ina_file_set_mode. pose proof (umask_sees w 0) as Hu. destruct (umask 0 w) as [w1 old].
  destruct Hu as [-> Hw1]. pose proof (fchmod_sees w1 (fh x) mode) as Hc. destruct (fchmod (fh x) mode w1) as [w2 [|]]; cbn [fst] in Hc.
  - pose proof (umask_sees w2 (v_umask (sees w))) as Hu2. destruct (umask (v_umask (sees w)) w2) as [w3 old2]. cbn [fst].
    destruct Hu2 as [_ ->]. done.
  - rewrite Hc, Hw1. done.
Qed.

(** Two files of a disk, one of which is used as a stream. *)
Definition small_disk : disk unit := Disk (View ∅ ∅ {[0%nat := [104; 105; 10; 33]]} 18) {["a"%string := 0%nat]} 2 tt.
#[local] Instance ptr_ops : TableOps hashtable := hashtable_table (fun _ => 0).
#[local] Instance ptr_laws : TableLaws 8 hashtable := hashtable_laws (fun _ => 0) 8 ltac:(lia).
Definition file_table : hashtable :=
  Hashtable_ 0 64 1 8 INA_HASHTABLE_PTR_KEY [zero_bucket; zero_bucket] (hash32_fn ina_hash_crc32) 0 0 None 0.
Lemma file_table_empty : tb_rep file_table ∅.
Proof. by eapply (new_represents 8 (fun _ => 0) (fun _ _ _ => 0) (repeat 0 16) INA_HASHTABLE_PTR_KEY None 1 0). Qed.
Definition file_calls : list f_op :=
  [FNew "a" INA_FILE_ACCESS_MODE_READ INA_FILE_CREATE_MODE_OPEN INA_FILE_SHARE_MODE_READ 0 100;
   FNew "b" INA_FILE_ACCESS_MODE_WRITE INA_FILE_CREATE_MODE_OPEN INA_FILE_SHARE_MODE_READ 0 200;
   FNew "b" INA_FILE_ACCESS_MODE_WRITE INA_FILE_CREATE_MODE_CREATE INA_FILE_SHARE_MODE_READ 0 200; FStream 100].
Definition file_state : file_ctx hashtable * disk unit := (FileCtx standard_mode file_table ∅, small_disk).
Lemma file_calls_ok : f_run_ok file_calls file_state.
Proof. cbn [f_run_ok file_calls]. repeat split; vm_compute; done. Qed.
Lemma context_closes_its_files_witness :
  let cw := fold_left f_exec file_calls file_state in
  length (map_to_list (heap (fst cw))) = 2%nat /\ length (map_to_list (v_fds (sees (snd cw)))) = 2%nat /\
  v_fds (sees (snd (ina_file_ctx_free (fst cw) (snd cw)))) = v_fds (sees small_disk).
Proof.
  cbn zeta. split; [vm_compute; reflexivity|]. split; [vm_compute; reflexivity|].
  destruct (context_closes_its_files file_table 0 file_calls (fst file_state) (snd file_state) file_table_empty eq_refl file_calls_ok)
    as (_ & _ & _ & H & _). exact H.
Defined.

Definition open_disk : disk unit :=
  Disk (View {[3 := Opened 0 2 false]} ∅ {[0%nat := [104; 105; 10; 33]]} 18) {["a"%string := 0%nat]} 2 tt.
Definition open_file : file := File_ true "a" 3 None INA_FILE_ACCESS_MODE_READWRITE INA_FILE_CREATE_MODE_OPEN INA_FILE_SHARE_MODE_READ.
Definition disk_1 : disk unit := fst (ina_file_write [1; 2; 3; 4] open_file open_disk).
Definition disk_2 : disk unit := fst (ina_file_set_pos 2 INA_FILE_SEEK_MODE_SET open_file disk_1).
Definition disk_3 : disk unit := fst (ina_file_read 3 open_file disk_2).
Lemma open_disk_sees : v_fds (sees open_disk) !! fh open_file = Some (Opened 0 2 false).
Proof. vm_compute. reflexivity. Qed.
Lemma write_1 : ina_file_write [1; 2; 3; 4] open_file open_disk = (disk_1, Ok 3).
Proof. vm_compute. reflexivity. Qed.
Lemma seek_2 : ina_file_set_pos 2 INA_FILE_SEEK_MODE_SET open_file disk_1 = (disk_2, Ok tt).
Proof. vm_compute. reflexivity. Qed.
Lemma read_3 : ina_file_read 3 open_file disk_2 = (disk_3, Ok [1; 2; 3]).
Proof. vm_compute. reflexivity. Qed.
Lemma disk_3_files : v_files (sees disk_3) = {[0%nat := [104; 105; 1; 2; 3]]}.
Proof. vm_compute. reflexivity. Qed.
Lemma written_is_read_back_witness :
  v_files (sees disk_3) = <[0%nat := written 2 [1; 2; 3] (content (sees open_disk) (Opened 0 2 false))]> (v_files (sees open_disk)).
Proof.
  destruct (written_is_read_back open_file (Opened 0 2 false) [1; 2; 3; 4] [1; 2; 3] 3 3 open_disk disk_1 disk_2 disk_3
    open_disk_sees eq_refl ltac:(cbn; lia) write_1 seek_2 read_3 ltac:(lia)) as (_ & _ & H).
  exact H.
Defined.

End File.
