(* ===== verification/FileCursor.v ===== *)
(** * Memory maps and file cursors (mmap.c, file_cursor.c)

    A cursor reads a file in chunks or lines, by reading into a buffer or through a
    window that is mapped to memory and moves along the file.  A pointer into
    mapped memory is the number of its mapping with a displacement; the calls of the
    operating system are the class [Mappings] on top of the files of File.v.
    [None] is undefined behaviour: an access outside of mapped memory, a pointer
    that was not set, a division by zero. *)
From Stdlib Require Import ZArith Lia Bool String.
From stdpp Require Import base numbers option fin_maps gmap strings list.
From S2P Require Import Prelude Error File.

Local Open Scope inac_scope.

Module FileCursor.
Import Error File.

(** ** Mapped memory *)
Record region := Region { r_file : nat; r_off : Z; r_len : Z }.
Definition round_up (page n : Z) : Z := (n + page - 1) / page * page.
(** [mmap]: length, protection, flags, descriptor and offset. *)
Class Mappings (W : Type) `{!Posix W} := {
  page_size : Z;
  mmap : Z -> Z -> Z -> Z -> Z -> W -> W * option nat;
  munmap : nat -> W -> W;
  peek : W -> nat -> Z -> option Z;
  msync : nat -> Z -> W -> W * bool;
  madvise : nat -> Z -> Z -> W -> W * bool
}.
Definition PROT_READ : Z := 1.
Definition PROT_WRITE : Z := 2.
Definition PROT_EXEC : Z := 4.
Definition MAP_SHARED : Z := 1.
Definition MAP_PRIVATE : Z := 2.
Definition MAP_FILE : Z := 0.
Definition MAP_ANONYMOUS : Z := 32.
(** What may be mapped through a descriptor of this access mode: it must be open
    for reading, and for writing too if stores reach the file. *)
Definition permits (mode prot flags : Z) : bool :=
  negb (mode =? O_WRONLY) && (negb (has_flag prot PROT_WRITE && has_flag flags MAP_SHARED) || (mode =? O_RDWR)).
(** A mapping of a file shows its bytes, and zeros up to the end of its last page;
    the offset is a multiple of the page; the descriptor permits the protection;
    there is address space enough, and the status of an open file can be read. *)
Class MappingLaws (W : Type) `{!Posix W, !PosixLaws W, !Mappings W} := {
  maps : W -> gmap nat region;
  access : W -> Z -> Z;
  fstat_opened w fd : is_Some (v_fds (sees w) !! fd) -> is_Some (fstat fd w);
  page_size_pos : 0 < page_size (W := W);
  mmap_maps w len prot flags fd off o : v_fds (sees w) !! fd = Some o ->
    let '(w', r) := mmap len prot flags fd off w in
    sees w' = sees w /\ access w' = access w /\
    match r with
    | Some m => 0 < len /\ off mod page_size (W := W) = 0 /\ permits (access w fd) prot flags = true /\
        maps w !! m = None /\ maps w' = <[m := Region (o_file o) off len]> (maps w)
    | None => (len <= 0 \/ off mod page_size (W := W) <> 0 \/ permits (access w fd) prot flags = false) /\ maps w' = maps w
    end;
  munmap_maps w m : sees (munmap m w) = sees w /\ access (munmap m w) = access w /\ maps (munmap m w) = delete m (maps w);
  peek_maps w m r c d : maps w !! m = Some r -> v_files (sees w) !! r_file r = Some c -> 0 <= d < round_up (page_size (W := W)) (r_len r) ->
    peek w m d =
      if r_off r + d <? Z.of_nat (length c) then c !! Z.to_nat (r_off r + d)
      else if r_off r + d <? round_up (page_size (W := W)) (Z.of_nat (length c)) then Some 0 else None
}.

Definition INA_MMAP_MEM_PROT_READ : Z := 1.
Definition INA_MMAP_MEM_PROT_WRITE : Z := 2.
Definition INA_MMAP_MEM_PROT_EXEC : Z := 4.
Inductive mem_share := INA_MMAP_MEM_SHARE_PRIVATE | INA_MMAP_MEM_SHARE_SHARED.
Inductive map_type := INA_MMAP_MAP_TYPE_FILE | INA_MMAP_MAP_TYPE_MEMORY.
Inductive mem_advice := INA_MMAP_MEM_ADVICE_RANDOM | INA_MMAP_MEM_ADVICE_SEQUENTIAL.
Definition MADV_RANDOM : Z := 1.
Definition MADV_SEQUENTIAL : Z := 2.

(** [struct ina_mmap_mapping_s]; a pointer into mapped memory. *)
Record mapping := Mapping { addr : nat; m_offset : Z; m_length : Z }.
Record ptr := Ptr { p_map : nat; p_at : Z }.
Definition out_of_range : Z := Z.lor (INA_ES S_POSITION) (INA_ERR E_OUT_OF_RANGE).
Definition illegal : Z := Z.lor (INA_ES S_FUNCTION) (INA_ERR E_ILLEGAL).

Definition prot_of (prot_flags : Z) : Z :=
  let p := 0 in
  let p := if has_flag prot_flags INA_MMAP_MEM_PROT_READ then Z.lor p PROT_READ else p in
  let p := if has_flag prot_flags INA_MMAP_MEM_PROT_WRITE then Z.lor p PROT_WRITE else p in
  if has_flag prot_flags INA_MMAP_MEM_PROT_EXEC then Z.lor p PROT_EXEC else p.
Definition map_flags (s : mem_share) (t : map_type) : Z :=
  Z.lor (match s with INA_MMAP_MEM_SHARE_PRIVATE => MAP_PRIVATE | INA_MMAP_MEM_SHARE_SHARED => MAP_SHARED end)
    (match t with INA_MMAP_MAP_TYPE_FILE => MAP_FILE | INA_MMAP_MAP_TYPE_MEMORY => MAP_ANONYMOUS end).

Section Mmap.
Context {W : Type} `{!Posix W, !Mappings W}.

Definition ina_mmap_new (x : file) (prot_flags : Z) (s : mem_share) (t : map_type) (offset length : Z) (w : W) : W * result mapping :=
  match ina_file_stat_new true x w with
  | Err e => (w, Err e)
  | Ok st =>
      if ina_file_stat_file_size st <? offset then (w, Err out_of_range)
      else
        let fd := match t with INA_MMAP_MAP_TYPE_FILE => fh x | INA_MMAP_MAP_TYPE_MEMORY => -1 end in
        match mmap length (prot_of prot_flags) (map_flags s t) fd offset w with
        | (w, Some m) => (w, Ok (Mapping m offset length))
        | (w, None) => (w, Err INA_ERR_OPERATION_FAILED)
        end
  end.
Definition ina_mmap_free (m : option mapping) (w : W) : W := match m with Some m => munmap (addr m) w | None => w end.
Definition ina_mmap_sync (m : mapping) (w : W) : W * result unit :=
  let '(w, ok) := msync (addr m) (m_length m) w in (w, if (ok : bool) then Ok tt else Err INA_ERR_OPERATION_FAILED).
Definition ina_mmap_memory_head (m : option mapping) : option ptr := (fun m => Ptr (addr m) 0) <$> m.
Definition ina_mmap_memory_tail (m : option mapping) : option ptr := (fun m => Ptr (addr m) (m_length m)) <$> m.
Definition ina_mmap_advice (advice : mem_advice) (m : mapping) (w : W) : W * result unit :=
  let a := match advice with INA_MMAP_MEM_ADVICE_SEQUENTIAL => MADV_SEQUENTIAL | INA_MMAP_MEM_ADVICE_RANDOM => MADV_RANDOM end in
  let '(w, ok) := madvise (addr m) (m_length m) a w in (w, if (ok : bool) then Ok tt else Err INA_ERR_OPERATION_FAILED).
End Mmap.

(** ** Cursors *)
Inductive cursor_type := INA_FILE_CURSOR_TYPE_MMAP | INA_FILE_CURSOR_TYPE_FILEIO.
Inductive cursor_mode :=
  | INA_FILE_CURSOR_MODE_READ_BINARY | INA_FILE_CURSOR_MODE_READWRITE_BINARY | INA_FILE_CURSOR_MODE_READ_TEXT_LINE
  | INA_FILE_CURSOR_MODE_READWRITE_TEXT_LINE | INA_FILE_CURSOR_MODE_READ_TEXT_CHUNK | INA_FILE_CURSOR_MODE_READWRITE_TEXT_CHUNK
  | INA_FILE_CURSOR_MODE_WRITE_BINARY | INA_FILE_CURSOR_MODE_WRITE_TEXT_LINE | INA_FILE_CURSOR_MODE_WRITE_TEXT_CHUNK.

(** The members of the union: [ext.m] and [ext.f].  The strings of the latter are
    texts; the pool of the lines is not needed for them. *)
Record window := Window {
  mmap_flags : Z; position : Z; mem_pos : option ptr; fm : option mapping; eof : bool; len : Z; carry : Z; buffer_size : Z; buffer_idx : Z }.
Record buffered := Buffered {
  f_eof : bool; f_buffer_size : Z; f_len : Z; f_position : Z; buffer : list Z; line : option (list Z); next_line : option (list Z) }.
Inductive extension := M (m : window) | F (f : buffered).
Record cursor := Cursor { c_file : file; cur_type : cursor_type; c_mode : cursor_mode; from_pool : bool; ext : extension }.

Section Cursors.
Context {W : Type} `{!Posix W, !Mappings W}.

(** *** Reading into a buffer *)
Definition set_f_position (p : Z) (c : buffered) : buffered :=
  Buffered (f_eof c) (f_buffer_size c) (f_len c) p (buffer c) (line c) (next_line c).
Definition ina_file_cursor_fileio_set_pos (x : file) (p : Z) (c : buffered) (w : W) : buffered * W * result unit :=
  match ina_file_set_pos p INA_FILE_SEEK_MODE_SET x w with
  | (w, Ok _) => (set_f_position p c, w, Ok tt)
  | (w, Err e) => (c, w, Err e)
  end.
Definition ina_file_cursor_fileio_set_eof (x : file) (w : W) : W * result unit := ina_file_set_eof x w.
Definition ina_file_cursor_fileio_set_bof (x : file) (w : W) : W * result unit := ina_file_set_bof x w.

(** The number of bytes read is the reply; they are at the start of the buffer. *)
Definition ina_file_cursor_fileio_binary_read_chunk (x : file) (requested : Z) (c : buffered) (w : W) :
    option (buffered * W * result Z) :=
  match ina_file_read requested x w with
  | (w, Err e) => Some (c, w, Err e)
  | (w, Ok bs) =>
      let n := Z.of_nat (length bs) in
      if f_buffer_size c <? n then None
      else Some (Buffered (f_eof c || (n =? 0)) (f_buffer_size c) (f_len c) (f_position c +₆₄ n)
             (bs ++ drop (length bs) (buffer c)) (line c) (next_line c), w, Ok n)
  end.
Definition ina_file_cursor_fileio_text_read_chunk (x : file) (requested : Z) (c : buffered) (w : W) :
    option (buffered * W * result Z) := ina_file_cursor_fileio_binary_read_chunk x requested c w.
Definition ina_file_cursor_fileio_binary_readwrite_chunk : result Z := Err illegal.

(** [ina_str_ncatcstr] of [n] bytes at [from]; the string must exist, and the
    bytes must be in the buffer. *)
Definition ncat (s : option (list Z)) (chunk : list Z) (from n : nat) : option (list Z) :=
  match s with
  | None => None
  | Some t => if decide (from + n <= length chunk)%nat then Some (t ++ take n (drop from chunk)) else None
  end.
Fixpoint newline_in (bs : list Z) : option nat :=
  match bs with [] => None | b :: bs => if b =? 10 then Some O else S <$> newline_in bs end.
Definition set_lines (l n : option (list Z)) (c : buffered) : buffered :=
  Buffered (f_eof c) (f_buffer_size c) (f_len c) (f_position c) (buffer c) l n.

(** The loop over the chunks; the reply is the line. *)
Fixpoint line_chunks (fuel : nat) (x : file) (nread : Z) (c : buffered) (w : W) : option (buffered * W * result (option (list Z))) :=
  match fuel with
  | O => None
  | S fuel =>
      match newline_in (take (Z.to_nat nread) (buffer c)) with
      | Some i =>
          s ← ncat (next_line c) (buffer c) 0 i;
          n ← ncat (Some []) (buffer c) i (Z.to_nat nread);
          Some (set_lines (Some s) (Some n) c, w, Ok (Some s))
      | None =>
          s ← ncat (next_line c) (buffer c) 0 (Z.to_nat nread);
          let c := set_lines (line c) (Some s) c in
          '(c, w, r) ← ina_file_cursor_fileio_text_read_chunk x (f_buffer_size c) c w;
          match r with
          | Err e => Some (c, w, Err e)
          | Ok nread => line_chunks fuel x nread c w
          end
      end
  end.
Definition ina_file_cursor_fileio_text_read_line (fuel : nat) (x : file) (c : buffered) (w : W) :
    option (buffered * W * result (option (list Z))) :=
  '(c, w, r) ← ina_file_cursor_fileio_text_read_chunk x (f_buffer_size c) c w;
  match r with
  | Err e => Some (c, w, Err e)
  | Ok nread => if nread =? 0 then Some (c, w, Ok None) else line_chunks fuel x nread c w
  end.

(** *** The window *)
Definition ina_file_cursor_mmap_set_pos (x : file) (p : Z) (c : window) (w : W) : option (window * W * result unit) :=
  if buffer_size c =? 0 then None
  else
    let idx := p / buffer_size c in
    if 2 ^ 31 <=? idx then None
    else
      let tmp := idx *₆₄ buffer_size c in
      let offset := tmp -₆₄ carry c in
      if len c <? p then Some (c, w, Err out_of_range)
      else
        let '(c, w, offset) :=
          if buffer_idx c =? idx then (c, w, offset)
          else
            let l := Z.min (buffer_size c) (len c) in
            let tmp2 := buffer_idx c *₆₄ buffer_size c in
            let carry := tmp2 +₆₄ l -₆₄ position c in
            let offset := tmp -₆₄ carry in
            let l := if len c <? offset +₆₄ l then len c -₆₄ offset else l in
            let w := ina_mmap_free (fm c) w in
            let '(w, r) := ina_mmap_new x (mmap_flags c) INA_MMAP_MEM_SHARE_SHARED INA_MMAP_MAP_TYPE_FILE offset l w in
            let m := match r with Ok m => Some m | Err _ => None end in
            (Window (mmap_flags c) (position c) (mem_pos c) m (eof c) (len c) carry (buffer_size c) idx, w, offset) in
        head ← ina_mmap_memory_head (fm c);
        Some (Window (mmap_flags c) p (Some (Ptr (p_map head) (p -₆₄ offset))) (fm c) (eof c) (len c) (carry c) (buffer_size c) (buffer_idx c),
              w, Ok tt).
Definition ina_file_cursor_mmap_set_eof (x : file) (c : window) (w : W) : option (window * W * result unit) :=
  ina_file_cursor_mmap_set_pos x (len c) c w.
Definition ina_file_cursor_mmap_set_bof (x : file) (c : window) (w : W) : option (window * W * result unit) :=
  ina_file_cursor_mmap_set_pos x 0 c w.

(** The reply is the number of bytes and where they are. *)
Definition ina_file_cursor_mmap_binary_read_chunk (x : file) (requested : Z) (c : window) (w : W) :
    option (window * W * result (Z * option ptr)) :=
  '(c, w, r) ← ina_file_cursor_mmap_set_pos x (position c +₆₄ requested) c w;
  match r with
  | Ok _ => pos ← mem_pos c; Some (c, w, Ok (requested, Some (Ptr (p_map pos) (p_at pos - requested))))
  | Err _ => Some (c, w, Ok (0, None))
  end.
Definition ina_file_cursor_mmap_text_read_chunk (x : file) (requested : Z) (c : window) (w : W) :
    option (window * W * result (Z * option ptr)) := ina_file_cursor_mmap_binary_read_chunk x requested c w.
Definition ina_file_cursor_mmap_binary_readwrite_chunk : result Z := Err illegal.

(** The loop over the characters of a line from [d], of which [l] are passed: where
    it ends, and whether it was left at the end of the window or at a zero. *)
Fixpoint line_loop (fuel : nat) (m : nat) (end_ d l : Z) (w : W) : option (Z * Z * bool) :=
  match fuel with
  | O => None
  | S fuel =>
      b ← peek w m d;
      if b =? 10 then Some (d, l, false)
      else
        let d := d + 1 in
        let l := l + 1 in
        if end_ <=? d then Some (d, l, true)
        else b ← peek w m d; if b =? 0 then Some (d, l, true) else line_loop fuel m end_ d l w
  end.
Definition with_eof (c : window) : window :=
  Window (mmap_flags c) (position c) (mem_pos c) (fm c) true (len c) (carry c) (buffer_size c) (buffer_idx c).
Definition move (l : Z) (d : ptr) (c : window) : window :=
  Window (mmap_flags c) (position c +₆₄ l) (Some d) (fm c) (eof c) (len c) (carry c) (buffer_size c) (buffer_idx c).
(** The start of the line and its length. *)
Definition ina_file_cursor_mmap_text_read_line (fuel : nat) (x : file) (c : window) (w : W) : option (window * W * (ptr * Z)) :=
  tail ← ina_mmap_memory_tail (fm c);
  begin_line ← mem_pos c;
  '(d, l, left_) ← line_loop fuel (p_map begin_line) (p_at tail) (p_at begin_line) 0 w;
  if left_ : bool then
    if len c <=? position c +₆₄ l then Some (with_eof c, w, (begin_line, 0))
    else
      '(c, w, _) ← ina_file_cursor_mmap_set_pos x (position c +₆₄ l) c w;
      Some (c, w, (begin_line, l))
  else Some (move (l + 1) (Ptr (p_map begin_line) (d + 1)) c, w, (begin_line, l + 1)).

(** *** Creation and dispatch

    [garbage] is what the allocated buffer holds. *)
Definition writes (mode : cursor_mode) : bool :=
  match mode with
  | INA_FILE_CURSOR_MODE_READWRITE_BINARY | INA_FILE_CURSOR_MODE_READWRITE_TEXT_CHUNK | INA_FILE_CURSOR_MODE_READWRITE_TEXT_LINE => true
  | _ => false
  end.
Definition ina_file_cursor_init_internal (x : file) (t : cursor_type) (mode : cursor_mode) (bs : Z) (pool : bool) (garbage : list Z) (w : W) :
    W * result cursor :=
  match ina_file_stat_new true x w with
  | Err e => (w, Err e)
  | Ok st =>
      let flen := ina_file_stat_file_size st in
      match t with
      | INA_FILE_CURSOR_TYPE_MMAP =>
          let proto_flags := if writes mode then Z.lor INA_MMAP_MEM_PROT_READ INA_MMAP_MEM_PROT_WRITE else INA_MMAP_MEM_PROT_READ in
          let map_len := if flen <=? bs then flen else bs in
          let '(w, r) := ina_mmap_new x proto_flags INA_MMAP_MEM_SHARE_SHARED INA_MMAP_MAP_TYPE_FILE 0 map_len w in
          let m := match r with Ok m => Some m | Err _ => None end in
          (w, Ok (Cursor x t mode pool (M (Window proto_flags 0 (ina_mmap_memory_head m) m false flen 0 bs 0))))
      | INA_FILE_CURSOR_TYPE_FILEIO => (w, Ok (Cursor x t mode pool (F (Buffered false bs flen 0 garbage None None))))
      end
  end.
Definition ina_file_cursor_new_using_pool (x : file) (t : cursor_type) (mode : cursor_mode) (bs : Z) (garbage : list Z) (w : W) :
    W * result cursor := ina_file_cursor_init_internal x t mode bs true garbage w.
Definition ina_file_cursor_new (x : file) (t : cursor_type) (mode : cursor_mode) (bs : Z) (garbage : list Z) (w : W) :
    W * result cursor := ina_file_cursor_init_internal x t mode bs false garbage w.
Definition ina_file_cursor_free (c : cursor) (w : W) : W := match ext c with M m => ina_mmap_free (fm m) w | F _ => w end.
Definition ina_file_cursor_get_file (c : cursor) : file := c_file c.
Definition ina_file_cursor_get_mode (c : cursor) : cursor_mode := c_mode c.
Definition ina_file_cursor_get_type (c : cursor) : cursor_type := cur_type c.
Definition ina_file_cursor_get_buffer_size (c : cursor) : Z := match ext c with M m => buffer_size m | F f => f_buffer_size f end.
Definition ina_file_cursor_get_pos (c : cursor) : Z := match ext c with M m => position m | F f => f_position f end.

Definition set_ext (e : extension) (c : cursor) : cursor := Cursor (c_file c) (cur_type c) (c_mode c) (from_pool c) e.
Definition ina_file_cursor_set_pos (p : Z) (c : cursor) (w : W) : option (cursor * W * result unit) :=
  match ext c with
  | M m => '(m, w, r) ← ina_file_cursor_mmap_set_pos (c_file c) p m w; Some (set_ext (M m) c, w, r)
  | F f => let '(f, w, r) := ina_file_cursor_fileio_set_pos (c_file c) p f w in Some (set_ext (F f) c, w, r)
  end.
Definition ina_file_cursor_set_bof (c : cursor) (w : W) : option (cursor * W * result unit) :=
  match ext c with
  | M m => '(m, w, r) ← ina_file_cursor_mmap_set_bof (c_file c) m w; Some (set_ext (M m) c, w, r)
  | F f => let '(w, r) := ina_file_cursor_fileio_set_bof (c_file c) w in Some (c, w, r)
  end.
Definition ina_file_cursor_set_eof (c : cursor) (w : W) : option (cursor * W * result unit) :=
  match ext c with
  | M m => '(m, w, r) ← ina_file_cursor_mmap_set_eof (c_file c) m w; Some (set_ext (M m) c, w, r)
  | F f => let '(w, r) := ina_file_cursor_fileio_set_eof (c_file c) w in Some (c, w, r)
  end.

(** What a caller gets: bytes in mapped memory or at the start of the buffer. *)
Inductive piece := Nothing | Mapped (n : Z) (at_ : ptr) | Buffer (n : Z).
Definition ina_file_cursor_binary_read_chunk (requested : Z) (c : cursor) (w : W) : option (cursor * W * result piece) :=
  match ext c with
  | M m =>
      '(m, w, r) ← ina_file_cursor_mmap_binary_read_chunk (c_file c) requested m w;
      Some (set_ext (M m) c, w, match r with Ok (n, Some p) => Ok (Mapped n p) | Ok (_, None) => Ok Nothing | Err e => Err e end)
  | F f =>
      '(f, w, r) ← ina_file_cursor_fileio_binary_read_chunk (c_file c) requested f w;
      Some (set_ext (F f) c, w, match r with Ok n => Ok (Buffer n) | Err e => Err e end)
  end.
Definition ina_file_cursor_text_read_chunk (requested : Z) (c : cursor) (w : W) : option (cursor * W * result piece) :=
  match ext c with
  | M m =>
      '(m, w, r) ← ina_file_cursor_mmap_text_read_chunk (c_file c) requested m w;
      Some (set_ext (M m) c, w, match r with Ok (n, Some p) => Ok (Mapped n p) | Ok (_, None) => Ok Nothing | Err e => Err e end)
  | F f =>
      '(f, w, r) ← ina_file_cursor_fileio_text_read_chunk (c_file c) requested f w;
      Some (set_ext (F f) c, w, match r with Ok n => Ok (Buffer n) | Err e => Err e end)
  end.
Definition ina_file_cursor_binary_readwrite_chunk (c : cursor) : result Z :=
  match ext c with M _ => ina_file_cursor_mmap_binary_readwrite_chunk | F _ => ina_file_cursor_fileio_binary_readwrite_chunk end.
Definition ina_file_cursor_text_read_line (fuel : nat) (c : cursor) (w : W) : option (cursor * W * result (option (ptr + list Z) * Z)) :=
  match ext c with
  | M m =>
      '(m, w, (p, l)) ← ina_file_cursor_mmap_text_read_line fuel (c_file c) m w;
      Some (set_ext (M m) c, w, Ok (Some (inl p), l))
  | F f =>
      '(f, w, r) ← ina_file_cursor_fileio_text_read_line fuel (c_file c) f w;
      Some (set_ext (F f) c, w,
        match r with Ok (Some s) => Ok (Some (inr s), Z.of_nat (length s)) | Ok None => Ok (None, 0) | Err e => Err e end)
  end.
End Cursors.

(** ** Reading a file in chunks

    A reader that asks for [requested] bytes until it gets none, and what it has
    seen; the bytes of a chunk are looked at before the next call. *)
Inductive outcome := Ended | Failed (e : Z) | Unfinished.

Section Reader.
Context {W : Type} `{!Posix W, !Mappings W}.

Definition bytes_of (p : piece) (c : cursor) (w : W) : option (list Z) :=
  match p with
  | Nothing => Some []
  | Mapped n q => mapM (fun i : nat => peek w (p_map q) (p_at q + Z.of_nat i)) (seq 0 (Z.to_nat n))
  | Buffer n => match ext c with F f => Some (take (Z.to_nat n) (buffer f)) | M _ => None end
  end.
Fixpoint read_all (fuel : nat) (requested : Z) (c : cursor) (w : W) : option (list (list Z) * cursor * W * outcome) :=
  match fuel with
  | O => Some ([], c, w, Unfinished)
  | S fuel =>
      '(c, w, r) ← ina_file_cursor_binary_read_chunk requested c w;
      match r with
      | Err e => Some ([], c, w, Failed e)
      | Ok p =>
          bs ← bytes_of p c w;
          if bool_decide (bs = []) then Some ([], c, w, Ended)
          else '(l, c, w, o) ← read_all fuel requested c w; Some (bs :: l, c, w, o)
      end
  end.
End Reader.

(** *** Through the buffer *)
Section Buffered.
Context {W : Type} `{!Posix W, !PosixLaws W, !Mappings W}.

Definition rest_of (o : opened) (w : W) : list Z := drop (Z.to_nat (o_pos o)) (content (sees w) o).
(** A cursor with a buffer on an open file. *)
Record reads (c : cursor) (f : buffered) (o : opened) (w : W) : Prop := {
  r_ext : ext c = F f;
  r_open : v_fds (sees w) !! fh (c_file c) = Some o;
  r_pos : 0 <= o_pos o;
  r_size : Z.of_nat (length (buffer f)) = f_buffer_size f;
  r_width : 0 <= f_position f /\ f_position f + Z.of_nat (length (rest_of o w)) < 2 ^ 64
}.

Lemma chunk_spec (requested : Z) (c : cursor) (f : buffered) (o : opened) (w : W) : reads c f o w -> 0 < requested <= f_buffer_size f ->
  exists (c' : cursor) (f' : buffered) (w' : W), 
    (exists (o' : opened) (bs : list Z), ina_file_cursor_binary_read_chunk requested c w = Some (c', w', Ok (Buffer (Z.of_nat (length bs)))) /\
      bytes_of (Buffer (Z.of_nat (length bs))) c' w' = Some bs /\ rest_of o w = bs ++ rest_of o' w' /\
      Z.of_nat (length bs) <= requested /\ (bs = [] -> rest_of o w = [] /\ f_eof f' = true) /\ reads c' f' o' w' /\
      f_buffer_size f' = f_buffer_size f /\ f_position f' = f_position f + Z.of_nat (length bs) /\ v_files (sees w') = v_files (sees w)) \/
    (exists e : Z, ina_file_cursor_binary_read_chunk requested c w = Some (c', w', Err e) /\ rest_of o w' = rest_of o w /\
      ext c' = F f' /\ f_position f' = f_position f).
Proof.
  intros [He Ho Hp Hs Hw] Hr. unfold ina_file_cursor_binary_read_chunk. rewrite He.
  unfold ina_file_cursor_fileio_binary_read_chunk, ina_file_read. rewrite (proj2 (Z.ltb_lt 0 requested)) by lia. cbn [negb].
  pose proof (read_sees w (fh (c_file c)) requested o Ho ltac:(lia)) as Hrs. destruct (read (fh (c_file c)) requested w) as [w' [bs|]].
  - destruct Hrs as (Hbs & Hl & Hne & Hw'). fold (rest_of o w) in Hbs, Hne.
    assert (length bs <= length (rest_of o w))%nat as Hlen by (rewrite Hbs; rewrite length_take; lia).
    rewrite (proj2 (Z.ltb_ge _ _)) by lia. cbn [mbind option_bind].
    set (f' := Buffered _ _ _ _ _ _ _). exists (set_ext (F f') c), f', w'. left.
    set (o' := Opened (o_file o) (o_pos o + Z.of_nat (length bs)) (o_append o)). exists o', bs. split; [done|].
    assert (rest_of o' w' = drop (length bs) (rest_of o w)) as Hrest.
    { unfold rest_of. rewrite drop_drop. rewrite Hw'. change (content (set_fd (fh (c_file c)) o' (sees w)) o') with (content (sees w) o).
      f_equal. cbn. lia. }
    assert (f_position f' = f_position f + Z.of_nat (length bs)) as Hpos by (subst f'; cbn [f_position]; apply wrap_small; unfold in_width; lia).
    split; [|split; [|split; [done|split; [|split; [|split; [done|split; [done|]]]]]]].
    + cbn [bytes_of ext set_ext buffer f']. rewrite Nat2Z.id. by rewrite take_app_length.
    + rewrite Hrest. rewrite <- (take_drop (length bs) (rest_of o w)) at 1. by rewrite <- Hbs.
    + intros ->. split; [by apply Hne|]. subst f'. cbn. by rewrite orb_true_r.
    + constructor; [done|by rewrite Hw'; apply lookup_insert_eq|cbn; lia| |].
      * subst f'. cbn [buffer f_buffer_size]. rewrite length_app, length_drop. lia.
      * rewrite Hpos, Hrest, length_drop. lia.
    + by rewrite Hw'.
  - cbn [mbind option_bind]. exists (set_ext (F f) c), f, w'. right. exists INA_ERR_READ_FAILED. split; [done|]. split; [|done].
    unfold rest_of. by rewrite Hrs.
Qed.

(** A cursor with a buffer delivers the file.  A reader that asks again and
    again for as many bytes as it likes, up to the size of the buffer, comes to an
    end, however few bytes the system gives at a time; the chunks are not empty, not
    larger than asked for and together the file from where it stood, completely if
    no read fails, and otherwise what comes before; the position has advanced by
    what was delivered, and the file is as before. *)
Theorem buffered_chunks_are_the_file (requested : Z) (c : cursor) (f : buffered) (o : opened) (w : W) (fuel : nat) :
  reads c f o w -> 0 < requested <= f_buffer_size f -> (length (rest_of o w) < fuel)%nat ->
  exists (l : list (list Z)) (c' : cursor) (w' : W) (end_ : outcome) (left_ : list Z),
    read_all fuel requested c w = Some (l, c', w', end_) /\ end_ <> Unfinished /\
    rest_of o w = concat l ++ left_ /\ (end_ = Ended -> left_ = []) /\
    Forall (fun bs => bs <> [] /\ Z.of_nat (length bs) <= requested) l /\
    ina_file_cursor_get_pos c' = ina_file_cursor_get_pos c + Z.of_nat (length (concat l)).
Proof.
  revert c f o w. induction fuel as [|fuel IH]; intros c f o w Hr Hq Hf; [lia|]. cbn [read_all].
  destruct (chunk_spec requested c f o w Hr Hq) as (c1 & f1 & w1 & [(o1 & bs & -> & Hb & Hrest & Hl & Hempty & Hr1 & Hs1 & Hp1 & _)|(e & -> & Hrest & He1 & Hp1)]).
  - cbn [mbind option_bind]. rewrite Hb. cbn [mbind option_bind]. case_bool_decide as Hd.
    + subst bs. destruct (Hempty eq_refl) as [Hz _]. exists [], c1, w1, Ended, []. split; [done|]. split; [done|]. split; [done|].
      split; [done|]. split; [apply Forall_nil_2|]. unfold ina_file_cursor_get_pos. rewrite (r_ext _ _ _ _ Hr), (r_ext _ _ _ _ Hr1), Hp1. done.
    + destruct (IH c1 f1 o1 w1 Hr1) as (l & c2 & w2 & end_ & left_ & Hra & Hun & Hr2 & Hend & Hall & Hp2); [by rewrite Hs1| |].
      { rewrite Hrest, length_app in Hf. destruct bs; [done|]. cbn [length] in Hf. lia. }
      rewrite Hra. cbn [mbind option_bind]. exists (bs :: l), c2, w2, end_, left_. split; [done|]. split; [done|]. cbn [concat].
      split; [by rewrite <- app_assoc, <- Hr2|]. split; [done|]. split; [by constructor|].
      rewrite Hp2, length_app. unfold ina_file_cursor_get_pos. rewrite (r_ext _ _ _ _ Hr), (r_ext _ _ _ _ Hr1), Hp1. lia.
  - cbn [mbind option_bind]. exists [], c1, w1, (Failed e), (rest_of o w). split; [done|]. split; [done|]. split; [done|]. split; [done|].
    split; [apply Forall_nil_2|]. unfold ina_file_cursor_get_pos. rewrite (r_ext _ _ _ _ Hr), He1, Hp1. cbn. lia.
Qed.
End Buffered.

(** *** Through the window *)
Lemma mapM_slice {A : Type} (g : nat -> option A) (n k : nat) (l : list A) :
  (forall i : nat, (i < n)%nat -> g i = l !! (k + i)%nat) -> (k + n <= length l)%nat ->
  mapM g (seq 0 n) = Some (take n (drop k l)).
Proof.
  intros Hg Hl. apply mapM_Some_2. apply Forall2_same_length_lookup_2.
  - rewrite length_seq, length_take, length_drop. lia.
  - intros i x y Hx Hy. apply lookup_seq in Hx as [-> Hi]. rewrite lookup_take_lt, lookup_drop in Hy by done. by rewrite Hg.
Qed.
Lemma round_up_le (page n : Z) : 0 < page -> n <= round_up page n.
Proof. intros Hp. unfold round_up. pose proof (Z.div_mod (n + page - 1) page ltac:(lia)). pose proof (Z.mod_pos_bound (n + page - 1) page Hp). nia. Qed.

Section Window.
Context {W : Type} `{!Posix W, !PosixLaws W, !Mappings W, !MappingLaws W}.
Implicit Types (w : W) (data : list Z).
Abbreviation page := (page_size (W := W)).

(** What a mapping shows. *)
Record shows (w : W) (m : mapping) (data : list Z) : Prop := {
  sh_region : exists n : nat, maps w !! addr m = Some (Region n (m_offset m) (m_length m)) /\ v_files (sees w) !! n = Some data;
  sh_inside : 0 <= m_offset m /\ m_offset m + m_length m <= Z.of_nat (length data)
}.
Lemma shows_bytes (w : W) (m : mapping) (data : list Z) (d n : Z) : shows w m data -> 0 <= d -> 0 <= n -> d + n <= m_length m ->
  mapM (fun i : nat => peek w (addr m) (d + Z.of_nat i)) (seq 0 (Z.to_nat n)) =
    Some (take (Z.to_nat n) (drop (Z.to_nat (m_offset m + d)) data)).
Proof.
  intros [(k & Hm & Hf) Hin] Hd Hn Hle. pose proof (round_up_le page (m_length m) page_size_pos) as Hru. apply mapM_slice; [|lia].
  intros i Hi. rewrite (peek_maps w (addr m) _ data (d + Z.of_nat i) Hm Hf) by (cbn [r_len]; lia). cbn [r_off].
  rewrite (proj2 (Z.ltb_lt _ _)) by lia. f_equal. lia.
Qed.

Definition off_of (r B p : Z) : Z := p / B * B - (if p / B =? 0 then 0 else r).
(** A cursor whose chunks have [r] bytes, at a multiple of [r]. *)
Record slides (x : file) (r : Z) (data : list Z) (c : window) (w : W) : Prop := {
  sl_open : exists o : opened, v_fds (sees w) !! fh x = Some o /\ v_files (sees w) !! o_file o = Some data;
  sl_mode : permits (access w (fh x)) (prot_of (mmap_flags c)) MAP_SHARED = true;
  sl_len : len c = Z.of_nat (length data);
  sl_pos : 0 <= position c <= len c /\ position c mod r = 0;
  sl_idx : buffer_idx c = position c / buffer_size c;
  sl_carry : carry c = if position c / buffer_size c =? 0 then 0 else r;
  sl_map : 0 < len c -> exists m : mapping, fm c = Some m /\ shows w m data /\
    m_offset m = off_of r (buffer_size c) (position c) /\ m_length m = Z.min (buffer_size c) (len c - m_offset m)
}.
Record sizes (r B n : Z) : Prop := {
  z_page : r mod page = 0; z_r : 0 < r; z_B : 0 < B /\ B mod r = 0; z_width : n + r < 2 ^ 62 /\ B < 2 ^ 62; z_idx : (n + r) / B < 2 ^ 31
}.

(** The arithmetic of a step. *)
Lemma step_inside (r B p : Z) : 0 < r -> 0 < B -> B mod r = 0 -> 0 <= p -> p mod r = 0 -> (p + r) / B = p / B ->
  0 <= off_of r B p <= p /\ off_of r B p = off_of r B (p + r) /\ p + r <= off_of r B p + B.
Proof.
  intros Hr HB HBr Hp Hpr Hq. unfold off_of. rewrite Hq.
  apply Z.mod_divide in HBr as [b ->]; [|lia]. apply Z.mod_divide in Hpr as [k ->]; [|lia].
  assert (0 < b) by nia. replace (k * r + r) with ((k + 1) * r) in Hq by lia. rewrite !Z.div_mul_cancel_r in * by lia.
  pose proof (Z.div_mod (k + 1) b ltac:(lia)) as H1. pose proof (Z.mod_pos_bound (k + 1) b ltac:(lia)) as H2.
  pose proof (Z.div_mod k b ltac:(lia)) as H3. pose proof (Z.mod_pos_bound k b ltac:(lia)) as H4.
  assert (0 <= k) by nia. assert (0 <= k / b) by (by apply Z.div_pos; lia).
  destruct (Z.eqb_spec (k / b) 0) as [Hz|Hz]; (split; [nia|split; [done|nia]]).
Qed.
Lemma step_across (r B p : Z) : 0 < r -> 0 < B -> B mod r = 0 -> 0 <= p -> p mod r = 0 -> (p + r) / B <> p / B ->
  p + r = (p / B + 1) * B /\ (p + r) / B = p / B + 1 /\ off_of r B (p + r) = p /\ 0 <= p / B.
Proof.
  intros Hr HB HBr Hp Hpr Hq. assert (0 <= p / B) by (by apply Z.div_pos).
  apply Z.mod_divide in HBr as [b ->]; [|lia]. apply Z.mod_divide in Hpr as [k ->]; [|lia].
  assert (0 < b) by nia. replace (k * r + r) with ((k + 1) * r) in * by lia. unfold off_of. rewrite !Z.div_mul_cancel_r in * by lia.
  pose proof (Z.div_mod (k + 1) b ltac:(lia)) as H1. pose proof (Z.mod_pos_bound (k + 1) b ltac:(lia)) as H2.
  pose proof (Z.div_mod k b ltac:(lia)) as H3. pose proof (Z.mod_pos_bound k b ltac:(lia)) as H4.
  assert ((k + 1) / b = k / b + 1) as Hd.
  { assert (k / b <= (k + 1) / b) by (apply Z.div_le_mono; lia). assert ((k + 1) / b < k / b + 2) by (apply Z.div_lt_upper_bound; nia). lia. }
  rewrite Hd in *. rewrite (proj2 (Z.eqb_neq (k / b + 1) 0)) by lia. split; [nia|]. split; [done|]. split; [nia|done].
Qed.
Lemma mmap_new_spec (x : file) (o : opened) (data : list Z) (prot off l : Z) (w : W) :
  v_fds (sees w) !! fh x = Some o -> v_files (sees w) !! o_file o = Some data ->
  permits (access w (fh x)) (prot_of prot) MAP_SHARED = true ->
  0 <= off -> off mod page = 0 -> 0 < l -> off + l <= Z.of_nat (length data) ->
  exists (w' : W) (m : mapping),
    ina_mmap_new x prot INA_MMAP_MEM_SHARE_SHARED INA_MMAP_MAP_TYPE_FILE off l w = (w', Ok m) /\
    sees w' = sees w /\ access w' = access w /\ shows w' m data /\ m_offset m = off /\ m_length m = l.
Proof.
  intros Ho Hd Hmode Hoff Hal Hl Hin. unfold ina_mmap_new, ina_file_stat_new, ina_file_stat_sync.
  destruct (fstat_opened w (fh x)) as [st Hst]; [by rewrite Ho|]. rewrite Hst.
  pose proof (fstat_sees w (fh x) o st Ho Hst) as Hsz. unfold content in Hsz. rewrite Hd in Hsz. cbn [default from_option] in Hsz.
  cbn [ina_file_stat_file_size file_size]. rewrite (proj2 (Z.ltb_ge _ _)) by (cbn in Hsz; lia).
  pose proof (mmap_maps w l (prot_of prot) (map_flags INA_MMAP_MEM_SHARE_SHARED INA_MMAP_MAP_TYPE_FILE) (fh x) off o Ho) as Hm.
  destruct (mmap _ _ _ _ _ w) as [w' [m|]]; destruct Hm as (Hs & Ha & Hm);
    [|change (map_flags _ _) with MAP_SHARED in Hm; rewrite Hmode in Hm; by destruct Hm as [[?|[?|?]] _]; [lia|..]].
  destruct Hm as (_ & _ & _ & _ & Hm). exists w', (Mapping m off l). split; [done|]. split; [done|]. split; [done|]. split; [|done].
  constructor; [|cbn; lia]. exists (o_file o). rewrite Hs. split; [|done]. rewrite Hm. apply lookup_insert_eq.
Qed.

Lemma mmap_free_keeps (m : option mapping) (w : W) : sees (ina_mmap_free m w) = sees w /\ access (ina_mmap_free m w) = access w.
Proof. destruct m as [m|]; [|done]. by destruct (munmap_maps w (addr m)) as (? & ? & _). Qed.
Lemma shows_keep (w w' : W) (m : mapping) (data : list Z) : shows w m data -> sees w' = sees w -> maps w' = maps w -> shows w' m data.
Proof. intros [(n & H1 & H2) H3] Hs Hm. constructor; [|done]. exists n. by rewrite Hs, Hm. Qed.

(** A chunk that is in the file. *)
Lemma slide_step (x : file) (r : Z) (data : list Z) (c : window) (w : W) :
  slides x r data c w -> sizes r (buffer_size c) (len c) -> position c + r <= len c ->
  exists (c' : window) (w' : W) (q : ptr),
    ina_file_cursor_mmap_binary_read_chunk x r c w = Some (c', w', Ok (r, Some q)) /\
    mapM (fun i : nat => peek w' (p_map q) (p_at q + Z.of_nat i)) (seq 0 (Z.to_nat r)) =
      Some (take (Z.to_nat r) (drop (Z.to_nat (position c)) data)) /\
    slides x r data c' w' /\ len c' = len c /\ buffer_size c' = buffer_size c /\ position c' = position c + r.
Proof.
  intros [(o & Ho & Hdata) Hmode Hlen [Hp Hpr] Hidx Hcarry Hmap] [Hpage Hr [HB HBr] [Hw1 Hw2] Hw3] Hfit.
  set (B := buffer_size c) in *. set (p := position c) in *. unfold ina_file_cursor_mmap_binary_read_chunk. fold p.
  assert (p +₆₄ r = p + r) as -> by (apply wrap_small; unfold in_width; lia).
  unfold ina_file_cursor_mmap_set_pos. fold B p. rewrite (proj2 (Z.eqb_neq B 0)) by lia.
  assert (0 <= (p + r) / B <= (len c + r) / B) as Hq by (split; [apply Z.div_pos; lia|apply Z.div_le_mono; lia]).
  rewrite (proj2 (Z.leb_gt _ _)) by lia. rewrite (proj2 (Z.ltb_ge (len c) (p + r))) by lia.
  assert (0 <= (p + r) / B * B <= p + r) as HqB by (pose proof (Z.mul_div_le (p + r) B ltac:(lia)); nia).
  assert ((p + r) / B *₆₄ B = (p + r) / B * B) as -> by (apply wrap_small; unfold in_width; lia).
  rewrite Hidx. destruct (Z.eqb_spec (p / B) ((p + r) / B)) as [Heq|Hne].
  - destruct (step_inside r B p Hr HB HBr ltac:(lia) Hpr (eq_sym Heq)) as (Hoff & Hoffs & Hend).
    destruct (Hmap ltac:(lia)) as (m & Hm & Hsh & Hmo & Hml). cbn [fmap]. rewrite Hm. cbn [ina_mmap_memory_head fmap option_fmap option_map mbind option_bind].
    cbn [p_map mem_pos p_at].
    assert ((p + r) / B * B -₆₄ carry c = off_of r B p) as ->.
    { rewrite Hcarry, <- Heq. fold (off_of r B p). apply wrap_small. unfold in_width. lia. }
    assert (p + r -₆₄ off_of r B p = p + r - off_of r B p) as -> by (apply wrap_small; unfold in_width; lia).
    eexists _, w, _. split; [reflexivity|]. cbn [p_map p_at]. split; [|split; [|done]].
    + replace (p + r - off_of r B p - r) with (p - off_of r B p) by lia. rewrite (shows_bytes w m data) by (done || lia).
      do 3 f_equal. lia.
    + constructor; cbn [len position buffer_size buffer_idx carry fm]; fold B p; try done.
      * by exists o.
      * split; [lia|]. rewrite <- Z.add_mod_idemp_l, Hpr, Z.add_0_l by lia. apply Z.mod_same. lia.
      * by rewrite <- Heq.
      * by rewrite <- Heq.
      * intros _. exists m. rewrite Hmo, <- Hoffs. rewrite Hmo in Hml. done.
  - destruct (step_across r B p Hr HB HBr ltac:(lia) Hpr (fun H => Hne (eq_sym H))) as (Hpe & Hqe & Hoff & Hi).
    assert (B <= len c) as HBl by nia. rewrite (Z.min_l B (len c)) by done.
    assert (p / B *₆₄ B = p / B * B) as -> by (apply wrap_small; unfold in_width; nia).
    assert (p / B * B +₆₄ B = p / B * B + B) as -> by (apply wrap_small; unfold in_width; nia).
    assert (p / B * B + B -₆₄ p = r) as -> by (replace (p / B * B + B - p) with r by lia; apply wrap_small; unfold in_width; lia).
    assert ((p + r) / B * B -₆₄ r = p) as -> by (rewrite Hqe, <- Hpe; replace (p + r - r) with p by lia; apply wrap_small; unfold in_width; lia).
    assert (p +₆₄ B = p + B) as -> by (apply wrap_small; unfold in_width; lia).
    set (l := if len c <? p + B then len c -₆₄ p else B).
    assert (l = Z.min B (len c - p)) as Hl.
    { subst l. destruct (Z.ltb_spec (len c) (p + B)); [|lia]. rewrite wrap_small by (unfold in_width; lia). lia. }
    rewrite Hl. clear l Hl.
    destruct (mmap_free_keeps (fm c) w) as [Hw1s Hw1a]. set (w1 := ina_mmap_free (fm c) w) in *.
    destruct (mmap_new_spec x o data (mmap_flags c) p (Z.min B (len c - p)) w1) as (w2 & m & -> & Hw2s & Hw2a & Hsh & Hmo & Hml);
      [by rewrite Hw1s|by rewrite Hw1s|by rewrite Hw1a|lia| |lia|lia|].
    { apply Z.mod_divide in Hpage as [k Hk]; [|pose proof page_size_pos; lia]. apply Z.mod_divide in Hpr as [k' Hk']; [|lia].
      rewrite Hk', Hk, Z.mul_assoc. apply Z.mod_mul. pose proof page_size_pos. lia. }
    cbn [fm ina_mmap_memory_head fmap option_fmap option_map mbind option_bind p_map mem_pos p_at mmap_flags eof len carry buffer_size buffer_idx].
    assert (p + r -₆₄ p = r) as -> by (replace (p + r - p) with r by lia; apply wrap_small; unfold in_width; lia).
    eexists _, w2, _. split; [reflexivity|]. cbn [p_map p_at]. split; [|split; [|done]].
    + assert (r <= B) by (apply Z.divide_pos_le; [done|]; apply Z.mod_divide; [lia|done]).
      rewrite Z.sub_diag. rewrite (shows_bytes w2 m data) by (done || lia). do 3 f_equal. lia.
    + constructor; cbn [len position buffer_size buffer_idx carry fm]; fold B; try done.
      * exists o. by rewrite Hw2s, Hw1s.
      * by rewrite Hw2a, Hw1a.
      * split; [lia|]. rewrite <- Z.add_mod_idemp_l, Hpr, Z.add_0_l by lia. apply Z.mod_same. lia.
      * rewrite Hqe, (proj2 (Z.eqb_neq _ _)) by lia. done.
      * intros _. exists m. rewrite Hmo, Hoff, Hml. done.
Qed.

(** A chunk that would reach behind the end. *)
Lemma slide_end (x : file) (r : Z) (data : list Z) (c : window) (w : W) :
  slides x r data c w -> sizes r (buffer_size c) (len c) -> len c < position c + r ->
  ina_file_cursor_mmap_binary_read_chunk x r c w = Some (c, w, Ok (0, None)).
Proof.
  intros [(o & Ho & Hdata) _ Hlen [Hp Hpr] Hidx Hcarry Hmap] [Hpage Hr [HB HBr] [Hw1 Hw2] Hw3] Hfit.
  unfold ina_file_cursor_mmap_binary_read_chunk.
  assert (position c +₆₄ r = position c + r) as -> by (apply wrap_small; unfold in_width; lia).
  unfold ina_file_cursor_mmap_set_pos. rewrite (proj2 (Z.eqb_neq _ 0)) by lia.
  assert ((position c + r) / buffer_size c <= (len c + r) / buffer_size c) by (apply Z.div_le_mono; lia).
  rewrite (proj2 (Z.leb_gt _ _)) by lia. rewrite (proj2 (Z.ltb_lt (len c) (position c + r))) by lia. done.
Qed.
Lemma slide_all (x : file) (r : Z) (data : list Z) (k : nat) (c : cursor) (m : window) (w : W) :
  c_file c = x -> ext c = M m -> slides x r data m w -> sizes r (buffer_size m) (len m) ->
  position m + Z.of_nat k * r <= len m < position m + (Z.of_nat k + 1) * r ->
  exists (l : list (list Z)) (c' : cursor) (w' : W), read_all (S k) r c w = Some (l, c', w', Ended) /\
    concat l = take (k * Z.to_nat r) (drop (Z.to_nat (position m)) data) /\
    Forall (fun bs => Z.of_nat (length bs) = r) l /\ ina_file_cursor_get_pos c' = position m + Z.of_nat k * r.
Proof.
  intros Hx He Hs Hz Hk. pose proof (z_r _ _ _ Hz) as Hr. revert c m w Hx He Hs Hz Hk. induction k as [|k IH]; intros c m w Hx He Hs Hz Hk.
  - cbn [read_all]. unfold ina_file_cursor_binary_read_chunk. rewrite He, Hx, (slide_end x r data m w Hs Hz) by lia.
    cbn [mbind option_bind bytes_of]. rewrite bool_decide_true by done. eexists [], _, w. split; [reflexivity|].
    split; [done|]. split; [apply Forall_nil_2|]. unfold ina_file_cursor_get_pos. cbn. lia.
  - destruct (slide_step x r data m w Hs Hz ltac:(lia)) as (m1 & w1 & q & Hc & Hb & Hs1 & Hl1 & Hb1 & Hp1).
    remember (S k) as k' eqn:Hk'. cbn [read_all]. subst k'.
    unfold ina_file_cursor_binary_read_chunk. rewrite He, Hx, Hc. cbn [mbind option_bind bytes_of]. rewrite Hb. cbn [mbind option_bind].
    set (bs := take (Z.to_nat r) (drop (Z.to_nat (position m)) data)).
    assert (length bs = Z.to_nat r) as Hbl.
    { subst bs. rewrite length_take, length_drop. pose proof (sl_len _ _ _ _ _ Hs). pose proof (sl_pos _ _ _ _ _ Hs). lia. }
    rewrite bool_decide_false by (intros H0; rewrite H0 in Hbl; cbn in Hbl; lia).
    destruct (IH (set_ext (M m1) c) m1 w1 Hx eq_refl Hs1) as (l & c' & w' & -> & Hl & Hall & Hpos); [by rewrite Hl1, Hb1|lia|].
    cbn [mbind option_bind]. exists (bs :: l), c', w'. split; [done|]. split; [|split].
    + cbn [concat]. rewrite Hl, Hp1. subst bs. pose proof (sl_pos _ _ _ _ _ Hs) as [Hp _].
      replace (Z.to_nat (position m + r)) with (Z.to_nat (position m) + Z.to_nat r)%nat by lia. rewrite <- drop_drop.
      replace (S k * Z.to_nat r)%nat with (Z.to_nat r + k * Z.to_nat r)%nat by lia. by rewrite take_take_drop.
    + constructor; [lia|done].
    + lia.
Qed.

(** C14. A cursor with a window delivers the whole chunks of a file.  If the size of
    the chunks is a multiple of the page and divides the size of the window, and
    the file is open for reading, and also for writing if the cursor writes, a
    reader that starts with a new cursor gets, as the window moves along the file,
    one chunk after the other, each at an address where its bytes are mapped,
    without a gap and without an access outside of mapped memory, until less than a
    chunk is left, and then an end; what is left is not delivered. *)
Theorem window_chunks_are_the_file (x : file) (mode : cursor_mode) (r B : Z) (data garbage : list Z) (o : opened) (c : cursor) (w w1 : W) :
  v_fds (sees w) !! fh x = Some o -> v_files (sees w) !! o_file o = Some data -> sizes r B (Z.of_nat (length data)) ->
  access w (fh x) = O_RDWR \/ access w (fh x) = O_RDONLY /\ writes mode = false ->
  ina_file_cursor_new x INA_FILE_CURSOR_TYPE_MMAP mode B garbage w = (w1, Ok c) ->
  let n := (length data / Z.to_nat r)%nat in
  exists (l : list (list Z)) (c' : cursor) (w' : W), read_all (S n) r c w1 = Some (l, c', w', Ended) /\
    concat l = take (n * Z.to_nat r) data /\ Forall (fun bs => Z.of_nat (length bs) = r) l /\
    ina_file_cursor_get_pos c' = Z.of_nat n * r.
Proof.
  intros Ho Hd Hz Hmode Hnew. pose proof Hz as [Hpage Hr [HB HBr] [Hw1 Hw2] Hw3]. cbn zeta.
  unfold ina_file_cursor_new, ina_file_cursor_init_internal in Hnew.
  unfold ina_file_stat_new, ina_file_stat_sync in Hnew. destruct (fstat_opened w (fh x)) as [st Hst]; [by rewrite Ho|]. rewrite Hst in Hnew.
  pose proof (fstat_sees w (fh x) o st Ho Hst) as Hsz. unfold content in Hsz. rewrite Hd in Hsz. cbn [default from_option] in Hsz.
  cbn [ina_file_stat_file_size file_size] in Hnew.
  replace (st_size st) with (Z.of_nat (length data)) in Hnew by (cbn in Hsz; lia).
  set (prot := if writes mode then _ else _) in Hnew.
  assert (permits (access w (fh x)) (prot_of prot) MAP_SHARED = true) as Hper.
  { destruct Hmode as [->|[-> Hwr]]; subst prot; [by destruct (writes mode)|by rewrite Hwr]. }
  set (n := (length data / Z.to_nat r)%nat).
  assert (Z.of_nat n * r <= Z.of_nat (length data) < (Z.of_nat n + 1) * r) as Hn.
  { subst n. pose proof (Nat.div_mod (length data) (Z.to_nat r) ltac:(lia)). pose proof (Nat.mod_upper_bound (length data) (Z.to_nat r) ltac:(lia)). nia. }
  set (ml := if Z.of_nat (length data) <=? B then Z.of_nat (length data) else B) in Hnew.
  assert (ml = Z.min B (Z.of_nat (length data))) as Hml by (subst ml; destruct (Z.leb_spec (Z.of_nat (length data)) B); lia).
  assert (exists m : window, c = Cursor x INA_FILE_CURSOR_TYPE_MMAP mode false (M m) /\ slides x r data m w1 /\ len m = Z.of_nat (length data) /\
    buffer_size m = B /\ position m = 0) as (m & -> & Hs & Hl & Hb & Hp).
  { assert (off_of r B 0 = 0) as Hoff by (unfold off_of; by rewrite Z.div_0_l by lia).
    destruct (decide (0 < Z.of_nat (length data))) as [Hpos|Hzero].
    - destruct (mmap_new_spec x o data prot 0 ml w Ho Hd Hper ltac:(lia)) as (w2 & m & Hm & Hs2 & Ha2 & Hsh & Hmo & Hml2);
        [apply Z.mod_0_l; pose proof page_size_pos; lia|lia|lia|].
      rewrite Hm in Hnew. injection Hnew as <- <-. eexists. split; [reflexivity|]. split; [|done].
      constructor; cbn [len position buffer_size buffer_idx carry fm]; try done.
      + exists o. by rewrite Hs2.
      + by rewrite Ha2.
      + split; [lia|]. apply Z.mod_0_l. lia.
      + intros _. exists m. split; [done|]. split; [done|]. rewrite Hoff. split; [done|]. lia.
    - assert (sees w1 = sees w /\ access w1 = access w) as [Hs1 Ha1].
      { revert Hnew. unfold ina_mmap_new, ina_file_stat_new, ina_file_stat_sync. rewrite Hst.
        destruct (_ <? 0); [by intros [= <- _]|]. intros Hnew.
        pose proof (mmap_maps w ml (prot_of prot) (map_flags INA_MMAP_MEM_SHARE_SHARED INA_MMAP_MAP_TYPE_FILE) (fh x) 0 o Ho) as Hm.
        destruct (mmap _ _ _ _ _ w) as [w' [m|]]; destruct Hm as (Hs & Ha & _); by injection Hnew as <- _. }
      destruct (ina_mmap_new _ _ _ _ _ _ w) as [w2 rm]. injection Hnew as <- <-. eexists. split; [reflexivity|]. split; [|done].
      constructor; cbn [len position buffer_size buffer_idx carry fm]; try done.
      + exists o. by rewrite Hs1.
      + by rewrite Ha1.
      + split; [lia|]. apply Z.mod_0_l. lia. }
  destruct (slide_all x r data n (Cursor x INA_FILE_CURSOR_TYPE_MMAP mode false (M m)) m w1 eq_refl eq_refl Hs) as (l & c' & w' & H1 & H2 & H3 & H4);
    [by rewrite Hb, Hl|rewrite Hp, Hl; lia|].
  exists l, c', w'. rewrite Hp in *. split; [done|]. split; [exact H2|]. split; [done|]. lia.
Qed.
End Window.

(** ** Reading a file in lines

    A reader that asks for lines until one has no characters; [inner] bounds the
    characters of a line. *)
Section Lines.
Context {W : Type} `{!Posix W, !Mappings W}.
Fixpoint read_lines (fuel inner : nat) (c : cursor) (w : W) : option (list (list Z) * cursor * W * outcome) :=
  match fuel with
  | O => Some ([], c, w, Unfinished)
  | S fuel =>
      '(c, w, r) ← ina_file_cursor_text_read_line inner c w;
      match r with
      | Err e => Some ([], c, w, Failed e)
      | Ok (None, _) => Some ([], c, w, Ended)
      | Ok (Some b, l) =>
          if l =? 0 then Some ([], c, w, Ended)
          else
            bs ← match b with
                 | inl q => mapM (fun i : nat => peek w (p_map q) (p_at q + Z.of_nat i)) (seq 0 (Z.to_nat l))
                 | inr s => Some s
                 end;
            '(ls, c, w, o) ← read_lines fuel inner c w; Some (bs :: ls, c, w, o)
      end
  end.
End Lines.

Definition plain (bs : list Z) : Prop := Forall (fun b => b <> 10 /\ b <> 0) bs.
Definition with_newline (bs : list Z) : list Z := bs ++ [10].

Section Window_lines.
Context {W : Type} `{!Posix W, !PosixLaws W, !Mappings W, !MappingLaws W}.
Abbreviation page := (page_size (W := W)).

Lemma round_up_lt (pg n : Z) : 0 < pg -> n mod pg <> 0 -> n < round_up pg n.
Proof.
  intros Hp Hn. unfold round_up. pose proof (Z.div_mod n pg ltac:(lia)). pose proof (Z.mod_pos_bound n pg Hp).
  replace (n + pg - 1) with ((n / pg + 1) * pg + (n mod pg - 1)) by nia. rewrite Z.div_add_l, (Z.div_small (n mod pg - 1)) by lia. nia.
Qed.

(** The whole file is in the window. *)
Record whole (w : W) (m : mapping) (data : list Z) : Prop := {
  wh_shows : shows w m data;
  wh_all : m_offset m = 0 /\ m_length m = Z.of_nat (length data)
}.
Lemma whole_peek (w : W) (m : mapping) (data : list Z) (i : nat) (b : Z) : whole w m data -> data !! i = Some b -> peek w (addr m) (Z.of_nat i) = Some b.
Proof.
  intros [[(n & Hm & Hf) _] [Ho Hl]] Hi. pose proof (lookup_lt_Some _ _ _ Hi). pose proof (round_up_le page (m_length m) page_size_pos).
  rewrite (peek_maps w _ _ data _ Hm Hf) by (cbn [r_len]; lia). cbn [r_off]. rewrite Ho. rewrite (proj2 (Z.ltb_lt _ _)) by lia.
  rewrite <- Hi. f_equal. lia.
Qed.
Lemma whole_behind (w : W) (m : mapping) (data : list Z) : whole w m data -> Z.of_nat (length data) mod page <> 0 ->
  peek w (addr m) (Z.of_nat (length data)) = Some 0.
Proof.
  intros [[(n & Hm & Hf) _] [Ho Hl]] Hmod. pose proof (round_up_lt page _ page_size_pos Hmod) as Hlt.
  rewrite (peek_maps w _ _ data _ Hm Hf) by (cbn [r_len]; rewrite Hl; lia). cbn [r_off]. rewrite Ho. rewrite (proj2 (Z.ltb_ge _ _)) by lia.
  by rewrite (proj2 (Z.ltb_lt _ _)) by lia.
Qed.

Lemma loop_line (w : W) (m : mapping) (bs pre post : list Z) (l : Z) (fuel : nat) :
  whole w m (pre ++ bs ++ 10 :: post) -> plain bs -> (length bs < fuel)%nat ->
  line_loop fuel (addr m) (m_length m) (Z.of_nat (length pre)) l w =
    Some (Z.of_nat (length pre) + Z.of_nat (length bs), l + Z.of_nat (length bs), false).
Proof.
  revert pre l fuel. induction bs as [|b bs IH]; intros pre l fuel Hw Hp Hf; (destruct fuel as [|fuel]; [cbn in Hf; lia|]); cbn [line_loop].
  - rewrite (whole_peek w m _ (length pre) 10 Hw) by (by apply list_lookup_middle). cbn [mbind option_bind]. rewrite Z.eqb_refl.
    cbn [length]. by rewrite !Z.add_0_r.
  - apply Forall_cons in Hp as [[Hb10 Hb0] Hp]. rewrite (whole_peek w m _ (length pre) b Hw) by (by apply list_lookup_middle).
    cbn [mbind option_bind]. rewrite (proj2 (Z.eqb_neq b 10)) by done.
    pose proof (wh_all _ _ _ Hw) as [_ Hl]. rewrite Hl, !length_app. cbn [length] in *. rewrite (proj2 (Z.leb_gt _ _)) by lia.
    replace (pre ++ (b :: bs) ++ 10 :: post) with ((pre ++ [b]) ++ bs ++ 10 :: post) in Hw by (by rewrite <- !app_assoc).
    assert (exists y : Z, peek w (addr m) (Z.of_nat (length pre) + 1) = Some y /\ y <> 0) as (y & Hy & Hy0).
    { replace (Z.of_nat (length pre) + 1) with (Z.of_nat (length (pre ++ [b]))) by (rewrite length_app; cbn; lia).
      destruct bs as [|y bs]; [exists 10|exists y]; (split; [apply (whole_peek w m _ _ _ Hw); by apply list_lookup_middle|]); [done|].
      by apply Forall_cons in Hp as [[_ ?] _]. }
    rewrite Hy. cbn [mbind option_bind]. rewrite (proj2 (Z.eqb_neq y 0)) by done.
    specialize (IH (pre ++ [b]) (l + 1) fuel Hw Hp ltac:(lia)). rewrite Hl in IH. rewrite !length_app in IH. cbn [length] in IH.
    replace (Z.of_nat (length pre) + 1) with (Z.of_nat (length pre + 1)) by lia.
    etrans; [|etrans; [exact IH|]]; [f_equal; rewrite ?length_app; cbn [length]; lia|]. do 3 f_equal; lia.
Qed.

Lemma loop_tail (w : W) (m : mapping) (bs pre : list Z) (l : Z) (fuel : nat) :
  whole w m (pre ++ bs) -> plain bs -> bs <> [] -> (length bs < fuel)%nat ->
  line_loop fuel (addr m) (m_length m) (Z.of_nat (length pre)) l w =
    Some (Z.of_nat (length pre) + Z.of_nat (length bs), l + Z.of_nat (length bs), true).
Proof.
  revert pre l fuel. induction bs as [|b bs IH]; intros pre l fuel Hw Hp Hne Hf; [done|]. (destruct fuel as [|fuel]; [cbn in Hf; lia|]); cbn [line_loop].
  apply Forall_cons in Hp as [[Hb10 Hb0] Hp]. rewrite (whole_peek w m _ (length pre) b Hw) by (by apply list_lookup_middle).
  cbn [mbind option_bind]. rewrite (proj2 (Z.eqb_neq b 10)) by done. pose proof (wh_all _ _ _ Hw) as [_ Hl]. rewrite length_app in Hl. cbn [length] in *.
  destruct bs as [|y bs].
  - rewrite (proj2 (Z.leb_le _ _)) by (cbn in *; lia). done.
  - rewrite (proj2 (Z.leb_gt _ _)) by (cbn in *; lia).
    replace (pre ++ b :: y :: bs) with ((pre ++ [b]) ++ y :: bs) in Hw by (by rewrite <- !app_assoc).
    replace (Z.of_nat (length pre) + 1) with (Z.of_nat (length (pre ++ [b]))) by (rewrite length_app; cbn; lia).
    rewrite (whole_peek w m _ (length (pre ++ [b])) y Hw) by (by apply list_lookup_middle). cbn [mbind option_bind].
    pose proof Hp as Hp'. apply Forall_cons in Hp' as [[_ Hy0] _]. rewrite (proj2 (Z.eqb_neq y 0)) by done.
    rewrite (IH (pre ++ [b]) (l + 1) fuel Hw Hp) by (done || (cbn in *; lia)). rewrite length_app. cbn [length]. do 3 f_equal; lia.
Qed.
(** A cursor in its only window, where [pre] is passed. *)
Record stands (c : cursor) (k : window) (m : mapping) (data pre : list Z) (w : W) : Prop := {
  st_ext : ext c = M k;
  st_map : fm k = Some m;
  st_whole : whole w m data;
  st_len : len k = Z.of_nat (length data) /\ len k < 2 ^ 62;
  st_pos : position k = Z.of_nat (length pre) /\ mem_pos k = Some (Ptr (addr m) (Z.of_nat (length pre)))
}.

Lemma line_spec (c : cursor) (k : window) (m : mapping) (pre bs post : list Z) (w : W) (inner : nat) :
  stands c k m (pre ++ bs ++ 10 :: post) pre w -> plain bs -> (length bs < inner)%nat ->
  exists (c' : cursor) (k' : window), 
    ina_file_cursor_text_read_line inner c w = Some (c', w, Ok (Some (inl (Ptr (addr m) (Z.of_nat (length pre)))), Z.of_nat (length bs) + 1)) /\
    mapM (fun i : nat => peek w (addr m) (Z.of_nat (length pre) + Z.of_nat i)) (seq 0 (length bs + 1)) = Some (with_newline bs) /\
    stands c' k' m (pre ++ bs ++ 10 :: post) (pre ++ with_newline bs) w.
Proof.
  intros [He Hm Hw [Hl Hl62] [Hp Hmp]] Hpl Hf. unfold ina_file_cursor_text_read_line. rewrite He.
  unfold ina_file_cursor_mmap_text_read_line. rewrite Hm, Hmp. cbn [ina_mmap_memory_tail fmap option_fmap option_map mbind option_bind p_map p_at].
  rewrite (loop_line w m bs pre post 0 inner Hw Hpl Hf). cbn [mbind option_bind]. rewrite Z.add_0_l.
  eexists _, _. split; [reflexivity|]. split.
  - pose proof Hw as [Hsh [Hmo Hml]]. rewrite <- (Nat2Z.id (length bs + 1)). rewrite !length_app in Hml. cbn [length] in Hml.
    rewrite (shows_bytes w m _ (Z.of_nat (length pre)) (Z.of_nat (length bs + 1)) Hsh) by lia. rewrite Hmo, Z.add_0_l, !Nat2Z.id, drop_app_length.
    f_equal. replace (bs ++ 10 :: post) with (with_newline bs ++ post) by (unfold with_newline; by rewrite <- app_assoc).
    apply take_app_length'. unfold with_newline. rewrite length_app. done.
  - constructor; [reflexivity|done|done|done|]. cbn [position mem_pos move]. unfold with_newline. rewrite !length_app. cbn [length].
    rewrite !length_app in Hl. cbn [length] in Hl. rewrite Hp. split; [rewrite wrap_small by (unfold in_width; lia); lia|]. do 2 f_equal. lia.
Qed.

Lemma tail_spec (c : cursor) (k : window) (m : mapping) (pre bs : list Z) (w : W) (inner : nat) :
  stands c k m (pre ++ bs) pre w -> plain bs -> (length bs < inner)%nat ->
  (bs = [] -> Z.of_nat (length pre) mod page <> 0) ->
  exists c' : cursor, 
    ina_file_cursor_text_read_line inner c w = Some (c', w, Ok (Some (inl (Ptr (addr m) (Z.of_nat (length pre)))), 0)) /\
    ina_file_cursor_get_pos c' = Z.of_nat (length pre).
Proof.
  intros [He Hm Hw [Hl Hl62] [Hp Hmp]] Hpl Hf Hempty. unfold ina_file_cursor_text_read_line. rewrite He.
  unfold ina_file_cursor_mmap_text_read_line. rewrite Hm, Hmp. cbn [ina_mmap_memory_tail fmap option_fmap option_map mbind option_bind p_map p_at].
  assert (exists (d l : Z), line_loop inner (addr m) (m_length m) (Z.of_nat (length pre)) 0 w = Some (d, l, true) /\
    Z.of_nat (length bs) <= l <= Z.of_nat (length bs) + 1) as (d & l & -> & Hll).
  { destruct bs as [|b bs].
    - rewrite app_nil_r in *. destruct inner as [|inner]; [cbn in Hf; lia|]. cbn [line_loop].
      rewrite (whole_behind w m pre Hw (Hempty eq_refl)). cbn [mbind option_bind]. change (0 =? 10) with false. cbn iota.
      pose proof (wh_all _ _ _ Hw) as [_ ->]. rewrite (proj2 (Z.leb_le _ _)) by lia. eexists _, _. split; [reflexivity|]. cbn. lia.
    - rewrite (loop_tail w m (b :: bs) pre 0 inner Hw Hpl) by done. eexists _, _. split; [reflexivity|]. lia. }
  cbn [mbind option_bind]. rewrite length_app in Hl. rewrite Hp, wrap_small by (unfold in_width; lia).
  rewrite (proj2 (Z.leb_le _ _)) by lia. cbn [mbind option_bind]. eexists. split; [reflexivity|]. exact Hp.
Qed.

(** C15. A cursor whose window holds the whole file delivers its lines.  A reader
    gets every line that ends with a newline, in order, with the newline, each at an
    address where it is mapped, and then an end; characters behind the last newline
    are passed over.  It stays inside of mapped memory, except that a file without
    such characters whose size is a multiple of the page is read at its end, where
    nothing is mapped. *)
Theorem window_lines_are_the_file (lines : list (list Z)) (tail pre : list Z) (c : cursor) (k : window) (m : mapping) (w : W) (fuel inner : nat) :
  stands c k m (pre ++ concat (map with_newline lines) ++ tail) pre w -> Forall plain lines -> plain tail ->
  (tail = [] -> Z.of_nat (length (pre ++ concat (map with_newline lines))) mod page <> 0) ->
  (length lines < fuel)%nat -> Forall (fun bs => (length bs < inner)%nat) (tail :: lines) ->
  exists c' : cursor, read_lines fuel inner c w = Some (map with_newline lines, c', w, Ended) /\
    ina_file_cursor_get_pos c' = Z.of_nat (length (pre ++ concat (map with_newline lines))).
Proof.
  intros Hs Hall Htail Hmod Hfuel Hin. apply Forall_cons in Hin as [Hti Hin]. revert pre c k fuel Hs Hmod Hfuel.
  induction lines as [|bs lines IH]; intros pre c k fuel Hs Hmod Hfuel; (destruct fuel as [|fuel]; [lia|]); cbn [read_lines map concat].
  - cbn [map concat] in Hs. rewrite app_nil_l in Hs. cbn [map concat] in Hmod. rewrite app_nil_r in Hmod |- *.
    destruct (tail_spec c k m pre tail w inner Hs Htail Hti Hmod) as (c' & -> & Hp). exists c'. split; [reflexivity|done].
  - apply Forall_cons in Hall as [Hb Hall]. apply Forall_cons in Hin as [Hbi Hin]. cbn [length] in Hfuel.
    assert (pre ++ concat (map with_newline (bs :: lines)) ++ tail = pre ++ bs ++ 10 :: (concat (map with_newline lines) ++ tail)) as Hd.
    { cbn [map concat]. unfold with_newline at 1. by rewrite <- !app_assoc. }
    rewrite Hd in Hs. destruct (line_spec c k m pre bs _ w inner Hs Hb Hbi) as (c1 & k1 & -> & Hbytes & Hs1). cbn [mbind option_bind].
    rewrite (proj2 (Z.eqb_neq _ 0)) by lia. cbn [p_map p_at]. replace (Z.to_nat (Z.of_nat (length bs) + 1)) with (length bs + 1)%nat by lia.
    rewrite Hbytes. cbn [mbind option_bind].
    assert (pre ++ bs ++ 10 :: (concat (map with_newline lines) ++ tail) = (pre ++ with_newline bs) ++ concat (map with_newline lines) ++ tail) as Hd1.
    { unfold with_newline at 2. by rewrite <- !app_assoc. }
    rewrite Hd1 in Hs1. rewrite app_assoc.
    destruct (IH Hall Hin (pre ++ with_newline bs) c1 k1 fuel Hs1) as (c2 & Hr & Hp).
    + intros Ht. rewrite <- app_assoc. by apply Hmod.
    + lia.
    + rewrite Hr. cbn [mbind option_bind]. exists c2. split; [done|]. exact Hp.
Qed.
End Window_lines.

(** ** Files in memory with mappings, open for reading; a page has four bytes. *)
Definition mapped_disk : Type := disk (gmap nat region).
Definition set_maps (m : gmap nat region) (d : mapped_disk) : mapped_disk := Disk (d_view d) (d_paths d) (d_limit d) m.
Definition d_page : Z := 4.
Definition d_mmap (l prot flags fd off : Z) (d : mapped_disk) : mapped_disk * option nat :=
  match d_fds d !! fd with
  | Some o =>
      if (0 <? l) && (off mod d_page =? 0) && permits O_RDONLY prot flags then
        let m := next_id (d_more d) in (set_maps (<[m := Region (o_file o) off l]> (d_more d)) d, Some m)
      else (d, None)
  | None => (d, None)
  end.
Definition d_peek (d : mapped_disk) (m : nat) (i : Z) : option Z :=
  r ← d_more d !! m;
  c ← v_files (d_view d) !! r_file r;
  if (0 <=? i) && (i <? round_up d_page (r_len r)) then
    if r_off r + i <? Z.of_nat (length c) then c !! Z.to_nat (r_off r + i)
    else if r_off r + i <? round_up d_page (Z.of_nat (length c)) then Some 0 else None
  else None.
#[export] Instance disk_mappings : Mappings mapped_disk := {
  page_size := d_page; mmap := d_mmap; munmap := fun m d => set_maps (delete m (d_more d)) d; peek := d_peek;
  msync := fun _ _ d => (d, true); madvise := fun _ _ _ d => (d, true)
}.
#[export] Program Instance disk_mapping_laws : MappingLaws mapped_disk := { maps := fun d => d_more d; access := fun _ _ => O_RDONLY }.
Next Obligation. intros w fd [o Ho]. apply d_sees_fd in Ho as [_ Ho]. cbn. unfold d_fstat. rewrite Ho. by eexists. Qed.
Next Obligation. done. Qed.
Next Obligation.
  intros w l prot flags fd off o Ho. apply d_sees_fd in Ho as [_ Ho]. cbn [mmap disk_mappings]. unfold d_mmap. rewrite Ho.
  destruct (Z.ltb_spec 0 l); cbn [andb]; [|split; [done|split; [done|split; [by left; lia|done]]]].
  destruct (Z.eqb_spec (off mod d_page) 0); cbn [andb]; [|split; [done|split; [done|split; [by right; left|done]]]].
  destruct (permits O_RDONLY prot flags); [|split; [done|split; [done|split; [by right; right|done]]]].
  split; [done|]. split; [done|]. split; [done|]. split; [done|]. split; [done|]. split; [apply next_id_spec|done].
Qed.
Next Obligation. done. Qed.
Next Obligation.
  intros w m r c d Hm Hc Hd. cbn [peek disk_mappings]. unfold d_peek. rewrite Hm. cbn [mbind option_bind].
  change (v_files (d_view w) !! r_file r = Some c) in Hc. rewrite Hc. cbn [mbind option_bind].
  change (page_size (W := mapped_disk)) with d_page in *. rewrite (proj2 (Z.leb_le 0 d)), (proj2 (Z.ltb_lt _ _)) by lia. done.
Qed.

(** A file of 22 bytes. *)
Definition letters : list Z := [97; 98; 99; 10; 100; 101; 10; 10; 102; 103; 104; 105; 106; 107; 108; 109; 110; 111; 112; 113; 10; 114].
Definition letters_disk (data : list Z) : mapped_disk :=
  Disk (View {[3 := Opened 0 0 false]} ∅ {[0%nat := data]} 18) {["a"%string := 0%nat]} 2 ∅.
Definition letters_file : file := File_ true "a" 3 None INA_FILE_ACCESS_MODE_READ INA_FILE_CREATE_MODE_OPEN INA_FILE_SHARE_MODE_READ.
Definition new_cursor (t : cursor_type) (B : Z) (data : list Z) : mapped_disk * result cursor :=
  ina_file_cursor_new letters_file t INA_FILE_CURSOR_MODE_READ_BINARY B (replicate (Z.to_nat B) 0) (letters_disk data).
Definition cursor_of (x : mapped_disk * result cursor) : cursor :=
  match x.2 with Ok c => c | Err _ => Cursor letters_file INA_FILE_CURSOR_TYPE_FILEIO INA_FILE_CURSOR_MODE_READ_BINARY false (F (Buffered false 0 0 0 [] None None)) end.
Definition run_cursor (t : cursor_type) (B r : Z) (fuel : nat) : option (list (list Z) * outcome) :=
  let x := new_cursor t B letters in
  '(l, _, _, e) ← read_all fuel r (cursor_of x) x.1; Some (l, e).
Lemma cursors_run :
  run_cursor INA_FILE_CURSOR_TYPE_MMAP 8 4 10 = Some ([[97; 98; 99; 10]; [100; 101; 10; 10]; [102; 103; 104; 105]; [106; 107; 108; 109]; [110; 111; 112; 113]], Ended) /\
  run_cursor INA_FILE_CURSOR_TYPE_FILEIO 8 4 10 = Some ([[97; 98; 99]; [10; 100; 101]; [10; 10; 102]; [103; 104; 105]; [106; 107; 108]; [109; 110; 111]; [112; 113; 10]; [114]], Ended).
Proof. vm_compute. done. Qed.

Definition letters_cursor : cursor := cursor_of (new_cursor INA_FILE_CURSOR_TYPE_MMAP 8 letters).
Definition letters_state : mapped_disk := (new_cursor INA_FILE_CURSOR_TYPE_MMAP 8 letters).1.
Lemma letters_new : new_cursor INA_FILE_CURSOR_TYPE_MMAP 8 letters = (letters_state, Ok letters_cursor).
Proof. vm_compute. reflexivity. Qed.
Lemma letters_open : v_fds (sees (letters_disk letters)) !! fh letters_file = Some (Opened 0 0 false).
Proof. vm_compute. reflexivity. Qed.
Lemma letters_sizes : sizes (W := mapped_disk) 4 8 (Z.of_nat (length letters)).
Proof. by constructor. Qed.
Lemma window_chunks_are_the_file_witness :
  exists (l : list (list Z)) (c' : cursor) (w' : mapped_disk), read_all 6 4 letters_cursor letters_state = Some (l, c', w', Ended) /\
    concat l = take 20 letters.
Proof.
  destruct (window_chunks_are_the_file letters_file INA_FILE_CURSOR_MODE_READ_BINARY 4 8 letters (replicate 8 0) (Opened 0 0 false) letters_cursor
    (letters_disk letters) letters_state letters_open (lookup_singleton_eq _ _) letters_sizes ltac:(right; split; reflexivity) letters_new) as (l & c' & w' & H1 & H2 & _).
  exists l, c', w'. exact (conj H1 H2).
Defined.

Definition letters_buffer : buffered := Buffered false 8 22 0 (replicate 8 0) None None.
Definition buffer_cursor : cursor := Cursor letters_file INA_FILE_CURSOR_TYPE_FILEIO INA_FILE_CURSOR_MODE_READ_BINARY false (F letters_buffer).
Lemma letters_reads : reads buffer_cursor letters_buffer (Opened 0 0 false) (letters_disk letters).
Proof. constructor; [done|exact letters_open|done|done|]. unfold rest_of. cbn [o_pos f_position]. by vm_compute. Qed.
Lemma buffered_chunks_are_the_file_witness :
  exists (l : list (list Z)) (c' : cursor) (w' : mapped_disk) (end_ : outcome) (left_ : list Z),
    read_all 30 5 buffer_cursor (letters_disk letters) = Some (l, c', w', end_) /\
    rest_of (Opened 0 0 false) (letters_disk letters) = concat l ++ left_.
Proof.
  destruct (buffered_chunks_are_the_file 5 buffer_cursor letters_buffer (Opened 0 0 false) (letters_disk letters) 30 letters_reads
    ltac:(cbn; lia) ltac:(vm_compute; lia)) as (l & c' & w' & e & left_ & H1 & _ & H2 & _).
  exists l, c', w', e, left_. exact (conj H1 H2).
Defined.

Definition read_text (data : list Z) : option (list (list Z) * outcome) :=
  let x := new_cursor INA_FILE_CURSOR_TYPE_MMAP 64 data in
  '(l, _, _, e) ← read_lines 10 30 (cursor_of x) x.1; Some (l, e).
Lemma lines_run : read_text letters =
  Some ([[97; 98; 99; 10]; [100; 101; 10]; [10]; [102; 103; 104; 105; 106; 107; 108; 109; 110; 111; 112; 113; 10]], Ended) /\
  read_text (take 4 letters) = None.
Proof. vm_compute. done. Qed.
Definition whole_window : window := Window 1 0 (Some (Ptr 0 0)) (Some (Mapping 0 0 22)) false 22 0 64 0.
Definition whole_cursor : cursor := Cursor letters_file INA_FILE_CURSOR_TYPE_MMAP INA_FILE_CURSOR_MODE_READ_BINARY false (M whole_window).
Definition whole_state : mapped_disk := (new_cursor INA_FILE_CURSOR_TYPE_MMAP 64 letters).1.
Lemma whole_stands : stands whole_cursor whole_window (Mapping 0 0 22) letters [] whole_state.
Proof.
  constructor; [reflexivity|reflexivity| |by vm_compute|by vm_compute]. constructor; [|by vm_compute].
  constructor; [|by vm_compute]. exists 0%nat. split; vm_compute; reflexivity.
Qed.
Definition letter_lines : list (list Z) := [[97; 98; 99]; [100; 101]; []; [102; 103; 104; 105; 106; 107; 108; 109; 110; 111; 112; 113]].
Lemma letters_plain (bs : list Z) : forallb (fun b => negb (b =? 10) && negb (b =? 0)) bs = true -> plain bs.
Proof.
  intros H. apply Forall_forall. intros b Hb. rewrite forallb_forall in H. specialize (H b ltac:(by apply list_elem_of_In)).
  apply andb_prop in H as [H1 H2]. split; by apply Z.eqb_neq, negb_true_iff.
Qed.
Lemma window_lines_are_the_file_witness :
  exists c' : cursor, read_lines 5 20 whole_cursor whole_state = Some (map with_newline letter_lines, c', whole_state, Ended) /\
    ina_file_cursor_get_pos c' = 21.
Proof.
  apply (window_lines_are_the_file letter_lines [114] [] whole_cursor whole_window (Mapping 0 0 22) whole_state 5 20).
  - exact whole_stands.
  - repeat (apply Forall_cons; split; [by apply letters_plain|]). apply Forall_nil_2.
  - by apply letters_plain.
  - done.
  - cbn. lia.
  - repeat (apply Forall_cons; split; [cbn; lia|]). apply Forall_nil_2.
Defined.

(** ** Findings

    With a buffer no line can be read, because the text that the first chunk is
    added to does not exist; a chunk size that does not divide the window makes it
    move to an offset that is not a multiple of a page, where it cannot be mapped;
    and a line that reaches out of the window is cut in two or does the same.  A
    cursor that writes to a file that is open for reading only is made all the
    same, without a mapping, and its first chunk is at a pointer that was never set. *)
Definition writing_cursor : mapped_disk * result cursor :=
  ina_file_cursor_new letters_file INA_FILE_CURSOR_TYPE_MMAP INA_FILE_CURSOR_MODE_READWRITE_BINARY 8 [] (letters_disk letters).
Lemma cursor_defects :
  (let x := new_cursor INA_FILE_CURSOR_TYPE_FILEIO 64 letters in ina_file_cursor_text_read_line 100 (cursor_of x) x.1 = None) /\
  run_cursor INA_FILE_CURSOR_TYPE_MMAP 8 6 10 = None /\
  (let x := new_cursor INA_FILE_CURSOR_TYPE_MMAP 8 letters in read_lines 10 30 (cursor_of x) x.1 = None) /\
  (writing_cursor.2 = Ok (cursor_of writing_cursor) /\ ina_file_cursor_binary_read_chunk 4 (cursor_of writing_cursor) writing_cursor.1 = None).
Proof. vm_compute. done. Qed.

End FileCursor.
