(* ===== verification/Dir.v ===== *)
(** * Directories (dir.c, dir.h)

    A walker copies the entries of a directory to an array, their names to a pool of
    Mempool.v by the functions of StrPool.v, sorts them and hands them out one by
    one.  What [opendir] and [readdir] give is an argument; [qsort] is a function of
    which only what the C standard promises is used. *)
From Stdlib Require Import ZArith Lia Bool String Sorted.
From stdpp Require Import base numbers option fin_maps gmap sets sorting list.
From S2P Require Import Prelude Error Libc Str Mempool StrPool.

Module Dir.
Import Error Libc Mempool.
Import StrPool(field, ina_str_new_fromcstr_using_pool).

Inductive sort_order := INA_DIR_SORT_ORDER_NONE | INA_DIR_SORT_ORDER_ASCEND | INA_DIR_SORT_ORDER_DESCEND.
Inductive sort_attrib := INA_DIR_SORT_ATTRIB_DFT | INA_DIR_SORT_ATTRIB_NAME | INA_DIR_SORT_ATTRIB_TYPE.
Definition INA_DIR_ENTRY_TYPE_UNKNOWN : Z := 0.
Definition INA_DIR_ENTRY_TYPE_FILE : Z := 1.
Definition INA_DIR_ENTRY_TYPE_DIR : Z := 2.
Definition capacity : nat := 1024.

(** [struct ina_dir_entry_s]; the size is not used.  The name is a string in a pool,
    by its header, or NULL.  [struct dirent]. *)
Record entry := Entry { name : option ptr; type : Z }.
Record dirent := Dirent { d_name : text; d_type : Z }.
Definition DT_UNKNOWN : Z := 0.
Definition DT_FIFO : Z := 1.
Definition DT_CHR : Z := 2.
Definition DT_DIR : Z := 4.
Definition DT_BLK : Z := 6.
Definition DT_REG : Z := 8.
Definition DT_LNK : Z := 10.
Definition DT_SOCK : Z := 12.

(** ** Comparison *)
Fixpoint strcasecmp (a b : text) : Z :=
  match a, b with
  | [], [] => 0
  | [], y :: _ => - to_lower y
  | x :: _, [] => to_lower x
  | x :: a, y :: b => if to_lower x =? to_lower y then strcasecmp a b else to_lower x - to_lower y
  end.
(** The name as the functions for C strings see it: the bytes up to the first that is
    zero; [None] is a read behind the memory. *)
Fixpoint upto_zero (m : text) : option text :=
  match m with [] => None | c :: m => if c =? 0 then Some [] else t ← upto_zero m; Some (c :: t) end.
Definition name_of (st : pmem) (e : entry) : option text :=
  s ← name e; b ← blocks st !! ptr_block s; if 0 <=? ptr_off s then upto_zero (drop (Z.to_nat (ptr_off s + 8)) b) else None.

Definition callback : Type := pmem -> entry -> entry -> option Z.
Definition __ina_dir_walker_cmp_name_ascend : callback := fun st a b => x ← name_of st a; y ← name_of st b; Some (strcasecmp x y).
Definition __ina_dir_walker_cmp_name_descend : callback := fun st a b => y ← name_of st b; x ← name_of st a; Some (strcasecmp y x).
Definition __ina_dir_walker_cmp_type_ascend : callback := fun _ a b =>
  Some (if type a <? type b then -1 else if type a =? type b then 0 else if type b <? type a then 1 else 0).
Definition __ina_dir_walker_cmp_type_descend : callback := fun _ a b =>
  Some (if type b <? type a then -1 else if type b =? type a then 0 else if type a <? type b then 1 else 0).

(** ** Walkers

    The pointers [first], [last] and [current] into the array are indices; [smp] is
    the pool of the names. *)
Record walker := Walker {
  basedir : text; first : option nat; last : nat; current : option nat; head : list entry; smp : Z;
  order : sort_order; attrib : sort_attrib; recursive : bool; sort_cb : option callback }.

Definition __ina_dir_walker_set_sort_cb (w : walker) : walker :=
  Walker (basedir w) (first w) (last w) (current w) (head w) (smp w) (order w) (attrib w) (recursive w)
    (match order w with
     | INA_DIR_SORT_ORDER_NONE => None
     | INA_DIR_SORT_ORDER_ASCEND =>
         Some (match attrib w with
               | INA_DIR_SORT_ATTRIB_DFT | INA_DIR_SORT_ATTRIB_NAME => __ina_dir_walker_cmp_name_ascend
               | INA_DIR_SORT_ATTRIB_TYPE => __ina_dir_walker_cmp_type_ascend
               end)
     | INA_DIR_SORT_ORDER_DESCEND =>
         Some (match attrib w with
               | INA_DIR_SORT_ATTRIB_DFT | INA_DIR_SORT_ATTRIB_NAME => __ina_dir_walker_cmp_name_descend
               | INA_DIR_SORT_ATTRIB_TYPE => __ina_dir_walker_cmp_type_descend
               end)
     end).
Definition names_size : Z := 1024 * 1024.
(** [got]: there is memory for the walker, its array and the name of the directory. *)
Definition ina_dir_walker_new (malloc_ok : Z -> bool) (garbage : Z -> text) (got : bool) (dir : text) (st : pmem) : option (pmem * result walker) :=
  if (length dir =? 0)%nat then Some (st, Err INA_ERR_INVALID_ARGUMENT)
  else if negb got then Some (st, Err INA_ERR_OUT_OF_MEMORY)
  else
    '(st, r) ← ina_mempool_new malloc_ok garbage st names_size None INA_MEM_DYNAMIC;
    Some (st, match r with
      | Err e => Err e
      | Ok smp => Ok (Walker dir None 0 None (replicate capacity (Entry None 0)) smp INA_DIR_SORT_ORDER_NONE INA_DIR_SORT_ATTRIB_DFT false None)
      end).
Definition set_recursive (r : bool) (w : walker) : walker :=
  Walker (basedir w) (first w) (last w) (current w) (head w) (smp w) (order w) (attrib w) r (sort_cb w).
Definition ina_dir_walker_enable_recursive (w : walker) : walker := set_recursive true w.
Definition ina_dir_walker_disable_recursive (w : walker) : walker := set_recursive false w.
Definition ina_dir_walker_get_sort_order (w : walker) : sort_order := order w.
Definition ina_dir_walker_set_sort_order (o : sort_order) (w : walker) : walker :=
  __ina_dir_walker_set_sort_cb (Walker (basedir w) (first w) (last w) (current w) (head w) (smp w) o (attrib w) (recursive w) (sort_cb w)).
Definition ina_dir_walker_get_sort_attrib (w : walker) : sort_attrib := attrib w.
Definition ina_dir_walker_set_sort_attrib (a : sort_attrib) (w : walker) : walker :=
  __ina_dir_walker_set_sort_cb (Walker (basedir w) (first w) (last w) (current w) (head w) (smp w) (order w) a (recursive w) (sort_cb w)).

(** The type of an entry; a type without a case keeps what the array holds. *)
Definition type_of (d_type old : Z) : Z :=
  if (d_type =? DT_UNKNOWN) || (d_type =? DT_FIFO) || (d_type =? DT_SOCK) || (d_type =? DT_CHR) || (d_type =? DT_BLK) || (d_type =? DT_LNK)
  then INA_DIR_ENTRY_TYPE_UNKNOWN
  else if d_type =? DT_REG then INA_DIR_ENTRY_TYPE_FILE
  else if d_type =? DT_DIR then INA_DIR_ENTRY_TYPE_DIR
  else old.

Definition enumeration_empty : Z := Z.lor (INA_ES S_ENUMERATION) (INA_ERR E_EMPTY).
Definition enumeration_end : Z := Z.lor (INA_ERR E_END_OF) (INA_ES S_ENUMERATION).

Section Walk.
Variable malloc_ok : Z -> bool.
Variable garbage : Z -> text.
Variable qsort : (entry -> entry -> Z) -> list entry -> list entry.

(** The loop over [readdir]; [None] is a write behind the array. *)
Fixpoint read_entries (st : pmem) (smp : Z) (fs : list dirent) (fst_ : option nat) (lst : nat) (a : list entry) : option (pmem * option nat * nat * list entry) :=
  match fs with
  | [] => Some (st, fst_, lst, a)
  | f :: fs =>
      let '(fst_, lst) := match fst_ with None => (Some 0%nat, 0%nat) | Some i => (Some i, S lst) end in
      old ← a !! lst;
      '(st, s) ← ina_str_new_fromcstr_using_pool malloc_ok garbage st (Some (d_name f ++ [0])) (Some smp);
      read_entries st smp fs fst_ lst (<[lst := Entry s (type_of (d_type f) (type old))]> a)
  end.
(** [qsort]; [None] is a comparison that reads behind the memory. *)
Definition sort (cmp : entry -> entry -> option Z) (l : list entry) : option (list entry) :=
  if forallb (fun x => forallb (fun y => bool_decide (is_Some (cmp x y))) l) l then Some (qsort (fun x y => default 0 (cmp x y)) l) else None.

Definition set_current (c : option nat) (w : walker) : walker :=
  Walker (basedir w) (first w) (last w) c (head w) (smp w) (order w) (attrib w) (recursive w) (sort_cb w).
(** Reading and sorting; [dir] is the directory, if it can be opened.  The pool of the
    names is used from its start again, with the bytes that it has. *)
Definition load (dir : option (list dirent)) (st : pmem) (w : walker) : option (pmem * walker) :=
  st ← ina_mempool_reset st (smp w);
  '(st, f, l, a) ← match dir with Some fs => read_entries st (smp w) fs None 0 (head w) | None => Some (st, None, 0%nat, head w) end;
  a ← match f, sort_cb w with
    | Some _, Some cb => es ← sort (cb st) (take (S l) a); Some (es ++ drop (S l) a)
    | _, _ => Some a
    end;
  Some (st, Walker (basedir w) f l f a (smp w) (order w) (attrib w) (recursive w) (sort_cb w)).
Definition ina_dir_walker_get_next_entry (dir : option (list dirent)) (st : pmem) (w : walker) : option (pmem * walker * result entry) :=
  let deref := fun (st : pmem) (w : walker) => i ← current w; e ← head w !! i; Some (st, w, Ok e) in
  match first w with
  | None =>
      '(st, w) ← load dir st w;
      match current w with None => Some (st, w, Err enumeration_empty) | Some _ => deref st w end
  | Some f =>
      match current w with
      | None => deref st (set_current (Some f) w)
      | Some c => if (c =? last w)%nat then Some (st, w, Err enumeration_end) else deref st (set_current (Some (S c)) w)
      end
  end.
Definition ina_dir_walker_reset (w : walker) : walker := set_current None w.
Definition ina_dir_walker_reload (w : walker) : walker :=
  Walker (basedir w) None (last w) (current w) (head w) (smp w) (order w) (attrib w) (recursive w) (sort_cb w).

(** A client that takes entries until there is an error, and looks at each. *)
Record found := Found { f_name : text; f_type : Z }.
Fixpoint walk (fuel : nat) (dir : option (list dirent)) (st : pmem) (w : walker) : option (list found * pmem * walker * option Z) :=
  match fuel with
  | O => Some ([], st, w, None)
  | S fuel =>
      '(st, w, r) ← ina_dir_walker_get_next_entry dir st w;
      match r with
      | Err e => Some ([], st, w, Some e)
      | Ok x => t ← name_of st x; '(l, st, w, e) ← walk fuel dir st w; Some (Found t (type x) :: l, st, w, e)
      end
  end.
End Walk.

(** ** Space *)
Record dir_stat := DirStat { s_dir : text; free_bytes : Z; total_bytes : Z }.
Record statvfs := Statvfs { f_bsize : Z; f_bavail : Z; f_blocks : Z }.
Definition ina_dir_stat_new (got : bool) (dir : text) (sfs : option statvfs) : result dir_stat :=
  if negb got then Err INA_ERR_OUT_OF_MEMORY
  else match sfs with
  | None => Err (Z.lor (INA_ES S_OPERATION) (INA_ERR E_FAILED))
  | Some s => Ok (DirStat dir (u64 (f_bsize s * f_bavail s)) (u64 (f_blocks s * f_bsize s)))
  end.
Definition ina_dir_stat_bytes_capacity (s : dir_stat) : Z := total_bytes s.
Definition ina_dir_stat_bytes_free (s : dir_stat) : Z := free_bytes s.


(** ** Comparing *)
Definition string_bytes (t : text) : Prop := Forall (fun c => 0 < c) t.

Lemma strcasecmp_sgn (a b : text) : Z.sgn (strcasecmp b a) = - Z.sgn (strcasecmp a b).
Proof.
  revert b. induction a as [|x a IH]; intros [|y b]; cbn [strcasecmp]; [done|lia|lia|].
  rewrite (Z.eqb_sym (to_lower y)). destruct (to_lower x =? to_lower y); [apply IH|lia].
Qed.
Lemma to_lower_pos (c : Z) : 0 < c -> 0 < to_lower c.
Proof. intros H. unfold to_lower. destruct (_ && _); lia. Qed.
Lemma strcasecmp_trans (a b c : text) : string_bytes a -> string_bytes b -> string_bytes c ->
  strcasecmp a b <= 0 -> strcasecmp b c <= 0 -> strcasecmp a c <= 0.
Proof.
  intros Ha. revert b c. induction Ha as [|x a Hx Ha IH]; intros b c Hb Hc.
  - destruct Hc as [|z c Hz Hc]; cbn [strcasecmp]; [done|]. pose proof (to_lower_pos z Hz). lia.
  - destruct Hb as [|y b Hy Hb]; cbn [strcasecmp]; [pose proof (to_lower_pos x Hx); lia|].
    destruct Hc as [|z c Hz Hc]; cbn [strcasecmp]; [pose proof (to_lower_pos y Hy); lia|].
    destruct (Z.eqb_spec (to_lower x) (to_lower y)), (Z.eqb_spec (to_lower y) (to_lower z)), (Z.eqb_spec (to_lower x) (to_lower z)); try lia.
    intros H1 H2. by apply (IH b c).
Qed.

(** The order of what a client finds, and the comparison it comes from. *)
Definition compare_found (o : sort_order) (a : sort_attrib) (x y : found) : Z :=
  match o, a with
  | INA_DIR_SORT_ORDER_NONE, _ => 0
  | INA_DIR_SORT_ORDER_ASCEND, INA_DIR_SORT_ATTRIB_TYPE => Z.sgn (f_type x - f_type y)
  | INA_DIR_SORT_ORDER_ASCEND, _ => strcasecmp (f_name x) (f_name y)
  | INA_DIR_SORT_ORDER_DESCEND, INA_DIR_SORT_ATTRIB_TYPE => Z.sgn (f_type y - f_type x)
  | INA_DIR_SORT_ORDER_DESCEND, _ => strcasecmp (f_name y) (f_name x)
  end.
Definition before (o : sort_order) (a : sort_attrib) (x y : found) : Prop := compare_found o a x y <= 0.
Lemma compare_sgn (o : sort_order) (a : sort_attrib) (x y : found) : Z.sgn (compare_found o a y x) = - Z.sgn (compare_found o a x y).
Proof. destruct o, a; cbn [compare_found]; rewrite ?(strcasecmp_sgn (f_name x)), ?(strcasecmp_sgn (f_name y)); lia. Qed.
Lemma compare_trans (o : sort_order) (a : sort_attrib) (x y z : found) : string_bytes (f_name x) -> string_bytes (f_name y) -> string_bytes (f_name z) ->
  before o a x y -> before o a y z -> before o a x z.
Proof.
  unfold before. intros Hx Hy Hz. destruct o, a; cbn [compare_found]; intros H1 H2; try lia;
    solve [by apply (strcasecmp_trans _ (f_name y))].
Qed.

(** What a client sees of an entry. *)
Definition seen (st : pmem) (e : entry) : found := Found (default [] (name_of st e)) (type e).
Definition readable (st : pmem) (e : entry) : Prop := exists t : text, name_of st e = Some t /\ string_bytes t.
Lemma type_order (x y : Z) : (if x <? y then -1 else if x =? y then 0 else if y <? x then 1 else 0) = Z.sgn (x - y).
Proof. destruct (Z.ltb_spec x y); [lia|]. destruct (Z.eqb_spec x y); [lia|]. destruct (Z.ltb_spec y x); lia. Qed.
Lemma callback_compares (w : walker) (cb : callback) (st : pmem) (x y : entry) : sort_cb (__ina_dir_walker_set_sort_cb w) = Some cb ->
  readable st x -> readable st y -> cb st x y = Some (compare_found (order w) (attrib w) (seen st x) (seen st y)).
Proof.
  intros Hcb (t & Ht & _) (u & Hu & _). cbn [sort_cb __ina_dir_walker_set_sort_cb] in Hcb. unfold seen. rewrite Ht, Hu.
  destruct (order w), (attrib w); try done; injection Hcb as <-; cbn [compare_found f_name f_type default];
    unfold __ina_dir_walker_cmp_name_ascend, __ina_dir_walker_cmp_name_descend, __ina_dir_walker_cmp_type_ascend, __ina_dir_walker_cmp_type_descend;
    rewrite ?Ht, ?Hu, ?type_order; done.
Qed.

(** What [qsort] may rely on: the comparison is consistent for what it gets. *)
Definition consistent (l : list entry) (cmp : entry -> entry -> Z) : Prop :=
  (forall a b : entry, a ∈ l -> b ∈ l -> Z.sgn (cmp b a) = - Z.sgn (cmp a b)) /\
  (forall a b c : entry, a ∈ l -> b ∈ l -> c ∈ l -> cmp a b <= 0 -> cmp b c <= 0 -> cmp a c <= 0).
Lemma callback_consistent (w : walker) (cb : callback) (st : pmem) (l : list entry) : sort_cb (__ina_dir_walker_set_sort_cb w) = Some cb ->
  Forall (readable st) l -> consistent l (fun x y => default 0 (cb st x y)).
Proof.
  intros Hcb Hl. rewrite Forall_forall in Hl. split; intros *.
  - intros Ha Hb. rewrite !(callback_compares w cb) by auto. apply compare_sgn.
  - intros Ha Hb Hc. rewrite !(callback_compares w cb) by auto. cbn [default].
    destruct (Hl a Ha) as (t & Ht & Hts), (Hl b Hb) as (u & Hu & Hus), (Hl c Hc) as (v & Hv & Hvs).
    apply compare_trans; unfold seen; by rewrite ?Ht, ?Hu, ?Hv.
Qed.

(** ** Names in the pool *)

(** The pool of the names, from a position on; nothing was added to it. *)
Record names (st : pmem) (id : Z) (m pos : Z) : Prop := {
  ns_pool : exists p : pool, pools st !! id = Some p /\ p_alignment p = 16 /\ p_child p = 0 /\ p_end p = names_size /\ p_m p = m /\ p_pos p = pos /\ p_current p = id;
  ns_block : exists b : text, blocks st !! m = Some b /\ Z.of_nat (length b) = names_size;
  ns_id : id <> 0;
  ns_pos : 0 <= pos <= names_size }.
(** What a name takes: its header, its bytes and the terminator. *)
Definition room (t : text) : Z := INA_MEM_ALIGN_N (Z.of_nat (length t) + 9) 16.
Lemma room_range (t : text) : (length t <= 255)%nat -> Z.of_nat (length t) + 9 <= room t <= 272.
Proof.
  intros Ht. unfold room, INA_MEM_ALIGN_N. change 16 with (2 ^ 4). rewrite wrap_small by (unfold in_width; lia). rewrite ldiff_pow2 by lia.
  change (2 ^ 4) with 16. dlia.
Qed.
Lemma upto_zero_text (t r : text) : string_bytes t -> upto_zero (t ++ 0 :: r) = Some t.
Proof. intros Ht. induction Ht as [|c t Hc Ht IH]; [done|]. cbn [app upto_zero]. rewrite (proj2 (Z.eqb_neq c 0)) by lia. by rewrite IH. Qed.
Lemma strlen_name (t : text) : string_bytes t -> Str.strlen (t ++ [0]) = Some (Z.of_nat (length t)).
Proof. intros Ht. induction Ht as [|c t Hc Ht IH]; [done|]. cbn [app Str.strlen length]. rewrite (proj2 (Z.eqb_neq c 0)), IH by lia. cbn. f_equal. lia. Qed.

(** The text at [off] with its terminator. *)
Definition text_at (st : pmem) (m off : Z) (t : text) : Prop := mem_read st (Ptr m (off + 8)) (Z.of_nat (length t) + 1) = Some (t ++ [0]).
Lemma text_at_name (st : pmem) (m off : Z) (t : text) (k : Z) : 0 <= off -> string_bytes t -> text_at st m off t -> name_of st (Entry (Some (Ptr m off)) k) = Some t.
Proof.
  unfold text_at, mem_read, name_of. cbn [name ptr_block ptr_off mbind option_bind]. intros Ho Ht. destruct (blocks st !! m) as [b|]; [|done]. cbn [mbind option_bind].
  destruct (_ && _); [|done]. rewrite (proj2 (Z.leb_le 0 off)) by done. intros [= H].
  rewrite <- (take_drop (Z.to_nat (Z.of_nat (length t) + 1)) (drop _ b)), H, <- app_assoc. by apply upto_zero_text.
Qed.
(** The byte where the terminator of [t] is. *)
Definition ended (st : pmem) (m off : Z) (t : text) : Prop := mem_read st (Ptr m (off + 8 + Z.of_nat (length t))) 1 = Some [0].
Lemma text_ended (st : pmem) (m off : Z) (t : text) : text_at st m off t -> ended st m off t.
Proof.
  intros H. pose proof (StrPool.read_sub st _ _ (Z.of_nat (length t)) 1 _ H) as E. unfold field in E. cbn [ptr_block ptr_off] in E.
  unfold ended. rewrite E by lia. by rewrite Nat2Z.id, drop_app_length.
Qed.

Section Names.
#[local] Opaque names_size.
Variable malloc_ok : Z -> bool.
Variable garbage : Z -> text.

Definition known (f : dirent) : Prop := d_type f ∈ [DT_UNKNOWN; DT_FIFO; DT_CHR; DT_DIR; DT_BLK; DT_REG; DT_LNK; DT_SOCK].
(** What the system gives: a type it documents and a name of at most 255 bytes. *)
Record sound (f : dirent) : Prop := { s_known : known f; s_text : string_bytes (d_name f); s_length : (length (d_name f) <= 255)%nat }.

Lemma names_dalloc (st : pmem) (id m pos n : Z) : names st id m pos -> 0 <= n <= 272 -> pos + 272 <= names_size -> INA_MEM_ALIGN_N n 16 <= 272 ->
  exists st' : pmem, ina_mempool_dalloc malloc_ok garbage st id n = Some (st', Ok (Ptr m pos)) /\ blocks st' = blocks st /\
    (0 <= INA_MEM_ALIGN_N n 16 -> names st' id m (pos + INA_MEM_ALIGN_N n 16)).
Proof.
  intros [(p & Hp & Hal & Hch & Hend & Hm & Hpos & Hcur) Hb Hid Hr] Hn Hroom Hsz. assert (names_size = 1048576) as Hns by reflexivity.
  pose proof (align_n_range n 16 ltac:(lia)) as Hrn. unfold ina_mempool_dalloc, ina_mempool_get_alignment, get. rewrite Hp. cbn [mbind option_bind]. rewrite Hal.
  unfold ina_mempool_dalloc_aligned. cbn [negb Z.ltb Z.compare]. unfold chain_fuel. cbn [dalloc_retry]. unfold get. rewrite Hp. cbn [mbind option_bind].
  rewrite Hcur, Hp. cbn [mbind option_bind]. unfold does_not_fit. rewrite (wrap_small 64), Hend, Hpos by (unfold in_width; lia).
  rewrite !(proj2 (Z.ltb_ge _ _)) by lia. cbn [orb mbind option_bind]. unfold take_bottom, get. rewrite Hp. cbn [mbind option_bind].
  rewrite Hcur, Hp. cbn [mbind option_bind]. rewrite (upd_eq st id _ p Hp). cbn [mbind option_bind]. rewrite (wrap_small 64), Hpos, Hm by (unfold in_width; lia).
  eexists. split; [reflexivity|]. split; [done|]. intros H0. split; cbn [pools blocks]; [|done|done|lia].
  exists (with_pos p (pos + INA_MEM_ALIGN_N n 16)). by rewrite lookup_insert_eq.
Qed.
Lemma names_same (st st' : pmem) (id m pos : Z) : pools st' = pools st -> StrPool.same_shape st st' -> names st id m pos -> names st' id m pos.
Proof.
  intros Hp Hs [H1 (b & Hb & Hl) H3 H4]. split; [by rewrite Hp| |done|done]. specialize (Hs m). rewrite Hb in Hs. cbn in Hs.
  destruct (blocks st' !! m) as [b'|]; [|done]. exists b'. split; [done|]. injection Hs as ->. done.
Qed.

(** The writes into new memory whose last byte is zero. *)
Lemma put_bytes (st : pmem) (h : ptr) (t l1 l2 l3 : text) (x : Z) : (length t <= 255)%nat -> length l1 = 4%nat -> length l2 = 4%nat -> length l3 = length t ->
  mem_read st h (Z.of_nat (length t) + 9) = Some (l1 ++ l2 ++ l3 ++ [0]) ->
  exists st1 st2 st3 st4 : pmem, StrPool.store32 st h 0 x = Some st1 /\ StrPool.store32 st1 h 4 0 = Some st2 /\ mem_write st2 (field h 8) [0] = Some st3 /\
    StrPool.fill st3 h (t ++ [0]) (Z.of_nat (length t)) = Some (st4, Some h) /\
    StrPool.stored st st4 h (Z.of_nat (length t) + 9) (Str.le32 x ++ Str.le32 (Z.of_nat (length t)) ++ t ++ [0]).
Proof.
  intros Hlen Hl1 Hl2 Hl3 HL. set (len := Z.of_nat (length t)) in *. unfold StrPool.store32. rewrite <- (app_nil_l (l1 ++ _)) in HL.
  destruct (StrPool.write_part st h (len + 9) 0 [] l1 _ (Str.le32 x) HL) as (st1 & H1 & S1); [done|by rewrite Str.length_le32|].
  pose proof (StrPool.sd_read _ _ _ _ _ S1) as R1. cbn [app] in R1.
  destruct (StrPool.write_part st1 h (len + 9) 4 _ l2 _ (Str.le32 0) R1) as (st2 & H2 & S2); [by rewrite Str.length_le32|by rewrite Str.length_le32|].
  pose proof (StrPool.sd_read _ _ _ _ _ S2) as R2. rewrite (assoc_L (++)) in R2.
  assert (exists (y : Z) (r l4 : text), l3 ++ [0] = [y] ++ r /\ [0] ++ r = l4 ++ [0] /\ length l4 = length t) as (y & r & l4 & E & E' & Hl4).
  { destruct l3 as [|y l3]; [by exists 0, [], []|]. exists y, (l3 ++ [0]), (0 :: l3). split; [done|]. by split. }
  rewrite E in R2. destruct (StrPool.write_part st2 h (len + 9) 8 _ [y] r [0] R2) as (st3 & H3 & S3); [by rewrite length_app, !Str.length_le32|done|].
  pose proof (StrPool.sd_read _ _ _ _ _ S3) as R3. rewrite E' in R3.
  destruct (StrPool.write_part st3 h (len + 9) 8 _ l4 [0] t R3) as (st4 & H4 & S4); [by rewrite length_app, !Str.length_le32|done|].
  pose proof (StrPool.sd_read _ _ _ _ _ S4) as R4. rewrite <- (assoc_L (++)) in R4.
  destruct (StrPool.write_part st4 h (len + 9) 4 _ (Str.le32 0) _ (Str.le32 len) R4) as (st5 & H5 & S5); [by rewrite Str.length_le32|by rewrite !Str.length_le32|].
  exists st1, st2, st3, st5. split; [done|]. split; [done|]. split; [done|]. split; [|exact (StrPool.stored_trans _ _ _ _ _ _ _ (StrPool.stored_trans _ _ _ _ _ _ _
    (StrPool.stored_trans _ _ _ _ _ _ _ (StrPool.stored_trans _ _ _ _ _ _ _ S1 S2) S3) S4) S5)].
  unfold StrPool.fill. rewrite read_at_some by (rewrite ?length_app; cbn; lia). rewrite drop_0. cbn [mbind option_bind]. replace (Z.to_nat len) with (length t) by lia. rewrite take_app_length, H4.
  cbn [mbind option_bind]. rewrite wrap_small by (unfold in_width; lia). unfold StrPool.store32. by rewrite H5.
Qed.

(** The copy of a name: it has its terminator if the pool has a zero byte there. *)
Lemma put_name (st : pmem) (id m pos : Z) (t : text) : names st id m pos -> pos + 272 <= names_size -> string_bytes t -> (length t <= 255)%nat -> ended st m pos t ->
  exists st' : pmem, ina_str_new_fromcstr_using_pool malloc_ok garbage st (Some (t ++ [0])) (Some id) = Some (st', Some (Ptr m pos)) /\
    names st' id m (pos + room t) /\ text_at st' m pos t /\
    (forall q n, ptr_off q + n <= pos \/ pos + room t <= ptr_off q -> mem_read st' q n = mem_read st q n).
Proof.
  intros Hns Hroom Ht Hlen Hend. pose proof (room_range t Hlen) as Hr. pose proof Hr as Hr'. unfold room in Hr'. unfold ina_str_new_fromcstr_using_pool. rewrite (strlen_name t Ht). cbn [mbind option_bind].
  unfold StrPool.ina_str_new_using_pool, Str.sizeof_hdr. rewrite (wrap_small 64 (Z.of_nat (length t) + 1 + 8)) by (unfold in_width; lia).
  replace (Z.of_nat (length t) + 1 + 8) with (Z.of_nat (length t) + 9) by lia. set (len := Z.of_nat (length t)) in *.
  destruct (names_dalloc st id m pos (len + 9) Hns) as (st1 & -> & Hbl & Hns1); [lia|lia|lia|]. cbn [mbind option_bind].
  specialize (Hns1 ltac:(lia)). fold (room t) in Hns1. set (h := Ptr m pos). destruct Hns as [_ (b & Hb & Hbn) _ Hpos].
  destruct (mem_read_some st1 h (len + 9) b) as (L & HL & HLl); [by rewrite Hbl|cbn; lia|lia|cbn; lia|].
  assert (exists l1 l2 l3 : text, L = l1 ++ l2 ++ l3 ++ [0] /\ length l1 = 4%nat /\ length l2 = 4%nat /\ length l3 = length t) as (l1 & l2 & l3 & -> & Hl1 & Hl2 & Hl3).
  { assert (drop (8 + length t) L = [0]) as Hz.
    { unfold ended in Hend. rewrite <- (mem_read_pools st st1) in Hend by done. pose proof (StrPool.read_sub st1 h (len + 9) (8 + len) 1 L HL ltac:(lia) ltac:(lia) ltac:(lia)) as E.
      unfold field, h in E. cbn [ptr_block ptr_off] in E. fold len in Hend. replace (pos + (8 + len)) with (pos + 8 + len) in E by lia. rewrite Hend in E. injection E as E. rewrite take_ge in E by (rewrite length_drop; lia).
      rewrite E. f_equal. lia. }
    exists (take 4 L), (take 4 (drop 4 L)), (take (length t) (drop 8 L)). rewrite <- Hz. split; [|rewrite !length_take, !length_drop; lia].
    rewrite <- (take_drop 4 L) at 1. f_equal. rewrite <- (take_drop 4 (drop 4 L)) at 1. f_equal. rewrite drop_drop. change (4 + 4)%nat with 8%nat.
    rewrite <- (take_drop (length t) (drop 8 L)) at 1. f_equal. by rewrite drop_drop. }
  rewrite (wrap_small 64 (len + 1)) by (unfold in_width; lia). cbn [default]. set (x := u32 (Z.lor _ _)).
  destruct (put_bytes st1 h t l1 l2 l3 x Hlen Hl1 Hl2 Hl3 HL) as (st2 & st3 & st4 & st5 & -> & H3 & H4 & H5 & [S1 S2 S3 S4]). cbn [mbind option_bind].
  rewrite H3. cbn [mbind option_bind]. rewrite H4. cbn [mbind option_bind]. exists st5. split; [exact H5|]. split; [by apply (names_same st1)|]. split.
  - pose proof (StrPool.read_sub st5 h (len + 9) 8 (len + 1) _ S3 ltac:(lia) ltac:(lia) ltac:(lia)) as E. unfold text_at. fold len. unfold field, h in E. cbn [ptr_block ptr_off] in E.
    rewrite E. change (drop _ (_ ++ _)) with (t ++ [0]). rewrite take_ge; [done|]. rewrite length_app. cbn. lia.
  - intros q n Hq. rewrite S4 by (right; cbn; fold len in Hr; lia). by apply mem_read_pools.
Qed.
End Names.

(** The entries of a listing whose names are put into the pool from [pos] on, that they
    are there, and that the pool has zero bytes where they end. *)
Fixpoint entries_at (m pos : Z) (fs : list dirent) : list entry :=
  match fs with [] => [] | f :: fs => Entry (Some (Ptr m pos)) (type_of (d_type f) 0) :: entries_at m (pos + room (d_name f)) fs end.
Fixpoint written (st : pmem) (m pos : Z) (fs : list dirent) : Prop :=
  match fs with [] => True | f :: fs => text_at st m pos (d_name f) /\ written st m (pos + room (d_name f)) fs end.
Fixpoint clean (st : pmem) (m pos : Z) (fs : list dirent) : Prop :=
  match fs with [] => True | f :: fs => ended st m pos (d_name f) /\ clean st m (pos + room (d_name f)) fs end.
Lemma written_clean (st : pmem) (m pos : Z) (fs : list dirent) : written st m pos fs -> clean st m pos fs.
Proof. revert pos. induction fs as [|f fs IH]; intros pos; [done|]. intros [H1 H2]. split; [by apply text_ended|by apply IH]. Qed.
Lemma clean_frame (st st' : pmem) (m pos : Z) (fs : list dirent) : Forall sound fs -> (forall q n, pos <= ptr_off q -> mem_read st' q n = mem_read st q n) ->
  clean st m pos fs -> clean st' m pos fs.
Proof.
  intros Hs. revert pos. induction Hs as [|f fs Hf Hs IH]; intros pos Hfr; [done|]. intros [H1 H2]. pose proof (room_range _ (s_length f Hf)). split.
  - unfold ended. rewrite Hfr; [done|]. cbn. lia.
  - apply IH; [|done]. intros q n Hq. apply Hfr. lia.
Qed.

Lemma type_of_known (f : dirent) (old : Z) : known f -> type_of (d_type f) old = type_of (d_type f) 0.
Proof.
  unfold known. intros Hf. rewrite !elem_of_cons in Hf. unfold type_of, DT_UNKNOWN, DT_FIFO, DT_CHR, DT_DIR, DT_BLK, DT_REG, DT_LNK, DT_SOCK in *.
  repeat (destruct Hf as [->|Hf]; [done|]). by apply elem_of_nil in Hf.
Qed.
Definition found_of (f : dirent) : found := Found (d_name f) (type_of (d_type f) 0).
Lemma length_entries_at (m pos : Z) (fs : list dirent) : length (entries_at m pos fs) = length fs.
Proof. revert pos. induction fs as [|f fs IH]; intros pos; [done|]. cbn. by rewrite IH. Qed.
Lemma written_seen (st : pmem) (m pos : Z) (fs : list dirent) : 0 <= pos -> Forall sound fs -> written st m pos fs ->
  map (seen st) (entries_at m pos fs) = map found_of fs /\ Forall (readable st) (entries_at m pos fs).
Proof.
  intros Hpos Hs. revert pos Hpos. induction Hs as [|f fs Hf Hs IH]; intros pos Hpos; [done|]. intros [H1 H2]. pose proof (room_range _ (s_length f Hf)).
  pose proof (text_at_name st m pos (d_name f) (type_of (d_type f) 0) Hpos (s_text f Hf) H1) as Hn. destruct (IH (pos + room (d_name f)) ltac:(lia) H2) as [E1 E2].
  cbn [entries_at map]. rewrite E1. split; [f_equal; unfold seen, found_of; by rewrite Hn|]. constructor; [|done]. exists (d_name f). split; [done|apply Hf].
Qed.

Section Reading.
#[local] Opaque names_size capacity.
Variable malloc_ok : Z -> bool.
Variable garbage : Z -> text.
Abbreviation read := (read_entries malloc_ok garbage).

Lemma read_more (fs : list dirent) (st : pmem) (id m pos : Z) (i : nat) (a : list entry) : Forall sound fs -> names st id m pos ->
  pos + 272 * Z.of_nat (length fs) <= names_size -> clean st m pos fs -> (S i + length fs <= length a)%nat ->
  exists (st' : pmem) (a' : list entry) (pos' : Z), read st id fs (Some 0%nat) i a = Some (st', Some 0%nat, (i + length fs)%nat, a') /\ length a' = length a /\
    take (S i + length fs) a' = take (S i) a ++ entries_at m pos fs /\ names st' id m pos' /\ written st' m pos fs /\
    (forall q n, ptr_off q + n <= pos -> mem_read st' q n = mem_read st q n).
Proof.
  intros Hall. revert st pos i a. induction Hall as [|f fs Hf Hall IH]; intros st pos i a Hns Hroom Hcl Hl; cbn [read_entries length entries_at written].
  - rewrite !Nat.add_0_r. exists st, a, pos. by rewrite app_nil_r.
  - cbn [length] in Hl, Hroom. destruct (lookup_lt_is_Some_2 a (S i)) as [old Ho]; [lia|]. rewrite Ho. cbn [mbind option_bind].
    destruct Hcl as [Hcl1 Hcl2]. pose proof (room_range _ (s_length f Hf)) as Hr.
    destruct (put_name malloc_ok garbage st id m pos (d_name f) Hns) as (st1 & -> & Hns1 & Ht & Hfr); [lia|apply Hf..|done|]. cbn [mbind option_bind].
    rewrite (type_of_known f _ (s_known f Hf)). set (e := Entry (Some (Ptr m pos)) (type_of (d_type f) 0)).
    destruct (IH st1 (pos + room (d_name f)) (S i) (<[S i := e]> a) Hns1) as (st' & a' & pos' & -> & Hl' & Hta & Hns' & Hw & Hfr');
      [lia| |rewrite length_insert; lia|].
    { apply (clean_frame st); [done| |done]. intros q n Hq. apply Hfr. by right. }
    exists st', a', pos'. split; [do 3 f_equal; lia|]. split; [by rewrite Hl', length_insert|]. split; [|split; [done|split]].
    + replace (S i + S (length fs))%nat with (S (S i) + length fs)%nat by lia. rewrite Hta.
      rewrite (take_S_r _ (S i) e) by (apply list_lookup_insert_eq; lia). rewrite take_insert_ge by lia. by rewrite <- app_assoc.
    + split; [|done]. unfold text_at. rewrite Hfr'; [done|]. cbn. lia.
    + intros q n Hq. rewrite Hfr' by lia. apply Hfr. by left.
Qed.
Lemma read_all_entries (fs : list dirent) (st : pmem) (id m : Z) (a : list entry) : Forall sound fs -> names st id m 0 -> fs <> [] -> clean st m 0 fs ->
  length a = capacity -> (length fs <= capacity)%nat ->
  exists (st' : pmem) (a' : list entry) (pos' : Z), read st id fs None 0 a = Some (st', Some 0%nat, (length fs - 1)%nat, a') /\ length a' = capacity /\
    take (length fs) a' = entries_at m 0 fs /\ names st' id m pos' /\ written st' m 0 fs.
Proof.
  intros Hall Hns Hne Hcl Hla Hl. assert (capacity = 1024%nat /\ names_size = 1048576) as [Hcap Hsize] by done.
  destruct Hall as [|f fs Hf Hall]; [done|]. cbn [read_entries length entries_at written] in *.
  destruct (lookup_lt_is_Some_2 a 0) as [old Ho]; [lia|]. rewrite Ho. cbn [mbind option_bind]. destruct Hcl as [Hcl1 Hcl2].
  pose proof (room_range _ (s_length f Hf)) as Hr.
  destruct (put_name malloc_ok garbage st id m 0 (d_name f) Hns) as (st1 & -> & Hns1 & Ht & Hfr); [lia|apply Hf..|done|]. cbn [mbind option_bind].
  rewrite (type_of_known f _ (s_known f Hf)). set (e := Entry (Some (Ptr m 0)) (type_of (d_type f) 0)).
  destruct (read_more fs st1 id m (0 + room (d_name f)) 0 (<[0%nat := e]> a) Hall Hns1) as (st' & a' & pos' & -> & Hl' & Hta & Hns' & Hw & Hfr');
    [lia| |rewrite length_insert; lia|].
  { apply (clean_frame st); [done| |done]. intros q n Hq. apply Hfr. by right. }
  exists st', a', pos'. split; [do 3 f_equal; lia|]. split; [by rewrite Hl', length_insert|]. split; [|split; [done|]].
  - rewrite Nat.add_1_l in Hta. rewrite Hta. by destruct a.
  - split; [|done]. unfold text_at. rewrite Hfr'; [done|]. cbn. lia.
Qed.

(** Using the pool from its start again keeps its bytes. *)
Lemma names_reset (st : pmem) (id m pos : Z) : names st id m pos -> exists st' : pmem, ina_mempool_reset st id = Some st' /\ blocks st' = blocks st /\ names st' id m 0.
Proof.
  intros [(p & Hp & Hal & Hch & Hend & Hm & Hpos & Hcur) Hb Hid Hr]. unfold ina_mempool_reset, chain_fuel.
  assert (exists n : nat, size (pools st) = S n) as [n ->].
  { destruct (size (pools st)) eqn:E; [|by eexists]. apply map_size_empty_inv in E. rewrite E in Hp. by rewrite lookup_empty in Hp. }
  cbn [reset_loop]. rewrite (proj2 (Z.eqb_neq id 0)) by done. unfold get. rewrite Hp. cbn [mbind option_bind]. rewrite (upd_eq st id _ p Hp). cbn [mbind option_bind].
  rewrite Hch, (proj2 (Z.eqb_neq id 0)) by done. cbn [Z.eqb mbind option_bind]. rewrite (upd_eq _ id _ (with_pos p 0)) by (cbn; by rewrite lookup_insert_eq).
  eexists. split; [reflexivity|]. split; [done|]. split; cbn [pools blocks]; [|done|done|lia].
  exists (with_current (with_pos p 0) id). by rewrite lookup_insert_eq.
Qed.
End Reading.

Lemma Sorted_map {A B : Type} (f : A -> B) (R : A -> A -> Prop) (S : B -> B -> Prop) (l : list A) :
  (forall x y : A, x ∈ l -> y ∈ l -> R x y -> S (f x) (f y)) -> Sorted R l -> Sorted S (map f l).
Proof.
  intros Hi Hs. induction Hs as [|x l Hs IH Hh]; cbn; constructor.
  - apply IH. intros y z Hy Hz. apply Hi; by right.
  - destruct Hh as [|y l Hxy]; constructor. apply Hi; [by left|right; by left|done].
Qed.

Section Visit.
#[local] Opaque capacity names_size.
Variable malloc_ok : Z -> bool.
Variable garbage : Z -> text.
Variable qsort : (entry -> entry -> Z) -> list entry -> list entry.
Hypothesis qsort_permutes : forall (cmp : entry -> entry -> Z) (l : list entry), qsort cmp l ≡ₚ l.
Hypothesis qsort_sorts : forall (cmp : entry -> entry -> Z) (l : list entry), consistent l cmp -> Sorted (fun a b => cmp a b <= 0) (qsort cmp l).
Abbreviation next := (ina_dir_walker_get_next_entry malloc_ok garbage qsort).
Abbreviation visits := (walk malloc_ok garbage qsort).

(** A walker that has read [es] and hands out the one with number [i] next. *)
Record at_entry (w : walker) (es : list entry) (i : nat) : Prop := {
  at_first : first w = Some 0%nat;
  at_last : es <> [] /\ last w = (length es - 1)%nat;
  at_head : take (length es) (head w) = es /\ (length es <= length (head w))%nat;
  at_current : (i <= length es)%nat /\ current w = match i with O => None | S j => Some j end
}.

Lemma next_entry (w : walker) (es : list entry) (i : nat) (dir : option (list dirent)) (st : pmem) : at_entry w es i ->
  match es !! i with
  | Some e => exists c : option nat, next dir st w = Some (st, set_current c w, Ok e) /\ at_entry (set_current c w) es (S i)
  | None => next dir st w = Some (st, w, Err enumeration_end)
  end.
Proof.
  intros [H1 [H2 H3] [H4 H5] [H6 H7]]. unfold ina_dir_walker_get_next_entry. rewrite H1, H7, H3.
  assert (forall j : nat, (j < length es)%nat -> head w !! j = es !! j) as Hh.
  { intros j Hj. rewrite <- H4. by rewrite lookup_take_lt. }
  destruct (es !! i) as [e|] eqn:He.
  - pose proof (lookup_lt_Some _ _ _ He) as Hi. destruct i as [|j].
    + exists (Some 0%nat). cbn [set_current current head mbind option_bind]. rewrite Hh, He by done. cbn [mbind option_bind].
      split; [done|]. by constructor.
    + destruct (Nat.eqb_spec j (length es - 1)); [lia|]. exists (Some (S j)).
      cbn [set_current current head mbind option_bind]. rewrite Hh, He by done. cbn [mbind option_bind].
      split; [done|]. by constructor.
  - apply lookup_ge_None in He. destruct es as [|x es]; [done|]. cbn [length] in *. destruct i as [|j]; [lia|].
    destruct (Nat.eqb_spec j (S (length es) - 1)); [done|lia].
Qed.
Lemma client_looks (st : pmem) (e : entry) : readable st e -> exists t : text, name_of st e = Some t /\ Found t (type e) = seen st e.
Proof. intros (t & Ht & _). exists t. split; [done|]. unfold seen. by rewrite Ht. Qed.
Lemma walk_from (es : list entry) (n i : nat) (w : walker) (dir : option (list dirent)) (st : pmem) : Forall (readable st) es ->
  at_entry w es i -> (i + n = length es)%nat ->
  exists c : option nat, visits (S n) dir st w = Some (map (seen st) (drop i es), st, set_current c w, Some enumeration_end) /\ at_entry (set_current c w) es (length es).
Proof.
  intros Hes. revert i w. induction n as [|n IH]; intros i w Ha Hn; pose proof (next_entry w es i dir st Ha) as Hx.
  - destruct (es !! i) as [e|] eqn:He; [pose proof (lookup_lt_Some _ _ _ He); lia|]. cbn [walk]. rewrite Hx. cbn [mbind option_bind].
    exists (current w). rewrite drop_ge by lia. replace (length es) with i by lia. by destruct w.
  - destruct (lookup_lt_is_Some_2 es i) as [e He]; [lia|]. rewrite He in Hx. destruct Hx as (c & Hx & Ha1).
    destruct (client_looks st e (Forall_lookup_1 _ _ _ _ Hes He)) as (t & Ht & Hseen).
    remember (S n) as k eqn:Hk. cbn [walk]. rewrite Hx. cbn [mbind option_bind]. rewrite Ht. cbn [mbind option_bind]. subst k.
    destruct (IH (S i) (set_current c w) Ha1 ltac:(lia)) as (c' & -> & Ha2). cbn [mbind option_bind]. exists c'. by rewrite (drop_S _ _ _ He), Hseen.
Qed.

(** The settings of a walker. *)
Definition settings (w : walker) (o : sort_order) (a : sort_attrib) : Prop :=
  order w = o /\ attrib w = a /\ sort_cb w = sort_cb (__ina_dir_walker_set_sort_cb w).
(** A walker that is going to read the listing [fs], and the pool of whose names has zero
    bytes where they will end. *)
Definition unread (st : pmem) (w : walker) (o : sort_order) (a : sort_attrib) (fs : list dirent) : Prop :=
  first w = None /\ length (head w) = capacity /\ settings w o a /\ exists m pos : Z, names st (smp w) m pos /\ clean st m 0 fs.

(** Sorting the entries gives what a client is to see. *)
Lemma sort_spec (st : pmem) (w : walker) (o : sort_order) (a : sort_attrib) (l : list entry) : settings w o a -> Forall (readable st) l ->
  exists es : list entry, match sort_cb w with Some cb => sort qsort (cb st) l = Some es | None => es = l end /\ es ≡ₚ l /\
    (o = INA_DIR_SORT_ORDER_NONE -> es = l) /\ Sorted (before o a) (map (seen st) es).
Proof.
  intros (Ho & Ha & Hcb) Hl. destruct (sort_cb w) as [cb|] eqn:Hc.
  - assert (sort_cb (__ina_dir_walker_set_sort_cb w) = Some cb) as Hcb' by done. exists (qsort (fun x y => default 0 (cb st x y)) l).
    pose proof (callback_compares w cb st) as Hcmp. rewrite Forall_forall in Hl. split; [|split; [apply qsort_permutes|split]].
    + unfold sort. assert (forallb (fun x => forallb (fun y => bool_decide (is_Some (cb st x y))) l) l = true) as ->; [|done].
      apply forallb_forall. intros x Hx. apply list_elem_of_In in Hx. apply forallb_forall. intros y Hy. apply list_elem_of_In in Hy.
      rewrite Hcmp by auto. by apply bool_decide_eq_true_2.
    + intros ->. cbn [sort_cb __ina_dir_walker_set_sort_cb] in Hcb'. by rewrite Ho in Hcb'.
    + pose proof (qsort_sorts _ l (callback_consistent w cb st l Hcb' ltac:(by rewrite Forall_forall))) as Hso. revert Hso. apply Sorted_map.
      intros x y Hx Hy. rewrite (qsort_permutes _ l) in Hx, Hy. rewrite Hcmp by auto. cbn [default]. by rewrite Ho, Ha.
  - exists l. split; [done|]. split; [done|]. split; [done|]. assert (o = INA_DIR_SORT_ORDER_NONE) as ->.
    { cbn [sort_cb __ina_dir_walker_set_sort_cb] in Hcb. rewrite Ho in Hcb. destruct o; [done|by destruct (attrib w)..]. }
    clear. induction l as [|x l IH]; [done|]. constructor; [done|]. destruct l; constructor. by unfold before.
Qed.
Lemma load_spec (st : pmem) (w : walker) (o : sort_order) (a : sort_attrib) (fs : list dirent) :
  unread st w o a fs -> fs <> [] -> (length fs <= capacity)%nat -> Forall sound fs ->
  exists (st' : pmem) (w' : walker) (es : list entry), load malloc_ok garbage qsort (Some fs) st w = Some (st', w') /\ length es = length fs /\
    Forall (readable st') es /\ map (seen st') es ≡ₚ map found_of fs /\ (o = INA_DIR_SORT_ORDER_NONE -> map (seen st') es = map found_of fs) /\
    Sorted (before o a) (map (seen st') es) /\ at_entry w' es 1 /\ unread st' (ina_dir_walker_reload w') o a fs.
Proof.
  intros (_ & Hh & Hset & m & pos & Hns & Hcl) Hne Hfs Hs. unfold load. destruct (names_reset st (smp w) m pos Hns) as (st0 & -> & Hbl & Hns0). cbn [mbind option_bind].
  destruct (read_all_entries malloc_ok garbage fs st0 (smp w) m (head w) Hs Hns0 Hne) as (st1 & b & pos' & -> & Hlb & Htb & Hns1 & Hw); [|done|done|].
  { apply (clean_frame st); [done| |done]. intros q n _. by apply mem_read_pools. }
  cbn [mbind option_bind]. assert (S (length fs - 1) = length fs) as E1 by (destruct fs; [done|]; cbn; lia). rewrite E1.
  destruct (written_seen st1 m 0 fs ltac:(lia) Hs Hw) as [Hseen Hread]. destruct (sort_spec st1 w o a (entries_at m 0 fs) Hset Hread) as (es & Hsort & Hp & Hnone & Hso).
  assert (length es = length fs) as Hle by (rewrite Hp; apply length_entries_at).
  set (a' := match sort_cb w with Some _ => es ++ drop (length fs) b | None => b end).
  assert (match sort_cb w with Some cb => es ← sort qsort (cb st1) (take (length fs) b); Some (es ++ drop (length fs) b) | None => Some b end = Some a' /\
    take (length fs) a' = es /\ length a' = capacity) as (Ha' & Hta & Hla).
  { subst a'. rewrite Htb. destruct (sort_cb w) as [cb|]; [|subst es; by rewrite Htb]. rewrite Hsort. split; [done|]. split; [by rewrite take_app_length'|].
    rewrite length_app, Hle, length_drop. lia. }
  rewrite Ha'. cbn [mbind option_bind]. eexists st1, _, es. split; [reflexivity|]. split; [done|]. split; [by rewrite Hp|]. split; [by rewrite Hp, Hseen|].
  split; [intros Ho; by rewrite Hnone|]. split; [done|]. split.
  - assert (0 < length fs)%nat by (destruct fs; [done|cbn; lia]). constructor; cbn [first last head current]; [done| | |split; [lia|done]].
    + split; [|by rewrite Hle]. intros ->. cbn in Hle. lia.
    + rewrite Hle. split; [done|]. lia.
  - split; [done|]. split; [done|]. split; [exact Hset|]. exists m, pos'. split; [done|]. by apply written_clean.
Qed.


Lemma zeros_clean (st : pmem) (m pos : Z) (fs : list dirent) : blocks st !! m = Some (repeat 0 (Z.to_nat names_size)) -> 0 <= pos ->
  Forall sound fs -> pos + 272 * Z.of_nat (length fs) <= names_size -> clean st m pos fs.
Proof.
  intros Hb Hpos Hs. revert pos Hpos. induction Hs as [|f fs Hf Hs IH]; intros pos Hpos Hroom; [done|]. cbn [length] in Hroom. pose proof (room_range _ (s_length f Hf)) as Hr.
  split; [|apply IH; lia]. unfold ended, mem_read. cbn [ptr_block ptr_off]. rewrite Hb. cbn [mbind option_bind]. rewrite repeat_length, !(proj2 (Z.leb_le _ _)) by lia. cbn [andb]. f_equal.
  change (Z.to_nat 1) with 1%nat. rewrite <- (Nat.sub_add (Z.to_nat (pos + 8 + Z.of_nat (length (d_name f)))) (Z.to_nat names_size)), Nat.add_comm, repeat_app by lia.
  rewrite drop_app_length' by (by rewrite repeat_length). destruct (Z.to_nat names_size - _)%nat eqn:E; [lia|done].
Qed.
(** A new walker with its settings is ready for every listing. *)
Lemma new_unread (dir : text) (o : sort_order) (a : sort_attrib) (fs : list dirent) (st : pmem) : (forall n : Z, malloc_ok n = true) -> dir <> [] -> 0 < fresh st ->
  Forall sound fs -> (length fs <= capacity)%nat ->
  exists (st' : pmem) (w : walker), ina_dir_walker_new malloc_ok garbage true dir st = Some (st', Ok w) /\
    unread st' (ina_dir_walker_set_sort_order o (ina_dir_walker_set_sort_attrib a w)) o a fs.
Proof.
  intros Hm Hdir Hf Hs Hl. assert (capacity = 1024%nat /\ names_size = 1048576) as [Hcap Hsize] by done. unfold ina_dir_walker_new.
  destruct (Nat.eqb_spec (length dir) 0) as [E|_]; [by apply length_zero_iff_nil in E|]. cbn [negb]. unfold ina_mempool_new.
  assert (INA_MEM_ALIGN (if names_size <? INA_MEM_MIN_POOL_SIZE then INA_MEM_MIN_POOL_SIZE else names_size) = names_size) as -> by (rewrite Hsize; done).
  rewrite Hm. cbn [negb]. unfold alloc_block. rewrite Hm, (proj2 (Z.eqb_neq names_size 0)) by lia. change (flag INA_MEM_DYNAMIC _) with false.
  cbn [orb negb pools blocks fresh]. set (b := take _ _). assert (length b = Z.to_nat names_size) as Hb by (subst b; rewrite length_take, length_app, repeat_length; lia).
  change (flag INA_MEM_DYNAMIC INA_MEM_NOZEROFILL) with false. unfold mem_zero. cbn [ptr_block ptr_off blocks pools fresh]. rewrite lookup_insert_eq. cbn [mbind option_bind].
  assert (0 <= names_size) as H0 by lia. assert (Z.of_nat (length b) = names_size) as Hbz by (rewrite Hb; by apply Z2Nat.id).
  rewrite (proj2 (Z.leb_le 0 names_size)), (proj2 (Z.leb_le (0 + names_size) _)) by (done || by rewrite Hbz).
  cbn [Z.leb Z.compare andb mbind option_bind]. rewrite (proj2 (Z.eqb_neq (fresh st + 1) 0)) by lia. cbn [mbind option_bind].
  rewrite Z.add_0_l, (drop_ge b), app_nil_r by (by rewrite Hb). change (take (Z.to_nat 0) b) with (@nil Z). cbn [app].
  eexists _, _. split; [reflexivity|]. split; [done|]. split; [apply length_replicate|]. split; [done|]. cbn [smp ina_dir_walker_set_sort_order ina_dir_walker_set_sort_attrib __ina_dir_walker_set_sort_cb].
  exists (fresh st + 1), 0. split.
  - split; cbn [pools blocks]; [|exists (repeat 0 (Z.to_nat names_size)); rewrite lookup_insert_eq, repeat_length; split; [done|lia]|lia|lia].
    eexists. rewrite lookup_insert_eq. split; [reflexivity|]. done.
  - apply zeros_clean; [cbn; by rewrite lookup_insert_eq|lia|done|lia].
Qed.

(** C40. A walker visits the entries of a directory.  The listing has at most 1024
    entries with names of at most 255 bytes.  A walker that was set to an order and has
    not read, and the pool of whose names has zero bytes where the names will end, delivers
    each entry of the directory once, with its name and type, in that order, or as the
    system gives them without one, and then the end; after a reset it delivers the
    same, whatever has become of the directory; and after a reload it is ready to read
    the same listing again.  Every new walker is such a walker ([new_unread]).  A directory
    that has no entries is reported as empty. *)
Theorem walker_visits_directory (st : pmem) (w : walker) (o : sort_order) (a : sort_attrib) (fs : list dirent) (dir' : option (list dirent)) :
  unread st w o a fs -> (length fs <= capacity)%nat -> Forall sound fs ->
  let n := length fs in
  (fs = [] -> exists (st' : pmem) (w' : walker), visits 1 (Some fs) st w = Some ([], st', w', Some enumeration_empty) /\ unread st' w' o a fs) /\
  (fs <> [] -> exists (l : list found) (st1 : pmem) (w1 w2 : walker),
    visits (S n) (Some fs) st w = Some (l, st1, w1, Some enumeration_end) /\
    l ≡ₚ map found_of fs /\ (o = INA_DIR_SORT_ORDER_NONE -> l = map found_of fs) /\ Sorted (before o a) l /\
    visits (S n) dir' st1 (ina_dir_walker_reset w1) = Some (l, st1, w2, Some enumeration_end) /\
    unread st1 (ina_dir_walker_reload w1) o a fs).
Proof.
  intros Hun Hcap Hs n. split.
  - intros ->. destruct Hun as (Hf & Hh & Hset & m & pos & Hns & Hcl). cbn [walk]. unfold ina_dir_walker_get_next_entry. rewrite Hf. unfold load.
    destruct (names_reset st (smp w) m pos Hns) as (st0 & -> & _ & Hns0). cbn [read_entries mbind option_bind current].
    eexists _, _. split; [reflexivity|]. split; [done|]. split; [done|]. split; [exact Hset|]. by exists m, 0.
  - intros Hne. pose proof Hun as (Hf & _). destruct (load_spec st w o a fs Hun Hne Hcap Hs) as (st1 & w' & es & Hl & Hle & Hread & Hp & Hnone & Hso & Hat & Hun').
    assert (0 < length es)%nat as Hpos by (rewrite Hle; destruct fs; [done|cbn; lia]).
    destruct (lookup_lt_is_Some_2 es 0) as [e He]; [done|]. destruct (client_looks st1 e (Forall_lookup_1 _ _ _ _ Hread He)) as (t & Ht & Hseen).
    destruct (walk_from es (length es - 1) 1 w' (Some fs) st1 Hread Hat) as (c & Hw1 & Hat2); [lia|]. set (w1 := set_current c w') in *.
    assert (visits (S n) (Some fs) st w = Some (map (seen st1) es, st1, w1, Some enumeration_end)) as Hw.
    { subst n. rewrite <- Hle. replace (length es) with (S (length es - 1)) by lia. remember (S (length es - 1)) as k eqn:Hk'.
      cbn [walk]. unfold ina_dir_walker_get_next_entry at 1. rewrite Hf, Hl. cbn [mbind option_bind]. destruct Hat as [_ _ [Htk _] [_ Hcur]].
      rewrite Hcur. cbn [mbind option_bind]. assert (head w' !! 0%nat = Some e) as -> by (rewrite <- Htk in He; apply lookup_take_Some in He as [He _]; done).
      cbn [mbind option_bind]. rewrite Ht. cbn [mbind option_bind]. subst k. rewrite Hw1. cbn [mbind option_bind]. rewrite Hseen. f_equal. do 3 f_equal.
      by rewrite <- (drop_0 es) at 2; rewrite (drop_S _ _ _ He). }
    assert (at_entry (ina_dir_walker_reset w1) es 0) as Hat3.
    { destruct Hat2 as [H1 H2 H3 _]. constructor; [done|exact H2|exact H3|]. split; [lia|done]. }
    destruct (walk_from es (length es) 0 _ dir' st1 Hread Hat3 eq_refl) as (c2 & Hw2 & _). rewrite drop_0, Hle in Hw2.
    exists (map (seen st1) es), st1, w1, (set_current c2 (ina_dir_walker_reset w1)). do 4 (split; [done|]). split; [done|]. exact Hun'.
Qed.
End Visit.

(** ** A sort

    Elements that are not in the list are not compared. *)
#[local] Instance entry_eq_dec : EqDecision entry.
Proof. solve_decision. Defined.
Definition msort (cmp : entry -> entry -> Z) (l : list entry) : list entry :=
  @merge_sort entry (fun a b => a ∉ l \/ b ∉ l \/ cmp a b <= 0) (fun a b => decide (a ∉ l \/ b ∉ l \/ cmp a b <= 0)) l.
Lemma msort_permutes (cmp : entry -> entry -> Z) (l : list entry) : msort cmp l ≡ₚ l.
Proof. apply merge_sort_Permutation. Qed.
Lemma msort_sorts (cmp : entry -> entry -> Z) (l : list entry) : consistent l cmp -> Sorted (fun a b => cmp a b <= 0) (msort cmp l).
Proof.
  intros [Hs _]. assert (Sorted (fun a b => a ∉ l \/ b ∉ l \/ cmp a b <= 0) (msort cmp l)) as H.
  { apply Sorted_merge_sort. intros a b. destruct (decide (a ∈ l)) as [Ha|]; [|tauto]. destruct (decide (b ∈ l)) as [Hb|]; [|tauto]. specialize (Hs a b Ha Hb). lia. }
  rewrite <- (map_id (msort cmp l)). revert H. apply Sorted_map. intros x y Hx Hy. rewrite (msort_permutes cmp l) in Hx, Hy. tauto.
Qed.

Definition ok_malloc (n : Z) : bool := true.
Definition no_garbage (n : Z) : text := [].
Definition listing : list dirent :=
  [Dirent [46] DT_DIR; Dirent [98] DT_REG; Dirent [97; 65] DT_REG; Dirent [65] DT_LNK; Dirent [67] DT_DIR].
(** A new walker of a directory in new memory that is to sort by name, downwards. *)
Definition by_name : option (pmem * walker) :=
  '(st, r) ← ina_dir_walker_new ok_malloc no_garbage true [47] empty_mem;
  match r with
  | Ok w => Some (st, ina_dir_walker_set_sort_order INA_DIR_SORT_ORDER_DESCEND (ina_dir_walker_set_sort_attrib INA_DIR_SORT_ATTRIB_NAME w))
  | Err _ => None
  end.
Lemma listing_sound : Forall sound listing.
Proof. unfold listing, string_bytes. repeat (apply Forall_cons; split; [split; [unfold known; cbn; rewrite ?elem_of_cons; tauto|repeat constructor|cbn; lia]|]). apply Forall_nil_2. Qed.
Lemma by_name_unread : exists (st : pmem) (w : walker), by_name = Some (st, w) /\ unread st w INA_DIR_SORT_ORDER_DESCEND INA_DIR_SORT_ATTRIB_NAME listing.
Proof.
  destruct (new_unread ok_malloc no_garbage [47] INA_DIR_SORT_ORDER_DESCEND INA_DIR_SORT_ATTRIB_NAME listing empty_mem) as (st & w & Hnew & Hun);
    [done|done|done|apply listing_sound|unfold capacity; cbn; lia|]. eexists _, _. split; [|exact Hun]. unfold by_name. by rewrite Hnew.
Qed.
(** A walk, then another over a second listing after a reload: what the client finds.  A
    pool of 1 KB stands for that of 1 MB. *)
Definition small_pool : pmem := PMem {[1 := Pool INA_MEM_DYNAMIC 1024 0 1024 16 2 None 1 0 0]} {[2 := repeat 0 1024]} 3.
Definition small_walker : walker :=
  ina_dir_walker_set_sort_order INA_DIR_SORT_ORDER_DESCEND (ina_dir_walker_set_sort_attrib INA_DIR_SORT_ATTRIB_NAME
    (Walker [47] None 0 None (replicate 10 (Entry None 0)) 1 INA_DIR_SORT_ORDER_NONE INA_DIR_SORT_ATTRIB_DFT false None)).
Definition two_walks (fs fs' : list dirent) : option (list text * list text) :=
  let '(st, w) := (small_pool, small_walker) in
  '(l, st, w, _) ← walk ok_malloc no_garbage msort 10 (Some fs) st w;
  '(l', _, _, _) ← walk ok_malloc no_garbage msort 10 (Some fs') st (ina_dir_walker_reload w);
  Some (map f_name l, map f_name l').
Lemma listing_walk : two_walks listing listing = Some ([[67]; [98]; [97; 65]; [65]; [46]], [[67]; [98]; [97; 65]; [65]; [46]]).
Proof. vm_compute. reflexivity. Qed.
Lemma walker_visits_directory_witness :
  exists (st : pmem) (w : walker), by_name = Some (st, w) /\
    exists (l : list found) (st1 : pmem) (w1 : walker), walk ok_malloc no_garbage msort 6 (Some listing) st w = Some (l, st1, w1, Some enumeration_end) /\
    l ≡ₚ map found_of listing /\ Sorted (before INA_DIR_SORT_ORDER_DESCEND INA_DIR_SORT_ATTRIB_NAME) l.
Proof.
  destruct by_name_unread as (st & w & Hw & Hun). exists st, w. split; [exact Hw|].
  destruct (walker_visits_directory ok_malloc no_garbage msort msort_permutes msort_sorts st w INA_DIR_SORT_ORDER_DESCEND INA_DIR_SORT_ATTRIB_NAME listing None
    Hun ltac:(unfold capacity; cbn; lia) listing_sound) as [_ H].
  destruct H as (l & st1 & w1 & w2 & H1 & H2 & _ & H3 & _); [done|]. exists l, st1, w1. exact (conj H1 (conj H2 H3)).
Defined.

(** More entries than the array has room for are written behind it. *)
Lemma too_many_entries (malloc_ok : Z -> bool) (garbage : Z -> text) (st : pmem) (id : Z) (i : nat) (f : dirent) (fs : list dirent) (a : list entry) :
  (length a <= S i)%nat -> read_entries malloc_ok garbage st id (f :: fs) (Some 0%nat) i a = None.
Proof. intros Hl. cbn [read_entries]. by rewrite lookup_ge_None_2. Qed.
(** The pool is not cleared for a reload: a name that is shorter than what was there
    before runs on. *)
Lemma names_run_on : two_walks [Dirent [97; 98; 99] DT_REG] [Dirent [120] DT_REG] = Some ([[97; 98; 99]], [[120; 98; 99]]).
Proof. vm_compute. reflexivity. Qed.

End Dir.
