(* ===== verification/Compression.v ===== *)
(** * Compression (compression.c, compression.h)

    Chunks are compressed with LZ4 or DEFLATE.  The two codecs are libraries of
    others (contribs/lz4, contribs/miniz): [Lz4] and [Miniz] are their functions and
    [Lz4Laws] and [MinizLaws] what their headers promise. *)
From Stdlib Require Import ZArith Lia Bool String.
From stdpp Require Import base numbers option list.
From S2P Require Import Prelude Error Libc.

Module Compression.
Import Error Libc.
Local Open Scope inac_scope.

Definition len (t : text) : Z := Z.of_nat (length t).
Abbreviation bytes := (Forall is_byte).

(** ** The codecs *)
Definition MZ_SYNC_FLUSH : Z := 2.
Definition MZ_FINISH : Z := 4.
Definition MZ_OK : Z := 0.
Definition MZ_STREAM_END : Z := 1.
Definition MZ_BUF_ERROR : Z := -5.
Definition MZ_DEFAULT_WINDOW_BITS : Z := 15.
Definition LZ4_MAX_INPUT_SIZE : Z := 0x7E000000.
Definition LZ4_COMPRESSBOUND (isize : Z) : Z :=
  if LZ4_MAX_INPUT_SIZE <? u32 isize then 0 else isize + isize `quot` 255 + 16.
Definition LZ4_compressBound (isize : Z) : Z := LZ4_COMPRESSBOUND isize.
Definition mz_deflateBound (source_len : Z) : Z :=
  Z.max (128 +₆₄ (source_len *₆₄ 110) / 100) (128 +₆₄ source_len +₆₄ (source_len / (31 * 1024) + 1) *₆₄ 5).
Definition mz_compressBound (source_len : Z) : Z := mz_deflateBound (u64 source_len).

(** A block is compressed or decompressed at once: the result and what is stored. *)
Class Lz4 := {
  LZ4_compress_fast_extState : text -> Z -> Z -> Z * text;
  LZ4_compress_HC_extStateHC : text -> Z -> Z -> Z * text;
  LZ4_decompress_safe : text -> Z -> Z * text;
  LZ4_decompress_fast : text -> Z -> Z * text }.
(** [lz4_block z s]: z is a block with the content s. *)
Class Lz4Laws `{Lz4} (lz4_block : text -> text -> Prop) := {
  lz4_fast_is_block (s : text) (cap n : Z) (z : text) : LZ4_compress_fast_extState s cap 1 = (n, z) -> n <> 0 -> n = len z /\ n <= cap /\ lz4_block z s;
  lz4_fast_fits (s : text) (cap : Z) : len s <= LZ4_MAX_INPUT_SIZE -> LZ4_compressBound (len s) <= cap -> (LZ4_compress_fast_extState s cap 1).1 <> 0;
  lz4_hc_is_block (s : text) (cap n : Z) (z : text) : LZ4_compress_HC_extStateHC s cap 1 = (n, z) -> n <> 0 -> n = len z /\ n <= cap /\ lz4_block z s;
  lz4_hc_fits (s : text) (cap : Z) : len s <= LZ4_MAX_INPUT_SIZE -> LZ4_compressBound (len s) <= cap -> (LZ4_compress_HC_extStateHC s cap 1).1 <> 0;
  lz4_safe_of_block (z s : text) (cap : Z) : lz4_block z s -> len s <= cap -> LZ4_decompress_safe z cap = (len s, s);
  lz4_fast_of_block (z s rest : text) : lz4_block z s -> 0 < len s -> LZ4_decompress_fast (z ++ rest) (len s) = (len z, s) }.

(** A stream takes input and gives output: the new stream, how much of the input
    it has taken, what is stored and the status. *)
Class Miniz := {
  deflator : Type;
  inflator : Type;
  mz_deflateInit : Z -> deflator;
  mz_deflate : deflator -> text -> Z -> Z -> deflator * Z * text * Z;
  mz_inflateInit2 : Z -> inflator;
  mz_inflate : inflator -> text -> Z -> Z -> inflator * Z * text * Z }.
(** [zlib_stream z s]: z is a complete stream with header, of the content s.
    [deflated d i o]: d has taken i and given o.  [inflated f z s i o]: f decodes the
    stream z of s, has taken the part i of it and given all of s that i has, o.
    Promises are made only where room is left behind the output, so that
    nothing is held back. *)
Class MinizLaws `{Miniz} (zlib_stream : text -> text -> Prop) (deflated : deflator -> text -> text -> Prop)
    (inflated : inflator -> text -> text -> text -> text -> Prop) := {
  deflated_init (level : Z) : deflated (mz_deflateInit level) [] [];
  deflate_sync (d d' : deflator) (i o src out : text) (cap n st : Z) : deflated d i o -> bytes src ->
    mz_deflate d src cap MZ_SYNC_FLUSH = (d', n, out, st) -> len out < cap -> n = len src /\ st = MZ_OK /\ deflated d' (i ++ src) (o ++ out);
  deflate_finish (d d' : deflator) (i o src out : text) (cap n st : Z) : deflated d i o -> bytes src ->
    mz_deflate d src cap MZ_FINISH = (d', n, out, st) -> len out < cap -> n = len src /\ st = MZ_STREAM_END /\ zlib_stream (o ++ out) (i ++ src);
  deflate_once (level : Z) (d' : deflator) (src out : text) (cap n st : Z) : bytes src -> len src < 2 ^ 31 -> mz_compressBound (len src) <= cap ->
    mz_deflate (mz_deflateInit level) src cap MZ_FINISH = (d', n, out, st) -> n = len src /\ st = MZ_STREAM_END /\ len out <= cap /\ zlib_stream out src;
  zlib_stream_some (z s : text) : zlib_stream z s -> z <> [];
  inflated_init (z s : text) : zlib_stream z s -> inflated (mz_inflateInit2 MZ_DEFAULT_WINDOW_BITS) z s [] [];
  inflate_sync (f f' : inflator) (z s i o src rest out : text) (cap n st : Z) : inflated f z s i o -> z = i ++ src ++ rest -> src <> [] -> rest <> [] ->
    mz_inflate f src cap MZ_SYNC_FLUSH = (f', n, out, st) -> len s - len o < cap -> n = len src /\ st = MZ_OK /\ len out < cap /\ inflated f' z s (i ++ src) (o ++ out);
  inflate_finish (f f' : inflator) (z s i o src out : text) (cap n st : Z) : inflated f z s i o -> z = i ++ src -> src <> [] ->
    mz_inflate f src cap MZ_FINISH = (f', n, out, st) -> len s - len o < cap -> n = len src /\ st = MZ_STREAM_END /\ s = o ++ out;
  inflated_part (f : inflator) (z s i o : text) : inflated f z s i o -> exists r : text, s = o ++ r }.

(** ** States *)
Inductive compression_type := INA_COMPRESSION_TYPE_DEFLATE | INA_COMPRESSION_TYPE_DEFLATE_RAW | INA_COMPRESSION_TYPE_LZ4 | INA_COMPRESSION_TYPE_LZ4HC.
Inductive compression_mode := INA_COMPRESSION_MODE_TRUSTED_FAST | INA_COMPRESSION_MODE_TRUSTED_SAFE.
Definition compression_failed : Z := Z.lor (INA_ES S_COMPRESSION) (INA_ERR E_FAILED).
Definition decompression_failed : Z := Z.lor (INA_ES S_DECOMPRESSION) (INA_ERR E_FAILED).
Definition compression_not_initialized : Z := Z.lor (INA_ES S_COMPRESSION) (INA_ERR_NOT_ E_INITIALIZED).
Definition decompression_not_initialized : Z := Z.lor (INA_ES S_DECOMPRESSION) (INA_ERR_NOT_ E_INITIALIZED).

(** The functions that the type and the mode stand for. *)
Inductive compress_fn := compress_lz4 | compress_lz4hc | compress_miniz.
Inductive decompress_fn := decompress_lz4_fast | decompress_lz4_safe | decompress_miniz.
Inductive dest_len_fn := bounds_lz4 | bounds_miniz.

Section Codecs.
Context `{Lz4, Miniz}.

(** The memory of the codec: without a stream, or the stream of one direction
    with its totals. *)
Inductive codec_data := Scratch | Deflating (d : deflator) (total_in total_out : Z) | Inflating (f : inflator).
Record state := State {
  type : compression_type; compress : compress_fn; decompress : decompress_fn; dest_len : dest_len_fn;
  mempool : bool; chunk_src_len : Z; chunk_proposed_dst_len : Z; statedata : option codec_data; flags : Z;
  initialized : bool; finalized : bool }.

Definition set_data (sd : codec_data) (init fin : bool) (s : state) : state :=
  State (type s) (compress s) (decompress s) (dest_len s) (mempool s) (chunk_src_len s) (chunk_proposed_dst_len s) (Some sd) (flags s) init fin.
Definition set_src_len (n : Z) (s : state) : state :=
  State (type s) (compress s) (decompress s) (dest_len s) (mempool s) n (chunk_proposed_dst_len s) (statedata s) (flags s) (initialized s) (finalized s).
Definition set_dst_len (n : Z) (s : state) : state :=
  State (type s) (compress s) (decompress s) (dest_len s) (mempool s) (chunk_src_len s) n (statedata s) (flags s) (initialized s) (finalized s).

(** [got] and [got_data] are the outcomes of the two allocations; the second is
    not tested. *)
Definition ina_compression_new_using_pool (got got_data : bool) (t : compression_type) (m : compression_mode) (pool : bool) : result state :=
  if negb got then Err INA_ERR_OUT_OF_MEMORY
  else
    let data := if got_data then Some Scratch else None in
    let lz4_decompress := match m with INA_COMPRESSION_MODE_TRUSTED_FAST => decompress_lz4_fast | INA_COMPRESSION_MODE_TRUSTED_SAFE => decompress_lz4_safe end in
    Ok (match t with
    | INA_COMPRESSION_TYPE_DEFLATE => State t compress_miniz decompress_miniz bounds_miniz pool 0 0 data MZ_DEFAULT_WINDOW_BITS false false
    | INA_COMPRESSION_TYPE_DEFLATE_RAW => State t compress_miniz decompress_miniz bounds_miniz pool 0 0 data (- MZ_DEFAULT_WINDOW_BITS) false false
    | INA_COMPRESSION_TYPE_LZ4 => State t compress_lz4 lz4_decompress bounds_lz4 pool 0 0 data 0 false false
    | INA_COMPRESSION_TYPE_LZ4HC => State t compress_lz4hc lz4_decompress bounds_lz4 pool 0 0 data 0 false false
    end).
Definition ina_compression_new (got got_data : bool) (t : compression_type) (m : compression_mode) : result state :=
  ina_compression_new_using_pool got got_data t m false.

(** ** Chunks

    A call gives a return code, the two lengths and what it stores at [dst]; it is
    [None] where it writes behind [dst], fails an assertion or takes the stream of the
    other direction.  [src_len] is the length of [src], [rd] what the
    caller has in [read_len] and [got] the outcome of an allocation. *)
Record outcome := Outcome { rc : result unit; wrote_len : Z; read_len : Z; stored : text }.

Definition ina_compression_compress_lz4 (s : state) (src : text) (dst_len : Z) : option (state * outcome) :=
  _ ← statedata s;
  let '(n, out) := LZ4_compress_fast_extState src dst_len 1 in
  Some (s, Outcome (if n =? 0 then Err compression_failed else Ok tt) n 0 out).
Definition ina_compression_compress_lz4hc (s : state) (src : text) (dst_len : Z) : option (state * outcome) :=
  _ ← statedata s;
  let '(n, out) := LZ4_compress_HC_extStateHC src dst_len 1 in
  Some (s, Outcome (if n =? 0 then Err compression_failed else Ok tt) n 0 out).
Definition ina_compression_decompress_lz4_fast (s : state) (src : text) (dst_len : Z) : option (state * outcome) :=
  if chunk_src_len s <=? 0 then None
  else if dst_len <? chunk_src_len s then None
  else
    let '(n, out) := LZ4_decompress_fast src (chunk_src_len s) in
    Some (s, if n <? 0 then Outcome (Err decompression_failed) 0 n out else Outcome (Ok tt) (chunk_src_len s) n out).
Definition ina_compression_decompress_lz4_safe (s : state) (src : text) (dst_len : Z) : option (state * outcome) :=
  let '(n, out) := LZ4_decompress_safe src dst_len in
  Some (s, Outcome (if n <=? 0 then Err decompression_failed else Ok tt) n 0 out).
Definition ina_compression_bounds_lz4 (s : state) : Z := LZ4_compressBound (chunk_src_len s).

Definition ina_compression_compress_miniz (got : bool) (s : state) (src : text) (dst_len rd : Z) (more : bool) : option (state * outcome) :=
  sd ← statedata s;
  if negb (initialized s) && negb got then Some (s, Outcome (Err compression_not_initialized) 0 rd [])
  else
    match (if initialized s then sd else Deflating (mz_deflateInit (flags s)) 0 0) with
    | Deflating d total_in total_out =>
        let '(d, n, out, status) := mz_deflate d src (u32 dst_len) (if more then MZ_SYNC_FLUSH else MZ_FINISH) in
        let total_in := total_in +₆₄ n in
        let total_out := total_out +₆₄ len out in
        let lens := fun r : result unit => Outcome r (to_int total_out) (to_int total_in) out in
        if negb (status =? MZ_STREAM_END) && negb (status =? MZ_OK)
        then Some (set_data (Deflating d total_in total_out) true (finalized s) s, lens (Err decompression_failed))
        else if more then Some (set_data (Deflating d total_in total_out) true (finalized s) s, lens (Ok tt))
        else Some (set_data Scratch false true s, lens (Ok tt))
    | _ => None
    end.
Definition ina_compression_decompress_miniz (got : bool) (s : state) (src : text) (dst_len : Z) (more : bool) : option (state * outcome) :=
  sd ← statedata s;
  if negb (initialized s) && negb got then Some (s, Outcome (Err decompression_not_initialized) 0 0 [])
  else
    match (if initialized s then sd else Inflating (mz_inflateInit2 (flags s))) with
    | Inflating f =>
        let '(f, n, out, status) := mz_inflate f src (u32 dst_len) (if more then MZ_SYNC_FLUSH else MZ_FINISH) in
        let avail_out := u32 dst_len - len out in
        let avail_in := u32 (len src) - n in
        let lens := fun r : result unit => Outcome r (to_int (dst_len -₃₂ avail_out)) (to_int (len src -₃₂ avail_in)) out in
        if negb (status =? MZ_OK) && negb (status =? MZ_STREAM_END)
        then Some (set_data (Inflating f) true (finalized s) s, lens (Err decompression_failed))
        else if more then Some (set_data (Inflating f) true (finalized s) s, lens (Ok tt))
        else Some (set_data Scratch false true s, lens (Ok tt))
    | _ => None
    end.
Definition ina_compression_bounds_miniz (s : state) : Z := to_int (mz_compressBound (chunk_src_len s)).

Definition ina_compression_compress_chunk (got : bool) (s : state) (src : text) (dst_len rd wr : Z) (more : bool) : option (state * outcome) :=
  if dst_len <=? 0 then Some (s, Outcome (Err INA_ERR_INVALID_ARGUMENT) wr rd [])
  else
    let s := set_src_len (len src) s in
    match compress s with
    | compress_lz4 => ina_compression_compress_lz4 s src dst_len
    | compress_lz4hc => ina_compression_compress_lz4hc s src dst_len
    | compress_miniz => ina_compression_compress_miniz got s src dst_len rd more
    end.
Definition ina_compression_decompress_chunk (got : bool) (s : state) (src : text) (dst_len rd wr : Z) (more : bool) : option (state * outcome) :=
  if dst_len <=? 0 then Some (s, Outcome (Err INA_ERR_INVALID_ARGUMENT) wr rd [])
  else
    match decompress s with
    | decompress_lz4_fast => ina_compression_decompress_lz4_fast s src dst_len
    | decompress_lz4_safe => ina_compression_decompress_lz4_safe s src dst_len
    | decompress_miniz => ina_compression_decompress_miniz got s src dst_len more
    end.
Definition ina_compression_get_destination_len (s : state) (src_len : Z) : state * Z :=
  let s := set_src_len src_len s in
  let n := match dest_len s with bounds_lz4 => ina_compression_bounds_lz4 s | bounds_miniz => ina_compression_bounds_miniz s end in
  (set_dst_len n s, n).
(** A state from a pool is given to [ina_mem_free], which is not defined; for the
    others the stream that is lost, if there is one. *)
Definition ina_compression_free (s : state) : option (option codec_data) :=
  if mempool s then None
  else Some (if initialized s then statedata s else None).

(** A client that compresses, or decompresses, one piece after the other, with
    a destination of the given length for each, and marks the last. *)
Fixpoint pieces (call : state -> text -> Z -> bool -> option (state * outcome)) (s : state) (l : list (text * Z)) : option (state * list outcome) :=
  match l with
  | [] => Some (s, [])
  | (src, dst_len) :: l =>
      '(s, o) ← call s src dst_len (negb (bool_decide (l = [])));
      '(s, os) ← pieces call s l;
      Some (s, o :: os)
  end.
Definition compress_pieces (s : state) (l : list (text * Z)) : option (state * list outcome) :=
  pieces (fun s src n more => ina_compression_compress_chunk true s src n 0 0 more) s l.
Definition decompress_pieces (s : state) (l : list (text * Z)) : option (state * list outcome) :=
  pieces (fun s src n more => ina_compression_decompress_chunk true s src n 0 0 more) s l.
End Codecs.

(** ** What the calls keep *)
Section Promises.
Context `{Lz4, Miniz}.

(** A state of this type between two streams. *)
Record made (t : compression_type) (m : compression_mode) (s : state) : Prop := {
  made_type : type s = t;
  made_compress : compress s = match t with INA_COMPRESSION_TYPE_LZ4 => compress_lz4 | INA_COMPRESSION_TYPE_LZ4HC => compress_lz4hc | _ => compress_miniz end;
  made_decompress : decompress s = match t, m with
    | INA_COMPRESSION_TYPE_DEFLATE, _ | INA_COMPRESSION_TYPE_DEFLATE_RAW, _ => decompress_miniz
    | _, INA_COMPRESSION_MODE_TRUSTED_FAST => decompress_lz4_fast
    | _, INA_COMPRESSION_MODE_TRUSTED_SAFE => decompress_lz4_safe
    end;
  made_dest_len : dest_len s = match t with INA_COMPRESSION_TYPE_LZ4 | INA_COMPRESSION_TYPE_LZ4HC => bounds_lz4 | _ => bounds_miniz end;
  made_flags : flags s = match t with INA_COMPRESSION_TYPE_DEFLATE => MZ_DEFAULT_WINDOW_BITS | INA_COMPRESSION_TYPE_DEFLATE_RAW => - MZ_DEFAULT_WINDOW_BITS | _ => 0 end;
  made_data : statedata s = Some Scratch;
  made_initialized : initialized s = false }.
Lemma new_is_made (t : compression_type) (m : compression_mode) (pool : bool) (s : state) :
  ina_compression_new_using_pool true true t m pool = Ok s -> made t m s.
Proof. intros [= <-]. destruct t, m; constructor; reflexivity. Qed.
Lemma made_set_src_len (t : compression_type) (m : compression_mode) (s : state) (n : Z) : made t m s -> made t m (set_src_len n s).
Proof. intros []. by constructor. Qed.
Lemma made_set_dst_len (t : compression_type) (m : compression_mode) (s : state) (n : Z) : made t m s -> made t m (set_dst_len n s).
Proof. intros []. by constructor. Qed.
Definition kept (s s' : state) : Prop :=
  type s' = type s /\ compress s' = compress s /\ decompress s' = decompress s /\ dest_len s' = dest_len s /\ flags s' = flags s.
Lemma kept_trans (s s' s'' : state) : kept s s' -> kept s' s'' -> kept s s''.
Proof. unfold kept. intuition congruence. Qed.
Lemma made_kept (t : compression_type) (m : compression_mode) (s s' : state) :
  made t m s -> kept s s' -> statedata s' = Some Scratch -> initialized s' = false -> made t m s'.
Proof. intros [] (? & ? & ? & ? & ?) ? ?. constructor; congruence. Qed.

(** ** Pieces of a stream *)
Definition able_to_compress (s : state) : Prop :=
  compress s = compress_miniz /\ exists sd : codec_data, statedata s = Some sd /\
    (initialized s = true -> exists (d : deflator) (i o : Z), sd = Deflating d i o).
Lemma compress_able (s : state) (src : text) (n : Z) (more : bool) : able_to_compress s -> 0 < n ->
  exists (s' : state) (x : outcome), ina_compression_compress_chunk true s src n 0 0 more = Some (s', x) /\ kept s s' /\ able_to_compress s'.
Proof.
  intros (Hc & sd & Hsd & Hi) Hn. unfold ina_compression_compress_chunk. rewrite (proj2 (Z.leb_gt _ _) Hn). cbn [compress set_src_len]. rewrite Hc.
  unfold ina_compression_compress_miniz. cbn. rewrite Hsd. cbn. rewrite andb_false_r.
  assert (exists (d : deflator) (i o : Z), (if initialized s then sd else Deflating (mz_deflateInit (flags s)) 0 0) = Deflating d i o) as (d & i & o & ->).
  { destruct (initialized s); [by apply Hi|eauto]. }
  destruct (mz_deflate _ _ _ _) as [[[d' k] out] st].
  assert (forall (c : codec_data) (b f : bool) (z : Z), (b = true -> exists (d : deflator) (i o : Z), c = Deflating d i o) ->
    able_to_compress (set_data c b f (set_src_len z s))) as Hable.
  { intros c b f z Hb. split; [done|]. exists c. done. }
  destruct (_ && _); [|destruct more]; eexists _, _; (split; [done|]; split; [done|]); apply Hable; eauto. done.
Qed.
Lemma compress_total (l : list (text * Z)) (s : state) : able_to_compress s -> Forall (fun p => 0 < p.2) l ->
  exists (s' : state) (os : list outcome), compress_pieces s l = Some (s', os) /\ kept s s'.
Proof.
  revert s. induction l as [|[src n] l IH]; intros s Hs Hl; [by exists s, []|]. apply Forall_cons in Hl as [Hn Hl].
  unfold compress_pieces in *. cbn [pieces].
  destruct (compress_able s src n (negb (bool_decide (l = []))) Hs Hn) as (s1 & x & -> & H1 & Hs1). cbn.
  destruct (IH s1 Hs1 Hl) as (s2 & os & -> & H2). cbn. eauto using kept_trans.
Qed.

Lemma len_app (a b : text) : len (a ++ b) = len a + len b.
Proof. unfold len. rewrite length_app. lia. Qed.
Lemma len_nonneg (a : text) : 0 <= len a.
Proof. unfold len. lia. Qed.

Section Deflate.
Context {zlib_stream : text -> text -> Prop} {deflated : deflator -> text -> text -> Prop} {inflated : inflator -> text -> text -> text -> text -> Prop}.
Context `{!MinizLaws zlib_stream deflated inflated}.

(** A state in the middle of a stream, or in front of it. *)
Definition compressing (s : state) (i o : text) : Prop :=
  compress s = compress_miniz /\ exists (sd : codec_data) (d : deflator), statedata s = Some sd /\
    (if initialized s then sd else Deflating (mz_deflateInit (flags s)) 0 0) = Deflating d (len i) (len o) /\ deflated d i o.
Definition idle (s : state) : Prop := statedata s = Some Scratch /\ initialized s = false.
Definition lengths (i o : text) (x : outcome) : Prop := wrote_len x = len o /\ read_len x = len i.
Lemma idle_compresses (s : state) : compress s = compress_miniz -> idle s -> compressing s [] [].
Proof. intros Hc [Hsd Hi]. split; [done|]. exists Scratch, (mz_deflateInit (flags s)). rewrite Hi. split; [done|]. split; [done|]. apply deflated_init. Qed.
Lemma compressing_able (s : state) (i o : text) : compressing s i o -> able_to_compress s.
Proof.
  intros (Hc & sd & d & Hsd & Hd & _). split; [done|]. exists sd. split; [done|]. intros Hi. rewrite Hi in Hd. eauto.
Qed.

Lemma total_lens (a b : Z) : 0 <= a -> 0 <= b -> a + b < 2 ^ 31 -> to_int (a +₆₄ b) = a + b.
Proof. intros. rewrite wrap_small by (unfold in_width; lia). apply to_int_id. lia. Qed.
Lemma compress_piece (s s' : state) (i o src : text) (n : Z) (more : bool) (x : outcome) : compressing s i o -> bytes src -> 0 < n < 2 ^ 31 ->
  ina_compression_compress_chunk true s src n 0 0 more = Some (s', x) -> len (stored x) < n -> len (i ++ src) < 2 ^ 31 -> len (o ++ stored x) < 2 ^ 31 ->
  rc x = Ok tt /\ lengths (i ++ src) (o ++ stored x) x /\
  if more then compressing s' (i ++ src) (o ++ stored x) else zlib_stream (o ++ stored x) (i ++ src) /\ idle s'.
Proof.
  intros (Hc & sd & d & Hsd & Hd & Hdef) Hb Hn. unfold ina_compression_compress_chunk. rewrite (proj2 (Z.leb_gt n 0)) by lia.
  cbn [compress set_src_len]. rewrite Hc. unfold ina_compression_compress_miniz. cbn. rewrite Hsd. cbn. rewrite andb_false_r, Hd, wrap_small by (unfold in_width; lia).
  destruct (mz_deflate _ _ _ _) as [[[d' k] out] st] eqn:Hz. rewrite !len_app.
  pose proof (len_nonneg i) as Hi0. pose proof (len_nonneg o) as Ho0. pose proof (len_nonneg src) as Hs0. pose proof (len_nonneg out) as Ht0.
  destruct more.
  - intros Hr. assert (x = Outcome (rc x) (to_int (len o +₆₄ len out)) (to_int (len i +₆₄ k)) out) as Hx by (destruct (_ && _) in Hr; by injection Hr as <- <-).
    rewrite Hx. cbn. intros Hroom Hsi Hso. destruct (deflate_sync _ _ _ _ _ _ _ _ _ Hdef Hb Hz Hroom) as (-> & -> & Hd').
    cbn in Hr. injection Hr as <- <-. cbn. rewrite !total_lens by done. split; [done|]. split; [by split; cbn; rewrite !len_app|].
    split; [done|]. eexists _, d'. cbn. split; [done|]. rewrite !len_app, !wrap_small by (unfold in_width; lia). done.
  - intros Hr. assert (x = Outcome (rc x) (to_int (len o +₆₄ len out)) (to_int (len i +₆₄ k)) out) as Hx by (destruct (_ && _) in Hr; by injection Hr as <- <-).
    rewrite Hx. cbn. intros Hroom Hsi Hso. destruct (deflate_finish _ _ _ _ _ _ _ _ _ Hdef Hb Hz Hroom) as (-> & -> & Hd').
    cbn in Hr. injection Hr as <- <-. cbn. rewrite !total_lens by done. split; [done|]. split; [by split; cbn; rewrite !len_app|]. done.
Qed.
Definition fine (x : outcome) : Prop := rc x = Ok tt.
Definition fits (p : text * Z) (x : outcome) : Prop := len (stored x) < p.2.
Definition source (p : text * Z) : Prop := bytes p.1 /\ 0 < p.2 < 2 ^ 31.
Lemma compress_run (l : list (text * Z)) (s s' : state) (i o : text) (os : list outcome) : compressing s i o -> l <> [] -> Forall source l ->
  compress_pieces s l = Some (s', os) -> Forall2 fits l os -> len (i ++ concat l.*1) < 2 ^ 31 -> len (o ++ concat (stored <$> os)) < 2 ^ 31 ->
  Forall fine os /\ zlib_stream (o ++ concat (stored <$> os)) (i ++ concat l.*1) /\ idle s' /\
  forall (k : nat) (x : outcome), os !! k = Some x -> lengths (i ++ concat (take (S k) l.*1)) (o ++ concat (take (S k) (stored <$> os))) x.
Proof.
  revert s i o os. induction l as [|[src n] l IH]; intros s i o os Hs Hne Hl Hrun Hfit Hi Ho; [done|]. apply Forall_cons in Hl as [[Hb Hn] Hl].
  unfold compress_pieces in *. cbn [pieces] in Hrun.
  destruct (ina_compression_compress_chunk _ _ _ _ _ _ _) as [[s1 x]|] eqn:Hx; [|done]. cbn in Hrun.
  destruct (pieces _ s1 l) as [[s2 os']|] eqn:Hrest; [|done]. injection Hrun as <- <-.
  apply Forall2_cons in Hfit as [Hroom Hfit]. cbn in Hb, Hn, Hroom, Hi, Ho. unfold fits in Hroom. cbn in Hroom.
  rewrite app_assoc, (len_app (i ++ src)) in Hi. rewrite app_assoc, (len_app (o ++ _)) in Ho.
  pose proof (len_nonneg (concat l.*1)) as H1. pose proof (len_nonneg (concat (stored <$> os'))) as H2.
  destruct (compress_piece _ _ _ _ _ _ _ _ Hs Hb Hn Hx Hroom) as (Hrc & Hlens & Hnext); [lia..|].
  destruct (decide (l = [])) as [->|Hl'].
  - cbn in Hrest. injection Hrest as <- <-. cbn in Hnext |- *. rewrite !app_nil_r. destruct Hnext as [Hz Hidle].
    split; [by repeat constructor|]. do 2 (split; [done|]). intros [|k] y; [intros [= <-]; by rewrite ?take_0, !app_nil_r|done].
  - rewrite bool_decide_eq_false_2 in Hnext by done. cbn [negb] in Hnext.
    destruct (IH s1 _ _ os' Hnext Hl' Hl Hrest Hfit) as (Hf & Hz & Hidle & Hk); [by rewrite len_app..|].
    cbn. rewrite !app_assoc. split; [by constructor|]. do 2 (split; [done|]).
    intros [|k] y; cbn; [intros [= <-]; rewrite ?take_0; cbn; by rewrite !app_nil_r|]. intros Hy. rewrite !app_assoc. by apply Hk.
Qed.

(** And back. *)
Definition decompressing (s : state) (z c i o : text) : Prop :=
  decompress s = decompress_miniz /\ flags s = MZ_DEFAULT_WINDOW_BITS /\ exists (sd : codec_data) (f : inflator), statedata s = Some sd /\
    (if initialized s then sd else Inflating (mz_inflateInit2 (flags s))) = Inflating f /\ inflated f z c i o.
Lemma idle_decompresses (s : state) (z c : text) : decompress s = decompress_miniz -> flags s = MZ_DEFAULT_WINDOW_BITS -> idle s -> zlib_stream z c ->
  decompressing s z c [] [].
Proof.
  intros Hc Hf [Hsd Hi] Hz. do 2 (split; [done|]). exists Scratch, (mz_inflateInit2 (flags s)). rewrite Hi, Hf. do 2 (split; [done|]). by apply inflated_init.
Qed.
Definition reported (n : Z) (x : outcome) : Prop := fine x /\ wrote_len x = len (stored x) /\ read_len x = n.
Lemma decompress_piece (s : state) (z c i o src rest : text) (n : Z) (more : bool) : decompressing s z c i o -> z = i ++ src ++ rest ->
  src <> [] -> (more = true <-> rest <> []) -> 0 < n < 2 ^ 31 -> len src < 2 ^ 31 -> len c - len o < n ->
  exists (s' : state) (x : outcome), ina_compression_decompress_chunk true s src n 0 0 more = Some (s', x) /\ reported (len src) x /\ kept s s' /\
    if more then decompressing s' z c (i ++ src) (o ++ stored x) else c = o ++ stored x /\ idle s'.
Proof.
  intros (Hc & Hfl & sd & f & Hsd & Hf & Hinf) Hz Hsrc Hmore Hn Hlen Hroom. unfold ina_compression_decompress_chunk. rewrite (proj2 (Z.leb_gt n 0)) by lia.
  rewrite Hc. unfold ina_compression_decompress_miniz. rewrite Hsd. cbn. rewrite andb_false_r, Hf, (wrap_small 32 n) by (unfold in_width; lia).
  pose proof (len_nonneg src) as Hs0.
  assert (forall out : text, len out <= n -> to_int (n -₃₂ (n - len out)) = len out) as Hout.
  { intros out Ho. pose proof (len_nonneg out). replace (n - (n - len out)) with (len out) by lia. rewrite wrap_small by (unfold in_width; lia). apply to_int_id. lia. }
  assert (to_int (len src -₃₂ (u32 (len src) - len src)) = len src) as Hin.
  { rewrite (wrap_small 32 (len src)) by (unfold in_width; lia). replace (len src - (len src - len src)) with (len src) by lia.
    rewrite wrap_small by (unfold in_width; lia). apply to_int_id. lia. }
  destruct (mz_inflate _ _ _ _) as [[[f' k] out] st] eqn:Hcall. destruct more.
  - destruct (inflate_sync _ _ _ _ _ _ _ _ _ _ _ _ Hinf Hz Hsrc ltac:(by apply Hmore) Hcall Hroom) as (-> & -> & Hr & Hinf'). cbn.
    rewrite Hin, Hout by lia. eexists _, _. split; [done|]. do 2 (split; [done|]). do 2 (split; [done|]). by eexists _, f'.
  - assert (rest = []) as -> by (destruct rest; [done|]; destruct Hmore as [_ Hm]; by discriminate Hm). rewrite app_nil_r in Hz.
    destruct (inflate_finish _ _ _ _ _ _ _ _ _ _ _ Hinf Hz Hsrc Hcall Hroom) as (-> & -> & Hend). cbn.
    assert (len out <= n) by (rewrite Hend, len_app in Hroom; lia).
    rewrite Hin, Hout by lia. eexists _, _. split; [done|]. do 2 (split; [done|]). done.
Qed.
Lemma decompress_run (l : list (text * Z)) (s : state) (z c i o : text) : decompressing s z c i o -> l <> [] -> z = i ++ concat l.*1 ->
  len z < 2 ^ 31 -> Forall (fun p => p.1 <> [] /\ len c < p.2 < 2 ^ 31) l ->
  exists (s' : state) (os : list outcome), decompress_pieces s l = Some (s', os) /\ Forall2 (fun p x => reported (len p.1) x) l os /\
    c = o ++ concat (stored <$> os) /\ kept s s' /\ idle s'.
Proof.
  revert s i o. induction l as [|[src n] l IH]; intros s i o Hs Hne Hz Hlen Hl; [done|]. apply Forall_cons in Hl as [[Hsrc Hn] Hl]. cbn in Hz, Hsrc, Hn.
  unfold decompress_pieces in *. cbn [pieces].
  pose proof (len_nonneg i) as H1. pose proof (len_nonneg o) as H2. pose proof (len_nonneg c) as H3. pose proof (len_nonneg (concat l.*1)) as H4.
  assert (negb (bool_decide (l = [])) = true <-> concat l.*1 <> []) as Hmore.
  { rewrite negb_true_iff, bool_decide_eq_false. destruct l as [|[a b] l]; [done|]. apply Forall_cons in Hl as [[Ha _] _]. cbn in Ha |- *. by destruct a. }
  assert (len src < 2 ^ 31) as Hlsrc by (rewrite Hz, !len_app in Hlen; lia).
  destruct (decompress_piece s z c i o src (concat l.*1) n _ Hs Hz Hsrc Hmore ltac:(lia) Hlsrc ltac:(lia)) as (s1 & x & -> & Hx & Hk & Hnext). cbn.
  destruct (decide (l = [])) as [->|Hl'].
  - cbn in Hnext |- *. exists s1, [x]. cbn. rewrite app_nil_r. split; [done|]. split; [by apply Forall2_cons|]. by destruct Hnext.
  - rewrite bool_decide_eq_false_2 in Hnext by done. cbn [negb] in Hnext. rewrite app_assoc in Hz.
    destruct (IH s1 _ _ Hnext Hl' Hz Hlen Hl) as (s2 & os & -> & Hos & Hc & Hk2 & Hi). cbn. eexists s2, (x :: os). cbn. rewrite !app_assoc.
    split; [done|]. split; [by constructor|]. split; [done|]. split; [by eapply kept_trans|done].
Qed.

(** C33. Streams.  Pieces compressed one after the other with DEFLATE, each with
    room behind what is stored, are a stream of their content, all calls
    succeed and the state is ready for the next stream; and the stream, cut
    anyhow into pieces of one byte or more, is decompressed by the same state to
    that content, each call reporting how much it read and stored.  The lengths that
    the compressing calls report are not those of the piece but the totals of the
    stream so far. *)
Theorem deflate_round_trip (m : compression_mode) (s : state) (l : list (text * Z)) : made INA_COMPRESSION_TYPE_DEFLATE m s ->
  l <> [] -> Forall source l -> len (concat l.*1) < 2 ^ 31 - 1 ->
  exists (s1 : state) (os : list outcome), compress_pieces s l = Some (s1, os) /\
    (Forall2 fits l os -> len (concat (stored <$> os)) < 2 ^ 31 ->
      Forall fine os /\ zlib_stream (concat (stored <$> os)) (concat l.*1) /\ made INA_COMPRESSION_TYPE_DEFLATE m s1 /\
      (forall (k : nat) (x : outcome), os !! k = Some x -> lengths (concat (take (S k) l.*1)) (concat (take (S k) (stored <$> os))) x) /\
      forall cut : list (text * Z), cut <> [] -> concat cut.*1 = concat (stored <$> os) ->
        Forall (fun p => p.1 <> [] /\ len (concat l.*1) < p.2 < 2 ^ 31) cut ->
        exists (s2 : state) (back : list outcome), decompress_pieces s1 cut = Some (s2, back) /\ Forall2 (fun p x => reported (len p.1) x) cut back /\
          concat (stored <$> back) = concat l.*1 /\ made INA_COMPRESSION_TYPE_DEFLATE m s2).
Proof.
  intros Hm Hne Hl Hlen. destruct (Hm) as [_ Hc Hd _ Hf Hsd Hi].
  pose proof (idle_compresses s Hc (conj Hsd Hi)) as Hs.
  destruct (compress_total l s (compressing_able _ _ _ Hs)) as (s1 & os & Hrun & Hk); [eapply Forall_impl; [done|]; by intros p [_ [? _]]|].
  exists s1, os. split; [done|]. intros Hfit Ho.
  destruct (compress_run l s s1 [] [] os Hs Hne Hl Hrun Hfit ltac:(cbn; lia) Ho) as (Hfine & Hz & [Hsd1 Hi1] & Hlens).
  do 2 (split; [done|]). pose proof (made_kept _ _ _ _ Hm Hk Hsd1 Hi1) as Hm1. do 2 (split; [done|]).
  intros cut Hcut Hcat Hroom. destruct (Hm1) as [_ _ Hd1 _ Hf1 _ _].
  destruct (decompress_run cut s1 _ (concat l.*1) [] [] (idle_decompresses s1 _ _ Hd1 Hf1 (conj Hsd1 Hi1) Hz) Hcut (eq_sym Hcat) Ho Hroom)
    as (s2 & back & Hback & Hex & Hcont & Hk2 & [Hsd2 Hi2]).
  exists s2, back. do 3 (split; [done|]). by eapply made_kept.
Qed.

(** ** A chunk at once *)
Context {lz4_block : text -> text -> Prop} `{!Lz4Laws lz4_block}.
Lemma mz_bound_small (n : Z) : 0 <= n <= 2 ^ 30 -> 0 < mz_compressBound n < 2 ^ 31 /\ to_int (mz_compressBound n) = mz_compressBound n.
Proof.
  intros Hn. assert (0 < mz_compressBound n < 2 ^ 31) as H3; [|split; [done|]; apply to_int_id; lia].
  unfold mz_compressBound, mz_deflateBound.
  rewrite !(wrap_small 64 n), (wrap_small 64 (n * 110)) by (unfold in_width; lia).
  assert (0 <= n * 110 / 100 <= 2 ^ 30 * 110 / 100) by (split; [apply Z.div_pos; lia|apply Z.div_le_mono; lia]).
  assert (0 <= n / (31 * 1024) <= 2 ^ 30 / (31 * 1024)) by (split; [apply Z.div_pos; lia|apply Z.div_le_mono; lia]).
  assert (2 ^ 30 * 110 / 100 = 1181116006) as E1 by reflexivity. assert (2 ^ 30 / (31 * 1024) = 33825) as E2 by reflexivity.
  rewrite !wrap_small; unfold in_width; rewrite ?wrap_small; unfold in_width; lia.
Qed.
Lemma lz4_bound_small (n : Z) : 0 <= n <= 2 ^ 30 -> 0 < LZ4_compressBound n.
Proof.
  intros Hn. unfold LZ4_compressBound, LZ4_COMPRESSBOUND. rewrite wrap_small by (unfold in_width; lia). unfold LZ4_MAX_INPUT_SIZE.
  rewrite (proj2 (Z.ltb_ge _ _)) by lia. pose proof (Z.quot_pos n 255). lia.
Qed.

(** What one call of a compressor gives: a chunk that the decompressors of its kind
    read. *)
Definition chunk_of (t : compression_type) (z src : text) : Prop :=
  match t with INA_COMPRESSION_TYPE_LZ4 | INA_COMPRESSION_TYPE_LZ4HC => lz4_block z src | _ => zlib_stream z src end.
Lemma compress_once (t : compression_type) (m : compression_mode) (s : state) (src : text) (dst_len : Z) : made t m s -> bytes src -> len src <= 2 ^ 30 ->
  (ina_compression_get_destination_len s (len src)).2 <= dst_len < 2 ^ 31 ->
  exists (s1 : state) (x : outcome), ina_compression_compress_chunk true s src dst_len 0 0 false = Some (s1, x) /\ fine x /\
    wrote_len x = len (stored x) /\ len (stored x) <= dst_len /\ chunk_of t (stored x) src /\ made t m s1 /\ chunk_src_len s1 = len src.
Proof.
  intros Hm Hb Hlen Hdst. destruct (Hm) as [_ Hc _ Hd Hf Hsd Hi]. pose proof (len_nonneg src) as Hs0.
  unfold ina_compression_get_destination_len, ina_compression_bounds_lz4, ina_compression_bounds_miniz in Hdst. cbn in Hdst. rewrite Hd in Hdst. cbn in Hdst.
  destruct (mz_bound_small (len src) ltac:(lia)) as [Hmz Hmzi]. pose proof (lz4_bound_small (len src) ltac:(lia)) as Hlz.
  assert (0 < dst_len) as Hpos by (destruct t; lia).
  unfold ina_compression_compress_chunk. rewrite (proj2 (Z.leb_gt dst_len 0)) by lia. cbn [compress set_src_len]. rewrite Hc.
  assert (statedata (set_src_len (len src) s) = Some Scratch) as Hsd' by done.
  assert (forall (n : Z) (out : text), n <> 0 -> n = len out /\ n <= dst_len /\ lz4_block out src ->
    exists (s1 : state) (x : outcome), Some (set_src_len (len src) s, Outcome (if n =? 0 then Err compression_failed else Ok tt) n 0 out) = Some (s1, x) /\
      fine x /\ wrote_len x = len (stored x) /\ len (stored x) <= dst_len /\ lz4_block (stored x) src /\ made t m s1 /\ chunk_src_len s1 = len src) as Hlz4.
  { intros n out Hn (Hn' & Hle & Hblock). rewrite (proj2 (Z.eqb_neq n 0) Hn). eexists _, _. split; [done|]. do 2 (split; [done|]).
    split; [cbn; lia|]. split; [done|]. split; [by apply made_set_src_len|done]. }
  destruct t; cbn [chunk_of].
  1,2: unfold ina_compression_compress_miniz; rewrite Hsd'; cbn; rewrite Hi; cbn; rewrite (wrap_small 32 dst_len) by (unfold in_width; lia);
    destruct (mz_deflate _ _ _ _) as [[[d' k] out] st] eqn:Hz;
    destruct (deflate_once _ _ src _ dst_len _ _ Hb ltac:(lia) ltac:(cbn in Hdst; lia) Hz) as (-> & -> & Hout & Hstream); cbn;
    pose proof (len_nonneg out); rewrite total_lens by lia; eexists _, _; do 2 (split; [done|]); do 3 (split; [done|]); split; [|done];
    by eapply made_kept.
  - unfold ina_compression_compress_lz4. rewrite Hsd'. cbn. destruct (LZ4_compress_fast_extState src dst_len 1) as [n out] eqn:Hz.
    assert (n <> 0) as Hn by (pose proof (lz4_fast_fits src dst_len) as Hfit; rewrite Hz in Hfit; apply Hfit; unfold LZ4_MAX_INPUT_SIZE; lia).
    apply Hlz4; [done|]. by apply (lz4_fast_is_block src dst_len).
  - unfold ina_compression_compress_lz4hc. rewrite Hsd'. cbn. destruct (LZ4_compress_HC_extStateHC src dst_len 1) as [n out] eqn:Hz.
    assert (n <> 0) as Hn by (pose proof (lz4_hc_fits src dst_len) as Hfit; rewrite Hz in Hfit; apply Hfit; unfold LZ4_MAX_INPUT_SIZE; lia).
    apply Hlz4; [done|]. by apply (lz4_hc_is_block src dst_len).
Qed.

Lemma lz4_back (t : compression_type) (m : compression_mode) (s : state) (src z : text) (cap : Z) :
  t = INA_COMPRESSION_TYPE_LZ4 \/ t = INA_COMPRESSION_TYPE_LZ4HC -> made t m s -> chunk_src_len s = len src -> 0 < len src -> len src < cap ->
  lz4_block z src -> exists y : outcome, ina_compression_decompress_chunk true s z cap 0 0 false = Some (s, y) /\ fine y /\
    wrote_len y = len src /\ stored y = src /\ made t m s.
Proof.
  intros Ht Hm Hsrc Hpos Hcap Hz. destruct (Hm) as [_ _ Hde _ _ _ _]. unfold ina_compression_decompress_chunk.
  rewrite (proj2 (Z.leb_gt cap 0)) by lia. rewrite Hde.
  assert (ina_compression_decompress_lz4_safe s z cap = Some (s, Outcome (Ok tt) (len src) 0 src)) as Hsafe.
  { unfold ina_compression_decompress_lz4_safe. rewrite (lz4_safe_of_block _ src) by (done || lia). by rewrite (proj2 (Z.leb_gt _ 0)) by lia. }
  assert (ina_compression_decompress_lz4_fast s z cap = Some (s, Outcome (Ok tt) (len src) (len z) src)) as Hfast.
  { unfold ina_compression_decompress_lz4_fast. rewrite Hsrc, (proj2 (Z.leb_gt _ 0)), (proj2 (Z.ltb_ge cap _)) by lia.
    pose proof (lz4_fast_of_block z src [] Hz Hpos) as Hf. rewrite app_nil_r in Hf. rewrite Hf. by rewrite (proj2 (Z.ltb_ge _ 0)) by apply len_nonneg. }
  destruct Ht as [-> | ->], m; rewrite ?Hsafe, ?Hfast; by eexists.
Qed.

(** Chunks.  A chunk of one byte or more that is compressed at once with
    the room that [ina_compression_get_destination_len] asks for fits into it
    and is decompressed to itself, with every type but DEFLATE_RAW and in both
    modes; the state is as before. *)
Theorem chunk_round_trip (t : compression_type) (m : compression_mode) (s : state) (src : text) (dst_len cap : Z) :
  t <> INA_COMPRESSION_TYPE_DEFLATE_RAW -> made t m s -> src <> [] -> bytes src -> len src <= 2 ^ 30 ->
  let '(s0, n) := ina_compression_get_destination_len s (len src) in
  n <= dst_len < 2 ^ 31 -> len src < cap < 2 ^ 31 ->
  exists (s1 s2 : state) (x y : outcome),
    ina_compression_compress_chunk true s0 src dst_len 0 0 false = Some (s1, x) /\ fine x /\ wrote_len x = len (stored x) /\ len (stored x) <= dst_len /\
    ina_compression_decompress_chunk true s1 (stored x) cap 0 0 false = Some (s2, y) /\ fine y /\ wrote_len y = len src /\ stored y = src /\ made t m s2.
Proof.
  intros Ht Hm Hne Hb Hlen. destruct (ina_compression_get_destination_len s (len src)) as [s0 n] eqn:Hd. intros Hdst Hcap.
  assert (made t m s0) as Hm0 by (injection Hd as <- _; by apply made_set_dst_len, made_set_src_len).
  assert ((ina_compression_get_destination_len s0 (len src)).2 = n) as Hd0 by (by injection Hd as <- <-).
  destruct (compress_once t m s0 src dst_len Hm0 Hb Hlen ltac:(lia)) as (s1 & x & Hx & Hfx & Hw & Hle & Hof & Hm1 & Hsrc).
  assert (0 < len src) as Hpos by (destruct src; [done|]; unfold len; cbn; lia).
  destruct (Hm1) as [_ _ Hde _ Hfl Hsd Hi].
  assert (exists (s2 : state) (y : outcome), ina_compression_decompress_chunk true s1 (stored x) cap 0 0 false = Some (s2, y) /\ fine y /\
    wrote_len y = len src /\ stored y = src /\ made t m s2) as (s2 & y & Hy); [|exists s1, s2, x, y; tauto].
  destruct t; [|done|..]; cbn [chunk_of] in Hof.
  - destruct (decompress_run [(stored x, cap)] s1 (stored x) src [] [] (idle_decompresses s1 _ _ Hde Hfl (conj Hsd Hi) Hof)) as (s2 & os & Hrun & Hex & Hc & Hk & [Hsd2 Hi2]);
      [done|by cbn; rewrite app_nil_r|lia|apply Forall_singleton; split; [by eapply zlib_stream_some|done]|].
    unfold decompress_pieces in Hrun. cbn [pieces] in Hrun. rewrite bool_decide_eq_true_2 in Hrun by done. cbn [negb] in Hrun.
    destruct (ina_compression_decompress_chunk _ _ _ _ _ _ _) as [[s3 y]|]; [|done]. cbn in Hrun. injection Hrun as <- <-.
    apply Forall2_cons in Hex as [(Hy & Hwy & _) _]. cbn in Hc. rewrite app_nil_r in Hc.
    exists s3, y. split; [done|]. split; [done|]. rewrite Hwy, Hc. do 2 (split; [done|]). by eapply made_kept.
  - destruct (lz4_back INA_COMPRESSION_TYPE_LZ4 m s1 src (stored x) cap) as (y & Hy); eauto with lia.
  - destruct (lz4_back INA_COMPRESSION_TYPE_LZ4HC m s1 src (stored x) cap) as (y & Hy); eauto with lia.
Qed.

(** What does not work: DEFLATE_RAW gives a stream with header; an empty
    chunk is compressed by LZ4 but not decompressed in the safe mode; the fast mode
    needs a state that has seen the length of the chunk; and LZ4 never reports what
    it has read. *)
Lemma raw_has_a_header (m : compression_mode) (s s1 : state) (src : text) (dst_len : Z) (x : outcome) : made INA_COMPRESSION_TYPE_DEFLATE_RAW m s ->
  bytes src -> len src <= 2 ^ 30 -> (ina_compression_get_destination_len s (len src)).2 <= dst_len < 2 ^ 31 ->
  ina_compression_compress_chunk true s src dst_len 0 0 false = Some (s1, x) -> zlib_stream (stored x) src.
Proof. intros Hm Hb Hl Hd Hx. destruct (compress_once _ _ _ _ _ Hm Hb Hl Hd) as (s2 & y & Hy & _ & _ & _ & Hz & _). rewrite Hx in Hy. by injection Hy as <- <-. Qed.
Lemma empty_chunk_fails (s : state) (z : text) (cap : Z) : made INA_COMPRESSION_TYPE_LZ4 INA_COMPRESSION_MODE_TRUSTED_SAFE s -> lz4_block z [] -> 0 < cap ->
  ina_compression_decompress_chunk true s z cap 0 0 false = Some (s, Outcome (Err decompression_failed) 0 0 []).
Proof.
  intros Hm Hz Hcap. destruct Hm as [_ _ Hde _ _ _ _]. unfold ina_compression_decompress_chunk. rewrite (proj2 (Z.leb_gt cap 0)) by lia. rewrite Hde.
  unfold ina_compression_decompress_lz4_safe. rewrite (lz4_safe_of_block _ []) by (unfold len; cbn; done || lia). done.
Qed.
Lemma fast_needs_the_length (t : compression_type) (s : state) (z : text) (cap : Z) :
  ina_compression_new true true t INA_COMPRESSION_MODE_TRUSTED_FAST = Ok s -> t = INA_COMPRESSION_TYPE_LZ4 \/ t = INA_COMPRESSION_TYPE_LZ4HC ->
  0 < cap -> ina_compression_decompress_chunk true s z cap 0 0 false = None.
Proof.
  intros Hs Ht Hcap. unfold ina_compression_decompress_chunk. rewrite (proj2 (Z.leb_gt cap 0)) by lia.
  destruct Ht as [-> | ->]; injection Hs as <-; reflexivity.
Qed.
End Deflate.
End Promises.

(** ** Codecs that store *)
Definition store_block (s : text) (cap : Z) : Z * text :=
  if (len s <=? LZ4_MAX_INPUT_SIZE) && (len s + 1 <=? cap) then (len s + 1, 0 :: s) else (0, []).
#[local] Instance stored_blocks : Lz4 := {
  LZ4_compress_fast_extState s cap _ := store_block s cap;
  LZ4_compress_HC_extStateHC s cap _ := store_block s cap;
  LZ4_decompress_safe z cap := match z with _ :: s => if len s <=? cap then (len s, s) else (-1, []) | [] => (-1, []) end;
  LZ4_decompress_fast z n := match z with _ :: s => if n <=? len s then (n + 1, take (Z.to_nat n) s) else (-1, []) | [] => (-1, []) end }.
Definition is_block (z s : text) : Prop := z = 0 :: s.
Lemma store_block_is_block (s : text) (cap n : Z) (z : text) : store_block s cap = (n, z) -> n <> 0 -> n = len z /\ n <= cap /\ is_block z s.
Proof.
  unfold store_block. destruct (_ && _) eqn:Hfit; intros [= <- <-] Hn; [|done]. apply andb_true_iff in Hfit as [_ Hfit%Z.leb_le].
  split; [unfold len; cbn; lia|]. done.
Qed.
Lemma store_block_fits (s : text) (cap : Z) : len s <= LZ4_MAX_INPUT_SIZE -> LZ4_compressBound (len s) <= cap -> (store_block s cap).1 <> 0.
Proof.
  intros Hs Hcap. unfold LZ4_compressBound, LZ4_COMPRESSBOUND in Hcap. pose proof (len_nonneg s) as Hpos. unfold LZ4_MAX_INPUT_SIZE in *.
  rewrite wrap_small in Hcap by (unfold in_width; lia). rewrite (proj2 (Z.ltb_ge _ _) Hs) in Hcap. pose proof (Z.quot_pos (len s) 255).
  unfold store_block, LZ4_MAX_INPUT_SIZE. rewrite (proj2 (Z.leb_le _ _) Hs), (proj2 (Z.leb_le (len s + 1) cap)) by lia. cbn. lia.
Qed.
#[local] Instance stored_blocks_laws : Lz4Laws is_block.
Proof.
  split; [exact store_block_is_block|exact store_block_fits|exact store_block_is_block|exact store_block_fits| |].
  - intros z s cap -> Hcap. cbn. by rewrite (proj2 (Z.leb_le _ _) Hcap).
  - intros z s rest -> Hs. cbn -[len]. rewrite len_app, (proj2 (Z.leb_le _ _)) by (pose proof (len_nonneg rest); lia).
    f_equal; [unfold len; cbn; lia|]. unfold len. by rewrite Nat2Z.id, take_app_length.
Qed.

(** A stream is its content and an end mark. *)
Definition ends (flush : Z) (q : text) : Z := if (flush =? MZ_FINISH) && bool_decide (q = []) then MZ_STREAM_END else MZ_OK.
Definition through (q : text) (cap : Z) : text * text := (drop (Z.to_nat cap) q, take (Z.to_nat cap) q).
#[local] Instance stored_streams : Miniz := {
  deflator := text; inflator := text; mz_deflateInit _ := []; mz_inflateInit2 _ := [];
  mz_deflate d src cap flush :=
    let '(d, out) := through (d ++ src ++ (if flush =? MZ_FINISH then [-1] else [])) cap in (d, len src, out, ends flush d);
  mz_inflate f src cap flush :=
    let '(f, out) := through (f ++ List.filter (Z.leb 0) src) cap in (f, len src, out, ends flush f) }.
Definition is_stream (z s : text) : Prop := z = s ++ [-1] /\ bytes s.
Definition has_deflated (d i o : text) : Prop := d = [] /\ o = i /\ bytes i.
Definition has_inflated (f z s i o : text) : Prop := f = [] /\ is_stream z s /\ i = o /\ exists r : text, s = o ++ r.
Lemma through_all (q : text) (cap : Z) : len (take (Z.to_nat cap) q) < cap -> through q cap = ([], q).
Proof. intros H. unfold through, len in *. rewrite length_take in H. by rewrite drop_ge, take_ge by lia. Qed.
Lemma through_room (q : text) (cap : Z) : len q <= cap -> through q cap = ([], q).
Proof. intros H. unfold through, len in *. by rewrite drop_ge, take_ge by lia. Qed.
Lemma filter_bytes (s : text) : bytes s -> List.filter (Z.leb 0) s = s.
Proof. induction 1 as [|c s [Hc _] _ IH]; [done|]. cbn. by rewrite (proj2 (Z.leb_le 0 c)), IH by lia. Qed.
Lemma mark_split (s a b : text) : s ++ [-1] = a ++ b -> b <> [] -> exists r : text, s = a ++ r /\ b = r ++ [-1].
Proof.
  intros H Hb. destruct (exists_last Hb) as (r & c & ->). rewrite app_assoc in H. apply app_inj_tail in H as [-> <-]. by exists r.
Qed.
#[local] Instance stored_streams_laws : MinizLaws is_stream has_deflated has_inflated.
Proof.
  split.
  - done.
  - intros d d' i o src out cap n st (-> & -> & Hi) Hb. cbn -[len]. rewrite app_nil_r. intros Hz Hroom.
    assert (out = take (Z.to_nat cap) src) as Ho by (by injection Hz). rewrite Ho in Hroom. pose proof (through_all _ _ Hroom) as Ht.
    injection Ht as Hd1 Hd2. rewrite Hd1, Hd2 in Hz. injection Hz as <- <- <- <-. split; [done|]. split; [done|]. split; [done|]. split; [done|]. by apply Forall_app.
  - intros d d' i o src out cap n st (-> & -> & Hi) Hb. cbn -[len]. intros Hz Hroom.
    assert (out = take (Z.to_nat cap) (src ++ [-1])) as Ho by (by injection Hz). rewrite Ho in Hroom. pose proof (through_all _ _ Hroom) as Ht.
    injection Ht as Hd1 Hd2. rewrite Hd1, Hd2 in Hz. injection Hz as <- <- <- <-. split; [done|]. split; [done|]. split; [by rewrite app_assoc|]. by apply Forall_app.
  - intros level d' src out cap n st Hb Hlen Hcap. cbn -[len through].
    assert (len (src ++ [-1]) <= cap) as Hfit.
    { rewrite len_app. unfold mz_compressBound, mz_deflateBound in Hcap. pose proof (len_nonneg src). unfold len at 2. cbn [length].
      rewrite !(wrap_small 64 (len src)), (wrap_small 64 (len src * 110)) in Hcap by (unfold in_width; lia).
      pose proof (Z.div_le_mono (len src * 100) (len src * 110) 100 ltac:(lia) ltac:(lia)) as Hd. rewrite Z.div_mul in Hd by lia.
      pose proof (Z.div_le_upper_bound (len src * 110) 100 (len src * 2) ltac:(lia) ltac:(lia)) as Hu.
      rewrite (wrap_small 64 (128 + len src * 110 / 100)) in Hcap by (unfold in_width; lia). lia. }
    rewrite (through_room _ _ Hfit). intros [= <- <- <- <-]. done.
  - intros z s [-> _]. by destruct s.
  - intros z s Hz. split; [done|]. split; [done|]. split; [done|]. by exists s.
  - intros f f' z s i o src rest out cap n st (-> & [-> Hs] & -> & r & ->) Hz Hsrc Hrest. cbn -[len through].
    rewrite <- !app_assoc in Hz. apply app_inv_head in Hz. destruct (mark_split _ _ _ Hz Hrest) as (r' & -> & ->).
    pose proof Hs as [_ [Hb _]%Forall_app]%Forall_app. rewrite (filter_bytes _ Hb), !len_app. intros Hrun Hroom.
    pose proof (len_nonneg r'). rewrite through_room in Hrun by lia. injection Hrun as <- <- <- <-. split; [done|]. split; [done|]. split; [lia|].
    split; [done|]. split; [done|]. split; [done|]. exists r'. by rewrite app_assoc.
  - intros f f' z s i o src out cap n st (-> & [-> Hs] & -> & r & ->) Hz Hsrc. cbn -[len through].
    rewrite <- !app_assoc in Hz. apply app_inv_head in Hz. subst src. pose proof Hs as [_ Hb]%Forall_app.
    rewrite List.filter_app, (filter_bytes _ Hb). cbn -[len through]. rewrite app_nil_r. intros Hrun Hroom.
    rewrite len_app in Hroom. rewrite (through_room r cap) in Hrun by lia. by injection Hrun as <- <- <- <-.
  - intros f z s i o (_ & _ & _ & Hr). done.
Qed.

Definition fresh (t : compression_type) (m : compression_mode) : state := State t
  (match t with INA_COMPRESSION_TYPE_LZ4 => compress_lz4 | INA_COMPRESSION_TYPE_LZ4HC => compress_lz4hc | _ => compress_miniz end)
  (match t with INA_COMPRESSION_TYPE_DEFLATE | INA_COMPRESSION_TYPE_DEFLATE_RAW => decompress_miniz | _ =>
     match m with INA_COMPRESSION_MODE_TRUSTED_FAST => decompress_lz4_fast | INA_COMPRESSION_MODE_TRUSTED_SAFE => decompress_lz4_safe end end)
  (match t with INA_COMPRESSION_TYPE_DEFLATE | INA_COMPRESSION_TYPE_DEFLATE_RAW => bounds_miniz | _ => bounds_lz4 end)
  false 0 0 (Some Scratch) (match t with INA_COMPRESSION_TYPE_DEFLATE => 15 | INA_COMPRESSION_TYPE_DEFLATE_RAW => -15 | _ => 0 end) false false.
Lemma fresh_is_new (t : compression_type) (m : compression_mode) : ina_compression_new true true t m = Ok (fresh t m).
Proof. by destruct t, m. Qed.
Lemma fresh_made (t : compression_type) (m : compression_mode) : made t m (fresh t m).
Proof. apply (new_is_made t m false). apply fresh_is_new. Qed.

Definition greeting : list (text * Z) := [([72; 101], 10); ([108; 108; 111], 10)].
Lemma greeting_compressed : option_map (fun r : state * list outcome => stored <$> r.2) (compress_pieces (fresh INA_COMPRESSION_TYPE_DEFLATE INA_COMPRESSION_MODE_TRUSTED_SAFE) greeting) =
  Some [[72; 101]; [108; 108; 111; -1]].
Proof. vm_compute. reflexivity. Qed.
Lemma greeting_bytes : bytes [72; 101; 108; 108; 111].
Proof. repeat (apply Forall_cons; split; [unfold in_width; lia|]). apply Forall_nil_2. Qed.
Lemma deflate_round_trip_witness :
  let cut := [([72], 9); ([101; 108; 108; 111; -1], 9)] in
  exists (s1 s2 : state) (os back : list outcome),
    compress_pieces (fresh INA_COMPRESSION_TYPE_DEFLATE INA_COMPRESSION_MODE_TRUSTED_SAFE) greeting = Some (s1, os) /\
    decompress_pieces s1 cut = Some (s2, back) /\ concat (stored <$> back) = [72; 101; 108; 108; 111].
Proof.
  destruct (deflate_round_trip INA_COMPRESSION_MODE_TRUSTED_SAFE _ greeting (fresh_made _ _)) as (s1 & os & Hrun & H); [done| |unfold len; cbn; lia|].
  { repeat (apply Forall_cons; split; [split; [repeat (apply Forall_cons; split; [unfold in_width; lia|]); apply Forall_nil_2|cbn; lia]|]). apply Forall_nil_2. }
  pose proof greeting_compressed as Ho. rewrite Hrun in Ho. cbn [option_map snd] in Ho. injection Ho as Ho.
  assert (exists a b : outcome, os = [a; b] /\ stored a = [72; 101] /\ stored b = [108; 108; 111; -1]) as (a & b & -> & Ha & Hb).
  { destruct os as [|a [|b [|]]]; try done. injection Ho as Ha Hb. by exists a, b. }
  destruct H as (_ & _ & _ & _ & H); [unfold fits; repeat (apply Forall2_cons; split; [rewrite ?Ha, ?Hb; unfold len; cbn; lia|]); apply Forall2_nil_2|
    rewrite Ho; unfold len; cbn; lia|].
  destruct (H [([72], 9); ([101; 108; 108; 111; -1], 9)]) as (s2 & back & Hback & _ & Hc & _); [done|by rewrite Ho| |].
  { unfold len. repeat (apply Forall_cons; split; [split; [done|cbn; lia]|]). apply Forall_nil_2. }
  exists s1, s2, [a; b], back. split; [exact Hrun|]. split; [exact Hback|]. exact Hc.
Defined.
Lemma chunk_round_trip_witness : exists (s1 s2 : state) (x y : outcome),
  ina_compression_compress_chunk true (set_dst_len 21 (set_src_len 5 (fresh INA_COMPRESSION_TYPE_LZ4HC INA_COMPRESSION_MODE_TRUSTED_FAST))) [72; 101; 108; 108; 111] 21 0 0 false = Some (s1, x) /\
  ina_compression_decompress_chunk true s1 (stored x) 6 0 0 false = Some (s2, y) /\ stored y = [72; 101; 108; 108; 111].
Proof.
  destruct (chunk_round_trip INA_COMPRESSION_TYPE_LZ4HC INA_COMPRESSION_MODE_TRUSTED_FAST _ [72; 101; 108; 108; 111] 21 6 ltac:(done) (fresh_made _ _) ltac:(done) greeting_bytes
    ltac:(unfold len; cbn; lia)) as (s1 & s2 & x & y & H1 & _ & _ & _ & H2 & _ & _ & H3 & _).
  - split; [by vm_compute|done].
  - unfold len. cbn. lia.
  - exists s1, s2, x, y. exact (conj H1 (conj H2 H3)).
Defined.

(** A piece that is the last although its destination is too small is reported as
    a success, and what is left of the stream is lost with it. *)
Lemma last_piece_is_cut : exists s1 : state,
  ina_compression_compress_chunk true (fresh INA_COMPRESSION_TYPE_DEFLATE INA_COMPRESSION_MODE_TRUSTED_SAFE) [72; 101; 108; 108; 111] 3 0 0 false =
    Some (s1, Outcome (Ok tt) 3 5 [72; 101; 108]) /\ idle s1.
Proof. eexists. split; [vm_compute; reflexivity|]. by split. Qed.

End Compression.
