(* ===== verification/Net.v ===== *)
(** * Sockets (net.c, net.h)

    Connections over the calls of POSIX, the class [Sockets]; [SocketLaws] is what it
    documents of descriptors and of what is sent.  An error is its message; the
    errno that is packed with it is left out. *)
From Stdlib Require Import ZArith Lia Bool String.
From stdpp Require Import base numbers option fin_maps gmap list.
From S2P Require Import Prelude Error Libc.

Module Net.
Import Error Libc.

(** ** The operating system *)
Definition AF_INET : Z := 2.
Definition O_NONBLOCK : Z := 2048.
Definition UINT16_MAX : Z := 65535.
Definition INADDR_ANY : Z := 0.
Definition __INA_SOCKET_TYPE_TCP : Z := 1.
Definition __INA_SOCKET_TYPE_UDP : Z := 2.
Definition __INA_CONNECT_NONE : Z := 0.
Definition __INA_CONNECT_NONBLOCK : Z := 1.

(** [struct sockaddr_in]: an address and a port. *)
Record sockaddr_in := SockAddr { sin_addr : Z; sin_port : Z }.
Record timeval := Timeval { tv_sec : Z; tv_usec : Z }.
Inductive sockopt :=
  | SO_REUSEADDR
  | SO_RCVTIMEO (t : timeval)
  | SO_SNDTIMEO (t : timeval)
  | IP_ADD_MEMBERSHIP (multiaddr interface : Z)
  | IP_DROP_MEMBERSHIP (multiaddr interface : Z).
(** [errno] as far as the code looks at it. *)
Inductive errno := EAGAIN | EWOULDBLOCK | EINPROGRESS | EINTR | E_other.
Record hostent := Hostent { h_addrtype : Z; h_addr_list : list Z }.
(** An interface: its name and its address, with the family; NULL for some. *)
Record ifaddrs := Ifaddrs { ifa_name : text; ifa_addr : option (Z * Z) }.

(** Descriptors that are open: the kind, the flags, where it is bound, whether it
    listens, its peer, and the datagrams or pieces sent. *)
Record sock := Sock { s_type : Z; s_flags : Z; s_bound : option sockaddr_in; s_listens : bool; s_peer : option sockaddr_in; s_sent : list text }.
Definition new_sock (type : Z) : sock := Sock type 0 None false None [].

(** Failures are [None]; a call that fails sets [errno]. *)
Class Sockets (W : Type) := {
  the_errno : W -> errno;
  socket : Z -> Z -> W -> W * option Z;
  setsockopt : Z -> sockopt -> W -> W * bool;
  bind : Z -> sockaddr_in -> W -> W * bool;
  listen : Z -> Z -> W -> W * bool;
  connect : Z -> sockaddr_in -> W -> W * bool;
  accept : Z -> W -> W * option (Z * sockaddr_in);
  close : Z -> W -> W;
  getfl : Z -> W -> option Z;
  setfl : Z -> Z -> W -> W * bool;
  select_writable : Z -> timeval -> W -> W * Z;
  so_error : Z -> W -> Z;
  read : Z -> Z -> W -> W * option text;
  send : Z -> text -> W -> W * option Z;
  sendto : Z -> sockaddr_in -> text -> W -> W * option Z;
  readv : Z -> list Z -> W -> W * option (list text);
  writev : Z -> list text -> W -> W * option Z;
  sendmsg : Z -> list text -> Z -> W -> W * option Z;
  gethostbyname : text -> W -> option hostent;
  gethostname : W -> option text;
  inet_aton : text -> option Z;
  inet_addr : text -> Z;
  inet_ntoa : Z -> text;
  getifaddrs : W -> option (list ifaddrs);
  hardware_address : text -> W -> option text;
  poll : list (Z * Z) -> Z -> W -> W * Z
}.

Definition set_sock (fd : Z) (f : sock -> sock) (m : gmap Z sock) : gmap Z sock := alter f fd m.
Definition with_flags (v : Z) (s : sock) : sock := Sock (s_type s) v (s_bound s) (s_listens s) (s_peer s) (s_sent s).
Definition with_bound (a : sockaddr_in) (s : sock) : sock := Sock (s_type s) (s_flags s) (Some a) (s_listens s) (s_peer s) (s_sent s).
Definition with_listens (s : sock) : sock := Sock (s_type s) (s_flags s) (s_bound s) true (s_peer s) (s_sent s).
Definition with_peer (a : sockaddr_in) (s : sock) : sock := Sock (s_type s) (s_flags s) (s_bound s) (s_listens s) (Some a) (s_sent s).
Definition with_sent (t : text) (s : sock) : sock := Sock (s_type s) (s_flags s) (s_bound s) (s_listens s) (s_peer s) (s_sent s ++ [t]).

Definition again (e : errno) : bool := match e with EAGAIN | EWOULDBLOCK | EINPROGRESS => true | _ => false end.
Definition good_time (t : timeval) : bool := (0 <=? tv_usec t) && (tv_usec t <? 1000000).

Class SocketLaws (W : Type) `{!Sockets W} := {
  fds : W -> gmap Z sock;
  (** how often [accept] is still interrupted before it gives a result *)
  interruptions : W -> nat;
  socket_fds (w w' : W) (domain type : Z) (r : option Z) : socket domain type w = (w', r) ->
    match r with Some fd => 0 <= fd /\ fds w !! fd = None /\ fds w' = <[fd := new_sock type]> (fds w) | None => fds w' = fds w end;
  setsockopt_fds (w : W) (fd : Z) (o : sockopt) : fds (setsockopt fd o w).1 = fds w;
  setsockopt_time (w : W) (fd : Z) (t : timeval) : good_time t = false -> (setsockopt fd (SO_RCVTIMEO t) w).2 = false /\ (setsockopt fd (SO_SNDTIMEO t) w).2 = false;
  bind_fds (w w' : W) (fd : Z) (a : sockaddr_in) (r : bool) : bind fd a w = (w', r) -> fds w' = if r then set_sock fd (with_bound a) (fds w) else fds w;
  listen_fds (w w' : W) (fd n : Z) (r : bool) : listen fd n w = (w', r) -> fds w' = if r then set_sock fd with_listens (fds w) else fds w;
  connect_fds (w w' : W) (fd : Z) (a : sockaddr_in) (r : bool) : connect fd a w = (w', r) ->
    fds w' = if r || again (the_errno w') then set_sock fd (with_peer a) (fds w) else fds w;
  accept_fds (w w' : W) (fd : Z) (r : option (Z * sockaddr_in)) : accept fd w = (w', r) ->
    match r with
    | Some (new, a) => 0 <= new /\ fds w !! new = None /\ fds w' = <[new := with_peer a (new_sock __INA_SOCKET_TYPE_TCP)]> (fds w)
    | None => fds w' = fds w /\ (the_errno w' = EINTR -> (interruptions w' < interruptions w)%nat)
    end;
  close_fds (w : W) (fd : Z) : fds (close fd w) = delete fd (fds w);
  getfl_fds (w : W) (fd v : Z) (s : sock) : getfl fd w = Some v -> fds w !! fd = Some s -> v = s_flags s;
  setfl_fds (w w' : W) (fd v : Z) (r : bool) : setfl fd v w = (w', r) -> fds w' = if r then set_sock fd (with_flags v) (fds w) else fds w;
  select_fds (w : W) (fd : Z) (t : timeval) : fds (select_writable fd t w).1 = fds w;
  send_fds (w w' : W) (fd : Z) (buf : text) (r : option Z) : send fd buf w = (w', r) -> buf <> [] ->
    match r with Some n => 0 < n <= Z.of_nat (length buf) /\ fds w' = set_sock fd (with_sent (take (Z.to_nat n) buf)) (fds w) | None => fds w' = fds w end;
  sendto_fds (w w' : W) (fd : Z) (a : sockaddr_in) (buf : text) (r : option Z) : sendto fd a buf w = (w', r) ->
    match r with Some n => n = Z.of_nat (length buf) /\ fds w' = set_sock fd (with_sent buf) (fds w) | None => fds w' = fds w end
}.

(** ** Sockets *)
Definition socket_not_created : Z := Z.lor (INA_ES S_SOCKET) (INA_ERR_NOT_ E_CREATED).
Definition socket_not_connected : Z := Z.lor (INA_ES S_SOCKET) (INA_ERR_NOT_ E_CONNECTED).
Definition socket_timed_out : Z := Z.lor (INA_ES S_SOCKET) (INA_ERR E_TIMED_OUT).
Definition host_not_resolved : Z := Z.lor (INA_ES S_HOST) (INA_ERR_NOT_ E_RESOLVED).
Definition address_invalid : Z := Z.lor (INA_ES S_ADDRESS) INA_ERR_INVALID.
Definition read_failed : Z := Z.lor (INA_ES S_READ) (INA_ERR E_FAILED).
Definition write_failed : Z := Z.lor (INA_ES S_WRITE) (INA_ERR E_FAILED).
Definition mac_not_detected : Z := Z.lor (INA_ES S_MAC) (INA_ERR_NOT_ E_DETECTED).
Definition io_failed : Z := Z.lor (INA_ES S_IO) (INA_ERR E_FAILED).

Section Net.
Context {W : Type} `{!Sockets W}.

(** A call of the library: the system behind it and the result. *)
Definition call (A : Type) : Type := W -> W * result A.
Definition __ina_eagain (w : W) : bool := again (the_errno w).
Definition ina_net_close (fd : Z) : call unit := fun w => if fd <=? 0 then (w, Err INA_ERR_INVALID_ARGUMENT) else (close fd w, Ok tt).

Definition __ina_create_socket (domain type : Z) : call Z := fun w =>
  if negb ((type =? __INA_SOCKET_TYPE_TCP) || (type =? __INA_SOCKET_TYPE_UDP)) then (w, Err INA_ERR_INVALID_ARGUMENT)
  else
    let '(w, r) := socket domain type w in
    match r with
    | None => (w, Err socket_not_created)
    | Some s =>
        let '(w, ok) := setsockopt s SO_REUSEADDR w in
        (w, if ok then Ok s else Err INA_ERR_OPERATION_FAILED)
    end.

(** The two ways to set the flags. *)
Definition set_flags (f : Z -> Z) (fd : Z) : call unit := fun w =>
  if fd <=? 0 then (w, Err INA_ERR_INVALID_ARGUMENT)
  else match getfl fd w with
  | None => (w, Err INA_ERR_OPERATION_FAILED)
  | Some v => let '(w, ok) := setfl fd (f v) w in (w, if ok then Ok tt else Err INA_ERR_OPERATION_FAILED)
  end.
Definition ina_net_nonblock : Z -> call unit := set_flags (fun v => Z.lor v O_NONBLOCK).
Definition ina_net_block : Z -> call unit := set_flags (fun v => Z.ldiff v O_NONBLOCK).

(** The address of a host; a host that is found has one. *)
Definition resolve (addr : text) (w : W) : option Z :=
  match inet_aton addr with
  | Some a => Some a
  | None => match gethostbyname addr w with Some he => head (h_addr_list he) | None => None end
  end.
Definition __ina_tcp_generic_connect (addr : text) (port flags : Z) : call Z := fun w =>
  match __ina_create_socket AF_INET __INA_SOCKET_TYPE_TCP w with
  | (w, Err e) => (w, Err e)
  | (w, Ok s) =>
      match resolve addr w with
      | None => (fst (ina_net_close s w), Err host_not_resolved)
      | Some a =>
          match (if Z.land flags __INA_CONNECT_NONBLOCK =? 0 then (w, Ok tt) else ina_net_nonblock s w) with
          | (w, Err e) => (w, Err e)
          | (w, Ok _) =>
              let '(w, ok) := connect s (SockAddr a port) w in
              if ok then (w, Ok s)
              else if __ina_eagain w && negb (Z.land flags __INA_CONNECT_NONBLOCK =? 0) then (w, Ok s)
              else (fst (ina_net_close s w), Err socket_not_connected)
          end
      end
  end.
Definition ina_net_tcp_connect (addr : text) (port timeout_sec : Z) : call Z := fun w =>
  if negb ((0 <? port) && (port <? UINT16_MAX)) then (w, Err INA_ERR_INVALID_ARGUMENT)
  else if 0 <? timeout_sec then
    match __ina_tcp_generic_connect addr port __INA_CONNECT_NONBLOCK w with
    | (w, Err e) => (w, Err e)
    | (w, Ok fd) =>
        let '(w, ready) := select_writable fd (Timeval timeout_sec 0) w in
        if 0 <? ready then
          if negb (so_error fd w =? 0) then (fst (ina_net_close fd w), Err socket_not_connected)
          else match ina_net_block fd w with (w, Ok _) => (w, Ok fd) | (w, Err e) => (w, Err e) end
        else (fst (ina_net_close fd w), Err socket_timed_out)
    end
  else __ina_tcp_generic_connect addr port __INA_CONNECT_NONE w.

Definition __ina_listen (s : Z) (a : sockaddr_in) : call unit := fun w =>
  let '(w, ok) := bind s a w in
  if negb ok then (fst (ina_net_close s w), Err INA_ERR_OPERATION_FAILED)
  else
    let '(w, ok) := listen s 511 w in
    if negb ok then (fst (ina_net_close s w), Err INA_ERR_OPERATION_FAILED) else (w, Ok tt).
Definition ina_net_tcp_server (port : Z) (bind_addr : text) : call Z := fun w =>
  if negb ((0 <? port) && (port <? UINT16_MAX)) then (w, Err INA_ERR_INVALID_ARGUMENT)
  else match __ina_create_socket AF_INET __INA_SOCKET_TYPE_TCP w with
  | (w, Err e) => (w, Err e)
  | (w, Ok fd) =>
      match inet_aton bind_addr with
      | None => (fst (ina_net_close fd w), Err address_invalid)
      | Some a =>
          match __ina_listen fd (SockAddr a port) w with
          | (w, Err e) => (fst (ina_net_close fd w), Err e)
          | (w, Ok _) => (w, Ok fd)
          end
      end
  end.

(** The loop goes on while the call is interrupted. *)
Fixpoint __ina_generic_accept (fuel : nat) (s : Z) (w : W) : option (W * result (Z * sockaddr_in)) :=
  match fuel with
  | O => None
  | S fuel =>
      let '(w, r) := accept s w in
      match r with
      | Some x => Some (w, Ok x)
      | None => match the_errno w with EINTR => __ina_generic_accept fuel s w | _ => Some (w, Err INA_ERR_OPERATION_FAILED) end
      end
  end.
(** The descriptor, the address as text and the port. *)
Definition ina_net_tcp_accept (fuel : nat) (sfd : Z) (w : W) : option (W * result (Z * text * Z)) :=
  if sfd <=? 0 then Some (w, Err INA_ERR_INVALID_ARGUMENT)
  else
    '(w, r) ← __ina_generic_accept fuel sfd w;
    Some (w, match r with Ok (fd, a) => Ok (fd, inet_ntoa (sin_addr a), sin_port a) | Err e => Err e end).

(** The address that the caller gives is only asked not to be NULL. *)
Definition ina_net_udp_bind (addr : text) (port : Z) : call Z := fun w =>
  if negb ((0 <? port) && (port <? UINT16_MAX)) then (w, Err INA_ERR_INVALID_ARGUMENT)
  else match __ina_create_socket AF_INET __INA_SOCKET_TYPE_UDP w with
  | (w, Err e) => (w, Err e)
  | (w, Ok fd) =>
      let '(w, ok) := bind fd (SockAddr INADDR_ANY port) w in
      if ok then (w, Ok fd) else (fst (ina_net_close fd w), Err INA_ERR_OPERATION_FAILED)
  end.
(** [old] is what the caller has in [fd]. *)
Definition ina_net_udp_socket (old : Z) : call Z := fun w =>
  if old <=? 0 then (w, Err INA_ERR_INVALID_ARGUMENT) else __ina_create_socket AF_INET __INA_SOCKET_TYPE_UDP w.

(** ** Reading and writing *)

(** The number stored and the bytes; -1 without an error if there are none yet. *)
Definition ina_net_read (fd nb : Z) : call (Z * text) := fun w =>
  if (fd <=? 0) || (nb <=? 0) then (w, Err INA_ERR_INVALID_ARGUMENT)
  else
    let '(w, r) := read fd nb w in
    (w, match r with
        | Some bs => Ok (Z.of_nat (length bs), bs)
        | None => if __ina_eagain w then Ok (-1, []) else Err read_failed
        end).
(** The loops that send; what they leave in [nb_write] if it was [old]. *)
Section Sending.
Variable one : text -> W -> W * option Z.
Fixpoint send_loop (fuel : nat) (buf : text) (nb totlen old : Z) (w : W) : option (W * Z * Z) :=
  if totlen =? nb then Some (w, totlen, old)
  else match fuel with
  | O => None
  | S fuel =>
      let '(w, r) := one (take (Z.to_nat (nb - totlen)) buf) w in
      match r with
      | None => Some (w, totlen, -1)
      | Some n => if n =? 0 then Some (w, totlen, totlen) else send_loop fuel (drop (Z.to_nat n) buf) nb (totlen + n) old w
      end
  end.
End Sending.
Definition ina_net_write (fuel : nat) (fd : Z) (buf : text) (nb old : Z) (w : W) : option (W * Z * result unit) :=
  if (fd <=? 0) || (nb <=? 0) then Some (w, old, Err INA_ERR_INVALID_ARGUMENT)
  else
    '(w, totlen, nb_write) ← send_loop (send fd) fuel buf nb 0 old w;
    Some (if nb_write =? -1 then (w, nb_write, Err write_failed) else (w, totlen, Ok tt)).
(** [struct ina_net_udp_receiver_s] *)
Record udp_receiver := Receiver { ip : text; port : Z; addr : sockaddr_in }.
Definition ina_net_udp_receiver_new (got : bool) (address : text) (port : Z) : result udp_receiver :=
  if negb ((0 <? port) && (port <? UINT16_MAX)) then Err INA_ERR_INVALID_ARGUMENT
  else if negb got then Err INA_ERR_OUT_OF_MEMORY
  else match inet_aton address with
  | None => Err address_invalid
  | Some a => Ok (Receiver address port (SockAddr a port))
  end.
Definition ina_net_udp_send (fuel : nat) (fd : Z) (r : udp_receiver) (buf : text) (nb old : Z) (w : W) : option (W * Z * result unit) :=
  if (fd <=? 0) || (nb <=? 0) then Some (w, old, Err INA_ERR_INVALID_ARGUMENT)
  else
    '(w, totlen, nb_write) ← send_loop (sendto fd (addr r)) fuel buf nb 0 old w;
    Some (if nb_write =? -1 then (w, nb_write, Err write_failed) else (w, nb_write, Ok tt)).

Definition ina_net_readv (fd : Z) (lens : list Z) : call (Z * list text) := fun w =>
  if (fd <=? 0) || (length lens =? 0)%nat then (w, Err INA_ERR_INVALID_ARGUMENT)
  else
    let '(w, r) := readv fd lens w in
    (w, match r with
        | Some bs => Ok (Z.of_nat (length (concat bs)), bs)
        | None => if __ina_eagain w then Ok (-1, []) else Err read_failed
        end).
Definition wrote (r : W * option Z) : W * result Z :=
  (fst r, match snd r with Some n => Ok n | None => if __ina_eagain (fst r) then Ok (-1) else Err write_failed end).
Definition ina_net_writev (fd : Z) (iov : list text) : call Z := fun w =>
  if (fd <=? 0) || (length iov =? 0)%nat then (w, Err INA_ERR_INVALID_ARGUMENT) else wrote (writev fd iov w).
Definition ina_net_sendmsg (fd : Z) (msg : list text) (flags : Z) : call Z := fun w =>
  if fd <=? 0 then (w, Err INA_ERR_INVALID_ARGUMENT) else wrote (sendmsg fd msg flags w).

(** ** Settings and queries *)
Definition set_option (fd : Z) (o : sockopt) : call unit := fun w =>
  let '(w, ok) := setsockopt fd o w in (w, if ok then Ok tt else Err INA_ERR_OPERATION_FAILED).
Definition ina_net_join_group (fd : Z) (localif source : text) : call unit := fun w =>
  if fd <=? 0 then (w, Err INA_ERR_INVALID_ARGUMENT) else set_option fd (IP_ADD_MEMBERSHIP (inet_addr source) (inet_addr localif)) w.
Definition ina_net_leave_group (fd : Z) (localif source : text) : call unit := fun w =>
  if fd <=? 0 then (w, Err INA_ERR_INVALID_ARGUMENT) else set_option fd (IP_DROP_MEMBERSHIP (inet_addr source) (inet_addr localif)) w.
(** [None] where [msec * 1000] is not an [int]. *)
Definition ina_net_set_read_timeout (fd msec : Z) (w : W) : option (W * result unit) :=
  if (fd <=? 0) || (msec <=? 0) then Some (w, Err INA_ERR_INVALID_ARGUMENT)
  else usec ← int_op (msec * 1000); Some (set_option fd (SO_RCVTIMEO (Timeval 0 usec)) w).
Definition ina_net_set_write_timeout (fd msec : Z) (w : W) : option (W * result unit) :=
  if (fd <=? 0) || (msec <=? 0) then Some (w, Err INA_ERR_INVALID_ARGUMENT)
  else usec ← int_op (msec * 1000); Some (set_option fd (SO_SNDTIMEO (Timeval 0 usec)) w).
Definition ina_net_system_lookup (got : bool) (hostname : text) (w : W) : result (list text) :=
  match gethostbyname hostname w with
  | None => Err INA_ERR_OPERATION_FAILED
  | Some h =>
      if negb (h_addrtype h =? AF_INET) then Err INA_ERR_OPERATION_FAILED
      else if (length (h_addr_list h) =? 0)%nat then Err INA_ERR_OPERATION_FAILED
      else if negb got then Err INA_ERR_OUT_OF_MEMORY
      else Ok (map inet_ntoa (h_addr_list h))
  end.
(** [size] is the room of the text at [ip]. *)
Definition ina_net_resolve (host : text) (size : Z) (w : W) : result text :=
  if size <=? 32 then Err INA_ERR_INVALID_ARGUMENT
  else match resolve host w with Some a => Ok (inet_ntoa a) | None => Err host_not_resolved end.
Definition ina_net_hostname (w : W) : result text :=
  match gethostname w with Some h => Ok h | None => Err INA_ERR_OPERATION_FAILED end.

(** The first interface with the address; [None] where one without address comes before it. *)
Fixpoint find_interface (ip : text) (l : list ifaddrs) : option (option text) :=
  match l with
  | [] => Some None
  | i :: l =>
      '(family, a) ← ifa_addr i;
      if (family =? AF_INET) && bool_decide (inet_ntoa a = ip) then Some (Some (ifa_name i)) else find_interface ip l
  end.
Definition ina_net_get_mac_addr (ip : text) (buf_len : Z) (w : W) : option (result text) :=
  if buf_len <? 6 then Some (Err INA_ERR_INVALID_ARGUMENT)
  else match getifaddrs w with
  | None => Some (Err INA_ERR_OPERATION_FAILED)
  | Some l =>
      found ← find_interface ip l;
      Some (match found with
        | None => Err mac_not_detected
        | Some name => match hardware_address name w with Some m => Ok m | None => Err INA_ERR_OPERATION_FAILED end
        end)
  end.
(** What is stored in [num_fds_ready], and the result. *)
Definition ina_net_poll (pollfds : list (Z * Z)) (timeout : Z) (w : W) : W * Z * result unit :=
  let '(w, n) := poll pollfds timeout w in
  if n <? 0 then (w, 0, Err io_failed) else (w, n, Ok tt).
End Net.

(** ** One descriptor or none *)
Section Promises.
Context {W : Type} `{!Sockets W, !SocketLaws W}.

(** Nothing but a new descriptor, or nothing at all. *)
Definition opens (m m' : gmap Z sock) (P : sock -> Prop) (r : result Z) : Prop :=
  match r with Ok fd => 0 < fd /\ m !! fd = None /\ exists s : sock, m' = <[fd := s]> m /\ P s | Err _ => m' = m end.
(** The system did not set an option or the flags of an open socket. *)
Definition refused : Prop := exists (w : W) (fd : Z), is_Some (fds w !! fd) /\
  ((setsockopt fd SO_REUSEADDR w).2 = false \/ getfl fd w = None \/ exists v : Z, (setfl fd v w).2 = false).
(** The call fails and one descriptor stays open. *)
Definition leaks (m m' : gmap Z sock) (r : result Z) : Prop :=
  r = Err INA_ERR_OPERATION_FAILED /\ exists (fd : Z) (s : sock), m !! fd = None /\ m' = <[fd := s]> m.
Definition ends (m m' : gmap Z sock) (P : sock -> Prop) (r : result Z) : Prop := opens m m' P r \/ refused /\ leaks m m' r.

Lemma close_gone (w : W) (fd : Z) (m : gmap Z sock) (s : sock) : 0 < fd -> m !! fd = None -> fds w = <[fd := s]> m ->
  fds (fst (ina_net_close fd w)) = m.
Proof. intros Hfd Hm Hw. unfold ina_net_close. rewrite (proj2 (Z.leb_gt fd 0)) by lia. cbn. by rewrite close_fds, Hw, delete_insert_id. Qed.
Lemma create_opens (w : W) (type : Z) : is_Some (fds w !! 0) -> type = __INA_SOCKET_TYPE_TCP \/ type = __INA_SOCKET_TYPE_UDP ->
  let '(w', r) := __ina_create_socket AF_INET type w in ends (fds w) (fds w') (eq (new_sock type)) r.
Proof.
  intros H0 Ht. unfold __ina_create_socket.
  replace (negb _) with false by (destruct Ht as [-> | ->]; reflexivity).
  destruct (socket AF_INET type w) as [w1 r] eqn:Hs. apply socket_fds in Hs. destruct r as [fd|]; [|by left]. destruct Hs as (Hpos & Hno & Hw1).
  pose proof (setsockopt_fds w1 fd SO_REUSEADDR) as Hw2. destruct (setsockopt fd SO_REUSEADDR w1) as [w2 ok] eqn:Hok.
  cbn in Hw2. assert (fd <> 0) by (intros ->; destruct H0; congruence). rewrite Hw1 in Hw2. destruct ok.
  - left. split; [lia|]. split; [done|]. by eexists.
  - right. split; [|split; [done|by eexists _, _]]. exists w1, fd. split; [by rewrite Hw1, lookup_insert_eq|]. left. by rewrite Hok.
Qed.
Lemma flags_set (w : W) (f : Z -> Z) (fd : Z) (m : gmap Z sock) (s : sock) : 0 < fd -> fds w = <[fd := s]> m ->
  exists (w' : W), set_flags f fd w = (w', Ok tt) /\ fds w' = <[fd := with_flags (f (s_flags s)) s]> m \/
    set_flags f fd w = (w', Err INA_ERR_OPERATION_FAILED) /\ fds w' = <[fd := s]> m /\ refused.
Proof.
  intros Hfd Hw. unfold set_flags. rewrite (proj2 (Z.leb_gt fd 0)) by lia. assert (fds w !! fd = Some s) as Hs by (by rewrite Hw, lookup_insert_eq).
  destruct (getfl fd w) as [v|] eqn:Hv.
  2: { exists w. right. split; [done|]. split; [done|]. exists w, fd. rewrite Hs. by auto. }
  rewrite (getfl_fds w fd v s Hv Hs). destruct (setfl fd _ w) as [w' ok] eqn:Hset. exists w'. pose proof (setfl_fds _ _ _ _ _ Hset) as Hw'. destruct ok.
  - left. split; [done|]. rewrite Hw', Hw. unfold set_sock. by rewrite alter_insert_eq.
  - right. split; [done|]. split; [by rewrite Hw'|]. exists w, fd. rewrite Hs. split; [by eexists|]. right. right. eexists. by rewrite Hset.
Qed.

Definition tcp (flags : Z) (a : sockaddr_in) : sock := Sock __INA_SOCKET_TYPE_TCP flags None false (Some a) [].
(** [a] is the address of the host. *)
Definition address_of (host : text) (a : Z) : Prop := inet_aton host = Some a \/ inet_aton host = None /\ exists (w : W) (h : hostent), gethostbyname host w = Some h /\ head (h_addr_list h) = Some a.
Lemma resolve_address (host : text) (w : W) (a : Z) : resolve host w = Some a -> address_of host a.
Proof.
  unfold resolve, address_of. destruct (inet_aton host) as [b|]; [by intros [= ->]; left|]. destruct (gethostbyname host w) as [h|] eqn:Hh; [|done].
  intros Ha. right. split; [done|]. by exists w, h.
Qed.
Lemma ends_ok (m m' : gmap Z sock) (P : sock -> Prop) (fd : Z) : ends m m' P (Ok fd) -> opens m m' P (Ok fd).
Proof. by intros [H|(_ & E & _)]. Qed.
Lemma ends_err (m m' : gmap Z sock) (P Q : sock -> Prop) (e : Z) : ends m m' P (Err e) -> ends m m' Q (Err e).
Proof. by intros [H|H]; [left|right]. Qed.
Lemma generic_connect_opens (w : W) (host : text) (port flags : Z) : is_Some (fds w !! 0) ->
  flags = __INA_CONNECT_NONE \/ flags = __INA_CONNECT_NONBLOCK ->
  let '(w', r) := __ina_tcp_generic_connect host port flags w in
  ends (fds w) (fds w') (fun s => exists a : Z, address_of host a /\ s = tcp (if flags =? 0 then 0 else O_NONBLOCK) (SockAddr a port)) r.
Proof.
  intros H0 Hf. unfold __ina_tcp_generic_connect. pose proof (create_opens w __INA_SOCKET_TYPE_TCP H0 (or_introl eq_refl)) as Hc.
  destruct (__ina_create_socket _ _ w) as [w1 [fd|e]]; [|by apply (ends_err _ _ _ _ _ Hc)]. apply ends_ok in Hc as (Hpos & Hno & s & Hw1 & <-).
  destruct (resolve host w1) as [a|] eqn:Hr; [|left; by apply (close_gone w1 fd (fds w) (new_sock __INA_SOCKET_TYPE_TCP))]. apply resolve_address in Hr.
  assert (exists w2 : W, (if Z.land flags __INA_CONNECT_NONBLOCK =? 0 then (w1, Ok tt) else ina_net_nonblock fd w1) = (w2, Ok tt) /\
    fds w2 = <[fd := with_flags (if flags =? 0 then 0 else O_NONBLOCK) (new_sock __INA_SOCKET_TYPE_TCP)]> (fds w) \/
    (if Z.land flags __INA_CONNECT_NONBLOCK =? 0 then (w1, Ok tt) else ina_net_nonblock fd w1) = (w2, Err INA_ERR_OPERATION_FAILED) /\
    fds w2 = <[fd := new_sock __INA_SOCKET_TYPE_TCP]> (fds w) /\ refused) as (w2 & [[-> Hw2]|(-> & Hw2 & Href)]).
  { destruct Hf as [-> | ->]; [by exists w1; left|]. exact (flags_set w1 (fun v => Z.lor v O_NONBLOCK) fd (fds w) _ Hpos Hw1). }
  2: { right. split; [done|]. split; [done|]. by eexists _, _. }
  destruct (connect fd (SockAddr a port) w2) as [w3 ok] eqn:Hcon. pose proof (connect_fds _ _ _ _ _ Hcon) as Hw3. unfold __ina_eagain.
  assert (forall b : bool, set_sock fd (with_peer (SockAddr a port)) (fds w2) = <[fd := tcp (if flags =? 0 then 0 else O_NONBLOCK) (SockAddr a port)]> (fds w)) as Hpeer.
  { intros _. rewrite Hw2. unfold set_sock. by rewrite alter_insert_eq. }
  destruct ok; cbn [orb] in Hw3.
  - left. split; [done|]. split; [done|]. eexists. split; [by rewrite Hw3, (Hpeer true)|]. by exists a.
  - destruct (again (the_errno w3)); cbn [andb]; [|left; by apply (close_gone w3 fd (fds w) _ Hpos Hno ltac:(by rewrite Hw3, Hw2))].
    rewrite (Hpeer true) in Hw3. destruct (negb _); left.
    + split; [done|]. split; [done|]. eexists. split; [done|]. by exists a.
    + by eapply close_gone.
Qed.
Lemma connect_opens (w : W) (host : text) (port timeout_sec : Z) : is_Some (fds w !! 0) ->
  let '(w', r) := ina_net_tcp_connect host port timeout_sec w in
  ends (fds w) (fds w') (fun s => exists a : Z, address_of host a /\ s = tcp 0 (SockAddr a port)) r.
Proof.
  intros H0. unfold ina_net_tcp_connect. destruct (negb _); [by left|]. destruct (0 <? timeout_sec).
  2: exact (generic_connect_opens w host port _ H0 (or_introl eq_refl)).
  pose proof (generic_connect_opens w host port _ H0 (or_intror eq_refl)) as Hg.
  destruct (__ina_tcp_generic_connect _ _ _ w) as [w1 [fd|e]]; [|by apply (ends_err _ _ _ _ _ Hg)]. apply ends_ok in Hg as (Hpos & Hno & s & Hw1 & a & Ha & ->). pose proof (select_fds w1 fd (Timeval timeout_sec 0)) as Hw2.
  destruct (select_writable fd _ w1) as [w2 ready]. cbn in Hw2. rewrite Hw1 in Hw2.
  destruct (0 <? ready); [|left; by eapply close_gone]. destruct (negb _); [left; by eapply close_gone|].
  destruct (flags_set w2 (fun v => Z.ldiff v O_NONBLOCK) fd (fds w) _ Hpos Hw2) as (w3 & [[E Hw3]|(E & Hw3 & Href)]); unfold ina_net_block; rewrite E.
  - left. split; [done|]. split; [done|]. eexists. split; [done|]. by exists a.
  - right. split; [done|]. split; [done|]. by eexists _, _.
Qed.

Definition listening (a : sockaddr_in) : sock := Sock __INA_SOCKET_TYPE_TCP 0 (Some a) true None [].
Definition bound (a : sockaddr_in) : sock := Sock __INA_SOCKET_TYPE_UDP 0 (Some a) false None [].
Lemma close_again (w : W) (fd : Z) (m : gmap Z sock) : fds w = m -> m !! fd = None -> fds (fst (ina_net_close fd w)) = m.
Proof. intros Hw Hm. unfold ina_net_close. destruct (fd <=? 0); [done|]. cbn. by rewrite close_fds, Hw, delete_id. Qed.
Lemma server_opens (w : W) (port : Z) (bind_addr : text) : is_Some (fds w !! 0) ->
  let '(w', r) := ina_net_tcp_server port bind_addr w in
  ends (fds w) (fds w') (fun s => exists a : Z, inet_aton bind_addr = Some a /\ s = listening (SockAddr a port)) r.
Proof.
  intros H0. unfold ina_net_tcp_server. destruct (negb _); [by left|].
  pose proof (create_opens w __INA_SOCKET_TYPE_TCP H0 (or_introl eq_refl)) as Hc.
  destruct (__ina_create_socket _ _ w) as [w1 [fd|e]]; [|by apply (ends_err _ _ _ _ _ Hc)]. apply ends_ok in Hc as (Hpos & Hno & s & Hw1 & <-).
  destruct (inet_aton bind_addr) as [a|] eqn:Ha; [|left; by eapply close_gone]. unfold __ina_listen.
  destruct (bind fd (SockAddr a port) w1) as [w2 [|]] eqn:Hb; pose proof (bind_fds _ _ _ _ _ Hb) as Hw2; cbn [negb].
  2: { left. apply close_again; [|done]. rewrite Hw1 in Hw2. by eapply close_gone. }
  rewrite Hw1 in Hw2. unfold set_sock in Hw2. rewrite alter_insert_eq in Hw2.
  destruct (listen fd 511 w2) as [w3 [|]] eqn:Hl; pose proof (listen_fds _ _ _ _ _ Hl) as Hw3; cbn [negb]; left.
  - rewrite Hw2 in Hw3. unfold set_sock in Hw3. rewrite alter_insert_eq in Hw3. split; [done|]. split; [done|]. eexists. split; [done|]. by exists a.
  - apply close_again; [|done]. rewrite Hw2 in Hw3. by eapply close_gone.
Qed.
Lemma udp_bind_opens (w : W) (address : text) (port : Z) : is_Some (fds w !! 0) ->
  let '(w', r) := ina_net_udp_bind address port w in ends (fds w) (fds w') (eq (bound (SockAddr INADDR_ANY port))) r.
Proof.
  intros H0. unfold ina_net_udp_bind. destruct (negb _); [by left|].
  pose proof (create_opens w __INA_SOCKET_TYPE_UDP H0 (or_intror eq_refl)) as Hc.
  destruct (__ina_create_socket _ _ w) as [w1 [fd|e]]; [|by apply (ends_err _ _ _ _ _ Hc)]. apply ends_ok in Hc as (Hpos & Hno & s & Hw1 & <-).
  destruct (bind fd (SockAddr INADDR_ANY port) w1) as [w2 [|]] eqn:Hb; pose proof (bind_fds _ _ _ _ _ Hb) as Hw2; rewrite Hw1 in Hw2; left.
  - unfold set_sock in Hw2. rewrite alter_insert_eq in Hw2. split; [done|]. split; [done|]. by eexists.
  - by eapply close_gone.
Qed.
Lemma accept_opens (fuel : nat) (w : W) (sfd : Z) : is_Some (fds w !! 0) -> (interruptions w < fuel)%nat ->
  exists (w' : W) (r : result (Z * sockaddr_in)), __ina_generic_accept fuel sfd w = Some (w', r) /\
    match r with
    | Ok (fd, a) => opens (fds w) (fds w') (eq (with_peer a (new_sock __INA_SOCKET_TYPE_TCP))) (Ok fd)
    | Err e => fds w' = fds w
    end.
Proof.
  revert w. induction fuel as [|fuel IH]; intros w H0 Hf; [lia|]. cbn [__ina_generic_accept]. destruct (accept sfd w) as [w1 r] eqn:Ha.
  pose proof (accept_fds _ _ _ _ Ha) as Hw1. destruct r as [[fd a]|].
  - destruct Hw1 as (Hpos & Hno & Hw1). exists w1, (Ok (fd, a)). split; [done|]. assert (fd <> 0) by (intros ->; destruct H0; congruence).
    split; [lia|]. split; [done|]. by eexists.
  - destruct Hw1 as [Hw1 Hint]. destruct (the_errno w1); try by (exists w1, (Err INA_ERR_OPERATION_FAILED)).
    specialize (Hint eq_refl). rewrite <- Hw1. apply IH; [by rewrite Hw1|lia].
Qed.

(** C36. Connections.  A process in which descriptor 0 is open calls a function that
    opens a socket.  If it succeeds, there is one new descriptor: a blocking
    connection to the address of the host and the port, a socket that listens at
    the address, one bound to the port at any address, whatever the address
    given, the connection accepted.  If it fails, every descriptor that it opened is
    closed, except where the system does not set an option or the flags of the
    new socket: then that socket may stay open.  Accepting leaves none open, and
    ends as soon as it is no longer interrupted. *)
Theorem connections_or_nothing (w : W) (host address : text) (port timeout_sec sfd : Z) (fuel : nat) : is_Some (fds w !! 0) ->
  (let '(w', r) := ina_net_tcp_connect host port timeout_sec w in
    ends (fds w) (fds w') (fun s => exists a : Z, address_of host a /\ s = tcp 0 (SockAddr a port)) r) /\
  (let '(w', r) := ina_net_tcp_server port host w in
    ends (fds w) (fds w') (fun s => exists a : Z, inet_aton host = Some a /\ s = listening (SockAddr a port)) r) /\
  (let '(w', r) := ina_net_udp_bind address port w in ends (fds w) (fds w') (eq (bound (SockAddr INADDR_ANY port))) r) /\
  ((interruptions w < fuel)%nat -> exists (w' : W) (r : result (Z * text * Z)), ina_net_tcp_accept fuel sfd w = Some (w', r) /\
    match r with
    | Ok (fd, ip, p) => exists a : Z, ip = inet_ntoa a /\ opens (fds w) (fds w') (eq (with_peer (SockAddr a p) (new_sock __INA_SOCKET_TYPE_TCP))) (Ok fd)
    | Err e => fds w' = fds w
    end).
Proof.
  intros H0. split; [by apply connect_opens|]. split; [by apply server_opens|]. split; [by apply udp_bind_opens|]. intros Hf.
  unfold ina_net_tcp_accept. destruct (sfd <=? 0); [by eexists _, _|]. destruct (accept_opens fuel w sfd H0 Hf) as (w1 & r & -> & H). cbn.
  destruct r as [[fd [a p]]|e]; (eexists _, _; split; [done|]); [|done]. by exists a.
Qed.

(** If the option of a new socket cannot be set, it stays open. *)
Lemma socket_leaks (w w' : W) (type : Z) (e : Z) : __ina_create_socket AF_INET type w = (w', Err e) -> fds w' <> fds w ->
  exists fd : Z, fds w !! fd = None /\ fds w' = <[fd := new_sock type]> (fds w) /\ e = INA_ERR_OPERATION_FAILED.
Proof.
  unfold __ina_create_socket. destruct (negb _); [by intros [= <- <-]|]. destruct (socket AF_INET type w) as [w1 r] eqn:Hs. apply socket_fds in Hs.
  destruct r as [fd|]; [|intros [= <- <-]; congruence]. destruct Hs as (_ & Hno & Hw1). pose proof (setsockopt_fds w1 fd SO_REUSEADDR) as Hw2.
  destruct (setsockopt fd SO_REUSEADDR w1) as [w2 [|]]; intros [= <- <-] _. cbn in Hw2. exists fd. by rewrite Hw2, Hw1.
Qed.

(** ** Sending *)
Definition sent (s : sock) : text := concat (s_sent s).
Lemma send_loop_sends (one : text -> W -> W * option Z) (fd : Z) (fuel : nat) (buf : text) (nb totlen old : Z) (w : W) (s : sock) :
  (forall (w w' : W) (b : text) (r : option Z), one b w = (w', r) -> b <> [] ->
    match r with Some n => 0 < n <= Z.of_nat (length b) /\ fds w' = set_sock fd (with_sent (take (Z.to_nat n) b)) (fds w) | None => fds w' = fds w end) ->
  0 <= totlen <= nb -> nb - totlen <= Z.of_nat (length buf) -> (Z.to_nat (nb - totlen) < fuel)%nat -> fds w !! fd = Some s ->
  exists (w' : W) (k : Z) (s' : sock), fds w' = <[fd := s']> (fds w) /\ sent s' = sent s ++ take (Z.to_nat (k - totlen)) buf /\ totlen <= k <= nb /\
    (send_loop one fuel buf nb totlen old w = Some (w', nb, old) /\ k = nb \/ send_loop one fuel buf nb totlen old w = Some (w', k, -1) /\ k < nb).
Proof.
  intros Hone. revert buf totlen w s. induction fuel as [|fuel IH]; intros buf totlen w s Htot Hbuf Hfuel Hs; [lia|]. cbn [send_loop].
  destruct (Z.eqb_spec totlen nb) as [->|Hne].
  { exists w, nb, s. split; [by rewrite insert_id|]. rewrite Z.sub_diag. split; [cbn; by rewrite app_nil_r|]. split; [lia|]. by left. }
  set (b := take (Z.to_nat (nb - totlen)) buf). assert (Z.of_nat (length b) = nb - totlen) as Hb by (subst b; rewrite length_take; lia).
  destruct (one b w) as [w1 r] eqn:Hr. apply Hone in Hr; [|intros E; rewrite E in Hb; cbn in Hb; lia]. destruct r as [n|].
  - destruct Hr as [Hn Hw1]. rewrite (proj2 (Z.eqb_neq n 0)) by lia. set (s1 := with_sent (take (Z.to_nat n) b) s).
    assert (fds w1 = <[fd := s1]> (fds w)) as Hw1'.
    { rewrite Hw1. unfold set_sock. rewrite <- (insert_id (fds w) fd s Hs) at 1. by rewrite alter_insert_eq. }
    destruct (IH (drop (Z.to_nat n) buf) (totlen + n) w1 s1) as (w' & k & s' & Hw' & Hs' & Hk & Hrun);
      [lia|rewrite length_drop; lia|lia|by rewrite Hw1', lookup_insert_eq|].
    exists w', k, s'. split; [by rewrite Hw', Hw1', insert_insert_eq|]. split; [|split; [lia|exact Hrun]].
    rewrite Hs'. unfold sent at 1, s1, with_sent. cbn [s_sent]. rewrite concat_app. cbn [concat]. rewrite app_nil_r, <- !app_assoc. f_equal.
    subst b. rewrite take_take, Nat.min_l by lia.
    replace (Z.to_nat (k - totlen)) with (Z.to_nat n + Z.to_nat (k - (totlen + n)))%nat by lia. by rewrite take_take_drop.
  - exists w1, totlen, s. split; [by rewrite Hr, insert_id|]. rewrite Z.sub_diag. split; [cbn; by rewrite app_nil_r|]. split; [lia|]. right. split; [done|lia].
Qed.

(** C35. Sending.  Writing to an open socket ends, with a send per byte at most,
    and sends the first [k] bytes in order; it succeeds exactly if that is all of
    them and the caller had not -1 in [nb_write], and then stores their number;
    otherwise it stores -1.  A datagram is sent at once and [nb_write] stays as it
    was. *)
Theorem writing_sends_all (w : W) (fd nb old : Z) (buf : text) (s : sock) (r : udp_receiver) : fds w !! fd = Some s -> 0 < fd -> 0 < nb <= Z.of_nat (length buf) ->
  (exists (w' : W) (k : Z) (s' : sock), fds w' = <[fd := s']> (fds w) /\ sent s' = sent s ++ take (Z.to_nat k) buf /\ 0 <= k <= nb /\
    ina_net_write (S (Z.to_nat nb)) fd buf nb old w =
      Some (if decide (k = nb /\ old <> -1) then (w', nb, Ok tt) else (w', -1, Err write_failed))) /\
  (exists (w' : W) (s' : sock), fds w' = <[fd := s']> (fds w) /\
    (s' = with_sent (take (Z.to_nat nb) buf) s /\
       ina_net_udp_send (S (Z.to_nat nb)) fd r buf nb old w = Some (w', old, if old =? -1 then Err write_failed else Ok tt) \/
     s' = s /\ ina_net_udp_send (S (Z.to_nat nb)) fd r buf nb old w = Some (w', -1, Err write_failed))).
Proof.
  intros Hs Hfd Hnb. split.
  - destruct (send_loop_sends (send fd) fd (S (Z.to_nat nb)) buf nb 0 old w s) as (w' & k & s' & Hw' & Hs' & Hk & Hrun); [|lia..|done|].
    { intros w0 w1 b r0 Hr Hb. by apply (send_fds w0 w1 fd b r0 Hr Hb). }
    exists w', k, s'. split; [done|]. rewrite Z.sub_0_r in Hs'. split; [done|]. split; [done|].
    unfold ina_net_write. rewrite (proj2 (Z.leb_gt fd 0)), (proj2 (Z.leb_gt nb 0)) by lia. cbn [orb].
    destruct Hrun as [[-> ->]|[-> Hlt]]; cbn.
    + destruct (Z.eqb_spec old (-1)) as [->|Hold]; [by rewrite decide_False by tauto|by rewrite decide_True by done].
    + by rewrite decide_False by lia.
  - unfold ina_net_udp_send. rewrite (proj2 (Z.leb_gt fd 0)), (proj2 (Z.leb_gt nb 0)) by lia. cbn [orb send_loop].
    rewrite (proj2 (Z.eqb_neq 0 nb)) by lia. rewrite Z.sub_0_r. set (b := take (Z.to_nat nb) buf).
    assert (Z.of_nat (length b) = nb) as Hb by (subst b; rewrite length_take; lia).
    destruct (sendto fd (addr r) b w) as [w1 x] eqn:Hx. apply sendto_fds in Hx. destruct x as [n|].
    + destruct Hx as [-> Hw1]. rewrite Hb, (proj2 (Z.eqb_neq nb 0)), Z.add_0_l by lia.
      exists w1, (with_sent b s). split; [rewrite Hw1; unfold set_sock; rewrite <- (insert_id (fds w) fd s Hs) at 1; by rewrite alter_insert_eq|].
      left. split; [done|]. destruct (Z.to_nat nb); cbn; rewrite Z.eqb_refl; cbn; by destruct (old =? -1).
    + exists w1, s. split; [by rewrite Hx, insert_id|]. by right.
Qed.

(** A timeout of a second or more is never accepted. *)
Lemma no_long_timeouts (w : W) (fd msec : Z) : 0 < fd -> 1000 <= msec -> msec * 1000 < 2 ^ 31 ->
  exists w1 w2 : W, ina_net_set_read_timeout fd msec w = Some (w1, Err INA_ERR_OPERATION_FAILED) /\
    ina_net_set_write_timeout fd msec w = Some (w2, Err INA_ERR_OPERATION_FAILED).
Proof.
  intros Hfd Hm Hi. unfold ina_net_set_read_timeout, ina_net_set_write_timeout. rewrite (proj2 (Z.leb_gt fd 0)), (proj2 (Z.leb_gt msec 0)) by lia. cbn [orb].
  unfold int_op. rewrite (proj2 (Z.leb_le _ _)), (proj2 (Z.ltb_lt _ _)) by lia. cbn. unfold set_option.
  destruct (setsockopt_time w fd (Timeval 0 (msec * 1000))) as [H1 H2].
  { unfold good_time. cbn [tv_usec]. rewrite (proj2 (Z.ltb_ge _ _)) by lia. apply andb_false_r. }
  destruct (setsockopt fd (SO_RCVTIMEO _) w) as [w1 ok1], (setsockopt fd (SO_SNDTIMEO _) w) as [w2 ok2]. cbn in H1, H2. subst. by exists w1, w2.
Qed.
End Promises.

(** ** A small network

    The next descriptor and the sockets; a connection without blocking is in
    progress first, and three bytes are sent at once. *)
Definition net : Type := Z * gmap Z sock.
Definition add_sock (s : sock) (w : net) : net * option Z :=
  match w.2 !! w.1 with None => if 0 <=? w.1 then ((w.1 + 1, <[w.1 := s]> w.2), Some w.1) else (w, None) | Some _ => (w, None) end.
Definition change (fd : Z) (f : sock -> sock) (w : net) : net := (w.1, set_sock fd f w.2).
#[local] Instance small_net : Sockets net := {
  the_errno _ := EINPROGRESS;
  socket _ type w := add_sock (new_sock type) w;
  setsockopt _ o w := (w, match o with SO_RCVTIMEO t | SO_SNDTIMEO t => good_time t | _ => true end);
  bind fd a w := (change fd (with_bound a) w, true);
  listen fd _ w := (change fd with_listens w, true);
  connect fd a w := (change fd (with_peer a) w, match w.2 !! fd with Some s => s_flags s =? 0 | None => false end);
  accept _ w := let '(w, r) := add_sock (with_peer (SockAddr 1 1024) (new_sock __INA_SOCKET_TYPE_TCP)) w in
    (w, match r with Some fd => Some (fd, SockAddr 1 1024) | None => None end);
  close fd w := (w.1, delete fd w.2);
  getfl fd w := match w.2 !! fd with Some s => Some (s_flags s) | None => None end;
  setfl fd v w := (change fd (with_flags v) w, true);
  select_writable _ _ w := (w, 1);
  so_error _ _ := 0;
  read _ _ w := (w, Some []);
  send fd b w := (change fd (with_sent (take 3 b)) w, Some (Z.of_nat (length (take 3 b))));
  sendto fd _ b w := (change fd (with_sent b) w, Some (Z.of_nat (length b)));
  readv _ _ w := (w, Some []);
  writev _ _ w := (w, Some 0);
  sendmsg _ _ _ w := (w, Some 0);
  gethostbyname _ _ := Some (Hostent AF_INET [16777343]);
  gethostname _ := Some [104];
  inet_aton t := match t with [49] => Some 1 | _ => None end;
  inet_addr _ := 1;
  inet_ntoa _ := [49];
  getifaddrs _ := Some [];
  hardware_address _ _ := None;
  poll _ _ w := (w, 0) }.
Lemma add_sock_fds (w w' : net) (s : sock) (r : option Z) : add_sock s w = (w', r) ->
  match r with Some fd => 0 <= fd /\ w.2 !! fd = None /\ w'.2 = <[fd := s]> w.2 | None => w'.2 = w.2 end.
Proof.
  unfold add_sock. destruct (w.2 !! w.1) eqn:Hn; [by intros [= <- <-]|]. destruct (Z.leb_spec 0 w.1); by intros [= <- <-].
Qed.
#[local] Instance small_net_laws : SocketLaws net.
Proof.
  refine {| fds := snd; interruptions := fun _ => 0%nat |}; try done.
  - intros w w' d type r Hr. by apply add_sock_fds in Hr.
  - by intros w w' fd a r [= <- <-].
  - by intros w w' fd n r [= <- <-].
  - intros w w' fd a r [= <- <-]. cbn. by rewrite orb_true_r.
  - intros w w' fd r. cbn. destruct (add_sock _ w) as [w1 x] eqn:Hx. apply add_sock_fds in Hx. intros [= <- <-]. by destruct x.
  - intros w fd v s. cbn. intros Hv Hs. rewrite Hs in Hv. by injection Hv as <-.
  - by intros w w' fd v r [= <- <-].
  - intros w w' fd b r [= <- <-] Hb. split; [|by rewrite Nat2Z.id; destruct b as [|x [|y [|z b]]]].
    rewrite length_take. assert (length b <> 0%nat) by (by destruct b). lia.
  - by intros w w' fd a b r [= <- <-].
Defined.
Definition start : net := (3, {[0 := new_sock 0; 2 := new_sock __INA_SOCKET_TYPE_TCP]}).
Lemma connections_or_nothing_witness :
  let '(w', r) := ina_net_tcp_connect [97] 80 5 start in
  ends (W := net) start.2 w'.2 (fun s => exists a : Z, address_of (W := net) [97] a /\ s = tcp 0 (SockAddr a 80)) r /\ r = Ok 3.
Proof.
  assert (is_Some (fds start !! 0)) as H0 by (exists (new_sock 0); reflexivity).
  destruct (connections_or_nothing start [97] [49] 80 5 2 1 H0) as (H & _ & _ & _).
  destruct (ina_net_tcp_connect [97] 80 5 start) as [w' r] eqn:E. split; [exact H|]. apply (f_equal snd) in E. cbn [snd] in E. rewrite <- E. vm_compute. reflexivity.
Defined.
Lemma writing_sends_all_witness : exists (w' : net) (s' : sock), w'.2 = <[2 := s']> start.2 /\ sent s' = [72; 101; 108; 108; 111] /\
  ina_net_write 6 2 [72; 101; 108; 108; 111] 5 0 start = Some (w', 5, Ok tt).
Proof.
  assert (fds start !! 2 = Some (new_sock __INA_SOCKET_TYPE_TCP)) as Hs by reflexivity.
  destruct (writing_sends_all start 2 5 0 [72; 101; 108; 108; 111] _ (Receiver [49] 80 (SockAddr 1 80)) Hs ltac:(lia) ltac:(cbn; lia)) as [(w' & k & s' & Hw & Hsent & Hk & Hrun) _].
  assert (k = 5) as ->.
  { destruct (decide (k = 5 /\ 0 <> -1)) as [[-> _]|Hn]; [done|]. exfalso.
    assert (option_map (fun x : net * Z * result unit => x.1.2) (ina_net_write 6 2 [72; 101; 108; 108; 111] 5 0 start) = Some 5) as H5 by (vm_compute; reflexivity).
    change (S (Z.to_nat 5)) with 6%nat in Hrun. rewrite Hrun in H5. discriminate H5. }
  exists w', s'. split; [exact Hw|]. split; [exact Hsent|]. exact Hrun.
Defined.

(** A caller that has -1 in [nb_write] is told that a write failed that sent all. *)
Lemma write_reports_a_failure : exists w' : net, ina_net_write 6 2 [72; 101; 108; 108; 111] 5 (-1) start = Some (w', -1, Err write_failed) /\
  match w'.2 !! 2 with Some s => sent s = [72; 101; 108; 108; 111] | None => False end.
Proof. eexists. split; [vm_compute; reflexivity|]. vm_compute. reflexivity. Qed.

End Net.
