(* ===== verification/Cpu.v ===== *)
(** * The processor (cpu.c, cpu.h)

    What the library finds out about the processor on Linux.  The instruction
    [cpuid], the topology that contribs/cpu-topology finds and the files of the system
    are arguments. *)
From Stdlib Require Import ZArith Lia Bool String.
From stdpp Require Import base numbers option list.
From S2P Require Import Prelude Error Libc.

Module Cpu.
Import Error Libc.

(** ** Features *)
Definition INA_CPU_FEATURE_FPU : Z := Z.shiftl 1 0.
Definition INA_CPU_FEATURE_VME : Z := Z.shiftl 1 1.
Definition INA_CPU_FEATURE_DE : Z := Z.shiftl 1 2.
Definition INA_CPU_FEATURE_PSE : Z := Z.shiftl 1 3.
Definition INA_CPU_FEATURE_TSC : Z := Z.shiftl 1 4.
Definition INA_CPU_FEATURE_MSR : Z := Z.shiftl 1 5.
Definition INA_CPU_FEATURE_PAE : Z := Z.shiftl 1 6.
Definition INA_CPU_FEATURE_MCE : Z := Z.shiftl 1 7.
Definition INA_CPU_FEATURE_CX8 : Z := Z.shiftl 1 8.
Definition INA_CPU_FEATURE_APIC : Z := Z.shiftl 1 9.
Definition INA_CPU_FEATURE_SEP : Z := Z.shiftl 1 10.
Definition INA_CPU_FEATURE_MTRR : Z := Z.shiftl 1 11.
Definition INA_CPU_FEATURE_PGE : Z := Z.shiftl 1 12.
Definition INA_CPU_FEATURE_MCA : Z := Z.shiftl 1 13.
Definition INA_CPU_FEATURE_CMOV : Z := Z.shiftl 1 14.
Definition INA_CPU_FETUARE_PAT : Z := Z.shiftl 1 15.
Definition INA_CPU_FEATURE_PSE36 : Z := Z.shiftl 1 16.
Definition INA_CPU_FEATURE_PSN : Z := Z.shiftl 1 17.
Definition INA_CPU_FEATURE_CLFSH : Z := Z.shiftl 1 18.
Definition INA_CPU_FEATURE_DS : Z := Z.shiftl 1 19.
Definition INA_CPU_FEATURE_ACPI : Z := Z.shiftl 1 20.
Definition INA_CPU_FEATURE_MMX : Z := Z.shiftl 1 21.
Definition INA_CPU_FEATURE_FXSR : Z := Z.shiftl 1 22.
Definition INA_CPU_FEATURE_SSE : Z := Z.shiftl 1 23.
Definition INA_CPU_FEATURE_SSE2 : Z := Z.shiftl 1 24.
Definition INA_CPU_FEATURE_SS : Z := Z.shiftl 1 25.
Definition INA_CPU_FEATURE_HTT : Z := Z.shiftl 1 26.
Definition INA_CPU_FEATURE_TM : Z := Z.shiftl 1 27.
Definition INA_CPU_FEATURE_IA64 : Z := Z.shiftl 1 28.
Definition INA_CPU_FEATURE_PBE : Z := Z.shiftl 1 29.
Definition INA_CPU_FEATURE_SSE3 : Z := Z.shiftl 1 30.
Definition INA_CPU_FEATURE_PCLMULQDQ : Z := Z.shiftl 1 31.
Definition INA_CPU_FEATURE_DTES64 : Z := Z.shiftl 1 32.
Definition INA_CPU_FEATURE_MONITOR : Z := Z.shiftl 1 33.
Definition INA_CPU_FEATURE_DSCPL : Z := Z.shiftl 1 34.
Definition INA_CPU_FEATURE_VMX : Z := Z.shiftl 1 35.
Definition INA_CPU_FEATURE_SMX : Z := Z.shiftl 1 36.
Definition INA_CPU_FEATURE_EST : Z := Z.shiftl 1 37.
Definition INA_CPU_FEATURE_TM2 : Z := Z.shiftl 1 38.
Definition INA_CPU_FEATURE_SSSE3 : Z := Z.shiftl 1 39.
Definition INA_CPU_FEATURE_CNXTID : Z := Z.shiftl 1 40.
Definition INA_CPU_FEATURE_FMA : Z := Z.shiftl 1 41.
Definition INA_CPU_FEATURE_CX16 : Z := Z.shiftl 1 42.
Definition INA_CPU_FEATURE_XTPR : Z := Z.shiftl 1 43.
Definition INA_CPU_FEATURE_PDCM : Z := Z.shiftl 1 44.
Definition INA_CPU_FEATURE_PCID : Z := Z.shiftl 1 45.
Definition INA_CPU_FEATURE_DCA : Z := Z.shiftl 1 46.
Definition INA_CPU_FEATURE_SSE41 : Z := Z.shiftl 1 47.
Definition INA_CPU_FEATURE_SSE42 : Z := Z.shiftl 1 48.
Definition INA_CPU_FEATURE_X2APIC : Z := Z.shiftl 1 49.
Definition INA_CPU_FEATURE_MOVBE : Z := Z.shiftl 1 50.
Definition INA_CPU_FEATURE_POPCNT : Z := Z.shiftl 1 51.
Definition INA_CPU_FEATURE_TSCDL : Z := Z.shiftl 1 52.
Definition INA_CPU_FEATURE_AES : Z := Z.shiftl 1 53.
Definition INA_CPU_FEATURE_XSAVE : Z := Z.shiftl 1 54.
Definition INA_CPU_FEATURE_OSXSAVE : Z := Z.shiftl 1 55.
Definition INA_CPU_FEATURE_AVX : Z := Z.shiftl 1 56.
Definition INA_CPU_FEATURE_F16C : Z := Z.shiftl 1 57.
Definition INA_CPU_FEATURE_RDRND : Z := Z.shiftl 1 58.
Definition INA_CPU_FEATURE_HYPERVISOR : Z := Z.shiftl 1 59.

(** The register values of [CPUIDinfo]. *)
Record CPUIDinfo := Cpuid { EAX : Z; EBX : Z; ECX : Z; EDX : Z }.

(** The switch over the bits: the features for EDX and for ECX. *)
Definition feature_case (i : nat) : option Z * option Z :=
  match i with
  | 0%nat => (Some INA_CPU_FEATURE_FPU, Some INA_CPU_FEATURE_SSE3)
  | 1%nat => (Some INA_CPU_FEATURE_VME, Some INA_CPU_FEATURE_PCLMULQDQ)
  | 2%nat => (Some INA_CPU_FEATURE_DE, Some INA_CPU_FEATURE_DTES64)
  | 3%nat => (Some INA_CPU_FEATURE_PSE, Some INA_CPU_FEATURE_MONITOR)
  | 4%nat => (Some INA_CPU_FEATURE_TSC, Some INA_CPU_FEATURE_DSCPL)
  | 5%nat => (Some INA_CPU_FEATURE_MSR, Some INA_CPU_FEATURE_VMX)
  | 6%nat => (Some INA_CPU_FEATURE_PAE, Some INA_CPU_FEATURE_SMX)
  | 7%nat => (Some INA_CPU_FEATURE_MCE, Some INA_CPU_FEATURE_EST)
  | 8%nat => (Some INA_CPU_FEATURE_CX8, Some INA_CPU_FEATURE_TM2)
  | 9%nat => (Some INA_CPU_FEATURE_APIC, Some INA_CPU_FEATURE_SSSE3)
  | 10%nat => (None, Some INA_CPU_FEATURE_CNXTID)
  | 11%nat => (Some INA_CPU_FEATURE_SEP, None)
  | 12%nat => (Some INA_CPU_FEATURE_MTRR, Some INA_CPU_FEATURE_FMA)
  | 13%nat => (Some INA_CPU_FEATURE_PGE, Some INA_CPU_FEATURE_CX16)
  | 14%nat => (Some INA_CPU_FEATURE_MCA, Some INA_CPU_FEATURE_XTPR)
  | 15%nat => (Some INA_CPU_FEATURE_CMOV, Some INA_CPU_FEATURE_PDCM)
  | 16%nat => (Some INA_CPU_FETUARE_PAT, None)
  | 17%nat => (Some INA_CPU_FEATURE_PSE36, Some INA_CPU_FEATURE_PCID)
  | 18%nat => (Some INA_CPU_FEATURE_PSN, Some INA_CPU_FEATURE_DCA)
  | 19%nat => (Some INA_CPU_FEATURE_CLFSH, Some INA_CPU_FEATURE_SSE41)
  | 20%nat => (None, Some INA_CPU_FEATURE_SSE42)
  | 21%nat => (Some INA_CPU_FEATURE_DS, Some INA_CPU_FEATURE_X2APIC)
  | 22%nat => (Some INA_CPU_FEATURE_ACPI, Some INA_CPU_FEATURE_MOVBE)
  | 23%nat => (Some INA_CPU_FEATURE_MMX, Some INA_CPU_FEATURE_POPCNT)
  | 24%nat => (Some INA_CPU_FEATURE_FXSR, Some INA_CPU_FEATURE_TSCDL)
  | 25%nat => (Some INA_CPU_FEATURE_SSE, Some INA_CPU_FEATURE_AES)
  | 26%nat => (Some INA_CPU_FEATURE_SSE2, Some INA_CPU_FEATURE_XSAVE)
  | 27%nat => (Some INA_CPU_FEATURE_SS, Some INA_CPU_FEATURE_OSXSAVE)
  | 28%nat => (Some INA_CPU_FEATURE_HTT, Some INA_CPU_FEATURE_AVX)
  | 29%nat => (Some INA_CPU_FEATURE_TM, Some INA_CPU_FEATURE_F16C)
  | 30%nat => (Some INA_CPU_FEATURE_IA64, Some INA_CPU_FEATURE_RDRND)
  | 31%nat => (Some INA_CPU_FEATURE_PBE, Some INA_CPU_FEATURE_HYPERVISOR)
  | _ => (None, None)
  end.
Definition add_feature (register : Z) (i : nat) (f : option Z) (features : Z) : Z :=
  match f with
  | Some f => if Z.land register (Z.shiftl 1 (Z.of_nat i)) =? 0 then features else Z.lor features f
  | None => features
  end.
Fixpoint load_features (n : nat) (i : nat) (info : CPUIDinfo) (features : Z) : Z :=
  match n with
  | O => features
  | S n =>
      load_features n (S i) info
        (if ((i =? 10) || (i =? 20))%nat then features
         else let '(d, c) := feature_case i in add_feature (ECX info) i c (add_feature (EDX info) i d features))
  end.

(** ** Texts in registers *)
Definition bytes_of (r : Z) : text := [u8 r; u8 (Z.shiftr r 8); u8 (Z.shiftr r 16); u8 (Z.shiftr r 24)].
Fixpoint cstr (t : text) : text := match t with [] => [] | c :: t => if c =? 0 then [] else c :: cstr t end.
Definition vendor_of (info : CPUIDinfo) : text := cstr (bytes_of (EBX info) ++ bytes_of (EDX info) ++ bytes_of (ECX info)).
Fixpoint skip_blanks (t : text) : text := match t with c :: t' => if c =? 32 then skip_blanks t' else t | [] => [] end.
Definition INA_CPU_SUPPORTED_VENDOR : text := bytes_of_string "GenuineIntel".

(** ** The files of the system *)

(** A call of [fgets] with room for [n] characters: the line and the rest. *)
Fixpoint fgets (n : nat) (s : text) : text * text :=
  match n, s with
  | O, _ | _, [] => ([], s)
  | S n, c :: s => if c =? 10 then ([c], s) else let '(l, r) := fgets n s in (c :: l, r)
  end.
Fixpoint strchr (c : Z) (s : text) : option text :=
  match s with [] => None | x :: s' => if x =? c then Some s else strchr c s' end.
(** [%d] of [sscanf]. *)
Definition scan_d (p : text) : option Z :=
  let '(x, rest) := strtol p in if (length rest =? length p)%nat then None else Some (to_int x).
Definition clock_of_line (line : text) : option Z :=
  if has_prefix line (bytes_of_string "cpu MHz") then s ← strchr 58 line; scan_d (tail s) else None.
Fixpoint clock_loop (fuel : nat) (content : text) : option Z :=
  match fuel, content with
  | O, _ | _, [] => None
  | S fuel, _ =>
      let '(line, rest) := fgets 1023 content in
      match clock_of_line line with Some mhz => Some mhz | None => clock_loop fuel rest end
  end.
(** [cpuinfo] is the content of /proc/cpuinfo, if it can be opened. *)
Definition __ina_cpu_clock_by_os (cpuinfo : option text) : result Z :=
  match cpuinfo with
  | None => Err INA_ERR_OPERATION_FAILED
  | Some content =>
      match clock_loop (length content) content with
      | Some mhz => Ok mhz
      | None => Err (Z.lor (INA_ES S_PATTERN) (INA_ERR_NOT_ E_FOUND))
      end
  end.
Definition __ina_cpu_cache_line_size (coherency_line_size : option text) : Z :=
  match coherency_line_size with Some t => match scan_d t with Some n => u32 n | None => 0 end | None => 0 end.

(** ** The context *)
Record ctx := Ctx {
  package_count : Z; core_count : Z; thread_count : Z; logical_count : Z; running_on_vm : bool;
  family : Z; model : Z; stepping : Z; features : Z; brand : option text; vendor : text;
  l1_data_bytes : Z; l2_bytes : Z; l3_bytes : Z; cache_line : Z; ipc_sp : Z; ipc_dp : Z; frequency_os : Z }.
(** What the system tells: [cpuid], the counts and the sizes of the caches, and the files. *)
Record system := System {
  get_cpuid_info : Z -> Z -> CPUIDinfo; get_cpu_hw_info : Z * Z * Z * Z; get_cache_info : Z * Z * Z; GetMaxCPUSupportedByOS : Z;
  coherency_line_size : option text; cpuinfo : option text }.

Definition brand_of (s : system) : option text :=
  if EAX (get_cpuid_info s 0x80000000 0) <? 0x80000004 then None
  else
    let part := fun i => let r := get_cpuid_info s (0x80000002 + i) 0 in bytes_of (EAX r) ++ bytes_of (EBX r) ++ bytes_of (ECX r) ++ bytes_of (EDX r) in
    Some (cstr (skip_blanks (part 0 ++ part 1 ++ part 2))).
(** Stepping, model and family of the value of EAX. *)
Definition signature_of (eax : Z) : Z * Z * Z :=
  let family := Z.land (Z.shiftr eax 8) 0xf in
  let model := Z.land (Z.shiftr eax 4) 0xf in
  let stepping := Z.land eax 0xf in
  let extmodel := Z.land (Z.shiftr eax 16) 0xf in
  let extfam := Z.land (Z.shiftr eax 20) 0xff in
  (u8 (family + extfam), u8 (model + Z.shiftl extmodel 4), stepping).
(** Instructions per cycle, in double and in single precision. *)
Definition ipc_of (model : Z) : Z * Z :=
  if existsb (Z.eqb model) [0x0F; 0x17; 0x2E; 0x1A; 0x1E] then (4, 8)
  else if existsb (Z.eqb model) [0x2F; 0x2C; 0x25; 0x2D; 0x2A; 0x3A] then (8, 16)
  else if existsb (Z.eqb model) [0x3C; 0x3D; 0x5E] then (16, 32)
  else (0, 0).
(** [None] is an abort: there is no clock. *)
Definition ina_cpu_init (got : bool) (s : system) : option (result ctx) :=
  if negb got then Some (Err INA_ERR_OUT_OF_MEMORY)
  else
    let info := get_cpuid_info s 1 0 in
    let vm := negb (Z.land (ECX info) (Z.shiftl 1 31) =? 0) in
    let '(packages, cores, threads, logical) := if vm then (0, 0, 0, GetMaxCPUSupportedByOS s) else get_cpu_hw_info s in
    let '(l1, l2, l3) := if vm then (0, 0, 0) else get_cache_info s in
    let '(family, model, stepping) := signature_of (EAX info) in
    let '(dp, sp) := ipc_of model in
    match __ina_cpu_clock_by_os (cpuinfo s) with
    | Err _ => None
    | Ok mhz =>
        Some (Ok (Ctx packages cores threads logical vm family model stepping (load_features 32 0 info 0) (brand_of s)
          (vendor_of (get_cpuid_info s 0 0)) l1 l2 l3 (__ina_cpu_cache_line_size (coherency_line_size s)) sp dp mhz))
    end.

(** ** Queries *)
Definition illegal_state : Z := Z.lor (INA_ES S_STATE) (INA_ERR E_ILLEGAL).
(** What is stored, and the result. *)
Definition unless_vm (c : ctx) (x : Z) : Z * result unit := if running_on_vm c then (0, Err illegal_state) else (x, Ok tt).
Definition ina_cpu_get_package_count (c : ctx) : Z * result unit := unless_vm c (package_count c).
Definition ina_cpu_get_core_count (c : ctx) : Z * result unit := unless_vm c (core_count c).
Definition ina_cpu_get_thread_count (c : ctx) : Z * result unit := unless_vm c (thread_count c).
Definition ina_cpu_get_total_logical_count (c : ctx) : Z := logical_count c.
Definition ina_cpu_get_features (c : ctx) : Z := features c.
Definition ina_cpu_get_brand_string (c : ctx) : option text := brand c.
Definition ina_cpu_is_supported (c : ctx) : bool :=
  if running_on_vm c then false else bool_decide (INA_CPU_SUPPORTED_VENDOR = vendor c).
Definition ina_cpu_get_signature (c : ctx) : Z * Z * Z := (family c, model c, stepping c).
Definition ina_cpu_get_ipc_sp (c : ctx) : Z := ipc_sp c.
Definition ina_cpu_get_ipc_dp (c : ctx) : Z := ipc_dp c.
Definition ina_cpu_get_l1_cache_size (c : ctx) : Z := l1_data_bytes c.
Definition ina_cpu_get_l2_cache_size (c : ctx) : Z := l2_bytes c.
Definition ina_cpu_get_l3_cache_size (c : ctx) : Z := l3_bytes c.
Definition ina_cpu_get_frequency_os (c : ctx) : Z := frequency_os c.
Definition ina_cpu_get_cache_line_size (c : ctx) : Z := cache_line c.
(** In units of 1/1024, which a double holds exactly; [None] is an abort. *)
Definition ina_cpu_get_gflops_dp (c : ctx) : option Z :=
  match ina_cpu_get_core_count c with (cores, Ok _) => Some (frequency_os c * cores * ina_cpu_get_ipc_dp c) | _ => None end.
Definition ina_cpu_get_gflops_sp (c : ctx) : option Z :=
  match ina_cpu_get_core_count c with (cores, Ok _) => Some (frequency_os c * cores * ina_cpu_get_ipc_dp c) | _ => None end.
Definition ina_cpu_hyperthreading_enabled (c : ctx) : bool := negb (to_int (package_count c * core_count c) =? logical_count c).

(** The scheduler: the processors of a thread, its priority, and locked memory.  A call
    tells whether it succeeded. *)
Section Scheduler.
Context {W : Type}.
Variable sched_setaffinity : list Z -> W -> W * bool.
Variable sched_get_priority_max : W -> option Z.
Variable sched_setscheduler : Z -> W -> W * bool.
Variable mlockall : W -> W * bool.
Definition CPU_SETSIZE : Z := 1024.
Definition ina_cpu_pin_to_core (cpuid : Z) (w : W) : W * result unit :=
  let mask := if 0 <=? cpuid then (if cpuid <? CPU_SETSIZE then [cpuid] else []) else [] in
  let '(w, ok) := sched_setaffinity mask w in (w, if ok then Ok tt else Err INA_ERR_OPERATION_FAILED).
Definition ina_cpu_process_promote (w : W) : W * result unit :=
  match sched_get_priority_max w with
  | None => (w, Err INA_ERR_OPERATION_FAILED)
  | Some p =>
      let '(w, ok) := sched_setscheduler p w in
      if negb ok then (w, Err INA_ERR_OPERATION_FAILED)
      else let '(w, ok) := mlockall w in (w, if ok then Ok tt else Err INA_ERR_OPERATION_FAILED)
  end.
End Scheduler.

(** ** The features are the bits *)

(** The bits of a register that one case looks at, with the features they give. *)
Definition entry : Type := bool * nat * Z.
Definition entries (i : nat) : list entry :=
  if ((i =? 10) || (i =? 20))%nat then []
  else let '(d, c) := feature_case i in
    match d with Some f => [(false, i, Z.log2 f)] | None => [] end ++ match c with Some f => [(true, i, Z.log2 f)] | None => [] end.
Definition gives (info : CPUIDinfo) (k : Z) (e : entry) : bool :=
  Z.testbit (if e.1.1 then ECX info else EDX info) (Z.of_nat e.1.2) && (e.2 =? k).
Lemma add_feature_bit (r x k f : Z) (i : nat) : 0 <= k -> f = 2 ^ Z.log2 f ->
  Z.testbit (add_feature r i (Some f) x) k = Z.testbit x k || (Z.testbit r (Z.of_nat i) && (Z.log2 f =? k)).
Proof.
  intros Hk Hf. unfold add_feature. rewrite Z.shiftl_1_l, land_pow2_eqb by lia.
  destruct (Z.testbit r (Z.of_nat i)); cbn; [|by rewrite orb_false_r].
  rewrite Z.lor_spec, Hf, pow2_testbit, Z.log2_pow2 by (done || apply Z.log2_nonneg). by rewrite Z.eqb_sym.
Qed.
Lemma add_no_feature (r x : Z) (i : nat) : add_feature r i None x = x.
Proof. done. Qed.
Lemma cases_are_bits (i : nat) (f : Z) : (feature_case i).1 = Some f \/ (feature_case i).2 = Some f -> f = 2 ^ Z.log2 f.
Proof.
  do 32 (destruct i as [|i]; [intros [H | H]; first [discriminate H | injection H as <-; vm_compute; reflexivity]|]). by intros [H | H].
Qed.
Lemma load_features_bit (info : CPUIDinfo) (k : Z) (n i : nat) (x : Z) : 0 <= k ->
  Z.testbit (load_features n i info x) k = Z.testbit x k || existsb (gives info k) (flat_map entries (seq i n)).
Proof.
  intros Hk. revert i x. induction n as [|n IH]; intros i x; cbn [load_features seq flat_map]; [by rewrite orb_false_r|].
  rewrite IH, existsb_app, orb_assoc. f_equal. unfold entries. destruct ((i =? 10) || (i =? 20))%nat; [by rewrite orb_false_r|].
  pose proof (cases_are_bits i) as Hbits. destruct (feature_case i) as [d c]. cbn [fst snd] in Hbits.
  destruct c as [c|], d as [d|]; unfold gives; cbn [app existsb fst snd];
    repeat (rewrite add_no_feature || rewrite add_feature_bit by (done || apply Hbits; auto)); by rewrite ?orb_false_r, ?orb_assoc.
Qed.

(** The bit that shows a feature, [true] for those of ECX: the features are numbered
    like the bits of EDX and ECX that are not reserved; two are never looked at. *)
Definition bit_of_feature (k : Z) : option (bool * Z) :=
  if (k =? 40) || (k =? 48) then None
  else if k <? 10 then Some (false, k)
  else if k <? 19 then Some (false, k + 1)
  else if k <? 30 then Some (false, k + 2)
  else if k <? 41 then Some (true, k - 30)
  else if k <? 45 then Some (true, k - 29)
  else if k <? 60 then Some (true, k - 28)
  else None.
Definition has_feature (info : CPUIDinfo) (k : Z) : bool :=
  match bit_of_feature k with Some (c, b) => Z.testbit (if c then ECX info else EDX info) b | None => false end.
Lemma existsb_filter {A : Type} (P Q : A -> bool) (l : list A) : existsb (fun x => P x && Q x) l = existsb P (List.filter Q l).
Proof. induction l as [|x l IH]; [done|]. cbn. destruct (Q x); cbn; rewrite IH; [by rewrite andb_true_r|by rewrite andb_false_r]. Qed.
Definition all_entries : list entry := flat_map entries (seq 0 32).
Lemma entry_of_feature (k : Z) : List.filter (fun e : entry => e.2 =? k) all_entries =
  match bit_of_feature k with Some (c, b) => if 0 <=? k then [(c, Z.to_nat b, k)] else [] | None => [] end.
Proof.
  destruct (decide (0 <= k < 60)) as [Hk|Hk].
  - assert (forallb (fun n => bool_decide (List.filter (fun e : entry => e.2 =? Z.of_nat n) all_entries =
      match bit_of_feature (Z.of_nat n) with Some (c, b) => if 0 <=? Z.of_nat n then [(c, Z.to_nat b, Z.of_nat n)] else [] | None => [] end)) (seq 0 60) = true) as H
      by (vm_compute; reflexivity).
    rewrite forallb_forall in H. specialize (H (Z.to_nat k)). rewrite Z2Nat.id in H by lia. apply bool_decide_eq_true in H; [done|]. apply in_seq. lia.
  - assert (forallb (fun e : entry => (0 <=? e.2) && (e.2 <? 60)) all_entries = true) as H by (vm_compute; reflexivity).
    rewrite forallb_forall in H. destruct (List.filter _ _) as [|e l] eqn:Hf.
    + unfold bit_of_feature. destruct (Z.leb_spec 0 k).
      * rewrite (proj2 (Z.eqb_neq k 40)), (proj2 (Z.eqb_neq k 48)) by lia. cbn [orb]. rewrite !(proj2 (Z.ltb_ge _ _)) by lia. done.
      * by repeat case_match.
    + assert (In e (List.filter (fun e : entry => e.2 =? k) all_entries)) as He by (rewrite Hf; by left).
      apply filter_In in He as [He Hek]. specialize (H e He). lia.
Qed.
Lemma features_bits (info : CPUIDinfo) (k : Z) : 0 <= k -> Z.testbit (load_features 32 0 info 0) k = has_feature info k.
Proof.
  intros Hk. rewrite load_features_bit, Z.bits_0 by done. cbn [orb]. fold all_entries. unfold gives.
  rewrite (existsb_filter (fun e : entry => Z.testbit (if e.1.1 then ECX info else EDX info) (Z.of_nat e.1.2)) (fun e : entry => e.2 =? k)).
  rewrite entry_of_feature. unfold has_feature. destruct (bit_of_feature k) as [[c b]|] eqn:Hb; [|done].
  rewrite (proj2 (Z.leb_le 0 k) Hk). cbn. rewrite orb_false_r, Z2Nat.id; [done|].
  unfold bit_of_feature in Hb. repeat case_match; simplify_eq; lia.
Qed.

(** ** Signature, vendor and clock *)
Lemma bits_of_eax (eax p n : Z) : 0 <= p -> 0 <= n -> Z.land (Z.shiftr eax p) (Z.ones n) = (eax / 2 ^ p) mod 2 ^ n.
Proof. intros Hp Hn. by rewrite Z.land_ones, Z.shiftr_div_pow2 by lia. Qed.
Lemma signature_spec (eax : Z) :
  signature_of eax = (u8 ((eax / 2 ^ 8) mod 16 + (eax / 2 ^ 20) mod 256), (eax / 16) mod 16 + 16 * ((eax / 2 ^ 16) mod 16), eax mod 16).
Proof.
  unfold signature_of. change 0xf with (Z.ones 4). change 0xff with (Z.ones 8). rewrite !bits_of_eax, Z.land_ones by lia.
  rewrite Z.shiftl_mul_pow2 by lia. change (2 ^ 4) with 16. change (2 ^ 8) with 256 at 2. f_equal. f_equal.
  pose proof (Z.mod_pos_bound (eax / 16) 16 ltac:(lia)). pose proof (Z.mod_pos_bound (eax / 2 ^ 16) 16 ltac:(lia)).
  rewrite wrap_small; [lia|]. unfold in_width. lia.
Qed.
Lemma cstr_full (t u : text) : cstr t = u -> length u = length t -> t = u.
Proof.
  revert u. induction t as [|c t IH]; intros u; cbn; [by intros <-|]. destruct (c =? 0); [by intros <-|]. intros <-. cbn. intros [= Hl]. f_equal. by apply IH.
Qed.
Lemma bytes_of_inj (r a b c d : Z) : in_width 32 r -> bytes_of r = [a; b; c; d] -> r = a + 256 * b + 65536 * c + 16777216 * d.
Proof.
  unfold bytes_of, wrap, in_width. rewrite !Z.shiftr_div_pow2 by lia. intros Hr [= <- <- <- <-].
  change (2 ^ 8) with 256. change (2 ^ 16) with 65536. change (2 ^ 24) with 16777216. change (2 ^ 32) with 4294967296 in Hr. dlia.
Qed.
Definition registers_32 (r : CPUIDinfo) : Prop := in_width 32 (EAX r) /\ in_width 32 (EBX r) /\ in_width 32 (ECX r) /\ in_width 32 (EDX r).
Lemma vendor_is_intel (r : CPUIDinfo) : registers_32 r ->
  INA_CPU_SUPPORTED_VENDOR = vendor_of r <-> EBX r = 0x756e6547 /\ EDX r = 0x49656e69 /\ ECX r = 0x6c65746e.
Proof.
  intros (_ & Hb & Hc & Hd). split.
  - intros Hv. symmetry in Hv. apply cstr_full in Hv; [|done].
    assert (forall x y z : Z, bytes_of x ++ bytes_of y ++ bytes_of z = INA_CPU_SUPPORTED_VENDOR ->
      bytes_of x = [71; 101; 110; 117] /\ bytes_of y = [105; 110; 101; 73] /\ bytes_of z = [110; 116; 101; 108]) as Hsplit.
    { intros x y z H. unfold bytes_of in *. cbn in H. by injection H as -> -> -> -> -> -> -> -> -> -> -> ->. }
    apply Hsplit in Hv as (H1 & H2 & H3). apply bytes_of_inj in H1, H2, H3; [|done..]. by rewrite H1, H2, H3.
  - destruct r as [a b c d]. cbn. intros (-> & -> & ->). vm_compute. reflexivity.
Qed.

(** A line of a file that [fgets] reads at once. *)
Definition line (n : nat) (l : text) : Prop := exists t : text, l = t ++ [10] /\ 10 ∉ t /\ (length l <= n)%nat.
Lemma fgets_line (n : nat) (l rest : text) : line n l -> fgets n (l ++ rest) = (l, rest).
Proof.
  intros (t & -> & Ht & Hn). revert n Hn. induction t as [|c t IH]; intros n Hn; rewrite length_app in Hn; cbn in Hn; (destruct n as [|n]; [lia|]); [done|].
  cbn [app fgets]. apply not_elem_of_cons in Ht as [Hc Ht]. rewrite (proj2 (Z.eqb_neq c 10)) by lia. rewrite IH; [done|done|rewrite length_app; cbn; lia].
Qed.
Lemma clock_loop_lines (ls : list text) (fuel : nat) : Forall (line 1023) ls -> (length (concat ls) <= fuel)%nat ->
  clock_loop fuel (concat ls) = head (omap clock_of_line ls).
Proof.
  intros Hls. revert fuel. induction Hls as [|l ls Hl Hls IH]; intros fuel Hf; [by destruct fuel|].
  assert (length l <> 0%nat) as Hlen by (destruct Hl as (t & -> & _); rewrite length_app; cbn; lia).
  cbn [concat] in *. rewrite length_app in Hf. destruct fuel as [|fuel]; [lia|]. cbn [clock_loop].
  destruct (l ++ concat ls) as [|c rest] eqn:Hc; [by destruct l|]. rewrite <- Hc, fgets_line by done. cbn [omap list_omap].
  destruct (clock_of_line l); [done|]. apply IH. lia.
Qed.

(** C21. The processor.  A feature is reported exactly if its bit of ECX or
    EDX is set, two features (CNXTID and SSE4.2) never; the signature is made of the
    fields of EAX; the processor is supported exactly if there is no hypervisor
    and the registers say GenuineIntel; the clock is that of the first line of
    /proc/cpuinfo that tells one; the counts of packages, cores, threads and logical
    processors and the sizes of the caches are, each in its place, those that the
    topology gives, but on a virtual machine nothing is told of packages, cores
    and threads, the caches have no size and the logical processors are those that
    the system supports. *)
Theorem processor_is_as_cpuid_says (s : system) (c : ctx) : ina_cpu_init true s = Some (Ok c) -> registers_32 (get_cpuid_info s 0 0) ->
  let info := get_cpuid_info s 1 0 in
  (forall k : Z, 0 <= k -> Z.testbit (ina_cpu_get_features c) k = has_feature info k) /\
  ina_cpu_get_signature c =
    (u8 ((EAX info / 2 ^ 8) mod 16 + (EAX info / 2 ^ 20) mod 256), (EAX info / 16) mod 16 + 16 * ((EAX info / 2 ^ 16) mod 16), EAX info mod 16) /\
  (ina_cpu_is_supported c = true <-> Z.testbit (ECX info) 31 = false /\
    let v := get_cpuid_info s 0 0 in EBX v = 0x756e6547 /\ EDX v = 0x49656e69 /\ ECX v = 0x6c65746e) /\
  (forall ls : list text, cpuinfo s = Some (concat ls) -> Forall (line 1023) ls -> head (omap clock_of_line ls) = Some (ina_cpu_get_frequency_os c)) /\
  (Z.testbit (ECX info) 31 = true -> ina_cpu_get_package_count c = (0, Err illegal_state) /\ ina_cpu_get_core_count c = (0, Err illegal_state) /\
    ina_cpu_get_thread_count c = (0, Err illegal_state) /\ ina_cpu_get_total_logical_count c = GetMaxCPUSupportedByOS s /\
    (ina_cpu_get_l1_cache_size c, ina_cpu_get_l2_cache_size c, ina_cpu_get_l3_cache_size c) = (0, 0, 0)) /\
  (Z.testbit (ECX info) 31 = false -> forall packages cores threads logical : Z,
    get_cpu_hw_info s = (packages, cores, threads, logical) ->
    ina_cpu_get_package_count c = (packages, Ok tt) /\ ina_cpu_get_core_count c = (cores, Ok tt) /\
    ina_cpu_get_thread_count c = (threads, Ok tt) /\ ina_cpu_get_total_logical_count c = logical /\
    (ina_cpu_get_l1_cache_size c, ina_cpu_get_l2_cache_size c, ina_cpu_get_l3_cache_size c) = get_cache_info s).
Proof.
  intros Hinit Hregs. cbn zeta. unfold ina_cpu_init in Hinit. cbn [negb] in Hinit.
  rewrite Z.shiftl_1_l, land_pow2_eqb, negb_involutive in Hinit by lia. set (info := get_cpuid_info s 1 0) in *.
  pose proof (signature_spec (EAX info)) as Hsig. destruct (signature_of (EAX info)) as [[fam mo] st]. destruct (ipc_of mo) as [dp sp].
  set (vm := Z.testbit (ECX info) 31) in *. clearbody vm.
  destruct (if vm then (0, 0, 0, GetMaxCPUSupportedByOS s) else get_cpu_hw_info s) as [[[pk co] th] lo] eqn:Hhw.
  destruct (if vm then (0, 0, 0) else get_cache_info s) as [[l1 l2] l3] eqn:Hcache.
  pose proof (features_bits info) as Hf. set (fs := load_features 32 0 info 0) in *. set (br := brand_of s) in *. clearbody fs br.
  destruct (__ina_cpu_clock_by_os (cpuinfo s)) as [mhz|] eqn:Hclock; [|done]. injection Hinit as <-.
  split; [exact Hf|]. split; [exact Hsig|]. split; [|split; [|split]].
  - unfold ina_cpu_is_supported. cbn [running_on_vm vendor]. destruct vm; [split; [done|by intros [? _]]|].
    rewrite bool_decide_eq_true, (vendor_is_intel _ Hregs). tauto.
  - intros ls Hfile Hls. unfold __ina_cpu_clock_by_os in Hclock. rewrite Hfile, (clock_loop_lines ls _ Hls (le_n _)) in Hclock.
    destruct (head _) as [m|]; [|done]. by injection Hclock as ->.
  - intros ->. injection Hhw as <- <- <- <-. injection Hcache as <- <- <-. done.
  - intros -> packages cores threads logical Hget. rewrite Hhw in Hget. injection Hget as -> -> -> ->. rewrite Hcache. done.
Qed.

Definition machine : system := System
  (fun leaf _ => if leaf =? 0 then Cpuid 22 0x756e6547 0x6c65746e 0x49656e69 else if leaf =? 1 then Cpuid 0x506e3 0 (2 ^ 20 + 1) (2 ^ 31 + 2 ^ 25) else Cpuid 0 0 0 0)
  (1, 4, 8, 8) (32768, 262144, 8388608) 8 (Some (bytes_of_string "64")) (Some (concat (map (fun l => bytes_of_string l ++ [10]) ["processor: 0"; "cpu MHz : 2400.5"; "cpu MHz : 1"]%string))).
Lemma processor_is_as_cpuid_says_witness : exists c : ctx, ina_cpu_init true machine = Some (Ok c) /\ Z.testbit (ina_cpu_get_features c) 48 = false /\
  Z.testbit (ina_cpu_get_features c) 30 = true /\ ina_cpu_is_supported c = true /\ ina_cpu_get_signature c = (6, 94, 3) /\ ina_cpu_get_core_count c = (4, Ok tt) /\ ina_cpu_get_frequency_os c = 2400.
Proof.
  destruct (ina_cpu_init true machine) as [[c|e]|] eqn:H; [|vm_compute in H; discriminate H..].
  assert (registers_32 (get_cpuid_info machine 0 0)) as Hr by (unfold registers_32, in_width; cbn; lia).
  assert (ina_cpu_get_frequency_os c = 2400) as Hclock by (vm_compute in H; injection H as <-; reflexivity).
  destruct (processor_is_as_cpuid_says machine c H Hr) as (Hf & Hs & Hi & _ & _ & Hcount). exists c. split; [reflexivity|].
  split; [rewrite (Hf 48) by lia; vm_compute; reflexivity|]. split; [rewrite (Hf 30) by lia; vm_compute; reflexivity|].
  split; [apply Hi; vm_compute; tauto|]. split; [rewrite Hs; vm_compute; reflexivity|].
  split; [|exact Hclock]. exact (proj1 (proj2 (Hcount eq_refl 1 4 8 8 eq_refl))).
Defined.

(** Threads of one core are said to share it on every virtual machine, and the
    two speeds are the same. *)
Lemma hyperthreading_on_vm (s : system) (c : ctx) : ina_cpu_init true s = Some (Ok c) -> running_on_vm c = true -> GetMaxCPUSupportedByOS s <> 0 ->
  ina_cpu_hyperthreading_enabled c = true /\ ina_cpu_get_gflops_dp c = None.
Proof.
  unfold ina_cpu_init. cbn [negb]. set (fs := load_features 32 0 _ 0). set (br := brand_of s). clearbody fs br. destruct (negb (Z.land _ _ =? 0)).
  - destruct (signature_of _) as [[fam mo] st], (ipc_of mo) as [dp sp], (__ina_cpu_clock_by_os _); [|done]. intros [= <-] _ Hmax.
    split; [|done]. unfold ina_cpu_hyperthreading_enabled. cbn [package_count core_count logical_count]. apply negb_true_iff, Z.eqb_neq.
    change (to_int (0 * 0)) with 0. lia.
  - destruct (get_cpu_hw_info s) as [[[pk co] th] lo], (get_cache_info s) as [[l1 l2] l3], (signature_of _) as [[fam mo] st], (ipc_of mo) as [dp sp],
      (__ina_cpu_clock_by_os _); [|done]. by intros [= <-].
Qed.
Lemma gflops_are_the_same (c : ctx) : ina_cpu_get_gflops_sp c = ina_cpu_get_gflops_dp c.
Proof. reflexivity. Qed.

End Cpu.
