(* ===== verification/Cio.v ===== *)
(** * The console (cio.c, cio.h)

    Colours, the position of the cursor and lines, on a terminal of POSIX.  What
    is printed is a list of pieces; what the terminal answers and the keys that are
    pressed are arguments. *)
From Stdlib Require Import ZArith Lia Bool String.
From stdpp Require Import base numbers option pretty list.
From S2P Require Import Prelude Error Libc Str.

Module Cio.
Import Error Libc.

(** ** Colours *)
Inductive color := INA_CIO_COLOR_BLACK | INA_CIO_COLOR_BLUE | INA_CIO_COLOR_RED | INA_CIO_COLOR_MAGENTA | INA_CIO_COLOR_GREEN
  | INA_CIO_COLOR_CYAN | INA_CIO_COLOR_YELLOW | INA_CIO_COLOR_WHITE | INA_CIO_COLOR_UNDEFINED.
#[export] Instance color_eq_dec : EqDecision color.
Proof. solve_decision. Defined.
Definition INA_CIO_RESET : Z := 4.
Record cio_pos := Pos { row : Z; col : Z }.
Record cio_attribs := Attribs { bg_color : color; fg_color : color; flags : Z }.

Definition ESC : Z := 27.
Definition __CSI : text := [ESC; 91].
Definition sgr (s : string) : text := __CSI ++ bytes_of_string s.
Definition __fg_colors (c : color) : text :=
  match c with
  | INA_CIO_COLOR_BLACK => sgr "30m" | INA_CIO_COLOR_BLUE => sgr "34m" | INA_CIO_COLOR_RED => sgr "31m" | INA_CIO_COLOR_MAGENTA => sgr "35m"
  | INA_CIO_COLOR_GREEN => sgr "32m" | INA_CIO_COLOR_CYAN => sgr "36m" | INA_CIO_COLOR_YELLOW => sgr "33m" | INA_CIO_COLOR_WHITE => sgr "37m"
  | INA_CIO_COLOR_UNDEFINED => sgr "0m"
  end.
Definition __bg_colors (c : color) : text :=
  match c with
  | INA_CIO_COLOR_BLACK => sgr "40m" | INA_CIO_COLOR_BLUE => sgr "44m" | INA_CIO_COLOR_RED => sgr "41m" | INA_CIO_COLOR_MAGENTA => sgr "45m"
  | INA_CIO_COLOR_GREEN => sgr "42m" | INA_CIO_COLOR_CYAN => sgr "46m" | INA_CIO_COLOR_YELLOW => sgr "43m" | INA_CIO_COLOR_WHITE => sgr "47m"
  | INA_CIO_COLOR_UNDEFINED => sgr "0m"
  end.

(** What a read gives, or a write. *)
Inductive input := Byte (b : Z) | Input_end | Input_again | Input_error.
Inductive output := Took (n : Z) | Output_again | Output_error (e : Z).
(** The settings of a terminal as far as they are changed. *)
Record termios := Termios { icanon : bool; echo : bool; cread : bool }.

(** The console: whether it is a terminal, [__attribs], what was printed with the text
    of a user marked, and what the terminal will answer. *)
Inductive piece := Code (t : text) | Plain (t : text).
Record console := Console { isatty : bool; __attribs : cio_attribs; printed : list piece; answers : list input; settings : termios }.
Definition set_attribs (a : cio_attribs) (c : console) : console := Console (isatty c) a (printed c) (answers c) (settings c).
Definition print (p : piece) (c : console) : console := Console (isatty c) (__attribs c) (printed c ++ [p]) (answers c) (settings c).
Definition set_answers (l : list input) (c : console) : console := Console (isatty c) (__attribs c) (printed c) l (settings c).
Definition set_settings (t : termios) (c : console) : console := Console (isatty c) (__attribs c) (printed c) (answers c) t.

Definition undefined_attribs (f : Z) : cio_attribs := Attribs INA_CIO_COLOR_UNDEFINED INA_CIO_COLOR_UNDEFINED f.
Definition ina_cio_init (c : console) : console := set_attribs (undefined_attribs 0) c.
Definition ina_cio_set_attribs (a : cio_attribs) (c : console) : console :=
  if negb (isatty c) then c
  else
    let reset := negb (Z.land (flags a) INA_CIO_RESET =? 0) in
    let c := set_attribs (if reset then undefined_attribs 0 else a) c in
    let c := if bool_decide (fg_color (__attribs c) <> INA_CIO_COLOR_UNDEFINED) || reset then print (Code (__fg_colors (fg_color (__attribs c)))) c else c in
    if bool_decide (bg_color (__attribs c) <> INA_CIO_COLOR_UNDEFINED) || reset then print (Code (__bg_colors (bg_color (__attribs c)))) c else c.
Definition ina_cio_get_attribs (c : console) : cio_attribs := __attribs c.
Definition ina_cio_reset (c : console) : console := ina_cio_set_attribs (undefined_attribs INA_CIO_RESET) c.
Definition ina_cio_show_cursor (show : bool) (c : console) : console :=
  print (Code (__CSI ++ bytes_of_string "?25" ++ [if show then 104 else 108])) c.
(** [ws] is the size that the terminal tells. *)
Definition ina_cio_get_limits (ws : Z * Z) (c : console) (old : cio_pos) : cio_pos := if isatty c then Pos ws.1 ws.2 else old.

(** ** The position of the cursor *)

(** A byte, or a negative number; [None] waits for ever. *)
Definition __INA_RD_EOF : Z := -1.
Definition __INA_RD_EIO : Z := -2.
Fixpoint rd (l : list input) : option (Z * list input) :=
  match l with
  | [] => None
  | Byte b :: l => Some (b, l)
  | Input_end :: l => Some (__INA_RD_EOF, l)
  | Input_again :: l => rd l
  | Input_error :: l => Some (__INA_RD_EIO, l)
  end.
Definition EIO : Z := 5.
(** What is written, with the result of each call. *)
Fixpoint wr (data : text) (l : list output) : option (text * Z) :=
  match data with
  | [] => Some ([], 0)
  | _ =>
      match l with
      | [] => None
      | Took n :: l => if 0 <? n then '(w, r) ← wr (drop (Z.to_nat n) data) l; Some (take (Z.to_nat n) data ++ w, r) else Some ([], EIO)
      | Output_again :: l => wr data l
      | Output_error e :: _ => Some ([], e)
      end
  end.
(** A number: the digits read from [result] on, and what follows them; [None] also if
    it is no [int]. *)
Fixpoint rd_number (fuel : nat) (n result : Z) (l : list input) : option (Z * Z * list input) :=
  match fuel with
  | O => None
  | S fuel =>
      if is_digit result then
        m ← int_op (10 * n + result);
        '(result, l) ← rd l;
        rd_number fuel (m - 48) result l
      else Some (n, result, l)
  end.
(** The answer of the terminal: the position if it is one, and what is left. *)
Definition rd_answer (l : list input) : option (option cio_pos * list input) :=
  '(r, l) ← rd l;
  if negb (r =? 27) then Some (None, l)
  else
    '(r, l) ← rd l;
    if negb (r =? 91) then Some (None, l)
    else
      '(r, l) ← rd l;
      '(rows, r, l) ← rd_number (S (length l)) 0 r l;
      if negb (r =? 59) then Some (None, l)
      else
        '(r, l) ← rd l;
        '(cols, r, l) ← rd_number (S (length l)) 0 r l;
        if negb (r =? 82) then Some (None, l) else Some (Some (Pos rows cols), l).
(** The calls that get and set the settings fail with these errors, if they do; [writes]
    are the results of the writes. *)
Record tty_calls := TtyCalls { tcgetattr_fails : option Z; tcsetattr_fails : option Z; writes : list output }.
Definition __ina_get_cursor_pos (t : tty_calls) (pos : cio_pos) (c : console) : option (console * cio_pos * Z) :=
  match tcgetattr_fails t with
  | Some e => Some (c, pos, e)
  | None =>
      let saved := settings c in
      match tcsetattr_fails t with
      | Some e => Some (c, pos, e)
      | None =>
          let c := set_settings (Termios false false false) c in
          '(w, e) ← wr (__CSI ++ bytes_of_string "6n") (writes t);
          let c := print (Code w) c in
          if negb (e =? 0) then Some (set_settings saved c, pos, e)
          else
            '(p, l) ← rd_answer (answers c);
            let c := set_settings saved (set_answers l c) in
            Some (match p with Some p => (c, p, 0) | None => (c, pos, EIO) end)
      end
  end.
Definition ina_cio_get_pos (t : tty_calls) (pos : cio_pos) (c : console) : option (console * cio_pos) :=
  if isatty c then '(c, pos, _) ← __ina_get_cursor_pos t pos c; Some (c, pos) else Some (c, pos).
Definition decimal (n : Z) : text := bytes_of_string (pretty n).
(** [None] where a number is no [int], or the terminal never answers. *)
Definition move (row col : Z) (c : console) : option console :=
  r ← int_op (row + 1); k ← int_op (col + 1);
  Some (print (Code (__CSI ++ decimal r ++ [59] ++ decimal k ++ [72])) c).
Definition ina_cio_move_to_row_and_col (t : tty_calls) (row_ col_ : Z) (c : console) : option console :=
  if negb (isatty c) then Some c
  else if (col_ <? 0) && (row_ <? 0) then Some c
  else if (col_ <? 0) || (row_ <? 0) then
    '(c, pos) ← ina_cio_get_pos t (Pos 0 0) c;
    if row_ <? 0 then move (row pos) col_ c else move row_ (col pos) c
  else move row_ col_ c.
Definition ina_cio_move_to_pos (t : tty_calls) (p : cio_pos) (c : console) : option console := ina_cio_move_to_row_and_col t (row p) (col p) c.
Definition ina_cio_clear (t : tty_calls) (c : console) : option console :=
  ina_cio_move_to_row_and_col t 0 0 (print (Code (sgr "2J")) c).
(** [vprintf] prints the text that the format gives. *)
Definition ina_cio_printf (t : tty_calls) (row_ col_ : Z) (fg bg : color) (s : text) (c : console) : option (console * Z) :=
  '(c, set) ← (if isatty c then
      c ← ina_cio_move_to_row_and_col t row_ col_ c;
      let attribs := ina_cio_get_attribs c in
      let new_fg := if bool_decide (fg_color attribs = fg) then INA_CIO_COLOR_UNDEFINED else fg in
      let new_bg := if bool_decide (bg_color attribs = bg) then INA_CIO_COLOR_UNDEFINED else bg in
      let set := bool_decide (fg_color attribs <> fg) || bool_decide (bg_color attribs <> bg) in
      Some (if set then ina_cio_set_attribs (Attribs new_bg new_fg (flags attribs)) c else c, set)
    else Some (c, false));
  let c := print (Plain s) c in
  Some (if set : bool then ina_cio_reset c else c, Z.of_nat (length s)).

(** ** Lines *)
Definition try_again : Z := INA_ERR E_TRY_AGAIN.
(** Each turn: nothing to read, a read that fails or gives nothing, or a key. *)
Inductive event := Nothing | Read_fails | Read_ends | Key (c : Z).
Record reading := Reading { line : option text; screen : text; echoes : bool }.
Definition erase : text := [8; 32; 8].
Definition substr (t : text) (start end_ : Z) : text :=
  take (Z.to_nat (Str.__ina_str_substr_internal start end_ (Z.of_nat (length t)))) (drop (Z.to_nat start) t).
(** What a key does to the line, and whether reading ends with it. *)
Definition press (rcv : bool) (k : Z) (r : reading) : reading * bool :=
  let l := default [] (line r) in
  if (k =? 10) || (k =? 13) then (Reading (Some l) (screen r) (echoes r), true)
  else if (k =? 8) || (k =? 127) then
    (if (0 <? length l)%nat then Reading (Some (substr l 0 (Z.of_nat (length l) - 1))) (screen r ++ erase) (echoes r)
     else Reading (Some l) (screen r) (echoes r), false)
  else if (32 <=? k) && (k <=? 126) then
    if rcv then (Reading (Some (l ++ [k])) (screen r ++ erase) true, true) else (Reading (Some (l ++ [k])) (screen r) (echoes r), false)
  else (Reading (Some l) (screen r) (echoes r), false).
(** [None] waits for ever, or takes a byte that was not read. *)
Fixpoint read_loop (blocking rcv : bool) (l : list event) (r : reading) : option (reading * result unit * list event) :=
  match l with
  | [] => None
  | Nothing :: l | Read_fails :: l => if blocking then read_loop blocking rcv l r else Some (r, Err try_again, l)
  | Read_ends :: _ => None
  | Key k :: l =>
      let '(r, stop) := press rcv k r in
      if stop then Some (r, Ok tt, l)
      else if blocking then read_loop blocking rcv l r else Some (r, Err try_again, l)
  end.
Definition __ina_cio_read_line (blocking rcv : bool) (l : list event) (r : reading) : option (reading * result unit * list event) :=
  read_loop blocking rcv l (if rcv then Reading (line r) (screen r) false else r).
Definition ina_cio_read_line : list event -> reading -> option (reading * result unit * list event) := __ina_cio_read_line true false.
Definition ina_cio_read_line_non_block : list event -> reading -> option (reading * result unit * list event) := __ina_cio_read_line false false.
(** [garbage] is what the variable [line] holds that is never set. *)
Definition ina_cio_read_char_non_block (garbage : option text) (l : list event) (r : reading) : option (reading * result Z * list event) :=
  '(r, rc, l) ← __ina_cio_read_line false true l (Reading garbage (screen r) (echoes r));
  Some (Reading None (screen r) (echoes r), match rc with Ok _ => Ok (chr (default [] (line r))) | Err _ => Err try_again end, l).

(** ** Lines are what is typed *)
Definition newline (k : Z) : bool := (k =? 10) || (k =? 13).
Definition backspace (k : Z) : bool := (k =? 8) || (k =? 127).
Definition printable (k : Z) : bool := (32 <=? k) && (k <=? 126).
(** The line and the screen after a key that does not end the line. *)
Definition typed (s : text * text) (k : Z) : text * text :=
  let '(l, o) := s in
  if backspace k then (l, if bool_decide (l = []) then o else o ++ erase)
  else if printable k then (l ++ [k], o) else s.
Definition keys (l : list event) : text := omap (fun e => match e with Key k => Some k | _ => None end) l.
(** Events before the line ends. *)
Definition goes_on (e : event) : Prop := match e with Key k => newline k = false | Read_ends => False | _ => True end.
Definition line_of (r : reading) : text := default [] (line r).
Definition reading_of (s : text * text) (r : reading) : reading := Reading (Some s.1) s.2 (echoes r).

Lemma substr_all (t : text) : t <> [] -> Z.of_nat (length t) < 2 ^ 31 -> substr t 0 (Z.of_nat (length t) - 1) = t.
Proof.
  intros Ht Hl. unfold substr. assert (length t <> 0%nat) by (by destruct t). rewrite Str.substr_internal_spec by lia.
  rewrite drop_0. apply take_ge. lia.
Qed.
Lemma press_typed (k : Z) (r : reading) : newline k = false -> Z.of_nat (length (line_of r)) < 2 ^ 31 ->
  press false k r = (reading_of (typed (line_of r, screen r) k) r, false).
Proof.
  intros Hk Hl. unfold press, typed, reading_of, line_of in *. fold (newline k). rewrite Hk. fold (backspace k). fold (printable k).
  destruct (backspace k).
  - destruct (bool_decide_reflect (default [] (line r) = [])) as [->|Hne]; [done|].
    assert (length (default [] (line r)) <> 0%nat) by (by destruct (default [] (line r))). rewrite (proj2 (Nat.ltb_lt 0 _)) by lia. by rewrite substr_all.
  - by destruct (printable k).
Qed.
Lemma typed_length (ks : text) (s : text * text) : (length (fold_left typed ks s).1 <= length s.1 + length ks)%nat.
Proof.
  revert s. induction ks as [|k ks IH]; intros [l o]; cbn [fold_left]; [cbn; lia|]. etransitivity; [apply IH|].
  unfold typed. destruct (backspace k); [cbn; lia|]. destruct (printable k); cbn; rewrite ?length_app; cbn; lia.
Qed.
Lemma typed_line (ks : text) (s : text * text) : (fold_left typed ks s).1 = s.1 ++ List.filter (fun k => printable k && negb (backspace k)) ks.
Proof.
  revert s. induction ks as [|k ks IH]; intros [l o]; cbn [fold_left List.filter]; [by rewrite app_nil_r|]. rewrite IH. unfold typed.
  destruct (backspace k); cbn [negb]; rewrite ?andb_false_r, ?andb_true_r; [done|]. destruct (printable k); cbn [fst]; by rewrite <- ?app_assoc.
Qed.
(** A caller that polls until there is a line. *)
Fixpoint poll (n : nat) (l : list event) (r : reading) : option (reading * result unit * list event) :=
  match n with
  | O => None
  | S n => '(r, rc, l) ← ina_cio_read_line_non_block l r; match rc with Ok _ => Some (r, rc, l) | Err _ => poll n l r end
  end.
Lemma line_read (evs rest : list event) (nl : Z) (r : reading) (n : nat) : newline nl = true -> Forall goes_on evs ->
  Z.of_nat (length (line_of r) + length evs) < 2 ^ 31 -> (length evs < n)%nat ->
  let result := Some (reading_of (fold_left typed (keys evs) (line_of r, screen r)) r, Ok tt, rest) in
  ina_cio_read_line (evs ++ Key nl :: rest) r = result /\ poll n (evs ++ Key nl :: rest) r = result.
Proof.
  intros Hnl Hevs. cbn zeta. revert r n. induction Hevs as [|e evs He Hevs IH]; intros r n Hlen Hn; (destruct n as [|n]; [lia|]).
  - unfold ina_cio_read_line, __ina_cio_read_line. cbn [app read_loop poll]. unfold ina_cio_read_line_non_block, __ina_cio_read_line. cbn [app read_loop].
    unfold press. fold (newline nl). rewrite Hnl. done.
  - cbn [length] in Hlen, Hn. unfold ina_cio_read_line, __ina_cio_read_line in *. cbn [app read_loop poll].
    unfold ina_cio_read_line_non_block, __ina_cio_read_line in *. cbn [app read_loop].
    destruct e as [| | |k]; [apply IH; lia|apply IH; lia|done|]. cbn in He. rewrite press_typed by (done || lia). cbn [mbind option_bind].
    set (s := typed (line_of r, screen r) k). assert (keys (Key k :: evs) = k :: keys evs) as -> by done. cbn [fold_left]. fold s.
    assert (length s.1 <= S (length (line_of r)))%nat as Hs.
    { pose proof (typed_length [k] (line_of r, screen r)) as H. cbn [fold_left fst length] in H. fold s in H. lia. }
    assert (line_of (reading_of s r) = s.1) as Hline by done.
    destruct (IH (reading_of s r) n) as [H1 H2]; [rewrite Hline; lia|lia|]. rewrite Hline in H1, H2. cbn [screen reading_of echoes] in H1, H2.
    rewrite H1, H2. by destruct s.
Qed.

(** C12. Lines.  Until the key that ends the line, the printable characters typed
    are added to it in their order; the blocking call returns it, and polling with
    the other gives the same line, leaving what was typed after it.  A backspace
    erases a character on the screen, not in the line. *)
Theorem lines_are_what_is_typed (evs rest : list event) (nl : Z) (r : reading) (n : nat) : newline nl = true -> Forall goes_on evs ->
  Z.of_nat (length (line_of r) + length evs) < 2 ^ 31 -> (length evs < n)%nat ->
  exists r' : reading, ina_cio_read_line (evs ++ Key nl :: rest) r = Some (r', Ok tt, rest) /\
    poll n (evs ++ Key nl :: rest) r = Some (r', Ok tt, rest) /\
    line r' = Some (line_of r ++ List.filter (fun k => printable k && negb (backspace k)) (keys evs)) /\ echoes r' = echoes r.
Proof.
  intros Hnl Hevs Hlen Hn. destruct (line_read evs rest nl r n Hnl Hevs Hlen Hn) as [H1 H2]. eexists. split; [exact H1|]. split; [exact H2|].
  split; [|done]. cbn. by rewrite typed_line.
Qed.
Definition typing : list event := [Key 97; Nothing; Key 98; Key 8; Read_fails; Key 99].
Lemma lines_are_what_is_typed_witness : exists r' : reading,
  ina_cio_read_line (typing ++ Key 10 :: [Key 100]) (Reading None [] true) = Some (r', Ok tt, [Key 100]) /\ line r' = Some [97; 98; 99].
Proof.
  destruct (lines_are_what_is_typed typing [Key 100] 10 (Reading None [] true) 7) as (r' & H1 & _ & H2 & _); [reflexivity| |cbn; lia|cbn; lia|].
  - repeat (apply Forall_cons; split; [first [exact I|reflexivity]|]). apply Forall_nil_2.
  - exists r'. exact (conj H1 H2).
Defined.

(** If no key was pressed, or the enter key, reading a character leaves the echo
    switched off. *)
Lemma echo_stays_off (garbage : option text) (l : list event) (r : reading) :
  (exists r' : reading, ina_cio_read_char_non_block garbage (Nothing :: l) r = Some (r', Err try_again, l) /\ echoes r' = false) /\
  (exists (r' : reading) (k : Z), ina_cio_read_char_non_block garbage (Key 10 :: l) r = Some (r', Ok k, l) /\ echoes r' = false).
Proof. split; [by eexists|by eexists _, _]. Qed.

(** ** The position that the terminal tells *)

(** The input gives these bytes, perhaps after some waiting, and then [rest]. *)
Fixpoint spells (t : text) (l rest : list input) : Prop :=
  match t with [] => l = rest | b :: t => exists l' : list input, rd l = Some (b, l') /\ spells t l' rest end.
Lemma rd_shorter (l l' : list input) (b : Z) : rd l = Some (b, l') -> (length l' < length l)%nat.
Proof. induction l as [|[x| | |] l IH]; cbn; [done|by intros [= <- <-]; lia..| |by intros [= <- <-]; lia]. intros H. specialize (IH H). lia. Qed.
Lemma spells_length (t : text) (l rest : list input) : spells t l rest -> (length t <= length l)%nat.
Proof. revert l. induction t as [|b t IH]; intros l; cbn; [lia|]. intros (l' & Hr & Hs). apply rd_shorter in Hr. specialize (IH l' Hs). lia. Qed.
Lemma digits_grow (ds : text) (n : Z) : 0 <= n -> n <= fst (digits n ds).
Proof.
  revert n. induction ds as [|d ds IH]; intros n Hn; cbn [digits]; [done|]. destruct (is_digit d) eqn:Hd; [|done].
  unfold is_digit in Hd. specialize (IH (n * 10 + (d - 48)) ltac:(lia)). lia.
Qed.
Lemma rd_number_digits (ds : text) (n x b : Z) (l rest : list input) (t : text) (fuel : nat) : forallb is_digit ds = true -> is_digit x = false ->
  ds ++ [x] = b :: t -> spells t l rest -> 0 <= n -> fst (digits n ds) + 48 < 2 ^ 31 -> (length ds < fuel)%nat ->
  rd_number fuel n b l = Some (fst (digits n ds), x, rest).
Proof.
  revert n b l t fuel. induction ds as [|d ds IH]; intros n b l t fuel Hds Hx Hb Hs Hn Hv Hf; (destruct fuel as [|fuel]; [lia|]); cbn [rd_number].
  - injection Hb as <- <-. cbn in Hs. subst l. by rewrite Hx.
  - cbn [app] in Hb. injection Hb as <- <-. cbn [forallb] in Hds. apply andb_true_iff in Hds as [Hd Hds]. rewrite Hd.
    cbn [digits] in *. rewrite Hd in *. assert (48 <= d <= 57) as Hr by (unfold is_digit in Hd; lia).
    pose proof (digits_grow ds (n * 10 + (d - 48)) ltac:(lia)) as Hle. cbn [length] in Hf.
    unfold int_op. rewrite (proj2 (Z.leb_le _ _)), (proj2 (Z.ltb_lt _ _)) by lia. cbn [andb mbind option_bind].
    destruct (ds ++ [x]) as [|b' t'] eqn:Ht; [by destruct ds|]. destruct Hs as (l' & Hrd & Hs). rewrite Hrd. cbn [mbind option_bind].
    replace (10 * n + d - 48) with (n * 10 + (d - 48)) by lia. apply (IH _ b' l' t'); done || lia.
Qed.
(** ESC [ row ; column R *)
Definition report (rows cols : text) : text := [27; 91] ++ rows ++ [59] ++ cols ++ [82].
Definition coordinate (ds : text) : Prop := ds <> [] /\ forallb is_digit ds = true /\ value ds + 48 < 2 ^ 31.
Lemma spells_app (t u : text) (l rest : list input) : spells (t ++ u) l rest <-> exists l' : list input, spells t l l' /\ spells u l' rest.
Proof.
  revert l. induction t as [|b t IH]; intros l; cbn [app spells]; [split; [eauto|by intros (l' & -> & H)]|]. split.
  - intros (l1 & Hr & Hs). apply IH in Hs as (l2 & H1 & H2). exists l2. eauto.
  - intros (l2 & (l1 & Hr & H1) & H2). exists l1. split; [done|]. apply IH. eauto.
Qed.
Lemma number_read (ds : text) (x : Z) (l rest : list input) : coordinate ds -> is_digit x = false -> spells (ds ++ [x]) l rest ->
  exists (b : Z) (l' : list input), rd l = Some (b, l') /\ rd_number (S (length l')) 0 b l' = Some (value ds, x, rest).
Proof.
  intros (Hne & Hds & Hv) Hx Hs. destruct (ds ++ [x]) as [|b t] eqn:Ht; [by destruct ds|]. destruct Hs as (l' & Hr & Hs). exists b, l'. split; [done|].
  apply (rd_number_digits ds 0 x b l' rest t); try done. apply spells_length in Hs.
  apply (f_equal length) in Ht. rewrite length_app in Ht. cbn in Ht. lia.
Qed.
Lemma answer_read (rows cols : text) (l rest : list input) : coordinate rows -> coordinate cols -> spells (report rows cols) l rest ->
  rd_answer l = Some (Some (Pos (value rows) (value cols)), rest).
Proof.
  intros Hr Hc. unfold report. cbn [app]. intros (l1 & H1 & l2 & H2 & Hs). change (59 :: cols ++ [82]) with ([59] ++ cols ++ [82]) in Hs.
  rewrite app_assoc in Hs. apply spells_app in Hs as (l3 & Hs3 & Hs4).
  destruct (number_read rows 59 l2 l3 Hr eq_refl Hs3) as (b & l2' & H3 & H4). destruct (number_read cols 82 l3 rest Hc eq_refl Hs4) as (b' & l3' & H5 & H6).
  unfold rd_answer. rewrite H1. cbn [mbind option_bind]. change (27 =? 27) with true. cbn [negb]. rewrite H2. cbn [mbind option_bind].
  change (91 =? 91) with true. cbn [negb]. rewrite H3. cbn [mbind option_bind]. rewrite H4. cbn [mbind option_bind]. change (59 =? 59) with true. cbn [negb].
  rewrite H5. cbn [mbind option_bind]. rewrite H6. done.
Qed.
(** All is written and no call fails. *)
Definition works (t : tty_calls) : Prop :=
  tcgetattr_fails t = None /\ tcsetattr_fails t = None /\ wr (__CSI ++ bytes_of_string "6n") (writes t) = Some (__CSI ++ bytes_of_string "6n", 0).
Lemma position_read (t : tty_calls) (pos : cio_pos) (c : console) (rows cols : text) (rest : list input) : isatty c = true -> works t ->
  coordinate rows -> coordinate cols -> spells (report rows cols) (answers c) rest ->
  ina_cio_get_pos t pos c = Some (Console true (__attribs c) (printed c ++ [Code (__CSI ++ bytes_of_string "6n")]) rest (settings c), Pos (value rows) (value cols)).
Proof.
  intros Htty (Hg & Hset & Hw) Hr Hc Hs. unfold ina_cio_get_pos, __ina_get_cursor_pos. rewrite Htty, Hg, Hset, Hw. cbn [mbind option_bind].
  change (0 =? 0) with true. cbn [negb answers print set_settings]. rewrite (answer_read rows cols _ _ Hr Hc Hs). destruct c as [tt at_ pr an se]. cbn in Htty. by rewrite Htty.
Qed.

(** Moving only the column asks for the row, which the terminal counts from 1, and then
    adds 1 again: the cursor goes one row down. *)
Lemma moving_the_column_moves_the_row (t : tty_calls) (c : console) (rows cols : text) (rest : list input) (k : Z) : isatty c = true -> works t ->
  coordinate rows -> coordinate cols -> spells (report rows cols) (answers c) rest -> 0 <= k < 2 ^ 31 - 1 ->
  option_map printed (ina_cio_move_to_row_and_col t (-1) k c) =
    Some (printed c ++ [Code (__CSI ++ bytes_of_string "6n")] ++ [Code (__CSI ++ decimal (value rows + 1) ++ [59] ++ decimal (k + 1) ++ [72])]).
Proof.
  intros Htty Ht Hr Hc Hs Hk. unfold ina_cio_move_to_row_and_col. rewrite Htty. cbn [negb]. rewrite (proj2 (Z.ltb_ge k 0)) by lia. cbn [andb orb].
  change (-1 <? 0) with true. cbn iota. rewrite (position_read t _ c rows cols rest) by done. cbn [mbind option_bind].
  assert (0 <= value rows + 1 < 2 ^ 31) as Hv by (destruct Hr as (_ & _ & Hv); unfold value in *; pose proof (digits_grow rows 0 ltac:(lia)); lia).
  unfold move, int_op. cbn [row]. rewrite !(proj2 (Z.leb_le _ _)), !(proj2 (Z.ltb_lt _ _)) by lia. cbn. by rewrite <- app_assoc.
Qed.

(** ** Colours on the terminal *)
Definition colours : list color := [INA_CIO_COLOR_BLACK; INA_CIO_COLOR_BLUE; INA_CIO_COLOR_RED; INA_CIO_COLOR_MAGENTA; INA_CIO_COLOR_GREEN;
  INA_CIO_COLOR_CYAN; INA_CIO_COLOR_YELLOW; INA_CIO_COLOR_WHITE].
(** What a code does to the colours of a terminal, foreground first; the standard colour is UNDEFINED. *)
Definition interpret (s : color * color) (p : piece) : color * color :=
  match p with
  | Plain _ => s
  | Code t =>
      match find (fun c => bool_decide (t = __fg_colors c)) colours with
      | Some c => (c, s.2)
      | None =>
          match find (fun c => bool_decide (t = __bg_colors c)) colours with
          | Some c => (s.1, c)
          | None => if bool_decide (t = sgr "0m") then (INA_CIO_COLOR_UNDEFINED, INA_CIO_COLOR_UNDEFINED) else s
          end
      end
  end.
Definition shows (l : list piece) : color * color := fold_left interpret l (INA_CIO_COLOR_UNDEFINED, INA_CIO_COLOR_UNDEFINED).
(** [__attribs] is what the terminal shows, where it is defined, and asks for no reset. *)
Definition agrees (c : console) : Prop :=
  Z.land (flags (__attribs c)) INA_CIO_RESET = 0 /\
  (fg_color (__attribs c) <> INA_CIO_COLOR_UNDEFINED -> (shows (printed c)).1 = fg_color (__attribs c)) /\
  (bg_color (__attribs c) <> INA_CIO_COLOR_UNDEFINED -> (shows (printed c)).2 = bg_color (__attribs c)).
Lemma shows_app (l : list piece) (p : piece) : shows (l ++ [p]) = interpret (shows l) p.
Proof. unfold shows. by rewrite fold_left_app. Qed.
Lemma interpret_fg (s : color * color) (c : color) : interpret s (Code (__fg_colors c)) = if decide (c = INA_CIO_COLOR_UNDEFINED) then (c, c) else (c, s.2).
Proof. by destruct c. Qed.
Lemma interpret_bg (s : color * color) (c : color) : interpret s (Code (__bg_colors c)) = if decide (c = INA_CIO_COLOR_UNDEFINED) then (c, c) else (s.1, c).
Proof. by destruct c. Qed.
(** Codes that do not end in m change no colour. *)
Lemma interpret_other (s : color * color) (t : text) : last t <> Some 109 -> interpret s (Code t) = s.
Proof.
  intros Ht. assert (forall u : text, last u = Some 109 -> bool_decide (t = u) = false) as Hne by (intros u Hu; apply bool_decide_eq_false; congruence).
  unfold interpret. cbn [find colours]. by rewrite !Hne.
Qed.
Lemma is_defined (c : color) : bool_decide (c <> INA_CIO_COLOR_UNDEFINED) = if decide (c = INA_CIO_COLOR_UNDEFINED) then false else true.
Proof. by destruct c. Qed.
Lemma set_attribs_shows (a : cio_attribs) (c : console) : isatty c = true -> let c' := ina_cio_set_attribs a c in
  isatty c' = true /\ answers c' = answers c /\ agrees c' /\
  let reset := negb (Z.land (flags a) INA_CIO_RESET =? 0) in
  __attribs c' = (if reset then undefined_attribs 0 else a) /\
  shows (printed c') = if reset then (INA_CIO_COLOR_UNDEFINED, INA_CIO_COLOR_UNDEFINED)
    else (if decide (fg_color a = INA_CIO_COLOR_UNDEFINED) then (shows (printed c)).1 else fg_color a,
          if decide (bg_color a = INA_CIO_COLOR_UNDEFINED) then (shows (printed c)).2 else bg_color a).
Proof.
  intros Htty. unfold ina_cio_set_attribs, agrees. rewrite Htty. cbn [negb].
  destruct (negb (Z.land (flags a) INA_CIO_RESET =? 0)) eqn:Hr; cbn [set_attribs __attribs undefined_attribs fg_color bg_color].
  - rewrite !orb_true_r. cbn [print printed isatty answers __attribs fg_color bg_color]. rewrite !shows_app, interpret_bg. cbn. tauto.
  - apply negb_false_iff, Z.eqb_eq in Hr. rewrite !orb_false_r. destruct a as [bg fg f]. cbn [fg_color bg_color flags] in *. rewrite !is_defined.
    destruct (decide (fg = INA_CIO_COLOR_UNDEFINED)); cbn [print printed isatty answers __attribs fg_color bg_color set_attribs]; rewrite ?is_defined;
      (destruct (decide (bg = INA_CIO_COLOR_UNDEFINED)); cbn [print printed isatty answers __attribs fg_color bg_color set_attribs];
       rewrite ?shows_app, ?interpret_fg, ?interpret_bg, ?decide_False by done; destruct (shows (printed c)); cbn; tauto).
Qed.

(** Writing and moving change no colour. *)
Definition same_look (c c' : console) : Prop := isatty c' = isatty c /\ __attribs c' = __attribs c /\ shows (printed c') = shows (printed c).
Lemma wr_part (data w : text) (e : Z) (l : list output) : wr data l = Some (w, e) -> forall x : Z, x ∈ w -> x ∈ data.
Proof.
  revert data w. induction l as [|o l IH]; intros [|d data] w; cbn; try by intros [= <- <-].
  destruct o as [n| |e']; [|by apply IH|by intros [= <- <-] x Hx%elem_of_nil].
  destruct (0 <? n); [|by intros [= <- <-] x Hx%elem_of_nil]. destruct (wr (drop (Z.to_nat n) (d :: data)) l) as [[w' r]|] eqn:Hw; [|done]. cbn.
  intros [= <- <-] x Hx. apply elem_of_app in Hx as [Hx|Hx].
  - rewrite <- (take_drop (Z.to_nat n) (d :: data)). apply elem_of_app. by left.
  - rewrite <- (take_drop (Z.to_nat n) (d :: data)). apply elem_of_app. right. by apply (IH _ _ Hw).
Qed.
Lemma print_other (t : text) (c : console) : last t <> Some 109 -> same_look c (print (Code t) c).
Proof. intros Ht. split; [done|]. split; [done|]. cbn [print printed]. by rewrite shows_app, interpret_other. Qed.
Lemma move_look (r k : Z) (c c' : console) : move r k c = Some c' -> same_look c c'.
Proof.
  unfold move. destruct (int_op (r + 1)) as [a|]; [|done]. destruct (int_op (k + 1)) as [b|]; [|done]. cbn [mbind option_bind]. intros [= <-].
  apply print_other. intros Hl. pose proof (last_snoc 72 (__CSI ++ decimal a ++ [59] ++ decimal b)) as H. rewrite <- !app_assoc in H.
  change (last (__CSI ++ decimal a ++ [59] ++ decimal b ++ [72]) = Some 109) in Hl. congruence.
Qed.
Lemma get_pos_look (t : tty_calls) (p p' : cio_pos) (c c' : console) : ina_cio_get_pos t p c = Some (c', p') -> same_look c c'.
Proof.
  unfold ina_cio_get_pos, __ina_get_cursor_pos. destruct (isatty c) eqn:Htty; [|by intros [= <- <-]].
  destruct (tcgetattr_fails t); [by intros [= <- <-]|]. destruct (tcsetattr_fails t); [by intros [= <- <-]|].
  destruct (wr _ (writes t)) as [[w e]|] eqn:Hw; [|done]. cbn [mbind option_bind].
  assert (last w <> Some 109) as Hlast.
  { intros Hl. apply last_Some_elem_of in Hl. pose proof (wr_part _ _ _ _ Hw 109 Hl) as Hin. cbn in Hin. rewrite !elem_of_cons in Hin.
    destruct Hin as [H|[H|[H|[H|H]]]]; try discriminate H. by apply elem_of_nil in H. }
  destruct (negb (e =? 0)).
  - intros [= <- <-]. by destruct (print_other w c Hlast) as (_ & _ & Hs).
  - cbn [answers print set_settings]. destruct (rd_answer (answers c)) as [[q l]|]; [|done]. cbn [mbind option_bind].
    pose proof (print_other w c Hlast) as (_ & _ & Hs). cbn in Hs. by destruct q; intros [= <- <-].
Qed.
Lemma move_to_look (t : tty_calls) (r k : Z) (c c' : console) : ina_cio_move_to_row_and_col t r k c = Some c' -> same_look c c'.
Proof.
  unfold ina_cio_move_to_row_and_col. destruct (negb (isatty c)); [by intros [= <-]|]. destruct (_ && _); [by intros [= <-]|].
  destruct (_ || _); [|apply move_look]. destruct (ina_cio_get_pos t (Pos 0 0) c) as [[c1 p]|] eqn:Hp; [|done]. cbn [mbind option_bind].
  apply get_pos_look in Hp as (H1 & H2 & H3). destruct (r <? 0); intros (E1 & E2 & E3)%move_look; (split; [congruence|]; split; congruence).
Qed.

Lemma reset_prints (c : console) : isatty c = true -> printed (ina_cio_reset c) = printed c ++ [Code (sgr "0m"); Code (sgr "0m")].
Proof.
  intros Htty. unfold ina_cio_reset, ina_cio_set_attribs. rewrite Htty.
  change ((printed c ++ [Code (sgr "0m")]) ++ [Code (sgr "0m")] = printed c ++ [Code (sgr "0m"); Code (sgr "0m")]). by rewrite <- app_assoc.
Qed.

(** C27. Colours.  A text printed to a terminal appears in the colours asked for, if
    [__attribs] agrees with the terminal, which holds at the start and which setting
    colours and printing keep; if colours had to be set for the text, all are
    the standard ones afterwards, whatever was set before. *)
Theorem printing_in_colours (t : tty_calls) (row_ col_ : Z) (fg bg : color) (s : text) (c c' : console) (n : Z) (a : cio_attribs) :
  isatty c = true -> agrees c ->
  (agrees (ina_cio_init (Console true a [] (answers c) (settings c))) /\ agrees (ina_cio_set_attribs a c)) /\
  (fg <> INA_CIO_COLOR_UNDEFINED -> bg <> INA_CIO_COLOR_UNDEFINED -> ina_cio_printf t row_ col_ fg bg s c = Some (c', n) ->
    n = Z.of_nat (length s) /\ agrees c' /\
    exists before after : list piece, printed c' = before ++ Plain s :: after /\ shows before = (fg, bg) /\
      if decide (fg_color (__attribs c) = fg /\ bg_color (__attribs c) = bg) then __attribs c' = __attribs c /\ after = []
      else __attribs c' = undefined_attribs 0 /\ shows (printed c') = (INA_CIO_COLOR_UNDEFINED, INA_CIO_COLOR_UNDEFINED)).
Proof.
  intros Htty Hag. split; [split; [done|by apply set_attribs_shows]|]. intros Hfg Hbg. unfold ina_cio_printf. rewrite Htty.
  destruct (ina_cio_move_to_row_and_col t row_ col_ c) as [c1|] eqn:Hmove; [|done]. cbn [mbind option_bind].
  apply move_to_look in Hmove as (Htty1 & Hat1 & Hsh1). unfold ina_cio_get_attribs. rewrite Hat1. destruct Hag as (Hres & Hafg & Habg).
  rewrite Htty in Htty1. set (f0 := fg_color (__attribs c)) in *. set (b0 := bg_color (__attribs c)) in *.
  destruct (decide (f0 = fg /\ b0 = bg)) as [[Ef Eb]|Hne].
  - rewrite !(bool_decide_eq_false_2 (_ <> _)) by (intros Hno; by apply Hno). cbn [orb]. intros [= <- <-]. split; [done|].
    assert (shows (printed c1) = (fg, bg)) as Hs by (rewrite Hsh1, (surjective_pairing (shows _)), Hafg, Habg by congruence; congruence).
    split; [split; [by cbn; rewrite Hat1|]; cbn [print printed __attribs]; rewrite shows_app, Hat1; cbn [interpret]; rewrite Hs; done|].
    exists (printed c1), []. cbn [print printed __attribs]. done.
  - assert (bool_decide (f0 <> fg) || bool_decide (b0 <> bg) = true) as ->.
    { destruct (decide (f0 = fg)) as [E1|N1]; [|by rewrite bool_decide_eq_true_2]. rewrite (bool_decide_eq_true_2 (b0 <> bg)) by tauto. apply orb_true_r. }
    set (na := Attribs _ _ _). pose proof (set_attribs_shows na c1 Htty1) as (Htty2 & _ & _ & Hat2 & Hsh2). cbn zeta in Hat2, Hsh2.
    change (flags na) with (flags (__attribs c)) in Hat2, Hsh2. rewrite Hres in Hat2, Hsh2. change (0 =? 0) with true in Hat2, Hsh2. cbn [negb] in Hat2, Hsh2.
    set (c2 := ina_cio_set_attribs na c1) in *. intros [= <- <-]. split; [done|].
    assert (shows (printed c2) = (fg, bg)) as Hs.
    { rewrite Hsh2. subst na. cbn [fg_color bg_color]. rewrite Hsh1.
      destruct (bool_decide_reflect (f0 = fg)) as [E1|N1], (bool_decide_reflect (b0 = bg)) as [E2|N2]; try by destruct Hne.
      all: rewrite ?(decide_True (P := INA_CIO_COLOR_UNDEFINED = _)) by done; rewrite ?decide_False by done; cbn [fst snd]; rewrite ?Hafg, ?Habg by congruence; congruence. }
    set (c3 := print (Plain s) c2). assert (isatty c3 = true) as Htty3 by done.
    pose proof (set_attribs_shows (undefined_attribs INA_CIO_RESET) c3 Htty3) as (_ & _ & Hag4 & Hat4 & Hsh4). cbn zeta in Hat4, Hsh4.
    fold (ina_cio_reset c3) in *. change (negb (Z.land (flags (undefined_attribs INA_CIO_RESET)) INA_CIO_RESET =? 0)) with true in Hat4, Hsh4.
    split; [exact Hag4|]. exists (printed c2). eexists. rewrite (reset_prints c3 Htty3). split; [change (printed c3) with (printed c2 ++ [Plain s]); by rewrite <- app_assoc|].
    split; [exact Hs|]. split; [exact Hat4|]. rewrite <- (reset_prints c3 Htty3). exact Hsh4.
Qed.

Definition fresh_console : console := Console true (undefined_attribs 0) [] [] (Termios true true true).
Definition no_calls : tty_calls := TtyCalls None None [].
Lemma fresh_agrees : agrees fresh_console.
Proof. by split. Qed.
Lemma printing_in_colours_witness : exists (c' : console) (before after : list piece),
  ina_cio_printf no_calls 1 2 INA_CIO_COLOR_RED INA_CIO_COLOR_WHITE [72; 105] fresh_console = Some (c', 2) /\
  printed c' = before ++ Plain [72; 105] :: after /\ shows before = (INA_CIO_COLOR_RED, INA_CIO_COLOR_WHITE).
Proof.
  destruct (ina_cio_printf no_calls 1 2 INA_CIO_COLOR_RED INA_CIO_COLOR_WHITE [72; 105] fresh_console) as [[c' n]|] eqn:H; [|vm_compute in H; discriminate H].
  destruct (printing_in_colours no_calls 1 2 INA_CIO_COLOR_RED INA_CIO_COLOR_WHITE [72; 105] fresh_console c' n (undefined_attribs 0) eq_refl fresh_agrees) as [_ Hp].
  destruct Hp as (Hn & _ & before & after & H1 & H2 & _); [discriminate|discriminate|exact H|].
  exists c', before, after. rewrite Hn. split; [reflexivity|]. exact (conj H1 H2).
Defined.

End Cio.
