(* ===== verification/Test.v ===== *)
(** * The test framework (test.c, test.h)

    Tests stand next to each other in a section of the program.  The runner selects
    some of them, runs each with its fixture, and prints what became of it, as text, in
    the Test Anything Protocol or in the format of JUnit.  A failed assertion jumps out
    of the test; so do SIGABRT and SIGSEGV while a test runs.

    A test is a program ([prog]) on a memory of its own, made of steps, messages,
    assertions, signals and decisions.  What a test prints itself and the tests in Lua
    (contribs, ltest.lua) are left out. *)
From Stdlib Require Import ZArith Lia Bool String.
From stdpp Require Import base numbers option pretty list.
From S2P Require Import Prelude Error Libc Cio.

Module Test.
Import Error Libc.
Import Cio.
Abbreviation str := bytes_of_string.

(** ** Messages *)

(** The buffer: the room that is left, the text up to [__errormsg], and the text from
    there to the terminating zero. *)
Definition __INA_MSG_SIZE : Z := 4096 * 4.
Record errors := Errors { __errorsize : Z; before : text; after : text }.
Definition no_errors : errors := Errors (__INA_MSG_SIZE - 1) [] [].
Definition __errorbuffer (e : errors) : text := before e ++ after e.

(** [snprintf] at [__errormsg], which gives the length of the text. *)
Definition snprintf (s : text) (e : errors) : errors * Z :=
  (Errors (__errorsize e) (before e) (if 0 <? __errorsize e then take (Z.to_nat (__errorsize e - 1)) s else after e), Z.of_nat (length s)).
Definition advance (size : Z) (e : errors) : errors :=
  Errors (__errorsize e - size) (before e ++ take (Z.to_nat size) (after e)) (drop (Z.to_nat size) (after e)).
Definition tabs (n : nat) : text := repeat 9 n.
Definition quote : text := [34].
Definition newline : text := [10].
Definition opening (tap junit is_error : bool) : text :=
  if negb tap && negb junit then if is_error then str "ERR: " else str "     MSG: "
  else if tap then str "# "
  else if is_error then tabs 3 ++ str "<failure message=" ++ quote else tabs 3 ++ str "<system-out>".
Definition closing (junit is_error : bool) : text :=
  if negb junit then newline else if is_error then quote ++ str "></failure>" ++ newline else str "</system-out>" ++ newline.
(** [t] is the text that the format gives. *)
Definition ina_test_msg (tap junit is_error : bool) (t : text) (e : errors) : errors * result unit :=
  if __errorsize e <? 48 then (e, Err (Z.lor (INA_ES S_BUFFER) (INA_ERR E_TOO_SMALL)))
  else
    let '(e, size) := snprintf (opening tap junit is_error) e in
    let e := advance size e in
    let '(e, size) := snprintf t e in
    let '(e, size) := if __errorsize e <=? size then snprintf (str "...") e else (e, size) in
    let e := advance size e in
    let '(e, size) := snprintf (closing junit is_error) e in
    if __errorsize e <=? size then (e, Err INA_ERR_OPERATION_FAILED) else (advance size e, Ok ()).

(** ** Assertions

    The message of the one that fails; then the test is left. *)
Definition place (caller : text) (line : Z) : text := caller ++ str ":" ++ decimal line.
Definition fails (caller : text) (line : Z) (t : text) : option text := Some (place caller line ++ t).
(** What glibc prints for a null pointer. *)
Definition cstr (s : option text) : text := default (str "(null)") s.
Definition ina_test_assert_equal_str (exp real : option text) (caller : text) (line : Z) : option text :=
  if bool_decide (exp = real) then None else fails caller line (str "  expected '" ++ cstr exp ++ str "', got '" ++ cstr real ++ str "'").
Definition ina_test_assert_not_equal_str (nexp real : option text) (caller : text) (line : Z) : option text :=
  if bool_decide (nexp = real) then fails caller line (str "  not expected '" ++ cstr nexp ++ str "'") else None.
Definition hex_digit (n : Z) : Z := if n <? 10 then 48 + n else 87 + n.
Definition hex2 (b : Z) : text := [hex_digit (b / 16); hex_digit (b mod 16)].
Fixpoint first_difference (i : Z) (exp real : text) : option (Z * Z * Z) :=
  match exp, real with
  | e :: exp, r :: real => if e =? r then first_difference (i + 1) exp real else Some (i, e, r)
  | _, _ => None
  end.
(** Sizes and offsets are printed as [int]. *)
Definition ina_test_assert_data (exp real : text) (caller : text) (line : Z) : option text :=
  let d n := decimal (to_int n) in
  if negb (length exp =? length real)%nat then
    fails caller line (str "  expected " ++ d (Z.of_nat (length exp)) ++ str " bytes, got " ++ d (Z.of_nat (length real)))
  else match first_difference 0 exp real with
       | Some (i, e, r) => fails caller line (str " expected 0x" ++ hex2 e ++ str " at offset " ++ d i ++ str " got 0x" ++ hex2 r)
       | None => None
       end.
Definition ina_test_assert_equal_int (exp real : Z) (caller : text) (line : Z) : option text :=
  if exp =? real then None else fails caller line (str "  expected " ++ decimal exp ++ str ", got " ++ decimal real).
Definition ina_test_assert_equal_uint := ina_test_assert_equal_int.
Definition ina_test_assert_equal_int64 (exp real : Z) (caller : text) (line : Z) : option text :=
  if exp =? real then None else fails caller line (str "  expected " ++ decimal exp ++ str " , got " ++ decimal real).
Definition ina_test_assert_equal_uint64 := ina_test_assert_equal_int64.
Definition ina_test_assert_not_equal_int (exp real : Z) (caller : text) (line : Z) : option text :=
  if exp =? real then fails caller line (str "  should not be " ++ decimal real) else None.
Definition ina_test_assert_not_equal_uint := ina_test_assert_not_equal_int.
Definition ina_test_assert_not_equal_int64 := ina_test_assert_not_equal_int.
Definition ina_test_assert_not_equal_uint64 := ina_test_assert_not_equal_int.
(** Pointers are numbers, zero is the null pointer. *)
Definition ina_test_assert_null (real : Z) (caller : text) (line : Z) : option text :=
  if negb (real =? 0) then fails caller line (str "  should be NULL") else None.
Definition ina_test_assert_not_null (real : Z) (caller : text) (line : Z) : option text :=
  if real =? 0 then fails caller line (str "  should not be NULL") else None.
Definition ina_test_assert_same (exp real : Z) (caller : text) (line : Z) : option text :=
  if negb (real =? exp) then fails caller line (str "  should be SAME") else None.
Definition ina_test_assert_not_same (exp real : Z) (caller : text) (line : Z) : option text :=
  if real =? exp then fails caller line (str "  should not be SAME") else None.
Definition ina_test_assert_true (real : Z) (caller : text) (line : Z) : option text :=
  if real =? 0 then fails caller line (str "  should be true") else None.
Definition ina_test_assert_false (real : Z) (caller : text) (line : Z) : option text :=
  if negb (real =? 0) then fails caller line (str "  should be false") else None.
Definition ina_test_assert_failed (real : Z) (caller : text) (line : Z) : option text :=
  if negb (INA_FAILED real) then fails caller line (str "  should be failed") else None.
Definition ina_test_assert_succeed (real : Z) (caller : text) (line : Z) : option text :=
  if INA_FAILED real then fails caller line (str "  should be succeed") else None.
Definition ina_test_assert_fail (caller : text) (line : Z) : option text := fails caller line (str "  shouldn't come here").
(** [__last_signal] is set once, to 0. *)
Definition __last_signal : Z := 0.
Definition ina_test_assert_signal (signal : Z) (caller : text) (line : Z) : option text :=
  if negb (__last_signal =? signal) then fails caller line (str "  expected signal " ++ decimal signal) else None.

(** ** Tests *)

Inductive signal := SIGABRT | SIGSEGV.
(** The handlers of a signal: the one of the runner, and those of others. *)
Inductive handler := Foreign (n : nat) | __ina_signal_handler.
(** How a test ends: it returns, it jumps to where [setjmp] was called, or the handler of
    another or the default action of the system takes the control away. *)
Inductive outcome := Returns | Jumps | Gone.
#[export] Instance outcome_eq_dec : EqDecision outcome.
Proof. solve_decision. Defined.

Section Tests.
(** The memory of the tests; what they write messages to; whether a signal stays blocked
    after its handler was left by [longjmp], which POSIX leaves open. *)
Context {D E : Type}.
Variable say : bool -> text -> E -> E.
Variable mask_kept : bool.

Inductive prog :=
  | Return
  | Do (f : D -> D) (p : prog)
  | Message (is_error : bool) (t : D -> text) (p : prog)
  | Assert (check : D -> option text) (p : prog)
  | Raise (s : signal)
  | Branch (b : D -> bool) (p q : prog).

Record env := Env { mem : D; errs : E; on_abort : handler; on_segv : handler; blocked : bool }.
Definition set_mem (d : D) (v : env) : env := Env d (errs v) (on_abort v) (on_segv v) (blocked v).
Definition set_errs (e : E) (v : env) : env := Env (mem v) e (on_abort v) (on_segv v) (blocked v).
Definition set_handlers (a s : handler) (v : env) : env := Env (mem v) (errs v) a s (blocked v).
Definition set_blocked (b : bool) (v : env) : env := Env (mem v) (errs v) (on_abort v) (on_segv v) b.
Definition message (is_error : bool) (t : text) (v : env) : env := set_errs (say is_error t (errs v)) v.

(** [abort] unblocks its signal; an access outside the memory whose signal is blocked
    ends the program. *)
Definition raise (s : signal) (v : env) : env * outcome :=
  match s with
  | SIGABRT => (v, match on_abort v with __ina_signal_handler => Jumps | Foreign _ => Gone end)
  | SIGSEGV =>
      if blocked v then (v, Gone)
      else match on_segv v with __ina_signal_handler => (set_blocked mask_kept v, Jumps) | Foreign _ => (v, Gone) end
  end.
Fixpoint exec (p : prog) (v : env) : env * outcome :=
  match p with
  | Return => (v, Returns)
  | Do f p => exec p (set_mem (f (mem v)) v)
  | Message b t p => exec p (message b (t (mem v)) v)
  | Assert check p => match check (mem v) with None => exec p v | Some t => (message true t v, Jumps) end
  | Raise s => raise s v
  | Branch b p q => exec (if b (mem v) then p else q) v
  end.
Definition exec_option (p : option prog) (v : env) : env * outcome := match p with Some p => exec p v | None => (v, Returns) end.
End Tests.
Arguments prog : clear implicits.
Arguments env : clear implicits.

(** A test case; a helper gets [*retval] and its arguments and gives [*retval], or jumps
    or does not return. *)
Inductive code (D : Type) :=
  | Test (p : prog D)
  | Helper (h : Z -> list text -> D -> option (D * Z)).
Arguments Test {D}. Arguments Helper {D}.
Record testcase {D : Type} := Testcase {
  suite_name : text; test_name : text; run : code D; skip : bool; setup : option (prog D); teardown : option (prog D) }.
Arguments testcase : clear implicits. Arguments Testcase {D}.
Definition is_helper {D} (t : testcase D) : bool := match run t with Test _ => false | Helper _ => true end.

(** ** Selecting tests *)

(** [strncmp(p, q, n) == 0], and [strchr] as what follows the character. *)
Definition strncmp_eq (p q : text) (n : nat) : bool := bool_decide (take n p = take n q).
Fixpoint strchr (s : text) (c : Z) : option text :=
  match s with [] => None | x :: r => if x =? c then Some r else strchr r c end.
Definition COLON : Z := 58.
Definition __ina_suite_all {D} (t : testcase D) : bool := negb (is_helper t).
Definition __ina_suite_filter {D} (__filter : text) (t : testcase D) : bool :=
  if is_helper t then false
  else match strchr __filter COLON with
       | None => strncmp_eq __filter (suite_name t) (length __filter)
       | Some sep =>
           let len := (length __filter - length sep - 1)%nat in
           if strncmp_eq __filter (suite_name t) len then
             if (len + 1 <? length __filter)%nat then
               match strchr sep COLON with
               | None => strncmp_eq (test_name t) sep (length sep)
               | Some _ => strncmp_eq (test_name t) sep (length (test_name t))
               end
             else true
           else false
       end.
Definition __ina_helper_filter {D} (__filter __helper_name : text) (t : testcase D) : bool :=
  strncmp_eq __filter (suite_name t) (length __filter) && strncmp_eq __helper_name (test_name t) (length __helper_name) && is_helper t.

(** The memory around the first test case of the framework, nearest cell first; a test
    case starts where [magic] is right.  [None] reads on without end. *)
Definition INA_TEST_MAGIC : Z := 0xDEADC0DE.
Fixpoint neighbours {D} (l : list (Z * testcase D)) : option (list (testcase D)) :=
  match l with
  | [] => None
  | (magic, t) :: l => if negb (magic =? INA_TEST_MAGIC) then Some [] else cons t <$> neighbours l
  end.
(** All test cases but the first one of the framework. *)
Definition section_tests {D} (below above : list (Z * testcase D)) : option (list (testcase D)) :=
  b ← neighbours below; a ← neighbours above; Some (rev b ++ a).

(** ** Helpers *)

(** [ina_test_helper_run]: [args] is argv; [None] is a null pointer as name, a test that
    jumps, or one that does not return. *)
Definition EXIT_FAILURE : Z := 1.
Fixpoint run_helpers {D} (tests : list (testcase D)) (argv : list text) (retval : Z) (d : D) : option (D * Z) :=
  match tests with
  | [] => Some (d, retval)
  | t :: tests =>
      match run t with
      | Helper h => '(d, retval) ← h retval argv d; run_helpers tests argv retval d
      | Test _ => run_helpers tests argv retval d
      end
  end.
Definition ina_test_helper_run {D} (tests : list (testcase D)) (argv : list text) (retval : Z) (d : D) : option (D * Z) :=
  if (length argv <? 3)%nat then Some (d, retval)
  else
    __filter ← argv !! 2%nat; __helper_name ← argv !! 3%nat;
    run_helpers (List.filter (__ina_helper_filter __filter __helper_name) tests) argv retval d.

(** Starting a helper: the calls of the system by parent and child. *)
Inductive os_call := Exec (args : list text) | Waitpid_nohang (pid : Z) | Sleep (msec : Z) | Kill (pid : Z).
Definition child_args (__binpath : text) (suite_name : option text) (helper_name : text) (args : list text) : option (list text) :=
  let l := match suite_name with Some s => [__binpath; str "-h"; s; helper_name] | None => [helper_name] end ++ args in
  if (length l <? 16)%nat then Some l else None.
Definition ina_test_helper_terminate (pid : Z) : list os_call := if 0 <? pid then [Kill pid] else [].
(** What the child does, and the parent. *)
Definition ina_test_helper_spawn (fork : Z) (__binpath : text) (suite_name : option text) (helper_name : text) (wait_msec : Z) (args : list text) :
    option (list os_call) * list os_call * result Z :=
  if fork <? 0 then (Some [], [], Err (Z.lor (INA_ES S_PROCESS) (INA_ERR_NOT_ E_CREATED)))
  else ((fun l => [Exec l]) <$> child_args __binpath suite_name helper_name args,
        (if wait_msec <? 0 then [Waitpid_nohang fork]
         else if 0 <? wait_msec then Sleep wait_msec :: ina_test_helper_terminate fork
         else [Sleep 500]), Ok fork).

(** ** The runner *)

(** What comes of a run: a result, the program left by another handler, undefined
    behaviour, or turns that were not enough. *)
Inductive fate (A : Type) := Goes (a : A) | Leaves | Undefined | More.
Arguments Goes {A}. Arguments Leaves {A}. Arguments Undefined {A}. Arguments More {A}.
Definition fbind {A B} (k : A -> fate B) (m : fate A) : fate B :=
  match m with Goes a => k a | Leaves => Leaves | Undefined => Undefined | More => More end.
#[global] Instance fate_bind : MBind fate := fun A B k m => fbind k m.

Section Runner.
Context {D : Type}.
Variable mask_kept : bool.
(** The terminal, and the version that is packed into return codes. *)
Variables (tty : tty_calls) (version : Z).

(** The static variables of the runner with the console and what the tests change. *)
Record runner := Runner {
  total : Z; num_ok : Z; num_fail : Z; num_skip : Z; index : Z;
  __tap : bool; __junit : bool; filter : testcase D -> bool; con : console; environment : env D errors }.
Definition with_con (c : console) (r : runner) : runner :=
  Runner (total r) (num_ok r) (num_fail r) (num_skip r) (index r) (__tap r) (__junit r) (filter r) c (environment r).
Definition with_env (v : env D errors) (r : runner) : runner :=
  Runner (total r) (num_ok r) (num_fail r) (num_skip r) (index r) (__tap r) (__junit r) (filter r) (con r) v.
Definition with_format (tap junit : bool) (r : runner) : runner :=
  Runner (total r) (num_ok r) (num_fail r) (num_skip r) (index r) tap junit (filter r) (con r) (environment r).
Definition with_filter (f : testcase D -> bool) (r : runner) : runner :=
  Runner (total r) (num_ok r) (num_fail r) (num_skip r) (index r) (__tap r) (__junit r) f (con r) (environment r).
Definition add_counts (n o f s i : Z) (r : runner) : runner :=
  Runner (total r + n) (num_ok r + o) (num_fail r + f) (num_skip r + s) (index r + i) (__tap r) (__junit r) (filter r) (con r) (environment r).

Definition printf (t : text) (r : runner) : runner := with_con (print (Plain t) (con r)) r.
Definition when (b : bool) (f : runner -> runner) (r : runner) : runner := if b then f r else r.
Definition coloured (c : color) (t : text) (r : runner) : fate runner :=
  match ina_cio_printf tty (-1) (-1) c INA_CIO_COLOR_UNDEFINED t (con r) with
  | Some (c, _) => Goes (with_con c r)
  | None => Undefined
  end.
Definition plain (r : runner) : bool := negb (__tap r) && negb (__junit r).
Definition full_name (t : testcase D) : text := suite_name t ++ str ":" ++ test_name t.
Definition say_error (r : runner) (b : bool) (t : text) (e : errors) : errors := fst (ina_test_msg (__tap r) (__junit r) b t e).

Definition announce (t : testcase D) (r : runner) : runner :=
  if plain r then printf (str "TEST " ++ decimal (index r) ++ str "/" ++ decimal (total r) ++ str " " ++ full_name t ++ str " ") r
  else when (__junit r) (printf (tabs 2 ++ str "<testcase name=" ++ quote ++ full_name t ++ quote ++ str ">" ++ newline)) r.
Definition report_skipped (t : testcase D) (r : runner) : fate runner :=
  r ← (if plain r then coloured INA_CIO_COLOR_YELLOW (str "[SKIPPED]" ++ newline) r
       else if __tap r then Goes (printf (str "ok " ++ decimal (index r) ++ str " " ++ full_name t ++ str " # skip " ++ newline) r)
       else Goes (when (__junit r) (printf (tabs 3 ++ str "<skipped/>" ++ newline)) r));
  Goes (add_counts 0 0 0 1 0 r).
Definition report (passed : bool) (t : testcase D) (r : runner) : fate runner :=
  r ← (if plain r then coloured (if passed then INA_CIO_COLOR_GREEN else INA_CIO_COLOR_RED) (str (if passed then "[OK]" else "[FAIL]") ++ newline) r
       else Goes (when (__tap r) (printf (str (if passed then "ok " else "not ok ") ++ decimal (index r) ++ str " " ++ full_name t ++ newline)) r));
  Goes (add_counts 0 (if passed then 1 else 0) (if passed then 0 else 1) 0 0 r).

(** From the return of [setjmp] on; an assertion that fails in the fixture's end returns
    there again. *)
Fixpoint after_run (fuel : nat) (passed : bool) (old : handler * handler) (t : testcase D) (r : runner) : fate runner :=
  match fuel with
  | O => More
  | S fuel =>
      r ← report passed t r;
      let r := with_env (set_handlers (fst old) (snd old) (environment r)) r in
      let '(v, o) := exec_option (say_error r) mask_kept (teardown t) (environment r) in
      let r := with_env v r in
      match o with Returns => Goes r | Jumps => after_run fuel false old t r | Gone => Leaves end
  end.
Definition run_case (fuel : nat) (t : testcase D) (r : runner) : fate runner :=
  let '(v, o) := exec_option (say_error r) mask_kept (setup t) (environment r) in
  match o with
  | Jumps => Undefined
  | Gone => Leaves
  | Returns =>
      let old := (on_abort v, on_segv v) in
      let v := set_handlers __ina_signal_handler __ina_signal_handler v in
      match run t with
      | Helper _ => Undefined
      | Test p =>
          let '(v, o) := exec (say_error r) mask_kept p v in
          match o with
          | Gone => Leaves
          | _ => after_run fuel (match o with Returns => true | _ => false end) old t (with_env v r)
          end
      end
  end.
Definition run_one (fuel : nat) (t : testcase D) (r : runner) : fate runner :=
  let r := with_env (set_errs no_errors (environment r)) r in
  let r := announce t r in
  r ← (if skip t then report_skipped t r
       else
         r ← run_case fuel t r;
         let e := errs (environment r) in
         Goes (when (negb (__errorsize e =? __INA_MSG_SIZE - 1)) (printf (__errorbuffer e)) r));
  let r := when (__junit r) (printf (tabs 2 ++ str "</testcase>" ++ newline)) r in
  Goes (add_counts 0 0 0 0 1 r).
Fixpoint run_all (fuel : nat) (tests : list (testcase D)) (r : runner) : fate runner :=
  match tests with
  | [] => Goes r
  | t :: tests => r ← (if filter r t then run_one fuel t r else Goes r); run_all fuel tests r
  end.

(** The arguments, of which the first is the path of the program. *)
Definition choose (argv : list text) (r : runner) : runner :=
  match argv with
  | _ :: a :: rest =>
      let format := if bool_decide (a = str "--format=tap") then Some (true, __junit r)
                    else if bool_decide (a = str "--format=junit") then Some (__tap r, true) else None in
      match format with
      | Some (tap, junit) => let r := with_format tap junit r in match rest with f :: _ => with_filter (__ina_suite_filter f) r | [] => r end
      | None => with_filter (__ina_suite_filter a) r
      end
  | _ => r
  end.
Definition opening_lines (r : runner) : runner :=
  if __tap r then printf (str "1.." ++ decimal (total r) ++ newline) r
  else when (__junit r) (fun r =>
    let r := printf (str "<?xml version=" ++ quote ++ str "1.0" ++ quote ++ str " encoding=" ++ quote ++ str "UTF-8" ++ quote ++ str "?>" ++ newline) r in
    let r := printf (str "<testsuites tests=" ++ quote ++ decimal (total r) ++ quote ++ str ">" ++ newline) r in
    printf (tabs 1 ++ str "<testsuite tests=" ++ quote ++ decimal (total r) ++ quote ++ str ">" ++ newline) r) r.
Definition results (r : runner) : text :=
  str "RESULTS: " ++ decimal (total r) ++ str " tests (" ++ decimal (num_ok r) ++ str " ok, " ++ decimal (num_fail r) ++ str " failed, " ++
  decimal (num_skip r) ++ str " skipped)" ++ newline.
Definition closing_lines (r : runner) : fate runner :=
  r ← (if (0 <? total r) && plain r then coloured (if negb (num_fail r =? 0) then INA_CIO_COLOR_RED else INA_CIO_COLOR_GREEN) (results r) r else Goes r);
  Goes (when (__junit r) (fun r => printf (str "</testsuites>") (printf (tabs 1 ++ str "</testsuite>" ++ newline) r)) r).

(** Lua: whether the caller gives a context, the code if none can be made, and the
    message if the script fails. *)
Record lua := Lua { given : bool; new_fails : option Z; script_fails : option text }.
Definition run_lua (l : lua) (r : runner) : runner * Z :=
  match (if given l then None else new_fails l) with
  | Some rc => (r, INA_RC_ERROR rc)
  | None =>
      match script_fails l with
      | Some t => (printf t r, INA_RC_ERROR (INA_RC_PACK version (Z.lor (INA_ES S_SCRIPT) (INA_ERR E_FAILED)) 0))
      | None => (r, num_fail r)
      end
  end.
(** [retval] is the static variable of [ina_test_helper_run]. *)
Definition ina_test_run (fuel : nat) (argv : list text) (l : lua) (below above : list (Z * testcase D)) (retval : Z) (r : runner) :
    fate (runner * Z) :=
  match section_tests below above with
  | None => Undefined
  | Some tests =>
      if match argv with _ :: a :: _ => bool_decide (a = str "-h") | _ => false end then
        match ina_test_helper_run tests argv retval (mem (environment r)) with
        | Some (d, code) => Goes (with_env (set_mem d (environment r)) r, code)
        | None => Undefined
        end
      else
        let r := choose argv r in
        let r := add_counts (Z.of_nat (length (List.filter (filter r) tests))) 0 0 0 0 r in
        let r := opening_lines r in
        r ← run_all fuel tests r;
        r ← closing_lines r;
        Goes (run_lua l r)
  end.
End Runner.

(** ** Numbers in texts *)

Lemma digits_snoc (acc : Z) (ds : text) (c : Z) : forallb is_digit ds = true -> is_digit c = true ->
  digits acc (ds ++ [c]) = (fst (digits acc ds) * 10 + (c - 48), []).
Proof.
  intros Hd Hc. revert acc Hd. induction ds as [|x ds IH]; intros acc Hd; cbn [app digits].
  - by rewrite Hc.
  - cbn [forallb] in Hd. apply andb_true_iff in Hd as [Hx Hd]. rewrite Hx. by apply IH.
Qed.
Lemma pretty_char (x : N) : (x < 10)%N -> byte_of_ascii (pretty_N_char x) = 48 + Z.of_N x.
Proof.
  intros Hx. assert (x = 0 \/ x = 1 \/ x = 2 \/ x = 3 \/ x = 4 \/ x = 5 \/ x = 6 \/ x = 7 \/ x = 8 \/ x = 9)%N as H by lia.
  by repeat destruct H as [-> | H]; try rewrite H.
Qed.
Lemma pretty_go (x : N) (s : string) : exists ds : text, bytes_of_string (pretty_N_go x s) = ds ++ bytes_of_string s /\
  forallb is_digit ds = true /\ fst (digits 0 ds) = Z.of_N x /\ (x <> 0%N -> ds <> []).
Proof.
  revert s. induction (N.lt_wf_0 x) as [x _ IH]; intros s. assert (x = 0 \/ 0 < x)%N as [-> | Hx] by lia.
  - by exists [].
  - rewrite pretty_N_go_step by done.
    destruct (IH (x / 10)%N (N.div_lt x 10 Hx eq_refl) (String.String (pretty_N_char (x mod 10)) s)) as (ds & Hb & Hd & Hv & _).
    exists (ds ++ [byte_of_ascii (pretty_N_char (x mod 10))]). rewrite Hb, <- app_assoc. split; [done|].
    pose proof (N.mod_lt x 10 ltac:(done)) as Hm. rewrite (pretty_char _ Hm).
    assert (is_digit (48 + Z.of_N (x mod 10)) = true) as Hc
    by (revert Hm; generalize (x mod 10)%N; intros m Hm; unfold is_digit; lia).
    split; [rewrite forallb_app, Hd; cbn [forallb]; by rewrite Hc|]. rewrite digits_snoc, Hv by done. split; [|by destruct ds].
    cbn [fst]. pose proof (N.div_mod x 10 ltac:(done)) as Hdm. clear - Hdm. revert Hdm. generalize (x / 10)%N (x mod 10)%N. lia.
Qed.
Lemma decimal_reads (n : Z) : 0 <= n -> forallb is_digit (decimal n) = true /\ fst (digits 0 (decimal n)) = n /\ decimal n <> [].
Proof.
  intros Hn. unfold decimal. destruct n as [|p|p]; [done| |lia]. unfold pretty, pretty_Z, pretty, pretty_positive, pretty, pretty_N.
  destruct (decide (N.pos p = 0%N)) as [?|Hp]; [done|]. destruct (pretty_go (N.pos p) EmptyString) as (ds & -> & Hd & Hv & Hne).
  change (bytes_of_string EmptyString) with (@nil Z). rewrite app_nil_r. split; [done|]. split; [done|]. by apply Hne.
Qed.
Lemma read_decimal (n : Z) (rest : text) : 0 <= n -> stops rest -> digits 0 (decimal n ++ rest) = (n, rest).
Proof. intros Hn Hr. destruct (decimal_reads n Hn) as (Hd & Hv & _). by rewrite digits_app, Hv. Qed.

(** ** Messages *)

Lemma snprintf_fits (s : text) (e : errors) : Z.of_nat (length s) < __errorsize e ->
  snprintf s e = (Errors (__errorsize e) (before e) s, Z.of_nat (length s)).
Proof. intros H. unfold snprintf. rewrite (proj2 (Z.ltb_lt 0 _)) by lia. by rewrite take_ge by lia. Qed.
Lemma advance_all (n : Z) (b s : text) : advance (Z.of_nat (length s)) (Errors n b s) = Errors (n - Z.of_nat (length s)) (b ++ s) [].
Proof. unfold advance. cbn [__errorsize before after]. rewrite take_ge, drop_ge by lia. done. Qed.

(** A message that has room is written whole, between its opening and its closing. *)
Definition framed (tap junit is_error : bool) (t : text) : text := opening tap junit is_error ++ t ++ closing junit is_error.
Lemma opening_length (tap junit is_error : bool) : (length (opening tap junit is_error) < 48)%nat.
Proof. destruct tap, junit, is_error; cbn; lia. Qed.
Lemma message_written (tap junit is_error : bool) (t : text) (n : Z) (b : text) :
  48 <= n -> Z.of_nat (length (framed tap junit is_error t)) < n ->
  ina_test_msg tap junit is_error t (Errors n b []) =
    (Errors (n - Z.of_nat (length (framed tap junit is_error t))) (b ++ framed tap junit is_error t) [], Ok ()).
Proof.
  intros Hn Hl. unfold framed in *. rewrite !length_app in *. unfold ina_test_msg. cbn [__errorsize].
  rewrite (proj2 (Z.ltb_ge n 48)) by lia. rewrite snprintf_fits by (cbn; lia). cbn [before __errorsize]. rewrite advance_all.
  rewrite snprintf_fits by (cbn; lia). cbn [before __errorsize]. rewrite (proj2 (Z.leb_gt _ _)) by lia. rewrite advance_all.
  rewrite snprintf_fits by (cbn; lia). cbn [before __errorsize]. rewrite (proj2 (Z.leb_gt _ _)) by lia. rewrite advance_all.
  rewrite <- !app_assoc. f_equal. f_equal. lia.
Qed.
(** A list of messages in the buffer. *)
Abbreviation log := (list (bool * text)).
Definition buffer (tap junit : bool) (l : log) : errors := fold_left (fun e m => fst (ina_test_msg tap junit (fst m) (snd m) e)) l no_errors.
Definition frames (tap junit : bool) (l : log) : text := concat (map (fun m => framed tap junit (fst m) (snd m)) l).
Definition fits (tap junit : bool) (l : log) : Prop := Z.of_nat (length (frames tap junit l)) + 48 <= __INA_MSG_SIZE - 1.
Lemma buffer_written (tap junit : bool) (l : log) : fits tap junit l ->
  buffer tap junit l = Errors (__INA_MSG_SIZE - 1 - Z.of_nat (length (frames tap junit l))) (frames tap junit l) [].
Proof.
  unfold fits, buffer, no_errors. generalize (__INA_MSG_SIZE - 1) as n. intros n.
  enough (forall b, Z.of_nat (length (frames tap junit l)) + 48 <= n ->
    fold_left (fun e m => fst (ina_test_msg tap junit (fst m) (snd m) e)) l (Errors n b []) =
    Errors (n - Z.of_nat (length (frames tap junit l))) (b ++ frames tap junit l) []) as H by (apply H).
  revert n. induction l as [|[i t] l IH]; intros n b Hf.
  - cbn [fold_left]. unfold frames. cbn. rewrite app_nil_r. f_equal. lia.
  - unfold frames in *. cbn [fold_left map concat fst snd] in *. rewrite length_app in *. rewrite message_written by lia. cbn [fst].
    rewrite IH by lia. rewrite <- app_assoc. f_equal. lia.
Qed.
Lemma frame_nonempty (tap junit is_error : bool) (t : text) : framed tap junit is_error t <> [].
Proof. unfold framed. by destruct tap, junit, is_error. Qed.
Lemma buffer_shown (tap junit : bool) (l : log) : fits tap junit l ->
  (if negb (__errorsize (buffer tap junit l) =? __INA_MSG_SIZE - 1) then __errorbuffer (buffer tap junit l) else []) = frames tap junit l.
Proof.
  intros Hf. rewrite buffer_written by done. unfold __errorbuffer. cbn [__errorsize before after]. rewrite app_nil_r.
  destruct l as [|[i t] l]; [done|]. rewrite (proj2 (Z.eqb_neq _ _)); [done|]. unfold frames. cbn [map concat fst snd]. rewrite length_app.
  pose proof (frame_nonempty tap junit i t) as Hne. destruct (framed tap junit i t); [done|]. cbn [length]. lia.
Qed.

(** ** What happens in a test *)

Definition add_message (b : bool) (t : text) (l : log) : log := l ++ [(b, t)].
Section Execution.
Context {D : Type} (mask_kept : bool).
Definition map_env {E F} (h : E -> F) (v : env D E) : env D F := Env (mem v) (h (errs v)) (on_abort v) (on_segv v) (blocked v).

Lemma exec_map {E F} (say_e : bool -> text -> E -> E) (say_f : bool -> text -> F -> F) (h : E -> F) (p : prog D) (v : env D E) :
  (forall b t e, h (say_e b t e) = say_f b t (h e)) ->
  exec say_f mask_kept p (map_env h v) = prod_map (map_env h) id (exec say_e mask_kept p v).
Proof.
  intros Hh. revert v. induction p as [|f p IH|b t p IH|check p IH|s|b p IHp q IHq]; intros v; cbn [exec].
  - done.
  - exact (IH (set_mem (f (mem v)) v)).
  - rewrite <- IH. f_equal. unfold message, map_env, set_errs. cbn. by rewrite Hh.
  - change (mem (map_env h v)) with (mem v). destruct (check (mem v)) as [t|]; [|apply IH].
    unfold message, map_env, set_errs. cbn. by rewrite Hh.
  - destruct s; cbn; [done|]. destruct (blocked v) eqn:Hb; cbn; [done|]. rewrite ?Hb. destruct (on_segv v) eqn:Hs; cbn; by rewrite ?Hs.
  - change (mem (map_env h v)) with (mem v). destruct (b (mem v)); [apply IHp|apply IHq].
Qed.
Lemma exec_keeps_handlers {E} (say : bool -> text -> E -> E) (p : prog D) (v : env D E) :
  on_abort (fst (exec say mask_kept p v)) = on_abort v /\ on_segv (fst (exec say mask_kept p v)) = on_segv v.
Proof.
  revert v. induction p as [|f p IH|b t p IH|check p IH|s|b p IHp q IHq]; intros v; cbn [exec].
  - done.
  - exact (IH (set_mem (f (mem v)) v)).
  - exact (IH (message say b (t (mem v)) v)).
  - destruct (check (mem v)); [done|apply IH].
  - destruct s; cbn; [done|]. destruct (blocked v); [done|]. destruct (on_segv v) eqn:Hs; cbn; by rewrite ?Hs.
  - destruct (b (mem v)); [apply IHp|apply IHq].
Qed.
Lemma exec_option_map {E F} (say_e : bool -> text -> E -> E) (say_f : bool -> text -> F -> F) (h : E -> F) (p : option (prog D)) (v : env D E) :
  (forall b t e, h (say_e b t e) = say_f b t (h e)) ->
  exec_option say_f mask_kept p (map_env h v) = prod_map (map_env h) id (exec_option say_e mask_kept p v).
Proof. destruct p; [apply exec_map|done]. Qed.
Lemma exec_option_keeps_handlers {E} (say : bool -> text -> E -> E) (p : option (prog D)) (v : env D E) :
  on_abort (fst (exec_option say mask_kept p v)) = on_abort v /\ on_segv (fst (exec_option say mask_kept p v)) = on_segv v.
Proof. destruct p; [apply exec_keeps_handlers|done]. Qed.
Lemma buffer_say (tap junit b : bool) (t : text) (l : log) :
  buffer tap junit (add_message b t l) = fst (ina_test_msg tap junit b t (buffer tap junit l)).
Proof. unfold buffer, add_message. by rewrite fold_left_app. Qed.

(** The story of a test that starts with the memory [d]: what it leaves, its verdict and
    its messages.  There is none if the fixture jumps or another handler takes over. *)
Inductive verdict := Passed | Failed | Skipped.
#[global] Instance verdict_eq_dec : EqDecision verdict.
Proof. solve_decision. Defined.
Definition story (old : handler * handler) (t : testcase D) (d : D) (b : bool) : option (D * bool * verdict * log) :=
  if skip t then Some (d, b, Skipped, [])
  else
    match run t with
    | Helper _ => None
    | Test p =>
        match exec_option add_message mask_kept (setup t) (Env d [] (fst old) (snd old) b) with
        | (v, Returns) =>
            let '(v, o) := exec add_message mask_kept p (set_handlers __ina_signal_handler __ina_signal_handler v) in
            if bool_decide (o = Gone) then None
            else
              match exec_option add_message mask_kept (teardown t) (set_handlers (fst old) (snd old) v) with
              | (v, Returns) => Some (mem v, blocked v, if bool_decide (o = Returns) then Passed else Failed, errs v)
              | _ => None
              end
        | _ => None
        end
    end.
Fixpoint stories (old : handler * handler) (tests : list (testcase D)) (d : D) (b : bool) : option (D * bool * list (testcase D * verdict * log)) :=
  match tests with
  | [] => Some (d, b, [])
  | t :: tests =>
      '(d, b, v, l) ← story old t d b;
      '(d, b, rest) ← stories old tests d b;
      Some (d, b, (t, v, l) :: rest)
  end.

(** When there are stories: if no fixture asserts or raises anything, and the tests
    do not crash or a crash leaves its signal as it was. *)
Fixpoint without (bad : signal -> bool) (asserts : bool) (p : prog D) : bool :=
  match p with
  | Return => true
  | Do _ p | Message _ _ p => without bad asserts p
  | Assert _ p => asserts && without bad asserts p
  | Raise s => negb (bad s)
  | Branch _ p q => without bad asserts p && without bad asserts q
  end.
Definition calm (p : option (prog D)) : bool := match p with Some p => without (fun _ => true) false p | None => true end.
Definition crash (s : signal) : bool := match s with SIGSEGV => true | SIGABRT => false end.
Definition tame (t : testcase D) : bool :=
  skip t || (calm (setup t) && calm (teardown t) &&
    match run t with Test p => negb mask_kept || without crash true p | Helper _ => false end).

Lemma calm_returns {E} (say : bool -> text -> E -> E) (p : option (prog D)) (v : env D E) : calm p = true ->
  exists v' : env D E, exec_option say mask_kept p v = (v', Returns) /\ blocked v' = blocked v.
Proof.
  destruct p as [p|]; cbn [calm exec_option]; [|by exists v].
  revert v. induction p as [|f p IH|b t p IH|check p IH|s|b p IHp q IHq]; intros v Hc; cbn [exec without] in *; try done.
  - by exists v.
  - by destruct (IH (set_mem (f (mem v)) v) Hc) as (v' & -> & Hb); exists v'.
  - by destruct (IH (message say b (t (mem v)) v) Hc) as (v' & -> & Hb); exists v'.
  - apply andb_prop in Hc as [Hp Hq]. destruct (b (mem v)); [by apply IHp|by apply IHq].
Qed.
Lemma tame_stays {E} (say : bool -> text -> E -> E) (p : prog D) (v : env D E) :
  on_abort v = __ina_signal_handler -> on_segv v = __ina_signal_handler -> blocked v = false -> negb mask_kept || without crash true p = true ->
  (exec say mask_kept p v).2 <> Gone /\ blocked (exec say mask_kept p v).1 = false.
Proof.
  revert v. induction p as [|f p IH|b t p IH|check p IH|s|b p IHp q IHq]; intros v Ha Hs Hb Hc; cbn [exec without] in *; try by apply IH.
  - done.
  - destruct (check (mem v)); [done|by apply IH].
  - destruct s; cbn [raise crash negb] in *; [by rewrite Ha|]. rewrite Hb, Hs. rewrite orb_false_r in Hc. by destruct mask_kept.
  - destruct (b (mem v)); [apply IHp|apply IHq]; try done; by destruct mask_kept; [apply andb_prop in Hc as [? ?]|].
Qed.
Lemma tame_tests_have_stories (old : handler * handler) (tests : list (testcase D)) (d : D) :
  forallb tame tests = true -> exists (d' : D) (l : list (testcase D * verdict * log)), stories old tests d false = Some (d', false, l).
Proof.
  revert d. induction tests as [|t tests IH]; intros d Ht; cbn [stories]; [by exists d, []|]. cbn [forallb] in Ht.
  apply andb_prop in Ht as [Ht Hts].
  assert (exists (d1 : D) (v : verdict) (l : log), story old t d false = Some (d1, false, v, l)) as (d1 & v & l & ->).
  { unfold story, tame in *. destruct (skip t); [by exists d, Skipped, []|]. cbn [orb] in Ht. apply andb_prop in Ht as [Hf Hr].
    apply andb_prop in Hf as [Hs Hd]. destruct (run t) as [p|]; [|done].
    destruct (calm_returns add_message (setup t) (Env d [] old.1 old.2 false) Hs) as (v & -> & Hb).
    pose proof (tame_stays add_message p (set_handlers __ina_signal_handler __ina_signal_handler v) eq_refl eq_refl Hb Hr) as [Hg Hb2].
    destruct (exec add_message mask_kept p _) as [v2 o]. cbn [fst snd] in *. rewrite bool_decide_eq_false_2 by done.
    destruct (calm_returns add_message (teardown t) (set_handlers old.1 old.2 v2) Hd) as (v3 & -> & Hb3).
    eexists _, _, _. rewrite Hb3. cbn [blocked set_handlers]. by rewrite Hb2. }
  cbn [mbind option_bind]. destruct (IH d1 Hts) as (d2 & l2 & ->). cbn [mbind option_bind]. by eexists _, _.
Qed.
End Execution.

(** ** The report *)

(** All that was written to a console. *)
Definition written (c : console) : text := concat (map (fun p => match p with Code t | Plain t => t end) (printed c)).
Lemma written_print (t : text) (c : console) : written (print (Plain t) c) = written c ++ t.
Proof. unfold written, print. cbn. rewrite map_app, concat_app. cbn. by rewrite app_nil_r. Qed.

#[local] Arguments written : simpl never.
#[local] Arguments print : simpl never.

Section Report.
Context {D : Type} (mask_kept : bool) (tty : tty_calls) (version : Z) (old : handler * handler).
Abbreviation runner := (runner (D := D)).

(** The lines for the test with a number in the Test Anything Protocol. *)
Definition tap_line (i : Z) (name : text) (v : verdict) : text :=
  str (if bool_decide (v = Failed) then "not ok " else "ok ") ++ decimal i ++ str " " ++ name ++ (if bool_decide (v = Skipped) then str " # skip " else []) ++ newline.
Definition tap_test (i : Z) (x : testcase D * verdict * log) : text :=
  let '(t, v, l) := x in tap_line i (full_name t) v ++ frames true false l.
Fixpoint tap_tests (i : Z) (l : list (testcase D * verdict * log)) : text :=
  match l with [] => [] | x :: l => tap_test i x ++ tap_tests (i + 1) l end.

Definition count (v : verdict) (vs : list verdict) : Z := Z.of_nat (length (List.filter (fun w => bool_decide (w = v)) vs)).
Lemma count_app (v : verdict) (vs ws : list verdict) : count v (vs ++ ws) = count v vs + count v ws.
Proof. unfold count. rewrite List.filter_app, length_app. lia. Qed.

(** From one runner to another through tests with these verdicts. *)
Record progress (r r' : runner) (vs : list verdict) (out : text) : Prop := {
  p_total : total r' = total r;
  p_ok : num_ok r' = num_ok r + count Passed vs;
  p_fail : num_fail r' = num_fail r + count Failed vs;
  p_skip : num_skip r' = num_skip r + count Skipped vs;
  p_tap : __tap r' = __tap r;
  p_junit : __junit r' = __junit r;
  p_filter : filter r' = filter r;
  p_written : written (con r') = written (con r) ++ out }.
Lemma progress_refl (r : runner) (v : env D errors) : progress r (with_env v r) [] [].
Proof. split; cbn; rewrite ?app_nil_r; try done; unfold count; cbn; lia. Qed.
Lemma progress_env (r r' : runner) (v : env D errors) (vs : list verdict) (out : text) : progress r r' vs out -> progress r (with_env v r') vs out.
Proof. intros []. by split. Qed.
Lemma progress_trans (r1 r2 r3 : runner) (vs ws : list verdict) (s t : text) :
  progress r1 r2 vs s -> progress r2 r3 ws t -> progress r1 r3 (vs ++ ws) (s ++ t).
Proof. intros [] []. split; rewrite ?count_app; try congruence; try lia. rewrite app_assoc. congruence. Qed.
Lemma progress_print (r r' : runner) (t : text) (vs : list verdict) (out : text) : progress r r' vs out -> progress r (printf t r') vs (out ++ t).
Proof.
  intros []. split; try done. etransitivity; [apply written_print|]. by rewrite p_written0, <- app_assoc.
Qed.
Lemma progress_index (r r' : runner) (i : Z) (vs : list verdict) (out : text) : progress r r' vs out -> progress r (add_counts 0 0 0 0 i r') vs out.
Proof. intros []. split; try done; cbn; lia. Qed.

(** The verdict of a test in the protocol. *)
Lemma report_progress (passed : bool) (t : testcase D) (r : runner) : __tap r = true -> __junit r = false ->
  exists r', report tty passed t r = Goes r' /\ environment r' = environment r /\ index r' = index r /\
    progress r r' [if passed then Passed else Failed] (tap_line (index r) (full_name t) (if passed then Passed else Failed)).
Proof.
  intros Ht Hj. unfold report, plain. rewrite Ht. cbn [negb andb]. cbn [mbind fate_bind fbind when]. eexists. split; [reflexivity|].
  split; [done|]. split; [cbn; lia|]. split; destruct passed; try done; try (unfold count; cbn; lia).
  all: etransitivity; [apply written_print|]; f_equal.
Qed.

Definition look (r : runner) (d : D) (b : bool) : Prop :=
  mem (environment r) = d /\ blocked (environment r) = b /\ (on_abort (environment r), on_segv (environment r)) = old.

Lemma buffer_say_error (r : runner) : __tap r = true -> __junit r = false ->
  forall b t l, buffer true false (add_message b t l) = say_error r b t (buffer true false l).
Proof. intros Ht Hj b t l. unfold say_error. rewrite Ht, Hj. apply buffer_say. Qed.

Lemma run_case_story (fuel : nat) (t : testcase D) (d d' : D) (b b' : bool) (v : verdict) (l : log) (r : runner) :
  story mask_kept old t d b = Some (d', b', v, l) -> skip t = false -> __tap r = true -> __junit r = false ->
  look r d b -> errs (environment r) = no_errors ->
  exists r', run_case mask_kept tty (S fuel) t r = Goes r' /\ look r' d' b' /\ errs (environment r') = buffer true false l /\ index r' = index r /\
    progress r r' [v] (tap_line (index r) (full_name t) v).
Proof.
  intros Hs Hskip Ht Hj (Hd & Hb & Hold) He. unfold story in Hs. rewrite Hskip in Hs. unfold run_case.
  assert (environment r = map_env (buffer true false) (Env d [] (fst old) (snd old) b)) as Hr.
  { destruct (environment r) as [d1 e1 a1 s1 b1]. cbn in *. subst. done. }
  destruct (run t) as [p|h] eqn:Hp; [|done]. rewrite Hr.
  rewrite (exec_option_map mask_kept add_message (say_error r) (buffer true false) (setup t) _ (buffer_say_error r Ht Hj)).
  pose proof (exec_option_keeps_handlers mask_kept add_message (setup t) (Env d [] (fst old) (snd old) b)) as [Ha1 Hs1].
  destruct (exec_option add_message mask_kept (setup t) _) as [v1 o1]. cbn [fst on_abort on_segv] in Ha1, Hs1. cbn [prod_map fst snd id].
  destruct o1; [|done..].
  change (set_handlers __ina_signal_handler __ina_signal_handler (map_env (buffer true false) v1))
    with (map_env (buffer true false) (set_handlers __ina_signal_handler __ina_signal_handler v1)).
  rewrite (exec_map mask_kept add_message (say_error r) (buffer true false) p _ (buffer_say_error r Ht Hj)).
  destruct (exec add_message mask_kept p _) as [v2 o2]. cbn [prod_map fst snd id on_abort on_segv map_env].
  change (on_abort (map_env (buffer true false) v1)) with (on_abort v1). change (on_segv (map_env (buffer true false) v1)) with (on_segv v1).
  rewrite Ha1, Hs1. destruct (decide (o2 = Gone)) as [Ho2|Ho2]; [by rewrite bool_decide_eq_true_2 in Hs|]. rewrite bool_decide_eq_false_2 in Hs by done.
  destruct (exec_option add_message mask_kept (teardown t) _) as [v3 o3] eqn:H3. destruct o3; [|done..]. injection Hs as <- <- Hv <-.
  assert (exists r', after_run mask_kept tty (S fuel) (bool_decide (o2 = Returns)) (fst old, snd old) t (with_env (map_env (buffer true false) v2) r) = Goes r' /\
    environment r' = map_env (buffer true false) v3 /\ index r' = index r /\ progress r r' [v] (tap_line (index r) (full_name t) v)) as (r' & H & He' & Hi & Hpr).
  { cbn [after_run]. destruct (report_progress (bool_decide (o2 = Returns)) t (with_env (map_env (buffer true false) v2) r) Ht Hj) as (r1 & -> & He1 & Hi1 & Hp1).
    cbn [mbind fate_bind fbind]. rewrite He1. cbn [environment with_env fst snd].
    change (set_handlers (fst old) (snd old) (map_env (buffer true false) v2)) with (map_env (buffer true false) (set_handlers (fst old) (snd old) v2)).
    rewrite (exec_option_map mask_kept add_message _ (buffer true false) (teardown t)), H3;
      [|apply buffer_say_error; [by etransitivity; [exact (p_tap _ _ _ _ Hp1)|]|by etransitivity; [exact (p_junit _ _ _ _ Hp1)|]]].
    cbn [prod_map fst snd id]. eexists. split; [reflexivity|]. split; [done|]. split; [exact Hi1|].
    rewrite <- Hv. pose proof (progress_refl r (map_env (buffer true false) v2)) as P1.
    pose proof (progress_trans _ _ _ _ _ _ _ P1 Hp1) as P2. cbn [index with_env] in P2. cbn [app] in P2.
    do 2 apply progress_env. exact P2. }
  exists r'. split; [destruct o2; try done; exact H|]. split; [|by rewrite He'].
  split; [by rewrite He'|]. split; [by rewrite He'|]. rewrite He'. cbn.
  pose proof (exec_option_keeps_handlers mask_kept add_message (teardown t) (set_handlers (fst old) (snd old) v2)) as [Ha3 Hs3].
  rewrite H3 in Ha3, Hs3. cbn in Ha3, Hs3. rewrite Ha3, Hs3. by destruct old.
Qed.

Lemma run_one_story (fuel : nat) (t : testcase D) (d d' : D) (b b' : bool) (v : verdict) (l : log) (r : runner) :
  story mask_kept old t d b = Some (d', b', v, l) -> fits true false l -> __tap r = true -> __junit r = false -> look r d b ->
  exists r', run_one mask_kept tty (S fuel) t r = Goes r' /\ look r' d' b' /\ index r' = index r + 1 /\
    progress r r' [v] (tap_test (index r) (t, v, l)).
Proof.
  intros Hs Hf Ht Hj Hl. unfold run_one. set (r0 := with_env _ r). assert (__tap r0 = true) as Ht0 by done. assert (__junit r0 = false) as Hj0 by done.
  unfold announce, plain. rewrite Ht0, Hj0. cbn [negb andb when].
  assert (progress r r0 [] []) as P0 by apply progress_refl.
  destruct (skip t) eqn:Hskip.
  - unfold story in Hs. rewrite Hskip in Hs. injection Hs as <- <- <- <-. unfold report_skipped, plain. rewrite Ht0. cbn [negb andb mbind fate_bind fbind].
    cbn [__junit add_counts printf with_con]. rewrite Hj0. cbn [when].
    eexists. split; [reflexivity|]. split; [exact Hl|]. split; [cbn; lia|].
    unfold tap_test. refine (progress_trans r r0 _ [] [Skipped] [] _ P0 _).
    assert (count Passed [Skipped] = 0 /\ count Failed [Skipped] = 0 /\ count Skipped [Skipped] = 1) as (C1 & C2 & C3) by done.
    split; rewrite ?C1, ?C2, ?C3; try done; try (cbn; lia). etransitivity; [apply written_print|]. f_equal. by rewrite app_nil_r.
  - destruct (run_case_story fuel t d d' b b' v l r0 Hs Hskip Ht0 Hj0 Hl eq_refl) as (r1 & -> & Hl1 & He1 & Hi1 & P1).
    cbn [mbind fate_bind fbind]. rewrite He1.
    assert (__junit r1 = false) as Hj1 by (etransitivity; [exact (p_junit _ _ _ _ P1)|done]).
    eexists. split; [reflexivity|]. pose proof (buffer_shown true false l Hf) as Hb. unfold tap_test.
    pose proof (progress_trans _ _ _ _ _ _ _ P0 P1) as P2. cbn [app] in P2. change (index r0) with (index r) in P2, Hi1.
    destruct (negb _); unfold when; rewrite <- Hb; cbn [__junit printf with_con]; rewrite Hj1.
    + split; [exact Hl1|]. split; [cbn; congruence|]. apply progress_index. by apply progress_print.
    + split; [exact Hl1|]. split; [cbn; congruence|]. apply progress_index. by rewrite app_nil_r.
Qed.

Lemma run_all_stories (fuel : nat) (tests : list (testcase D)) (d d' : D) (b b' : bool) (l : list (testcase D * verdict * log)) (r : runner) :
  stories mask_kept old (List.filter (filter r) tests) d b = Some (d', b', l) -> Forall (fun x => fits true false (snd x)) l ->
  __tap r = true -> __junit r = false -> look r d b ->
  exists r', run_all mask_kept tty (S fuel) tests r = Goes r' /\ look r' d' b' /\
    progress r r' (map (fun x => snd (fst x)) l) (tap_tests (index r) l).
Proof.
  revert d b l r. induction tests as [|t tests IH]; intros d b l r Hs Hf Ht Hj Hl.
  - injection Hs as <- <- <-. exists r. split; [done|]. split; [done|]. destruct r. apply progress_refl.
  - cbn [List.filter run_all] in *. destruct (filter r t) eqn:Hft; [|by apply (IH d b)].
    cbn [stories] in Hs. destruct (story mask_kept old t d b) as [[[[d1 b1] v] l1]|] eqn:H1; [|done]. cbn [mbind option_bind] in Hs.
    destruct (stories mask_kept old _ d1 b1) as [[[d2 b2] l2]|] eqn:H2; [|done]. injection Hs as -> -> <-.
    apply Forall_cons in Hf as [Hf1 Hf2]. cbn [snd] in Hf1.
    destruct (run_one_story fuel t d d1 b b1 v l1 r H1 Hf1 Ht Hj Hl) as (r1 & -> & Hl1 & Hi1 & P1). cbn [mbind fate_bind fbind].
    rewrite <- (p_filter _ _ _ _ P1) in H2.
    destruct (IH d1 b1 l2 r1 H2 Hf2) as (r2 & -> & Hl2 & P2); [by rewrite (p_tap _ _ _ _ P1)|by rewrite (p_junit _ _ _ _ P1)|done|].
    exists r2. split; [done|]. split; [done|]. rewrite Hi1 in P2. cbn [map fst snd tap_tests].
    exact (progress_trans _ _ _ _ _ _ _ P1 P2).
Qed.
End Report.

(** ** Reading the report *)

Fixpoint lines (t : text) : list text :=
  match t with
  | [] => []
  | c :: t => if c =? 10 then [] :: lines t else match lines t with [] => [[c]] | l :: ls => (c :: l) :: ls end
  end.
Fixpoint word (t : text) : text := match t with [] => [] | c :: t => if c =? 32 then [] else c :: word t end.
(** A reader of the Test Anything Protocol: the plan, and number, description, verdict and
    comments of each test. *)
Inductive tap_item := Point (n : Z) (name : text) (v : verdict) | Comment (t : text).
Definition read_point (v : verdict) (t : text) : tap_item :=
  let '(n, rest) := digits 0 t in Point n (word (tail rest)) v.
Definition read_line (l : text) : option tap_item :=
  if has_prefix l (str "# ") then Some (Comment (drop 2 l))
  else if has_prefix l (str "not ok ") then Some (read_point Failed (drop 7 l))
  else if has_prefix l (str "ok ") then Some (read_point (if existsb (Z.eqb 35) l then Skipped else Passed) (drop 3 l))
  else None.
Fixpoint read_points (ls : list text) : option (list text * list (Z * text * verdict * list text)) :=
  match ls with
  | [] => Some ([], [])
  | l :: ls =>
      '(comments, points) ← read_points ls;
      item ← read_line l;
      Some (match item with Comment t => (t :: comments, points) | Point n name v => ([], (n, name, v, comments) :: points) end)
  end.
Definition read_tap (t : text) : option (Z * list (Z * text * verdict * list text)) :=
  match lines t with
  | plan :: ls =>
      if has_prefix plan (str "1..") then
        '(comments, points) ← read_points ls;
        match comments with [] => Some (fst (digits 0 (drop 3 plan)), points) | _ => None end
      else None
  | [] => None
  end.

Lemma lines_cons (l rest : text) : Forall (fun c => c <> 10) l -> lines (l ++ newline ++ rest) = l :: lines rest.
Proof.
  induction l as [|c l IH]; intros Hl; [done|]. apply Forall_cons in Hl as [Hc Hl]. cbn [app lines].
  rewrite (proj2 (Z.eqb_neq c 10)) by done. by rewrite IH.
Qed.
Lemma word_space (w rest : text) : Forall (fun c => c <> 32) w -> chr rest = 32 \/ rest = [] -> word (w ++ rest) = w.
Proof.
  intros Hw Hr. induction w as [|c w IH]; cbn [app word].
  - destruct Hr as [Hr| ->]; [|done]. destruct rest as [|c rest]; [done|]. cbn in Hr. by subst.
  - apply Forall_cons in Hw as [Hc Hw]. rewrite (proj2 (Z.eqb_neq c 32)) by done. by rewrite IH.
Qed.

(** Names are identifiers of C, and messages have one line. *)
Definition ident_char (c : Z) : bool := is_digit c || (65 <=? c) && (c <=? 90) || (97 <=? c) && (c <=? 122) || (c =? 95).
Definition well_named {D} (t : testcase D) : Prop := forallb ident_char (suite_name t ++ test_name t) = true.
Definition one_line (m : bool * text) : Prop := Forall (fun c => c <> 10) (snd m).
Definition described {D} (x : testcase D * verdict * log) : Prop := well_named (fst (fst x)) /\ Forall one_line (snd x) /\ fits true false (snd x).

Lemma full_name_chars {D} (t : testcase D) : well_named t -> Forall (fun c => c <> 10 /\ c <> 32 /\ c <> 35) (full_name t).
Proof.
  unfold well_named, full_name. rewrite <- Is_true_true, forallb_True, !Forall_app. intros [Hs Ht].
  assert (forall c, ident_char c -> c <> 10 /\ c <> 32 /\ c <> 35) as Hc by (unfold ident_char, is_digit; intros c H%Is_true_true; lia).
  split; [by eapply Forall_impl|]. split; [by repeat constructor|by eapply Forall_impl].
Qed.
Lemma digits_chars (ds : text) : forallb is_digit ds = true -> Forall (fun c => c <> 10 /\ c <> 32 /\ c <> 35) ds.
Proof.
  rewrite <- Is_true_true, forallb_True. intros Hd. eapply Forall_impl; [exact Hd|]. intros c H%Is_true_true. unfold is_digit in H. lia.
Qed.
Lemma no_hash (t : text) : Forall (fun c => c <> 10 /\ c <> 32 /\ c <> 35) t -> existsb (Z.eqb 35) t = false.
Proof. induction 1 as [|c t (_ & _ & Hc) _ IH]; [done|]. cbn [existsb]. by rewrite (proj2 (Z.eqb_neq 35 c)) by done. Qed.
Lemma parts_of (P Q R : Z -> Prop) (t : text) : Forall (fun c => P c /\ Q c /\ R c) t -> Forall P t /\ Forall Q t.
Proof. intros H. split; (eapply Forall_impl; [exact H|]); by intros x (H1 & H2 & _). Qed.

Section Reading.
Context {D : Type}.

(** A line of the report without its end. *)
Definition point_text (i : Z) (name : text) (v : verdict) : text :=
  str (if bool_decide (v = Failed) then "not ok " else "ok ") ++ decimal i ++ str " " ++ name ++ (if bool_decide (v = Skipped) then str " # skip " else []).
Lemma tap_line_point (i : Z) (name : text) (v : verdict) : tap_line i name v = point_text i name v ++ newline.
Proof. unfold tap_line, point_text. by rewrite <- !app_assoc. Qed.
Lemma read_rest (i : Z) (t : testcase D) (v : verdict) (tail_ : text) : 0 <= i -> well_named t -> chr tail_ = 32 \/ tail_ = [] ->
  read_point v (decimal i ++ str " " ++ full_name t ++ tail_) = Point i (full_name t) v.
Proof.
  intros Hi Hn Ht. unfold read_point. rewrite read_decimal; [|done|done]. change (tail (str " " ++ full_name t ++ tail_)) with (full_name t ++ tail_).
  f_equal. apply word_space; [|done]. by apply full_name_chars, parts_of in Hn as [_ Hn].
Qed.
Lemma read_line_point (i : Z) (t : testcase D) (v : verdict) : 0 <= i -> well_named t ->
  read_line (point_text i (full_name t) v) = Some (Point i (full_name t) v) /\ Forall (fun c => c <> 10) (point_text i (full_name t) v).
Proof.
  intros Hi Hn. destruct (decimal_reads i Hi) as (Hd & _ & _). pose proof (full_name_chars t Hn) as Hf. apply digits_chars in Hd.
  split.
  - assert (existsb (Z.eqb 35) (decimal i ++ str " " ++ full_name t) = false) as Hh.
    { by rewrite !existsb_app, (no_hash _ Hd), (no_hash _ Hf). }
    destruct v; unfold point_text, read_line.
    + rewrite !bool_decide_eq_false_2 by done. change (has_prefix _ (str "# ")) with false. change (has_prefix _ (str "not ok ")) with false.
      rewrite has_prefix_app, app_nil_r, existsb_app, Hh. change (existsb (Z.eqb 35) (str "ok ") || false) with false. cbn iota.
      change (drop 3 (str "ok " ++ ?x)) with x. rewrite <- (app_nil_r (full_name t)) at 1. f_equal. apply read_rest; try done. by right.
    + rewrite bool_decide_eq_true_2, bool_decide_eq_false_2 by done. change (has_prefix _ (str "# ")) with false. rewrite has_prefix_app.
      change (drop 7 (str "not ok " ++ decimal i ++ str " " ++ full_name t ++ [])) with (decimal i ++ str " " ++ full_name t ++ []).
      f_equal. apply read_rest; try done. by right.
    + rewrite (bool_decide_eq_false_2 (Skipped = Failed)), (bool_decide_eq_true_2 (Skipped = Skipped)) by done.
      change (has_prefix _ (str "# ")) with false. change (has_prefix _ (str "not ok ")) with false. rewrite has_prefix_app.
      rewrite !existsb_app. change (existsb (Z.eqb 35) (str " # skip ")) with true. rewrite !orb_true_r.
      change (drop 3 (str "ok " ++ ?x)) with x. f_equal. apply read_rest; try done. by left.
  - unfold point_text. rewrite !Forall_app. apply parts_of in Hd as [Hd _]. apply parts_of in Hf as [Hf _].
    destruct v; repeat split; try done; repeat (apply Forall_cons; split; [done|]); apply Forall_nil; done.
Qed.

(** What a reader shall find: number, name, verdict and messages of each test. *)
Fixpoint entries (i : Z) (l : list (testcase D * verdict * log)) : list (Z * text * verdict * list text) :=
  match l with [] => [] | (t, v, ms) :: l => (i, full_name t, v, map snd ms) :: entries (i + 1) l end.

Lemma read_comments (ms : log) (rest : text) (comments : list text) (points : list (Z * text * verdict * list text)) :
  Forall one_line ms -> read_points (lines rest) = Some (comments, points) ->
  read_points (lines (frames true false ms ++ rest)) = Some (map snd ms ++ comments, points).
Proof.
  intros Hm Hr. induction ms as [|[e t] ms IH]; [done|]. apply Forall_cons in Hm as [Ht Hm]. unfold one_line in Ht. cbn [snd] in Ht.
  unfold frames. cbn [map concat fst snd]. fold (frames true false ms). unfold framed, opening, closing. cbn [negb andb].
  rewrite <- !app_assoc. rewrite (app_assoc (str "# ")). rewrite lines_cons by (apply Forall_app; split; [by repeat (apply Forall_cons; split; [done|])|done]).
  cbn [read_points]. rewrite IH by done. cbn [mbind option_bind]. unfold read_line. rewrite has_prefix_app. by cbn [mbind option_bind].
Qed.
Lemma read_tests (i : Z) (l : list (testcase D * verdict * log)) : 0 <= i -> Forall described l ->
  read_points (lines (tap_tests i l)) = Some ([], entries i l).
Proof.
  revert i. induction l as [|[[t v] ms] l IH]; intros i Hi Hl; [done|]. apply Forall_cons in Hl as [(Hn & Hm & _) Hl]. cbn [fst snd] in Hn, Hm.
  cbn [tap_tests entries]. unfold tap_test. rewrite tap_line_point, <- !app_assoc.
  destruct (read_line_point i t v Hi Hn) as [Hr Hc]. rewrite lines_cons by done. cbn [read_points].
  rewrite (read_comments ms _ [] (entries (i + 1) l) Hm (IH (i + 1) ltac:(lia) Hl)). cbn [mbind option_bind]. rewrite Hr.
  cbn [mbind option_bind]. by rewrite app_nil_r.
Qed.
Lemma read_report (n : Z) (l : list (testcase D * verdict * log)) : 0 <= n -> Forall described l ->
  read_tap (str "1.." ++ decimal n ++ newline ++ tap_tests 1 l) = Some (n, entries 1 l).
Proof.
  intros Hn Hl. unfold read_tap. destruct (decimal_reads n Hn) as (Hd & _ & _). apply digits_chars, parts_of in Hd as [Hd _].
  rewrite (app_assoc (str "1..")), lines_cons by (apply Forall_app; split; [by repeat (apply Forall_cons; split; [done|])|done]).
  rewrite has_prefix_app, read_tests by done. cbn [mbind option_bind]. change (drop 3 (str "1.." ++ decimal n)) with (decimal n).
  rewrite <- (app_nil_r (decimal n)), read_decimal by done. done.
Qed.
Lemma stories_length (mask_kept : bool) (old : handler * handler) (tests : list (testcase D)) (d d' : D) (b b' : bool) l :
  stories mask_kept old tests d b = Some (d', b', l) -> length l = length tests.
Proof.
  revert d d' b b' l. induction tests as [|t tests IH]; intros d d' b b' l Hs; cbn [stories] in Hs; [by injection Hs as _ _ <-|].
  destruct (story mask_kept old t d b) as [[[[d1 b1] v] l1]|]; [|done]. cbn [mbind option_bind] in Hs.
  destruct (stories mask_kept old tests d1 b1) as [[[d2 b2] l2]|] eqn:H2; [|done]. cbn [mbind option_bind] in Hs. injection Hs as _ _ <-. cbn [length]. f_equal. by eapply IH.
Qed.
Lemma count_all (vs : list verdict) : count Passed vs + count Failed vs + count Skipped vs = Z.of_nat (length vs).
Proof.
  induction vs as [|v vs IH]; [done|]. change (v :: vs) with ([v] ++ vs). rewrite !count_app, length_app.
  assert (count Passed [v] + count Failed [v] + count Skipped [v] = 1) by by destruct v. cbn [length]. lia.
Qed.

(** A runner that has run nothing. *)
Definition fresh (r : runner (D := D)) : Prop :=
  (total r, num_ok r, num_fail r, num_skip r, index r) = (0, 0, 0, 0, 1) /\ __junit r = false /\ filter r = __ina_suite_all.
Definition chosen (args : list text) : testcase D -> bool := match args with f :: _ => __ina_suite_filter f | [] => __ina_suite_all end.
End Reading.

(** C18. A run of the tests in the Test Anything Protocol, of all tests or those that a filter
    selects, that have stories, which is to say that no fixture fails and no crash comes
    while the signal of an earlier one is still blocked ([tame_tests_have_stories]): it
    comes to its end and gives the number of the failed tests; every selected test had its
    turn with its fixture, in the order of the section, also behind tests that fail, abort
    or crash, so that the memory is the one these turns leave, and the handlers of the
    signals are those from before; the counters add up to the number of the tests; and
    who reads the report by the rules of the protocol gets for each test its number, its
    name, its verdict and its messages, if these are lines that fit into their buffer. *)
Theorem test_run_reports_each_test {D : Type} (mask_kept : bool) (tty : tty_calls) (version : Z) (fuel : nat) (bin : text) (args : list text)
    (below above : list (Z * testcase D)) (retval : Z) (r : runner (D := D)) (tests : list (testcase D)) (d' : D) (b' : bool)
    (l : list (testcase D * verdict * log)) :
  fresh r -> section_tests below above = Some tests ->
  let v := environment r in
  stories mask_kept (on_abort v, on_segv v) (List.filter (chosen args) tests) (mem v) (blocked v) = Some (d', b', l) -> Forall described l ->
  exists r' out,
    ina_test_run mask_kept tty version (S fuel) (bin :: str "--format=tap" :: args) (Lua true None None) below above retval r =
      Goes (r', count Failed (map (fun x => snd (fst x)) l)) /\
    mem (environment r') = d' /\ (on_abort (environment r'), on_segv (environment r')) = (on_abort v, on_segv v) /\
    total r' = Z.of_nat (length (List.filter (chosen args) tests)) /\ num_ok r' + num_fail r' + num_skip r' = total r' /\
    written (con r') = written (con r) ++ out /\ read_tap out = Some (total r', entries 1 l).
Proof.
  intros (Hc & Hj & Hflt) Hsec v Hs Hl. injection Hc as Ht0 Ho0 Hf0 Hs0 Hi0. unfold ina_test_run. rewrite Hsec.
  rewrite (bool_decide_eq_false_2 (str "--format=tap" = str "-h")) by done. cbn iota.
  set (r1 := choose _ r). assert (__tap r1 = true /\ __junit r1 = false /\ filter r1 = chosen args /\ environment r1 = v /\ con r1 = con r /\
    (total r1, num_ok r1, num_fail r1, num_skip r1, index r1) = (0, 0, 0, 0, 1)) as (Ht1 & Hj1 & Hf1 & He1 & Hc1 & Hn1).
  { subst r1. unfold choose. rewrite bool_decide_eq_true_2 by done. destruct args; cbn; rewrite ?Ht0, ?Ho0, ?Hf0, ?Hs0, ?Hi0; done. }
  clearbody r1. injection Hn1 as Htot1 Hok1 Hfail1 Hskip1 Hi1. rewrite Hf1. set (n := Z.of_nat (length (List.filter (chosen args) tests))).
  unfold opening_lines. cbn [__tap add_counts]. rewrite Ht1. set (r2 := printf _ _).
  assert (total r2 = n) as Htot2 by (cbn; rewrite Htot1; done).
  destruct (run_all_stories mask_kept tty (on_abort v, on_segv v) fuel tests (mem v) d' (blocked v) b' l r2) as (r3 & Hr3 & (Hm3 & _ & Hh3) & P3).
  { cbn. by rewrite Hf1. }
  { eapply Forall_impl; [exact Hl|]. by intros x (_ & _ & H). }
  { done. } { done. } { unfold look. change (environment r2) with (environment r1). by rewrite He1. }
  rewrite Hr3. cbn [mbind fate_bind fbind]. destruct P3 as [Ptot Pok Pfail Pskip Ptap Pjunit _ Pw].
  assert (__tap r3 = true) as Ht3 by (rewrite Ptap; exact Ht1). assert (__junit r3 = false) as Hj3 by (rewrite Pjunit; exact Hj1).
  unfold closing_lines, plain. rewrite Ht3. cbn [negb]. rewrite andb_false_r. cbn [mbind fate_bind fbind]. rewrite Hj3. cbn [when].
  assert (num_ok r2 = 0 /\ num_fail r2 = 0 /\ num_skip r2 = 0 /\ index r2 = 1) as (Hok2 & Hfail2 & Hskip2 & Hi2) by (cbn; lia).
  rewrite Hok2 in Pok. rewrite Hfail2 in Pfail. rewrite Hskip2 in Pskip. rewrite Hi2 in Pw.
  exists r3, (str "1.." ++ decimal n ++ newline ++ tap_tests 1 l). split; [rewrite <- (Z.add_0_l (count Failed _)), <- Pfail; reflexivity|]. split; [done|]. split; [done|].
  split; [congruence|]. split.
  { rewrite Ptot, Pok, Pfail, Pskip, Htot2. pose proof (count_all (map (fun x => snd (fst x)) l)) as Hc. rewrite length_map in Hc.
    rewrite (stories_length _ _ _ _ _ _ _ _ Hs) in Hc. subst n. lia. }
  split.
  { rewrite Pw. change (written (con r2)) with (written (print (Plain (str "1.." ++ decimal (total r1 + n) ++ newline)) (con r1))).
    rewrite written_print, Hc1, Htot1. by rewrite <- !app_assoc. }
  rewrite Ptot, Htot2. apply read_report; [lia|done].
Qed.

(** *** A concrete section: two tests with a fixture, one that is skipped, and a helper *)
Definition counting (s t : string) (p : prog Z) (skip : bool) : testcase Z :=
  Testcase (str s) (str t) (Test p) skip (Some (Do (fun d => d + 1) Return)) (Some (Do (fun d => d * 10) Return)).
Definition end_of_section : Z * testcase Z := (0, counting "" "" Return true).
Definition above_tests : list (Z * testcase Z) :=
  [(INA_TEST_MAGIC, counting "math" "add" (Assert (fun d => ina_test_assert_equal_int 11 d (str "m.c") 5) Return) false);
   (INA_TEST_MAGIC, counting "math" "later" Return true);
   (INA_TEST_MAGIC, Testcase (str "math") (str "server") (Helper (fun rc args d => Some (d, 0))) true None None); end_of_section].
Definition below_tests : list (Z * testcase Z) :=
  [(INA_TEST_MAGIC, counting "text" "crash" (Message false (fun _ => str "soon") (Raise SIGSEGV)) false); end_of_section].
Definition fresh_runner : runner (D := Z) :=
  Runner 0 0 0 0 1 false false __ina_suite_all (Console false (undefined_attribs 0) [] [] (Termios true true true))
    (Env 0 no_errors (Foreign 1) (Foreign 2) false).
Definition first_tests : list (testcase Z) := default [] (section_tests below_tests above_tests).

Lemma test_run_reports_each_test_witness : exists r' out,
  ina_test_run true (TtyCalls None None []) 0 3 [str "tests"; str "--format=tap"] (Lua true None None) below_tests above_tests 1 fresh_runner = Goes (r', 1) /\
  mem (environment r') = 110 /\
  read_tap out = Some (3, [(1, str "text:crash", Failed, [str "soon"]); (2, str "math:add", Passed, []);
                           (3, str "math:later", Skipped, [])]).
Proof.
  destruct (test_run_reports_each_test true (TtyCalls None None []) 0 2 (str "tests") [] below_tests above_tests 1 fresh_runner first_tests 110 true
    [(counting "text" "crash" (Message false (fun _ => str "soon") (Raise SIGSEGV)) false, Failed, [(false, str "soon")]);
     (counting "math" "add" (Assert (fun d => ina_test_assert_equal_int 11 d (str "m.c") 5) Return) false, Passed, []);
     (counting "math" "later" Return true, Skipped, [])]) as (r' & out & H1 & H2 & _ & H3 & _ & _ & H4).
  - split; [reflexivity|]. split; reflexivity.
  - reflexivity.
  - vm_compute. reflexivity.
  - assert (forall c : text, forallb (fun x => negb (x =? 10)) c = true -> Forall (fun x => x <> 10) c) as Hc.
    { intros c. rewrite <- Is_true_true, forallb_True. intros H. eapply Forall_impl; [exact H|]. intros x Hx%Is_true_true. cbn in Hx. lia. }
    apply Forall_cons_2; [|apply Forall_cons_2; [|apply Forall_singleton]].
    + split; [reflexivity|]. split; [apply Forall_singleton; apply Hc; reflexivity|vm_compute; discriminate].
    + split; [reflexivity|]. split; [apply Forall_nil; exact I|vm_compute; discriminate].
    + split; [reflexivity|]. split; [apply Forall_nil; exact I|vm_compute; discriminate].
  - exists r', out. split; [exact H1|]. split; [exact H2|]. rewrite H4, H3. reflexivity.
Defined.

(** ** The bounds of the message buffer *)

Definition room (e : errors) : Prop :=
  1 <= __errorsize e /\ Z.of_nat (length (before e)) + __errorsize e = __INA_MSG_SIZE - 1 /\ Z.of_nat (length (after e)) < __errorsize e.
Lemma snprintf_room (s : text) (e : errors) : room e -> room (fst (snprintf s e)) /\ __errorsize (fst (snprintf s e)) = __errorsize e.
Proof.
  intros (H1 & H2 & H3). unfold snprintf. cbn [fst]. split; [|done]. rewrite (proj2 (Z.ltb_lt 0 _)) by lia.
  split; [done|]. split; [done|]. cbn [after __errorsize]. rewrite length_take. lia.
Qed.
Lemma advance_room (s : text) (e : errors) : room e -> Z.of_nat (length s) < __errorsize e ->
  let e' := advance (Z.of_nat (length s)) (fst (snprintf s e)) in room e' /\ __errorsize e' = __errorsize e - Z.of_nat (length s).
Proof.
  intros (H1 & H2 & H3) Hs. rewrite snprintf_fits by done. cbn [fst]. rewrite advance_all. cbn zeta. split; [|done].
  split; [cbn; lia|]. cbn [before after __errorsize length]. rewrite length_app. split; lia.
Qed.

Lemma message_room (tap junit b : bool) (t : text) (e : errors) : room e ->
  room (fst (ina_test_msg tap junit b t e)) /\
  match snd (ina_test_msg tap junit b t e) with
  | Ok _ => __errorsize (fst (ina_test_msg tap junit b t e)) < __errorsize e
  | Err _ => __errorsize e < 48 \/ __errorsize (fst (ina_test_msg tap junit b t e)) <= Z.of_nat (length (closing junit b))
  end.
Proof.
  intros He. unfold ina_test_msg. destruct (Z.ltb_spec (__errorsize e) 48) as [H|H]; [by split; [|left]|].
  pose proof (opening_length tap junit b) as Hop. assert (length (opening tap junit b) <= 40)%nat as Hop' by (clear; destruct tap, junit, b; cbn; lia).
  destruct (snprintf (opening tap junit b) e) as [e1 n1] eqn:H1. assert (n1 = Z.of_nat (length (opening tap junit b))) as -> by exact (eq_sym (f_equal snd H1)).
  destruct (advance_room (opening tap junit b) e He ltac:(lia)) as [He1 Hs1]. rewrite H1 in He1, Hs1. cbn [fst] in He1, Hs1.
  set (e2 := advance _ e1) in *. destruct (snprintf t e2) as [e3 n3] eqn:H3.
  assert (n3 = Z.of_nat (length t)) as -> by exact (eq_sym (f_equal snd H3)).
  destruct (snprintf_room t e2 He1) as [He3 Hs3]. rewrite H3 in He3, Hs3. cbn [fst] in He3, Hs3. rewrite Hs3.
  assert (exists e5, (let '(e0, size) := if __errorsize e2 <=? Z.of_nat (length t) then snprintf (str "...") e3 else (e3, Z.of_nat (length t)) in advance size e0) = e5 /\
    room e5 /\ __errorsize e5 <= __errorsize e2) as (e5 & Heq & He5 & Hs5).
  { destruct (Z.leb_spec (__errorsize e2) (Z.of_nat (length t))) as [Hl|Hl].
    - destruct (advance_room (str "...") e3 He3) as [Ha Hb]; [cbn; lia|].
      eexists. split; [reflexivity|]. split; [exact Ha|]. etransitivity; [apply Z.eq_le_incl; exact Hb|]. lia.
    - destruct (advance_room t e2 He1 Hl) as [Ha Hb]. rewrite H3 in Ha, Hb. eexists. split; [reflexivity|]. split; [exact Ha|].
      etransitivity; [apply Z.eq_le_incl; exact Hb|]. lia. }
  destruct (if __errorsize e2 <=? Z.of_nat (length t) then snprintf (str "...") e3 else (e3, Z.of_nat (length t))) as [e4 n4]. rewrite Heq.
  destruct (snprintf (closing junit b) e5) as [e6 n6] eqn:H6. assert (n6 = Z.of_nat (length (closing junit b))) as -> by exact (eq_sym (f_equal snd H6)).
  destruct (snprintf_room (closing junit b) e5 He5) as [He6 Hs6]. rewrite H6 in He6, Hs6. cbn [fst] in He6, Hs6.
  assert (0 < length (opening tap junit b))%nat as Hop0 by (clear; destruct tap, junit, b; cbn; lia).
  destruct (Z.leb_spec (__errorsize e6) (Z.of_nat (length (closing junit b)))) as [Hc|Hc]; cbn [fst snd]; [by split; [|right; rewrite Hs6; lia]|].
  destruct (advance_room (closing junit b) e5 He5 ltac:(lia)) as [Ha Hb]. rewrite H6 in Ha, Hb. cbn [fst] in Ha, Hb. cbn zeta in Ha, Hb.
  split; [exact Ha|]. rewrite Hb. lia.
Qed.

(** C19. The messages of a test never leave their buffer: whatever is written, in
    whatever format, what the buffer holds fits with its terminating zero, the room
    that is left is counted to the byte, and a message is refused only where less
    than 48 bytes are left or its end finds no place. *)
Theorem messages_stay_in_buffer (tap junit : bool) (l : log) (is_error : bool) (t : text) :
  let e := buffer tap junit l in
  Z.of_nat (length (__errorbuffer e)) + 1 <= __INA_MSG_SIZE /\
  Z.of_nat (length (before e)) + __errorsize e = __INA_MSG_SIZE - 1 /\ 1 <= __errorsize e /\
  match snd (ina_test_msg tap junit is_error t e) with
  | Ok _ => __errorsize (buffer tap junit (add_message is_error t l)) < __errorsize e
  | Err x => __errorsize e < 48 \/ __errorsize (buffer tap junit (add_message is_error t l)) <= Z.of_nat (length (closing junit is_error))
  end.
Proof.
  assert (room (buffer tap junit l)) as Hr.
  { unfold buffer. assert (room no_errors) as H0 by (split; [|split]; done). revert H0. generalize no_errors as e.
    induction l as [|m l IH]; intros e He; [done|]. cbn [fold_left]. apply IH. by apply message_room. }
  cbn zeta. pose proof (proj2 (message_room tap junit is_error t _ Hr)) as Hm. destruct Hr as (H1 & H2 & H3).
  unfold __errorbuffer. rewrite length_app, buffer_say. split; [lia|]. split; [done|]. split; [done|]. exact Hm.
Qed.

(** ** Assertions and filters *)

Lemma first_difference_none (i : Z) (exp real : text) : length exp = length real -> first_difference i exp real = None <-> exp = real.
Proof.
  revert i real. induction exp as [|e exp IH]; intros i [|x real] Hl; try done. cbn [first_difference]. injection Hl as Hl.
  destruct (Z.eqb_spec e x) as [->|Hne]; [rewrite IH by done; split; [by intros ->|by intros [= ->]]|]. split; [done|by intros [= ? ?]].
Qed.
Lemma assert_data_compares (exp real caller : text) (line : Z) : ina_test_assert_data exp real caller line = None <-> exp = real.
Proof.
  unfold ina_test_assert_data. destruct (Nat.eqb_spec (length exp) (length real)) as [Hl|Hl]; cbn [negb].
  - rewrite <- (first_difference_none 0 exp real Hl). destruct (first_difference 0 exp real) as [[[i e] x]|]; done.
  - split; [done|]. by intros ->.
Qed.

Lemma strncmp_prefix (p q : text) : strncmp_eq p q (length p) = true <-> exists rest, q = p ++ rest.
Proof.
  unfold strncmp_eq. rewrite bool_decide_eq_true, firstn_all. split.
  - intros H. exists (drop (length p) q). rewrite H at 1. by rewrite take_drop.
  - intros [rest ->]. by rewrite take_app_length.
Qed.
Lemma strchr_none (s : text) (c : Z) : c ∉ s -> strchr s c = None.
Proof.
  induction s as [|x s IH]; [done|]. rewrite not_elem_of_cons. intros [Hc Hs]. cbn [strchr].
  rewrite (proj2 (Z.eqb_neq x c)) by congruence. by apply IH.
Qed.
Lemma strchr_first (s r : text) (c : Z) : c ∉ s -> strchr (s ++ c :: r) c = Some r.
Proof.
  induction s as [|x s IH]; cbn [app strchr]; [by rewrite Z.eqb_refl|]. rewrite not_elem_of_cons. intros [Hc Hs].
  rewrite (proj2 (Z.eqb_neq x c)) by congruence. by apply IH.
Qed.

(** What the three forms of a filter select: [s] the suites whose name begins with it,
    [s:t] their tests whose name begins with [t], and [s:t:] their tests whose name [t:]
    begins with. *)
Lemma suite_filter_spec {D} (s n : text) (t : testcase D) : is_helper t = false -> COLON ∉ s -> COLON ∉ n -> n <> [] ->
  let suite := exists rest, suite_name t = s ++ rest in
  (__ina_suite_filter s t = true <-> suite) /\ (__ina_suite_filter (s ++ [COLON]) t = true <-> suite) /\
  (__ina_suite_filter (s ++ COLON :: n) t = true <-> suite /\ exists rest, test_name t = n ++ rest) /\
  (__ina_suite_filter (s ++ COLON :: n ++ [COLON]) t = true <-> suite /\ exists rest, n ++ [COLON] = test_name t ++ rest).
Proof.
  intros Hh Hs Hn Hne. assert (forall r, (length (s ++ COLON :: r) - length r - 1)%nat = length s) as Hlen by (intros r; rewrite length_app; cbn [length]; lia).
  assert (forall r, strncmp_eq (s ++ r) (suite_name t) (length s) = strncmp_eq s (suite_name t) (length s)) as Hcmp
    by (intros r; unfold strncmp_eq; by rewrite take_app_length, firstn_all).
  unfold __ina_suite_filter. rewrite Hh. split; [by rewrite strchr_none, strncmp_prefix|].
  split; [|split]; rewrite (strchr_first s _ COLON Hs), Hlen, Hcmp, length_app; cbn [length].
  - rewrite (proj2 (Nat.ltb_ge _ _)) by lia. rewrite <- strncmp_prefix. by destruct (strncmp_eq s _ _).
  - rewrite (proj2 (Nat.ltb_lt _ _)), (strchr_none n) by (destruct n; [done|cbn; lia] || done). rewrite <- strncmp_prefix.
    destruct (strncmp_eq s _ _); [|by split; [|intros [? _]]].
    assert (strncmp_eq (test_name t) n (length n) = strncmp_eq n (test_name t) (length n)) as ->
      by (unfold strncmp_eq; apply bool_decide_ext; by split). rewrite strncmp_prefix. by split; [|intros [_ ?]].
  - rewrite (proj2 (Nat.ltb_lt _ _)), (strchr_first n [] COLON Hn) by (destruct n; [done|cbn; lia]). rewrite <- !strncmp_prefix.
    by destruct (strncmp_eq s _ _); [split; [|intros [_ ?]]|split; [|intros [? _]]].
Qed.

(** ** Helpers *)

(** A helper of the program that is started with arguments gets them behind its name. *)
Lemma helper_gets_its_arguments {D} (tests : list (testcase D)) (bin s n : text) (args argv : list text) (k : nat) (rc : Z) (d : D) :
  child_args bin (Some s) n args = Some argv ->
  argv !! (4 + k)%nat = args !! k /\
  ina_test_helper_run tests argv rc d = run_helpers (List.filter (__ina_helper_filter s n) tests) argv rc d.
Proof. unfold child_args. destruct (_ <? _)%nat; [|done]. intros [= <-]. done. Qed.

(** ** Where the framework leaves its contract *)

(** An assertion that fails in the end of a fixture: the end is run again and again. *)
Lemma failing_end_repeats {D} (mask_kept : bool) (tty : tty_calls) (fuel : nat) (passed : bool) (old : handler * handler) (t : testcase D) (m : text) (r : runner (D := D)) :
  teardown t = Some (Assert (fun _ => Some m) Return) -> __tap r = true -> after_run mask_kept tty fuel passed old t r = More.
Proof.
  intros Ht. revert passed r. induction fuel as [|fuel IH]; intros passed r Htap; [done|]. cbn [after_run].
  unfold report, plain. rewrite Htap. cbn [negb andb mbind fate_bind fbind when]. rewrite Ht. cbn [exec_option exec]. by apply IH.
Qed.
(** In its beginning it jumps to where nobody waits. *)
Lemma failing_beginning_is_undefined {D} (mask_kept : bool) (tty : tty_calls) (fuel : nat) (t : testcase D) (m : text) (r : runner (D := D)) :
  setup t = Some (Assert (fun _ => Some m) Return) -> run_case mask_kept tty fuel t r = Undefined.
Proof. intros Ht. unfold run_case. by rewrite Ht. Qed.
(** The second crash ends the program where [longjmp] leaves signals blocked. *)
Lemma second_crash_ends_the_program {D} (tty : tty_calls) (fuel : nat) (s n : text) (t : testcase D) (r : runner (D := D)) :
  run t = Test (Raise SIGSEGV) -> setup t = None -> blocked (environment r) = true -> run_case true tty fuel t r = Leaves.
Proof. intros Hr Hs Hb. unfold run_case. rewrite Hs, Hr. cbn. by rewrite Hb. Qed.
(** A message that is too long is not cut but replaced by dots. *)
Lemma long_message_is_dots (is_error : bool) (t : text) : __INA_MSG_SIZE <= Z.of_nat (length t) ->
  __errorbuffer (fst (ina_test_msg true false is_error t no_errors)) = str "# ...
".
Proof.
  intros Hl. unfold ina_test_msg. change (__errorsize no_errors <? 48) with false. cbn iota. rewrite snprintf_fits by done.
  change (before no_errors) with (@nil Z). change (opening true false is_error) with (str "# "). rewrite advance_all.
  unfold snprintf at 1. cbn [__errorsize before]. change (0 <? _) with true. cbn iota. rewrite (proj2 (Z.leb_le _ _)) by (change (__errorsize no_errors - Z.of_nat (length (str "# "))) with (__INA_MSG_SIZE - 3); lia). done.
Qed.
(** Waiting for a helper until it ends does not wait. *)
Lemma endless_wait_does_not_wait (fork : Z) (bin n : text) (s : option text) (wait : Z) (args : list text) :
  0 < fork -> wait < 0 -> snd (fst (ina_test_helper_spawn fork bin s n wait args)) = [Waitpid_nohang fork].
Proof. intros Hf Hw. unfold ina_test_helper_spawn. rewrite (proj2 (Z.ltb_ge fork 0)), (proj2 (Z.ltb_lt wait 0)) by lia. done. Qed.
(** A helper without a name reads a null pointer. *)
Lemma helper_without_name {D} (tests : list (testcase D)) (a b c : text) (rc : Z) (d : D) : ina_test_helper_run tests [a; b; c] rc d = None.
Proof. done. Qed.
(** No signal but 0 was ever seen. *)
Lemma no_signal_is_seen (signal : Z) (caller : text) (line : Z) : ina_test_assert_signal signal caller line = None <-> signal = 0.
Proof. unfold ina_test_assert_signal, __last_signal. destruct (Z.eqb_spec 0 signal) as [<-|Hs]; cbn [negb]; split; try done; intros H; by destruct Hs. Qed.

End Test.
