(* ===== verification/Crc.v ===== *)
(** * The CRC with the instruction of the processor (hash.c) and hashing by other libraries

    [_mm_crc32_u8] and its wider siblings are the class [CrcInsn]; [CrcLaws] is what
    the manual of the processor says of them, and [crc32c] an instance: the division by the
    polynomial of CRC-32C, bit by bit.  The hash functions of xxhash, memhash,
    falkhash and t1ha are arguments. *)
From Stdlib Require Import ZArith Lia Bool.
From stdpp Require Import base numbers option list.
From S2P Require Import Prelude Error Hash.

Module Crc.
Import Error Hash.

Class CrcInsn := {
  _mm_crc32_u8 : Z -> Z -> Z;
  _mm_crc32_u16 : Z -> Z -> Z;
  _mm_crc32_u32 : Z -> Z -> Z;
  _mm_crc32_u64 : Z -> Z -> Z }.

(** Several bytes at once are the bytes one after the other, the lowest first; the CRC has
    32 bits. *)
Class CrcLaws `{!CrcInsn} := {
  crc_u8_range : forall c b, in_width 32 c -> is_byte b -> in_width 32 (_mm_crc32_u8 c b);
  crc_u16_bytes : forall c bs, in_width 32 c -> Forall is_byte bs -> length bs = 2%nat ->
    _mm_crc32_u16 c (le_value bs) = fold_left _mm_crc32_u8 bs c;
  crc_u32_bytes : forall c bs, in_width 32 c -> Forall is_byte bs -> length bs = 4%nat ->
    _mm_crc32_u32 c (le_value bs) = fold_left _mm_crc32_u8 bs c;
  crc_u64_bytes : forall c bs, in_width 32 c -> Forall is_byte bs -> length bs = 8%nat ->
    _mm_crc32_u64 c (le_value bs) = fold_left _mm_crc32_u8 bs c }.

Section Code.
Context `{!CrcInsn}.

Definition __INA_HASH_CRC_ALIGN_SIZE : Z := 0x08.
Definition __INA_HASH_CRC_ALIGN_MASK : Z := __INA_HASH_CRC_ALIGN_SIZE - 1.

(** The bytes before the first address that is a multiple of eight. *)
Fixpoint align (addr crc : Z) (buf : list Z) : Z * list Z :=
  match buf with
  | b :: rest => if Z.land addr __INA_HASH_CRC_ALIGN_MASK =? 0 then (crc, buf) else align (addr + 1) (_mm_crc32_u8 (u32 crc) b) rest
  | [] => (crc, [])
  end.
(** [__INA_HASH_CRC_CALC_CRC] for a type of [n] bytes; [cast] is the width the CRC is
    converted to before each step.  As many turns as bytes are enough. *)
Fixpoint calc_crc (fuel : nat) (op : Z -> Z -> Z) (n : nat) (cast : Z) (s : Z * list Z) : Z * list Z :=
  match fuel with
  | O => s
  | S fuel =>
      let '(crc, buf) := s in
      if (n <=? length buf)%nat then calc_crc fuel op n cast (op (wrap cast crc) (le_value (take n buf)), drop n buf) else s
  end.
Definition __INA_HASH_CRC_CALC_CRC (op : Z -> Z -> Z) (n : nat) (cast : Z) (s : Z * list Z) : Z * list Z :=
  calc_crc (length (snd s)) op n cast s.

(** [addr] is the address of the data. *)
Definition ina_hash_32_crc_hw (addr hash : Z) (data : list Z) : Z :=
  let s := align addr (Z.lxor hash 0xFFFFFFFF) data in
  let s := __INA_HASH_CRC_CALC_CRC _mm_crc32_u32 4 32 s in
  let s := __INA_HASH_CRC_CALC_CRC _mm_crc32_u16 2 16 s in
  let s := __INA_HASH_CRC_CALC_CRC _mm_crc32_u8 1 8 s in
  Z.lxor (fst s) 0xFFFFFFFF.
Definition ina_hash_64_crc_hw (addr hash : Z) (data : list Z) : Z :=
  let s := align addr hash data in
  let s := __INA_HASH_CRC_CALC_CRC _mm_crc32_u64 8 64 s in
  let s := __INA_HASH_CRC_CALC_CRC _mm_crc32_u32 4 32 s in
  let s := __INA_HASH_CRC_CALC_CRC _mm_crc32_u16 2 16 s in
  fst (__INA_HASH_CRC_CALC_CRC _mm_crc32_u8 1 8 s).
End Code.

(** ** Hash functions of other libraries *)
Section Others.
Variables (XXH32 XXH64 memhash falkhash64 t1ha0 t1ha : list Z -> Z -> Z).
Definition ina_hash_32_xxhash (hash : Z) (data : list Z) : Z := XXH32 data hash.
Definition ina_hash_64_xxhash (hash : Z) (data : list Z) : Z := XXH64 data hash.
Definition ina_hash_64_memhash (hash : Z) (data : list Z) : Z := memhash data hash.
Definition ina_hash_32_memhash (hash : Z) (data : list Z) : Z := u32 (ina_hash_64_memhash hash data).
Definition ina_hash_64_falkhash (hash : Z) (data : list Z) : Z := falkhash64 data hash.
Definition ina_hash_32_falkhash (hash : Z) (data : list Z) : Z := u32 (ina_hash_64_falkhash hash data).
Definition ina_hash_64_t1ha0 (hash : Z) (data : list Z) : Z := t1ha0 data hash.
Definition ina_hash_32_t1ha0 (hash : Z) (data : list Z) : Z := u32 (ina_hash_64_t1ha0 hash data).
Definition ina_hash_64_t1ha1 (hash : Z) (data : list Z) : Z := t1ha data hash.
Definition ina_hash_32_t1ha1 (hash : Z) (data : list Z) : Z := u32 (ina_hash_64_t1ha1 hash data).
End Others.

(** ** The instruction, bit by bit *)
Definition crc32c_bit (c : Z) : Z := if Z.odd c then Z.lxor (Z.shiftr c 1) 0x82F63B78 else Z.shiftr c 1.
Definition crc32c_byte (c b : Z) : Z := Nat.iter 8 crc32c_bit (Z.lxor c b).
Fixpoint crc32c_bytes (n : nat) (c w : Z) : Z :=
  match n with O => c | S n => crc32c_bytes n (crc32c_byte c (w mod 256)) (w / 256) end.
#[export] Instance crc32c : CrcInsn :=
  {| _mm_crc32_u8 := crc32c_byte; _mm_crc32_u16 := crc32c_bytes 2; _mm_crc32_u32 := crc32c_bytes 4; _mm_crc32_u64 := crc32c_bytes 8 |}.

Lemma crc32c_bit_range (c : Z) : in_width 32 c -> in_width 32 (crc32c_bit c).
Proof.
  intros Hc. unfold crc32c_bit. destruct (Z.odd c); [apply lxor_in_width; [lia| |by split]|]; by apply shiftr_in_width.
Qed.
Lemma crc32c_byte_range (c b : Z) : in_width 32 c -> is_byte b -> in_width 32 (crc32c_byte c b).
Proof.
  intros Hc Hb. unfold crc32c_byte. assert (in_width 32 (Z.lxor c b)) as H.
  { apply lxor_in_width; [lia|done|]. by apply (in_width_mono 8). }
  cbn [Nat.iter nat_rect]. by repeat apply crc32c_bit_range.
Qed.
Lemma crc32c_bytes_fold (bs : list Z) (c : Z) : Forall is_byte bs -> crc32c_bytes (length bs) c (le_value bs) = fold_left crc32c_byte bs c.
Proof.
  intros Hb. revert c. induction Hb as [|b bs Hb _ IH]; intros c; [done|]. cbn [length crc32c_bytes fold_left le_value fold_right].
  fold (le_value bs). change (2 ^ 8) with 256. unfold in_width in Hb. change (2 ^ 8) with 256 in Hb.
  replace ((b + 256 * le_value bs) mod 256) with b by dlia. replace ((b + 256 * le_value bs) / 256) with (le_value bs) by dlia. apply IH.
Qed.
#[export] Instance crc32c_laws : CrcLaws.
Proof.
  split; [exact crc32c_byte_range|..]; intros c bs _ Hb Hl; pose proof (crc32c_bytes_fold bs c Hb) as H; rewrite Hl in H; exact H.
Qed.
(** The check value of CRC-32C. *)
Example crc32c_check : ina_hash_32_crc_hw 0 0 [49; 50; 51; 52; 53; 54; 55; 56] = 0x6087809A.
Proof. vm_compute. reflexivity. Qed.

(** ** What the functions compute *)
Section Facts.
Context `{!CrcInsn, !CrcLaws}.
Abbreviation crc_of := (fold_left _mm_crc32_u8).

Lemma crc_of_range (bs : list Z) (c : Z) : in_width 32 c -> Forall is_byte bs -> in_width 32 (crc_of bs c).
Proof.
  intros Hc Hb. revert c Hc. induction Hb as [|b bs Hb _ IH]; intros c Hc; [done|]. cbn [fold_left]. apply IH. by apply crc_u8_range.
Qed.

(** Up to an address that is a multiple of eight the bytes are taken one by one. *)
Lemma align_takes (addr c : Z) (data : list Z) : in_width 32 c -> Forall is_byte data ->
  exists k, align addr c data = (crc_of (take k data) c, drop k data) /\ (k <= length data)%nat /\
    (drop k data <> [] -> Z.land (addr + Z.of_nat k) 7 = 0) /\ (k <= 8)%nat.
Proof.
  intros Hc Hd. enough (forall n, n = Z.land addr 7 -> exists k, align addr c data = (crc_of (take k data) c, drop k data) /\ (k <= length data)%nat /\
    (drop k data <> [] -> Z.land (addr + Z.of_nat k) 7 = 0) /\ Z.of_nat k <= (8 - n) mod 8) as Hall.
  { destruct (Hall _ eq_refl) as (k & H1 & H2 & H3 & H4). exists k. split; [done|]. split; [done|]. split; [done|].
    pose proof (Z.mod_pos_bound (8 - Z.land addr 7) 8). lia. }
  change 7 with (Z.ones 3). setoid_rewrite Z.land_ones; [|lia..]. change (2 ^ 3) with 8. intros n Hn. revert addr c n Hn Hc.
  induction Hd as [|b data Hb Hd IH]; intros addr c n Hn Hc; cbn [align].
  - exists 0%nat. cbn. split; [done|]. split; [done|]. split; [done|]. dlia.
  - change __INA_HASH_CRC_ALIGN_MASK with (Z.ones 3). rewrite Z.land_ones by lia. change (2 ^ 3) with 8.
    destruct (Z.eqb_spec (addr mod 8) 0) as [Ha|Ha].
    + exists 0%nat. cbn. split; [done|]. split; [lia|]. split; [by rewrite Z.add_0_r|]. dlia.
    + rewrite (wrap_small 32 c Hc). destruct (IH (addr + 1) (_mm_crc32_u8 c b) _ eq_refl (crc_u8_range c b Hc Hb)) as (k & H1 & H2 & H3 & H4).
      exists (S k). cbn [take drop fold_left length]. split; [exact H1|]. split; [lia|]. split; [|dlia].
      intros Hne. rewrite <- (H3 Hne). f_equal. lia.
Qed.

(** A loop whose type is as wide as the CRC takes all whole words. *)
Lemma calc_crc_whole (op : Z -> Z -> Z) (n : nat) (cast : Z) (c : Z) (buf : list Z) :
  (0 < n)%nat -> 32 <= cast -> (forall c bs, in_width 32 c -> Forall is_byte bs -> length bs = n -> op c (le_value bs) = crc_of bs c) ->
  in_width 32 c -> Forall is_byte buf ->
  exists k, __INA_HASH_CRC_CALC_CRC op n cast (c, buf) = (crc_of (take (n * k) buf) c, drop (n * k) buf) /\ k = (length buf / n)%nat.
Proof.
  intros Hn Hcast Hop Hc Hb. unfold __INA_HASH_CRC_CALC_CRC. cbn [snd].
  enough (forall fuel buf c, (length buf <= fuel)%nat -> in_width 32 c -> Forall is_byte buf ->
    calc_crc fuel op n cast (c, buf) = (crc_of (take (n * (length buf / n)) buf) c, drop (n * (length buf / n)) buf)) as Hall by eauto.
  clear c buf Hc Hb. induction fuel as [|fuel IH]; intros buf c Hf Hc Hb.
  - destruct buf; [|cbn in Hf; lia]. cbn [calc_crc length]. rewrite Nat.Div0.div_0_l. by rewrite Nat.mul_0_r.
  - cbn [calc_crc]. destruct (Nat.leb_spec n (length buf)) as [Hle|Hlt].
    + rewrite (wrap_small cast c) by (by apply (in_width_mono 32)). rewrite Hop; [|done|by apply Forall_take|rewrite length_take; lia].
      rewrite IH; [|rewrite length_drop; lia|apply crc_of_range; [done|by apply Forall_take]|by apply Forall_drop].
      rewrite length_drop. assert ((length buf / n = S ((length buf - n) / n))%nat) as ->.
      { replace (length buf) with ((length buf - n) + 1 * n)%nat at 1 by lia. rewrite Nat.div_add by lia. lia. }
      rewrite Nat.mul_succ_r, (Nat.add_comm (n * _) n). rewrite <- fold_left_app. f_equal.
      * f_equal. by rewrite take_take_drop.
      * by rewrite drop_drop.
    + rewrite Nat.div_small by done. by rewrite Nat.mul_0_r.
Qed.
Lemma calc_crc_none (op : Z -> Z -> Z) (n : nat) (cast c : Z) : (0 < n)%nat -> __INA_HASH_CRC_CALC_CRC op n cast (c, []) = (c, []).
Proof. done. Qed.
Lemma calc_crc_u32 (c : Z) (buf : list Z) : in_width 32 c -> Forall is_byte buf -> (length buf mod 4 = 0)%nat ->
  __INA_HASH_CRC_CALC_CRC _mm_crc32_u32 4 32 (c, buf) = (crc_of buf c, []).
Proof.
  intros Hc Hb Hl. destruct (calc_crc_whole _mm_crc32_u32 4 32 c buf) as (k & -> & ->); try done; [lia|exact crc_u32_bytes|].
  pose proof (Nat.div_mod (length buf) 4 ltac:(lia)). rewrite take_ge, drop_ge by lia. done.
Qed.
End Facts.

(** C37. The hash functions with the CRC instruction compute the CRC of the bytes one after
    the other, wherever the data lies in memory and although they take it in
    words, whenever what follows the first address that is a multiple of eight is a
    multiple of four bytes long; this is so for data that starts at such an
    address and whose length is a multiple of four. *)
Theorem crc_hw_is_crc `{!CrcInsn, !CrcLaws} (addr hash : Z) (data : list Z) :
  in_width 32 hash -> Forall is_byte data ->
  (Z.of_nat (length data) - (- addr) mod 8) mod 4 = 0 \/ Z.of_nat (length data) <= (- addr) mod 8 ->
  ina_hash_32_crc_hw addr hash data = Z.lxor (fold_left _mm_crc32_u8 data (Z.lxor hash 0xFFFFFFFF)) 0xFFFFFFFF /\
  ina_hash_64_crc_hw addr hash data = fold_left _mm_crc32_u8 data hash.
Proof.
  intros Hh Hd Hl. assert (in_width 32 (Z.lxor hash 0xFFFFFFFF)) as Hx by (apply lxor_in_width; [lia|done|by split]).
  assert (forall c, in_width 32 c -> exists k, align addr c data = (fold_left _mm_crc32_u8 (take k data) c, drop k data) /\ (length (drop k data) mod 4 = 0)%nat) as Hal.
  { intros c Hc. destruct (align_takes addr c data Hc Hd) as (k & -> & Hk & Hz & H8). exists k. split; [done|].
    destruct (decide (drop k data = [])) as [->|Hne]; [done|]. specialize (Hz Hne). change 7 with (Z.ones 3) in Hz. rewrite Z.land_ones in Hz by lia. change (2 ^ 3) with 8 in Hz.
    assert (0 < length (drop k data))%nat as Hpos by (destruct (drop k data); [done|cbn; lia]). rewrite length_drop in *.
    apply Nat2Z.inj. rewrite Nat2Z.inj_mod, Nat2Z.inj_sub by lia. change (Z.of_nat 4) with 4. change (Z.of_nat 0) with 0. dlia. }
  assert (forall k c, in_width 32 c -> in_width 32 (fold_left _mm_crc32_u8 (take k data) c)) as Hr by (intros; apply crc_of_range; [done|by apply Forall_take]).
  assert (forall k, Forall is_byte (drop k data)) as Hb by (intros; by apply Forall_drop).
  split.
  - unfold ina_hash_32_crc_hw. destruct (Hal _ Hx) as (k & -> & Hm). rewrite calc_crc_u32 by (done || by apply Hr).
    rewrite !calc_crc_none by lia. cbn [fst]. by rewrite <- fold_left_app, take_drop.
  - unfold ina_hash_64_crc_hw. destruct (Hal _ Hh) as (k & -> & Hm).
    destruct (calc_crc_whole _mm_crc32_u64 8 64 (fold_left _mm_crc32_u8 (take k data) hash) (drop k data)) as (j & -> & Hj);
      [lia|lia|exact crc_u64_bytes|by apply Hr|done|].
    rewrite calc_crc_u32; [|apply crc_of_range; [by apply Hr|by apply Forall_take]|by apply Forall_drop|].
    + rewrite !calc_crc_none by lia. cbn [fst]. by rewrite <- !fold_left_app, take_drop, take_drop.
    + rewrite length_drop. replace (length (drop k data) - 8 * j)%nat with (length (drop k data) mod 8)%nat by (subst j; pose proof (Nat.div_mod (length (drop k data)) 8 ltac:(lia)); lia).
      apply Nat2Z.inj. apply (f_equal Z.of_nat) in Hm. rewrite !Nat2Z.inj_mod in *. change (Z.of_nat 4) with 4 in *. change (Z.of_nat 8) with 8. change (Z.of_nat 0) with 0 in *. dlia.
Qed.

Lemma crc_hw_is_crc_witness :
  ina_hash_32_crc_hw 8 7 [1; 2; 3; 4; 5; 6; 7; 8; 9; 10; 11; 12] =
    Z.lxor (fold_left crc32c_byte [1; 2; 3; 4; 5; 6; 7; 8; 9; 10; 11; 12] (Z.lxor 7 0xFFFFFFFF)) 0xFFFFFFFF /\
  ina_hash_32_crc_hw 13 7 [1; 2; 3] = Z.lxor (fold_left crc32c_byte [1; 2; 3] (Z.lxor 7 0xFFFFFFFF)) 0xFFFFFFFF.
Proof.
  split.
  - refine (proj1 (crc_hw_is_crc 8 7 [1; 2; 3; 4; 5; 6; 7; 8; 9; 10; 11; 12] _ _ _)); [split; done| |left; reflexivity].
    apply (bool_decide_unpack _); exact I.
  - refine (proj1 (crc_hw_is_crc 13 7 [1; 2; 3] _ _ _)); [split; done| |right; done].
    apply (bool_decide_unpack _); exact I.
Defined.

(** ** Where they leave their contract *)

(** Data at an address that is a multiple of eight, with one byte too many for whole
    words of four: before the last byte the CRC is cut to eight bits, so that only 256
    hashes are left. *)
Lemma few_hashes (addr hash : Z) (data : list Z) (b : Z) :
  in_width 32 hash -> Forall is_byte data -> is_byte b -> Z.land addr 7 = 0 -> (length data mod 4 = 0)%nat ->
  exists i, 0 <= i < 256 /\ ina_hash_32_crc_hw addr hash (data ++ [b]) = Z.lxor (Nat.iter 8 crc32c_bit i) 0xFFFFFFFF.
Proof.
  intros Hh Hd Hb Ha Hl. assert (in_width 32 (Z.lxor hash 0xFFFFFFFF)) as Hx by (apply lxor_in_width; [lia|done|by split]).
  unfold ina_hash_32_crc_hw. assert (align addr (Z.lxor hash 0xFFFFFFFF) (data ++ [b]) = (Z.lxor hash 0xFFFFFFFF, data ++ [b])) as ->.
  { destruct data as [|x data]; cbn [app align]; change __INA_HASH_CRC_ALIGN_MASK with 7; by rewrite Ha. }
  destruct (calc_crc_whole _mm_crc32_u32 4 32 (Z.lxor hash 0xFFFFFFFF) (data ++ [b])) as (k & -> & Hk);
    [lia|lia|exact crc_u32_bytes|done|by apply Forall_app; split; [|by apply Forall_singleton]|].
  rewrite length_app in Hk. cbn [length] in Hk. pose proof (Nat.div_mod (length data) 4 ltac:(lia)) as Hdm.
  assert ((4 * k = length data)%nat) as Hk4.
  { rewrite Hl in Hdm. assert (k = length data / 4)%nat as -> by (subst k; symmetry; apply (Nat.div_unique _ 4 _ 1); lia). lia. }
  rewrite Hk4, drop_app_length, take_app_length. set (c := fold_left _ data _).
  change (__INA_HASH_CRC_CALC_CRC _mm_crc32_u16 2 16 (c, [b])) with (c, [b]).
  change (__INA_HASH_CRC_CALC_CRC _mm_crc32_u8 1 8 (c, [b])) with (crc32c_byte (wrap 8 c) (b + 256 * 0), @nil Z). cbn [fst].
  exists (Z.lxor (wrap 8 c) b). split; [|unfold crc32c_byte; by rewrite Z.mul_0_r, Z.add_0_r].
  apply (lxor_in_width 8); [lia|by apply wrap_in_width|done].
Qed.
(** The hash of the same two bytes depends on where they are. *)
Lemma hash_depends_on_the_address : ina_hash_32_crc_hw 0 0 [104; 105] <> ina_hash_32_crc_hw 1 0 [104; 105].
Proof. vm_compute. discriminate. Qed.
(** And so a key of one byte has two hashes that differ for the 64 bit variant too. *)
Lemma hash64_depends_on_the_address : ina_hash_64_crc_hw 0 4096 [104] <> ina_hash_64_crc_hw 1 4096 [104].
Proof. vm_compute. discriminate. Qed.

End Crc.
