(* ===== verification/Bench.v ===== *)
(** * The benchmark framework (bench.c, bench.h)

    Series of a benchmark stand next to each other in a section of the program.  Each runs
    for a number of repetitions and iterations and stores a value per iteration; a
    report of the benchmark is a table with a line per repetition or iteration and a
    column per series.

    Floating point numbers are a type with the operations that the report uses; the
    functions of a benchmark change a memory of their own and call the framework.  The
    clearing of caches and what is printed on the way are left out.  [None] is
    undefined behaviour or [abort]. *)
From Stdlib Require Import ZArith Lia Bool String.
From stdpp Require Import base numbers option fin_maps gmap pretty list.
From S2P Require Import Prelude Error Libc Cio.

Module Bench.
Import Error Libc.
Abbreviation str := bytes_of_string.
Abbreviation decimal := Cio.decimal.

Definition __INA_MAX_SERIES : Z := 64.
Definition __INA_MAX_HEADER_LENGTH : Z := 4094.

Section Framework.
(** Numbers with their sum and their quotient by an integer, and how they are printed
    with [%f] and with a precision. *)
Context {V D : Type}.
Variables (add : V -> V -> V) (div : V -> Z -> V) (print_f : V -> text) (print_prec : Z -> V -> text).

(** Calls of the framework by a benchmark. *)
Inductive bcall := Set_value (v : V) | Set_scale (v : V) | Set_label (t : text) | Set_precision (p : Z).
Definition hook := D -> D * list bcall.
Record benchmark := Benchmark {
  bench_name : text; series_name : text; run : hook; skip : bool; setup : hook; teardown : hook;
  series_setup : hook; series_teardown : hook; scale : hook; iterations : Z; repetitions : Z }.

(** The static variables with the arrays for scales and results, of which unset cells are
    missing, the memory of the benchmarks and the files that were written. *)
Record state := State {
  __current : option benchmark; __scale_label : option text;
  __scales : gmap Z V; __results : gmap Z V; n_scales : Z; n_results : Z;
  __current_result : Z; __current_scale : Z; __current_iteration : Z; __current_repetition : Z; __current_series : Z;
  __header : text; __precision : Z; __xiter : Z; __xrepeat : Z; __xwarmup_iter : Z;
  client : D; files : list (text * text) }.
Definition initial (warm : Z) (d : D) : state :=
  State None None ∅ ∅ 0 0 0 0 0 0 0 [] 5 0 0 warm d [].

Definition with_results (r : gmap Z V) (s : state) : state :=
  State (__current s) (__scale_label s) (__scales s) r (n_scales s) (n_results s) (__current_result s) (__current_scale s) (__current_iteration s)
    (__current_repetition s) (__current_series s) (__header s) (__precision s) (__xiter s) (__xrepeat s) (__xwarmup_iter s) (client s) (files s).
Definition with_scales (r : gmap Z V) (s : state) : state :=
  State (__current s) (__scale_label s) r (__results s) (n_scales s) (n_results s) (__current_result s) (__current_scale s) (__current_iteration s)
    (__current_repetition s) (__current_series s) (__header s) (__precision s) (__xiter s) (__xrepeat s) (__xwarmup_iter s) (client s) (files s).
Definition with_label (l : option text) (s : state) : state :=
  State (__current s) l (__scales s) (__results s) (n_scales s) (n_results s) (__current_result s) (__current_scale s) (__current_iteration s)
    (__current_repetition s) (__current_series s) (__header s) (__precision s) (__xiter s) (__xrepeat s) (__xwarmup_iter s) (client s) (files s).
Definition with_precision (p : Z) (s : state) : state :=
  State (__current s) (__scale_label s) (__scales s) (__results s) (n_scales s) (n_results s) (__current_result s) (__current_scale s) (__current_iteration s)
    (__current_repetition s) (__current_series s) (__header s) p (__xiter s) (__xrepeat s) (__xwarmup_iter s) (client s) (files s).
Definition with_client (d : D) (s : state) : state :=
  State (__current s) (__scale_label s) (__scales s) (__results s) (n_scales s) (n_results s) (__current_result s) (__current_scale s) (__current_iteration s)
    (__current_repetition s) (__current_series s) (__header s) (__precision s) (__xiter s) (__xrepeat s) (__xwarmup_iter s) d (files s).
Definition with_file (f : text * text) (s : state) : state :=
  State (__current s) (__scale_label s) (__scales s) (__results s) (n_scales s) (n_results s) (__current_result s) (__current_scale s) (__current_iteration s)
    (__current_repetition s) (__current_series s) (__header s) (__precision s) (__xiter s) (__xrepeat s) (__xwarmup_iter s) (client s) (files s ++ [f]).
Definition with_turns (result scale_ iteration repetition series : Z) (s : state) : state :=
  State (__current s) (__scale_label s) (__scales s) (__results s) (n_scales s) (n_results s) result scale_ iteration
    repetition series (__header s) (__precision s) (__xiter s) (__xrepeat s) (__xwarmup_iter s) (client s) (files s).
Definition with_size (repeat_ iter : Z) (s : state) : state :=
  State (__current s) (__scale_label s) (__scales s) (__results s) (n_scales s) (n_results s) (__current_result s) (__current_scale s) (__current_iteration s)
    (__current_repetition s) (__current_series s) (__header s) (__precision s) iter repeat_ (__xwarmup_iter s) (client s) (files s).
Definition with_current (b : benchmark) (h : text) (s : state) : state :=
  State (Some b) (__scale_label s) (__scales s) (__results s) (n_scales s) (n_results s) (__current_result s) (__current_scale s) (__current_iteration s)
    (__current_repetition s) (__current_series s) h (__precision s) (__xiter s) (__xrepeat s) (__xwarmup_iter s) (client s) (files s).

(** ** The calls of a benchmark *)
Definition ina_bench_set_value (v : V) (s : state) : option state :=
  if (0 <=? __current_result s) && (__current_result s <? n_results s) then Some (with_results (<[__current_result s := v]> (__results s)) s) else None.
Definition ina_bench_set_scale (v : V) (s : state) : option state :=
  if (0 <=? __current_scale s) && (__current_scale s <? n_scales s) then Some (with_scales (<[__current_scale s := v]> (__scales s)) s) else None.
Definition ina_bench_get_value (s : state) : option V := __results s !! __current_result s.
Definition ina_bench_get_scale (s : state) : option V := __scales s !! __current_scale s.
Definition ina_bench_set_scale_label (t : text) (s : state) : state := with_label (Some t) s.
Definition ina_bench_get_scale_label (s : state) : option text := __scale_label s.
Definition ina_bench_set_precision (p : Z) (s : state) : state * result unit :=
  if 0 <=? p then (with_precision p s, Ok ()) else (s, Err INA_ERR_INVALID_ARGUMENT).
Definition ina_bench_get_precision (s : state) : Z := __precision s.
Definition ina_bench_get_name (s : state) : option text := bench_name <$> __current s.
Definition ina_bench_get_series_name (s : state) : option text := series_name <$> __current s.
Definition if_running (x : Z) (s : state) : Z := match __current s with Some _ => x | None => 0 end.
Definition ina_bench_get_repetitions (s : state) : Z := if_running (__xrepeat s) s.
Definition ina_bench_get_repetition (s : state) : Z := if_running (__current_repetition s + 1) s.
Definition ina_bench_get_iterations (s : state) : Z := if_running (__xiter s + __xwarmup_iter s) s.
Definition ina_bench_get_iteration (s : state) : Z := if_running (__current_iteration s + 1) s.
Definition ina_bench_is_warmup (s : state) : result unit :=
  match __current s with
  | Some _ => if __current_iteration s <? __xwarmup_iter s then Ok () else Err (INA_ERR E_FALSE)
  | None => Err (INA_ERR E_FALSE)
  end.
(** Between two readings of the clock, each seconds and nanoseconds; [int64_t]. *)
Definition ina_bench_stopwatch_stop (time1 time2 : Z * Z) : Z :=
  (fst time2 * 1000 * 1000 * 1000 + snd time2) - (fst time1 * 1000 * 1000 * 1000 + snd time1).

Definition exec_call (s : state) (c : bcall) : option state :=
  match c with
  | Set_value v => ina_bench_set_value v s
  | Set_scale v => ina_bench_set_scale v s
  | Set_label t => Some (ina_bench_set_scale_label t s)
  | Set_precision p => Some (fst (ina_bench_set_precision p s))
  end.
Fixpoint fold_option {A S} (f : S -> A -> option S) (l : list A) (s : S) : option S :=
  match l with [] => Some s | a :: l => s ← f s a; fold_option f l s end.
Definition call_hook (h : hook) (s : state) : option state :=
  let '(d, l) := h (client s) in fold_option exec_call l (with_client d s).

(** ** The report *)
Section Report.
Variables (xrepeat xiter num_series : Z) (aggregate : bool).
Definition position (i k j : Z) : Z := i * xiter + xiter * k + j.
(** The cell for a series; it is summed up and printed in place. *)
Definition report_cell (warm prec k j : Z) (s : gmap Z V * text) (i : Z) : option (gmap Z V * text) :=
  let '(r, out) := s in
  let p := position i k j in
  if aggregate then
    r ← (if warm <? j then x ← r !! p; y ← r !! (p - 1); Some (<[p := add x y]> r) else Some r);
    if j =? xiter + warm - 1 then
      x ← r !! p;
      let x := div x xiter in Some (<[p := x]> r, out ++ str "," ++ print_prec prec x)
    else Some (r, out)
  else x ← r !! p; Some (r, out ++ str "," ++ print_prec prec x).
Definition report_iteration (warm prec : Z) (sc : gmap Z V) (k : Z) (s : gmap Z V * text) (j : Z) : option (gmap Z V * text) :=
  if j <? warm then Some s
  else
    x ← sc !! k;
    let s := if aggregate then s else (fst s, snd s ++ print_f x) in
    '(r, out) ← fold_option (report_cell warm prec k j) (seqZ 0 num_series) s;
    Some (r, if negb aggregate || (j =? xiter + warm - 1) then out ++ str "
" else out).
Definition report_line (warm prec : Z) (sc : gmap Z V) (s : gmap Z V * text) (k : Z) : option (gmap Z V * text) :=
  s ← (if aggregate then x ← sc !! k; Some (fst s, snd s ++ print_f x) else Some s);
  fold_option (report_iteration warm prec sc k) (seqZ 0 (xiter + warm)) s.
Definition report (warm prec : Z) (sc : gmap Z V) (s : gmap Z V * text) : option (gmap Z V * text) :=
  fold_option (report_line warm prec sc) (seqZ 0 xrepeat) s.
End Report.

Definition file_name (path : option text) (name : text) : text :=
  match path with Some p => p ++ str "/bench_" | None => str "bench_" end ++ name ++ str ".csv".
Definition title (s : state) : text := default (str "scale") (__scale_label s) ++ str "," ++ __header s ++ str "
".
(** [can_open] tells for which files [fopen] succeeds. *)
Definition __ina_write_report (can_open : text -> bool) (path : option text) (aggregate : bool) (s : state) : option (state * result unit) :=
  b ← __current s;
  let f := file_name path (bench_name b) in
  if can_open f then
    '(r, out) ← report (__xrepeat s) (__xiter s) (__current_series s) aggregate (__xwarmup_iter s) (__precision s) (__scales s) (__results s, title s);
    Some (with_file (f, out) (with_results r s), Ok ())
  else Some (s, Err (Z.lor (INA_ES S_FILE) (INA_ERR_NOT_ E_OPEN))).

(** ** The runner *)

(** [strncat] to the header with the bound of the code, which is two more than what fits. *)
Definition strncat (h t : text) : option text :=
  let t := take (Z.to_nat (__INA_MAX_HEADER_LENGTH - Z.of_nat (length h) + 1)) t in
  if Z.of_nat (length (h ++ t)) <? __INA_MAX_HEADER_LENGTH then Some (h ++ t) else None.
Definition add_name (h t : text) : option text :=
  h ← (match h with [] => Some [] | h => strncat h (str ",") end);
  strncat h t.
Fixpoint run_iterations (b : benchmark) (ics : list Z) (s : state) : option state :=
  match ics with
  | [] => Some s
  | ic :: ics =>
      let s := with_turns (__current_result s) (__current_scale s) ic (__current_repetition s) (__current_series s) s in
      s ← call_hook (run b) s;
      run_iterations b ics (with_turns (__current_result s + 1) (__current_scale s) (__current_iteration s) (__current_repetition s) (__current_series s) s)
  end.
Fixpoint run_repetitions (b : benchmark) (rcs : list Z) (s : state) : option state :=
  match rcs with
  | [] => Some s
  | rc :: rcs =>
      let s := with_turns (__current_result s) (__current_scale s) (__current_iteration s) rc (__current_series s) s in
      s ← call_hook (scale b) s;
      s ← call_hook (series_setup b) s;
      s ← run_iterations b (seqZ 0 (__xiter s + __xwarmup_iter s)) s;
      let s := with_turns (__current_result s) (__current_scale s + 1) (__current_iteration s) (__current_repetition s) (__current_series s) s in
      s ← call_hook (series_teardown b) s;
      run_repetitions b rcs s
  end.
(** The options; zero is the number of the benchmark itself. *)
Record options := Options { o_path : option text; o_repeat : Z; o_iter : Z; o_aggregate : bool }.
Definition start_report (s : state) : state :=
  State (__current s) (__scale_label s) ∅ ∅ (__xrepeat s) (__xiter s * __xrepeat s * __INA_MAX_SERIES)
    0 (__current_scale s) 0 (__current_repetition s) 0 [] 5 (__xiter s) (__xrepeat s) (__xwarmup_iter s) (client s) (files s).
Definition one_series (b : benchmark) (s : state) : option state :=
  h ← add_name (__header s) (series_name b);
  let s := with_current b h (with_turns (__current_result s) 0 (__current_iteration s) (__current_repetition s) (__current_series s) s) in
  s ← call_hook (setup b) s;
  s ← run_repetitions b (seqZ 0 (__xrepeat s)) s;
  s ← call_hook (teardown b) s;
  Some (with_turns (__current_result s) (__current_scale s) (__current_iteration s) (__current_repetition s) (__current_series s + 1) s).
Definition run_series (can_open : text -> bool) (o : options) (b : benchmark) (s : state) : option state :=
  let s := with_size (if o_repeat o =? 0 then repetitions b else o_repeat o) (if o_iter o =? 0 then iterations b else o_iter o) s in
  s ← (match __current s with
       | Some c =>
           if bool_decide (bench_name c = bench_name b) then Some s
           else '(s, r) ← __ina_write_report can_open (o_path o) (o_aggregate o) s; match r with Ok _ => Some (start_report s) | Err _ => None end
       | None => Some (start_report s)
       end);
  one_series b s.
Fixpoint run_all (can_open : text -> bool) (o : options) (filter : benchmark -> bool) (l : list benchmark) (s : state) : option state :=
  match l with
  | [] => Some s
  | b :: l => s ← (if filter b && negb (skip b) then run_series can_open o b s else Some s); run_all can_open o filter l s
  end.
Definition __ina_bench_all (b : benchmark) : bool := true.
Definition __ina_bench_filter (name : text) (b : benchmark) : bool := has_prefix (bench_name b) name.
(** The series of the section without the first one of the framework; [name] is the option that
    selects benchmarks, [core] the one for the core, on which [pinned] tells whether the
    program could be bound.  The result is the number of the series, 1 if there was no core. *)
Definition ina_bench_run (can_open : text -> bool) (o : options) (name : text) (core : Z) (pinned : bool) (l : list benchmark) (warm : Z) (d : D) :
    option (state * Z) :=
  let filter := match name with [] => __ina_bench_all | _ => __ina_bench_filter name end in
  let s := initial warm d in
  if (0 <=? core) && negb pinned then Some (s, 1)
  else
    let total := Z.of_nat (length (List.filter filter l)) in
    s ← run_all can_open o filter l s;
    match __current s with
    | Some _ => '(s, _) ← __ina_write_report can_open (o_path o) (o_aggregate o) s; Some (s, total)
    | None => Some (s, total)
    end.
End Framework.

(** ** Loops *)

Lemma fold_option_app {A S} (f : S -> A -> option S) (l l' : list A) (s : S) :
  fold_option f (l ++ l') s = (s ← fold_option f l s; fold_option f l' s).
Proof. revert s. induction l as [|a l IH]; intros s; cbn [app fold_option]; [done|]. destruct (f s a); [apply IH|done]. Qed.
Lemma seqZ_snoc (n : Z) : 0 <= n -> seqZ 0 (n + 1) = seqZ 0 n ++ [n].
Proof. intros Hn. rewrite seqZ_app by lia. done. Qed.
(** A loop over the integers from 0, by an invariant. *)
Lemma fold_option_range {S} (f : S -> Z -> option S) (I : Z -> S -> Prop) (n : Z) (s : S) :
  0 <= n -> I 0 s -> (forall i s, 0 <= i < n -> I i s -> exists s', f s i = Some s' /\ I (i + 1) s') ->
  exists s', fold_option f (seqZ 0 n) s = Some s' /\ I n s'.
Proof.
  intros Hn. revert s. pattern n. apply natlike_ind; [| |done]; clear n Hn.
  - intros s Hs _. by exists s.
  - intros n Hn IH s Hs Hstep. destruct (IH s Hs) as (s1 & H1 & I1); [intros i s0 Hi; apply Hstep; lia|].
    destruct (Hstep n s1 ltac:(lia) I1) as (s2 & H2 & I2). exists s2. split; [|done].
    replace (Z.succ n) with (n + 1) by lia. rewrite seqZ_snoc by lia. rewrite fold_option_app, H1. cbn. by rewrite H2.
Qed.

Section Facts.
Context {V D : Type}.
Variables (add : V -> V -> V) (div : V -> Z -> V) (print_f : V -> text) (print_prec : Z -> V -> text).
Abbreviation state := (state (V := V) (D := D)).
Abbreviation benchmark := (benchmark (V := V) (D := D)).

(** Values that follow each other in an array. *)
Fixpoint store (p : Z) (vs : list V) (m : gmap Z V) : gmap Z V :=
  match vs with [] => m | v :: vs => store (p + 1) vs (<[p := v]> m) end.
Lemma store_app (p : Z) (vs ws : list V) (m : gmap Z V) : store p (vs ++ ws) m = store (p + Z.of_nat (length vs)) ws (store p vs m).
Proof.
  revert p m. induction vs as [|v vs IH]; intros p m; cbn [app store length]; [by rewrite Z.add_0_r|]. rewrite IH. f_equal. lia.
Qed.
Lemma store_lookup (p q : Z) (vs : list V) (m : gmap Z V) :
  store p vs m !! q = if decide (p <= q < p + Z.of_nat (length vs)) then vs !! Z.to_nat (q - p) else m !! q.
Proof.
  revert p m. induction vs as [|v vs IH]; intros p m; cbn [store length].
  - rewrite decide_False by lia. done.
  - rewrite IH. destruct (decide (p + 1 <= q < p + 1 + Z.of_nat (length vs))).
    + rewrite decide_True by lia. replace (Z.to_nat (q - p)) with (S (Z.to_nat (q - (p + 1)))) by lia. done.
    + destruct (decide (q = p)) as [->|Hne].
      * rewrite decide_True by lia. rewrite Z.sub_diag. by rewrite lookup_insert_eq.
      * rewrite decide_False by lia. by rewrite lookup_insert_ne.
Qed.

(** ** The report of a table

    [rows] are the values of one series in one repetition each. *)
Section Table.
Variables (R I n : Z) (prec : Z) (sc : gmap Z V) (rows : Z -> list V) (scs : Z -> option V).
Hypotheses (HI : 0 < I) (HR : 0 <= R) (Hn : 0 <= n) (Hone : n = 1 \/ R <= 1).
Hypothesis Hsc : forall k, 0 <= k < R -> exists v, sc !! k = Some v /\ scs k = Some v.
Hypothesis Hrows : forall b, 0 <= b < n + R - 1 -> Z.of_nat (length (rows b)) = I.

(** The sum of the first values, and the mean, in the order of the code. *)
Fixpoint sum (acc : V) (vs : list V) : V := match vs with [] => acc | v :: vs => sum (add v acc) vs end.
Definition mean (vs : list V) : option V := match vs with [] => None | v :: vs => Some (div (sum v vs) I) end.
Definition partial (vs : list V) (j : Z) : option V := match vs with [] => None | v :: vs => Some (sum v (take (Z.to_nat j) vs)) end.

Definition column (x : V) : text := str "," ++ print_prec prec x.
Definition line_end : text := str "
".
(** A line with the values of all series for an iteration, or with their means. *)
Definition iteration_line (k j : Z) : text :=
  from_option print_f [] (scs k) ++ concat (map (fun i => from_option column [] (rows (i + k) !! Z.to_nat j)) (seqZ 0 n)) ++ line_end.
Definition mean_line (k : Z) : text :=
  from_option print_f [] (scs k) ++ concat (map (fun i => from_option column [] (mean (rows (i + k)))) (seqZ 0 n)) ++ line_end.
Definition table (aggregate : bool) : text :=
  concat (map (fun k => if aggregate then mean_line k else concat (map (iteration_line k) (seqZ 0 I))) (seqZ 0 R)).

Lemma position_inj (i i' k j j' : Z) : 0 <= j < I -> 0 <= j' < I -> position I i k j = position I i' k j' -> i = i' /\ j = j'.
Proof. unfold position. intros. assert (i = i') by nia. lia. Qed.
Lemma row_value (b j : Z) : 0 <= b < n + R - 1 -> 0 <= j < I -> exists x, rows b !! Z.to_nat j = Some x.
Proof. intros Hb Hj. apply lookup_lt_is_Some_2. specialize (Hrows b Hb). lia. Qed.
Lemma concat_seqZ {A} (f : Z -> list A) (i : Z) : 0 <= i -> concat (map f (seqZ 0 (i + 1))) = concat (map f (seqZ 0 i)) ++ f i.
Proof. intros Hi. rewrite seqZ_snoc, map_app, concat_app by lia. cbn. by rewrite app_nil_r. Qed.

(** Without means the cells are only read. *)
Lemma report_plain (m : gmap Z V) (out : text) :
  (forall i k j, 0 <= i < n -> 0 <= k < R -> 0 <= j < I -> m !! position I i k j = rows (i + k) !! Z.to_nat j) ->
  report add div print_f print_prec R I n false 0 prec sc (m, out) = Some (m, out ++ table false).
Proof.
  intros Hm. unfold report, table.
  destruct (fold_option_range (report_line add div print_f print_prec I n false 0 prec sc)
    (fun k s => s = (m, out ++ concat (map (fun k => concat (map (iteration_line k) (seqZ 0 I))) (seqZ 0 k)))) R (m, out) HR) as (s & Hs & ->); [by rewrite app_nil_r| |done].
  intros k s Hk ->. destruct (Hsc k Hk) as (v & Hv & Hv'). unfold report_line. cbn [mbind option_bind]. rewrite Z.add_0_r. rewrite concat_seqZ by lia. set (o1 := out ++ concat _).
  destruct (fold_option_range (report_iteration add div print_f print_prec I n false 0 prec sc k)
    (fun j s => s = (m, o1 ++ concat (map (iteration_line k) (seqZ 0 j)))) I (m, o1)) as (s & Hs & ->); [lia|by rewrite app_nil_r| |].
  2: { eexists. split; [exact Hs|]. subst o1. by rewrite app_assoc. }
  intros j s Hj ->. unfold report_iteration. rewrite (proj2 (Z.ltb_ge j 0)) by lia. rewrite Hv. cbn [mbind option_bind fst snd negb orb].
  rewrite concat_seqZ by lia. set (o2 := o1 ++ concat _).
  destruct (fold_option_range (report_cell add div print_prec I false 0 prec k j)
    (fun i s => s = (m, (o2 ++ print_f v) ++ concat (map (fun i => from_option column [] (rows (i + k) !! Z.to_nat j)) (seqZ 0 i)))) n
    (m, o2 ++ print_f v)) as (s & Hs & ->); [done|f_equal; symmetry; apply app_nil_r| |].
  - intros i s Hi ->. unfold report_cell. rewrite Hm by lia. destruct (row_value (i + k) j) as [x Hx]; [lia|lia|]. rewrite Hx. cbn [mbind option_bind].
    eexists. split; [reflexivity|]. rewrite concat_seqZ, Hx by lia. cbn [from_option]. unfold column. by rewrite <- !app_assoc.
  - rewrite Hs. cbn [mbind option_bind]. eexists. split; [reflexivity|]. subst o2. unfold iteration_line, line_end. rewrite Hv'. by rewrite <- !app_assoc.
Qed.

Lemma sum_snoc (acc : V) (vs : list V) (x : V) : sum acc (vs ++ [x]) = add x (sum acc vs).
Proof. revert acc. induction vs as [|v vs IH]; intros acc; [done|apply IH]. Qed.
Lemma partial_0 (vs : list V) : partial vs 0 = vs !! 0%nat.
Proof. destruct vs; [done|]. cbn. by rewrite take_0. Qed.
Lemma partial_step (vs : list V) (j : Z) (x p : V) : 0 < j -> vs !! Z.to_nat j = Some x -> partial vs (j - 1) = Some p -> partial vs j = Some (add x p).
Proof.
  intros Hj Hx Hp. destruct vs as [|v vs]; [done|]. unfold partial in *. injection Hp as <-. replace (Z.to_nat j) with (S (Z.to_nat (j - 1))) in * by lia.
  cbn [lookup list_lookup] in Hx. by rewrite (take_S_r _ _ x Hx), sum_snoc.
Qed.
Lemma partial_last (vs : list V) : Z.of_nat (length vs) = I -> mean vs = (fun x => div x I) <$> partial vs (I - 1).
Proof. destruct vs as [|v vs]; [done|]. cbn [length]. intros Hl. cbn. by rewrite take_ge by lia. Qed.

(** The means are made in the cells, which those of the other lines do not share. *)
Definition untouched (k : Z) (m m' : gmap Z V) : Prop :=
  forall q, (forall i j, 0 <= i < n -> 0 <= j < I -> q <> position I i k j) -> m' !! q = m !! q.
Definition columns (k i : Z) : text := concat (map (fun i => from_option column [] (mean (rows (i + k)))) (seqZ 0 i)).
Lemma mean_value (b : Z) : 0 <= b < n + R - 1 -> exists x, mean (rows b) = Some x.
Proof. intros Hb. specialize (Hrows b Hb). destruct (rows b); [cbn in Hrows; lia|]. by eexists. Qed.

(** One iteration of all series. *)
Record summed (k j i : Z) (m0 m : gmap Z V) : Prop := {
  s_done : forall i', 0 <= i' < i -> j < I - 1 -> m !! position I i' k j = partial (rows (i' + k)) j;
  s_before : forall i', i <= i' < n -> 0 < j -> m !! position I i' k (j - 1) = partial (rows (i' + k)) (j - 1);
  s_now : forall i', i <= i' < n -> m !! position I i' k j = rows (i' + k) !! Z.to_nat j;
  s_later : forall i' j', 0 <= i' < n -> j < j' < I -> m !! position I i' k j' = rows (i' + k) !! Z.to_nat j';
  s_others : untouched k m0 m }.

Lemma cells_of_an_iteration (k j : Z) (m0 m : gmap Z V) (out : text) :
  0 <= k < R -> 0 <= j < I -> summed k j 0 m0 m ->
  exists m', fold_option (report_cell add div print_prec I true 0 prec k j) (seqZ 0 n) (m, out) =
    Some (m', if j =? I - 1 then out ++ columns k n else out) /\ summed k j n m0 m'.
Proof.
  intros Hk Hj Hm. destruct (fold_option_range (report_cell add div print_prec I true 0 prec k j)
    (fun i s => exists m, s = (m, if j =? I - 1 then out ++ columns k i else out) /\ summed k j i m0 m) n (m, out)) as (s & Hs & m' & -> & Hm'); [done| | |by exists m'].
  { exists m. split; [|done]. destruct (j =? I - 1); [|done]. unfold columns. cbn. by rewrite app_nil_r. }
  clear m Hm. intros i s Hi (m & -> & [Hd Hb Hn' Hl Ho]). unfold report_cell. rewrite Z.add_0_r.
  destruct (row_value (i + k) j) as [x Hx]; [lia|lia|].
  assert (exists y m1, (if 0 <? j then x ← m !! position I i k j; y ← m !! (position I i k j - 1); Some (<[position I i k j:=add x y]> m) else Some m) = Some m1 /\
    partial (rows (i + k)) j = Some y /\ m1 !! position I i k j = Some y /\ forall q, q <> position I i k j -> m1 !! q = m !! q) as (y & m1 & -> & Hy & Hm1 & Hother).
  { destruct (Z.ltb_spec 0 j) as [Hpos|Hz].
    - rewrite Hn', Hx by lia. cbn [mbind option_bind]. replace (position I i k j - 1) with (position I i k (j - 1)) by (unfold position; lia).
      rewrite Hb by lia. destruct (partial (rows (i + k)) (j - 1)) as [p|] eqn:Hp.
      + cbn [mbind option_bind]. exists (add x p). eexists. split; [reflexivity|]. split; [by apply (partial_step _ _ _ _ Hpos Hx)|].
        split; [by rewrite lookup_insert_eq|]. intros q Hq. by rewrite lookup_insert_ne.
      + exfalso. specialize (Hrows (i + k) ltac:(lia)). destruct (rows (i + k)); [cbn in Hrows; lia|done].
    - assert (j = 0) as -> by lia. exists x, m. split; [done|]. rewrite partial_0. split; [done|]. split; [|done]. rewrite Hn' by lia. done. }
  cbn [mbind option_bind].
  assert (forall m2, (forall q, q <> position I i k j -> m2 !! q = m1 !! q) -> (j < I - 1 -> m2 !! position I i k j = Some y) -> summed k j (i + 1) m0 m2) as Hfin.
  { intros m2 H2 Hj2. assert (forall i' j', 0 <= j' < I -> i' <> i \/ j' <> j -> m2 !! position I i' k j' = m !! position I i' k j') as Heq.
    { intros i' j' Hj' Hne. assert (position I i' k j' <> position I i k j) as Hp by (intros [? ?]%position_inj; lia). by rewrite H2, Hother. }
    split.
    - intros i' Hi' Hlt. destruct (decide (i' = i)) as [->|Hne]; [by rewrite Hj2, Hy|]. rewrite Heq by lia. apply Hd; lia.
    - intros i' Hi' Hpos. rewrite Heq by lia. apply Hb; lia.
    - intros i' Hi'. rewrite Heq by lia. apply Hn'; lia.
    - intros i' j' Hi' Hj'. rewrite Heq by lia. apply Hl; lia.
    - intros q Hq. rewrite H2, Hother by (apply Hq; lia). by apply Ho. }
  destruct (Z.eqb_spec j (I - 1)) as [Hlast|Hlast].
  - rewrite Hm1. cbn [mbind option_bind]. eexists. split; [reflexivity|]. eexists. split.
    + f_equal. unfold columns. rewrite concat_seqZ by lia. rewrite partial_last by (apply Hrows; lia). rewrite <- Hlast, Hy. cbn [fmap option_fmap option_map from_option].
      unfold column. by rewrite <- !app_assoc.
    + apply Hfin; [intros q Hq; by rewrite lookup_insert_ne|lia].
  - eexists. split; [reflexivity|]. exists m1. split; [done|]. apply Hfin; [done|]. by intros _.
Qed.

Lemma report_means (m : gmap Z V) (out : text) :
  (forall i k j, 0 <= i < n -> 0 <= k < R -> 0 <= j < I -> m !! position I i k j = rows (i + k) !! Z.to_nat j) ->
  exists m', report add div print_f print_prec R I n true 0 prec sc (m, out) = Some (m', out ++ table true).
Proof.
  intros Hm. unfold report, table.
  destruct (fold_option_range (report_line add div print_f print_prec I n true 0 prec sc)
    (fun k s => exists m', s = (m', out ++ concat (map mean_line (seqZ 0 k))) /\
      forall i k' j, 0 <= i < n -> k <= k' < R -> 0 <= j < I -> m' !! position I i k' j = rows (i + k') !! Z.to_nat j) R (m, out) HR) as (s & Hs & m' & -> & _);
    [exists m; split; [by rewrite app_nil_r|intros i k' j Hi Hk' Hj; by apply Hm]| |by exists m'].
  clear m Hm. intros k s Hk (m & -> & Hm). destruct (Hsc k Hk) as (v & Hv & Hv'). unfold report_line. rewrite Hv, Z.add_0_r. cbn [mbind option_bind fst snd]. rewrite concat_seqZ by lia.
  set (o1 := (out ++ concat _) ++ print_f _).
  destruct (fold_option_range (report_iteration add div print_f print_prec I n true 0 prec sc k)
    (fun j s => exists m', s = (m', if j =? I then o1 ++ columns k n ++ line_end else o1) /\ untouched k m m' /\
      (j < I -> summed k j 0 m m')) I (m, o1)) as (s & Hs & m' & -> & Hun & _); [lia| | |].
  - exists m. rewrite (proj2 (Z.eqb_neq 0 I)) by lia. split; [done|]. split; [done|]. intros _. split; try lia; try done.
    + intros i' Hi'. apply Hm; lia.
    + intros i' j' Hi' Hj'. apply Hm; lia.
  - intros j s Hj (m1 & -> & Hun & Hs). specialize (Hs (proj2 Hj)). unfold report_iteration.
    rewrite (proj2 (Z.ltb_ge j 0)), (proj2 (Z.eqb_neq j I)) by lia. rewrite Hv. cbn [mbind option_bind fst snd negb orb]. rewrite Z.add_0_r.
    destruct (cells_of_an_iteration k j m m1 o1 Hk Hj Hs) as (m2 & -> & [Hd Hb Hn' Hl Ho]). cbn [mbind option_bind].
    eexists. split; [reflexivity|]. exists m2. split.
    + destruct (Z.eqb_spec j (I - 1)) as [Hlast|Hlast].
      * rewrite (proj2 (Z.eqb_eq (j + 1) I)) by lia. by rewrite <- app_assoc.
      * by rewrite (proj2 (Z.eqb_neq (j + 1) I)) by lia.
    + split; [done|]. intros Hlt. split; try lia; try done.
      * intros i' Hi' _. replace (j + 1 - 1) with j by lia. apply Hd; lia.
      * intros i' Hi'. apply Hl; lia.
      * intros i' j' Hi' Hj'. apply Hl; lia.
  - rewrite Z.eqb_refl in Hs. eexists. split; [exact Hs|]. exists m'. split.
    + f_equal. subst o1. unfold mean_line. rewrite Hv'. fold (columns k n). by rewrite <- !app_assoc.
    + intros i k' j Hi Hk' Hj. rewrite Hun; [apply Hm; lia|]. intros i' j' Hi' Hj' Heq. unfold position in Heq.
      assert (i' = 0 /\ i = 0) as [-> ->] by lia. nia.
Qed.
End Table.

(** ** A run of the program

    A benchmark that sets one value per iteration and one scale per repetition. *)
Record job := Job {
  j_bench : text; j_series : text; j_value : D -> V; j_scale : D -> V;
  j_run : D -> D; j_set_scale : D -> D; j_setup : D -> D; j_teardown : D -> D; j_begin : D -> D; j_end : D -> D;
  j_iterations : Z; j_repetitions : Z }.
Definition quiet (f : D -> D) : hook (V := V) (D := D) := fun d => (f d, []).
Definition benchmark_of (j : job) : benchmark :=
  Benchmark (j_bench j) (j_series j) (fun d => (j_run j d, [Set_value (j_value j d)])) false (quiet (j_setup j)) (quiet (j_teardown j))
    (quiet (j_begin j)) (quiet (j_end j)) (fun d => (j_set_scale j d, [Set_scale (j_scale j d)])) (j_iterations j) (j_repetitions j).

(** What it measures: the values of the iterations, the scales and values of the
    repetitions, and the memory in the end. *)
Fixpoint measure_iterations (j : job) (n : nat) (d : D) : list V * D :=
  match n with
  | O => ([], d)
  | S n => let '(vs, d') := measure_iterations j n (j_run j d) in (j_value j d :: vs, d')
  end.
Fixpoint measure_repetitions (j : job) (I r : nat) (d : D) : list (V * list V) * D :=
  match r with
  | O => ([], d)
  | S r =>
      let '(vs, d1) := measure_iterations j I (j_begin j (j_set_scale j d)) in
      let '(l, d2) := measure_repetitions j I r (j_end j d1) in
      ((j_scale j d, vs) :: l, d2)
  end.
Definition measure_series (I r : nat) (j : job) (d : D) : list (V * list V) * D :=
  let '(l, d) := measure_repetitions j I r (j_setup j d) in (l, j_teardown j d).
Fixpoint measure_all (I r : nat) (js : list job) (d : D) : list (list (V * list V)) * D :=
  match js with
  | [] => ([], d)
  | j :: js => let '(l, d1) := measure_series I r j d in let '(ls, d2) := measure_all I r js d1 in (l :: ls, d2)
  end.

Lemma length_iterations (j : job) (n : nat) (d : D) : length (fst (measure_iterations j n d)) = n.
Proof. revert d. induction n as [|n IH]; intros d; [done|]. cbn. specialize (IH (j_run j d)). destruct (measure_iterations _ _ _). cbn in *. lia. Qed.
Lemma measured_repetitions (j : job) (I r : nat) (d : D) :
  length (fst (measure_repetitions j I r d)) = r /\ Forall (fun x => length (snd x) = I) (fst (measure_repetitions j I r d)).
Proof.
  revert d. induction r as [|r IH]; intros d; [by split|]. cbn. pose proof (length_iterations j I (j_begin j (j_set_scale j d))) as Hl.
  destruct (measure_iterations _ _ _) as [vs d1]. specialize (IH (j_end j d1)). destruct (measure_repetitions _ _ _ _) as [l d2]. cbn in *.
  destruct IH as [IH1 IH2]. split; [lia|by constructor].
Qed.
Lemma measured_series (I r : nat) (j : job) (d : D) :
  length (fst (measure_series I r j d)) = r /\ Forall (fun x => length (snd x) = I) (fst (measure_series I r j d)).
Proof. unfold measure_series. pose proof (measured_repetitions j I r (j_setup j d)) as Hm. by destruct (measure_repetitions _ _ _ _). Qed.

(** The scales and the values of some repetitions. *)
Abbreviation scales_of l := (map fst l).
Abbreviation values_of l := (concat (map snd l)).

(** The state while the series of one benchmark run. *)
Section Running.
Variables (I R : nat).
Definition running (cur : option benchmark) (h : text) (sc res : gmap Z V) (result scale_ it rep ser : Z) (d : D) : state :=
  State cur None sc res (Z.of_nat R) (Z.of_nat I * Z.of_nat R * __INA_MAX_SERIES) result scale_ it rep ser h 5 (Z.of_nat I) (Z.of_nat R) 0 d [].

Lemma turns_running cur h sc res result scale_ it rep ser d result' scale' it' rep' ser' :
  with_turns result' scale' it' rep' ser' (running cur h sc res result scale_ it rep ser d) = running cur h sc res result' scale' it' rep' ser' d.
Proof. done. Qed.
Lemma running_current_result cur h sc res result scale_ it rep ser d : __current_result (running cur h sc res result scale_ it rep ser d) = result.
Proof. done. Qed.
Lemma running_current_scale cur h sc res result scale_ it rep ser d : __current_scale (running cur h sc res result scale_ it rep ser d) = scale_.
Proof. done. Qed.
Lemma running_current_iteration cur h sc res result scale_ it rep ser d : __current_iteration (running cur h sc res result scale_ it rep ser d) = it.
Proof. done. Qed.
Lemma running_current_repetition cur h sc res result scale_ it rep ser d : __current_repetition (running cur h sc res result scale_ it rep ser d) = rep.
Proof. done. Qed.
Lemma running_current_series cur h sc res result scale_ it rep ser d : __current_series (running cur h sc res result scale_ it rep ser d) = ser.
Proof. done. Qed.
Lemma running_xiter cur h sc res result scale_ it rep ser d : __xiter (running cur h sc res result scale_ it rep ser d) = Z.of_nat I.
Proof. done. Qed.
Lemma running_xrepeat cur h sc res result scale_ it rep ser d : __xrepeat (running cur h sc res result scale_ it rep ser d) = Z.of_nat R.
Proof. done. Qed.
Lemma running_xwarmup_iter cur h sc res result scale_ it rep ser d : __xwarmup_iter (running cur h sc res result scale_ it rep ser d) = 0.
Proof. done. Qed.
Ltac turns := rewrite ?turns_running, ?running_current_result, ?running_current_scale, ?running_current_iteration, ?running_current_repetition, ?running_current_series, ?running_xiter, ?running_xrepeat, ?running_xwarmup_iter.
Lemma call_quiet f cur h sc res result scale_ it rep ser d :
  call_hook (quiet f) (running cur h sc res result scale_ it rep ser d) = Some (running cur h sc res result scale_ it rep ser (f d)).
Proof. done. Qed.
Lemma call_run j cur h sc res result scale_ it rep ser d :
  0 <= result < Z.of_nat I * Z.of_nat R * __INA_MAX_SERIES ->
  call_hook (run (benchmark_of j)) (running cur h sc res result scale_ it rep ser d) =
    Some (running cur h sc (<[result := j_value j d]> res) result scale_ it rep ser (j_run j d)).
Proof.
  intros Hr. unfold call_hook. cbn. unfold ina_bench_set_value. cbn. rewrite (proj2 (Z.leb_le _ _)) by lia. by rewrite (proj2 (Z.ltb_lt _ _)) by lia.
Qed.
Lemma call_scale j cur h sc res result scale_ it rep ser d :
  0 <= scale_ < Z.of_nat R ->
  call_hook (scale (benchmark_of j)) (running cur h sc res result scale_ it rep ser d) =
    Some (running cur h (<[scale_ := j_scale j d]> sc) res result scale_ it rep ser (j_set_scale j d)).
Proof.
  intros Hr. unfold call_hook. cbn. unfold ina_bench_set_scale. cbn. rewrite (proj2 (Z.leb_le _ _)) by lia. by rewrite (proj2 (Z.ltb_lt _ _)) by lia.
Qed.

Lemma run_iterations_measure (j : job) (ics : list Z) cur h sc res result scale_ it rep ser d :
  0 <= result -> result + Z.of_nat (length ics) <= Z.of_nat I * Z.of_nat R * __INA_MAX_SERIES ->
  exists it', run_iterations (benchmark_of j) ics (running cur h sc res result scale_ it rep ser d) =
    Some (let '(vs, d') := measure_iterations j (length ics) d in
      running cur h sc (store result vs res) (result + Z.of_nat (length ics)) scale_ it' rep ser d').
Proof.
  revert res result it d. induction ics as [|ic ics IH]; intros res result it d Hr Hl; cbn [length] in *.
  - exists it. cbn [run_iterations measure_iterations store]. by rewrite Z.add_0_r.
  - cbn [run_iterations]. turns. rewrite call_run by lia. cbn [mbind option_bind]. turns.
    destruct (IH (<[result:=j_value j d]> res) (result + 1) ic (j_run j d) ltac:(lia) ltac:(lia)) as [it' Hit]. exists it'.
    etransitivity; [exact Hit|]. cbn [measure_iterations]. destruct (measure_iterations j (length ics) (j_run j d)) as [vs d']. cbn [store].
    do 2 f_equal; lia.
Qed.

Lemma run_repetitions_measure (j : job) (rcs : list Z) cur h sc res result scale_ it rep ser d :
  0 <= result -> result + Z.of_nat (length rcs) * Z.of_nat I <= Z.of_nat I * Z.of_nat R * __INA_MAX_SERIES ->
  0 <= scale_ -> scale_ + Z.of_nat (length rcs) <= Z.of_nat R ->
  exists it' rep', run_repetitions (benchmark_of j) rcs (running cur h sc res result scale_ it rep ser d) =
    Some (let '(l, d') := measure_repetitions j I (length rcs) d in
      running cur h (store scale_ (scales_of l) sc) (store result (values_of l) res) (result + Z.of_nat (length rcs) * Z.of_nat I)
        (scale_ + Z.of_nat (length rcs)) it' rep' ser d').
Proof.
  revert sc res result scale_ it rep d. induction rcs as [|rc rcs IH]; intros sc res result scale_ it rep d Hr Hl Hs Hsl; cbn [length] in *.
  - exists it, rep. cbn [run_repetitions measure_repetitions map concat store]. by rewrite Z.mul_0_l, !Z.add_0_r.
  - cbn [run_repetitions]. turns. rewrite call_scale by lia. cbn [mbind option_bind benchmark_of series_setup series_teardown]. rewrite call_quiet. cbn [mbind option_bind]. turns.
    assert (length (seqZ 0 (Z.of_nat I + 0)) = I) as Hlen by (rewrite length_seqZ; lia).
    destruct (run_iterations_measure j (seqZ 0 (Z.of_nat I + 0)) cur h (<[scale_:=j_scale j d]> sc) res result scale_ it rc ser (j_begin j (j_set_scale j d)) Hr) as [it1 Hit];
      [rewrite Hlen; lia|]. rewrite Hlen in Hit. setoid_rewrite Hit. cbn [mbind option_bind measure_repetitions].
    pose proof (length_iterations j I (j_begin j (j_set_scale j d))) as Hvs. destruct (measure_iterations j I _) as [vs d1]. cbn [fst] in Hvs.
    turns. rewrite call_quiet. cbn [mbind option_bind].
    destruct (IH (<[scale_:=j_scale j d]> sc) (store result vs res) (result + Z.of_nat I) (scale_ + 1) it1 rc (j_end j d1)) as (it2 & rep2 & Hrest); [lia..|].
    exists it2, rep2. etransitivity; [exact Hrest|]. destruct (measure_repetitions j I (length rcs) (j_end j d1)) as [l d2]. cbn [map concat fst snd store].
    rewrite store_app, Hvs. do 2 f_equal; lia.
Qed.

Lemma strncat_fits (h t : text) : Z.of_nat (length (h ++ t)) < __INA_MAX_HEADER_LENGTH -> strncat h t = Some (h ++ t).
Proof.
  intros Hl. unfold strncat. rewrite take_ge by (rewrite length_app in Hl; lia). by rewrite (proj2 (Z.ltb_lt _ _) Hl).
Qed.
Definition joined (h t : text) : text := match h with [] => t | _ => h ++ str "," ++ t end.
Lemma header_joined (h t : text) : Z.of_nat (length (joined h t)) < __INA_MAX_HEADER_LENGTH ->
  add_name h t = Some (joined h t).
Proof.
  intros Hh. unfold add_name. destruct h as [|c h]; [by apply strncat_fits|]. cbn [joined] in *. rewrite strncat_fits by (rewrite !length_app in *; lia). cbn [mbind option_bind].
  rewrite strncat_fits; by rewrite <- app_assoc.
Qed.

Lemma one_series_measures (j : job) cur h sc res result scale_ it rep ser d :
  0 <= result -> result + Z.of_nat R * Z.of_nat I <= Z.of_nat I * Z.of_nat R * __INA_MAX_SERIES ->
  Z.of_nat (length (joined h (j_series j))) < __INA_MAX_HEADER_LENGTH ->
  exists it' rep', one_series (benchmark_of j) (running cur h sc res result scale_ it rep ser d) =
    Some (let '(l, d') := measure_series I R j d in
      running (Some (benchmark_of j)) (joined h (j_series j)) (store 0 (scales_of l) sc) (store result (values_of l) res)
        (result + Z.of_nat R * Z.of_nat I) (Z.of_nat R) it' rep' (ser + 1) d').
Proof.
  intros Hr Hl Hh. unfold one_series. cbn [running __header benchmark_of series_name]. rewrite header_joined by done. cbn [mbind option_bind].
  change (with_current _ _ _) with (running (Some (benchmark_of j)) (joined h (j_series j)) sc res result 0 it rep ser d).
  cbn [setup teardown benchmark_of]. rewrite call_quiet. cbn [mbind option_bind]. turns. unfold measure_series.
  assert (length (seqZ 0 (Z.of_nat R)) = R) as Hlen by (rewrite length_seqZ; lia).
  destruct (run_repetitions_measure j (seqZ 0 (Z.of_nat R)) (Some (benchmark_of j)) (joined h (j_series j)) sc res result 0 it rep ser (j_setup j d) Hr) as (it' & rep' & Hrun);
    [rewrite ?Hlen; lia..|]. rewrite Hlen in Hrun. exists it', rep'. setoid_rewrite Hrun.
  destruct (measure_repetitions j I R (j_setup j d)) as [l d1]. done.
Qed.
End Running.

(** ** All series of a benchmark *)
Definition header (h : text) (js : list job) : text := fold_left (fun h j => joined h (j_series j)) js h.
Definition all_scales (ls : list (list (V * list V))) (sc : gmap Z V) : gmap Z V := fold_left (fun sc l => store 0 (scales_of l) sc) ls sc.

Lemma length_joined (h t : text) : (length h <= length (joined h t))%nat.
Proof. destruct h; cbn; [lia|]. rewrite length_app. lia. Qed.
Lemma length_header (h : text) (js : list job) : (length h <= length (header h js))%nat.
Proof. revert h. induction js as [|j js IH]; intros h; [done|]. cbn. etransitivity; [apply length_joined|apply IH]. Qed.
Lemma length_measured (I r : nat) (js : list job) (d : D) :
  length (fst (measure_all I r js d)) = length js /\ Forall (fun l => length l = r /\ Forall (fun x => length (snd x) = I) l) (fst (measure_all I r js d)).
Proof.
  revert d. induction js as [|j js IH]; intros d; [by split|]. cbn. pose proof (measured_series I r j d) as Hl. destruct (measure_series I r j d) as [l d1].
  specialize (IH d1). destruct (measure_all I r js d1) as [ls d2]. cbn in *. destruct IH as [IH1 IH2]. split; [lia|by constructor].
Qed.

Lemma values_length (I R : nat) (j : job) (d : D) : Z.of_nat (length (values_of (fst (measure_series I R j d)))) = Z.of_nat R * Z.of_nat I.
Proof.
  generalize (measured_series I R j d). generalize (fst (measure_series I R j d)). intros l [<- Hm]. induction Hm as [|x l Hx Hm IH]; [done|]. cbn [map concat length]. rewrite length_app. lia.
Qed.
Section All.
Variables (can_open : text -> bool) (o : options) (I R : nat) (name : text).
Hypotheses (HI : (0 < I)%nat) (HR : (0 < R)%nat) (Hoi : o_iter o = Z.of_nat I) (Hor : o_repeat o = Z.of_nat R).
Lemma with_size_running cur h sc res result scale_ it rep ser d j :
  let s := running I R cur h sc res result scale_ it rep ser d in
  with_size (if o_repeat o =? 0 then repetitions (benchmark_of j) else o_repeat o) (if o_iter o =? 0 then iterations (benchmark_of j) else o_iter o) s = s.
Proof. cbn zeta. rewrite Hor, Hoi, !(proj2 (Z.eqb_neq _ 0)) by lia. done. Qed.
Lemma run_first_series (j : job) (d : D) :
  run_series add div print_f print_prec can_open o (benchmark_of j) (initial 0 d) = one_series (benchmark_of j) (running I R None [] ∅ ∅ 0 0 0 0 0 d).
Proof. unfold run_series. rewrite Hor, Hoi, !(proj2 (Z.eqb_neq _ 0)) by lia. done. Qed.
Lemma run_next_series (j : job) c h sc res result scale_ it rep ser d :
  bench_name c = j_bench j ->
  run_series add div print_f print_prec can_open o (benchmark_of j) (running I R (Some c) h sc res result scale_ it rep ser d) =
    one_series (benchmark_of j) (running I R (Some c) h sc res result scale_ it rep ser d).
Proof.
  intros Hc. unfold run_series. rewrite with_size_running. cbn [running __current benchmark_of bench_name].
  by rewrite bool_decide_eq_true_2.
Qed.

Lemma run_all_measures (filter : benchmark -> bool) (js : list job) c h sc res scale_ it rep ser d :
  Forall (fun j => j_bench j = name /\ filter (benchmark_of j) = true) js -> bench_name c = name ->
  0 <= ser -> ser + Z.of_nat (length js) <= __INA_MAX_SERIES -> Z.of_nat (length (header h js)) < __INA_MAX_HEADER_LENGTH ->
  exists c' scale' it' rep', bench_name c' = name /\
    run_all add div print_f print_prec can_open o filter (map benchmark_of js) (running I R (Some c) h sc res (ser * (Z.of_nat R * Z.of_nat I)) scale_ it rep ser d) =
    Some (let '(ls, d') := measure_all I R js d in
      running I R (Some c') (header h js) (all_scales ls sc) (store (ser * (Z.of_nat R * Z.of_nat I)) (values_of (concat ls)) res)
        ((ser + Z.of_nat (length js)) * (Z.of_nat R * Z.of_nat I)) scale' it' rep' (ser + Z.of_nat (length js)) d').
Proof.
  intros Hjs. revert c h sc res scale_ it rep ser d. induction Hjs as [|j js [Hj Hf] Hjs IH]; intros c h sc res scale_ it rep ser d Hc Hs Hl Hh; cbn [length] in *.
  - exists c, scale_, it, rep. split; [done|]. cbn. by rewrite Z.add_0_r.
  - cbn [map run_all]. rewrite Hf. cbn [benchmark_of skip negb andb]. fold (benchmark_of j). rewrite run_next_series by congruence.
    cbn [header fold_left] in Hh. fold (header (joined h (j_series j)) js) in Hh. pose proof (length_header (joined h (j_series j)) js).
    destruct (one_series_measures I R j (Some c) h sc res (ser * (Z.of_nat R * Z.of_nat I)) scale_ it rep ser d) as (it1 & rep1 & ->); [nia|nia|lia|].
    cbn [mbind option_bind measure_all]. pose proof (values_length I R j d) as Hv. destruct (measure_series I R j d) as [l d1]. cbn [fst] in Hv.
    replace (ser * (Z.of_nat R * Z.of_nat I) + Z.of_nat R * Z.of_nat I) with ((ser + 1) * (Z.of_nat R * Z.of_nat I)) by lia.
    destruct (IH (benchmark_of j) (joined h (j_series j)) (store 0 (scales_of l) sc) (store (ser * (Z.of_nat R * Z.of_nat I)) (values_of l) res) (Z.of_nat R) it1 rep1 (ser + 1) d1)
      as (c' & scale' & it' & rep' & Hc' & Hrest); [done|lia|lia|done|].
    exists c', scale', it', rep'. split; [done|]. etransitivity; [exact Hrest|]. destruct (measure_all I R js d1) as [ls d2].
    cbn [concat all_scales fold_left header]. rewrite map_app, concat_app, store_app.
    rewrite Hv. unfold running. do 2 f_equal; try lia. f_equal; lia.
Qed.
End All.
Lemma filter_all (f : benchmark -> bool) (js : list job) :
  Forall (fun j => f (benchmark_of j) = true) js -> List.filter f (map benchmark_of js) = map benchmark_of js.
Proof. induction 1 as [|j js Hj _ IH]; [done|]. cbn. by rewrite Hj, IH. Qed.

(** The values of a repetition, and the scale of a line, which is that of the last series. *)
Definition row (ls : list (list (V * list V))) (b : Z) : list V := default [] (map snd (concat ls) !! Z.to_nat b).
Definition line_scale (ls : list (list (V * list V))) (k : Z) : option V := l ← last ls; map fst l !! Z.to_nat k.
Definition report_text (I R : nat) (aggregate : bool) (js : list job) (d : D) : text :=
  let ls := fst (measure_all I R js d) in
  (str "scale" ++ str "," ++ header [] js ++ str "
") ++ table (Z.of_nat R) (Z.of_nat I) (Z.of_nat (length js)) 5 (row ls) (line_scale ls) aggregate.

Lemma concat_lookup_uniform {A} (n b j : nat) (ll : list (list A)) :
  Forall (fun l => length l = n) ll -> (j < n)%nat -> concat ll !! (b * n + j)%nat = default [] (ll !! b) !! j.
Proof.
  intros Hll Hj. revert b. induction Hll as [|l ll Hl Hll IH]; intros b; [done|]. cbn [concat]. destruct b as [|b]; cbn [lookup list_lookup default].
  - rewrite lookup_app_l by lia. done.
  - rewrite lookup_app_r by lia. rewrite <- IH. f_equal. lia.
Qed.
Lemma store_empty (vs : list V) (q : Z) : 0 <= q -> store 0 vs ∅ !! q = vs !! Z.to_nat q.
Proof.
  intros Hq. rewrite store_lookup. destruct (decide (0 <= q < 0 + Z.of_nat (length vs))) as [?|Hout]; [by rewrite Z.sub_0_r|].
  rewrite lookup_empty. symmetry. apply lookup_ge_None_2. lia.
Qed.

Section Measured.
Variables (I R : nat) (js : list job) (d : D).
Hypotheses (HI : (0 < I)%nat) (HR : (0 < R)%nat) (Hone : length js = 1%nat \/ R = 1%nat) (Hjs : js <> []).
Abbreviation ls := (fst (measure_all I R js d)).

Lemma rows_measured : Forall (fun l => length l = I) (map snd (concat ls)) /\ length (map snd (concat ls)) = (length js * R)%nat.
Proof.
  destruct (length_measured I R js d) as [<- Hl]. induction Hl as [|l ls [Hl Hi] Hls IH]; [done|]. cbn [concat length]. rewrite map_app, length_app, length_map. split.
  - apply Forall_app_2; [|apply IH]. apply Forall_map. exact Hi.
  - destruct IH as [_ ->]. lia.
Qed.
Lemma row_length (b : Z) : 0 <= b < Z.of_nat (length js) + Z.of_nat R - 1 -> Z.of_nat (length (row ls b)) = Z.of_nat I.
Proof.
  intros Hb. destruct rows_measured as [Hall Hlen]. unfold row. destruct (lookup_lt_is_Some_2 (map snd (concat ls)) (Z.to_nat b)) as [l Hl].
  - rewrite Hlen. assert (length js <> 0%nat) by (destruct js; [done|cbn; lia]). destruct Hone as [Ho|Ho]; rewrite Ho in *; lia.
  - rewrite Hl. cbn. by rewrite (Forall_lookup_1 _ _ _ _ Hall Hl).
Qed.
Lemma stored_row (i k j : Z) : 0 <= i < Z.of_nat (length js) -> 0 <= k < Z.of_nat R -> 0 <= j < Z.of_nat I ->
  store 0 (values_of (concat ls)) ∅ !! position (Z.of_nat I) i k j = row ls (i + k) !! Z.to_nat j.
Proof.
  intros Hi Hk Hj. unfold position, row. rewrite store_empty by nia.
  replace (Z.to_nat (i * Z.of_nat I + Z.of_nat I * k + j)) with (Z.to_nat (i + k) * I + Z.to_nat j)%nat by nia.
  apply concat_lookup_uniform; [apply rows_measured|lia].
Qed.
Lemma stored_scale (k : Z) : 0 <= k < Z.of_nat R -> exists v, all_scales ls ∅ !! k = Some v /\ line_scale ls k = Some v.
Proof.
  intros Hk. destruct (length_measured I R js d) as [Hlen Hall]. unfold line_scale. destruct ls as [|l ls' _] using rev_ind; [by destruct js|].
  unfold all_scales. rewrite last_snoc, fold_left_app. cbn [fold_left mbind option_bind]. apply Forall_app in Hall as [_ [[Hl _] _]%Forall_cons].
  rewrite store_lookup, length_map, decide_True by lia. rewrite Z.sub_0_r.
  destruct (lookup_lt_is_Some_2 (map fst l) (Z.to_nat k)) as [v Hv]; [rewrite length_map; lia|]. by exists v.
Qed.

Lemma report_measured (aggregate : bool) (out : text) :
  exists m, report add div print_f print_prec (Z.of_nat R) (Z.of_nat I) (Z.of_nat (length js)) aggregate 0 5 (all_scales ls ∅) (store 0 (values_of (concat ls)) ∅, out) =
    Some (m, out ++ table (Z.of_nat R) (Z.of_nat I) (Z.of_nat (length js)) 5 (row ls) (line_scale ls) aggregate).
Proof.
  assert (Z.of_nat (length js) = 1 \/ Z.of_nat R <= 1) by lia. destruct aggregate.
  - apply report_means; try done; try lia; [exact stored_scale|exact row_length|exact stored_row].
  - eexists. apply report_plain; try done; try lia; [exact stored_scale|exact row_length|exact stored_row].
Qed.
End Measured.

(** All series, from the first one, which makes the arrays. *)
Lemma run_jobs (can_open : text -> bool) (o : options) (name : text) (filter : benchmark -> bool) (I R : nat) (js : list job) (d : D) :
  (0 < I)%nat -> (0 < R)%nat -> o_iter o = Z.of_nat I -> o_repeat o = Z.of_nat R -> js <> [] -> Z.of_nat (length js) <= __INA_MAX_SERIES ->
  Z.of_nat (length (header [] js)) < __INA_MAX_HEADER_LENGTH -> Forall (fun j => j_bench j = name /\ filter (benchmark_of j) = true) js ->
  exists c result scale_ it rep, bench_name c = name /\
    run_all add div print_f print_prec can_open o filter (map benchmark_of js) (initial 0 d) =
    Some (let '(ls, d') := measure_all I R js d in
      running I R (Some c) (header [] js) (all_scales ls ∅) (store 0 (values_of (concat ls)) ∅) result scale_ it rep (Z.of_nat (length js)) d').
Proof.
  intros HI HR Hoi Hor Hne Hl Hh Hjs. destruct Hjs as [|j js [Hj Hf] Hjs]; [done|]. clear Hne. cbn [map run_all]. rewrite Hf. cbn [benchmark_of skip negb andb]. fold (benchmark_of j).
  rewrite (run_first_series can_open o I R) by done. cbn [header fold_left length] in Hh, Hl. fold (header (joined [] (j_series j)) js) in Hh.
  pose proof (length_header (joined [] (j_series j)) js).
  destruct (one_series_measures I R j None [] ∅ ∅ 0 0 0 0 0 d) as (it1 & rep1 & ->); [lia|unfold __INA_MAX_SERIES; nia|lia|].
  cbn [mbind option_bind measure_all]. pose proof (values_length I R j d) as Hv. destruct (measure_series I R j d) as [l d1]. cbn [fst] in Hv.
  destruct (run_all_measures can_open o I R name HI HR Hoi Hor filter js (benchmark_of j) (joined [] (j_series j)) (store 0 (scales_of l) ∅) (store 0 (values_of l) ∅)
    (Z.of_nat R) it1 rep1 1 d1) as (c & scale' & it' & rep' & Hc & Hrest); [done|done|lia|lia|done|].
  exists c. do 4 eexists. split; [exact Hc|]. rewrite !Z.mul_1_l in Hrest. etransitivity; [exact Hrest|]. destruct (measure_all I R js d1) as [ls d2].
  cbn [concat all_scales fold_left header length]. rewrite map_app, concat_app, store_app, Hv. unfold running. do 2 f_equal; lia.
Qed.

End Facts.

(** ** Examples

    A benchmark that counts its iterations, with an integer for a number. *)
Definition int_text (z : Z) : text := decimal z.
Definition counting (bench series : text) (iters reps : Z) : job (V := Z) (D := Z) :=
  Job bench series (fun d => d) (fun d => 100 + d) (fun d => d + 1) (fun d => d) (fun d => d) (fun d => d) (fun d => d) (fun d => d) iters reps.
Definition run_counting (o : options) (js : list job) (warm : Z) : option (list (text * text) * Z) :=
  '(s, n) ← ina_bench_run Z.add Z.div int_text (fun _ => int_text) (fun _ => true) o [] 0 true (map benchmark_of js) warm 0;
  Some (files s, n).


(** Two series with one repetition stand side by side. *)
Lemma two_series_are_columns :
  run_counting (Options None 1 2 false) [counting (str "sort") (str "quick") 0 0; counting (str "sort") (str "heap") 0 0] 0 =
  Some ([(str "bench_sort.csv", str "scale,quick,heap
102,0,2
102,1,3
")], 2).
Proof. vm_compute. reflexivity. Qed.

(** With two repetitions the table has wrong cells: the series have the values 0, 1 and 2, 3
    in their repetitions, but the report takes the second value of the first series for the first of
    the second one and leaves out the last value. *)
Lemma repetitions_mix_series :
  run_counting (Options None 2 1 false) [counting (str "sort") (str "quick") 0 0; counting (str "sort") (str "heap") 0 0] 0 =
  Some ([(str "bench_sort.csv", str "scale,quick,heap
102,0,1
103,1,2
")], 2).
Proof. vm_compute. reflexivity. Qed.

(** With a warm-up iteration, the second repetition reports its warm-up, 2, and not 3. *)
Lemma warm_up_is_reported :
  run_counting (Options None 2 1 false) [counting (str "sort") (str "quick") 0 0] 1 =
  Some ([(str "bench_sort.csv", str "scale,quick
100,1
102,2
")], 1).
Proof. vm_compute. reflexivity. Qed.

(** The array has no cells for warm-up iterations. *)
Lemma warm_up_overflows : run_counting (Options None 1 1 true) [counting (str "sort") (str "quick") 0 0] 64 = None.
Proof. vm_compute. reflexivity. Qed.

(** The report of a benchmark is made with the numbers of the next one, and so reads
    scales that were never set. *)
Lemma next_benchmark_resizes_report :
  run_counting (Options None 0 0 true) [counting (str "sort") (str "quick") 1 1; counting (str "find") (str "tree") 1 2] 0 = None /\
  run_counting (Options None 0 0 true) [counting (str "sort") (str "quick") 1 1; counting (str "find") (str "tree") 1 1] 0 =
  Some ([(str "bench_sort.csv", str "scale,quick
100,0
"); (str "bench_find.csv", str "scale,tree
101,1
")], 2).
Proof. split; vm_compute; reflexivity. Qed.

(** More than 64 series overflow the array. *)
Lemma many_series_overflow :
  run_counting (Options None 1 1 true) (map (fun i => counting (str "sort") (int_text i) 0 0) (seqZ 0 65)) 0 = None.
Proof. vm_compute. reflexivity. Qed.

(** A name that does not fit is written past the header. *)
Lemma long_header_overflows : strncat [] (replicate 4094 65) = None /\ strncat [] (replicate 4093 65) = Some (replicate 4093 65).
Proof. split; vm_compute; reflexivity. Qed.

(** A benchmark that is skipped counts as one that was found, but does not run. *)
Lemma skipped_is_counted :
  ina_bench_run Z.add Z.div int_text (fun _ => int_text) (fun _ => true) (Options None 1 1 true) [] (-1) false
    [Benchmark (str "sort") (str "quick") (fun d : Z => (d + 1, [])) true (quiet id) (quiet id) (quiet id) (quiet id) (quiet id) 1 1] 0 0 = Some (initial 0 0, 1).
Proof. vm_compute. reflexivity. Qed.

(** Outside of a run the numbers are zero, and a run counts from one. *)
Lemma numbers_of_a_run {V D} (d : D) (w : Z) :
  let s := initial (V := V) w d in
  ina_bench_get_repetition s = 0 /\ ina_bench_get_iteration s = 0 /\ ina_bench_get_repetitions s = 0 /\ ina_bench_get_iterations s = 0 /\
  ina_bench_is_warmup s = Err (INA_ERR E_FALSE) /\ ina_bench_get_name s = None.
Proof. done. Qed.


End Bench.
