(* ===== verification/UllcSem.v ===== *)
(** * The semaphore of the ring buffer (ullc.c)

    The semaphores of System V are the class [SemOs] on the state [W] of the system, with
    the documented behaviour of semget, semctl and semop in [SemLaws] and an instance.  A
    producer makes the semaphore of a ring when it is created, a consumer opens it,
    both signal and wait, and remove it when they are freed. *)
From Stdlib Require Import ZArith Lia Bool.
From stdpp Require Import base numbers option fin_maps gmap list.
From S2P Require Import Prelude Error Libc Hash Ullc.

Module UllcSem.
Import Error Libc Ullc.

(** What semop answers; a caller that blocks tries again when the semaphore has changed. *)
Inductive sem_answer := Done | Blocks | Fails.

Definition SEMVMX : Z := 32767.

(** Sets of semaphores by handle and by key; a value is that of the first semaphore of a set. *)
Class SemOs (W : Type) := {
  semget : Z -> Z -> bool -> W -> W * option Z;
  semctl_setval : Z -> Z -> W -> W * bool;
  semctl_rmid : Z -> W -> W;
  semop : Z -> Z -> W -> W * sem_answer;
  sem_id : W -> Z -> option Z;
  sem_size : W -> Z -> option Z;
  sem_value : W -> Z -> option Z }.

Class SemLaws (W : Type) `{!SemOs W} := {
  semget_found : forall w key n create id size, sem_id w key = Some id -> sem_size w id = Some size -> n <= size ->
    semget key n create w = (w, Some id);
  semget_missing : forall w key n, sem_id w key = None -> semget key n false w = (w, None);
  semget_creates : forall w key n, sem_id w key = None -> 0 < n ->
    semget key n true w = (w, None) \/
    exists w' id v, semget key n true w = (w', Some id) /\ sem_value w id = None /\ sem_value w' id = Some v /\ sem_size w' id = Some n /\
      sem_id w' key = Some id /\ (forall k, k <> key -> sem_id w' k = sem_id w k) /\
      (forall i, i <> id -> sem_value w' i = sem_value w i /\ sem_size w' i = sem_size w i);
  setval_sets : forall w id x v, sem_value w id = Some x -> 0 <= v <= SEMVMX ->
    exists w', semctl_setval id v w = (w', true) /\ sem_value w' id = Some v /\ sem_id w' = sem_id w /\ (forall i, sem_size w' i = sem_size w i) /\
      forall i, i <> id -> sem_value w' i = sem_value w i;
  rmid_removes : forall w id, sem_value (semctl_rmid id w) id = None /\ (forall k, sem_id (semctl_rmid id w) k <> Some id) /\
    forall i, i <> id -> sem_value (semctl_rmid id w) i = sem_value w i;
  semop_done : forall w id x v, sem_value w id = Some x -> 0 <= x + v <= SEMVMX ->
    exists w', semop id v w = (w', Done) /\ sem_value w' id = Some (x + v) /\ sem_id w' = sem_id w /\ (forall i, sem_size w' i = sem_size w i) /\
      forall i, i <> id -> sem_value w' i = sem_value w i;
  semop_blocks : forall w id x v, sem_value w id = Some x -> v < 0 -> x + v < 0 -> semop id v w = (w, Blocks);
  semop_range : forall w id x v, sem_value w id = Some x -> SEMVMX < x + v -> semop id v w = (w, Fails);
  semop_missing : forall w id v, sem_value w id = None -> semop id v w = (w, Fails) }.

Definition INA_ULLC_SIG_WAIT : Z := -1.
Definition INA_ULLC_SIG_RELEASE : Z := 1.

(** What the status of a ring tells: [struct ina_ullc_rb_info_s] as far as it is set.  The
    counters are [size_t]. *)
Record rb_info := RbInfo {
  ring_version : Z; num_write_op : Z; last_writer : Z; num_read_op : Z; last_reader : Z; num_producers : Z; num_producers_alive : Z;
  num_consumers : Z; num_consumers_alive : Z; slot_size : Z; num_slots : Z; current_slot : Z }.
Definition ina_ullc_get_ring_info (name : text) (m : option ring) : result rb_info :=
  match name, m with
  | [], _ => Err INA_ERR_INVALID_ARGUMENT
  | _, None => Err INA_ERR_OPERATION_FAILED
  | _, Some r => Ok (RbInfo (r_version r) (u64 (r_next_ptr r)) 0 (u64 (r_cursor r)) 0 (r_num_producers r) 0 (r_num_consumers r) 0
                       (u64 (r_size r)) (u64 (r_slots r)) (r_cursor r))
  end.
Definition ina_ullc_producer_reset (m : ring) : ring * result unit := (m, Ok tt).

(** The key, an [int]. *)
Definition __ina_sem_makekey (name : text) : Z := to_int (Hash.ina_hash_crc32 0 name).

Section Code.
Context {W : Type} `{!SemOs W}.

(** The handle of a context is -1 if there is none. *)
Definition __ina_sem_create (semkey num_consumers : Z) (w : W) : W * result Z :=
  match semget semkey num_consumers true w with
  | (w, None) => (w, Err INA_ERR_OPERATION_FAILED)
  | (w, Some id) =>
      let '(w, ok) := semctl_setval id 1 w in (w, if ok then Ok id else Err INA_ERR_OPERATION_FAILED)
  end.
Definition __ina_sem_open (semkey : Z) (w : W) : W * result Z :=
  let '(w, id) := semget semkey 1 false w in (w, Ok (default (-1) id)).
(** An inner [None] is a caller that waits. *)
Definition __ina_sem_operation (handle st : Z) (w : W) : W * option (result unit) :=
  match semop handle st w with
  | (w, Done) => (w, Some (Ok tt))
  | (w, Blocks) => (w, None)
  | (w, Fails) => (w, Some (Err INA_ERR_OPERATION_FAILED))
  end.
Definition __ina_sem_close (semkey handle : Z) (w : W) : W * result unit :=
  (if semkey =? 0 then w else semctl_rmid handle w, Ok tt).

Definition ina_ullc_producer_signal (handle st : Z) (w : W) : W * option (result unit) := __ina_sem_operation handle st w.
Definition ina_ullc_consumer_swait (handle : Z) (w : W) : W * option (result unit) := __ina_sem_operation handle INA_ULLC_SIG_WAIT w.
Definition ina_ullc_consumer_swait_begin (handle : Z) (w : W) : W * option (result unit) := ina_ullc_consumer_swait handle w.
Definition ina_ullc_consumer_swait_end : result unit := Ok tt.

(** Calls of producers and consumers in the order in which they come; [true] signals a release,
    [false] waits. *)
Definition call (handle : Z) (release : bool) (w : W) : W * option (result unit) :=
  if release then ina_ullc_producer_signal handle INA_ULLC_SIG_RELEASE w else ina_ullc_consumer_swait handle w.
Fixpoint calls (handle : Z) (l : list bool) (w : W) : W * list (option (result unit)) :=
  match l with
  | [] => (w, [])
  | c :: l => let '(w, r) := call handle c w in let '(w, rs) := calls handle l w in (w, r :: rs)
  end.
End Code.

(** ** Semaphores with these laws *)
Record sems := Sems { s_sets : gmap Z (Z * Z); s_keys : gmap Z Z }.
Definition s_op (id v : Z) (w : sems) : sems * sem_answer :=
  match s_sets w !! id with
  | None => (w, Fails)
  | Some (x, n) =>
      if x + v <? 0 then (w, Blocks) else if SEMVMX <? x + v then (w, Fails) else (Sems (<[id := (x + v, n)]> (s_sets w)) (s_keys w), Done)
  end.
Definition s_get (key n : Z) (create : bool) (w : sems) : sems * option Z :=
  match s_keys w !! key with
  | Some id => (w, match s_sets w !! id with Some (_, size) => if n <=? size then Some id else None | None => None end)
  | None =>
      if create then let id := base.fresh (dom (s_sets w) : gset Z) in (Sems (<[id := (0, n)]> (s_sets w)) (<[key := id]> (s_keys w)), Some id)
      else (w, None)
  end.
#[export] Instance sems_os : SemOs sems := {|
  semget := s_get;
  semctl_setval id v w :=
    match s_sets w !! id with
    | Some (_, n) => if (0 <=? v) && (v <=? SEMVMX) then (Sems (<[id := (v, n)]> (s_sets w)) (s_keys w), true) else (w, false)
    | None => (w, false)
    end;
  semctl_rmid id w := Sems (delete id (s_sets w)) (filter (fun kv => kv.2 <> id) (s_keys w));
  semop := s_op;
  sem_id w key := s_keys w !! key;
  sem_size w id := snd <$> s_sets w !! id;
  sem_value w id := fst <$> s_sets w !! id |}.
Lemma sizes_kept (m : gmap Z (Z * Z)) (id x v n i : Z) : m !! id = Some (x, n) -> snd <$> <[id := (v, n)]> m !! i = snd <$> m !! i.
Proof. intros Hm. destruct (decide (i = id)) as [->|Hi]; [by rewrite lookup_insert_eq, Hm|by rewrite lookup_insert_ne]. Qed.

(** ** What the calls do *)

(** A counter that is taken and given back. *)
Definition count (n : Z) (release : bool) : Z * option (result unit) :=
  if release then (n + 1, Some (Ok tt)) else if 0 <? n then (n - 1, Some (Ok tt)) else (n, None).
Fixpoint counts (n : Z) (l : list bool) : Z * list (option (result unit)) :=
  match l with
  | [] => (n, [])
  | c :: l => let '(n, r) := count n c in let '(n, rs) := counts n l in (n, r :: rs)
  end.

Section Facts.
Context {W : Type} `{!SemOs W, !SemLaws W}.

(** A producer finds the semaphore of its ring or makes it, and in both cases it is 1
    then: also what consumers wait for or producers have released before is lost. *)
Lemma sem_create_is_one (semkey n id x size : Z) (w : W) :
  sem_id w semkey = Some id -> sem_size w id = Some size -> sem_value w id = Some x -> n <= size ->
  exists w', __ina_sem_create semkey n w = (w', Ok id) /\ sem_value w' id = Some 1.
Proof.
  intros Hid Hsize Hx Hn. unfold __ina_sem_create. rewrite (semget_found w semkey n true id size) by done.
  destruct (setval_sets w id x 1 Hx ltac:(unfold SEMVMX; lia)) as (w' & -> & Hv & _). by exists w'.
Qed.
Lemma sem_create_new (semkey n : Z) (w : W) :
  sem_id w semkey = None -> 0 < n ->
  __ina_sem_create semkey n w = (w, Err INA_ERR_OPERATION_FAILED) \/
  exists w' id, __ina_sem_create semkey n w = (w', Ok id) /\ sem_value w' id = Some 1 /\
    (forall n', n' <= n -> semget semkey n' false w' = (w', Some id)) /\ forall i, i <> id -> sem_value w' i = sem_value w i.
Proof.
  intros Hid Hn. unfold __ina_sem_create. destruct (semget_creates w semkey n Hid Hn) as [->|(w1 & id & v & -> & Hnew & Hv & Hs & Hk & _ & Ho)]; [by left|right].
  destruct (setval_sets w1 id v 1 Hv ltac:(unfold SEMVMX; lia)) as (w' & -> & Hv' & Hids & Hsz & Ho'). exists w', id. split; [done|]. split; [done|]. split.
  - intros n' Hn'. apply (semget_found _ _ _ _ _ n); [by rewrite Hids|by rewrite Hsz|done].
  - intros i Hi. rewrite Ho' by done. by apply Ho.
Qed.

(** Below the limit of the system the semaphore counts: a release adds one, a wait takes one
    or blocks if there is none. *)
Lemma semaphore_counts (id x : Z) (l : list bool) (w : W) :
  sem_value w id = Some x -> 0 <= x -> x + Z.of_nat (length l) <= SEMVMX ->
  exists w', calls id l w = (w', snd (counts x l)) /\ sem_value w' id = Some (fst (counts x l)) /\ forall i, i <> id -> sem_value w' i = sem_value w i.
Proof.
  revert x w. induction l as [|c l IH]; intros x w Hx H0 Hl; [by exists w|]. cbn [length] in Hl. cbn [calls counts]. destruct c; cbn [call count].
  - unfold ina_ullc_producer_signal, __ina_sem_operation, INA_ULLC_SIG_RELEASE. destruct (semop_done w id x 1 Hx ltac:(lia)) as (w1 & -> & H1 & _ & _ & Ho).
    destruct (IH (x + 1) w1 H1) as (w' & -> & Hv & Ho'); [lia|lia|]. destruct (counts (x + 1) l) as [n rs]. exists w'. split; [done|]. split; [done|].
    intros i Hi. by rewrite Ho', Ho.
  - unfold ina_ullc_consumer_swait, __ina_sem_operation, INA_ULLC_SIG_WAIT. destruct (Z.ltb_spec 0 x) as [Hpos|Hz].
    + destruct (semop_done w id x (-1) Hx ltac:(lia)) as (w1 & -> & H1 & _ & _ & Ho). change (x - 1) with (x + -1).
      destruct (IH (x + -1) w1 H1) as (w' & -> & Hv & Ho'); [lia|lia|]. destruct (counts (x + -1) l) as [n rs]. exists w'. split; [done|]. split; [done|].
      intros i Hi. by rewrite Ho', Ho.
    + rewrite (semop_blocks w id x (-1)) by (done || lia). destruct (IH x w Hx) as (w' & -> & Hv & Ho'); [lia|lia|]. destruct (counts x l) as [n rs]. by exists w'.
Qed.
(** So of all waits at most one more than the releases get through. *)
Lemma waits_need_releases (l : list bool) (x : Z) : 0 <= x ->
  0 <= fst (counts x l) /\
  fst (counts x l) = x + Z.of_nat (length (List.filter id l)) - Z.of_nat (length (List.filter (fun p => negb (fst p) && bool_decide (is_Some (snd p))) (zip l (snd (counts x l))))).
Proof.
  revert x. induction l as [|c l IH]; intros x Hx; [cbn; lia|]. cbn [counts]. destruct c; cbn [count].
  - specialize (IH (x + 1) ltac:(lia)). destruct (counts (x + 1) l) as [n rs]. cbn [fst snd zip zip_with List.filter id negb andb length] in *. lia.
  - destruct (Z.ltb_spec 0 x) as [Hpos|Hz].
    + specialize (IH (x - 1) ltac:(lia)). destruct (counts (x - 1) l) as [n rs]. cbn [fst snd zip zip_with List.filter id negb andb] in *.
      rewrite bool_decide_eq_true_2 by (by eexists). cbn [length]. lia.
    + specialize (IH x Hx). destruct (counts x l) as [n rs]. cbn [fst snd zip zip_with List.filter id negb andb] in *.
      rewrite bool_decide_eq_false_2 by (intros [? ?]; done). lia.
Qed.

(** A context that is freed removes the semaphore for all: every later call of the others fails. *)
Lemma free_removes_for_all (semkey handle st : Z) (w : W) :
  semkey <> 0 -> let w' := fst (__ina_sem_close semkey handle w) in
  __ina_sem_operation handle st w' = (w', Some (Err INA_ERR_OPERATION_FAILED)).
Proof.
  intros Hk. cbn zeta. unfold __ina_sem_close. rewrite (proj2 (Z.eqb_neq _ _) Hk). cbn [fst]. unfold __ina_sem_operation.
  destruct (rmid_removes w handle) as [Hv _]. by rewrite semop_missing.
Qed.
(** Opening never fails, also if there is no semaphore. *)
Lemma open_without_semaphore (semkey : Z) (w : W) : sem_id w semkey = None -> __ina_sem_open semkey w = (w, Ok (-1)).
Proof. intros Hk. unfold __ina_sem_open. by rewrite semget_missing. Qed.
End Facts.

Lemma changed_value (w : sems) (id x n v : Z) : s_sets w !! id = Some (x, n) ->
  let w' := Sems (<[id := (v, n)]> (s_sets w)) (s_keys w) in
  sem_value w' id = Some v /\ sem_id w' = sem_id w /\ (forall i, sem_size w' i = sem_size w i) /\ forall i, i <> id -> sem_value w' i = sem_value w i.
Proof.
  intros Hm. cbn. rewrite lookup_insert_eq. split; [done|]. split; [done|]. split; [intros i; by apply (sizes_kept _ _ x)|].
  intros i Hi. by rewrite lookup_insert_ne.
Qed.
#[export] Instance sems_laws : SemLaws sems.
Proof.
  split; cbn.
  - intros w key n c id size Hk Hs Hn. unfold s_get. rewrite Hk. destruct (s_sets w !! id) as [[x m]|]; [|done]. injection Hs as <-. by rewrite (proj2 (Z.leb_le _ _) Hn).
  - intros w key n Hk. unfold s_get. by rewrite Hk.
  - intros w key n Hk Hn. right. unfold s_get. rewrite Hk. do 3 eexists. split; [reflexivity|]. set (id := base.fresh _).
    assert (s_sets w !! id = None) as Hid by (apply not_elem_of_dom, is_fresh). cbn. rewrite Hid, !lookup_insert_eq. do 4 (split; [done|]). split.
    + intros k Hne. by rewrite lookup_insert_ne.
    + intros i Hi. by rewrite lookup_insert_ne.
  - intros w id x v Hx Hv. destruct (s_sets w !! id) as [[x' n]|] eqn:Hm; [|done]. rewrite (proj2 (Z.leb_le 0 v)), (proj2 (Z.leb_le v SEMVMX)) by lia. cbn [andb].
    eexists. split; [reflexivity|]. by apply (changed_value w id x').
  - intros w id. rewrite lookup_delete_eq. split; [done|]. split.
    + intros k [_ Hk]%map_lookup_filter_Some. done.
    + intros i Hi. by rewrite lookup_delete_ne.
  - intros w id x v Hx Hv. unfold s_op. destruct (s_sets w !! id) as [[x' n]|] eqn:Hm; [|done]. injection Hx as ->.
    rewrite (proj2 (Z.ltb_ge _ _)), (proj2 (Z.ltb_ge SEMVMX _)) by lia. eexists. split; [reflexivity|]. by apply (changed_value w id x).
  - intros w id x v Hx Hv Hn. unfold s_op. destruct (s_sets w !! id) as [[x' n]|]; [|done]. injection Hx as ->. by rewrite (proj2 (Z.ltb_lt _ _) Hn).
  - intros w id x v Hx Hv. unfold s_op. destruct (s_sets w !! id) as [[x' n]|]; [|done]. injection Hx as ->. unfold SEMVMX in *.
    rewrite (proj2 (Z.ltb_ge _ _)) by lia. by rewrite (proj2 (Z.ltb_lt _ _) Hv).
  - intros w id v Hx. unfold s_op. by destruct (s_sets w !! id).
Qed.

(** A second producer of a ring gives back what the consumers wait for. *)
Lemma second_producer_resets : 
  let '(w, h) := __ina_sem_create 5 1 (Sems ∅ ∅) in
  let id := match h with Ok id => id | Err _ => -1 end in
  let '(w, r1) := ina_ullc_consumer_swait id w in
  let '(w, r2) := ina_ullc_consumer_swait id w in
  let '(w, _) := __ina_sem_create 5 1 w in
  let '(_, r3) := ina_ullc_consumer_swait id w in
  (r1, r2, r3) = (Some (Ok tt), None, Some (Ok tt)).
Proof. vm_compute. reflexivity. Qed.

(** The read operations of a new ring, whose cursor is -1, are almost 2^64. *)
Lemma new_ring_info : ina_ullc_get_ring_info [120] (Some (Ring __INA_MAGIC_HDR 1 2 1 8 16 (-1) 0 0 (-1))) = Ok (RbInfo 1 0 0 18446744073709551615 0 1 0 2 0 8 16 (-1)).
Proof. reflexivity. Qed.
End UllcSem.
