(* ===== verification/Double.v ===== *)
(** * Comparing floating point numbers (util.c)

    A [double] is a number of the specification of IEEE 754 in the Standard Library with 53
    bits and exponents to 1024, whose operations round to the nearest even number. *)
From Stdlib Require Import ZArith Lia Bool SpecFloat.
From stdpp Require Import base numbers option.
From S2P Require Import Prelude.

Module Double.

Abbreviation double := spec_float.
Definition prec : Z := 53.
Definition emax : Z := 1024.
Definition sub : double -> double -> double := SFsub prec emax.
Definition mul : double -> double -> double := SFmul prec emax.
Definition DBL_EPSILON : double := S754_finite false 4503599627370496 (-104).
Definition one : double := S754_finite false 4503599627370496 (-52).
Definition INA_MAX (a b : double) : double := if SFltb b a then a else b.

Definition ina_util_dbl_cmp_abs (x y : double) : bool := SFleb (SFabs (sub x y)) DBL_EPSILON.
Definition ina_util_dbl_cmp_rel (x y : double) : bool :=
  SFleb (SFabs (sub x y)) (mul DBL_EPSILON (INA_MAX (SFabs x) (SFabs y))).
Definition ina_util_dbl_cmp_save (x y : double) : bool :=
  SFleb (SFabs (sub x y)) (mul DBL_EPSILON (INA_MAX one (INA_MAX (SFabs x) (SFabs y)))).

(** ** Symmetry *)

(** Rounding does not look at the sign. *)
Lemma round_aux_sign (s : bool) (m e : Z) (l : location) : SFabs (binary_round_aux prec emax s m e l) = SFabs (binary_round_aux prec emax (negb s) m e l).
Proof.
  unfold binary_round_aux. destruct (shr_fexp prec emax m e l) as [r e1]. destruct (shr_fexp prec emax _ e1 loc_Exact) as [r' e2].
  destruct (shr_m r') as [|p|p]; [done| |done]. by destruct (Z.leb e2 _).
Qed.
Lemma normalize_opp (m e : Z) : SFabs (binary_normalize prec emax (- m) e false) = SFabs (binary_normalize prec emax m e false).
Proof.
  destruct m as [|p|p]; [done|..]; simpl; unfold binary_round; destruct (shl_align _ _ _) as [mz ez];
    [apply (round_aux_sign true)|apply (round_aux_sign false)].
Qed.
Lemma abs_sub_sym (x y : double) : SFabs (sub x y) = SFabs (sub y x).
Proof.
  destruct x as [[]|[]| |[] mx ex], y as [[]|[]| |[] my ey]; try done; unfold sub, SFsub; rewrite (Z.min_comm ey ex), <- normalize_opp; do 2 f_equal;
    unfold cond_Zopp; lia.
Qed.

(** On numbers without a sign the greater one does not depend on the order. *)
Lemma max_sym (x y : double) : x <> S754_nan -> y <> S754_nan -> INA_MAX (SFabs x) (SFabs y) = INA_MAX (SFabs y) (SFabs x).
Proof.
  intros Hx Hy. destruct x as [|sx| |sx mx ex], y as [|sy| |sy my ey]; try done. unfold INA_MAX, SFltb, SFcompare, SFabs.
  rewrite (Z.compare_antisym ey ex). destruct (Z.compare_spec ey ex) as [->| |]; cbn [CompOpp]; [|done|done].
  fold (Pos.compare mx my) (Pos.compare my mx). rewrite (Pos.compare_antisym my mx). by destruct (Pos.compare_spec my mx) as [->| |].
Qed.
Lemma nan_sub (x y : double) : x = S754_nan \/ y = S754_nan -> sub x y = S754_nan.
Proof. intros [->| ->]; [done|]. by destruct x. Qed.
Definition is_nan (x : double) : bool := match x with S754_nan => true | _ => false end.
Lemma is_nan_spec (x : double) : is_nan x = true <-> x = S754_nan.
Proof. by destruct x. Qed.

Theorem comparing_is_symmetric (x y : double) :
  ina_util_dbl_cmp_abs x y = ina_util_dbl_cmp_abs y x /\ ina_util_dbl_cmp_rel x y = ina_util_dbl_cmp_rel y x /\
  ina_util_dbl_cmp_save x y = ina_util_dbl_cmp_save y x.
Proof.
  unfold ina_util_dbl_cmp_abs, ina_util_dbl_cmp_rel, ina_util_dbl_cmp_save. rewrite (abs_sub_sym y x).
  destruct (is_nan x) eqn:Hx; [apply is_nan_spec in Hx as ->; by rewrite nan_sub by (by left)|].
  destruct (is_nan y) eqn:Hy; [apply is_nan_spec in Hy as ->; by rewrite nan_sub by (by right)|].
  rewrite (max_sym y x); [done|by intros ->|by intros ->].
Qed.

(** ** What is equal *)
Definition finite (x : double) : bool := match x with S754_zero _ | S754_finite _ _ _ => true | _ => false end.
Lemma nan_equals_nothing (x y : double) : is_nan x || is_nan y = true ->
  ina_util_dbl_cmp_abs x y = false /\ ina_util_dbl_cmp_rel x y = false /\ ina_util_dbl_cmp_save x y = false.
Proof.
  intros Hn. unfold ina_util_dbl_cmp_abs, ina_util_dbl_cmp_rel, ina_util_dbl_cmp_save.
  rewrite nan_sub by (apply orb_true_iff in Hn as [Hn|Hn]; apply is_nan_spec in Hn; tauto). done.
Qed.
(** An infinite number is not equal to itself, also not with the comparison that should
    work for all cases. *)
Lemma infinity_differs_from_itself (s : bool) : let x := S754_infinity s in
  ina_util_dbl_cmp_abs x x = false /\ ina_util_dbl_cmp_rel x x = false /\ ina_util_dbl_cmp_save x x = false.
Proof. by destruct s. Qed.
Lemma sub_self (x : double) : finite x = true -> SFabs (sub x x) = S754_zero false.
Proof.
  destruct x as [s|s| |s m e]; try done; intros _; [by destruct s|]. unfold sub, SFsub. by rewrite Z.sub_diag.
Qed.

(** Rounding a positive number never makes it negative. *)
Lemma shr_nonneg (n : positive) (r : shr_record) : 0 <= shr_m r -> 0 <= shr_m (SpecFloat.iter_pos shr_1 n r).
Proof.
  revert r. induction n as [n IH|n IH|]; intros r Hr; cbn [SpecFloat.iter_pos].
  - apply IH, IH. destruct r as [[|[]|[]] [] []]; cbn in *; lia.
  - by apply IH, IH.
  - destruct r as [[|[]|[]] [] []]; cbn in *; lia.
Qed.
Lemma shr_fexp_nonneg (m e : Z) (l : location) : 0 <= m -> 0 <= shr_m (fst (shr_fexp prec emax m e l)).
Proof.
  intros Hm. unfold shr_fexp, shr. assert (0 <= shr_m (shr_record_of_loc m l)) by (by destruct l as [|[]]).
  destruct (Z.sub _ e); [done|by apply shr_nonneg|done].
Qed.
Lemma round_positive (m e : Z) : 0 <= m -> SFleb (S754_zero false) (binary_round_aux prec emax false m e loc_Exact) = true.
Proof.
  intros Hm. unfold binary_round_aux. pose proof (shr_fexp_nonneg m e loc_Exact Hm) as H1. destruct (shr_fexp prec emax m e loc_Exact) as [r e1]. cbn [fst] in H1.
  set (m1 := round_nearest_even _ _). assert (0 <= m1) as Hm1.
  { subst m1. unfold round_nearest_even. destruct (loc_of_shr_record r) as [|[]]; try destruct (Z.even _); lia. }
  pose proof (shr_fexp_nonneg m1 e1 loc_Exact Hm1) as H2. destruct (shr_fexp prec emax m1 e1 loc_Exact) as [r' e2]. cbn [fst] in H2.
  destruct (shr_m r') as [|p|p]; [done| |lia]. by destruct (Z.leb e2 _).
Qed.
Lemma mul_positive (x : double) : x <> S754_nan -> SFleb (S754_zero false) (mul DBL_EPSILON (SFabs x)) = true.
Proof. intros Hx. destruct x as [s|s| |s m e]; try done. apply round_positive. done. Qed.
Lemma abs_abs (x : double) : SFabs (SFabs x) = SFabs x.
Proof. by destruct x. Qed.

Theorem numbers_equal_themselves (x : double) : finite x = true ->
  ina_util_dbl_cmp_abs x x = true /\ ina_util_dbl_cmp_rel x x = true /\ ina_util_dbl_cmp_save x x = true.
Proof.
  intros Hx. unfold ina_util_dbl_cmp_abs, ina_util_dbl_cmp_rel, ina_util_dbl_cmp_save. rewrite sub_self by done.
  assert (INA_MAX (SFabs x) (SFabs x) = SFabs x) as -> by (unfold INA_MAX; by destruct (SFltb _ _)). split; [done|].
  assert (x <> S754_nan) as Hn by (by intros ->). split; [by apply mul_positive|]. unfold INA_MAX. destruct (SFltb (SFabs x) one); [done|by apply mul_positive].
Qed.

(** ** Where the comparisons differ *)
Definition two_to (n : Z) : double := S754_finite false 4503599627370496 (n - 52).
(** Small numbers are all the same for the absolute comparison and for the combined one,
    large ones that follow each other differ only for the absolute one; to zero nothing is
    equal relatively. *)
Lemma comparisons_differ :
  (ina_util_dbl_cmp_abs (two_to (-60)) (two_to (-70)), ina_util_dbl_cmp_rel (two_to (-60)) (two_to (-70)), ina_util_dbl_cmp_save (two_to (-60)) (two_to (-70))) =
    (true, false, true) /\
  let next := S754_finite false 4503599627370497 10 in
  (ina_util_dbl_cmp_abs (two_to 62) next, ina_util_dbl_cmp_rel (two_to 62) next, ina_util_dbl_cmp_save (two_to 62) next) = (false, true, true) /\
  (forall s, ina_util_dbl_cmp_rel (S754_zero s) (two_to (-60)) = false).
Proof. split; [by vm_compute|]. split; [by vm_compute|]. intros []; by vm_compute. Qed.
End Double.
