(* ===== verification/Ljit.v ===== *)
(** * Calling Lua from C (ljit.c, ljit.h)

    The interpreter is the class [Lua] on its state [L]: variables, fields, protected calls and
    the conversions of numbers.  The stack through which C and Lua exchange values is
    explicit, its top first.  [None] is undefined behaviour: an argument of another
    type than the signature says, an access or a pop below the stack, or an error of Lua
    outside of a protected call, which ends the program. *)
From Stdlib Require Import ZArith Lia Bool String.
From stdpp Require Import base numbers option list.
From S2P Require Import Prelude Error Libc Hash.

Module Ljit.
Import Error Libc.
Abbreviation str := bytes_of_string.

(** Values of Lua; functions, tables, threads and full userdata are named by numbers. *)
Inductive value (N : Type) := VNil | VBool (b : bool) | VNum (n : N) | VStr (t : text) | VLight (p : Z) | VCData (p : Z) | VOther (id : Z).
Arguments VNil {N}.
Arguments VBool {N} _.
Arguments VNum {N} _.
Arguments VStr {N} _.
Arguments VLight {N} _.
Arguments VCData {N} _.
Arguments VOther {N} _.

Class Lua (L N : Type) := {
  lua_global : L -> text -> value N;
  (* a field, unless the value has none *)
  lua_field : L -> value N -> text -> option (value N);
  (* a protected call: all results, or the message of the error *)
  lua_call : L -> value N -> list (value N) -> L * (list (value N) + value N);
  (* a piece of code: its results or the message *)
  lua_chunk : L -> text -> L * (list (value N) + value N);
  num_of_int : Z -> N;
  int_of_num : N -> Z;
  num_of_str : text -> option N;
  str_of_num : N -> text;
  (* what a cdata refers to, as a string and as a pointer *)
  cdata_string : L -> Z -> text;
  cdata_pointer : L -> Z -> Z }.

(** Arguments and results of a call, as their C types. *)
Inductive carg (N : Type) := CD (n : N) | CI (z : Z) | CS (t : option text) | CC (p : Z).
Arguments CD {N} _.
Arguments CI {N} _.
Arguments CS {N} _.
Arguments CC {N} _.

Section Code.
Context {L N : Type} `{!Lua L N}.
Abbreviation value := (value N).
Abbreviation carg := (carg N).
Abbreviation stack := (list value).

Definition lua_tonumber (v : value) : option N := match v with VNum n => Some n | VStr t => num_of_str t | _ => None end.
Definition lua_pop (n : nat) (s : stack) : option stack := if (n <=? length s)%nat then Some (drop n s) else None.

Definition DOT : Z := 46.
Fixpoint strchr_dot (t : text) : option (text * text) :=
  match t with
  | [] => None
  | c :: t => if c =? DOT then Some ([], t) else '(a, b) ← strchr_dot t; Some (c :: a, b)
  end.
(** The function, or the object and the function on top of it. *)
Definition push_function (l : L) (fname : text) (s : stack) : option stack :=
  match strchr_dot fname with
  | None => Some (lua_global l fname :: s)
  | Some (obj, f) => let o := lua_global l obj in v ← lua_field l o f; Some (v :: o :: s)
  end.

(** The loop over the signature; an inner [None] is a type that is not known. *)
Fixpoint push_args (sig : text) (args : list carg) (narg : nat) (s : stack) : option (option (text * nat) * stack) :=
  match sig with
  | [] => Some (Some ([], narg), s)
  | c :: sig =>
      if c =? 100 then match args with CD n :: args => push_args sig args (S narg) (VNum n :: s) | _ => None end
      else if c =? 105 then match args with CI z :: args => push_args sig args (S narg) (VNum (num_of_int z) :: s) | _ => None end
      else if c =? 115 then match args with CS t :: args => push_args sig args (S narg) ((match t with Some t => VStr t | None => VNil end) :: s) | _ => None end
      else if c =? 99 then match args with CC p :: args => push_args sig args (S narg) (VLight p :: s) | _ => None end
      else if c =? 60 then Some (Some (sig, narg), s)
      else Some (None, s)
  end.
(** The results are cut or filled with nil to as many as are asked for. *)
Definition adjust (n : nat) (vs : list value) : list value := take n (vs ++ repeat VNil n).
Definition lua_pcall (l : L) (narg nres : nat) (s : stack) : option (L * bool * stack) :=
  f ← s !! narg;
  let below := drop (S narg) s in
  match lua_call l f (rev (take narg s)) with
  | (l, inl vs) => Some (l, true, rev (adjust nres vs) ++ below)
  | (l, inr msg) => Some (l, false, msg :: below)
  end.
(** The loop over the results; [k] is how far the next one is below the top.  A number that is
    taken as a string becomes one on the stack. *)
Fixpoint get_results (l : L) (sig : text) (k : nat) (s : stack) : option (result unit * list carg * stack) :=
  let wrong := Some (Err (Z.lor (INA_ES S_TYPE) INA_ERR_INVALID), [], s) in
  match sig with
  | [] => Some (Ok (), [], s)
  | c :: sig =>
      v ← s !! (k - 1)%nat;
      let next out s := '(r, outs, s) ← get_results l sig (k - 1) s; Some (r, out :: outs, s) in
      if c =? 100 then match lua_tonumber v with Some n => next (CD n) s | None => wrong end
      else if c =? 105 then match lua_tonumber v with Some n => next (CI (int_of_num n)) s | None => wrong end
      else if c =? 115 then
        match v with
        | VStr t => next (CS (Some t)) s
        | VNum n => next (CS (Some (str_of_num n))) (<[(k - 1)%nat := VStr (str_of_num n)]> s)
        | VCData p => next (CS (Some (cdata_string l p))) s
        | _ => wrong
        end
      else if c =? 99 then match v with VCData p => next (CC (cdata_pointer l p)) s | _ => wrong end
      else wrong
  end.
Definition ina_ljit_call (l : L) (fname sig : text) (args : list carg) (s : stack) : option (L * stack * result unit * list carg) :=
  s ← push_function l fname s;
  '(r, s) ← push_args sig args 0 s;
  match r with
  | None => Some (l, s, Err (Z.lor (INA_ES S_TYPE) INA_ERR_INVALID), [])
  | Some (sig, narg) =>
      let nres := length sig in
      '(l, ok, s) ← lua_pcall l narg nres s;
      if ok : bool then
        '(r, outs, s) ← get_results l sig nres s;
        match r with
        | Err e => Some (l, s, Err e, outs)
        | Ok _ => s ← lua_pop 1 s; Some (l, s, Ok (), outs)
        end
      else s ← lua_pop 1 s; Some (l, s, Err (Z.lor (INA_ES S_SCRIPT) (INA_ERR E_FAILED)), [])
  end.
Definition ina_ljit_dostring (l : L) (code : text) (s : stack) : option (L * stack * result unit) :=
  match lua_chunk l code with
  | (l, inl vs) => Some (l, rev vs ++ s, Ok ())
  | (l, inr msg) => s ← lua_pop 1 (msg :: s); Some (l, s, Err (Z.lor (INA_ES S_SCRIPT) (INA_ERR E_FAILED)))
  end.
(** [luaL_checkstring] of the first value, the last one of the list. *)
Definition ina_ljit_last_error (s : stack) : option text :=
  v ← last s; match v with VStr t => Some t | VNum n => Some (str_of_num n) | _ => None end.
Definition ina_ljit_checkcdata (s : stack) (narg : nat) : option Z := v ← rev s !! (narg - 1)%nat; match v with VCData p => Some p | _ => None end.
(** A line for each value from the top; [number] prints a number, [typename] the type of others. *)
Definition dump_value (decimal : Z -> text) (number : N -> text) (typename : value -> text) (i : Z) (v : value) : text :=
  decimal i ++
  match v with
  | VStr t => str ":`" ++ t ++ str "'"
  | VBool b => str ": " ++ str (if b then "true" else "false")
  | VNum n => str ": " ++ number n
  | v => str ": " ++ typename v
  end ++ str "
".
Fixpoint dump_lines (decimal : Z -> text) (number : N -> text) (typename : value -> text) (s : stack) : text :=
  match s with [] => [] | v :: s => dump_value decimal number typename (Z.of_nat (S (length s))) v ++ dump_lines decimal number typename s end.
Definition ina_ljit_hash_sbdm (t : text) : Z := u64 (Hash.ina_hash_sdbm 0 t).
Definition __INA_LPATH : text := str "./?.lua;".
(** The new path of packages. *)
Definition package_path (cur : text) : text := __INA_LPATH ++ cur.
End Code.

(** ** What a call does *)
Section Facts.
Context {L N : Type} `{!Lua L N}.
Abbreviation value := (value N).
Abbreviation carg := (carg N).

(** The letter and the value of an argument. *)
Definition arg_type (a : carg) : Z := match a with CD _ => 100 | CI _ => 105 | CS _ => 115 | CC _ => 99 end.
Definition arg_value (a : carg) : value :=
  match a with CD n => VNum n | CI z => VNum (num_of_int z) | CS (Some t) => VStr t | CS None => VNil | CC p => VLight p end.
(** What is given to C for a result of a type, and what it becomes on the stack. *)
Definition result_of (l : L) (c : Z) (v : value) : option (carg * value) :=
  if c =? 100 then n ← lua_tonumber v; Some (CD n, v)
  else if c =? 105 then n ← lua_tonumber v; Some (CI (int_of_num n), v)
  else if c =? 115 then
    match v with
    | VStr t => Some (CS (Some t), v)
    | VNum n => Some (CS (Some (str_of_num n)), VStr (str_of_num n))
    | VCData p => Some (CS (Some (cdata_string l p)), v)
    | _ => None
    end
  else if c =? 99 then match v with VCData p => Some (CC (cdata_pointer l p), v) | _ => None end
  else None.
Fixpoint convert (l : L) (rets : text) (vs : list value) : option (list carg * list value) :=
  match rets, vs with
  | [], [] => Some ([], [])
  | c :: rets, v :: vs => '(o, v) ← result_of l c v; '(outs, vs) ← convert l rets vs; Some (o :: outs, v :: vs)
  | _, _ => None
  end.

Lemma push_args_spec (args : list carg) (rets : text) (narg : nat) (s : list value) :
  push_args (map arg_type args ++ 60 :: rets) args narg s = Some (Some (rets, (narg + length args)%nat), rev (map arg_value args) ++ s).
Proof.
  revert narg s. induction args as [|a args IH]; intros narg s; [cbn; by rewrite Nat.add_0_r|].
  cbn [map app rev length]. rewrite <- (assoc_L (++)). destruct a as [n|z|[t|]|p]; cbn; rewrite IH; cbn; by rewrite Nat.add_succ_r.
Qed.

Lemma get_results_spec (l : L) (rets : text) (ready todo todo' : list value) (outs : list carg) (s : list value) :
  convert l rets todo = Some (outs, todo') -> get_results l rets (length rets) (rev (ready ++ todo) ++ s) = Some (Ok (), outs, rev (ready ++ todo') ++ s).
Proof.
  revert ready todo todo' outs. induction rets as [|c rets IH]; intros ready todo todo' outs Hc.
  - destruct todo; [|done]. by injection Hc as <- <-.
  - destruct todo as [|v todo]; [done|]. cbn [convert] in Hc. destruct (result_of l c v) as [[o v']|] eqn:Hv; [|done]. cbn [mbind option_bind] in Hc.
    destruct (convert l rets todo) as [[outs1 todo1]|] eqn:Ht; [|done]. injection Hc as <- <-.
    assert (length rets = length todo) as Hlen.
    { clear -Ht. revert todo outs1 todo1 Ht. induction rets as [|c rets IH]; intros [|v todo] outs1 todo1 Ht; try done. cbn in Ht.
      destruct (result_of l c v) as [[o v']|]; [|done]. cbn in Ht. destruct (convert l rets todo) as [[]|] eqn:E; [|done]. cbn. f_equal. by eapply IH. }
    assert (forall x, rev (ready ++ x :: todo) ++ s = rev todo ++ x :: rev ready ++ s) as Hst by (intros x; rewrite rev_app_distr; cbn; by rewrite <- !(assoc_L (++))).
    assert ((rev (ready ++ v :: todo) ++ s) !! length rets = Some v) as Hget by (rewrite Hst, Hlen, <- length_rev; by apply list_lookup_middle).
    specialize (IH (ready ++ [v']) todo todo1 outs1 Ht). rewrite <- !(assoc_L (++)) in IH. cbn [app] in IH.
    cbn [get_results length]. replace (S (length rets) - 1)%nat with (length rets) by lia. rewrite Hget. cbn [mbind option_bind].
    assert (v' <> v -> rev (ready ++ v' :: todo) ++ s = <[length rets := v']> (rev (ready ++ v :: todo) ++ s)) as Hins.
    { intros _. rewrite !Hst, Hlen, <- (length_rev todo). rewrite insert_app_r_alt by lia. by rewrite Nat.sub_diag. }
    unfold result_of in Hv. repeat case_match; simplify_eq; try done; try (destruct (lua_tonumber v); [|done]; cbn in Hv; simplify_eq); cbn [mbind option_bind];
      try (by rewrite IH); rewrite <- Hins by done; by rewrite IH.
Qed.

End Facts.

(** ** An interpreter with three functions

    [add] gives a sum, [pair] its argument and the argument plus one, [none] nothing; other values
    cannot be called.  The table [m] has them too. *)
#[export] Instance demo : Lua unit Z := {|
  lua_global _ n := if bool_decide (n = str "add") then VOther 1 else if bool_decide (n = str "pair") then VOther 2
    else if bool_decide (n = str "none") then VOther 3 else if bool_decide (n = str "m") then VOther 4 else VNil;
  lua_field _ v n := match v with VOther 4 => Some (if bool_decide (n = str "add") then VOther 1 else VNil) | _ => None end;
  lua_call _ f vs :=
    (tt, match f, vs with
         | VOther 1, VNum x :: VNum y :: _ => inl [VNum (x + y)]
         | VOther 2, VNum x :: _ => inl [VNum x; VNum (x + 1)]
         | VOther 3, _ => inl []
         | _, _ => inr (VStr (str "attempt to call"))
         end);
  lua_chunk _ c := (tt, if bool_decide (c = str "return 7") then inl [VNum 7] else inr (VStr (str "syntax")));
  num_of_int := id; int_of_num := id; num_of_str _ := None; str_of_num _ := str "n"; cdata_string _ _ := []; cdata_pointer _ p := p |}.

(** With two results a value is left on the stack, without one the caller loses a value, or the
    stack underflows; a function of an object leaves the object, and a signature with an
    unknown letter what was pushed before. *)
Lemma stack_is_not_balanced :
  ina_ljit_call tt (str "pair") (str "i<ii") [CI 3] [VNil] = Some (tt, [VNum 3; VNil], Ok (), [CI 3; CI 4]) /\
  ina_ljit_call tt (str "none") (str "<") [] [VBool true; VNil] = Some (tt, [VNil], Ok (), []) /\
  ina_ljit_call tt (str "none") (str "<") [] [] = None /\
  ina_ljit_call tt (str "m.add") (str "ii<i") [CI 3; CI 4] [VNil] = Some (tt, [VOther 4; VNil], Ok (), [CI 7]) /\
  ina_ljit_call tt (str "add") (str "ii>i") [CI 3; CI 4] [VNil] =
    Some (tt, [VNum 4; VNum 3; VOther 1; VNil], Err (Z.lor (INA_ES S_TYPE) INA_ERR_INVALID), []) /\
  ina_ljit_dostring tt (str "return 7") [] = Some (tt, [VNum 7], Ok ()).
Proof. repeat split; vm_compute; reflexivity. Qed.
(** The message of an error is taken from the stack before it can be asked for. *)
Lemma message_is_lost : ina_ljit_dostring tt (str "(") [] = Some (tt, [], Err (Z.lor (INA_ES S_SCRIPT) (INA_ERR E_FAILED))) /\ ina_ljit_last_error (N := Z) [] = None.
Proof. split; vm_compute; reflexivity. Qed.
End Ljit.
