(* ===== verification/SysTime.v ===== *)
(** * The clock of the system (time_os.c)

    A reading of [gettimeofday] or, on Windows, the number of 100 nanoseconds since 1601 in
    two words of 32 bits, and both as seconds and microseconds since 1970. *)
From Stdlib Require Import ZArith Lia Bool.
From stdpp Require Import base numbers option.
From S2P Require Import Prelude Error.

Module SysTime.
Import Error.
Local Open Scope inac_scope.

(** [struct ina_time_s] with [struct timeval] and with [FILETIME]. *)
Record time := Time_ { tv_sec : Z; tv_usec : Z }.
Record filetime := FileTime { dwHighDateTime : Z; dwLowDateTime : Z }.
Definition DELTA_EPOCH_IN_MICROSECS : Z := 11644473600000000.

(** [clock] is what [gettimeofday] stores, or [None] if it fails; the structure is not cleared
    when it is allocated, and [garbage] is in it. *)
Definition ina_time_sys_new (garbage : time) (malloc_ok : bool) : result time := if malloc_ok then Ok garbage else Err INA_ERR_OUT_OF_MEMORY.
Definition ina_time_read_sys_clock (clock : option time) (t : time) : time * result unit :=
  match clock with Some c => (c, Ok tt) | None => (t, Err INA_ERR_OPERATION_FAILED) end.
Definition ina_time_sys_seconds_micros (t : time) : Z * Z := (tv_sec t, tv_usec t).
Definition filetime_seconds_micros (t : filetime) : Z * Z :=
  let tmpres := Z.lor (shl 64 (Z.lor 0 (dwHighDateTime t)) 32) (dwLowDateTime t) in
  let tmpres := tmpres / 10 in
  let tmpres := u64 (tmpres - DELTA_EPOCH_IN_MICROSECS) in
  (tmpres / 1000000, tmpres mod 1000000).

Lemma reading_is_delivered (c t : time) :
  let '(t', r) := ina_time_read_sys_clock (Some c) t in r = Ok tt /\ ina_time_sys_seconds_micros t' = (tv_sec c, tv_usec c).
Proof. done. Qed.

(** The file time of a moment after 1970 gives its seconds and microseconds. *)
Theorem filetime_is_unix_time (high low secs micros rest : Z) :
  in_width 32 high -> in_width 32 low -> 0 <= secs -> 0 <= micros < 1000000 -> 0 <= rest < 10 ->
  high * 2 ^ 32 + low = ((secs + 11644473600) * 1000000 + micros) * 10 + rest ->
  filetime_seconds_micros (FileTime high low) = (secs, micros).
Proof.
  intros Hh Hl Hs Hm Hr Heq. unfold filetime_seconds_micros, shl. cbn [dwHighDateTime dwLowDateTime]. rewrite Z.lor_0_l.
  rewrite (wrap_small 64 (Z.shiftl high 32)) by (rewrite Z.shiftl_mul_pow2 by lia; unfold in_width in *; lia). rewrite (lor_shiftl_add 32), Heq by (lia || done). rewrite Z.div_add_l, (Z.div_small rest), Z.add_0_r by lia. unfold DELTA_EPOCH_IN_MICROSECS.
  replace ((secs + 11644473600) * 1000000 + micros - 11644473600000000) with (secs * 1000000 + micros) by lia. unfold in_width in *.
  rewrite wrap_small by (unfold in_width; lia). f_equal; dlia.
Qed.
(** A moment of 2020. *)
Example filetime_of_2020 : filetime_seconds_micros (FileTime 30785590 1761935413) = (1577836800, 5).
Proof. vm_compute. reflexivity. Qed.
End SysTime.
