(* ===== verification/ListTable.v ===== *)
(** * Lists from hash tables (list.c over hashtable.c)

    A list of the data of a hash table is made by a traversal of the table that calls
    [__ina_add_data].  Lists live in a store by their address, so that it can be
    told what the call does when its two pointers are exchanged.  The table is that of the
    interface of Table.v. *)
From Stdlib Require Import ZArith Lia Bool.
From stdpp Require Import base numbers option fin_maps gmap list.
From S2P Require Import Prelude Error Dlist Table.

Module ListTable.
Import Error Dlist Table.

(** Nodes, and the lists by their address. *)
Record store := Store { nodes : mem; lists : gmap Z dlist }.

Definition __ina_add_data (arg data : Z) (s : store) : option (store * result unit) :=
  l ← lists s !! arg;
  '(m, l, r) ← ina_list_insert_tail_data (nodes s) l data;
  Some (Store m (<[arg := l]> (lists s)), r).

(** [ina_hashtable_foreach_arg] with a function on pointers: it gets the data of the table first
    and the argument second. *)
Fixpoint ina_hashtable_foreach_arg (foreach_fn : Z -> Z -> store -> option (store * result unit)) (ds : list Z) (arg : Z) (s : store) :
    option (store * result unit) :=
  match ds with
  | [] => Some (s, Ok tt)
  | d :: ds =>
      '(s, r) ← foreach_fn d arg s;
      match r with Ok _ => ina_hashtable_foreach_arg foreach_fn ds arg s | Err e => Some (s, Err e) end
  end.

(** [p] is the address of the new list.  The capacity of the pool, for which the count of the
    table is asked, does not show in the model of the list. *)
Definition ina_list_new_from_hashtable `{!TableOps T} (ht : T) (p : Z) (s : store) : option (store * result unit) :=
  '(m, l) ← ina_list_new (nodes s) INA_LIST_CF_DEFAULT;
  '(m, l, r) ← ina_list_resize m l 0;
  match r with
  | Err e => Some (Store m (<[p := l]> (lists s)), Err e)
  | Ok _ => ina_hashtable_foreach_arg __ina_add_data (tb_foreach ht) p (Store m (<[p := l]> (lists s)))
  end.

(** [size] is what the information of the pool says. *)
Definition ina_list_usage (size : result Z) (l : dlist) : result Z :=
  match size with Ok n => Ok (n + 8 * d_max_recyclable l) | Err e => Err e end.

(** ** What becomes of it *)

Definition no_elements : dlist := DList 0 INA_LIST_CF_DEFAULT 0 0 (Some ∅) None 0.
Lemma fresh_list `{!TableOps T} (ht : T) (p : Z) (s : store) :
  ina_list_new_from_hashtable ht p s = ina_hashtable_foreach_arg __ina_add_data (tb_foreach ht) p (Store (nodes s) (<[p := no_elements]> (lists s))).
Proof.
  unfold ina_list_new_from_hashtable. unfold ina_list_new. change (negb (Z.land INA_LIST_CF_DEFAULT INA_LIST_CF_NOMALLOC =? 0)) with false. cbn iota.
  unfold ina_list_resize at 1. cbn [d_cf d_mp mbind option_bind]. change (negb (Z.land INA_LIST_CF_DEFAULT INA_LIST_CF_NOMALLOC =? 0)) with false. cbn iota.
  cbn [mbind option_bind]. change (INA_LIST_DEFAULT_SIZE =? 0) with false. cbn iota. unfold ina_list_resize. cbn [d_cf d_mp d_head]. 
  change (negb (Z.land INA_LIST_CF_DEFAULT INA_LIST_CF_NOMALLOC =? 0)) with false. cbn iota. unfold heap_fuel. cbn [copy_nodes]. change (negb (0 =? 0)) with false. cbn iota.
  cbn [mbind option_bind]. change (0 =? 0) with true. cbn iota. cbn. assert (pool_free (nodes s) ∅ = nodes s) as ->; [|done].
  unfold pool_free. rewrite map_filter_id by (intros i x _; set_solver). by destruct (nodes s).
Qed.

(** Only for an empty table is there a list of its data. *)
Lemma empty_table_gives_list `{!TableOps T} (ht : T) (p : Z) (s : store) :
  tb_foreach ht = [] -> exists l, ina_list_new_from_hashtable ht p s = Some (Store (nodes s) (<[p := l]> (lists s)), Ok tt) /\ d_count l = 0 /\ d_head l = 0.
Proof. intros He. rewrite fresh_list, He. eexists. split; [reflexivity|]. done. Qed.

(** The first datum of a table is taken for a list: what it points to is corrupted. *)
Lemma data_is_taken_for_a_list `{!TableOps T} (ht : T) (p d : Z) (ds : list Z) (s : store) :
  tb_foreach ht = d :: ds -> d <> p -> lists s !! d = None -> ina_list_new_from_hashtable ht p s = None.
Proof.
  intros Hf Hp Hd. rewrite fresh_list, Hf. cbn [ina_hashtable_foreach_arg]. unfold __ina_add_data. cbn [lists].
  by rewrite lookup_insert_ne, Hd.
Qed.

(** In a table of lists each of them gets the new list as an element, and the new list stays
    empty. *)
Lemma lists_get_the_list `{!TableOps T} (ht : T) (p d : Z) (s : store) (l : dlist) (ns : list (Z * Z)) (fl : list Z) :
  tb_foreach ht = [d] -> d <> p -> lists s !! d = Some l -> owns (nodes s) l ns fl ->
  exists s' l' l1 a fl', ina_list_new_from_hashtable ht p s = Some (s', Ok tt) /\ lists s' !! d = Some l' /\ owns (nodes s') l' (ns ++ [(a, p)]) fl' /\
    lists s' !! p = Some l1 /\ d_count l1 = 0.
Proof.
  intros Hf Hp Hd Ho. rewrite fresh_list, Hf. cbn [ina_hashtable_foreach_arg]. unfold __ina_add_data. cbn [lists nodes].
  rewrite lookup_insert_ne, Hd by done. cbn [mbind option_bind].
  destruct (insert_tail_data_spec (nodes s) l ns fl p Ho) as (m' & l' & a & fl' & -> & Ho' & _). cbn [mbind option_bind].
  eexists _, l', _, a, fl'. split; [reflexivity|]. cbn [lists nodes]. split; [by rewrite lookup_insert_eq|]. split; [done|].
  rewrite lookup_insert_ne by done. rewrite lookup_insert_eq. by split.
Qed.
End ListTable.
