(* ===== verification/LibExit.v ===== *)
(** * Start and end of the library (lib.c)

    [ina_init] starts the parts of the library once, [ina_exit] stops them and frees what
    [ina_app_init] allocated.  The memory of the options is a set of blocks: each short option is
    a structure with its strings, each long option another.  The codes that the
    parts return, the handler of the client and the link to the program are arguments. *)
From Stdlib Require Import ZArith Lia Bool String.
From stdpp Require Import base numbers option sets list.
From S2P Require Import Prelude Error Libc Lib.

Module LibExit.
Import Error Libc Lib.

(** ** The start *)

(** What [ina_init] does on POSIX, in its order. *)
Inductive start_step : Set := InitErrors | RegisterExit | Signal (sig : Z) | InitHashtables (conf : text) | InitConsole | InitCpu.

Definition signals_set : list Z := [6; 2; 15; 1; 9; 21; 22].
Definition start_steps : list start_step :=
  [InitErrors; RegisterExit] ++ map Signal signals_set ++ [InitHashtables (bytes_of_string "hashtable.conf"); InitConsole; InitCpu].

(** [step] gives the code of a part; the code of the first and the effect of [sigaction] are
    ignored.  The result has the steps that were done. *)
Definition checked (s : start_step) : bool := match s with InitErrors | Signal _ => false | _ => true end.
Fixpoint run_start (step : start_step -> Z) (ss : list start_step) : list start_step * Z :=
  match ss with
  | [] => ([], INA_SUCCESS)
  | s :: ss =>
      if checked s && INA_FAILED (step s) then ([s], step s)
      else let (l, rc) := run_start step ss in (s :: l, rc)
  end.
(** [__initialized] is the variable of the guard. *)
Definition ina_init (step : start_step -> Z) (__initialized : bool) : bool * list start_step * Z :=
  if __initialized then (true, [], INA_SUCCESS) else let (l, rc) := run_start step start_steps in (true, l, rc).

(** ** The path of the program *)

Definition PATH_FAILED : Z := INA_ERR_OPERATION_FAILED.
Definition PATH_TOO_SMALL : Z := Z.lor (INA_ES S_BUFFER) (INA_ERR E_TOO_SMALL).

(** [readlink] gives at most as many characters as the buffer has, [None] on failure; [size]
    is that of the string. *)
Definition __ina_get_binpath (readlink : Z -> option text) (size : Z) : result text :=
  match readlink size with
  | None => Err PATH_FAILED
  | Some p => if size <=? Z.of_nat (length p) then Err PATH_TOO_SMALL else Ok p
  end.

(** The path that [ina_app_init] keeps: the name it was started by, if the link cannot be read.
    The length in the header of the string stays 0. *)
Definition app_path (readlink : Z -> option text) (argv0 : text) : text * Z :=
  match __ina_get_binpath readlink 257 with
  | Ok p => (p, 0)
  | Err _ => (argv0, Z.of_nat (length argv0))
  end.

(** ** Usage *)

Definition lit := bytes_of_string.
Definition usage_names (s l : text) : text :=
  if negb (length s =? 0)%nat then lit " -" ++ s ++ lit " | --" ++ l else lit " --" ++ l.
Definition usage_kind (t : ina_opt_type) : text :=
  match t with
  | INA_OPT_TYPE_FLAG => []
  | INA_OPT_TYPE_STRING => lit "= [STRING] "
  | _ => lit "= [INT] "
  end.
Definition usage_line (s l desc : text) : text :=
  if negb (length s =? 0)%nat then lit "   -" ++ s ++ lit " | --" ++ l ++ lit " , " ++ desc ++ [10]
  else lit "        --" ++ l ++ lit " , " ++ desc ++ [10].

Definition each_option (f : sopt -> text -> text) (o : options) : option text :=
  (fun ls => concat ls) <$> mapM (fun lo => so ← heap o !! lo.2; Some (f so lo.1)) (__lopt o).
Definition __ina_opt_usage (appname : text) (o : options) : option text :=
  a ← each_option (fun so l => usage_names (so_opt so) l ++ usage_kind (so_type so)) o;
  b ← each_option (fun so l => usage_line (so_opt so) l (so_desc so)) o;
  Some (lit "USAGE: " ++ appname ++ lit " " ++ a ++ [10; 10] ++ b).

(** ** The end *)

(** The blocks of [malloc] that the options have. *)
Inductive block : Set := SoptDesc (i : nat) | SoptName (i : nat) | SoptValue (i : nat) | SoptItself (i : nat) | LoptName (i : nat) | LoptItself (i : nat).
#[export] Instance block_eq_dec : EqDecision block.
Proof. solve_decision. Defined.

Definition sopt_blocks (o : options) (i : nat) : list block :=
  [SoptDesc i; SoptName i] ++ (match heap o !! i with Some so => if so_value so then [SoptValue i] else [] | None => [] end) ++ [SoptItself i].
Definition lopt_blocks (i : nat) : list block := [LoptName i; LoptItself i].
(** A string that is null is not freed. *)
Definition __ina_free_sopt (o : options) (i : nat) : list block := sopt_blocks o i.
Definition __ina_free_lopt (i : nat) : list block := lopt_blocks i.

Inductive exit_step : Set :=
  | Cleanup | ResetConsole | DestroyCpu | Free (bs : list block) | FreeSoptList | FreeLoptList
  | FreeNames | DestroyHashtables | DestroyLog | DestroyErrors.

(** The pointers [__sopt] and [__lopt] are [None] when they are null. *)
Record library := Library { lib_options : options; sopt_list : option (list nat); lopt_list : option (list nat); __cleanup : bool; __destroyed : bool }.

(** The library after [ina_app_init] with and without a description of options. *)
Definition started (o : options) (cleanup : bool) : library :=
  Library o (Some (__sopt o)) (Some (seq 0 (length (__lopt o)))) cleanup false.
Definition started_without (cleanup : bool) : library := Library no_options None None cleanup false.

(** The handler is told by its presence; the result has the one before. *)
Definition ina_set_cleanup_handler (handler : bool) (l : library) : library * bool :=
  (Library (lib_options l) (sopt_list l) (lopt_list l) handler (__destroyed l), __cleanup l).

Definition ina_exit (l : library) : library * list exit_step :=
  if __destroyed l then (l, []) else
  let l := Library (lib_options l) (sopt_list l) (lopt_list l) (__cleanup l) true in
  let steps := (if __cleanup l then [Cleanup] else []) ++ [ResetConsole; DestroyCpu] in
  let '(l, steps) :=
    if lopt_list l then
      (Library (lib_options l) None (lopt_list l) (__cleanup l) true,
       steps ++ [Free (concat (map (__ina_free_sopt (lib_options l)) (default [] (sopt_list l)))); FreeSoptList])
    else (l, steps) in
  let '(l, steps) :=
    if sopt_list l then
      (Library (lib_options l) (sopt_list l) None (__cleanup l) true,
       steps ++ [Free (concat (map __ina_free_lopt (default [] (lopt_list l)))); FreeLoptList])
    else (l, steps) in
  (l, steps ++ [FreeNames; DestroyHashtables; DestroyLog; DestroyErrors]).

(** All that the options have, and what the end of the library frees. *)
Definition allocated (o : options) : list block :=
  concat (map (sopt_blocks o) (seq 0 (length (heap o)))) ++ concat (map lopt_blocks (seq 0 (length (__lopt o)))).
Definition freed (ss : list exit_step) : list block :=
  concat (map (fun s => match s with Free bs => bs | _ => [] end) ss).

(** ** What is done *)

(** The start stops at the first part that fails, and is not repeated: the next call succeeds. *)
Lemma run_start_spec (step : start_step -> Z) (ss : list start_step) :
  let (l, rc) := run_start step ss in
  if INA_FAILED rc then exists s rest, ss = l ++ rest /\ last l = Some s /\ checked s = true /\ step s = rc
  else l = ss /\ rc = INA_SUCCESS.
Proof.
  induction ss as [|s ss IH]; cbn [run_start]; [done|]. destruct (checked s && INA_FAILED (step s)) eqn:Hc.
  - apply andb_true_iff in Hc as [Hc ->]. by exists s, ss.
  - destruct (run_start step ss) as [l rc]. destruct (INA_FAILED rc).
    + destruct IH as (s' & rest & -> & Hl & Hc' & Hs). exists s', rest. split; [done|]. split; [|done]. destruct l; [done|exact Hl].
    + by destruct IH as [-> ->].
Qed.

Theorem start_is_tried_once (step : start_step -> Z) (s : start_step) :
  s ∈ start_steps -> checked s = true -> INA_FAILED (step s) = true ->
  let '(initialized, _, rc) := ina_init step false in
  INA_FAILED rc = true /\ forall step', ina_init step' initialized = (true, [], INA_SUCCESS).
Proof.
  intros Hs Hc Hf. unfold ina_init. pose proof (run_start_spec step start_steps) as H.
  assert (forall ss, s ∈ ss -> INA_FAILED (run_start step ss).2 = true) as Hall.
  { intros ss. induction ss as [|t ss IH]; intros Hin; [by apply elem_of_nil in Hin|]. cbn [run_start].
    destruct (checked t && INA_FAILED (step t)) eqn:Ht; [by apply andb_true_iff in Ht as [_ Ht]|].
    apply elem_of_cons in Hin as [<-|Hin]; [by rewrite Hc, Hf in Ht|]. specialize (IH Hin). by destruct (run_start step ss). }
  specialize (Hall _ Hs). destruct (run_start step start_steps) as [l rc]. by split.
Qed.
Lemma start_is_tried_once_witness :
  let step := fun s => match s with InitCpu => INA_RC_PACK 0 INA_ERR_OPERATION_FAILED 0 | _ => INA_SUCCESS end in
  let '(initialized, _, rc) := ina_init step false in
  INA_FAILED rc = true /\ forall step', ina_init step' initialized = (true, [], INA_SUCCESS).
Proof. intros step. apply (start_is_tried_once step InitCpu); [apply list_elem_of_In; vm_compute; tauto|vm_compute; reflexivity|vm_compute; reflexivity]. Defined.

Lemma freed_app (a b : list exit_step) : freed (a ++ b) = freed a ++ freed b.
Proof. unfold freed. by rewrite map_app, concat_app. Qed.

Lemma exit_frees (o : options) (c : bool) :
  freed (ina_exit (started o c)).2 = concat (map (sopt_blocks o) (__sopt o)).
Proof.
  unfold ina_exit, started. cbn [__destroyed lopt_list sopt_list lib_options __cleanup default snd].
  rewrite !freed_app. destruct c; cbn; rewrite ?app_nil_r; done.
Qed.

Definition block_owner (b : block) : nat :=
  match b with SoptDesc i | SoptName i | SoptValue i | SoptItself i | LoptName i | LoptItself i => i end.
Lemma sopt_blocks_owner (o : options) (i : nat) (b : block) : b ∈ sopt_blocks o i -> block_owner b = i.
Proof.
  unfold sopt_blocks. intros Hb. destruct (heap o !! i) as [so|]; [destruct (so_value so)|];
    cbn [app] in Hb; repeat (apply elem_of_cons in Hb as [->|Hb]; [done|]); by apply elem_of_nil in Hb.
Qed.
Lemma sopt_blocks_NoDup (o : options) (i : nat) : NoDup (sopt_blocks o i).
Proof.
  unfold sopt_blocks. destruct (heap o !! i) as [so|]; [destruct (so_value so)|]; cbn [app];
    repeat (apply NoDup_cons; split; [set_solver|]); apply NoDup_nil_2.
Qed.
Lemma all_sopt_blocks_NoDup (o : options) (l : list nat) : NoDup l -> NoDup (concat (map (sopt_blocks o) l)).
Proof.
  induction 1 as [|i l Hi Hl IH]; cbn [map concat]; [apply NoDup_nil_2|]. apply NoDup_app. split_and!; [apply sopt_blocks_NoDup| |done].
  intros b Hb Hin. apply sopt_blocks_owner in Hb. apply list_elem_of_In, in_concat in Hin as (bs & Hbs & Hin).
  apply in_map_iff in Hbs as (j & <- & Hj). apply list_elem_of_In, sopt_blocks_owner in Hin. apply Hi. apply list_elem_of_In. congruence.
Qed.
Lemma elem_of_blocks (f : nat -> list block) (l : list nat) (b : block) : b ∈ concat (map f l) <-> exists i, i ∈ l /\ b ∈ f i.
Proof.
  rewrite list_elem_of_In, in_concat. setoid_rewrite in_map_iff. setoid_rewrite list_elem_of_In.
  split; [intros (bs & (i & <- & Hi) & Hb); eauto|intros (i & Hi & Hb); eauto].
Qed.

Lemma elem_of_short_addresses (opts : list opt) (k i : nat) :
  i ∈ short_addresses k opts <-> exists d j, opts !! j = Some d /\ i = (k + j)%nat /\ o_short d <> [].
Proof.
  revert k. induction opts as [|d opts IH]; intros k; cbn [short_addresses].
  - rewrite elem_of_nil. split; [done|]. intros (d & j & H & _). by rewrite lookup_nil in H.
  - rewrite elem_of_app, IH. split.
    + intros [Hi|(d' & j & Hd & -> & Hn)]; [|exists d', (S j); split_and!; [done|lia|done]].
      destruct (o_short d) eqn:Hs; cbn in Hi; [by apply elem_of_nil in Hi|]. apply list_elem_of_singleton in Hi as ->.
      exists d, O. split_and!; [done|lia|congruence].
    + intros (d' & [|j] & Hd & -> & Hn); cbn in Hd; [|right; exists d', j; split_and!; [done|lia|done]].
      injection Hd as <-. left. destruct (o_short d); [done|]. cbn. apply list_elem_of_singleton. lia.
Qed.
Lemma NoDup_short_addresses (opts : list opt) (k : nat) : NoDup (short_addresses k opts).
Proof.
  revert k. induction opts as [|d opts IH]; intros k; cbn [short_addresses]; [apply NoDup_nil_2|].
  apply NoDup_app. split_and!; [|intros i Hi (d' & j & _ & -> & _)%elem_of_short_addresses|apply IH].
  - destruct (length (o_short d) =? 0)%nat; [apply NoDup_nil_2|apply NoDup_singleton].
  - destruct (length (o_short d) =? 0)%nat; [by apply elem_of_nil in Hi|]. apply list_elem_of_singleton in Hi. lia.
Qed.

(** The end of the library frees nothing twice and nothing that was not allocated, but only the
    options with a short name, and no long option; it is done once. *)
Theorem exit_frees_short_options (opts : list opt) (o : options) (c : bool) :
  registered opts o ->
  let '(l, steps) := ina_exit (started o c) in
  NoDup (freed steps) /\ (forall b, b ∈ freed steps -> b ∈ allocated o) /\
  (forall i d, opts !! i = Some d ->
    (o_short d <> [] -> forall b, b ∈ sopt_blocks o i -> b ∈ freed steps) /\
    (o_short d = [] -> SoptItself i ∉ freed steps) /\ LoptItself i ∉ freed steps) /\
  ina_exit l = (l, []).
Proof.
  intros Hr. pose proof (exit_frees o c) as Hf. assert (__destroyed (ina_exit (started o c)).1 = true) as Hd by done.
  destruct (ina_exit (started o c)) as [l steps]. cbn [fst snd] in *. rewrite Hf, (reg_short _ _ Hr).
  assert (length (heap o) = length opts) as Hlen by (rewrite <- (length_map so_opt), (reg_names _ _ Hr); apply length_map).
  split_and!.
  - apply all_sopt_blocks_NoDup, NoDup_short_addresses.
  - intros b (i & (d & j & Hj & -> & _)%elem_of_short_addresses & Hb)%elem_of_blocks. unfold allocated. apply elem_of_app. left.
    apply elem_of_blocks. exists (0 + j)%nat. split; [|done]. apply elem_of_seq. apply lookup_lt_Some in Hj. lia.
  - intros i d Hi. split_and!.
    + intros Hn b Hb. apply elem_of_blocks. exists i. split; [|done]. apply elem_of_short_addresses. by exists d, i.
    + intros Hn (j & (d' & k & Hk & -> & Hd')%elem_of_short_addresses & Hb)%elem_of_blocks. apply sopt_blocks_owner in Hb. cbn in Hb. congruence.
    + intros (j & _ & Hb)%elem_of_blocks. unfold sopt_blocks in Hb. destruct (heap o !! j) as [so|]; [destruct (so_value so)|];
        cbn [app] in Hb; repeat (apply elem_of_cons in Hb as [Hb|Hb]; [done|]); by apply elem_of_nil in Hb.
  - unfold ina_exit. by rewrite Hd.
Qed.

(** The usage of two options; a number with a fraction is said to be an integer. *)
Example usage_of_two :
  __ina_opt_usage (lit "prog") (Options
    [Sopt (lit "r") None (lit "rate") INA_OPT_TYPE_FLOAT; Sopt [] None (lit "say more") INA_OPT_TYPE_FLAG] [0%nat]
    [(lit "rate", 0%nat); (lit "verbose", 1%nat)]) =
  Some (lit "USAGE: prog  -r | --rate= [INT]  --verbose" ++ [10; 10] ++ lit "   -r | --rate , rate" ++ [10] ++ lit "        --verbose , say more" ++ [10]).
Proof. vm_compute. reflexivity. Qed.
End LibExit.
