(* ===== verification/MemAlloc.v ===== *)
(** * Blocks of memory (memory.c, memory.h)

    [ina_mem_alloc] and its relatives keep the address that [malloc] gave in the word below the
    pointer they hand out.  Memory is a map from addresses to bytes with the sizes of the blocks of [malloc]; where [malloc] and
    [realloc] put a block and what is in it are arguments.  An access to memory
    that is not allocated makes an operation [None].  The arithmetic of the addresses is that of Mempool.v. *)
From Stdlib Require Import ZArith Lia Bool.
From stdpp Require Import base numbers option fin_maps gmap list.
From S2P Require Import Prelude Error Hash Hashtable Mempool.

Module MemAlloc.
Import Error Hash Hashtable Mempool.

(** ** The functions of the C library *)

Record mem := Mem { bytes : gmap Z Z; sizes : gmap Z Z }.

Definition range (a n : Z) : list Z := seqZ a n.
Definition load (m : mem) (a n : Z) : option (list Z) := mapM (fun i => bytes m !! i) (range a n).
Definition put (a : Z) (bs : list Z) (h : gmap Z Z) : gmap Z Z :=
  list_to_map (zip (range a (Z.of_nat (length bs))) bs) ∪ h.
Definition store (m : mem) (a : Z) (bs : list Z) : option mem :=
  _ ← load m a (Z.of_nat (length bs));
  Some (Mem (put a bs (bytes m)) (sizes m)).

(** [malloc] at the address [p], 0 if there is no memory. *)
Definition malloc (p n : Z) (garbage : list Z) (m : mem) : mem * Z :=
  if p =? 0 then (m, 0)
  else (Mem (put p (take (Z.to_nat n) (garbage ++ repeat 0 (Z.to_nat n))) (bytes m)) (<[p := n]> (sizes m)), p).
Definition in_range (a n i : Z) : bool := (a <=? i) && (i <? a + n).
Definition free (p : Z) (m : mem) : option mem :=
  n ← sizes m !! p;
  Some (Mem (filter (fun x => in_range p n x.1 = false) (bytes m)) (delete p (sizes m))).
Definition realloc (p n p' : Z) (garbage : list Z) (m : mem) : option (mem * Z) :=
  n0 ← sizes m !! p;
  if p' =? 0 then Some (m, 0) else
  bs ← load m p (Z.min n0 n);
  m ← free p m;
  m ← store (malloc p' n garbage m).1 p' bs;
  Some (m, p').

(** ** The operations *)

Definition load_ptr (m : mem) (a : Z) : option Z := bs ← load m a 8; Some (le_value bs).
Definition store_ptr (m : mem) (a p : Z) : option mem := store m a (le_bytes 8 p).

Section Operations.
Variable garbage : Z -> list Z.

(** [p] is where [malloc] or [realloc] put a block of the size they are asked for.  The address
    of the result is 0 for the null pointer. *)
Definition mem_alloc_aligned (alignment size : Z) (p : Z -> Z) (m : mem) : option (mem * result Z) :=
  match ina_mem_alloc_aligned alignment size p with
  | Err e => Some (m, Err e)
  | Ok ptr =>
      if ptr =? 0 then Some (m, Ok 0) else
      let nb := u64 (size + alignment - 1 + sizeof_ptr) in
      let (m, p) := malloc (p nb) nb (garbage nb) m in
      m ← store_ptr m (ptr - sizeof_ptr) p;
      Some (m, Ok ptr)
  end.
Definition ina_mem_alloc (size : Z) (p : Z -> Z) (m : mem) : option (mem * result Z) := mem_alloc_aligned sizeof_ptr size p m.

Definition ina_mem_free (ptr : Z) (m : mem) : option mem := p ← load_ptr m (u64 (ptr - sizeof_ptr)); free p m.

(** The result of [realloc] is not tested. *)
Definition ina_mem_realloc (ptr nb : Z) (p' : Z -> Z) (m : mem) : option (mem * Z) :=
  p ← load_ptr m (u64 (ptr - sizeof_ptr));
  if nb =? 0 then m ← ina_mem_free ptr m; Some (m, 0) else
  let n := u64 (nb + sizeof_ptr - 1 + sizeof_ptr) in
  '(m, p) ← realloc p n (p' n) (garbage n) m;
  let ptr := ina_mem_realloc_ptr p in
  m ← store_ptr m (ptr - sizeof_ptr) p;
  Some (m, ptr).
End Operations.

(** ** Bytes *)

Lemma seqZ_zip_lookup (a : Z) (bs : list Z) (i : Z) :
  (list_to_map (zip (seqZ a (Z.of_nat (length bs))) bs) : gmap Z Z) !! i =
  if in_range a (Z.of_nat (length bs)) i then bs !! Z.to_nat (i - a) else None.
Proof.
  revert a. induction bs as [|b bs IH]; intros a; cbn [length].
  - unfold in_range. destruct (Z.leb_spec a i), (Z.ltb_spec i (a + Z.of_nat 0)); try lia; cbn; by rewrite ?lookup_empty.
  - rewrite seqZ_cons by lia. cbn [zip zip_with list_to_map foldr uncurry].
    replace (Z.pred (Z.of_nat (S (length bs)))) with (Z.of_nat (length bs)) by lia.
    destruct (decide (i = a)) as [->|Hi].
    + change ((<[a:=b]> (list_to_map (zip (seqZ (Z.succ a) (Z.of_nat (length bs))) bs) : gmap Z Z)) !! a = if in_range a (Z.of_nat (S (length bs))) a then (b :: bs) !! Z.to_nat (a - a) else None).
      rewrite lookup_insert_eq. unfold in_range. rewrite Z.sub_diag. destruct (Z.leb_spec a a), (Z.ltb_spec a (a + Z.of_nat (S (length bs)))); try lia. done.
    + change ((<[a:=b]> (list_to_map (zip (seqZ (Z.succ a) (Z.of_nat (length bs))) bs) : gmap Z Z)) !! i = if in_range a (Z.of_nat (S (length bs))) i then (b :: bs) !! Z.to_nat (i - a) else None).
      rewrite lookup_insert_ne, IH by done. unfold in_range.
      destruct (Z.leb_spec (Z.succ a) i), (Z.leb_spec a i), (Z.ltb_spec i (Z.succ a + Z.of_nat (length bs))), (Z.ltb_spec i (a + Z.of_nat (S (length bs)))); try lia; try done.
      cbn [andb]. by replace (Z.to_nat (i - a)) with (S (Z.to_nat (i - Z.succ a))) by lia.
Qed.

Lemma lookup_put (a : Z) (bs : list Z) (h : gmap Z Z) (i : Z) :
  put a bs h !! i = if in_range a (Z.of_nat (length bs)) i then bs !! Z.to_nat (i - a) else h !! i.
Proof.
  unfold put. rewrite lookup_union, seqZ_zip_lookup. destruct (in_range _ _ i) eqn:Hr; [|by destruct (h !! i)].
  unfold in_range in Hr. destruct (lookup_lt_is_Some_2 bs (Z.to_nat (i - a))) as [x ->]; [lia|]. by destruct (h !! i).
Qed.

Lemma load_Some (m : mem) (a n : Z) (bs : list Z) : 0 <= n ->
  load m a n = Some bs <-> Z.of_nat (length bs) = n /\ forall i, in_range a n i = true -> bytes m !! i = bs !! Z.to_nat (i - a).
Proof.
  intros Hn. unfold load. rewrite mapM_Some. split.
  - intros HF. pose proof (Forall2_length _ _ _ HF) as Hl. rewrite length_seqZ in Hl. split; [lia|].
    intros i Hi. unfold in_range in Hi. destruct (lookup_lt_is_Some_2 bs (Z.to_nat (i - a))) as [x Hx]; [lia|].
    rewrite Hx. eapply Forall2_lookup_lr in HF; [exact HF| |exact Hx]. apply lookup_seqZ. lia.
  - intros [Hl Hb]. apply Forall2_same_length_lookup. rewrite length_seqZ. split; [lia|].
    intros k x y Hx Hy. apply lookup_seqZ in Hx as [-> Hk]. rewrite Hb, <- Hy by (unfold in_range; lia). f_equal. lia.
Qed.

Lemma store_load (m : mem) (a n : Z) (bs : list Z) : 0 <= n -> Z.of_nat (length bs) = n ->
  (forall i, in_range a n i = true -> is_Some (bytes m !! i)) ->
  store m a bs = Some (Mem (put a bs (bytes m)) (sizes m)).
Proof.
  intros Hn Hl Ha. unfold store. rewrite Hl. assert (exists cs, load m a n = Some cs) as [cs ->]; [|done].
  unfold load. apply mapM_is_Some_2. apply Forall_forall. intros i Hi. apply Ha. unfold range in Hi.
  apply elem_of_seqZ in Hi. unfold in_range. lia.
Qed.

Lemma le_value_bytes (n : nat) (x : Z) : 0 <= x < 2 ^ (8 * Z.of_nat n) -> le_value (le_bytes n x) = x.
Proof.
  revert x. induction n as [|n IH]; intros x Hx; [simpl in *; lia|]. cbn [le_bytes le_value fold_right]. fold (le_value (le_bytes n (x / 2 ^ 8))).
  rewrite IH; [change (2 ^ 8) with 256; dlia|]. replace (8 * Z.of_nat (S n)) with (8 + 8 * Z.of_nat n) in Hx by lia.
  rewrite Z.pow_add_r in Hx by lia. split; [apply Z.div_pos; lia|apply Z.div_lt_upper_bound; lia].
Qed.

(** ** What the operations promise *)

(** [ptr] is what [ina_mem_alloc] gave for [n] bytes, which are now [c]: the block of [malloc]
    begins a word below, where its address is. *)
Definition block_size (n : Z) : Z := n + 15.
Record owned (m : mem) (ptr n : Z) (c : list Z) : Prop := {
  ow_base : 8 < ptr /\ ptr mod 8 = 0 /\ 0 < n /\ ptr - 8 + block_size n <= 2 ^ 64;
  ow_size : sizes m !! (ptr - 8) = Some (block_size n);
  ow_bytes i : in_range (ptr - 8) (block_size n) i = true -> is_Some (bytes m !! i);
  ow_word : load m (ptr - 8) 8 = Some (le_bytes 8 (ptr - 8));
  ow_content : load m ptr n = Some c
}.

(** What [malloc] guarantees: an aligned address of memory that nobody has. *)
Definition fits (m : mem) (p n : Z) : Prop :=
  0 < p /\ p mod 8 = 0 /\ p + n <= 2 ^ 64 /\ forall i, in_range p n i = true -> bytes m !! i = None.
Definition apart (q k p n : Z) : Prop := q + k <= p \/ p + n <= q.

Lemma align_base (p : Z) : 0 < p -> p mod 8 = 0 -> p + 15 < 2 ^ 64 -> Z.ldiff (u64 (p + 15)) 7 = p + 8.
Proof.
  intros Hp Hm Hb. rewrite wrap_small by (unfold in_width; lia). change 7 with (2 ^ 3 - 1). rewrite ldiff_pow2 by lia.
  change (2 ^ 3) with 8. dlia.
Qed.

Lemma load_agree (m m' : mem) (a n : Z) : (forall i, in_range a n i = true -> bytes m' !! i = bytes m !! i) -> load m' a n = load m a n.
Proof.
  intros H. unfold load. assert (forall i, i ∈ range a n -> bytes m' !! i = bytes m !! i) as Hr.
  { intros i Hi. unfold range in Hi. apply elem_of_seqZ in Hi. apply H. unfold in_range. lia. }
  clear H. revert Hr. generalize (range a n). induction l as [|x l IH]; intros Hl; [done|]. cbn.
  rewrite Hl by (apply elem_of_cons; by left). destruct (bytes m !! x); [|done]. cbn.
  rewrite IH; [done|]. intros i Hi. apply Hl. apply elem_of_cons. by right.
Qed.

Lemma load_put (h : gmap Z Z) (sz : gmap Z Z) (a : Z) (bs : list Z) :
  load (Mem (put a bs h) sz) a (Z.of_nat (length bs)) = Some bs.
Proof. apply load_Some; [lia|]. split; [done|]. intros i Hi. cbn [bytes]. by rewrite lookup_put, Hi. Qed.

(** A block whose bytes and size are as before is still owned. *)
Lemma owned_frame (m m' : mem) (q k : Z) (d : list Z) :
  owned m q k d -> (forall i, in_range (q - 8) (block_size k) i = true -> bytes m' !! i = bytes m !! i) ->
  sizes m' !! (q - 8) = sizes m !! (q - 8) -> owned m' q k d.
Proof.
  intros [Hb Hs Hy Hw Hc] Hbytes Hsizes. split; [done|by rewrite Hsizes|intros i Hi; rewrite Hbytes by done; by apply Hy| |].
  - rewrite <- Hw. apply load_agree. intros i Hi. apply Hbytes. unfold in_range, block_size in *. lia.
  - rewrite <- Hc. apply load_agree. intros i Hi. apply Hbytes. unfold in_range, block_size in *. lia.
Qed.

Definition filled (n : Z) (g : list Z) : list Z := take (Z.to_nat n) (g ++ repeat 0 (Z.to_nat n)).
Lemma length_filled (n : Z) (g : list Z) : 0 <= n -> Z.of_nat (length (filled n g)) = n.
Proof. intros Hn. unfold filled. rewrite length_take, length_app, repeat_length. lia. Qed.

(** The memory after the address [p] was stored in a new block of it. *)
Lemma store_ptr_new (m : mem) (p n : Z) : 0 < p -> p + block_size n <= 2 ^ 64 -> 0 < n -> p mod 8 = 0 ->
  (forall i, in_range p (block_size n) i = true -> is_Some (bytes m !! i)) -> sizes m !! p = Some (block_size n) ->
  exists m' c, store_ptr m p p = Some m' /\ owned m' (p + 8) n c /\ load m (p + 8) n = Some c /\ sizes m' = sizes m /\
    (forall i, in_range p 8 i = false -> bytes m' !! i = bytes m !! i).
Proof.
  intros Hp Hb Hn Hm Hy Hs. unfold block_size in *.
  assert (exists c, load m (p + 8) n = Some c) as [c Hc].
  { unfold load. apply mapM_is_Some_2. apply Forall_forall. intros i Hi. apply Hy. unfold range in Hi.
    apply elem_of_seqZ in Hi. unfold in_range. lia. }
  unfold store_ptr. rewrite (store_load m p 8) by (lia || done || (intros i Hi; apply Hy; unfold in_range in *; lia)).
  assert (forall i, in_range p 8 i = false -> put p (le_bytes 8 p) (bytes m) !! i = bytes m !! i) as Hout.
  { intros i Hi. rewrite lookup_put. change (Z.of_nat (length (le_bytes 8 p))) with 8. by rewrite Hi. }
  eexists _, c. split; [reflexivity|]. split; [|by split_and!]. replace p with (p + 8 - 8) in Hs, Hy by lia.
  split; unfold block_size; cbn [sizes bytes].
  - split_and!; try lia. dlia.
  - exact Hs.
  - intros i Hi. rewrite lookup_put. destruct (in_range p _ i) eqn:Hr; [|by apply Hy].
    unfold in_range in Hr. apply lookup_lt_is_Some_2. lia.
  - replace (p + 8 - 8) with p by lia. apply (load_put (bytes m) (sizes m) p (le_bytes 8 p)).
  - rewrite <- Hc. apply load_agree. intros i Hi. cbn [bytes]. apply Hout. unfold in_range in *. lia.
Qed.

(** What is done to new memory changes no block. *)
Lemma owned_fresh (m m' : mem) (p n : Z) (q k : Z) (d : list Z) :
  (forall i, in_range p n i = true -> bytes m !! i = None) ->
  (forall i, in_range p n i = false -> bytes m' !! i = bytes m !! i) -> 0 < n ->
  (forall x, x <> p -> sizes m' !! x = sizes m !! x) ->
  owned m q k d -> owned m' q k d.
Proof.
  intros Hnone Hsame Hn Hsz Ho.
  assert (forall i, in_range (q - 8) (block_size k) i = true -> in_range p n i = false) as Hd.
  { intros i Hi. apply (ow_bytes _ _ _ _ Ho) in Hi as [x Hx]. destruct (in_range p n i) eqn:Hr; [|done].
    rewrite (Hnone i Hr) in Hx. done. }
  apply (owned_frame m m'); [done|intros i Hi; by apply Hsame, Hd|]. apply Hsz. intros He.
  pose proof (ow_base _ _ _ _ Ho). assert (in_range p n (q - 8) = false) as Hf by (apply Hd; unfold in_range, block_size; lia).
  unfold in_range in Hf. lia.
Qed.

Lemma malloc_new (m : mem) (p n : Z) (g : list Z) : p <> 0 -> 0 <= n ->
  malloc p n g m = (Mem (put p (filled n g) (bytes m)) (<[p := n]> (sizes m)), p) /\
  (forall i, in_range p n i = true -> is_Some (put p (filled n g) (bytes m) !! i)) /\
  (forall i, in_range p n i = false -> put p (filled n g) (bytes m) !! i = bytes m !! i).
Proof.
  intros Hp Hn. unfold malloc. destruct (Z.eqb_spec p 0); [done|]. fold (filled n g). split; [done|].
  split; intros i Hi; rewrite lookup_put, length_filled, Hi by lia; [|done].
  pose proof (length_filled n g Hn). unfold in_range in Hi. apply lookup_lt_is_Some_2. lia.
Qed.

(** [ina_mem_alloc] gives a block that can be used, and leaves all others as they are. *)
Theorem mem_alloc_owns (garbage : Z -> list Z) (size : Z) (pf : Z -> Z) (m : mem) :
  0 < size -> size + 15 < 2 ^ 64 -> let p := pf (block_size size) in fits m p (block_size size) ->
  exists m' c, ina_mem_alloc garbage size pf m = Some (m', Ok (p + 8)) /\ owned m' (p + 8) size c /\
    forall q k d, owned m q k d -> owned m' q k d.
Proof.
  intros Hs Hb p (Hp & Hm & Hw & Hf). unfold ina_mem_alloc, mem_alloc_aligned, ina_mem_alloc_aligned, sizeof_ptr.
  replace (size + 8 - 1 + 8) with (block_size size) by (unfold block_size; lia).
  rewrite (wrap_small 64 (block_size size)) by (unfold in_width, block_size; lia). fold p. unfold block_size in *.
  destruct (Z.eqb_spec size 0); [lia|]. change (8 =? 0) with false. cbn iota. destruct (Z.eqb_spec p 0); [lia|].
  replace (p + 8 + 8 - 1) with (p + 15) by lia. change (8 - 1) with 7. rewrite align_base by lia. destruct (Z.eqb_spec (p + 8) 0); [lia|].
  destruct (malloc_new m p (size + 15) (garbage (size + 15))) as (-> & Hin & Hout); [lia|lia|]. replace (p + 8 - 8) with p by lia.
  destruct (store_ptr_new (Mem (put p (filled (size + 15) (garbage (size + 15))) (bytes m)) (<[p := size + 15]> (sizes m))) p size)
    as (m' & c & -> & Ho & _ & Hsz & Hby); try done; [by cbn [sizes]; rewrite lookup_insert_eq|].
  exists m', c. split; [done|]. split; [done|]. intros q k d. apply (owned_fresh m m' p (size + 15)); [done| |lia|].
  - intros i Hi. rewrite Hby; [by apply Hout|]. unfold in_range in *. lia.
  - intros x Hx. rewrite Hsz. cbn [sizes]. by rewrite lookup_insert_ne.
Qed.

(** [ina_mem_free] gives the whole block back. *)
Lemma mem_free_block (m : mem) (ptr n : Z) (c : list Z) : owned m ptr n c ->
  load_ptr m (u64 (ptr - 8)) = Some (ptr - 8) /\
  free (ptr - 8) m = Some (Mem (filter (fun x => in_range (ptr - 8) (block_size n) x.1 = false) (bytes m)) (delete (ptr - 8) (sizes m))).
Proof.
  intros [(Hp & Hm & Hn & Hb) Hs Hy Hw Hc]. unfold block_size in *. rewrite wrap_small by (unfold in_width; lia). split.
  - unfold load_ptr. rewrite Hw. cbn [mbind option_bind]. rewrite le_value_bytes; [done|]. change (8 * Z.of_nat 8) with 64. lia.
  - unfold free. by rewrite Hs.
Qed.

Definition freed (m : mem) (ptr n : Z) : mem :=
  Mem (filter (fun x => in_range (ptr - 8) (block_size n) x.1 = false) (bytes m)) (delete (ptr - 8) (sizes m)).
Lemma freed_lookup (m : mem) (ptr n i : Z) : bytes (freed m ptr n) !! i = if in_range (ptr - 8) (block_size n) i then None else bytes m !! i.
Proof.
  unfold freed. cbn [bytes]. destruct (in_range (ptr - 8) (block_size n) i) eqn:Hr.
  - apply map_lookup_filter_None. right. intros x _. cbn [fst]. congruence.
  - destruct (bytes m !! i) as [x|] eqn:Hx; [by apply map_lookup_filter_Some|]. apply map_lookup_filter_None. by left.
Qed.

Lemma owned_freed (m : mem) (ptr n q k : Z) (d : list Z) : apart (q - 8) (block_size k) (ptr - 8) (block_size n) -> 0 < n ->
  owned m q k d -> owned (freed m ptr n) q k d.
Proof.
  intros Ha Hn Ho. pose proof (ow_base _ _ _ _ Ho). unfold apart, block_size in *. apply (owned_frame m); [done| |].
  - intros i Hi. rewrite freed_lookup. unfold in_range, block_size in *. destruct ((ptr - 8 <=? i) && (i <? ptr - 8 + (n + 15))) eqn:Hr; [lia|done].
  - unfold freed. cbn [sizes]. apply lookup_delete_ne. lia.
Qed.

(** [realloc] of the C library on a block of the library: its first bytes are at the new place. *)
Lemma realloc_block (m : mem) (ptr n nb p' : Z) (c g : list Z) :
  owned m ptr n c -> 0 < nb -> fits (freed m ptr n) p' (block_size nb) ->
  exists m', realloc (ptr - 8) (block_size nb) p' g m = Some (m', p') /\
    (forall i, in_range p' (block_size nb) i = true -> is_Some (bytes m' !! i)) /\
    (forall i, in_range p' (block_size nb) i = false -> bytes m' !! i = bytes (freed m ptr n) !! i) /\
    sizes m' = <[p' := block_size nb]> (sizes (freed m ptr n)) /\
    (forall j, 0 <= j < Z.min n nb -> bytes m' !! (p' + 8 + j) = c !! Z.to_nat j).
Proof.
  intros Ho Hnb (Hp & Hm & Hw & Hf). pose proof (ow_base _ _ _ _ Ho) as (_ & _ & Hn & _).
  unfold realloc. rewrite (ow_size _ _ _ _ Ho). cbn [mbind option_bind]. destruct (Z.eqb_spec p' 0); [lia|].
  set (k := Z.min (block_size n) (block_size nb)). assert (0 <= k) by (unfold k, block_size; lia).
  assert (exists bs, load m (ptr - 8) k = Some bs) as [bs Hbs].
  { unfold load. apply mapM_is_Some_2. apply Forall_forall. intros i Hi. apply (ow_bytes _ _ _ _ Ho). unfold range in Hi.
    apply elem_of_seqZ in Hi. unfold in_range, k in *. lia. }
  rewrite Hbs. cbn [mbind option_bind]. apply load_Some in Hbs as [Hlen Hbs]; [|done].
  rewrite (proj2 (mem_free_block m ptr n c Ho)). cbn [mbind option_bind]. fold (freed m ptr n).
  destruct (malloc_new (freed m ptr n) p' (block_size nb) g) as (-> & Hin & Hout); [lia|unfold block_size; lia|]. cbn [fst].
  rewrite (store_load _ p' k bs) by (done || (intros i Hi; apply Hin; unfold in_range, k in *; lia)).
  eexists. split; [reflexivity|]. cbn [bytes sizes]. split_and!.
  - intros i Hi. rewrite lookup_put. destruct (in_range p' (Z.of_nat (length bs)) i) eqn:Hr; [|by apply Hin].
    unfold in_range in Hr. apply lookup_lt_is_Some_2. lia.
  - intros i Hi. rewrite lookup_put. destruct (in_range p' (Z.of_nat (length bs)) i) eqn:Hr; [|by apply Hout].
    unfold in_range, k in *. lia.
  - done.
  - intros j Hj. rewrite lookup_put. destruct (in_range p' (Z.of_nat (length bs)) (p' + 8 + j)) eqn:Hr;
      [|unfold in_range, k, block_size in *; lia].
    replace (p' + 8 + j - p') with (ptr + j - (ptr - 8)) by lia. rewrite <- Hbs by (unfold in_range, k, block_size in *; lia).
    pose proof (ow_content _ _ _ _ Ho) as Hc. apply load_Some in Hc as [_ Hc]; [|lia].
    rewrite Hc by (unfold in_range; lia). f_equal. lia.
Qed.

(** [ina_mem_realloc] of a block of [ina_mem_alloc] gives a block of the new size with the content
    as far as it fits, wherever [realloc] puts it, and leaves all others as they are. *)
Theorem mem_realloc_keeps (garbage : Z -> list Z) (ptr n nb : Z) (pf : Z -> Z) (c : list Z) (m : mem) :
  owned m ptr n c -> 0 < nb -> nb + 15 < 2 ^ 64 -> let p' := pf (block_size nb) in fits (freed m ptr n) p' (block_size nb) ->
  exists m' c', ina_mem_realloc garbage ptr nb pf m = Some (m', p' + 8) /\ owned m' (p' + 8) nb c' /\
    take (Z.to_nat (Z.min n nb)) c' = take (Z.to_nat (Z.min n nb)) c /\
    forall q k d, owned m q k d -> apart (q - 8) (block_size k) (ptr - 8) (block_size n) -> owned m' q k d.
Proof.
  intros Ho Hnb Hb p' Hfits. pose proof Hfits as (Hp & Hm & Hw & Hf). pose proof (ow_base _ _ _ _ Ho) as (_ & _ & Hn & _).
  unfold ina_mem_realloc, sizeof_ptr. rewrite (proj1 (mem_free_block m ptr n c Ho)). cbn [mbind option_bind].
  destruct (Z.eqb_spec nb 0); [lia|]. replace (nb + 8 - 1 + 8) with (block_size nb) by (unfold block_size; lia).
  rewrite (wrap_small 64 (block_size nb)) by (unfold in_width, block_size; lia). fold p'.
  destruct (realloc_block m ptr n nb p' c (garbage (block_size nb)) Ho Hnb Hfits) as (m1 & -> & Hin & Hout & Hsz & Hc). cbn [mbind option_bind].
  unfold ina_mem_realloc_ptr, sizeof_ptr. replace (p' + 8 + 8 - 1) with (p' + 15) by lia. change (8 - 1) with 7. unfold block_size in *.
  rewrite align_base by lia. replace (p' + 8 - 8) with p' by lia.
  destruct (store_ptr_new m1 p' nb) as (m' & c' & -> & Ho' & Hl & Hsz' & Hby); try done; [by rewrite Hsz, lookup_insert_eq|].
  exists m', c'. cbn [mbind option_bind]. split; [done|]. split; [done|]. apply load_Some in Hl as [Hlc Hl]; [|lia]. split.
  - apply list_eq. intros i. pose proof (ow_content _ _ _ _ Ho) as Hcc. apply load_Some in Hcc as [Hlen _]; [|lia].
    destruct (decide (Z.of_nat i < Z.min n nb)); [|rewrite !lookup_take_ge by lia; done]. rewrite !lookup_take_lt by lia.
    replace i with (Z.to_nat (Z.of_nat i)) by lia. rewrite <- Hc by lia. rewrite Hl by (unfold in_range; lia). f_equal. lia.
  - intros q k d Hq Ha. apply (owned_fresh (freed m ptr n) m' p' (nb + 15)); [done| |lia| |by apply owned_freed].
    + intros i Hi. rewrite Hby; [by apply Hout|]. unfold in_range in *. lia.
    + intros x Hx. rewrite Hsz', Hsz. by rewrite lookup_insert_ne.
Qed.

Definition no_memory : mem := Mem ∅ ∅.
Definition zeros (_ : Z) : list Z := [].

(** Four bytes, written and moved. *)
Lemma mem_realloc_keeps_witness :
  exists m ptr, ina_mem_alloc zeros 4 (fun _ => 4096) no_memory = Some (m, Ok ptr) /\
  exists m1, store m ptr [1; 2; 3; 4] = Some m1 /\
  exists m2 c', ina_mem_realloc zeros ptr 6 (fun _ => 8192) m1 = Some (m2, 8192 + 8) /\ owned m2 (8192 + 8) 6 c' /\
    take 4 c' = [1; 2; 3; 4].
Proof.
  eexists _, _. split; [vm_compute; reflexivity|]. eexists. split; [vm_compute; reflexivity|].
  match goal with |- exists m2 c', ina_mem_realloc _ _ _ _ ?m = _ /\ _ => set (m1 := m) end.
  assert (owned m1 4104 4 [1; 2; 3; 4]) as Ho.
  { split; [unfold block_size; split_and!; [lia|done|lia|lia]|reflexivity| |reflexivity|reflexivity].
    intros i Hi. unfold in_range, block_size in Hi. assert (i ∈ seqZ 4096 19) as Hin by (apply elem_of_seqZ; lia).
    revert i Hin Hi. change (forall i, i ∈ seqZ 4096 19 -> (4104 - 8 <=? i) && (i <? 4104 - 8 + (4 + 15)) = true -> is_Some (bytes m1 !! i)).
    assert (Forall (fun i => is_Some (bytes m1 !! i)) (seqZ 4096 19)) as HF by (vm_compute; repeat constructor; by eexists).
    rewrite Forall_forall in HF. intros i Hi _. by apply HF. }
  destruct (mem_realloc_keeps zeros 4104 4 6 (fun _ => 8192) [1; 2; 3; 4] m1 Ho) as (m2 & c' & Hr & Ho' & Ht & _); [lia|lia| |].
  - split_and!; [lia|done|vm_compute; congruence|]. intros i Hi. rewrite freed_lookup. unfold in_range, block_size in *.
    destruct ((4104 - 8 <=? i) && (i <? 4104 - 8 + (4 + 15))) eqn:Hr; [done|].
    destruct (bytes m1 !! i) as [x|] eqn:Hx; [|done]. exfalso.
    assert (Forall (fun kv => kv.1 < 8192) (map_to_list (bytes m1))) as HF by (vm_compute; repeat constructor).
    rewrite Forall_forall in HF. specialize (HF (i, x) ltac:(by apply elem_of_map_to_list)). cbn in HF. lia.
  - exists m2, c'. split; [done|]. split; [done|]. exact Ht.
Defined.

(** A block of [ina_mem_alloc_aligned] with a larger alignment has its content elsewhere after [ina_mem_realloc];
    a failure of [realloc] ends in a store behind the null pointer, and so do both operations on the null pointer, which
    their descriptions allow. *)
Definition aligned_block : option mem :=
  '(m, _) ← mem_alloc_aligned zeros 64 4 (fun _ => 4096) no_memory;
  store m 4160 [1; 2; 3; 4].
Theorem memory_defects :
  (m ← aligned_block; '(m, ptr) ← ina_mem_realloc zeros 4160 8 (fun _ => 8192) m; load m ptr 8) = Some [0; 0; 0; 0; 0; 0; 0; 0] /\
  (m ← aligned_block; ina_mem_realloc zeros 4160 8 (fun _ => 0) m) = None /\
  (m ← aligned_block; ina_mem_realloc zeros 0 8 (fun _ => 8192) m) = None /\
  (m ← aligned_block; ina_mem_free 0 m) = None.
Proof. vm_compute. repeat split. Qed.
End MemAlloc.
