(* ===== verification/Lifetimes.v ===== *)
(** * Contexts from creation to release (process.c, cron.c)

    How process contexts, descriptors, cron contexts and their events are made and freed.  A table, a pool and a clock for a new
    context are arguments, [None] or [false] if they cannot be had.  A heap of events says which are allocated: freeing takes them out of it, and
    freeing what is not there makes an operation [None], as does reading memory that was never written. *)
From Stdlib Require Import ZArith Lia Bool.
From stdpp Require Import base numbers option fin_maps gmap sets list.
From S2P Require Import Prelude Error Hashtable Table Fsm Process CronPattern Cron.

Module Lifetimes.
Import Error Hashtable Table Fsm Process CronPattern Cron.

(** ** Processes *)

Definition ina_process_ctx_new {T} (mem_ok clock_ok pool_ok : bool) (table : option T) : result (ctx T) :=
  if negb mem_ok then Err INA_ERR_OUT_OF_MEMORY else
  match clock_ok && pool_ok, table with
  | true, Some t => Ok (Ctx t ∅)
  | _, _ => Err INA_ERR_OUT_OF_MEMORY
  end.

(** [struct ina_process_descriptor_s] in memory from [ina_mem_alloc]: a field that was never
    written is [None]. *)
Record raw_descriptor := RawDescriptor {
  rd_full_path : option (option text); rd_working_dir : option (option text); rd_startup_args : option (option text);
  rd_stop_wait_time_ms : Z; rd_cf : Z; rd_c_ref : Z
}.
Definition ina_process_descriptor_new (full_path : text) (working_dir startup_args : option text) (stop_wait_time_ms cf : Z) (mem_ok : bool) : result raw_descriptor :=
  if (length full_path =? 0)%nat then Err INA_ERR_INVALID_ARGUMENT else
  if negb mem_ok then Err INA_ERR_OUT_OF_MEMORY else
  Ok (RawDescriptor (Some (Some full_path)) (match working_dir with Some d => Some (Some d) | None => None end)
        (match startup_args with Some a => Some (Some a) | None => None end) stop_wait_time_ms cf 0).

(** Whether a descriptor is freed: not while a process refers to it.  The strings are read. *)
Definition ina_process_descriptor_free (d : raw_descriptor) : option bool :=
  if 0 <? rd_c_ref d then Some false else
  _ ← rd_full_path d; _ ← rd_working_dir d; _ ← rd_startup_args d; Some true.

(** What [ina_process_new] copies of a descriptor. *)
Definition copied (d : raw_descriptor) : option descriptor :=
  p ← rd_full_path d; w ← rd_working_dir d; a ← rd_startup_args d;
  Some (Descriptor (default [] p) w (default [] a) (rd_cf d)).

(** Only a descriptor with a working directory and arguments can be used or freed; that of
    [ina_process_exec] has no directory. *)
Lemma descriptor_is_written (full_path : text) (working_dir startup_args : option text) (ms cf : Z) (d : raw_descriptor) :
  ina_process_descriptor_new full_path working_dir startup_args ms cf true = Ok d ->
  match working_dir, startup_args with
  | Some w, Some a => copied d = Some (Descriptor full_path (Some w) a cf) /\ ina_process_descriptor_free d = Some true
  | _, _ => copied d = None /\ ina_process_descriptor_free d = None
  end.
Proof.
  unfold ina_process_descriptor_new. destruct (length full_path =? 0)%nat; [done|]. cbn [negb]. intros [= <-].
  unfold copied, ina_process_descriptor_free. by destruct working_dir, startup_args.
Qed.

(** ** Cron contexts *)

Section Contexts.
Context {T W : Type} `{!TableOps T}.
Context `{!OS W}.
Variable version_hex : Z.
(** Whether assertions are checked. *)
Variable debug : bool.

Abbreviation cron := (cron T W).

(** [time] is the clock; the callback that loads events works on the new context. *)
Definition ina_cron_ctx_new (procs : result (ctx T)) (events : option T) (w : W) (time : Z) (load_cb : option (cron -> option cron)) : option (result cron) :=
  match procs, events with
  | Ok procs, Some events =>
      let c := Cron_ events ∅ procs w time 0 60 in
      match load_cb with Some f => c ← f c; Some (Ok c) | None => Some (Ok c) end
  | Err e, _ => Some (Err e)
  | _, None => Some (Err INA_ERR_OUT_OF_MEMORY)
  end.

(** The assertion wants the code of [ina_cron_event_is_running] to be 0, which says that the event
    runs.  An event that has its context is to be taken out of the table, which overwrites the
    argument with the address of the event: the context is then freed in place of the event. *)
Definition ina_cron_event_free (destroy : bool) (p : Z) (c : cron) : option cron :=
  if p =? 0 then Some c else
  e ← c_heap c !! p;
  asserted ← (if debug then ina_cron_event_is_running version_hex c e else Some true);
  if negb asserted then None else
  if negb (e_ctx e =? 0) && negb destroy then None else
  procs ← (if e_process e =? 0 then Some (c_procs c)
           else _ ← ctx_heap (c_procs c) !! e_process e; Some (ina_process_free (c_procs c) (e_process e)));
  Some (set_heap (delete p (c_heap c)) (set_procs procs (c_world c) c)).

Definition __ina_free_event : Z -> cron -> option cron := ina_cron_event_free true.
(** What is still allocated when the context is gone. *)
Definition ina_cron_ctx_free (c : cron) : option (gmap Z event) :=
  c ← for_each __ina_free_event (tb_foreach (c_events c)) c; Some (c_heap c).

Definition ina_cron_event_by_id (id : text) (c : cron) : cron * result Z :=
  let (evs, r) := tb_get (c_events c) (key_str id) in
  (Cron_ evs (c_heap c) (c_procs c) (c_world c) (c_t1 c) (c_t2 c) (c_stime c), r).
Definition ina_cron_make_pattern (tt : timetable) : result unit := Err (INA_ERR_NOT_ E_IMPLEMENTED).
End Contexts.

Section Released.
Context {T W : Type} `{!TableOps T}.
Context `{!OS W}.
Variable version_hex : Z.
Abbreviation cron := (cron T W).

(** The release of one event, in a build without assertions. *)
Lemma free_event_spec (c : cron) (p : Z) (e : event) : p <> 0 -> c_heap c !! p = Some e -> event_ok (c_procs c) e ->
  exists c', __ina_free_event version_hex false p c = Some c' /\ c_heap c' = delete p (c_heap c) /\
    (forall e', event_ok (c_procs c) e' -> event_ok (c_procs c') e').
Proof.
  intros Hp He Hok. unfold __ina_free_event, ina_cron_event_free. destruct (Z.eqb_spec p 0); [done|]. rewrite He. cbn [mbind option_bind negb].
  rewrite andb_false_r. cbn iota. destruct (Z.eqb_spec (e_process e) 0) as [|Hne]; cbn [mbind option_bind].
  - eexists. split; [reflexivity|]. by split.
  - destruct Hok as [?|[q Hq]]; [done|]. rewrite Hq. cbn [mbind option_bind]. eexists. split; [reflexivity|]. split; [done|].
    intros e' [He'|He']; [by left|right]. cbn [c_procs set_heap set_procs ina_process_free ctx_heap].
    destruct (decide (e_process e' = e_process e)) as [->|Hd]; [rewrite lookup_alter_eq, Hq; by eexists|by rewrite lookup_alter_ne].
Qed.

(** A context that is freed frees exactly the events of its table. *)
Theorem ctx_free_frees (c : cron) : let ps := tb_foreach (c_events c) in
  NoDup ps -> (forall p, p ∈ ps -> p <> 0 /\ exists e, c_heap c !! p = Some e /\ event_ok (c_procs c) e) ->
  exists h, ina_cron_ctx_free version_hex false c = Some h /\ forall p, h !! p = if decide (p ∈ ps) then None else c_heap c !! p.
Proof.
  intros ps. unfold ina_cron_ctx_free. fold ps. generalize ps. clear ps. intros ps Hnd Hps.
  revert c Hps. induction Hnd as [|p ps Hp Hnd IH]; intros c Hps; cbn [for_each].
  - exists (c_heap c). split; [done|]. intros p. destruct (decide (p ∈ [])) as [H|]; [by apply elem_of_nil in H|done].
  - destruct (Hps p ltac:(left)) as (Hp0 & e & He & Hok). destruct (free_event_spec c p e Hp0 He Hok) as (c' & -> & Hh & Hev). cbn [mbind option_bind].
    destruct (IH c') as (h & Hr & Hl).
    { intros q Hq. destruct (Hps q ltac:(by right)) as (Hq0 & e' & He' & Hok'). split; [done|]. exists e'. split; [|by apply Hev].
      rewrite Hh, lookup_delete_ne; [done|]. by intros ->. }
    exists h. split; [exact Hr|]. intros q. rewrite Hl, Hh. destruct (decide (q ∈ ps)), (decide (q ∈ p :: ps)) as [|Hn]; try done.
    + exfalso. apply Hn. by right.
    + match goal with H : q ∈ p :: ps |- _ => apply elem_of_cons in H as [->|H]; [apply lookup_delete_eq|done] end.
    + rewrite lookup_delete_ne; [done|]. intros ->. apply Hn. left.
Qed.

(** An event that was made for a context is not in its table, and is left when the context is gone. *)
Theorem events_outlive_their_context `{!TableLaws n T} (t : T) (procs : ctx T) (w : W) (time : Z) (id pattern : text) (cf p : Z) (c c' : cron) :
  tb_rep t ∅ -> valid_key n (key_str id) ->
  ina_cron_ctx_new (Ok procs) (Some t) w time None = Some (Ok c) ->
  ina_cron_event_new id pattern cf p c = Some (c', Ok p) ->
  exists h, ina_cron_ctx_free version_hex false c' = Some h /\ is_Some (h !! p).
Proof.
  intros Ht Hk [= <-] Hev. unfold ina_cron_event_new in Hev. destruct (length id =? 0)%nat; [done|]. cbn [c_events] in Hev.
  destruct (tb_get_rep t ∅ (key_str id) Ht Hk) as [Hrep Hr]. destruct (tb_get t (key_str id)) as [t' r]. cbn [fst snd] in *. subst r. 
  rewrite lookup_empty in Hev. destruct (p =? 0); [done|].
  destruct (ina_cron_parse_pattern pattern empty_timetable) as [[tab [rc|]]|]; cbn [mbind option_bind] in Hev; [|done..].
  injection Hev as <-. unfold ina_cron_ctx_free. cbn [c_events set_heap]. destruct (tb_foreach_rep t' ∅ Hrep) as (l & Hl & ->).
  rewrite map_to_list_empty in Hl. apply Permutation_nil_r in Hl as ->. cbn [fmap list_fmap for_each mbind option_bind].
  eexists. split; [reflexivity|]. cbn [c_heap set_heap]. rewrite lookup_insert_eq. by eexists.
Qed.

(** With assertions no event is freed but one that runs; without them, an event that has its context
    can only be freed by its context. *)
Theorem event_free_defects (c : cron) (p : Z) (e : event) : p <> 0 -> c_heap c !! p = Some e ->
  (ina_cron_event_is_running version_hex c e = Some false -> forall destroy, ina_cron_event_free version_hex true destroy p c = None) /\
  (e_ctx e <> 0 -> ina_cron_event_free version_hex false false p c = None).
Proof.
  intros Hp He. unfold ina_cron_event_free. destruct (Z.eqb_spec p 0); [done|]. rewrite He. cbn [mbind option_bind]. split.
  - intros -> destroy. done.
  - intros Hc. cbn [negb]. by destruct (Z.eqb_spec (e_ctx e) 0).
Qed.
End Released.
End Lifetimes.
