(* ===== verification/TimeText.v ===== *)
(** * Times as texts, and sleeping (time.c)

    [strftime] and the conversion to local time are arguments: [format] is the text that a format
    gives for a broken-down time.  A text goes into a string of Str.v; whether the caller's pointer
    to the string is still good is told by the size of its buffer, which changes exactly if it was moved. *)
From Stdlib Require Import ZArith Lia Bool.
From stdpp Require Import base numbers option list.
From S2P Require Import Prelude Error Str.

Module TimeText.
Import Error Str.

Abbreviation chars := (list Z).
Definition INA_TIME_NOT_INITIALIZED : Z := Z.lor (INA_ES S_TIME) (INA_ERR_NOT_ E_INITIALIZED).
Definition NOT_FORMATTED : Z := Z.lor (INA_ES S_STRING) (INA_ERR_NOT_ E_FORMATTED).

Section Texts.
Variable malloc_ok : Z -> bool.
Variable garbage : Z -> list Z.
Context {TM : Type}.
Variable localtime : Z -> option TM.
Variable format : chars -> TM -> chars.

(** [strftime]: the number of characters, and the memory with the text; 0 when text and final NUL do
    not fit, and then what is in the memory is not told. *)
Definition strftime (m : list Z) (max : Z) (fmt : chars) (tm : TM) : option (Z * list Z) :=
  let t := format fmt tm in
  if max <=? Z.of_nat (length t) then Some (0, m) else
  m ← write_at m 0 (t ++ [0]); Some (Z.of_nat (length t), m).

(** [secs] are the seconds of the time.  The string and the number of characters. *)
Definition ina_time_strftime (buf : str) (buflen : Z) (fmt : chars) (secs : Z) : option (result (str * Z)) :=
  match localtime secs with
  | None => Some (Err INA_TIME_NOT_INITIALIZED)
  | Some tm =>
      '(nw, m) ← strftime (s_data buf) buflen fmt tm;
      if nw =? 0 then Some (Err NOT_FORMATTED) else Some (Ok (with_data buf m, nw))
  end.

Definition ina_time_strptime : result unit := Err (Z.lor (INA_ES S_API) (INA_ERR_NOT_ E_IMPLEMENTED)).

(** [%09ld] *)
Fixpoint last_digits (n : nat) (x : Z) : chars :=
  match n with O => [] | S n => last_digits n (x / 10) ++ [48 + x mod 10] end.

(** The string at the end of the function; the caller's pointer is not changed. *)
Definition ina_time_tsc_strftime (buf : str) (fmt : chars) (secs nanos : Z) (show_nanos : bool) : option (result str) :=
  match localtime secs with
  | None => Some (Err INA_TIME_NOT_INITIALIZED)
  | Some tm =>
      '(nw, m) ← strftime (s_data buf) (ina_str_size (Some buf)) fmt tm;
      if nw =? 0 then Some (Err NOT_FORMATTED) else
      buf ← ina_str_adjust_len (with_data buf m);
      if show_nanos then
        let bs := last_digits 9 nanos ++ [0] in
        buf ← (if 0 <? ina_str_len (Some buf) then ina_str_catcstr malloc_ok garbage buf [46; 0] else Some buf);
        buf ← ina_str_catcstr malloc_ok garbage buf bs;
        Some (Ok buf)
      else Some (Ok buf)
  end.

(** The argument of [usleep] has 32 bits; what it returns is told for the microseconds. *)
Definition ina_time_sleep (usleep : Z -> Z) (msec : Z) : result unit :=
  if usleep (u32 (msec * 1000)) =? -1 then Err INA_ERR_OPERATION_FAILED else Ok tt.
End Texts.

(** ** What is written *)

Lemma strlen_text (t rest : list Z) : 0 ∉ t -> strlen (t ++ 0 :: rest) = Some (Z.of_nat (length t)).
Proof.
  induction t as [|c t IH]; intros Ht; [done|]. apply not_elem_of_cons in Ht as [Hc Ht]. cbn [app strlen length].
  destruct (Z.eqb_spec c 0); [congruence|]. rewrite IH by done. cbn [mbind option_bind]. f_equal. lia.
Qed.
Lemma last_digits_are_digits (n : nat) (x c : Z) : c ∈ last_digits n x -> 48 <= c < 58.
Proof.
  revert x. induction n as [|n IH]; intros x; cbn [last_digits]; [by intros ?%elem_of_nil|].
  rewrite elem_of_app, list_elem_of_singleton. intros [H| ->]; [by apply IH in H|dlia].
Qed.
Lemma length_last_digits (n : nat) (x : Z) : length (last_digits n x) = n.
Proof. revert x. induction n as [|n IH]; intros x; cbn [last_digits]; [done|]. rewrite length_app, IH. cbn. lia. Qed.

(** Appending in the room that is left. *)
Lemma catcstr_in_place (malloc_ok : Z -> bool) (garbage : Z -> list Z) (s : str) (t : list Z) :
  wf s -> 0 ∉ t -> s_len s + Z.of_nat (length t) + 1 < s_size s ->
  exists s', ina_str_catcstr malloc_ok garbage s (t ++ [0]) = Some s' /\ wf s' /\ text s' = text s ++ t /\
    s_size s' = s_size s /\ s_len s' = s_len s + Z.of_nat (length t).
Proof.
  intros Hwf Ht Hr. pose proof Hwf as [Hl Hs Hd Hz]. unfold ina_str_catcstr. rewrite strlen_text by done. cbn [mbind option_bind].
  unfold ina_str_ncatcstr. cbn [mbind option_bind]. rewrite strlen_text by done. cbn [mbind option_bind]. rewrite Z.leb_refl. cbn [negb].
  unfold ina_str_ncat, __ina_ensure_size. rewrite masked_size_small by lia.
  rewrite (wrap_small 64 (s_size s - s_len s - 1)) by (unfold in_width; lia).
  destruct (Z.ltb_spec (Z.of_nat (length t)) (s_size s - s_len s - 1)); [|lia]. cbn [mbind option_bind].
  rewrite read_at_some, drop_0 by (rewrite ?length_app; cbn [length]; lia). cbn [mbind option_bind]. rewrite Nat2Z.id, take_app_length.
  rewrite write_at_some by lia. cbn [mbind option_bind]. rewrite (wrap_small 32) by (unfold in_width; lia).
  set (d := take _ _ ++ _). assert (length d = length (s_data s)) as Hlen.
  { unfold d. rewrite !length_app, length_take, length_drop. lia. }
  rewrite (write_at_some d) by (cbn [length]; lia). cbn [mbind option_bind]. eexists. split; [reflexivity|].
  set (d' := take _ _ ++ _). assert (length d' = length d) as Hlen'.
  { unfold d'. rewrite !length_app, length_take, length_drop. cbn [length]. lia. }
  split_and!; cbn [s_size s_len]; try done.
  - split; cbn [s_size s_len s_data]; [lia|lia|lia|]. unfold d'. rewrite lookup_app_r by (rewrite length_take; lia).
    rewrite length_take. replace (_ - _)%nat with O by lia. done.
  - unfold text. cbn [s_data s_len]. unfold d'. rewrite take_app_le by (rewrite length_take; lia). rewrite take_take, Nat.min_id.
    unfold d. rewrite app_assoc, take_app_le by (rewrite !length_app, length_take; lia). rewrite take_ge; [done|]. rewrite length_app, length_take. lia.
Qed.

(** [strftime] in a string with room, and its length. *)
Lemma strftime_spec {TM} (format : chars -> TM -> chars) (s : str) (fmt : chars) (tm : TM) :
  let t := format fmt tm in wf s -> 0 ∉ t -> Z.of_nat (length t) < s_size s ->
  exists m s', strftime format (s_data s) (ina_str_size (Some s)) fmt tm = Some (Z.of_nat (length t), m) /\
    ina_str_adjust_len (with_data s m) = Some s' /\ wf s' /\ text s' = t /\ s_size s' = s_size s /\ s_len s' = Z.of_nat (length t).
Proof.
  intros t [Hl Hs Hd Hz] Ht Hr. unfold strftime, ina_str_size. fold t. rewrite masked_size_small by lia.
  destruct (Z.leb_spec (s_size s) (Z.of_nat (length t))); [lia|].
  rewrite write_at_some by (rewrite ?length_app; cbn [length]; lia). cbn [mbind option_bind take app Z.to_nat].
  change (take 0 (s_data s)) with (@nil Z). cbn [app]. rewrite Nat.add_0_l.
  set (m := (t ++ [0]) ++ _). assert (m = t ++ 0 :: drop (length (t ++ [0])) (s_data s)) as Hm by (unfold m; by rewrite <- app_assoc).
  exists m, (Str (s_size s) (Z.of_nat (length t)) m). split; [done|]. unfold ina_str_adjust_len, with_data, with_len. cbn [s_data s_size].
  rewrite Hm, strlen_text by done. cbn [mbind option_bind]. rewrite (wrap_small 32) by (unfold in_width; lia). split; [done|].
  split_and!; cbn [s_size s_len]; try done.
  - split; cbn [s_size s_len s_data]; [lia|lia| |].
    + rewrite !length_app. cbn [length]. rewrite length_drop, ?length_app. cbn [length]. lia.
    + rewrite lookup_app_r by lia. by replace (_ - _)%nat with O by lia.
  - unfold text. cbn [s_data s_len]. rewrite Nat2Z.id. apply take_app_length.
Qed.

(** A time is formatted where the caller has its string, if there is room for ten characters and two
    more. *)
Theorem tsc_strftime_writes_time (malloc_ok : Z -> bool) (garbage : Z -> list Z) {TM} (localtime : Z -> option TM) (format : chars -> TM -> chars)
    (buf : str) (fmt : chars) (secs nanos : Z) (tm : TM) : let t := format fmt tm in
  localtime secs = Some tm -> wf buf -> t <> [] -> 0 ∉ t -> Z.of_nat (length t) + 11 < s_size buf ->
  forall show_nanos, exists s', ina_time_tsc_strftime malloc_ok garbage localtime format buf fmt secs nanos show_nanos = Some (Ok s') /\
    wf s' /\ text s' = t ++ (if show_nanos : bool then 46 :: last_digits 9 nanos else []) /\ s_size s' = s_size buf.
Proof.
  intros t Htm Hwf Hne H0 Hr show. assert (length t <> O) by (by destruct t). unfold ina_time_tsc_strftime. rewrite Htm.
  destruct (strftime_spec format buf fmt tm Hwf H0 ltac:(fold t; lia)) as (m & s1 & -> & Ha & Hwf1 & Ht1 & Hs1 & Hl1). fold t in Ht1, Hl1. cbn [mbind option_bind].
  fold t. destruct (Z.eqb_spec (Z.of_nat (length t)) 0); [lia|]. rewrite Ha. cbn [mbind option_bind]. destruct show.
  - unfold ina_str_len. rewrite Hl1. destruct (Z.ltb_spec 0 (Z.of_nat (length t))); [|lia].
    destruct (catcstr_in_place malloc_ok garbage s1 [46] Hwf1) as (s2 & Hc2 & Hwf2 & Ht2 & Hs2 & Hl2); [|cbn [length]; lia|].
    { intros ?%list_elem_of_singleton. done. }
    cbn [app] in Hc2. rewrite Hc2. cbn [mbind option_bind].
    destruct (catcstr_in_place malloc_ok garbage s2 (last_digits 9 nanos) Hwf2) as (s3 & -> & Hwf3 & Ht3 & Hs3 & _).
    { intros ?%last_digits_are_digits. lia. }
    { rewrite length_last_digits, Hs2, Hl2. cbn [length]. lia. }
    cbn [mbind option_bind]. exists s3. split; [done|]. split; [done|]. split; [|congruence]. rewrite Ht3, Ht2, Ht1, <- app_assoc. done.
  - exists s1. split; [done|]. split; [done|]. split; [|congruence]. by rewrite Ht1, app_nil_r.
Qed.

Definition noon (fmt : chars) (_ : unit) : chars := [49; 50; 58; 48; 48].
Definition at_noon (_ : Z) : option unit := Some tt.
Definition room (size : Z) : str := Str size 0 (repeat 0 (Z.to_nat size)).
Lemma tsc_strftime_writes_time_witness :
  exists s', ina_time_tsc_strftime (fun _ => true) (fun _ => []) at_noon noon (room 32) [] 0 120034 true = Some (Ok s') /\
    wf s' /\ text s' = noon [] tt ++ 46 :: last_digits 9 120034 /\ s_size s' = s_size (room 32).
Proof.
  apply (tsc_strftime_writes_time (fun _ => true) (fun _ => []) at_noon noon (room 32) [] 0 120034 tt); [done| |done| |done].
  - split; vm_compute; [split; congruence|done|congruence|done].
  - unfold noon. rewrite !not_elem_of_cons. split_and!; try done. apply not_elem_of_nil.
Defined.

(** In a smaller string the time fits, but the nanoseconds move it, and the caller keeps the old
    pointer; the length of a string that [ina_time_strftime] fills stays what it was; and a pause of more than 71
    minutes is shortened. *)
Theorem time_text_defects :
  (r ← ina_time_tsc_strftime (fun _ => true) (fun _ => []) at_noon noon (room 12) [] 0 1 true; Some (match r with Ok s => s_size s =? 12 | Err _ => true end)) = Some false /\
  (r ← ina_time_strftime at_noon noon (room 12) 12 [] 0; Some (match r with Ok (s, _) => s_len s | Err _ => -1 end)) = Some 0 /\
  (forall usleep, usleep 704 = 0 -> ina_time_sleep usleep 4294968 = Ok tt).
Proof. split; [by vm_compute|]. split; [by vm_compute|]. intros usleep H. unfold ina_time_sleep. change (u32 (4294968 * 1000)) with 704. by rewrite H. Qed.

Lemma sleep_is_exact (usleep : Z -> Z) (msec : Z) : 0 <= msec -> msec * 1000 < 2 ^ 32 ->
  ina_time_sleep usleep msec = if usleep (msec * 1000) =? -1 then Err INA_ERR_OPERATION_FAILED else Ok tt.
Proof. intros H1 H2. unfold ina_time_sleep. rewrite wrap_small by (unfold in_width; lia). done. Qed.
End TimeText.
